(* ===== verification/_CoqProject ===== *)
-Q . S2P
Prelude.v
GoStrings.v
Errors.v
Model.v
Definitions.v
JoinPolicies.v
Repo.v
Ports.v
Events.v
Run.v
Validate.v
Engine.v
RunFrame.v
CaseInv.v
RunInv.v
EngineInv.v
Persist.v
Plans.v
ValidateFacts.v
GraphFacts.v
BlockFacts.v
System.v
Calls.v
Postgres.v
PostgresLaws.v
Chain.v
Calendar.v
Scenario.v
CaseTheorems.v
OperationTheorems.v
DefinitionTheorems.v
QueryTheorems.v
Idempotency.v
IdempotencyHttp.v
IdempotencyFacts.v
IdempotencyTheorems.v
Action.v
ActionFacts.v
ActionTheorems.v
Access.v
AccessTheorems.v
Decimal.v
AuditLog.v
AuditTheorems.v
Document.v
ProcessForm.v
ProcessService.v
ProcessFacts.v
ProcessTheorems.v
GoText.v
Scaffold.v
ScaffoldTheorems.v
ScaffoldSource.v
ExtractTheorems.v
CreateApp.v
Netip.v
NetipFacts.v
Middleware.v
MiddlewareTheorems.v
Requests.v
AuditStore.v
Zitadel.v
Storage.v
Logging.v
Settings.v
RateLimit.v
ApiStore.v
Uploads.v
UploadFacts.v
UploadTheorems.v
ApiHandlers.v
ApiTheorems.v
Bucket.v
Workers.v
Adapters.v
Pool.v
ProcessHttp.v
StructValidation.v
Tracing.v
Migrations.v
