(* ===== verification/Prelude.v ===== *)
(** * The workflow engine of vogel and the packages around it, verified

    vogel is a Go toolkit for administrative applications.  This development models its
    [workflow] package - a business process engine that runs cases of versioned
    definitions over a repository the caller's transaction owns - and the packages that
    decide what happens around a case: idempotency keys, effects as jobs, access checks,
    decimal bounds, the audit log, generated documents, and the process application of
    the boilerplate example that puts forms on top of the engine; the packages a request
    or a process goes through: middlewares, reading and validation of requests, token
    validation, object storage, the database pool, workers, mail, logging, configuration;
    the example API whose documents, uploads and jobs use all of them; and the command that
    turns the boilerplate into a new project.

    ** The program

    A [Definition] is a graph of task nodes, decisions, parallel and inclusive
    splits, and joins.  [Validate] accepts or refuses it; [Engine.Register] keeps the
    valid ones by name and version.  A [Case] of a definition holds tokens (where the
    work is) in scopes (the blocks that are open).  [Open], [Move], [Claim],
    [Release], [Reassign], [SetDeadline], [Expire], [Cancel], [CancelToken],
    [RefreshEligibility] and [RecordFailure] change a case.  All of them but [Open]
    and [RecordFailure] load it into a [caseRun], change the run in memory (routing
    tokens through decisions, splits and joins until each rests, waits or ends), and
    persist the run: the case row by compare-and-swap on its revision and last Seq,
    then tokens, scopes and one event per change.  The repository is a port; [postgres]
    implements it, with a trigger that chains the events of a case by digest.

    The effect sink of the engine sees the events inside the same transaction; [action]
    implements it: a registry of handlers, one River job per effect, a worker that
    records attempts and fans notifications out.  [document] is such a handler: it
    renders a template, uploads it through [storage] and records it once per effect.
    [worker] sets River up: the middlewares of a job and the request ID in its metadata.

    A process loads its settings ([config]) and builds its logger, adapters and router.
    An HTTP request passes the stack of [httpx/middleware] - client address, identifiers,
    access log, recovery, metrics, security headers -, the authentication ([auth/zitadel]
    validates the token) and access middleware ([access]) and, where a client sends a key,
    the idempotency middleware, which answers a repeated request from the response its
    store kept; its parameters and body are read by [request].  [audit] redacts and
    records what was done, and lists it.  The boilerplate's process application compiles
    specifications with forms to definitions, keeps them in a catalog over a table, and
    moves cases with form values; its handlers show a case to the people it concerns.  The
    example API creates documents with a case of its approval workflow each, and takes files
    by presigned upload: the client puts an object, confirms it, and a job inspects it before
    it is served.  [create-vogel-app] fetches the boilerplate, drops the
    components that were not chosen, and runs go and git in the result.

    ** The files

    Shared:
    - [Prelude]: this overview; results ([Ok], [Err], [Panic] for a nil dereference,
      [Fuel] for a cut-off recursion) and their bind, sorting by a key, generic lemmas
      on lists and permutations, the tactics and the hint databases of the library.
    - [GoStrings]: byte order, decimal printing, [TrimSpace]; [GoText]: characters of
      UTF-8 texts, searching, splitting, digits; [Netip]: addresses and prefixes of
      [net/netip], [NetipFacts]: the round trip of an address through its text.

    The engine, data and operations:
    - [Errors]: sentinels, wrapping, [errors.Is], [FailureKindOf] ([failure.go]),
      the status table of [workflowhttp/status.go].
    - [Model]: the types of [workflow.go], [tokens.go], [joinpolicy.go] and
      [operations.go]; the JSON of event details with [marshalDetail] and the readers.
    - [Definitions]: lookups on a definition ([workflow.go], [move.go]).
    - [JoinPolicies]: [roundTally], [closes], [JoinRejected] ([joinpolicy.go]).
    - [Repo]: the port [Repository] as a class, and [RepositoryLaws], its documented
      contract over an abstract [view] of each case (row, tokens, scopes, events).
    - [Ports]: the engine's value: callbacks of [Config] and the registries.
    - [Events]: [appendEvent], [listEvents], [upcastEvent], [VerifyChain]
      ([events.go]).
    - [Run]: [caseRun] and the routing ([run.go]; [closeBranches] of
      [joinpolicy.go], [applyAssignRule] of [assignrule.go], [resolveRoute] of
      [move.go]).
    - [Validate]: [Definition.Validate] with [blocks.go] and [validateJoinPolicies].
    - [Engine]: every operation and query of the engine ([engine.go], [open.go],
      [move.go], [assign.go], [operations.go], [cancel.go], [failure.go],
      [queries.go]).
    - [Postgres]: the statements of [postgres/repository.go] over tables with their
      constraints and trigger; an instance of [Repository].
    - [Calendar]: [calendar/calendar.go].

    The engine, proofs:
    - [RunFrame]: the class [RunRel], a relation on runs every primitive step
      respects; the composed steps respect it too.  Its instances are the frame of a
      call, the numbering of planned events and the tracking of changes.
    - [CaseInv], [RunInv], [EngineInv]: the invariant [case_inv] of a case's tokens and
      scopes, and that the steps, the routing and every operation keep it.
    - [Persist], [Plans], [Calls]: persisting a plan against [RepositoryLaws]: what is
      stored, the compare-and-swap, and what a whole call leaves behind.
    - [ValidateFacts], [GraphFacts], [BlockFacts]: what an empty list of violations
      means; the graph walks against reachability and cycles.
    - [System]: databases reached from an empty one by successful calls ([reachable]),
      and the invariant of all of them.
    - [PostgresLaws]: the instance of [RepositoryLaws] for [Postgres]; [Chain]: a
      principle for properties of the tables, and the digest chain.
    - [Scenario]: a review process with a parallel block, a join policy and a
      decision, run on the PostgreSQL tables by evaluation.  The witnesses apply the
      theorems to it.

    Around the engine:
    - [Idempotency]: [idempotency/idempotency.go], its store [idempotency/postgres] and
      [pgxtx]'s [WithTx]; [IdempotencyHttp]: [idempotency/httpx/middleware.go];
      [IdempotencyFacts]: what any sequence of calls leaves of a live key.
    - [Action]: [action] (registry, [plan], [Dispatch], jobs, worker, attempt log, notify
      handler), [notification]'s message and the class [QueueLaws] of River's unique
      jobs; [ActionFacts]: the registry as the engine's sink.
    - [Access]: [access/access.go], the middleware of [httpx/middleware] for access,
      permissions and bearer tokens, [auth], [authz] and [reqctx]'s user slot.
    - [Decimal]: [decimalx/bounds.go], [query.go]; shopspring/decimal as the classes
      [DecimalLib] and [DecimalLaws] with a concrete instance.
    - [AuditLog]: [audit/redact.go], [recorder.go], [audit.go] over a heap of maps and
      slices, so that shared and cyclic payloads are what they are in Go; [AuditStore]:
      [audit/postgres] over its table and [audit/httpx] over any repository.
    - [Document]: [document] with its PostgreSQL repository, [docflow] and the verdicts
      of [gotenberg].
    - [ProcessForm]: field types, forms, specifications, their JSON and their
      compilation ([domain/process]); [ProcessService]: catalog, service, value and
      version tables ([application/process], [infrastructure/bpms]); [ProcessFacts]:
      forms, stored specifications, and the invariant of the catalog.
    - [Scaffold]: the generator of projects ([internal/scaffold]): template markers,
      manifest and choice of components, versions and names, and the rewriting of a
      template's files as a map from paths to texts; [ScaffoldSource]: the extraction of a
      release's tarball and the copy of a checkout ([source.go]); [CreateApp]: the whole of
      [Generate] and the command [cmd/create-vogel-app].
    - [Middleware]: [httpx/middleware], [reqctx], the error envelope of [httpx/response],
      [internal/logtext], and the router's order of the middlewares.
    - [Requests]: [request]: the validator, the parameter readers, JSON bodies, messages.
    - [Zitadel]: [auth/zitadel]: configuration, claims, and introspection with its cache
      and merged calls as a step relation.
    - [Storage]: [storage] and [storage/s3]; [Logging]: [logger] over [log/slog]'s handlers;
      [Settings]: [config] and the settings of both examples; [RateLimit]:
      [examples/api/ratelimit.go].
    - [ApiStore]: the documents of [examples/api] and their store; [Uploads]: the upload flow,
      its handlers and jobs as programs that interleave call by call, [UploadFacts]: its
      invariant and the logic that shows it kept; [ApiHandlers]: the other handlers, the
      approval workflow, the policy and the job that notifies reviewers; [Bucket]: the object
      store the example runs with.
    - [Workers]: [worker]; [Pool]: [postgres] with its tracers; [Tracing]: [otel] with
      [otelpgx] and [otelriver], and the pool's metrics; [Migrations]: [migrate];
      [Adapters]: [notification/sendgrid], [notification/smtp], [authz/cerbos], the probes
      of the boilerplate and the queries of [action/postgres].
    - [ProcessHttp]: the boilerplate's [process_handler.go] over [ProcessService], and
      [httpx/openapi]; [StructValidation]: [validation].

    Theorems; C1 to C40 are the claims, the others are stated for use.  A component with few
    clients states its theorems in its own file, after its definitions:
    - [CaseTheorems]: the invariant of every reachable case (C1), open cases have work
      (C2), histories without gaps (C3), the digest chain accepted and tampering located
      (C4, C5), no lost update (C6), every call ends (C7), what a move stores (C8); also
      ended cases, the row as a projection of the tokens, stale revisions, opening,
      recording a failure.
    - [OperationTheorems]: expiry, claim, release, reassign, deadlines, cancelling and the
      refusals of a move, on each branch.
    - [DefinitionTheorems]: block structure of a valid definition (C21); also finality of a
      join's verdict, acyclic gateways, reachability, routes, the cycle search, the
      registry, and two limits: a valid chain of decisions the engine refuses, and the
      latest version after a definition is registered twice.
    - [QueryTheorems]: [AvailableFor] against [Move] (C22); also paging, the overdue and
      inbox lists, details, the upcast, business days, [LastActorOf], statuses.
    - [IdempotencyTheorems]: one execution per key (C9), exclusive leases (C10), faithful
      replay over HTTP (C11); also fencing of a holder that lost its key, fingerprints and
      expiry of keys.
    - [ActionTheorems]: effects commit with the move that caused them (C12), the attempt
      log (C13); also fan-out of notifications, keys of effects, known effects and each
      outcome of a dispatch.
    - [Document]: one document per source key under any interleaving (C14); also
      the outcomes of an attempt.
    - [AuditTheorems]: nothing the denylist matches is recorded (C15), the walk with its
      cycle check against a plain one (C16); also the changes of an update.
    - [AuditStore]: pages partition the matching entries, an entry reads back, the
      status of a listing; also where totals, ties, limits and filters fall short of the
      documentation.
    - [AccessTheorems]: who can reach which attribute map on the heap; access fails closed
      (C17); also attributes resolved once per request and never shared, and the reading of
      credentials.
    - [ProcessTheorems]: a submission is atomic (C18), published processes survive a
      restart (C19), what a form keeps and reports (C20); also the version of a publish.
    - [Decimal]: bounded decimals and exact amounts.
    - [ScaffoldTheorems]: stripping markers as nested blocks (C23); also the choice of
      components, the order of versions, the files of a generated project.
    - [ExtractTheorems]: extraction stays in its directory (C25); also what a successful
      one wrote, and the limit that wraps.  [CreateApp]: what an exit code says of
      the target directory; also arguments and questions.
    - [MiddlewareTheorems]: a client's address cannot be forged (C26), the stack accounts for
      every request (C36); also identifiers and what reaches the log.
    - [Requests]: which bodies are accepted and how others are refused (C37); also
      how the validator gathers errors, and two slips of its messages and checks.
    - [Zitadel]: how long a revoked token is accepted (C24); also one call per token
      at a time, what the cache keeps and its bound, who is authenticated, the issuer's URL.
    - [Logging]: values under sensitive keys never change a line (C27); also
      correlation.  [Storage]: safe dispositions, bounded presigned URLs, uploads
      passed on whole.
    - [Settings]: settings that load are accepted by the adapters (C38); also every
      problem reported.  [RateLimit]: each client limited by its own requests (C39);
      also the wait a client is told.
    - [UploadTheorems]: a file that is served was inspected and stays as it was, in every
      interleaving (C28), and what one run of the validation makes of an upload (C29).
    - [ApiTheorems]: a document is created with its case, audit entry and job or not at all
      (C30), and who deletes it (C31); also transitions and the dates that are read.
    - [Bucket]: a presigned URL allows what it was signed for (C33); also the count of
      bytes and the round trip of an object.
    - [ProcessHttp]: a case is shown to the people it concerns and to nobody else
      (C32); also the answers of a submission, of an error, and the request in its context.
    - [Workers]: the request ID and the one sample of a job (C34); also the chain, the
      outcomes and the quoted schema.  [Tracing]: a job continues the trace of its request,
      the tracing middleware keeps the request ID as C34 asks, spans hold no arguments and
      nothing an error quotes, and set-up is checked.  [Migrations]: a run closes what it
      opened, and is locked unless that is disabled.
    - [Pool]: every hold of a connection is timed, once (C35); also TLS, timeouts and
      the lines of slow queries.  [Adapters]: a message is sent once, checks are bounded, an
      outage is logged once, and the timeline of attempts is exact.
    - [StructValidation]: an error is named by the path of its field in the client's
      JSON (C40); also three shapes of a type for which it is not.

    ** Integers, recursion and parameters

    Revisions, Seqs, versions and counters are [Z]: they grow by one per call, and
    their 64 bits are not reached.  An instant is its nanoseconds, a [uuid] its 128-bit
    value.  Lengths in a fingerprint are kept at 64 bits.  Recursion that is not
    structural takes a fuel:
    - [route] takes [routeFuel] = 257 * 33 + 1: the source stops after 256 gateway
      steps ([maxGatewaySteps]) and 32 hops of one decision loop ([maxDecisionHops]),
      so no more levels are entered; C7 shows that [Fuel] is never the answer of a call;
    - the walks of [Validate] take the number of transitions plus two (each transition
      enters the queue at most once), the depth-first search the number of nodes plus
      one; [GraphFacts] shows that both walks end within it;
    - [childOnPath] takes the number of scopes, the length of the longest path of
      parents in a run whose parents are older;
    - [BusinessDays] takes n * 366 + 1 days, the most its own limit of 366 days
      without a business day allows; [business_days_total] shows that it suffices;
    - the redacting walk takes [maxRedactDepth], the source's own limit of nesting; C16
      shows that every payload gets an answer within it;
    - the comments in front of a statement are skipped with its length plus one (each drops
      two bytes or more; [skip_total]);
    - the runes of a string are read with its number of bytes, and the eviction of the
      introspection cache takes the length of its list.

    Parameters, code the repository does not hold or the consumer supplies: SHA-256
    (fingerprints, documents, the digest of migration 010), time zones, holidays,
    contexts, guards, the join check, deadline and assignee resolvers, the sources of
    time, randomness and identifiers, River's queue, effect handlers, attribute
    resolvers, the policy checker and the authenticator, shopspring/decimal,
    [html/template], the PDF renderer, the object store and the signature of a URL,
    cel-go's rules, net/mail's addresses, the directory of profiles, PostgreSQL's reading
    of a number in JSONB and its order of rows with equal keys, the JSON encoding of audit
    payloads, the parsing of UUIDs, RFC 3339 times, durations, floats, URLs and media
    types, Unicode's normal form C and upper case, the detection of a type from bytes, the
    identity SDK and what the issuer answers at a time, the network, the go and git
    commands and the decoding of TOML, the keyed hash of a presigned URL, what pgxpool makes
    of a connection string, the database's collation, the middlewares a consumer adds to a
    worker, W3C propagation, goose, what the mail and policy services answer, the errors
    go-playground/validator reports and the promoted field reflection finds.
    Hypotheses on them are named: [sink_apart] and [sink_stable] (the sink writes its
    own tables and not the engine's), [fresh_uuids] (a drawn identifier is new),
    [guards_answer], [QueueLaws], [DecimalLaws], [canonical] (the configurations of a
    specification are as JSONB gives them back).  The witnesses meet all of them.

    ** Not modelled

    The text of error messages and logs; mutexes (a guarded section is one step);
    isolation of concurrent transactions, which is the database's (C6 states what the
    repository's compare-and-swap gives two calls planned from the same state); rounding
    of instants to microseconds and the integer ranges of columns; JSONB normalization of
    an event's detail; nil against empty slices in a query's answer; repeated keys of a
    JSON object; the encoding of a log line; timeouts of queries.  Of the repository's
    packages: code generated from OpenAPI documents ([bpmsgen], [apigen]);
    the composition roots, which only pass constructors to each other ([main.go] of both
    examples, the boilerplate's router and wiring); the embedded migrations; the forwarding
    of the pool's tracers to a consumer's; the success envelopes; River's client. *)

From stdpp Require Import base gmap sets list strings sorting.
From Stdlib Require Import ZArith Lia.

Declare Scope vogel_scope.
Delimit Scope vogel_scope with vogel.
Open Scope vogel_scope.

(** ** Results

    A Go call either returns a value, returns an error, or panics on a nil
    dereference.  [Fuel] is the answer of a bounded recursion of the model that
    ran out of its bound; the theorems show that it is never produced. *)

Inductive res (E A : Type) : Type :=
| Ok (a : A)
| Err (e : E)
| Panic
| Fuel.

Arguments Ok {E A} a.
Arguments Err {E A} e.
Arguments Panic {E A}.
Arguments Fuel {E A}.

Definition res_bind {E A B : Type} (m : res E A) (k : A -> res E B) : res E B :=
  match m with
  | Ok a => k a
  | Err e => Err e
  | Panic => Panic
  | Fuel => Fuel
  end.

Notation "'let!' x ':=' m 'in' k" := (res_bind m (fun x => k))
  (at level 10, x name, m at level 100, k at level 200) : vogel_scope.
Notation "'let!' ' p ':=' m 'in' k" :=
  (res_bind m (fun z => match z with p => k end))
  (at level 10, p strict pattern, m at level 100, k at level 200) : vogel_scope.

(** [deref p] is the read of a pointer that Go dereferences without a check. *)
Definition deref {E A : Type} (p : option A) : res E A :=
  match p with Some a => Ok a | None => Panic end.

(** [lift] is the answer of a callback of the consumer: a value or an error. *)
Definition lift {E A : Type} (m : E + A) : res E A :=
  match m with inl e => Err e | inr a => Ok a end.

(** [guardB b e] is [if !b { return e }]. *)
Definition guardB {E : Type} (b : bool) (e : E) : res E unit :=
  if b then Ok tt else Err e.

Section ResFacts.
Context {E A B : Type}.

Lemma res_bind_Ok (m : res E A) (k : A -> res E B) b :
  res_bind m k = Ok b <-> exists a, m = Ok a /\ k a = Ok b.
Proof.
  destruct m; simpl; split; try discriminate; eauto; intros (? & ? & ?); congruence.
Qed.

Lemma deref_Ok (p : option A) (a : A) : @deref E A p = Ok a <-> p = Some a.
Proof. destruct p; simpl; split; congruence. Qed.

Lemma lift_Ok (m : E + A) (a : A) : lift m = Ok a <-> m = inr a.
Proof. destruct m; simpl; split; congruence. Qed.

Lemma guardB_Ok (b : bool) (e : E) u : guardB b e = Ok u <-> b = true.
Proof. destruct u, b; simpl; split; congruence. Qed.

Lemma res_bind_not_Fuel (m : res E A) (k : A -> res E B) :
  m <> Fuel -> (forall a, m = Ok a -> k a <> Fuel) -> res_bind m k <> Fuel.
Proof. destruct m; simpl; auto; congruence. Qed.

Lemma lift_not_Fuel (m : E + A) : lift m <> Fuel.
Proof. destruct m; simpl; congruence. Qed.

Lemma deref_not_Fuel (p : option A) : @deref E A p <> Fuel.
Proof. destruct p; simpl; congruence. Qed.

Lemma guardB_not_Fuel (b : bool) (e : E) : guardB b e <> Fuel.
Proof. destruct b; simpl; congruence. Qed.

End ResFacts.

(** [res_inv] turns every successful bind of the context into the successful
    steps it is made of. *)
Ltac res_inv_step :=
  match goal with
  | H : res_bind _ _ = Ok _ |- _ => apply res_bind_Ok in H as (? & ? & H)
  | H : deref _ = Ok _ |- _ => apply deref_Ok in H
  | H : lift _ = Ok _ |- _ => apply lift_Ok in H
  | H : guardB _ _ = Ok _ |- _ => apply guardB_Ok in H
  | H : Ok _ = Ok _ |- _ => injection H as H
  | H : Err _ = Ok _ |- _ => discriminate H
  | H : Panic = Ok _ |- _ => discriminate H
  | H : Fuel = Ok _ |- _ => discriminate H
  | H : (_, _) = (_, _) |- _ => injection H as H
  end.
Ltac res_inv := repeat (res_inv_step; subst).

Create HintDb vogel.
#[export] Hint Resolve lift_not_Fuel deref_not_Fuel guardB_not_Fuel : vogel.
#[export] Hint Extern 1 (Ok _ <> Fuel) => discriminate : vogel.
#[export] Hint Extern 1 (Err _ <> Fuel) => discriminate : vogel.
#[export] Hint Extern 1 (Panic <> Fuel) => discriminate : vogel.

(** [res_total] discharges [m <> Fuel] along the binds of [m]. *)
Ltac res_total :=
  repeat first
    [ solve [auto with vogel]
    | lazymatch goal with
      | |- res_bind _ _ <> Fuel => apply res_bind_not_Fuel; [ | intros ? ?]
      end
    | progress case_match ].

(** ** Counting

    [count p l] is the number of elements of [l] that satisfy [p]. *)

Fixpoint count {A : Type} (p : A -> bool) (l : list A) : nat :=
  match l with
  | [] => 0
  | a :: l' => (if p a then 1 else 0) + count p l'
  end.

Section CountFacts.
Context {A : Type}.
Implicit Types (p q : A -> bool) (l : list A).

Lemma count_app p l1 l2 : count p (l1 ++ l2) = count p l1 + count p l2.
Proof. induction l1; simpl; lia. Qed.

Lemma count_cons p a l : count p (a :: l) = (if p a then 1 else 0) + count p l.
Proof. done. Qed.

Lemma count_Permutation p l1 l2 : l1 ≡ₚ l2 -> count p l1 = count p l2.
Proof. induction 1; simpl; lia. Qed.

Lemma count_ext p q l : (forall a, a ∈ l -> p a = q a) -> count p l = count q l.
Proof.
  induction l as [|a l IH]; intros H; simpl; [done|].
  rewrite (H a) by apply list_elem_of_here. rewrite IH; [done|].
  intros b Hb. by apply H, list_elem_of_further.
Qed.

Lemma count_pos p l : 0 < count p l <-> exists a, a ∈ l /\ p a = true.
Proof.
  induction l as [|a l IH]; simpl.
  - split; [lia|]. intros (a & Ha & _). by apply not_elem_of_nil in Ha.
  - setoid_rewrite elem_of_cons. destruct (p a) eqn:E.
    + split; [|lia]. intros _. eauto.
    + rewrite Nat.add_0_l, IH. split.
      * intros (b & Hb & Hp). eauto.
      * intros (b & [-> | Hb] & Hp); [congruence | eauto].
Qed.

Lemma count_0 p l : count p l = 0 <-> forall a, a ∈ l -> p a = false.
Proof.
  split.
  - intros H a Ha. destruct (p a) eqn:E; [|done].
    assert (0 < count p l) by (apply count_pos; eauto). lia.
  - intros H. destruct (count p l) eqn:E; [done|].
    assert (0 < count p l) as (a & Ha & Hp)%count_pos by lia.
    rewrite H in Hp; done.
Qed.

Lemma count_le_impl p q l :
  (forall a, a ∈ l -> p a = true -> q a = true) -> count p l <= count q l.
Proof.
  induction l as [|a l IH]; intros H; simpl; [lia|].
  specialize (IH ltac:(intros b Hb; apply H, list_elem_of_further, Hb)).
  pose proof (H a (list_elem_of_here a l)).
  destruct (p a), (q a); first [lia | by specialize (H0 eq_refl)].
Qed.

Lemma count_split p q l :
  count p l = count (fun a => p a && q a) l + count (fun a => p a && negb (q a)) l.
Proof. induction l as [|a l IH]; simpl; [done|]. destruct (p a), (q a); simpl; lia. Qed.

Lemma count_map_ext p (f : A -> A) l :
  (forall a, a ∈ l -> p (f a) = p a) -> count p (f <$> l) = count p l.
Proof.
  intros H. induction l as [|a l IH]; csimpl; [done|].
  rewrite H by apply list_elem_of_here. rewrite IH; [done|].
  intros b Hb. by apply H, list_elem_of_further.
Qed.

Lemma count_le_length p l : count p l <= length l.
Proof. induction l as [|a l IH]; csimpl; [lia|]. destruct (p a); lia. Qed.

Lemma count_filter_length p l : count p l = length (List.filter p l).
Proof. induction l as [|a l IH]; csimpl; [done|]. destruct (p a); csimpl; lia. Qed.

End CountFacts.

Lemma filter_all {A} (p : A -> bool) (l : list A) : (forall x, x ∈ l -> p x = true) -> List.filter p l = l.
Proof.
  induction l as [|a l IH]; intros Hp; simpl; [done|]. rewrite Hp by apply list_elem_of_here. f_equal.
  apply IH. intros x Hx. apply Hp. by apply list_elem_of_further.
Qed.

(** ** Collections addressed by a key

    The engine keeps slices of pointers to tokens and scopes, each addressed by
    its identifier.  [find_by] is the linear search, [upd_by] the write through
    the pointer that search returned. *)

Section Keyed.
Context {K A : Type} `{EqDecision K} (key : A -> K).
Implicit Types (l : list A) (k : K) (f : A -> A).

Fixpoint find_by (k : K) (l : list A) : option A :=
  match l with
  | [] => None
  | a :: l' => if decide (key a = k) then Some a else find_by k l'
  end.

Definition upd_by (k : K) (f : A -> A) (l : list A) : list A :=
  (fun a => if decide (key a = k) then f a else a) <$> l.

Lemma find_by_Some k l a : find_by k l = Some a -> a ∈ l /\ key a = k.
Proof.
  induction l as [|b l IH]; csimpl; [done|]. case_decide as E.
  - intros [= ->]. split; [apply list_elem_of_here | done].
  - intros [H ->]%IH. split; [by apply list_elem_of_further | done].
Qed.

Lemma find_by_None k l : find_by k l = None <-> k ∉ key <$> l.
Proof.
  induction l as [|b l IH]; csimpl.
  - split; [|done]. intros _ H. by apply not_elem_of_nil in H.
  - rewrite not_elem_of_cons. case_decide as E.
    + split; [done|]. intros [H _]. congruence.
    + rewrite IH. split; [|tauto]. intros. split; [congruence | done].
Qed.

Lemma find_by_elem l a : NoDup (key <$> l) -> a ∈ l -> find_by (key a) l = Some a.
Proof.
  induction l as [|b l IH]; intros ND Ha; [by apply not_elem_of_nil in Ha|].
  csimpl in *. apply NoDup_cons in ND as [Hb ND]. apply elem_of_cons in Ha as [->|Ha].
  - by rewrite decide_True.
  - rewrite decide_False; [by apply IH|].
    intros E. apply Hb. rewrite E. by apply list_elem_of_fmap_2.
Qed.

Lemma find_by_split k l a :
  NoDup (key <$> l) -> find_by k l = Some a ->
  exists l1 l2, l = l1 ++ a :: l2 /\ key a = k
    /\ (forall f, upd_by k f l = l1 ++ f a :: l2)
    /\ (forall b, b ∈ l1 ++ l2 -> key b <> k).
Proof.
  intros ND H. induction l as [|b l IH]; csimpl in *; [done|].
  apply NoDup_cons in ND as [Hb ND]. case_decide as E.
  - injection H as ->. exists [], l. split_and!; [done | done | |].
    + intros f. unfold upd_by; csimpl. destruct (decide (key a = k)); [|done]. f_equal.
      transitivity (id <$> l); [|by rewrite list_fmap_id].
      apply list_fmap_ext. intros i c Hc. rewrite decide_False; [done|].
      intros Ec. apply Hb. rewrite E, <- Ec. apply list_elem_of_fmap_2.
      eapply list_elem_of_lookup_2, Hc.
    + csimpl. intros c Hc Ec. apply Hb. rewrite E, <- Ec.
      by apply list_elem_of_fmap_2.
  - destruct (IH ND H) as (l1 & l2 & -> & Hk & Hu & Hn).
    exists (b :: l1), l2. split_and!; [done | done | |].
    + intros f. unfold upd_by in *. csimpl. destruct (decide (key b = k)); [done|].
      by rewrite Hu.
    + intros c. csimpl. rewrite elem_of_cons. intros [->|Hc]; auto.
Qed.

Lemma upd_by_keys k f l :
  (forall a, key (f a) = key a) -> key <$> upd_by k f l = key <$> l.
Proof.
  intros H. unfold upd_by. rewrite <- list_fmap_compose. apply list_fmap_ext.
  intros i a _. csimpl. case_decide; auto.
Qed.

Lemma length_upd_by k f l : length (upd_by k f l) = length l.
Proof. apply length_fmap. Qed.

Lemma find_by_upd k k' f l :
  (forall a, key (f a) = key a) ->
  find_by k' (upd_by k f l)
  = (if decide (k = k') then f <$> find_by k' l else find_by k' l).
Proof.
  intros Hf. induction l as [|b l IH]; csimpl; [by case_decide|].
  destruct (decide (key b = k)) as [E|E].
  - rewrite Hf. destruct (decide (key b = k')) as [E'|E']; csimpl.
    + rewrite decide_True by congruence. done.
    + apply IH.
  - destruct (decide (key b = k')) as [E'|E']; [|apply IH].
    rewrite decide_False by congruence. done.
Qed.

Lemma find_by_upd_eq k f l a :
  (forall a, key (f a) = key a) -> find_by k l = Some a ->
  find_by k (upd_by k f l) = Some (f a).
Proof. intros Hf H. rewrite find_by_upd, decide_True by done. by rewrite H. Qed.

Lemma find_by_upd_ne k k' f l :
  (forall a, key (f a) = key a) -> k <> k' ->
  find_by k' (upd_by k f l) = find_by k' l.
Proof. intros Hf H. by rewrite find_by_upd, decide_False. Qed.

Lemma elem_of_upd_by k f l b :
  b ∈ upd_by k f l <->
  exists a, a ∈ l /\ b = (if decide (key a = k) then f a else a).
Proof. unfold upd_by. rewrite list_elem_of_fmap. naive_solver. Qed.

Lemma find_by_app k l1 l2 :
  find_by k (l1 ++ l2)
  = match find_by k l1 with Some a => Some a | None => find_by k l2 end.
Proof. induction l1 as [|b l1 IH]; csimpl; [done|]. case_decide; auto. Qed.

End Keyed.

(** ** Sorting

    Go's [sort.Slice] and [sort.SliceStable] with a [less] function, as a stable
    insertion sort. *)

Section Sorting.
Context {A : Type} (less : A -> A -> bool).

Fixpoint insert_by (a : A) (l : list A) : list A :=
  match l with
  | [] => [a]
  | b :: l' => if less b a then b :: insert_by a l' else a :: b :: l'
  end.

Fixpoint sort_by (l : list A) : list A :=
  match l with
  | [] => []
  | a :: l' => insert_by a (sort_by l')
  end.

Lemma insert_by_Permutation a l : insert_by a l ≡ₚ a :: l.
Proof.
  induction l as [|b l IH]; simpl; [done|]. case_match; [|done].
  rewrite IH. constructor.
Qed.

Lemma sort_by_Permutation l : sort_by l ≡ₚ l.
Proof. induction l as [|a l IH]; simpl; [done|]. by rewrite insert_by_Permutation, IH. Qed.

Lemma elem_of_sort_by a l : a ∈ sort_by l <-> a ∈ l.
Proof. by rewrite sort_by_Permutation. Qed.

Lemma length_sort_by l : length (sort_by l) = length l.
Proof. by rewrite sort_by_Permutation. Qed.

(** The order a sorted slice has: no element is less than one before it. *)
Definition not_after (a b : A) : Prop := less b a = false.

Context (less_asym : forall a b, less a b = true -> less b a = false).
Context (less_neg_trans : forall a b c,
  less b a = false -> less c b = false -> less c a = false).

Lemma insert_by_HdRel a b l :
  not_after b a -> HdRel not_after b l -> HdRel not_after b (insert_by a l).
Proof.
  intros Hb H. destruct l as [|c l]; simpl; [by constructor|].
  inversion H; subst. case_match; by constructor.
Qed.

Lemma insert_by_Sorted a l : Sorted not_after l -> Sorted not_after (insert_by a l).
Proof.
  induction l as [|b l IH]; intros H; simpl; [by repeat constructor|].
  apply Sorted_inv in H as [H1 H2]. case_match eqn:E.
  - constructor; [by apply IH|]. apply insert_by_HdRel; [|done].
    by apply less_asym.
  - constructor; [by constructor|]. by constructor.
Qed.

Lemma sort_by_Sorted l : Sorted not_after (sort_by l).
Proof. induction l; simpl; [constructor | by apply insert_by_Sorted]. Qed.

Lemma sort_by_StronglySorted l : StronglySorted not_after (sort_by l).
Proof.
  apply Sorted_StronglySorted, sort_by_Sorted. intros a b c. apply less_neg_trans.
Qed.

End Sorting.

(** ** Numbers by groups of bits *)

Lemma chunk_bit (w n i b : N) :
  (b < w)%N -> N.testbit (N.land (N.shiftr n (w * i)) (N.ones w)) b = N.testbit n (w * i + b).
Proof.
  intros Hb. rewrite N.land_spec, N.shiftr_spec by lia. rewrite N.ones_spec_low by done.
  rewrite andb_true_r. f_equal. lia.
Qed.

(** A number below [2 ^ (w * k)] is determined by its [k] groups of [w] bits. *)
Lemma chunks_inj (w k n m : N) :
  (w <> 0)%N -> (n < 2 ^ (w * k))%N -> (m < 2 ^ (w * k))%N ->
  (forall j, (j < k)%N -> N.land (N.shiftr n (w * j)) (N.ones w) = N.land (N.shiftr m (w * j)) (N.ones w)) ->
  n = m.
Proof.
  intros Hw Hn Hm Hb. apply N.bits_inj. intros i. destruct (decide (i < w * k)%N) as [Hi|Hi].
  - assert (Hlt : (i / w < k)%N) by (by apply N.Div0.div_lt_upper_bound).
    assert (Hr : (i mod w < w)%N) by by apply N.mod_lt.
    assert (Ei : (i = w * (i / w) + i mod w)%N) by by apply N.div_mod.
    rewrite Ei, <- !chunk_bit by done. by rewrite Hb.
  - assert (Hhigh : forall x, (x < 2 ^ (w * k))%N -> N.testbit x i = false).
    { intros x Hx. destruct (decide (x = 0%N)) as [->|Hx0]; [by rewrite N.bits_0|].
      apply N.bits_above_log2. apply N.log2_lt_pow2; [lia|].
      eapply N.lt_le_trans; [exact Hx|]. apply N.pow_le_mono_r; lia. }
    by rewrite !Hhigh.
Qed.
