(* ===== verification/GoStrings.v ===== *)
(** Go strings as the engine uses them: byte strings, their byte order
    ([sort.Strings]), decimal printing ([%d]) and [strings.TrimSpace]. *)

From stdpp Require Import base list strings pretty.
From Stdlib Require Import ZArith Ascii String.
From S2P Require Import Prelude.

Open Scope string_scope.

(** [a < b] on Go strings: bytewise lexicographic order. *)
Definition str_less (a b : string) : bool := String.ltb a b.

(** [sort.Strings]. *)
Definition sort_Strings (l : list string) : list string := sort_by str_less l.

(** [fmt.Sprintf("%d", n)]. *)
Definition itoa (n : Z) : string := pretty n.

(** The UTF-8 encodings of the code points [unicode.IsSpace] accepts. *)
Definition go_spaces : list (list ascii) :=
  List.map (List.map ascii_of_nat)
    [ [9]; [10]; [11]; [12]; [13]; [32];
      [194; 133]; [194; 160]; [225; 154; 128];
      [226; 128; 128]; [226; 128; 129]; [226; 128; 130]; [226; 128; 131];
      [226; 128; 132]; [226; 128; 133]; [226; 128; 134]; [226; 128; 135];
      [226; 128; 136]; [226; 128; 137]; [226; 128; 138];
      [226; 128; 168]; [226; 128; 169]; [226; 128; 175]; [226; 129; 159];
      [227; 128; 128] ]%nat.

Fixpoint strip_prefix (p l : list ascii) : option (list ascii) :=
  match p, l with
  | [], _ => Some l
  | a :: p', b :: l' => if Ascii.eqb a b then strip_prefix p' l' else None
  | _ :: _, [] => None
  end.

Fixpoint strip_any (ps : list (list ascii)) (l : list ascii) : option (list ascii) :=
  match ps with
  | [] => None
  | p :: ps' => match strip_prefix p l with
                | Some l' => Some l'
                | None => strip_any ps' l
                end
  end.

Fixpoint trim_left (fuel : nat) (ps : list (list ascii)) (l : list ascii) : list ascii :=
  match fuel with
  | O => l
  | S fuel' => match strip_any ps l with
               | Some l' => trim_left fuel' ps l'
               | None => l
               end
  end.

(** [strings.TrimSpace]: leading, then trailing Unicode white space removed. *)
Definition TrimSpace (s : string) : string :=
  let l := list_ascii_of_string s in
  let l := trim_left (List.length l) go_spaces l in
  let r := List.rev l in
  let r := trim_left (List.length r) (List.map (@List.rev ascii) go_spaces) r in
  string_of_list_ascii (List.rev r).

Example TrimSpace_ascii : TrimSpace "  no route  " = "no route".
Proof. reflexivity. Qed.

Example TrimSpace_blank : TrimSpace "   " = "".
Proof. reflexivity. Qed.

Lemma TrimSpace_empty : TrimSpace "" = "".
Proof. reflexivity. Qed.

(** ** Decimal printing never produces a separator *)

Fixpoint has_char (c : ascii) (s : string) : bool :=
  match s with
  | EmptyString => false
  | String a s' => Ascii.eqb a c || has_char c s'
  end.

Lemma has_char_app c a b : has_char c (a ++ b) = has_char c a || has_char c b.
Proof. induction a as [|x a IH]; simpl; [done|]. by rewrite IH, orb_assoc. Qed.

(** The characters of a decimal number. *)
Definition numeral_char (c : ascii) : bool := has_char c "-0123456789".

Lemma pretty_N_go_no_char c (n : N) s :
  numeral_char c = false -> has_char c s = false -> has_char c (pretty_N_go n s) = false.
Proof.
  intros Hc. revert s. induction (N.lt_wf_0 n) as [n _ IH]. intros s Hs.
  destruct (decide (0 < n)%N) as [Hn|Hn].
  - rewrite pretty_N_go_step by done. apply IH.
    + apply N.div_lt; lia.
    + simpl. rewrite Hs, orb_false_r. unfold numeral_char in Hc. cbn [has_char] in Hc.
      repeat (apply orb_false_iff in Hc as [? Hc]). unfold pretty_N_char. by repeat case_match.
  - assert (n = 0%N) as -> by lia. by rewrite pretty_N_go_0.
Qed.

Lemma itoa_no_char c (n : Z) : numeral_char c = false -> has_char c (itoa n) = false.
Proof.
  intros Hc. assert (HN : forall m : N, has_char c (pretty m) = false).
  { intros m. unfold pretty, pretty_N. case_decide; [|by apply pretty_N_go_no_char].
    cbn. unfold numeral_char in Hc. cbn in Hc. repeat (apply orb_false_iff in Hc as [? Hc]).
    by rewrite orb_false_r. }
  unfold itoa, pretty, pretty_Z. destruct n as [|p|p].
  - apply (HN 0%N).
  - apply HN.
  - change (has_char c ("-" ++ pretty (N.pos p)) = false). rewrite has_char_app, HN, orb_false_r. unfold numeral_char in Hc. cbn in Hc |- *.
    apply orb_false_iff in Hc as [-> _]. done.
Qed.

Lemma itoa_inj a b : itoa a = itoa b -> a = b.
Proof. unfold itoa. intros H. by apply (inj pretty) in H. Qed.

(** Two strings joined by a separator to a suffix without it are determined by the
    join, and so are a prefix without it and the rest. *)
Lemma sep_join_inj_suffix c (a b x y : string) :
  has_char c x = false -> has_char c y = false ->
  a ++ String c x = b ++ String c y -> a = b /\ x = y.
Proof.
  intros Hx Hy. revert b. induction a as [|d a IH]; intros [|e b] H; cbn in H.
  - split; [done|]. by injection H.
  - injection H as <- H. change (x = b ++ String c y) in H. subst x. rewrite has_char_app in Hx. cbn in Hx.
    by rewrite Ascii.eqb_refl, orb_true_r in Hx.
  - injection H as -> H. change (a ++ String c x = y) in H. subst y. rewrite has_char_app in Hy. cbn in Hy.
    by rewrite Ascii.eqb_refl, orb_true_r in Hy.
  - injection H as -> H. destruct (IH b H) as [-> ->]. done.
Qed.

Lemma sep_join_inj_prefix c (a b x y : string) :
  has_char c a = false -> has_char c b = false ->
  a ++ String c x = b ++ String c y -> a = b /\ x = y.
Proof.
  revert b. induction a as [|d a IH]; intros [|e b] Ha Hb H; cbn in *.
  - split; [done|]. by injection H.
  - injection H as -> H. by rewrite Ascii.eqb_refl in Hb.
  - injection H as -> H. by rewrite Ascii.eqb_refl in Ha.
  - injection H as -> H. apply orb_false_iff in Ha as [_ Ha], Hb as [_ Hb].
    destruct (IH b Ha Hb H) as [-> ->]. done.
Qed.

Lemma str_app_empty_r (s : string) : s ++ "" = s.
Proof. induction s as [|c s IH]; [done|]. change (String c (s ++ "") = String c s). by rewrite IH. Qed.
