(* ===== verification/Errors.v ===== *)
(** The workflow package's errors: the sentinels of [workflow.go], [tokens.go],
    [operations.go], [joinpolicy.go] and [assignrule.go], the trees
    [fmt.Errorf("%w")] builds over them, [errors.Is], and the two tables that
    classify an error: [FailureKindOf] ([failure.go]) and [Status]
    ([workflowhttp/status.go]). *)

From stdpp Require Import base list strings.
From Stdlib Require Import ZArith.
From S2P Require Import Prelude.

Open Scope string_scope.

Inductive sentinel :=
| ErrDefinitionNotRegistered
| ErrGuardNotRegistered
| ErrCaseNotFound
| ErrCaseExists
| ErrCaseClosed
| ErrInvalidTransition
| ErrGuardRejected
| ErrNotAssigned
| ErrAlreadyAssigned
| ErrInvalidDefinition
| ErrCommentRequired
| ErrCommentNotAllowed
| ErrNoRoute
| ErrTooManyDecisionHops
| ErrReturnNotVisited
| ErrUnknownEffect
| ErrConflict
| ErrUnsupportedEventSchema
| ErrInvalidActor
| ErrInvalidFailure
| ErrChainBroken
| ErrTokenRequired
| ErrTokenNotFound
| ErrLastBranch
| ErrJoinRejected
| ErrReasonRequired
| ErrCaseWithoutTokens
| ErrNotOverdue
| ErrAlreadyExpired
| ErrUnknownDeadlineRule
| ErrUnknownAssignRule
| ErrInvalidOutcome
| ErrOffsetOutOfRange.

#[export] Instance sentinel_eq_dec : EqDecision sentinel.
Proof. solve_decision. Defined.

(** An error value up to its message text: a wrapped sentinel, an error that
    wraps no workflow sentinel (a database failure, a consumer's own error, a
    plain [errors.New]), or [fmt.Errorf("%w: %w", a, b)]. *)
Inductive error :=
| ESentinel (s : sentinel)
| EOther (what : string)
| EWrap (a b : error).

Definition sent (s : sentinel) : error := ESentinel s.
Coercion sent : sentinel >-> error.

(** [errors.Is] against a sentinel. *)
Fixpoint errors_Is (e : error) (s : sentinel) : bool :=
  match e with
  | ESentinel s' => bool_decide (s' = s)
  | EOther _ => false
  | EWrap a b => errors_Is a s || errors_Is b s
  end.

Abbreviation result := (res error).

(** ** Failure kinds of a rejected move *)

Inductive FailureKind :=
| FailureNoRoute
| FailureGuardRejected
| FailureConflict
| FailureValidationFailed
| FailureCommentRejected
| FailureReturnNotVisited
| FailureTransitionNotFound
| FailureKindOther (s : string).

#[export] Instance FailureKind_eq_dec : EqDecision FailureKind.
Proof. solve_decision. Defined.

Definition FailureKind_Valid (k : FailureKind) : bool :=
  match k with FailureKindOther _ => false | _ => true end.

Definition FailureKind_string (k : FailureKind) : string :=
  match k with
  | FailureNoRoute => "no_route"
  | FailureGuardRejected => "guard_rejected"
  | FailureConflict => "conflict"
  | FailureValidationFailed => "validation_failed"
  | FailureCommentRejected => "comment_rejected"
  | FailureReturnNotVisited => "return_not_visited"
  | FailureTransitionNotFound => "transition_not_found"
  | FailureKindOther s => s
  end.

Definition failureKinds : list (sentinel * FailureKind) :=
  [ (ErrNoRoute, FailureNoRoute);
    (ErrGuardRejected, FailureGuardRejected);
    (ErrConflict, FailureConflict);
    (ErrInvalidActor, FailureValidationFailed);
    (ErrCommentRequired, FailureCommentRejected);
    (ErrCommentNotAllowed, FailureCommentRejected);
    (ErrReturnNotVisited, FailureReturnNotVisited);
    (ErrInvalidTransition, FailureTransitionNotFound) ].

(** [first_is table e] is the row of the first sentinel of [table] that [e]
    wraps. *)
Fixpoint first_is {A : Type} (table : list (sentinel * A)) (e : error) : option A :=
  match table with
  | [] => None
  | (s, a) :: rest => if errors_Is e s then Some a else first_is rest e
  end.

(** [FailureKindOf]: [None] is Go's [("", false)]. *)
Definition FailureKindOf (e : error) : option FailureKind := first_is failureKinds e.

(** ** HTTP status of an error *)

Inductive http_code :=
| CodeNotFound
| CodeConflict
| CodeUnprocessableEntity
| CodeValidationError.

#[export] Instance http_code_eq_dec : EqDecision http_code.
Proof. solve_decision. Defined.

Definition mappings : list (sentinel * (Z * http_code)) :=
  [ (ErrCaseNotFound, (404, CodeNotFound));
    (ErrTokenNotFound, (404, CodeNotFound));
    (ErrConflict, (409, CodeConflict));
    (ErrAlreadyAssigned, (409, CodeConflict));
    (ErrCaseClosed, (409, CodeConflict));
    (ErrInvalidTransition, (409, CodeConflict));
    (ErrReturnNotVisited, (409, CodeConflict));
    (ErrNoRoute, (409, CodeConflict));
    (ErrGuardRejected, (409, CodeConflict));
    (ErrLastBranch, (409, CodeConflict));
    (ErrJoinRejected, (409, CodeConflict));
    (ErrAlreadyExpired, (409, CodeConflict));
    (ErrNotOverdue, (409, CodeConflict));
    (ErrCaseExists, (409, CodeConflict));
    (ErrNotAssigned, (409, CodeConflict));
    (ErrCommentRequired, (422, CodeUnprocessableEntity));
    (ErrCommentNotAllowed, (422, CodeUnprocessableEntity));
    (ErrReasonRequired, (422, CodeUnprocessableEntity));
    (ErrTokenRequired, (422, CodeUnprocessableEntity));
    (ErrInvalidActor, (422, CodeUnprocessableEntity));
    (ErrOffsetOutOfRange, (400, CodeValidationError)) ]%Z.

(** [workflowhttp.Status]: [err] is [None] for a nil error; the answer is [None]
    for Go's [ok = false]. *)
Definition http_Status (err : option error) : option (Z * http_code) :=
  match err with
  | None => None
  | Some e => first_is mappings e
  end.

(** ** Facts on the tables *)

Lemma first_is_Some {A} (table : list (sentinel * A)) e a :
  first_is table e = Some a -> exists s, (s, a) ∈ table /\ errors_Is e s = true.
Proof.
  induction table as [|[s b] t IH]; simpl; [done|]. case_match.
  - intros [= ->]. exists s. split; [apply list_elem_of_here | done].
  - intros (s' & Hin & His)%IH. exists s'. split; [by apply list_elem_of_further | done].
Qed.

Lemma first_is_None {A} (table : list (sentinel * A)) e :
  first_is table e = None <-> forall s a, (s, a) ∈ table -> errors_Is e s = false.
Proof.
  induction table as [|[s b] t IH]; simpl.
  - split; [|done]. intros _ s a H. by apply not_elem_of_nil in H.
  - setoid_rewrite elem_of_cons. case_match eqn:E; split; try done.
    + intros H. specialize (H s b (or_introl eq_refl)). congruence.
    + intros H s' a [[= -> ->]|Hin]; [done|]. rewrite IH in H. eauto.
    + intros H. apply IH. eauto.
Qed.

Lemma sent_Is (s s' : sentinel) : errors_Is (sent s) s' = bool_decide (s = s').
Proof. reflexivity. Qed.
