(* ===== verification/Model.v ===== *)
(** The data of the workflow engine: the string enumerations and records of
    [workflow.go], [tokens.go] and [joinpolicy.go], the JSON values an event
    carries as its detail, and the small methods of these types.

    A string enumeration is an inductive type with one constructor per constant
    of the source and one for every other string, so a [Valid] method keeps its
    meaning.  Token and scope statuses have no such constructor: the columns
    holding them are checked against the four constants (migration 008). *)

From stdpp Require Import base gmap list strings.
From Stdlib Require Import ZArith Lia.
From S2P Require Import Prelude GoStrings Errors.

Open Scope string_scope.
Open Scope Z_scope.

(** ** Scalars *)

(** A [uuid.UUID] as its 128-bit big-endian value: [uuid.Nil] is 0, and the
    order of the fixed-width hexadecimal text is the order of the values. *)
Abbreviation uuid := N.
Definition uuid_Nil : uuid := 0%N.

(** [time.Time] as an instant and [time.Duration], both in nanoseconds. *)
Abbreviation time := Z.
Abbreviation duration := Z.

(** The zero [time.Time]: January 1, year 1, 00:00 UTC. *)
Definition time_zero : time := (-62135596800) * 1000000000.
Definition time_IsZero (t : time) : bool := t =? time_zero.

(** A byte slice that may be nil. *)
Abbreviation bytes := (option (list N)).

(** [bytes.Equal]: nil equals the empty slice. *)
Definition bytes_Equal (a b : bytes) : bool := bool_decide (default [] a = default [] b).

(** ** Statuses and event kinds *)

Inductive Status :=
| StatusOpen
| StatusClosed
| StatusCancelled
| StatusOther (s : string).

#[export] Instance Status_eq_dec : EqDecision Status.
Proof. solve_decision. Defined.

Definition Status_Valid (s : Status) : bool :=
  match s with StatusOther _ => false | _ => true end.

Inductive EventKind :=
| EventOpened
| EventMoved
| EventAssigned
| EventUnassigned
| EventClosed
| EventStepSubmitted
| EventNoRoute
| EventFailed
| EventSplit
| EventWaiting
| EventJoined
| EventTokenCancelled
| EventCancelled
| EventDeadlineChanged
| EventExpired
| EventKindOther (s : string).

#[export] Instance EventKind_eq_dec : EqDecision EventKind.
Proof. solve_decision. Defined.

Definition EventKind_Valid (k : EventKind) : bool :=
  match k with EventKindOther _ => false | _ => true end.

Inductive TokenStatus :=
| TokenActive
| TokenWaiting
| TokenConsumed
| TokenCancelled.

#[export] Instance TokenStatus_eq_dec : EqDecision TokenStatus.
Proof. solve_decision. Defined.

(** [TokenStatus.Live]. *)
Definition Live (s : TokenStatus) : bool :=
  match s with TokenActive | TokenWaiting => true | _ => false end.

Inductive ScopeStatus :=
| ScopeOpen
| ScopeJoined
| ScopeCancelled
| ScopeClosed.

#[export] Instance ScopeStatus_eq_dec : EqDecision ScopeStatus.
Proof. solve_decision. Defined.

(** ** Comment policies *)

Inductive CommentPolicy :=
| CommentNone
| commentPolicyNoneAlias
| CommentOptional
| CommentRequired
| CommentPolicyOther (s : string).

#[export] Instance CommentPolicy_eq_dec : EqDecision CommentPolicy.
Proof. solve_decision. Defined.

Definition CommentPolicy_Valid (p : CommentPolicy) : bool :=
  match p with CommentPolicyOther _ => false | _ => true end.

Definition Canonical (p : CommentPolicy) : CommentPolicy :=
  match p with commentPolicyNoneAlias => CommentNone | _ => p end.

(** [checkComment]: [comment] is already trimmed. *)
Definition checkComment (policy : CommentPolicy) (comment : string) : result unit :=
  let policy := Canonical policy in
  if bool_decide (policy = CommentRequired) && bool_decide (comment = "")
  then Err (sent ErrCommentRequired)
  else if bool_decide (policy = CommentNone) && negb (bool_decide (comment = ""))
  then Err (sent ErrCommentNotAllowed)
  else Ok tt.

(** ** Node kinds *)

Inductive NodeKind :=
| NodeTask
| nodeTaskAlias
| NodeDecision
| NodeParallel
| NodeInclusive
| NodeJoin
| NodeKindOther (s : string).

#[export] Instance NodeKind_eq_dec : EqDecision NodeKind.
Proof. solve_decision. Defined.

Definition NodeKind_Valid (k : NodeKind) : bool :=
  match k with NodeKindOther _ => false | _ => true end.

Definition IsSplit (k : NodeKind) : bool :=
  bool_decide (k = NodeParallel) || bool_decide (k = NodeInclusive).

Definition IsAutomatic (k : NodeKind) : bool :=
  bool_decide (k = NodeDecision) || IsSplit k || bool_decide (k = NodeJoin).

Definition label (k : NodeKind) : string :=
  match k with
  | NodeDecision => "decision node"
  | NodeParallel => "parallel split"
  | NodeInclusive => "inclusive split"
  | NodeJoin => "join node"
  | _ => "node"
  end.

(** ** Eligibility *)

Record Eligibility := mkEligibility { el_Position : string; el_Unit : string }.

#[export] Instance Eligibility_eq_dec : EqDecision Eligibility.
Proof. solve_decision. Defined.

Definition zero_Eligibility : Eligibility := mkEligibility "" "".

Definition ByPosition (position : string) : Eligibility := mkEligibility position "".
Definition ByPositionInUnit (position unit : string) : Eligibility :=
  mkEligibility position unit.

(** [Eligibility.IsZero]. *)
Definition el_IsZero (e : Eligibility) : bool := bool_decide (el_Position e = "").

Definition ResolveUnit (e : Eligibility) (caseUnit : string) : string :=
  if bool_decide (el_Unit e <> "") then el_Unit e else caseUnit.

(** ** Join policies and outcomes *)

Inductive JoinPolicy :=
| JoinNone
| JoinAllApprove
| JoinAnyApprove
| JoinCollect
| JoinPolicyOther (s : string).

#[export] Instance JoinPolicy_eq_dec : EqDecision JoinPolicy.
Proof. solve_decision. Defined.

Definition JoinPolicy_Valid (p : JoinPolicy) : bool :=
  match p with JoinPolicyOther _ => false | _ => true end.

Definition JoinPolicy_string (p : JoinPolicy) : string :=
  match p with
  | JoinNone => ""
  | JoinAllApprove => "all_approve"
  | JoinAnyApprove => "any_approve"
  | JoinCollect => "collect"
  | JoinPolicyOther s => s
  end.

Definition JoinPolicy_of_string (s : string) : JoinPolicy :=
  if bool_decide (s = "") then JoinNone
  else if bool_decide (s = "all_approve") then JoinAllApprove
  else if bool_decide (s = "any_approve") then JoinAnyApprove
  else if bool_decide (s = "collect") then JoinCollect
  else JoinPolicyOther s.

Inductive Outcome :=
| OutcomeNone
| OutcomeApproved
| OutcomeRejected
| OutcomeUnanswered
| OutcomeOther (s : string).

#[export] Instance Outcome_eq_dec : EqDecision Outcome.
Proof. solve_decision. Defined.

Definition Outcome_string (o : Outcome) : string :=
  match o with
  | OutcomeNone => ""
  | OutcomeApproved => "approved"
  | OutcomeRejected => "rejected"
  | OutcomeUnanswered => "unanswered"
  | OutcomeOther s => s
  end.

Definition Outcome_of_string (s : string) : Outcome :=
  if bool_decide (s = "") then OutcomeNone
  else if bool_decide (s = "approved") then OutcomeApproved
  else if bool_decide (s = "rejected") then OutcomeRejected
  else if bool_decide (s = "unanswered") then OutcomeUnanswered
  else OutcomeOther s.

(** ** Nodes, transitions, definitions *)

Record Node := mkNode {
  n_ID : string;
  n_Start : bool;
  n_Terminal : bool;
  n_Eligible : Eligibility;
  n_Deadline : duration;
  n_DeadlineRule : string;
  n_Kind : NodeKind;
  n_Effects : list string;
  n_Join : string;
  n_OnExpire : string;
  n_JoinPolicy : JoinPolicy;
  n_AssignRule : string
}.

#[export] Instance Node_eq_dec : EqDecision Node.
Proof. solve_decision. Defined.

(** The zero [Node]. *)
Definition zero_Node : Node :=
  mkNode "" false false zero_Eligibility 0 "" NodeTask [] "" "" JoinNone "".

Record Transition := mkTransition {
  tr_From : string;
  tr_To : string;
  tr_Action : string;
  tr_Guard : string;
  tr_Comment : CommentPolicy;
  tr_Return : bool;
  tr_Effects : list string;
  tr_Outcome : Outcome
}.

#[export] Instance Transition_eq_dec : EqDecision Transition.
Proof. solve_decision. Defined.

(** [workflow.Definition]. *)
Record WDefinition := mkDefinition {
  d_Name : string;
  d_Version : Z;
  d_Nodes : list Node;
  d_Transitions : list Transition
}.

(** ** Actors *)

Inductive ActorKind :=
| ActorKindNone
| ActorHuman
| ActorOperator
| ActorSystem
| ActorAPIClient
| ActorAnonymous
| ActorUnspecified
| ActorKindOther (s : string).

#[export] Instance ActorKind_eq_dec : EqDecision ActorKind.
Proof. solve_decision. Defined.

(** The empty kind is not one of the known values. *)
Definition ActorKind_Valid (k : ActorKind) : bool :=
  match k with ActorKindNone | ActorKindOther _ => false | _ => true end.

Record Actor := mkActor {
  a_Kind : ActorKind;
  a_ID : string;
  a_ActingAs : string;
  a_OnBehalfOf : string;
  a_Via : string
}.

Definition zero_Actor : Actor := mkActor ActorKindNone "" "" "" "".

(** [resolveActor]: the deprecated alias [actorID] fills an empty ID, an empty
    kind means [ActorHuman]. *)
Definition resolveActor (actor : Actor) (actorID : string) : result Actor :=
  let! actor :=
    (if bool_decide (a_ID actor = "")
     then Ok (mkActor (a_Kind actor) actorID (a_ActingAs actor) (a_OnBehalfOf actor) (a_Via actor))
     else if bool_decide (actorID <> "") && bool_decide (actorID <> a_ID actor)
     then Err (sent ErrInvalidActor)
     else Ok actor) in
  let actor :=
    if bool_decide (a_Kind actor = ActorKindNone)
    then mkActor ActorHuman (a_ID actor) (a_ActingAs actor) (a_OnBehalfOf actor) (a_Via actor)
    else actor in
  if negb (ActorKind_Valid (a_Kind actor)) || bool_decide (a_Kind actor = ActorUnspecified)
  then Err (sent ErrInvalidActor)
  else if bool_decide (a_Kind actor = ActorSystem) && bool_decide (a_ID actor = "")
  then Err (sent ErrInvalidActor)
  else Ok actor.

(** ** JSON details

    A [json.RawMessage] that holds valid JSON, as the value it encodes.  A text
    leaf written by [MarshalText]/[MarshalJSON] of a uuid or of a time keeps
    that value; everything else is the JSON value itself. *)

Inductive json :=
| JNull
| JBool (b : bool)
| JNum (n : Z)
| JStr (s : string)
| JUuid (u : uuid)
| JTime (t : time)
| JArr (l : list json)
| JObj (fields : list (string * json)).

(** [emptyDetail]: the object without fields. *)
Definition emptyDetail : json := JObj [].

(** A field tagged [omitempty]: left out when it holds its zero value. *)
Definition omitempty (b : bool) (k : string) (v : json) : list (string * json) :=
  if b then [] else [(k, v)].

Definition json_str (k s : string) : string * json := (k, JStr s).

Definition json_time (o : option time) : json :=
  match o with Some t => JTime t | None => JNull end.

Record AssignmentDetail := mkAssignmentDetail {
  ad_From : string; ad_To : string; ad_Reason : string }.

Definition marshal_AssignmentDetail (d : AssignmentDetail) : json :=
  JObj ([json_str "from" (ad_From d); json_str "to" (ad_To d)]
        ++ omitempty (bool_decide (ad_Reason d = "")) "reason" (JStr (ad_Reason d))).

Record StepRecord := mkStepRecord {
  sr_StepID : string; sr_FormVersion : Z; sr_PayloadDigest : string }.

Definition marshal_StepDetail (d : StepRecord) : json :=
  JObj [json_str "step_id" (sr_StepID d); ("form_version", JNum (sr_FormVersion d));
        json_str "payload_digest" (sr_PayloadDigest d)].

(** [FailureDetail]: the caller's raw detail is omitted when empty. *)
Record FailureDetail := mkFailureDetail { fd_Kind : FailureKind; fd_Detail : option json }.

Definition marshal_FailureDetail (d : FailureDetail) : json :=
  JObj (json_str "kind" (FailureKind_string (fd_Kind d))
        :: match fd_Detail d with Some j => [("detail", j)] | None => [] end).

Record SplitDetail := mkSplitDetail {
  sd_Scope : uuid; sd_SplitNode : string; sd_Tokens : list uuid }.

Definition marshal_SplitDetail (d : SplitDetail) : json :=
  JObj [("scope", JUuid (sd_Scope d)); json_str "split_node" (sd_SplitNode d);
        ("tokens", JArr (JUuid <$> sd_Tokens d))].

Record WaitingDetail := mkWaitingDetail { wd_Outcome : Outcome }.

Definition marshal_WaitingDetail (d : WaitingDetail) : json :=
  JObj (omitempty (bool_decide (wd_Outcome d = OutcomeNone)) "outcome"
          (JStr (Outcome_string (wd_Outcome d)))).

Record BranchResult := mkBranchResult {
  br_Token : uuid; br_Outcome : Outcome; br_Seq : Z }.

Definition marshal_BranchResult (b : BranchResult) : json :=
  JObj [("token", JUuid (br_Token b)); json_str "outcome" (Outcome_string (br_Outcome b));
        ("seq", JNum (br_Seq b))].

Record JoinDetail := mkJoinDetail {
  jd_Scope : uuid;
  jd_JoinNode : string;
  jd_Tokens : list uuid;
  jd_Policy : JoinPolicy;
  jd_Verdict : Outcome;
  jd_Branches : list BranchResult }.

Definition marshal_JoinDetail (d : JoinDetail) : json :=
  JObj ([("scope", JUuid (jd_Scope d)); json_str "join_node" (jd_JoinNode d);
         ("tokens", JArr (JUuid <$> jd_Tokens d))]
        ++ omitempty (bool_decide (jd_Policy d = JoinNone)) "policy"
             (JStr (JoinPolicy_string (jd_Policy d)))
        ++ omitempty (bool_decide (jd_Verdict d = OutcomeNone)) "verdict"
             (JStr (Outcome_string (jd_Verdict d)))
        ++ omitempty (bool_decide (jd_Branches d = [])) "branches"
             (JArr (marshal_BranchResult <$> jd_Branches d))).

Record CancelDetail := mkCancelDetail { cd_Reason : string }.

Definition marshal_CancelDetail (d : CancelDetail) : json :=
  JObj [json_str "reason" (cd_Reason d)].

(** [cancelDetail]. *)
Definition cancelDetail (reason : string) : json :=
  marshal_CancelDetail (mkCancelDetail reason).

Record DeadlineDetail := mkDeadlineDetail {
  dd_From : option time; dd_To : option time; dd_Reason : string }.

Definition marshal_DeadlineDetail (d : DeadlineDetail) : json :=
  JObj [("from", json_time (dd_From d)); ("to", json_time (dd_To d));
        json_str "reason" (dd_Reason d)].

Record ExpiryDetail := mkExpiryDetail { xd_DeadlineAt : time }.

Definition marshal_ExpiryDetail (d : ExpiryDetail) : json :=
  JObj [("deadline_at", JTime (xd_DeadlineAt d))].

Record expiredCause := mkExpiredCause { xc_Cause : string }.

Definition marshal_expiredCause (d : expiredCause) : json :=
  JObj [json_str "cause" (xc_Cause d)].

(** *** Decoding

    [json.Unmarshal] into the structs the engine reads back.  A field that is
    absent or [null] keeps its zero value; a value of another JSON type fails. *)

Definition json_field (k : string) (fields : list (string * json)) : json :=
  match find_by fst k fields with Some (_, v) => v | None => JNull end.

Definition as_str (j : json) : result string :=
  match j with
  | JNull => Ok ""
  | JStr s => Ok s
  | _ => Err (EOther "json: cannot unmarshal into string")
  end.

Definition as_num (j : json) : result Z :=
  match j with
  | JNull => Ok 0
  | JNum n => Ok n
  | _ => Err (EOther "json: cannot unmarshal into int")
  end.

Definition as_uuid (j : json) : result uuid :=
  match j with
  | JNull => Ok uuid_Nil
  | JUuid u => Ok u
  | _ => Err (EOther "json: cannot unmarshal into uuid")
  end.

Fixpoint map_res {A B : Type} (f : A -> result B) (l : list A) : result (list B) :=
  match l with
  | [] => Ok []
  | a :: l' => let! b := f a in let! bs := map_res f l' in Ok (b :: bs)
  end.

Definition as_list {B : Type} (f : json -> result B) (j : json) : result (list B) :=
  match j with
  | JNull => Ok []
  | JArr l => map_res f l
  | _ => Err (EOther "json: cannot unmarshal into slice")
  end.

Definition as_obj (j : json) : result (list (string * json)) :=
  match j with
  | JNull => Ok []
  | JObj fields => Ok fields
  | _ => Err (EOther "json: cannot unmarshal into struct")
  end.

Definition unmarshal_BranchResult (j : json) : result BranchResult :=
  let! o := as_obj j in
  let! token := as_uuid (json_field "token" o) in
  let! outcome := as_str (json_field "outcome" o) in
  let! seq := as_num (json_field "seq" o) in
  Ok (mkBranchResult token (Outcome_of_string outcome) seq).

Definition unmarshal_JoinDetail (j : json) : result JoinDetail :=
  let! o := as_obj j in
  let! scope := as_uuid (json_field "scope" o) in
  let! join_node := as_str (json_field "join_node" o) in
  let! tokens := as_list as_uuid (json_field "tokens" o) in
  let! policy := as_str (json_field "policy" o) in
  let! verdict := as_str (json_field "verdict" o) in
  let! branches := as_list unmarshal_BranchResult (json_field "branches" o) in
  Ok (mkJoinDetail scope join_node tokens (JoinPolicy_of_string policy)
        (Outcome_of_string verdict) branches).

Definition unmarshal_expiredCause (j : json) : result expiredCause :=
  let! o := as_obj j in
  let! cause := as_str (json_field "cause" o) in
  Ok (mkExpiredCause cause).

Definition unmarshal_CancelDetail (j : json) : result CancelDetail :=
  let! o := as_obj j in
  let! reason := as_str (json_field "reason" o) in
  Ok (mkCancelDetail reason).

(** ** Rounds of a join with a policy *)

Record JoinBranch := mkJoinBranch {
  jb_Branch : BranchResult;
  jb_Actor : Actor;
  jb_Comment : string;
  jb_Cause : string }.

Record JoinResult := mkJoinResult {
  jr_Scope : uuid;
  jr_JoinNode : string;
  jr_Policy : JoinPolicy;
  jr_Verdict : Outcome;
  jr_Seq : Z;
  jr_Branches : list JoinBranch }.

(** [JoinResult.Count]. *)
Definition jr_Count (r : JoinResult) (outcome : Outcome) : nat :=
  count (fun b => bool_decide (br_Outcome (jb_Branch b) = outcome)) (jr_Branches r).

(** ** Cases, tokens, scopes, events *)

Record Case := mkCase {
  c_ID : uuid;
  c_Definition : string;
  c_Version : Z;
  c_Tenant : string;
  c_Domain : string;
  c_ExternalID : string;
  c_Unit : string;
  c_State : string;
  c_Status : Status;
  c_AssignedTo : string;
  c_OpenedAt : time;
  c_ClosedAt : option time;
  c_DeadlineAt : option time;
  c_Revision : Z;
  c_LastSeq : Z;
  c_JoinResult : option JoinResult }.

Record Token := mkToken {
  t_ID : uuid;
  t_CaseID : uuid;
  t_ScopeID : uuid;
  t_Node : string;
  t_Status : TokenStatus;
  t_Eligible : Eligibility;
  t_AssignedTo : string;
  t_DeadlineAt : option time;
  t_ExpiredDeadline : option time;
  t_EnteredSeq : Z;
  t_EnteredAt : time;
  t_EndedSeq : Z;
  t_EndedAt : option time;
  t_Outcome : Outcome }.

Record Scope := mkScope {
  s_ID : uuid;
  s_CaseID : uuid;
  s_ParentID : option uuid;
  s_SplitNode : string;
  s_JoinNode : string;
  s_Expected : Z;
  s_Status : ScopeStatus;
  s_OpenedSeq : Z;
  s_ClosedSeq : Z }.

(** [Scope.IsRoot]. *)
Definition IsRoot (s : Scope) : bool :=
  match s_ParentID s with None => true | Some _ => false end.

Record JoinRecord := mkJoinRecord {
  jrec_Scope : Scope;
  jrec_Tokens : list Token;
  jrec_Verdict : Outcome;
  jrec_Branches : list BranchResult }.

Record WorkItem := mkWorkItem { wi_Case : Case; wi_Token : Token }.

Record Event := mkEvent {
  ev_ID : uuid;
  ev_CaseID : uuid;
  ev_Seq : Z;
  ev_Kind : EventKind;
  ev_TokenID : uuid;
  ev_ScopeID : uuid;
  ev_FromState : string;
  ev_ToState : string;
  ev_Action : string;
  ev_DeadlineAt : option time;
  ev_Actor : Actor;
  ev_ActorID : string;
  ev_Tenant : string;
  ev_Comment : string;
  ev_OccurredAt : time;
  ev_SchemaVersion : Z;
  ev_Detail : option json;
  ev_RequestID : string;
  ev_TraceID : string;
  ev_SpanID : string;
  ev_PrevDigest : bytes;
  ev_Digest : bytes }.

Record EventDigest := mkEventDigest {
  ed_Seq : Z; ed_PrevDigest : bytes; ed_Digest : bytes; ed_Recomputed : bytes }.

(** [MoveResult]. *)
Record MoveResult := mkMoveResult {
  mr_Case : Case; mr_Events : list Event; mr_Joined : list JoinRecord }.

Definition CurrentEventSchema : Z := 5.

(** ** Paging *)

Record InboxFilter := mkInboxFilter {
  if_Tenant : string;
  if_Domain : string;
  if_States : list string;
  if_Eligibility : list Eligibility;
  if_AssignedTo : string;
  if_Unassigned : bool;
  if_Overdue : bool;
  if_Limit : Z;
  if_Offset : Z }.

Record ParticipationFilter := mkParticipationFilter {
  pf_Tenant : string; pf_ActorID : string; pf_Limit : Z; pf_Offset : Z }.

Record OverdueCursor := mkOverdueCursor { oc_DeadlineAt : time; oc_TokenID : uuid }.

Record OverdueFilter := mkOverdueFilter {
  of_Tenant : string; of_Limit : Z; of_Before : time; of_After : option OverdueCursor }.

Definition DefaultListLimit : Z := 20.
Definition MaxListLimit : Z := 1000.
Definition MaxListOffset : Z := 100000.

(** [page]: the LIMIT and OFFSET of a list query. *)
Definition page (limit offset : Z) : result (Z * Z) :=
  if (offset <? 0) || (MaxListOffset <? offset)
  then Err (sent ErrOffsetOutOfRange)
  else
    let limit :=
      if limit <=? 0 then DefaultListLimit
      else if MaxListLimit <? limit then MaxListLimit
      else limit in
    Ok (limit, offset).

Definition InboxFilter_Page (f : InboxFilter) : result (Z * Z) :=
  page (if_Limit f) (if_Offset f).

Definition ParticipationFilter_Page (f : ParticipationFilter) : result (Z * Z) :=
  page (pf_Limit f) (pf_Offset f).

(** [OverdueFilter.Page]: the error is discarded, offset 0 never has one. *)
Definition OverdueFilter_Page (f : OverdueFilter) : Z :=
  match page (of_Limit f) 0 with Ok (limit, _) => limit | _ => 0 end.

(** [WorkItem.OverdueCursor]. *)
Definition WorkItem_OverdueCursor (w : option WorkItem) : option OverdueCursor :=
  match w with
  | None => None
  | Some w =>
      match t_DeadlineAt (wi_Token w) with
      | None => None
      | Some d => Some (mkOverdueCursor d (t_ID (wi_Token w)))
      end
  end.
