(* ===== verification/Definitions.v ===== *)
(** Lookups on a workflow definition: the methods of [workflow.Definition] in
    [workflow.go] and [assignrule.go], and [findTransition] and
    [hasReturnTransition] of [move.go]. *)

From stdpp Require Import base gmap list strings.
From Stdlib Require Import ZArith Lia Ascii.
From S2P Require Import Prelude GoStrings Errors Model.

Open Scope string_scope.

(** [Definition.Node]: the first node with that ID. *)
Definition Definition_Node (d : WDefinition) (id : string) : option Node :=
  find_by n_ID id (d_Nodes d).

(** [Definition.StartNode]: the first node marked as start. *)
Definition StartNode (d : WDefinition) : option Node :=
  List.find n_Start (d_Nodes d).

(** [Definition.TransitionsFrom], in declaration order. *)
Definition TransitionsFrom (d : WDefinition) (nodeID : string) : list Transition :=
  List.filter (fun tr => bool_decide (tr_From tr = nodeID)) (d_Transitions d).

(** The loop shared by the name collectors: keep each non-empty name the first
    time it is seen. *)
Fixpoint dedup_names (seen : list string) (l : list string) : list string :=
  match l with
  | [] => []
  | x :: l' =>
      if bool_decide (x = "") || bool_decide (x ∈ seen) then dedup_names seen l'
      else x :: dedup_names (x :: seen) l'
  end.

Definition GuardNames (d : WDefinition) : list string :=
  sort_Strings (dedup_names [] (tr_Guard <$> d_Transitions d)).

Definition DeadlineRules (d : WDefinition) : list string :=
  sort_Strings (dedup_names []
    (n_DeadlineRule <$> List.filter (fun n => negb (n_Terminal n)) (d_Nodes d))).

Definition EffectNames (d : WDefinition) : list string :=
  sort_Strings (dedup_names []
    (concat (n_Effects <$> d_Nodes d) ++ concat (tr_Effects <$> d_Transitions d))).

Definition AssignRules (d : WDefinition) : list string :=
  sort_Strings (dedup_names [] (n_AssignRule <$> d_Nodes d)).

(** [fmt.Sprintf("%s@%d", name, version)]. *)
Definition definition_key (name : string) (version : Z) : string :=
  name ++ "@" ++ itoa version.

(** [Definition.Key]. *)
Definition Key (d : WDefinition) : string := definition_key (d_Name d) (d_Version d).

(** [findTransition]: the first candidate with that action. *)
Definition findTransition (candidates : list Transition) (action : string)
  : option Transition := find_by tr_Action action candidates.

(** [hasReturnTransition]. *)
Definition hasReturnTransition (candidates : list Transition) : bool :=
  existsb tr_Return candidates.

(** ** Facts *)

Lemma Definition_Node_Some d id n :
  Definition_Node d id = Some n -> n ∈ d_Nodes d /\ n_ID n = id.
Proof. apply find_by_Some. Qed.

Lemma elem_of_TransitionsFrom d id tr :
  tr ∈ TransitionsFrom d id <-> tr ∈ d_Transitions d /\ tr_From tr = id.
Proof.
  unfold TransitionsFrom. rewrite !list_elem_of_In, filter_In.
  by rewrite bool_decide_eq_true.
Qed.

Lemma findTransition_Some l action tr :
  findTransition l action = Some tr -> tr ∈ l /\ tr_Action tr = action.
Proof. apply find_by_Some. Qed.

Lemma dedup_names_spec seen l x :
  (x ∈ dedup_names seen l) <-> (x <> "") /\ (x ∉ seen) /\ (x ∈ l).
Proof.
  revert seen. induction l as [|y l IH]; intros seen; simpl.
  - split; [by intros H%not_elem_of_nil|]. intros (_ & _ & H). by apply not_elem_of_nil in H.
  - rewrite elem_of_cons. case_match eqn:E.
    + apply orb_true_iff in E. rewrite !bool_decide_eq_true in E. rewrite IH.
      split; [tauto|]. intros (Hx & Hs & [->|Hl]); tauto.
    + apply orb_false_iff in E. rewrite !bool_decide_eq_false in E.
      rewrite elem_of_cons, IH, not_elem_of_cons.
      destruct (decide (x = y)) as [->|]; tauto.
Qed.

Lemma dedup_names_NoDup seen l : NoDup (dedup_names seen l).
Proof.
  revert seen. induction l as [|y l IH]; intros seen; simpl; [constructor|].
  case_match; [done|]. constructor; [|done].
  rewrite dedup_names_spec, not_elem_of_cons. tauto.
Qed.

Lemma definition_key_inj n1 v1 n2 v2 :
  definition_key n1 v1 = definition_key n2 v2 -> n1 = n2 /\ v1 = v2.
Proof.
  intros H. apply (sep_join_inj_suffix "@"%char) in H as [-> H]; [|by apply itoa_no_char..].
  by apply itoa_inj in H.
Qed.
