(* ===== verification/JoinPolicies.v ===== *)
(** Join policies ([joinpolicy.go]): when a round closes and with what verdict,
    and the guard that reads the verdict. *)

From stdpp Require Import base list strings.
From Stdlib Require Import ZArith Lia.
From S2P Require Import Prelude GoStrings Errors Model.

Open Scope Z_scope.

Record roundTally := mkTally {
  rt_approved : Z; rt_rejected : Z; rt_cancelled : Z; rt_expected : Z }.

(** [JoinPolicy.closes]: whether the round closes at tally [t], and its verdict. *)
Definition closes (p : JoinPolicy) (t : roundTally) : bool * Outcome :=
  let waiting := rt_approved t + rt_rejected t in
  let complete := (0 <? waiting) && (waiting + rt_cancelled t =? rt_expected t) in
  match p with
  | JoinAllApprove =>
      if 0 <? rt_rejected t then (true, OutcomeRejected)
      else if complete then (true, OutcomeApproved)
      else (false, OutcomeNone)
  | JoinAnyApprove =>
      if 0 <? rt_approved t then (true, OutcomeApproved)
      else if complete then (true, OutcomeRejected)
      else (false, OutcomeNone)
  | JoinCollect => (complete, OutcomeNone)
  | _ => (false, OutcomeNone)
  end.

(** [JoinRejected], the guard of the decision after a join with a verdict. *)
Definition JoinRejected (c : Case) : error + bool :=
  inr (match c_JoinResult c with
       | Some r => bool_decide (jr_Verdict r = OutcomeRejected)
       | None => false
       end).

(** A tally the engine can build: no negative count. *)
Definition tally_ok (t : roundTally) : Prop :=
  0 <= rt_approved t /\ 0 <= rt_rejected t /\ 0 <= rt_cancelled t.

(** Every branch answered or was cancelled, and at least one answered. *)
Definition tally_complete (t : roundTally) : Prop :=
  0 < rt_approved t + rt_rejected t
  /\ rt_approved t + rt_rejected t + rt_cancelled t = rt_expected t.

Lemma closes_complete p t :
  p <> JoinNone -> JoinPolicy_Valid p = true -> tally_ok t -> tally_complete t ->
  fst (closes p t) = true.
Proof.
  unfold tally_ok, tally_complete. intros Hp Hv Ht [H1 H2].
  assert (Hc : (0 <? rt_approved t + rt_rejected t)
               && (rt_approved t + rt_rejected t + rt_cancelled t =? rt_expected t) = true)
    by (apply andb_true_iff; split; [by apply Z.ltb_lt | by apply Z.eqb_eq]).
  destruct p; simpl in *; try done; try rewrite Hc; repeat case_match; done.
Qed.

(** A round that closes has at least one answer: no policy closes a round on
    cancellations alone. *)
Lemma closes_answered p t :
  tally_ok t -> fst (closes p t) = true -> 0 < rt_approved t + rt_rejected t.
Proof.
  unfold tally_ok. intros Ht H. destruct p; simpl in *; try done;
    repeat case_match; simpl in *; try done;
    repeat match goal with
    | H : (_ && _) = true |- _ => apply andb_true_iff in H as [? ?]
    | H : (_ <? _) = true |- _ => apply Z.ltb_lt in H
    end; lia.
Qed.
