(* ===== verification/Repo.v ===== *)
(** The persistence port of the engine: [workflow.Repository] as a class of
    operations, and the contract its documentation states as a class of laws over
    an abstract view of each case.  The engine is modelled against the first and
    verified against the second; [Postgres.v] gives the instance. *)

From stdpp Require Import base gmap list strings.
From Stdlib Require Import ZArith Lia.
From S2P Require Import Prelude GoStrings Errors Model.

Open Scope string_scope.
Open Scope Z_scope.

(** ** Writers

    A call that writes returns the database it leaves, whether it fails or not:
    an error after a write does not undo the write. *)

Definition writer (DB A : Type) : Type := DB -> DB * result A.

Definition w_ret {DB A : Type} (a : A) : writer DB A := fun db => (db, Ok a).
Definition w_res {DB A : Type} (m : result A) : writer DB A := fun db => (db, m).
Definition w_bind {DB A B : Type} (m : writer DB A) (k : A -> writer DB B) : writer DB B :=
  fun db =>
    match m db with
    | (db', Ok a) => k a db'
    | (db', Err e) => (db', Err e)
    | (db', Panic) => (db', Panic)
    | (db', Fuel) => (db', Fuel)
    end.

Notation "'do!' x ':=' m 'in' k" := (w_bind m (fun x => k))
  (at level 10, x name, m at level 100, k at level 200) : vogel_scope.
Notation "'do!' ' p ':=' m 'in' k" :=
  (w_bind m (fun z => match z with p => k end))
  (at level 10, p strict pattern, m at level 100, k at level 200) : vogel_scope.

(** An operation of the port: it answers a value or an error. *)
Definition w_lift {DB A : Type} (m : DB -> DB * (error + A)) : writer DB A :=
  fun db => let '(db', r) := m db in (db', lift r).

(** ** The port *)

Class Repository (DB : Type) := {
  repo_Create : Case -> DB -> DB * (error + Case);
  repo_GetByID : DB -> uuid -> error + Case;
  repo_GetByExternalID : DB -> string -> string -> string -> error + Case;
  repo_Update : Case -> Z -> DB -> DB * (error + Case);
  repo_AppendEvent : Event -> DB -> DB * (error + Event);
  repo_ListEvents : DB -> uuid -> error + list Event;
  repo_ListWorkItems : DB -> InboxFilter -> error + list WorkItem;
  repo_ListOverdue : DB -> OverdueFilter -> error + list WorkItem;
  repo_AdvanceLastSeq : uuid -> DB -> DB * (error + Case);
  repo_ListParticipated : DB -> ParticipationFilter -> error + list Case;
  repo_ListEventDigests : DB -> uuid -> error + list EventDigest;
  repo_CreateScope : Scope -> DB -> DB * (error + unit);
  repo_UpdateScope : Scope -> DB -> DB * (error + unit);
  repo_ListScopes : DB -> uuid -> error + list Scope;
  repo_CreateToken : Token -> DB -> DB * (error + unit);
  repo_UpdateToken : Token -> DB -> DB * (error + unit);
  repo_ListTokens : DB -> uuid -> error + list Token
}.

(** ** Its contract *)

(** What a repository holds of one case. *)
Record CaseView := mkView {
  v_case : option Case;
  v_scopes : list Scope;
  v_tokens : list Token;
  v_events : list Event }.

Definition set_case (c : Case) (v : CaseView) : CaseView :=
  mkView (Some c) (v_scopes v) (v_tokens v) (v_events v).

Definition case_with_revision (c : Case) (rev : Z) : Case :=
  mkCase (c_ID c) (c_Definition c) (c_Version c) (c_Tenant c) (c_Domain c)
    (c_ExternalID c) (c_Unit c) (c_State c) (c_Status c) (c_AssignedTo c)
    (c_OpenedAt c) (c_ClosedAt c) (c_DeadlineAt c) rev (c_LastSeq c) (c_JoinResult c).

Definition case_with_lastseq (c : Case) (seq : Z) : Case :=
  mkCase (c_ID c) (c_Definition c) (c_Version c) (c_Tenant c) (c_Domain c)
    (c_ExternalID c) (c_Unit c) (c_State c) (c_Status c) (c_AssignedTo c)
    (c_OpenedAt c) (c_ClosedAt c) (c_DeadlineAt c) (c_Revision c) seq (c_JoinResult c).

(** The row [UpdateScope] leaves: the mutable fields of [s]. *)
Definition write_scope (s s0 : Scope) : Scope :=
  mkScope (s_ID s0) (s_CaseID s0) (s_ParentID s0) (s_SplitNode s0) (s_JoinNode s0)
    (s_Expected s0) (s_Status s) (s_OpenedSeq s0) (s_ClosedSeq s).

(** The row [UpdateToken] leaves. *)
Definition write_token (t t0 : Token) : Token :=
  mkToken (t_ID t0) (t_CaseID t0) (t_ScopeID t0) (t_Node t) (t_Status t)
    (t_Eligible t) (t_AssignedTo t) (t_DeadlineAt t) (t_ExpiredDeadline t)
    (t_EnteredSeq t) (t_EnteredAt t) (t_EndedSeq t) (t_EndedAt t) (t_Outcome t).

(** The event as [AppendEvent] returns and stores it: chained. *)
Definition event_chained (e : Event) (prev digest : bytes) : Event :=
  mkEvent (ev_ID e) (ev_CaseID e) (ev_Seq e) (ev_Kind e) (ev_TokenID e) (ev_ScopeID e)
    (ev_FromState e) (ev_ToState e) (ev_Action e) (ev_DeadlineAt e) (ev_Actor e)
    (ev_ActorID e) (ev_Tenant e) (ev_Comment e) (ev_OccurredAt e) (ev_SchemaVersion e)
    (ev_Detail e) (ev_RequestID e) (ev_TraceID e) (ev_SpanID e) prev digest.

(** The row [AppendEvent] stores, as it is read back: what the caller left empty
    has its documented default. *)
Definition event_stored (e : Event) : Event :=
  let a := ev_Actor e in
  let id := if bool_decide (a_ID a = "") then ev_ActorID e else a_ID a in
  let kind := if bool_decide (a_Kind a = ActorKindNone) then ActorUnspecified else a_Kind a in
  mkEvent (ev_ID e) (ev_CaseID e) (ev_Seq e) (ev_Kind e)
    (if bool_decide (ev_TokenID e = uuid_Nil) then ev_CaseID e else ev_TokenID e)
    (if bool_decide (ev_ScopeID e = uuid_Nil) then ev_CaseID e else ev_ScopeID e)
    (ev_FromState e) (ev_ToState e) (ev_Action e) (ev_DeadlineAt e)
    (mkActor kind id (a_ActingAs a) (a_OnBehalfOf a) (a_Via a)) id
    (ev_Tenant e) (ev_Comment e) (ev_OccurredAt e) (Z.max (ev_SchemaVersion e) 1)
    (match ev_Detail e with None => Some emptyDetail | Some d => Some d end)
    (ev_RequestID e) (ev_TraceID e) (ev_SpanID e) (ev_PrevDigest e) (ev_Digest e).

(** The link of a stored event to the events [V] before it: it has a digest, and its
    previous digest is the digest of the event at the Seq before, none when there is
    no such event. *)
Definition linked_to (st : Event) (V : list Event) : Prop :=
  is_Some (ev_Digest st)
  /\ ((exists x, x ∈ V /\ ev_Seq x = ev_Seq st - 1 /\ ev_PrevDigest st = ev_Digest x)
      \/ ((forall x, x ∈ V -> ev_Seq x <> ev_Seq st - 1) /\ ev_PrevDigest st = None)).

(** [same_except view1 view2 id]: every case but [id] is untouched. *)
Definition same_except {DB : Type} (view : DB -> uuid -> CaseView) (db db' : DB) (id : uuid)
  : Prop := forall id', id' <> id -> view db' id' = view db id'.

Definition untouched {DB : Type} (view : DB -> uuid -> CaseView) (db db' : DB) : Prop :=
  forall id, view db' id = view db id.

Class RepositoryLaws (DB : Type) `{Repository DB} := {
  view : DB -> uuid -> CaseView;

  law_get : forall db id c, repo_GetByID db id = inr c ->
    v_case (view db id) = Some c /\ c_ID c = id /\ c_JoinResult c = None;
  law_list_scopes : forall db id l, repo_ListScopes db id = inr l -> l ≡ₚ v_scopes (view db id);
  law_list_tokens : forall db id l, repo_ListTokens db id = inr l -> l ≡ₚ v_tokens (view db id);
  law_list_events : forall db id l, repo_ListEvents db id = inr l -> l ≡ₚ v_events (view db id);

  law_create : forall c db db' c', repo_Create c db = (db', inr c') ->
    v_case (view db (c_ID c)) = None /\ c' = case_with_revision c 0
    /\ (c_JoinResult c = None -> view db' (c_ID c) = set_case c' (view db (c_ID c)))
    /\ same_except view db db' (c_ID c);
  law_update : forall c seq db db' c', repo_Update c seq db = (db', inr c') ->
    (exists old, v_case (view db (c_ID c)) = Some old
       /\ c_Revision old = c_Revision c /\ c_LastSeq old = seq)
    /\ c' = case_with_revision c (c_Revision c + 1)
    /\ (c_JoinResult c = None -> view db' (c_ID c) = set_case c' (view db (c_ID c)))
    /\ same_except view db db' (c_ID c);
  law_update_stale : forall c seq db old, v_case (view db (c_ID c)) = Some old ->
    c_Revision old <> c_Revision c \/ c_LastSeq old <> seq ->
    exists db' e, repo_Update c seq db = (db', inl e) /\ errors_Is e ErrConflict = true;
  law_advance : forall id db db' c', repo_AdvanceLastSeq id db = (db', inr c') ->
    exists c, v_case (view db id) = Some c /\ c_ID c = id
      /\ c' = case_with_lastseq c (c_LastSeq c + 1)
      /\ view db' id = set_case c' (view db id)
      /\ same_except view db db' id;

  law_create_scope : forall s db db', repo_CreateScope s db = (db', inr tt) ->
    (s_ID s ∉ s_ID <$> v_scopes (view db (s_CaseID s)))
    /\ v_scopes (view db' (s_CaseID s)) ≡ₚ s :: v_scopes (view db (s_CaseID s))
    /\ v_case (view db' (s_CaseID s)) = v_case (view db (s_CaseID s))
    /\ v_tokens (view db' (s_CaseID s)) = v_tokens (view db (s_CaseID s))
    /\ v_events (view db' (s_CaseID s)) = v_events (view db (s_CaseID s))
    /\ same_except view db db' (s_CaseID s);
  law_update_scope : forall s db db', repo_UpdateScope s db = (db', inr tt) ->
    s_ID s ∈ s_ID <$> v_scopes (view db (s_CaseID s)) ->
    v_scopes (view db' (s_CaseID s))
      ≡ₚ upd_by s_ID (s_ID s) (write_scope s) (v_scopes (view db (s_CaseID s)))
    /\ v_case (view db' (s_CaseID s)) = v_case (view db (s_CaseID s))
    /\ v_tokens (view db' (s_CaseID s)) = v_tokens (view db (s_CaseID s))
    /\ v_events (view db' (s_CaseID s)) = v_events (view db (s_CaseID s))
    /\ same_except view db db' (s_CaseID s);
  law_create_token : forall t db db', repo_CreateToken t db = (db', inr tt) ->
    (t_ID t ∉ t_ID <$> v_tokens (view db (t_CaseID t)))
    /\ v_tokens (view db' (t_CaseID t)) ≡ₚ t :: v_tokens (view db (t_CaseID t))
    /\ v_case (view db' (t_CaseID t)) = v_case (view db (t_CaseID t))
    /\ v_scopes (view db' (t_CaseID t)) = v_scopes (view db (t_CaseID t))
    /\ v_events (view db' (t_CaseID t)) = v_events (view db (t_CaseID t))
    /\ same_except view db db' (t_CaseID t);
  law_update_token : forall t db db', repo_UpdateToken t db = (db', inr tt) ->
    t_ID t ∈ t_ID <$> v_tokens (view db (t_CaseID t)) ->
    v_tokens (view db' (t_CaseID t))
      ≡ₚ upd_by t_ID (t_ID t) (write_token t) (v_tokens (view db (t_CaseID t)))
    /\ v_case (view db' (t_CaseID t)) = v_case (view db (t_CaseID t))
    /\ v_scopes (view db' (t_CaseID t)) = v_scopes (view db (t_CaseID t))
    /\ v_events (view db' (t_CaseID t)) = v_events (view db (t_CaseID t))
    /\ same_except view db db' (t_CaseID t);
  law_append : forall e db db' e', repo_AppendEvent e db = (db', inr e') ->
    1 <= ev_Seq e
    /\ (forall x, x ∈ v_events (view db (ev_CaseID e)) -> ev_Seq x <> ev_Seq e)
    /\ (exists prev digest, e' = event_chained e prev digest
         /\ linked_to (event_chained (event_stored e) prev digest) (v_events (view db (ev_CaseID e)))
         /\ v_events (view db' (ev_CaseID e))
            ≡ₚ event_chained (event_stored e) prev digest :: v_events (view db (ev_CaseID e)))
    /\ v_case (view db' (ev_CaseID e)) = v_case (view db (ev_CaseID e))
    /\ v_scopes (view db' (ev_CaseID e)) = v_scopes (view db (ev_CaseID e))
    /\ v_tokens (view db' (ev_CaseID e)) = v_tokens (view db (ev_CaseID e))
    /\ same_except view db db' (ev_CaseID e);

  law_create_err : forall c db db' e, repo_Create c db = (db', inl e) -> untouched view db db';
  law_update_err : forall c q db db' e, repo_Update c q db = (db', inl e) -> untouched view db db';
  law_advance_err : forall i db db' e, repo_AdvanceLastSeq i db = (db', inl e) -> untouched view db db';
  law_append_err : forall x db db' e, repo_AppendEvent x db = (db', inl e) -> untouched view db db'
}.
