(* ===== verification/Ports.v ===== *)
(** The engine's value: what a call brings with it, the consumer's ports
    ([Config] of [engine.go], [DeadlineResolver], [AssigneeResolver],
    [EffectSink], [GuardFunc]) and the registries. *)

From stdpp Require Import base gmap list strings.
From Stdlib Require Import ZArith.
From S2P Require Import Prelude GoStrings Errors Model Repo.

Open Scope string_scope.
Open Scope Z_scope.

(** ** What a call brings: its clock reading, the uuids it draws, its request *)

Record Ctx := mkCtx {
  cx_now : time;
  cx_uuid : nat -> uuid;
  cx_RequestID : string }.

Record DueInput := mkDueInput {
  du_Rule : string; du_From : time; du_Case : Case; du_Token : Token }.

Record AssignInput := mkAssignInput {
  as_Rule : string; as_Case : Case; as_Token : Token; as_Node : Node;
  as_History : list Event }.

Record EffectSink (DB : Type) := mkEffectSink {
  es_HasEffect : string -> bool;
  es_CheckDB : DB -> error + unit;
  es_Dispatch : WDefinition -> Case -> list Event -> DB -> DB * (error + unit) }.
Arguments es_HasEffect {DB} e _.
Arguments es_CheckDB {DB} e _.
Arguments es_Dispatch {DB} e _ _ _ _.

(** [GuardFunc]. *)
Definition GuardFunc (DB : Type) : Type := DB -> Case -> error + bool.

(** [Engine]: the ports of [Config] and the registries.  The repository is the
    [Repository] instance of [DB]; [New] and the mutex have no state of their own. *)
Record Engine (DB : Type) := mkEngine {
  e_traceIDs : option (Ctx -> string * string);
  e_joinCheck : option (DB -> JoinRecord -> error + unit);
  e_deadlines : option (DueInput -> error + time);
  e_assignees : option (DB -> AssignInput -> error + string);
  e_definitions : gmap string WDefinition;
  e_latest : gmap string WDefinition;
  e_guards : gmap string (GuardFunc DB);
  e_effectSink : option (EffectSink DB) }.
Arguments e_traceIDs {DB} e.
Arguments e_joinCheck {DB} e.
Arguments e_deadlines {DB} e.
Arguments e_assignees {DB} e.
Arguments e_definitions {DB} e.
Arguments e_latest {DB} e.
Arguments e_guards {DB} e.
Arguments e_effectSink {DB} e.
