(* ===== verification/Events.v ===== *)
(** Appending and reading events ([events.go]): the stamp every appended event
    gets, the upcast of events of older schemas, and the verification of a case's
    hash chain. *)

From stdpp Require Import base gmap list strings.
From Stdlib Require Import ZArith Lia.
From S2P Require Import Prelude GoStrings Errors Model Repo Ports.

Open Scope string_scope.
Open Scope Z_scope.

(** [upcastEvent]. *)
Definition upcastEvent (e : Event) : Event :=
  let version := if ev_SchemaVersion e <? 1 then 1 else ev_SchemaVersion e in
  let a := ev_Actor e in
  let kind := if bool_decide (a_Kind a = ActorKindNone) then ActorUnspecified else a_Kind a in
  let id := if bool_decide (a_ID a = "") then ev_ActorID e else a_ID a in
  let detail := match ev_Detail e with None => Some emptyDetail | Some d => Some d end in
  let token := if bool_decide (ev_TokenID e = uuid_Nil) then ev_CaseID e else ev_TokenID e in
  let scope := if bool_decide (ev_ScopeID e = uuid_Nil) then ev_CaseID e else ev_ScopeID e in
  mkEvent (ev_ID e) (ev_CaseID e) (ev_Seq e) (ev_Kind e) token scope
    (ev_FromState e) (ev_ToState e) (ev_Action e) (ev_DeadlineAt e)
    (mkActor kind id (a_ActingAs a) (a_OnBehalfOf a) (a_Via a)) id
    (ev_Tenant e) (ev_Comment e) (ev_OccurredAt e) version detail
    (ev_RequestID e) (ev_TraceID e) (ev_SpanID e) (ev_PrevDigest e) (ev_Digest e).

(** What [appendEvent] writes into the planned event before it is stored. *)
Definition stamp_append (id : uuid) (c : Case) (req : string) (trace : option (string * string))
    (e : Event) : Event :=
  mkEvent id (c_ID c) (ev_Seq e) (ev_Kind e) (ev_TokenID e) (ev_ScopeID e)
    (ev_FromState e) (ev_ToState e) (ev_Action e) (ev_DeadlineAt e)
    (ev_Actor e) (a_ID (ev_Actor e)) (c_Tenant c) (ev_Comment e) (ev_OccurredAt e)
    CurrentEventSchema
    (match ev_Detail e with None => Some emptyDetail | Some d => Some d end)
    req
    (match trace with Some (t, _) => t | None => ev_TraceID e end)
    (match trace with Some (_, s) => s | None => ev_SpanID e end)
    (ev_PrevDigest e) (ev_Digest e).

(** The loop of [VerifyChain] over the links: [prev] is the digest of the last
    chained event, [chained] whether the chain started. *)
Inductive chain_reason :=
| NoDigestAfterStart
| PrevDigestWithoutDigest
| PrevDigestMismatch
| ContentMismatch.

(** [ChainBroken seq reason] is the [*ChainBrokenError] the call returns. *)
Inductive chain_verdict :=
| ChainIntact
| ChainBroken (seq : Z) (reason : chain_reason).

Fixpoint verify_links (prev : bytes) (chained : bool) (links : list EventDigest)
  : chain_verdict :=
  match links with
  | [] => ChainIntact
  | l :: rest =>
      match ed_Digest l with
      | None =>
          if chained then ChainBroken (ed_Seq l) NoDigestAfterStart
          else match ed_PrevDigest l with
               | Some _ => ChainBroken (ed_Seq l) PrevDigestWithoutDigest
               | None => verify_links prev chained rest
               end
      | Some _ =>
          if negb (bytes_Equal (ed_PrevDigest l) prev) then ChainBroken (ed_Seq l) PrevDigestMismatch
          else if negb (bytes_Equal (ed_Recomputed l) (ed_Digest l))
          then ChainBroken (ed_Seq l) ContentMismatch
          else verify_links (ed_Digest l) true rest
      end
  end.

Section WithRepo.
Context {DB : Type} `{Repository DB}.

(** [Engine.appendEvent]; [n] is how many uuids the call drew before. *)
Definition appendEvent (e : Engine DB) (cx : Ctx) (n : nat) (c : Case) (evt : Event)
  : writer DB Event :=
  w_lift (repo_AppendEvent
    (stamp_append (cx_uuid cx n) c (cx_RequestID cx) ((fun f => f cx) <$> e_traceIDs e) evt)).

(** [Engine.listEvents]: the whole read fails on an event of a newer schema. *)
Definition listEvents (db : DB) (caseID : uuid) : result (list Event) :=
  let! events := lift (repo_ListEvents db caseID) in
  if existsb (fun e => CurrentEventSchema <? ev_SchemaVersion e) events
  then Err (sent ErrUnsupportedEventSchema)
  else Ok (upcastEvent <$> events).

(** [Engine.VerifyChain]. *)
Definition VerifyChain (db : DB) (caseID : uuid) : result chain_verdict :=
  let! _ := lift (repo_GetByID db caseID) in
  let! links := lift (repo_ListEventDigests db caseID) in
  Ok (verify_links None false links).

End WithRepo.
