(* ===== verification/Run.v ===== *)
(** One engine call's working copy of a case ([run.go]): the tokens, scopes and
    planned events, and the routing that moves a token through decisions, splits
    and joins until it rests, waits or closes the case.  [closeBranches] and
    [childOnPath] come from [joinpolicy.go], [applyAssignRule] and [fullHistory]
    from [assignrule.go], [deadlineFor] from [operations.go], [resolveRoute] from
    [move.go].

    A pointer to a token or a scope is its identifier: reading through it is
    [run_token]/[run_scope], writing through it [upd_token]/[upd_scope].  The
    callbacks of the consumer (guards, the join check, the deadline and assignee
    resolvers) answer from the database as the call sees it while it plans, which
    is before anything is written. *)

From stdpp Require Import base gmap sets list strings.
From Stdlib Require Import ZArith Lia.
From S2P Require Import Prelude GoStrings Errors Model Definitions JoinPolicies Repo Ports Events.

Open Scope string_scope.
Open Scope Z_scope.

(** ** The working copy *)

Record caseRun := mkRun {
  r_c : Case;
  r_d : WDefinition;
  r_tokens : list Token;
  r_scopes : list Scope;
  r_created : gset uuid;
  r_changed : gset uuid;
  r_now : time;
  r_actor : Actor;
  r_baseSeq : Z;
  r_events : list Event;
  r_joined : list JoinRecord;
  r_gatewaySteps : Z;
  r_joinResults : gmap uuid JoinResult;
  r_history : option (list Event);
  r_uuids : nat }.

Definition set_tokens (f : list Token -> list Token) (r : caseRun) : caseRun :=
  mkRun (r_c r) (r_d r) (f (r_tokens r)) (r_scopes r) (r_created r) (r_changed r)
    (r_now r) (r_actor r) (r_baseSeq r) (r_events r) (r_joined r) (r_gatewaySteps r)
    (r_joinResults r) (r_history r) (r_uuids r).

Definition set_scopes (f : list Scope -> list Scope) (r : caseRun) : caseRun :=
  mkRun (r_c r) (r_d r) (r_tokens r) (f (r_scopes r)) (r_created r) (r_changed r)
    (r_now r) (r_actor r) (r_baseSeq r) (r_events r) (r_joined r) (r_gatewaySteps r)
    (r_joinResults r) (r_history r) (r_uuids r).

Definition set_events (f : list Event -> list Event) (r : caseRun) : caseRun :=
  mkRun (r_c r) (r_d r) (r_tokens r) (r_scopes r) (r_created r) (r_changed r)
    (r_now r) (r_actor r) (r_baseSeq r) (f (r_events r)) (r_joined r) (r_gatewaySteps r)
    (r_joinResults r) (r_history r) (r_uuids r).

Definition set_run_case (c : Case) (r : caseRun) : caseRun :=
  mkRun c (r_d r) (r_tokens r) (r_scopes r) (r_created r) (r_changed r)
    (r_now r) (r_actor r) (r_baseSeq r) (r_events r) (r_joined r) (r_gatewaySteps r)
    (r_joinResults r) (r_history r) (r_uuids r).

Definition set_history (h : list Event) (r : caseRun) : caseRun :=
  mkRun (r_c r) (r_d r) (r_tokens r) (r_scopes r) (r_created r) (r_changed r)
    (r_now r) (r_actor r) (r_baseSeq r) (r_events r) (r_joined r) (r_gatewaySteps r)
    (r_joinResults r) (Some h) (r_uuids r).

Definition mark_created (id : uuid) (r : caseRun) : caseRun :=
  mkRun (r_c r) (r_d r) (r_tokens r) (r_scopes r) ({[id]} ∪ r_created r) (r_changed r)
    (r_now r) (r_actor r) (r_baseSeq r) (r_events r) (r_joined r) (r_gatewaySteps r)
    (r_joinResults r) (r_history r) (r_uuids r).

(** [caseRun.touch]. *)
Definition touch (id : uuid) (r : caseRun) : caseRun :=
  if bool_decide (id ∈ r_created r) then r
  else mkRun (r_c r) (r_d r) (r_tokens r) (r_scopes r) (r_created r) ({[id]} ∪ r_changed r)
    (r_now r) (r_actor r) (r_baseSeq r) (r_events r) (r_joined r) (r_gatewaySteps r)
    (r_joinResults r) (r_history r) (r_uuids r).

(** [caseRun.begin]. *)
Definition begin (now : time) (actor : Actor) (r : caseRun) : caseRun :=
  mkRun (r_c r) (r_d r) (r_tokens r) (r_scopes r) (r_created r) (r_changed r)
    now actor (r_baseSeq r) (r_events r) (r_joined r) (r_gatewaySteps r)
    (r_joinResults r) (r_history r) (r_uuids r).

Definition add_joined (rec : JoinRecord) (r : caseRun) : caseRun :=
  mkRun (r_c r) (r_d r) (r_tokens r) (r_scopes r) (r_created r) (r_changed r)
    (r_now r) (r_actor r) (r_baseSeq r) (r_events r) (r_joined r ++ [rec]) (r_gatewaySteps r)
    (r_joinResults r) (r_history r) (r_uuids r).

(** One [uuid.New()] drawn from the call's supply. *)
Definition draw_uuid (r : caseRun) : caseRun :=
  mkRun (r_c r) (r_d r) (r_tokens r) (r_scopes r) (r_created r) (r_changed r)
    (r_now r) (r_actor r) (r_baseSeq r) (r_events r) (r_joined r) (r_gatewaySteps r)
    (r_joinResults r) (r_history r) (S (r_uuids r)).

Definition upd_token (id : uuid) (f : Token -> Token) (r : caseRun) : caseRun :=
  set_tokens (upd_by t_ID id f) r.

Definition upd_scope (id : uuid) (f : Scope -> Scope) (r : caseRun) : caseRun :=
  set_scopes (upd_by s_ID id f) r.

(** [caseRun.scope] and [caseRun.token]. *)
Definition run_scope (r : caseRun) (id : uuid) : option Scope :=
  find_by s_ID id (r_scopes r).

Definition run_token (r : caseRun) (id : uuid) : option Token :=
  find_by t_ID id (r_tokens r).

(** [caseRun.addToken]. *)
Definition addToken (t : Token) (r : caseRun) : caseRun :=
  mark_created (t_ID t) (set_tokens (fun l => (l ++ [t])%list) r).

(** ** Events *)

(** A planned event: the fields the call site sets. *)
Definition plan_event (kind : EventKind) (token scope : uuid) (from to : string)
    (action comment : string) (detail : option json) : Event :=
  mkEvent 0%N 0%N 0 kind token scope from to action None zero_Actor "" "" comment
    0 0 detail "" "" "" None None.

(** The Seq the next planned event gets. *)
Definition next_seq (r : caseRun) : Z := r_baseSeq r + Z.of_nat (length (r_events r)) + 1.

Definition stamp_event (seq : Z) (now : time) (actor : Actor) (e : Event) : Event :=
  mkEvent (ev_ID e) (ev_CaseID e) seq (ev_Kind e) (ev_TokenID e) (ev_ScopeID e)
    (ev_FromState e) (ev_ToState e) (ev_Action e) (ev_DeadlineAt e) actor
    (ev_ActorID e) (ev_Tenant e) (ev_Comment e) now (ev_SchemaVersion e) (ev_Detail e)
    (ev_RequestID e) (ev_TraceID e) (ev_SpanID e) (ev_PrevDigest e) (ev_Digest e).

(** [caseRun.emit]; the Seq it returns is [next_seq] of the run before. *)
Definition emit (e : Event) (r : caseRun) : caseRun :=
  set_events (fun l => (l ++ [stamp_event (next_seq r) (r_now r) (r_actor r) e])%list) r.

Definition event_with_deadline (dl : option time) (e : Event) : Event :=
  mkEvent (ev_ID e) (ev_CaseID e) (ev_Seq e) (ev_Kind e) (ev_TokenID e) (ev_ScopeID e)
    (ev_FromState e) (ev_ToState e) (ev_Action e) dl (ev_Actor e)
    (ev_ActorID e) (ev_Tenant e) (ev_Comment e) (ev_OccurredAt e) (ev_SchemaVersion e)
    (ev_Detail e) (ev_RequestID e) (ev_TraceID e) (ev_SpanID e) (ev_PrevDigest e) (ev_Digest e).

Definition event_with_detail (d : json) (e : Event) : Event :=
  mkEvent (ev_ID e) (ev_CaseID e) (ev_Seq e) (ev_Kind e) (ev_TokenID e) (ev_ScopeID e)
    (ev_FromState e) (ev_ToState e) (ev_Action e) (ev_DeadlineAt e) (ev_Actor e)
    (ev_ActorID e) (ev_Tenant e) (ev_Comment e) (ev_OccurredAt e) (ev_SchemaVersion e)
    (Some d) (ev_RequestID e) (ev_TraceID e) (ev_SpanID e) (ev_PrevDigest e) (ev_Digest e).

(** ** Token changes *)

(** The assignments of [caseRun.end] to the token. *)
Definition token_end (status : TokenStatus) (seq : Z) (now : time) (t : Token) : Token :=
  mkToken (t_ID t) (t_CaseID t) (t_ScopeID t) (t_Node t) status (t_Eligible t) ""
    None None (t_EnteredSeq t) (t_EnteredAt t) seq (Some now) (t_Outcome t).

(** [caseRun.end]. *)
Definition run_end (id : uuid) (status : TokenStatus) (seq : Z) (r : caseRun) : caseRun :=
  touch id (upd_token id (token_end status seq (r_now r)) r).

(** The assignments of one hop of [route] to the token. *)
Definition token_enter (node : string) (seq : Z) (now : time) (t : Token) : Token :=
  mkToken (t_ID t) (t_CaseID t) (t_ScopeID t) node (t_Status t) zero_Eligibility ""
    None None seq now (t_EndedSeq t) (t_EndedAt t) (t_Outcome t).

(** The token at rest on a task node. *)
Definition token_rest (el : Eligibility) (t : Token) : Token :=
  mkToken (t_ID t) (t_CaseID t) (t_ScopeID t) (t_Node t) TokenActive el (t_AssignedTo t)
    (t_DeadlineAt t) (t_ExpiredDeadline t) (t_EnteredSeq t) (t_EnteredAt t)
    (t_EndedSeq t) (t_EndedAt t) (t_Outcome t).

Definition token_with_deadline (dl : option time) (t : Token) : Token :=
  mkToken (t_ID t) (t_CaseID t) (t_ScopeID t) (t_Node t) (t_Status t) (t_Eligible t)
    (t_AssignedTo t) dl (t_ExpiredDeadline t) (t_EnteredSeq t) (t_EnteredAt t)
    (t_EndedSeq t) (t_EndedAt t) (t_Outcome t).

Definition token_with_expired (dl : option time) (t : Token) : Token :=
  mkToken (t_ID t) (t_CaseID t) (t_ScopeID t) (t_Node t) (t_Status t) (t_Eligible t)
    (t_AssignedTo t) (t_DeadlineAt t) dl (t_EnteredSeq t) (t_EnteredAt t)
    (t_EndedSeq t) (t_EndedAt t) (t_Outcome t).

Definition token_with_assignee (to : string) (t : Token) : Token :=
  mkToken (t_ID t) (t_CaseID t) (t_ScopeID t) (t_Node t) (t_Status t) (t_Eligible t)
    to (t_DeadlineAt t) (t_ExpiredDeadline t) (t_EnteredSeq t) (t_EnteredAt t)
    (t_EndedSeq t) (t_EndedAt t) (t_Outcome t).

Definition token_with_eligible (el : Eligibility) (t : Token) : Token :=
  mkToken (t_ID t) (t_CaseID t) (t_ScopeID t) (t_Node t) (t_Status t) el
    (t_AssignedTo t) (t_DeadlineAt t) (t_ExpiredDeadline t) (t_EnteredSeq t) (t_EnteredAt t)
    (t_EndedSeq t) (t_EndedAt t) (t_Outcome t).

(** The token parked at its join. *)
Definition token_wait (outcome : Outcome) (t : Token) : Token :=
  mkToken (t_ID t) (t_CaseID t) (t_ScopeID t) (t_Node t) TokenWaiting (t_Eligible t)
    (t_AssignedTo t) (t_DeadlineAt t) (t_ExpiredDeadline t) (t_EnteredSeq t) (t_EnteredAt t)
    (t_EndedSeq t) (t_EndedAt t) outcome.

(** A token a split or a join creates. *)
Definition new_token (id caseID scope : uuid) (node : string) : Token :=
  mkToken id caseID scope node TokenActive zero_Eligibility "" None None 0 time_zero 0 None
    OutcomeNone.

Definition scope_with_status (st : ScopeStatus) (seq : Z) (s : Scope) : Scope :=
  mkScope (s_ID s) (s_CaseID s) (s_ParentID s) (s_SplitNode s) (s_JoinNode s)
    (s_Expected s) st (s_OpenedSeq s) seq.

Definition close_scope (id : uuid) (st : ScopeStatus) (seq : Z) (r : caseRun) : caseRun :=
  touch id (upd_scope id (scope_with_status st seq) r).

(** [resolvedEligibility]. *)
Definition resolvedEligibility (n : Node) (caseUnit : string) : Eligibility :=
  if el_IsZero (n_Eligible n) then zero_Eligibility
  else mkEligibility (el_Position (n_Eligible n)) (ResolveUnit (n_Eligible n) caseUnit).

(** ** Orders *)

(** [sortTokens]: by EnteredSeq, then ID. *)
Definition token_less (a b : Token) : bool :=
  if bool_decide (t_EnteredSeq a <> t_EnteredSeq b)
  then t_EnteredSeq a <? t_EnteredSeq b
  else (t_ID a <? t_ID b)%N.

Definition sortTokens (l : list Token) : list Token := sort_by token_less l.

Definition is_active (t : Token) : bool := bool_decide (t_Status t = TokenActive).

(** [caseRun.active]: the active tokens, in EnteredSeq order. *)
Definition active (r : caseRun) : list Token :=
  sort_by (fun a b => t_EnteredSeq a <? t_EnteredSeq b)
    (List.filter is_active (r_tokens r)).

(** [caseRun.pick]. *)
Definition pick (r : caseRun) (id : uuid) : result Token :=
  let act := active r in
  if bool_decide (id = uuid_Nil)
  then match act with
       | [t] => Ok t
       | [] => Err (sent ErrTokenNotFound)
       | _ => Err (sent ErrTokenRequired)
       end
  else match find_by t_ID id act with
       | Some t => Ok t
       | None => Err (sent ErrTokenNotFound)
       end.

(** [caseRun.snapshot]: the case a guard sees. *)
Definition snapshot (r : caseRun) (tok : Token) (node : string) : Case :=
  let c := r_c r in
  mkCase (c_ID c) (c_Definition c) (c_Version c) (c_Tenant c) (c_Domain c)
    (c_ExternalID c) (c_Unit c) node (c_Status c) (t_AssignedTo tok)
    (c_OpenedAt c) (c_ClosedAt c) (t_DeadlineAt tok) (c_Revision c) (c_LastSeq c)
    (r_joinResults r !! t_ID tok).

(** ** Loading *)

(** [caseRun.fillEligibility], one token at a time. *)
Definition fill_token (r : caseRun) (t : Token) : caseRun :=
  if negb (is_active t) || negb (el_IsZero (t_Eligible t)) then r
  else match Definition_Node (r_d r) (t_Node t) with
       | Some n =>
           if el_IsZero (n_Eligible n) then r
           else touch (t_ID t)
                  (upd_token (t_ID t)
                     (token_with_eligible (resolvedEligibility n (c_Unit (r_c r)))) r)
       | None => r
       end.

Definition fillEligibility (r : caseRun) : caseRun :=
  fold_left fill_token (r_tokens r) r.

Definition new_run (c : Case) (d : WDefinition) (tokens : list Token) (scopes : list Scope)
  : caseRun :=
  mkRun c d tokens scopes ∅ ∅ time_zero zero_Actor (c_LastSeq c) [] [] 0 ∅ None 0.

Section WithRepo.
Context {DB : Type} `{Repository DB}.
Implicit Types (e : Engine DB) (db : DB).

(** [Engine.loadRun]. *)
Definition loadRun (db : DB) (c : Case) (d : WDefinition) : result caseRun :=
  let! tokens := lift (repo_ListTokens db (c_ID c)) in
  let! scopes := lift (repo_ListScopes db (c_ID c)) in
  if bool_decide (tokens = []) && bool_decide (c_Status c = StatusOpen)
  then Err (sent ErrCaseWithoutTokens)
  else Ok (fillEligibility (new_run c d tokens scopes)).

(** ** Guards, deadlines, assignment *)

(** [Engine.lookupGuard]. *)
Definition lookupGuard (e : Engine DB) (name : string) : result (GuardFunc DB) :=
  match e_guards e !! name with
  | Some fn => Ok fn
  | None => Err (sent ErrGuardNotRegistered)
  end.

(** [Engine.resolveRoute]: the first route whose guard passes. *)
Fixpoint resolveRoute (e : Engine DB) (db : DB) (routes : list Transition) (c : Case)
  : result Transition :=
  match routes with
  | [] => Err (sent ErrNoRoute)
  | route :: rest =>
      if bool_decide (tr_Guard route = "") then Ok route
      else
        let! fn := lookupGuard e (tr_Guard route) in
        let! ok := lift (fn db c) in
        if (ok : bool) then Ok route else resolveRoute e db rest c
  end.

(** The routes an inclusive split takes: those whose guard passes, and the
    unguarded ones kept as fallback. *)
Fixpoint inclusive_routes (e : Engine DB) (db : DB) (routes : list Transition) (c : Case)
  : result (list Transition * list Transition) :=
  match routes with
  | [] => Ok ([], [])
  | route :: rest =>
      if bool_decide (tr_Guard route = "")
      then let! '(taken, fallback) := inclusive_routes e db rest c in
           Ok (taken, route :: fallback)
      else
        let! fn := lookupGuard e (tr_Guard route) in
        let! ok := lift (fn db c) in
        let! '(taken, fallback) := inclusive_routes e db rest c in
        Ok (if (ok : bool) then (route :: taken, fallback) else (taken, fallback))
  end.

(** [Engine.deadlineFor]. *)
Definition deadlineFor (e : Engine DB) (n : Node) (from : time) (c : Case) (tok : Token)
  : result (option time) :=
  if bool_decide (n_DeadlineRule n <> "")
  then match e_deadlines e with
       | None => Err (sent ErrUnknownDeadlineRule)
       | Some due =>
           let! d := lift (due (mkDueInput (n_DeadlineRule n) from c tok)) in
           Ok (Some d)
       end
  else if 0 <? n_Deadline n then Ok (Some (from + n_Deadline n))
  else Ok None.

(** A planned event as [fullHistory] shows it. *)
Definition shape_planned (c : Case) (ev : Event) : Event :=
  mkEvent (ev_ID ev) (c_ID c) (ev_Seq ev) (ev_Kind ev) (ev_TokenID ev) (ev_ScopeID ev)
    (ev_FromState ev) (ev_ToState ev) (ev_Action ev) (ev_DeadlineAt ev) (ev_Actor ev)
    (a_ID (ev_Actor ev)) (c_Tenant c) (ev_Comment ev) (ev_OccurredAt ev) CurrentEventSchema
    (match ev_Detail ev with None => Some emptyDetail | Some d => Some d end)
    (ev_RequestID ev) (ev_TraceID ev) (ev_SpanID ev) (ev_PrevDigest ev) (ev_Digest ev).

(** [caseRun.fullHistory]: the stored history, read at most once, then the events
    planned so far. *)
Definition fullHistory (db : DB) (r : caseRun) : result (caseRun * list Event) :=
  let! r :=
    match r_history r with
    | Some _ => Ok r
    | None => let! stored := listEvents db (c_ID (r_c r)) in Ok (set_history stored r)
    end in
  Ok (r, (default [] (r_history r) ++ (shape_planned (r_c r) <$> r_events r))%list).

(** [Engine.applyAssignRule]. *)
Definition applyAssignRule (e : Engine DB) (db : DB) (r : caseRun) (tid : uuid) (n : Node)
  : result caseRun :=
  if bool_decide (n_AssignRule n = "") then Ok r
  else match e_assignees e with
  | None => Err (sent ErrUnknownAssignRule)
  | Some assignee =>
      let! '(r, history) := fullHistory db r in
      let! tok := deref (run_token r tid) in
      let! to := lift (assignee db (mkAssignInput (n_AssignRule n) (r_c r) tok n history)) in
      if bool_decide (to = "") then Ok r
      else
        let detail :=
          marshal_AssignmentDetail
            (mkAssignmentDetail "" to ("assign_rule:" ++ n_AssignRule n)) in
        let r := upd_token tid (token_with_assignee to) r in
        Ok (emit (plan_event EventAssigned (t_ID tok) (t_ScopeID tok) (n_ID n) (n_ID n)
                    "" "" (Some detail)) r)
  end.

(** ** Closing the case *)

(** [caseRun.closeCase]. *)
Definition closeCase (r : caseRun) (tid : uuid) (node : Node) (action : string)
  : result caseRun :=
  let! tok := deref (run_token r tid) in
  if bool_decide (t_ScopeID tok <> c_ID (r_c r))
  then Err (EOther "token reached a terminal node inside a block")
  else
    let seq := next_seq r in
    let r := emit (plan_event EventClosed (t_ID tok) (t_ScopeID tok) (n_ID node) (n_ID node)
                     action "" None) r in
    let r := run_end tid TokenConsumed seq r in
    let r := match run_scope r (c_ID (r_c r)) with
             | Some root => close_scope (s_ID root) ScopeClosed seq r
             | None => r
             end in
    let c := r_c r in
    Ok (set_run_case
          (mkCase (c_ID c) (c_Definition c) (c_Version c) (c_Tenant c) (c_Domain c)
             (c_ExternalID c) (c_Unit c) (n_ID node) StatusClosed (c_AssignedTo c)
             (c_OpenedAt c) (Some (r_now r)) (c_DeadlineAt c) (c_Revision c) (c_LastSeq c)
             (c_JoinResult c)) r).

Definition maxDecisionHops : Z := 32.
Definition maxGatewaySteps : Z := 256.

(** [caseRun.gatewayStep]. *)
Definition gatewayStep (r : caseRun) : result caseRun :=
  let r := mkRun (r_c r) (r_d r) (r_tokens r) (r_scopes r) (r_created r) (r_changed r)
    (r_now r) (r_actor r) (r_baseSeq r) (r_events r) (r_joined r) (r_gatewaySteps r + 1)
    (r_joinResults r) (r_history r) (r_uuids r) in
  if maxGatewaySteps <? r_gatewaySteps r then Err (sent ErrTooManyDecisionHops) else Ok r.

(** ** Splits

    [rt] routes one new token along its transition: it is [route] with the
    remaining fuel. *)

Definition router : Type := caseRun -> uuid -> Transition -> result caseRun.

(** The routes [split] takes at [node]. *)
Definition split_taken (e : Engine DB) (db : DB) (r : caseRun) (tok : Token) (node : Node)
  : result (list Transition) :=
  let routes := TransitionsFrom (r_d r) (n_ID node) in
  if bool_decide (n_Kind node = NodeParallel) then Ok routes
  else
    let! '(taken, fallback) := inclusive_routes e db routes (snapshot r tok (n_ID node)) in
    Ok (if bool_decide (taken = []) then fallback else taken).

(** The loop over the branches: each new token joins the run and routes in turn. *)
Fixpoint route_branches (rt : router) (scope : uuid) (node : string)
    (branches : list (uuid * Transition)) (r : caseRun) : result caseRun :=
  match branches with
  | [] => Ok r
  | (id, tr) :: rest =>
      let r := addToken (new_token id (c_ID (r_c r)) scope node) r in
      let! r := rt r id tr in
      route_branches rt scope node rest r
  end.

(** [k] uuids drawn in a row. *)
Fixpoint draw_uuids (cx : Ctx) (k : nat) (r : caseRun) : caseRun * list uuid :=
  match k with
  | O => (r, [])
  | S k' =>
      let id := cx_uuid cx (r_uuids r) in
      let '(r, ids) := draw_uuids cx k' (draw_uuid r) in
      (r, id :: ids)
  end.

(** [Engine.split]. *)
Definition split_with (rt : router) (e : Engine DB) (cx : Ctx) (db : DB) (r : caseRun)
    (tid : uuid) (node : Node) : result caseRun :=
  let! r := gatewayStep r in
  let! tok := deref (run_token r tid) in
  let! taken := split_taken e db r tok node in
  if bool_decide (taken = []) then Err (sent ErrNoRoute)
  else
    let scopeID := cx_uuid cx (r_uuids r) in
    let r := draw_uuid r in
    let '(r, ids) := draw_uuids cx (length taken) r in
    let seq := next_seq r in
    let detail := marshal_SplitDetail (mkSplitDetail scopeID (n_ID node) ids) in
    let r := emit (plan_event EventSplit (t_ID tok) (t_ScopeID tok) (n_ID node) (n_ID node)
                     "" "" (Some detail)) r in
    let r := run_end tid TokenConsumed seq r in
    let scope := mkScope scopeID (c_ID (r_c r)) (Some (t_ScopeID tok)) (n_ID node)
                   (n_Join node) (Z.of_nat (length taken)) ScopeOpen seq 0 in
    let r := mark_created scopeID (set_scopes (fun l => (l ++ [scope])%list) r) in
    route_branches rt scopeID (n_ID node) (zip ids taken) r.

(** ** Joins *)

(** [caseRun.childOnPath]: the ancestor of [s] (or [s]) whose parent is [ancestor],
    walking up through open scopes.  [fuel] bounds the walk; [length scopes] is
    enough on a tree. *)
Fixpoint childOnPath (fuel : nat) (scopes : list Scope) (s : option Scope) (ancestor : uuid)
  : option Scope :=
  match fuel with
  | O => None
  | S fuel' =>
      match s with
      | None => None
      | Some s =>
          if bool_decide (s_Status s <> ScopeOpen) then None
          else match s_ParentID s with
               | None => None
               | Some p =>
                   if bool_decide (p = ancestor) then Some s
                   else childOnPath fuel' scopes (find_by s_ID p scopes) ancestor
               end
      end
  end.

Definition child_of (r : caseRun) (s : Scope) (ancestor : uuid) : option Scope :=
  childOnPath (S (length (r_scopes r))) (r_scopes r) (Some s) ancestor.

(** [branchOf]: each scope open inside [scope] with the direct child standing for
    its branch, in the order of the run's scopes. *)
Definition branch_of (r : caseRun) (scope : uuid) : list (uuid * uuid) :=
  omap (fun s =>
    if bool_decide (s_Status s <> ScopeOpen) then None
    else (fun child => (s_ID s, s_ID child)) <$> child_of r s scope) (r_scopes r).

Definition lookup_branch (m : list (uuid * uuid)) (id : uuid) : option uuid :=
  snd <$> find_by fst id m.

(** The tokens [closeBranches] cancels, in token order. *)
Definition pending_tokens (r : caseRun) (scope : uuid) (m : list (uuid * uuid)) : list Token :=
  sortTokens (List.filter (fun t =>
    (bool_decide (t_ScopeID t = scope) && is_active t)
    || (match lookup_branch m (t_ScopeID t) with Some _ => true | None => false end
        && Live (t_Status t))) (r_tokens r)).

(** The loop that cancels them.  [reported] holds the branches already reported. *)
Fixpoint cancel_pending (detail : json) (m : list (uuid * uuid)) (pending : list Token)
    (reported : list uuid) (branches : list BranchResult) (r : caseRun)
  : result (caseRun * list BranchResult) :=
  match pending with
  | [] => Ok (r, branches)
  | p :: rest =>
      let! t := deref (run_token r (t_ID p)) in
      let seq := next_seq r in
      let r := emit (plan_event EventTokenCancelled (t_ID t) (t_ScopeID t) (t_Node t) (t_Node t)
                       "" "" (Some detail)) r in
      let r := run_end (t_ID t) TokenCancelled seq r in
      match lookup_branch m (t_ScopeID t) with
      | Some child =>
          if bool_decide (child ∈ reported)
          then cancel_pending detail m rest reported branches r
          else cancel_pending detail m rest (child :: reported)
                 (branches ++ [mkBranchResult (t_ID t) OutcomeUnanswered seq]) r
      | None => cancel_pending detail m rest reported branches r
      end
  end.

(** The branch a token of the round's own scope stands for. *)
Definition own_branch (scope : uuid) (t : Token) : option BranchResult :=
  if bool_decide (t_ScopeID t <> scope) then None
  else match t_Status t with
       | TokenWaiting => Some (mkBranchResult (t_ID t) (t_Outcome t) (t_EnteredSeq t))
       | TokenCancelled => Some (mkBranchResult (t_ID t) OutcomeUnanswered (t_EndedSeq t))
       | TokenActive | TokenConsumed => None
       end.

(** [caseRun.closeBranches]. *)
Definition closeBranches (r : caseRun) (scope : uuid) (policy : JoinPolicy)
  : result (caseRun * list BranchResult * list uuid) :=
  let m := branch_of r scope in
  let nested := fst <$> m in
  let pending := pending_tokens r scope m in
  let detail := cancelDetail ("join_policy:" ++ JoinPolicy_string policy) in
  let! '(r, branches) := cancel_pending detail m pending [] [] r in
  let branches := (branches ++ omap (own_branch scope) (r_tokens r))%list in
  Ok (r, sort_by (fun a b => br_Seq a <? br_Seq b) branches, nested).

(** The scan of [tryJoin] over the scope's tokens: who waits, and the tally. *)
Fixpoint tally_tokens (policy : JoinPolicy) (scope : uuid) (tokens : list Token)
    (waiting : list uuid) (tally : roundTally) : result (list uuid * roundTally) :=
  match tokens with
  | [] => Ok (waiting, tally)
  | t :: rest =>
      if bool_decide (t_ScopeID t <> scope)
      then tally_tokens policy scope rest waiting tally
      else match t_Status t with
      | TokenWaiting =>
          let waiting := (waiting ++ [t_ID t])%list in
          if bool_decide (t_Outcome t = OutcomeApproved)
          then tally_tokens policy scope rest waiting
                 (mkTally (rt_approved tally + 1) (rt_rejected tally) (rt_cancelled tally)
                    (rt_expected tally))
          else if bool_decide (t_Outcome t = OutcomeRejected)
          then tally_tokens policy scope rest waiting
                 (mkTally (rt_approved tally) (rt_rejected tally + 1) (rt_cancelled tally)
                    (rt_expected tally))
          else if bool_decide (policy <> JoinNone) then Err (sent ErrInvalidOutcome)
          else tally_tokens policy scope rest waiting tally
      | TokenCancelled =>
          tally_tokens policy scope rest waiting
            (mkTally (rt_approved tally) (rt_rejected tally) (rt_cancelled tally + 1)
               (rt_expected tally))
      | TokenActive | TokenConsumed => tally_tokens policy scope rest waiting tally
      end
  end.

(** [caseRun.noteJoinResult]. *)
Definition noteJoinResult (next : uuid) (scope : Scope) (policy : JoinPolicy) (verdict : Outcome)
    (seq : Z) (branches : list BranchResult) (r : caseRun) : caseRun :=
  let jr := mkJoinResult (s_ID scope) (s_JoinNode scope) policy verdict seq
              ((fun b => mkJoinBranch b zero_Actor "" "") <$> branches) in
  mkRun (r_c r) (r_d r) (r_tokens r) (r_scopes r) (r_created r) (r_changed r)
    (r_now r) (r_actor r) (r_baseSeq r) (r_events r) (r_joined r) (r_gatewaySteps r)
    (<[next := jr]> (r_joinResults r)) (r_history r) (r_uuids r).

(** Whether the round of [scope] closes, and its verdict. *)
Definition round_closes (policy : JoinPolicy) (waiting : list uuid) (tally : roundTally)
  : bool * Outcome :=
  if bool_decide (policy = JoinNone)
  then (negb (bool_decide (waiting = []))
        && (Z.of_nat (length waiting) + rt_cancelled tally =? rt_expected tally), OutcomeNone)
  else closes policy tally.

(** What firing the join writes before [Config.JoinCheck] is asked: the pending
    branches cancelled, the waiting tokens consumed, the scope joined. *)
Definition fire_join (cx : Ctx) (r : caseRun) (scope : Scope) (join : Node) (parent : uuid)
    (policy : JoinPolicy) (verdict : Outcome) (waiting : list uuid)
  : result (caseRun * JoinRecord * uuid * Z * list BranchResult) :=
  let! '(r, branches, nested) :=
    (if bool_decide (policy = JoinNone) then Ok (r, [], [])
     else closeBranches r (s_ID scope) policy) in
  let next := cx_uuid cx (r_uuids r) in
  let r := draw_uuid r in
  let detail := marshal_JoinDetail
    (mkJoinDetail (s_ID scope) (n_ID join) waiting policy verdict branches) in
  let seq := next_seq r in
  let r := emit (plan_event EventJoined next (s_ID scope) (n_ID join) (n_ID join)
                   "" "" (Some detail)) r in
  let r := fold_left (fun r id => run_end id TokenConsumed seq r) waiting r in
  let r := fold_left (fun r id => close_scope id ScopeCancelled seq r) nested r in
  let r := close_scope (s_ID scope) ScopeJoined seq r in
  let rec := mkJoinRecord (scope_with_status ScopeJoined seq scope)
               (omap (run_token r) waiting) verdict branches in
  Ok (r, rec, next, seq, branches).

(** [Engine.tryJoin]. *)
Definition tryJoin_with (rt : router) (e : Engine DB) (cx : Ctx) (db : DB) (r : caseRun)
    (sid : uuid) : result caseRun :=
  let! scope := deref (run_scope r sid) in
  if bool_decide (s_Status scope <> ScopeOpen) then Ok r
  else
    let found := Definition_Node (r_d r) (s_JoinNode scope) in
    let join := default zero_Node found in
    let policy := n_JoinPolicy join in
    let! '(waiting, tally) :=
      tally_tokens policy (s_ID scope) (r_tokens r) [] (mkTally 0 0 0 (s_Expected scope)) in
    let '(closed, verdict) := round_closes policy waiting tally in
    if negb closed then Ok r
    else
      let! r := gatewayStep r in
      match found with
      | None => Err (EOther "join node not found in definition")
      | Some _ =>
          match TransitionsFrom (r_d r) (n_ID join) with
          | [out] =>
              let! parent := deref (s_ParentID scope) in
              let! '(r, rec, next, seq, branches) :=
                fire_join cx r scope join parent policy verdict waiting in
              let! _ :=
                match e_joinCheck e with
                | None => Ok tt
                | Some check =>
                    match check db rec with
                    | inl err => Err (EWrap (sent ErrJoinRejected) err)
                    | inr _ => Ok tt
                    end
                end in
              let r := add_joined rec r in
              let r := addToken (new_token next (c_ID (r_c r)) parent (n_ID join)) r in
              let r := if bool_decide (policy = JoinNone) then r
                       else noteJoinResult next scope policy verdict seq branches r in
              rt r next out
          | _ => Err (EOther "join node: want one outgoing transition")
          end
      end.

(** [Engine.arrive]. *)
Definition arrive_with (rt : router) (e : Engine DB) (cx : Ctx) (db : DB) (r : caseRun)
    (tid : uuid) (node : Node) (outcome : Outcome) : result caseRun :=
  let! tok := deref (run_token r tid) in
  match run_scope r (t_ScopeID tok) with
  | None => Err (EOther "token arrived at a join outside its block")
  | Some scope =>
      if bool_decide (s_JoinNode scope <> n_ID node)
      then Err (EOther "token arrived at a join outside its block")
      else
        let r := upd_token tid (token_wait outcome) r in
        let detail :=
          if bool_decide (outcome = OutcomeNone) then None
          else Some (marshal_WaitingDetail (mkWaitingDetail outcome)) in
        let r := emit (plan_event EventWaiting (t_ID tok) (t_ScopeID tok) (n_ID node) (n_ID node)
                         "" "" detail) r in
        tryJoin_with rt e cx db r (s_ID scope)
  end.

(** ** Routing *)

(** The token comes to rest on the task node [next]. *)
Definition rest (e : Engine DB) (db : DB) (r : caseRun) (tid : uuid) (hop : nat) (next : Node)
  : result caseRun :=
  let r := upd_token tid (token_rest (resolvedEligibility next (c_Unit (r_c r)))) r in
  let! tok := deref (run_token r tid) in
  let! deadline := deadlineFor e next (r_now r) (r_c r) tok in
  let r := upd_token tid (token_with_deadline deadline) r in
  let r := set_events (alter (event_with_deadline deadline) hop) r in
  applyAssignRule e db r tid next.

(** [Engine.route]: [hops] counts the hops of this loop; the recursive calls are
    the next iteration of the loop and the calls of [split] and [tryJoin]. *)
Fixpoint route (fuel : nat) (hops : Z) (e : Engine DB) (cx : Ctx) (db : DB) (r : caseRun)
    (tid : uuid) (tr : Transition) (comment : string) {struct fuel} : result caseRun :=
  match fuel with
  | O => Fuel
  | S fuel' =>
      let rt := fun r tid tr => route fuel' 0 e cx db r tid tr "" in
      match Definition_Node (r_d r) (tr_To tr) with
      | None => Err (EOther "destination node not found in definition")
      | Some next =>
          let! tok := deref (run_token r tid) in
          let hop := length (r_events r) in
          let seq := next_seq r in
          let r := emit (plan_event EventMoved (t_ID tok) (t_ScopeID tok) (t_Node tok) (n_ID next)
                           (tr_Action tr) comment None) r in
          let hops := hops + 1 in
          let r := touch tid (upd_token tid (token_enter (n_ID next) seq (r_now r)) r) in
          if bool_decide (n_Kind next = NodeDecision)
          then
            if maxDecisionHops <=? hops then Err (sent ErrTooManyDecisionHops)
            else
              let! tok := deref (run_token r tid) in
              let! tr := resolveRoute e db (TransitionsFrom (r_d r) (n_ID next))
                           (snapshot r tok (n_ID next)) in
              route fuel' hops e cx db r tid tr ""
          else if IsSplit (n_Kind next) then split_with rt e cx db r tid next
          else if bool_decide (n_Kind next = NodeJoin)
          then arrive_with rt e cx db r tid next (tr_Outcome tr)
          else if n_Terminal next then closeCase r tid next (tr_Action tr)
          else rest e db r tid hop next
      end
  end.

(** Fuel for any call: each level of recursion is a hop of a decision loop (at most
    32 in a row) or one of at most 256 splits and joins, see [route_total]. *)
Definition routeFuel : nat := 257 * 33 + 1.

#[global] Strategy 1000 [routeFuel route].

Definition route_all (e : Engine DB) (cx : Ctx) (db : DB) (r : caseRun) (tid : uuid)
    (tr : Transition) (comment : string) : result caseRun :=
  route routeFuel 0 e cx db r tid tr comment.

(** The router [tryJoin] uses when a call fires a join directly. *)
Definition route_from_join (e : Engine DB) (cx : Ctx) (db : DB) : router :=
  fun r tid tr => route_all e cx db r tid tr "".

Definition tryJoin (e : Engine DB) (cx : Ctx) (db : DB) (r : caseRun) (sid : uuid)
  : result caseRun := tryJoin_with (route_from_join e cx db) e cx db r sid.

(** ** Persisting *)

(** The earliest deadline of the loop of [project]. *)
Definition earliest (acc : option time) (t : Token) : option time :=
  match t_DeadlineAt t with
  | None => acc
  | Some d => match acc with
              | None => Some d
              | Some a => if d <? a then Some d else acc
              end
  end.

(** [caseRun.project]. *)
Definition project (r : caseRun) : Case :=
  let c := r_c r in
  let with_projection state assigned deadline :=
    mkCase (c_ID c) (c_Definition c) (c_Version c) (c_Tenant c) (c_Domain c)
      (c_ExternalID c) (c_Unit c) state (c_Status c) assigned (c_OpenedAt c) (c_ClosedAt c)
      deadline (c_Revision c) (c_LastSeq c) (c_JoinResult c) in
  if bool_decide (c_Status c <> StatusOpen) then with_projection (c_State c) "" None
  else
    let act := active r in
    let '(state, assigned) :=
      match act with [t] => (t_Node t, t_AssignedTo t) | _ => ("", "") end in
    with_projection state assigned (fold_left earliest act None).

(** [Engine.writeState]: scopes first, a token references its scope. *)
Fixpoint write_scopes (created changed : gset uuid) (l : list Scope) : writer DB unit :=
  match l with
  | [] => w_ret tt
  | s :: rest =>
      do! _ :=
        (if bool_decide (s_ID s ∈ created) then w_lift (repo_CreateScope s)
         else if bool_decide (s_ID s ∈ changed) then w_lift (repo_UpdateScope s)
         else w_ret tt) in
      write_scopes created changed rest
  end.

Fixpoint write_tokens (created changed : gset uuid) (l : list Token) : writer DB unit :=
  match l with
  | [] => w_ret tt
  | t :: rest =>
      do! _ :=
        (if bool_decide (t_ID t ∈ created) then w_lift (repo_CreateToken t)
         else if bool_decide (t_ID t ∈ changed) then w_lift (repo_UpdateToken t)
         else w_ret tt) in
      write_tokens created changed rest
  end.

Definition writeState (r : caseRun) : writer DB unit :=
  do! _ := write_scopes (r_created r) (r_changed r) (r_scopes r) in
  write_tokens (r_created r) (r_changed r) (r_tokens r).

Fixpoint append_events (e : Engine DB) (cx : Ctx) (n : nat) (c : Case) (l : list Event)
  : writer DB (list Event) :=
  match l with
  | [] => w_ret []
  | evt :: rest =>
      do! evt := appendEvent e cx n c evt in
      do! appended := append_events e cx (S n) c rest in
      w_ret (evt :: appended)
  end.

(** [Engine.persist]: the case as written, and the events as appended. *)
Definition persist (e : Engine DB) (cx : Ctx) (r : caseRun) : writer DB (Case * list Event) :=
  let c := case_with_lastseq (project r) (r_baseSeq r + Z.of_nat (length (r_events r))) in
  do! c := w_lift (repo_Update c (r_baseSeq r)) in
  do! _ := writeState r in
  do! appended := append_events e cx (r_uuids r) c (r_events r) in
  w_ret (c, appended).

End WithRepo.
