(* ===== verification/Validate.v ===== *)
(** [Definition.Validate] ([workflow.go]) with its block rules ([blocks.go]) and
    join policy rules ([joinpolicy.go]).  A violation is a constructor with the
    values its message prints; the loops that walk the graph take a fuel that is
    enough for the definition's size. *)

From stdpp Require Import base gmap sets list strings.
From Stdlib Require Import ZArith Lia Ascii.
From S2P Require Import Prelude GoStrings Errors Model Definitions.

Open Scope string_scope.
Open Scope Z_scope.

(** ** Violations, one per message of the source *)

Inductive violation :=
(* effects: of a node (by ID) or of a transition (by index) *)
| VEffectEmpty (owner : string + nat) (i : nat)
| VEffectDuplicate (owner : string + nat) (name : string)
(* the definition *)
| VNameRequired
| VVersion (v : Z)
| VNoNodes
| VStartNodes (found : nat)
| VNoTerminal
(* nodes *)
| VNodeEmptyID (i : nat)
| VDuplicateNodeID (id : string)
| VInvalidKind (id : string) (k : NodeKind)
| VStartAndTerminal (id : string)
| VNegativeDeadline (id : string)
| VDeadlineAndRule (id : string)
| VTerminalAssignRule (id : string)
| VAutomaticStart (k : NodeKind) (id : string)
| VAutomaticTerminal (k : NodeKind) (id : string)
| VAutomaticEligibility (k : NodeKind) (id : string)
| VAutomaticDeadline (k : NodeKind) (id : string)
| VAutomaticOnExpire (k : NodeKind) (id : string)
| VAutomaticAssignRule (k : NodeKind) (id : string)
| VAutomaticEffects (k : NodeKind) (id : string)
| VJoinOnNonSplit (id : string)
| VDeadEnd (id : string)
| VUnreachable (id : string)
(* transitions *)
| VEmptyAction (i : nat)
| VInvalidComment (i : nat) (p : CommentPolicy)
| VUnknownFrom (i : nat) (id : string)
| VUnknownTo (i : nat) (id : string)
| VFromTerminal (i : nat) (id : string)
| VRouteComment (i : nat) (k : NodeKind) (id : string)
| VRouteReturn (i : nat) (k : NodeKind) (id : string)
| VParallelGuard (i : nat) (id : string)
| VReturnToTerminal (i : nat) (id : string)
| VReturnToAutomatic (i : nat) (k : NodeKind) (id : string)
| VAmbiguous (from action : string)
| VOnExpireUnknown (id action : string)
| VOnExpireReturn (id action : string)
(* gateways *)
| VJoinOutgoing (id : string) (found : nat)
| VJoinGuard (id : string)
| VTooFewRoutes (k : NodeKind) (id : string) (found : nat)
| VNoDefaultRoute (k : NodeKind) (id : string)
| VManyDefaultRoutes (k : NodeKind) (id : string) (found : nat)
| VDefaultNotLast (k : NodeKind) (id action : string)
| VGatewayCycle (decision_only : bool) (cycle : list string)
(* blocks *)
| VSplitNoJoin (k : NodeKind) (id : string)
| VSplitUnknownJoin (k : NodeKind) (id join : string)
| VSplitNotAJoin (k : NodeKind) (id join : string)
| VJoinUnnamed (id : string)
| VJoinManySplits (id : string) (splits : list string)
| VReentersSplit (k : NodeKind) (id action : string)
| VBranchTerminal (k : NodeKind) (id action node join : string)
| VBranchNeverJoins (k : NodeKind) (id action join node : string)
| VBranchesShare (k : NodeKind) (id action other node : string)
| VEnteredFromOutside (k : NodeKind) (id node from : string)
| VJoinEnteredFromOutside (k : NodeKind) (id join from : string)
| VNotNested (inner : NodeKind) (id : string) (outer : NodeKind) (outer_id : string)
| VOverlap (a b : string)
| VReturnCrosses (i : nat) (from to : string)
(* join policies *)
| VBranchOutcomes (k : NodeKind) (id action join : string)
| VNoRejectedRoute (join decision split : string) (p : JoinPolicy)
| VPolicyOnNonJoin (id : string)
| VInvalidPolicy (id : string) (p : JoinPolicy)
| VCollectNotTask (id to : string)
| VVerdictNotDecision (id : string) (p : JoinPolicy) (to : string)
| VPolicyInclusive (join split : string)
| VOutcomeOutside (i : nat)
| VPolicyFromAutomatic (i : nat) (join : string) (k : NodeKind) (from : string)
| VRejectedComment (i : nat) (p : JoinPolicy)
| VOutcomeMissing (i : nat) (join : string)
| VInvalidOutcome (i : nat) (o : Outcome).

Definition when (b : bool) (v : violation) : list violation := if b then [v] else [].

(** ** The maps Validate builds *)

(** [nodeByID]: the last node of each non-empty ID. *)
Definition nodeByID (d : WDefinition) : gmap string Node :=
  fold_left (fun m n => if bool_decide (n_ID n = "") then m else <[n_ID n := n]> m)
    (d_Nodes d) ∅.

(** [outgoingByNode]: the transitions leaving each known node. *)
Definition outgoingByNode (d : WDefinition) (id : string) : list Transition :=
  match nodeByID d !! id with
  | Some _ => TransitionsFrom d id
  | None => []
  end.

(** [adjacency]. *)
Definition adjacency (d : WDefinition) (id : string) : list string :=
  tr_To <$> outgoingByNode d id.

(** Whether [id] names a known automatic node. *)
Definition known_automatic (d : WDefinition) (id : string) : bool :=
  match nodeByID d !! id with Some n => IsAutomatic (n_Kind n) | None => false end.

(** [gatewayAdjacency]. *)
Definition gatewayAdjacency (d : WDefinition) (id : string) : list string :=
  if known_automatic d id
  then List.filter (known_automatic d) (tr_To <$> TransitionsFrom d id)
  else [].

(** ** Effects *)

Fixpoint checkEffectNames (owner : string + nat) (i : nat) (seen : list string)
    (effects : list string) : list violation :=
  match effects with
  | [] => []
  | name :: rest =>
      if bool_decide (name = "")
      then VEffectEmpty owner i :: checkEffectNames owner (S i) seen rest
      else (when (bool_decide (name ∈ seen)) (VEffectDuplicate owner name)
            ++ checkEffectNames owner (S i) (name :: seen) rest)%list
  end.

(** ** Nodes *)

Definition automatic_violations (n : Node) : list violation :=
  let k := n_Kind n in
  (when (n_Start n) (VAutomaticStart k (n_ID n))
   ++ when (n_Terminal n) (VAutomaticTerminal k (n_ID n))
   ++ when (negb (el_IsZero (n_Eligible n))) (VAutomaticEligibility k (n_ID n))
   ++ when (negb (n_Deadline n =? 0) || negb (bool_decide (n_DeadlineRule n = "")))
        (VAutomaticDeadline k (n_ID n))
   ++ when (negb (bool_decide (n_OnExpire n = ""))) (VAutomaticOnExpire k (n_ID n))
   ++ when (negb (bool_decide (n_AssignRule n = ""))) (VAutomaticAssignRule k (n_ID n))
   ++ when (negb (bool_decide (n_Effects n = []))) (VAutomaticEffects k (n_ID n)))%list.

Definition node_violations (i : nat) (seen : list string) (n : Node) : list violation :=
  (when (bool_decide (n_ID n = "")) (VNodeEmptyID i)
   ++ when (negb (bool_decide (n_ID n = "")) && bool_decide (n_ID n ∈ seen))
        (VDuplicateNodeID (n_ID n))
   ++ when (negb (NodeKind_Valid (n_Kind n))) (VInvalidKind (n_ID n) (n_Kind n))
   ++ when (n_Start n && n_Terminal n) (VStartAndTerminal (n_ID n))
   ++ when (n_Deadline n <? 0) (VNegativeDeadline (n_ID n))
   ++ when (negb (n_Deadline n =? 0) && negb (bool_decide (n_DeadlineRule n = "")))
        (VDeadlineAndRule (n_ID n))
   ++ when (n_Terminal n && negb (bool_decide (n_AssignRule n = "")))
        (VTerminalAssignRule (n_ID n))
   ++ checkEffectNames (inl (n_ID n)) 0 [] (n_Effects n)
   ++ (if IsAutomatic (n_Kind n) then automatic_violations n else [])
   ++ when (negb (bool_decide (n_Join n = "")) && negb (IsSplit (n_Kind n)))
        (VJoinOnNonSplit (n_ID n)))%list.

Fixpoint nodes_violations (i : nat) (seen : list string) (l : list Node) : list violation :=
  match l with
  | [] => []
  | n :: rest => (node_violations i seen n ++ nodes_violations (S i) (n_ID n :: seen) rest)%list
  end.

Definition startNodes (d : WDefinition) : nat := count n_Start (d_Nodes d).
Definition terminalNodes (d : WDefinition) : nat := count n_Terminal (d_Nodes d).

(** ** Transitions *)

(** [a + "\x00" + b], the key of a set of pairs of strings. *)
Definition nul_key (a b : string) : string := a ++ String "000" b.

Definition transition_violations (d : WDefinition) (i : nat) (seen : list string)
    (tr : Transition) : list violation :=
  let from := nodeByID d !! tr_From tr in
  let to := nodeByID d !! tr_To tr in
  (when (bool_decide (tr_Action tr = "")) (VEmptyAction i)
   ++ when (negb (CommentPolicy_Valid (tr_Comment tr))) (VInvalidComment i (tr_Comment tr))
   ++ checkEffectNames (inr i) 0 [] (tr_Effects tr)
   ++ match from with None => [VUnknownFrom i (tr_From tr)] | Some _ => [] end
   ++ match to with None => [VUnknownTo i (tr_To tr)] | Some _ => [] end
   ++ match from with
      | None => []
      | Some f =>
          when (n_Terminal f) (VFromTerminal i (tr_From tr))
          ++ when (IsAutomatic (n_Kind f)
                   && negb (bool_decide (Canonical (tr_Comment tr) = CommentNone)))
               (VRouteComment i (n_Kind f) (tr_From tr))
          ++ when (IsAutomatic (n_Kind f) && tr_Return tr)
               (VRouteReturn i (n_Kind f) (tr_From tr))
          ++ when (bool_decide (n_Kind f = NodeParallel)
                   && negb (bool_decide (tr_Guard tr = "")))
               (VParallelGuard i (tr_From tr))
      end
   ++ match to with
      | None => []
      | Some t =>
          when (n_Terminal t && tr_Return tr) (VReturnToTerminal i (tr_To tr))
          ++ when (IsAutomatic (n_Kind t) && tr_Return tr)
               (VReturnToAutomatic i (n_Kind t) (tr_To tr))
      end
   ++ when (bool_decide (nul_key (tr_From tr) (tr_Action tr) ∈ seen))
        (VAmbiguous (tr_From tr) (tr_Action tr)))%list.

Fixpoint transitions_violations (d : WDefinition) (i : nat) (seen : list string)
    (l : list Transition) : list violation :=
  match l with
  | [] => []
  | tr :: rest =>
      (transition_violations d i seen tr
       ++ transitions_violations d (S i) (nul_key (tr_From tr) (tr_Action tr) :: seen) rest)%list
  end.

Definition on_expire_violations (d : WDefinition) (n : Node) : list violation :=
  if bool_decide (n_OnExpire n = "") || IsAutomatic (n_Kind n) then []
  else match findTransition (outgoingByNode d (n_ID n)) (n_OnExpire n) with
       | None => [VOnExpireUnknown (n_ID n) (n_OnExpire n)]
       | Some tr => when (tr_Return tr) (VOnExpireReturn (n_ID n) (n_OnExpire n))
       end.

(** ** Gateways *)

(** The position of the last unguarded route. *)
Fixpoint last_unguarded (i : nat) (acc : option nat) (routes : list Transition) : option nat :=
  match routes with
  | [] => acc
  | r :: rest =>
      last_unguarded (S i) (if bool_decide (tr_Guard r = "") then Some i else acc) rest
  end.

Definition gateway_violations (d : WDefinition) (n : Node) : list violation :=
  if bool_decide (n_ID n = "") || negb (IsAutomatic (n_Kind n)) then []
  else
    let routes := outgoingByNode d (n_ID n) in
    let k := n_Kind n in
    if bool_decide (k = NodeJoin)
    then match routes with
         | [r] => when (negb (bool_decide (tr_Guard r = ""))) (VJoinGuard (n_ID n))
         | _ => [VJoinOutgoing (n_ID n) (length routes)]
         end
    else if (length routes <? 2)%nat then [VTooFewRoutes k (n_ID n) (length routes)]
    else if bool_decide (k = NodeParallel) then []
    else
      let unguarded := count (fun r => bool_decide (tr_Guard r = "")) routes in
      match last_unguarded 0 None routes with
      | None => [VNoDefaultRoute k (n_ID n)]
      | Some idx =>
          if (1 <? unguarded)%nat then [VManyDefaultRoutes k (n_ID n) unguarded]
          else when (negb (idx =? length routes - 1)%nat)
                 (VDefaultNotLast k (n_ID n)
                    (match routes !! idx with Some r => tr_Action r | None => "" end))
      end.

(** *** Cycles made only of automatic nodes *)

(** The depth-first search of [detectGatewayCycle]: a node is white when absent
    from the colour map, gray when [false], black when [true]. *)
Inductive dfs :=
| DfsGo (color : gmap string bool) (path : list string)
| DfsCycle (cycle : list string)
| DfsFuel.

(** [path] from the first occurrence of [next] on. *)
Fixpoint path_from (next : string) (path : list string) : list string :=
  match path with
  | [] => []
  | p :: rest => if bool_decide (p = next) then path else path_from next rest
  end.

Fixpoint visit (fuel : nat) (adj : string -> list string) (n : string)
    (color : gmap string bool) (path : list string) : dfs :=
  match fuel with
  | O => DfsFuel
  | S fuel' =>
      let fix loop (nexts : list string) (color : gmap string bool) (path : list string) : dfs :=
        match nexts with
        | [] => DfsGo color path
        | next :: rest =>
            match color !! next with
            | None =>
                match visit fuel' adj next color path with
                | DfsGo color path => loop rest color path
                | other => other
                end
            | Some false => DfsCycle (path_from next path ++ [next])
            | Some true => loop rest color path
            end
        end in
      match loop (adj n) (<[n := false]> color) (path ++ [n])%list with
      | DfsGo color' _ => DfsGo (<[n := true]> color') path
      | other => other
      end
  end.

Fixpoint visit_all (fuel : nat) (adj : string -> list string) (nodes : list string)
    (color : gmap string bool) (path : list string) : dfs :=
  match nodes with
  | [] => DfsGo color path
  | n :: rest =>
      match color !! n with
      | None =>
          match visit fuel adj n color path with
          | DfsGo color path => visit_all fuel adj rest color path
          | other => other
          end
      | Some _ => visit_all fuel adj rest color path
      end
  end.

(** [detectGatewayCycle]. *)
Definition detectGatewayCycle (nodes : list string) (adj : string -> list string)
  : option (list string) :=
  match visit_all (S (length nodes)) adj nodes ∅ [] with
  | DfsCycle cycle => Some cycle
  | _ => None
  end.

Definition gatewayNodes (d : WDefinition) : list string :=
  n_ID <$> List.filter (fun n => negb (bool_decide (n_ID n = "")) && IsAutomatic (n_Kind n))
             (d_Nodes d).

Definition cycle_violations (d : WDefinition) : list violation :=
  match detectGatewayCycle (gatewayNodes d) (gatewayAdjacency d) with
  | None => []
  | Some cycle =>
      [VGatewayCycle
         (forallb (fun id => bool_decide (n_Kind (default zero_Node (nodeByID d !! id))
                                          = NodeDecision)) cycle)
         cycle]
  end.

(** ** Dead ends and reachability *)

Definition dead_end_violations (d : WDefinition) (n : Node) : list violation :=
  if bool_decide (n_ID n = "") || n_Terminal n then []
  else when (bool_decide (outgoingByNode d (n_ID n) = [])) (VDeadEnd (n_ID n)).

(** Breadth-first search that marks a node when it is queued. *)
Fixpoint bfs_mark (nexts : list string) (seen : gset string) (queue : list string)
  : gset string * list string :=
  match nexts with
  | [] => (seen, queue)
  | x :: rest =>
      if bool_decide (x ∈ seen) then bfs_mark rest seen queue
      else bfs_mark rest ({[x]} ∪ seen) (queue ++ [x])%list
  end.

Fixpoint bfs (fuel : nat) (adj : string -> list string) (seen : gset string)
    (queue : list string) : gset string :=
  match fuel with
  | O => seen
  | S fuel' =>
      match queue with
      | [] => seen
      | cur :: rest =>
          let '(seen, queue) := bfs_mark (adj cur) seen rest in
          bfs fuel' adj seen queue
      end
  end.

(** Enough iterations: every queued node but the first is the target of a
    transition. *)
Definition walk_fuel (d : WDefinition) : nat := S (S (length (d_Transitions d))).

Definition reachable_from (d : WDefinition) (start : string) : gset string :=
  bfs (walk_fuel d) (adjacency d) {[start]} [start].

Definition reachability_violations (d : WDefinition) : list violation :=
  if (startNodes d =? 1)%nat
  then
    let start := default zero_Node (StartNode d) in
    let reachable := reachable_from d (n_ID start) in
    concat ((fun n =>
      if bool_decide (n_ID n = "") then []
      else when (bool_decide (n_ID n ∉ reachable)) (VUnreachable (n_ID n))) <$> d_Nodes d)
  else [].

(** ** Blocks *)

Record branch := mkBranch {
  b_action : string;
  b_nodes : gset string;
  b_order : list string;
  b_reentersSplit : bool }.

Record block := mkBlock {
  bk_split : Node;
  bk_join : string;
  bk_branches : list branch;
  bk_interior : gset string }.

(** [block.contains]. *)
Definition contains (b : block) (id : string) : bool :=
  bool_decide (id = n_ID (bk_split b)) || bool_decide (id = bk_join b)
  || bool_decide (id ∈ bk_interior b).

(** [block.members]. *)
Definition members (b : block) : list string :=
  (n_ID (bk_split b) :: concat (b_order <$> bk_branches b) ++ [bk_join b])%list.

(** The walk of [buildBlock] along one branch: a node is marked when it leaves the
    queue; return transitions are not followed. *)
Fixpoint walk_branch (fuel : nat) (s : Node) (out : string -> list Transition)
    (queue : list string) (br : branch) : branch :=
  match fuel with
  | O => br
  | S fuel' =>
      match queue with
      | [] => br
      | id :: rest =>
          if bool_decide (id = n_Join s) || bool_decide (id ∈ b_nodes br)
          then walk_branch fuel' s out rest br
          else if bool_decide (id = n_ID s)
          then walk_branch fuel' s out rest
                 (mkBranch (b_action br) (b_nodes br) (b_order br) true)
          else walk_branch fuel' s out
                 (rest ++ (tr_To <$> List.filter (fun t => negb (tr_Return t)) (out id)))%list
                 (mkBranch (b_action br) ({[id]} ∪ b_nodes br) (b_order br ++ [id])%list
                    (b_reentersSplit br))
      end
  end.

(** [buildBlock]. *)
Definition buildBlock (d : WDefinition) (s : Node) : block :=
  let branches :=
    (fun tr => walk_branch (walk_fuel d) s (outgoingByNode d) [tr_To tr]
                 (mkBranch (tr_Action tr) ∅ [] false)) <$> outgoingByNode d (n_ID s) in
  mkBlock s (n_Join s) branches (⋃ (b_nodes <$> branches)).

(** What [validateBlocks] makes of one split: its violation or its block. *)
Definition split_block (d : WDefinition) (n : Node) : violation + block :=
  let k := n_Kind n in
  if bool_decide (n_Join n = "") then inl (VSplitNoJoin k (n_ID n))
  else match nodeByID d !! n_Join n with
       | None => inl (VSplitUnknownJoin k (n_ID n) (n_Join n))
       | Some j =>
           if bool_decide (n_Kind j <> NodeJoin) then inl (VSplitNotAJoin k (n_ID n) (n_Join n))
           else inr (buildBlock d n)
       end.

Definition split_nodes (d : WDefinition) : list Node :=
  List.filter (fun n => negb (bool_decide (n_ID n = "")) && IsSplit (n_Kind n)) (d_Nodes d).

Definition blocks_of (d : WDefinition) : list block :=
  omap (fun n => match split_block d n with inr b => Some b | inl _ => None end) (split_nodes d).

Definition split_violations (d : WDefinition) : list violation :=
  omap (fun n => match split_block d n with inl v => Some v | inr _ => None end) (split_nodes d).

(** [namedBy]: the splits that name the join [id]. *)
Definition namedBy (d : WDefinition) (id : string) : list string :=
  (fun b => n_ID (bk_split b)) <$> List.filter (fun b => bool_decide (bk_join b = id)) (blocks_of d).

Definition join_named_violations (d : WDefinition) (n : Node) : list violation :=
  if bool_decide (n_ID n = "") || negb (bool_decide (n_Kind n = NodeJoin)) then []
  else match namedBy d (n_ID n) with
       | [] => [VJoinUnnamed (n_ID n)]
       | [_] => []
       | splits => [VJoinManySplits (n_ID n) splits]
       end.

(** [incoming]: the sources of the non-return transitions into a node. *)
Definition incoming (d : WDefinition) (id : string) : list string :=
  tr_From <$> List.filter (fun tr => negb (tr_Return tr) && bool_decide (tr_To tr = id))
                (d_Transitions d).

(** The backwards walk of [checkBlock] from the join, inside the branch. *)
Definition reaches_join (d : WDefinition) (b : block) (br : branch) : gset string :=
  bfs (walk_fuel d) (fun id => List.filter (fun f => bool_decide (f ∈ b_nodes br)) (incoming d id))
    ∅ [bk_join b].

Definition node_terminal (d : WDefinition) (id : string) : bool :=
  n_Terminal (default zero_Node (nodeByID d !! id)).

(** The first element satisfying [p], as the violation [f] makes of it. *)
Definition first_violation (p : string -> bool) (f : string -> violation) (l : list string)
  : list violation :=
  match List.find p l with Some x => [f x] | None => [] end.

(** The violations of one branch, its siblings declared after it given. *)
Definition branch_violations (d : WDefinition) (b : block) (br : branch) (siblings : list branch)
  : list violation :=
  let k := n_Kind (bk_split b) in
  let id := n_ID (bk_split b) in
  let reaches := reaches_join d b br in
  (when (b_reentersSplit br) (VReentersSplit k id (b_action br))
   ++ ((fun x => VBranchTerminal k id (b_action br) x (bk_join b))
         <$> List.filter (node_terminal d) (b_order br))
   ++ first_violation (fun x => negb (bool_decide (x ∈ reaches)) && negb (node_terminal d x))
        (fun x => VBranchNeverJoins k id (b_action br) (bk_join b) x) (b_order br)
   ++ concat ((fun other =>
        first_violation (fun x => bool_decide (x ∈ b_nodes other))
          (fun x => VBranchesShare k id (b_action br) (b_action other) x) (b_order br))
        <$> siblings))%list.

Fixpoint branches_violations (d : WDefinition) (b : block) (l : list branch) : list violation :=
  match l with
  | [] => []
  | br :: rest => (branch_violations d b br rest ++ branches_violations d b rest)%list
  end.

(** The edges entering the block from outside, each reported once. *)
Fixpoint report_entries (b : block) (mk : string -> string -> violation)
    (edges : list (string * string)) (reported : list string) : list violation * list string :=
  match edges with
  | [] => ([], reported)
  | (id, from) :: rest =>
      if bool_decide (from = n_ID (bk_split b)) || bool_decide (from ∈ bk_interior b)
         || bool_decide (nul_key id from ∈ reported)
      then report_entries b mk rest reported
      else let '(vs, reported) := report_entries b mk rest (nul_key id from :: reported) in
           (mk id from :: vs, reported)
  end.

(** [checkBlock]. *)
Definition checkBlock (d : WDefinition) (b : block) : list violation :=
  let k := n_Kind (bk_split b) in
  let id := n_ID (bk_split b) in
  let edges x := (fun from => (x, from)) <$> incoming d x in
  let '(inner, reported) :=
    report_entries b (VEnteredFromOutside k id)
      (concat (edges <$> concat (b_order <$> bk_branches b))) [] in
  let '(outer, _) := report_entries b (VJoinEnteredFromOutside k id) (edges (bk_join b)) reported in
  (branches_violations d b (bk_branches b) ++ inner ++ outer)%list.

(** One pair of the first loop of [checkNesting]: [inner] starts inside [outer]. *)
Definition nesting_violations (outer inner : block) : list violation :=
  match List.find (fun br => bool_decide (n_ID (bk_split inner) ∈ b_nodes br))
          (bk_branches outer) with
  | None => []
  | Some home =>
      when (existsb (fun id => negb (bool_decide (id ∈ b_nodes home))) (members inner))
        (VNotNested (n_Kind (bk_split inner)) (n_ID (bk_split inner))
           (n_Kind (bk_split outer)) (n_ID (bk_split outer)))
  end.

(** Whether [inner]'s split lies inside [outer]. *)
Definition starts_inside (outer inner : block) : bool :=
  bool_decide (n_ID (bk_split inner) ∈ bk_interior outer).

Definition overlap_violations (a b : block) : list violation :=
  if starts_inside a b || starts_inside b a then []
  else when (existsb (contains b) (members a))
         (VOverlap (n_ID (bk_split a)) (n_ID (bk_split b))).

Fixpoint overlaps (l : list block) : list violation :=
  match l with
  | [] => []
  | a :: rest => (concat (overlap_violations a <$> rest) ++ overlaps rest)%list
  end.

(** [checkNesting]: the pairs of different positions, then the disjoint ones. *)
Definition checkNesting (blocks : list block) : list violation :=
  (concat (imap (fun i outer =>
     concat (imap (fun k inner =>
       if (i =? k)%nat || negb (starts_inside outer inner) then []
       else nesting_violations outer inner) blocks)) blocks)
   ++ overlaps blocks)%list.

(** [branchKey]; the root scope is [("", 0)]. *)
Definition branchKey : Type := string * nat.

(** [innermostBranch]: the smallest branch containing [id]. *)
Definition innermostBranch (blocks : list block) (id : string) : branchKey :=
  fst (fold_left (fun '(best, sz) '(key, br) =>
         if bool_decide (id ∈ b_nodes br)
            && match sz with None => true | Some n => (size (b_nodes br) <? n)%nat end
         then (key, Some (size (b_nodes br))) else (best, sz))
       (concat ((fun b => imap (fun i br => ((n_ID (bk_split b), S i), br)) (bk_branches b))
                  <$> blocks))
       (("", 0%nat), None)).

Definition return_violations (d : WDefinition) (blocks : list block) (i : nat) (tr : Transition)
  : list violation :=
  if negb (tr_Return tr) then []
  else match nodeByID d !! tr_From tr, nodeByID d !! tr_To tr with
       | Some _, Some _ =>
           when (negb (bool_decide (innermostBranch blocks (tr_From tr)
                                    = innermostBranch blocks (tr_To tr))))
             (VReturnCrosses i (tr_From tr) (tr_To tr))
       | _, _ => []
       end.

(** [validateBlocks]. *)
Definition validateBlocks (d : WDefinition) : list violation :=
  let blocks := blocks_of d in
  (split_violations d
   ++ concat (join_named_violations d <$> d_Nodes d)
   ++ concat (checkBlock d <$> blocks)
   ++ checkNesting blocks
   ++ concat (imap (return_violations d blocks) (d_Transitions d)))%list.

(** ** Join policies *)

(** [reaches] of [joinpolicy.go]: it stops as soon as the target leaves the queue. *)
Fixpoint reaches_loop (fuel : nat) (adj : string -> list string) (to : string)
    (seen : gset string) (queue : list string) : bool :=
  match fuel with
  | O => false
  | S fuel' =>
      match queue with
      | [] => false
      | id :: rest =>
          if bool_decide (id = to) then true
          else let '(seen, queue) := bfs_mark (adj id) seen rest in
               reaches_loop fuel' adj to seen queue
      end
  end.

Definition reaches (d : WDefinition) (from to : string) : bool :=
  reaches_loop (walk_fuel d) (adjacency d) to {[from]} [from].

(** [checkBranchOutcomes]. *)
Definition checkBranchOutcomes (d : WDefinition) (b : block) : list violation :=
  concat ((fun br =>
    let entering := List.filter (fun tr => bool_decide (tr_To tr = bk_join b))
                      (concat (outgoingByNode d <$> b_order br)) in
    let approves := existsb (fun tr => bool_decide (tr_Outcome tr = OutcomeApproved)) entering in
    let rejects := existsb (fun tr => bool_decide (tr_Outcome tr = OutcomeRejected)) entering in
    when (negb approves || negb rejects)
      (VBranchOutcomes (n_Kind (bk_split b)) (n_ID (bk_split b)) (b_action br) (bk_join b)))
    <$> bk_branches b).

(** [checkRejectedRoute]. *)
Definition checkRejectedRoute (d : WDefinition) (split join : Node) : list violation :=
  match outgoingByNode d (n_ID join) with
  | [out] =>
      if bool_decide (n_Kind (default zero_Node (nodeByID d !! tr_To out)) <> NodeDecision) then []
      else if existsb (fun r => negb (bool_decide (tr_Guard r = ""))
                                && reaches d (tr_To r) (n_ID split))
                (outgoingByNode d (tr_To out))
      then []
      else [VNoRejectedRoute (n_ID join) (tr_To out) (n_ID split) (n_JoinPolicy join)]
  | _ => []
  end.

(** A policy that gives a verdict. *)
Definition verdict_policy (p : JoinPolicy) : bool :=
  bool_decide (p = JoinAllApprove) || bool_decide (p = JoinAnyApprove).

Definition policy_split_violations (d : WDefinition) (n : Node) : list violation :=
  if negb (bool_decide (n_Kind n = NodeParallel)) then []
  else match nodeByID d !! n_Join n with
       | None => []
       | Some join =>
           if bool_decide (n_Kind join <> NodeJoin) || bool_decide (n_JoinPolicy join = JoinNone)
           then []
           else (checkBranchOutcomes d (buildBlock d n)
                 ++ if verdict_policy (n_JoinPolicy join) then checkRejectedRoute d n join
                    else [])%list
       end.

Definition policy_join_violations (d : WDefinition) (n : Node) : list violation :=
  if bool_decide (n_JoinPolicy n = JoinNone) then []
  else if negb (bool_decide (n_Kind n = NodeJoin)) then [VPolicyOnNonJoin (n_ID n)]
  else
    (when (negb (JoinPolicy_Valid (n_JoinPolicy n))) (VInvalidPolicy (n_ID n) (n_JoinPolicy n))
     ++ concat ((fun out =>
          match nodeByID d !! tr_To out with
          | None => []
          | Some to =>
              if bool_decide (n_JoinPolicy n = JoinCollect)
              then when (IsAutomatic (n_Kind to) || n_Terminal to) (VCollectNotTask (n_ID n) (n_ID to))
              else if verdict_policy (n_JoinPolicy n)
              then when (negb (bool_decide (n_Kind to = NodeDecision)))
                     (VVerdictNotDecision (n_ID n) (n_JoinPolicy n) (n_ID to))
              else []
          end) <$> TransitionsFrom d (n_ID n)))%list.

Definition policy_inclusive_violations (d : WDefinition) (n : Node) : list violation :=
  if negb (bool_decide (n_Kind n = NodeInclusive)) then []
  else match nodeByID d !! n_Join n with
       | None => []
       | Some j =>
           when (bool_decide (n_Kind j = NodeJoin) && negb (bool_decide (n_JoinPolicy j = JoinNone)))
             (VPolicyInclusive (n_ID j) (n_ID n))
       end.

Definition outcome_violations (d : WDefinition) (i : nat) (tr : Transition) : list violation :=
  match nodeByID d !! tr_To tr with
  | None => []
  | Some to =>
      if bool_decide (n_Kind to <> NodeJoin) || bool_decide (n_JoinPolicy to = JoinNone)
      then when (negb (bool_decide (tr_Outcome tr = OutcomeNone))) (VOutcomeOutside i)
      else
        (match nodeByID d !! tr_From tr with
         | Some from =>
             when (IsAutomatic (n_Kind from))
               (VPolicyFromAutomatic i (n_ID to) (n_Kind from) (n_ID from))
         | None => []
         end
         ++ match tr_Outcome tr with
            | OutcomeApproved => []
            | OutcomeRejected =>
                when (negb (bool_decide (n_JoinPolicy to = JoinCollect))
                      && negb (bool_decide (Canonical (tr_Comment tr) = CommentRequired)))
                  (VRejectedComment i (n_JoinPolicy to))
            | OutcomeNone => [VOutcomeMissing i (n_ID to)]
            | o => [VInvalidOutcome i o]
            end)%list
  end.

(** [validateJoinPolicies]. *)
Definition validateJoinPolicies (d : WDefinition) : list violation :=
  (concat (policy_split_violations d <$> d_Nodes d)
   ++ concat (policy_join_violations d <$> d_Nodes d)
   ++ concat (policy_inclusive_violations d <$> d_Nodes d)
   ++ concat (imap (outcome_violations d) (d_Transitions d)))%list.

(** ** Validate *)

(** [Definition.Validate]: the empty list is a nil error. *)
Definition Validate (d : WDefinition) : list violation :=
  (when (bool_decide (d_Name d = "")) VNameRequired
   ++ when (d_Version d <? 1) (VVersion (d_Version d))
   ++ when (bool_decide (d_Nodes d = [])) VNoNodes
   ++ nodes_violations 0 [] (d_Nodes d)
   ++ when (negb (startNodes d =? 1)%nat) (VStartNodes (startNodes d))
   ++ when (terminalNodes d =? 0)%nat VNoTerminal
   ++ transitions_violations d 0 [] (d_Transitions d)
   ++ concat (on_expire_violations d <$> d_Nodes d)
   ++ concat (gateway_violations d <$> d_Nodes d)
   ++ cycle_violations d
   ++ concat (dead_end_violations d <$> d_Nodes d)
   ++ reachability_violations d
   ++ validateBlocks d
   ++ validateJoinPolicies d)%list.
