(* ===== verification/Engine.v ===== *)
(** The engine's operations ([engine.go], [open.go], [move.go], [assign.go],
    [operations.go], [cancel.go], [failure.go], [queries.go], and [JoinResults] of
    [joinpolicy.go]).

    A call that writes is a [writer]: it returns the database it leaves together
    with its answer.  Every such call but [Open] and [RecordFailure] first plans the
    whole change in memory from the database it reads, then persists the plan; the
    two halves are separate definitions ([*_plan] and [commit]/[commit_dispatch])
    and the operation is their composition. *)

From stdpp Require Import base gmap sets list strings.
From Stdlib Require Import ZArith Lia.
From S2P Require Import Prelude GoStrings Errors Model Definitions JoinPolicies Repo Ports Events.
From S2P Require Import Run Validate.

Open Scope string_scope.
Open Scope Z_scope.

(** ** Inputs *)

Record OpenInput := mkOpenInput {
  oi_Definition : string; oi_Version : Z; oi_Domain : string; oi_ExternalID : string;
  oi_Unit : string; oi_Tenant : string; oi_Actor : Actor; oi_ActorID : string }.

Record MoveInput := mkMoveInput {
  mi_CaseID : uuid; mi_TokenID : uuid; mi_Action : string; mi_Actor : Actor;
  mi_ActorID : string; mi_Comment : string; mi_Step : option StepRecord;
  mi_ExpectedRevision : option Z }.

Record ClaimInput := mkClaimInput {
  ci_CaseID : uuid; ci_TokenID : uuid; ci_Actor : Actor; ci_ExpectedRevision : option Z }.

Record ReleaseInput := mkReleaseInput {
  ri_CaseID : uuid; ri_TokenID : uuid; ri_Actor : Actor; ri_Reason : string;
  ri_ExpectedRevision : option Z }.

Record ReassignInput := mkReassignInput {
  rai_CaseID : uuid; rai_TokenID : uuid; rai_To : string; rai_Actor : Actor;
  rai_Reason : string; rai_ExpectedRevision : option Z }.

Record SetDeadlineInput := mkSetDeadlineInput {
  sdi_CaseID : uuid; sdi_TokenID : uuid; sdi_DeadlineAt : option time; sdi_Actor : Actor;
  sdi_Reason : string; sdi_ExpectedRevision : option Z }.

Record ExpireInput := mkExpireInput {
  ei_CaseID : uuid; ei_TokenID : uuid; ei_Actor : Actor }.

Record CancelInput := mkCancelInput {
  cai_CaseID : uuid; cai_Actor : Actor; cai_Reason : string; cai_ExpectedRevision : option Z }.

Record CancelTokenInput := mkCancelTokenInput {
  cti_CaseID : uuid; cti_TokenID : uuid; cti_Actor : Actor; cti_Reason : string }.

(** A raw detail: absent, text that is not valid JSON, or a JSON value. *)
Inductive raw_detail :=
| RawNone
| RawInvalid
| RawJson (j : json).

Record FailureInput := mkFailureInput {
  fi_CaseID : uuid; fi_TokenID : uuid; fi_Actor : Actor; fi_Action : string;
  fi_Kind : FailureKind; fi_Detail : raw_detail }.

(** [json.Marshal] of a [time.Time] fails outside the years 0 to 9999 (UTC). *)
Definition time_encodable (t : time) : bool :=
  (-62167219200 * 1000000000 <=? t) && (t <? 253402300800 * 1000000000).

Definition opt_time_encodable (o : option time) : bool :=
  match o with Some t => time_encodable t | None => true end.

(** [isJSONObject]: a JSON null leaves the map nil. *)
Definition isJSONObject (j : json) : bool :=
  match j with JObj _ => true | _ => false end.

(** [checkRevision]. *)
Definition checkRevision (c : Case) (expected : option Z) : result unit :=
  match expected with
  | Some rev => guardB (rev =? c_Revision c) (sent ErrConflict)
  | None => Ok tt
  end.

(** [json.Unmarshal] of a stored detail: an empty message is not valid JSON. *)
Definition unmarshal_raw {A : Type} (f : json -> result A) (raw : option json) : result A :=
  match raw with
  | Some j => f j
  | None => Err (EOther "unexpected end of JSON input")
  end.

(** [branchCause]. *)
Definition branchCause (evt : Event) : result string :=
  match ev_Kind evt with
  | EventMoved =>
      let! c := unmarshal_raw unmarshal_expiredCause (ev_Detail evt) in Ok (xc_Cause c)
  | EventTokenCancelled =>
      let! c := unmarshal_raw unmarshal_CancelDetail (ev_Detail evt) in Ok (cd_Reason c)
  | _ => Ok ""
  end.

(** The map [bySeq] of [JoinResults]: the last event with that Seq. *)
Definition event_at (events : list Event) (seq : Z) : option Event :=
  find_by ev_Seq seq (reverse events).

(** The branches of one [JoinResult]. *)
Definition join_branch (events : list Event) (b : BranchResult) : result JoinBranch :=
  match event_at events (br_Seq b) with
  | None => Err (EOther "joined event names a missing event")
  | Some evt =>
      let! cause := branchCause evt in
      Ok (mkJoinBranch b (ev_Actor evt) (ev_Comment evt) cause)
  end.

(** The loop of [JoinResults] over the events [l]. *)
Fixpoint join_results (events l : list Event) : result (list JoinResult) :=
  match l with
  | [] => Ok []
  | ev :: rest =>
      if bool_decide (ev_Kind ev <> EventJoined) then join_results events rest
      else
        let! detail := unmarshal_raw unmarshal_JoinDetail (ev_Detail ev) in
        if bool_decide (jd_Policy detail = JoinNone) then join_results events rest
        else
          let! branches := map_res (join_branch events) (jd_Branches detail) in
          let! results := join_results events rest in
          Ok (mkJoinResult (jd_Scope detail) (jd_JoinNode detail) (jd_Policy detail)
                (jd_Verdict detail) (ev_Seq ev) branches :: results)
  end.

(** One step of the loop of [LastActorOf]: the actor kept so far and its Seq. *)
Definition last_actor_step (node : string) (acc : string * Z) (ev : Event) : string * Z :=
  let '(actor, latest) := acc in
  if bool_decide (ev_Kind ev <> EventMoved) || bool_decide (ev_FromState ev <> node)
     || bool_decide (a_Kind (ev_Actor ev) = ActorSystem) || bool_decide (a_ID (ev_Actor ev) = "")
  then acc
  else if bool_decide (actor = "") || (latest <? ev_Seq ev)
  then (a_ID (ev_Actor ev), ev_Seq ev)
  else acc.

(** [LastActorOf]. *)
Definition LastActorOf (history : list Event) (node : string) : string :=
  fst (fold_left (last_actor_step node) history ("", 0)).

(** The order of [Engine.Definitions]: by Name, then Version. *)
Definition definition_less (a b : WDefinition) : bool :=
  if bool_decide (d_Name a <> d_Name b) then str_less (d_Name a) (d_Name b)
  else d_Version a <? d_Version b.

(** The nodes [occupiedStates] reads from one event of the scope. *)
Definition occupied_by (scopeID : uuid) (e : Event) : list string :=
  if bool_decide (ev_ScopeID e <> scopeID) then []
  else match ev_Kind e with
       | EventOpened => [ev_ToState e]
       | EventMoved => [ev_FromState e; ev_ToState e]
       | _ => []
       end.

Section Engine.
Context {DB : Type} `{Repository DB}.
Implicit Types (e : Engine DB) (cx : Ctx) (db : DB).

(** ** Registries *)

Definition with_registries (e : Engine DB) (definitions latest : gmap string WDefinition)
    (guards : gmap string (GuardFunc DB)) : Engine DB :=
  mkEngine DB (e_traceIDs e) (e_joinCheck e) (e_deadlines e) (e_assignees e)
    definitions latest guards (e_effectSink e).

(** [Engine.checkEffects]. *)
Definition checkEffects (e : Engine DB) (d : WDefinition) : result unit :=
  let unknown := List.filter (fun name =>
    match e_effectSink e with
    | None => true
    | Some sink => negb (es_HasEffect sink name)
    end) (EffectNames d) in
  guardB (bool_decide (unknown = [])) (sent ErrUnknownEffect).

(** [Engine.Register]: the engine with the definition stored. *)
Definition Register (e : Engine DB) (d : WDefinition) : result (Engine DB) :=
  let! _ := guardB (bool_decide (Validate d = [])) (sent ErrInvalidDefinition) in
  let! _ := checkEffects e d in
  let! _ := guardB (bool_decide (DeadlineRules d = []) || bool_decide (is_Some (e_deadlines e)))
              (sent ErrUnknownDeadlineRule) in
  let! _ := guardB (bool_decide (AssignRules d = []) || bool_decide (is_Some (e_assignees e)))
              (sent ErrUnknownAssignRule) in
  let newer := match e_latest e !! d_Name d with
               | None => true
               | Some cur => d_Version cur <? d_Version d
               end in
  Ok (with_registries e (<[Key d := d]> (e_definitions e))
        (if newer then <[d_Name d := d]> (e_latest e) else e_latest e) (e_guards e)).

(** [New] with [WithDefinitions]: a definition that fails to register is skipped. *)
Definition New (ports : Engine DB) (pendingDefs : list WDefinition) : Engine DB :=
  fold_left (fun e d => match Register e d with Ok e' => e' | _ => e end) pendingDefs
    (with_registries ports ∅ ∅ ∅).

(** [Engine.RegisterGuard]; [None] is a nil function. *)
Definition RegisterGuard (e : Engine DB) (name : string) (fn : option (GuardFunc DB))
  : result (Engine DB) :=
  if bool_decide (name = "") then Err (EOther "name is required")
  else match fn with
       | None => Err (EOther "fn is required")
       | Some fn =>
           Ok (with_registries e (e_definitions e) (e_latest e) (<[name := fn]> (e_guards e)))
       end.

(** [Engine.Definitions]. *)
Definition Definitions (e : Engine DB) : list WDefinition :=
  sort_by definition_less (snd <$> map_to_list (e_definitions e)).

(** [Engine.resolveDefinition]. *)
Definition resolveDefinition (e : Engine DB) (name : string) (version : Z)
  : result WDefinition :=
  if 0 <? version
  then match e_definitions e !! definition_key name version with
       | Some d => Ok d
       | None => Err (sent ErrDefinitionNotRegistered)
       end
  else match e_latest e !! name with
       | Some d => Ok d
       | None => Err (sent ErrDefinitionNotRegistered)
       end.

(** ** Effects *)

(** [Engine.checkEffectDB]. *)
Definition checkEffectDB (e : Engine DB) (d : WDefinition) (db : DB) : result unit :=
  match e_effectSink e with
  | None => Ok tt
  | Some sink => if bool_decide (EffectNames d = []) then Ok tt else lift (es_CheckDB sink db)
  end.

(** [Engine.dispatch]. *)
Definition dispatch (e : Engine DB) (d : WDefinition) (c : Case) (events : list Event)
  : writer DB unit :=
  match e_effectSink e with
  | None => w_ret tt
  | Some sink => w_lift (es_Dispatch sink d c events)
  end.

(** ** Steps shared by the operations *)

(** [Engine.loadToken]. *)
Definition loadToken (e : Engine DB) (db : DB) (c : Case) (tokenID : uuid)
  : result (caseRun * Token) :=
  let! d := resolveDefinition e (c_Definition c) (c_Version c) in
  let! run := loadRun db c d in
  let! tok := pick run tokenID in
  Ok (run, tok).

(** [Engine.occupiedStates]. *)
Definition occupiedStates (db : DB) (caseID scopeID : uuid) : result (gset string) :=
  let! events := listEvents db caseID in
  Ok (list_to_set (concat (occupied_by scopeID <$> events))).

(** The check of a transition's guard before a move. *)
Definition checkGuard (e : Engine DB) (db : DB) (tr : Transition) (snap : Case) : result unit :=
  if bool_decide (tr_Guard tr = "") then Ok tt
  else
    let! fn := lookupGuard e (tr_Guard tr) in
    let! ok := lift (fn db snap) in
    guardB ok (sent ErrGuardRejected).

(** Persist, and answer the case as written. *)
Definition commit (e : Engine DB) (cx : Ctx) (run : caseRun) : writer DB Case :=
  do! '(c, _) := persist e cx run in w_ret c.

(** Persist, dispatch the effects, and answer the whole result. *)
Definition commit_dispatch (e : Engine DB) (cx : Ctx) (d : WDefinition) (run : caseRun)
  : writer DB MoveResult :=
  do! '(c, appended) := persist e cx run in
  do! _ := dispatch e d c appended in
  w_ret (mkMoveResult c appended (r_joined run)).

(** An event at the token's own node. *)
Definition at_token (kind : EventKind) (tok : Token) (action : string) (detail : option json)
  : Event :=
  plan_event kind (t_ID tok) (t_ScopeID tok) (t_Node tok) (t_Node tok) action "" detail.

(** The open case a call works on: read, its revision compared with the caller's,
    and [closed] when it is not open. *)
Definition openCase (db : DB) (caseID : uuid) (expected : option Z) (closed : sentinel)
  : result Case :=
  let! c := lift (repo_GetByID db caseID) in
  let! _ := checkRevision c expected in
  let! _ := guardB (bool_decide (c_Status c = StatusOpen)) (sent closed) in
  Ok c.

(** ** Opening a case *)

(** What [OpenDetailed] builds before its first write: the definition, the case,
    and its root token. *)
Definition open_plan (e : Engine DB) (cx : Ctx) (db : DB) (inp : OpenInput)
  : result (Actor * WDefinition * Node * Case * Token) :=
  let! actor := resolveActor (oi_Actor inp) (oi_ActorID inp) in
  let! d := resolveDefinition e (oi_Definition inp) (oi_Version inp) in
  match StartNode d with
  | None => Err (EOther "definition has no start node")
  | Some start =>
      let! _ := checkEffectDB e d db in
      let now := cx_now cx in
      let id := cx_uuid cx 0 in
      let case_ deadline :=
        mkCase id (d_Name d) (d_Version d) (oi_Tenant inp) (oi_Domain inp) (oi_ExternalID inp)
          (oi_Unit inp) (n_ID start) StatusOpen "" now None deadline 0 1 None in
      let root deadline :=
        mkToken id id id (n_ID start) TokenActive (resolvedEligibility start (oi_Unit inp)) ""
          deadline None 1 now 0 None OutcomeNone in
      let! deadline := deadlineFor e start now (case_ None) (root None) in
      Ok (actor, d, start, case_ deadline, root deadline)
  end.

Definition root_scope (c : Case) : Scope :=
  mkScope (c_ID c) (c_ID c) None "" "" 1 ScopeOpen 1 0.

(** The [EventOpened] of a new case. *)
Definition opened_event (c : Case) (start : Node) (actor : Actor) (now : time) : Event :=
  mkEvent 0%N 0%N (c_LastSeq c) EventOpened (c_ID c) (c_ID c) "" (n_ID start) ""
    (c_DeadlineAt c) actor "" "" "" now 0 None "" "" "" None None.

(** [Engine.OpenDetailed]. *)
Definition OpenDetailed (e : Engine DB) (cx : Ctx) (inp : OpenInput) : writer DB MoveResult :=
  fun db =>
  (do! '(actor, d, start, c, root) := w_res (open_plan e cx db inp) in
   do! c := w_lift (repo_Create c) in
   do! _ := w_lift (repo_CreateScope (root_scope c)) in
   do! _ := w_lift (repo_CreateToken root) in
   do! evt := appendEvent e cx 1 c (opened_event c start actor (cx_now cx)) in
   do! _ := dispatch e d c [evt] in
   w_ret (mkMoveResult c [evt] [])) db.

(** [Engine.Open]. *)
Definition Open (e : Engine DB) (cx : Ctx) (inp : OpenInput) : writer DB Case :=
  do! res := OpenDetailed e cx inp in w_ret (mr_Case res).

(** ** Moving a token *)

(** The transitions of the loop of [AvailableFor] that pass. *)
Fixpoint available_loop (e : Engine DB) (db : DB) (occupied : gset string) (snap : Case)
    (candidates : list Transition) : result (list Transition) :=
  match candidates with
  | [] => Ok []
  | tr :: rest =>
      if tr_Return tr && negb (bool_decide (tr_To tr ∈ occupied))
      then available_loop e db occupied snap rest
      else if bool_decide (tr_Guard tr = "")
      then let! out := available_loop e db occupied snap rest in Ok (tr :: out)
      else
        let! fn := lookupGuard e (tr_Guard tr) in
        let! ok := lift (fn db snap) in
        let! out := available_loop e db occupied snap rest in
        Ok (if (ok : bool) then tr :: out else out)
  end.

(** [Engine.AvailableFor]. *)
Definition AvailableFor (e : Engine DB) (db : DB) (caseID tokenID : uuid)
  : result (list Transition) :=
  let! c := lift (repo_GetByID db caseID) in
  if negb (bool_decide (c_Status c = StatusOpen)) && bool_decide (tokenID = uuid_Nil) then Ok []
  else
    let! d := resolveDefinition e (c_Definition c) (c_Version c) in
    let! run := loadRun db c d in
    let! tok := pick run tokenID in
    let candidates := TransitionsFrom d (t_Node tok) in
    let! occupied :=
      (if hasReturnTransition candidates then occupiedStates db caseID (t_ScopeID tok)
       else Ok ∅) in
    available_loop e db occupied (snapshot run tok (t_Node tok)) candidates.

(** [Engine.Available]. *)
Definition Available (e : Engine DB) (db : DB) (caseID : uuid) : result (list Transition) :=
  AvailableFor e db caseID uuid_Nil.

(** The checks of [MoveDetailed] on the transition it found, in order: comment,
    return, guard. *)
Definition check_transition (e : Engine DB) (db : DB) (caseID : uuid) (run : caseRun) (tok : Token)
    (tr : Transition) (comment : string) : result unit :=
  let! _ := checkComment (tr_Comment tr) comment in
  let! _ :=
    (if tr_Return tr
     then let! occupied := occupiedStates db caseID (t_ScopeID tok) in
          guardB (bool_decide (tr_To tr ∈ occupied)) (sent ErrReturnNotVisited)
     else Ok tt) in
  checkGuard e db tr (snapshot run tok (t_Node tok)).

(** The plan of [MoveDetailed]: everything before [persist]. *)
Definition move_plan (e : Engine DB) (cx : Ctx) (db : DB) (inp : MoveInput)
  : result (WDefinition * caseRun) :=
  let! actor := resolveActor (mi_Actor inp) (mi_ActorID inp) in
  let! c := openCase db (mi_CaseID inp) (mi_ExpectedRevision inp) ErrCaseClosed in
  let! d := resolveDefinition e (c_Definition c) (c_Version c) in
  let! _ := checkEffectDB e d db in
  let! run := loadRun db c d in
  let! tok := pick run (mi_TokenID inp) in
  match findTransition (TransitionsFrom d (t_Node tok)) (mi_Action inp) with
  | None => Err (sent ErrInvalidTransition)
  | Some transition =>
      let comment := TrimSpace (mi_Comment inp) in
      let! _ := check_transition e db (mi_CaseID inp) run tok transition comment in
      let run := begin (cx_now cx) actor run in
      let run := match mi_Step inp with
                 | Some step =>
                     emit (at_token EventStepSubmitted tok (mi_Action inp)
                             (Some (marshal_StepDetail step))) run
                 | None => run
                 end in
      let! run := route_all e cx db run (t_ID tok) transition comment in
      Ok (d, run)
  end.

(** [Engine.MoveDetailed]. *)
Definition MoveDetailed (e : Engine DB) (cx : Ctx) (inp : MoveInput) : writer DB MoveResult :=
  fun db => (do! '(d, run) := w_res (move_plan e cx db inp) in commit_dispatch e cx d run) db.

(** [Engine.Move]. *)
Definition Move (e : Engine DB) (cx : Ctx) (inp : MoveInput) : writer DB Case :=
  do! res := MoveDetailed e cx inp in w_ret (mr_Case res).

(** ** Assignment *)

(** [begin], change the token, [touch] it, and record one event at its node. *)
Definition token_change (cx : Ctx) (actor : Actor) (run : caseRun) (tok : Token)
    (f : Token -> Token) (kind : EventKind) (detail : json) : caseRun :=
  let run := begin (cx_now cx) actor run in
  let run := touch (t_ID tok) (upd_token (t_ID tok) f run) in
  emit (at_token kind tok "" (Some detail)) run.

(** The plan of [ClaimWith]: [inl c] is the no-op of a second claim. *)
Definition claim_plan (e : Engine DB) (cx : Ctx) (db : DB) (inp : ClaimInput)
  : result (Case + caseRun) :=
  let! actor := resolveActor (ci_Actor inp) "" in
  let! _ := guardB (bool_decide (a_ID actor <> "")) (sent ErrInvalidActor) in
  let! c := openCase db (ci_CaseID inp) (ci_ExpectedRevision inp) ErrCaseClosed in
  let! '(run, tok) := loadToken e db c (ci_TokenID inp) in
  if bool_decide (t_AssignedTo tok <> "")
  then if bool_decide (t_AssignedTo tok = a_ID actor) then Ok (inl c)
       else Err (sent ErrAlreadyAssigned)
  else
    let detail := marshal_AssignmentDetail (mkAssignmentDetail "" (a_ID actor) "") in
    Ok (inr (token_change cx actor run tok (token_with_assignee (a_ID actor)) EventAssigned
               detail)).

(** [Engine.ClaimWith]. *)
Definition ClaimWith (e : Engine DB) (cx : Ctx) (inp : ClaimInput) : writer DB Case :=
  fun db =>
  (do! plan := w_res (claim_plan e cx db inp) in
   match plan with
   | inl c => w_ret c
   | inr run => commit e cx run
   end) db.

Definition human (id : string) : Actor := mkActor ActorHuman id "" "" "".

(** [Engine.Claim]. *)
Definition Claim (e : Engine DB) (cx : Ctx) (caseID : uuid) (actorID : string) : writer DB Case :=
  ClaimWith e cx (mkClaimInput caseID uuid_Nil (human actorID) None).

Definition release_plan (e : Engine DB) (cx : Ctx) (db : DB) (inp : ReleaseInput)
  : result caseRun :=
  let! actor := resolveActor (ri_Actor inp) "" in
  let! c := openCase db (ri_CaseID inp) (ri_ExpectedRevision inp) ErrNotAssigned in
  let! '(run, tok) := loadToken e db c (ri_TokenID inp) in
  let! _ := guardB (bool_decide (t_AssignedTo tok <> "")) (sent ErrNotAssigned) in
  let! _ := guardB (bool_decide (a_ID actor = t_AssignedTo tok)
                    || negb (bool_decide (TrimSpace (ri_Reason inp) = "")))
              (sent ErrReasonRequired) in
  let detail := marshal_AssignmentDetail
    (mkAssignmentDetail (t_AssignedTo tok) "" (ri_Reason inp)) in
  Ok (token_change cx actor run tok (token_with_assignee "") EventUnassigned detail).

(** [Engine.ReleaseWith]. *)
Definition ReleaseWith (e : Engine DB) (cx : Ctx) (inp : ReleaseInput) : writer DB Case :=
  fun db => (do! run := w_res (release_plan e cx db inp) in commit e cx run) db.

(** [Engine.Release]. *)
Definition Release (e : Engine DB) (cx : Ctx) (caseID : uuid) (actorID : string)
  : writer DB Case :=
  ReleaseWith e cx (mkReleaseInput caseID uuid_Nil (human actorID) "" None).

Definition reassign_plan (e : Engine DB) (cx : Ctx) (db : DB) (inp : ReassignInput)
  : result caseRun :=
  let reason := TrimSpace (rai_Reason inp) in
  let! _ := guardB (bool_decide (reason <> "")) (sent ErrReasonRequired) in
  let! _ := guardB (bool_decide (rai_To inp <> "")) (sent ErrInvalidActor) in
  let! actor := resolveActor (rai_Actor inp) "" in
  let! c := openCase db (rai_CaseID inp) (rai_ExpectedRevision inp) ErrCaseClosed in
  let! '(run, tok) := loadToken e db c (rai_TokenID inp) in
  let detail := marshal_AssignmentDetail
    (mkAssignmentDetail (t_AssignedTo tok) (rai_To inp) reason) in
  Ok (token_change cx actor run tok (token_with_assignee (rai_To inp)) EventAssigned detail).

(** [Engine.Reassign]. *)
Definition Reassign (e : Engine DB) (cx : Ctx) (inp : ReassignInput) : writer DB Case :=
  fun db => (do! run := w_res (reassign_plan e cx db inp) in commit e cx run) db.

(** ** Deadlines *)

(** The two assignments of [SetDeadline] to the token. *)
Definition token_set_deadline (dl : option time) (t : Token) : Token :=
  token_with_expired None (token_with_deadline dl t).

Definition set_deadline_plan (e : Engine DB) (cx : Ctx) (db : DB) (inp : SetDeadlineInput)
  : result caseRun :=
  let reason := TrimSpace (sdi_Reason inp) in
  let! _ := guardB (bool_decide (reason <> "")) (sent ErrReasonRequired) in
  let! actor := resolveActor (sdi_Actor inp) "" in
  let! c := openCase db (sdi_CaseID inp) (sdi_ExpectedRevision inp) ErrCaseClosed in
  let! '(run, tok) := loadToken e db c (sdi_TokenID inp) in
  let! _ := guardB (opt_time_encodable (t_DeadlineAt tok)
                    && opt_time_encodable (sdi_DeadlineAt inp))
              (EOther "encode event detail") in
  let detail := marshal_DeadlineDetail
    (mkDeadlineDetail (t_DeadlineAt tok) (sdi_DeadlineAt inp) reason) in
  Ok (token_change cx actor run tok (token_set_deadline (sdi_DeadlineAt inp))
        EventDeadlineChanged detail).

(** [Engine.SetDeadline]. *)
Definition SetDeadline (e : Engine DB) (cx : Ctx) (inp : SetDeadlineInput) : writer DB Case :=
  fun db => (do! run := w_res (set_deadline_plan e cx db inp) in commit e cx run) db.

(** The transition [Expire] takes out of the token's node, its guard checked. *)
Definition expire_transition (e : Engine DB) (db : DB) (d : WDefinition) (run : caseRun)
    (tok : Token) : result (option Transition) :=
  match Definition_Node d (t_Node tok) with
  | None => Ok None
  | Some node =>
      if bool_decide (n_OnExpire node = "") then Ok None
      else match findTransition (TransitionsFrom d (t_Node tok)) (n_OnExpire node) with
           | None => Err (sent ErrInvalidTransition)
           | Some tr =>
               let! _ := checkEffectDB e d db in
               let! _ := checkGuard e db tr (snapshot run tok (t_Node tok)) in
               Ok (Some tr)
           end
  end.

(** The deadline [Expire] records: passed, and not recorded before. *)
Definition expired_deadline (now : time) (tok : Token) : result time :=
  match t_DeadlineAt tok with
  | None => Err (sent ErrNotOverdue)
  | Some deadline =>
      let! _ := guardB (deadline <? now) (sent ErrNotOverdue) in
      let! _ := guardB (negb (bool_decide (t_ExpiredDeadline tok = Some deadline)))
                  (sent ErrAlreadyExpired) in
      Ok deadline
  end.

Definition expire_plan (e : Engine DB) (cx : Ctx) (db : DB) (inp : ExpireInput)
  : result (WDefinition * caseRun * option Transition) :=
  let! actor := resolveActor (ei_Actor inp) "" in
  let! _ := guardB (bool_decide (a_Kind actor = ActorSystem)) (sent ErrInvalidActor) in
  let! c := openCase db (ei_CaseID inp) None ErrCaseClosed in
  let! d := resolveDefinition e (c_Definition c) (c_Version c) in
  let! run := loadRun db c d in
  let! tok := pick run (ei_TokenID inp) in
  let! deadline := expired_deadline (cx_now cx) tok in
  let! onExpire := expire_transition e db d run tok in
  let! _ := guardB (time_encodable deadline) (EOther "encode event detail") in
  let run := token_change cx actor run tok (token_with_expired (Some deadline)) EventExpired
               (marshal_ExpiryDetail (mkExpiryDetail deadline)) in
  match onExpire with
  | None => Ok (d, run, None)
  | Some tr =>
      let hop := length (r_events run) in
      let! run := route_all e cx db run (t_ID tok) tr "" in
      let cause := marshal_expiredCause (mkExpiredCause "expired") in
      Ok (d, set_events (alter (event_with_detail cause) hop) run, Some tr)
  end.

(** [Engine.Expire]. *)
Definition Expire (e : Engine DB) (cx : Ctx) (inp : ExpireInput) : writer DB MoveResult :=
  fun db =>
  (do! '(d, run, onExpire) := w_res (expire_plan e cx db inp) in
   match onExpire with
   | Some _ => commit_dispatch e cx d run
   | None =>
       do! '(c, appended) := persist e cx run in
       w_ret (mkMoveResult c appended (r_joined run))
   end) db.

(** [Engine.Overdue]. *)
Definition Overdue (cx : Ctx) (db : DB) (f : OverdueFilter) : result (list WorkItem) :=
  let before := if time_IsZero (of_Before f) then cx_now cx else of_Before f in
  lift (repo_ListOverdue db
    (mkOverdueFilter (of_Tenant f) (OverdueFilter_Page f) before (of_After f))).

(** ** Cancelling *)

(** The loop over the live tokens, in token order. *)
Definition cancel_token (detail : json) (r : caseRun) (id : uuid) : result caseRun :=
  let! t := deref (run_token r id) in
  let seq := next_seq r in
  let r := emit (at_token EventTokenCancelled t "" (Some detail)) r in
  Ok (run_end (t_ID t) TokenCancelled seq r).

Fixpoint cancel_tokens (detail : json) (ids : list uuid) (r : caseRun) : result caseRun :=
  match ids with
  | [] => Ok r
  | id :: rest => let! r := cancel_token detail r id in cancel_tokens detail rest r
  end.

(** The loop over the scopes: every open one is cancelled. *)
Definition cancel_scopes (seq : Z) (r : caseRun) : caseRun :=
  fold_left (fun r s =>
    if bool_decide (s_Status s = ScopeOpen) then close_scope (s_ID s) ScopeCancelled seq r else r)
    (r_scopes r) r.

Definition case_cancelled (now : time) (c : Case) : Case :=
  mkCase (c_ID c) (c_Definition c) (c_Version c) (c_Tenant c) (c_Domain c) (c_ExternalID c)
    (c_Unit c) (c_State c) StatusCancelled (c_AssignedTo c) (c_OpenedAt c) (Some now)
    (c_DeadlineAt c) (c_Revision c) (c_LastSeq c) (c_JoinResult c).

(** The changes of [Cancel] to the run. *)
Definition cancel_run (reason : string) (r : caseRun) : result caseRun :=
  let detail := cancelDetail reason in
  let live := sortTokens (List.filter (fun t => Live (t_Status t)) (r_tokens r)) in
  let! r := cancel_tokens detail (t_ID <$> live) r in
  let seq := next_seq r in
  let c := r_c r in
  let r := emit (plan_event EventCancelled (c_ID c) (c_ID c) (c_State c) (c_State c) "" ""
                   (Some detail)) r in
  let r := cancel_scopes seq r in
  Ok (set_run_case (case_cancelled (r_now r) c) r).

Definition cancel_plan (e : Engine DB) (cx : Ctx) (db : DB) (inp : CancelInput)
  : result caseRun :=
  let reason := TrimSpace (cai_Reason inp) in
  let! _ := guardB (bool_decide (reason <> "")) (sent ErrReasonRequired) in
  let! actor := resolveActor (cai_Actor inp) "" in
  let! c := openCase db (cai_CaseID inp) (cai_ExpectedRevision inp) ErrCaseClosed in
  let! d := resolveDefinition e (c_Definition c) (c_Version c) in
  let! run := loadRun db c d in
  cancel_run reason (begin (cx_now cx) actor run).

(** [Engine.Cancel]. *)
Definition Cancel (e : Engine DB) (cx : Ctx) (inp : CancelInput) : writer DB Case :=
  fun db => (do! run := w_res (cancel_plan e cx db inp) in commit e cx run) db.

(** The live branches of the token's scope besides it. *)
Definition other_branches (r : caseRun) (tok : Token) : nat :=
  (count (fun t => bool_decide (t_ScopeID t = t_ScopeID tok)
                   && negb (bool_decide (t_ID t = t_ID tok)) && Live (t_Status t)) (r_tokens r)
   + count (fun s => bool_decide (s_ParentID s = Some (t_ScopeID tok))
                     && bool_decide (s_Status s = ScopeOpen)) (r_scopes r))%nat.

(** The changes of [CancelToken] to the run. *)
Definition cancel_branch (e : Engine DB) (cx : Ctx) (db : DB) (reason : string) (r : caseRun)
    (tok : Token) : result caseRun :=
  let detail := cancelDetail reason in
  let seq := next_seq r in
  let r := emit (at_token EventTokenCancelled tok "" (Some detail)) r in
  let r := run_end (t_ID tok) TokenCancelled seq r in
  tryJoin e cx db r (t_ScopeID tok).

Definition cancel_token_plan (e : Engine DB) (cx : Ctx) (db : DB) (inp : CancelTokenInput)
  : result (WDefinition * caseRun) :=
  let reason := TrimSpace (cti_Reason inp) in
  let! _ := guardB (bool_decide (reason <> "")) (sent ErrReasonRequired) in
  let! _ := guardB (bool_decide (cti_TokenID inp <> uuid_Nil)) (sent ErrTokenNotFound) in
  let! actor := resolveActor (cti_Actor inp) "" in
  let! c := openCase db (cti_CaseID inp) None ErrCaseClosed in
  let! d := resolveDefinition e (c_Definition c) (c_Version c) in
  let! _ := checkEffectDB e d db in
  let! run := loadRun db c d in
  let! tok := pick run (cti_TokenID inp) in
  let! _ := guardB (negb (Nat.eqb (other_branches run tok) 0)) (sent ErrLastBranch) in
  let! run := cancel_branch e cx db reason (begin (cx_now cx) actor run) tok in
  Ok (d, run).

(** [Engine.CancelToken]. *)
Definition CancelToken (e : Engine DB) (cx : Ctx) (inp : CancelTokenInput)
  : writer DB MoveResult :=
  fun db =>
  (do! '(d, run) := w_res (cancel_token_plan e cx db inp) in commit_dispatch e cx d run) db.

(** ** Recording a failure *)

(** The checks of [RecordFailure] before its first write: the actor, the detail,
    and the token the record names. *)
Definition failure_plan (db : DB) (inp : FailureInput) : result (Actor * json * option Token) :=
  let! _ := guardB (FailureKind_Valid (fi_Kind inp)) (sent ErrInvalidFailure) in
  let! raw :=
    match fi_Detail inp with
    | RawNone => Ok None
    | RawInvalid => Err (sent ErrInvalidFailure)
    | RawJson j => if isJSONObject j then Ok (Some j) else Err (sent ErrInvalidFailure)
    end in
  let! actor := resolveActor (fi_Actor inp) "" in
  let detail := marshal_FailureDetail (mkFailureDetail (fi_Kind inp) raw) in
  if bool_decide (fi_TokenID inp = uuid_Nil) then Ok (actor, detail, None)
  else
    let! tokens := lift (repo_ListTokens db (fi_CaseID inp)) in
    match find_by t_ID (fi_TokenID inp) (reverse tokens) with
    | None => Err (sent ErrTokenNotFound)
    | Some tok => Ok (actor, detail, Some tok)
    end.

Definition failure_event (c : Case) (inp : FailureInput) (actor : Actor) (detail : json)
    (tok : option Token) (now : time) : Event :=
  let kind := if bool_decide (fi_Kind inp = FailureNoRoute) then EventNoRoute else EventFailed in
  let '(token, scope, node) :=
    match tok with
    | Some t => (t_ID t, t_ScopeID t, t_Node t)
    | None => (c_ID c, c_ID c, c_State c)
    end in
  mkEvent 0%N 0%N (c_LastSeq c) kind token scope node node (fi_Action inp) None actor "" "" ""
    now 0 (Some detail) "" "" "" None None.

(** [Engine.RecordFailure]. *)
Definition RecordFailure (e : Engine DB) (cx : Ctx) (inp : FailureInput) : writer DB Event :=
  fun db =>
  (do! '(actor, detail, tok) := w_res (failure_plan db inp) in
   do! c := w_lift (repo_AdvanceLastSeq (fi_CaseID inp)) in
   appendEvent e cx 0 c (failure_event c inp actor detail tok (cx_now cx))) db.

(** ** Queries *)

(** [Engine.History]. *)
Definition History (db : DB) (caseID : uuid) : result (list Event) :=
  let! events := listEvents db caseID in
  Ok (sort_by (fun a b => ev_Seq a <? ev_Seq b) events).

(** [Engine.Inbox]. *)
Definition Inbox (db : DB) (f : InboxFilter) : result (list WorkItem) :=
  lift (repo_ListWorkItems db f).

(** [Engine.EligibilityForToken]. *)
Definition EligibilityForToken (e : Engine DB) (db : DB) (caseID tokenID : uuid)
  : result Eligibility :=
  let! c := lift (repo_GetByID db caseID) in
  let! d := resolveDefinition e (c_Definition c) (c_Version c) in
  let! state :=
    (if bool_decide (c_Status c = StatusOpen) || negb (bool_decide (tokenID = uuid_Nil))
     then let! run := loadRun db c d in
          let! tok := pick run tokenID in
          Ok (t_Node tok)
     else Ok (c_State c)) in
  match Definition_Node d state with
  | None => Err (EOther "node not found in definition")
  | Some node =>
      Ok (mkEligibility (el_Position (n_Eligible node)) (ResolveUnit (n_Eligible node) (c_Unit c)))
  end.

(** [Engine.EligibilityFor]. *)
Definition EligibilityFor (e : Engine DB) (db : DB) (caseID : uuid) : result Eligibility :=
  EligibilityForToken e db caseID uuid_Nil.

(** [Engine.Tokens]. *)
Definition Tokens (e : Engine DB) (db : DB) (caseID : uuid) : result (list Token) :=
  let! c := lift (repo_GetByID db caseID) in
  let! d := resolveDefinition e (c_Definition c) (c_Version c) in
  let! run := loadRun db c d in
  Ok (sortTokens (r_tokens run)).

(** [Engine.RefreshEligibility]: [None] is the answer [false] of a case with
    nothing to write. *)
Definition refresh_plan (e : Engine DB) (cx : Ctx) (db : DB) (caseID : uuid)
  : result (option caseRun) :=
  let! c := lift (repo_GetByID db caseID) in
  if bool_decide (c_Status c <> StatusOpen) then Ok None
  else
    let! d := resolveDefinition e (c_Definition c) (c_Version c) in
    let! run := loadRun db c d in
    if bool_decide (r_changed run = ∅) && bool_decide (r_created run = ∅) then Ok None
    else Ok (Some (begin (cx_now cx) zero_Actor run)).

Definition RefreshEligibility (e : Engine DB) (cx : Ctx) (caseID : uuid) : writer DB bool :=
  fun db =>
  (do! plan := w_res (refresh_plan e cx db caseID) in
   match plan with
   | None => w_ret false
   | Some run => do! _ := persist e cx run in w_ret true
   end) db.

(** [Engine.Participated]. *)
Definition Participated (db : DB) (f : ParticipationFilter) : result (list Case) :=
  let! _ := guardB (bool_decide (pf_ActorID f <> "")) (sent ErrInvalidActor) in
  let! _ := ParticipationFilter_Page f in
  lift (repo_ListParticipated db f).

(** [Engine.JoinResults]. *)
Definition JoinResults (db : DB) (caseID : uuid) : result (list JoinResult) :=
  let! _ := lift (repo_GetByID db caseID) in
  let! events := listEvents db caseID in
  let! results := join_results events events in
  Ok (sort_by (fun a b => jr_Seq a <? jr_Seq b) results).

End Engine.
