(* ===== verification/RunFrame.v ===== *)
(** What every step of a run keeps.  [RunRel] is the interface between the routing
    of [Run.v] and the relations proved of it: a preorder on runs that every
    primitive change respects is respected by [route], [tryJoin] and the other
    composed steps.  Its instances are the frame of a call (what is constant, what
    only grows), the numbering of the planned events, and the tracking of what has
    to be written.  The termination of [route] rests on the first one. *)

From stdpp Require Import base gmap sets list strings.
From Stdlib Require Import ZArith Lia.
From S2P Require Import Prelude GoStrings Errors Model Definitions JoinPolicies Repo Ports Events.
From S2P Require Import Run.

Open Scope string_scope.
Open Scope Z_scope.

(** An update that keeps the identity of the token. *)
Definition tok_stable (f : Token -> Token) : Prop :=
  forall t, t_ID (f t) = t_ID t /\ t_CaseID (f t) = t_CaseID t /\ t_ScopeID (f t) = t_ScopeID t.

(** The fields of a case no run changes. *)
Definition same_identity (c c' : Case) : Prop :=
  c_ID c' = c_ID c /\ c_Definition c' = c_Definition c /\ c_Version c' = c_Version c
  /\ c_Tenant c' = c_Tenant c /\ c_Domain c' = c_Domain c /\ c_ExternalID c' = c_ExternalID c
  /\ c_Unit c' = c_Unit c /\ c_OpenedAt c' = c_OpenedAt c /\ c_Revision c' = c_Revision c
  /\ c_LastSeq c' = c_LastSeq c /\ c_JoinResult c' = c_JoinResult c.

(** The token or scope is written at the end of the call. *)
Definition tracked (r : caseRun) (id : uuid) : Prop := id ∈ r_created r \/ id ∈ r_changed r.

(** Counting one gateway step. *)
Definition bump (r : caseRun) : caseRun :=
  mkRun (r_c r) (r_d r) (r_tokens r) (r_scopes r) (r_created r) (r_changed r)
    (r_now r) (r_actor r) (r_baseSeq r) (r_events r) (r_joined r) (r_gatewaySteps r + 1)
    (r_joinResults r) (r_history r) (r_uuids r).

(** A new scope joining the run. *)
Definition add_scope (s : Scope) (r : caseRun) : caseRun :=
  mark_created (s_ID s) (set_scopes (fun l => (l ++ [s])%list) r).

Class RunRel (R : caseRun -> caseRun -> Prop) := {
  rr_refl : forall r, R r r;
  rr_trans : forall r1 r2 r3, R r1 r2 -> R r2 r3 -> R r1 r3;
  rr_tracked : forall r r' id, R r r' -> tracked r id -> tracked r' id;
  rr_emit : forall r e, R r (emit e r);
  rr_touch : forall r id f, tok_stable f -> R r (touch id (upd_token id f r));
  rr_update : forall r id f, tok_stable f -> tracked r id -> R r (upd_token id f r);
  rr_close_scope : forall r id st seq, R r (close_scope id st seq r);
  rr_addToken : forall r id scope node, R r (addToken (new_token id (c_ID (r_c r)) scope node) r);
  rr_add_scope : forall r id parent split join k st o c,
    R r (add_scope (mkScope id (c_ID (r_c r)) parent split join k st o c) r);
  rr_draw : forall r, R r (draw_uuid r);
  rr_bump : forall r, r_gatewaySteps r + 1 <= 256 -> R r (bump r);
  rr_add_joined : forall r rec, R r (add_joined rec r);
  rr_note : forall r next s p v seq bs, R r (noteJoinResult next s p v seq bs r);
  rr_history : forall r h, R r (set_history h r);
  rr_deadline : forall r dl i, R r (set_events (alter (event_with_deadline dl) i) r);
  rr_case : forall r c, same_identity (r_c r) c -> R r (set_run_case c r)
}.

Lemma token_end_stable st seq now : tok_stable (token_end st seq now).
Proof. by intros t. Qed.
Lemma token_enter_stable n seq now : tok_stable (token_enter n seq now).
Proof. by intros t. Qed.
Lemma token_rest_stable el : tok_stable (token_rest el).
Proof. by intros t. Qed.
Lemma token_with_deadline_stable dl : tok_stable (token_with_deadline dl).
Proof. by intros t. Qed.
Lemma token_with_expired_stable dl : tok_stable (token_with_expired dl).
Proof. by intros t. Qed.
Lemma token_with_assignee_stable to : tok_stable (token_with_assignee to).
Proof. by intros t. Qed.
Lemma token_with_eligible_stable el : tok_stable (token_with_eligible el).
Proof. by intros t. Qed.
Lemma token_wait_stable o : tok_stable (token_wait o).
Proof. by intros t. Qed.

#[export] Hint Resolve token_end_stable token_enter_stable token_rest_stable
  token_with_deadline_stable token_with_expired_stable token_with_assignee_stable
  token_with_eligible_stable token_wait_stable : vogel.

Lemma tracked_touch id r : tracked (touch id r) id.
Proof.
  unfold touch, tracked. case_bool_decide; [by left|]. right. csimpl. set_solver.
Qed.

Lemma gatewayStep_Ok r r' :
  gatewayStep r = Ok r' <-> r' = bump r /\ r_gatewaySteps r + 1 <= 256.
Proof.
  unfold gatewayStep, maxGatewaySteps. fold (bump r). simpl. case_match eqn:E.
  - split; [done|]. intros [_ ?]. lia.
  - split; [intros [= <-]; split; [done|lia] | by intros [-> _]].
Qed.

Section Generic.
Context {DB : Type} `{Repository DB} (R : caseRun -> caseRun -> Prop) `{!RunRel R}.
Implicit Types (e : Engine DB) (cx : Ctx) (db : DB) (r : caseRun).

Lemma rr_step r1 r2 r3 : R r2 r3 -> R r1 r2 -> R r1 r3.
Proof. intros H23 H12. exact (rr_trans _ _ _ H12 H23). Qed.

Definition respects (rt : router) : Prop := forall r tid tr r', rt r tid tr = Ok r' -> R r r'.

Lemma run_end_rel r id st seq : R r (run_end id st seq r).
Proof. apply rr_touch, token_end_stable. Qed.

Lemma fold_rel {A} (f : caseRun -> A -> caseRun) l r :
  (forall r a, R r (f r a)) -> R r (fold_left f l r).
Proof.
  intros Hf. revert r. induction l as [|a l IH]; intros r; simpl; [apply rr_refl|].
  eapply rr_step; [apply IH | apply Hf].
Qed.

Lemma fullHistory_rel db r r' h : fullHistory db r = Ok (r', h) -> R r r'.
Proof.
  unfold fullHistory. intros Hh. res_inv. case_match; res_inv; [apply rr_refl | apply rr_history].
Qed.

Lemma applyAssignRule_rel e db r tid n r' :
  applyAssignRule e db r tid n = Ok r' -> tracked r tid -> R r r'.
Proof.
  unfold applyAssignRule. intros Ha Ht. case_bool_decide; res_inv; [apply rr_refl|].
  case_match; [|done]. res_inv. destruct x as [r1 h]. res_inv.
  match goal with Hf : fullHistory _ _ = Ok _ |- _ => pose proof (fullHistory_rel _ _ _ _ Hf) as HR end.
  case_bool_decide; res_inv; [done|].
  eapply rr_step; [apply rr_emit|]. eapply rr_step; [|exact HR].
  apply rr_update; [auto with vogel | by eapply rr_tracked].
Qed.

Lemma closeCase_rel r tid node action r' : closeCase r tid node action = Ok r' -> R r r'.
Proof.
  unfold closeCase. intros Hc. res_inv. case_bool_decide; res_inv.
  eapply rr_step; [apply rr_case; by repeat split|].
  case_match; (try (eapply rr_step; [apply rr_close_scope|]));
    (eapply rr_step; [apply run_end_rel | apply rr_emit]).
Qed.

Lemma draw_uuids_rel cx k r r' ids : draw_uuids cx k r = (r', ids) -> R r r'.
Proof.
  revert r r' ids. induction k as [|k IH]; intros r r' ids; simpl.
  - intros [= <- <-]. apply rr_refl.
  - destruct (draw_uuids cx k (draw_uuid r)) as [r1 l] eqn:E. intros [= <- <-].
    eapply rr_trans; [apply rr_draw | by eapply IH].
Qed.

Lemma route_branches_rel rt scope node bs r r' :
  respects rt -> route_branches rt scope node bs r = Ok r' -> R r r'.
Proof.
  intros Hrt. revert r. induction bs as [|[id tr] bs IH]; intros r; simpl; intros Hb; res_inv.
  - apply rr_refl.
  - eapply rr_trans; [apply rr_addToken|]. eapply rr_trans; [by eapply Hrt|]. by apply IH.
Qed.

Lemma split_rel rt e cx db r tid node r' :
  respects rt -> split_with rt e cx db r tid node = Ok r' -> R r r'.
Proof.
  unfold split_with. intros Hrt Hs. res_inv.
  match goal with Hg : gatewayStep _ = Ok _ |- _ => apply gatewayStep_Ok in Hg as [-> Hcap] end. case_bool_decide; [done|].
  destruct (draw_uuids cx (length x1) (draw_uuid (bump r))) as [r1 ids] eqn:E.
  eapply rr_step; [eapply route_branches_rel; [done | exact Hs]|].
  eapply rr_step; [apply rr_add_scope|]. eapply rr_step; [apply run_end_rel|].
  eapply rr_step; [apply rr_emit|]. eapply rr_step; [by eapply draw_uuids_rel|].
  eapply rr_step; [apply rr_draw|]. by apply rr_bump.
Qed.

Lemma cancel_pending_rel detail m pending reported branches r r' bs :
  cancel_pending detail m pending reported branches r = Ok (r', bs) -> R r r'.
Proof.
  revert reported branches r. induction pending as [|p pending IH]; intros reported branches r;
    simpl; intros Hc; [res_inv; apply rr_refl|].
  res_inv. eapply rr_trans; [apply rr_emit|]. eapply rr_trans; [apply run_end_rel|].
  repeat case_match; by eapply IH.
Qed.

Lemma closeBranches_rel r scope policy r' bs nested :
  closeBranches r scope policy = Ok (r', bs, nested) -> R r r'.
Proof.
  unfold closeBranches. intros Hc. res_inv. destruct x as [r1 bs1]. res_inv.
  by eapply cancel_pending_rel.
Qed.

Lemma fire_join_rel cx r scope join parent policy verdict waiting r' rec next seq bs :
  fire_join cx r scope join parent policy verdict waiting = Ok (r', rec, next, seq, bs) -> R r r'.
Proof.
  unfold fire_join. intros Hf. res_inv. destruct x as [[r1 bs1] nested]. res_inv.
  assert (R r r1) as HR
    by (case_bool_decide; res_inv; [apply rr_refl | by eapply closeBranches_rel]).
  eapply rr_step; [apply rr_close_scope|].
  eapply rr_step; [apply fold_rel; intros; apply rr_close_scope|].
  eapply rr_step; [apply fold_rel; intros; apply run_end_rel|].
  eapply rr_step; [apply rr_emit|]. eapply rr_step; [apply rr_draw|]. done.
Qed.

Lemma tryJoin_rel rt e cx db r sid r' :
  respects rt -> tryJoin_with rt e cx db r sid = Ok r' -> R r r'.
Proof.
  unfold tryJoin_with. intros Hrt Ht. res_inv. case_bool_decide; res_inv; [apply rr_refl|].
  destruct x0 as [waiting tally]. destruct (round_closes _ _ _) as [closed verdict].
  case_match; res_inv; [apply rr_refl|].
  match goal with Hg : gatewayStep _ = Ok _ |- _ => apply gatewayStep_Ok in Hg as [-> Hcap] end.
  destruct (Definition_Node (r_d r) (s_JoinNode x)) as [join|]; [|done]. simpl in Ht.
  destruct (TransitionsFrom (r_d r) (n_ID join)) as [|out [|]]; try done.
  res_inv. destruct x1 as [[[[r1 rec] next] seq] bs]. res_inv.
  eapply rr_step; [eapply Hrt, Ht|].
  assert (R r (add_joined rec r1)) as HR.
  { eapply rr_step; [apply rr_add_joined|]. eapply rr_step; [by eapply fire_join_rel|].
    by apply rr_bump. }
  case_bool_decide; [|eapply rr_step; [apply rr_note|]];
    (eapply rr_step; [apply (rr_addToken (add_joined rec r1)) | exact HR]).
Qed.

Lemma arrive_rel rt e cx db r tid node o r' :
  respects rt -> tracked r tid -> arrive_with rt e cx db r tid node o = Ok r' -> R r r'.
Proof.
  unfold arrive_with. intros Hrt Ht Ha. res_inv. case_match; [|done]. case_bool_decide; [done|].
  eapply rr_step; [by eapply tryJoin_rel|]. eapply rr_step; [apply rr_emit|].
  apply rr_update; auto with vogel.
Qed.

Lemma rest_rel e db r tid hop next r' :
  tracked r tid -> rest e db r tid hop next = Ok r' -> R r r'.
Proof.
  unfold rest. intros Ht Hr. res_inv.
  eapply rr_step; [exact (applyAssignRule_rel _ _ _ _ _ _ Hr Ht)|].
  eapply rr_step; [apply rr_deadline|].
  eapply rr_step; [apply rr_update; [auto with vogel | done]|].
  apply rr_update; auto with vogel.
Qed.

(** Routing respects every relation its primitive changes respect. *)
Lemma route_rel fuel hops e cx db r tid tr comment r' :
  route fuel hops e cx db r tid tr comment = Ok r' -> R r r'.
Proof.
  revert hops r tid tr comment r'.
  induction fuel as [|fuel IH]; intros hops r tid tr comment r'; simpl; [done|].
  intros Hr. case_match; [|done]. res_inv.
  assert (Hrt : respects (fun r tid tr => route fuel 0 e cx db r tid tr ""))
    by (intros ?????; by eapply IH).
  revert Hr. match goal with |- context [touch tid ?x] => set (r1 := x) end. intros Hr.
  assert (R r (touch tid r1)) as HR.
  { subst r1. eapply rr_step; [apply rr_touch; auto with vogel|]. apply rr_emit. }
  pose proof (tracked_touch tid r1) as Ht.
  eapply rr_step; [|exact HR]. clear HR.
  case_bool_decide.
  { case_match; [done|]. res_inv. by eapply IH. }
  case_match; [by eapply split_rel|].
  case_bool_decide; [by eapply arrive_rel|].
  case_match; [by eapply closeCase_rel|].
  by eapply rest_rel.
Qed.

Lemma route_all_rel e cx db r tid tr comment r' :
  route_all e cx db r tid tr comment = Ok r' -> R r r'.
Proof. unfold route_all. apply route_rel. Qed.

Lemma tryJoin_all_rel e cx db r sid r' : tryJoin e cx db r sid = Ok r' -> R r r'.
Proof.
  unfold tryJoin. apply tryJoin_rel. intros r0 tid tr r0' Hr.
  unfold route_from_join, route_all in Hr. exact (route_rel _ _ _ _ _ _ _ _ _ _ Hr).
Qed.

End Generic.

(** ** What a call keeps *)

(** What is constant during a call, and what only grows. *)
Record frame (r r' : caseRun) : Prop := mkFrame {
  fr_d : r_d r' = r_d r;
  fr_now : r_now r' = r_now r;
  fr_actor : r_actor r' = r_actor r;
  fr_baseSeq : r_baseSeq r' = r_baseSeq r;
  fr_case : same_identity (r_c r) (r_c r');
  fr_steps : r_gatewaySteps r <= r_gatewaySteps r';
  fr_cap : r_gatewaySteps r <= 256 -> r_gatewaySteps r' <= 256;
  fr_uuids : (r_uuids r <= r_uuids r')%nat;
  fr_created : r_created r ⊆ r_created r';
  fr_changed : r_changed r ⊆ r_changed r';
  fr_events : (length (r_events r) <= length (r_events r'))%nat }.

Lemma same_identity_refl c : same_identity c c.
Proof. by repeat split. Qed.

Lemma same_identity_trans c1 c2 c3 :
  same_identity c1 c2 -> same_identity c2 c3 -> same_identity c1 c3.
Proof. unfold same_identity. intros. destruct_and!. by repeat split; etransitivity. Qed.

#[export] Hint Resolve same_identity_refl : vogel.

Lemma touch_cases id r :
  touch id r = r \/
  touch id r = mkRun (r_c r) (r_d r) (r_tokens r) (r_scopes r) (r_created r)
    ({[id]} ∪ r_changed r) (r_now r) (r_actor r) (r_baseSeq r) (r_events r) (r_joined r)
    (r_gatewaySteps r) (r_joinResults r) (r_history r) (r_uuids r).
Proof. unfold touch. case_bool_decide; auto. Qed.

(** Discharges the fields of [frame] for a primitive change. *)
Ltac frame_solve :=
  split; csimpl; try reflexivity; auto with vogel;
  first [lia | apply union_subseteq_r | by rewrite length_alter | (rewrite length_app; lia)].

#[export] Instance frame_RunRel : RunRel frame.
Proof.
  split.
  - intros r. frame_solve.
  - intros r1 r2 r3 [] []. split; try congruence; try lia; try (by etransitivity).
    by eapply same_identity_trans.
  - intros r r' id [] [Ht|Ht]; [left | right]; set_solver.
  - intros r e. frame_solve.
  - intros r id f _. destruct (touch_cases id (upd_token id f r)) as [-> | ->]; frame_solve.
  - intros r id f _ _. frame_solve.
  - intros r id st seq. unfold close_scope.
    destruct (touch_cases id (upd_scope id (scope_with_status st seq) r)) as [-> | ->];
      frame_solve.
  - intros. frame_solve.
  - intros. frame_solve.
  - intros. frame_solve.
  - intros. frame_solve.
  - intros. frame_solve.
  - intros. frame_solve.
  - intros. frame_solve.
  - intros. frame_solve.
  - intros. frame_solve.
Qed.

(** ** Numbering of the planned events *)

(** The planned events are numbered without gaps from the last stored one, and
    share the call's clock reading and actor. *)
Definition numbered (r : caseRun) : Prop :=
  forall i ev, r_events r !! i = Some ev ->
    ev_Seq ev = r_baseSeq r + Z.of_nat i + 1
    /\ ev_OccurredAt ev = r_now r /\ ev_Actor ev = r_actor r.

Definition keeps_numbered (r r' : caseRun) : Prop := frame r r' /\ (numbered r -> numbered r').

Lemma numbered_emit r e : numbered r -> numbered (emit e r).
Proof.
  intros Hn i ev. csimpl. intros [Hi|[Hlen Hi]]%lookup_app_Some; [by apply Hn|].
  apply list_lookup_singleton_Some in Hi as [Hi <-]. csimpl. unfold next_seq.
  split; [lia | done].
Qed.

Lemma numbered_alter r f i :
  (forall ev, ev_Seq (f ev) = ev_Seq ev /\ ev_OccurredAt (f ev) = ev_OccurredAt ev
              /\ ev_Actor (f ev) = ev_Actor ev) ->
  numbered r -> numbered (set_events (alter f i) r).
Proof.
  intros Hf Hn j ev. csimpl. destruct (decide (i = j)) as [->|Hij].
  - rewrite list_lookup_alter_eq. destruct (r_events r !! j) as [ev0|] eqn:E; [|done].
    intros [= <-]. destruct (Hf ev0) as (-> & -> & ->). by apply Hn.
  - rewrite list_lookup_alter_ne by done. apply Hn.
Qed.

#[export] Instance keeps_numbered_RunRel : RunRel keeps_numbered.
Proof.
  split.
  - intros r. split; [apply rr_refl | done].
  - intros r1 r2 r3 [F1 N1] [F2 N2]. split; [by eapply rr_trans | auto].
  - intros r r' id [F _]. by apply rr_tracked.
  - intros r e. split; [apply rr_emit | apply numbered_emit].
  - intros r id f Hf. split; [by apply rr_touch|].
    by destruct (touch_cases id (upd_token id f r)) as [-> | ->].
  - intros r id f Hf Ht. split; [by apply rr_update | done].
  - intros r id st seq. split; [apply rr_close_scope|]. unfold close_scope.
    by destruct (touch_cases id (upd_scope id (scope_with_status st seq) r)) as [-> | ->].
  - intros. split; [apply rr_addToken | done].
  - intros. split; [apply rr_add_scope | done].
  - intros. split; [apply rr_draw | done].
  - intros. split; [by apply rr_bump | done].
  - intros. split; [apply rr_add_joined | done].
  - intros. split; [apply rr_note | done].
  - intros. split; [apply rr_history | done].
  - intros. split; [apply rr_deadline | by apply numbered_alter].
  - intros. split; [by apply rr_case | done].
Qed.

(** ** Termination of [route] *)

Section Termination.
Context {DB : Type} `{Repository DB}.
Implicit Types (e : Engine DB) (cx : Ctx) (db : DB) (r : caseRun).

(** The calls of [route] a run may still make before a cap stops it. *)
Definition hops_left (r : caseRun) (hops : Z) : Z := (257 - r_gatewaySteps r) * 33 - hops.

(** [rt] answers on every run that counted a gateway step after [r]. *)
Definition answers_after (r : caseRun) (rt : router) : Prop :=
  forall r' tid tr, r_gatewaySteps r + 1 <= r_gatewaySteps r' <= 256 -> rt r' tid tr <> Fuel.

Lemma resolveRoute_total e db routes c : resolveRoute e db routes c <> Fuel.
Proof.
  induction routes as [|tr routes IH]; simpl; [done|]. unfold lookupGuard. res_total; done.
Qed.

Lemma inclusive_routes_total e db routes c : inclusive_routes e db routes c <> Fuel.
Proof.
  induction routes as [|tr routes IH]; simpl; [done|]. unfold lookupGuard. res_total; done.
Qed.

Lemma split_taken_total e db r tok node : split_taken e db r tok node <> Fuel.
Proof.
  unfold split_taken. pose proof inclusive_routes_total. res_total; done.
Qed.

Lemma listEvents_total db id : listEvents db id <> Fuel.
Proof. unfold listEvents. res_total. Qed.

Lemma applyAssignRule_total e db r tid n : applyAssignRule e db r tid n <> Fuel.
Proof.
  unfold applyAssignRule, fullHistory. pose proof listEvents_total. res_total; done.
Qed.

Lemma closeCase_total r tid node action : closeCase r tid node action <> Fuel.
Proof. unfold closeCase. res_total. Qed.

Lemma deadlineFor_total e n from c tok : deadlineFor e n from c tok <> Fuel.
Proof. unfold deadlineFor. res_total. Qed.

Lemma rest_total e db r tid hop n : rest e db r tid hop n <> Fuel.
Proof.
  unfold rest. pose proof applyAssignRule_total. pose proof deadlineFor_total. res_total; done.
Qed.

Lemma tally_tokens_total policy scope tokens waiting tally :
  tally_tokens policy scope tokens waiting tally <> Fuel.
Proof.
  revert waiting tally. induction tokens as [|t tokens IH]; intros; simpl; [done|].
  repeat case_match; auto with vogel.
Qed.

Lemma cancel_pending_total detail m pending reported branches r :
  cancel_pending detail m pending reported branches r <> Fuel.
Proof.
  revert reported branches r. induction pending as [|p pending IH]; intros; simpl; [done|].
  res_total; auto.
Qed.

Lemma fire_join_total cx r scope join parent policy verdict waiting :
  fire_join cx r scope join parent policy verdict waiting <> Fuel.
Proof.
  unfold fire_join, closeBranches. pose proof cancel_pending_total. res_total; done.
Qed.

Lemma gatewayStep_total r : gatewayStep r <> Fuel.
Proof. unfold gatewayStep. by case_match. Qed.

Lemma route_branches_total r0 rt scope node bs r :
  respects frame rt -> answers_after r0 rt ->
  r_gatewaySteps r0 + 1 <= r_gatewaySteps r <= 256 -> route_branches rt scope node bs r <> Fuel.
Proof.
  intros Hrt Ha. revert r. induction bs as [|[id tr] bs IH]; intros r Hr; simpl; [done|].
  apply res_bind_not_Fuel; [by apply Ha|]. intros r' Hr'. apply IH.
  apply Hrt in Hr'. pose proof (fr_steps _ _ Hr'). pose proof (fr_cap _ _ Hr'). simpl in *. lia.
Qed.

Lemma split_total rt e cx db r tid node :
  respects frame rt -> answers_after r rt -> split_with rt e cx db r tid node <> Fuel.
Proof.
  intros Hrt Ha. unfold split_with. apply res_bind_not_Fuel; [apply gatewayStep_total|].
  intros r1 [-> Hcap]%gatewayStep_Ok. apply res_bind_not_Fuel; [auto with vogel|]. intros tok _.
  apply res_bind_not_Fuel; [apply split_taken_total|]. intros taken _.
  case_bool_decide; [done|]. destruct (draw_uuids _ _ _) as [r2 ids] eqn:E.
  apply (route_branches_total r); [done..|].
  pose proof (draw_uuids_rel frame _ _ _ _ _ E) as HF.
  match goal with |- _ <= r_gatewaySteps ?x <= _ => assert (frame r2 x) as HF2 end.
  { eapply (rr_step frame); [apply rr_add_scope|]. eapply (rr_step frame); [apply (run_end_rel frame)|].
    apply rr_emit. }
  pose proof (fr_steps _ _ HF). pose proof (fr_cap _ _ HF). pose proof (fr_steps _ _ HF2).
  pose proof (fr_cap _ _ HF2). simpl in *. lia.
Qed.

Lemma tryJoin_total rt e cx db r sid :
  answers_after r rt -> tryJoin_with rt e cx db r sid <> Fuel.
Proof.
  intros Ha. unfold tryJoin_with. pose proof tally_tokens_total.
  apply res_bind_not_Fuel; [auto with vogel|]. intros scope _. case_bool_decide; [done|].
  apply res_bind_not_Fuel; [auto|]. intros [waiting tally] _.
  destruct (round_closes _ _ _) as [closed verdict]. case_match; [done|].
  apply res_bind_not_Fuel; [apply gatewayStep_total|]. intros r1 [-> Hcap]%gatewayStep_Ok.
  case_match; [|done]. case_match; [done|]. case_match; [|done].
  apply res_bind_not_Fuel; [auto with vogel|]. intros parent _.
  apply res_bind_not_Fuel; [apply fire_join_total|]. intros [[[[r2 rec] next] seq] bs] Hf.
  apply res_bind_not_Fuel; [by repeat case_match|]. intros _ _. apply Ha.
  apply (fire_join_rel frame) in Hf. pose proof (fr_steps _ _ Hf). pose proof (fr_cap _ _ Hf).
  case_bool_decide; simpl in *; lia.
Qed.

Lemma arrive_total rt e cx db r tid node o :
  answers_after r rt -> arrive_with rt e cx db r tid node o <> Fuel.
Proof.
  intros Ha. unfold arrive_with. apply res_bind_not_Fuel; [auto with vogel|]. intros tok _.
  case_match; [|done]. case_bool_decide; [done|]. by apply tryJoin_total.
Qed.

Lemma route_enough_fuel fuel hops e cx db r tid tr comment :
  0 <= hops <= 32 -> r_gatewaySteps r <= 256 -> hops_left r hops < Z.of_nat fuel ->
  route fuel hops e cx db r tid tr comment <> Fuel.
Proof.
  revert hops r tid tr comment.
  induction fuel as [|fuel IH]; intros hops r tid tr comment Hh Hcap Hleft;
    [unfold hops_left in *; lia|].
  simpl. case_match; [|done]. apply res_bind_not_Fuel; [auto with vogel|]. intros tok _.
  match goal with |- context [touch tid ?x] => set (r1 := x) end.
  assert (Hs : r_gatewaySteps (touch tid r1) = r_gatewaySteps r)
    by (by destruct (touch_cases tid r1) as [-> | ->]).
  unfold hops_left in Hleft.
  assert (Ha : answers_after (touch tid r1) (fun r tid tr => route fuel 0 e cx db r tid tr "")).
  { intros r' tid' tr' Hr'. apply IH; unfold hops_left; lia. }
  assert (Hrt : respects frame (fun r tid tr => route fuel 0 e cx db r tid tr ""))
    by (intros r0 tid0 tr0 r0' Hr0; exact (route_rel frame _ _ _ _ _ _ _ _ _ _ Hr0)).
  case_bool_decide.
  { case_match eqn:Ehop; [done|]. apply Z.leb_gt in Ehop. unfold maxDecisionHops in Ehop.
    apply res_bind_not_Fuel; [auto with vogel|]. intros tok2 _.
    apply res_bind_not_Fuel; [apply resolveRoute_total|]. intros tr2 _.
    apply IH; unfold hops_left; lia. }
  case_match; [by apply split_total|].
  case_bool_decide; [by apply arrive_total|].
  case_match; [apply closeCase_total | apply rest_total].
Qed.

Lemma route_all_enough e cx db r tid tr comment :
  0 <= r_gatewaySteps r <= 256 -> route_all e cx db r tid tr comment <> Fuel.
Proof.
  intros Hr. unfold route_all. apply route_enough_fuel; [lia..|].
  unfold hops_left, routeFuel. lia.
Qed.

Lemma tryJoin_enough e cx db r sid :
  0 <= r_gatewaySteps r -> tryJoin e cx db r sid <> Fuel.
Proof.
  intros Hr. unfold tryJoin. apply tryJoin_total. intros r' tid tr Hr'.
  unfold route_from_join. apply route_all_enough. lia.
Qed.

End Termination.
