(* ===== verification/CaseInv.v ===== *)
(** The invariant of a case's tokens and scopes, and how each kind of change keeps
    it.  The changes are stated on the lists of tokens and scopes; [RunInv.v] shows
    that the steps of a run are made of them.

    Three parameters describe the moments inside a call: [pend s] branches of scope
    [s] are still to be emitted by the split distributing them, the token [hot] is
    being routed, and the round of scope [lax] is about to be tried.  Between calls
    all three are empty. *)

From stdpp Require Import base gmap sets list strings.
From Stdlib Require Import ZArith Lia.
From S2P Require Import Prelude GoStrings Errors Model Definitions.

Open Scope string_scope.
Open Scope Z_scope.

Definition scope_open (s : Scope) : bool := bool_decide (s_Status s = ScopeOpen).

(** The branches of scope [id] a token stands for: not yet answered by a nested
    block or a join. *)
Definition stands_in (id : uuid) (t : Token) : bool :=
  bool_decide (t_ScopeID t = id) && negb (bool_decide (t_Status t = TokenConsumed)).

Definition works_in (id : uuid) (t : Token) : bool :=
  bool_decide (t_ScopeID t = id) && bool_decide (t_Status t = TokenActive).

Definition open_child (id : uuid) (s : Scope) : bool :=
  bool_decide (s_ParentID s = Some id) && scope_open s.

Definition nbranch (T : list Token) (id : uuid) : nat := count (stands_in id) T.
Definition nactive (T : list Token) (id : uuid) : nat := count (works_in id) T.
Definition nchild (S : list Scope) (id : uuid) : nat := count (open_child id) S.

(** A node a token may rest on: a task node that does not end the case. *)
Definition rests (d : WDefinition) (node : string) : Prop :=
  exists n, Definition_Node d node = Some n /\ IsAutomatic (n_Kind n) = false
            /\ n_Terminal n = false.

Definition wf_root (cid : uuid) (isopen : bool) (S : list Scope) : Prop :=
  exists s, s ∈ S /\ s_ID s = cid /\ s_ParentID s = None /\ s_JoinNode s = ""
            /\ s_Expected s = 1 /\ scope_open s = isopen.

Definition wf_parent (cid : uuid) (S : list Scope) (s : Scope) : Prop :=
  s_ID s <> cid ->
  exists p, p ∈ S /\ s_ParentID s = Some (s_ID p) /\ s_OpenedSeq p < s_OpenedSeq s
            /\ (scope_open s = true -> scope_open p = true).

Definition wf_token (S : list Scope) (t : Token) : Prop :=
  exists s, s ∈ S /\ s_ID s = t_ScopeID t
            /\ (Live (t_Status t) = true -> scope_open s = true)
            /\ (t_Status t = TokenWaiting -> t_Node t = s_JoinNode s).

Record Inv (d : WDefinition) (cid : uuid) (isopen : bool) (pend : uuid -> nat)
    (hot lax : option uuid) (seq : Z) (T : list Token) (S : list Scope) : Prop := mkInv {
  inv_tokens : NoDup (t_ID <$> T);
  inv_scopes : NoDup (s_ID <$> S);
  inv_case : Forall (fun t => t_CaseID t = cid) T /\ Forall (fun s => s_CaseID s = cid) S;
  inv_root : wf_root cid isopen S;
  inv_parent : Forall (wf_parent cid S) S;
  inv_seq : Forall (fun s => s_OpenedSeq s <= seq) S;
  inv_token : Forall (wf_token S) T;
  inv_count : Forall (fun s => scope_open s = true ->
    s_Expected s = Z.of_nat (nbranch T (s_ID s) + nchild S (s_ID s) + pend (s_ID s))%nat) S;
  inv_busy : Forall (fun s => scope_open s = true -> lax <> Some (s_ID s) ->
    (0 < nactive T (s_ID s) + nchild S (s_ID s) + pend (s_ID s))%nat) S;
  inv_pend : forall id, (0 < pend id)%nat ->
    exists s, s ∈ S /\ s_ID s = id /\ scope_open s = true;
  inv_rest : Forall (fun t => t_Status t = TokenActive -> hot <> Some (t_ID t) ->
    rests d (t_Node t)) T }.

Arguments inv_tokens {d cid isopen pend hot lax seq T S} _.
Arguments inv_scopes {d cid isopen pend hot lax seq T S} _.
Arguments inv_case {d cid isopen pend hot lax seq T S} _.
Arguments inv_root {d cid isopen pend hot lax seq T S} _.
Arguments inv_parent {d cid isopen pend hot lax seq T S} _.
Arguments inv_seq {d cid isopen pend hot lax seq T S} _.
Arguments inv_token {d cid isopen pend hot lax seq T S} _.
Arguments inv_count {d cid isopen pend hot lax seq T S} _.
Arguments inv_busy {d cid isopen pend hot lax seq T S} _.
Arguments inv_pend {d cid isopen pend hot lax seq T S} _.
Arguments inv_rest {d cid isopen pend hot lax seq T S} _.

(** Nothing pending. *)
Definition none_pending : uuid -> nat := fun _ => 0%nat.

(** [pend] with [k] branches of [id] to emit. *)
Definition pend_at (id : uuid) (k : nat) (pend : uuid -> nat) : uuid -> nat :=
  fun x => if decide (x = id) then k else pend x.

(** ** Lists with one element changed *)

Lemma upd_by_perm {K A} `{EqDecision K} (key : A -> K) k l a :
  NoDup (key <$> l) -> find_by key k l = Some a ->
  exists l0, l ≡ₚ a :: l0 /\ (forall f, upd_by key k f l ≡ₚ f a :: l0)
             /\ (k ∉ key <$> l0).
Proof.
  intros ND Hf. destruct (find_by_split key k l a ND Hf) as (l1 & l2 & -> & Hk & Hu & Hn).
  exists (l1 ++ l2)%list. split_and!.
  - by rewrite Permutation_middle.
  - intros f. rewrite Hu. by rewrite Permutation_middle.
  - intros (b & -> & Hb)%list_elem_of_fmap. by eapply Hn.
Qed.

(** In a list without repeated keys one element has a given key. *)
Lemma count_key {K A} `{EqDecision K} (key : A -> K) (p : A -> bool) l a :
  NoDup (key <$> l) -> a ∈ l ->
  count (fun b => p b && bool_decide (key b = key a)) l = if p a then 1%nat else 0%nat.
Proof.
  induction l as [|b l IH]; intros ND Ha; [by apply not_elem_of_nil in Ha|].
  csimpl in *. apply NoDup_cons in ND as [Hb ND]. apply elem_of_cons in Ha as [->|Ha].
  - rewrite bool_decide_true, andb_true_r by done.
    rewrite (proj2 (count_0 _ l)); [lia|]. intros c Hc. apply andb_false_iff. right.
    apply bool_decide_eq_false. intros E. apply Hb. rewrite <- E. by apply list_elem_of_fmap_2.
  - rewrite IH by done. rewrite (bool_decide_false (key b = key a)), andb_false_r; [done|].
    intros E. apply Hb. rewrite E. by apply list_elem_of_fmap_2.
Qed.

Lemma NoDup_key_inj {K A} (key : A -> K) l a b :
  NoDup (key <$> l) -> a ∈ l -> b ∈ l -> key a = key b -> a = b.
Proof.
  induction l as [|c l IH]; intros ND Ha Hb E; [by apply not_elem_of_nil in Ha|].
  csimpl in *. apply NoDup_cons in ND as [Hc ND].
  apply elem_of_cons in Ha as [->|Ha]; apply elem_of_cons in Hb as [->|Hb]; try done.
  - destruct Hc. rewrite E. by apply list_elem_of_fmap_2.
  - destruct Hc. rewrite <- E. by apply list_elem_of_fmap_2.
  - auto.
Qed.

Lemma count_lt {A} (p q : A -> bool) l a :
  (forall b, b ∈ l -> p b = true -> q b = true) -> a ∈ l -> q a = true -> p a = false ->
  (count p l < count q l)%nat.
Proof.
  intros Hpq Ha Hq Hp. rewrite (count_split q p).
  assert (count (fun b => q b && p b) l = count p l) as ->.
  { apply count_ext. intros b Hb. destruct (p b) eqn:E; [by rewrite Hpq | apply andb_false_r]. }
  assert (0 < count (fun b => q b && negb (p b)) l)%nat; [|lia].
  apply count_pos. exists a. by rewrite Hq, Hp.
Qed.

(** The scopes opened before [s]. *)
Definition below (S : list Scope) (s : Scope) : nat :=
  count (fun x => s_OpenedSeq x <? s_OpenedSeq s) S.

Lemma below_lt S p s : p ∈ S -> s_OpenedSeq p < s_OpenedSeq s -> (below S p < below S s)%nat.
Proof.
  intros Hp Hlt. apply (count_lt _ _ _ p); [|done|by apply Z.ltb_lt|apply Z.ltb_irrefl].
  intros x _ Hx%Z.ltb_lt. apply Z.ltb_lt. lia.
Qed.

Section Facts.
Context {d : WDefinition} {cid : uuid}.
Implicit Types (T : list Token) (S : list Scope) (pend : uuid -> nat).

(** ** Reading the invariant *)

Lemma Inv_scope_eq {o pend hot lax seq T S} s s' :
  Inv d cid o pend hot lax seq T S -> s ∈ S -> s' ∈ S -> s_ID s = s_ID s' -> s = s'.
Proof. intros HI. apply NoDup_key_inj, (inv_scopes HI). Qed.

Lemma Inv_token_eq {o pend hot lax seq T S} t t' :
  Inv d cid o pend hot lax seq T S -> t ∈ T -> t' ∈ T -> t_ID t = t_ID t' -> t = t'.
Proof. intros HI. apply NoDup_key_inj, (inv_tokens HI). Qed.

Lemma Inv_parent {o pend hot lax seq T S} s :
  Inv d cid o pend hot lax seq T S -> s ∈ S -> s_ID s <> cid ->
  exists p, p ∈ S /\ s_ParentID s = Some (s_ID p) /\ s_OpenedSeq p < s_OpenedSeq s
            /\ (scope_open s = true -> scope_open p = true).
Proof. intros HI Hs. exact (proj1 (Forall_forall _ _) (inv_parent HI) s Hs). Qed.

Lemma Inv_token {o pend hot lax seq T S} t :
  Inv d cid o pend hot lax seq T S -> t ∈ T -> wf_token S t.
Proof. intros HI Ht. exact (proj1 (Forall_forall _ _) (inv_token HI) t Ht). Qed.

Lemma Inv_count {o pend hot lax seq T S} s :
  Inv d cid o pend hot lax seq T S -> s ∈ S -> scope_open s = true ->
  s_Expected s = Z.of_nat (nbranch T (s_ID s) + nchild S (s_ID s) + pend (s_ID s))%nat.
Proof. intros HI Hs. exact (proj1 (Forall_forall _ _) (inv_count HI) s Hs). Qed.

Lemma Inv_busy {o pend hot lax seq T S} s :
  Inv d cid o pend hot lax seq T S -> s ∈ S -> scope_open s = true -> lax <> Some (s_ID s) ->
  (0 < nactive T (s_ID s) + nchild S (s_ID s) + pend (s_ID s))%nat.
Proof. intros HI Hs. exact (proj1 (Forall_forall _ _) (inv_busy HI) s Hs). Qed.

(** A property of open scopes that passes from parents to children holds of all of
    them when it holds of the root. *)
Lemma open_scope_ind {o pend hot lax seq T S} (P : Scope -> Prop) :
  Inv d cid o pend hot lax seq T S ->
  (forall s, s ∈ S -> scope_open s = true -> s_ID s = cid -> P s) ->
  (forall s p, s ∈ S -> p ∈ S -> scope_open s = true -> scope_open p = true ->
     s_ParentID s = Some (s_ID p) -> s_OpenedSeq p < s_OpenedSeq s -> P p -> P s) ->
  forall s, s ∈ S -> scope_open s = true -> P s.
Proof.
  intros HI Hroot Hstep s Hs Ho.
  remember (below S s) as n eqn:En.
  revert s Hs Ho En. induction n as [n IH] using lt_wf_ind. intros s Hs Ho ->.
  destruct (decide (s_ID s = cid)) as [E|E]; [by apply Hroot|].
  destruct (Inv_parent s HI Hs E) as (p & Hp & Ep & Hlt & Hop).
  apply (Hstep s p); auto. eapply IH; [|exact Hp|auto|reflexivity]. by apply below_lt.
Qed.

(** A case that is not open has no open scope, and no live token. *)
Lemma Inv_closed_scopes {pend hot lax seq T S} s :
  Inv d cid false pend hot lax seq T S -> s ∈ S -> scope_open s = false.
Proof.
  intros HI Hs. destruct (scope_open s) eqn:Ho; [|done]. exfalso. revert s Hs Ho.
  apply (open_scope_ind (fun _ => False) HI); [|done].
  intros s Hs Ho E. destruct (inv_root HI) as (s0 & H0 & E0 & _ & _ & _ & Ho0).
  rewrite (Inv_scope_eq s s0 HI) in Ho; congruence.
Qed.

Lemma Inv_closed_tokens {pend hot lax seq T S} t :
  Inv d cid false pend hot lax seq T S -> t ∈ T -> Live (t_Status t) = false.
Proof.
  intros HI Ht. destruct (Inv_token t HI Ht) as (s & Hs & _ & Hl & _).
  destruct (Live (t_Status t)); [|done]. pose proof (Inv_closed_scopes s HI Hs).
  specialize (Hl eq_refl). congruence.
Qed.

(** ** Changes that keep it *)

Lemma Inv_perm {o pend hot lax seq T T' S S'} :
  T ≡ₚ T' -> S ≡ₚ S' -> Inv d cid o pend hot lax seq T S -> Inv d cid o pend hot lax seq T' S'.
Proof.
  intros HT HS HI.
  assert (HnB : forall id, nbranch T' id = nbranch T id) by (intros; by apply count_Permutation).
  assert (HnA : forall id, nactive T' id = nactive T id) by (intros; by apply count_Permutation).
  assert (HnC : forall id, nchild S' id = nchild S id) by (intros; by apply count_Permutation).
  constructor.
  - rewrite <- HT. apply (inv_tokens HI).
  - rewrite <- HS. apply (inv_scopes HI).
  - rewrite <- HT, <- HS. apply (inv_case HI).
  - destruct (inv_root HI) as (s & Hs & Hr). exists s. by rewrite <- HS.
  - apply Forall_forall. intros s Hs E. rewrite <- HS in Hs.
    destruct (Inv_parent s HI Hs E) as (p & Hin & Hr). exists p. by rewrite <- HS.
  - rewrite <- HS. apply (inv_seq HI).
  - apply Forall_forall. intros t Ht. rewrite <- HT in Ht.
    destruct (Inv_token t HI Ht) as (s & Hin & Hr). exists s. by rewrite <- HS.
  - apply Forall_forall. intros s Hs. rewrite <- HS in Hs. rewrite HnB, HnC. by apply (Inv_count s HI).
  - apply Forall_forall. intros s Hs. rewrite <- HS in Hs. rewrite HnA, HnC. by apply (Inv_busy s HI).
  - intros id Hid. destruct (inv_pend HI id Hid) as (s & Hs & Hr). exists s. by rewrite <- HS.
  - rewrite <- HT. apply (inv_rest HI).
Qed.

Lemma Inv_weaken {o pend pend' hot lax seq seq' T S} :
  (forall id, pend' id = pend id) -> seq <= seq' ->
  Inv d cid o pend hot lax seq T S -> Inv d cid o pend' hot lax seq' T S.
Proof.
  intros Hp Hseq []. constructor; auto.
  - eapply Forall_impl; [exact inv_seq0|]. simpl. lia.
  - eapply Forall_impl; [exact inv_count0|]. intros s. by rewrite Hp.
  - eapply Forall_impl; [exact inv_busy0|]. intros s. by rewrite Hp.
  - intros id. rewrite Hp. auto.
Qed.

(** The round of [id] was tried and stays open because somebody still works in it. *)
Lemma Inv_unlax {o pend hot id seq T S} :
  Inv d cid o pend hot (Some id) seq T S ->
  (forall s, s ∈ S -> s_ID s = id -> scope_open s = true ->
     (0 < nactive T id + nchild S id + pend id)%nat) ->
  Inv d cid o pend hot None seq T S.
Proof.
  intros HI Hb. destruct HI. constructor; auto.
  rewrite Forall_forall in *. intros s Hs Ho _.
  destruct (decide (s_ID s = id)) as [E|E].
  - rewrite E. by apply (Hb s).
  - apply inv_busy0; auto. congruence.
Qed.

(** One token changes its node or its status, in its scope. *)
Lemma Inv_replace {o pend hot hot' lax lax' seq T S t t'} :
  Inv d cid o pend hot lax seq (t :: T) S ->
  t_ID t' = t_ID t -> t_CaseID t' = t_CaseID t -> t_ScopeID t' = t_ScopeID t ->
  hot = None \/ hot = Some (t_ID t) ->
  (lax' = lax /\ (t_Status t' = TokenActive <-> t_Status t = TokenActive))
    \/ (lax' = Some (t_ScopeID t) /\ lax = None) ->
  (t_Status t' = TokenConsumed <-> t_Status t = TokenConsumed) ->
  wf_token S t' ->
  (t_Status t' = TokenActive -> hot' <> Some (t_ID t) -> rests d (t_Node t')) ->
  Inv d cid o pend hot' lax' seq (t' :: T) S.
Proof.
  intros HI Eid Ecase Escope Hhot Hlax Hcons Hwf Hrest.
  assert (HnB : forall id, nbranch (t' :: T) id = nbranch (t :: T) id).
  { intros id. unfold nbranch. csimpl. f_equal. unfold stands_in. rewrite Escope.
    by rewrite (bool_decide_ext _ _ Hcons). }
  destruct HI. constructor; auto.
  - csimpl in *. by rewrite Eid.
  - destruct inv_case0 as [HT HS]. split; [|done].
    apply Forall_cons in HT as [? ?]. apply Forall_cons. split; [congruence | done].
  - apply Forall_cons in inv_token0 as [_ ?]. by apply Forall_cons.
  - eapply Forall_impl; [exact inv_count0|]. intros s. by rewrite HnB.
  - eapply Forall_impl; [exact inv_busy0|]. simpl. intros s Hb Ho Hne.
    destruct Hlax as [[-> Hact]|[-> ->]].
    + specialize (Hb Ho Hne). unfold nactive in *. csimpl in *. unfold works_in in *.
      by rewrite Escope, (bool_decide_ext _ _ Hact).
    + specialize (Hb Ho ltac:(done)). unfold nactive in *. csimpl in *. unfold works_in in *.
      rewrite (bool_decide_false (t_ScopeID t = s_ID s)) in Hb by congruence.
      rewrite Escope, (bool_decide_false (t_ScopeID t = s_ID s)) by congruence. done.
  - apply Forall_cons in inv_rest0 as [_ Hr]. apply Forall_cons.
    split; [by rewrite Eid|]. rewrite Forall_forall in *. intros x Hx Hact Hne.
    apply Hr; [done..|]. destruct Hhot as [->| ->]; [done|]. intros [= E].
    csimpl in inv_tokens0. apply NoDup_cons in inv_tokens0 as [Hn _]. apply Hn.
    rewrite E. by apply list_elem_of_fmap_2.
Qed.

Lemma Inv_no_pend {o pend hot lax seq T S} id :
  Inv d cid o pend hot lax seq T S -> (id ∉ s_ID <$> S) -> pend id = 0%nat.
Proof.
  intros HI Hid. destruct (pend id) eqn:E; [done|].
  destruct (inv_pend HI id ltac:(lia)) as (s & Hs & <- & _).
  destruct Hid. by apply list_elem_of_fmap_2.
Qed.

Lemma Inv_no_tokens {o pend hot lax seq T S} (p : uuid -> Token -> bool) id :
  Inv d cid o pend hot lax seq T S -> (id ∉ s_ID <$> S) ->
  (forall t, p id t = true -> t_ScopeID t = id) -> count (p id) T = 0%nat.
Proof.
  intros HI Hid Hp. apply count_0. intros t Ht. destruct (p id t) eqn:E; [|done].
  destruct (Inv_token t HI Ht) as (s & Hs & Es & _). destruct Hid.
  rewrite <- (Hp t E), <- Es. by apply list_elem_of_fmap_2.
Qed.

Lemma Inv_no_children {o pend hot lax seq T S} id :
  Inv d cid o pend hot lax seq T S -> (id ∉ s_ID <$> S) -> nchild S id = 0%nat.
Proof.
  intros HI Hid. apply count_0. intros s Hs. unfold open_child. apply andb_false_iff. left.
  apply bool_decide_eq_false. intros Ep. destruct (decide (s_ID s = cid)) as [E|E].
  - destruct (inv_root HI) as (s0 & H0 & E0 & P0 & _).
    rewrite (Inv_scope_eq s s0 HI) in Ep; congruence.
  - destruct (Inv_parent s HI Hs E) as (p & Hp & Ep' & _). destruct Hid.
    assert (id = s_ID p) as -> by congruence. by apply list_elem_of_fmap_2.
Qed.

Lemma stands_in_scope id t : stands_in id t = true -> t_ScopeID t = id.
Proof. unfold stands_in. intros [H _]%andb_true_iff. by apply bool_decide_eq_true in H. Qed.

Lemma works_in_scope id t : works_in id t = true -> t_ScopeID t = id.
Proof. unfold works_in. intros [H _]%andb_true_iff. by apply bool_decide_eq_true in H. Qed.

(** A split consumes the token being routed and opens a scope of [k] branches. *)
Lemma Inv_split {o pend seq seq' T S t t' sc k} :
  Inv d cid o pend (Some (t_ID t)) None seq (t :: T) S ->
  t_Status t = TokenActive ->
  t_ID t' = t_ID t -> t_CaseID t' = t_CaseID t -> t_ScopeID t' = t_ScopeID t ->
  t_Status t' = TokenConsumed ->
  (s_ID sc ∉ s_ID <$> S) -> s_CaseID sc = cid -> s_ParentID sc = Some (t_ScopeID t) ->
  scope_open sc = true -> s_Expected sc = Z.of_nat k -> (0 < k)%nat ->
  seq < s_OpenedSeq sc <= seq' ->
  Inv d cid o (pend_at (s_ID sc) k pend) None None seq' (t' :: T) (sc :: S).
Proof.
  intros HI Hact Eid Ecase Escope Hcons Hfresh Hsc Hpar Hopen Hexp Hk Hseq.
  pose proof (Inv_no_pend _ HI Hfresh) as Hpend.
  pose proof (Inv_no_tokens stands_in _ HI Hfresh (stands_in_scope _)) as HnB0.
  pose proof (Inv_no_tokens works_in _ HI Hfresh (works_in_scope _)) as HnA0.
  pose proof (Inv_no_children _ HI Hfresh) as HnC0.
  destruct (Inv_token t HI (list_elem_of_here _ _)) as (ps & Hps & Eps & Hlive & _).
  rewrite Hact in Hlive. specialize (Hlive eq_refl).
  pose proof (proj1 (Forall_forall _ _) (inv_seq HI) ps Hps) as Hpseq. simpl in Hpseq.
  assert (Hfr : forall s, s ∈ S -> s_ID s <> s_ID sc)
    by (intros s Hs E; apply Hfresh; rewrite <- E; by apply list_elem_of_fmap_2).
  assert (HnB : forall id,
    (nbranch (t' :: T) id + (if decide (id = t_ScopeID t) then 1 else 0))%nat
    = nbranch (t :: T) id).
  { intros id. unfold nbranch. csimpl. unfold stands_in. rewrite Escope, Hcons, Hact. simpl.
    case_bool_decide; case_decide; simpl; try congruence; lia. }
  assert (HnC : forall id, nchild (sc :: S) id
                           = (nchild S id + (if decide (id = t_ScopeID t) then 1 else 0))%nat).
  { intros id. unfold nchild. csimpl. unfold open_child at 1. rewrite Hpar, Hopen.
    case_bool_decide; case_decide; simpl; try congruence; lia. }
  assert (HnA : forall id, id <> t_ScopeID t -> nactive (t' :: T) id = nactive (t :: T) id).
  { intros id Hid. unfold nactive. csimpl. unfold works_in. rewrite Escope.
    by rewrite bool_decide_false. }
  assert (Hscp : s_ID sc <> t_ScopeID t) by (rewrite <- Eps; by apply not_eq_sym, Hfr).
  constructor.
  - csimpl. rewrite Eid. apply (inv_tokens HI).
  - csimpl. apply NoDup_cons. split; [done | apply (inv_scopes HI)].
  - destruct (inv_case HI) as [HT HS]. apply Forall_cons in HT as [? ?].
    split; apply Forall_cons; split; auto; congruence.
  - destruct (inv_root HI) as (s & Hs & Hr). exists s. split; [by apply list_elem_of_further | done].
  - apply Forall_cons. split.
    + intros _. exists ps. split; [by apply list_elem_of_further|].
      split; [congruence|]. split; [lia | done].
    + eapply Forall_impl; [apply (inv_parent HI)|]. intros s Hp E.
      destruct (Hp E) as (p & Hin & Hr). exists p. split; [by apply list_elem_of_further | done].
  - apply Forall_cons. split; [lia|]. eapply Forall_impl; [apply (inv_seq HI)|]. simpl. lia.
  - pose proof (inv_token HI) as HT. apply Forall_cons in HT as [_ HT]. apply Forall_cons. split.
    + exists ps. rewrite Escope, Hcons. split_and!; [by apply list_elem_of_further | done | simpl; discriminate | discriminate].
    + eapply Forall_impl; [exact HT|]. intros x (s & Hin & Hr). exists s.
      split; [by apply list_elem_of_further | done].
  - apply Forall_cons. split.
    + intros _. rewrite Hexp, HnC. unfold pend_at. rewrite decide_False by done.
      rewrite decide_True by done. f_equal. unfold nbranch in HnB. specialize (HnB (s_ID sc)).
      rewrite decide_False in HnB by done. unfold nbranch. csimpl in *. lia.
    + apply Forall_forall. intros s Hs Ho. rewrite (Inv_count s HI Hs Ho). f_equal.
      unfold pend_at. rewrite decide_False by auto. rewrite HnC. specialize (HnB (s_ID s)). lia.
  - apply Forall_cons. split.
    + intros _ _. unfold pend_at. rewrite decide_True by done. lia.
    + apply Forall_forall. intros s Hs Ho _. unfold pend_at. rewrite decide_False by auto.
      rewrite HnC. case_decide as E; [lia|]. rewrite HnA by done.
      pose proof (Inv_busy s HI Hs Ho ltac:(done)). lia.
  - intros id. unfold pend_at. case_decide as E.
    + intros _. exists sc. split; [apply list_elem_of_here | done].
    + intros Hid. destruct (inv_pend HI id Hid) as (s & Hs & Hr). exists s.
      split; [by apply list_elem_of_further | done].
  - pose proof (inv_rest HI) as HR. apply Forall_cons in HR as [_ HR].
    apply Forall_cons. split; [congruence|]. apply Forall_forall. intros x Hx Hxa _.
    apply (proj1 (Forall_forall _ _) HR x Hx Hxa). intros [= E].
    pose proof (inv_tokens HI) as ND. csimpl in ND. apply NoDup_cons in ND as [Hn _]. apply Hn.
    rewrite E. by apply list_elem_of_fmap_2.
Qed.

(** The next branch of scope [sid] gets its token. *)
Lemma Inv_branch {o pend sid k seq T S t} :
  Inv d cid o (pend_at sid (Datatypes.S k) pend) None None seq T S ->
  t_Status t = TokenActive -> t_ScopeID t = sid -> t_CaseID t = cid ->
  (t_ID t ∉ t_ID <$> T) ->
  Inv d cid o (pend_at sid k pend) (Some (t_ID t)) None seq (t :: T) S.
Proof.
  intros HI Hact Escope Ecase Hfresh.
  destruct (inv_pend HI sid) as (sc & Hsc & Esc & Hopen).
  { unfold pend_at. rewrite decide_True by done. lia. }
  assert (HnB : forall id, nbranch (t :: T) id
                           = ((if decide (id = sid) then 1 else 0) + nbranch T id)%nat).
  { intros id. unfold nbranch. csimpl. unfold stands_in at 1. rewrite Escope, Hact.
    case_bool_decide; case_decide; simpl; congruence. }
  assert (HnA : forall id, nactive (t :: T) id
                           = ((if decide (id = sid) then 1 else 0) + nactive T id)%nat).
  { intros id. unfold nactive. csimpl. unfold works_in at 1. rewrite Escope, Hact.
    case_bool_decide; case_decide; simpl; congruence. }
  destruct HI. constructor; auto.
  - csimpl. by apply NoDup_cons.
  - destruct inv_case0. by split; [apply Forall_cons|].
  - apply Forall_cons. split; [|done]. exists sc. rewrite Hact. split_and!; [done | congruence | done | discriminate].
  - eapply Forall_impl; [exact inv_count0|]. intros s Hc Ho. rewrite (Hc Ho), HnB.
    unfold pend_at. case_decide; f_equal; lia.
  - eapply Forall_impl; [exact inv_busy0|]. intros s Hb Ho Hne. specialize (Hb Ho Hne).
    rewrite HnA. unfold pend_at in *. case_decide; lia.
  - intros id. unfold pend_at. case_decide as E; [|intros Hid; apply inv_pend0; unfold pend_at; by rewrite decide_False].
    intros _. exists sc. by subst.
  - apply Forall_cons. split; [done|]. eapply Forall_impl; [exact inv_rest0|]. simpl. intros x Hx Ha _.
    by apply Hx.
Qed.

(** A change of tokens, and one of scopes, that keeps their identities. *)
Definition keeps_tokens (g : Token -> Token) (T : list Token) : Prop :=
  forall t, t ∈ T -> t_ID (g t) = t_ID t /\ t_CaseID (g t) = t_CaseID t
                     /\ t_ScopeID (g t) = t_ScopeID t.

Definition keeps_scopes (h : Scope -> Scope) (S : list Scope) : Prop :=
  forall s, s ∈ S -> s_ID (h s) = s_ID s /\ s_CaseID (h s) = s_CaseID s
    /\ s_ParentID (h s) = s_ParentID s /\ s_SplitNode (h s) = s_SplitNode s
    /\ s_JoinNode (h s) = s_JoinNode s
    /\ s_Expected (h s) = s_Expected s /\ s_OpenedSeq (h s) = s_OpenedSeq s.

Lemma fmap_same_keys {A K} (key : A -> K) (f : A -> A) (l : list A) :
  (forall a, a ∈ l -> key (f a) = key a) -> key <$> (f <$> l) = key <$> l.
Proof.
  intros Hf. rewrite <- list_fmap_compose. apply list_fmap_ext. intros i a Ha. csimpl.
  apply Hf. by eapply list_elem_of_lookup_2.
Qed.

Lemma keeps_tokens_ids g T : keeps_tokens g T -> t_ID <$> (g <$> T) = t_ID <$> T.
Proof. intros Hg. apply fmap_same_keys. intros t Ht. by apply Hg. Qed.

Lemma keeps_scopes_ids h S : keeps_scopes h S -> s_ID <$> (h <$> S) = s_ID <$> S.
Proof. intros Hh. apply fmap_same_keys. intros s Hs. by apply Hh. Qed.

(** The parts of the invariant that only speak of identities and of who is live. *)
Lemma Inv_map_static {o o' pend hot lax seq T S g h} :
  Inv d cid o pend hot lax seq T S -> keeps_tokens g T -> keeps_scopes h S ->
  (forall s, s ∈ S -> s_ID s = cid -> scope_open (h s) = o') ->
  (forall s p, s ∈ S -> p ∈ S -> s_ParentID s = Some (s_ID p) -> scope_open (h s) = true ->
     scope_open (h p) = true) ->
  (forall t s, t ∈ T -> s ∈ S -> s_ID s = t_ScopeID t -> Live (t_Status (g t)) = true ->
     scope_open (h s) = true /\ (t_Status (g t) = TokenWaiting -> t_Node (g t) = s_JoinNode s)) ->
  (Forall (fun t => t_CaseID t = cid) (g <$> T) /\ Forall (fun s => s_CaseID s = cid) (h <$> S))
  /\ wf_root cid o' (h <$> S) /\ Forall (wf_parent cid (h <$> S)) (h <$> S)
  /\ Forall (fun s => s_OpenedSeq s <= seq) (h <$> S) /\ Forall (wf_token (h <$> S)) (g <$> T).
Proof.
  intros HI Hg Hh Hroot Hpar Htok. split_and!.
  - apply Forall_fmap, Forall_forall. intros t Ht. csimpl. rewrite (proj1 (proj2 (Hg t Ht))).
    by apply (proj1 (Forall_forall _ _) (proj1 (inv_case HI))).
  - apply Forall_fmap, Forall_forall. intros s Hs. csimpl. rewrite (proj1 (proj2 (Hh s Hs))).
    by apply (proj1 (Forall_forall _ _) (proj2 (inv_case HI))).
  - destruct (inv_root HI) as (s & Hs & E & Hp & Hj & He & _).
    destruct (Hh s Hs) as (H1 & H2 & H3 & H4 & H5 & H6 & H7). exists (h s).
    rewrite H1, H3, H5, H6. split_and!; auto using list_elem_of_fmap_2.
  - apply Forall_fmap, Forall_forall. intros s Hs. intros E. csimpl in *.
    destruct (Hh s Hs) as (H1 & H2 & H3 & H4 & H5 & H6 & H7). rewrite H1 in E.
    destruct (Inv_parent s HI Hs E) as (p & Hp & Ep & Hlt & _).
    destruct (Hh p Hp) as (H1' & H2' & H3' & H4' & H5' & H6' & H7'). exists (h p).
    rewrite H1', H3, H7, H7'. split_and!; auto using list_elem_of_fmap_2. by apply Hpar.
  - apply Forall_fmap, Forall_forall. intros s Hs. csimpl.
    destruct (Hh s Hs) as (H1 & H2 & H3 & H4 & H5 & H6 & ->).
    by apply (proj1 (Forall_forall _ _) (inv_seq HI)).
  - apply Forall_fmap, Forall_forall. intros t Ht. csimpl.
    destruct (Inv_token t HI Ht) as (s & Hs & E & _). destruct (Hg t Ht) as (_ & _ & G3).
    destruct (Hh s Hs) as (H1 & H2 & H3 & H4 & H5 & H6 & H7). exists (h s).
    rewrite H1, G3, H5. split_and!; auto using list_elem_of_fmap_2.
    + intros Hl. by apply (Htok t s).
    + intros Hw. apply (Htok t s); auto. by rewrite Hw.
Qed.

(** The round of [sid] closes: the scopes [closed] and their tokens end, and one
    token continues in the parent scope [pid]. *)
Section Fire.
Context {o : bool} {pend : uuid -> nat} {seq : Z} {T : list Token} {S : list Scope}.
Context {sc : Scope} {pid : uuid} {closed : uuid -> bool} {g : Token -> Token} {h : Scope -> Scope}.
Context {next : Token}.
Context (HI : Inv d cid o pend None (Some (s_ID sc)) seq T S).
Context (Hsc : sc ∈ S) (Hopen : scope_open sc = true) (Hpid : s_ParentID sc = Some pid).
Context (Hclosed : closed (s_ID sc) = true).
Context (Hdown : forall s q, s ∈ S -> scope_open s = true -> s_ParentID s = Some q ->
  closed q = true -> closed (s_ID s) = true).
Context (Hup : forall s, s ∈ S -> closed (s_ID s) = true -> s_ID s <> s_ID sc ->
  exists q, s_ParentID s = Some q /\ closed q = true).
Context (Hpar : closed pid = false) (Hnopend : forall id, closed id = true -> pend id = 0%nat).
Context (Hg : keeps_tokens g T) (Hh : keeps_scopes h S).
Context (Hgc : forall t, t ∈ T -> closed (t_ScopeID t) = true -> Live (t_Status (g t)) = false).
Context (Hgo : forall t, t ∈ T -> closed (t_ScopeID t) = false -> g t = t).
Context (Hhc : forall s, s ∈ S -> closed (s_ID s) = true -> scope_open (h s) = false).
Context (Hho : forall s, s ∈ S -> closed (s_ID s) = false -> h s = s).
Context (Hnext : t_Status next = TokenActive /\ t_ScopeID next = pid /\ t_CaseID next = cid).
Context (Hfresh : t_ID next ∉ t_ID <$> T).

Lemma fire_root_open : closed cid = false.
Proof.
  destruct (closed cid) eqn:E; [|done]. destruct (inv_root HI) as (s & Hs & Es & Hp & _).
  rewrite <- Es in E. destruct (decide (s_ID s = s_ID sc)) as [Eq|Eq].
  - rewrite (Inv_scope_eq s sc HI Hs Hsc Eq) in Hp. congruence.
  - destruct (Hup s Hs E Eq) as (q & Hq & _). congruence.
Qed.

Lemma fire_still_open s : s ∈ S -> scope_open (h s) = true -> closed (s_ID s) = false /\ h s = s.
Proof.
  intros Hs Ho. destruct (closed (s_ID s)) eqn:E; [|auto]. rewrite Hhc in Ho; done.
Qed.

Lemma fire_nbranch id : closed id = false ->
  nbranch (next :: (g <$> T)) id = ((if decide (id = pid) then 1 else 0) + nbranch T id)%nat.
Proof.
  intros Hc. destruct Hnext as (Ha & Hs & _). unfold nbranch. csimpl. f_equal.
  - unfold stands_in. rewrite Hs, Ha. case_bool_decide; case_decide; simpl; congruence.
  - apply count_map_ext. intros t Ht. unfold stands_in.
    rewrite (proj2 (proj2 (Hg t Ht))). case_bool_decide as E; [|done]. rewrite Hgo; congruence.
Qed.

Lemma fire_nactive id : closed id = false ->
  nactive (next :: (g <$> T)) id = ((if decide (id = pid) then 1 else 0) + nactive T id)%nat.
Proof.
  intros Hc. destruct Hnext as (Ha & Hs & _). unfold nactive. csimpl. f_equal.
  - unfold works_in. rewrite Hs, Ha. case_bool_decide; case_decide; simpl; congruence.
  - apply count_map_ext. intros t Ht. unfold works_in.
    rewrite (proj2 (proj2 (Hg t Ht))). case_bool_decide as E; [|done]. rewrite Hgo; congruence.
Qed.

Lemma fire_nchild id : closed id = false ->
  (nchild (h <$> S) id + (if decide (id = pid) then 1 else 0))%nat = nchild S id.
Proof.
  intros Hc. unfold nchild.
  rewrite (count_split (open_child id) (fun s => bool_decide (s_ID s = s_ID sc)) S).
  rewrite (count_key s_ID (open_child id) S sc (inv_scopes HI) Hsc).
  unfold open_child at 2. rewrite Hpid, Hopen, andb_true_r. rewrite Nat.add_comm. f_equal.
  - case_decide; case_bool_decide; simpl; congruence.
  - clear Hsc. assert (Hall : forall s, s ∈ S -> s ∈ S) by done. revert Hall.
    generalize S at 1 3 4 as l. induction l as [|s l IH]; intros Hall; csimpl; [done|].
    rewrite IH by (intros; apply Hall; by apply list_elem_of_further). f_equal.
    specialize (Hall s (list_elem_of_here _ _)).
    destruct (Hh s Hall) as (_ & _ & Hp & _). unfold open_child. rewrite Hp.
    case_bool_decide as E; simpl; [|done].
    destruct (closed (s_ID s)) eqn:Ec.
    + rewrite Hhc by done. destruct (decide (s_ID s = s_ID sc)) as [Eq|Eq].
      * rewrite bool_decide_true by done. by rewrite andb_false_r.
      * destruct (Hup s Hall Ec Eq) as (q & Hq & Hqc). congruence.
    + rewrite Hho by done. rewrite (bool_decide_false (s_ID s = s_ID sc)) by congruence.
      by rewrite andb_true_r.
Qed.

Lemma Inv_fire : Inv d cid o pend (Some (t_ID next)) None seq (next :: (g <$> T)) (h <$> S).
Proof.
  destruct (Inv_map_static (o' := o) HI Hg Hh) as ((HC1 & HC2) & HR & HP & HSq & HT).
  { intros s Hs E. destruct (inv_root HI) as (s0 & H0 & E0 & _ & _ & _ & Ho).
    rewrite (Inv_scope_eq s s0 HI) by congruence.
    rewrite Hho; [done..|]. rewrite E0. apply fire_root_open. }
  { intros s p Hs Hp Eq Ho. destruct (fire_still_open s Hs Ho) as [Hc Es]. rewrite Es in Ho.
    assert (closed (s_ID p) = false) as Hcp.
    { destruct (closed (s_ID p)) eqn:E; [|done]. rewrite (Hdown s (s_ID p)) in Hc; done. }
    rewrite Hho by done. destruct (Inv_parent s HI Hs) as (p' & Hp' & Ep' & _ & Hpo).
    { intros E. destruct (inv_root HI) as (s0 & H0 & E0 & P0 & _).
      rewrite (Inv_scope_eq s s0 HI) in Eq; congruence. }
    rewrite (Inv_scope_eq p p' HI) by congruence. auto. }
  { intros t s Ht Hs E Hl. assert (closed (t_ScopeID t) = false) as Hc.
    { destruct (closed (t_ScopeID t)) eqn:Ec; [|done]. rewrite Hgc in Hl; done. }
    rewrite Hgo in * by done. rewrite Hho by congruence.
    destruct (Inv_token t HI Ht) as (s' & Hs' & E' & Hl' & Hw').
    rewrite (Inv_scope_eq s s' HI) by congruence. auto. }
  constructor; auto.
  - csimpl. rewrite (keeps_tokens_ids _ _ Hg). apply NoDup_cons. split; [done | apply (inv_tokens HI)].
  - rewrite (keeps_scopes_ids _ _ Hh). apply (inv_scopes HI).
  - split; [|done]. apply Forall_cons. split; [apply Hnext | done].
  - apply Forall_cons. split; [|done]. destruct Hnext as (Ha & Hs & _).
    destruct (Inv_parent sc HI Hsc) as (p & Hp & Ep & _ & Hpo).
    { intros E. rewrite E in Hclosed. by rewrite fire_root_open in Hclosed. }
    exists p. rewrite Ha, Hs. rewrite Hpid in Ep. injection Ep as Ep. split_and!; auto; [|done].
    apply list_elem_of_fmap. exists p. split; [|done]. symmetry. apply Hho; congruence.
  - apply Forall_fmap, Forall_forall. intros s Hs Ho. csimpl in *.
    destruct (fire_still_open s Hs Ho) as [Hc Es]. rewrite Es in *.
    rewrite (Inv_count s HI Hs Ho), fire_nbranch, <- fire_nchild by done. f_equal. lia.
  - apply Forall_fmap, Forall_forall. intros s Hs Ho _. csimpl in *.
    destruct (fire_still_open s Hs Ho) as [Hc Es]. rewrite Es in *.
    rewrite fire_nactive by done. case_decide as E; [lia|].
    pose proof (Inv_busy s HI Hs Ho ltac:(congruence)) as Hb.
    rewrite <- (fire_nchild _ Hc) in Hb. rewrite decide_False in Hb by done. lia.
  - intros id Hid. destruct (inv_pend HI id Hid) as (s & Hs & E & Ho). exists s.
    split; [|done]. apply list_elem_of_fmap. exists s. split; [|done]. symmetry. apply Hho; [done|].
    destruct (closed (s_ID s)) eqn:Ec; [|done]. apply Hnopend in Ec. rewrite E in Ec. lia.
  - apply Forall_cons. split; [done|]. apply Forall_fmap, Forall_forall. intros t Ht Ha _. csimpl in *.
    assert (closed (t_ScopeID t) = false) as Hc.
    { destruct (closed (t_ScopeID t)) eqn:Ec; [|done]. pose proof (Hgc t Ht Ec). by rewrite Ha in *. }
    rewrite Hgo in * by done. by apply (proj1 (Forall_forall _ _) (inv_rest HI) t Ht).
Qed.

End Fire.

(** Everything ends: the case closed, or was cancelled. *)
Lemma Inv_shut {o pend hot lax seq T S g h} :
  Inv d cid o pend hot lax seq T S -> keeps_tokens g T -> keeps_scopes h S ->
  (forall t, t ∈ T -> Live (t_Status (g t)) = false) ->
  (forall s, s ∈ S -> scope_open (h s) = false) ->
  Inv d cid false none_pending None None seq (g <$> T) (h <$> S).
Proof.
  intros HI Hg Hh Ht Hs.
  destruct (Inv_map_static (o' := false) HI Hg Hh) as (HC & HR & HP & HSq & HT).
  { auto. }
  { intros s p Hin _ _ Ho. by rewrite Hs in Ho. }
  { intros t s Hin _ _ Hl. by rewrite Ht in Hl. }
  constructor; auto.
  - rewrite (keeps_tokens_ids _ _ Hg). apply (inv_tokens HI).
  - rewrite (keeps_scopes_ids _ _ Hh). apply (inv_scopes HI).
  - apply Forall_fmap, Forall_forall. intros s Hin Ho. csimpl in *. by rewrite Hs in Ho.
  - apply Forall_fmap, Forall_forall. intros s Hin Ho. csimpl in *. by rewrite Hs in Ho.
  - unfold none_pending. lia.
  - apply Forall_fmap, Forall_forall. intros t Hin Ha. csimpl in *.
    pose proof (Ht t Hin) as Hl. by rewrite Ha in Hl.
Qed.

Lemma count_two {A} (p : A -> bool) l a b :
  (count p l <= 1)%nat -> a ∈ l -> b ∈ l -> p a = true -> p b = true -> a = b.
Proof.
  induction l as [|c l IH]; csimpl; intros Hc Ha Hb Pa Pb; [by apply not_elem_of_nil in Ha|].
  apply elem_of_cons in Ha as [->|Ha]; apply elem_of_cons in Hb as [->|Hb]; auto.
  - rewrite Pa in Hc. assert (0 < count p l)%nat by (apply count_pos; eauto). lia.
  - rewrite Pb in Hc. assert (0 < count p l)%nat by (apply count_pos; eauto). lia.
  - apply IH; auto. destruct (p c); lia.
Qed.

(** A live token of the root scope is alone: no other token is live and no other
    scope is open. *)
Lemma Inv_alone {o pend hot lax seq T S t} :
  Inv d cid o pend hot lax seq T S -> t ∈ T -> t_ScopeID t = cid -> Live (t_Status t) = true ->
  (forall s, s ∈ S -> scope_open s = true -> s_ID s = cid)
  /\ (forall t', t' ∈ T -> Live (t_Status t') = true -> t' = t)
  /\ (forall id, pend id = 0%nat).
Proof.
  intros HI Ht Escope Hlive.
  destruct (inv_root HI) as (s0 & H0 & E0 & _ & _ & Hexp & _).
  destruct (Inv_token t HI Ht) as (s1 & H1 & E1 & Ho & _). specialize (Ho Hlive).
  assert (s1 = s0) as -> by (apply (Inv_scope_eq _ _ HI); congruence).
  pose proof (Inv_count s0 HI H0 Ho) as Hc. rewrite Hexp, E0 in Hc.
  assert (Hst : stands_in cid t = true).
  { unfold stands_in. rewrite bool_decide_true by done. by destruct (t_Status t). }
  assert (0 < nbranch T cid)%nat by (apply count_pos; eauto).
  assert (Hs : forall s, s ∈ S -> scope_open s = true -> s_ID s = cid).
  { apply (open_scope_ind (fun s => s_ID s = cid) HI); [done|].
    intros s p Hs Hp Hso _ Ep _ Ecp. exfalso.
    assert (0 < nchild S cid)%nat; [|lia]. apply count_pos. exists s. split; [done|].
    unfold open_child. rewrite Hso, bool_decide_true; [done | congruence]. }
  split; [done|]. split; last first.
  { intros id. destruct (pend id) eqn:Ep; [done|]. destruct (inv_pend HI id ltac:(lia)) as (s & Hin & E & Hop).
    rewrite (Hs s Hin Hop) in E. subst id. lia. }
  intros t' Ht' Hl'.
  destruct (Inv_token t' HI Ht') as (s' & Hs' & E' & Ho' & _). specialize (Ho' Hl').
  apply (count_two (stands_in cid) T); auto; [unfold nbranch in *; lia|].
  unfold stands_in. rewrite bool_decide_true by (rewrite <- E'; auto). by destruct (t_Status t').
Qed.

(** An open case always has somebody to act: an active token. *)
Lemma Inv_active {seq T S} :
  Inv d cid true none_pending None None seq T S ->
  exists t, t ∈ T /\ t_Status t = TokenActive /\ rests d (t_Node t).
Proof.
  intros HI. destruct (inv_root HI) as (s0 & H0 & _ & _ & _ & _ & Ho).
  enough (exists t, t ∈ T /\ t_Status t = TokenActive) as (t & Ht & Ha).
  { exists t. split_and!; auto. by apply (proj1 (Forall_forall _ _) (inv_rest HI) t Ht). }
  remember (count (fun x => s_OpenedSeq s0 <? s_OpenedSeq x) S) as n eqn:En.
  revert s0 H0 Ho En. induction n as [n IH] using lt_wf_ind. intros s Hs Ho ->.
  pose proof (Inv_busy s HI Hs Ho ltac:(done)) as Hb. unfold none_pending in Hb.
  destruct (nactive T (s_ID s)) eqn:Ea.
  - assert (0 < nchild S (s_ID s))%nat as (x & Hx & Hxo)%count_pos by lia.
    unfold open_child in Hxo. apply andb_true_iff in Hxo as [Ep%bool_decide_eq_true Hxo].
    destruct (Inv_parent x HI Hx) as (p & Hp & Ep' & Hlt & _).
    { intros E. destruct (inv_root HI) as (r & Hr & Er & Pr & _).
      rewrite (Inv_scope_eq x r HI) in Ep; congruence. }
    assert (p = s) as -> by (apply (Inv_scope_eq _ _ HI); congruence).
    eapply IH; [|exact Hx|done|reflexivity].
    apply (count_lt _ _ _ x); [|done|by apply Z.ltb_lt|apply Z.ltb_irrefl].
    intros y _ Hy%Z.ltb_lt. apply Z.ltb_lt. lia.
  - assert (0 < nactive T (s_ID s))%nat as (t & Ht & Hw)%count_pos by lia.
    exists t. split; [done|]. unfold works_in in Hw. apply andb_true_iff in Hw as [_ Hw].
    by apply bool_decide_eq_true in Hw.
Qed.

End Facts.
