(* ===== verification/RunInv.v ===== *)
(** The routing of a run keeps the invariant of its case: [route], [split],
    [arrive], [tryJoin] and [closeCase] of [run.go], and [closeBranches] of
    [joinpolicy.go]. *)

From stdpp Require Import base gmap sets list strings.
From Stdlib Require Import ZArith Lia.
From S2P Require Import Prelude GoStrings Errors Model Definitions JoinPolicies Repo Ports Events.
From S2P Require Import Run RunFrame CaseInv.

Open Scope string_scope.
Open Scope Z_scope.

(** What routing needs of a definition; [Validate] establishes it. *)
Record routable (d : WDefinition) : Prop := mkRoutable {
  rt_policy : forall n, n ∈ d_Nodes d -> JoinPolicy_Valid (n_JoinPolicy n) = true;
  rt_entry : forall tr from to, tr ∈ d_Transitions d ->
    Definition_Node d (tr_From tr) = Some from -> Definition_Node d (tr_To tr) = Some to ->
    n_Kind to = NodeJoin -> n_JoinPolicy to <> JoinNone -> IsAutomatic (n_Kind from) = false }.

Definition run_seq (r : caseRun) : Z := r_baseSeq r + Z.of_nat (length (r_events r)).

Definition run_open (r : caseRun) : bool := bool_decide (c_Status (r_c r) = StatusOpen).

(** An identifier no token or scope of the run has. *)
Definition unused (r : caseRun) (id : uuid) : Prop :=
  (id ∉ t_ID <$> r_tokens r) /\ (id ∉ s_ID <$> r_scopes r).

(** The invariant of a run: its case's, and that the uuids still to be drawn, and
    the ones drawn and reserved, are unused. *)
Record RInv (cx : Ctx) (res : list uuid) (pend : uuid -> nat) (hot lax : option uuid)
    (r : caseRun) : Prop := mkRInv {
  ri_inv : Inv (r_d r) (c_ID (r_c r)) (run_open r) pend hot lax (run_seq r)
             (r_tokens r) (r_scopes r);
  ri_fresh : forall n, (r_uuids r <= n)%nat -> unused r (cx_uuid cx n);
  ri_reserved : forall id, id ∈ res ->
    unused r id /\ exists n, (n < r_uuids r)%nat /\ id = cx_uuid cx n;
  ri_nodup : NoDup res }.
Arguments ri_nodup {cx res pend hot lax r} _.
Arguments ri_inv {cx res pend hot lax r} _.
Arguments ri_fresh {cx res pend hot lax r} _.
Arguments ri_reserved {cx res pend hot lax r} _.

(** Token [tid] may take the transition [tr]: it stands where [tr] leaves.  A token
    that leaves a task node does so when no split is being distributed. *)
Definition ready (pend : uuid -> nat) (r : caseRun) (tid : uuid) (tr : Transition) : Prop :=
  exists tok, run_token r tid = Some tok /\ t_Status tok = TokenActive
    /\ tr ∈ d_Transitions (r_d r) /\ tr_From tr = t_Node tok
    /\ ((forall id, pend id = 0%nat)
        \/ exists n, Definition_Node (r_d r) (tr_From tr) = Some n
                     /\ IsAutomatic (n_Kind n) = true).

(** Runs that agree on all the invariant reads. *)
Lemma RInv_ext {cx res pend hot lax} r r' :
  RInv cx res pend hot lax r ->
  r_d r' = r_d r -> c_ID (r_c r') = c_ID (r_c r) -> run_open r' = run_open r ->
  r_tokens r' = r_tokens r -> r_scopes r' = r_scopes r -> r_uuids r' = r_uuids r ->
  run_seq r <= run_seq r' -> RInv cx res pend hot lax r'.
Proof.
  intros [HI HF HR HN] Ed Ec Eo Et Es Eu Hseq. constructor; [| | |done].
  - rewrite Ed, Ec, Eo, Et, Es. by eapply Inv_weaken, HI.
  - rewrite Eu. unfold unused. by rewrite Et, Es.
  - rewrite Eu. unfold unused. by rewrite Et, Es.
Qed.

Lemma RInv_emit {cx res pend hot lax} r e :
  RInv cx res pend hot lax r -> RInv cx res pend hot lax (emit e r).
Proof.
  intros HR. apply (RInv_ext r); try done. unfold run_seq. csimpl. rewrite length_app. lia.
Qed.

Lemma RInv_touch {cx res pend hot lax} r id :
  RInv cx res pend hot lax r -> RInv cx res pend hot lax (touch id r).
Proof.
  intros HR. by destruct (touch_cases id r) as [-> | ->]; [|apply (RInv_ext r)].
Qed.

Lemma RInv_bump {cx res pend hot lax} r :
  RInv cx res pend hot lax r -> RInv cx res pend hot lax (bump r).
Proof. intros HR. by apply (RInv_ext r). Qed.

Lemma RInv_events {cx res pend hot lax} r f i :
  RInv cx res pend hot lax r -> RInv cx res pend hot lax (set_events (alter f i) r).
Proof.
  intros HR. apply (RInv_ext r); try done. unfold run_seq. csimpl. by rewrite length_alter.
Qed.

Lemma RInv_pend {cx res pend pend' hot lax} r :
  (forall id, pend' id = pend id) ->
  RInv cx res pend hot lax r -> RInv cx res pend' hot lax r.
Proof. intros Hp [HI HF HR HN]. constructor; auto. by eapply Inv_weaken, HI. Qed.

Lemma run_token_elem r id t : run_token r id = Some t -> t ∈ r_tokens r /\ t_ID t = id.
Proof. apply find_by_Some. Qed.

Lemma run_scope_elem r id s : run_scope r id = Some s -> s ∈ r_scopes r /\ s_ID s = id.
Proof. apply find_by_Some. Qed.

Lemma run_token_upd r id f t :
  tok_stable f -> run_token r id = Some t -> run_token (upd_token id f r) id = Some (f t).
Proof. intros Hf Ht. apply find_by_upd_eq; [|done]. intros a. apply Hf. Qed.

Lemma run_token_touch r id id' : run_token (touch id' r) id = run_token r id.
Proof. by destruct (touch_cases id' r) as [-> | ->]. Qed.

(** One token changed through its pointer. *)
Lemma RInv_upd {cx res pend hot hot' lax lax'} r id f t :
  RInv cx res pend hot lax r -> tok_stable f -> run_token r id = Some t ->
  hot = None \/ hot = Some id ->
  (lax' = lax /\ (t_Status (f t) = TokenActive <-> t_Status t = TokenActive))
    \/ (lax' = Some (t_ScopeID t) /\ lax = None) ->
  (t_Status (f t) = TokenConsumed <-> t_Status t = TokenConsumed) ->
  wf_token (r_scopes r) (f t) ->
  (t_Status (f t) = TokenActive -> hot' <> Some id -> rests (r_d r) (t_Node (f t))) ->
  RInv cx res pend hot' lax' (upd_token id f r).
Proof.
  intros [HI HF HR HN] Hf Ht Hhot Hlax Hcons Hwf Hrest.
  destruct (run_token_elem _ _ _ Ht) as [_ Eid].
  destruct (upd_by_perm t_ID id (r_tokens r) t (inv_tokens HI) Ht) as (T0 & HT & Hu & _).
  assert (Hids : t_ID <$> r_tokens (upd_token id f r) = t_ID <$> r_tokens r)
    by (apply upd_by_keys; intros a; apply Hf).
  constructor; [| | |done].
  - eapply Inv_perm; [symmetry; apply (Hu f) | reflexivity|].
    destruct (Hf t) as (F1 & F2 & F3). subst id.
    eapply Inv_replace; [|exact F1|exact F2|exact F3|exact Hhot|exact Hlax|exact Hcons|exact Hwf|exact Hrest].
    by eapply Inv_perm, HI.
  - intros n Hn. unfold unused. rewrite Hids. by apply HF.
  - intros x Hx. unfold unused. rewrite Hids. by apply HR.
Qed.

(** A change of a token that moves nothing. *)
Lemma RInv_upd_same {cx res pend hot lax} r id f t :
  RInv cx res pend hot lax r -> tok_stable f -> run_token r id = Some t ->
  t_Status (f t) = t_Status t -> t_Node (f t) = t_Node t -> hot = None \/ hot = Some id ->
  RInv cx res pend hot lax (upd_token id f r).
Proof.
  intros HR Hf Ht Es En Hhot. destruct (run_token_elem _ _ _ Ht) as [Hin Eid].
  apply (RInv_upd (hot := hot) (lax := lax) r id f t); auto.
  - left. split; [done|]. by rewrite Es.
  - by rewrite Es.
  - destruct (Inv_token t (ri_inv HR) Hin) as (s & Hs & E & Hl & Hw). exists s.
    rewrite Es, En. split_and!; auto. by rewrite (proj2 (proj2 (Hf t))).
  - rewrite Es, En. intros Ha Hne. apply (proj1 (Forall_forall _ _) (inv_rest (ri_inv HR)) t Hin Ha).
    by rewrite Eid.
Qed.

(** ** The scopes open inside a scope *)

Section Inside.
Context {d : WDefinition} {cid : uuid} {o : bool} {pend : uuid -> nat} {hot lax : option uuid}.
Context {seq : Z} {T : list Token} {S : list Scope}.
Context (HI : Inv d cid o pend hot lax seq T S).

Lemma parent_found s p :
  s ∈ S -> s_ParentID s = Some p ->
  exists ps, ps ∈ S /\ s_ID ps = p /\ find_by s_ID p S = Some ps
             /\ s_OpenedSeq ps < s_OpenedSeq s.
Proof.
  intros Hs Ep. destruct (Inv_parent s HI Hs) as (ps & Hps & E & Hlt & _).
  { intros E. destruct (inv_root HI) as (s0 & H0 & E0 & P0 & _).
    rewrite (Inv_scope_eq s s0 HI) in Ep; congruence. }
  assert (p = s_ID ps) as -> by congruence.
  exists ps. split_and!; auto. apply find_by_elem; [apply (inv_scopes HI) | done].
Qed.

Lemma childOnPath_fuel a n m s :
  s ∈ S -> (below S s < n)%nat -> (below S s < m)%nat ->
  childOnPath n S (Some s) a = childOnPath m S (Some s) a.
Proof.
  revert m s. induction n as [|n IH]; intros m s Hs Hn Hm; [lia|]. destruct m as [|m]; [lia|].
  simpl. case_bool_decide; [done|]. destruct (s_ParentID s) as [p|] eqn:Ep; [|done].
  case_bool_decide; [done|]. destruct (parent_found s p Hs Ep) as (ps & Hps & _ & -> & Hlt).
  pose proof (below_lt S ps s Hps Hlt). apply IH; [done|lia..].
Qed.

Lemma below_length s : s ∈ S -> (below S s < Datatypes.S (length S))%nat.
Proof. intros _. pose proof (count_le_length (fun x => s_OpenedSeq x <? s_OpenedSeq s) S). unfold below. lia. Qed.

Definition standing (s : Scope) (a : uuid) : option Scope :=
  childOnPath (Datatypes.S (length S)) S (Some s) a.

Lemma standing_unfold s a :
  s ∈ S ->
  standing s a =
  if scope_open s
  then match s_ParentID s with
       | None => None
       | Some p => if decide (p = a) then Some s
                   else match find_by s_ID p S with Some ps => standing ps a | None => None end
       end
  else None.
Proof.
  intros Hs. unfold standing at 1. cbn [childOnPath]. unfold scope_open.
  case_bool_decide as E; case_bool_decide as E'; try done.
  destruct (s_ParentID s) as [p|] eqn:Ep; [|done].
  case_bool_decide; case_decide; try done.
  destruct (parent_found s p Hs Ep) as (ps & Hps & _ & -> & Hlt).
  unfold standing. apply childOnPath_fuel; [done| |by apply below_length].
  pose proof (below_lt S ps s Hps Hlt). pose proof (below_length s Hs). lia.
Qed.

Lemma standing_open s a c : s ∈ S -> standing s a = Some c -> scope_open s = true.
Proof. intros Hs. rewrite standing_unfold by done. by case_match. Qed.

(** A scope open inside [a] was opened after it. *)
Lemma standing_later s a c sc :
  s ∈ S -> sc ∈ S -> s_ID sc = a -> standing s a = Some c -> s_OpenedSeq sc < s_OpenedSeq s.
Proof.
  intros Hs Hsc Ea. remember (below S s) as n eqn:En. revert s Hs En c.
  induction n as [n IH] using lt_wf_ind. intros s Hs -> c.
  rewrite standing_unfold by done. case_match; [|done].
  destruct (s_ParentID s) as [p|] eqn:Ep; [|done].
  destruct (parent_found s p Hs Ep) as (ps & Hps & E & -> & Hlt). case_decide as Epa.
  - intros _. assert (ps = sc) as <- by (apply (Inv_scope_eq _ _ HI); congruence). done.
  - intros Hst. specialize (IH _ (below_lt S ps s Hps Hlt) ps Hps eq_refl c Hst). lia.
Qed.

(** The scopes [closeBranches] ends: [a] and those open inside it. *)
Definition closing (a : uuid) (id : uuid) : bool :=
  bool_decide (id = a)
  || existsb (fun s => bool_decide (s_ID s = id) && bool_decide (is_Some (standing s a))) S.

Lemma closing_scope a s :
  s ∈ S -> closing a (s_ID s) = true <-> s_ID s = a \/ is_Some (standing s a).
Proof.
  intros Hs. unfold closing. rewrite orb_true_iff, bool_decide_eq_true, existsb_exists.
  split.
  - intros [E|(x & Hx%list_elem_of_In & Hb)]; [by left|]. right.
    apply andb_true_iff in Hb as [E%bool_decide_eq_true Hst%bool_decide_eq_true].
    by rewrite <- (Inv_scope_eq x s HI Hx Hs E).
  - intros [E|Hst]; [by left|]. right. exists s. split; [by apply list_elem_of_In|].
    apply andb_true_iff. by rewrite !bool_decide_eq_true.
Qed.

Lemma closing_self a : closing a a = true.
Proof. unfold closing. by rewrite bool_decide_true. Qed.

Lemma closing_down a s q :
  s ∈ S -> scope_open s = true -> s_ParentID s = Some q -> closing a q = true ->
  closing a (s_ID s) = true.
Proof.
  intros Hs Ho Ep Hq. apply closing_scope; [done|]. right.
  destruct (parent_found s q Hs Ep) as (ps & Hps & E & Hf & Hlt). subst q.
  rewrite standing_unfold, Ho, Ep by done. case_decide; [by eexists|]. rewrite Hf.
  by apply closing_scope in Hq as [?|?].
Qed.

Lemma closing_up a s :
  s ∈ S -> closing a (s_ID s) = true -> s_ID s <> a ->
  exists q, s_ParentID s = Some q /\ closing a q = true.
Proof.
  intros Hs [E|[c Hst]]%closing_scope Hne; [done| |done].
  rewrite standing_unfold in Hst by done. case_match; [|done].
  destruct (s_ParentID s) as [p|] eqn:Ep; [|done]. exists p. split; [done|].
  destruct (parent_found s p Hs Ep) as (ps & Hps & E & Hf & _). case_decide as Epa.
  - subst. apply closing_self.
  - rewrite Hf in Hst. rewrite <- E. apply closing_scope; [done|]. right. by eexists.
Qed.

Lemma closing_parent a sc p :
  sc ∈ S -> s_ID sc = a -> s_ParentID sc = Some p -> closing a p = false.
Proof.
  intros Hsc Ea Ep. destruct (closing a p) eqn:E; [|done]. exfalso.
  destruct (parent_found sc p Hsc Ep) as (ps & Hps & Eps & _ & Hlt). subst p.
  apply closing_scope in E as [E|[c Hst]]; [|pose proof (standing_later ps a c sc Hps Hsc Ea Hst); lia|done].
  assert (ps = sc) as -> by (apply (Inv_scope_eq _ _ HI); congruence). lia.
Qed.

End Inside.

(** ** Ending tokens and scopes *)

(** [r'] is [r] with the tokens [ids] ended in status [st] and the scopes [sids] in
    some status that is not open, and events added. *)
Record ended (st : TokenStatus) (ids sids : list uuid) (r r' : caseRun) : Prop := mkEnded {
  en_c : r_c r' = r_c r;
  en_d : r_d r' = r_d r;
  en_uuids : r_uuids r' = r_uuids r;
  en_seq : run_seq r <= run_seq r';
  en_tokens : exists g, r_tokens r' = g <$> r_tokens r
    /\ forall t, (t_ID (g t) = t_ID t /\ t_CaseID (g t) = t_CaseID t /\ t_ScopeID (g t) = t_ScopeID t)
         /\ (t_ID t ∈ ids -> t_Status (g t) = st) /\ (t_ID t ∉ ids -> g t = t);
  en_scopes : exists h, r_scopes r' = h <$> r_scopes r
    /\ forall s, (s_ID (h s) = s_ID s /\ s_CaseID (h s) = s_CaseID s
          /\ s_ParentID (h s) = s_ParentID s /\ s_SplitNode (h s) = s_SplitNode s
          /\ s_JoinNode (h s) = s_JoinNode s
          /\ s_Expected (h s) = s_Expected s /\ s_OpenedSeq (h s) = s_OpenedSeq s)
         /\ (s_ID s ∈ sids -> scope_open (h s) = false) /\ (s_ID s ∉ sids -> h s = s) }.

Lemma list_fmap_id' {A} (l : list A) : (fun a => a) <$> l = l.
Proof. apply list_fmap_id. Qed.

Lemma ended_refl st r : ended st [] [] r r.
Proof.
  constructor; try done.
  - exists (fun t => t). rewrite list_fmap_id'. split; [done|]. intros t.
    by split_and!; [..|intros H%not_elem_of_nil|].
  - exists (fun s => s). rewrite list_fmap_id'. split; [done|]. intros s.
    by split_and!; [..|intros H%not_elem_of_nil|].
Qed.

Lemma ended_trans st ids1 ids2 sids1 sids2 r1 r2 r3 :
  ended st ids1 sids1 r1 r2 -> ended st ids2 sids2 r2 r3 ->
  ended st (ids1 ++ ids2) (sids1 ++ sids2) r1 r3.
Proof.
  intros [] []. constructor; try congruence; [lia|..].
  - destruct en_tokens0 as (g1 & E1 & G1), en_tokens1 as (g2 & E2 & G2).
    exists (fun t => g2 (g1 t)). rewrite E2, E1, <- list_fmap_compose. split; [done|].
    intros t. destruct (G1 t) as ((A1 & A2 & A3) & A4 & A5), (G2 (g1 t)) as ((B1 & B2 & B3) & B4 & B5).
    rewrite B1, B2, B3, A1, A2, A3. split; [done|]. rewrite A1 in B4, B5. rewrite elem_of_app.
    split; [|intros Hn; rewrite B5, A5 by tauto; done].
    destruct (decide (t_ID t ∈ ids2)) as [H2|H2]; [auto|]. intros [H1|H1]; [|done].
    rewrite B5 by done. auto.
  - destruct en_scopes0 as (g1 & E1 & G1), en_scopes1 as (g2 & E2 & G2).
    exists (fun t => g2 (g1 t)). rewrite E2, E1, <- list_fmap_compose. split; [done|].
    intros s. destruct (G1 s) as ((A1 & A2 & A3 & A4 & A5 & A6 & A7) & A8 & A9).
    destruct (G2 (g1 s)) as ((B1 & B2 & B3 & B4 & B5 & B6 & B7) & B8 & B9).
    rewrite B1, B2, B3, B4, B5, B6, B7, A1, A2, A3, A4, A5, A6, A7. split; [done|].
    rewrite A1 in B8, B9. rewrite elem_of_app.
    split; [|intros Hn; rewrite B9, A9 by tauto; done].
    destruct (decide (s_ID s ∈ sids2)) as [H2|H2]; [auto|]. intros [H1|H1]; [|done].
    rewrite B9 by done. auto.
Qed.

Lemma ended_emit st e r : ended st [] [] r (emit e r).
Proof.
  destruct (ended_refl st r). constructor; try done. unfold run_seq. csimpl. rewrite length_app. lia.
Qed.

Lemma ended_touch st ids sids id r r' :
  ended st ids sids r r' -> ended st ids sids r (touch id r').
Proof.
  intros []. by destruct (touch_cases id r') as [-> | ->].
Qed.

Lemma ended_run_end st id seq r : ended st [id] [] r (run_end id st seq r).
Proof.
  apply ended_touch. destruct (ended_refl st r). constructor; try done.
  exists (fun a => if decide (t_ID a = id) then token_end st seq (r_now r) a else a).
  split; [done|]. intros t. rewrite list_elem_of_singleton. by case_decide.
Qed.

Lemma ended_close_scope st id sst seq r :
  sst <> ScopeOpen -> ended st [] [id] r (close_scope id sst seq r).
Proof.
  intros Hst. apply ended_touch. destruct (ended_refl st r). constructor; try done.
  exists (fun a => if decide (s_ID a = id) then scope_with_status sst seq a else a).
  split; [done|]. intros s. rewrite list_elem_of_singleton. case_decide; [|done].
  split_and!; try done. intros _. by apply bool_decide_eq_false.
Qed.

Lemma ended_fold_tokens st seq ids r :
  ended st ids [] r (fold_left (fun r id => run_end id st seq r) ids r).
Proof.
  revert r. induction ids as [|id ids IH]; intros r; simpl; [apply ended_refl|].
  exact (ended_trans st [id] ids [] [] _ _ _ (ended_run_end st id seq r) (IH _)).
Qed.

Lemma ended_fold_scopes st sst seq sids r :
  sst <> ScopeOpen ->
  ended st [] sids r (fold_left (fun r id => close_scope id sst seq r) sids r).
Proof.
  intros Hst. revert r. induction sids as [|id sids IH]; intros r; simpl; [apply ended_refl|].
  exact (ended_trans st [] [] [id] sids _ _ _ (ended_close_scope st id sst seq r Hst) (IH _)).
Qed.

Lemma ended_cancel_pending detail m pending reported branches r r' bs :
  cancel_pending detail m pending reported branches r = Ok (r', bs) ->
  ended TokenCancelled (t_ID <$> pending) [] r r'.
Proof.
  revert reported branches r. induction pending as [|p pending IH]; intros reported branches r;
    simpl; intros Hc; [res_inv; apply ended_refl|].
  res_inv. match goal with H : run_token r _ = Some ?x |- _ => apply run_token_elem in H as [_ E]; rename x into t end.
  refine (ended_trans TokenCancelled [t_ID p] (t_ID <$> pending) [] [] r _ r' _ _).
  - refine (ended_trans TokenCancelled [] [t_ID p] [] [] r _ _ (ended_emit _ _ _) _).
    rewrite <- E. apply ended_run_end.
  - repeat case_match; by eapply IH.
Qed.

(** ** The round of a scope *)

Definition waits_in (id : uuid) (t : Token) : bool :=
  bool_decide (t_ScopeID t = id) && bool_decide (t_Status t = TokenWaiting).

Definition cancelled_in (id : uuid) (t : Token) : bool :=
  bool_decide (t_ScopeID t = id) && bool_decide (t_Status t = TokenCancelled).

Lemma nbranch_split T id :
  nbranch T id = (nactive T id + count (waits_in id) T + count (cancelled_in id) T)%nat.
Proof.
  unfold nbranch, nactive. induction T as [|t T IH]; csimpl; [done|]. rewrite IH.
  unfold stands_in, works_in, waits_in, cancelled_in. destruct (t_Status t);
    repeat (case_bool_decide; simplify_eq); simpl; lia.
Qed.

(** What the scan of the scope's tokens counts. *)
Lemma tally_tokens_spec policy sid T w0 t0 w t :
  tally_tokens policy sid T w0 t0 = Ok (w, t) ->
  w = (w0 ++ (t_ID <$> List.filter (waits_in sid) T))%list
  /\ rt_cancelled t = rt_cancelled t0 + Z.of_nat (count (cancelled_in sid) T)
  /\ rt_expected t = rt_expected t0
  /\ rt_approved t0 <= rt_approved t /\ rt_rejected t0 <= rt_rejected t
  /\ (policy <> JoinNone -> rt_approved t + rt_rejected t
        = rt_approved t0 + rt_rejected t0 + Z.of_nat (count (waits_in sid) T)).
Proof.
  revert w0 t0. induction T as [|x T IH]; intros w0 t0; csimpl.
  { intros [= <- <-]. rewrite app_nil_r. split_and!; try done; lia. }
  assert (Ew : waits_in sid x = bool_decide (t_ScopeID x = sid)
                               && bool_decide (t_Status x = TokenWaiting)) by done.
  assert (Ec : cancelled_in sid x = bool_decide (t_ScopeID x = sid)
                               && bool_decide (t_Status x = TokenCancelled)) by done.
  destruct (decide (t_ScopeID x = sid)) as [Es|Es]; last first.
  { rewrite (bool_decide_true (t_ScopeID x <> sid)) by done.
    rewrite (bool_decide_false (t_ScopeID x = sid)) in Ew, Ec by done. rewrite Ew, Ec. apply IH. }
  rewrite (bool_decide_false (t_ScopeID x <> sid)) by tauto.
  rewrite (bool_decide_true (t_ScopeID x = sid)) in Ew, Ec by done.
  destruct (t_Status x); csimpl in Ew; csimpl in Ec; rewrite Ew, Ec; [apply IH| |apply IH|].
  - repeat case_bool_decide; intros Ht; try done; apply IH in Ht; csimpl in Ht;
      destruct Ht as (-> & -> & -> & ? & ? & Hc); rewrite <- app_assoc; csimpl;
      split_and!; try done; try lia; intros Hp; try specialize (Hc Hp); try lia; congruence.
  - intros Ht%IH. csimpl in Ht. destruct Ht as (-> & -> & -> & ? & ? & Hc).
    split_and!; try done; lia.
Qed.

(** A round that does not close has somebody working in it, or a nested block. *)
Lemma round_open_busy {d cid o pend hot seq T S sc policy waiting tally verdict} :
  Inv d cid o pend hot (Some (s_ID sc)) seq T S -> sc ∈ S -> scope_open sc = true ->
  JoinPolicy_Valid policy = true ->
  tally_tokens policy (s_ID sc) T [] (mkTally 0 0 0 (s_Expected sc)) = Ok (waiting, tally) ->
  round_closes policy waiting tally = (false, verdict) ->
  (0 < nactive T (s_ID sc) + count (waits_in (s_ID sc)) T + nchild S (s_ID sc) + pend (s_ID sc))%nat ->
  (0 < nactive T (s_ID sc) + nchild S (s_ID sc) + pend (s_ID sc))%nat.
Proof.
  intros HI Hsc Hopen Hvalid Ht Hclose Hlive.
  pose proof (Inv_count sc HI Hsc Hopen) as Hc. rewrite nbranch_split in Hc.
  apply tally_tokens_spec in Ht as (-> & Hcan & Hexp & Ha & Hr & Hw). simpl in *.
  destruct (decide (0 < nactive T (s_ID sc) + nchild S (s_ID sc) + pend (s_ID sc))%nat) as [|Hz]; [done|].
  exfalso. assert (Hpos : (0 < count (waits_in (s_ID sc)) T)%nat) by lia.
  unfold round_closes in Hclose. case_bool_decide as Ep.
  - injection Hclose as Hb _. apply andb_false_iff in Hb as [Hb|Hb].
    + apply negb_false_iff, bool_decide_eq_true in Hb.
      rewrite count_filter_length in Hpos. apply (f_equal length) in Hb.
      rewrite length_fmap in Hb. simpl in Hb. lia.
    + apply Z.eqb_neq in Hb. apply Hb. rewrite length_fmap, <- count_filter_length. lia.
  - specialize (Hw Ep). pose proof (closes_complete policy tally Ep Hvalid) as Hcl.
    rewrite Hclose in Hcl. simpl in Hcl. enough (false = true) by done. apply Hcl.
    + unfold tally_ok. lia.
    + unfold tally_complete. lia.
Qed.

(** A round that closes without a policy has nobody working in it. *)
Lemma plain_round_done {d cid o pend hot lax seq T S sc waiting tally verdict} :
  Inv d cid o pend hot lax seq T S -> sc ∈ S -> scope_open sc = true ->
  tally_tokens JoinNone (s_ID sc) T [] (mkTally 0 0 0 (s_Expected sc)) = Ok (waiting, tally) ->
  round_closes JoinNone waiting tally = (true, verdict) ->
  nactive T (s_ID sc) = 0%nat /\ nchild S (s_ID sc) = 0%nat /\ pend (s_ID sc) = 0%nat.
Proof.
  intros HI Hsc Hopen Ht Hclose.
  pose proof (Inv_count sc HI Hsc Hopen) as Hc. rewrite nbranch_split in Hc.
  apply tally_tokens_spec in Ht as (-> & Hcan & Hexp & _). simpl in *.
  unfold round_closes in Hclose. rewrite bool_decide_true in Hclose by done.
  injection Hclose as Hb _. apply andb_true_iff in Hb as [_ Hb%Z.eqb_eq].
  rewrite length_fmap, <- count_filter_length in Hb. lia.
Qed.

(** ** Firing a join *)

Lemma branch_of_nested {cx res pend hot lax} r sid id :
  RInv cx res pend hot lax r ->
  (id ∈ fst <$> branch_of r sid) <->
  exists s, s ∈ r_scopes r /\ s_ID s = id /\ is_Some (standing (S := r_scopes r) s sid).
Proof.
  intros HR. unfold branch_of. rewrite list_elem_of_fmap. split.
  - intros ([x y] & -> & Hin). apply list_elem_of_omap in Hin as (s & Hs & E).
    case_bool_decide; [done|]. apply fmap_Some in E as (c & Ec & [= -> ->]).
    exists s. split_and!; done.
  - intros (s & Hs & <- & c & Hc). exists (s_ID s, s_ID c). split; [done|].
    apply list_elem_of_omap. exists s. split; [done|].
    pose proof (standing_open (ri_inv HR) s sid c Hs Hc) as Ho.
    apply bool_decide_eq_true in Ho. rewrite bool_decide_false by (intros Hn; by apply Hn).
    unfold standing in Hc. unfold child_of. by rewrite Hc.
Qed.

Lemma lookup_branch_is_Some m id : is_Some (lookup_branch m id) <-> id ∈ fst <$> m.
Proof.
  unfold lookup_branch. rewrite fmap_is_Some. destruct (find_by fst id m) eqn:E.
  - apply find_by_Some in E as [Hin <-]. split; [|by eexists]. intros _. by apply list_elem_of_fmap_2.
  - apply find_by_None in E. split; [|done]. by intros [? ?].
Qed.

(** What firing a join does to the run, up to the new token. *)
Record fired (cx : Ctx) (ids sids : list uuid) (next : uuid) (r r' : caseRun) : Prop := mkFired {
  fi_next : next = cx_uuid cx (r_uuids r);
  fi_c : r_c r' = r_c r;
  fi_d : r_d r' = r_d r;
  fi_uuids : r_uuids r' = S (r_uuids r);
  fi_seq : run_seq r <= run_seq r';
  fi_tokens : exists g, r_tokens r' = g <$> r_tokens r
    /\ forall t, (t_ID (g t) = t_ID t /\ t_CaseID (g t) = t_CaseID t /\ t_ScopeID (g t) = t_ScopeID t)
         /\ (t_ID t ∈ ids -> Live (t_Status (g t)) = false) /\ (t_ID t ∉ ids -> g t = t);
  fi_scopes : exists h, r_scopes r' = h <$> r_scopes r
    /\ forall s, (s_ID (h s) = s_ID s /\ s_CaseID (h s) = s_CaseID s
          /\ s_ParentID (h s) = s_ParentID s /\ s_SplitNode (h s) = s_SplitNode s
          /\ s_JoinNode (h s) = s_JoinNode s
          /\ s_Expected (h s) = s_Expected s /\ s_OpenedSeq (h s) = s_OpenedSeq s)
         /\ (s_ID s ∈ sids -> scope_open (h s) = false) /\ (s_ID s ∉ sids -> h s = s) }.

Definition join_nested (r : caseRun) (sid : uuid) (policy : JoinPolicy) : list uuid :=
  if bool_decide (policy = JoinNone) then [] else fst <$> branch_of r sid.

Definition join_pending (r : caseRun) (sid : uuid) (policy : JoinPolicy) : list uuid :=
  if bool_decide (policy = JoinNone) then []
  else t_ID <$> pending_tokens r sid (branch_of r sid).

Lemma fire_join_fired cx r sc join parent policy verdict waiting r' rec next seq bs :
  fire_join cx r sc join parent policy verdict waiting = Ok (r', rec, next, seq, bs) ->
  fired cx (join_pending r (s_ID sc) policy ++ waiting)
    (join_nested r (s_ID sc) policy ++ [s_ID sc]) next r r'.
Proof.
  unfold fire_join. intros Hf. res_inv. destruct x as [[r1 bs1] nested]. res_inv.
  assert (H1 : ended TokenCancelled (join_pending r (s_ID sc) policy) [] r r1
               /\ nested = join_nested r (s_ID sc) policy).
  { unfold join_pending, join_nested. case_bool_decide; res_inv; [by split; [apply ended_refl|]|].
    match goal with Hc : closeBranches _ _ _ = Ok _ |- _ => unfold closeBranches in Hc; rename Hc into Hcb end.
    res_inv. destruct x as [r2 bs2]. res_inv. split; [|done]. by eapply ended_cancel_pending. }
  destruct H1 as [H1 ->].
  match goal with |- fired _ _ _ _ _ (close_scope _ _ ?q (fold_left _ _ (fold_left _ _ ?e))) =>
    assert (H2 : ended TokenConsumed waiting (join_nested r (s_ID sc) policy ++ [s_ID sc]) e
      (close_scope (s_ID sc) ScopeJoined q
        (fold_left (fun r id => close_scope id ScopeCancelled q r) (join_nested r (s_ID sc) policy)
          (fold_left (fun r id => run_end id TokenConsumed q r) waiting e))));
    [|assert (H3 : run_seq (draw_uuid r1) <= run_seq e /\ r_tokens e = r_tokens r1
              /\ r_scopes e = r_scopes r1 /\ r_c e = r_c r1 /\ r_d e = r_d r1
              /\ r_uuids e = S (r_uuids r1))] end.
  { rewrite <- (app_nil_r waiting) at 1.
    refine (ended_trans _ waiting [] _ [s_ID sc] _ _ _ _ (ended_close_scope _ _ _ _ _ _)); [|done].
    rewrite <- (app_nil_r waiting) at 1.
    refine (ended_trans _ waiting [] [] _ _ _ _ (ended_fold_tokens _ _ _ _) (ended_fold_scopes _ _ _ _ _ _)).
    done. }
  { unfold run_seq. csimpl. rewrite length_app. split_and!; try done. lia. }
  destruct H1 as [A1 A2 A3 A4 (g1 & Eg1 & G1) (h1 & Eh1 & Hh1)], H2 as [B1 B2 B3 B4 (g2 & Eg2 & G2) (h2 & Eh2 & Hh2)].
  destruct H3 as (C1 & C2 & C3 & C4 & C5 & C6). constructor; try congruence.
  - unfold run_seq in *. simpl in *. lia.
  - exists (fun t => g2 (g1 t)). rewrite Eg2, C2, Eg1, <- list_fmap_compose. split; [done|].
    intros t. destruct (G1 t) as ((T1 & T2 & T3) & T4 & T5), (G2 (g1 t)) as ((U1 & U2 & U3) & U4 & U5).
    rewrite U1, U2, U3, T1, T2, T3. split; [done|]. rewrite T1 in U4, U5. rewrite elem_of_app.
    split; [|intros Hn; rewrite U5, T5 by tauto; done].
    destruct (decide (t_ID t ∈ waiting)) as [Hw|Hw]; [by rewrite (U4 Hw)|].
    intros [Hp|]; [|done]. by rewrite (U5 Hw), (T4 Hp).
  - exists h2. rewrite Eh2, C3, Eh1. split; [|done]. f_equal.
    rewrite <- (list_fmap_id (r_scopes r)) at 2. apply list_fmap_ext. intros i s _.
    destruct (Hh1 s) as (_ & _ & E). apply E, not_elem_of_nil.
Qed.

Section FireInv.
Context {cx : Ctx} {res : list uuid} {pend : uuid -> nat} {r r' : caseRun} {sc : Scope} {pid next : uuid}.
Context (Hinj : forall m n, cx_uuid cx m = cx_uuid cx n -> m = n).
Context (HR : RInv cx res pend None (Some (s_ID sc)) r).
Context (Hsc : sc ∈ r_scopes r) (Hopen : scope_open sc = true) (Hpid : s_ParentID sc = Some pid).

Lemma RInv_fire (closed : uuid -> bool) ids sids node :
  fired cx ids sids next r r' ->
  closed (s_ID sc) = true ->
  (forall s q, s ∈ r_scopes r -> scope_open s = true -> s_ParentID s = Some q ->
     closed q = true -> closed (s_ID s) = true) ->
  (forall s, s ∈ r_scopes r -> closed (s_ID s) = true -> s_ID s <> s_ID sc ->
     exists q, s_ParentID s = Some q /\ closed q = true) ->
  closed pid = false -> (forall id, closed id = true -> pend id = 0%nat) ->
  (forall t, t ∈ r_tokens r -> closed (t_ScopeID t) = true -> Live (t_Status t) = true -> t_ID t ∈ ids) ->
  (forall t, t ∈ r_tokens r -> t_ID t ∈ ids -> closed (t_ScopeID t) = true) ->
  (forall s, s ∈ r_scopes r -> (s_ID s ∈ sids) <-> closed (s_ID s) = true) ->
  RInv cx res pend (Some next) None
    (addToken (new_token next (c_ID (r_c r')) pid node) r').
Proof.
  intros HF Hself Hdown Hup Hpar Hnp Hlive Hids Hsids.
  destruct HF as [-> Ec Ed Eu Hseq (g & Eg & G) (h & Eh & Hh)].
  destruct (ri_fresh HR (r_uuids r) ltac:(lia)) as [Hft Hfs].
  assert (Hkt : keeps_tokens g (r_tokens r)) by (intros t _; apply G).
  assert (Hks : keeps_scopes h (r_scopes r)) by (intros s _; apply Hh).
  assert (Hun : forall id, id <> cx_uuid cx (r_uuids r) -> unused r id ->
    unused (addToken (new_token (cx_uuid cx (r_uuids r)) (c_ID (r_c r')) pid node) r') id).
  { intros id Hne [H1 H2]. unfold unused. csimpl. rewrite Eg, Eh, fmap_app, elem_of_app.
    rewrite (keeps_tokens_ids _ _ Hkt), (keeps_scopes_ids _ _ Hks). split; [|done].
    intros [?|Hs]; [done|]. by apply list_elem_of_singleton in Hs. }
  constructor; [| | |apply (ri_nodup HR)].
  - eapply (Inv_weaken (pend := pend) (seq := run_seq r)); [done|exact Hseq|].
    unfold run_open. csimpl. rewrite Ec, Ed, Eg, Eh.
    set (nt := new_token (cx_uuid cx (r_uuids r)) (c_ID (r_c r)) pid node).
    eapply (Inv_perm (T := nt :: (g <$> r_tokens r))); [by rewrite Permutation_cons_append | reflexivity|].
    refine (Inv_fire (next := nt) (pid := pid) (closed := closed) (ri_inv HR) Hsc Hopen Hpid Hself Hdown Hup
              Hpar Hnp Hkt Hks _ _ _ _ _ _).
    + intros t Ht Hc. destruct (G t) as (_ & G1 & G2).
      destruct (decide (t_ID t ∈ ids)) as [Hin|Hin]; [auto|]. rewrite G2 by done.
      destruct (Live (t_Status t)) eqn:El; [|done]. destruct Hin. auto.
    + intros t Ht Hc. destruct (G t) as (_ & _ & G2). apply G2. intros Hin.
      rewrite (Hids t Ht Hin) in Hc. done.
    + intros s Hs Hc. apply Hh. by apply Hsids.
    + intros s Hs Hc. apply Hh. rewrite Hsids by done. congruence.
    + done.
    + done.
  - intros n Hn. csimpl in Hn. rewrite Eu in Hn. apply Hun; [intros E%Hinj; lia|].
    apply (ri_fresh HR). lia.
  - intros id Hid. destruct (ri_reserved HR id Hid) as (Hu & n & Hn & ->). split.
    + apply Hun; [intros E%Hinj; lia | done].
    + exists n. csimpl. rewrite Eu. split; [lia | done].
Qed.

End FireInv.

Lemma count_none_in (p : uuid -> Token -> bool) id T t :
  count (p id) T = 0%nat -> t ∈ T -> p id t = false.
Proof. intros Hc. by apply count_0. Qed.

Lemma waiting_ids T sid t :
  NoDup (t_ID <$> T) -> t ∈ T ->
  (t_ID t ∈ t_ID <$> List.filter (waits_in sid) T) <-> waits_in sid t = true.
Proof.
  intros ND Ht. rewrite list_elem_of_fmap. setoid_rewrite list_elem_of_In. setoid_rewrite filter_In.
  setoid_rewrite <- list_elem_of_In. split.
  - intros (x & E & Hx & Hw). by rewrite (NoDup_key_inj t_ID T t x).
  - intros Hw. by exists t.
Qed.

Lemma pending_ids r sid m t :
  NoDup (t_ID <$> r_tokens r) -> t ∈ r_tokens r ->
  (t_ID t ∈ t_ID <$> pending_tokens r sid m) <->
  (t_ScopeID t = sid /\ t_Status t = TokenActive)
  \/ (t_ScopeID t ∈ fst <$> m /\ Live (t_Status t) = true).
Proof.
  intros ND Ht. unfold pending_tokens.
  assert (Hp : (t_ID t ∈ t_ID <$> sortTokens (List.filter (fun t =>
    (bool_decide (t_ScopeID t = sid) && is_active t)
    || (match lookup_branch m (t_ScopeID t) with Some _ => true | None => false end
        && Live (t_Status t))) (r_tokens r))) <->
    (bool_decide (t_ScopeID t = sid) && is_active t)
    || (match lookup_branch m (t_ScopeID t) with Some _ => true | None => false end
        && Live (t_Status t)) = true).
  { rewrite list_elem_of_fmap. unfold sortTokens. setoid_rewrite elem_of_sort_by.
    setoid_rewrite list_elem_of_In. setoid_rewrite filter_In. setoid_rewrite <- list_elem_of_In. split.
    - intros (x & E & Hx & Hw). by rewrite (NoDup_key_inj t_ID (r_tokens r) t x).
    - intros Hw. by exists t. }
  rewrite Hp, orb_true_iff, !andb_true_iff, <- lookup_branch_is_Some. unfold is_active.
  rewrite !bool_decide_eq_true. destruct (lookup_branch m (t_ScopeID t)); split;
    intros [[]|[]]; auto; try done; try (right; split; auto; by eexists).
Qed.

(** The part of a join shared by every call: the run with the new token on the join
    node keeps the invariant. *)
Lemma fire_join_inv {cx res pend} r sc join pid verdict waiting tally r' rec next seq bs :
  (forall m n, cx_uuid cx m = cx_uuid cx n -> m = n) ->
  RInv cx res pend None (Some (s_ID sc)) r -> sc ∈ r_scopes r -> scope_open sc = true ->
  s_ParentID sc = Some pid ->
  tally_tokens (n_JoinPolicy join) (s_ID sc) (r_tokens r) [] (mkTally 0 0 0 (s_Expected sc))
    = Ok (waiting, tally) ->
  round_closes (n_JoinPolicy join) waiting tally = (true, verdict) ->
  (n_JoinPolicy join <> JoinNone -> forall id, pend id = 0%nat) ->
  fire_join cx r sc join pid (n_JoinPolicy join) verdict waiting = Ok (r', rec, next, seq, bs) ->
  RInv cx res pend (Some next) None
    (addToken (new_token next (c_ID (r_c r')) pid (n_ID join)) r').
Proof.
  intros Hinj HR Hsc Hopen Hpid Ht Hclose Hpol Hf.
  pose proof (ri_inv HR) as HI. pose proof (inv_tokens HI) as ND.
  pose proof (tally_tokens_spec _ _ _ _ _ _ _ Ht) as (Ew & _). simpl in Ew.
  apply fire_join_fired in Hf. unfold join_pending, join_nested in Hf.
  case_bool_decide as Ep.
  - rewrite Ep in Ht, Hclose. simpl in Hf.
    destruct (plain_round_done HI Hsc Hopen Ht Hclose) as (Ha & Hc & Hp).
    refine (RInv_fire Hinj HR Hsc Hopen Hpid (fun id => bool_decide (id = s_ID sc)) _ _ _ Hf _ _ _ _ _ _ _ _).
    + by apply bool_decide_eq_true.
    + intros s q Hs Ho Eq Hq%bool_decide_eq_true. subst q. exfalso.
      pose proof (proj1 (count_0 _ _) Hc s Hs) as Hn. unfold open_child in Hn.
      rewrite Ho, bool_decide_true in Hn; done.
    + intros s Hs E%bool_decide_eq_true Hne. done.
    + apply bool_decide_eq_false. intros ->.
      destruct (parent_found HI sc (s_ID sc) Hsc Hpid) as (ps & Hps & E & _ & Hlt).
      rewrite (Inv_scope_eq ps sc HI Hps Hsc E) in Hlt. lia.
    + intros id ->%bool_decide_eq_true. done.
    + intros t Hin Escope%bool_decide_eq_true Hl. rewrite Ew. apply waiting_ids; [done..|].
      pose proof (proj1 (count_0 _ _) Ha t Hin) as Hn. unfold works_in in Hn. unfold waits_in.
      rewrite bool_decide_true in * by done. by destruct (t_Status t).
    + intros t Hin Hid. rewrite Ew in Hid. apply waiting_ids in Hid; [|done..].
      unfold waits_in in Hid. by apply andb_true_iff in Hid as [Hid _].
    + intros s Hs. rewrite list_elem_of_singleton. by rewrite bool_decide_eq_true.
  - specialize (Hpol Ep).
    refine (RInv_fire Hinj HR Hsc Hopen Hpid (closing (S := r_scopes r) (s_ID sc)) _ _ _ Hf _ _ _ _ _ _ _ _).
    + apply closing_self.
    + intros s q. apply (closing_down HI).
    + intros s. apply (closing_up HI).
    + by apply (closing_parent HI _ sc).
    + auto.
    + intros t Hin Hc Hl. rewrite elem_of_app, pending_ids, Ew, waiting_ids by done.
      destruct (Inv_token t HI Hin) as (s & Hs & Es & _). rewrite <- Es in Hc.
      apply (closing_scope HI) in Hc as [E|Hst]; [| |done].
      * unfold waits_in. rewrite bool_decide_true by congruence. simpl. rewrite bool_decide_eq_true.
        destruct (t_Status t); try done; [left; left; split; congruence | by right].
      * left. right. split; [|done]. apply (branch_of_nested _ _ _ HR). by exists s.
    + intros t Hin. rewrite elem_of_app, pending_ids, Ew, waiting_ids by done.
      intros [[[-> _]|[Hn _]]|Hw]; [apply closing_self| |].
      * apply (branch_of_nested _ _ _ HR) in Hn as (s & Hs & <- & Hst).
        apply (closing_scope HI); auto.
      * unfold waits_in in Hw. apply andb_true_iff in Hw as [->%bool_decide_eq_true _].
        apply closing_self.
    + intros s Hs. rewrite elem_of_app, list_elem_of_singleton, (branch_of_nested _ _ _ HR),
        (closing_scope HI) by done. split.
      * intros [(x & Hx & E & Hst)|?]; [right|by left]. by rewrite <- (Inv_scope_eq x s HI Hx Hs E).
      * intros [?|Hst]; [by right|]. left. by exists s.
Qed.

(** ** Routing *)

Section Routing.
Context {DB : Type} `{Repository DB} (e : Engine DB) (cx : Ctx) (db : DB).
Context (Hinj : forall m n, cx_uuid cx m = cx_uuid cx n -> m = n).

Definition keeps_inv (rt : router) : Prop :=
  forall res pend r tid tr r', routable (r_d r) -> RInv cx res pend (Some tid) None r ->
    ready pend r tid tr -> rt r tid tr = Ok r' -> RInv cx res pend None None r'.

Lemma run_token_added r t :
  (t_ID t ∉ t_ID <$> r_tokens r) -> run_token (addToken t r) (t_ID t) = Some t.
Proof.
  intros Hn. unfold run_token. csimpl. rewrite find_by_app.
  apply (proj2 (find_by_None t_ID (t_ID t) (r_tokens r))) in Hn. rewrite Hn. csimpl.
  by rewrite decide_True.
Qed.

Lemma Definition_Node_policy d id n :
  routable d -> Definition_Node d id = Some n -> JoinPolicy_Valid (n_JoinPolicy n) = true.
Proof. intros Hd [Hn _]%Definition_Node_Some. by apply (rt_policy d Hd). Qed.

Lemma tryJoin_inv rt res pend r sid sc r' :
  keeps_inv rt -> routable (r_d r) -> RInv cx res pend None (Some sid) r ->
  run_scope r sid = Some sc ->
  (0 < nactive (r_tokens r) sid + count (waits_in sid) (r_tokens r) + nchild (r_scopes r) sid
       + pend sid)%nat ->
  (forall id, pend id = 0%nat)
    \/ (exists join, Definition_Node (r_d r) (s_JoinNode sc) = Some join
                     /\ n_Kind join = NodeJoin /\ n_JoinPolicy join = JoinNone) ->
  tryJoin_with rt e cx db r sid = Ok r' -> RInv cx res pend None None r'.
Proof.
  intros Hrt Hd HR Hsc Hlive Hside. unfold tryJoin_with. rewrite Hsc. simpl. intros Ht.
  destruct (run_scope_elem _ _ _ Hsc) as [Hin Eid]. subst sid.
  assert (Hunlax : (scope_open sc = true -> (0 < nactive (r_tokens r) (s_ID sc)
      + nchild (r_scopes r) (s_ID sc) + pend (s_ID sc))%nat) -> RInv cx res pend None None r).
  { intros Hb. destruct HR as [HI HF HRs HN]. constructor; auto. eapply Inv_unlax; [exact HI|].
    intros s Hs E Ho. apply Hb. by rewrite <- (Inv_scope_eq s sc HI Hs Hin E). }
  case_bool_decide as Eo; res_inv.
  { apply Hunlax. unfold scope_open. by rewrite bool_decide_false. }
  assert (Hopen : scope_open sc = true) by (by apply bool_decide_eq_true).
  destruct x as [waiting tally].
  destruct (round_closes _ waiting tally) as [closed verdict] eqn:Hclose.
  assert (Hval : JoinPolicy_Valid (n_JoinPolicy (default zero_Node
    (Definition_Node (r_d r) (s_JoinNode sc)))) = true).
  { destruct (Definition_Node _ _) eqn:En; [by eapply Definition_Node_policy | done]. }
  case_match eqn:Ec; res_inv.
  { apply Hunlax. intros _. apply negb_true_iff in Ec. subst closed.
    eapply (round_open_busy (ri_inv HR) Hin Hopen Hval); eauto. }
  apply negb_false_iff in Ec. subst closed.
  match goal with Hg : gatewayStep _ = Ok _ |- _ => apply gatewayStep_Ok in Hg as [-> _] end.
  destruct (Definition_Node (r_d r) (s_JoinNode sc)) as [join|] eqn:Ejoin; [|done]. simpl in *.
  destruct (TransitionsFrom (r_d r) (n_ID join)) as [|out [|]] eqn:Eout; try done.
  res_inv. destruct x0 as [[[[r1 rec] next] seq] bs]. res_inv.
  match goal with Hf : fire_join _ _ _ _ _ _ _ _ = Ok _ |- _ => rename Hf into Hfire end.
  match goal with Hp : s_ParentID sc = Some ?p |- _ => rename Hp into Hpid; rename p into pid end.
  pose proof (fire_join_rel frame _ _ _ _ _ _ _ _ _ _ _ _ _ Hfire) as HF.
  assert (HR1 : RInv cx res pend (Some next) None
    (addToken (new_token next (c_ID (r_c r1)) pid (n_ID join)) r1)).
  { eapply (fire_join_inv (bump r) sc join pid verdict waiting tally); eauto.
    - by apply RInv_bump.
    - intros Hp. destruct Hside as [?|(j & Ej & _ & Hj)]; [done|]. congruence. }
  assert (Eout' : out ∈ TransitionsFrom (r_d r) (n_ID join)) by (rewrite Eout; apply list_elem_of_here).
  apply elem_of_TransitionsFrom in Eout' as [Hout Hfrom].
  assert (Ed : r_d r1 = r_d r) by apply (fr_d _ _ HF).
  eapply Hrt; [| | |exact Ht].
  - case_bool_decide; csimpl; by rewrite Ed.
  - case_bool_decide; (eapply RInv_ext; [exact HR1|..]); done.
  - exists (new_token next (c_ID (r_c r1)) pid (n_ID join)).
    destruct (Definition_Node_Some _ _ _ Ejoin) as [_ Ej].
    assert (Hnew : forall r2, r_tokens r2 = r_tokens (addToken (new_token next (c_ID (r_c r1)) pid (n_ID join)) r1) ->
      run_token r2 next = Some (new_token next (c_ID (r_c r1)) pid (n_ID join))).
    { intros r2 E2. unfold run_token. rewrite E2.
      refine (find_by_elem t_ID _ (new_token next (c_ID (r_c r1)) pid (n_ID join)) (inv_tokens (ri_inv HR1)) _).
      csimpl. apply elem_of_app. right. by apply list_elem_of_singleton. }
    split; [apply Hnew; by case_bool_decide|]. split; [done|].
    split; [case_bool_decide; csimpl; by rewrite Ed|]. split; [done|].
    destruct Hside as [?|(j & Ejn & Hk & _)]; [by left|]. right. exists j.
    assert (j = join) as -> by congruence.
    split; [|unfold IsAutomatic; rewrite Hk; done].
    rewrite Hfrom, Ej. case_bool_decide; csimpl; by rewrite Ed.
Qed.

Lemma arrive_inv rt res pend r tid tok node outcome r' :
  keeps_inv rt -> routable (r_d r) -> RInv cx res pend (Some tid) None r ->
  run_token r tid = Some tok -> t_Status tok = TokenActive -> t_Node tok = n_ID node ->
  Definition_Node (r_d r) (n_ID node) = Some node -> n_Kind node = NodeJoin ->
  (forall id, pend id = 0%nat) \/ n_JoinPolicy node = JoinNone ->
  arrive_with rt e cx db r tid node outcome = Ok r' -> RInv cx res pend None None r'.
Proof.
  intros Hrt Hd HR Htok Hact Hnode Edef Hkind Hside. unfold arrive_with. rewrite Htok. simpl.
  destruct (run_token_elem _ _ _ Htok) as [Hin Eid].
  destruct (run_scope r (t_ScopeID tok)) as [sc|] eqn:Esc; [|done].
  destruct (run_scope_elem _ _ _ Esc) as [Hsin Es].
  case_bool_decide as Ej; [done|]. intros Ha.
  destruct (Inv_token tok (ri_inv HR) Hin) as (s & Hs & E & Hl & _).
  assert (s = sc) as -> by (apply (Inv_scope_eq _ _ (ri_inv HR)); congruence).
  rewrite Hact in Hl. specialize (Hl eq_refl).
  set (r1 := upd_token tid (token_wait outcome) r) in *.
  assert (HR1 : RInv cx res pend None (Some (s_ID sc)) r1).
  { apply (RInv_upd (hot := Some tid) (lax := None) r tid _ tok); auto with vogel; simpl.
    - right. by rewrite Es.
    - by rewrite Hact.
    - exists sc. split_and!; auto. simpl. congruence.
    - done. }
  pose proof (run_token_upd r tid (token_wait outcome) tok ltac:(auto with vogel) Htok) as Htok1.
  eapply (tryJoin_inv rt res pend (emit _ r1) (s_ID sc) sc); [done | done | by apply RInv_emit | | | |exact Ha].
  - unfold run_scope. csimpl. rewrite <- Es in Esc. exact Esc.
  - assert (0 < count (waits_in (s_ID sc)) (r_tokens r1))%nat;
      [|unfold emit, set_events; cbn [r_tokens r_scopes]; lia].
    apply count_pos. exists (token_wait outcome tok). split; [by apply run_token_elem in Htok1 as [? _]|].
    unfold waits_in. csimpl. by rewrite !bool_decide_true.
  - destruct Hside as [?|Hp]; [by left|]. right. exists node. rewrite Ej. by split.
Qed.

Lemma closeCase_inv res pend r tid tok node action r' :
  RInv cx res pend (Some tid) None r -> run_token r tid = Some tok -> t_Status tok = TokenActive ->
  closeCase r tid node action = Ok r' -> RInv cx res pend None None r'.
Proof.
  intros HR Htok Hact. unfold closeCase. rewrite Htok. simpl. case_bool_decide as Es; [done|].
  intros Hc. destruct (run_token_elem _ _ _ Htok) as [Hin Eid].
  destruct (Inv_alone (ri_inv HR) Hin Es ltac:(by rewrite Hact)) as (Hscopes & Htoks & Hpend).
  revert Hc. match goal with |- context [emit ?x r] => set (ev := x) end. set (q := next_seq r).
  intros Hc.
  assert (He : ended TokenConsumed [tid] [] r (run_end tid TokenConsumed q (emit ev r))).
  { exact (ended_trans _ [] [tid] [] [] _ _ _ (ended_emit _ ev r) (ended_run_end _ tid q _)). }
  destruct (inv_root (ri_inv HR)) as (root & Hroot & Eroot & _).
  assert (Hfound : exists s, run_scope (run_end tid TokenConsumed q (emit ev r)) (c_ID (r_c r)) = Some s
                             /\ s_ID s = c_ID (r_c r)).
  { exists root. split; [|done]. rewrite <- Eroot.
    assert (r_scopes (run_end tid TokenConsumed q (emit ev r)) = r_scopes r) as Erun
      by (unfold run_end; by destruct (touch_cases tid (upd_token tid (token_end TokenConsumed q (r_now (emit ev r))) (emit ev r))) as [-> | ->]).
    unfold run_scope. rewrite Erun. apply find_by_elem; [apply (inv_scopes (ri_inv HR)) | done]. }
  destruct Hfound as (s & Hs & Esid).
  assert (Ecrun : r_c (run_end tid TokenConsumed q (emit ev r)) = r_c r) by apply (en_c _ _ _ _ _ He).
  rewrite Ecrun, Hs in Hc. rewrite Esid in Hc.
  pose proof (ended_trans _ [tid] [] [] [c_ID (r_c r)] _ _ _ He
    (ended_close_scope TokenConsumed (c_ID (r_c r)) ScopeClosed q _ ltac:(done))) as HE.
  simpl in HE. set (r1 := close_scope _ _ _ _) in *. injection Hc as <-.
  destruct HE as [Ec Ed Eu Hseq (g & Eg & G) (h & Eh & Hh)].
  assert (Hkt : keeps_tokens g (r_tokens r)) by (intros t _; apply G).
  assert (Hks : keeps_scopes h (r_scopes r)) by (intros x _; apply Hh).
  assert (Hun : forall id r2, r_tokens r2 = g <$> r_tokens r -> r_scopes r2 = h <$> r_scopes r ->
    unused r id -> unused r2 id).
  { intros id r2 E1 E2. unfold unused.
    by rewrite E1, E2, (keeps_tokens_ids _ _ Hkt), (keeps_scopes_ids _ _ Hks). }
  constructor; [| | |apply (ri_nodup HR)].
  - eapply (Inv_weaken (pend := none_pending) (seq := run_seq r)); [done | exact Hseq|].
    unfold run_open. csimpl. rewrite Ec, Ed, Eg, Eh.
    apply (Inv_shut (ri_inv HR) Hkt Hks).
    + intros t Ht. destruct (G t) as (_ & G1 & G2).
      destruct (decide (t_ID t = tid)) as [E|E].
      * rewrite G1; [done|]. by apply list_elem_of_singleton.
      * rewrite G2 by (by rewrite list_elem_of_singleton).
        destruct (Live (t_Status t)) eqn:El; [|done]. destruct E. by rewrite (Htoks t Ht El).
    + intros x Hx. destruct (Hh x) as (_ & H1 & H2).
      destruct (decide (s_ID x = c_ID (r_c r))) as [E|E].
      * apply H1. by apply list_elem_of_singleton.
      * rewrite H2 by (by rewrite list_elem_of_singleton).
        destruct (scope_open x) eqn:Eo; [|done]. destruct E. by apply Hscopes.
  - intros n Hn. csimpl in Hn. rewrite Eu in Hn. apply (Hun _ _ Eg Eh). by apply (ri_fresh HR).
  - intros id Hid. destruct (ri_reserved HR id Hid) as (Hu & n & Hn & ->).
    split; [by apply (Hun _ _ Eg Eh)|].
    exists n. csimpl. by rewrite Eu.
Qed.

Lemma applyAssignRule_inv res pend r tid tok n r' :
  RInv cx res pend None None r -> run_token r tid = Some tok ->
  applyAssignRule e db r tid n = Ok r' -> RInv cx res pend None None r'.
Proof.
  intros HR Htok. unfold applyAssignRule. case_bool_decide; intros Ha; res_inv; [done|].
  case_match; [|done]. res_inv. destruct x as [r1 h]. res_inv.
  assert (HR1 : RInv cx res pend None None r1 /\ run_token r1 tid = Some tok).
  { match goal with Hf : fullHistory _ _ = Ok _ |- _ => unfold fullHistory in Hf end. res_inv.
    destruct (r_history r); res_inv; [by split|]. split; [by apply (RInv_ext r) | done]. }
  destruct HR1 as [HR1 Ht1]. case_bool_decide; res_inv; [done|]. apply RInv_emit.
  by apply (RInv_upd_same r1 tid _ tok); auto with vogel.
Qed.

Lemma rest_inv res pend r tid tok hop next r' :
  RInv cx res pend (Some tid) None r -> run_token r tid = Some tok -> t_Status tok = TokenActive ->
  rests (r_d r) (t_Node tok) ->
  rest e db r tid hop next = Ok r' -> RInv cx res pend None None r'.
Proof.
  intros HR Htok Hact Hrest. unfold rest.
  set (f := token_rest (resolvedEligibility next (c_Unit (r_c r)))).
  destruct (run_token_elem _ _ _ Htok) as [Hin Eid].
  assert (HR1 : RInv cx res pend None None (upd_token tid f r)).
  { apply (RInv_upd (hot := Some tid) (lax := None) r tid f tok); subst f; auto with vogel; simpl.
    - left. by rewrite Hact.
    - by rewrite Hact.
    - destruct (Inv_token tok (ri_inv HR) Hin) as (s & Hs & E & Hl & _). exists s.
      rewrite Hact in Hl. by split_and!. }
  pose proof (run_token_upd r tid f tok ltac:(subst f; auto with vogel) Htok) as Ht1.
  clear Eid. intros Hr. res_inv.
  pose proof (run_token_upd _ tid (token_with_deadline x0) _ ltac:(auto with vogel) Ht1) as Ht2.
  eapply applyAssignRule_inv; [| |exact Hr]; [|exact Ht2].
  apply RInv_events. apply (RInv_upd_same _ tid (token_with_deadline x0) (f tok)); auto with vogel.
Qed.

Lemma draw_uuids_spec k r :
  draw_uuids cx k r
  = (Nat.iter k draw_uuid r, (fun i => cx_uuid cx (r_uuids r + i)) <$> seq 0 k).
Proof.
  revert r. induction k as [|k IH]; intros r; [done|]. cbn [draw_uuids]. rewrite IH.
  rewrite Nat.iter_succ_r. f_equal. csimpl. f_equal; [by rewrite Nat.add_0_r|].
  rewrite <- fmap_S_seq, <- list_fmap_compose. apply list_fmap_ext. intros i x _. csimpl.
  f_equal. lia.
Qed.

Lemma iter_draw k r :
  r_c (Nat.iter k draw_uuid r) = r_c r /\ r_d (Nat.iter k draw_uuid r) = r_d r
  /\ r_tokens (Nat.iter k draw_uuid r) = r_tokens r /\ r_scopes (Nat.iter k draw_uuid r) = r_scopes r
  /\ run_seq (Nat.iter k draw_uuid r) = run_seq r
  /\ r_uuids (Nat.iter k draw_uuid r) = (k + r_uuids r)%nat
  /\ r_now (Nat.iter k draw_uuid r) = r_now r.
Proof.
  induction k as [|k IH]; [done|]. rewrite Nat.iter_succ.
  destruct IH as (E1 & E2 & E3 & E4 & E5 & E6 & E7). unfold run_seq in *. csimpl. rewrite E6. done.
Qed.

Lemma route_branches_inv rt res pend sid nd bs r r' :
  keeps_inv rt -> respects frame rt -> routable (r_d r) ->
  RInv cx (bs.*1 ++ res) (pend_at sid (length bs) pend) None None r ->
  Forall (fun b => b.2 ∈ TransitionsFrom (r_d r) (n_ID nd)) bs ->
  Definition_Node (r_d r) (n_ID nd) = Some nd -> IsAutomatic (n_Kind nd) = true ->
  route_branches rt sid (n_ID nd) bs r = Ok r' -> RInv cx res (pend_at sid 0 pend) None None r'.
Proof.
  intros Hrt Hfr Hd. revert r Hd. induction bs as [|[id tr] bs IH]; intros r Hd HR Htr End Hauto; csimpl.
  { intros [= <-]. exact HR. }
  intros Hb. apply res_bind_Ok in Hb as (r1 & Hr1 & Hb).
  pose proof (ri_nodup HR) as ND. csimpl in *. apply NoDup_cons in ND as [Hid ND].
  apply Forall_cons in Htr as [Ht Htr].
  apply elem_of_TransitionsFrom in Ht as [Ht Hfrom]. csimpl in *.
  set (nt := new_token id (c_ID (r_c r)) sid (n_ID nd)) in *.
  destruct (ri_reserved HR id (list_elem_of_here _ _)) as ([Hu1 Hu2] & m & Hm & Em).
  assert (HR1 : RInv cx (bs.*1 ++ res) (pend_at sid (length bs) pend) (Some id) None (addToken nt r)).
  { assert (Hun : forall x, x <> id -> unused r x -> unused (addToken nt r) x).
    { intros x Hx [H1 H2]. split; [|done]. csimpl. rewrite fmap_app, elem_of_app.
      intros [?|Hs]; [done|]. by apply list_elem_of_singleton in Hs. }
    constructor; [| | |done].
    - csimpl. eapply (Inv_perm (T := nt :: r_tokens r)); [by rewrite Permutation_cons_append | reflexivity|].
      exact (Inv_branch (t := nt) (ri_inv HR) eq_refl eq_refl eq_refl Hu1).
    - intros n Hn. apply Hun; [|by apply (ri_fresh HR)]. rewrite Em. intros E%Hinj. simpl in Hn. lia.
    - intros x Hx. destruct (ri_reserved HR x ltac:(by apply list_elem_of_further)) as (Hu & n & Hn & ->).
      split; [|by exists n]. apply Hun; [|done]. intros E. apply Hid. by rewrite <- E. }
  assert (HR2 : RInv cx (bs.*1 ++ res) (pend_at sid (length bs) pend) None None r1).
  { eapply Hrt; [|exact HR1| |exact Hr1]; [done|]. exists nt. split_and!; try done.
    - by apply (run_token_added r nt).
    - right. exists nd. csimpl. by rewrite Hfrom. }
  pose proof (fr_d _ _ (Hfr _ _ _ _ Hr1)) as Ed. simpl in Ed.
  apply (IH r1); auto; by rewrite Ed.
Qed.

Lemma inclusive_routes_incl routes c taken fallback :
  inclusive_routes e db routes c = Ok (taken, fallback) ->
  (forall tr, tr ∈ taken -> tr ∈ routes) /\ (forall tr, tr ∈ fallback -> tr ∈ routes).
Proof.
  revert taken fallback. induction routes as [|tr routes IH]; intros taken fallback; simpl.
  { intros [= <- <-]. done. }
  case_bool_decide; intros Hr; res_inv.
  - destruct x as [t1 f1]. res_inv.
    match goal with Hi : inclusive_routes _ _ _ _ = Ok _ |- _ => destruct (IH _ _ Hi) end.
    split; intros ?; rewrite ?elem_of_cons; [auto | intros [->|?]; auto].
  - destruct x1 as [t1 f1]. res_inv.
    match goal with Hi : inclusive_routes _ _ _ _ = Ok _ |- _ => destruct (IH _ _ Hi) end.
    case_match; simplify_eq; split; intros ?; rewrite ?elem_of_cons; auto; intros [->|?]; auto.
Qed.

Lemma split_taken_incl r tok node taken :
  split_taken e db r tok node = Ok taken ->
  Forall (fun tr => tr ∈ TransitionsFrom (r_d r) (n_ID node)) taken.
Proof.
  unfold split_taken. case_bool_decide; intros Ht; res_inv; [by apply Forall_forall|].
  destruct x as [t1 f1]. res_inv.
  match goal with Hi : inclusive_routes _ _ _ _ = Ok _ |- _ => apply inclusive_routes_incl in Hi as [H1 H2] end.
  apply Forall_forall. case_bool_decide; auto.
Qed.

(** The run after the split consumed its token and opened the scope. *)
Lemma split_opens res pend r r2 tid tok node (taken : list Transition) ids sid ev q :
  RInv cx res pend (Some tid) None r -> run_token r tid = Some tok ->
  t_Status tok = TokenActive -> taken <> [] ->
  sid = cx_uuid cx (r_uuids r) -> length ids = length taken ->
  (forall id, id ∈ ids -> exists i, (i < length taken)%nat /\ id = cx_uuid cx (S (r_uuids r) + i)) ->
  NoDup ids -> r_c r2 = r_c r -> r_d r2 = r_d r -> r_tokens r2 = r_tokens r -> r_scopes r2 = r_scopes r ->
  run_seq r2 = run_seq r -> r_uuids r2 = (length taken + S (r_uuids r))%nat -> q = next_seq r2 ->
  RInv cx (ids ++ res) (pend_at sid (length taken) pend) None None
    (add_scope (mkScope sid (c_ID (r_c r)) (Some (t_ScopeID tok)) (n_ID node) (n_Join node)
       (Z.of_nat (length taken)) ScopeOpen q 0) (run_end tid TokenConsumed q (emit ev r2))).
Proof.
  intros HR Htok Hact Hne -> Hlen Hin NDids E1 E2 E3 E4 E5 E6 Eq.
  destruct (ri_fresh HR (r_uuids r) ltac:(lia)) as [Hft Hfs].
  destruct (run_token_elem _ _ _ Htok) as [_ Eid].
  assert (Erun : exists now, r_tokens (run_end tid TokenConsumed q (emit ev r2))
      = upd_by t_ID tid (token_end TokenConsumed q now) (r_tokens r)
    /\ r_scopes (run_end tid TokenConsumed q (emit ev r2)) = r_scopes r
    /\ r_c (run_end tid TokenConsumed q (emit ev r2)) = r_c r
    /\ r_d (run_end tid TokenConsumed q (emit ev r2)) = r_d r
    /\ r_uuids (run_end tid TokenConsumed q (emit ev r2)) = (length taken + S (r_uuids r))%nat
    /\ run_seq (run_end tid TokenConsumed q (emit ev r2)) = run_seq r + 1).
  { exists (r_now r2). unfold run_end. rewrite <- E1, <- E2, <- E3, <- E4, <- E6, <- E5.
    destruct (touch_cases tid (upd_token tid (token_end TokenConsumed q (r_now (emit ev r2))) (emit ev r2)))
      as [-> | ->]; unfold run_seq; csimpl; rewrite length_app; split_and!; try done; simpl; lia. }
  destruct Erun as (now & Et & Es & Ec & Ed & Eu & Esq).
  set (r4 := run_end tid TokenConsumed q (emit ev r2)) in *.
  assert (Hids : t_ID <$> r_tokens r4 = t_ID <$> r_tokens r)
    by (rewrite Et; apply upd_by_keys; done).
  set (sc := mkScope _ _ _ _ _ _ _ _ _).
  assert (Hun : forall id, id <> cx_uuid cx (r_uuids r) -> unused r id -> unused (add_scope sc r4) id).
  { intros id Hid [H1 H2]. split; csimpl; [by rewrite Hids|]. rewrite Es, fmap_app, elem_of_app.
    intros [?|Hs]; [done|]. by apply list_elem_of_singleton in Hs. }
  constructor.
  - unfold run_open. csimpl. rewrite Ec, Ed, Et, Es.
    destruct (upd_by_perm t_ID tid (r_tokens r) tok (inv_tokens (ri_inv HR)) Htok) as (T0 & HT & Hu & _).
    eapply Inv_perm; [symmetry; apply Hu | symmetry; apply Permutation_app_comm|]. csimpl.
    assert (Hseq : run_seq (add_scope sc r4) = run_seq r + 1) by exact Esq. rewrite Hseq.
    assert (Hq : s_OpenedSeq sc = run_seq r + 1)
      by (subst sc q; unfold next_seq; rewrite <- E5; unfold run_seq; simpl; lia).
    refine (Inv_split (sc := sc) (t := tok) (t' := token_end TokenConsumed q now tok) (k := length taken) _ Hact eq_refl eq_refl eq_refl eq_refl Hfs eq_refl eq_refl eq_refl eq_refl _ _).
    + rewrite Eid. by eapply Inv_perm, (ri_inv HR).
    + destruct taken; [done|]. simpl. lia.
    + rewrite Hq. lia.
  - intros n Hn. csimpl in Hn. rewrite Eu in Hn. apply Hun; [intros E%Hinj; lia|].
    apply (ri_fresh HR). lia.
  - intros id [Hid|Hid]%elem_of_app.
    + destruct (Hin id Hid) as (i & Hi & ->). split.
      * apply Hun; [intros E%Hinj; lia|]. apply (ri_fresh HR). lia.
      * eexists. split; [|done]. csimpl. rewrite Eu. lia.
    + destruct (ri_reserved HR id Hid) as (Hu & n & Hn & ->). split.
      * apply Hun; [intros E%Hinj; lia | done].
      * exists n. split; [|done]. csimpl. rewrite Eu. lia.
  - apply NoDup_app. split_and!; [done| |apply (ri_nodup HR)].
    intros id Hid Hres. destruct (Hin id Hid) as (i & Hi & ->).
    destruct (ri_reserved HR _ Hres) as (_ & n & Hn & E%Hinj). lia.
Qed.

Lemma split_inv rt res pend r tid tok node r' :
  keeps_inv rt -> respects frame rt -> routable (r_d r) ->
  RInv cx res pend (Some tid) None r -> run_token r tid = Some tok -> t_Status tok = TokenActive ->
  Definition_Node (r_d r) (n_ID node) = Some node -> IsAutomatic (n_Kind node) = true ->
  split_with rt e cx db r tid node = Ok r' -> RInv cx res pend None None r'.
Proof.
  intros Hrt Hfr Hd HR Htok Hact End Hauto. unfold split_with. intros Hs.
  apply res_bind_Ok in Hs as (r0 & [-> _]%gatewayStep_Ok & Hs).
  apply res_bind_Ok in Hs as (tok' & Htok' & Hs). change (run_token (bump r) tid) with (run_token r tid) in Htok'.
  rewrite Htok in Htok'. injection Htok' as <-.
  apply res_bind_Ok in Hs as (taken & Htaken%split_taken_incl & Hs). change (r_d (bump r)) with (r_d r) in Htaken.
  case_bool_decide as Hne; [done|]. rewrite draw_uuids_spec in Hs.
  set (sid := cx_uuid cx (r_uuids (bump r))) in *.
  set (ids := (fun i => cx_uuid cx (r_uuids (draw_uuid (bump r)) + i)) <$> seq 0 (length taken)) in *.
  set (r2 := Nat.iter (length taken) draw_uuid (draw_uuid (bump r))) in *.
  destruct (iter_draw (length taken) (draw_uuid (bump r))) as (E1 & E2 & E3 & E4 & E5 & E6 & E7).
  fold r2 in E1, E2, E3, E4, E5, E6, E7. csimpl in E1. csimpl in E2. csimpl in E3. csimpl in E4. csimpl in E6.
  assert (Hids : length ids = length taken) by (unfold ids; by rewrite length_fmap, length_seq).
  assert (Hin : forall id, id ∈ ids -> exists i, (i < length taken)%nat
    /\ id = cx_uuid cx (S (r_uuids r) + i)).
  { intros id (i & -> & Hi)%list_elem_of_fmap. exists i. apply elem_of_seq in Hi. split; [lia | done]. }
  assert (NDids : NoDup ids).
  { apply NoDup_fmap; [|apply NoDup_seq]. intros i j E%Hinj. lia. }
  assert (HR5 : forall ev q, q = next_seq r2 -> RInv cx (ids ++ res) (pend_at sid (length taken) pend) None None
    (add_scope (mkScope sid (c_ID (r_c r)) (Some (t_ScopeID tok)) (n_ID node) (n_Join node)
       (Z.of_nat (length taken)) ScopeOpen q 0) (run_end tid TokenConsumed q (emit ev r2)))).
  { intros ev q Eq.
    exact (split_opens res pend r r2 tid tok node taken ids sid ev q HR Htok Hact Hne eq_refl Hids Hin NDids
             E1 E2 E3 E4 E5 E6 Eq). }
  match type of Hs with route_branches _ _ _ _ (mark_created _ (set_scopes _ (run_end _ _ ?q (emit ?ev _)))) = _ =>
    specialize (HR5 ev q eq_refl) end.
  match type of Hs with route_branches _ _ _ _ (mark_created _ (set_scopes _ ?r4)) = _ =>
    assert (Edd : r_d r4 = r_d r) end.
  { rewrite <- E2. apply fr_d. eapply (rr_step frame); [apply (run_end_rel frame) | apply rr_emit]. }
  match type of Hs with route_branches _ _ _ _ (mark_created _ (set_scopes _ (run_end tid _ ?q ?x))) = _ =>
    assert (Ecc : r_c (run_end tid TokenConsumed q x) = r_c r);
      [rewrite <- E1; exact (en_c _ _ _ _ _ (ended_run_end TokenConsumed tid q x))|] end.
  rewrite Ecc in Hs.
  assert (Hpend : pend sid = 0%nat).
  { apply (Inv_no_pend sid (ri_inv HR)). by apply (ri_fresh HR). }
  apply (RInv_pend (pend := pend_at sid 0 pend)).
  { intros id. unfold pend_at. case_decide; [by subst | done]. }
  assert (Efst : (zip ids taken).*1 = ids) by (apply fst_zip; lia).
  eapply (route_branches_inv rt res pend sid node); [exact Hrt|exact Hfr| | | | | |exact Hs].
  - csimpl. by rewrite Edd.
  - rewrite Efst, length_zip_with_l_eq by done.
    rewrite Hids. exact HR5.
  - csimpl. rewrite Edd. apply Forall_forall. intros [x tr] Hx. apply elem_of_zip_r in Hx.
    by apply (proj1 (Forall_forall _ _) Htaken).
  - csimpl. by rewrite Edd.
  - done.
Qed.

(** The hop of a token onto the next node. *)
Lemma hop_inv res pend r tid tok node ev q :
  RInv cx res pend (Some tid) None r -> run_token r tid = Some tok -> t_Status tok = TokenActive ->
  let r1 := touch tid (upd_token tid (token_enter node q (r_now (emit ev r))) (emit ev r)) in
  RInv cx res pend (Some tid) None r1
  /\ run_token r1 tid = Some (token_enter node q (r_now r) tok) /\ r_d r1 = r_d r.
Proof.
  intros HR Htok Hact r1. destruct (run_token_elem _ _ _ Htok) as [Hin Eid]. split_and!.
  - apply RInv_touch. apply (RInv_upd (hot := Some tid) (lax := None) (emit ev r) tid _ tok);
      [by apply RInv_emit | auto with vogel | done | by right | by left | done | | done].
    + destruct (Inv_token tok (ri_inv HR) Hin) as (s & Hs & E & Hl & _). exists s.
      split_and!; auto. simpl. by rewrite Hact.
  - unfold r1. rewrite run_token_touch. apply (run_token_upd (emit ev r)); [auto with vogel | done].
  - unfold r1. by destruct (touch_cases tid (upd_token tid (token_enter node q (r_now (emit ev r))) (emit ev r)))
      as [-> | ->].
Qed.

Lemma resolveRoute_elem routes c tr : resolveRoute e db routes c = Ok tr -> tr ∈ routes.
Proof.
  induction routes as [|x routes IH]; simpl; [done|]. rewrite elem_of_cons.
  case_bool_decide; intros Hr; res_inv; [by left|]. case_match; res_inv; auto.
Qed.

Lemma IsAutomatic_false k :
  k <> NodeDecision -> IsSplit k = false -> k <> NodeJoin -> IsAutomatic k = false.
Proof. intros H1 H2 H3. unfold IsAutomatic. by rewrite H2, !bool_decide_false. Qed.

Lemma route_inv fuel hops comment : keeps_inv (fun r tid tr => route fuel hops e cx db r tid tr comment).
Proof.
  revert hops comment. induction fuel as [|fuel IH];
    intros hops comment res pend r tid tr r' Hd HR (tok & Htok & Hact & Htr & Hfrom & Hside); simpl; [done|].
  destruct (Definition_Node (r_d r) (tr_To tr)) as [next|] eqn:Enext; [|done].
  destruct (Definition_Node_Some _ _ _ Enext) as [_ Eto].
  rewrite Htok. cbn [res_bind deref].
  match goal with |- context [emit ?x r] => set (ev := x) end. set (q := next_seq r).
  destruct (hop_inv res pend r tid tok (n_ID next) ev q HR Htok Hact) as (HR1 & Htok1 & Ed1).
  set (r1 := touch tid _) in *. set (tok1 := token_enter _ _ _ tok) in *.
  assert (Edef : Definition_Node (r_d r1) (n_ID next) = Some next) by (rewrite Ed1; congruence).
  assert (Hd1 : routable (r_d r1)) by (by rewrite Ed1).
  assert (Hrt : keeps_inv (fun r tid tr => route fuel 0 e cx db r tid tr "")) by apply IH.
  assert (Hfr : respects frame (fun r tid tr => route fuel 0 e cx db r tid tr ""))
    by (intros r0 tid0 tr0 r0' Hr0; exact (route_rel frame _ _ _ _ _ _ _ _ _ _ Hr0)).
  intros Hr. case_bool_decide as Ek.
  { case_match; [done|]. rewrite Htok1 in Hr. cbn [res_bind deref] in Hr. res_inv.
    match goal with Hx : resolveRoute _ _ _ _ = Ok ?t |- _ => apply resolveRoute_elem in Hx; rename Hx into Hin; rename t into tr' end.
    apply elem_of_TransitionsFrom in Hin as [Hin Hf'].
    eapply IH; [|exact HR1| |exact Hr]; [done|].
    exists tok1. split_and!; auto. right. exists next. rewrite Hf'. split; [done|].
    unfold IsAutomatic. by rewrite Ek. }
  case_match eqn:Esplit.
  { eapply (split_inv _ res pend r1 tid tok1 next); eauto. unfold IsAutomatic. by rewrite Esplit, orb_true_r. }
  case_bool_decide as Ej.
  { eapply (arrive_inv _ res pend r1 tid tok1 next); eauto.
    destruct Hside as [?|(n & En & Hn)]; [by left|]. right.
    destruct (decide (n_JoinPolicy next = JoinNone)) as [|Hp]; [done|].
    rewrite (rt_entry _ Hd tr n next Htr En Enext Ej Hp) in Hn. done. }
  case_match eqn:Eterm; [by eapply (closeCase_inv res pend r1 tid tok1)|].
  eapply (rest_inv res pend r1 tid tok1); eauto.
  exists next. split_and!; auto. by apply IsAutomatic_false.
Qed.

Lemma route_all_inv comment : keeps_inv (fun r tid tr => route_all e cx db r tid tr comment).
Proof. unfold route_all. apply route_inv. Qed.

Lemma tryJoin_all_inv res r sid sc r' :
  routable (r_d r) -> RInv cx res none_pending None (Some sid) r ->
  run_scope r sid = Some sc ->
  (0 < nactive (r_tokens r) sid + count (waits_in sid) (r_tokens r) + nchild (r_scopes r) sid)%nat ->
  tryJoin e cx db r sid = Ok r' -> RInv cx res none_pending None None r'.
Proof.
  intros Hd HR Hsc Hlive Ht. unfold tryJoin in Ht.
  eapply (tryJoin_inv (route_from_join e cx db)); [|exact Hd|exact HR|exact Hsc| | |exact Ht].
  - unfold route_from_join. apply route_all_inv.
  - unfold none_pending. lia.
  - by left.
Qed.

End Routing.
