(* ===== verification/EngineInv.v ===== *)
(** Every operation of [Engine.v] that changes a case plans a run that keeps the
    case's invariant: loading, moving, assigning, deadlines, expiry, cancelling. *)

From stdpp Require Import base gmap sets list strings.
From Stdlib Require Import ZArith Lia.
From S2P Require Import Prelude GoStrings Errors Model Definitions JoinPolicies Repo Ports Events.
From S2P Require Import Run Validate Engine RunFrame CaseInv RunInv.

Open Scope string_scope.
Open Scope Z_scope.

(** The invariant of a case between calls. *)
Definition case_inv (d : WDefinition) (c : Case) (T : list Token) (S : list Scope) : Prop :=
  Inv d (c_ID c) (bool_decide (c_Status c = StatusOpen)) none_pending None None (c_LastSeq c) T S.

(** The uuids the call may draw are used by no token or scope of the case. *)
Definition uuids_free (cx : Ctx) (T : list Token) (S : list Scope) : Prop :=
  forall n, (cx_uuid cx n ∉ t_ID <$> T) /\ (cx_uuid cx n ∉ s_ID <$> S).

(** The invariant of a run at rest. *)
Definition settled (cx : Ctx) (r : caseRun) : Prop := RInv cx [] none_pending None None r.

(** A settled run, read as the case it leaves. *)
Lemma settled_case cx r :
  settled cx r ->
  Inv (r_d r) (c_ID (r_c r)) (bool_decide (c_Status (r_c r) = StatusOpen)) none_pending None None
    (run_seq r) (r_tokens r) (r_scopes r).
Proof. intros HR. apply (ri_inv HR). Qed.

Lemma upd_by_absent {K A} `{EqDecision K} (key : A -> K) k f (l : list A) :
  find_by key k l = None -> upd_by key k f l = l.
Proof.
  intros Hn%find_by_None. unfold upd_by. transitivity (id <$> l); [|apply list_fmap_id].
  apply list_fmap_ext. intros i a Ha. rewrite decide_False; [done|]. intros E. apply Hn.
  rewrite <- E. apply list_elem_of_fmap_2. by eapply list_elem_of_lookup_2.
Qed.

(** A change of one token that moves nothing, whether or not the token is there. *)
Lemma RInv_upd_quiet {cx res pend lax} r id f :
  RInv cx res pend None lax r -> tok_stable f ->
  (forall t, t_Status (f t) = t_Status t /\ t_Node (f t) = t_Node t) ->
  RInv cx res pend None lax (upd_token id f r).
Proof.
  intros HR Hf Hq. destruct (run_token r id) as [t|] eqn:Et.
  - destruct (Hq t). apply (RInv_upd_same r id f t); auto.
  - apply (RInv_ext r); try done. by apply upd_by_absent.
Qed.

Lemma fill_token_inv cx r t : settled cx r -> settled cx (fill_token r t).
Proof.
  intros HR. unfold fill_token. repeat case_match; try done.
  apply RInv_touch. by apply RInv_upd_quiet; auto with vogel.
Qed.

Lemma fillEligibility_inv cx r : settled cx r -> settled cx (fillEligibility r).
Proof.
  unfold fillEligibility. generalize (r_tokens r). intros l. revert r.
  induction l as [|t l IH]; intros r HR; simpl; [done|]. by apply IH, fill_token_inv.
Qed.

Lemma fill_token_rel R `{!RunRel R} r t : R r (fill_token r t).
Proof.
  unfold fill_token. repeat case_match; try apply rr_refl. apply rr_touch. auto with vogel.
Qed.

Lemma fillEligibility_rel R `{!RunRel R} r : R r (fillEligibility r).
Proof. unfold fillEligibility. apply (fold_rel R). intros. by apply fill_token_rel. Qed.

Lemma fillEligibility_keeps r :
  r_c (fillEligibility r) = r_c r /\ r_events (fillEligibility r) = r_events r
  /\ r_uuids (fillEligibility r) = r_uuids r /\ r_gatewaySteps (fillEligibility r) = r_gatewaySteps r
  /\ r_scopes (fillEligibility r) = r_scopes r /\ r_created (fillEligibility r) = r_created r.
Proof.
  unfold fillEligibility. generalize (r_tokens r) as l. intros l. revert r.
  induction l as [|t l IH]; intros r; simpl; [done|].
  destruct (IH (fill_token r t)) as (-> & -> & -> & -> & -> & ->). unfold fill_token.
  repeat case_match; try done.
  match goal with |- context [touch ?id ?x] => by destruct (touch_cases id x) as [-> | ->] end.
Qed.

Lemma new_run_settled cx c d T S :
  case_inv d c T S -> uuids_free cx T S -> settled cx (new_run c d T S).
Proof.
  intros HI Hf. constructor.
  - unfold run_open, run_seq. simpl. by rewrite Z.add_0_r.
  - intros n _. apply Hf.
  - by intros id Hid%not_elem_of_nil.
  - constructor.
Qed.

Lemma settled_begin cx r now actor : settled cx r -> settled cx (begin now actor r).
Proof. intros HR. by apply (RInv_ext r). Qed.

Lemma Inv_heat {d cid o pend lax seq T S} hot :
  Inv d cid o pend None lax seq T S -> Inv d cid o pend hot lax seq T S.
Proof.
  intros [I1 I2 I3 I4 I5 I6 I7 I8 I9 I10 I11]. constructor; auto.
  eapply Forall_impl; [exact I11|]. simpl. auto.
Qed.

Lemma RInv_heat {cx res pend lax r} hot :
  RInv cx res pend None lax r -> RInv cx res pend hot lax r.
Proof. intros []. constructor; auto. by apply Inv_heat. Qed.

(** ** Picking a token *)

Lemma elem_of_active r t : t ∈ active r <-> t ∈ r_tokens r /\ t_Status t = TokenActive.
Proof.
  unfold active. rewrite elem_of_sort_by, list_elem_of_In, filter_In, <- list_elem_of_In.
  unfold is_active. by rewrite bool_decide_eq_true.
Qed.

Lemma pick_Ok r id t :
  pick r id = Ok t ->
  t ∈ r_tokens r /\ t_Status t = TokenActive /\ (id <> uuid_Nil -> t_ID t = id).
Proof.
  unfold pick. case_bool_decide as E.
  - destruct (active r) as [|x [|]] eqn:Ea; try done. intros [= <-].
    assert (x ∈ active r) as [? ?]%elem_of_active by (rewrite Ea; apply list_elem_of_here).
    by split_and!.
  - case_match eqn:Ef; [|done]. intros [= ->]. apply find_by_Some in Ef as [Hin Eid].
    apply elem_of_active in Hin as [? ?]. by split_and!.
Qed.

Lemma pick_run_token cx r id t : settled cx r -> pick r id = Ok t -> run_token r (t_ID t) = Some t.
Proof.
  intros HR (Hin & _)%pick_Ok. apply find_by_elem; [apply (inv_tokens (ri_inv HR)) | done].
Qed.

(** ** Changes of one token *)

Lemma token_change_inv cx cx' actor r tok f kind detail :
  settled cx r -> tok_stable f ->
  (forall t, t_Status (f t) = t_Status t /\ t_Node (f t) = t_Node t) ->
  settled cx (token_change cx' actor r tok f kind detail).
Proof.
  intros HR Hf Hq. unfold token_change. apply RInv_emit, RInv_touch.
  apply RInv_upd_quiet; auto. by apply settled_begin.
Qed.

Lemma token_change_d cx actor r tok f kind detail :
  r_d (token_change cx actor r tok f kind detail) = r_d r.
Proof.
  unfold token_change. simpl.
  match goal with |- context [touch ?id ?x] => by destruct (touch_cases id x) as [-> | ->] end.
Qed.

Lemma token_change_token cx actor r tok f kind detail :
  tok_stable f -> run_token r (t_ID tok) = Some tok ->
  run_token (token_change cx actor r tok f kind detail) (t_ID tok) = Some (f tok).
Proof.
  intros Hf Ht. unfold token_change.
  transitivity (run_token (touch (t_ID tok) (upd_token (t_ID tok) f (begin (cx_now cx) actor r))) (t_ID tok)); [done|].
  rewrite run_token_touch. by apply run_token_upd.
Qed.

Lemma token_set_deadline_stable dl : tok_stable (token_set_deadline dl).
Proof. by intros t. Qed.

#[export] Hint Resolve token_set_deadline_stable : vogel.

(** ** Cancelling a case *)

Lemma cancel_tokens_ended detail ids r r' :
  cancel_tokens detail ids r = Ok r' -> ended TokenCancelled ids [] r r'.
Proof.
  revert r. induction ids as [|id ids IH]; intros r; simpl; intros Hc; res_inv; [apply ended_refl|].
  match goal with Hx : cancel_token _ _ _ = Ok _ |- _ => unfold cancel_token in Hx end. res_inv.
  match goal with Hx : run_token _ _ = Some _ |- _ => apply run_token_elem in Hx as [_ <-] end.
  refine (ended_trans _ [t_ID x0] ids [] [] _ _ _ _ (IH _ Hc)).
  exact (ended_trans _ [] [t_ID x0] [] [] _ _ _ (ended_emit _ _ _) (ended_run_end _ _ _ _)).
Qed.

Lemma cancel_scopes_ended seq r :
  ended TokenCancelled [] (s_ID <$> List.filter scope_open (r_scopes r)) r (cancel_scopes seq r).
Proof.
  unfold cancel_scopes. generalize (r_scopes r) as l. intros l. revert r.
  induction l as [|s l IH]; intros r; csimpl; [apply ended_refl|].
  unfold scope_open at 1. case_bool_decide; csimpl; [|apply IH].
  refine (ended_trans _ [] [] [s_ID s] _ _ _ _ (ended_close_scope _ _ _ _ _ _) (IH _)). done.
Qed.

Lemma cancel_run_inv cx reason r r' :
  settled cx r -> cancel_run reason r = Ok r' -> settled cx r'.
Proof.
  intros HR. unfold cancel_run. intros Hc. res_inv.
  match goal with Hx : cancel_tokens _ _ _ = Ok ?y |- _ => apply cancel_tokens_ended in Hx; rename Hx into H1; rename y into r1 end.
  match goal with |- settled _ (set_run_case _ (cancel_scopes ?q ?x)) =>
    pose proof (ended_trans _ _ [] [] _ _ _ _ (ended_trans _ _ [] [] [] _ _ _ H1 (ended_emit _ _ r1 : ended _ _ _ r1 x))
      (cancel_scopes_ended q x)) as HE end.
  revert HE. match goal with |- context [cancel_scopes ?q ?x] => set (r3 := cancel_scopes q x); set (r2 := x) end.
  intros [Ec Ed Eu Hseq (g & Eg & G) (h & Eh & Hh)]. rewrite !app_nil_r in G. cbn [app] in Hh.
  assert (Es2 : r_scopes r2 = r_scopes r1) by done.
  destruct H1 as [Fc Fd Fu Fseq _ (h1 & Eh1 & Hh1)].
  assert (Es1 : r_scopes r1 = r_scopes r).
  { rewrite Eh1. transitivity (id <$> r_scopes r); [|apply list_fmap_id]. apply list_fmap_ext.
    intros i s _. destruct (Hh1 s) as (_ & _ & E). apply E, not_elem_of_nil. }
  assert (Hkt : keeps_tokens g (r_tokens r)) by (intros t _; apply G).
  assert (Hks : keeps_scopes h (r_scopes r)) by (intros x _; apply Hh).
  assert (HS : Inv (r_d r) (c_ID (r_c r)) false none_pending None None (run_seq r) (g <$> r_tokens r) (h <$> r_scopes r)).
  { apply (Inv_shut (ri_inv HR) Hkt Hks).
    - intros t Ht. destruct (G t) as (_ & G1 & G2).
      destruct (Live (t_Status t)) eqn:El.
      + rewrite G1; [done|]. apply list_elem_of_fmap_2, elem_of_sort_by.
        apply list_elem_of_In, filter_In. split; [by apply list_elem_of_In | done].
      + destruct (decide (t_ID t ∈ t_ID <$> sortTokens (List.filter (fun t => Live (t_Status t)) (r_tokens r)))) as [Hin|Hin];
          [by rewrite G1 | by rewrite G2].
    - intros s Hs. destruct (Hh s) as (_ & H1 & H2). destruct (scope_open s) eqn:Eo.
      + apply H1. apply list_elem_of_fmap_2, list_elem_of_In, filter_In.
        split; [apply list_elem_of_In; by rewrite Es2, Es1 | done].
      + destruct (decide (s_ID s ∈ s_ID <$> List.filter scope_open (r_scopes r2))) as [Hin|Hin];
          [by rewrite H1 | by rewrite H2]. }
  assert (Hun : forall id, unused r id -> unused (set_run_case (case_cancelled (r_now r3) (r_c r1)) r3) id).
  { intros id. unfold unused. csimpl. by rewrite Eg, Eh, (keeps_tokens_ids _ _ Hkt), (keeps_scopes_ids _ _ Hks). }
  constructor.
  - eapply (Inv_weaken (pend := none_pending) (seq := run_seq r)); [done | exact Hseq|].
    unfold run_open. csimpl. rewrite Ed, Eg, Eh. unfold case_cancelled. csimpl. rewrite Fc. exact HS.
  - intros n Hn. csimpl in Hn. rewrite Eu in Hn. apply Hun, (ri_fresh HR). done.
  - by intros id Hid%not_elem_of_nil.
  - constructor.
Qed.

(** ** The plans *)

Section Plans.
Context {DB : Type} `{Repository DB}.
Implicit Types (e : Engine DB) (cx : Ctx) (db : DB).

(** A call can work on case [caseID] of [db]: the stored case keeps the invariant
    under its definition, and the call's uuids are new. *)
Definition sound_case (e : Engine DB) (cx : Ctx) (db : DB) (caseID : uuid) : Prop :=
  (forall m n, cx_uuid cx m = cx_uuid cx n -> m = n)
  /\ forall c T S d,
    repo_GetByID db caseID = inr c -> repo_ListTokens db (c_ID c) = inr T ->
    repo_ListScopes db (c_ID c) = inr S ->
    resolveDefinition e (c_Definition c) (c_Version c) = Ok d ->
    routable d /\ case_inv d c T S /\ uuids_free cx T S.

Lemma openCase_Ok db id rev s c :
  openCase db id rev s = Ok c ->
  repo_GetByID db id = inr c /\ c_Status c = StatusOpen
  /\ (forall x, rev = Some x -> x = c_Revision c).
Proof.
  unfold openCase, checkRevision. intros Ho. res_inv.
  match goal with Hb : bool_decide _ = true |- _ => apply bool_decide_eq_true in Hb end.
  split_and!; try done. intros x ->. res_inv. by apply Z.eqb_eq.
Qed.

Lemma loadRun_settled e cx db caseID c d r :
  sound_case e cx db caseID -> repo_GetByID db caseID = inr c ->
  resolveDefinition e (c_Definition c) (c_Version c) = Ok d -> loadRun db c d = Ok r ->
  settled cx r /\ r_d r = d /\ routable d /\ r_c r = c.
Proof.
  intros [_ Hs] Hc Hd Hl. unfold loadRun in Hl. res_inv. case_match; res_inv.
  destruct (Hs c x x0 d) as (Hrt & HI & Hf); auto.
  pose proof (fillEligibility_keeps (new_run c d x x0)) as (Ec & _).
  split_and!; auto.
  - by apply fillEligibility_inv, new_run_settled.
  - exact (fr_d _ _ (fillEligibility_rel frame (new_run c d x x0))).
Qed.

(** A token of a settled run takes a transition of its node. *)
Lemma route_settled e cx db r tok tr comment r' :
  (forall m n, cx_uuid cx m = cx_uuid cx n -> m = n) ->
  routable (r_d r) -> settled cx r -> run_token r (t_ID tok) = Some tok ->
  t_Status tok = TokenActive -> tr ∈ TransitionsFrom (r_d r) (t_Node tok) ->
  route_all e cx db r (t_ID tok) tr comment = Ok r' -> settled cx r'.
Proof.
  intros Hinj Hrt HR Htok Hact [Hin Hfrom]%elem_of_TransitionsFrom Hr.
  eapply (route_all_inv e cx db Hinj comment); [exact Hrt | by apply RInv_heat | | exact Hr].
  exists tok. split_and!; auto.
Qed.

Lemma move_plan_inv e cx db inp d r :
  sound_case e cx db (mi_CaseID inp) -> move_plan e cx db inp = Ok (d, r) -> settled cx r.
Proof.
  intros Hs Hm. unfold move_plan in Hm. res_inv.
  match goal with Ho : openCase _ _ _ _ = Ok _ |- _ => apply openCase_Ok in Ho as (Hget & Hopen & _) end.
  match goal with Hl : loadRun _ _ _ = Ok ?x |- _ => rename Hl into Hload; rename x into r0 end.
  match goal with Hp : pick _ _ = Ok ?x |- _ => rename Hp into Hpick; rename x into tok end.
  match goal with Hd : resolveDefinition _ _ _ = Ok _ |- _ =>
    destruct (loadRun_settled _ _ _ _ _ _ _ Hs Hget Hd Hload) as (HR & Ed & Hrt & _) end.
  case_match eqn:Ef; [|done]. apply findTransition_Some in Ef as [Hin _]. res_inv.
  pose proof (pick_run_token _ _ _ _ HR Hpick) as Htok. apply pick_Ok in Hpick as (_ & Hact & _).
  match goal with Hr : route_all _ _ _ ?r1 _ _ _ = Ok _ |- _ =>
    apply (route_settled e cx db r1 tok t (TrimSpace (mi_Comment inp))) end; auto.
  - apply Hs.
  - by destruct (mi_Step inp).
  - destruct (mi_Step inp); [apply RInv_emit|]; by apply settled_begin.
  - by destruct (mi_Step inp).
  - by destruct (mi_Step inp).
Qed.

(** The token of a change and the run it is loaded in. *)
Lemma loadToken_settled e cx db caseID rev s c id r tok :
  sound_case e cx db caseID -> openCase db caseID rev s = Ok c ->
  loadToken e db c id = Ok (r, tok) ->
  settled cx r /\ run_token r (t_ID tok) = Some tok /\ t_Status tok = TokenActive /\ r_c r = c.
Proof.
  intros Hs (Hget & _)%openCase_Ok Hl. unfold loadToken in Hl. res_inv.
  match goal with Hd : resolveDefinition _ _ _ = Ok _, Hl : loadRun _ _ _ = Ok _ |- _ =>
    destruct (loadRun_settled _ _ _ _ _ _ _ Hs Hget Hd Hl) as (HR & _ & _ & Ec) end.
  match goal with Hp : pick _ _ = Ok _ |- _ =>
    pose proof (pick_run_token _ _ _ _ HR Hp); apply pick_Ok in Hp as (_ & ? & _) end.
  done.
Qed.

Ltac change_settled :=
  match goal with Hl : loadToken _ _ _ _ = Ok (_, _), Ho : openCase _ _ _ _ = Ok _ |- _ =>
    destruct (loadToken_settled _ _ _ _ _ _ _ _ _ _ ltac:(eassumption) Ho Hl) as (?HR & _) end;
  apply token_change_inv; auto with vogel.

Lemma claim_plan_inv e cx db inp r :
  sound_case e cx db (ci_CaseID inp) -> claim_plan e cx db inp = Ok (inr r) -> settled cx r.
Proof.
  intros Hs Hc. unfold claim_plan in Hc. res_inv. destruct x2 as [r0 tok].
  repeat case_bool_decide; try done; res_inv. simplify_eq. change_settled.
Qed.

Lemma release_plan_inv e cx db inp r :
  sound_case e cx db (ri_CaseID inp) -> release_plan e cx db inp = Ok r -> settled cx r.
Proof.
  intros Hs Hc. unfold release_plan in Hc. res_inv. destruct x1 as [r0 tok]. res_inv. change_settled.
Qed.

Lemma reassign_plan_inv e cx db inp r :
  sound_case e cx db (rai_CaseID inp) -> reassign_plan e cx db inp = Ok r -> settled cx r.
Proof.
  intros Hs Hc. unfold reassign_plan in Hc. res_inv. destruct x3 as [r0 tok]. res_inv. change_settled.
Qed.

Lemma set_deadline_plan_inv e cx db inp r :
  sound_case e cx db (sdi_CaseID inp) -> set_deadline_plan e cx db inp = Ok r -> settled cx r.
Proof.
  intros Hs Hc. unfold set_deadline_plan in Hc. res_inv. destruct x2 as [r0 tok]. res_inv. change_settled.
Qed.

Lemma cancel_plan_inv e cx db inp r :
  sound_case e cx db (cai_CaseID inp) -> cancel_plan e cx db inp = Ok r -> settled cx r.
Proof.
  intros Hs Hc. unfold cancel_plan in Hc. res_inv.
  match goal with Ho : openCase _ _ _ _ = Ok _ |- _ => apply openCase_Ok in Ho as (Hget & _) end.
  match goal with Hd : resolveDefinition _ _ _ = Ok _, Hl : loadRun _ _ _ = Ok _ |- _ =>
    destruct (loadRun_settled _ _ _ _ _ _ _ Hs Hget Hd Hl) as (HR & _) end.
  eapply cancel_run_inv; [|exact Hc]. by apply settled_begin.
Qed.

Lemma refresh_plan_inv e cx db caseID r :
  sound_case e cx db caseID -> refresh_plan e cx db caseID = Ok (Some r) -> settled cx r.
Proof.
  intros Hs Hc. unfold refresh_plan in Hc. res_inv. case_bool_decide; res_inv; [done|].
  match goal with Hd : resolveDefinition _ _ _ = Ok _, Hl : loadRun _ _ _ = Ok _, Hg : repo_GetByID _ _ = _ |- _ =>
    destruct (loadRun_settled _ _ _ _ _ _ _ Hs Hg Hd Hl) as (HR & _) end.
  case_match; res_inv; simplify_eq. by apply settled_begin.
Qed.

Lemma expire_plan_inv e cx db inp d r tr :
  sound_case e cx db (ei_CaseID inp) -> expire_plan e cx db inp = Ok (d, r, tr) -> settled cx r.
Proof.
  intros Hs Hm. unfold expire_plan in Hm. res_inv.
  match goal with Ho : openCase _ _ _ _ = Ok _ |- _ => apply openCase_Ok in Ho as (Hget & Hopen & _) end.
  match goal with Hl : loadRun _ _ _ = Ok ?x |- _ => rename Hl into Hload; rename x into r0 end.
  match goal with Hp : pick _ _ = Ok ?x |- _ => rename Hp into Hpick; rename x into tok end.
  match goal with Hd : resolveDefinition _ _ _ = Ok _ |- _ =>
    destruct (loadRun_settled _ _ _ _ _ _ _ Hs Hget Hd Hload) as (HR & Ed & Hrt & _) end.
  pose proof (pick_run_token _ _ _ _ HR Hpick) as Htok. apply pick_Ok in Hpick as (_ & Hact & _).
  match goal with Hx : expired_deadline _ _ = Ok ?dl |- _ => rename dl into dead end.
  match type of Hm with context [token_change cx ?a r0 tok ?f ?k ?j] =>
    set (r1 := token_change cx a r0 tok f k j) in *;
    assert (HR1 : settled cx r1) by (apply token_change_inv; auto with vogel);
    assert (Ht1 : run_token r1 (t_ID tok) = Some (f tok)) by (apply token_change_token; auto with vogel);
    assert (Ed1 : r_d r1 = r_d r0) by apply token_change_d end.
  match goal with Hx : expire_transition _ _ _ _ _ = Ok ?o |- _ => rename Hx into Htr; destruct o as [tr0|] end;
    [|res_inv; simplify_eq; exact HR1].
  res_inv. simplify_eq. apply RInv_events.
  assert (Hin : tr0 ∈ TransitionsFrom (r_d r0) (t_Node tok)).
  { unfold expire_transition in Htr. case_match; [|done]. case_bool_decide; [done|].
    case_match eqn:Ef; [|done]. apply findTransition_Some in Ef as [Ef _]. res_inv. by simplify_eq. }
  match goal with Hr : route_all _ _ _ _ _ _ _ = Ok _ |- _ =>
    eapply (route_settled e cx db r1 (token_with_expired (Some dead) tok) tr0 ""); [| | | | | |exact Hr] end; auto.
  - apply Hs.
  - by rewrite Ed1.
  - by rewrite Ed1.
Qed.

Lemma other_branches_live r tok :
  (0 < other_branches r tok)%nat ->
  (exists t, t ∈ r_tokens r /\ t_ScopeID t = t_ScopeID tok /\ t_ID t <> t_ID tok
             /\ Live (t_Status t) = true)
  \/ (0 < nchild (r_scopes r) (t_ScopeID tok))%nat.
Proof.
  unfold other_branches. intros Ho.
  match type of Ho with (0 < ?a + ?b)%nat => destruct (decide (0 < a)%nat) as [Ha|Ha]; [left|right] end.
  - apply count_pos in Ha as (t & Ht & Hb). apply andb_true_iff in Hb as [Hb Hl].
    apply andb_true_iff in Hb as [E%bool_decide_eq_true Hne%negb_true_iff].
    apply bool_decide_eq_false in Hne. by exists t.
  - unfold nchild, open_child, scope_open. lia.
Qed.

Lemma cancel_branch_inv e cx db reason r tok r' :
  (forall m n, cx_uuid cx m = cx_uuid cx n -> m = n) ->
  routable (r_d r) -> settled cx r -> run_token r (t_ID tok) = Some tok ->
  t_Status tok = TokenActive -> (0 < other_branches r tok)%nat ->
  cancel_branch e cx db reason r tok = Ok r' -> settled cx r'.
Proof.
  intros Hinj Hrt HR Htok Hact Ho. unfold cancel_branch.
  match goal with |- context [emit ?x r] => set (ev := x) end. set (q := next_seq r).
  set (f := token_end TokenCancelled q (r_now (emit ev r))).
  assert (HR1 : RInv cx [] none_pending None (Some (t_ScopeID tok)) (run_end (t_ID tok) TokenCancelled q (emit ev r))).
  { apply RInv_touch.
    apply (RInv_upd (hot := None) (lax := None) (emit ev r) (t_ID tok) f tok);
      [by apply RInv_emit | subst f; auto with vogel | done | by left | by right | simpl; by rewrite Hact | | done].
    destruct (run_token_elem _ _ _ Htok) as [Hin _].
    destruct (Inv_token tok (ri_inv HR) Hin) as (s & Hs & E & _). by exists s. }
  destruct (run_token_elem _ _ _ Htok) as [Hin _].
  destruct (Inv_token tok (ri_inv HR) Hin) as (sc & Hsc & Esc & _).
  assert (Erun : r_d (run_end (t_ID tok) TokenCancelled q (emit ev r)) = r_d r
    /\ r_scopes (run_end (t_ID tok) TokenCancelled q (emit ev r)) = r_scopes r
    /\ r_tokens (run_end (t_ID tok) TokenCancelled q (emit ev r)) = upd_by t_ID (t_ID tok) f (r_tokens r)).
  { unfold run_end. fold f. by destruct (touch_cases (t_ID tok) (upd_token (t_ID tok) f (emit ev r))) as [-> | ->]. }
  destruct Erun as (Ed & Es & Et). intros Ht.
  eapply (tryJoin_all_inv e cx db Hinj [] _ (t_ScopeID tok) sc); [| exact HR1 | | |exact Ht].
  - by rewrite Ed.
  - unfold run_scope. rewrite Es, <- Esc. apply find_by_elem; [apply (inv_scopes (ri_inv HR)) | done].
  - rewrite Es, Et. apply other_branches_live in Ho as [(t & Hti & Ets & Hne & Hl)|Hc]; [|lia].
    assert (Hti' : t ∈ upd_by t_ID (t_ID tok) f (r_tokens r)).
    { apply elem_of_upd_by. exists t. split; [done|]. by rewrite decide_False. }
    destruct (t_Status t) eqn:Est; try done.
    + assert (0 < nactive (upd_by t_ID (t_ID tok) f (r_tokens r)) (t_ScopeID tok))%nat; [|lia].
      apply count_pos. exists t. split; [done|]. unfold works_in. by rewrite Est, !bool_decide_true.
    + assert (0 < count (waits_in (t_ScopeID tok)) (upd_by t_ID (t_ID tok) f (r_tokens r)))%nat; [|lia].
      apply count_pos. exists t. split; [done|]. unfold waits_in. by rewrite Est, !bool_decide_true.
Qed.

Lemma cancel_token_plan_inv e cx db inp d r :
  sound_case e cx db (cti_CaseID inp) -> cancel_token_plan e cx db inp = Ok (d, r) -> settled cx r.
Proof.
  intros Hs Hm. unfold cancel_token_plan in Hm. res_inv.
  match goal with Ho : openCase _ _ _ _ = Ok _ |- _ => apply openCase_Ok in Ho as (Hget & Hopen & _) end.
  match goal with Hl : loadRun _ _ _ = Ok ?x |- _ => rename Hl into Hload; rename x into r0 end.
  match goal with Hp : pick _ _ = Ok ?x |- _ => rename Hp into Hpick; rename x into tok end.
  match goal with Hd : resolveDefinition _ _ _ = Ok _ |- _ =>
    destruct (loadRun_settled _ _ _ _ _ _ _ Hs Hget Hd Hload) as (HR & Ed & Hrt & _) end.
  pose proof (pick_run_token _ _ _ _ HR Hpick) as Htok. apply pick_Ok in Hpick as (_ & Hact & _).
  match goal with Hc : cancel_branch _ _ _ _ _ _ = Ok _ |- _ =>
    eapply (cancel_branch_inv e cx db _ _ tok); [| | | | | |exact Hc] end; auto.
  - apply Hs.
  - simpl. by rewrite Ed.
  - by apply settled_begin.
  - match goal with Hn : negb _ = true |- _ => apply negb_true_iff, Nat.eqb_neq in Hn end.
    match goal with |- (0 < other_branches (begin _ _ ?x) _)%nat =>
      change (0 < other_branches x tok)%nat end. lia.
Qed.

End Plans.
