(* ===== verification/Persist.v ===== *)
(** Persisting a run ([persist], [writeState] and [appendEvent] of [run.go] and
    [events.go]) against the laws of the repository: the case, tokens and scopes of
    the run are exactly what is stored afterwards, its events are appended, no other
    case changes, and the write is a compare-and-swap. *)

From stdpp Require Import base gmap sets list strings.
From Stdlib Require Import ZArith Lia.
From S2P Require Import Prelude GoStrings Errors Model Definitions JoinPolicies Repo Ports Events.
From S2P Require Import Run RunFrame CaseInv RunInv.

Open Scope string_scope.
Open Scope list_scope.
Open Scope Z_scope.

(** ** Writing a list of rows *)

Section Sync.
Context {A : Type} (key : A -> uuid) (write : A -> A -> A) (created changed : gset uuid).

(** The rows [V] become [V'] when the list [l] is written item by item: created
    ones inserted, changed ones updated, the rest left. *)
Inductive synced : list A -> list A -> list A -> Prop :=
| synced_nil V V' : V' ≡ₚ V -> synced [] V V'
| synced_create a l V V1 V' :
    key a ∈ created -> (key a ∉ key <$> V) -> V1 ≡ₚ a :: V -> synced l V1 V' ->
    synced (a :: l) V V'
| synced_change a l V V1 V' :
    (key a ∉ created) -> key a ∈ changed -> V1 ≡ₚ upd_by key (key a) (write a) V ->
    synced l V1 V' -> synced (a :: l) V V'
| synced_keep a l V V' :
    (key a ∉ created) -> (key a ∉ changed) -> synced l V V' -> synced (a :: l) V V'.

(** What the run knows of its rows: a row that is not created comes from [V0], with
    the same identity, and unchanged unless marked. *)
Definition tracks (V0 l : list A) : Prop :=
  (forall a, a ∈ l -> (key a ∉ created) ->
     exists a0, a0 ∈ V0 /\ key a0 = key a /\ write a a0 = a /\ ((key a ∉ changed) -> a = a0))
  /\ (forall a0, a0 ∈ V0 -> key a0 ∈ key <$> l).

Lemma synced_stored (V0 p q V V' : list A) :
  (forall a b, key (write a b) = key b) ->
  synced q V V' -> NoDup (key <$> (p ++ q)) -> NoDup (key <$> V) -> NoDup (key <$> V0) ->
  tracks V0 (p ++ q) ->
  (forall a, a ∈ p -> a ∈ V) ->
  (forall v, v ∈ V -> v ∈ p \/ (v ∈ V0 /\ key v ∈ key <$> q)) ->
  (forall v, v ∈ V0 -> key v ∈ key <$> q -> v ∈ V) ->
  V' ≡ₚ p ++ q.
Proof.
  intros Hw Hs. revert p. induction Hs as
    [V V' E|a l V V1 V' Hc Hn E Hs IH|a l V V1 V' Hc Hch E Hs IH|a l V V' Hc Hch Hs IH];
    intros p ND NDV NDV0 Htk Hp Hv H0; pose proof Htk as [Htr Hall].
  - rewrite E, app_nil_r in *. apply NoDup_Permutation; [by eapply NoDup_fmap_1 | by eapply NoDup_fmap_1|].
    intros x. split; [|auto]. intros Hx. destruct (Hv x Hx) as [?|[_ Hk]]; [done|].
    by apply not_elem_of_nil in Hk.
  - assert (Eq : (p ++ a :: l = (p ++ [a]) ++ l)%list) by (by rewrite <- app_assoc). rewrite Eq in *.
    apply IH; auto.
    + rewrite E. csimpl. by apply NoDup_cons.
    + intros x [Hx|Hx]%elem_of_app; rewrite E, elem_of_cons; [right; auto|].
      left. by apply list_elem_of_singleton in Hx.
    + intros v. rewrite E, elem_of_cons, elem_of_app, list_elem_of_singleton.
      intros [->|Hvv]; [auto|]. destruct (Hv v Hvv) as [?|[Hv0 Hk]]; [auto|]. csimpl in Hk.
      apply elem_of_cons in Hk as [Ek|Hk]; [|auto]. destruct Hn. rewrite <- Ek. by apply list_elem_of_fmap_2.
    + intros v Hv0 Hk. rewrite E, elem_of_cons. right. apply H0; [done|]. csimpl. by apply list_elem_of_further.
  - assert (Eq : (p ++ a :: l = (p ++ [a]) ++ l)%list) by (by rewrite <- app_assoc). rewrite Eq in *.
    destruct (Htr a) as (a0 & Ha0 & Ek & Ew & _); [rewrite !elem_of_app, list_elem_of_singleton; auto | done|].
    assert (Ha0V : a0 ∈ V) by (apply H0; [done|]; csimpl; rewrite Ek; apply list_elem_of_here).
    assert (Helem : forall x, x ∈ V1 <-> x = a \/ (x ∈ V /\ key x <> key a)).
    { intros x. rewrite E, elem_of_upd_by. split.
      - intros (b & Hb & ->). case_decide as Eb; [|auto]. left.
        rewrite (NoDup_key_inj key V b a0); [done..|congruence].
      - intros [->|[Hx Hne]]; [exists a0; rewrite decide_True by done; by rewrite Ew |].
        exists x. by rewrite decide_False. }
    apply IH; auto.
    + rewrite E, upd_by_keys; auto.
    + intros x Hx. apply Helem. apply elem_of_app in Hx as [Hx|Hx%list_elem_of_singleton]; [|auto].
      right. split; [auto|]. intros Ek'. rewrite fmap_app, fmap_app in ND.
      apply NoDup_app in ND as (ND & _ & _). apply NoDup_app in ND as (_ & Hd & _).
      apply (Hd (key x)); [by apply list_elem_of_fmap_2|]. csimpl. rewrite Ek'. by apply list_elem_of_singleton.
    + intros v [->|[Hvv Hne]]%Helem; [left; apply elem_of_app; right; by apply list_elem_of_singleton|].
      destruct (Hv v Hvv) as [?|[Hv0 Hk]]; [left; apply elem_of_app; auto|]. csimpl in Hk.
      apply elem_of_cons in Hk as [?|Hk]; [done | auto].
    + intros v Hv0 Hk. apply Helem. right. split; [apply H0; [done|]; csimpl; by apply list_elem_of_further|].
      intros Ek'. rewrite fmap_app in ND. apply NoDup_app in ND as (_ & Hd & _). apply (Hd (key v)); [|done].
      rewrite Ek'. apply list_elem_of_fmap_2, elem_of_app. right. by apply list_elem_of_singleton.
  - assert (Eq : (p ++ a :: l = (p ++ [a]) ++ l)%list) by (by rewrite <- app_assoc). rewrite Eq in *.
    destruct (Htr a) as (a0 & Ha0 & Ek & _ & Ekeep); [rewrite !elem_of_app, list_elem_of_singleton; auto | done|].
    specialize (Ekeep Hch). subst a0.
    assert (HaV : a ∈ V) by (apply H0; [done|]; csimpl; apply list_elem_of_here).
    apply IH; auto.
    + intros x Hx. apply elem_of_app in Hx as [Hx|Hx%list_elem_of_singleton]; [auto | by subst].
    + intros v Hvv. destruct (Hv v Hvv) as [?|[Hv0 Hk]]; [left; apply elem_of_app; auto|]. csimpl in Hk.
      apply elem_of_cons in Hk as [Ekv|Hk]; [|auto]. left. apply elem_of_app. right. apply list_elem_of_singleton.
      by apply (NoDup_key_inj key V0).
    + intros v Hv0 Hk. apply H0; [done|]. csimpl. by apply list_elem_of_further.
Qed.

Lemma synced_all V0 l V V' :
  (forall a b, key (write a b) = key b) ->
  synced l V V' -> V ≡ₚ V0 -> NoDup (key <$> l) -> NoDup (key <$> V0) -> tracks V0 l -> V' ≡ₚ l.
Proof.
  intros Hw Hs E ND ND0 Ht. refine (synced_stored V0 [] l V V' Hw Hs ND _ ND0 Ht _ _ _).
  - by rewrite E.
  - by intros a Ha%not_elem_of_nil.
  - intros v Hv. right. rewrite E in Hv. split; [done|]. by apply (proj2 Ht).
  - intros v Hv _. by rewrite E.
Qed.

End Sync.

(** ** A run tracks what it changes *)

Section TracksFacts.
Context {A : Type} (key : A -> uuid) (write : A -> A -> A).

Lemma tracks_mono (C C' M M' : gset uuid) (V0 l : list A) :
  C ⊆ C' -> M ⊆ M' -> tracks key write C M V0 l -> tracks key write C' M' V0 l.
Proof.
  intros HC HM [Ht Ha]. split; [|done]. intros a Hin Hn.
  destruct (Ht a Hin) as (a0 & H0 & Ek & Ew & Ekeep); [set_solver|].
  exists a0. split_and!; [done..|]. intros Hm. apply Ekeep. set_solver.
Qed.

Lemma tracks_upd (C M : gset uuid) (V0 l : list A) id f :
  (forall a, key (f a) = key a) -> (forall a a0, write a a0 = a -> write (f a) a0 = f a) ->
  id ∈ C \/ id ∈ M ->
  tracks key write C M V0 l -> tracks key write C M V0 (upd_by key id f l).
Proof.
  intros Hk Hw Hid [Ht Ha]. split; [|by rewrite upd_by_keys].
  intros b (a & Hin & ->)%elem_of_upd_by. case_decide as E; [|auto]. rewrite Hk. intros Hn.
  destruct (Ht a Hin Hn) as (a0 & H0 & Ek & Ew & _). exists a0. split_and!; auto.
  intros Hm. destruct Hid; subst; contradiction.
Qed.

Lemma tracks_add (C M : gset uuid) (V0 l : list A) a :
  tracks key write C M V0 l -> tracks key write ({[key a]} ∪ C) M V0 (l ++ [a]).
Proof.
  intros [Ht Ha]. split.
  - intros b [Hb|Hb%list_elem_of_singleton]%elem_of_app Hn; [|set_solver].
    apply Ht; [done | set_solver].
  - intros a0 H0. rewrite fmap_app, elem_of_app. auto.
Qed.

Lemma tracks_start (l V0 : list A) : l = V0 -> (forall a, write a a = a) -> tracks key write ∅ ∅ V0 l.
Proof.
  intros -> Hw. split.
  - intros a Ha _. exists a. by split_and!.
  - intros a Ha. by apply list_elem_of_fmap_2.
Qed.

End TracksFacts.

Definition run_tracks (T0 : list Token) (S0 : list Scope) (r : caseRun) : Prop :=
  tracks t_ID write_token (r_created r) (r_changed r) T0 (r_tokens r)
  /\ tracks s_ID write_scope (r_created r) (r_changed r) S0 (r_scopes r).

Definition keeps_tracks (T0 : list Token) (S0 : list Scope) (r r' : caseRun) : Prop :=
  frame r r' /\ (run_tracks T0 S0 r -> run_tracks T0 S0 r').

Lemma write_token_stable f a a0 : tok_stable f -> write_token a a0 = a -> write_token (f a) a0 = f a.
Proof.
  intros Hf E. destruct (Hf a) as (E1 & E2 & E3).
  assert (t_ID a0 = t_ID a /\ t_CaseID a0 = t_CaseID a /\ t_ScopeID a0 = t_ScopeID a) as (F1 & F2 & F3)
    by (rewrite <- E; done).
  unfold write_token. rewrite F1, F2, F3, <- E1, <- E2, <- E3. by destruct (f a).
Qed.

Lemma write_scope_status st seq a a0 :
  write_scope a a0 = a -> write_scope (scope_with_status st seq a) a0 = scope_with_status st seq a.
Proof.
  intros E.
  assert (s_ID a0 = s_ID a /\ s_CaseID a0 = s_CaseID a /\ s_ParentID a0 = s_ParentID a
    /\ s_SplitNode a0 = s_SplitNode a /\ s_JoinNode a0 = s_JoinNode a /\ s_Expected a0 = s_Expected a
    /\ s_OpenedSeq a0 = s_OpenedSeq a) as (F1 & F2 & F3 & F4 & F5 & F6 & F7) by (rewrite <- E; done).
  unfold write_scope, scope_with_status. simpl. by rewrite F1, F2, F3, F4, F5, F6, F7.
Qed.

Lemma run_tracks_touch T0 S0 id r :
  run_tracks T0 S0 r -> run_tracks T0 S0 (touch id r).
Proof.
  intros [H1 H2]. destruct (touch_cases id r) as [-> | ->]; [done|].
  split; (eapply tracks_mono; [done | apply union_subseteq_r | done]).
Qed.

Lemma run_tracks_token T0 S0 id f r :
  tok_stable f -> tracked r id -> run_tracks T0 S0 r -> run_tracks T0 S0 (upd_token id f r).
Proof.
  intros Hf Ht [H1 H2]. split; [|done]. apply tracks_upd; auto.
  - intros a. apply Hf.
  - intros a a0. by apply write_token_stable.
Qed.

Lemma touch_upd_token id f r : touch id (upd_token id f r) = upd_token id f (touch id r).
Proof. unfold touch. csimpl. by case_bool_decide. Qed.

Lemma touch_upd_scope id f r : touch id (upd_scope id f r) = upd_scope id f (touch id r).
Proof. unfold touch. csimpl. by case_bool_decide. Qed.

#[export] Instance keeps_tracks_RunRel T0 S0 : RunRel (keeps_tracks T0 S0).
Proof.
  split.
  - intros r. split; [apply rr_refl | done].
  - intros r1 r2 r3 [F1 N1] [F2 N2]. split; [by eapply rr_trans | auto].
  - intros r r' id [F _]. exact (rr_tracked _ _ _ F).
  - intros r e. split; [apply rr_emit | done].
  - intros r id f Hf. split; [by apply rr_touch|]. intros Ht. rewrite touch_upd_token.
    apply run_tracks_token; auto using tracked_touch, run_tracks_touch.
  - intros r id f Hf Ht. split; [by apply rr_update|]. by apply run_tracks_token.
  - intros r id st seq. split; [apply rr_close_scope|]. intros Ht. unfold close_scope.
    rewrite touch_upd_scope. destruct (run_tracks_touch T0 S0 id r Ht) as [H1 H2]. split; [done|].
    apply tracks_upd; [done | intros a a0; apply write_scope_status | apply tracked_touch | done].
  - intros r id scope node. split; [apply rr_addToken|]. intros [H1 H2]. split.
    + apply (tracks_add t_ID write_token _ _ _ _ (new_token id (c_ID (r_c r)) scope node) H1).
    + eapply tracks_mono; [apply union_subseteq_r | done | exact H2].
  - intros r id parent split join k st o c. split; [apply rr_add_scope|]. intros [H1 H2]. split.
    + eapply tracks_mono; [apply union_subseteq_r | done | exact H1].
    + apply (tracks_add s_ID write_scope _ _ _ _ (mkScope id (c_ID (r_c r)) parent split join k st o c) H2).
  - intros. split; [apply rr_draw | done].
  - intros. split; [by apply rr_bump | done].
  - intros. split; [apply rr_add_joined | done].
  - intros. split; [apply rr_note | done].
  - intros. split; [apply rr_history | done].
  - intros. split; [apply rr_deadline | done].
  - intros. split; [by apply rr_case | done].
Qed.

Lemma new_run_tracks c d T S : run_tracks T S (new_run c d T S).
Proof.
  split; (apply tracks_start; [done|]); [by intros []|by intros []].
Qed.

(** ** Persisting *)

(** The stored event records the planned one. *)
Definition recorded (c : Case) (planned stored : Event) : Prop :=
  ev_CaseID stored = c_ID c /\ ev_Tenant stored = c_Tenant c
  /\ ev_Seq stored = ev_Seq planned /\ ev_Kind stored = ev_Kind planned
  /\ ev_FromState stored = ev_FromState planned /\ ev_ToState stored = ev_ToState planned
  /\ ev_Action stored = ev_Action planned /\ ev_Comment stored = ev_Comment planned
  /\ ev_DeadlineAt stored = ev_DeadlineAt planned /\ ev_OccurredAt stored = ev_OccurredAt planned
  /\ ev_SchemaVersion stored = CurrentEventSchema
  /\ ev_Detail stored = Some (default emptyDetail (ev_Detail planned))
  /\ (ev_TokenID planned <> uuid_Nil -> ev_TokenID stored = ev_TokenID planned)
  /\ a_ID (ev_Actor stored) = a_ID (ev_Actor planned).

(** [appended c l V V']: the planned events [l], stored one after the other and each
    linked to the one before, lead from the history [V] to [V']. *)
Inductive appended (c : Case) : list Event -> list Event -> list Event -> Prop :=
| appended_nil V V' : V' ≡ₚ V -> appended c [] V V'
| appended_cons ev st l V V1 V' :
    recorded c ev st -> linked_to st V -> V1 ≡ₚ st :: V -> appended c l V1 V' ->
    appended c (ev :: l) V V'.

Lemma appended_stored c l V V' :
  appended c l V V' -> exists stored, Forall2 (recorded c) l stored /\ V' ≡ₚ stored ++ V.
Proof.
  induction 1 as [V V' E|ev st l V V1 V' Hr _ E _ (stored & HF & E')].
  - exists []. split; [constructor | done].
  - exists (st :: stored). split; [by constructor|]. rewrite E', E. csimpl. by rewrite Permutation_middle.
Qed.

Lemma appended_start c l V V0 V' : V ≡ₚ V0 -> appended c l V V' -> appended c l V0 V'.
Proof.
  intros E Ha. destruct Ha as [V V' E'|ev st l V V1 V' Hr Hl E' Ha].
  - constructor. by rewrite E'.
  - apply appended_cons with st V1; [done| |by rewrite <- E|done]. unfold linked_to in *.
    destruct Hl as [Hd [(x & Hx & Hl)|[Hn Hl]]]; (split; [done|]).
    + left. exists x. by rewrite <- E.
    + right. split; [|done]. intros x. rewrite <- E. apply Hn.
Qed.

(** A history without gaps, its chain linked: the events are numbered from 1 to [n],
    each has a digest, and each names the digest of the one before. *)
Definition history (n : Z) (V : list Event) : Prop :=
  0 <= n /\ ev_Seq <$> V ≡ₚ seqZ 1 n
  /\ (forall x, x ∈ V -> is_Some (ev_Digest x) /\ (ev_Seq x = 1 -> ev_PrevDigest x = None))
  /\ (forall x y, x ∈ V -> y ∈ V -> ev_Seq x = ev_Seq y + 1 -> ev_PrevDigest x = ev_Digest y).

Lemma history_seq n V x : history n V -> x ∈ V -> 1 <= ev_Seq x <= n.
Proof.
  intros (_ & Hs & _) Hx. apply (list_elem_of_fmap_2 ev_Seq) in Hx. rewrite Hs in Hx.
  apply elem_of_seqZ in Hx. lia.
Qed.

Lemma history_unique n V x y : history n V -> x ∈ V -> y ∈ V -> ev_Seq x = ev_Seq y -> x = y.
Proof.
  intros (_ & Hs & _) Hx Hy E. apply (NoDup_key_inj ev_Seq V); [|done..]. rewrite Hs. apply NoDup_seqZ.
Qed.

Lemma history_snoc n V V1 st :
  history n V -> ev_Seq st = n + 1 -> linked_to st V -> V1 ≡ₚ st :: V -> history (n + 1) V1.
Proof.
  intros Hh Es [Hd Hl] E. pose proof (fun x => history_seq n V x Hh) as Hseq. pose proof Hh as (Hn & Hs & Hx & Hc).
  assert (Hprev : forall y, y ∈ V -> ev_Seq st = ev_Seq y + 1 -> ev_PrevDigest st = ev_Digest y).
  { intros y Hy Ey. destruct Hl as [(x & Hxx & Ex & ->)|[Hno _]].
    - f_equal. apply (history_unique n V); [done..|]. lia.
    - exfalso. apply (Hno y Hy). lia. }
  split_and!; [lia| | |].
  - rewrite E. csimpl. rewrite Hs, Es, seqZ_app by lia.
    assert (seqZ (1 + n) 1 = [n + 1]) as -> by (rewrite seqZ_cons by lia; simpl; by rewrite Z.add_comm).
    by rewrite Permutation_app_comm.
  - intros x. rewrite E, elem_of_cons. intros [->|Hin]; [|auto]. split; [done|]. intros E1.
    destruct Hl as [(y & Hy & Ey & _)|[_ ?]]; [|done]. pose proof (Hseq y Hy). lia.
  - intros x y. rewrite E, !elem_of_cons. intros [->|Hin] [->|Hin'] Ee; auto; try lia.
    pose proof (Hseq x Hin). lia.
Qed.

Lemma history_nil : history 0 [].
Proof. split_and!; [done..| |]; [by intros x Hx%not_elem_of_nil | by intros x y Hx%not_elem_of_nil]. Qed.

Lemma history_perm n V V' : V' ≡ₚ V -> history n V -> history n V'.
Proof. intros E. unfold history. by setoid_rewrite E. Qed.

Lemma history_appended c l V V' n :
  appended c l V V' -> history n V ->
  ev_Seq <$> l = seqZ (n + 1) (Z.of_nat (length l)) -> history (n + Z.of_nat (length l)) V'.
Proof.
  intros Ha. revert n. induction Ha as [V V' E|ev st l V V1 V' Hr Hl E Ha IH]; intros n Hh Hl'.
  - simpl. rewrite Z.add_0_r. by eapply history_perm.
  - csimpl in *. rewrite Nat2Z.inj_succ, seqZ_cons in Hl' by lia. injection Hl' as E1 E2.
    replace (n + Z.of_nat (S (length l))) with (n + 1 + Z.of_nat (length l)) by lia. apply IH.
    + eapply history_snoc; [exact Hh| |exact Hl|exact E]. destruct Hr as (_ & _ & -> & _). lia.
    + rewrite E2. f_equal; lia.
Qed.

Section Persist.
Context {DB : Type} `{RepositoryLaws DB}.
Implicit Types (e : Engine DB) (cx : Ctx) (db : DB).

Lemma w_bind_Ok {X Y} (m : writer DB X) (k : X -> writer DB Y) db db' y :
  w_bind m k db = (db', Ok y) -> exists db1 x, m db = (db1, Ok x) /\ k x db1 = (db', Ok y).
Proof.
  unfold w_bind. destruct (m db) as [db1 [x| | |]]; try done. eauto.
Qed.

Lemma w_lift_Ok {X} (m : DB -> DB * (error + X)) db db' x :
  w_lift m db = (db', Ok x) -> m db = (db', inr x).
Proof. unfold w_lift. destruct (m db) as [db1 [|]]; simpl; congruence. Qed.

Lemma write_scopes_synced C M cid l db db' :
  write_scopes C M l db = (db', Ok tt) ->
  Forall (fun s => s_CaseID s = cid) l ->
  (forall s, s ∈ l -> (s_ID s ∉ C) -> s_ID s ∈ s_ID <$> v_scopes (view db cid)) ->
  synced s_ID write_scope C M l (v_scopes (view db cid)) (v_scopes (view db' cid))
  /\ v_case (view db' cid) = v_case (view db cid) /\ v_tokens (view db' cid) = v_tokens (view db cid)
  /\ v_events (view db' cid) = v_events (view db cid) /\ same_except view db db' cid.
Proof.
  revert db. induction l as [|s l IH]; intros db Hw Hc Hin; simpl in Hw.
  { injection Hw as <-. split_and!; try done. by constructor. }
  apply Forall_cons in Hc as [Ec Hc]. apply w_bind_Ok in Hw as (db1 & [] & H1 & Hw).
  assert (Hgo : (forall id, id ∈ s_ID <$> v_scopes (view db cid) -> id ∈ s_ID <$> v_scopes (view db1 cid)) ->
    synced s_ID write_scope C M l (v_scopes (view db1 cid)) (v_scopes (view db' cid))
    /\ v_case (view db' cid) = v_case (view db1 cid) /\ v_tokens (view db' cid) = v_tokens (view db1 cid)
    /\ v_events (view db' cid) = v_events (view db1 cid) /\ same_except view db1 db' cid).
  { intros Hids. apply IH; auto. intros x Hx Hn. apply Hids, Hin; [by apply list_elem_of_further | done]. }
  case_bool_decide as EC; [|case_bool_decide as EM].
  - apply w_lift_Ok, law_create_scope in H1 as (Hn & E1 & E2 & E3 & E4 & E5). rewrite Ec in *.
    destruct Hgo as (Hs & F2 & F3 & F4 & F5).
    { intros id Hid. rewrite E1. csimpl. by apply list_elem_of_further. }
    split_and!; try congruence; [by eapply synced_create|]. intros id Hid. rewrite F5, E5; done.
  - apply w_lift_Ok, law_update_scope in H1 as (E1 & E2 & E3 & E4 & E5);
      [|rewrite Ec; apply Hin; [apply list_elem_of_here | done]]. rewrite Ec in *.
    destruct Hgo as (Hs & F2 & F3 & F4 & F5).
    { intros id Hid. by rewrite E1, upd_by_keys. }
    split_and!; try congruence; [by eapply synced_change|]. intros id Hid. rewrite F5, E5; done.
  - injection H1 as <-. destruct Hgo as (Hs & F2 & F3 & F4 & F5); [done|].
    split_and!; try done. by apply synced_keep.
Qed.

Lemma write_tokens_synced C M cid l db db' :
  write_tokens C M l db = (db', Ok tt) ->
  Forall (fun t => t_CaseID t = cid) l ->
  (forall t, t ∈ l -> (t_ID t ∉ C) -> t_ID t ∈ t_ID <$> v_tokens (view db cid)) ->
  synced t_ID write_token C M l (v_tokens (view db cid)) (v_tokens (view db' cid))
  /\ v_case (view db' cid) = v_case (view db cid) /\ v_scopes (view db' cid) = v_scopes (view db cid)
  /\ v_events (view db' cid) = v_events (view db cid) /\ same_except view db db' cid.
Proof.
  revert db. induction l as [|t l IH]; intros db Hw Hc Hin; simpl in Hw.
  { injection Hw as <-. split_and!; try done. by constructor. }
  apply Forall_cons in Hc as [Ec Hc]. apply w_bind_Ok in Hw as (db1 & [] & H1 & Hw).
  assert (Hgo : (forall id, id ∈ t_ID <$> v_tokens (view db cid) -> id ∈ t_ID <$> v_tokens (view db1 cid)) ->
    synced t_ID write_token C M l (v_tokens (view db1 cid)) (v_tokens (view db' cid))
    /\ v_case (view db' cid) = v_case (view db1 cid) /\ v_scopes (view db' cid) = v_scopes (view db1 cid)
    /\ v_events (view db' cid) = v_events (view db1 cid) /\ same_except view db1 db' cid).
  { intros Hids. apply IH; auto. intros x Hx Hn. apply Hids, Hin; [by apply list_elem_of_further | done]. }
  case_bool_decide as EC; [|case_bool_decide as EM].
  - apply w_lift_Ok, law_create_token in H1 as (Hn & E1 & E2 & E3 & E4 & E5). rewrite Ec in *.
    destruct Hgo as (Hs & F2 & F3 & F4 & F5).
    { intros id Hid. rewrite E1. csimpl. by apply list_elem_of_further. }
    split_and!; try congruence; [by eapply synced_create|]. intros id Hid. rewrite F5, E5; done.
  - apply w_lift_Ok, law_update_token in H1 as (E1 & E2 & E3 & E4 & E5);
      [|rewrite Ec; apply Hin; [apply list_elem_of_here | done]]. rewrite Ec in *.
    destruct Hgo as (Hs & F2 & F3 & F4 & F5).
    { intros id Hid. by rewrite E1, upd_by_keys. }
    split_and!; try congruence; [by eapply synced_change|]. intros id Hid. rewrite F5, E5; done.
  - injection H1 as <-. destruct Hgo as (Hs & F2 & F3 & F4 & F5); [done|].
    split_and!; try done. by apply synced_keep.
Qed.

Lemma append_event_recorded e cx n c ev db db' ev' :
  appendEvent e cx n c ev db = (db', Ok ev') ->
  1 <= ev_Seq ev
  /\ (forall x, x ∈ v_events (view db (c_ID c)) -> ev_Seq x <> ev_Seq ev)
  /\ ev_Seq ev' = ev_Seq ev
  /\ (exists stored, recorded c ev stored /\ linked_to stored (v_events (view db (c_ID c)))
       /\ v_events (view db' (c_ID c)) ≡ₚ stored :: v_events (view db (c_ID c)))
  /\ v_case (view db' (c_ID c)) = v_case (view db (c_ID c))
  /\ v_scopes (view db' (c_ID c)) = v_scopes (view db (c_ID c))
  /\ v_tokens (view db' (c_ID c)) = v_tokens (view db (c_ID c))
  /\ same_except view db db' (c_ID c).
Proof.
  unfold appendEvent. intros Ha%w_lift_Ok.
  apply law_append in Ha as (H1 & H2 & (prev & dig & -> & Hl & H3) & H4 & H5 & H6 & H7). simpl in *.
  split_and!; try done. eexists. split; [|split; [exact Hl|exact H3]]. unfold recorded. simpl.
  split_and!; try done.
  - by destruct (ev_Detail ev).
  - intros Hne. by rewrite bool_decide_false.
  - case_bool_decide; congruence.
Qed.

Lemma append_events_recorded e cx n c l db db' evs :
  append_events e cx n c l db = (db', Ok evs) ->
  ev_Seq <$> evs = ev_Seq <$> l
  /\ appended c l (v_events (view db (c_ID c))) (v_events (view db' (c_ID c)))
  /\ v_case (view db' (c_ID c)) = v_case (view db (c_ID c))
  /\ v_scopes (view db' (c_ID c)) = v_scopes (view db (c_ID c))
  /\ v_tokens (view db' (c_ID c)) = v_tokens (view db (c_ID c))
  /\ same_except view db db' (c_ID c).
Proof.
  revert n db evs. induction l as [|ev l IH]; intros n db evs Ha; simpl in Ha.
  { injection Ha as <- <-. split_and!; try done. by constructor. }
  apply w_bind_Ok in Ha as (db1 & ev' & H1 & Ha). apply w_bind_Ok in Ha as (db2 & evs' & H2 & Ha).
  injection Ha as <- <-.
  apply append_event_recorded in H1 as (_ & _ & Eseq & (st & Hst & Hl & E1) & F1 & F2 & F3 & F4).
  apply IH in H2 as (Eseqs & Hap & G1 & G2 & G3 & G4).
  split_and!; try congruence.
  - csimpl. by rewrite Eseq, Eseqs.
  - by eapply appended_cons.
  - intros id Hid. rewrite G4, F4; done.
Qed.

(** What a successful persist leaves: the stored case is the projection of the run,
    at the next revision, the stored tokens and scopes are the run's, its events are
    appended, and the case was at the revision and Seq it was read with. *)
Lemma persist_stored e cx r db db' c' evs T0 S0 :
  persist e cx r db = (db', Ok (c', evs)) ->
  v_tokens (view db (c_ID (r_c r))) ≡ₚ T0 -> v_scopes (view db (c_ID (r_c r))) ≡ₚ S0 ->
  run_tracks T0 S0 r -> c_JoinResult (r_c r) = None ->
  NoDup (t_ID <$> r_tokens r) -> NoDup (s_ID <$> r_scopes r) ->
  NoDup (t_ID <$> T0) -> NoDup (s_ID <$> S0) ->
  Forall (fun t => t_CaseID t = c_ID (r_c r)) (r_tokens r) ->
  Forall (fun s => s_CaseID s = c_ID (r_c r)) (r_scopes r) ->
  (exists old, v_case (view db (c_ID (r_c r))) = Some old
     /\ c_Revision old = c_Revision (r_c r) /\ c_LastSeq old = r_baseSeq r)
  /\ c' = case_with_revision (case_with_lastseq (project r) (run_seq r)) (c_Revision (r_c r) + 1)
  /\ v_case (view db' (c_ID (r_c r))) = Some c'
  /\ v_tokens (view db' (c_ID (r_c r))) ≡ₚ r_tokens r
  /\ v_scopes (view db' (c_ID (r_c r))) ≡ₚ r_scopes r
  /\ ev_Seq <$> evs = ev_Seq <$> r_events r
  /\ appended c' (r_events r) (v_events (view db (c_ID (r_c r)))) (v_events (view db' (c_ID (r_c r))))
  /\ same_except view db db' (c_ID (r_c r)).
Proof.
  intros Hp ET ES [Tt Ts] HJ NDt NDs NDt0 NDs0 Ct Cs. unfold persist in Hp.
  assert (Eproj : c_ID (project r) = c_ID (r_c r) /\ c_Revision (project r) = c_Revision (r_c r)
    /\ c_JoinResult (project r) = c_JoinResult (r_c r)).
  { unfold project. case_bool_decide; [done|]. by repeat case_match. }
  destruct Eproj as (Eid & Erev & Ejr).
  apply w_bind_Ok in Hp as (db1 & c1 & H1 & Hp). apply w_lift_Ok, law_update in H1. simpl in H1.
  rewrite Eid, Erev, Ejr in H1. destruct H1 as (Hold & -> & Hview & Hexc). specialize (Hview HJ).
  apply w_bind_Ok in Hp as (db2 & [] & H2 & Hp). unfold writeState in H2.
  apply w_bind_Ok in H2 as (db3 & [] & H3 & H2).
  assert (Hin : forall X (key : X -> uuid) wr C M V0 l V, tracks key wr C M V0 l -> V ≡ₚ V0 ->
    forall x, x ∈ l -> (key x ∉ C) -> key x ∈ key <$> V).
  { intros X key wr C M V0 l V [Htr _] EV x Hx Hn. destruct (Htr x Hx Hn) as (x0 & Hx0 & <- & _).
    rewrite EV. by apply list_elem_of_fmap_2. }
  apply (write_scopes_synced _ _ (c_ID (r_c r))) in H3 as (Hs & A1 & A2 & A3 & A4); [|done|].
  2: { eapply Hin; [exact Ts|]. by rewrite Hview. }
  apply (write_tokens_synced _ _ (c_ID (r_c r))) in H2 as (Ht & B1 & B2 & B3 & B4); [|done|].
  2: { eapply Hin; [exact Tt|]. by rewrite A2, Hview. }
  apply w_bind_Ok in Hp as (db4 & evs' & H4 & Hp). injection Hp as <- <- <-.
  apply append_events_recorded in H4 as (Eseq & Hev & G1 & G2 & G3 & G4). simpl in *. rewrite Eid in *.
  split_and!; auto.
  - rewrite G1, B1, A1, Hview. done.
  - rewrite G3. eapply synced_all; [|exact Ht| |exact NDt|exact NDt0|exact Tt]; [done|].
    by rewrite A2, Hview.
  - rewrite G2, B2. eapply synced_all; [|exact Hs| |exact NDs|exact NDs0|exact Ts]; [done|].
    by rewrite Hview.
  - rewrite B3, A3, Hview in Hev. done.
  - intros id Hid. rewrite G4, B4, A4, Hexc; done.
Qed.

(** The events a persist answers have the Seqs planned. *)
Lemma persist_seqs e cx r db db' c' evs :
  persist e cx r db = (db', Ok (c', evs)) -> ev_Seq <$> evs = ev_Seq <$> r_events r.
Proof.
  unfold persist. intros (db1 & c1 & _ & Hp)%w_bind_Ok. apply w_bind_Ok in Hp as (db2 & [] & _ & Hp).
  apply w_bind_Ok in Hp as (db3 & evs' & H3 & Hp). injection Hp as _ _ <-.
  by apply append_events_recorded in H3 as (? & _).
Qed.

End Persist.
