(* ===== verification/Plans.v ===== *)
(** Every planned run comes from the case as it was read: what its operation changed
    is tracked, its events are numbered from the case's last one, and the rest is the
    stored case.  [Persist.v] turns this into what the database holds afterwards. *)

From stdpp Require Import base gmap sets list strings.
From Stdlib Require Import ZArith Lia.
From S2P Require Import Prelude GoStrings Errors Model Definitions JoinPolicies Repo Ports Events.
From S2P Require Import Run Validate Engine RunFrame CaseInv RunInv EngineInv Persist.

Open Scope string_scope.
Open Scope Z_scope.

Definition keeps_all (T0 : list Token) (S0 : list Scope) (r r' : caseRun) : Prop :=
  keeps_tracks T0 S0 r r' /\ keeps_numbered r r'.

#[export] Instance keeps_all_RunRel T0 S0 : RunRel (keeps_all T0 S0).
Proof.
  split.
  - intros r. split; apply rr_refl.
  - intros r1 r2 r3 [A1 B1] [A2 B2]. split; by eapply rr_trans.
  - intros r r' id [A _]. exact (rr_tracked _ _ _ A).
  - intros. split; apply rr_emit.
  - intros. split; by apply rr_touch.
  - intros. split; by apply rr_update.
  - intros. split; apply rr_close_scope.
  - intros. split; apply rr_addToken.
  - intros. split; apply rr_add_scope.
  - intros. split; apply rr_draw.
  - intros. split; by apply rr_bump.
  - intros. split; apply rr_add_joined.
  - intros. split; apply rr_note.
  - intros. split; apply rr_history.
  - intros. split; apply rr_deadline.
  - intros. split; by apply rr_case.
Qed.

Lemma keeps_all_detail T0 S0 r j i :
  keeps_all T0 S0 r (set_events (alter (event_with_detail j) i) r).
Proof.
  assert (frame r (set_events (alter (event_with_detail j) i) r)) by frame_solve.
  split; (split; [done|]); [done | by apply numbered_alter].
Qed.

Section Plans.
Context {DB : Type} `{Repository DB}.
Implicit Types (e : Engine DB) (cx : Ctx) (db : DB).

(** [r] was planned from the stored case [caseID], read as [c], [T0] and [S0]. *)
Definition planned_from (e : Engine DB) (db : DB) (caseID : uuid) (c : Case) (d : WDefinition)
    (T0 : list Token) (S0 : list Scope) (r : caseRun) : Prop :=
  repo_GetByID db caseID = inr c /\ repo_ListTokens db (c_ID c) = inr T0
  /\ repo_ListScopes db (c_ID c) = inr S0
  /\ resolveDefinition e (c_Definition c) (c_Version c) = Ok d /\ c_Status c = StatusOpen
  /\ exists now actor, keeps_all T0 S0 (begin now actor (fillEligibility (new_run c d T0 S0))) r.

Definition plans (e : Engine DB) (db : DB) (caseID : uuid) (r : caseRun) : Prop :=
  exists c d T0 S0, planned_from e db caseID c d T0 S0 r.

Lemma planned_facts e db caseID c d T0 S0 r :
  planned_from e db caseID c d T0 S0 r ->
  run_tracks T0 S0 r /\ numbered r /\ r_d r = d /\ same_identity c (r_c r)
  /\ r_baseSeq r = c_LastSeq c.
Proof.
  intros (_ & _ & _ & _ & _ & now & actor & [[F Ht] [_ Hn]]).
  pose proof (fillEligibility_rel (keeps_tracks T0 S0) (new_run c d T0 S0)) as [F0 Ht0].
  destruct (fillEligibility_keeps (new_run c d T0 S0)) as (Ec & Ee & _).
  split_and!.
  - apply Ht. apply Ht0, new_run_tracks.
  - apply Hn. intros i ev. simpl. rewrite Ee. done.
  - rewrite (fr_d _ _ F). simpl. exact (fr_d _ _ F0).
  - pose proof (fr_case _ _ F) as HF. simpl in HF. by rewrite Ec in HF.
  - rewrite (fr_baseSeq _ _ F). simpl. exact (fr_baseSeq _ _ F0).
Qed.

Lemma loadRun_parts db c d r :
  loadRun db c d = Ok r ->
  exists T0 S0, repo_ListTokens db (c_ID c) = inr T0 /\ repo_ListScopes db (c_ID c) = inr S0
                /\ r = fillEligibility (new_run c d T0 S0).
Proof. unfold loadRun. intros Hl. res_inv. case_match; res_inv. eauto. Qed.

(** The common shape of the proofs below: name what was read, then show the steps. *)
Lemma plans_intro e db caseID c d r0 r now actor :
  repo_GetByID db caseID = inr c -> c_Status c = StatusOpen ->
  resolveDefinition e (c_Definition c) (c_Version c) = Ok d -> loadRun db c d = Ok r0 ->
  (forall T0 S0, keeps_all T0 S0 (begin now actor r0) r) -> plans e db caseID r.
Proof.
  intros Hg Ho Hd (T0 & S0 & HT & HS & ->)%loadRun_parts Hk. exists c, d, T0, S0.
  split_and!; auto. by exists now, actor.
Qed.

Lemma token_change_rel T0 S0 cx actor r tok f kind detail :
  tok_stable f ->
  keeps_all T0 S0 (begin (cx_now cx) actor r) (token_change cx actor r tok f kind detail).
Proof.
  intros Hf. unfold token_change. eapply (rr_step (keeps_all T0 S0)); [apply rr_emit|]. by apply rr_touch.
Qed.

Lemma move_plan_plans e cx db inp d r :
  move_plan e cx db inp = Ok (d, r) -> plans e db (mi_CaseID inp) r.
Proof.
  intros Hm. unfold move_plan in Hm. res_inv.
  match goal with Ho : openCase _ _ _ _ = Ok _ |- _ => apply openCase_Ok in Ho as (Hget & Hopen & _) end.
  case_match; [|done]. res_inv.
  match goal with Hr : route_all _ _ _ _ _ _ _ = Ok _ |- _ => rename Hr into Hroute end.
  eapply plans_intro; [done..|]. intros T0 S0.
  eapply (rr_step (keeps_all T0 S0)); [exact (route_all_rel (keeps_all T0 S0) _ _ _ _ _ _ _ _ Hroute)|].
  destruct (mi_Step inp); [apply rr_emit | apply rr_refl].
Qed.

Lemma loadToken_parts e db c id r tok :
  loadToken e db c id = Ok (r, tok) ->
  exists d, resolveDefinition e (c_Definition c) (c_Version c) = Ok d /\ loadRun db c d = Ok r
            /\ pick r id = Ok tok.
Proof. unfold loadToken. intros Hl. res_inv. eauto. Qed.

Ltac change_plans :=
  match goal with Hl : loadToken _ _ _ _ = Ok (_, _), Ho : openCase _ _ _ _ = Ok _ |- _ =>
    apply openCase_Ok in Ho as (?Hget & ?Hopen & _); apply loadToken_parts in Hl as (?d & ?Hd & ?Hload & _) end;
  eapply plans_intro; [done..|]; intros T0 S0; apply token_change_rel; auto with vogel.

Lemma claim_plan_plans e cx db inp r :
  claim_plan e cx db inp = Ok (inr r) -> plans e db (ci_CaseID inp) r.
Proof.
  intros Hc. unfold claim_plan in Hc. res_inv. destruct x2 as [r0 tok].
  repeat case_bool_decide; try done; res_inv. simplify_eq. change_plans.
Qed.

Lemma release_plan_plans e cx db inp r :
  release_plan e cx db inp = Ok r -> plans e db (ri_CaseID inp) r.
Proof.
  intros Hc. unfold release_plan in Hc. res_inv. destruct x1 as [r0 tok]. res_inv. change_plans.
Qed.

Lemma reassign_plan_plans e cx db inp r :
  reassign_plan e cx db inp = Ok r -> plans e db (rai_CaseID inp) r.
Proof.
  intros Hc. unfold reassign_plan in Hc. res_inv. destruct x3 as [r0 tok]. res_inv. change_plans.
Qed.

Lemma set_deadline_plan_plans e cx db inp r :
  set_deadline_plan e cx db inp = Ok r -> plans e db (sdi_CaseID inp) r.
Proof.
  intros Hc. unfold set_deadline_plan in Hc. res_inv. destruct x2 as [r0 tok]. res_inv. change_plans.
Qed.

Lemma cancel_tokens_rel R `{!RunRel R} detail ids r r' :
  cancel_tokens detail ids r = Ok r' -> R r r'.
Proof.
  revert r. induction ids as [|id ids IH]; intros r; simpl; intros Hc; res_inv; [apply rr_refl|].
  match goal with Hx : cancel_token _ _ _ = Ok _ |- _ => unfold cancel_token in Hx end. res_inv.
  eapply rr_trans; [|by apply IH]. eapply rr_trans; [apply rr_emit|]. by apply (run_end_rel R).
Qed.

Lemma cancel_run_rel R `{!RunRel R} reason r r' : cancel_run reason r = Ok r' -> R r r'.
Proof.
  unfold cancel_run. intros Hc. res_inv.
  match goal with Hx : cancel_tokens _ _ _ = Ok ?y |- _ => apply (cancel_tokens_rel R) in Hx; rename Hx into H1; rename y into r1 end.
  eapply (rr_step R); [apply rr_case|].
  - match goal with |- same_identity (r_c (cancel_scopes ?q ?x)) _ =>
      rewrite (en_c _ _ _ _ _ (cancel_scopes_ended q x)) end. by repeat split.
  - eapply (rr_step R); [|eapply (rr_step R); [apply rr_emit | exact H1]].
    unfold cancel_scopes. apply (fold_rel R). intros r2 s. case_bool_decide; [apply rr_close_scope | apply rr_refl].
Qed.

Lemma cancel_plan_plans e cx db inp r :
  cancel_plan e cx db inp = Ok r -> plans e db (cai_CaseID inp) r.
Proof.
  intros Hc. unfold cancel_plan in Hc. res_inv.
  match goal with Ho : openCase _ _ _ _ = Ok _ |- _ => apply openCase_Ok in Ho as (Hget & Hopen & _) end.
  eapply plans_intro; [done..|]. intros T0 S0. by apply (cancel_run_rel (keeps_all T0 S0)) in Hc.
Qed.

Lemma refresh_plan_plans e cx db caseID r :
  refresh_plan e cx db caseID = Ok (Some r) -> plans e db caseID r.
Proof.
  intros Hc. unfold refresh_plan in Hc. res_inv. case_bool_decide as Ho; res_inv; [done|].
  case_match; res_inv; simplify_eq. eapply plans_intro; [done..|]. intros. apply rr_refl.
Qed.

Lemma expire_plan_plans e cx db inp d r tr :
  expire_plan e cx db inp = Ok (d, r, tr) -> plans e db (ei_CaseID inp) r.
Proof.
  intros Hm. unfold expire_plan in Hm. res_inv.
  match goal with Ho : openCase _ _ _ _ = Ok _ |- _ => apply openCase_Ok in Ho as (Hget & Hopen & _) end.
  case_match; res_inv; simplify_eq; (eapply plans_intro; [done..|]; intros T0 S0).
  - eapply (rr_step (keeps_all T0 S0)); [apply keeps_all_detail|].
    match goal with Hr : route_all _ _ _ _ _ _ _ = Ok _ |- _ =>
      eapply (rr_step (keeps_all T0 S0)); [exact (route_all_rel (keeps_all T0 S0) _ _ _ _ _ _ _ _ Hr)|] end.
    apply token_change_rel; auto with vogel.
  - apply token_change_rel; auto with vogel.
Qed.

Lemma cancel_token_plan_plans e cx db inp d r :
  cancel_token_plan e cx db inp = Ok (d, r) -> plans e db (cti_CaseID inp) r.
Proof.
  intros Hm. unfold cancel_token_plan in Hm. res_inv.
  match goal with Ho : openCase _ _ _ _ = Ok _ |- _ => apply openCase_Ok in Ho as (Hget & Hopen & _) end.
  eapply plans_intro; [done..|]. intros T0 S0.
  match goal with Hc : cancel_branch _ _ _ _ _ _ = Ok _ |- _ => unfold cancel_branch in Hc; rename Hc into Hj end.
  eapply (rr_step (keeps_all T0 S0)); [exact (tryJoin_all_rel (keeps_all T0 S0) _ _ _ _ _ _ Hj)|].
  eapply (rr_step (keeps_all T0 S0)); [apply (run_end_rel (keeps_all T0 S0)) | apply rr_emit].
Qed.

End Plans.
