(* ===== verification/ValidateFacts.v ===== *)
(** What a definition without violations has: the facts the engine relies on when
    it runs a registered definition. *)

From stdpp Require Import base gmap sets list strings.
From Stdlib Require Import ZArith Lia.
From S2P Require Import Prelude GoStrings Errors Model Definitions Validate Repo Ports Events Run.
From S2P Require Import RunFrame CaseInv RunInv.

Open Scope string_scope.
Open Scope Z_scope.

Lemma when_nil b v : when b v = [] <-> b = false.
Proof. destruct b; simpl; split; congruence. Qed.

Lemma concat_fmap_nil {A B} (f : A -> list B) (l : list A) :
  concat (f <$> l) = [] <-> forall a, a ∈ l -> f a = [].
Proof.
  induction l as [|a l IH]; csimpl.
  - split; [|done]. by intros _ b Hb%not_elem_of_nil.
  - rewrite app_nil, IH. setoid_rewrite elem_of_cons. split.
    + intros [Ha Hl] b [->|Hb]; auto.
    + intros Hall. split; auto.
Qed.

Lemma concat_imap_nil {A B} (f : nat -> A -> list B) (l : list A) :
  concat (imap f l) = [] -> forall a, a ∈ l -> exists i, f i a = [].
Proof.
  revert f. induction l as [|a l IH]; intros f; csimpl.
  - by intros _ b Hb%not_elem_of_nil.
  - intros [H1 H2]%app_nil b [->|Hb]%elem_of_cons; [by exists 0%nat|].
    destruct (IH (f ∘ S) H2 b Hb) as [i Hi]. by exists (S i).
Qed.

(** [vsplit H] cuts [H : l1 ++ ... ++ ln = []] into its parts. *)
Ltac vsplit H :=
  repeat match type of H with
  | (_ ++ _)%list = [] => let H1 := fresh "V" in apply app_nil in H as [H1 H]
  end.

(** The parts of [Validate] this file uses. *)
Record validated (d : WDefinition) : Prop := mkValidated {
  vd_name : d_Name d <> "";
  vd_version : 1 <= d_Version d;
  vd_nodes : nodes_violations 0 [] (d_Nodes d) = [];
  vd_start : startNodes d = 1%nat;
  vd_transitions : transitions_violations d 0 [] (d_Transitions d) = [];
  vd_onexpire : forall n, n ∈ d_Nodes d -> on_expire_violations d n = [];
  vd_gateways : forall n, n ∈ d_Nodes d -> gateway_violations d n = [];
  vd_cycles : cycle_violations d = [];
  vd_deadends : forall n, n ∈ d_Nodes d -> dead_end_violations d n = [];
  vd_reach : reachability_violations d = [];
  vd_splits : split_violations d = [];
  vd_blocks : validateBlocks d = [];
  vd_policies : forall n, n ∈ d_Nodes d -> policy_join_violations d n = [];
  vd_outcomes : forall tr, tr ∈ d_Transitions d -> exists i, outcome_violations d i tr = [] }.

Lemma Validate_parts d : Validate d = [] -> validated d.
Proof.
  unfold Validate. intros HV. vsplit HV. unfold validateJoinPolicies in HV. vsplit HV.
  repeat match goal with H : when _ _ = [] |- _ => apply when_nil in H end.
  assert (Hsplit : validateBlocks d = [] -> split_violations d = [])
    by (unfold validateBlocks; cbv zeta; intros Hb; by apply app_nil in Hb as [? _]).
  repeat match goal with H : concat (_ <$> _) = [] |- _ =>
    pose proof (proj1 (concat_fmap_nil _ _) H); clear H end.
  constructor; auto.
  - by apply bool_decide_eq_false in V.
  - apply Z.ltb_ge in V0. lia.
  - apply negb_false_iff, Nat.eqb_eq in V3. done.
  - by apply concat_imap_nil.
Qed.

(** ** Nodes *)

Lemma nodes_violations_elem i seen l n :
  nodes_violations i seen l = [] -> n ∈ l -> exists i' seen', node_violations i' seen' n = [].
Proof.
  revert i seen. induction l as [|m l IH]; intros i seen Hv Hn; [by apply not_elem_of_nil in Hn|].
  simpl in Hv. apply app_nil in Hv as [H1 H2]. apply elem_of_cons in Hn as [->|Hn]; eauto.
Qed.

Lemma node_violations_id i seen n :
  node_violations i seen n = [] -> (n_ID n <> "") /\ (n_ID n ∉ seen).
Proof.
  unfold node_violations. intros Hv. apply app_nil in Hv as [V Hv]. apply app_nil in Hv as [V0 Hv].
  apply when_nil in V, V0. apply bool_decide_eq_false in V. split; [done|].
  apply andb_false_iff in V0 as [V0|V0]; [|by apply bool_decide_eq_false in V0].
  by apply negb_false_iff, bool_decide_eq_true in V0.
Qed.

Lemma nodes_violations_ids i seen l :
  nodes_violations i seen l = [] ->
  NoDup (n_ID <$> l) /\ (forall n, n ∈ l -> (n_ID n <> "") /\ (n_ID n ∉ seen)).
Proof.
  revert i seen. induction l as [|m l IH]; intros i seen Hv; csimpl.
  { split; [constructor|]. by intros n Hn%not_elem_of_nil. }
  simpl in Hv. apply app_nil in Hv as [H1 H2]. apply node_violations_id in H1 as [Hm Hs].
  destruct (IH _ _ H2) as [ND Hall]. split.
  - apply NoDup_cons. split; [|done]. intros (n & E & Hn)%list_elem_of_fmap.
    destruct (Hall n Hn) as [_ Hns]. apply Hns. rewrite E. apply list_elem_of_here.
  - intros n [->|Hn]%elem_of_cons; [done|]. destruct (Hall n Hn) as [? Hns]. split; [done|].
    intros Hin. apply Hns. by apply list_elem_of_further.
Qed.

Section Valid.
Context {d : WDefinition} (HV : validated d).

Lemma valid_ids : NoDup (n_ID <$> d_Nodes d).
Proof. apply (nodes_violations_ids 0 [] _ (vd_nodes d HV)). Qed.

Lemma valid_id n : n ∈ d_Nodes d -> n_ID n <> "".
Proof. intros Hn. by apply (nodes_violations_ids 0 [] _ (vd_nodes d HV)). Qed.

Lemma fold_nodes_lookup (l : list Node) (m : gmap string Node) id :
  NoDup (n_ID <$> l) -> (forall n, n ∈ l -> n_ID n <> "") ->
  fold_left (fun m n => if bool_decide (n_ID n = "") then m else <[n_ID n := n]> m) l m !! id
  = match find_by n_ID id l with Some n => Some n | None => m !! id end.
Proof.
  revert m. induction l as [|n l IH]; intros m ND Hne; csimpl in *; [done|].
  apply NoDup_cons in ND as [Hn ND].
  rewrite bool_decide_false by (apply Hne, list_elem_of_here).
  rewrite IH by (done || (intros x Hx; apply Hne; by apply list_elem_of_further)).
  case_decide as E.
  - subst id. assert (find_by n_ID (n_ID n) l = None) as -> by (by apply find_by_None).
    by rewrite lookup_insert_eq.
  - case_match; [done|]. by rewrite lookup_insert_ne.
Qed.

(** On a valid definition the two ways of finding a node agree. *)
Lemma nodeByID_Node id : nodeByID d !! id = Definition_Node d id.
Proof.
  unfold nodeByID, Definition_Node. rewrite fold_nodes_lookup;
    [by case_match | apply valid_ids | apply valid_id].
Qed.

Lemma valid_Node n : n ∈ d_Nodes d -> Definition_Node d (n_ID n) = Some n.
Proof. apply find_by_elem, valid_ids. Qed.

Lemma valid_node n : n ∈ d_Nodes d -> exists i seen, node_violations i seen n = [].
Proof. apply (nodes_violations_elem 0 []), (vd_nodes d HV). Qed.

(** The start node: there is one, and a case may rest on it. *)
Lemma valid_start : exists n, StartNode d = Some n /\ rests d (n_ID n).
Proof.
  assert (0 < startNodes d)%nat as Hs by (rewrite (vd_start d HV); lia).
  apply count_pos in Hs as (x & Hx & Hsx). unfold StartNode.
  destruct (List.find n_Start (d_Nodes d)) as [n|] eqn:E.
  - apply find_some in E as [Hn%list_elem_of_In Hst]. exists n. split; [done|]. exists n.
    split; [by apply valid_Node|]. destruct (valid_node n Hn) as (i & seen & Hv).
    unfold node_violations in Hv. vsplit Hv. apply when_nil in V2. rewrite Hst in V2. simpl in V2.
    split; [|done]. destruct (IsAutomatic (n_Kind n)); [|done]. unfold automatic_violations in V7.
    apply app_nil in V7 as [V7 _]. apply when_nil in V7. congruence.
  - exfalso. rewrite (find_none _ _ E x) in Hsx; [done | by apply list_elem_of_In].
Qed.

(** ** Transitions *)

Lemma transitions_violations_elem dd i seen l tr :
  transitions_violations dd i seen l = [] -> tr ∈ l ->
  exists i' seen', transition_violations dd i' seen' tr = [].
Proof.
  revert i seen. induction l as [|x l IH]; intros i seen Hv Hn; [by apply not_elem_of_nil in Hn|].
  simpl in Hv. apply app_nil in Hv as [H1 H2]. apply elem_of_cons in Hn as [->|Hn]; eauto.
Qed.

(** Every transition joins two nodes, and none leaves a terminal one. *)
Lemma valid_transition tr : tr ∈ d_Transitions d ->
  exists from to, Definition_Node d (tr_From tr) = Some from /\ Definition_Node d (tr_To tr) = Some to
                  /\ n_Terminal from = false.
Proof.
  intros Htr. destruct (transitions_violations_elem d _ _ _ tr (vd_transitions d HV) Htr) as (i & seen & Hv).
  unfold transition_violations in Hv. vsplit Hv. rewrite !nodeByID_Node in *.
  destruct (Definition_Node d (tr_From tr)) as [from|]; [|done].
  destruct (Definition_Node d (tr_To tr)) as [to|]; [|done].
  exists from, to. split_and!; try done. apply app_nil in V4 as [V4 _]. by apply when_nil in V4.
Qed.

Lemma transitions_violations_unique dd i seen l a b :
  transitions_violations dd i seen l = [] -> a ∈ l -> b ∈ l ->
  tr_From a = tr_From b -> tr_Action a = tr_Action b -> a = b.
Proof.
  assert (Hseen : forall l i seen x, transitions_violations dd i seen l = [] -> x ∈ l ->
    nul_key (tr_From x) (tr_Action x) ∉ seen).
  { clear. induction l as [|y l IH]; intros i seen x Hv Hx; [by apply not_elem_of_nil in Hx|].
    simpl in Hv. apply app_nil in Hv as [H1 H2]. apply elem_of_cons in Hx as [->|Hx].
    - unfold transition_violations in H1. vsplit H1. apply when_nil in H1.
      by apply bool_decide_eq_false in H1.
    - specialize (IH _ _ x H2 Hx). intros Hin. apply IH. by apply list_elem_of_further. }
  revert i seen. induction l as [|y l IH]; intros i seen Hv Ha Hb Ef Ea; [by apply not_elem_of_nil in Ha|].
  simpl in Hv. apply app_nil in Hv as [H1 H2].
  apply elem_of_cons in Ha as [->|Ha]; apply elem_of_cons in Hb as [->|Hb]; eauto.
  - exfalso. apply (Hseen l _ _ b H2 Hb). rewrite Ef, Ea. apply list_elem_of_here.
  - exfalso. apply (Hseen l _ _ a H2 Ha). rewrite <- Ef, <- Ea. apply list_elem_of_here.
Qed.

(** ** Routing *)

Lemma valid_policy n : n ∈ d_Nodes d -> JoinPolicy_Valid (n_JoinPolicy n) = true.
Proof.
  intros Hn. pose proof (vd_policies d HV n Hn) as Hp. unfold policy_join_violations in Hp.
  case_bool_decide as E; [by rewrite E|]. case_match; [done|].
  apply app_nil in Hp as [Hp _]. apply when_nil, negb_false_iff in Hp. done.
Qed.

(** A transition into a join with a policy leaves a task node and says approved or
    rejected. *)
Lemma valid_entry tr from to :
  tr ∈ d_Transitions d -> Definition_Node d (tr_From tr) = Some from ->
  Definition_Node d (tr_To tr) = Some to -> n_Kind to = NodeJoin -> n_JoinPolicy to <> JoinNone ->
  IsAutomatic (n_Kind from) = false
  /\ (tr_Outcome tr = OutcomeApproved \/ tr_Outcome tr = OutcomeRejected).
Proof.
  intros Htr Ef Et Hk Hp. destruct (vd_outcomes d HV tr Htr) as [i Hv].
  unfold outcome_violations in Hv. rewrite !nodeByID_Node, Ef, Et in Hv.
  rewrite bool_decide_false in Hv by (rewrite Hk; auto). rewrite bool_decide_false in Hv by done.
  simpl in Hv. apply app_nil in Hv as [H1 H2]. apply when_nil in H1. split; [done|].
  destruct (tr_Outcome tr); try done; auto.
Qed.

Lemma valid_routable : routable d.
Proof.
  constructor; [apply valid_policy|]. intros tr from to H1 H2 H3 H4 H5.
  by eapply (valid_entry tr from to).
Qed.

(** A join has one way out, without a guard. *)
Lemma valid_join_out n : n ∈ d_Nodes d -> n_Kind n = NodeJoin ->
  exists out, TransitionsFrom d (n_ID n) = [out] /\ tr_Guard out = "".
Proof.
  intros Hn Hk. pose proof (vd_gateways d HV n Hn) as Hg. unfold gateway_violations in Hg.
  rewrite Hk in Hg. rewrite bool_decide_false in Hg by (by apply valid_id). simpl in Hg.
  unfold outgoingByNode in Hg. rewrite nodeByID_Node, (valid_Node n Hn) in Hg.
  destruct (TransitionsFrom d (n_ID n)) as [|out [|]]; try done. exists out. split; [done|].
  apply when_nil, negb_false_iff, bool_decide_eq_true in Hg. done.
Qed.

Lemma last_unguarded_Some i acc routes idx :
  last_unguarded i acc routes = Some idx ->
  acc = Some idx \/ exists k tr, routes !! k = Some tr /\ idx = (i + k)%nat /\ tr_Guard tr = "".
Proof.
  revert i acc. induction routes as [|r routes IH]; intros i acc; simpl; [by left|].
  intros Hl. destruct (IH _ _ Hl) as [Ha|(k & tr & Hk & -> & Hg)].
  - case_bool_decide as E; [|by left]. injection Ha as <-. right. exists 0%nat, r. simpl. split_and!; [done|lia|done].
  - right. exists (S k), tr. simpl. split_and!; [done|lia|done].
Qed.

(** A decision or inclusive split ends in an unguarded route. *)
Lemma valid_default n : n ∈ d_Nodes d -> n_Kind n = NodeDecision \/ n_Kind n = NodeInclusive ->
  exists tr, tr ∈ TransitionsFrom d (n_ID n) /\ tr_Guard tr = "".
Proof.
  intros Hn Hk. pose proof (vd_gateways d HV n Hn) as Hg. unfold gateway_violations in Hg.
  rewrite bool_decide_false in Hg by (by apply valid_id).
  assert (IsAutomatic (n_Kind n) = true) as Ha by (destruct Hk as [-> | ->]; done).
  rewrite Ha in Hg. simpl in Hg.
  rewrite bool_decide_false in Hg by (destruct Hk as [-> | ->]; done).
  case_match; [done|]. rewrite bool_decide_false in Hg by (destruct Hk as [-> | ->]; done).
  unfold outgoingByNode in Hg. rewrite nodeByID_Node, (valid_Node n Hn) in Hg.
  case_match eqn:El; [|done]. apply last_unguarded_Some in El as [?|(k & tr & Hl & _ & Hg')]; [done|].
  exists tr. split; [by eapply list_elem_of_lookup_2 | done].
Qed.

(** A split names a join. *)
Lemma valid_split n : n ∈ d_Nodes d -> IsSplit (n_Kind n) = true ->
  exists j, Definition_Node d (n_Join n) = Some j /\ n_Kind j = NodeJoin.
Proof.
  intros Hn Hk. pose proof (vd_splits d HV) as Hs. unfold split_violations in Hs.
  assert (Hsn : n ∈ split_nodes d).
  { unfold split_nodes. apply list_elem_of_In, filter_In. split; [by apply list_elem_of_In|].
    rewrite bool_decide_false by (by apply valid_id). by rewrite Hk. }
  destruct (split_block d n) as [v|b] eqn:E.
  - exfalso. assert (Hin : v ∈ split_violations d)
      by (apply list_elem_of_omap; exists n; by rewrite E).
    unfold split_violations in Hin. rewrite Hs in Hin. by apply not_elem_of_nil in Hin.
  - unfold split_block in E. case_bool_decide; [done|]. rewrite nodeByID_Node in E.
    destruct (Definition_Node d (n_Join n)) as [j|]; [|done]. case_bool_decide; [done|]. by exists j.
Qed.

(** The expiry transition of a task node exists and is not a return. *)
Lemma valid_on_expire n : n ∈ d_Nodes d -> IsAutomatic (n_Kind n) = false -> n_OnExpire n <> "" ->
  exists tr, findTransition (TransitionsFrom d (n_ID n)) (n_OnExpire n) = Some tr /\ tr_Return tr = false.
Proof.
  intros Hn Ha Ho. pose proof (vd_onexpire d HV n Hn) as Hx. unfold on_expire_violations in Hx.
  rewrite bool_decide_false, Ha in Hx by done. simpl in Hx.
  unfold outgoingByNode in Hx. rewrite nodeByID_Node, (valid_Node n Hn) in Hx.
  case_match eqn:E; [|done]. exists t. split; [done|]. by apply when_nil in Hx.
Qed.

End Valid.
