(* ===== verification/GraphFacts.v ===== *)
(** The graph walks of [Validate] against the graph they walk: the breadth-first
    search computes exactly the reachable nodes, [reaches] decides reachability, and
    [detectGatewayCycle] reports a cycle exactly when there is one.  Each walk is
    shown to end within the fuel [Validate] gives it. *)

From stdpp Require Import base gmap sets list strings relations.
From Stdlib Require Import ZArith Lia.
From S2P Require Import Prelude GoStrings Errors Model Definitions Validate.

Open Scope list_scope.
Open Scope nat_scope.

(** The edges of an adjacency list. *)
Definition edge (adj : string -> list string) (x y : string) : Prop := y ∈ adj x.

(** ** Breadth-first search *)

Lemma size_list_to_set_le (l : list string) : size (list_to_set (C := gset string) l) <= length l.
Proof.
  induction l as [|x l IH]; [done|]. rewrite list_to_set_cons, length_cons.
  pose proof (size_union_alt (C := gset string) {[x]} (list_to_set l)) as Hs. rewrite size_singleton in Hs.
  assert (size (list_to_set (C := gset string) l ∖ {[x]}) <= size (list_to_set (C := gset string) l))
    by (apply subseteq_size, subseteq_difference_l; done). lia.
Qed.

Lemma bfs_mark_spec nexts seen queue seen' queue' :
  bfs_mark nexts seen queue = (seen', queue') ->
  (forall x, x ∈ seen' <-> x ∈ seen \/ x ∈ nexts)
  /\ (forall x, x ∈ queue' <-> x ∈ queue \/ (x ∈ nexts /\ (x ∉ seen)))
  /\ (forall U : gset string, (forall x, x ∈ nexts -> x ∈ U) ->
        length queue' + size (U ∖ seen') = length queue + size (U ∖ seen)).
Proof.
  revert seen queue. induction nexts as [|x rest IH]; intros seen queue Hm; simpl in Hm.
  { injection Hm as <- <-. split_and!; [| |done]; intros x; rewrite elem_of_nil; tauto. }
  case_bool_decide as Hx.
  - apply IH in Hm as (H1 & H2 & H3). split_and!.
    + intros y. rewrite H1, elem_of_cons. split; [tauto|]. intros [?|[->|?]]; tauto.
    + intros y. rewrite H2, elem_of_cons. split; [tauto|]. intros [?|[[->|?] ?]]; tauto.
    + intros U HU. apply H3. intros y Hy. apply HU. by apply list_elem_of_further.
  - apply IH in Hm as (H1 & H2 & H3). split_and!.
    + intros y. rewrite H1, elem_of_cons, elem_of_union, elem_of_singleton. tauto.
    + intros y. rewrite H2, elem_of_cons, elem_of_app, list_elem_of_singleton, not_elem_of_union,
        not_elem_of_singleton. destruct (decide (y = x)) as [->|]; tauto.
    + intros U HU. rewrite H3 by (intros y Hy; apply HU; by apply list_elem_of_further).
      rewrite length_app. simpl.
      assert (HxU : x ∈ U ∖ seen) by (apply elem_of_difference; split; [apply HU, list_elem_of_here | done]).
      assert (Hsz : size (U ∖ seen) = S (size (U ∖ ({[x]} ∪ seen)))).
      { transitivity (size ({[x]} ∪ (U ∖ ({[x]} ∪ seen)))); [|rewrite size_union; [by rewrite size_singleton|]; intros y; rewrite elem_of_singleton, elem_of_difference, elem_of_union, elem_of_singleton; tauto].
        f_equal. apply set_eq. intros y. rewrite elem_of_union, !elem_of_difference, elem_of_union, elem_of_singleton.
        destruct (decide (y = x)) as [->|]; [|tauto]. rewrite elem_of_difference in HxU. tauto. }
      lia.
Qed.

Section Bfs.
Context (adj : string -> list string).
Abbreviation E := (edge adj).

(** Nothing is marked that the queue does not reach. *)
Lemma bfs_sound fuel seen queue x :
  x ∈ bfs fuel adj seen queue -> x ∈ seen \/ exists q, q ∈ queue /\ tc E q x.
Proof.
  revert seen queue. induction fuel as [|fuel IH]; intros seen queue Hx; simpl in Hx; [auto|].
  destruct queue as [|cur rest]; [auto|].
  destruct (bfs_mark (adj cur) seen rest) as [seen' queue'] eqn:Em.
  apply bfs_mark_spec in Em as (H1 & H2 & _). apply IH in Hx as [Hx|(q & Hq & Ht)].
  - apply H1 in Hx as [?|Hx]; [auto|]. right. exists cur. split; [apply list_elem_of_here|]. by constructor.
  - right. apply H2 in Hq as [Hq|[Hq _]].
    + exists q. split; [by apply list_elem_of_further | done].
    + exists cur. split; [apply list_elem_of_here|]. by eapply tc_l.
Qed.

(** With enough fuel the marked set is closed: the search ended with an empty queue. *)
Lemma bfs_closed (U : gset string) fuel seen queue :
  (forall x y, E x y -> y ∈ U) -> length queue + size (U ∖ seen) < fuel ->
  (forall s, s ∈ seen -> s ∈ queue \/ forall y, E s y -> y ∈ seen) ->
  let R := bfs fuel adj seen queue in
  (forall s, s ∈ seen -> s ∈ R) /\ (forall q y, q ∈ queue -> E q y -> y ∈ R)
  /\ (forall x y, x ∈ R -> E x y -> y ∈ R).
Proof.
  intros HU. revert seen queue. induction fuel as [|fuel IH]; intros seen queue Hf Hpre; [lia|]. simpl.
  destruct queue as [|cur rest].
  { split_and!; [done|by intros q y Hq%not_elem_of_nil|]. intros x y Hx Hy.
    destruct (Hpre x Hx) as [Hn%not_elem_of_nil|Hc]; [done | auto]. }
  destruct (bfs_mark (adj cur) seen rest) as [seen' queue'] eqn:Em.
  apply bfs_mark_spec in Em as (H1 & H2 & H3).
  specialize (H3 U (fun x Hx => HU cur x Hx)). simpl in Hf.
  destruct (IH seen' queue') as (R1 & R2 & R3); [lia| |].
  { intros s Hs. destruct (decide (s ∈ queue')) as [?|Hnq]; [auto|]. right. intros y Hy.
    apply H1. apply H1 in Hs as [Hs|Hs].
    - destruct (Hpre s Hs) as [[->|Hr]%elem_of_cons|Hc]; [by right | | left; auto].
      destruct Hnq. apply H2. auto.
    - destruct (decide (s ∈ seen)) as [Hss|Hss].
      + destruct (Hpre s Hss) as [[->|Hr]%elem_of_cons|Hc]; [by right | | left; auto].
        destruct Hnq. apply H2. auto.
      + destruct Hnq. apply H2. auto. }
  split_and!; [| |done].
  - intros s Hs. apply R1, H1. auto.
  - intros q y [->|Hq]%elem_of_cons Hy; [apply R1, H1; auto|].
    apply (R2 q y); [apply H2; auto | done].
Qed.

Lemma closed_rtc (R : gset string) x y :
  (forall x y, x ∈ R -> E x y -> y ∈ R) -> rtc E x y -> x ∈ R -> y ∈ R.
Proof. intros HR. induction 1; eauto. Qed.

(** From one node: exactly the nodes it reaches. *)
Lemma bfs_reachable (U : gset string) fuel start x :
  (forall x y, E x y -> y ∈ U) -> 1 + size U < fuel ->
  x ∈ bfs fuel adj {[start]} [start] <-> rtc E start x.
Proof.
  intros HU Hf.
  destruct (bfs_closed U fuel {[start]} [start]) as (R1 & R2 & R3); [done| | |].
  { assert (size (U ∖ {[start]}) <= size U) by (apply subseteq_size, subseteq_difference_l; done). simpl. lia. }
  { intros s ->%elem_of_singleton. left. apply list_elem_of_here. }
  split.
  - intros [->%elem_of_singleton|(q & ->%list_elem_of_singleton & Ht)]%bfs_sound; [constructor|].
    by apply tc_rtc.
  - intros Hr. apply (closed_rtc _ start x); [done..|]. apply R1. by apply elem_of_singleton.
Qed.

(** Without marking the start: the nodes reached by at least one edge. *)
Lemma bfs_reached (U : gset string) fuel start x :
  (forall x y, E x y -> y ∈ U) -> 1 + size U < fuel ->
  x ∈ bfs fuel adj ∅ [start] <-> tc E start x.
Proof.
  intros HU Hf.
  destruct (bfs_closed U fuel ∅ [start]) as (R1 & R2 & R3); [done| | |].
  { assert (size (U ∖ ∅) <= size U) by (apply subseteq_size, subseteq_difference_l; done). simpl. lia. }
  { intros s Hs%elem_of_empty. done. }
  split.
  - intros [Hs%elem_of_empty|(q & ->%list_elem_of_singleton & Ht)]%bfs_sound; done.
  - intros Ht. inversion Ht as [? ? Hab|? b ? Hab Ht']; subst.
    + by apply (R2 start x); [apply list_elem_of_here|].
    + apply (closed_rtc _ b x); [done|by apply tc_rtc|]. by apply (R2 start b); [apply list_elem_of_here|].
Qed.

End Bfs.

(** ** [reaches] *)

Section Reaches.
Context (adj : string -> list string) (to : string).
Abbreviation E := (edge adj).

Lemma reaches_loop_sound fuel seen queue :
  reaches_loop fuel adj to seen queue = true -> exists q, q ∈ queue /\ rtc E q to.
Proof.
  revert seen queue. induction fuel as [|fuel IH]; intros seen queue Hx; simpl in Hx; [done|].
  destruct queue as [|id rest]; [done|]. case_bool_decide as Ei.
  { subst. exists to. split; [apply list_elem_of_here | constructor]. }
  destruct (bfs_mark (adj id) seen rest) as [seen' queue'] eqn:Em.
  apply bfs_mark_spec in Em as (_ & H2 & _). apply IH in Hx as (q & Hq & Hr).
  apply H2 in Hq as [Hq|[Hq _]]; [exists q; split; [by apply list_elem_of_further | done]|].
  exists id. split; [apply list_elem_of_here|]. by apply rtc_l with q.
Qed.

Lemma reaches_loop_complete (U : gset string) fuel seen queue :
  (forall x y, E x y -> y ∈ U) -> length queue + size (U ∖ seen) < fuel ->
  (forall s, s ∈ seen -> s ∈ queue \/ (s <> to /\ forall y, E s y -> y ∈ seen)) ->
  reaches_loop fuel adj to seen queue = false ->
  exists R : gset string, (forall s, s ∈ seen -> s ∈ R) /\ (forall x y, x ∈ R -> E x y -> y ∈ R)
    /\ (to ∉ R).
Proof.
  intros HU. revert seen queue. induction fuel as [|fuel IH]; intros seen queue Hf Hpre Hx; [lia|].
  simpl in Hx. destruct queue as [|cur rest].
  { exists seen. split_and!; [done| |].
    - intros x y Hs Hy. destruct (Hpre x Hs) as [Hn%not_elem_of_nil|[_ Hc]]; [done | auto].
    - intros Hs. destruct (Hpre to Hs) as [Hn%not_elem_of_nil|[Hc _]]; done. }
  case_bool_decide as Ei; [done|]. destruct (bfs_mark (adj cur) seen rest) as [seen' queue'] eqn:Em.
  apply bfs_mark_spec in Em as (H1 & H2 & H3). specialize (H3 U (fun x Hx => HU cur x Hx)). simpl in Hf.
  destruct (IH seen' queue') as (R & R1 & R2 & R3); [lia| |done|].
  { intros s Hs. destruct (decide (s ∈ queue')) as [?|Hnq]; [auto|]. right.
    assert (Hss : s ∈ seen).
    { apply H1 in Hs as [?|Hs]; [done|]. destruct (decide (s ∈ seen)); [done|].
      destruct Hnq. apply H2. auto. }
    destruct (Hpre s Hss) as [[->|Hr]%elem_of_cons|[Hne Hc]].
    - split; [done|]. intros y Hy. apply H1. by right.
    - destruct Hnq. apply H2. auto.
    - split; [done|]. intros y Hy. apply H1. left. auto. }
  exists R. split_and!; [|done..]. intros s Hs. apply R1, H1. auto.
Qed.

Lemma reaches_loop_iff (U : gset string) fuel from :
  (forall x y, E x y -> y ∈ U) -> 1 + size U < fuel ->
  reaches_loop fuel adj to {[from]} [from] = true <-> rtc E from to.
Proof.
  intros HU Hf. split.
  - by intros (q & ->%list_elem_of_singleton & Hr)%reaches_loop_sound.
  - intros Hr. apply not_false_iff_true. intros Hx.
    destruct (reaches_loop_complete U fuel {[from]} [from]) as (R & R1 & R2 & R3); [done| | |done|].
    + assert (size (U ∖ {[from]}) <= size U) by (apply subseteq_size, subseteq_difference_l; done). simpl. lia.
    + intros s ->%elem_of_singleton. left. apply list_elem_of_here.
    + apply R3. eapply closed_rtc; [exact R2|exact Hr|]. apply R1. by apply elem_of_singleton.
Qed.

End Reaches.

(** ** The depth-first search of [detectGatewayCycle] *)

Section Dfs.
Context (adj : string -> list string) (nodes : list string).
Hypothesis adj_nodes : forall x y, edge adj x y -> y ∈ nodes.
Abbreviation E := (edge adj).
Implicit Types (color : gmap string bool) (path : list string).

(** Consecutive elements are joined by an edge. *)
Definition chain (l : list string) : Prop :=
  forall i x y, l !! i = Some x -> l !! S i = Some y -> E x y.

(** A cycle as the validator reports it: it starts and ends at the same node. *)
Definition is_cycle (c : list string) : Prop :=
  chain c /\ exists x mid, c = x :: mid ++ [x].

(** Every successor of an element comes before it. *)
Definition topo (L : list string) : Prop :=
  forall i n, L !! i = Some n -> forall m, E n m -> exists j, j < i /\ L !! j = Some m.

Definition dfs_inv color path : Prop :=
  chain path /\ NoDup path /\ (forall x, color !! x = Some false <-> x ∈ path)
  /\ exists L, (forall x, color !! x = Some true <-> x ∈ L) /\ topo L.

Definition whites color : nat := size (list_to_set (C := gset string) nodes ∖ dom color).

Definition grows color color' : Prop := forall x b, color !! x = Some b -> color' !! x = Some b.

Lemma whites_grows color color' : grows color color' -> whites color' <= whites color.
Proof.
  intros Hg. unfold whites. apply subseteq_size. intros x. rewrite !elem_of_difference, !elem_of_dom.
  intros [Hx Hn]. split; [done|]. intros [b Hb]. apply Hn. exists b. by apply Hg.
Qed.

Lemma whites_insert color n b : n ∈ nodes -> color !! n = None -> whites (<[n := b]> color) < whites color.
Proof.
  intros Hn Hc. unfold whites. apply subset_size. rewrite dom_insert. split.
  - intros x. rewrite !elem_of_difference, elem_of_union. tauto.
  - intros Hsub. assert (Hx : n ∈ list_to_set (C := gset string) nodes ∖ dom color).
    { apply elem_of_difference. split; [by apply elem_of_list_to_set | by apply not_elem_of_dom]. }
    apply Hsub, elem_of_difference in Hx as [_ Hx]. apply Hx, elem_of_union. left. by apply elem_of_singleton.
Qed.

Lemma chain_snoc l n :
  chain l -> (forall x, last l = Some x -> E x n) -> chain (l ++ [n]).
Proof.
  intros Hc Hl i x y Hx Hy. destruct (decide (S i < length l)) as [Hi|Hi].
  - rewrite lookup_app_l in Hx, Hy by lia. by eapply Hc.
  - assert (Hlen : S i < length (l ++ [n])) by (by eapply lookup_lt_Some). rewrite length_app in Hlen. simpl in Hlen.
    assert (i = length l - 1) as -> by lia. rewrite lookup_app_r in Hy by lia.
    replace (S (length l - 1) - length l) with 0 in Hy by lia. injection Hy as ->.
    rewrite lookup_app_l in Hx by lia. apply Hl. rewrite last_lookup. by replace (pred (length l)) with (length l - 1) by lia.
Qed.

Lemma chain_app_r l1 l2 : chain (l1 ++ l2) -> chain l2.
Proof.
  intros Hc i x y Hx Hy. apply (Hc (length l1 + i)).
  - rewrite lookup_app_r by lia. by replace (length l1 + i - length l1) with i by lia.
  - rewrite lookup_app_r by lia. by replace (S (length l1 + i) - length l1) with (S i) by lia.
Qed.

Lemma path_from_split next l : next ∈ l -> exists l1 l2, l = l1 ++ next :: l2 /\ path_from next l = next :: l2.
Proof.
  induction l as [|p l IH]; intros Hin; [by apply not_elem_of_nil in Hin|]. simpl.
  case_bool_decide as Ep.
  - subst. by exists [], l.
  - apply elem_of_cons in Hin as [?|Hin]; [congruence|]. destruct (IH Hin) as (l1 & l2 & -> & ->).
    by exists (p :: l1), l2.
Qed.

(** A gray successor closes a cycle. *)
Lemma cycle_found path n next :
  chain (path ++ [n]) -> next ∈ path ++ [n] -> E n next ->
  is_cycle (path_from next (path ++ [n]) ++ [next]).
Proof.
  intros Hc Hin Hn. destruct (path_from_split _ _ Hin) as (l1 & l2 & El & ->). split.
  - apply chain_snoc.
    + rewrite El in Hc. by eapply chain_app_r.
    + intros x Hx. assert (Hlast : last (path ++ [n]) = Some n) by apply last_snoc.
      rewrite El, last_app_cons, Hx in Hlast. by injection Hlast as ->.
  - by exists next, l2.
Qed.

Lemma topo_snoc L n : topo L -> (forall m, E n m -> m ∈ L) -> topo (L ++ [n]).
Proof.
  intros HL Hn i x Hi m Hm. destruct (decide (i < length L)) as [Hlt|Hge].
  - rewrite lookup_app_l in Hi by done. destruct (HL i x Hi m Hm) as (j & Hj & Ej).
    exists j. split; [done|]. rewrite lookup_app_l by lia. done.
  - rewrite lookup_app_r in Hi by lia. apply list_lookup_singleton_Some in Hi as [Hi ->].
    apply Hn, list_elem_of_lookup in Hm as [j Ej]. exists j. pose proof (lookup_lt_Some _ _ _ Ej).
    split; [lia|]. by rewrite lookup_app_l.
Qed.

Section Loop.
Context (rec : string -> gmap string bool -> list string -> dfs).

(** The loop of [visit] over the successors of a node. *)
Fixpoint visit_loop (nexts : list string) color path : dfs :=
  match nexts with
  | [] => DfsGo color path
  | next :: rest =>
      match color !! next with
      | None =>
          match rec next color path with
          | DfsGo color path => visit_loop rest color path
          | other => other
          end
      | Some false => DfsCycle (path_from next path ++ [next])
      | Some true => visit_loop rest color path
      end
  end.
End Loop.

Lemma visit_unfold fuel n color path :
  visit (S fuel) adj n color path =
  match visit_loop (visit fuel adj) (adj n) (<[n := false]> color) (path ++ [n]) with
  | DfsGo color' _ => DfsGo (<[n := true]> color') path
  | other => other
  end.
Proof. reflexivity. Qed.

(** What [visit] does at [n], with enough fuel. *)
Definition visit_spec (fuel : nat) : Prop := forall n color path,
  n ∈ nodes -> color !! n = None -> whites color < fuel -> dfs_inv color path ->
  (forall x, last path = Some x -> E x n) ->
  match visit fuel adj n color path with
  | DfsGo color' path' =>
      path' = path /\ dfs_inv color' path /\ color' !! n = Some true /\ grows color color'
  | DfsCycle c => is_cycle c
  | DfsFuel => False
  end.

Lemma visit_loop_ok fuel n path nexts color :
  visit_spec fuel -> whites color < fuel -> dfs_inv color (path ++ [n]) ->
  (forall m, m ∈ nexts -> E n m) ->
  match visit_loop (visit fuel adj) nexts color (path ++ [n]) with
  | DfsGo color' path' =>
      path' = path ++ [n] /\ dfs_inv color' (path ++ [n]) /\ grows color color'
      /\ forall m, m ∈ nexts -> color' !! m = Some true
  | DfsCycle c => is_cycle c
  | DfsFuel => False
  end.
Proof.
  intros Hspec. revert color. induction nexts as [|next rest IH]; intros color Hw Hinv Hn; simpl.
  { split_and!; [done..|by intros x b|]. by intros m Hm%not_elem_of_nil. }
  assert (Hnext : E n next) by apply Hn, list_elem_of_here.
  assert (Hrest : forall m, m ∈ rest -> E n m) by (intros m Hm; apply Hn; by apply list_elem_of_further).
  destruct (color !! next) as [[]|] eqn:Ec.
  - specialize (IH color Hw Hinv Hrest). destruct (visit_loop _ _ _ _) as [color' path'| |]; [|done..].
    destruct IH as (-> & Hi & Hg & Hall). split_and!; [done..|]. intros m [->|Hm]%elem_of_cons; auto.
  - destruct Hinv as (Hc & _ & Hgray & _). apply cycle_found; [done| |done]. by apply Hgray.
  - pose proof (Hspec next color (path ++ [n]) (adj_nodes _ _ Hnext) Ec Hw Hinv) as Hv.
    destruct (visit fuel adj next color (path ++ [n])) as [color1 path1|c|]; simpl.
    + destruct Hv as (-> & Hi1 & Hb1 & Hg1); [intros x; rewrite last_snoc; by intros [= <-]|].
      assert (Hw1 : whites color1 < fuel) by (pose proof (whites_grows _ _ Hg1); lia).
      specialize (IH color1 Hw1 Hi1 Hrest). destruct (visit_loop _ _ _ _) as [color' path'| |]; [|done..].
      destruct IH as (-> & Hi & Hg & Hall). split_and!; [done..| |].
      * intros x b Hx. auto.
      * intros m [->|Hm]%elem_of_cons; auto.
    + apply Hv. intros x. rewrite last_snoc. by intros [= <-].
    + apply Hv. intros x. rewrite last_snoc. by intros [= <-].
Qed.

Lemma dfs_inv_enter color path n :
  dfs_inv color path -> color !! n = None -> (forall x, last path = Some x -> E x n) ->
  dfs_inv (<[n := false]> color) (path ++ [n]).
Proof.
  intros (Hc & ND & Hg & L & HL & Ht) Hn Hl.
  assert (Hnp : n ∉ path) by (intros Hin%Hg; congruence). split_and!.
  - by apply chain_snoc.
  - apply NoDup_app. split_and!; [done| |apply NoDup_singleton].
    intros x Hx ->%list_elem_of_singleton. done.
  - intros x. rewrite elem_of_app, list_elem_of_singleton, <- Hg.
    destruct (decide (x = n)) as [->|Hne]; [rewrite lookup_insert_eq; tauto | rewrite lookup_insert_ne by done; tauto].
  - exists L. split; [|done]. intros x. rewrite <- HL.
    destruct (decide (x = n)) as [->|Hne]; [rewrite lookup_insert_eq, Hn; split; congruence | by rewrite lookup_insert_ne].
Qed.

Lemma dfs_inv_leave color path n :
  dfs_inv color (path ++ [n]) -> (forall m, E n m -> color !! m = Some true) ->
  dfs_inv (<[n := true]> color) path.
Proof.
  intros (Hc & ND & Hg & L & HL & Ht) Hn. apply NoDup_app in ND as (ND & Hd & _). split_and!.
  - intros i x y Hx Hy. apply (Hc i); rewrite lookup_app_l; [done|by eapply lookup_lt_Some|done|by eapply lookup_lt_Some].
  - done.
  - intros x. destruct (decide (x = n)) as [->|Hne].
    + rewrite lookup_insert_eq. split; [done|]. intros Hin. exfalso. apply (Hd n Hin). by apply list_elem_of_singleton.
    + rewrite lookup_insert_ne by done. rewrite Hg, elem_of_app, list_elem_of_singleton. tauto.
  - exists (L ++ [n]). split.
    + intros x. rewrite elem_of_app, list_elem_of_singleton, <- HL.
      destruct (decide (x = n)) as [->|Hne]; [rewrite lookup_insert_eq; tauto | rewrite lookup_insert_ne by done; tauto].
    + apply topo_snoc; [done|]. intros m Hm. by apply HL, Hn.
Qed.

Lemma visit_ok fuel : visit_spec fuel.
Proof.
  induction fuel as [|fuel IH]; intros n color path Hn Hc Hw Hinv Hl; [lia|]. rewrite visit_unfold.
  pose proof (whites_insert color n false Hn Hc) as Hw1.
  pose proof (visit_loop_ok fuel n path (adj n) (<[n:=false]> color) IH ltac:(lia)
    (dfs_inv_enter _ _ _ Hinv Hc Hl) (fun m Hm => Hm)) as Hloop.
  destruct (visit_loop _ _ _ _) as [color' path'| |]; [|done..].
  destruct Hloop as (-> & Hi & Hg & Hall). split_and!; [done| | |].
  - by apply dfs_inv_leave.
  - apply lookup_insert_eq.
  - intros x b Hx. assert (x <> n) by congruence. rewrite lookup_insert_ne by done.
    apply Hg. by rewrite lookup_insert_ne.
Qed.

Lemma visit_all_ok fuel l color :
  (forall n, n ∈ l -> n ∈ nodes) -> whites color < fuel -> dfs_inv color [] ->
  match visit_all fuel adj l color [] with
  | DfsGo color' _ => dfs_inv color' [] /\ grows color color' /\ forall n, n ∈ l -> color' !! n = Some true
  | DfsCycle c => is_cycle c
  | DfsFuel => False
  end.
Proof.
  revert color. induction l as [|n l IH]; intros color Hl Hw Hinv; simpl.
  { split_and!; [done|by intros x b|]. by intros n Hn%not_elem_of_nil. }
  assert (Hl' : forall m, m ∈ l -> m ∈ nodes) by (intros m Hm; apply Hl; by apply list_elem_of_further).
  destruct (color !! n) as [b|] eqn:Ec.
  - specialize (IH color Hl' Hw Hinv). destruct (visit_all _ _ _ _ _) as [color' path'| |]; [|done..].
    destruct IH as (Hi & Hg & Hall). split_and!; [done..|]. intros m [->|Hm]%elem_of_cons; [|auto].
    apply Hg. destruct b; [done|]. destruct Hinv as (_ & _ & Hgray & _). apply Hgray in Ec. by apply not_elem_of_nil in Ec.
  - pose proof (visit_ok fuel n color [] (Hl n (list_elem_of_here _ _)) Ec Hw Hinv ltac:(done)) as Hv.
    destruct (visit fuel adj n color []) as [color1 path1| |]; [|done..].
    destruct Hv as (-> & Hi1 & Hb1 & Hg1).
    specialize (IH color1 Hl' ltac:(pose proof (whites_grows _ _ Hg1); lia) Hi1).
    destruct (visit_all _ _ _ _ _) as [color' path'| |]; [|done..]. destruct IH as (Hi & Hg & Hall).
    split_and!; [done| |].
    + intros x b Hx. auto.
    + intros m [->|Hm]%elem_of_cons; auto.
Qed.

(** The search reports a real cycle, or there is none. *)
Lemma detectGatewayCycle_spec :
  match detectGatewayCycle nodes adj with
  | Some c => is_cycle c
  | None => forall n, n ∈ nodes -> ~ tc E n n
  end.
Proof.
  unfold detectGatewayCycle.
  assert (Hw : whites ∅ < S (length nodes)).
  { unfold whites. rewrite dom_empty_L, difference_empty_L. pose proof (size_list_to_set_le nodes). lia. }
  assert (H0 : dfs_inv ∅ []).
  { split_and!; [by intros i x y|constructor| |].
    - intros x. rewrite lookup_empty, elem_of_nil. done.
    - exists []. split; [intros x; rewrite lookup_empty, elem_of_nil; done | by intros i n]. }
  pose proof (visit_all_ok (S (length nodes)) nodes ∅ (fun _ H => H) Hw H0) as Hv.
  destruct (visit_all _ _ _ _ _) as [color path|c|]; [|done..].
  destruct Hv as ((_ & _ & _ & L & HL & Ht) & _ & Hall). intros n Hn Hcyc.
  assert (Hlt : forall x y, tc E x y -> forall i, L !! i = Some x -> exists j, j < i /\ L !! j = Some y).
  { induction 1 as [x y Hxy|x y z Hxy _ IH]; intros i Hi; [by eapply Ht|].
    destruct (Ht i x Hi y Hxy) as (j & Hj & Ej). destruct (IH j Ej) as (k & Hk & Ek). exists k. split; [lia | done]. }
  assert (Hno : forall i, L !! i = Some n -> False).
  { intros i. induction (lt_wf i) as [i _ IH]. intros Hi. destruct (Hlt n n Hcyc i Hi) as (j & Hj & Ej). eauto. }
  destruct (proj1 (list_elem_of_lookup L n)) as [i Hi]; [|eauto]. apply HL. by apply Hall.
Qed.

End Dfs.
