(* ===== verification/BlockFacts.v ===== *)
(** The structure [Validate] guarantees: every node is reachable, automatic nodes
    form no cycle, and the branches of a split are closed, disjoint regions that lead
    to its join.  The walk that builds a branch is shown to visit exactly the nodes
    its transitions reach before the join. *)

From stdpp Require Import base gmap sets list strings relations.
From Stdlib Require Import ZArith Lia.
From S2P Require Import Prelude GoStrings Errors Model Definitions Validate Repo Ports Events Run.
From S2P Require Import RunFrame CaseInv RunInv ValidateFacts GraphFacts.

Open Scope string_scope.
Open Scope list_scope.
Open Scope nat_scope.

(** ** Reachability *)

Section Definitions.
Context (d : WDefinition).

Definition targets : gset string := list_to_set (tr_To <$> d_Transitions d).

Lemma adjacency_targets x y : edge (adjacency d) x y -> y ∈ targets.
Proof.
  unfold edge, adjacency, outgoingByNode. case_match; [|by intros Hy%not_elem_of_nil].
  intros (tr & -> & [Htr _]%elem_of_TransitionsFrom)%list_elem_of_fmap.
  apply elem_of_list_to_set. by apply list_elem_of_fmap_2.
Qed.

Lemma targets_size : 1 + size targets < walk_fuel d.
Proof.
  unfold targets, walk_fuel. pose proof (size_list_to_set_le (tr_To <$> d_Transitions d)) as Hs.
  rewrite length_fmap in Hs. lia.
Qed.

Lemma reachable_from_spec start x : x ∈ reachable_from d start <-> rtc (edge (adjacency d)) start x.
Proof. apply (bfs_reachable _ targets); [apply adjacency_targets | apply targets_size]. Qed.

Lemma reaches_spec from to : reaches d from to = true <-> rtc (edge (adjacency d)) from to.
Proof. apply (reaches_loop_iff _ _ targets); [apply adjacency_targets | apply targets_size]. Qed.

(** ** The walk along a branch *)

(** The forward transitions the walk of split [s] follows: none out of the join or
    back out of the split itself. *)
Definition inner_adj (s : Node) (x : string) : list string :=
  if bool_decide (x = n_Join s) || bool_decide (x = n_ID s) then []
  else tr_To <$> List.filter (fun t => negb (tr_Return t)) (outgoingByNode d x).

Lemma inner_adj_stop s x y : edge (inner_adj s) x y -> x <> n_Join s /\ x <> n_ID s.
Proof.
  unfold edge, inner_adj. case_match eqn:E; [by intros Hy%not_elem_of_nil|]. intros _.
  apply orb_false_iff in E. by rewrite !bool_decide_eq_false in E.
Qed.

(** Transitions not walked yet. *)
Definition unwalked (nodes : gset string) : nat :=
  count (fun t => negb (bool_decide (tr_From t ∈ nodes))) (d_Transitions d).

Lemma length_filter_le {A} (p : A -> bool) l : length (List.filter p l) <= length l.
Proof. induction l as [|a l IH]; simpl; [lia|]. destruct (p a); simpl; lia. Qed.

Lemma unwalked_visit nodes id :
  (id ∉ nodes) ->
  length (List.filter (fun t => negb (tr_Return t)) (outgoingByNode d id)) + unwalked ({[id]} ∪ nodes)
  <= unwalked nodes.
Proof.
  intros Hid.
  assert (Hlen : length (List.filter (fun t => negb (tr_Return t)) (outgoingByNode d id))
                 <= count (fun t => bool_decide (tr_From t = id)) (d_Transitions d)).
  { etransitivity; [apply length_filter_le|]. unfold outgoingByNode. case_match; [|simpl; lia].
    unfold TransitionsFrom. by rewrite count_filter_length. }
  unfold unwalked. pose proof (count_split (fun t => negb (bool_decide (tr_From t ∈ nodes)))
    (fun t => bool_decide (tr_From t = id)) (d_Transitions d)) as Hs. cbv beta in Hs.
  enough (count (fun t => negb (bool_decide (tr_From t ∈ {[id]} ∪ nodes))) (d_Transitions d)
          = count (fun a => negb (bool_decide (tr_From a ∈ nodes)) && negb (bool_decide (tr_From a = id)))
              (d_Transitions d)
          /\ count (fun t => bool_decide (tr_From t = id)) (d_Transitions d)
             = count (fun a => negb (bool_decide (tr_From a ∈ nodes)) && bool_decide (tr_From a = id))
                 (d_Transitions d)) by lia.
  split; apply count_ext; intros t _.
  - rewrite (bool_decide_ext (tr_From t ∈ {[id]} ∪ nodes) (tr_From t = id \/ tr_From t ∈ nodes)) by set_solver.
    rewrite bool_decide_or, negb_orb, andb_comm. done.
  - case_bool_decide as E; [|by rewrite andb_false_r]. rewrite E, bool_decide_false by done. done.
Qed.

(** What the walk knows of the branch [br] while [queue] is left: *)
Record walk_inv (s : Node) (start : string) (queue : list string) (br : branch) : Prop := mkWalkInv {
  wi_order : forall x, x ∈ b_order br <-> x ∈ b_nodes br;
  wi_nodes : forall x, x ∈ b_nodes br -> rtc (edge (inner_adj s)) start x /\ x <> n_Join s /\ x <> n_ID s;
  wi_queue : forall x, x ∈ queue -> rtc (edge (inner_adj s)) start x;
  wi_closed : forall x y, x ∈ b_nodes br -> edge (inner_adj s) x y ->
    y ∈ b_nodes br \/ y ∈ queue \/ y = n_Join s \/ (y = n_ID s /\ b_reentersSplit br = true);
  wi_start : start ∈ b_nodes br \/ start ∈ queue \/ start = n_Join s
    \/ (start = n_ID s /\ b_reentersSplit br = true);
  wi_reenters : b_reentersSplit br = true -> n_ID s <> n_Join s /\ rtc (edge (inner_adj s)) start (n_ID s) }.

Lemma walk_branch_inv fuel s start queue br :
  length queue + unwalked (b_nodes br) < fuel -> walk_inv s start queue br ->
  walk_inv s start [] (walk_branch fuel s (outgoingByNode d) queue br)
  /\ b_action (walk_branch fuel s (outgoingByNode d) queue br) = b_action br.
Proof.
  revert queue br. induction fuel as [|fuel IH]; intros queue br Hf HI; [lia|]. simpl.
  destruct queue as [|id rest]; [done|]. simpl in Hf. destruct HI as [Ho Hn Hq Hc Hst Hre].
  destruct (bool_decide (id = n_Join s) || bool_decide (id ∈ b_nodes br)) eqn:E1;
    [|destruct (decide (id = n_ID s)) as [E2|E2];
      [rewrite bool_decide_true by done | rewrite bool_decide_false by done]].
  - apply IH; [lia|]. apply orb_true_iff in E1. rewrite !bool_decide_eq_true in E1.
    constructor; [done|done| | | |done].
    + intros x Hx. apply Hq. by apply list_elem_of_further.
    + intros x y Hx Hy. destruct (Hc x y Hx Hy) as [?|[[->|?]%elem_of_cons|?]]; auto.
      destruct E1 as [->|?]; auto.
    + destruct Hst as [?|[[->|?]%elem_of_cons|?]]; auto. destruct E1 as [->|?]; auto.
  - apply orb_false_iff in E1. rewrite !bool_decide_eq_false in E1. destruct E1 as [Ej En]. subst id.
    apply (IH rest (mkBranch (b_action br) (b_nodes br) (b_order br) true)); [simpl; lia|].
    constructor; simpl; [done|done| | | |].
    + intros x Hx. apply Hq. by apply list_elem_of_further.
    + intros x y Hx Hy. destruct (Hc x y Hx Hy) as [?|[[->|?]%elem_of_cons|[?|[-> _]]]]; auto 6.
    + destruct Hst as [?|[[->|?]%elem_of_cons|[?|[-> _]]]]; auto 6.
    + intros _. split; [done|]. apply Hq, list_elem_of_here.
  - apply orb_false_iff in E1. rewrite !bool_decide_eq_false in E1. destruct E1 as [Ej En].
    set (nexts := tr_To <$> List.filter (fun t => negb (tr_Return t)) (outgoingByNode d id)).
    assert (Hadj : inner_adj s id = nexts).
    { unfold inner_adj. by rewrite !bool_decide_false. }
    assert (Hid : rtc (edge (inner_adj s)) start id) by apply Hq, list_elem_of_here.
    apply (IH (rest ++ nexts) (mkBranch (b_action br) ({[id]} ∪ b_nodes br) (b_order br ++ [id]) (b_reentersSplit br))).
    { simpl. pose proof (unwalked_visit (b_nodes br) id En). rewrite length_app. unfold nexts. rewrite length_fmap. lia. }
    constructor; simpl.
    + intros x. rewrite elem_of_app, list_elem_of_singleton, elem_of_union, elem_of_singleton, Ho. tauto.
    + intros x [->%elem_of_singleton|Hx]%elem_of_union; [done|]. by apply Hn.
    + intros x [Hx|Hx]%elem_of_app; [apply Hq; by apply list_elem_of_further|].
      eapply rtc_r; [exact Hid|]. unfold edge. by rewrite Hadj.
    + intros x y. rewrite !elem_of_union, elem_of_singleton, elem_of_app. intros [->|Hx] Hy.
      * right. left. right. unfold edge in Hy. by rewrite Hadj in Hy.
      * destruct (Hc x y Hx Hy) as [?|[[->|?]%elem_of_cons|?]]; auto.
        left. left. by apply elem_of_singleton.
    + destruct Hst as [?|[[->|?]%elem_of_cons|?]]; rewrite elem_of_union, elem_of_app; auto.
      left. left. by apply elem_of_singleton.
    + apply Hre.
Qed.

(** The branch of split [s] that starts at [start]. *)
Definition branch_from (s : Node) (action start : string) : branch :=
  walk_branch (walk_fuel d) s (outgoingByNode d) [start] (mkBranch action ∅ [] false).

Lemma branch_from_inv s action start :
  walk_inv s start [] (branch_from s action start) /\ b_action (branch_from s action start) = action.
Proof.
  apply (walk_branch_inv _ s start [start] (mkBranch action ∅ [] false)).
  - assert (Hu : unwalked ∅ <= length (d_Transitions d)) by apply count_le_length.
    change (1 + unwalked ∅ < S (S (length (d_Transitions d)))). lia.
  - constructor; simpl.
    + intros x. rewrite elem_of_nil, elem_of_empty. done.
    + intros x Hx%elem_of_empty. done.
    + intros x ->%list_elem_of_singleton. constructor.
    + intros x y Hx%elem_of_empty. done.
    + right. left. apply list_elem_of_here.
    + done.
Qed.

(** The branch holds exactly the nodes its start reaches without crossing the join
    or the split. *)
Lemma branch_from_nodes s action start x :
  x ∈ b_nodes (branch_from s action start)
  <-> rtc (edge (inner_adj s)) start x /\ x <> n_Join s /\ x <> n_ID s.
Proof.
  destruct (branch_from_inv s action start) as [HI _]. split; [apply (wi_nodes _ _ _ _ HI)|].
  intros (Hr & Hj & Hs).
  assert (Hall : forall y, rtc (edge (inner_adj s)) start y ->
    y ∈ b_nodes (branch_from s action start) \/ y = n_Join s \/ y = n_ID s).
  { apply rtc_ind_r.
    - destruct (wi_start _ _ _ _ HI) as [?|[Hn%not_elem_of_nil|[?|[Hx0 _]]]]; auto. done.
    - intros y z _ Hyz [Hy|Hy].
      + destruct (wi_closed _ _ _ _ HI y z Hy Hyz) as [?|[Hn%not_elem_of_nil|[?|[Hx0 _]]]]; auto. done.
      + apply inner_adj_stop in Hyz. tauto. }
  destruct (Hall x Hr) as [?|[?|?]]; done.
Qed.

Lemma branch_from_reenters s action start :
  b_reentersSplit (branch_from s action start) = true
  <-> n_ID s <> n_Join s /\ rtc (edge (inner_adj s)) start (n_ID s).
Proof.
  destruct (branch_from_inv s action start) as [HI _]. split; [apply (wi_reenters _ _ _ _ HI)|].
  intros [Hne Hr]. apply rtc_inv_r in Hr as [->|(y & Hy & Hys)].
  - destruct (wi_start _ _ _ _ HI) as [Hn|[Hn%not_elem_of_nil|[?|[_ ?]]]]; try done.
    destruct (wi_nodes _ _ _ _ HI _ Hn) as (_ & _ & ?). done.
  - assert (Hyn : y ∈ b_nodes (branch_from s action start)).
    { apply branch_from_nodes. split; [done|]. by eapply inner_adj_stop. }
    destruct (wi_closed _ _ _ _ HI y _ Hyn Hys) as [Hn|[Hn%not_elem_of_nil|[?|[_ ?]]]]; try done.
    destruct (wi_nodes _ _ _ _ HI _ Hn) as (_ & _ & ?). done.
Qed.

End Definitions.

(** ** What a valid definition has *)

Section Valid.
Context {d : WDefinition} (HV : validated d).

Lemma valid_reachable n start :
  n ∈ d_Nodes d -> StartNode d = Some start -> rtc (edge (adjacency d)) (n_ID start) (n_ID n).
Proof.
  intros Hn Hs. pose proof (vd_reach d HV) as Hr. unfold reachability_violations in Hr.
  rewrite (proj2 (Nat.eqb_eq _ _) (vd_start d HV)) in Hr.
  rewrite concat_fmap_nil in Hr. specialize (Hr n Hn). cbv beta in Hr.
  rewrite bool_decide_false in Hr by (by apply (valid_id HV)). apply when_nil, bool_decide_eq_false in Hr.
  rewrite Hs in Hr. apply reachable_from_spec. destruct (decide (n_ID n ∈ reachable_from d (n_ID start))); tauto.
Qed.

Lemma known_automatic_spec id :
  known_automatic d id = true <-> exists n, n ∈ d_Nodes d /\ n_ID n = id /\ IsAutomatic (n_Kind n) = true.
Proof.
  unfold known_automatic. rewrite (nodeByID_Node HV). split.
  - case_match eqn:E; [|done]. intros Ha. apply Definition_Node_Some in E as [Hn Hid]. eauto.
  - intros (n & Hn & <- & Ha). by rewrite (valid_Node HV n Hn).
Qed.

Lemma gateway_edge x y : edge (gatewayAdjacency d) x y <->
  known_automatic d x = true /\ known_automatic d y = true
  /\ exists tr, tr ∈ d_Transitions d /\ tr_From tr = x /\ tr_To tr = y.
Proof.
  unfold edge, gatewayAdjacency. case_match.
  - rewrite list_elem_of_In, filter_In, <- list_elem_of_In, list_elem_of_fmap.
    setoid_rewrite elem_of_TransitionsFrom. split.
    + intros [(tr & -> & Htr & Hf) Hy]. eauto 6.
    + intros (_ & Hy & tr & Htr & Hf & <-). eauto 6.
  - split; [by intros Hy%not_elem_of_nil | by intros [? _]].
Qed.

Lemma known_automatic_node id : known_automatic d id = true -> id ∈ gatewayNodes d.
Proof.
  intros (n & Hn & <- & Ha)%known_automatic_spec. unfold gatewayNodes. apply list_elem_of_fmap_2.
  apply list_elem_of_In, filter_In. split; [by apply list_elem_of_In|].
  rewrite Ha, bool_decide_false; [done | by apply (valid_id HV)].
Qed.

(** No cycle of automatic nodes: a token never routes forever. *)
Lemma valid_acyclic id : ~ tc (edge (gatewayAdjacency d)) id id.
Proof.
  pose proof (vd_cycles d HV) as Hc. unfold cycle_violations in Hc.
  pose proof (detectGatewayCycle_spec (gatewayAdjacency d) (gatewayNodes d)) as Hs.
  destruct (detectGatewayCycle _ _); [done|]. intros Ht. eapply Hs; [| |exact Ht].
  - intros x y (_ & Hy & _)%gateway_edge. by apply known_automatic_node.
  - inversion Ht as [? ? Hxy|? ? ? Hxy _]; apply gateway_edge in Hxy as (Hx & _); by apply known_automatic_node.
Qed.

(** *** Blocks *)

Lemma split_in_nodes s : s ∈ d_Nodes d -> IsSplit (n_Kind s) = true -> s ∈ split_nodes d.
Proof.
  intros Hs Hk. unfold split_nodes. apply list_elem_of_In, filter_In. split; [by apply list_elem_of_In|].
  rewrite Hk, bool_decide_false; [done | by apply (valid_id HV)].
Qed.

Lemma split_block_ok s : s ∈ split_nodes d -> split_block d s = inr (buildBlock d s).
Proof.
  intros Hs. pose proof (vd_splits d HV) as Hv. unfold split_violations in Hv.
  assert (Hno : forall v, split_block d s <> inl v).
  { intros v Hb. assert (Hin : v ∈ omap (fun n => match split_block d n with inl v => Some v | inr _ => None end)
      (split_nodes d)) by (apply list_elem_of_omap; exists s; by rewrite Hb).
    rewrite Hv in Hin. by apply not_elem_of_nil in Hin. }
  unfold split_block in *. repeat case_match; try done; by edestruct Hno.
Qed.

Lemma block_in s : s ∈ d_Nodes d -> IsSplit (n_Kind s) = true -> buildBlock d s ∈ blocks_of d.
Proof.
  intros Hs Hk. pose proof (split_in_nodes s Hs Hk) as Hin. unfold blocks_of.
  apply list_elem_of_omap. exists s. by rewrite split_block_ok.
Qed.

Lemma checkBlock_nil s : s ∈ d_Nodes d -> IsSplit (n_Kind s) = true -> checkBlock d (buildBlock d s) = [].
Proof.
  intros Hs Hk. pose proof (vd_blocks d HV) as Hb. unfold validateBlocks in Hb. cbv zeta in Hb.
  apply app_nil in Hb as [_ Hb]. apply app_nil in Hb as [_ Hb]. apply app_nil in Hb as [Hb _].
  rewrite concat_fmap_nil in Hb. by apply Hb, block_in.
Qed.

Lemma outgoing_known s : s ∈ d_Nodes d -> outgoingByNode d (n_ID s) = TransitionsFrom d (n_ID s).
Proof. intros Hs. unfold outgoingByNode. by rewrite (nodeByID_Node HV), (valid_Node HV s Hs). Qed.

Lemma outgoing_spec x tr : tr ∈ outgoingByNode d x <-> tr ∈ d_Transitions d /\ tr_From tr = x.
Proof.
  unfold outgoingByNode. rewrite (nodeByID_Node HV). destruct (Definition_Node d x) eqn:E.
  - apply elem_of_TransitionsFrom.
  - split; [by intros Hn%not_elem_of_nil|]. intros [Htr Hf].
    destruct (valid_transition HV tr Htr) as (from & to & Hfrom & _). rewrite Hf in Hfrom. congruence.
Qed.

Lemma inner_edge s x y : edge (inner_adj d s) x y <->
  x <> n_Join s /\ x <> n_ID s
  /\ exists tr, tr ∈ d_Transitions d /\ tr_Return tr = false /\ tr_From tr = x /\ tr_To tr = y.
Proof.
  split.
  - intros He. destruct (inner_adj_stop d s x y He) as [Hj Hs]. split_and!; [done..|].
    unfold edge, inner_adj in He. rewrite !bool_decide_false in He by done. simpl in He.
    apply list_elem_of_fmap in He as (tr & -> & Hin). apply list_elem_of_In, filter_In in Hin as [Hin Hr].
    apply list_elem_of_In, outgoing_spec in Hin as [Htr Hf]. exists tr. by apply negb_true_iff in Hr.
  - intros (Hj & Hs & tr & Htr & Hr & Hf & <-). unfold edge, inner_adj. rewrite !bool_decide_false by done. simpl.
    apply list_elem_of_fmap_2, list_elem_of_In, filter_In. rewrite Hr. split; [|done].
    by apply list_elem_of_In, outgoing_spec.
Qed.

(** The nodes of the branch of [s] that [tr] starts. *)
Definition inside (s : Node) (tr : Transition) (x : string) : Prop :=
  rtc (edge (inner_adj d s)) (tr_To tr) x /\ x <> n_Join s /\ x <> n_ID s.

Definition branch_of_split (s : Node) (tr : Transition) : branch :=
  branch_from d s (tr_Action tr) (tr_To tr).

Lemma inside_nodes s tr x : x ∈ b_nodes (branch_of_split s tr) <-> inside s tr x.
Proof. apply branch_from_nodes. Qed.

Lemma inside_order s tr x : x ∈ b_order (branch_of_split s tr) <-> inside s tr x.
Proof.
  rewrite <- inside_nodes. destruct (branch_from_inv d s (tr_Action tr) (tr_To tr)) as [HI _].
  apply (wi_order _ _ _ _ _ HI).
Qed.

Lemma branches_violations_nil b l :
  branches_violations d b l = [] ->
  (forall br, br ∈ l -> exists sibs, branch_violations d b br sibs = [])
  /\ (forall l1 br1 l2 br2 l3, l = l1 ++ br1 :: l2 ++ br2 :: l3 ->
        exists sibs, br2 ∈ sibs /\ branch_violations d b br1 sibs = []).
Proof.
  induction l as [|br l IH]; intros Hv; simpl in Hv.
  { split; [by intros br Hb%not_elem_of_nil|]. intros [|] ? ? ? ? E; done. }
  apply app_nil in Hv as [H1 H2]. destruct (IH H2) as [IH1 IH2]. split.
  - intros b' [->|Hb']%elem_of_cons; eauto.
  - intros [|c l1] br1 l2 br2 l3 E; simpl in E; injection E as -> E.
    + exists l. split; [|done]. rewrite E. apply elem_of_app. right. apply list_elem_of_here.
    + by eapply IH2.
Qed.

Lemma report_entries_nil b mk edges rep rep' :
  report_entries b mk edges rep = ([], rep') ->
  rep' = rep /\ forall id from, (id, from) ∈ edges ->
    from = n_ID (bk_split b) \/ from ∈ bk_interior b \/ nul_key id from ∈ rep.
Proof.
  induction edges as [|[id from] rest IH]; simpl; intros Hr.
  { injection Hr as <-. split; [done|]. by intros id from Hn%not_elem_of_nil. }
  case_match eqn:E; [|case_match; simplify_eq].
  destruct (IH Hr) as [-> Hall]. split; [done|].
  intros id' from' [[= -> ->]|Hin]%elem_of_cons; [|auto].
  rewrite !orb_true_iff, !bool_decide_eq_true in E. tauto.
Qed.

Lemma block_branches s : s ∈ d_Nodes d ->
  bk_branches (buildBlock d s) = branch_of_split s <$> TransitionsFrom d (n_ID s).
Proof. intros Hs. unfold buildBlock. simpl. by rewrite outgoing_known. Qed.

Lemma block_interior s x : s ∈ d_Nodes d ->
  x ∈ bk_interior (buildBlock d s) <-> exists tr, tr ∈ TransitionsFrom d (n_ID s) /\ inside s tr x.
Proof.
  intros Hs. unfold buildBlock. simpl. rewrite outgoing_known, elem_of_union_list by done. split.
  - intros (X & HX & Hx). apply list_elem_of_fmap in HX as (br & -> & (tr & -> & Htr)%list_elem_of_fmap).
    exists tr. split; [done|]. by apply inside_nodes.
  - intros (tr & Htr & Hx). exists (b_nodes (branch_of_split s tr)). split; [|by apply inside_nodes].
    by apply list_elem_of_fmap_2, list_elem_of_fmap_2.
Qed.

Section Split.
Context (s : Node) (Hs : s ∈ d_Nodes d) (Hk : IsSplit (n_Kind s) = true).

Lemma branch_checked tr : tr ∈ TransitionsFrom d (n_ID s) ->
  exists sibs, branch_violations d (buildBlock d s) (branch_of_split s tr) sibs = [].
Proof.
  intros Htr. pose proof (checkBlock_nil s Hs Hk) as Hc. unfold checkBlock in Hc.
  repeat case_match. apply app_nil in Hc as [Hc _]. apply branches_violations_nil in Hc as [Hc _].
  apply Hc. rewrite block_branches by done. by apply list_elem_of_fmap_2.
Qed.

Lemma valid_no_reentry tr : tr ∈ TransitionsFrom d (n_ID s) ->
  n_ID s <> n_Join s -> ~ rtc (edge (inner_adj d s)) (tr_To tr) (n_ID s).
Proof.
  intros Htr Hne Hr. destruct (branch_checked tr Htr) as [sibs Hb]. unfold branch_violations in Hb. cbv zeta in Hb.
  apply app_nil in Hb as [Hb _]. apply when_nil in Hb.
  assert (Ht : b_reentersSplit (branch_of_split s tr) = true) by (by apply branch_from_reenters). congruence.
Qed.

Lemma valid_inside_not_terminal tr x n : tr ∈ TransitionsFrom d (n_ID s) -> inside s tr x ->
  Definition_Node d x = Some n -> n_Terminal n = false.
Proof.
  intros Htr Hx Hn. destruct (branch_checked tr Htr) as [sibs Hb]. unfold branch_violations in Hb. cbv zeta in Hb.
  apply app_nil in Hb as [_ Hb]. apply app_nil in Hb as [Hb _]. apply fmap_nil_inv in Hb.
  apply not_true_iff_false. intros Ht.
  assert (Hin : List.In x (List.filter (node_terminal d) (b_order (branch_of_split s tr)))).
  { apply filter_In. split; [by apply list_elem_of_In, inside_order|].
    unfold node_terminal. by rewrite (nodeByID_Node HV), Hn. }
  by rewrite Hb in Hin.
Qed.

Lemma incoming_spec id from : from ∈ incoming d id <->
  exists tr, tr ∈ d_Transitions d /\ tr_Return tr = false /\ tr_From tr = from /\ tr_To tr = id.
Proof.
  unfold incoming. rewrite list_elem_of_fmap. split.
  - intros (tr & -> & Hin). apply list_elem_of_In, filter_In in Hin as [Hin Hc].
    apply andb_true_iff in Hc as [Hr%negb_true_iff Ht%bool_decide_eq_true].
    exists tr. split_and!; [by apply list_elem_of_In|done..].
  - intros (tr & Htr & Hr & <- & <-). exists tr. split; [done|]. apply list_elem_of_In, filter_In.
    split; [by apply list_elem_of_In|]. by rewrite Hr, bool_decide_true.
Qed.

Lemma reaches_join_sound tr x :
  x ∈ reaches_join d (buildBlock d s) (branch_of_split s tr) -> rtc (edge (inner_adj d s)) x (n_Join s).
Proof.
  unfold reaches_join. intros [Hx%elem_of_empty|(q & ->%list_elem_of_singleton & Ht)]%bfs_sound; [done|].
  simpl in Ht. set (back := fun id : string => List.filter _ _) in Ht.
  assert (Hb : forall a b, edge back a b -> edge (inner_adj d s) b a).
  { intros a b Hab. unfold edge, back in Hab. apply list_elem_of_In, filter_In in Hab as [Hin Hbn].
    apply list_elem_of_In, incoming_spec in Hin as (t & Ht1 & Ht2 & Ht3 & Ht4).
    apply bool_decide_eq_true, inside_nodes in Hbn as (_ & Hj & Hsp). apply inner_edge. split_and!; [done..|]. eauto 6. }
  assert (Hrev : forall a b, tc (edge back) a b -> rtc (edge (inner_adj d s)) b a).
  { induction 1 as [a b Hab|a b c Hab _ IH]; [apply rtc_once; auto|]. eapply rtc_r; [exact IH|]. auto. }
  by apply Hrev.
Qed.

Lemma valid_inside_reaches_join tr x : tr ∈ TransitionsFrom d (n_ID s) -> inside s tr x ->
  (exists n, Definition_Node d x = Some n) -> rtc (edge (inner_adj d s)) x (n_Join s).
Proof.
  intros Htr Hx [n Hn]. destruct (branch_checked tr Htr) as [sibs Hb]. unfold branch_violations in Hb. cbv zeta in Hb.
  apply app_nil in Hb as [_ Hb]. apply app_nil in Hb as [_ Hb]. apply app_nil in Hb as [Hb _].
  unfold first_violation in Hb. case_match eqn:Ef; [done|].
  eapply find_none in Ef; [|by apply list_elem_of_In, inside_order].
  apply (reaches_join_sound tr). apply andb_false_iff in Ef as [Ef|Ef].
  - by apply negb_false_iff, bool_decide_eq_true in Ef.
  - apply negb_false_iff in Ef. unfold node_terminal in Ef. rewrite (nodeByID_Node HV), Hn in Ef. simpl in Ef.
    pose proof (valid_inside_not_terminal tr x n Htr Hx Hn). congruence.
Qed.

Lemma branch_disjoint_at l1 tr1 l2 tr2 l3 x :
  TransitionsFrom d (n_ID s) = l1 ++ tr1 :: l2 ++ tr2 :: l3 -> inside s tr1 x -> ~ inside s tr2 x.
Proof.
  intros El H1 H2. pose proof (checkBlock_nil s Hs Hk) as Hc. unfold checkBlock in Hc.
  repeat case_match. apply app_nil in Hc as [Hc _]. apply branches_violations_nil in Hc as [_ Hc].
  rewrite block_branches, El in Hc by done. rewrite fmap_app, fmap_cons, fmap_app, fmap_cons in Hc.
  edestruct Hc as (sibs & Hin & Hb); [reflexivity|]. unfold branch_violations in Hb. cbv zeta in Hb.
  apply app_nil in Hb as [_ Hb]. apply app_nil in Hb as [_ Hb]. apply app_nil in Hb as [_ Hb].
  rewrite concat_fmap_nil in Hb. specialize (Hb _ Hin). cbv beta in Hb. unfold first_violation in Hb.
  case_match eqn:Ef; [done|]. eapply find_none in Ef; [|by apply list_elem_of_In, inside_order].
  apply bool_decide_eq_false in Ef. by apply Ef, inside_nodes.
Qed.

Lemma valid_branches_disjoint tr1 tr2 x :
  tr1 ∈ TransitionsFrom d (n_ID s) -> tr2 ∈ TransitionsFrom d (n_ID s) -> tr1 <> tr2 ->
  inside s tr1 x -> ~ inside s tr2 x.
Proof.
  intros H1 H2 Hne Hi1 Hi2. apply list_elem_of_split in H1 as (l1 & l2 & El).
  assert (Hin : tr2 ∈ l1 ++ tr1 :: l2) by (by rewrite <- El).
  apply elem_of_app in Hin as [Hin|[?|Hin]%elem_of_cons]; [|by subst|];
    apply list_elem_of_split in Hin as (l3 & l4 & ->).
  - rewrite <- app_assoc in El. simpl in El. by eapply branch_disjoint_at.
  - by eapply (branch_disjoint_at l1 tr1 l3 tr2 l4).
Qed.

(** A forward transition enters the block only through the split. *)
Lemma valid_block_entry tr t : tr ∈ TransitionsFrom d (n_ID s) ->
  t ∈ d_Transitions d -> tr_Return t = false -> inside s tr (tr_To t) \/ tr_To t = n_Join s ->
  tr_From t = n_ID s \/ exists tr', tr' ∈ TransitionsFrom d (n_ID s) /\ inside s tr' (tr_From t).
Proof.
  intros Htr Ht Hr Hto. pose proof (checkBlock_nil s Hs Hk) as Hc. unfold checkBlock in Hc.
  destruct (report_entries _ _ _ []) as [inner rep] eqn:E1.
  destruct (report_entries _ _ _ rep) as [outer rep2] eqn:E2.
  apply app_nil in Hc as [_ Hc]. apply app_nil in Hc as [-> ->].
  apply report_entries_nil in E1 as [-> E1]. apply report_entries_nil in E2 as [-> E2].
  assert (Hin : tr_From t ∈ incoming d (tr_To t)) by (apply incoming_spec; eauto 6).
  assert (Hedge : (tr_To t, tr_From t) ∈ (fun from => (tr_To t, from)) <$> incoming d (tr_To t))
    by (by apply list_elem_of_fmap_2).
  assert (Hres : tr_From t = n_ID (bk_split (buildBlock d s)) \/ tr_From t ∈ bk_interior (buildBlock d s)
                 \/ nul_key (tr_To t) (tr_From t) ∈ []).
  { destruct Hto as [Hx|Hj].
    - apply E1. apply list_elem_of_In, in_concat. eexists. split; [|by apply list_elem_of_In].
      apply list_elem_of_In. apply (list_elem_of_fmap_2 (fun x => (fun from => (x, from)) <$> incoming d x)).
      apply list_elem_of_In, in_concat. exists (b_order (branch_of_split s tr)).
      split; [|by apply list_elem_of_In, inside_order]. apply list_elem_of_In. rewrite block_branches by done.
      by apply list_elem_of_fmap_2, list_elem_of_fmap_2.
    - apply E2. simpl. by rewrite <- Hj. }
  destruct Hres as [Hsp|[Hi|Hn%not_elem_of_nil]]; [by left| |done]. right. by apply block_interior in Hi.
Qed.

End Split.
End Valid.
