(* ===== verification/System.v ===== *)
(** The engine over its database: any sequence of successful calls, each in its own
    transaction, from a database without cases.  A failed call is rolled back by its
    caller, so it leaves no step.  Every database so reached keeps, for every case,
    the invariant of its tokens and scopes, the projection of the case row and a
    history numbered without gaps. *)

From stdpp Require Import base gmap sets list strings.
From Stdlib Require Import ZArith Lia.
From S2P Require Import Prelude GoStrings Errors Model Definitions JoinPolicies Repo Ports Events.
From S2P Require Import Run Validate Engine RunFrame CaseInv RunInv EngineInv Persist Plans.
From S2P Require Import ValidateFacts.

Open Scope string_scope.
Open Scope Z_scope.

(** ** The projection of a case row *)

Definition active_in (T : list Token) (t : Token) : Prop := t ∈ T /\ t_Status t = TokenActive.

(** The earliest deadline of the active tokens. *)
Definition earliest_deadline (T : list Token) (dl : option time) : Prop :=
  match dl with
  | None => forall t, active_in T t -> t_DeadlineAt t = None
  | Some m => (exists t, active_in T t /\ t_DeadlineAt t = Some m)
              /\ forall t x, active_in T t -> t_DeadlineAt t = Some x -> m <= x
  end.

(** The row of an open case shows its only active token, or nothing with several,
    and the earliest deadline; a case that ended shows neither assignee nor
    deadline. *)
Definition projects (c : Case) (T : list Token) : Prop :=
  if bool_decide (c_Status c = StatusOpen)
  then (forall t, active_in T t -> (forall t', active_in T t' -> t' = t) ->
          c_State c = t_Node t /\ c_AssignedTo c = t_AssignedTo t)
       /\ (forall t t', active_in T t -> active_in T t' -> t <> t' ->
            c_State c = "" /\ c_AssignedTo c = "")
       /\ earliest_deadline T (c_DeadlineAt c)
  else c_AssignedTo c = "" /\ c_DeadlineAt c = None.

Lemma fold_earliest l acc :
  match fold_left earliest l acc with
  | None => acc = None /\ forall t, t ∈ l -> t_DeadlineAt t = None
  | Some m => (acc = Some m \/ exists t, t ∈ l /\ t_DeadlineAt t = Some m)
              /\ (forall a, acc = Some a -> m <= a)
              /\ forall t x, t ∈ l -> t_DeadlineAt t = Some x -> m <= x
  end.
Proof.
  revert acc. induction l as [|t l IH]; intros acc; csimpl.
  { destruct acc as [a|]; [|split; [done|]; by intros t Ht%not_elem_of_nil].
    split_and!; [by left | intros ? [= ->]; lia | by intros t x Ht%not_elem_of_nil]. }
  specialize (IH (earliest acc t)).
  destruct (fold_left earliest l (earliest acc t)) as [m|]; setoid_rewrite elem_of_cons; unfold earliest in *.
  - destruct IH as (H1 & H2 & H3). destruct (t_DeadlineAt t) as [x|] eqn:Ex.
    + destruct acc as [a|]; [destruct (x <? a) eqn:El|].
      * apply Z.ltb_lt in El. pose proof (H2 _ eq_refl). split_and!.
        -- right. destruct H1 as [[= ->]|(t' & ? & ?)]; [by exists t; auto | by exists t'; auto].
        -- intros ? [= <-]. lia.
        -- intros t' y [->|Ht'] Ey; [|by eapply H3]. rewrite Ex in Ey. injection Ey as ->. lia.
      * apply Z.ltb_ge in El. pose proof (H2 _ eq_refl). split_and!.
        -- destruct H1 as [[= ->]|(t' & ? & ?)]; [by left | right; by exists t'; auto].
        -- intros ? [= <-]. lia.
        -- intros t' y [->|Ht'] Ey; [|by eapply H3]. rewrite Ex in Ey. injection Ey as ->. lia.
      * pose proof (H2 _ eq_refl). split_and!; [|done|].
        -- right. destruct H1 as [[= ->]|(t' & ? & ?)]; [by exists t; auto | by exists t'; auto].
        -- intros t' y [->|Ht'] Ey; [|by eapply H3]. rewrite Ex in Ey. injection Ey as ->. lia.
    + split_and!; [|done|].
      * destruct H1 as [?|(t' & ? & ?)]; [by left | right; by exists t'; auto].
      * intros t' y [->|Ht'] Ey; [congruence | by eapply H3].
  - destruct IH as [H1 H2]. destruct (t_DeadlineAt t) as [x|] eqn:Ex.
    + destruct acc as [a|]; [by destruct (x <? a) | done].
    + split; [done|]. intros t' [->|Ht']; auto.
Qed.

Lemma project_projects r :
  NoDup (t_ID <$> r_tokens r) -> projects (project r) (r_tokens r).
Proof.
  intros ND.
  assert (Est : c_Status (project r) = c_Status (r_c r))
    by (unfold project; case_bool_decide; [done|]; by repeat case_match).
  unfold projects. rewrite Est. case_bool_decide as Ho; unfold project; last by rewrite bool_decide_true.
  rewrite bool_decide_false by tauto.
  assert (Hact : forall t, active_in (r_tokens r) t <-> t ∈ active r)
    by (intros t; unfold active_in; by rewrite elem_of_active).
  assert (NDa : NoDup (active r)).
  { unfold active. rewrite sort_by_Permutation. apply NoDup_ListNoDup, List.NoDup_filter, NoDup_ListNoDup.
    by eapply NoDup_fmap_1. }
  setoid_rewrite Hact.
  assert (Hdl : earliest_deadline (r_tokens r) (fold_left earliest (active r) None)).
  { pose proof (fold_earliest (active r) None) as Hf. unfold earliest_deadline.
    destruct (fold_left earliest (active r) None) as [m|]; setoid_rewrite Hact.
    - destruct Hf as ([?|?] & _ & ?); [done|]. split; [|done]. naive_solver.
    - apply Hf. }
  destruct (active r) as [|x [|y l]] eqn:Ea; simpl; (split_and!; [| |exact Hdl]).
  - by intros t Ht%not_elem_of_nil.
  - by intros t t' Ht%not_elem_of_nil.
  - by intros t ->%list_elem_of_singleton.
  - intros t t' ->%list_elem_of_singleton ->%list_elem_of_singleton. done.
  - intros t Ht Huniq. exfalso. apply NoDup_cons in NDa as [Hx _]. apply Hx.
    rewrite (Huniq x) by apply list_elem_of_here.
    rewrite <- (Huniq y) by (apply list_elem_of_further, list_elem_of_here). apply list_elem_of_here.
  - done.
Qed.

Lemma projects_perm c T T' : T ≡ₚ T' -> projects c T -> projects c T'.
Proof.
  intros HT. assert (Ha : forall t, active_in T t <-> active_in T' t)
    by (intros t; unfold active_in; by rewrite HT).
  unfold projects. case_bool_decide; [|done]. unfold earliest_deadline.
  case_match; setoid_rewrite Ha; done.
Qed.

(** ** Registries *)

Record engine_ok {DB : Type} (e : Engine DB) : Prop := mkEngineOk {
  eo_defs : forall k d, e_definitions e !! k = Some d -> k = Key d /\ Validate d = [];
  eo_latest : forall n d, e_latest e !! n = Some d ->
    d_Name d = n /\ e_definitions e !! Key d = Some d }.

Section Registry.
Context {DB : Type} `{Repository DB}.

Lemma resolveDefinition_ok (e : Engine DB) n v d :
  engine_ok e -> resolveDefinition e n v = Ok d ->
  validated d /\ d_Name d = n /\ resolveDefinition e (d_Name d) (d_Version d) = Ok d
  /\ (0 < v -> d_Version d = v).
Proof.
  intros He Hr.
  assert (Hin : e_definitions e !! Key d = Some d /\ d_Name d = n /\ (0 < v -> d_Version d = v)).
  { unfold resolveDefinition in Hr. case_match eqn:Ev.
    - case_match eqn:Ed; [|done]. injection Hr as ->. destruct (eo_defs e He _ _ Ed) as [Ek _].
      rewrite <- Ek. split; [done|]. apply definition_key_inj in Ek as [-> ->]. done.
    - case_match eqn:Ed; [|done]. injection Hr as ->. destruct (eo_latest e He _ _ Ed) as [En Ek].
      split_and!; auto. apply Z.ltb_ge in Ev. lia. }
  destruct Hin as (Hk & Hn & Hv). destruct (eo_defs e He _ _ Hk) as [_ HV].
  apply Validate_parts in HV. split_and!; auto.
  unfold resolveDefinition. pose proof (vd_version d HV). rewrite (proj2 (Z.ltb_lt _ _)) by lia.
  unfold Key in Hk. by rewrite Hk.
Qed.

Lemma Register_engine_ok (e e' : Engine DB) d :
  engine_ok e -> e_definitions e !! Key d = None -> Register e d = Ok e' -> engine_ok e'.
Proof.
  intros He Hnew Hr. unfold Register in Hr. res_inv.
  match goal with Hb : bool_decide (Validate d = []) = true |- _ => apply bool_decide_eq_true in Hb; rename Hb into HV end.
  constructor; simpl.
  - intros k d0 [[<- <-]|[_ Hl]]%lookup_insert_Some; [done | by apply (eo_defs e He)].
  - assert (Hold : forall n d0, e_latest e !! n = Some d0 ->
      d_Name d0 = n /\ <[Key d:=d]> (e_definitions e) !! Key d0 = Some d0).
    { intros n d0 Hl. destruct (eo_latest e He n d0 Hl) as [En Ek]. split; [done|].
      rewrite lookup_insert_ne; [done|]. intros E. rewrite <- E in Ek. congruence. }
    intros n d0. case_match; [|by apply Hold].
    intros [[<- <-]|[_ Hl]]%lookup_insert_Some; [|by apply Hold]. by rewrite lookup_insert_eq.
Qed.

End Registry.

(** ** Calls *)

Inductive call :=
| COpen (i : OpenInput)
| CMove (i : MoveInput)
| CClaim (i : ClaimInput)
| CRelease (i : ReleaseInput)
| CReassign (i : ReassignInput)
| CSetDeadline (i : SetDeadlineInput)
| CExpire (i : ExpireInput)
| CCancel (i : CancelInput)
| CCancelToken (i : CancelTokenInput)
| CRecordFailure (i : FailureInput)
| CRefresh (id : uuid).

Section System.
Context {DB : Type} `{RepositoryLaws DB}.
Implicit Types (e : Engine DB) (cx : Ctx) (db : DB).

Definition discard {A : Type} (m : writer DB A) : writer DB unit := do! _ := m in w_ret tt.

(** One call of the engine's interface that may write. *)
Definition perform (e : Engine DB) (cx : Ctx) (c : call) : writer DB unit :=
  match c with
  | COpen i => discard (OpenDetailed e cx i)
  | CMove i => discard (MoveDetailed e cx i)
  | CClaim i => discard (ClaimWith e cx i)
  | CRelease i => discard (ReleaseWith e cx i)
  | CReassign i => discard (Reassign e cx i)
  | CSetDeadline i => discard (SetDeadline e cx i)
  | CExpire i => discard (Expire e cx i)
  | CCancel i => discard (Cancel e cx i)
  | CCancelToken i => discard (CancelToken e cx i)
  | CRecordFailure i => discard (RecordFailure e cx i)
  | CRefresh id => discard (RefreshEligibility e cx id)
  end.

(** The uuids a call draws are new: [uuid.New] never repeats one. *)
Definition fresh_uuids (cx : Ctx) (db : DB) : Prop :=
  (forall m n, cx_uuid cx m = cx_uuid cx n -> m = n)
  /\ forall id, uuids_free cx (v_tokens (view db id)) (v_scopes (view db id)).

(** An effect sink writes outside the workflow tables. *)
Definition sink_apart (e : Engine DB) : Prop :=
  forall sink d c evs db db', e_effectSink e = Some sink ->
    es_Dispatch sink d c evs db = (db', inr tt) -> untouched view db db'.

Definition no_cases (db : DB) : Prop :=
  forall id, view db id = mkView None [] [] [].

Inductive reachable (e : Engine DB) : DB -> Prop :=
| reach_start db : no_cases db -> reachable e db
| reach_call db db' cx c :
    reachable e db -> fresh_uuids cx db -> perform e cx c db = (db', Ok tt) -> reachable e db'.

(** What holds of every stored case. *)
Definition stored_ok (e : Engine DB) (id : uuid) (v : CaseView) : Prop :=
  match v_case v with
  | None => v_tokens v = [] /\ v_scopes v = [] /\ v_events v = []
  | Some c =>
      c_ID c = id /\ c_JoinResult c = None
      /\ (exists d, resolveDefinition e (c_Definition c) (c_Version c) = Ok d
                    /\ case_inv d c (v_tokens v) (v_scopes v))
      /\ projects c (v_tokens v)
      /\ history (c_LastSeq c) (v_events v)
  end.

Definition all_ok (e : Engine DB) (db : DB) : Prop := forall id, stored_ok e id (view db id).

Lemma stored_ok_ext e id v v' :
  v_case v' = v_case v -> v_tokens v' = v_tokens v -> v_scopes v' = v_scopes v ->
  v_events v' = v_events v -> stored_ok e id v -> stored_ok e id v'.
Proof. unfold stored_ok. intros -> -> -> ->. done. Qed.

Lemma all_ok_untouched e db db' : untouched view db db' -> all_ok e db -> all_ok e db'.
Proof. intros Hu Ha id. by rewrite Hu. Qed.

Lemma sound_of_ok e cx db caseID :
  engine_ok e -> all_ok e db -> fresh_uuids cx db -> sound_case e cx db caseID.
Proof.
  intros He Ha [Hinj Hf]. split; [done|]. intros c T S d Hg HT HS Hd.
  apply law_get in Hg as (Hc & Eid & _). specialize (Ha caseID). unfold stored_ok in Ha. rewrite Hc in Ha.
  destruct Ha as (_ & _ & (d' & Hd' & HI) & _). rewrite Hd in Hd'. injection Hd' as <-.
  apply law_list_tokens in HT. apply law_list_scopes in HS. rewrite Eid in HT, HS.
  destruct (resolveDefinition_ok e _ _ d He Hd) as (HV & _). split_and!.
  - by apply valid_routable.
  - eapply Inv_perm; [symmetry; exact HT | symmetry; exact HS|]. exact HI.
  - intros n. rewrite HT, HS. apply Hf.
Qed.

Lemma seq_planned r : numbered r ->
  ev_Seq <$> r_events r = seqZ (r_baseSeq r + 1) (Z.of_nat (length (r_events r))).
Proof.
  intros Hn. apply list_eq. intros i. rewrite list_lookup_fmap.
  destruct (r_events r !! i) as [ev|] eqn:Ei; csimpl.
  - destruct (Hn i ev Ei) as (-> & _). symmetry. apply lookup_seqZ. apply lookup_lt_Some in Ei. lia.
  - symmetry. apply lookup_seqZ_ge. apply lookup_ge_None in Ei. lia.
Qed.

Lemma project_same r : same_identity (r_c r) (project r) /\ c_Status (project r) = c_Status (r_c r).
Proof. unfold project. case_bool_decide; [done|]. by repeat case_match. Qed.

Lemma case_inv_ext d c c' T S :
  c_ID c' = c_ID c -> c_Status c' = c_Status c -> c_LastSeq c' = c_LastSeq c ->
  case_inv d c T S -> case_inv d c' T S.
Proof. unfold case_inv. by intros -> -> ->. Qed.

(** What [stored_as r] says of the stored case: its row is the projection of the run,
    its tokens and scopes are the run's, its events were appended to those of [db],
    and nothing else changed. *)
Record stored_as (db db' : DB) (r : caseRun) (c c' : Case) : Prop := mkStoredAs {
  sa_before : v_case (view db (c_ID c)) = Some c;
  sa_case : c' = case_with_revision (case_with_lastseq (project r) (run_seq r)) (c_Revision c + 1);
  sa_after : v_case (view db' (c_ID c)) = Some c';
  sa_tokens : v_tokens (view db' (c_ID c)) ≡ₚ r_tokens r;
  sa_scopes : v_scopes (view db' (c_ID c)) ≡ₚ r_scopes r;
  sa_events : appended c' (r_events r) (v_events (view db (c_ID c))) (v_events (view db' (c_ID c)));
  sa_except : same_except view db db' (c_ID c) }.

(** Persisting a plan of a sound case stores it. *)
Lemma persist_facts e cx db caseID r db' c' evs :
  all_ok e db -> plans e db caseID r -> settled cx r -> persist e cx r db = (db', Ok (c', evs)) ->
  exists c, c_ID c = caseID /\ stored_as db db' r c c'.
Proof.
  intros Ha (c & d & T0 & S0 & Hp) HR Hpers.
  pose proof (planned_facts _ _ _ _ _ _ _ _ Hp) as (Htr & Hnum & Ed & Hid & Eb).
  destruct Hp as (Hg & HT & HS & Hd & Ho & _). apply law_get in Hg as (Hc & Eid & Hj).
  pose proof (Ha caseID) as Hok. unfold stored_ok in Hok. rewrite Hc in Hok.
  destruct Hok as (_ & _ & (d' & _ & HI0) & _).
  apply law_list_tokens in HT. apply law_list_scopes in HS.
  destruct Hid as (I1 & I2 & I3 & I4 & I5 & I6 & I7 & I8 & I9 & I10 & I11).
  rewrite Eid in *. assert (Ecid : c_ID (r_c r) = caseID) by congruence.
  pose proof (ri_inv HR) as HI.
  destruct (persist_stored e cx r db db' c' evs T0 S0 Hpers) as
    (_ & Ec' & Hcase & Htoks & Hscs & _ & Hap & Hexc); rewrite ?Ecid; auto.
  1,2: done. 1: congruence. 1: apply (inv_tokens HI). 1: apply (inv_scopes HI).
  1: rewrite HT; apply (inv_tokens HI0). 1: rewrite HS; apply (inv_scopes HI0).
  1: rewrite <- Ecid; apply (inv_case HI). 1: rewrite <- Ecid; apply (inv_case HI).
  rewrite Ecid in *. exists c. split; [done|]. constructor; rewrite ?Eid; auto. by rewrite <- I9.
Qed.

(** Persisting a plan of a sound case leaves every case sound. *)
Lemma persist_ok e cx db caseID r db' c' evs :
  all_ok e db -> plans e db caseID r -> settled cx r -> persist e cx r db = (db', Ok (c', evs)) ->
  all_ok e db'.
Proof.
  intros Ha Hpl HR Hpers. destruct (persist_facts e cx db caseID r db' c' evs Ha Hpl HR Hpers) as (c0 & E0 & HS).
  destruct Hpl as (c & d & T0 & S0 & Hp).
  pose proof (planned_facts _ _ _ _ _ _ _ _ Hp) as (_ & Hnum & Ed & Hid & Eb).
  destruct Hp as (Hg & _ & _ & Hd & Ho & _). apply law_get in Hg as (Hc & Eid & Hj).
  assert (c0 = c) as -> by (pose proof (sa_before _ _ _ _ _ HS) as Hb; rewrite E0, Hc in Hb; by injection Hb).
  pose proof (Ha caseID) as Hok. unfold stored_ok in Hok. rewrite Hc in Hok. destruct Hok as (_ & _ & _ & _ & Hh).
  destruct Hid as (I1 & I2 & I3 & I4 & I5 & I6 & I7 & I8 & I9 & I10 & I11). pose proof (ri_inv HR) as HI.
  destruct (project_same r) as [(P1 & P2 & P3 & P4 & P5 & P6 & P7 & P8 & P9 & P10 & P11) Pst].
  destruct HS as [_ Ec' Hcase Htoks Hscs Hap Hexc]. rewrite E0 in *.
  intros id. destruct (decide (id = caseID)) as [->|Hne]; [|rewrite Hexc by done; apply Ha].
  unfold stored_ok. rewrite Hcase. subst c'. simpl. split_and!.
  - congruence.
  - congruence.
  - exists d. rewrite P2, P3, I2, I3. split; [done|].
    eapply Inv_perm; [symmetry; exact Htoks | symmetry; exact Hscs|]. unfold case_inv. simpl.
    rewrite P1, Pst, <- Ed. apply HI.
  - eapply projects_perm; [symmetry; exact Htoks|]. exact (project_projects r (inv_tokens HI)).
  - unfold run_seq. rewrite Eb. eapply history_appended; [exact Hap | exact Hh|].
    by rewrite (seq_planned r Hnum), Eb.
Qed.

Lemma commit_ok e cx db caseID r db' x :
  all_ok e db -> plans e db caseID r -> settled cx r -> commit e cx r db = (db', Ok x) -> all_ok e db'.
Proof.
  intros Ha Hp HR Hc. unfold commit in Hc. apply w_bind_Ok in Hc as (db1 & [c' evs] & H1 & Hc).
  injection Hc as <- _. by eapply persist_ok.
Qed.

Lemma dispatch_untouched e d c evs db db' :
  sink_apart e -> dispatch e d c evs db = (db', Ok tt) -> untouched view db db'.
Proof.
  intros Hs. unfold dispatch. destruct (e_effectSink e) as [sink|] eqn:Es.
  - intros Hd%w_lift_Ok. by eapply Hs.
  - intros [= <-]. by intros id.
Qed.

Lemma commit_dispatch_ok e cx db caseID d r db' x :
  sink_apart e -> all_ok e db -> plans e db caseID r -> settled cx r -> commit_dispatch e cx d r db = (db', Ok x) -> all_ok e db'.
Proof.
  intros Hs Ha Hp HR Hc. unfold commit_dispatch in Hc.
  apply w_bind_Ok in Hc as (db1 & [c' evs] & H1 & Hc). apply w_bind_Ok in Hc as (db2 & [] & H2 & Hc).
  injection Hc as <- _. apply (dispatch_untouched _ _ _ _ _ _ Hs) in H2.
  eapply all_ok_untouched; [exact H2|]. by eapply persist_ok.
Qed.

(** ** Opening a case *)

(** The invariant of a case just opened. *)
Lemma opened_inv d c start root :
  validated d -> StartNode d = Some start -> c_Status c = StatusOpen -> c_LastSeq c = 1 ->
  t_ID root = c_ID c -> t_CaseID root = c_ID c -> t_ScopeID root = c_ID c ->
  t_Node root = n_ID start -> t_Status root = TokenActive ->
  case_inv d c [root] [root_scope c].
Proof.
  intros HV Hst Ho Hls E1 E2 E3 E4 E5. unfold case_inv. rewrite Ho, Hls, bool_decide_true by done.
  destruct (valid_start HV) as (n & Hn & Hr). rewrite Hst in Hn. injection Hn as <-.
  constructor.
  - apply NoDup_singleton.
  - apply NoDup_singleton.
  - split; (apply Forall_cons; split; [done | constructor]).
  - exists (root_scope c). split; [apply list_elem_of_here | done].
  - apply Forall_cons. split; [|constructor]. intros Hne. done.
  - apply Forall_cons. split; [simpl; lia | constructor].
  - apply Forall_cons. split; [|constructor]. exists (root_scope c). rewrite E5.
    split_and!; [apply list_elem_of_here | by rewrite E3 | done | done].
  - apply Forall_cons. split; [|constructor]. intros _. unfold nbranch, nchild, none_pending. csimpl.
    unfold stands_in, open_child. rewrite E3, E5. simpl. by rewrite bool_decide_true.
  - apply Forall_cons. split; [|constructor]. intros _ _. unfold nactive. csimpl.
    unfold works_in. rewrite E3, E5, !bool_decide_true by done. simpl. lia.
  - unfold none_pending. lia.
  - apply Forall_cons. split; [|constructor]. intros _ _. by rewrite E4.
Qed.

Lemma open_plan_parts e cx db inp actor d start c root :
  open_plan e cx db inp = Ok (actor, d, start, c, root) ->
  resolveDefinition e (oi_Definition inp) (oi_Version inp) = Ok d /\ StartNode d = Some start
  /\ c_ID c = cx_uuid cx 0 /\ c_Definition c = d_Name d /\ c_Version c = d_Version d
  /\ c_State c = n_ID start /\ c_Status c = StatusOpen /\ c_AssignedTo c = "" /\ c_LastSeq c = 1
  /\ c_JoinResult c = None
  /\ t_ID root = c_ID c /\ t_CaseID root = c_ID c /\ t_ScopeID root = c_ID c
  /\ t_Node root = n_ID start /\ t_Status root = TokenActive /\ t_AssignedTo root = ""
  /\ t_DeadlineAt root = c_DeadlineAt c.
Proof.
  unfold open_plan. intros Ho. res_inv. case_match eqn:Est; [|done]. res_inv. by simplify_eq.
Qed.

Lemma open_ok e cx db inp db' x :
  engine_ok e -> sink_apart e -> all_ok e db -> OpenDetailed e cx inp db = (db', Ok x) -> all_ok e db'.
Proof.
  intros He Hs Ha Ho. unfold OpenDetailed in Ho.
  apply w_bind_Ok in Ho as (db0 & [[[[actor d] start] c] root] & H0' & Ho). injection H0' as <- Hplan.
  apply open_plan_parts in Hplan as
    (Hd & Hst & E1 & E2 & E3 & E4 & E5 & E6 & E7 & E8 & T1 & T2 & T3 & T4 & T5 & T6 & T7).
  apply w_bind_Ok in Ho as (db1 & c1 & H1 & Ho). apply w_lift_Ok, law_create in H1 as (Hnone & -> & Hv & Hx1).
  specialize (Hv E8). set (c1 := case_with_revision c 0) in *. assert (Ecid : c_ID c1 = c_ID c) by done.
  apply w_bind_Ok in Ho as (db2 & [] & H2 & Ho). apply w_lift_Ok, law_create_scope in H2. simpl in H2.
  destruct H2 as (_ & A1 & A2 & A3 & A4 & A5).
  apply w_bind_Ok in Ho as (db3 & [] & H3 & Ho). apply w_lift_Ok, law_create_token in H3.
  rewrite T2 in H3. destruct H3 as (_ & B1 & B2 & B3 & B4 & B5).
  apply w_bind_Ok in Ho as (db4 & evt & H4 & Ho).
  apply append_event_recorded in H4. rewrite Ecid in H4.
  destruct H4 as (_ & _ & _ & (st & Hrec & Hlk & G1) & G2 & G3 & G4 & G5).
  apply w_bind_Ok in Ho as (db5 & [] & H5 & Ho). injection Ho as <- _.
  apply (dispatch_untouched _ _ _ _ _ _ Hs) in H5. eapply all_ok_untouched; [exact H5|].
  pose proof (Ha (c_ID c)) as Hold. unfold stored_ok in Hold. rewrite Hnone in Hold.
  destruct Hold as (O1 & O2 & O3).
  intros id. destruct (decide (id = c_ID c)) as [->|Hne];
    [|rewrite G5, B5, A5, Hx1 by done; apply Ha].
  unfold stored_ok. rewrite G2, B2, A2, Hv. simpl.
  rewrite G4, G3, B3.
  assert (ET : v_tokens (view db3 (c_ID c)) ≡ₚ [root]) by (rewrite B1, A3, Hv; simpl; by rewrite O1).
  assert (ES : v_scopes (view db2 (c_ID c)) ≡ₚ [root_scope c1]) by (rewrite A1, Hv; simpl; by rewrite O2).
  assert (E0 : v_events (view db3 (c_ID c)) = []) by (rewrite B4, A4, Hv; simpl; by rewrite O3).
  destruct (resolveDefinition_ok e _ _ d He Hd) as (HV & _ & Hd2 & _).
  split_and!; try done.
  - exists d. rewrite E2, E3. split; [done|].
    eapply Inv_perm; [symmetry; exact ET | symmetry; exact ES|]. by apply (opened_inv d c1 start root).
  - eapply projects_perm; [symmetry; exact ET|]. unfold projects. simpl. rewrite E5, bool_decide_true by done.
    assert (Hact : forall t, active_in [root] t <-> t = root).
    { intros t. unfold active_in. rewrite list_elem_of_singleton. split; [by intros [-> _] | by intros ->]. }
    setoid_rewrite Hact. split_and!.
    + intros t -> _. by rewrite E4, E6, T4, T6.
    + intros t t' -> ->. done.
    + unfold earliest_deadline. rewrite <- T7.
      destruct (t_DeadlineAt root) as [m|] eqn:Em; setoid_rewrite Hact.
      * split; [by exists root|]. intros t x0 -> Hx. rewrite Em in Hx. injection Hx as ->. lia.
      * by intros t ->.
  - simpl. rewrite E7. apply (history_snoc 0 (v_events (view db3 (c_ID c))) _ st); [|by destruct Hrec as (_ & _ & -> & _)|done..].
    rewrite E0. by apply history_nil.
Qed.

(** ** Recording a failure *)

Lemma failure_recorded_seq c c' inp actor detail tok now st :
  recorded c (failure_event (case_with_lastseq c' (c_LastSeq c' + 1)) inp actor detail tok now) st ->
  ev_Seq st = c_LastSeq c' + 1.
Proof. intros (_ & _ & -> & _). unfold failure_event. by destruct tok. Qed.

Lemma record_failure_ok e cx db inp db' x :
  all_ok e db -> RecordFailure e cx inp db = (db', Ok x) -> all_ok e db'.
Proof.
  intros Ha Hr. unfold RecordFailure in Hr.
  apply w_bind_Ok in Hr as (db0 & [[actor detail] tok] & Hp & Hr). injection Hp as <- Hp.
  apply w_bind_Ok in Hr as (db1 & c1 & H1 & Hr).
  apply w_lift_Ok, law_advance in H1 as (c & Hc & _ & -> & Hv & Hx).
  pose proof (Ha (fi_CaseID inp)) as Hok. unfold stored_ok in Hok. rewrite Hc in Hok.
  destruct Hok as (Eid & Hj & (d & Hd & HI) & Hpr & Hh).
  apply append_event_recorded in Hr. simpl in Hr. rewrite Eid in Hr.
  destruct Hr as (_ & _ & _ & (st & Hrec & Hlk & G1) & G2 & G3 & G4 & G5).
  intros id. destruct (decide (id = fi_CaseID inp)) as [->|Hne]; [|rewrite G5, Hx by done; apply Ha].
  unfold stored_ok. rewrite G2, G3, G4, Hv. simpl. split_and!; try done.
  - exists d. split; [done|]. unfold case_inv. simpl.
    eapply (Inv_weaken (pend := none_pending)); [done| |exact HI]. lia.
  - eapply history_snoc; [|exact (failure_recorded_seq _ _ _ _ _ _ _ _ Hrec)|exact Hlk|exact G1].
    rewrite Hv. exact Hh.
Qed.

(** ** Every call *)

Lemma discard_Ok {X} (m : writer DB X) db db' :
  discard m db = (db', Ok tt) -> exists x, m db = (db', Ok x).
Proof. unfold discard. intros (db1 & x & H1 & H2)%w_bind_Ok. injection H2 as <-. by exists x. Qed.

Lemma w_res_Ok {X} (m : result X) db db' x :
  w_res (DB := DB) m db = (db', Ok x) -> db' = db /\ m = Ok x.
Proof. unfold w_res. by intros [= -> ->]. Qed.

(** A successful call keeps every stored case. *)
Lemma perform_ok e cx c db db' :
  engine_ok e -> sink_apart e -> all_ok e db -> fresh_uuids cx db ->
  perform e cx c db = (db', Ok tt) -> all_ok e db'.
Proof.
  intros He Hs Ha Hf Hc. destruct c; simpl in Hc; apply discard_Ok in Hc as [x Hc].
  - by eapply open_ok.
  - unfold MoveDetailed in Hc. apply w_bind_Ok in Hc as (db1 & [d r] & [-> Hp]%w_res_Ok & Hc).
    eapply commit_dispatch_ok; eauto using move_plan_plans, move_plan_inv, sound_of_ok.
  - unfold ClaimWith in Hc. apply w_bind_Ok in Hc as (db1 & plan & [-> Hp]%w_res_Ok & Hc).
    destruct plan as [c|r]; [by injection Hc as <-|].
    eapply commit_ok; eauto using claim_plan_plans, claim_plan_inv, sound_of_ok.
  - unfold ReleaseWith in Hc. apply w_bind_Ok in Hc as (db1 & r & [-> Hp]%w_res_Ok & Hc).
    eapply commit_ok; eauto using release_plan_plans, release_plan_inv, sound_of_ok.
  - unfold Reassign in Hc. apply w_bind_Ok in Hc as (db1 & r & [-> Hp]%w_res_Ok & Hc).
    eapply commit_ok; eauto using reassign_plan_plans, reassign_plan_inv, sound_of_ok.
  - unfold SetDeadline in Hc. apply w_bind_Ok in Hc as (db1 & r & [-> Hp]%w_res_Ok & Hc).
    eapply commit_ok; eauto using set_deadline_plan_plans, set_deadline_plan_inv, sound_of_ok.
  - unfold Expire in Hc. apply w_bind_Ok in Hc as (db1 & [[d r] tr] & [-> Hp]%w_res_Ok & Hc).
    destruct tr.
    + eapply commit_dispatch_ok; eauto using expire_plan_plans, expire_plan_inv, sound_of_ok.
    + apply w_bind_Ok in Hc as (db2 & [c' evs] & H1 & Hc). injection Hc as <- _.
      eapply persist_ok; eauto using expire_plan_plans, expire_plan_inv, sound_of_ok.
  - unfold Cancel in Hc. apply w_bind_Ok in Hc as (db1 & r & [-> Hp]%w_res_Ok & Hc).
    eapply commit_ok; eauto using cancel_plan_plans, cancel_plan_inv, sound_of_ok.
  - unfold CancelToken in Hc. apply w_bind_Ok in Hc as (db1 & [d r] & [-> Hp]%w_res_Ok & Hc).
    eapply commit_dispatch_ok; eauto using cancel_token_plan_plans, cancel_token_plan_inv, sound_of_ok.
  - by eapply record_failure_ok.
  - unfold RefreshEligibility in Hc. apply w_bind_Ok in Hc as (db1 & plan & [-> Hp]%w_res_Ok & Hc).
    destruct plan as [r|]; [|by injection Hc as <- _].
    apply w_bind_Ok in Hc as (db2 & [c' evs] & H1 & Hc). injection Hc as <- _.
    eapply persist_ok; eauto using refresh_plan_plans, refresh_plan_inv, sound_of_ok.
Qed.

Lemma reachable_ok e db :
  engine_ok e -> sink_apart e -> reachable e db -> all_ok e db.
Proof.
  intros He Hs. induction 1 as [db Hn|db db' cx c _ IH Hf Hc].
  - intros id. rewrite Hn. done.
  - by eapply perform_ok.
Qed.

End System.
