(* ===== verification/Calls.v ===== *)
(** Facts on whole calls shared by the theorems: a stale plan conflicts and writes
    nothing, a call always ends, and what a committed change of one token stores. *)

From stdpp Require Import base gmap sets list strings.
From Stdlib Require Import ZArith Lia.
From S2P Require Import Prelude GoStrings Errors Model Definitions JoinPolicies Repo Ports Events.
From S2P Require Import Run Validate Engine RunFrame CaseInv RunInv EngineInv Persist Plans.
From S2P Require Import ValidateFacts System.

Open Scope string_scope.
Open Scope list_scope.
Open Scope Z_scope.

(** ** Conflicts *)

Section Conflicts.
Context {DB : Type} `{RepositoryLaws DB}.
Implicit Types (e : Engine DB) (cx : Ctx) (db : DB).

(** Persisting against a row that moved on fails with a conflict before any write. *)
Lemma persist_conflict e cx r db old :
  v_case (view db (c_ID (r_c r))) = Some old ->
  c_Revision old <> c_Revision (r_c r) \/ c_LastSeq old <> r_baseSeq r ->
  exists db' err, persist e cx r db = (db', Err err) /\ errors_Is err ErrConflict = true
                  /\ untouched view db db'.
Proof.
  intros Hv Hs. destruct (project_same r) as [(P1 & _ & _ & _ & _ & _ & _ & _ & P9 & _) _].
  set (c := case_with_lastseq (project r) (r_baseSeq r + Z.of_nat (length (r_events r)))).
  destruct (law_update_stale c (r_baseSeq r) db old) as (db' & err & Hu & He).
  - simpl. by rewrite P1.
  - simpl. by rewrite P9.
  - exists db', err. split_and!; [|done|by eapply law_update_err].
    unfold persist. fold c. unfold w_bind, w_lift. by rewrite Hu.
Qed.

(** The revision and Seq a plan carries are those of the case it was read from. *)
Lemma plan_versions e db caseID r c :
  plans e db caseID r -> v_case (view db caseID) = Some c ->
  c_ID (r_c r) = caseID /\ c_Revision (r_c r) = c_Revision c /\ r_baseSeq r = c_LastSeq c.
Proof.
  intros (c0 & d & T0 & S0 & Hp) Hc. pose proof (planned_facts _ _ _ _ _ _ _ _ Hp) as (_ & _ & _ & Hid & Eb).
  destruct Hp as (Hg & _). apply law_get in Hg as (Hc0 & Eid & _). rewrite Hc in Hc0. injection Hc0 as <-.
  destruct Hid as (I1 & _ & _ & _ & _ & _ & _ & _ & I9 & _). split_and!; congruence.
Qed.

(** Two plans read from the same case: once one is stored, the other conflicts. *)
Lemma second_plan_conflicts e cx1 cx2 db caseID r1 r2 db1 c1 evs db1' :
  all_ok e db -> plans e db caseID r1 -> plans e db caseID r2 -> settled cx1 r1 ->
  persist e cx1 r1 db = (db1, Ok (c1, evs)) -> untouched view db1 db1' ->
  exists db2 err, persist e cx2 r2 db1' = (db2, Err err) /\ errors_Is err ErrConflict = true
                  /\ untouched view db1' db2.
Proof.
  intros Ha Hp1 Hp2 HR Hpers Hun.
  destruct (persist_facts e cx1 db caseID r1 db1 c1 evs Ha Hp1 HR Hpers) as (c & Ec & [Hb Ec1 Haft _ _ _ _]).
  rewrite Ec in *. destruct (plan_versions e db caseID r2 c Hp2 Hb) as (E1 & E2 & _).
  apply (persist_conflict e cx2 r2 db1' c1); [by rewrite E1, Hun|]. left. rewrite Ec1, E2. simpl. lia.
Qed.

Lemma commit_dispatch_conflict e cx d r db db' err :
  persist e cx r db = (db', Err err) -> commit_dispatch e cx d r db = (db', Err err).
Proof. unfold commit_dispatch, w_bind. by intros ->. Qed.

Lemma commit_conflict e cx r db db' err :
  persist e cx r db = (db', Err err) -> commit e cx r db = (db', Err err).
Proof. unfold commit, w_bind. by intros ->. Qed.

End Conflicts.

(** ** Every call ends *)

Section Ends.
Context {DB : Type} `{Repository DB}.
Implicit Types (e : Engine DB) (cx : Ctx) (db : DB).

Definition w_total {A : Type} (m : writer DB A) : Prop := forall db, snd (m db) <> Fuel.

Lemma w_bind_total {A B} (m : writer DB A) (k : A -> writer DB B) :
  w_total m -> (forall a, w_total (k a)) -> w_total (w_bind m k).
Proof.
  intros Hm Hk db. specialize (Hm db). unfold w_bind. destruct (m db) as [db1 [a| | |]]; simpl in *; try done. apply Hk.
Qed.

Lemma w_ret_total {A} (a : A) : w_total (w_ret a).
Proof. done. Qed.

Lemma w_lift_total {A} (m : DB -> DB * (error + A)) : w_total (w_lift m).
Proof. intros db. unfold w_lift. destruct (m db) as [? []]; done. Qed.

Lemma planned_total {A B} (plan : DB -> result A) (k : A -> writer DB B) :
  (forall db, plan db <> Fuel) -> (forall a, w_total (k a)) ->
  w_total (fun db => (do! a := w_res (plan db) in k a) db).
Proof.
  intros Hp Hk db. specialize (Hp db). unfold w_bind, w_res. destruct (plan db) as [a| | |]; try done. apply Hk.
Qed.

Lemma write_scopes_total C M l : w_total (write_scopes C M l).
Proof.
  induction l as [|s l IH]; simpl; [apply w_ret_total|]. apply w_bind_total; [|done].
  repeat case_bool_decide; [apply w_lift_total..|apply w_ret_total].
Qed.

Lemma write_tokens_total C M l : w_total (write_tokens C M l).
Proof.
  induction l as [|s l IH]; simpl; [apply w_ret_total|]. apply w_bind_total; [|done].
  repeat case_bool_decide; [apply w_lift_total..|apply w_ret_total].
Qed.

Lemma append_events_total e cx n c l : w_total (append_events e cx n c l).
Proof.
  revert n. induction l as [|ev l IH]; intros n; simpl; [apply w_ret_total|].
  apply w_bind_total; [apply w_lift_total|]. intros a. apply w_bind_total; [apply IH|]. intros b. apply w_ret_total.
Qed.

Lemma persist_total e cx r : w_total (persist e cx r).
Proof.
  apply w_bind_total; [apply w_lift_total|]. intros c. apply w_bind_total.
  { apply w_bind_total; [apply write_scopes_total|]. intros _. apply write_tokens_total. }
  intros _. apply w_bind_total; [apply append_events_total|]. intros l. apply w_ret_total.
Qed.

Lemma dispatch_total e d c evs : w_total (dispatch e d c evs).
Proof. unfold dispatch. case_match; [apply w_lift_total | apply w_ret_total]. Qed.

Lemma commit_total e cx r : w_total (commit e cx r).
Proof. apply w_bind_total; [apply persist_total|]. intros [c l]. apply w_ret_total. Qed.

Lemma commit_dispatch_total e cx d r : w_total (commit_dispatch e cx d r).
Proof.
  apply w_bind_total; [apply persist_total|]. intros [c l].
  apply w_bind_total; [apply dispatch_total|]. intros _. apply w_ret_total.
Qed.

(** *** Plans *)

Lemma resolveActor_total a id : resolveActor a id <> Fuel.
Proof. unfold resolveActor. res_total. Qed.

Lemma openCase_total db id rev s : openCase db id rev s <> Fuel.
Proof. unfold openCase, checkRevision. res_total. Qed.

Lemma resolveDefinition_total e n v : resolveDefinition e n v <> Fuel.
Proof. unfold resolveDefinition. res_total. Qed.

Lemma loadRun_total db c d : loadRun db c d <> Fuel.
Proof. unfold loadRun. res_total. Qed.

Lemma pick_total r id : pick r id <> Fuel.
Proof. unfold pick. res_total. Qed.

Lemma checkEffectDB_total e d db : checkEffectDB e d db <> Fuel.
Proof. unfold checkEffectDB. res_total. Qed.

Lemma checkGuard_total e db tr snap : checkGuard e db tr snap <> Fuel.
Proof. unfold checkGuard, lookupGuard. res_total. Qed.

Lemma checkComment_total p c : checkComment p c <> Fuel.
Proof. unfold checkComment. res_total. Qed.

Hint Resolve resolveActor_total openCase_total resolveDefinition_total loadRun_total pick_total
  checkEffectDB_total checkGuard_total checkComment_total deadlineFor_total listEvents_total : vogel.

Lemma loadToken_total e db c id : loadToken e db c id <> Fuel.
Proof. unfold loadToken. res_total. Qed.

Lemma check_transition_total e db id run tok tr comment : check_transition e db id run tok tr comment <> Fuel.
Proof. unfold check_transition, occupiedStates. res_total. Qed.

Hint Resolve loadToken_total check_transition_total : vogel.

Lemma loadRun_steps db c d r : loadRun db c d = Ok r -> r_gatewaySteps r = 0.
Proof.
  intros (T0 & S0 & _ & _ & ->)%loadRun_parts.
  enough (Hf : forall l r, r_gatewaySteps (fold_left fill_token l r) = r_gatewaySteps r)
    by (unfold fillEligibility; by rewrite Hf).
  induction l as [|t l IH]; intros r; simpl; [done|]. rewrite IH. unfold fill_token, touch.
  repeat case_match; done.
Qed.

Lemma route_plan_total e cx db r tid tr comment :
  r_gatewaySteps r = 0 -> route_all e cx db r tid tr comment <> Fuel.
Proof. intros E. apply route_all_enough. rewrite E. lia. Qed.

Lemma move_plan_total e cx db i : move_plan e cx db i <> Fuel.
Proof.
  unfold move_plan. res_total; apply route_plan_total;
    match goal with Hl : loadRun _ _ _ = Ok _ |- _ => by apply loadRun_steps in Hl end.
Qed.

Lemma touch_steps id r : r_gatewaySteps (touch id r) = r_gatewaySteps r.
Proof. unfold touch. by case_bool_decide. Qed.

Lemma token_change_steps cx actor r tok f kind detail :
  r_gatewaySteps (token_change cx actor r tok f kind detail) = r_gatewaySteps r.
Proof. unfold token_change. simpl. by rewrite touch_steps. Qed.

Lemma expire_plan_total e cx db i : expire_plan e cx db i <> Fuel.
Proof.
  unfold expire_plan, expired_deadline, expire_transition. res_total.
  apply route_plan_total. rewrite token_change_steps.
  match goal with Hl : loadRun _ _ _ = Ok _ |- _ => by apply loadRun_steps in Hl end.
Qed.

Lemma cancel_tokens_total detail ids r : cancel_tokens detail ids r <> Fuel.
Proof.
  revert r. induction ids as [|id ids IH]; intros r; simpl; [done|]. unfold cancel_token.
  apply res_bind_not_Fuel; [res_total|]. intros r' _. apply IH.
Qed.

Lemma cancel_plan_total e cx db i : cancel_plan e cx db i <> Fuel.
Proof. unfold cancel_plan, cancel_run. res_total. apply cancel_tokens_total. Qed.

Lemma cancel_token_plan_total e cx db i : cancel_token_plan e cx db i <> Fuel.
Proof.
  unfold cancel_token_plan. res_total. unfold cancel_branch. apply tryJoin_enough.
  match goal with Hl : loadRun _ _ _ = Ok _ |- _ => apply loadRun_steps in Hl; rename Hl into Hs end.
  unfold run_end. rewrite touch_steps. simpl. rewrite Hs. lia.
Qed.

Lemma open_plan_total e cx db i : open_plan e cx db i <> Fuel.
Proof. unfold open_plan. res_total. Qed.

Lemma perform_total e cx c : w_total (perform e cx c).
Proof.
  destruct c as [i|i|i|i|i|i|i|i|i|i|id]; (apply w_bind_total; [|intros a; apply w_ret_total]).
  - apply (planned_total (fun db => open_plan e cx db i)); [intros; apply open_plan_total|].
    intros [[[[actor d] start] c] root].
    apply w_bind_total; [apply w_lift_total|]. intros c'. apply w_bind_total; [apply w_lift_total|]. intros _.
    apply w_bind_total; [apply w_lift_total|]. intros _. apply w_bind_total; [apply w_lift_total|]. intros ev.
    apply w_bind_total; [apply dispatch_total|]. intros _. apply w_ret_total.
  - apply (planned_total (fun db => move_plan e cx db i)); [intros; apply move_plan_total|].
    intros [d r]. apply commit_dispatch_total.
  - apply (planned_total (fun db => claim_plan e cx db i)); [intros db; unfold claim_plan; res_total|].
    intros [c|r]; [apply w_ret_total | apply commit_total].
  - apply (planned_total (fun db => release_plan e cx db i)); [intros db; unfold release_plan; res_total|].
    intros r. apply commit_total.
  - apply (planned_total (fun db => reassign_plan e cx db i)); [intros db; unfold reassign_plan; res_total|].
    intros r. apply commit_total.
  - apply (planned_total (fun db => set_deadline_plan e cx db i)); [intros db; unfold set_deadline_plan; res_total|].
    intros r. apply commit_total.
  - apply (planned_total (fun db => expire_plan e cx db i)); [intros; apply expire_plan_total|].
    intros [[d r] [tr|]]; [apply commit_dispatch_total|].
    apply w_bind_total; [apply persist_total|]. intros [c l]. apply w_ret_total.
  - apply (planned_total (fun db => cancel_plan e cx db i)); [intros; apply cancel_plan_total|].
    intros r. apply commit_total.
  - apply (planned_total (fun db => cancel_token_plan e cx db i)); [intros; apply cancel_token_plan_total|].
    intros [d r]. apply commit_dispatch_total.
  - apply (planned_total (fun db => failure_plan db i)); [intros db; unfold failure_plan; res_total|].
    intros [[actor detail] tok]. apply w_bind_total; [apply w_lift_total|]. intros c. apply w_lift_total.
  - apply (planned_total (fun db => refresh_plan e cx db id)); [intros db; unfold refresh_plan; res_total|].
    intros [r|]; [|apply w_ret_total]. apply w_bind_total; [apply persist_total|]. intros _. apply w_ret_total.
Qed.

End Ends.

(** ** Changing one token *)

(** A token as loaded: a missing eligibility may have been filled in. *)
Definition refilled (t t' : Token) : Prop := t' = token_with_eligible (t_Eligible t') t.

(** The stored tokens [V] as a call loads them. *)
Definition reread (V T : list Token) : Prop := exists T0, T0 ≡ₚ V /\ Forall2 refilled T0 T.

Lemma refilled_refl t : refilled t t.
Proof. by destruct t. Qed.

Lemma fill_token_refilled r t T0 : Forall2 refilled T0 (r_tokens r) -> Forall2 refilled T0 (r_tokens (fill_token r t)).
Proof.
  intros HF. unfold fill_token. repeat case_match; try done.
  match goal with |- context [touch ?id ?x] =>
    assert (r_tokens (touch id x) = r_tokens x) as -> by (by destruct (touch_cases id x) as [-> | ->]) end.
  simpl. unfold upd_by. apply Forall2_fmap_r. eapply Forall2_impl; [exact HF|].
  intros a b Hab. simpl. unfold refilled in *. case_decide; [|done]. by rewrite Hab.
Qed.

Lemma loadRun_reread {DB} `{Repository DB} (db : DB) c d r :
  loadRun db c d = Ok r ->
  exists T0 S0, repo_ListTokens db (c_ID c) = inr T0 /\ repo_ListScopes db (c_ID c) = inr S0
    /\ Forall2 refilled T0 (r_tokens r) /\ r_scopes r = S0 /\ r_events r = [] /\ r_c r = c
    /\ r_baseSeq r = c_LastSeq c.
Proof.
  intros (T0 & S0 & HT & HS & ->)%loadRun_parts. exists T0, S0.
  destruct (fillEligibility_keeps (new_run c d T0 S0)) as (-> & -> & _ & _ & -> & _).
  split_and!; try done.
  - unfold fillEligibility. simpl. enough (Hf : forall l r, Forall2 refilled T0 (r_tokens r) ->
      Forall2 refilled T0 (r_tokens (fold_left fill_token l r))).
    { apply Hf. simpl. apply Forall2_same_length_lookup_2; [done|]. intros i x y Hx Hy.
      rewrite Hx in Hy. injection Hy as <-. apply refilled_refl. }
    induction l as [|t l IH]; intros r Hr; simpl; [done|]. apply IH. by apply fill_token_refilled.
  - pose proof (fillEligibility_rel frame (new_run c d T0 S0)) as Hfr. exact (fr_baseSeq _ _ Hfr).
Qed.

Lemma appended_one c ev V V' :
  appended c [ev] V V' -> exists st, recorded c ev st /\ V' ≡ₚ st :: V.
Proof.
  intros Ha. inversion Ha as [|? st ? ? V1 ? Hrec _ E1 Hnil]; subst. exists st. split; [done|].
  inversion Hnil as [? ? E2|]; subst. by rewrite E2.
Qed.

Section OneToken.
Context {DB : Type} `{RepositoryLaws DB}.
Implicit Types (e : Engine DB) (cx : Ctx) (db : DB).

(** Case [id] changed in one token only, and one event records it. *)
Record changed_one (db db' : DB) (id : uuid) (tok : Token) (f : Token -> Token) (kind : EventKind)
    (detail : json) (who : string) (now : time) : Prop := mkChangedOne {
  co_tokens : exists T, reread (v_tokens (view db id)) T /\ tok ∈ T /\ t_Status tok = TokenActive
    /\ v_tokens (view db' id) ≡ₚ upd_by t_ID (t_ID tok) f T;
  co_scopes : v_scopes (view db' id) ≡ₚ v_scopes (view db id);
  co_event : exists c c' st, v_case (view db id) = Some c /\ v_case (view db' id) = Some c'
    /\ c_Status c' = StatusOpen /\ c_Revision c' = c_Revision c + 1 /\ c_LastSeq c' = c_LastSeq c + 1
    /\ v_events (view db' id) ≡ₚ st :: v_events (view db id)
    /\ ev_Seq st = c_LastSeq c + 1 /\ ev_Kind st = kind /\ ev_FromState st = t_Node tok
    /\ ev_ToState st = t_Node tok /\ ev_Detail st = Some detail /\ a_ID (ev_Actor st) = who
    /\ ev_OccurredAt st = now;
  co_except : same_except view db db' id }.

Lemma token_change_run cx actor r tok f kind detail :
  let r' := token_change cx actor r tok f kind detail in
  r_tokens r' = upd_by t_ID (t_ID tok) f (r_tokens r) /\ r_scopes r' = r_scopes r
  /\ r_c r' = r_c r /\ r_baseSeq r' = r_baseSeq r
  /\ r_events r' = r_events r ++
       [stamp_event (next_seq r) (cx_now cx) actor (at_token kind tok "" (Some detail))].
Proof.
  unfold token_change. simpl.
  match goal with |- context [touch ?id ?x] => destruct (touch_cases id x) as [-> | ->] end; done.
Qed.

Lemma token_change_stored e cx db caseID rev s c id r tok actor f kind detail db' c' :
  all_ok e db -> sound_case e cx db caseID -> openCase db caseID rev s = Ok c ->
  loadToken e db c id = Ok (r, tok) -> tok_stable f ->
  (forall t, t_Status (f t) = t_Status t /\ t_Node (f t) = t_Node t) ->
  commit e cx (token_change cx actor r tok f kind detail) db = (db', Ok c') ->
  changed_one db db' caseID tok f kind detail (a_ID actor) (cx_now cx).
Proof.
  intros Ha Hs Ho Hl Hf Hq Hc.
  destruct (loadToken_settled e cx db caseID rev s c id r tok Hs Ho Hl) as (HR & Htok & Hact & _).
  apply openCase_Ok in Ho as (Hget & Hopen & _). apply loadToken_parts in Hl as (d & Hd & Hload & Hpick).
  unfold commit in Hc. apply w_bind_Ok in Hc as (db1 & [c1 evs] & Hp & Hc). injection Hc as <- <-.
  set (r' := token_change cx actor r tok f kind detail) in *.
  destruct (token_change_run cx actor r tok f kind detail) as (E1 & E2 & E3 & E4 & E5). fold r' in E1, E2, E3, E4, E5.
  destruct (loadRun_reread db c d r Hload) as (T0 & S0 & HT & HS & HF & Es & Eev & Ec & Eb).
  assert (Hpl : plans e db caseID r').
  { eapply plans_intro; [done..|]. intros. by apply token_change_rel. }
  assert (HR' : settled cx r') by (by apply token_change_inv).
  destruct (persist_facts e cx db caseID r' db1 c1 evs Ha Hpl HR' Hp) as (c0 & Eid & [Hb Ec1 Haft Htk Hsc Hev Hex]).
  apply law_get in Hget as (Hcase & Ecid & _). rewrite Eid in *. rewrite Hcase in Hb. injection Hb as <-.
  apply law_list_tokens in HT. apply law_list_scopes in HS. rewrite Ecid in HT, HS.
  destruct (project_same r') as [(_ & _ & _ & _ & _ & _ & _ & _ & P9 & _) Pst].
  clearbody r'. constructor; [| | |done].
  - exists (r_tokens r). split_and!; [by exists T0| |done|by rewrite Htk, E1]. by apply find_by_Some in Htok as [? _].
  - by rewrite Hsc, E2, Es, HS.
  - rewrite E5, Eev in Hev. simpl in Hev. apply appended_one in Hev as (st & Hrec & E2').
    destruct Hrec as (_ & _ & R1 & R2 & R3 & R4 & _ & _ & _ & R5 & _ & R6 & _ & R7).
    exists c, (case_with_revision (case_with_lastseq (project r') (run_seq r')) (c_Revision c + 1)), st. simpl in *.
    unfold run_seq. rewrite E5, Eev, E4, Eb, Pst, E3. simpl.
    rewrite Ec1 in Haft. unfold run_seq in Haft. rewrite E5, Eev, E4, Eb in Haft. simpl in Haft.
    split_and!; try done; [by rewrite Ec|].
    rewrite R1. unfold next_seq. rewrite Eev, Eb. simpl. lia.
Qed.

End OneToken.
