(* ===== verification/Postgres.v ===== *)
(** The PostgreSQL repository ([postgres/repository.go]) over the tables of the
    migrations, and the proof that it keeps the contract of the port.

    A table is a finite map from its primary key to the other columns.  The columns'
    constraints (primary keys, unique indexes, foreign keys, checks) and the trigger
    that chains events (migration 007) are part of the insert or update they guard.
    A statement runs alone: the isolation of concurrent transactions is the
    database's.  Instants keep the resolution of the model (TIMESTAMPTZ rounds to
    microseconds) and JSONB keeps the value it is given.  The digest function of
    migration 010 is a parameter. *)

From stdpp Require Import base gmap fin_maps sets list strings.
From Stdlib Require Import ZArith Lia.
From S2P Require Import Prelude GoStrings Errors Model Repo.

Open Scope string_scope.
Open Scope list_scope.
Open Scope Z_scope.

(** ** Tables *)

(** [workflow_case], less its key [id]. *)
Record case_row := mkCaseRow {
  cr_definition : string; cr_version : Z; cr_domain : string; cr_external_id : string;
  cr_unit : string; cr_state : string; cr_status : Status; cr_assigned_to : string;
  cr_opened_at : time; cr_closed_at : option time; cr_deadline_at : option time;
  cr_revision : Z; cr_last_seq : Z; cr_tenant : string }.

(** [workflow_scope]. *)
Record scope_row := mkScopeRow {
  sr_case_id : uuid; sr_parent_id : option uuid; sr_split_node : string; sr_join_node : string;
  sr_expected : Z; sr_status : ScopeStatus; sr_opened_seq : Z; sr_closed_seq : option Z }.

(** [workflow_token]. *)
Record token_row := mkTokenRow {
  tr_case_id : uuid; tr_scope_id : uuid; tr_node : string; tr_position : string;
  tr_unit : string; tr_status : TokenStatus; tr_assigned_to : string;
  tr_deadline_at : option time; tr_entered_seq : Z; tr_entered_at : time;
  tr_ended_seq : option Z; tr_ended_at : option time; tr_expired_deadline_at : option time;
  tr_outcome : option Outcome }.

(** [workflow_event]. *)
Record event_row := mkEventRow {
  er_case_id : uuid; er_seq : Z; er_kind : EventKind; er_from_state : string;
  er_to_state : string; er_action : string; er_actor_id : string; er_occurred_at : time;
  er_comment : string; er_schema_version : Z; er_detail : json; er_tenant : string;
  er_actor_kind : ActorKind; er_acting_as : string; er_on_behalf_of : string;
  er_via_client : string; er_request_id : string; er_trace_id : string; er_span_id : string;
  er_token_id : option uuid; er_scope_id : option uuid; er_deadline_at : option time;
  er_prev_digest : bytes; er_digest : bytes }.

(** The tables, and the time [now()] answers in the transaction. *)
Record Tables := mkTables {
  workflow_case : gmap uuid case_row;
  workflow_scope : gmap uuid scope_row;
  workflow_token : gmap uuid token_row;
  workflow_event : gmap uuid event_row;
  tx_now : time }.

Definition empty_tables (now : time) : Tables := mkTables ∅ ∅ ∅ ∅ now.

(** ** Nullable columns *)

(** [nullUUID]. *)
Definition nullUUID (id : uuid) : option uuid :=
  if bool_decide (id = uuid_Nil) then None else Some id.

(** [nullSeq]. *)
Definition nullSeq (seq : Z) : option Z := if seq =? 0 then None else Some seq.

(** [nullString]. *)
Definition nullString (s : string) : option string :=
  if bool_decide (s = "") then None else Some s.

(** [nullString(string(t.Outcome))]. *)
Definition nullOutcome (o : Outcome) : option Outcome :=
  if bool_decide (o = OutcomeNone) then None else Some o.

(** [nullableSeq.Scan]. *)
Definition nullableSeq (o : option Z) : Z := default 0 o.

(** [nullableOutcome.Scan]. *)
Definition nullableOutcome (o : option Outcome) : Outcome := default OutcomeNone o.

(** ** Rows written *)

(** The columns [Create] writes, and [Update] at [revision]. *)
Definition case_columns (c : Case) (revision : Z) : case_row :=
  mkCaseRow (c_Definition c) (c_Version c) (c_Domain c) (c_ExternalID c) (c_Unit c) (c_State c)
    (c_Status c) (c_AssignedTo c) (c_OpenedAt c) (c_ClosedAt c) (c_DeadlineAt c) revision
    (c_LastSeq c) (c_Tenant c).

Definition scope_columns (s : Scope) : scope_row :=
  mkScopeRow (s_CaseID s) (s_ParentID s) (s_SplitNode s) (s_JoinNode s) (s_Expected s)
    (s_Status s) (s_OpenedSeq s) (nullSeq (s_ClosedSeq s)).

Definition token_columns (t : Token) : token_row :=
  mkTokenRow (t_CaseID t) (t_ScopeID t) (t_Node t) (el_Position (t_Eligible t))
    (el_Unit (t_Eligible t)) (t_Status t) (t_AssignedTo t) (t_DeadlineAt t) (t_EnteredSeq t)
    (t_EnteredAt t) (nullSeq (t_EndedSeq t)) (t_EndedAt t) (t_ExpiredDeadline t)
    (nullOutcome (t_Outcome t)).

(** The columns [AppendEvent] writes; the two digests are the trigger's. *)
Definition event_columns (e : Event) (prev digest : bytes) : event_row :=
  let a := ev_Actor e in
  mkEventRow (ev_CaseID e) (ev_Seq e) (ev_Kind e) (ev_FromState e) (ev_ToState e) (ev_Action e)
    (if bool_decide (a_ID a = "") then ev_ActorID e else a_ID a)
    (ev_OccurredAt e) (ev_Comment e) (Z.max (ev_SchemaVersion e) 1)
    (match ev_Detail e with None => emptyDetail | Some d => d end) (ev_Tenant e)
    (if bool_decide (a_Kind a = ActorKindNone) then ActorUnspecified else a_Kind a)
    (a_ActingAs a) (a_OnBehalfOf a) (a_Via a) (ev_RequestID e) (ev_TraceID e) (ev_SpanID e)
    (nullUUID (ev_TokenID e)) (nullUUID (ev_ScopeID e)) (ev_DeadlineAt e) prev digest.

(** ** Rows read *)

(** [caseDest] and [scanCase]. *)
Definition scanCase (id : uuid) (r : case_row) : Case :=
  mkCase id (cr_definition r) (cr_version r) (cr_tenant r) (cr_domain r) (cr_external_id r)
    (cr_unit r) (cr_state r) (cr_status r) (cr_assigned_to r) (cr_opened_at r) (cr_closed_at r)
    (cr_deadline_at r) (cr_revision r) (cr_last_seq r) None.

Definition scanScope (id : uuid) (r : scope_row) : Scope :=
  mkScope id (sr_case_id r) (sr_parent_id r) (sr_split_node r) (sr_join_node r) (sr_expected r)
    (sr_status r) (sr_opened_seq r) (nullableSeq (sr_closed_seq r)).

(** [tokenDest]. *)
Definition scanToken (id : uuid) (r : token_row) : Token :=
  mkToken id (tr_case_id r) (tr_scope_id r) (tr_node r) (tr_status r)
    (mkEligibility (tr_position r) (tr_unit r)) (tr_assigned_to r)
    (tr_deadline_at r) (tr_expired_deadline_at r) (tr_entered_seq r) (tr_entered_at r)
    (nullableSeq (tr_ended_seq r)) (tr_ended_at r) (nullableOutcome (tr_outcome r)).

(** [scanEvent] over [eventReadColumns]: a NULL token or scope reads as the case. *)
Definition scanEvent (id : uuid) (r : event_row) : Event :=
  mkEvent id (er_case_id r) (er_seq r) (er_kind r) (default (er_case_id r) (er_token_id r))
    (default (er_case_id r) (er_scope_id r)) (er_from_state r) (er_to_state r) (er_action r)
    (er_deadline_at r)
    (mkActor (er_actor_kind r) (er_actor_id r) (er_acting_as r) (er_on_behalf_of r)
       (er_via_client r))
    (er_actor_id r) (er_tenant r) (er_comment r) (er_occurred_at r) (er_schema_version r)
    (Some (er_detail r)) (er_request_id r) (er_trace_id r) (er_span_id r) (er_prev_digest r)
    (er_digest r).

(** ** Queries over a table *)

(** [SELECT ... WHERE case_id = id], in no order. *)
Definition rows_of {R A : Type} (case_of : R -> uuid) (scan : uuid -> R -> A)
    (table : gmap uuid R) (id : uuid) : list A :=
  (fun kr => scan kr.1 kr.2) <$> map_to_list (filter (fun kr => case_of kr.2 = id) table).

(** Some row of the table satisfies [p]. *)
Definition any_row {R : Type} (p : uuid -> R -> bool) (table : gmap uuid R) : bool :=
  existsb (fun kr => p kr.1 kr.2) (map_to_list table).

(** [ORDER BY a, b] from two orders. *)
Definition order_then {A : Type} (lt1 lt2 : A -> A -> bool) (x y : A) : bool :=
  lt1 x y || (negb (lt1 y x) && lt2 x y).

Definition by_Z {A : Type} (f : A -> Z) (x y : A) : bool := f x <? f y.
Definition by_uuid {A : Type} (f : A -> uuid) (x y : A) : bool := (f x <? f y)%N.

(** [LIMIT limit OFFSET offset]. *)
Definition limit_offset {A : Type} (limit offset : Z) (l : list A) : list A :=
  take (Z.to_nat limit) (drop (Z.to_nat offset) l).

(** [$n IS NULL OR column = $n]. *)
Definition matches_opt (o : option string) (s : string) : bool :=
  match o with None => true | Some x => bool_decide (s = x) end.

Definition with_cases (m : gmap uuid case_row) (db : Tables) : Tables :=
  mkTables m (workflow_scope db) (workflow_token db) (workflow_event db) (tx_now db).
Definition with_scopes (m : gmap uuid scope_row) (db : Tables) : Tables :=
  mkTables (workflow_case db) m (workflow_token db) (workflow_event db) (tx_now db).
Definition with_tokens (m : gmap uuid token_row) (db : Tables) : Tables :=
  mkTables (workflow_case db) (workflow_scope db) m (workflow_event db) (tx_now db).
Definition with_events (m : gmap uuid event_row) (db : Tables) : Tables :=
  mkTables (workflow_case db) (workflow_scope db) (workflow_token db) m (tx_now db).

(** ** Cases *)

(** [uq_workflow_case_tenant_domain_external_id]: the triple of [c] is taken by
    another case. *)
Definition external_taken (c : Case) (db : Tables) : bool :=
  any_row (fun id r => negb (bool_decide (id = c_ID c)) && bool_decide (cr_tenant r = c_Tenant c)
                       && bool_decide (cr_domain r = c_Domain c)
                       && bool_decide (cr_external_id r = c_ExternalID c)) (workflow_case db).

(** [Repository.Create]. *)
Definition Create (c : Case) (db : Tables) : Tables * (error + Case) :=
  if bool_decide (is_Some (workflow_case db !! c_ID c)) || external_taken c db
  then (db, inl (sent ErrCaseExists))
  else (with_cases (<[c_ID c := case_columns c 0]> (workflow_case db)) db,
        inr (case_with_revision c 0)).

(** [Repository.GetByID]. *)
Definition GetByID (db : Tables) (id : uuid) : error + Case :=
  match workflow_case db !! id with
  | Some r => inr (scanCase id r)
  | None => inl (sent ErrCaseNotFound)
  end.

(** [Repository.GetByExternalID]: the unique index leaves at most one row. *)
Definition GetByExternalID (db : Tables) (tenant domain externalID : string) : error + Case :=
  match List.filter (fun kr => bool_decide (cr_tenant kr.2 = tenant)
                               && bool_decide (cr_domain kr.2 = domain)
                               && bool_decide (cr_external_id kr.2 = externalID))
          (map_to_list (workflow_case db)) with
  | (id, r) :: _ => inr (scanCase id r)
  | [] => inl (sent ErrCaseNotFound)
  end.

(** [Repository.Update]: the compare-and-swap on revision and last_seq. *)
Definition Update (c : Case) (expectedLastSeq : Z) (db : Tables) : Tables * (error + Case) :=
  match workflow_case db !! c_ID c with
  | None => (db, inl (sent ErrCaseNotFound))
  | Some r =>
      if (cr_revision r =? c_Revision c) && (cr_last_seq r =? expectedLastSeq)
      then if external_taken c db then (db, inl (EOther "23505: unique_violation"))
           else (with_cases (<[c_ID c := case_columns c (c_Revision c + 1)]> (workflow_case db)) db,
                 inr (case_with_revision c (c_Revision c + 1)))
      else (db, inl (sent ErrConflict))
  end.

(** The row with its last_seq advanced. *)
Definition case_row_advance (r : case_row) : case_row :=
  mkCaseRow (cr_definition r) (cr_version r) (cr_domain r) (cr_external_id r) (cr_unit r)
    (cr_state r) (cr_status r) (cr_assigned_to r) (cr_opened_at r) (cr_closed_at r)
    (cr_deadline_at r) (cr_revision r) (cr_last_seq r + 1) (cr_tenant r).

(** [Repository.AdvanceLastSeq]. *)
Definition AdvanceLastSeq (id : uuid) (db : Tables) : Tables * (error + Case) :=
  match workflow_case db !! id with
  | None => (db, inl (sent ErrCaseNotFound))
  | Some r => (with_cases (<[id := case_row_advance r]> (workflow_case db)) db,
               inr (scanCase id (case_row_advance r)))
  end.

(** ** Scopes and tokens *)

(** [Repository.CreateScope], with the checks, the key and the foreign keys of
    migration 008. *)
Definition CreateScope (s : Scope) (db : Tables) : Tables * (error + unit) :=
  if negb ((1 <=? s_Expected s)
           && Bool.eqb (IsRoot s) (bool_decide (s_ID s = s_CaseID s)))
  then (db, inl (EOther "23514: check_violation"))
  else if bool_decide (is_Some (workflow_scope db !! s_ID s))
  then (db, inl (EOther "23505: unique_violation"))
  else if negb (bool_decide (is_Some (workflow_case db !! s_CaseID s))
                && match s_ParentID s with
                   | None => true
                   | Some p => bool_decide (p = s_ID s)
                               || bool_decide (is_Some (workflow_scope db !! p))
                   end)
  then (db, inl (EOther "23503: foreign_key_violation"))
  else (with_scopes (<[s_ID s := scope_columns s]> (workflow_scope db)) db, inr tt).

(** The columns [UpdateScope] sets. *)
Definition scope_row_update (s : Scope) (r : scope_row) : scope_row :=
  mkScopeRow (sr_case_id r) (sr_parent_id r) (sr_split_node r) (sr_join_node r) (sr_expected r)
    (s_Status s) (sr_opened_seq r) (nullSeq (s_ClosedSeq s)).

(** [Repository.UpdateScope]. *)
Definition UpdateScope (s : Scope) (db : Tables) : Tables * (error + unit) :=
  match workflow_scope db !! s_ID s with
  | None => (db, inl (sent ErrConflict))
  | Some r => (with_scopes (<[s_ID s := scope_row_update s r]> (workflow_scope db)) db, inr tt)
  end.

(** [Repository.ListScopes]. *)
Definition ListScopes (db : Tables) (caseID : uuid) : error + list Scope :=
  inr (sort_by (order_then (by_Z s_OpenedSeq) (by_uuid s_ID))
         (rows_of sr_case_id scanScope (workflow_scope db) caseID)).

(** The check of [workflow_token]: a token has an ended_seq once it is not live. *)
Definition token_check (t : Token) : bool :=
  Bool.eqb (Live (t_Status t)) (bool_decide (nullSeq (t_EndedSeq t) = None)).

(** [Repository.CreateToken]. *)
Definition CreateToken (t : Token) (db : Tables) : Tables * (error + unit) :=
  if negb (token_check t) then (db, inl (EOther "23514: check_violation"))
  else if bool_decide (is_Some (workflow_token db !! t_ID t))
  then (db, inl (EOther "23505: unique_violation"))
  else if negb (bool_decide (is_Some (workflow_case db !! t_CaseID t))
                && bool_decide (is_Some (workflow_scope db !! t_ScopeID t)))
  then (db, inl (EOther "23503: foreign_key_violation"))
  else (with_tokens (<[t_ID t := token_columns t]> (workflow_token db)) db, inr tt).

(** The columns [UpdateToken] sets. *)
Definition token_row_update (t : Token) (r : token_row) : token_row :=
  mkTokenRow (tr_case_id r) (tr_scope_id r) (t_Node t) (el_Position (t_Eligible t))
    (el_Unit (t_Eligible t)) (t_Status t) (t_AssignedTo t) (t_DeadlineAt t) (t_EnteredSeq t)
    (t_EnteredAt t) (nullSeq (t_EndedSeq t)) (t_EndedAt t) (t_ExpiredDeadline t)
    (nullOutcome (t_Outcome t)).

(** [Repository.UpdateToken]. *)
Definition UpdateToken (t : Token) (db : Tables) : Tables * (error + unit) :=
  match workflow_token db !! t_ID t with
  | None => (db, inl (sent ErrConflict))
  | Some r =>
      if token_check t
      then (with_tokens (<[t_ID t := token_row_update t r]> (workflow_token db)) db, inr tt)
      else (db, inl (EOther "23514: check_violation"))
  end.

(** [Repository.ListTokens]. *)
Definition ListTokens (db : Tables) (caseID : uuid) : error + list Token :=
  inr (sort_by (order_then (by_Z t_EnteredSeq) (by_uuid t_ID))
         (rows_of tr_case_id scanToken (workflow_token db) caseID)).

(** ** Work items *)

(** [workflow_token t JOIN workflow_case c ON c.id = t.case_id]. *)
Definition joined_items (db : Tables) : list WorkItem :=
  omap (fun kr => (fun c => mkWorkItem (scanCase (tr_case_id kr.2) c) (scanToken kr.1 kr.2))
                    <$> workflow_case db !! tr_case_id kr.2)
    (map_to_list (workflow_token db)).

(** The WHERE clause of [ListWorkItems]; a nil [States] or [Eligibility] is NULL. *)
Definition inbox_match (f : InboxFilter) (now : time) (w : WorkItem) : bool :=
  let c := wi_Case w in
  let t := wi_Token w in
  bool_decide (t_Status t = TokenActive) && bool_decide (c_Status c = StatusOpen)
  && matches_opt (nullString (if_Domain f)) (c_Domain c)
  && (bool_decide (if_States f = []) || bool_decide (t_Node t ∈ if_States f))
  && matches_opt (nullString (if_AssignedTo f)) (t_AssignedTo t)
  && (negb (if_Unassigned f) || bool_decide (t_AssignedTo t = ""))
  && (negb (if_Overdue f) || match t_DeadlineAt t with Some d => d <? now | None => false end)
  && matches_opt (nullString (if_Tenant f)) (c_Tenant c)
  && (bool_decide (if_Eligibility f = []) || bool_decide (t_Eligible t ∈ if_Eligibility f)).

(** [ORDER BY c.opened_at ASC, c.id, t.entered_seq ASC, t.id]. *)
Definition inbox_order : WorkItem -> WorkItem -> bool :=
  order_then (by_Z (fun w => c_OpenedAt (wi_Case w)))
    (order_then (by_uuid (fun w => c_ID (wi_Case w)))
       (order_then (by_Z (fun w => t_EnteredSeq (wi_Token w)))
          (by_uuid (fun w => t_ID (wi_Token w))))).

(** [Repository.ListWorkItems]. *)
Definition ListWorkItems (db : Tables) (f : InboxFilter) : error + list WorkItem :=
  match InboxFilter_Page f with
  | Ok (limit, offset) =>
      inr (limit_offset limit offset
             (sort_by inbox_order (List.filter (inbox_match f (tx_now db)) (joined_items db))))
  | Err e => inl e
  | _ => inl (EOther "unreachable")
  end.

(** The WHERE clause of [ListOverdue]. *)
Definition overdue_match (f : OverdueFilter) (w : WorkItem) : bool :=
  let c := wi_Case w in
  let t := wi_Token w in
  match t_DeadlineAt t with
  | None => false
  | Some d =>
      bool_decide (t_Status t = TokenActive) && (d <? of_Before f)
      && negb (bool_decide (t_ExpiredDeadline t = Some d))
      && bool_decide (c_Status c = StatusOpen)
      && matches_opt (nullString (of_Tenant f)) (c_Tenant c)
      && match of_After f with
         | None => true
         | Some a => (oc_DeadlineAt a <? d)
                     || ((oc_DeadlineAt a =? d) && (oc_TokenID a <? t_ID t)%N)
         end
  end.

(** [ORDER BY t.deadline_at ASC, t.id]. *)
Definition overdue_order : WorkItem -> WorkItem -> bool :=
  order_then (by_Z (fun w => default 0 (t_DeadlineAt (wi_Token w))))
    (by_uuid (fun w => t_ID (wi_Token w))).

(** [Repository.ListOverdue]. *)
Definition ListOverdue (db : Tables) (f : OverdueFilter) : error + list WorkItem :=
  inr (limit_offset (OverdueFilter_Page f) 0
         (sort_by overdue_order (List.filter (overdue_match f) (joined_items db)))).

(** ** Events *)

(** [Repository.ListEvents]. *)
Definition ListEvents (db : Tables) (caseID : uuid) : error + list Event :=
  inr (sort_by (by_Z ev_Seq) (rows_of er_case_id scanEvent (workflow_event db) caseID)).

(** The newest event of the actor in the case, over the tenant's events. *)
Definition last_at (f : ParticipationFilter) (db : Tables) (id : uuid) : option time :=
  let times := (fun kr => er_occurred_at kr.2) <$>
    List.filter (fun kr => bool_decide (er_actor_id kr.2 = pf_ActorID f)
                           && negb (bool_decide (er_actor_id kr.2 = ""))
                           && matches_opt (nullString (pf_Tenant f)) (er_tenant kr.2)
                           && bool_decide (er_case_id kr.2 = id))
      (map_to_list (workflow_event db)) in
  match times with
  | [] => None
  | t :: rest => Some (fold_left Z.max rest t)
  end.

(** [Repository.ListParticipated]. *)
Definition ListParticipated (db : Tables) (f : ParticipationFilter) : error + list Case :=
  match ParticipationFilter_Page f with
  | Ok (limit, offset) =>
      let rows := omap (fun kr => (fun at_ => (at_, scanCase kr.1 kr.2)) <$> last_at f db kr.1)
                    (map_to_list (workflow_case db)) in
      inr (limit_offset limit offset
             (snd <$> sort_by (order_then (fun x y => fst y <? fst x)
                                 (by_uuid (fun x => c_ID (snd x)))) rows))
  | Err e => inl e
  | _ => inl (EOther "unreachable")
  end.

(** The row without its digests. *)
Definition undigested (r : event_row) : event_row :=
  mkEventRow (er_case_id r) (er_seq r) (er_kind r) (er_from_state r) (er_to_state r) (er_action r)
    (er_actor_id r) (er_occurred_at r) (er_comment r) (er_schema_version r) (er_detail r)
    (er_tenant r) (er_actor_kind r) (er_acting_as r) (er_on_behalf_of r) (er_via_client r)
    (er_request_id r) (er_trace_id r) (er_span_id r) (er_token_id r) (er_scope_id r)
    (er_deadline_at r) None None.

Section Chain.
(** [vogel_workflow_event_digest] of migration 010: SHA-256 over the previous
    digest and every column of the row but the two digests, which are passed as
    NULL. *)
Context (event_digest : bytes -> uuid -> event_row -> list N).

(** The digest of the case's event at [seq]. *)
Definition digest_at (db : Tables) (caseID : uuid) (seq : Z) : bytes :=
  match List.filter (fun kr => bool_decide (er_case_id kr.2 = caseID) && (er_seq kr.2 =? seq))
          (map_to_list (workflow_event db)) with
  | (_, r) :: _ => er_digest r
  | [] => None
  end.

(** [vogel_workflow_event_chain], the BEFORE INSERT trigger. *)
Definition chain_row (db : Tables) (e : Event) : event_row :=
  let prev := digest_at db (ev_CaseID e) (ev_Seq e - 1) in
  event_columns e prev (Some (event_digest prev (ev_ID e) (event_columns e None None))).

(** [workflow_event_case_id_seq_key], or a second "joined" event of the scope. *)
Definition event_conflict (e : Event) (db : Tables) : bool :=
  any_row (fun _ r => bool_decide (er_case_id r = ev_CaseID e) && (er_seq r =? ev_Seq e))
    (workflow_event db)
  || (bool_decide (ev_Kind e = EventJoined)
      && any_row (fun _ r => bool_decide (er_kind r = EventJoined)
                             && bool_decide (nullUUID (ev_ScopeID e) <> None)
                             && bool_decide (er_scope_id r = nullUUID (ev_ScopeID e)))
           (workflow_event db)).

(** [Repository.AppendEvent]. *)
Definition AppendEvent (e : Event) (db : Tables) : Tables * (error + Event) :=
  if ev_Seq e <? 1 then (db, inl (EOther "seq must be at least 1"))
  else if bool_decide (is_Some (workflow_event db !! ev_ID e))
  then (db, inl (EOther "23505: unique_violation"))
  else if event_conflict e db
  then (db, inl (EWrap (sent ErrConflict) (EOther "23505: unique_violation")))
  else if bool_decide (workflow_case db !! ev_CaseID e = None)
  then (db, inl (EOther "23503: foreign_key_violation"))
  else
    let row := chain_row db e in
    (with_events (<[ev_ID e := row]> (workflow_event db)) db,
     inr (event_chained e (er_prev_digest row) (er_digest row))).

(** [Repository.ListEventDigests]. *)
Definition scanDigest (id : uuid) (r : event_row) : EventDigest :=
  mkEventDigest (er_seq r) (er_prev_digest r) (er_digest r)
    (match er_digest r with
     | None => None
     | Some _ => Some (event_digest (er_prev_digest r) id (undigested r))
     end).

Definition ListEventDigests (db : Tables) (caseID : uuid) : error + list EventDigest :=
  inr (sort_by (by_Z ed_Seq) (rows_of er_case_id scanDigest (workflow_event db) caseID)).

#[export] Instance Postgres : Repository Tables := {|
  repo_Create := Create;
  repo_GetByID := GetByID;
  repo_GetByExternalID := GetByExternalID;
  repo_Update := Update;
  repo_AppendEvent := AppendEvent;
  repo_ListEvents := ListEvents;
  repo_ListWorkItems := ListWorkItems;
  repo_ListOverdue := ListOverdue;
  repo_AdvanceLastSeq := AdvanceLastSeq;
  repo_ListParticipated := ListParticipated;
  repo_ListEventDigests := ListEventDigests;
  repo_CreateScope := CreateScope;
  repo_UpdateScope := UpdateScope;
  repo_ListScopes := ListScopes;
  repo_CreateToken := CreateToken;
  repo_UpdateToken := UpdateToken;
  repo_ListTokens := ListTokens |}.

End Chain.
