(* ===== verification/PostgresLaws.v ===== *)
(** The PostgreSQL repository keeps the contract of the port: every law of
    [RepositoryLaws] holds of the statements of [Postgres.v], on any tables. *)

From stdpp Require Import base gmap fin_maps sets list strings.
From Stdlib Require Import ZArith Lia.
From S2P Require Import Prelude GoStrings Errors Model Repo Postgres.

Open Scope string_scope.
Open Scope list_scope.
Open Scope Z_scope.

(** ** Selecting the rows of a case *)

Section Rows.
Context {R A : Type} (case_of : R -> uuid) (scan : uuid -> R -> A).
Implicit Types (m : gmap uuid R) (k id : uuid).

Lemma rows_of_insert m k r :
  m !! k = None ->
  rows_of case_of scan (<[k := r]> m) (case_of r) ≡ₚ scan k r :: rows_of case_of scan m (case_of r).
Proof.
  intros Hk. unfold rows_of. rewrite map_filter_insert_True by done.
  rewrite map_to_list_insert; [done|]. by apply map_lookup_filter_None_2; left.
Qed.

Lemma rows_of_insert_ne m k r id :
  case_of r <> id -> (forall r0, m !! k = Some r0 -> case_of r0 <> id) ->
  rows_of case_of scan (<[k := r]> m) id = rows_of case_of scan m id.
Proof.
  intros Hr H0. unfold rows_of. rewrite map_filter_insert_not'; [done|done|].
  intros r0 Hm. by apply H0.
Qed.

Context (key : A -> uuid) (key_scan : forall k r, key (scan k r) = k).

Lemma upd_by_other k f (l : list A) : (k ∉ key <$> l) -> upd_by key k f l = l.
Proof.
  intros Hk. unfold upd_by. transitivity (id <$> l); [|by rewrite list_fmap_id].
  apply list_fmap_ext. intros i a Ha. rewrite decide_False; [done|].
  intros <-. apply Hk, list_elem_of_fmap_2. by eapply list_elem_of_lookup_2.
Qed.

Lemma rows_of_update m k r0 r (f : A -> A) :
  m !! k = Some r0 -> case_of r = case_of r0 -> scan k r = f (scan k r0) ->
  rows_of case_of scan (<[k := r]> m) (case_of r0)
  ≡ₚ upd_by key k f (rows_of case_of scan m (case_of r0)).
Proof.
  intros Hk Hc Hf. unfold rows_of. rewrite map_filter_insert_True by (by simpl).
  set (m0 := filter (fun kr => case_of kr.2 = case_of r0) m).
  assert (Hm0 : m0 !! k = Some r0) by (by apply map_lookup_filter_Some_2).
  rewrite <- insert_delete_eq. rewrite <- (insert_delete_id m0 k r0 Hm0) at 2.
  unfold upd_by. rewrite !map_to_list_insert by apply lookup_delete_eq. csimpl. rewrite decide_True by apply key_scan. rewrite Hf.
  apply Permutation_cons; [done|].
  fold (upd_by key k f ((fun kr => scan kr.1 kr.2) <$> map_to_list (delete k m0))).
  rewrite upd_by_other; [done|]. rewrite <- list_fmap_compose. intros Hin.
  apply list_elem_of_fmap in Hin as ([k' r'] & Ek & Hin). simpl in Ek. rewrite key_scan in Ek. subst k'.
  apply elem_of_map_to_list in Hin. by rewrite lookup_delete_eq in Hin.
Qed.

Lemma elem_of_rows_of m id a :
  a ∈ rows_of case_of scan m id <-> exists k r, m !! k = Some r /\ case_of r = id /\ a = scan k r.
Proof.
  unfold rows_of. rewrite list_elem_of_fmap. split.
  - intros ([k r] & -> & Hin). apply elem_of_map_to_list in Hin.
    apply map_lookup_filter_Some in Hin as [Hm Hc]. by exists k, r.
  - intros (k & r & Hm & Hc & ->). exists (k, r). split; [done|]. apply elem_of_map_to_list.
    by apply map_lookup_filter_Some_2.
Qed.

Lemma key_of_rows_of m id k :
  k ∈ key <$> rows_of case_of scan m id -> exists r, m !! k = Some r /\ case_of r = id.
Proof.
  rewrite list_elem_of_fmap. intros (a & -> & (k' & r & Hm & Hc & ->)%elem_of_rows_of).
  rewrite key_scan. by exists r.
Qed.

End Rows.

Lemma any_row_false {R} (p : uuid -> R -> bool) (m : gmap uuid R) k r :
  any_row p m = false -> m !! k = Some r -> p k r = false.
Proof.
  unfold any_row. intros Hp Hm. apply not_true_iff_false. intros Ht.
  apply not_true_iff_false in Hp. apply Hp. apply existsb_exists. exists (k, r).
  split; [|done]. apply list_elem_of_In. by apply elem_of_map_to_list.
Qed.

Lemma filter_nil_not_In {X} (p : X -> bool) l :
  List.filter p l = [] -> forall x, List.In x l -> p x <> true.
Proof.
  intros E x Hx Hp. assert (Hin : List.In x (List.filter p l)) by (by apply filter_In).
  by rewrite E in Hin.
Qed.

(** ** Round trips of a row *)

Lemma nullableSeq_null n : nullableSeq (nullSeq n) = n.
Proof. unfold nullableSeq, nullSeq. case_match eqn:E; simpl; [by apply Z.eqb_eq in E | done]. Qed.

Lemma nullableOutcome_null o : nullableOutcome (nullOutcome o) = o.
Proof. unfold nullableOutcome, nullOutcome. by case_bool_decide. Qed.

Lemma scan_case_columns c rev : c_JoinResult c = None ->
  scanCase (c_ID c) (case_columns c rev) = case_with_revision c rev.
Proof. destruct c. simpl. by intros ->. Qed.

Lemma scan_scope_columns s : scanScope (s_ID s) (scope_columns s) = s.
Proof. destruct s. unfold scanScope. simpl. by rewrite nullableSeq_null. Qed.

Lemma scan_token_columns t : scanToken (t_ID t) (token_columns t) = t.
Proof.
  destruct t as [? ? ? ? ? [] ? ? ? ? ? ? ? ?]. unfold scanToken. simpl.
  by rewrite nullableSeq_null, nullableOutcome_null.
Qed.

Lemma scan_scope_update s k r : scanScope k (scope_row_update s r) = write_scope s (scanScope k r).
Proof. unfold scanScope, write_scope. simpl. by rewrite nullableSeq_null. Qed.

Lemma scan_token_update t k r : scanToken k (token_row_update t r) = write_token t (scanToken k r).
Proof.
  unfold scanToken, write_token. simpl. rewrite nullableSeq_null, nullableOutcome_null.
  by destruct (t_Eligible t).
Qed.

Lemma default_nullUUID id x : default x (nullUUID id) = if bool_decide (id = uuid_Nil) then x else id.
Proof. unfold nullUUID. by case_bool_decide. Qed.

Lemma scan_event_columns e prev dg :
  scanEvent (ev_ID e) (event_columns e prev dg) = event_chained (event_stored e) prev dg.
Proof.
  unfold scanEvent, event_chained, event_stored, event_columns. simpl. rewrite !default_nullUUID.
  by destruct (ev_Detail e).
Qed.

(** ** The laws *)

Section Laws.
Context (event_digest : bytes -> uuid -> event_row -> list N).

Definition pg_view (db : Tables) (id : uuid) : CaseView :=
  mkView (scanCase id <$> workflow_case db !! id)
    (rows_of sr_case_id scanScope (workflow_scope db) id)
    (rows_of tr_case_id scanToken (workflow_token db) id)
    (rows_of er_case_id scanEvent (workflow_event db) id).

Lemma Create_law c db db' c' : Create c db = (db', inr c') ->
  v_case (pg_view db (c_ID c)) = None /\ c' = case_with_revision c 0
  /\ (c_JoinResult c = None -> pg_view db' (c_ID c) = set_case c' (pg_view db (c_ID c)))
  /\ same_except pg_view db db' (c_ID c).
Proof.
  unfold Create. case_match eqn:E; [done|]. intros [= <- <-].
  apply orb_false_iff in E as [E _]. apply bool_decide_eq_false in E.
  apply eq_None_not_Some in E. split_and!.
  - simpl. by rewrite E.
  - done.
  - intros Hj. unfold pg_view, set_case. simpl. rewrite lookup_insert_eq. simpl.
    by rewrite scan_case_columns.
  - intros id' Hne. unfold pg_view. simpl. by rewrite lookup_insert_ne.
Qed.

Lemma Update_law c seq db db' c' : Update c seq db = (db', inr c') ->
  (exists old, v_case (pg_view db (c_ID c)) = Some old
     /\ c_Revision old = c_Revision c /\ c_LastSeq old = seq)
  /\ c' = case_with_revision c (c_Revision c + 1)
  /\ (c_JoinResult c = None -> pg_view db' (c_ID c) = set_case c' (pg_view db (c_ID c)))
  /\ same_except pg_view db db' (c_ID c).
Proof.
  unfold Update. destruct (workflow_case db !! c_ID c) as [r|] eqn:E; [|done].
  case_match eqn:Ec; [|done]. case_match; [done|]. intros [= <- <-].
  apply andb_true_iff in Ec as [E1%Z.eqb_eq E2%Z.eqb_eq]. split_and!.
  - exists (scanCase (c_ID c) r). simpl. by rewrite E.
  - done.
  - intros Hj. unfold pg_view, set_case. simpl. rewrite lookup_insert_eq. simpl.
    by rewrite scan_case_columns.
  - intros id' Hne. unfold pg_view. simpl. by rewrite lookup_insert_ne.
Qed.

Lemma Update_stale_law c seq db old : v_case (pg_view db (c_ID c)) = Some old ->
  c_Revision old <> c_Revision c \/ c_LastSeq old <> seq ->
  exists db' e, Update c seq db = (db', inl e) /\ errors_Is e ErrConflict = true.
Proof.
  intros Hv Hs. exists db, (sent ErrConflict). split; [|done]. unfold Update. simpl in Hv.
  destruct (workflow_case db !! c_ID c) as [r|]; [|done]. injection Hv as <-. simpl in Hs.
  destruct (andb _ _) eqn:Ec; [|done]. apply andb_true_iff in Ec as [E1%Z.eqb_eq E2%Z.eqb_eq].
  destruct Hs; done.
Qed.

Lemma Advance_law id db db' c' : AdvanceLastSeq id db = (db', inr c') ->
  exists c, v_case (pg_view db id) = Some c /\ c_ID c = id /\ c' = case_with_lastseq c (c_LastSeq c + 1)
    /\ pg_view db' id = set_case c' (pg_view db id) /\ same_except pg_view db db' id.
Proof.
  unfold AdvanceLastSeq. destruct (workflow_case db !! id) as [r|] eqn:E; [|done]. intros [= <- <-].
  exists (scanCase id r). split_and!; [simpl; by rewrite E | done | done | |].
  - unfold pg_view, set_case. simpl. by rewrite lookup_insert_eq.
  - intros id' Hne. unfold pg_view. simpl. by rewrite lookup_insert_ne.
Qed.

Lemma CreateScope_law s db db' : CreateScope s db = (db', inr tt) ->
  (s_ID s ∉ s_ID <$> v_scopes (pg_view db (s_CaseID s)))
  /\ v_scopes (pg_view db' (s_CaseID s)) ≡ₚ s :: v_scopes (pg_view db (s_CaseID s))
  /\ v_case (pg_view db' (s_CaseID s)) = v_case (pg_view db (s_CaseID s))
  /\ v_tokens (pg_view db' (s_CaseID s)) = v_tokens (pg_view db (s_CaseID s))
  /\ v_events (pg_view db' (s_CaseID s)) = v_events (pg_view db (s_CaseID s))
  /\ same_except pg_view db db' (s_CaseID s).
Proof.
  unfold CreateScope. case_match; [done|]. case_match eqn:E; [done|]. case_match; [done|].
  intros [= <-]. apply bool_decide_eq_false, eq_None_not_Some in E. split_and!; try done.
  - simpl. intros Hin. apply key_of_rows_of in Hin as (r & Hr & _); [congruence | done].
  - simpl. change (s_CaseID s) with (sr_case_id (scope_columns s)).
    rewrite rows_of_insert by done. by rewrite scan_scope_columns.
  - intros id' Hne. unfold pg_view. simpl. f_equal. apply rows_of_insert_ne; [done | congruence].
Qed.

Lemma UpdateScope_law s db db' : UpdateScope s db = (db', inr tt) ->
  s_ID s ∈ s_ID <$> v_scopes (pg_view db (s_CaseID s)) ->
  v_scopes (pg_view db' (s_CaseID s))
    ≡ₚ upd_by s_ID (s_ID s) (write_scope s) (v_scopes (pg_view db (s_CaseID s)))
  /\ v_case (pg_view db' (s_CaseID s)) = v_case (pg_view db (s_CaseID s))
  /\ v_tokens (pg_view db' (s_CaseID s)) = v_tokens (pg_view db (s_CaseID s))
  /\ v_events (pg_view db' (s_CaseID s)) = v_events (pg_view db (s_CaseID s))
  /\ same_except pg_view db db' (s_CaseID s).
Proof.
  unfold UpdateScope. destruct (workflow_scope db !! s_ID s) as [r|] eqn:E; [|done].
  intros [= <-] Hin. simpl in Hin. apply key_of_rows_of in Hin as (r' & Hr & Hc); [|done].
  rewrite E in Hr. injection Hr as <-. split_and!; try done.
  - simpl. rewrite <- Hc. apply (rows_of_update sr_case_id scanScope s_ID); [done..|].
    apply scan_scope_update.
  - intros id' Hne. unfold pg_view. simpl. f_equal. apply rows_of_insert_ne; simpl; [congruence|].
    intros r0 Hr0. congruence.
Qed.

Lemma CreateToken_law t db db' : CreateToken t db = (db', inr tt) ->
  (t_ID t ∉ t_ID <$> v_tokens (pg_view db (t_CaseID t)))
  /\ v_tokens (pg_view db' (t_CaseID t)) ≡ₚ t :: v_tokens (pg_view db (t_CaseID t))
  /\ v_case (pg_view db' (t_CaseID t)) = v_case (pg_view db (t_CaseID t))
  /\ v_scopes (pg_view db' (t_CaseID t)) = v_scopes (pg_view db (t_CaseID t))
  /\ v_events (pg_view db' (t_CaseID t)) = v_events (pg_view db (t_CaseID t))
  /\ same_except pg_view db db' (t_CaseID t).
Proof.
  unfold CreateToken. case_match; [done|]. case_match eqn:E; [done|]. case_match; [done|].
  intros [= <-]. apply bool_decide_eq_false, eq_None_not_Some in E. split_and!; try done.
  - simpl. intros Hin. apply key_of_rows_of in Hin as (r & Hr & _); [congruence | done].
  - simpl. change (t_CaseID t) with (tr_case_id (token_columns t)).
    rewrite rows_of_insert by done. by rewrite scan_token_columns.
  - intros id' Hne. unfold pg_view. simpl. f_equal. apply rows_of_insert_ne; [done | congruence].
Qed.

Lemma UpdateToken_law t db db' : UpdateToken t db = (db', inr tt) ->
  t_ID t ∈ t_ID <$> v_tokens (pg_view db (t_CaseID t)) ->
  v_tokens (pg_view db' (t_CaseID t))
    ≡ₚ upd_by t_ID (t_ID t) (write_token t) (v_tokens (pg_view db (t_CaseID t)))
  /\ v_case (pg_view db' (t_CaseID t)) = v_case (pg_view db (t_CaseID t))
  /\ v_scopes (pg_view db' (t_CaseID t)) = v_scopes (pg_view db (t_CaseID t))
  /\ v_events (pg_view db' (t_CaseID t)) = v_events (pg_view db (t_CaseID t))
  /\ same_except pg_view db db' (t_CaseID t).
Proof.
  unfold UpdateToken. destruct (workflow_token db !! t_ID t) as [r|] eqn:E; [|done]. case_match; [|done].
  intros [= <-] Hin. simpl in Hin. apply key_of_rows_of in Hin as (r' & Hr & Hc); [|done].
  rewrite E in Hr. injection Hr as <-. split_and!; try done.
  - simpl. rewrite <- Hc. apply (rows_of_update tr_case_id scanToken t_ID); [done..|].
    apply scan_token_update.
  - intros id' Hne. unfold pg_view. simpl. f_equal. apply rows_of_insert_ne; simpl; [congruence|].
    intros r0 Hr0. congruence.
Qed.

(** The trigger links a row to its predecessor. *)
Lemma chain_row_linked e db :
  let row := chain_row event_digest db e in
  linked_to (event_chained (event_stored e) (er_prev_digest row) (er_digest row))
    (v_events (pg_view db (ev_CaseID e))).
Proof.
  simpl. split; [by eexists|]. simpl. unfold digest_at.
  destruct (List.filter _ _) as [|[k r] l] eqn:El.
  - right. split; [|done]. intros x (k & r & Hk & Hc & ->)%elem_of_rows_of Es. simpl in Es.
    eapply (filter_nil_not_In _ _ El (k, r)).
    + apply list_elem_of_In. by apply elem_of_map_to_list.
    + simpl. rewrite bool_decide_true by done. by apply Z.eqb_eq.
  - left. assert (Hin : (k, r) ∈ (k, r) :: l) by apply list_elem_of_here.
    rewrite <- El, list_elem_of_In, filter_In, andb_true_iff, bool_decide_eq_true, Z.eqb_eq in Hin.
    destruct Hin as (Hin & Hc & Hs). exists (scanEvent k r). split_and!; [|done..].
    apply elem_of_rows_of. exists k, r. split; [|done].
    apply list_elem_of_In, elem_of_map_to_list in Hin. done.
Qed.

Lemma AppendEvent_law e db db' e' : AppendEvent event_digest e db = (db', inr e') ->
  1 <= ev_Seq e
  /\ (forall x, x ∈ v_events (pg_view db (ev_CaseID e)) -> ev_Seq x <> ev_Seq e)
  /\ (exists prev digest, e' = event_chained e prev digest
       /\ linked_to (event_chained (event_stored e) prev digest) (v_events (pg_view db (ev_CaseID e)))
       /\ v_events (pg_view db' (ev_CaseID e))
          ≡ₚ event_chained (event_stored e) prev digest :: v_events (pg_view db (ev_CaseID e)))
  /\ v_case (pg_view db' (ev_CaseID e)) = v_case (pg_view db (ev_CaseID e))
  /\ v_scopes (pg_view db' (ev_CaseID e)) = v_scopes (pg_view db (ev_CaseID e))
  /\ v_tokens (pg_view db' (ev_CaseID e)) = v_tokens (pg_view db (ev_CaseID e))
  /\ same_except pg_view db db' (ev_CaseID e).
Proof.
  unfold AppendEvent. case_match eqn:E1; [done|]. case_match eqn:E2; [done|]. case_match eqn:E3; [done|].
  case_match; [done|]. intros [= <- <-]. apply Z.ltb_ge in E1.
  apply bool_decide_eq_false, eq_None_not_Some in E2. apply orb_false_iff in E3 as [E3 _].
  split_and!; try done.
  - intros x Hx. simpl in Hx. apply elem_of_rows_of in Hx as (k & r & Hk & Hc & ->).
    apply (any_row_false _ _ _ _ E3) in Hk. simpl. intros Es.
    rewrite Hc, Es, bool_decide_true, Z.eqb_refl in Hk by done. done.
  - eexists _, _. split; [reflexivity|]. split; [apply chain_row_linked|]. simpl.
    change (ev_CaseID e) with (er_case_id (chain_row event_digest db e)) at 1 2.
    rewrite rows_of_insert by done. unfold chain_row at 1. by rewrite scan_event_columns.
  - intros id' Hne. unfold pg_view. simpl. f_equal. apply rows_of_insert_ne; [done | congruence].
Qed.

#[export] Instance Postgres_laws : @RepositoryLaws Tables (Postgres event_digest).
Proof.
  refine {| view := pg_view |}; simpl.
  - intros db id c. unfold GetByID. simpl. destruct (workflow_case db !! id); [|done]. by intros [= <-].
  - intros db id l [= <-]. apply sort_by_Permutation.
  - intros db id l [= <-]. apply sort_by_Permutation.
  - intros db id l [= <-]. apply sort_by_Permutation.
  - apply Create_law.
  - apply Update_law.
  - apply Update_stale_law.
  - apply Advance_law.
  - apply CreateScope_law.
  - apply UpdateScope_law.
  - apply CreateToken_law.
  - apply UpdateToken_law.
  - apply AppendEvent_law.
  - intros c db db' e. unfold Create. case_match; [by intros [= <-]|done].
  - intros c q db db' e. unfold Update. repeat case_match; by intros [= <-].
  - intros i db db' e. unfold AdvanceLastSeq. repeat case_match; by intros [= <-].
  - intros x db db' e. unfold AppendEvent. repeat case_match; by intros [= <-].
Defined.

End Laws.
