(* ===== verification/Chain.v ===== *)
(** The hash chain of a case's history: what [VerifyChain] accepts, and that it
    accepts every history the engine writes through the PostgreSQL repository.

    The second part needs a property of the tables that no write breaks.  A general
    principle gives it: a call of the engine touches the database only through the
    operations of the port and the effect sink, so what all of them preserve, every
    call preserves, whether it succeeds or fails. *)

From stdpp Require Import base gmap fin_maps sets list strings sorting.
From Stdlib Require Import ZArith Lia.
From S2P Require Import Prelude GoStrings Errors Model Definitions JoinPolicies Repo Ports Events.
From S2P Require Import Run Validate Engine RunFrame CaseInv RunInv EngineInv Persist Plans.
From S2P Require Import ValidateFacts System Postgres PostgresLaws.

Open Scope string_scope.
Open Scope list_scope.
Open Scope Z_scope.

(** ** What the writes of a call preserve *)

Section Stable.
Context {DB : Type} `{Repository DB} (P : DB -> Prop).

Definition w_stable {A : Type} (m : writer DB A) : Prop :=
  forall db db' x, m db = (db', x) -> P db -> P db'.

Record repo_stable : Prop := mkRepoStable {
  rs_create c : w_stable (w_lift (repo_Create c));
  rs_update c q : w_stable (w_lift (repo_Update c q));
  rs_append ev : w_stable (w_lift (repo_AppendEvent ev));
  rs_advance id : w_stable (w_lift (repo_AdvanceLastSeq id));
  rs_create_scope s : w_stable (w_lift (repo_CreateScope s));
  rs_update_scope s : w_stable (w_lift (repo_UpdateScope s));
  rs_create_token t : w_stable (w_lift (repo_CreateToken t));
  rs_update_token t : w_stable (w_lift (repo_UpdateToken t)) }.

Definition sink_stable (e : Engine DB) : Prop :=
  forall sink d c evs, e_effectSink e = Some sink -> w_stable (w_lift (es_Dispatch sink d c evs)).

Lemma w_ret_stable {A} (a : A) : w_stable (w_ret a).
Proof. by intros db db' x [= <- <-]. Qed.

Lemma w_res_stable {A} (m : result A) : w_stable (w_res m).
Proof. by intros db db' x [= <- <-]. Qed.

Lemma w_bind_stable {A B} (m : writer DB A) (k : A -> writer DB B) :
  w_stable m -> (forall a, w_stable (k a)) -> w_stable (w_bind m k).
Proof.
  intros Hm Hk db db' x. unfold w_bind. destruct (m db) as [db1 [a| | |]] eqn:E; [|by intros [= <- _]; eapply Hm..].
  intros E' HP. eapply Hk; [exact E'|]. by eapply Hm.
Qed.

Context (HR : repo_stable) (e : Engine DB) (HS : sink_stable e).

Lemma write_scopes_stable C M l : w_stable (write_scopes C M l).
Proof.
  induction l as [|s l IH]; simpl; [apply w_ret_stable|]. apply w_bind_stable; [|done].
  repeat case_bool_decide; [apply HR | apply HR | apply w_ret_stable].
Qed.

Lemma write_tokens_stable C M l : w_stable (write_tokens C M l).
Proof.
  induction l as [|t l IH]; simpl; [apply w_ret_stable|]. apply w_bind_stable; [|done].
  repeat case_bool_decide; [apply HR | apply HR | apply w_ret_stable].
Qed.

Lemma append_events_stable cx n c l : w_stable (append_events e cx n c l).
Proof.
  revert n. induction l as [|ev l IH]; intros n; simpl; [apply w_ret_stable|].
  apply w_bind_stable; [apply HR|]. intros a. apply w_bind_stable; [done|]. intros b. apply w_ret_stable.
Qed.

Lemma persist_stable cx r : w_stable (persist e cx r).
Proof.
  unfold persist. apply w_bind_stable; [apply HR|]. intros c. apply w_bind_stable.
  { apply w_bind_stable; [apply write_scopes_stable|]. intros _. apply write_tokens_stable. }
  intros _. apply w_bind_stable; [apply append_events_stable|]. intros l. apply w_ret_stable.
Qed.

Lemma dispatch_stable d c evs : w_stable (dispatch e d c evs).
Proof.
  unfold dispatch. destruct (e_effectSink e) as [sink|] eqn:Es; [by apply HS | apply w_ret_stable].
Qed.

Lemma commit_stable cx r : w_stable (commit e cx r).
Proof. apply w_bind_stable; [apply persist_stable|]. intros [c l]. apply w_ret_stable. Qed.

Lemma commit_dispatch_stable cx d r : w_stable (commit_dispatch e cx d r).
Proof.
  apply w_bind_stable; [apply persist_stable|]. intros [c l].
  apply w_bind_stable; [apply dispatch_stable|]. intros _. apply w_ret_stable.
Qed.

(** A plan computed from the database, then a write. *)
Lemma planned_stable {A B} (plan : DB -> result A) (k : A -> writer DB B) :
  (forall a, w_stable (k a)) -> w_stable (fun db => (do! a := w_res (plan db) in k a) db).
Proof. intros Hk db db' x Hx. by eapply (w_bind_stable (w_res (plan db)) k); [apply w_res_stable|..]. Qed.

Lemma open_stable cx inp : w_stable (OpenDetailed e cx inp).
Proof.
  apply (planned_stable (fun db => open_plan e cx db inp)). intros [[[[actor d] start] c] root].
  apply w_bind_stable; [apply HR|]. intros c'. apply w_bind_stable; [apply HR|]. intros _.
  apply w_bind_stable; [apply HR|]. intros _. apply w_bind_stable; [apply HR|]. intros ev.
  apply w_bind_stable; [apply dispatch_stable|]. intros _. apply w_ret_stable.
Qed.

Lemma perform_stable cx c : w_stable (perform e cx c).
Proof.
  destruct c as [i|i|i|i|i|i|i|i|i|i|id]; (apply w_bind_stable; [|intros a; apply w_ret_stable]).
  - apply open_stable.
  - apply (planned_stable (fun db => move_plan e cx db i)). intros [d r]. apply commit_dispatch_stable.
  - apply (planned_stable (fun db => claim_plan e cx db i)). intros [c|r]; [apply w_ret_stable | apply commit_stable].
  - apply (planned_stable (fun db => release_plan e cx db i)). intros r. apply commit_stable.
  - apply (planned_stable (fun db => reassign_plan e cx db i)). intros r. apply commit_stable.
  - apply (planned_stable (fun db => set_deadline_plan e cx db i)). intros r. apply commit_stable.
  - apply (planned_stable (fun db => expire_plan e cx db i)). intros [[d r] [tr|]]; [apply commit_dispatch_stable|].
    apply w_bind_stable; [apply persist_stable|]. intros [c l]. apply w_ret_stable.
  - apply (planned_stable (fun db => cancel_plan e cx db i)). intros r. apply commit_stable.
  - apply (planned_stable (fun db => cancel_token_plan e cx db i)). intros [d r]. apply commit_dispatch_stable.
  - apply (planned_stable (fun db => failure_plan db i)). intros [[actor detail] tok].
    apply w_bind_stable; [apply HR|]. intros c. apply HR.
  - apply (planned_stable (fun db => refresh_plan e cx db id)). intros [r|]; [|apply w_ret_stable].
    apply w_bind_stable; [apply persist_stable|]. intros _. apply w_ret_stable.
Qed.

End Stable.

(** ** Lists sorted by a number *)

Lemma seqZ_sorted m n : StronglySorted Z.le (seqZ m n).
Proof.
  destruct (Z.lt_ge_cases n 0) as [Hn|Hn]; [rewrite seqZ_nil by lia; constructor|].
  revert m. pattern n. apply natlike_ind; [|clear n Hn|done].
  - intros m. rewrite seqZ_nil by lia. constructor.
  - intros n Hn IH m. rewrite seqZ_cons by lia. rewrite Z.pred_succ. constructor; [apply IH|].
    apply Forall_forall. intros x Hx%elem_of_seqZ. lia.
Qed.

Lemma sort_by_seqs {A} (f : A -> Z) l n :
  f <$> l ≡ₚ seqZ 1 n -> f <$> sort_by (fun a b => f a <? f b) l = seqZ 1 n.
Proof.
  intros Hp. apply (StronglySorted_unique Z.le); [|apply seqZ_sorted|by rewrite sort_by_Permutation].
  apply (StronglySorted_fmap f (not_after (fun a b => f a <? f b))).
  - intros a b Hab. unfold not_after in Hab. by apply Z.ltb_ge in Hab.
  - apply sort_by_StronglySorted.
    + intros a b. rewrite !Z.ltb_lt, !Z.ltb_ge. lia.
    + intros a b c. rewrite !Z.ltb_ge. lia.
Qed.

(** ** What [VerifyChain] accepts *)

(** Every link has a digest that its content gives again, and names the digest of
    the link before; [prev] is the digest before the first. *)
Fixpoint chain_links (prev : bytes) (links : list EventDigest) : Prop :=
  match links with
  | [] => True
  | l :: rest =>
      is_Some (ed_Digest l) /\ bytes_Equal (ed_PrevDigest l) prev = true
      /\ bytes_Equal (ed_Recomputed l) (ed_Digest l) = true /\ chain_links (ed_Digest l) rest
  end.

(** A link of an event stored before the chain existed. *)
Definition unchained (l : EventDigest) : Prop := ed_Digest l = None /\ ed_PrevDigest l = None.

Lemma verify_links_chained prev links :
  verify_links prev true links = ChainIntact <-> chain_links prev links.
Proof.
  revert prev. induction links as [|l rest IH]; intros prev; simpl; [done|].
  destruct (ed_Digest l) as [dg|] eqn:Ed.
  - destruct (bytes_Equal (ed_PrevDigest l) prev); simpl; [|split; [done|by intros (_ & ? & _)]].
    destruct (bytes_Equal (ed_Recomputed l) (Some dg)); simpl; [|split; [done|by intros (_ & _ & ? & _)]].
    rewrite IH. split; [intros ?; split_and!; eauto | by intros (_ & _ & _ & ?)].
  - split; [done | by intros ([] & _)].
Qed.

Lemma verify_links_intact links :
  verify_links None false links = ChainIntact <->
  exists old new, links = old ++ new /\ Forall unchained old /\ chain_links None new.
Proof.
  induction links as [|l rest IH]; simpl.
  { split; [|done]. intros _. exists [], []. done. }
  destruct (ed_Digest l) as [dg|] eqn:Ed.
  - assert (Hiff : chain_links None (l :: rest) <->
      exists old new, l :: rest = old ++ new /\ Forall unchained old /\ chain_links None new).
    { split; [intros Hc; by exists [], (l :: rest)|]. intros ([|o old] & new & E & Ho & Hc).
      - simpl in E. by subst.
      - injection E as -> ->. apply Forall_cons in Ho as [[? _] _]. congruence. }
    rewrite <- Hiff. simpl. rewrite Ed.
    destruct (bytes_Equal (ed_PrevDigest l) None); simpl; [|split; [done|by intros (_ & ? & _)]].
    destruct (bytes_Equal (ed_Recomputed l) (Some dg)); simpl; [|split; [done|by intros (_ & _ & ? & _)]].
    rewrite verify_links_chained. split; [intros ?; split_and!; eauto | by intros (_ & _ & _ & ?)].
  - destruct (ed_PrevDigest l) as [p|] eqn:Ep.
    + split; [done|]. intros ([|o old] & new & E & Ho & Hc); simpl in E.
      * subst. simpl in Hc. rewrite Ed in Hc. by destruct Hc as ([] & _).
      * injection E as -> ->. apply Forall_cons in Ho as [[_ ?] _]. congruence.
    + rewrite IH. split.
      * intros (old & new & -> & Ho & Hc). exists (l :: old), new. split_and!; [done| |done].
        constructor; [|done]. done.
      * intros ([|o old] & new & E & Ho & Hc); simpl in E.
        -- subst. simpl in Hc. rewrite Ed in Hc. by destruct Hc as ([] & _).
        -- injection E as -> ->. apply Forall_cons in Ho as [_ Ho]. eauto.
Qed.

(** A link that a valid chain of links is followed by is reported when its content
    does not give its digest. *)
Lemma verify_links_tampered prev chained links l rest :
  chain_links prev links -> is_Some (ed_Digest l) ->
  bytes_Equal (ed_PrevDigest l) (match last links with Some x => ed_Digest x | None => prev end) = true ->
  bytes_Equal (ed_Recomputed l) (ed_Digest l) = false ->
  verify_links prev chained (links ++ l :: rest) = ChainBroken (ed_Seq l) ContentMismatch.
Proof.
  revert prev chained. induction links as [|x links IH]; intros prev chained Hc [dg Hd] Hp Hr; simpl.
  - simpl in Hp. rewrite Hd, Hp. rewrite Hd in Hr. by rewrite Hr.
  - destruct Hc as ([dx Hx] & H1 & H2 & H3). rewrite Hx, H1. rewrite Hx in H2, H3. rewrite H2. simpl.
    apply IH; [done|by eexists| |done].
    destruct links as [|y links]; [simpl in *; by rewrite <- Hx|]. rewrite last_cons_cons in Hp.
    destruct (last (y :: links)) eqn:El; [done|]. by apply last_None in El.
Qed.

Lemma bytes_Equal_refl b : bytes_Equal b b = true.
Proof. unfold bytes_Equal. by rewrite bool_decide_true. Qed.

(** Links numbered in a row, each naming the digest of the one before. *)
Lemma chain_links_numbered links m n prev :
  ed_Seq <$> links = seqZ m n ->
  (forall l, l ∈ links -> is_Some (ed_Digest l) /\ ed_Recomputed l = ed_Digest l) ->
  (forall l, l ∈ links -> ed_Seq l = m -> ed_PrevDigest l = prev) ->
  (forall l l', l ∈ links -> l' ∈ links -> ed_Seq l = ed_Seq l' + 1 -> ed_PrevDigest l = ed_Digest l') ->
  chain_links prev links.
Proof.
  revert m n prev. induction links as [|l rest IH]; intros m n prev Hs Hd Hf Hl; [done|].
  destruct (Z.le_gt_cases n 0) as [Hn|Hn]; [by rewrite seqZ_nil in Hs by lia|].
  rewrite seqZ_cons in Hs by lia. csimpl in Hs. injection Hs as E1 E2.
  destruct (Hd l (list_elem_of_here _ _)) as [Hsome Hrec]. simpl. rewrite Hrec, (Hf l (list_elem_of_here _ _) E1).
  split_and!; [done|apply bytes_Equal_refl..|]. eapply IH; [exact E2| | |].
  - intros l' Hl'. apply Hd. by apply list_elem_of_further.
  - intros l' Hl' Es. apply Hl; [by apply list_elem_of_further|apply list_elem_of_here|lia].
  - intros a b Ha Hb. apply Hl; by apply list_elem_of_further.
Qed.

(** ** The tables *)

Section Tables.
Context (event_digest : bytes -> uuid -> event_row -> list N).
Local Existing Instance Postgres.
Local Existing Instance Postgres_laws.
Abbreviation PG := (Postgres event_digest).
Abbreviation PGL := (Postgres_laws event_digest).

(** Every stored digest is the digest of its row: what the append-only triggers of
    migration 005 protect. *)
Definition digests_ok (db : Tables) : Prop :=
  forall k r dg, workflow_event db !! k = Some r -> er_digest r = Some dg ->
    dg = event_digest (er_prev_digest r) k (undigested r).

Lemma digests_ok_events db db' : workflow_event db' = workflow_event db -> digests_ok db -> digests_ok db'.
Proof. unfold digests_ok. by intros ->. Qed.

Lemma append_digests_ok ev db db' x :
  AppendEvent event_digest ev db = (db', x) -> digests_ok db -> digests_ok db'.
Proof.
  unfold AppendEvent. intros Ha Hok.
  repeat (case_match; [by injection Ha as <- _|]).
  injection Ha as <- _. intros k r dg. simpl. intros [[<- <-]|[_ Hk]]%lookup_insert_Some Hd; [|by eapply Hok].
  simpl in Hd. by injection Hd as <-.
Qed.

Lemma w_lift_fst {DB A} (m : DB -> DB * (error + A)) db db' x :
  w_lift m db = (db', x) -> exists y, m db = (db', y).
Proof. unfold w_lift. destruct (m db) as [d y]. intros [= <- _]. eauto. Qed.

Lemma digests_stable : repo_stable (H := PG) digests_ok.
Proof.
  constructor; intros; intros db db' x (y & Hm)%w_lift_fst Hok; simpl in Hm.
  3: by eapply append_digests_ok.
  all: refine (digests_ok_events db db' _ Hok);
    unfold Create, Update, AdvanceLastSeq, CreateScope, UpdateScope, CreateToken, UpdateToken in Hm;
    repeat case_match; by injection Hm as <- _.
Qed.

Lemma no_cases_digests db : no_cases (H := PG) (H0 := PGL) db -> digests_ok db.
Proof.
  intros Hn k r dg Hk _. exfalso. specialize (Hn (er_case_id r)). injection Hn as _ _ _ He.
  assert (Hin : scanEvent k r ∈ rows_of er_case_id scanEvent (workflow_event db) (er_case_id r))
    by (apply elem_of_rows_of; eauto).
  rewrite He in Hin. by apply not_elem_of_nil in Hin.
Qed.

Lemma reachable_digests (e : Engine Tables) db :
  sink_stable digests_ok e -> reachable (H := PG) (H0 := PGL) e db -> digests_ok db.
Proof.
  intros Hs. induction 1 as [db Hn|db db' cx c _ IH Hf Hc]; [by apply no_cases_digests|].
  eapply (perform_stable digests_ok digests_stable e Hs); eauto.
Qed.

Definition links_of (db : Tables) (id : uuid) : list EventDigest :=
  sort_by (by_Z ed_Seq) (rows_of er_case_id (scanDigest event_digest) (workflow_event db) id).

Lemma link_event db id l :
  l ∈ links_of db id -> exists k r, workflow_event db !! k = Some r /\ er_case_id r = id
    /\ l = scanDigest event_digest k r.
Proof. unfold links_of. rewrite elem_of_sort_by. apply elem_of_rows_of. Qed.

Lemma links_numbered db id n :
  ev_Seq <$> v_events (pg_view db id) ≡ₚ seqZ 1 n -> ed_Seq <$> links_of db id = seqZ 1 n.
Proof.
  intros Hs. apply sort_by_seqs. rewrite <- Hs. simpl. unfold rows_of.
  by rewrite <- !list_fmap_compose.
Qed.

Section History.
Context (db : Tables) (id : uuid) (n : Z) (Hd : digests_ok db)
  (Hh : history n (v_events (pg_view db id))).

Lemma link_facts l : l ∈ links_of db id ->
  is_Some (ed_Digest l) /\ ed_Recomputed l = ed_Digest l /\ (ed_Seq l = 1 -> ed_PrevDigest l = None).
Proof.
  intros (k & r & Hk & Er & ->)%link_event. destruct Hh as (_ & _ & Hx & _).
  destruct (Hx (scanEvent k r)) as [[dg Hdg] Hp]; [apply elem_of_rows_of; eauto|]. simpl in *.
  rewrite Hdg. split_and!; [by eexists| |done]. f_equal. symmetry. by eapply Hd.
Qed.

Lemma link_before l l' : l ∈ links_of db id -> l' ∈ links_of db id -> ed_Seq l = ed_Seq l' + 1 ->
  ed_PrevDigest l = ed_Digest l'.
Proof.
  intros (k & r & Hk & Er & ->)%link_event (k' & r' & Hk' & Er' & ->)%link_event.
  destruct Hh as (_ & _ & _ & Hc).
  apply (Hc (scanEvent k r) (scanEvent k' r')); apply elem_of_rows_of; eauto.
Qed.

(** Untampered links numbered from 1 are a valid chain. *)
Lemma history_chain links m :
  (forall l, l ∈ links -> l ∈ links_of db id) -> ed_Seq <$> links = seqZ 1 m -> chain_links None links.
Proof.
  intros Hin Hs. apply (chain_links_numbered _ 1 m); [done|..].
  - intros l Hl%Hin. by destruct (link_facts l Hl) as (? & ? & _).
  - intros l Hl%Hin. by destruct (link_facts l Hl) as (_ & _ & ?).
  - intros l l' Hl%Hin Hl'%Hin. by apply link_before.
Qed.

End History.

(** A row changed in place: same identity, Seq and digests, other content. *)
Definition tampered (r r' : event_row) : Prop :=
  er_case_id r' = er_case_id r /\ er_seq r' = er_seq r
  /\ er_prev_digest r' = er_prev_digest r /\ er_digest r' = er_digest r.

Lemma tampered_seqs db id k r r' :
  workflow_event db !! k = Some r -> er_case_id r = id -> tampered r r' ->
  ev_Seq <$> v_events (pg_view (with_events (<[k := r']> (workflow_event db)) db) id)
  ≡ₚ ev_Seq <$> v_events (pg_view db id).
Proof.
  intros Hk Er (T1 & T2 & _). simpl. rewrite <- Er.
  rewrite (rows_of_update er_case_id scanEvent ev_ID (fun _ _ => eq_refl) _ k r r' (fun _ => scanEvent k r'));
    [|done..].
  unfold upd_by. rewrite <- list_fmap_compose. apply Permutation_refl'. apply list_fmap_ext.
  intros i x Hx. apply list_elem_of_lookup_2, elem_of_rows_of in Hx as (k0 & r0 & Hk0 & _ & ->). simpl.
  case_decide as Ek; [|done]. subst k0. rewrite Hk in Hk0. by injection Hk0 as <-.
Qed.

Lemma tampered_link db id k r r' l :
  workflow_event db !! k = Some r -> er_case_id r = id -> tampered r r' ->
  l ∈ links_of (with_events (<[k := r']> (workflow_event db)) db) id -> ed_Seq l <> er_seq r ->
  l ∈ links_of db id.
Proof.
  intros Hk Er (_ & T2 & _) (k0 & r0 & Hk0 & Er0 & ->)%link_event Hne. simpl in Hk0.
  apply lookup_insert_Some in Hk0 as [[<- <-]|[_ Hk0]]; [simpl in Hne; congruence|].
  unfold links_of. rewrite elem_of_sort_by. apply elem_of_rows_of. eauto.
Qed.

Lemma seqZ_nil_inv m n : seqZ m n = [] -> n <= 0.
Proof. intros E. apply (f_equal length) in E. rewrite length_seqZ in E. simpl in E. lia. Qed.

Lemma take_seqZ i n : 0 <= Z.of_nat i <= n -> take i (seqZ 1 n) = seqZ 1 (Z.of_nat i).
Proof.
  intros Hi. replace n with (Z.of_nat i + (n - Z.of_nat i)) by lia. rewrite seqZ_app by lia.
  rewrite take_app_le by (rewrite length_seqZ; lia). apply take_ge. rewrite length_seqZ. lia.
Qed.

Lemma numbered_at (links : list EventDigest) n l :
  ed_Seq <$> links = seqZ 1 n -> l ∈ links -> links !! Z.to_nat (ed_Seq l - 1) = Some l.
Proof.
  intros Hnum Hl. apply list_elem_of_lookup in Hl as [j Hj].
  assert (Hz : (ed_Seq <$> links) !! j = Some (ed_Seq l)) by (by rewrite list_lookup_fmap, Hj).
  rewrite Hnum in Hz. apply lookup_seqZ in Hz. by replace (Z.to_nat (ed_Seq l - 1)) with j by lia.
Qed.

Lemma numbered_last (links : list EventDigest) m l :
  ed_Seq <$> links = seqZ 1 m -> last links = Some l -> ed_Seq l = m.
Proof.
  intros Hs [l0 El]%last_Some.
  assert (Hlen : Z.of_nat (length links) = Z.max m 0) by (rewrite <- (length_fmap ed_Seq), Hs, length_seqZ; lia).
  assert (Hz : (ed_Seq <$> links) !! length l0 = Some (ed_Seq l)).
  { rewrite El, fmap_app, lookup_app_r; rewrite length_fmap; [|done]. by rewrite Nat.sub_diag. }
  rewrite Hs in Hz. apply lookup_seqZ in Hz. rewrite El, length_app in Hlen. simpl in Hlen. lia.
Qed.

(** Changing the content of one stored event is reported at that event. *)
Lemma tampering_detected db id k r r' n :
  digests_ok db -> history n (v_events (pg_view db id)) ->
  workflow_event db !! k = Some r -> er_case_id r = id -> tampered r r' ->
  event_digest (er_prev_digest r) k (undigested r') <> event_digest (er_prev_digest r) k (undigested r) ->
  verify_links None false (links_of (with_events (<[k := r']> (workflow_event db)) db) id)
  = ChainBroken (er_seq r) ContentMismatch.
Proof.
  intros Hd Hh Hk Er HT Hne. set (db' := with_events _ db). set (links := links_of db' id).
  set (l0 := scanDigest event_digest k r). set (l1 := scanDigest event_digest k r').
  assert (Hl0 : l0 ∈ links_of db id) by (unfold links_of; rewrite elem_of_sort_by; apply elem_of_rows_of; eauto).
  pose proof HT as (T1 & T2 & T3 & T4).
  assert (Hseq : 1 <= er_seq r <= n) by (apply (history_seq n _ (scanEvent k r) Hh), elem_of_rows_of; eauto).
  assert (Hnum : ed_Seq <$> links = seqZ 1 n).
  { apply links_numbered. etransitivity; [by apply (tampered_seqs db id k r r')|apply Hh]. }
  assert (Hl1 : l1 ∈ links).
  { unfold links, links_of. rewrite elem_of_sort_by. apply elem_of_rows_of. exists k, r'.
    split_and!; [apply lookup_insert_eq|congruence|done]. }
  pose proof (numbered_at links n l1 Hnum Hl1) as Hat. simpl in Hat. rewrite T2 in Hat.
  set (i := Z.to_nat (er_seq r - 1)) in *. rewrite <- (take_drop_middle links i _ Hat).
  assert (Htake : ed_Seq <$> take i links = seqZ 1 (er_seq r - 1)).
  { rewrite fmap_take, Hnum, take_seqZ by lia. f_equal. lia. }
  assert (Hold : forall l, l ∈ take i links -> l ∈ links_of db id).
  { intros l Hl. eapply (tampered_link db id k r r'); [done..| |].
    - apply list_elem_of_lookup in Hl as [j [Hj _]%lookup_take_Some]. by eapply list_elem_of_lookup_2.
    - apply (list_elem_of_fmap_2 ed_Seq) in Hl. rewrite Htake in Hl. apply elem_of_seqZ in Hl. lia. }
  destruct (link_facts db id n Hd Hh l0 Hl0) as ([dg Hdg] & Hrec & Hfirst). simpl in Hdg, Hrec, Hfirst.
  replace (er_seq r) with (ed_Seq l1) by done. apply verify_links_tampered.
  - by eapply (history_chain db id n).
  - simpl. rewrite T4, Hdg. by eexists.
  - simpl. rewrite T3. destruct (last (take i links)) as [l|] eqn:El.
    + change (er_prev_digest r) with (ed_PrevDigest l0). rewrite (link_before db id n Hh l0 l Hl0).
      * apply bytes_Equal_refl.
      * apply Hold. apply last_Some in El as [? ->]. apply elem_of_app. right. apply list_elem_of_here.
      * rewrite (numbered_last _ _ _ Htake El). simpl. lia.
    + apply last_None in El. rewrite El in Htake. simpl in Htake. symmetry in Htake. apply seqZ_nil_inv in Htake.
      rewrite Hfirst; [done|lia].
  - simpl. rewrite T4, Hdg, T3. rewrite Hdg in Hrec. unfold bytes_Equal. apply bool_decide_eq_false. simpl. congruence.
Qed.

End Tables.
