(* ===== verification/Calendar.v ===== *)
(** Business-calendar deadlines ([calendar/calendar.go]): civil dates, the walk of
    [BusinessDays] over them, and the [Rules] resolver.

    A time zone is what the walk asks of [*time.Location]: the civil date of an
    instant and the instant a civil date starts ([time.Date] at 00:00).  The context
    is asked once per iteration and answers its error.  [time.Date]'s normalization
    of a day out of range is the proleptic Gregorian calendar. *)

From stdpp Require Import base gmap list strings.
From Stdlib Require Import ZArith Lia.
From S2P Require Import Prelude GoStrings Errors Model Repo Ports.

Open Scope Z_scope.

Record Date := mkDate { Year : Z; Month : Z; Day : Z }.

#[export] Instance Date_eq_dec : EqDecision Date.
Proof. solve_decision. Defined.

(** ** Civil dates and day numbers (1970-01-01 is day 0) *)

Definition days_of (d : Date) : Z :=
  let y := if Month d <=? 2 then Year d - 1 else Year d in
  let era := y / 400 in
  let yoe := y mod 400 in
  let mp := if 2 <? Month d then Month d - 3 else Month d + 9 in
  let doy := (153 * mp + 2) / 5 + Day d - 1 in
  let doe := yoe * 365 + yoe / 4 - yoe / 100 + doy in
  era * 146097 + doe - 719468.

(** Year of the era, day of the year and month (March is 0) of a day of the era. *)
Definition year_of_era (doe : Z) : Z :=
  (doe - doe / 1460 + doe / 36524 - doe / 146096) / 365.
Definition day_of_year (doe : Z) : Z :=
  let yoe := year_of_era doe in doe - (365 * yoe + yoe / 4 - yoe / 100).
Definition month_index (doy : Z) : Z := (5 * doy + 2) / 153.

Definition date_of (days : Z) : Date :=
  let z := days + 719468 in
  let era := z / 146097 in
  let doe := z mod 146097 in
  let yoe := year_of_era doe in
  let doy := day_of_year doe in
  let mp := month_index doy in
  let m := if mp <? 10 then mp + 3 else mp - 9 in
  mkDate (yoe + era * 400 + (if m <=? 2 then 1 else 0)) m (doy - (153 * mp + 2) / 5 + 1).

(** [Date.addDays]: [time.Date] with the day out of range, read back. *)
Definition addDays (d : Date) (n : Z) : Date := date_of (days_of (mkDate (Year d) (Month d) (Day d + n))).

(** [Date.weekday]: Sunday is 0; day 0 is a Thursday. *)
Definition weekday (d : Date) : Z := (days_of d + 4) mod 7.

Record Location := mkLocation { loc_date : time -> Date; loc_midnight : Date -> time }.

(** [Holidays]; [None] is a nil interface. *)
Definition Holidays : Type := option (Date -> error + bool).

Definition maxGapDays : Z := 366.

(** [isBusinessDay]. *)
Definition isBusinessDay (d : Date) (h : Holidays) : result bool :=
  if (weekday d =? 6) || (weekday d =? 0) then Ok false
  else match h with
       | None => Ok true
       | Some isHoliday => let! holiday := lift (isHoliday d) in Ok (negb holiday)
       end.

(** The loop of [BusinessDays]; [i] is the number of iterations done. *)
Fixpoint business_loop (fuel : nat) (ctxErr : Z -> option error) (h : Holidays) (n i counted gap : Z)
    (day : Date) : result Date :=
  match fuel with
  | O => Fuel
  | S fuel' =>
      if counted <? n
      then match ctxErr i with
           | Some err => Err err
           | None =>
               let day := addDays day 1 in
               let! ok := isBusinessDay day h in
               if (ok : bool) then business_loop fuel' ctxErr h n (i + 1) (counted + 1) 0 day
               else if maxGapDays <=? gap + 1
               then Err (EOther "calendar: business days: no business day")
               else business_loop fuel' ctxErr h n (i + 1) counted (gap + 1) day
           end
      else Ok day
  end.

(** Each business day is found within [maxGapDays] iterations of the one before. *)
Definition business_fuel (n : Z) : nat := S (Z.to_nat (n * maxGapDays)).

(** [BusinessDays] applied to [from]; [None] is a nil location. *)
Definition BusinessDays (n : Z) (loc : option Location) (h : Holidays) (ctxErr : Z -> option error)
    (from : time) : result time :=
  if n <? 1 then Err (EOther "calendar: business days: n must be at least 1")
  else match loc with
       | None => Err (EOther "calendar: business days: location is required")
       | Some loc =>
           let day := loc_date loc from in
           let! day := business_loop (business_fuel n) ctxErr h n 0 0 0 day in
           Ok (loc_midnight loc (addDays day 1))
       end.

(** [Rules.Due]: a rule without a function is unknown. *)
Definition Rules_Due (r : gmap string (time -> result time)) (inp : DueInput) : result time :=
  match r !! du_Rule inp with
  | None => Err (sent ErrUnknownDeadlineRule)
  | Some fn => fn (du_From inp)
  end.

(** ** Facts on dates *)

(** The fields of a day of an era are in range. *)
Lemma era_day_fields doe : 0 <= doe < 146097 ->
  0 <= year_of_era doe < 400 /\ 0 <= day_of_year doe < 366 /\ 0 <= month_index (day_of_year doe) < 12.
Proof.
  intros Hd. assert (Hy : 0 <= year_of_era doe < 400)
    by (unfold year_of_era; Z.to_euclidean_division_equations; lia).
  assert (Hdy : 0 <= day_of_year doe < 366)
    by (unfold day_of_year, year_of_era; split; Z.to_euclidean_division_equations; lia).
  split_and!; try lia; unfold month_index; Z.to_euclidean_division_equations; lia.
Qed.

(** The civil date of a day number has that day number. *)
Lemma days_of_date_of z : days_of (date_of z) = z.
Proof.
  unfold date_of, days_of. cbn [Year Month Day]. set (w := z + 719468).
  pose proof (Z.mod_pos_bound w 146097 ltac:(lia)) as Hdoe. pose proof (Z.div_mod w 146097 ltac:(lia)) as Hw.
  destruct (era_day_fields _ Hdoe) as (Hy & Hdy & Hm).
  set (doe := w mod 146097) in *. set (era := w / 146097) in *.
  assert (Edoe : doe = 365 * year_of_era doe + year_of_era doe / 4 - year_of_era doe / 100 + day_of_year doe)
    by (unfold day_of_year; lia).
  set (yoe := year_of_era doe) in *. set (doy := day_of_year doe) in *. set (mp := month_index doy) in *.
  assert (Hmp : (if 2 <? (if mp <? 10 then mp + 3 else mp - 9)
                 then (if mp <? 10 then mp + 3 else mp - 9) - 3
                 else (if mp <? 10 then mp + 3 else mp - 9) + 9) = mp).
  { destruct (Z.ltb_spec mp 10); destruct (Z.ltb_spec 2 (mp + 3)); destruct (Z.ltb_spec 2 (mp - 9)); lia. }
  assert (Hyr : (if (if mp <? 10 then mp + 3 else mp - 9) <=? 2
    then yoe + era * 400 + (if (if mp <? 10 then mp + 3 else mp - 9) <=? 2 then 1 else 0) - 1
    else yoe + era * 400 + (if (if mp <? 10 then mp + 3 else mp - 9) <=? 2 then 1 else 0)) = yoe + era * 400).
  { destruct (Z.leb_spec (if mp <? 10 then mp + 3 else mp - 9) 2); lia. }
  rewrite Hmp, Hyr.
  assert (E1 : (yoe + era * 400) / 400 = era) by (rewrite Z.div_add by lia; rewrite Z.div_small; lia).
  assert (E2 : (yoe + era * 400) mod 400 = yoe) by (rewrite Z.mod_add by lia; apply Z.mod_small; lia).
  rewrite E1, E2. unfold w in *. lia.
Qed.

Lemma days_of_shift d n : days_of (mkDate (Year d) (Month d) (Day d + n)) = days_of d + n.
Proof. unfold days_of. cbn [Year Month Day]. lia. Qed.

(** [addDays] is the addition of days. *)
Lemma days_of_addDays d n : days_of (addDays d n) = days_of d + n.
Proof. unfold addDays. by rewrite days_of_date_of, days_of_shift. Qed.

Lemma weekday_range d : 0 <= weekday d < 7.
Proof. apply Z.mod_pos_bound. lia. Qed.

Lemma weekday_addDays d n : weekday (addDays d n) = (weekday d + n) mod 7.
Proof.
  unfold weekday. rewrite days_of_addDays, Zplus_mod_idemp_l. f_equal. lia.
Qed.

Lemma addDays_addDays d m n : addDays (addDays d m) n = addDays d (m + n).
Proof. unfold addDays at 1 3. rewrite !days_of_shift, days_of_addDays. f_equal. lia. Qed.

#[local] Opaque addDays weekday days_of.

(** ** The walk *)

(** The business days among the [m] days after [start]. *)
Definition is_business (h : Holidays) (d : Date) : bool :=
  match isBusinessDay d h with Ok true => true | _ => false end.

Definition business_between (h : Holidays) (start : Date) (m : Z) : Z :=
  Z.of_nat (count (fun k => is_business h (addDays start k)) (seqZ 1 m)).

Lemma business_between_succ h start m : 0 <= m ->
  business_between h start (m + 1)
  = business_between h start m + if is_business h (addDays start (m + 1)) then 1 else 0.
Proof.
  intros Hm. unfold business_between. rewrite seqZ_app, count_app by lia.
  rewrite (seqZ_cons (1 + m) 1), (seqZ_nil (Z.succ (1 + m))) by lia.
  simpl. replace (1 + m) with (m + 1) by lia. destruct (is_business _ _); lia.
Qed.

Lemma isBusinessDay_not_Fuel d h : isBusinessDay d h <> Fuel.
Proof. unfold isBusinessDay. repeat case_match; res_total. Qed.

(** The loop stops within its fuel. *)
Lemma business_loop_fuel fuel ctx h n i counted gap day :
  0 <= gap < maxGapDays -> (n - counted) * maxGapDays - gap < Z.of_nat fuel -> (0 < fuel)%nat ->
  business_loop fuel ctx h n i counted gap day <> Fuel.
Proof.
  revert i counted gap day. induction fuel as [|fuel IH]; intros i counted gap day Hg Hf H0; [lia|]. simpl.
  destruct (Z.ltb_spec counted n); [|done]. case_match; [done|].
  apply res_bind_not_Fuel; [apply isBusinessDay_not_Fuel|]. intros [] _.
  - apply IH; unfold maxGapDays in *; lia.
  - destruct (Z.leb_spec maxGapDays (gap + 1)); [done|]. apply IH; unfold maxGapDays in *; lia.
Qed.

(** It stops at the business day it was asked for. *)
Lemma business_loop_sound fuel ctx h n i counted gap day day' start m :
  business_loop fuel ctx h n i counted gap day = Ok day' ->
  0 <= m -> (forall k, addDays day k = addDays start (m + k)) ->
  counted = business_between h start m -> counted <= n ->
  exists m', m <= m' /\ (forall k, addDays day' k = addDays start (m' + k))
    /\ business_between h start m' = n
    /\ (counted < n -> m < m' /\ is_business h (addDays start m') = true).
Proof.
  revert i counted gap day m. induction fuel as [|fuel IH]; intros i counted gap day m Hl Hm Hd Hc Hn;
    simpl in Hl; [done|].
  destruct (Z.ltb_spec counted n) as [Hlt|Hge].
  2: { injection Hl as <-. exists m. split_and!; [lia|done|lia|lia]. }
  case_match; [done|]. apply res_bind_Ok in Hl as (ok & Hok & Hl). rewrite (Hd 1) in Hok, Hl.
  assert (Hd' : forall k, addDays (addDays start (m + 1)) k = addDays start (m + 1 + k))
    by (intros k; apply addDays_addDays).
  pose proof (business_between_succ h start m Hm) as Hs. unfold is_business in Hs. rewrite Hok in Hs.
  destruct ok; [|destruct (maxGapDays <=? gap + 1); [done|]].
  - destruct (IH _ _ _ _ (m + 1) Hl) as (m' & H1 & H2 & H3 & H4); [lia|done|lia|lia|].
    exists m'. split_and!; [lia|done..|]. intros _. split; [lia|].
    destruct (Z.lt_ge_cases (counted + 1) n) as [?|?]; [by apply H4|].
    assert (m' = m + 1 \/ m + 1 < m') as [->|Hgt] by lia; [unfold is_business; by rewrite Hok|].
    destruct fuel; [done|]. simpl in Hl. destruct (Z.ltb_spec (counted + 1) n); [lia|].
    injection Hl as <-. specialize (H2 0). rewrite addDays_addDays in H2.
    apply (f_equal days_of) in H2. rewrite !days_of_addDays in H2. lia.
  - destruct (IH _ _ _ _ (m + 1) Hl) as (m' & H1 & H2 & H3 & H4); [lia|done|lia|lia|].
    exists m'. split_and!; [lia|done..|]. intros ?. destruct H4; [done|]. split; [lia | done].
Qed.

(** With no failing callback and a business day in every year, it succeeds. *)
Lemma business_loop_succeeds fuel h n i counted gap day :
  (forall d, isBusinessDay d h = Ok true \/ isBusinessDay d h = Ok false) ->
  (forall d, exists k, 1 <= k <= maxGapDays /\ isBusinessDay (addDays d k) h = Ok true) ->
  0 <= gap < maxGapDays -> (n - counted) * maxGapDays - gap < Z.of_nat fuel -> (0 < fuel)%nat ->
  (exists k, 1 <= k <= maxGapDays - gap /\ isBusinessDay (addDays day k) h = Ok true) ->
  exists day', business_loop fuel (fun _ => None) h n i counted gap day = Ok day'.
Proof.
  intros Hpure Hyear. revert i counted gap day.
  induction fuel as [|fuel IH]; intros i counted gap day Hg Hf H0 (k & Hk & Hb); [lia|]. simpl.
  destruct (Z.ltb_spec counted n); [|eauto].
  destruct (Hpure (addDays day 1)) as [E|E]; rewrite E; simpl.
  - apply IH; [unfold maxGapDays in *; lia..|]. destruct (Hyear (addDays day 1)) as (k' & Hk' & Hb').
    exists k'. split; [lia | done].
  - assert (k <> 1) by (intros ->; congruence).
    destruct (Z.leb_spec maxGapDays (gap + 1)); [lia|]. apply IH; [unfold maxGapDays in *; lia..|].
    exists (k - 1). split; [lia|]. rewrite addDays_addDays. by replace (1 + (k - 1)) with k by lia.
Qed.

(** One of three days in a row is a weekday. *)
Lemma weekday_soon d : exists k, 1 <= k <= maxGapDays /\ isBusinessDay (addDays d k) None = Ok true.
Proof.
  pose proof (weekday_range d) as Hw.
  assert (Hin : forall k, 1 <= k <= 3 -> (weekday d + k) mod 7 <> 6 -> (weekday d + k) mod 7 <> 0 ->
    exists k, 1 <= k <= maxGapDays /\ isBusinessDay (addDays d k) None = Ok true).
  { intros k Hk H6 H0. exists k. split; [unfold maxGapDays; lia|]. unfold isBusinessDay. rewrite weekday_addDays.
    rewrite (proj2 (Z.eqb_neq _ 6)), (proj2 (Z.eqb_neq _ 0)) by done. done. }
  destruct (Z.le_gt_cases (weekday d) 4); [apply (Hin 1); rewrite ?Z.mod_small; lia|].
  destruct (Z.eq_dec (weekday d) 5) as [E|]; [apply (Hin 3); rewrite ?E; done|].
  apply (Hin 2); replace (weekday d) with 6 by lia; done.
Qed.
