(* ===== verification/Scenario.v ===== *)
(** A concrete installation: a review process with a parallel block, a join policy
    and a decision, an engine over the PostgreSQL tables, and a run of it.  The
    theorems of the other files are applied to it. *)

From stdpp Require Import base gmap fin_maps sets list strings.
From Stdlib Require Import ZArith Lia.
From S2P Require Import Prelude GoStrings Errors Model Definitions JoinPolicies Repo Ports Events.
From S2P Require Import Run Validate Engine EngineInv System Postgres PostgresLaws.

Open Scope string_scope.
Open Scope list_scope.
Open Scope Z_scope.

(** ** The process *)

Definition task (id : string) (start terminal : bool) (position : string) (deadline : duration)
    (onExpire : string) : Node :=
  mkNode id start terminal (ByPosition position) deadline "" NodeTask [] "" onExpire JoinNone "".

Definition gateway (id : string) (k : NodeKind) (join : string) (policy : JoinPolicy) : Node :=
  mkNode id false false zero_Eligibility 0 "" k [] join "" policy "".

Definition arc (from to action guard : string) (comment : CommentPolicy) (return_ : bool)
    (outcome : Outcome) : Transition :=
  mkTransition from to action guard comment return_ [] outcome.

Definition review : WDefinition :=
  mkDefinition "review" 1
    [ task "draft" true false "clerk" 3600 "escalate";
      gateway "fork" NodeParallel "merge" JoinNone;
      task "legal" false false "lawyer" 0 "";
      task "finance" false false "accountant" 0 "";
      gateway "merge" NodeJoin "" JoinAllApprove;
      gateway "decide" NodeDecision "" JoinNone;
      task "done" false true "" 0 "" ]
    [ arc "draft" "fork" "submit" "" CommentOptional false OutcomeNone;
      arc "draft" "draft" "escalate" "" CommentOptional false OutcomeNone;
      arc "fork" "legal" "to_legal" "" CommentNone false OutcomeNone;
      arc "fork" "finance" "to_finance" "" CommentNone false OutcomeNone;
      arc "legal" "merge" "approve" "" CommentOptional false OutcomeApproved;
      arc "legal" "merge" "reject" "" CommentRequired false OutcomeRejected;
      arc "finance" "merge" "approve" "" CommentOptional false OutcomeApproved;
      arc "finance" "merge" "reject" "" CommentRequired false OutcomeRejected;
      arc "merge" "decide" "joined" "" CommentNone false OutcomeNone;
      arc "decide" "draft" "rework" "rejected" CommentNone false OutcomeNone;
      arc "decide" "done" "finish" "" CommentNone false OutcomeNone ].

Example review_valid : Validate review = [].
Proof. vm_compute. reflexivity. Qed.

(** ** The installation *)

(** A stand-in for SHA-256 that tells rows apart by key, Seq and comment. *)
Definition toy_digest (prev : bytes) (id : uuid) (r : event_row) : list N :=
  id :: Z.to_N (er_seq r) :: N.of_nat (String.length (er_comment r)) :: default [] prev.

#[export] Instance PG : Repository Tables := Postgres toy_digest.
#[export] Instance PG_laws : RepositoryLaws Tables := Postgres_laws toy_digest.

Definition ports : Engine Tables :=
  mkEngine Tables None None None None ∅ ∅ ∅ None.

Definition office : Engine Tables :=
  match RegisterGuard (New ports [review]) "rejected" (Some (fun _ c => JoinRejected c)) with
  | Ok e => e
  | _ => ports
  end.

(** Call [i] reads the clock at [1000 * i] and draws uuids from its own block. *)
Definition at_call (i : N) : Ctx :=
  mkCtx (1000 * Z.of_N i) (fun n => (1000000 * i + N.of_nat n)%N) "request".

Definition clerk : Actor := human "ana".
Definition lawyer : Actor := human "luis".
Definition accountant : Actor := human "eva".

Definition the_case : uuid := 1000000%N.
Definition db0 : Tables := empty_tables 0.

Definition opening : OpenInput := mkOpenInput "review" 0 "permits" "P-1" "north" "" clerk "".

Definition moving (token : uuid) (actor : Actor) (action comment : string) : MoveInput :=
  mkMoveInput the_case token action actor "" comment None None.

Definition after (e : Engine Tables) (cx : Ctx) (c : call) (db : Tables) : Tables := fst (perform e cx c db).

Definition db1 : Tables := Eval vm_compute in after office (at_call 1) (COpen opening) db0.
Definition db2 : Tables := Eval vm_compute in after office (at_call 2) (CMove (moving 0%N clerk "submit" "")) db1.

Definition legal_token : uuid := 2000001%N.
Definition finance_token : uuid := 2000002%N.

Definition db3 : Tables :=
  Eval vm_compute in after office (at_call 3) (CMove (moving legal_token lawyer "approve" "")) db2.
Definition db4 : Tables :=
  Eval vm_compute in after office (at_call 4) (CMove (moving finance_token accountant "approve" "fine")) db3.

(** The stored case of a database of the scenario. *)
Definition case_in (db : Tables) : Case :=
  match v_case (view db the_case) with Some c => c | None => mkCase 0%N "" 0 "" "" "" "" "" StatusOpen "" 0 None None 0 0 None end.

(** The answer of a call, [def] when it has none. *)
Definition result_of {A} (def : A) (r : result A) : A := match r with Ok a => a | _ => def end.

(** ** The run is reachable *)

Definition ids_below (bound : uuid) (db : Tables) : bool :=
  forallb (fun kr => (kr.1 <? bound)%N) (map_to_list (workflow_token db))
  && forallb (fun kr => (kr.1 <? bound)%N) (map_to_list (workflow_scope db)).

Lemma forallb_below {R A} (bound : uuid) (m : gmap uuid R) case_of (scan : uuid -> R -> A) (key : A -> uuid) id u :
  (forall k r, key (scan k r) = k) ->
  forallb (fun kr => (kr.1 <? bound)%N) (map_to_list m) = true -> (bound <= u)%N ->
  u ∉ key <$> rows_of case_of scan m id.
Proof.
  intros Hk Hf Hu Hin. apply (key_of_rows_of case_of scan key Hk) in Hin as (r & Hr & _).
  rewrite forallb_forall in Hf. specialize (Hf (u, r)). simpl in Hf.
  rewrite N.ltb_lt in Hf. enough (u < bound)%N by lia. apply Hf.
  by apply list_elem_of_In, elem_of_map_to_list.
Qed.

Lemma fresh_at i db : ids_below (1000000 * i)%N db = true -> fresh_uuids (at_call i) db.
Proof.
  intros [H1 H2]%andb_true_iff. split; [simpl; intros m n; lia|]. intros id n. simpl.
  split; eapply forallb_below; try done; simpl; lia.
Qed.

Lemma reach_next e i c db db' :
  reachable e db -> ids_below (1000000 * i)%N db = true -> perform e (at_call i) c db = (db', Ok tt) ->
  reachable e db'.
Proof. intros Hr Hi Hp. exact (reach_call e db _ (at_call i) c Hr (fresh_at i db Hi) Hp). Qed.

Lemma db0_empty : no_cases db0.
Proof. intros id. reflexivity. Qed.

Lemma office_registries :
  e_definitions office = {[ "review@1" := review ]} /\ e_latest office = {[ "review" := review ]}.
Proof. split; vm_compute; reflexivity. Qed.

Lemma office_ok : engine_ok office.
Proof.
  destruct office_registries as [Ed El]. constructor; rewrite ?Ed, ?El.
  - intros k d [<- <-]%lookup_singleton_Some. split; [reflexivity | apply review_valid].
  - intros n d [<- <-]%lookup_singleton_Some. split; reflexivity.
Qed.

Lemma office_no_sink : e_effectSink office = None.
Proof. vm_cast_no_check (@eq_refl (option (EffectSink Tables)) None). Qed.

Lemma office_sink : sink_apart office.
Proof. intros sink d c evs db db' Hs. by rewrite office_no_sink in Hs. Qed.

Lemma reach0 : reachable office db0.
Proof. apply reach_start, db0_empty. Qed.

Lemma call1 : perform office (at_call 1) (COpen opening) db0 = (db1, Ok tt).
Proof. vm_cast_no_check (eq_refl (db1, Ok (E := error) tt)). Qed.

Lemma call2 : perform office (at_call 2) (CMove (moving 0%N clerk "submit" "")) db1 = (db2, Ok tt).
Proof. vm_cast_no_check (eq_refl (db2, Ok (E := error) tt)). Qed.

Lemma call3 :
  perform office (at_call 3) (CMove (moving legal_token lawyer "approve" "")) db2 = (db3, Ok tt).
Proof. vm_cast_no_check (eq_refl (db3, Ok (E := error) tt)). Qed.

Lemma call4 :
  perform office (at_call 4) (CMove (moving finance_token accountant "approve" "fine")) db3
  = (db4, Ok tt).
Proof. vm_cast_no_check (eq_refl (db4, Ok (E := error) tt)). Qed.

Lemma reach1 : reachable office db1.
Proof. exact (reach_next office 1 _ db0 db1 reach0 eq_refl call1). Qed.

Lemma reach2 : reachable office db2.
Proof. exact (reach_next office 2 _ db1 db2 reach1 eq_refl call2). Qed.

Lemma reach3 : reachable office db3.
Proof. exact (reach_next office 3 _ db2 db3 reach2 eq_refl call3). Qed.

Lemma reach4 : reachable office db4.
Proof. exact (reach_next office 4 _ db3 db4 reach3 eq_refl call4). Qed.
