(* ===== verification/CaseTheorems.v ===== *)
(** The theorems on stored cases: what holds of every case of a database the engine
    has written, its history and hash chain, the protection against lost updates, and
    what opening, moving and recording a failure store.  Each theorem is applied to
    the run of [Scenario.v] by the witness after it. *)

From stdpp Require Import base gmap fin_maps sets list strings.
From Stdlib Require Import ZArith Lia.
From S2P Require Import Prelude GoStrings Errors Model Definitions JoinPolicies Repo Ports Events.
From S2P Require Import Run Validate Engine RunFrame CaseInv RunInv EngineInv Persist Plans.
From S2P Require Import ValidateFacts System Calls Postgres PostgresLaws Chain Scenario.

Open Scope string_scope.
Open Scope list_scope.
Open Scope Z_scope.

(** ** Every stored case *)

Section Stored.
Context {DB : Type} `{RepositoryLaws DB}.
Implicit Types (e : Engine DB) (cx : Ctx) (db : DB).

(** C1: in every database the engine's calls reach from an empty one, a stored case
    runs a registered, valid definition and keeps the structure of its tokens and
    scopes ([case_inv]): identifiers are unique, the root scope carries the case's
    identifier and is open exactly while the case is, every other scope has an older
    parent that is open while it is, every live token stands in an open scope and a
    waiting one at that scope's join, every open scope accounts for all its branches
    and has one that still works, and an active token rests on a task node. *)
Theorem reachable_sound e db id c :
  engine_ok e -> sink_apart e -> reachable e db -> v_case (view db id) = Some c ->
  c_ID c = id
  /\ exists d, resolveDefinition e (c_Definition c) (c_Version c) = Ok d /\ validated d
               /\ case_inv d c (v_tokens (view db id)) (v_scopes (view db id)).
Proof.
  intros He Hs Hr Hc. pose proof (reachable_ok e db He Hs Hr id) as Hok. unfold stored_ok in Hok.
  rewrite Hc in Hok. destruct Hok as (Eid & _ & (d & Hd & HI) & _). split; [done|]. exists d.
  split_and!; [done| |done]. by apply (resolveDefinition_ok e _ _ d He) in Hd as (HV & _).
Qed.

(** C2: an open case is never stuck without work: it has an active token resting on a
    task node that is not terminal, and that node has a transition to take. *)
Theorem open_case_has_work e db id c :
  engine_ok e -> sink_apart e -> reachable e db -> v_case (view db id) = Some c ->
  c_Status c = StatusOpen ->
  exists d t n, resolveDefinition e (c_Definition c) (c_Version c) = Ok d
    /\ t ∈ v_tokens (view db id) /\ t_Status t = TokenActive
    /\ Definition_Node d (t_Node t) = Some n /\ IsAutomatic (n_Kind n) = false
    /\ n_Terminal n = false /\ TransitionsFrom d (t_Node t) <> [].
Proof.
  intros He Hs Hr Hc Ho. pose proof (reachable_ok e db He Hs Hr id) as Hok. unfold stored_ok in Hok.
  rewrite Hc in Hok. destruct Hok as (_ & _ & (d & Hd & HI) & _). unfold case_inv in HI.
  rewrite Ho, bool_decide_true in HI by done. destruct (Inv_active HI) as (t & Ht & Ha & n & Hn & Hk & Hte).
  destruct (resolveDefinition_ok e _ _ d He Hd) as (HV & _). exists d, t, n. split_and!; try done.
  apply Definition_Node_Some in Hn as [Hin En]. pose proof (vd_deadends d HV n Hin) as Hv.
  unfold dead_end_violations in Hv. rewrite Hte, bool_decide_false in Hv by (by apply (valid_id HV)).
  apply when_nil, bool_decide_eq_false in Hv. intros E. apply Hv. unfold outgoingByNode.
  rewrite En, E. by case_match.
Qed.

(** a case that closed or was cancelled is over: no token is live, no scope is
    open, and its row shows neither an assignee nor a deadline. *)
Theorem ended_case_at_rest e db id c :
  engine_ok e -> sink_apart e -> reachable e db -> v_case (view db id) = Some c ->
  c_Status c <> StatusOpen ->
  (forall t, t ∈ v_tokens (view db id) -> Live (t_Status t) = false)
  /\ (forall s, s ∈ v_scopes (view db id) -> s_Status s <> ScopeOpen)
  /\ c_AssignedTo c = "" /\ c_DeadlineAt c = None.
Proof.
  intros He Hs Hr Hc Ho. pose proof (reachable_ok e db He Hs Hr id) as Hok. unfold stored_ok in Hok.
  rewrite Hc in Hok. destruct Hok as (_ & _ & (d & Hd & HI) & Hp & _). unfold case_inv in HI.
  unfold projects in Hp. rewrite bool_decide_false in HI, Hp by done. split_and!; [| |apply Hp..].
  - intros t Ht. by eapply Inv_closed_tokens.
  - intros s Hin E. pose proof (Inv_closed_scopes s HI Hin) as Hso. unfold scope_open in Hso.
    by rewrite E in Hso.
Qed.

(** C3: the history of a case has no gaps: [History] answers the events in order, and
    their Seqs are exactly 1, 2, ..., up to the LastSeq of the case. *)
Theorem history_has_no_gaps e db id c evs :
  engine_ok e -> sink_apart e -> reachable e db -> v_case (view db id) = Some c ->
  History db id = Ok evs -> ev_Seq <$> evs = seqZ 1 (c_LastSeq c).
Proof.
  intros He Hs Hr Hc Hh. pose proof (reachable_ok e db He Hs Hr id) as Hok. unfold stored_ok in Hok.
  rewrite Hc in Hok. destruct Hok as (_ & _ & _ & _ & (_ & Hseq & _)).
  unfold History in Hh. res_inv. unfold listEvents in *. res_inv. case_match; [done|]. res_inv.
  apply sort_by_seqs. rewrite <- list_fmap_compose.
  match goal with Hl : repo_ListEvents _ _ = inr ?l |- _ => apply law_list_events in Hl; rewrite <- Hseq, <- Hl end.
  done.
Qed.

(** the row of a case projects its tokens: with one active token it shows that
    token's node and assignee, with several it shows none, and its deadline is the
    earliest among the active tokens. *)
Theorem case_row_projects e db id c :
  engine_ok e -> sink_apart e -> reachable e db -> repo_GetByID db id = inr c ->
  projects c (v_tokens (view db id)).
Proof.
  intros He Hs Hr Hg. apply law_get in Hg as (Hc & _).
  pose proof (reachable_ok e db He Hs Hr id) as Hok. unfold stored_ok in Hok. rewrite Hc in Hok.
  by destruct Hok as (_ & _ & _ & Hp & _).
Qed.

(** C6: no lost update: two moves planned from the same database on one case cannot
    both be stored.  After the first commits, the second fails with [ErrConflict] and
    leaves every case as the first left it. *)
Theorem concurrent_moves_conflict e cx1 cx2 db i1 i2 d1 r1 d2 r2 db1 res1 :
  engine_ok e -> sink_apart e -> reachable e db -> fresh_uuids cx1 db ->
  mi_CaseID i2 = mi_CaseID i1 ->
  move_plan e cx1 db i1 = Ok (d1, r1) -> move_plan e cx2 db i2 = Ok (d2, r2) ->
  commit_dispatch e cx1 d1 r1 db = (db1, Ok res1) ->
  exists db2 err, commit_dispatch e cx2 d2 r2 db1 = (db2, Err err)
    /\ errors_Is err ErrConflict = true /\ untouched view db1 db2.
Proof.
  intros He Hs Hr Hf Ei H1 H2 Hc. pose proof (reachable_ok e db He Hs Hr) as Ha.
  unfold commit_dispatch in Hc. apply w_bind_Ok in Hc as (dba & [c1 evs] & Hp & Hc).
  apply w_bind_Ok in Hc as (dbb & [] & Hd & Hc). injection Hc as <- _.
  apply (dispatch_untouched _ _ _ _ _ _ Hs) in Hd.
  pose proof (sound_of_ok e cx1 db (mi_CaseID i1) He Ha Hf) as Hsound.
  destruct (second_plan_conflicts e cx1 cx2 db (mi_CaseID i1) r1 r2 dba c1 evs dbb) as (db2 & err & Hp2 & Hi & Hu);
    eauto using move_plan_plans, move_plan_inv.
  { rewrite <- Ei. by eapply move_plan_plans. }
  exists db2, err. split_and!; [by apply commit_dispatch_conflict|done..].
Qed.


(** The case and revision a call expects. *)
Definition at_revision (id : uuid) (rev : option Z) : option (uuid * Z) :=
  match rev with Some rev => Some (id, rev) | None => None end.

Definition expects (c : call) : option (uuid * Z) :=
  match c with
  | CMove i => at_revision (mi_CaseID i) (mi_ExpectedRevision i)
  | CClaim i => at_revision (ci_CaseID i) (ci_ExpectedRevision i)
  | CRelease i => at_revision (ri_CaseID i) (ri_ExpectedRevision i)
  | CReassign i => at_revision (rai_CaseID i) (rai_ExpectedRevision i)
  | CSetDeadline i => at_revision (sdi_CaseID i) (sdi_ExpectedRevision i)
  | CCancel i => at_revision (cai_CaseID i) (cai_ExpectedRevision i)
  | _ => None
  end.

Lemma at_revision_Some id rev id' rev' :
  at_revision id rev = Some (id', rev') -> id = id' /\ rev = Some rev'.
Proof. destruct rev; simpl; [|done]. by intros [= -> ->]. Qed.

(** A call that fails and leaves the database as it was. *)
Definition refused (m : writer DB unit) (db : DB) : Prop := fst (m db) = db /\ snd (m db) <> Ok tt.

Lemma planned_rejected {A B} (plan : DB -> result A) (k : A -> writer DB B) db :
  (forall a, plan db <> Ok a) -> refused (discard (fun db => (do! a := w_res (plan db) in k a) db)) db.
Proof.
  intros Hp. unfold refused, discard, w_bind, w_res. destruct (plan db) eqn:E; simpl; [|done..]. by destruct (Hp a).
Qed.

Lemma openCase_stale db id rev s cc c :
  repo_GetByID db id = inr cc -> rev <> c_Revision cc -> openCase db id (Some rev) s <> Ok c.
Proof. intros Hg Hr (Hg' & _ & Hrev)%openCase_Ok. specialize (Hrev rev eq_refl). congruence. Qed.

(** a call that names the revision it expects is refused when the case is at
    another one, before it writes anything. *)
Theorem stale_revision_refused e cx c db id rev cc :
  expects c = Some (id, rev) -> repo_GetByID db id = inr cc -> rev <> c_Revision cc ->
  refused (perform e cx c) db.
Proof.
  intros Hx Hg Hr. destruct c as [i|i|i|i|i|i|i|i|i|i|u]; unfold expects in Hx;
    try discriminate Hx; apply at_revision_Some in Hx as [<- Hrev].
  - apply (planned_rejected (fun db => move_plan e cx db i)). intros a Hp. unfold move_plan in Hp. rewrite Hrev in Hp.
    res_inv. by eapply openCase_stale.
  - apply (planned_rejected (fun db => claim_plan e cx db i)). intros a Hp. unfold claim_plan in Hp. rewrite Hrev in Hp.
    res_inv. by eapply openCase_stale.
  - apply (planned_rejected (fun db => release_plan e cx db i)). intros a Hp. unfold release_plan in Hp. rewrite Hrev in Hp.
    res_inv. by eapply openCase_stale.
  - apply (planned_rejected (fun db => reassign_plan e cx db i)). intros a Hp. unfold reassign_plan in Hp. rewrite Hrev in Hp.
    res_inv. by eapply openCase_stale.
  - apply (planned_rejected (fun db => set_deadline_plan e cx db i)). intros a Hp. unfold set_deadline_plan in Hp. rewrite Hrev in Hp.
    res_inv. by eapply openCase_stale.
  - apply (planned_rejected (fun db => cancel_plan e cx db i)). intros a Hp. unfold cancel_plan in Hp. rewrite Hrev in Hp.
    res_inv. by eapply openCase_stale.
Qed.

(** C8: a successful [MoveDetailed] stores exactly the plan it computed: the case's
    row is the projection of the planned run at the next revision, its tokens and
    scopes are the run's, the run's events are appended in order, each chained to the
    one before, and no other case changes. *)
Theorem move_stores_plan e cx db inp db' res :
  engine_ok e -> sink_apart e -> reachable e db -> fresh_uuids cx db ->
  MoveDetailed e cx inp db = (db', Ok res) ->
  exists d r c, move_plan e cx db inp = Ok (d, r) /\ c_ID c = mi_CaseID inp
    /\ stored_as db db' r c (mr_Case res) /\ ev_Seq <$> mr_Events res = ev_Seq <$> r_events r
    /\ mr_Joined res = r_joined r.
Proof.
  intros He Hs Hr Hf Hm. pose proof (reachable_ok e db He Hs Hr) as Ha.
  unfold MoveDetailed in Hm. apply w_bind_Ok in Hm as (db0 & [d r] & [-> Hp]%w_res_Ok & Hm).
  unfold commit_dispatch in Hm. apply w_bind_Ok in Hm as (dba & [c1 evs] & Hpers & Hm).
  apply w_bind_Ok in Hm as (dbb & [] & Hd & Hm). injection Hm as <- <-.
  apply (dispatch_untouched _ _ _ _ _ _ Hs) in Hd.
  pose proof (sound_of_ok e cx db (mi_CaseID inp) He Ha Hf) as Hsound.
  pose proof (move_plan_plans _ _ _ _ _ _ Hp) as Hpl. pose proof (move_plan_inv _ _ _ _ _ _ Hsound Hp) as HR.
  destruct (persist_facts e cx db (mi_CaseID inp) r dba c1 evs Ha Hpl HR Hpers) as (c & Ec & [B1 B2 B3 B4 B5 B6 B7]).
  exists d, r, c. split_and!; [done..| | |done].
  - constructor; simpl; rewrite ?Hd; try done. intros id Hid. by rewrite Hd, B7.
  - simpl. by eapply persist_seqs.
Qed.

(** [RecordFailure] takes the next Seq and appends one event, and changes nothing
    else of the case: state, revision, tokens and scopes stay.  A call planned before
    it then conflicts, so the record is never overwritten. *)
Theorem record_failure_only_appends e cx db inp db' ev :
  RecordFailure e cx inp db = (db', Ok ev) ->
  exists c st, v_case (view db (fi_CaseID inp)) = Some c
    /\ v_case (view db' (fi_CaseID inp)) = Some (case_with_lastseq c (c_LastSeq c + 1))
    /\ v_tokens (view db' (fi_CaseID inp)) = v_tokens (view db (fi_CaseID inp))
    /\ v_scopes (view db' (fi_CaseID inp)) = v_scopes (view db (fi_CaseID inp))
    /\ v_events (view db' (fi_CaseID inp)) ≡ₚ st :: v_events (view db (fi_CaseID inp))
    /\ ev_Seq st = c_LastSeq c + 1 /\ ev_Seq ev = c_LastSeq c + 1
    /\ ev_Kind st = (if bool_decide (fi_Kind inp = FailureNoRoute) then EventNoRoute else EventFailed)
    /\ same_except view db db' (fi_CaseID inp)
    /\ forall cx' r, plans e db (fi_CaseID inp) r ->
         exists db2 err, persist e cx' r db' = (db2, Err err) /\ errors_Is err ErrConflict = true.
Proof.
  intros Hr. unfold RecordFailure in Hr.
  apply w_bind_Ok in Hr as (db0 & [[actor detail] tok] & [-> Hp]%w_res_Ok & Hr).
  apply w_bind_Ok in Hr as (db1 & c1 & H1 & Hr). apply w_lift_Ok, law_advance in H1 as (c & Hc & Eid & -> & Hv & Hx).
  apply append_event_recorded in Hr. simpl in Hr. rewrite Eid in Hr.
  destruct Hr as (_ & _ & Eseq & (st & Hrec & _ & G1) & G2 & G3 & G4 & G5). exists c, st.
  assert (Hcase : v_case (view db' (fi_CaseID inp)) = Some (case_with_lastseq c (c_LastSeq c + 1)))
    by (rewrite G2, Hv; done).
  pose proof (failure_recorded_seq _ _ _ _ _ _ _ _ Hrec) as Es.
  split_and!; [done|done|by rewrite G4, Hv|by rewrite G3, Hv|by rewrite G1, Hv|done| | | |].
  - rewrite Eseq. unfold failure_event. by destruct tok.
  - destruct Hrec as (_ & _ & _ & -> & _). unfold failure_event. by destruct tok.
  - intros id Hid. by rewrite G5, Hx.
  - intros cx' r Hpl. destruct (plan_versions e db _ r c Hpl Hc) as (E1 & _ & E3).
    destruct (persist_conflict e cx' r db' (case_with_lastseq c (c_LastSeq c + 1))) as (db2 & err & ? & ? & _).
    + by rewrite E1.
    + right. rewrite E3. simpl. lia.
    + eauto.
Qed.

(** [OpenDetailed] stores a new open case at the definition's start node, at
    revision 0 and Seq 1, with its root scope and one active root token of the case's
    own identifier, and the opened event. *)
Theorem open_stores_case e cx db inp db' res :
  engine_ok e -> sink_apart e -> reachable e db -> OpenDetailed e cx inp db = (db', Ok res) ->
  let c := mr_Case res in
  exists d start root st,
    resolveDefinition e (oi_Definition inp) (oi_Version inp) = Ok d /\ StartNode d = Some start
    /\ v_case (view db (c_ID c)) = None
    /\ v_case (view db' (c_ID c)) = Some c
    /\ c_Status c = StatusOpen /\ c_State c = n_ID start /\ c_Revision c = 0 /\ c_LastSeq c = 1
    /\ v_scopes (view db' (c_ID c)) ≡ₚ [root_scope c]
    /\ v_tokens (view db' (c_ID c)) ≡ₚ [root] /\ t_ID root = c_ID c /\ t_Node root = n_ID start
    /\ t_Status root = TokenActive
    /\ v_events (view db' (c_ID c)) ≡ₚ [st] /\ ev_Kind st = EventOpened /\ ev_Seq st = 1
    /\ same_except view db db' (c_ID c).
Proof.
  intros He Hs Hr Ho. pose proof (reachable_ok e db He Hs Hr) as Ha. unfold OpenDetailed in Ho.
  apply w_bind_Ok in Ho as (db0 & [[[[actor d] start] c] root] & [-> Hplan]%w_res_Ok & Ho).
  apply open_plan_parts in Hplan as
    (Hd & Hst & E1 & E2 & E3 & E4 & E5 & E6 & E7 & E8 & T1 & T2 & T3 & T4 & T5 & T6 & T7).
  apply w_bind_Ok in Ho as (db1 & c1 & H1 & Ho). apply w_lift_Ok, law_create in H1 as (Hnone & -> & Hv & Hx1).
  specialize (Hv E8). set (c1 := case_with_revision c 0) in *. assert (Ecid : c_ID c1 = c_ID c) by done.
  apply w_bind_Ok in Ho as (db2 & [] & H2 & Ho). apply w_lift_Ok, law_create_scope in H2. simpl in H2.
  destruct H2 as (_ & A1 & A2 & A3 & A4 & A5).
  apply w_bind_Ok in Ho as (db3 & [] & H3 & Ho). apply w_lift_Ok, law_create_token in H3.
  rewrite T2 in H3. destruct H3 as (_ & B1 & B2 & B3 & B4 & B5).
  apply w_bind_Ok in Ho as (db4 & evt & H4 & Ho). apply append_event_recorded in H4. rewrite Ecid in H4.
  destruct H4 as (_ & _ & _ & (st & Hrec & _ & G1) & G2 & G3 & G4 & G5).
  apply w_bind_Ok in Ho as (db5 & [] & H5 & Ho). injection Ho as <- <-.
  apply (dispatch_untouched _ _ _ _ _ _ Hs) in H5. cbn [mr_Case]. cbv zeta. rewrite Ecid.
  pose proof (Ha (c_ID c)) as Hold. unfold stored_ok in Hold. rewrite Hnone in Hold.
  destruct Hold as (O1 & O2 & O3). exists d, start, root, st. rewrite H5.
  destruct Hrec as (_ & _ & R1 & R2 & _).
  assert (Hcase : v_case (view db4 (c_ID c)) = Some c1) by (rewrite G2, B2, A2, Hv; done).
  split_and!; try done.
  - rewrite G3, B3, A1, Hv. simpl. by rewrite O2.
  - rewrite G4, B1, A3, Hv. simpl. by rewrite O1.
  - rewrite G1, B4, A4, Hv. simpl. by rewrite O3.
  - rewrite R1. simpl. done.
  - intros id Hid. by rewrite H5, G5, B5, A5, Hx1.
Qed.

End Stored.

(** ** The hash chain in the tables *)

Section Chained.
Context (event_digest : bytes -> uuid -> event_row -> list N).
Abbreviation PGR := (Postgres event_digest).
Abbreviation PGL := (Postgres_laws event_digest).

(** C4: [VerifyChain] accepts every history the engine wrote through the PostgreSQL
    repository, whatever the digest function: each event carries the digest of its row
    and of the event before it. *)
Theorem chain_verifies (e : Engine Tables) db id c :
  engine_ok e -> sink_apart (H0 := PGL) e -> sink_stable (digests_ok event_digest) e ->
  reachable (H := PGR) (H0 := PGL) e db -> GetByID db id = inr c ->
  VerifyChain (H := PGR) db id = Ok ChainIntact.
Proof.
  intros He Hs Hst Hr Hg. pose proof (reachable_ok (H := PGR) (H0 := PGL) e db He Hs Hr id) as Hok.
  pose proof (law_get (RepositoryLaws := PGL) db id c Hg) as (Hc & _).
  unfold stored_ok in Hok. rewrite Hc in Hok. destruct Hok as (_ & _ & _ & _ & Hh).
  pose proof (reachable_digests event_digest e db Hst Hr) as Hd.
  unfold VerifyChain. simpl. rewrite Hg. simpl. f_equal. apply verify_links_intact.
  exists [], (links_of event_digest db id). split_and!; [done|constructor|].
  eapply history_chain; [exact Hd|exact Hh|done|]. apply links_numbered. apply Hh.
Qed.

(** C5: rewriting a stored event in place is reported: when the content of one event
    of a reachable case changes and its digest with it, [VerifyChain] answers that the
    chain is broken at that event. *)
Theorem tampering_reported (e : Engine Tables) db id c k r r' :
  engine_ok e -> sink_apart (H0 := PGL) e -> sink_stable (digests_ok event_digest) e ->
  reachable (H := PGR) (H0 := PGL) e db -> GetByID db id = inr c ->
  workflow_event db !! k = Some r -> er_case_id r = id -> tampered r r' ->
  event_digest (er_prev_digest r) k (undigested r') <> event_digest (er_prev_digest r) k (undigested r) ->
  VerifyChain (H := PGR) (with_events (<[k := r']> (workflow_event db)) db) id
  = Ok (ChainBroken (er_seq r) ContentMismatch).
Proof.
  intros He Hs Hst Hr Hg Hk Er HT Hne. pose proof (reachable_ok (H := PGR) (H0 := PGL) e db He Hs Hr id) as Hok.
  pose proof (law_get (RepositoryLaws := PGL) db id c Hg) as (Hc & _).
  unfold stored_ok in Hok. rewrite Hc in Hok. destruct Hok as (_ & _ & _ & _ & Hh).
  pose proof (reachable_digests event_digest e db Hst Hr) as Hd.
  unfold VerifyChain. simpl. unfold GetByID in *. simpl. destruct (workflow_case db !! id); [|done]. simpl. f_equal.
  by apply (tampering_detected event_digest db id k r r' (c_LastSeq c)).
Qed.

End Chained.

(** ** The theorems on the scenario *)

Lemma office_sink_stable : sink_stable (digests_ok toy_digest) office.
Proof. intros sink d c evs Hs. by rewrite office_no_sink in Hs. Qed.

Lemma reachable_sound_witness :
  c_ID (case_in db2) = the_case
  /\ exists d, resolveDefinition office "review" 1 = Ok d /\ validated d
               /\ case_inv d (case_in db2) (v_tokens (view db2 the_case)) (v_scopes (view db2 the_case)).
Proof. exact (reachable_sound office db2 the_case (case_in db2) office_ok office_sink reach2 eq_refl). Defined.

Lemma open_case_has_work_witness :
  exists d t n, resolveDefinition office "review" 1 = Ok d
    /\ t ∈ v_tokens (view db2 the_case) /\ t_Status t = TokenActive
    /\ Definition_Node d (t_Node t) = Some n /\ IsAutomatic (n_Kind n) = false
    /\ n_Terminal n = false /\ TransitionsFrom d (t_Node t) <> [].
Proof.
  exact (open_case_has_work office db2 the_case (case_in db2) office_ok office_sink reach2 eq_refl eq_refl).
Defined.

Lemma ended_case_at_rest_witness :
  (forall t, t ∈ v_tokens (view db4 the_case) -> Live (t_Status t) = false)
  /\ (forall s, s ∈ v_scopes (view db4 the_case) -> s_Status s <> ScopeOpen)
  /\ c_AssignedTo (case_in db4) = "" /\ c_DeadlineAt (case_in db4) = None.
Proof.
  apply (ended_case_at_rest office db4 the_case (case_in db4) office_ok office_sink reach4 eq_refl).
  intros Ho. vm_compute in Ho. discriminate Ho.
Defined.

Definition history4 : list Event :=
  Eval vm_compute in match History db4 the_case with Ok l => l | _ => [] end.

Lemma history_has_no_gaps_witness : ev_Seq <$> history4 = seqZ 1 (c_LastSeq (case_in db4)).
Proof.
  apply (history_has_no_gaps office db4 the_case (case_in db4) history4 office_ok office_sink reach4 eq_refl).
  vm_compute. reflexivity.
Defined.

Lemma case_row_projects_witness : projects (case_in db1) (v_tokens (view db1 the_case)).
Proof. exact (case_row_projects office db1 the_case (case_in db1) office_ok office_sink reach1 eq_refl). Defined.

Lemma chain_verifies_witness : VerifyChain db4 the_case = Ok ChainIntact.
Proof.
  exact (chain_verifies toy_digest office db4 the_case (case_in db4) office_ok office_sink
           office_sink_stable reach4 eq_refl).
Defined.

(** The comment of the last event of the scenario rewritten. *)
Definition forged (r : event_row) : event_row :=
  mkEventRow (er_case_id r) (er_seq r) (er_kind r) (er_from_state r) (er_to_state r) (er_action r)
    (er_actor_id r) (er_occurred_at r) "forged" (er_schema_version r) (er_detail r)
    (er_tenant r) (er_actor_kind r) (er_acting_as r) (er_on_behalf_of r) (er_via_client r)
    (er_request_id r) (er_trace_id r) (er_span_id r) (er_token_id r) (er_scope_id r)
    (er_deadline_at r) (er_prev_digest r) (er_digest r).

Definition opened_key : uuid := 1000001%N.
Definition opened_row : event_row :=
  Eval vm_compute in match workflow_event db4 !! opened_key with Some r => r
    | None => event_columns (opened_event (case_in db4) zero_Node zero_Actor 0) None None end.

Lemma tampering_reported_witness :
  VerifyChain (with_events (<[opened_key := forged opened_row]> (workflow_event db4)) db4) the_case
  = Ok (ChainBroken 1 ContentMismatch).
Proof.
  apply (tampering_reported toy_digest office db4 the_case (case_in db4) opened_key opened_row (forged opened_row)
           office_ok office_sink office_sink_stable reach4 eq_refl).
  - vm_compute. reflexivity.
  - reflexivity.
  - repeat split.
  - intros E. vm_compute in E. discriminate E.
Defined.

(** Two moves of different branches planned from [db2]. *)
Definition plan_of (i : N) (inp : MoveInput) : WDefinition * caseRun :=
  match move_plan office (at_call i) db2 inp with
  | Ok p => p
  | _ => (review, new_run (case_in db2) review [] [])
  end.

Definition move_a : MoveInput := moving legal_token lawyer "approve" "".
Definition move_b : MoveInput := moving finance_token accountant "approve" "fine".

Definition commit_a : Tables * result MoveResult :=
  commit_dispatch office (at_call 3) (plan_of 3 move_a).1 (plan_of 3 move_a).2 db2.

Lemma concurrent_moves_conflict_witness :
  exists db' err,
    commit_dispatch office (at_call 4) (plan_of 4 move_b).1 (plan_of 4 move_b).2 (fst commit_a) = (db', Err err)
    /\ errors_Is err ErrConflict = true /\ untouched view (fst commit_a) db'.
Proof.
  apply (concurrent_moves_conflict office (at_call 3) (at_call 4) db2 move_a move_b
    (plan_of 3 move_a).1 (plan_of 3 move_a).2 (plan_of 4 move_b).1 (plan_of 4 move_b).2 (fst commit_a)
    (result_of (mkMoveResult (case_in db2) [] []) (snd commit_a)) office_ok office_sink reach2
    (fresh_at 3 db2 eq_refl) eq_refl); vm_compute; reflexivity.
Defined.

Lemma stale_revision_refused_witness :
  refused (perform office (at_call 3) (CMove (mkMoveInput the_case legal_token "approve" lawyer "" "" None (Some 7)))) db2.
Proof.
  apply (stale_revision_refused office (at_call 3) _ db2 the_case 7 (case_in db2));
    [reflexivity | vm_compute; reflexivity | intros E; vm_compute in E; discriminate E].
Defined.

Definition moved_a : Tables * result MoveResult := MoveDetailed office (at_call 3) move_a db2.

Lemma move_stores_plan_witness :
  exists d r c, move_plan office (at_call 3) db2 move_a = Ok (d, r) /\ c_ID c = the_case
    /\ stored_as db2 (fst moved_a) r c
         (mr_Case (result_of (mkMoveResult (case_in db2) [] []) (snd moved_a)))
    /\ ev_Seq <$> mr_Events (result_of (mkMoveResult (case_in db2) [] []) (snd moved_a)) = ev_Seq <$> r_events r
    /\ mr_Joined (result_of (mkMoveResult (case_in db2) [] []) (snd moved_a)) = r_joined r.
Proof.
  apply (move_stores_plan office (at_call 3) db2 move_a (fst moved_a)
    (result_of (mkMoveResult (case_in db2) [] []) (snd moved_a)) office_ok office_sink reach2
    (fresh_at 3 db2 eq_refl)).
  vm_compute. reflexivity.
Defined.

Definition failing : FailureInput :=
  mkFailureInput the_case legal_token lawyer "approve" FailureGuardRejected RawNone.
Definition failed : Tables * result Event := RecordFailure office (at_call 3) failing db2.
Definition failed_event : Event := result_of (opened_event (case_in db2) zero_Node zero_Actor 0) (snd failed).

Lemma record_failure_only_appends_witness :
  exists c st, v_case (view db2 the_case) = Some c
    /\ v_case (view (fst failed) the_case) = Some (case_with_lastseq c (c_LastSeq c + 1))
    /\ v_tokens (view (fst failed) the_case) = v_tokens (view db2 the_case)
    /\ v_scopes (view (fst failed) the_case) = v_scopes (view db2 the_case)
    /\ v_events (view (fst failed) the_case) ≡ₚ st :: v_events (view db2 the_case)
    /\ ev_Seq st = c_LastSeq c + 1 /\ ev_Seq failed_event = c_LastSeq c + 1
    /\ ev_Kind st = EventFailed
    /\ same_except view db2 (fst failed) the_case
    /\ forall cx' r, plans office db2 the_case r ->
         exists db2' err, persist office cx' r (fst failed) = (db2', Err err) /\ errors_Is err ErrConflict = true.
Proof.
  apply (record_failure_only_appends office (at_call 3) db2 failing (fst failed) failed_event).
  vm_compute. reflexivity.
Defined.

Definition opened1 : Tables * result MoveResult := OpenDetailed office (at_call 1) opening db0.
Definition opened_result : MoveResult := result_of (mkMoveResult (case_in db1) [] []) (snd opened1).

Lemma open_stores_case_witness :
  exists d start root st,
    resolveDefinition office "review" 0 = Ok d /\ StartNode d = Some start
    /\ v_case (view db0 (c_ID (mr_Case opened_result))) = None
    /\ v_case (view (fst opened1) (c_ID (mr_Case opened_result))) = Some (mr_Case opened_result)
    /\ c_Status (mr_Case opened_result) = StatusOpen /\ c_State (mr_Case opened_result) = n_ID start
    /\ c_Revision (mr_Case opened_result) = 0 /\ c_LastSeq (mr_Case opened_result) = 1
    /\ v_scopes (view (fst opened1) (c_ID (mr_Case opened_result))) ≡ₚ [root_scope (mr_Case opened_result)]
    /\ v_tokens (view (fst opened1) (c_ID (mr_Case opened_result))) ≡ₚ [root]
    /\ t_ID root = c_ID (mr_Case opened_result) /\ t_Node root = n_ID start
    /\ t_Status root = TokenActive
    /\ v_events (view (fst opened1) (c_ID (mr_Case opened_result))) ≡ₚ [st]
    /\ ev_Kind st = EventOpened /\ ev_Seq st = 1
    /\ same_except view db0 (fst opened1) (c_ID (mr_Case opened_result)).
Proof.
  apply (open_stores_case office (at_call 1) db0 opening (fst opened1) opened_result office_ok office_sink reach0).
  vm_compute. reflexivity.
Defined.
