(* ===== verification/OperationTheorems.v ===== *)
(** The theorems on single operations: assignment, deadlines, expiry, cancelling, and
    the checks of a move, on every branch.  Each is applied to the scenario by the
    witness after it. *)

From stdpp Require Import base gmap fin_maps sets list strings.
From Stdlib Require Import ZArith Lia.
From S2P Require Import Prelude GoStrings Errors Model Definitions JoinPolicies Repo Ports Events.
From S2P Require Import Run Validate Engine RunFrame CaseInv RunInv EngineInv Persist Plans.
From S2P Require Import ValidateFacts System Calls Postgres PostgresLaws Scenario.

Open Scope string_scope.
Open Scope list_scope.
Open Scope Z_scope.

Section Operations.
Context {DB : Type} `{RepositoryLaws DB}.
Implicit Types (e : Engine DB) (cx : Ctx) (db : DB).

Lemma quiet_assignee to t :
  t_Status (token_with_assignee to t) = t_Status t /\ t_Node (token_with_assignee to t) = t_Node t.
Proof. done. Qed.

(** ** Assignment *)

(** claiming a token.  A token that is free is assigned to the actor, recorded by
    one assigned event, and nothing else of the case changes; a token the actor already
    holds is left as it is, without a write; a token another holds is refused with
    [ErrAlreadyAssigned]. *)
Theorem claim_outcomes e cx db inp actor c r tok :
  engine_ok e -> sink_apart e -> reachable e db -> fresh_uuids cx db ->
  resolveActor (ci_Actor inp) "" = Ok actor -> a_ID actor <> "" ->
  openCase db (ci_CaseID inp) (ci_ExpectedRevision inp) ErrCaseClosed = Ok c ->
  loadToken e db c (ci_TokenID inp) = Ok (r, tok) ->
  (t_AssignedTo tok = a_ID actor -> ClaimWith e cx inp db = (db, Ok c))
  /\ (t_AssignedTo tok <> "" -> t_AssignedTo tok <> a_ID actor ->
      ClaimWith e cx inp db = (db, Err (sent ErrAlreadyAssigned)))
  /\ (forall db' c', t_AssignedTo tok = "" -> ClaimWith e cx inp db = (db', Ok c') ->
      changed_one db db' (ci_CaseID inp) tok (token_with_assignee (a_ID actor)) EventAssigned
        (marshal_AssignmentDetail (mkAssignmentDetail "" (a_ID actor) "")) (a_ID actor) (cx_now cx)).
Proof.
  intros He Hs Hr Hf Hact Hne Ho Hl. pose proof (reachable_ok e db He Hs Hr) as Ha.
  unfold ClaimWith, w_bind, w_res, claim_plan. rewrite Hact. simpl. rewrite bool_decide_true by done. simpl.
  rewrite Ho. simpl. rewrite Hl. simpl. split_and!.
  - intros E. rewrite E, !bool_decide_true by done. done.
  - intros H1 H2. by rewrite bool_decide_true, bool_decide_false.
  - intros db' c' E. rewrite E, bool_decide_false by (by intros ?). intros Hc.
    eapply token_change_stored; [done|by apply sound_of_ok|done|done|done|apply quiet_assignee|exact Hc].
Qed.

(** releasing a token.  A free token is refused with [ErrNotAssigned]; a token
    another holds needs a reason ([ErrReasonRequired]); otherwise the assignee is
    cleared, recorded with who held it and the reason, and nothing else changes. *)
Theorem release_outcomes e cx db inp actor c r tok :
  engine_ok e -> sink_apart e -> reachable e db -> fresh_uuids cx db ->
  resolveActor (ri_Actor inp) "" = Ok actor ->
  openCase db (ri_CaseID inp) (ri_ExpectedRevision inp) ErrNotAssigned = Ok c ->
  loadToken e db c (ri_TokenID inp) = Ok (r, tok) ->
  (t_AssignedTo tok = "" -> ReleaseWith e cx inp db = (db, Err (sent ErrNotAssigned)))
  /\ (t_AssignedTo tok <> "" -> a_ID actor <> t_AssignedTo tok -> TrimSpace (ri_Reason inp) = "" ->
      ReleaseWith e cx inp db = (db, Err (sent ErrReasonRequired)))
  /\ (forall db' c', ReleaseWith e cx inp db = (db', Ok c') ->
      changed_one db db' (ri_CaseID inp) tok (token_with_assignee "") EventUnassigned
        (marshal_AssignmentDetail (mkAssignmentDetail (t_AssignedTo tok) "" (ri_Reason inp)))
        (a_ID actor) (cx_now cx)).
Proof.
  intros He Hs Hr Hf Hact Ho Hl. pose proof (reachable_ok e db He Hs Hr) as Ha.
  unfold ReleaseWith, w_bind, w_res, release_plan. rewrite Hact. simpl. rewrite Ho. simpl. rewrite Hl. simpl. split_and!.
  - intros E. by rewrite E, bool_decide_false by (by intros ?).
  - intros H1 H2 H3. by rewrite (bool_decide_true (_ <> _)), bool_decide_false, (bool_decide_true (_ = "")).
  - intros db' c'. destruct (bool_decide (t_AssignedTo tok <> "")); simpl; [|done].
    destruct (_ || _); simpl; [|done]. intros Hc.
    eapply token_change_stored; [done|by apply sound_of_ok|done|done|done|apply quiet_assignee|exact Hc].
Qed.

(** reassigning a token.  It needs a reason ([ErrReasonRequired]) and a new
    assignee ([ErrInvalidActor]); then the token passes to that assignee whoever held
    it, recorded with both and the reason, and nothing else changes. *)
Theorem reassign_outcomes e cx db inp actor c r tok :
  engine_ok e -> sink_apart e -> reachable e db -> fresh_uuids cx db ->
  resolveActor (rai_Actor inp) "" = Ok actor ->
  openCase db (rai_CaseID inp) (rai_ExpectedRevision inp) ErrCaseClosed = Ok c ->
  loadToken e db c (rai_TokenID inp) = Ok (r, tok) ->
  (TrimSpace (rai_Reason inp) = "" -> Reassign e cx inp db = (db, Err (sent ErrReasonRequired)))
  /\ (TrimSpace (rai_Reason inp) <> "" -> rai_To inp = "" ->
      Reassign e cx inp db = (db, Err (sent ErrInvalidActor)))
  /\ (forall db' c', Reassign e cx inp db = (db', Ok c') ->
      changed_one db db' (rai_CaseID inp) tok (token_with_assignee (rai_To inp)) EventAssigned
        (marshal_AssignmentDetail (mkAssignmentDetail (t_AssignedTo tok) (rai_To inp)
                                     (TrimSpace (rai_Reason inp)))) (a_ID actor) (cx_now cx)).
Proof.
  intros He Hs Hr Hf Hact Ho Hl. pose proof (reachable_ok e db He Hs Hr) as Ha.
  unfold Reassign, w_bind, w_res, reassign_plan. split_and!.
  - intros E. by rewrite E, bool_decide_false by (by intros ?).
  - intros H1 E. rewrite bool_decide_true by done. simpl. by rewrite E, bool_decide_false by (by intros ?).
  - intros db' c'. destruct (bool_decide (TrimSpace (rai_Reason inp) <> "")); simpl; [|done].
    destruct (bool_decide (rai_To inp <> "")); simpl; [|done].
    rewrite Hact. simpl. rewrite Ho. simpl. rewrite Hl. simpl. intros Hc.
    eapply token_change_stored; [done|by apply sound_of_ok|done|done|done|apply quiet_assignee|exact Hc].
Qed.

(** ** Deadlines *)

(** setting a deadline needs a reason; a successful call gives the token that
    deadline and forgets an earlier expiry, recorded with the old and new deadline,
    and nothing else changes. *)
Theorem set_deadline_outcomes e cx db inp actor c r tok :
  engine_ok e -> sink_apart e -> reachable e db -> fresh_uuids cx db ->
  resolveActor (sdi_Actor inp) "" = Ok actor ->
  openCase db (sdi_CaseID inp) (sdi_ExpectedRevision inp) ErrCaseClosed = Ok c ->
  loadToken e db c (sdi_TokenID inp) = Ok (r, tok) ->
  (TrimSpace (sdi_Reason inp) = "" -> SetDeadline e cx inp db = (db, Err (sent ErrReasonRequired)))
  /\ (forall db' c', SetDeadline e cx inp db = (db', Ok c') ->
      changed_one db db' (sdi_CaseID inp) tok (token_set_deadline (sdi_DeadlineAt inp)) EventDeadlineChanged
        (marshal_DeadlineDetail (mkDeadlineDetail (t_DeadlineAt tok) (sdi_DeadlineAt inp)
                                   (TrimSpace (sdi_Reason inp)))) (a_ID actor) (cx_now cx)).
Proof.
  intros He Hs Hr Hf Hact Ho Hl. pose proof (reachable_ok e db He Hs Hr) as Ha.
  unfold SetDeadline, w_bind, w_res, set_deadline_plan. split_and!.
  - intros E. by rewrite E, bool_decide_false by (by intros ?).
  - intros db' c'. destruct (bool_decide (TrimSpace (sdi_Reason inp) <> "")); simpl; [|done].
    rewrite Hact. simpl. rewrite Ho. simpl. rewrite Hl. simpl. destruct (_ && _); simpl; [|done]. intros Hc.
    eapply token_change_stored; [done|by apply sound_of_ok|done|done|done|done|exact Hc].
Qed.

(** The plan of an expiry without an on-expire action. *)
Lemma expire_plan_mark e cx db inp d r :
  expire_plan e cx db inp = Ok (d, r, None) ->
  exists actor c run tok deadline,
    openCase db (ei_CaseID inp) None ErrCaseClosed = Ok c
    /\ loadToken e db c (ei_TokenID inp) = Ok (run, tok)
    /\ expired_deadline (cx_now cx) tok = Ok deadline
    /\ r = token_change cx actor run tok (token_with_expired (Some deadline)) EventExpired
             (marshal_ExpiryDetail (mkExpiryDetail deadline)).
Proof.
  unfold expire_plan. intros Hp.
  apply res_bind_Ok in Hp as (actor & Ha & Hp). apply res_bind_Ok in Hp as (_ & _ & Hp).
  apply res_bind_Ok in Hp as (c & Hc & Hp). apply res_bind_Ok in Hp as (d0 & Hd & Hp).
  apply res_bind_Ok in Hp as (run & Hl & Hp). apply res_bind_Ok in Hp as (tok & Ht & Hp).
  apply res_bind_Ok in Hp as (deadline & Hdl & Hp). apply res_bind_Ok in Hp as (onExpire & _ & Hp).
  apply res_bind_Ok in Hp as (_ & _ & Hp).
  exists actor, c, run, tok, deadline. split_and!; [done| |done|].
  - unfold loadToken. rewrite Hd. simpl. rewrite Hl. simpl. by rewrite Ht.
  - destruct onExpire as [tr|]; [|by injection Hp as _ <-].
    apply res_bind_Ok in Hp as (? & _ & Hp). discriminate Hp.
Qed.

(** A deadline [Expire] accepts has passed and was not recorded before. *)
Lemma expired_deadline_Ok now tok deadline :
  expired_deadline now tok = Ok deadline ->
  t_DeadlineAt tok = Some deadline /\ deadline < now /\ t_ExpiredDeadline tok <> Some deadline.
Proof.
  unfold expired_deadline. destruct (t_DeadlineAt tok) as [dl|]; [|done]. intros Hd. res_inv.
  match goal with E : (_ <? _) = true |- _ => apply Z.ltb_lt in E end.
  match goal with E : negb (bool_decide _) = true |- _ => apply negb_true_iff, bool_decide_eq_false in E end.
  done.
Qed.

(** Once recorded, a deadline is refused from then on. *)
Lemma expired_deadline_again now tok deadline :
  t_DeadlineAt tok = Some deadline -> deadline < now ->
  expired_deadline now (token_with_expired (Some deadline) tok) = Err (sent ErrAlreadyExpired).
Proof.
  intros E Hn. unfold expired_deadline. simpl. rewrite E. simpl. rewrite (proj2 (Z.ltb_lt _ _)) by lia. simpl.
  by rewrite bool_decide_true.
Qed.

(** The changed token of the stored case is the one the call named. *)
Lemma changed_one_token e db db' id tok f kind detail who now t' :
  engine_ok e -> sink_apart e -> reachable e db ->
  changed_one db db' id tok f kind detail who now ->
  t' ∈ v_tokens (view db' id) -> t_ID t' = t_ID tok -> (forall t, t_ID (f t) = t_ID t) -> t' = f tok.
Proof.
  intros He Hs Hr Hch Hin Eid Hf. pose proof (reachable_ok e db He Hs Hr id) as Hok.
  destruct (co_tokens _ _ _ _ _ _ _ _ _ Hch) as (T & (T0 & HT0 & HF) & Htok & _ & HT).
  destruct (co_event _ _ _ _ _ _ _ _ _ Hch) as (c & _ & _ & Hc & _).
  rewrite HT in Hin. apply list_elem_of_fmap in Hin as (t & -> & Ht).
  assert (Ei : t_ID t = t_ID tok) by (destruct (decide (t_ID t = t_ID tok)); [done|by rewrite <- Eid]).
  rewrite decide_True by done. f_equal.
  unfold stored_ok in Hok. rewrite Hc in Hok. destruct Hok as (_ & _ & (d & _ & HI) & _).
  apply (NoDup_key_inj t_ID T); [|done..].
  assert (ET : t_ID <$> T = t_ID <$> T0).
  { clear -HF. induction HF as [|a b l l' Hab _ IH]; csimpl; [done|]. rewrite IH. f_equal. by rewrite Hab. }
  rewrite ET, HT0. apply HI.
Qed.

(** expiry happens once per deadline.  [Expire] refuses a token without a passed
    deadline; when it succeeds at a node without an on-expire action, only the expiry
    mark of the token changes, and every later attempt on it fails with
    [ErrAlreadyExpired]. *)
Theorem expire_once e cx db inp d r db' res :
  engine_ok e -> sink_apart e -> reachable e db -> fresh_uuids cx db ->
  expire_plan e cx db inp = Ok (d, r, None) -> Expire e cx inp db = (db', Ok res) ->
  exists tok deadline actor,
    t_DeadlineAt tok = Some deadline /\ deadline < cx_now cx /\ t_ExpiredDeadline tok <> Some deadline
    /\ changed_one db db' (ei_CaseID inp) tok (token_with_expired (Some deadline)) EventExpired
         (marshal_ExpiryDetail (mkExpiryDetail deadline)) (a_ID actor) (cx_now cx)
    /\ forall now' tok', cx_now cx <= now' -> tok' ∈ v_tokens (view db' (ei_CaseID inp)) ->
         t_ID tok' = t_ID tok -> expired_deadline now' tok' = Err (sent ErrAlreadyExpired).
Proof.
  intros He Hs Hr Hf Hp Hx. pose proof (reachable_ok e db He Hs Hr) as Ha.
  unfold Expire in Hx. apply w_bind_Ok in Hx as (db0 & [[d0 r0] tr] & [-> Hp']%w_res_Ok & Hx).
  rewrite Hp in Hp'. injection Hp' as <- <- <-.
  apply expire_plan_mark in Hp as (actor & c & run & tok & deadline & Ho & Hl & Hdl & ->).
  apply expired_deadline_Ok in Hdl as (Hdl & Hlt & Hne).
  assert (Hch : changed_one db db' (ei_CaseID inp) tok (token_with_expired (Some deadline)) EventExpired
    (marshal_ExpiryDetail (mkExpiryDetail deadline)) (a_ID actor) (cx_now cx)).
  { apply w_bind_Ok in Hx as (db1 & [c1 evs] & Hpers & Hx). injection Hx as <- _.
    eapply (token_change_stored e cx db (ei_CaseID inp) _ _ c _ run tok actor _ _ _ db1 c1);
      [done|by apply sound_of_ok|done|done|done|done|].
    unfold commit, w_bind. by rewrite Hpers. }
  exists tok, deadline, actor. split_and!; try done. intros now' tok' Hnow Hin Eid.
  rewrite (changed_one_token e db db' _ _ _ _ _ _ _ tok' He Hs Hr Hch Hin Eid) by done.
  apply expired_deadline_again; [done|lia].
Qed.

(** ** Cancelling *)

Lemma touch_fields id r :
  r_events (touch id r) = r_events r /\ r_now (touch id r) = r_now r /\ r_actor (touch id r) = r_actor r.
Proof. by destruct (touch_cases id r) as [-> | ->]. Qed.

Lemma cancel_tokens_events detail ids r r' :
  cancel_tokens detail ids r = Ok r' ->
  r_now r' = r_now r
  /\ exists evs, r_events r' = r_events r ++ evs /\ ev_Kind <$> evs = replicate (length ids) EventTokenCancelled.
Proof.
  revert r. induction ids as [|id ids IH]; intros r; simpl; intros Hc; res_inv.
  { split; [done|]. exists []. by rewrite app_nil_r. }
  match goal with Hx : cancel_token _ _ _ = Ok _ |- _ => unfold cancel_token in Hx end. res_inv.
  apply IH in Hc as (-> & evs & -> & Ek). unfold run_end.
  match goal with |- context [touch ?i ?y] => destruct (touch_fields i y) as (-> & -> & _) end. simpl.
  split; [done|]. eexists (_ :: evs). rewrite <- app_assoc. split; [reflexivity|]. csimpl. by rewrite Ek.
Qed.

Lemma cancel_scopes_events seq r : r_events (cancel_scopes seq r) = r_events r /\ r_now (cancel_scopes seq r) = r_now r.
Proof.
  unfold cancel_scopes. generalize (r_scopes r) as l. intros l. revert r.
  induction l as [|s l IH]; intros r; simpl; [done|]. destruct (IH (if bool_decide (s_Status s = ScopeOpen)
    then close_scope (s_ID s) ScopeCancelled seq r else r)) as [-> ->]. case_bool_decide; [|done].
  unfold close_scope. match goal with |- context [touch ?i ?y] => by destruct (touch_fields i y) as (-> & -> & _) end.
Qed.

Lemma project_closed r : c_ClosedAt (project r) = c_ClosedAt (r_c r).
Proof. unfold project. case_bool_decide; [done|]. by repeat case_match. Qed.

(** The status [Cancel] leaves a token in. *)
Definition cancelled_status (st : TokenStatus) : TokenStatus := if Live st then TokenCancelled else st.

(** What [cancel_run] does to the run. *)
Lemma cancel_run_spec reason r r' :
  NoDup (t_ID <$> r_tokens r) -> cancel_run reason r = Ok r' ->
  r_c r' = case_cancelled (r_now r) (r_c r)
  /\ Forall2 (fun t t' => t_ID t' = t_ID t /\ t_Status t' = cancelled_status (t_Status t)) (r_tokens r) (r_tokens r')
  /\ Forall (fun s => s_Status s <> ScopeOpen) (r_scopes r')
  /\ exists evs last, r_events r' = r_events r ++ evs ++ [last] /\ ev_Kind last = EventCancelled
       /\ ev_Detail last = Some (cancelDetail reason)
       /\ ev_Kind <$> evs = replicate (count (fun t => Live (t_Status t)) (r_tokens r)) EventTokenCancelled.
Proof.
  intros Hnd. unfold cancel_run. intros Hc. res_inv.
  match goal with Hx : cancel_tokens _ _ _ = Ok ?y |- _ => rename Hx into H1; rename y into r1 end.
  destruct (cancel_tokens_events _ _ _ _ H1) as (En & evs & Ee & Ek). apply cancel_tokens_ended in H1.
  match goal with |- context [cancel_scopes ?q ?x] =>
    destruct (cancel_scopes_events q x) as (Ee2 & En2); pose proof (cancel_scopes_ended q x) as H2;
    set (r2 := x) in *; set (r3 := cancel_scopes q r2) in * end.
  destruct H1 as [Fc _ _ _ (g & Eg & G) (h1 & Eh1 & Hh1)], H2 as [_ _ _ _ (g2 & Eg2 & G2) (h & Eh & Hh)].
  set (live := List.filter (fun t => Live (t_Status t)) (r_tokens r)) in *.
  assert (Hid : forall t, g2 t = t) by (intros t; apply G2, not_elem_of_nil).
  split_and!.
  - simpl. by rewrite Fc, En2, <- En.
  - simpl. rewrite Eg2. change (r_tokens r2) with (r_tokens r1). rewrite Eg, <- list_fmap_compose.
    apply Forall2_fmap_r, Forall2_same_length_lookup_2; [done|]. intros i x y Hx Hy. rewrite Hx in Hy. injection Hy as <-.
    cbv beta. simpl. rewrite Hid. destruct (G x) as ((-> & _) & G1 & G1'). split; [done|].
    apply list_elem_of_lookup_2 in Hx. unfold cancelled_status. destruct (Live (t_Status x)) eqn:El.
    + apply G1, list_elem_of_fmap_2, elem_of_sort_by, list_elem_of_In, filter_In. by rewrite <- list_elem_of_In.
    + rewrite G1'; [done|]. intros (y & Ey & Hy%elem_of_sort_by)%list_elem_of_fmap.
      apply list_elem_of_In, filter_In in Hy as [Hy Hl]. apply list_elem_of_In in Hy.
      rewrite (NoDup_key_inj t_ID (r_tokens r) x y) in El by done. congruence.
  - simpl. rewrite Eh. apply Forall_forall. intros s' (s & -> & Hs)%list_elem_of_fmap.
    destruct (Hh s) as (_ & H3 & H4). destruct (scope_open s) eqn:Eo.
    + intros E. assert (Hf : scope_open (h s) = true) by (unfold scope_open; by rewrite bool_decide_true).
      rewrite H3 in Hf; [done|]. by apply list_elem_of_fmap_2, list_elem_of_In, filter_In; rewrite <- list_elem_of_In.
    + destruct (decide (s_ID s ∈ s_ID <$> List.filter scope_open (r_scopes r2))) as [Hin|Hin].
      * intros E. specialize (H3 Hin). unfold scope_open in H3. by rewrite bool_decide_true in H3.
      * rewrite H4 by done. unfold scope_open in Eo. by apply bool_decide_eq_false in Eo.
  - eexists evs, _. simpl. rewrite Ee2. simpl. rewrite Ee, <- app_assoc. split_and!; [reflexivity|done..|].
    rewrite Ek. f_equal. rewrite length_fmap, count_filter_length. unfold sortTokens. by rewrite length_sort_by.
Qed.
(** a successful [Cancel] ends the case: it is stored cancelled and closed at the
    call's time, every live token is cancelled and every ended one keeps its status, no
    scope stays open, and one event per live token and a last cancelled event with the
    reason are appended.  A blank reason is refused. *)
Theorem cancel_ends_case e cx db inp :
  engine_ok e -> sink_apart e -> reachable e db -> fresh_uuids cx db ->
  (TrimSpace (cai_Reason inp) = "" -> Cancel e cx inp db = (db, Err (sent ErrReasonRequired)))
  /\ forall db' c', Cancel e cx inp db = (db', Ok c') ->
     exists c T evs last,
       v_case (view db (cai_CaseID inp)) = Some c /\ c_Status c = StatusOpen
       /\ v_case (view db' (cai_CaseID inp)) = Some c'
       /\ c_Status c' = StatusCancelled /\ c_ClosedAt c' = Some (cx_now cx)
       /\ reread (v_tokens (view db (cai_CaseID inp))) T
       /\ (exists T', v_tokens (view db' (cai_CaseID inp)) ≡ₚ T'
             /\ Forall2 (fun t t' => t_ID t' = t_ID t /\ t_Status t' = cancelled_status (t_Status t)) T T')
       /\ (forall s, s ∈ v_scopes (view db' (cai_CaseID inp)) -> s_Status s <> ScopeOpen)
       /\ v_events (view db' (cai_CaseID inp)) ≡ₚ evs ++ last :: v_events (view db (cai_CaseID inp))
       /\ ev_Kind <$> evs = replicate (count (fun t => Live (t_Status t)) T) EventTokenCancelled
       /\ ev_Kind last = EventCancelled /\ ev_Detail last = Some (cancelDetail (TrimSpace (cai_Reason inp)))
       /\ same_except view db db' (cai_CaseID inp).
Proof.
  intros He Hs Hr Hf. pose proof (reachable_ok e db He Hs Hr) as Ha. split.
  { intros E. unfold Cancel, w_bind, w_res, cancel_plan. by rewrite E, bool_decide_false by (by intros ?). }
  intros db' c' Hc. unfold Cancel in Hc. apply w_bind_Ok in Hc as (db0 & r & [-> Hp]%w_res_Ok & Hc).
  apply w_bind_Ok in Hc as (db1 & [c1 evs1] & Hpers & Hc). injection Hc as <- <-.
  pose proof (cancel_plan_plans _ _ _ _ _ Hp) as Hpl.
  pose proof (cancel_plan_inv _ _ _ _ _ (sound_of_ok e cx db (cai_CaseID inp) He Ha Hf) Hp) as HR.
  destruct (persist_facts e cx db (cai_CaseID inp) r db1 c1 evs1 Ha Hpl HR Hpers) as (c & Eid & [Hb Ec1 Haft Htk Hsc Hev Hex]).
  unfold cancel_plan in Hp. res_inv.
  match goal with Ho : openCase _ _ _ _ = Ok ?y |- _ => apply openCase_Ok in Ho as (Hget & Hopen & _); rename y into c0 end.
  match goal with Hl : loadRun _ _ _ = Ok ?y |- _ => rename Hl into Hload; rename y into r0 end.
  match goal with Hd : resolveDefinition _ _ _ = Ok _ |- _ => destruct (loadRun_settled _ _ _ _ _ _ _
    (sound_of_ok e cx db (cai_CaseID inp) He Ha Hf) Hget Hd Hload) as (HR0 & _) end.
  apply law_get in Hget as (Hcase & Ecid & _). rewrite Eid in *. rewrite Hcase in Hb. injection Hb as <-.
  destruct (cancel_run_spec _ _ _ (inv_tokens (ri_inv HR0) : NoDup (t_ID <$> r_tokens (begin _ _ r0))) Hp)
    as (Ec & HT & HS & evs & last & Ee & K1 & K2 & K3).
  destruct (loadRun_reread db c0 _ r0 Hload) as (T0 & S0 & HT0 & _ & HF & _ & Eev & _). simpl in Ee, HT, K3.
  apply law_list_tokens in HT0. rewrite Ecid in HT0. rewrite Eev in Ee. simpl in Ee.
  rewrite Ee in Hev. apply appended_stored in Hev as (stored & HF2 & Ev).
  apply Forall2_app_inv_l in HF2 as (s1 & s2 & HF2 & HF3 & ->). apply Forall2_cons_inv_l in HF3 as (st & s3 & Hst & HF3 & ->).
  apply Forall2_nil_inv_l in HF3 as ->.
  exists c0, (r_tokens r0), s1, st.
  destruct (project_same r) as [_ Pst]. pose proof (project_closed r) as Pcl.
  split_and!; try done.
  - simpl. by rewrite Pst, Ec.
  - simpl. by rewrite Pcl, Ec.
  - by exists T0.
  - by exists (r_tokens r).
  - intros s. rewrite Hsc. intros Hin. by apply (proj1 (Forall_forall _ _) HS).
  - by rewrite Ev, <- app_assoc.
  - rewrite <- K3. clear -HF2. induction HF2 as [|a b l l' Hab _ IH]; csimpl; [done|].
    rewrite IH. f_equal. by destruct Hab as (_ & _ & _ & -> & _).
  - by destruct Hst as (_ & _ & _ & -> & _).
  - destruct Hst as (_ & _ & _ & _ & _ & _ & _ & _ & _ & _ & _ & -> & _). by rewrite K2.
Qed.

(** What an event says when its deadline is left out. *)
Definition entry (ev : Event) : EventKind * uuid * option json := (ev_Kind ev, ev_TokenID ev, ev_Detail ev).

(** Routing only adds entries to the log of the call. *)
Definition keeps_log (r r' : caseRun) : Prop :=
  frame r r' /\ (entry <$> r_events r) `prefix_of` (entry <$> r_events r').

Lemma entries_alter dl i (l : list Event) : entry <$> alter (event_with_deadline dl) i l = entry <$> l.
Proof.
  revert i. induction l as [|ev l IH]; intros [|i]; csimpl; try done. f_equal. apply IH.
Qed.

#[local] Instance keeps_log_RunRel : RunRel keeps_log.
Proof.
  split.
  - intros r. split; [apply rr_refl | done].
  - intros r1 r2 r3 [F1 P1] [F2 P2]. split; [by eapply rr_trans | by etransitivity].
  - intros r r' id [F _]. by apply (rr_tracked (R := frame)).
  - intros r e. split; [apply rr_emit|]. simpl. rewrite fmap_app. by eexists.
  - intros r id f Hf. split; [by apply rr_touch|]. by rewrite (proj1 (touch_fields _ _)).
  - intros r id f Hf Ht. split; [by apply rr_update | done].
  - intros r id st seq. split; [apply rr_close_scope|]. unfold close_scope. by rewrite (proj1 (touch_fields _ _)).
  - intros. split; [apply rr_addToken | done].
  - intros. split; [apply rr_add_scope | done].
  - intros. split; [apply rr_draw | done].
  - intros. split; [by apply rr_bump | done].
  - intros. split; [apply rr_add_joined | done].
  - intros. split; [apply rr_note | done].
  - intros. split; [apply rr_history | done].
  - intros r dl i. split; [apply rr_deadline|]. simpl. by rewrite entries_alter.
  - intros. split; [by apply rr_case | done].
Qed.

(** Cancelling a branch records it first. *)
Lemma cancel_branch_log e cx db reason r tok r' :
  r_events r = [] -> cancel_branch e cx db reason r tok = Ok r' ->
  exists ev l, r_events r' = ev :: l /\ entry ev = (EventTokenCancelled, t_ID tok, Some (cancelDetail reason)).
Proof.
  intros E Hc. unfold cancel_branch in Hc. apply (tryJoin_all_rel keeps_log) in Hc as [_ Hp].
  unfold run_end in Hp. rewrite (proj1 (touch_fields _ _)) in Hp. simpl in Hp. rewrite E in Hp. csimpl in Hp.
  destruct (r_events r') as [|ev l]; csimpl in *; [by apply prefix_nil_not in Hp|].
  exists ev, l. split; [done|]. by apply prefix_cons_inv_1 in Hp.
Qed.

(** [CancelToken] never takes the last branch of a scope: with no other live
    branch it fails with [ErrLastBranch] and writes nothing.  When it succeeds there
    was another branch, the next event of the case records the cancelled token and the
    reason, and only this case changes. *)
Theorem cancel_token_outcomes e cx db inp actor c d r tok :
  engine_ok e -> sink_apart e -> reachable e db -> fresh_uuids cx db ->
  TrimSpace (cti_Reason inp) <> "" -> cti_TokenID inp <> uuid_Nil -> resolveActor (cti_Actor inp) "" = Ok actor ->
  openCase db (cti_CaseID inp) None ErrCaseClosed = Ok c ->
  resolveDefinition e (c_Definition c) (c_Version c) = Ok d -> checkEffectDB e d db = Ok tt ->
  loadRun db c d = Ok r -> pick r (cti_TokenID inp) = Ok tok ->
  (other_branches r tok = 0%nat -> CancelToken e cx inp db = (db, Err (sent ErrLastBranch)))
  /\ forall db' res, CancelToken e cx inp db = (db', Ok res) ->
     (0 < other_branches r tok)%nat
     /\ v_case (view db' (cti_CaseID inp)) = Some (mr_Case res)
     /\ (exists st, st ∈ v_events (view db' (cti_CaseID inp)) /\ ev_Seq st = c_LastSeq c + 1
          /\ ev_Kind st = EventTokenCancelled /\ ev_Detail st = Some (cancelDetail (TrimSpace (cti_Reason inp)))
          /\ (t_ID tok <> uuid_Nil -> ev_TokenID st = t_ID tok))
     /\ same_except view db db' (cti_CaseID inp).
Proof.
  intros He Hs Hr Hf Hre Hnil Hact Ho Hd Hchk Hload Hpick. pose proof (reachable_ok e db He Hs Hr) as Ha.
  assert (Hplan : cancel_token_plan e cx db inp =
    let! _ := guardB (negb (Nat.eqb (other_branches r tok) 0)) (sent ErrLastBranch) in
    let! run := cancel_branch e cx db (TrimSpace (cti_Reason inp)) (begin (cx_now cx) actor r) tok in Ok (d, run)).
  { unfold cancel_token_plan. rewrite bool_decide_true by done. simpl. rewrite bool_decide_true by done. simpl.
    rewrite Hact. simpl. rewrite Ho. simpl. rewrite Hd. simpl. rewrite Hchk. simpl. rewrite Hload. simpl.
    by rewrite Hpick. }
  split.
  { intros E. unfold CancelToken, w_bind, w_res. by rewrite Hplan, E. }
  intros db' res Hc. unfold CancelToken in Hc. apply w_bind_Ok in Hc as (db0 & [d0 r'] & [-> Hp]%w_res_Ok & Hc).
  apply w_bind_Ok in Hc as (dba & [c1 evs1] & Hpers & Hc).
  apply w_bind_Ok in Hc as (dbb & [] & Hdis & Hc). injection Hc as <- <-.
  apply (dispatch_untouched _ _ _ _ _ _ Hs) in Hdis.
  pose proof (cancel_token_plan_plans _ _ _ _ _ _ Hp) as Hpl.
  pose proof (cancel_token_plan_inv _ _ _ _ _ _ (sound_of_ok e cx db (cti_CaseID inp) He Ha Hf) Hp) as HR.
  destruct (persist_facts e cx db (cti_CaseID inp) r' dba c1 evs1 Ha Hpl HR Hpers) as (c0 & Eid & [Hb _ Haft _ _ Hev Hex]).
  rewrite Hplan in Hp. apply res_bind_Ok in Hp as ([] & Hother & Hp). apply guardB_Ok in Hother.
  apply negb_true_iff, Nat.eqb_neq in Hother. apply res_bind_Ok in Hp as (r1 & Hbranch & Hp). injection Hp as <- ->.
  destruct (loadRun_reread db c d r Hload) as (_ & _ & _ & _ & _ & _ & Eev & _).
  destruct (cancel_branch_log _ _ _ _ _ _ _ (Eev : r_events (begin (cx_now cx) actor r) = []) Hbranch) as (ev & l & El & Hentry). injection Hentry as K1 K2 K3.
  destruct Hpl as (c2 & d2 & T0 & S0 & Hp2). pose proof (planned_facts _ _ _ _ _ _ _ _ Hp2) as (_ & Hnum & _ & _ & Eb).
  destruct Hp2 as (Hget & _). apply openCase_Ok in Ho as (Hg & _). rewrite Hg in Hget. injection Hget as <-.
  apply appended_stored in Hev as (stored & HF & Ev). rewrite El in HF.
  apply Forall2_cons_inv_l in HF as (st & s2 & Hst & _ & ->). rewrite Eid in *.
  split_and!; [lia|by rewrite Hdis| |intros id Hid; by rewrite Hdis, Hex].
  destruct Hst as (_ & _ & R1 & R2 & _ & _ & _ & _ & _ & _ & _ & R3 & R4 & _).
  exists st. split_and!.
  - rewrite Hdis, Ev. simpl. apply list_elem_of_here.
  - rewrite R1. destruct (Hnum 0%nat ev) as (-> & _); [by rewrite El|]. rewrite Eb. lia.
  - by rewrite R2, K1.
  - by rewrite R3, K3.
  - rewrite <- K2. apply R4.
Qed.

(** ** The checks of a move *)

(** what [MoveDetailed] refuses on a loaded token, in the order it checks: an
    action with no transition, a comment against the policy of the transition, a return
    to a node the token's scope never occupied, a guard that is not registered, and a
    guard that says no.  Each leaves the database as it was, with that error. *)
Theorem move_refusals e cx db inp actor c d r tok :
  resolveActor (mi_Actor inp) (mi_ActorID inp) = Ok actor ->
  openCase db (mi_CaseID inp) (mi_ExpectedRevision inp) ErrCaseClosed = Ok c ->
  resolveDefinition e (c_Definition c) (c_Version c) = Ok d -> checkEffectDB e d db = Ok tt ->
  loadRun db c d = Ok r -> pick r (mi_TokenID inp) = Ok tok ->
  let found := findTransition (TransitionsFrom d (t_Node tok)) (mi_Action inp) in
  let comment := TrimSpace (mi_Comment inp) in
  let refuses err := MoveDetailed e cx inp db = (db, Err (sent err)) in
  (found = None -> refuses ErrInvalidTransition)
  /\ forall tr, found = Some tr ->
     (Canonical (tr_Comment tr) = CommentRequired -> comment = "" -> refuses ErrCommentRequired)
     /\ (Canonical (tr_Comment tr) = CommentNone -> comment <> "" -> refuses ErrCommentNotAllowed)
     /\ (checkComment (tr_Comment tr) comment = Ok tt ->
         (forall occ, tr_Return tr = true -> occupiedStates db (mi_CaseID inp) (t_ScopeID tok) = Ok occ ->
            tr_To tr ∉ occ -> refuses ErrReturnNotVisited)
         /\ (tr_Return tr = false -> tr_Guard tr <> "" ->
              (e_guards e !! tr_Guard tr = None -> refuses ErrGuardNotRegistered)
              /\ forall fn : GuardFunc DB, e_guards e !! tr_Guard tr = Some fn ->
                   fn db (snapshot r tok (t_Node tok)) = inr false -> refuses ErrGuardRejected)).
Proof.
  intros Hact Ho Hd Hchk Hload Hpick found comment refuses.
  assert (Hno : move_plan e cx db inp = Err (sent ErrInvalidTransition) \/ is_Some found) by
    (subst found; unfold move_plan; rewrite Hact; simpl; rewrite Ho; simpl; rewrite Hd; simpl; rewrite Hchk; simpl;
     rewrite Hload; simpl; rewrite Hpick; simpl; destruct (findTransition _ _); eauto).
  assert (Hplan : forall tr err, found = Some tr -> check_transition e db (mi_CaseID inp) r tok tr comment = Err (sent err) -> refuses err).
  { intros tr err Hf Hc. subst found refuses. unfold MoveDetailed, w_bind, w_res, move_plan.
    rewrite Hact. simpl. rewrite Ho. simpl. rewrite Hd. simpl. rewrite Hchk. simpl. rewrite Hload. simpl.
    rewrite Hpick. simpl. rewrite Hf. fold comment. by rewrite Hc. }
  split.
  { intros E. destruct Hno as [Hno|[? Hf]]; [|congruence]. subst refuses. unfold MoveDetailed, w_bind, w_res. by rewrite Hno. }
  intros tr Hf. unfold check_transition, checkGuard in Hplan. split_and!.
  - intros E1 E2. apply (Hplan tr _ Hf). unfold checkComment. by rewrite E1, E2.
  - intros E1 E2. apply (Hplan tr _ Hf). unfold checkComment. rewrite E1. simpl. by rewrite (bool_decide_false (comment = "")).
  - intros Hc. split.
    + intros occ Hret Hocc Hin. apply (Hplan tr _ Hf). rewrite Hc. simpl. rewrite Hret, Hocc. simpl. by rewrite bool_decide_false.
    + intros Hret Hg. split.
      * intros Hn. apply (Hplan tr _ Hf). rewrite Hc. simpl. rewrite Hret. simpl. rewrite bool_decide_false by done.
        unfold lookupGuard. by rewrite Hn.
      * intros fn Hfn Hres. assert (Hl : lookupGuard e (tr_Guard tr) = Ok fn) by (unfold lookupGuard; by rewrite Hfn).
        apply (Hplan tr _ Hf). rewrite Hc. simpl. rewrite Hret. simpl.
        rewrite bool_decide_false, Hl by done. simpl. by rewrite Hres.
Qed.

End Operations.

(** ** The theorems on the scenario *)

Definition no_token : Token :=
  mkToken 0%N 0%N 0%N "" TokenActive zero_Eligibility "" None None 0 0 0 None OutcomeNone.

(** The run a call loads from [db], and the token [id] in it. *)
Definition loaded (db : Tables) (id : uuid) : caseRun * Token :=
  result_of (new_run (case_in db) review [] [], no_token) (loadToken office db (case_in db) id).

Definition claiming : ClaimInput := mkClaimInput the_case legal_token lawyer None.
Definition claimed : Tables * result Case := ClaimWith office (at_call 3) claiming db2.

(** The claim leads from [db2] to a state where the lawyer holds the token. *)
Definition db_claimed : Tables := Eval vm_compute in fst claimed.

Lemma reach_claimed : reachable office db_claimed.
Proof.
  apply (reach_next office 3 (CClaim claiming) db2 db_claimed reach2 eq_refl).
  vm_cast_no_check (eq_refl (db_claimed, Ok (E := error) tt)).
Qed.

Lemma claim_outcomes_witness :
  changed_one db2 db_claimed the_case (loaded db2 legal_token).2 (token_with_assignee "luis") EventAssigned
    (marshal_AssignmentDetail (mkAssignmentDetail "" "luis" "")) "luis" 3000
  /\ ClaimWith office (at_call 4) claiming db_claimed = (db_claimed, Ok (case_in db_claimed)).
Proof.
  split.
  - refine (proj2 (proj2 (claim_outcomes office (at_call 3) db2 claiming lawyer (case_in db2)
      (loaded db2 legal_token).1 (loaded db2 legal_token).2 office_ok office_sink reach2 (fresh_at 3 db2 eq_refl)
      eq_refl _ _ _)) db_claimed (case_in db_claimed) _ _); [intros E; discriminate E | vm_compute; reflexivity..].
  - refine (proj1 (claim_outcomes office (at_call 4) db_claimed claiming lawyer (case_in db_claimed)
      (loaded db_claimed legal_token).1 (loaded db_claimed legal_token).2 office_ok office_sink reach_claimed
      (fresh_at 4 db_claimed eq_refl) eq_refl _ _ _) _); [intros E; discriminate E | vm_compute; reflexivity..].
Defined.

Definition releasing (actor : Actor) : ReleaseInput := mkReleaseInput the_case legal_token actor "" None.
Definition released : Tables * result Case := ReleaseWith office (at_call 4) (releasing lawyer) db_claimed.

Lemma release_outcomes_witness :
  changed_one db_claimed (fst released) the_case (loaded db_claimed legal_token).2 (token_with_assignee "")
    EventUnassigned (marshal_AssignmentDetail (mkAssignmentDetail "luis" "" "")) "luis" 4000
  /\ ReleaseWith office (at_call 4) (releasing clerk) db_claimed = (db_claimed, Err (sent ErrReasonRequired)).
Proof.
  split.
  - refine (proj2 (proj2 (release_outcomes office (at_call 4) db_claimed (releasing lawyer) lawyer (case_in db_claimed)
      (loaded db_claimed legal_token).1 (loaded db_claimed legal_token).2 office_ok office_sink reach_claimed
      (fresh_at 4 db_claimed eq_refl) eq_refl _ _)) (fst released)
      (result_of (case_in db_claimed) (snd released)) _); vm_compute; reflexivity.
  - refine (proj1 (proj2 (release_outcomes office (at_call 4) db_claimed (releasing clerk) clerk (case_in db_claimed)
      (loaded db_claimed legal_token).1 (loaded db_claimed legal_token).2 office_ok office_sink reach_claimed
      (fresh_at 4 db_claimed eq_refl) eq_refl _ _)) _ _ _);
      [vm_compute; reflexivity..|intros E; vm_compute in E; discriminate E|intros E; vm_compute in E; discriminate E|reflexivity].
Defined.

Definition reassigning : ReassignInput := mkReassignInput the_case legal_token "marta" clerk " leave " None.
Definition reassigned : Tables * result Case := Reassign office (at_call 4) reassigning db_claimed.

Lemma reassign_outcomes_witness :
  changed_one db_claimed (fst reassigned) the_case (loaded db_claimed legal_token).2 (token_with_assignee "marta")
    EventAssigned (marshal_AssignmentDetail (mkAssignmentDetail "luis" "marta" "leave")) "ana" 4000.
Proof.
  refine (proj2 (proj2 (reassign_outcomes office (at_call 4) db_claimed reassigning clerk (case_in db_claimed)
    (loaded db_claimed legal_token).1 (loaded db_claimed legal_token).2 office_ok office_sink reach_claimed
    (fresh_at 4 db_claimed eq_refl) eq_refl _ _)) (fst reassigned)
    (result_of (case_in db_claimed) (snd reassigned)) _); vm_compute; reflexivity.
Defined.

(** A deadline for the lawyer, which passes before call 5. *)
Definition due : SetDeadlineInput := mkSetDeadlineInput the_case legal_token (Some 4500) clerk "urgent" None.
Definition db_due : Tables := Eval vm_compute in fst (SetDeadline office (at_call 4) due db_claimed).

Lemma reach_due : reachable office db_due.
Proof.
  apply (reach_next office 4 (CSetDeadline due) db_claimed db_due reach_claimed eq_refl).
  vm_cast_no_check (eq_refl (db_due, Ok (E := error) tt)).
Qed.

Lemma set_deadline_outcomes_witness :
  changed_one db_claimed db_due the_case (loaded db_claimed legal_token).2 (token_set_deadline (Some 4500))
    EventDeadlineChanged (marshal_DeadlineDetail (mkDeadlineDetail None (Some 4500) "urgent")) "ana" 4000.
Proof.
  refine (proj2 (set_deadline_outcomes office (at_call 4) db_claimed due clerk (case_in db_claimed)
    (loaded db_claimed legal_token).1 (loaded db_claimed legal_token).2 office_ok office_sink reach_claimed
    (fresh_at 4 db_claimed eq_refl) eq_refl _ _) db_due (case_in db_due) _); vm_compute; reflexivity.
Defined.

Definition the_clock : Actor := mkActor ActorSystem "clock" "" "" "".
Definition expiring : ExpireInput := mkExpireInput the_case legal_token the_clock.
Definition expired : Tables * result MoveResult := Expire office (at_call 5) expiring db_due.
Definition expiry_run : caseRun :=
  (result_of (review, new_run (case_in db_due) review [] [], None) (expire_plan office (at_call 5) db_due expiring)).1.2.

Lemma expire_once_witness :
  exists tok deadline actor,
    t_DeadlineAt tok = Some deadline /\ deadline < 5000 /\ t_ExpiredDeadline tok <> Some deadline
    /\ changed_one db_due (fst expired) the_case tok (token_with_expired (Some deadline)) EventExpired
         (marshal_ExpiryDetail (mkExpiryDetail deadline)) (a_ID actor) 5000
    /\ forall now' tok', 5000 <= now' -> tok' ∈ v_tokens (view (fst expired) the_case) ->
         t_ID tok' = t_ID tok -> expired_deadline now' tok' = Err (sent ErrAlreadyExpired).
Proof.
  apply (expire_once office (at_call 5) db_due expiring review expiry_run (fst expired)
    (result_of (mkMoveResult (case_in db_due) [] []) (snd expired)) office_ok office_sink reach_due
    (fresh_at 5 db_due eq_refl)); vm_compute; reflexivity.
Defined.

Definition cancelling : CancelInput := mkCancelInput the_case clerk " withdrawn " None.
Definition cancelled : Tables * result Case := Cancel office (at_call 3) cancelling db2.

Lemma cancel_ends_case_witness :
  exists c T evs last,
    v_case (view db2 the_case) = Some c /\ c_Status c = StatusOpen
    /\ v_case (view (fst cancelled) the_case) = Some (result_of (case_in db2) (snd cancelled))
    /\ c_Status (result_of (case_in db2) (snd cancelled)) = StatusCancelled
    /\ c_ClosedAt (result_of (case_in db2) (snd cancelled)) = Some 3000
    /\ reread (v_tokens (view db2 the_case)) T
    /\ (exists T', v_tokens (view (fst cancelled) the_case) ≡ₚ T'
          /\ Forall2 (fun t t' => t_ID t' = t_ID t /\ t_Status t' = cancelled_status (t_Status t)) T T')
    /\ (forall s, s ∈ v_scopes (view (fst cancelled) the_case) -> s_Status s <> ScopeOpen)
    /\ v_events (view (fst cancelled) the_case) ≡ₚ evs ++ last :: v_events (view db2 the_case)
    /\ ev_Kind <$> evs = replicate (count (fun t => Live (t_Status t)) T) EventTokenCancelled
    /\ ev_Kind last = EventCancelled /\ ev_Detail last = Some (cancelDetail "withdrawn")
    /\ same_except view db2 (fst cancelled) the_case.
Proof.
  refine (proj2 (cancel_ends_case office (at_call 3) db2 cancelling office_ok office_sink reach2
    (fresh_at 3 db2 eq_refl)) (fst cancelled) (result_of (case_in db2) (snd cancelled)) _).
  vm_compute. reflexivity.
Defined.

Definition dropping (token : uuid) : CancelTokenInput := mkCancelTokenInput the_case token clerk "not needed".
Definition dropped : Tables * result MoveResult := CancelToken office (at_call 3) (dropping legal_token) db2.

Lemma cancel_token_outcomes_witness :
  CancelToken office (at_call 2) (dropping the_case) db1 = (db1, Err (sent ErrLastBranch))
  /\ exists st, st ∈ v_events (view (fst dropped) the_case) /\ ev_Seq st = c_LastSeq (case_in db2) + 1
       /\ ev_Kind st = EventTokenCancelled /\ ev_Detail st = Some (cancelDetail "not needed")
       /\ (t_ID (loaded db2 legal_token).2 <> uuid_Nil -> ev_TokenID st = t_ID (loaded db2 legal_token).2).
Proof.
  split.
  - refine (proj1 (cancel_token_outcomes office (at_call 2) db1 (dropping the_case) clerk (case_in db1) review
      (loaded db1 the_case).1 (loaded db1 the_case).2 office_ok office_sink reach1 (fresh_at 2 db1 eq_refl)
      _ _ eq_refl _ _ _ _ _) _); [intros E; vm_compute in E; discriminate E..| | | | | |]; vm_compute; reflexivity.
  - refine (proj1 (proj2 (proj2 (proj2 (cancel_token_outcomes office (at_call 3) db2 (dropping legal_token) clerk
      (case_in db2) review (loaded db2 legal_token).1 (loaded db2 legal_token).2 office_ok office_sink reach2
      (fresh_at 3 db2 eq_refl) _ _ eq_refl _ _ _ _ _) (fst dropped)
      (result_of (mkMoveResult (case_in db2) [] []) (snd dropped)) _))));
      [intros E; vm_compute in E; discriminate E..| | | | | |]; vm_compute; reflexivity.
Defined.

Lemma move_refusals_witness :
  MoveDetailed office (at_call 3) (moving legal_token lawyer "archive" "") db2
    = (db2, Err (sent ErrInvalidTransition))
  /\ MoveDetailed office (at_call 3) (moving legal_token lawyer "reject" " ") db2
    = (db2, Err (sent ErrCommentRequired)).
Proof.
  split.
  - refine (proj1 (move_refusals office (at_call 3) db2 (moving legal_token lawyer "archive" "") lawyer (case_in db2)
      review (loaded db2 legal_token).1 (loaded db2 legal_token).2 eq_refl _ _ _ _ _) _); vm_compute; reflexivity.
  - refine (proj1 (proj2 (move_refusals office (at_call 3) db2 (moving legal_token lawyer "reject" " ") lawyer
      (case_in db2) review (loaded db2 legal_token).1 (loaded db2 legal_token).2 eq_refl _ _ _ _ _)
      (arc "legal" "merge" "reject" "" CommentRequired false OutcomeRejected) _) _ _); vm_compute; reflexivity.
Defined.
