(* ===== verification/DefinitionTheorems.v ===== *)
(** The theorems on definitions: what a definition without violations guarantees to
    the engine that runs it, the registry of definitions, join policies, and two limits
    of the validation and the registry. *)

From stdpp Require Import base gmap fin_maps sets list strings relations.
From Stdlib Require Import ZArith Lia.
From S2P Require Import Prelude GoStrings Errors Model Definitions JoinPolicies Repo Ports Events.
From S2P Require Import Run Validate Engine RunFrame CaseInv RunInv ValidateFacts GraphFacts.
From S2P Require Import BlockFacts System Postgres Scenario.

Open Scope string_scope.
Open Scope list_scope.
Open Scope Z_scope.

(** ** The graph of a valid definition *)

(** C21: a valid definition is block structured.  A split names a join; a node inside a
    branch of its block is never terminal and leads to that join without leaving the
    branch; two branches share no node; no branch leads back to the split; and only the
    split leads into the block, by a transition that is not a return. *)
Theorem valid_blocks_structured d s tr :
  Validate d = [] -> s ∈ d_Nodes d -> IsSplit (n_Kind s) = true -> tr ∈ TransitionsFrom d (n_ID s) ->
  (exists j, Definition_Node d (n_Join s) = Some j /\ n_Kind j = NodeJoin)
  /\ (forall x n, inside (d := d) s tr x -> Definition_Node d x = Some n ->
        n_Terminal n = false /\ rtc (edge (inner_adj d s)) x (n_Join s))
  /\ (forall tr' x, tr' ∈ TransitionsFrom d (n_ID s) -> tr <> tr' -> inside (d := d) s tr x ->
        ~ inside (d := d) s tr' x)
  /\ (n_ID s <> n_Join s -> ~ rtc (edge (inner_adj d s)) (tr_To tr) (n_ID s))
  /\ (forall t, t ∈ d_Transitions d -> tr_Return t = false -> inside (d := d) s tr (tr_To t) \/ tr_To t = n_Join s ->
        tr_From t = n_ID s \/ exists tr', tr' ∈ TransitionsFrom d (n_ID s) /\ inside (d := d) s tr' (tr_From t)).
Proof.
  intros HV%Validate_parts Hs Hk Htr. split_and!.
  - by apply valid_split.
  - intros x n Hx Hn. split; [by eapply (valid_inside_not_terminal HV s Hs Hk)|].
    eapply (valid_inside_reaches_join HV s Hs Hk); eauto.
  - intros tr' x Htr' Hne. by apply (valid_branches_disjoint HV s Hs Hk).
  - intros Hne. by apply (valid_no_reentry HV s Hs Hk).
  - intros t Ht Hr. by apply (valid_block_entry HV s Hs Hk tr).
Qed.

(** the automatic nodes of a valid definition form no cycle: no path through
    decisions, splits and joins alone leads back to where it started. *)
Theorem valid_gateways_acyclic d id : Validate d = [] -> ~ tc (edge (gatewayAdjacency d)) id id.
Proof. intros HV%Validate_parts. by apply valid_acyclic. Qed.

(** every node of a valid definition is reachable from its start node. *)
Theorem valid_nodes_reachable d n start :
  Validate d = [] -> n ∈ d_Nodes d -> StartNode d = Some start -> rtc (edge (adjacency d)) (n_ID start) (n_ID n).
Proof. intros HV%Validate_parts. by apply valid_reachable. Qed.

(** [detectGatewayCycle] is exact on a graph whose edges stay among its nodes: what
    it reports is a cycle, and when it reports none no node lies on one. *)
Theorem detect_cycle_exact nodes adj :
  (forall x y, edge adj x y -> y ∈ nodes) ->
  match detectGatewayCycle nodes adj with
  | Some c => is_cycle adj c
  | None => forall n, n ∈ nodes -> ~ tc (edge adj) n n
  end.
Proof. apply detectGatewayCycle_spec. Qed.

(** ** Routing out of an automatic node *)

Section Routing.
Context {DB : Type} `{Repository DB}.
Implicit Types (e : Engine DB) (db : DB).

(** The answer of the guard named by [tr] on [c]: no name passes. *)
Definition passes e db (c : Case) (tr : Transition) : Prop :=
  tr_Guard tr = "" \/ exists fn : GuardFunc DB, e_guards e !! tr_Guard tr = Some fn /\ fn db c = inr true.

Definition rejects e db (c : Case) (tr : Transition) : Prop :=
  tr_Guard tr <> "" /\ exists fn : GuardFunc DB, e_guards e !! tr_Guard tr = Some fn /\ fn db c = inr false.

(** Every guard of [routes] is registered and answers on [c]. *)
Definition guards_answer e db (c : Case) (routes : list Transition) : Prop :=
  forall tr, tr ∈ routes -> passes e db c tr \/ rejects e db c tr.

Lemma guard_passes e db c tr :
  passes e db c tr -> tr_Guard tr <> "" ->
  exists fn, lookupGuard e (tr_Guard tr) = Ok fn /\ fn db c = inr true.
Proof. intros [?|(fn & Hf & Ha)] Hne; [done|]. exists fn. unfold lookupGuard. by rewrite Hf. Qed.

Lemma guard_rejects e db c tr :
  rejects e db c tr -> tr_Guard tr <> "" /\ exists fn, lookupGuard e (tr_Guard tr) = Ok fn /\ fn db c = inr false.
Proof. intros (Hne & fn & Hf & Ha). split; [done|]. exists fn. unfold lookupGuard. by rewrite Hf. Qed.

Lemma resolveRoute_first e db c routes :
  guards_answer e db c routes -> (exists tr, tr ∈ routes /\ tr_Guard tr = "") ->
  exists before tr after, routes = before ++ tr :: after /\ resolveRoute e db routes c = Ok tr
    /\ Forall (rejects e db c) before /\ passes e db c tr.
Proof.
  induction routes as [|r routes IH]; intros Hg (tr & Htr & Hd); [by apply not_elem_of_nil in Htr|].
  destruct (decide (tr_Guard r = "")) as [E|E].
  { exists [], r, routes. simpl. rewrite bool_decide_true by done. split_and!; [done..|constructor|by left]. }
  simpl. rewrite bool_decide_false by done.
  destruct (Hg r (list_elem_of_here _ _)) as [Hp|Hr].
  - destruct (guard_passes _ _ _ _ Hp E) as (fn & -> & Ea). simpl. rewrite Ea. simpl. exists [], r, routes.
    split_and!; [done..|constructor|done].
  - pose proof Hr as (_ & fn & Ef & Ea)%guard_rejects. rewrite Ef. simpl. rewrite Ea. simpl.
    destruct IH as (b & t & a & -> & Hres & HF & Hp).
    + intros t Ht. apply Hg. by apply list_elem_of_further.
    + exists tr. apply elem_of_cons in Htr as [->|Htr]; [done|]. done.
    + exists (r :: b), t, a. split_and!; [done|done|by constructor|done].
Qed.

Lemma inclusive_routes_split e db c routes :
  guards_answer e db c routes ->
  exists taken fallback, inclusive_routes e db routes c = Ok (taken, fallback)
    /\ (forall tr, tr ∈ taken <-> tr ∈ routes /\ tr_Guard tr <> "" /\ passes e db c tr)
    /\ (forall tr, tr ∈ fallback <-> tr ∈ routes /\ tr_Guard tr = "").
Proof.
  induction routes as [|r routes IH]; intros Hg.
  { exists [], []. split_and!; [done|..]; intros tr; rewrite !elem_of_nil; tauto. }
  destruct IH as (t & f & IH1 & IH2 & IH3); [intros tr Htr; apply Hg; by apply list_elem_of_further|].
  simpl. rewrite IH1. destruct (decide (tr_Guard r = "")) as [E|E].
  { rewrite bool_decide_true by done. exists t, (r :: f). split_and!; [done|..]; intros tr; rewrite !elem_of_cons.
    - rewrite IH2. naive_solver.
    - rewrite IH3. naive_solver. }
  rewrite bool_decide_false by done. destruct (Hg r (list_elem_of_here _ _)) as [Hp|Hr].
  - destruct (guard_passes _ _ _ _ Hp E) as (fn & -> & Ea). simpl. rewrite Ea. simpl. exists (r :: t), f.
    split_and!; [done|..]; intros tr; rewrite !elem_of_cons; [rewrite IH2 | rewrite IH3]; naive_solver.
  - pose proof Hr as (_ & fn & Ef & Ea)%guard_rejects. rewrite Ef. simpl. rewrite Ea. simpl. exists t, f.
    assert (Hno : ~ passes e db c r).
    { destruct Hr as (_ & fn1 & E1 & A1). intros [?|(fn2 & E2 & A2)]; [done|]. congruence. }
    split_and!; [done|..]; intros tr; rewrite !elem_of_cons; [rewrite IH2 | rewrite IH3]; naive_solver.
Qed.

(** an automatic node of a valid definition always has a way on.  With its guards
    registered and answering, a decision takes its first route whose guard passes; an
    inclusive split takes exactly the guarded routes that pass, or its default when none
    does, and never an empty set. *)
Theorem valid_node_routes e db r tok n :
  Validate (r_d r) = [] -> n ∈ d_Nodes (r_d r) ->
  guards_answer e db (snapshot r tok (n_ID n)) (TransitionsFrom (r_d r) (n_ID n)) ->
  let c := snapshot r tok (n_ID n) in
  let routes := TransitionsFrom (r_d r) (n_ID n) in
  (n_Kind n = NodeDecision ->
     exists before tr after, routes = before ++ tr :: after /\ resolveRoute e db routes c = Ok tr
       /\ Forall (rejects e db c) before /\ passes e db c tr)
  /\ (n_Kind n = NodeInclusive ->
     exists taken, split_taken e db r tok n = Ok taken /\ taken <> []
       /\ ((forall tr, tr ∈ taken <-> tr ∈ routes /\ tr_Guard tr <> "" /\ passes e db c tr)
           \/ (forall tr, tr ∈ routes -> tr_Guard tr <> "" -> rejects e db c tr)
              /\ forall tr, tr ∈ taken <-> tr ∈ routes /\ tr_Guard tr = "")).
Proof.
  intros HV%Validate_parts Hn Hg c routes. split; intros Hk.
  - apply resolveRoute_first; [done|]. apply (valid_default HV n Hn). by left.
  - destruct (valid_default HV n Hn (or_intror Hk)) as (tr0 & Htr0 & Hd0).
    destruct (inclusive_routes_split e db c routes Hg) as (t & f & Hi & Ht & Hf).
    unfold split_taken. rewrite bool_decide_false by (by rewrite Hk). fold routes c. rewrite Hi. simpl.
    exists (if bool_decide (t = []) then f else t). split; [done|]. case_bool_decide as E.
    + split.
      * intros ->. assert (Hin : tr0 ∈ []) by (by apply Hf). by apply not_elem_of_nil in Hin.
      * right. split; [|done]. intros tr Htr Hne. destruct (Hg tr Htr) as [Hp|Hr]; [|done].
        assert (Hin : tr ∈ t) by (by apply Ht). rewrite E in Hin. by apply not_elem_of_nil in Hin.
    + split; [done|]. by left.
Qed.

End Routing.

(** ** Join policies *)

(** A later tally of the same round: answers and cancellations are only added, up to
    the number of branches. *)
Definition later_tally (t t' : roundTally) : Prop :=
  rt_approved t <= rt_approved t' /\ rt_rejected t <= rt_rejected t' /\ rt_cancelled t <= rt_cancelled t'
  /\ rt_expected t' = rt_expected t /\ rt_approved t' + rt_rejected t' + rt_cancelled t' <= rt_expected t'.

(** Turns the boolean tests of [closes] into inequalities. *)
Ltac tally_tests :=
  repeat match goal with
  | H : (_ && _) = true |- _ => apply andb_true_iff in H as [? ?]
  | H : (_ && _) = false |- _ => apply andb_false_iff in H as [? | ?]
  | H : (_ <? _) = true |- _ => apply Z.ltb_lt in H
  | H : (_ <? _) = false |- _ => apply Z.ltb_ge in H
  | H : (_ =? _) = true |- _ => apply Z.eqb_eq in H
  | H : (_ =? _) = false |- _ => apply Z.eqb_neq in H
  end.

(** closing a round early is sound.  A verdict reached before every branch answered
    is the verdict of every later tally of the round; a complete round with a policy
    always closes; and no policy closes a round on cancellations alone. *)
Theorem verdict_final p t v :
  tally_ok t -> JoinPolicy_Valid p = true -> p <> JoinNone ->
  (closes p t = (true, v) ->
     0 < rt_approved t + rt_rejected t /\ forall t', later_tally t t' -> closes p t' = (true, v))
  /\ (tally_complete t -> exists w, closes p t = (true, w)).
Proof.
  intros Ht Hv Hp. split.
  - intros Hc. split; [apply (closes_answered p); [done|by rewrite Hc]|].
    intros t' (H1 & H2 & H3 & H4 & H5). unfold tally_ok in Ht. destruct p; try done; unfold closes in *;
      repeat match goal with
      | H : context [if ?b then _ else _] |- _ => destruct b eqn:?
      | |- context [if ?b then _ else _] => destruct b eqn:?
      end; try (injection Hc as Hc ?; subst v); try done; tally_tests; try lia; try done.
    f_equal. apply andb_true_iff. rewrite Z.ltb_lt, Z.eqb_eq. lia.
  - intros Hc. pose proof (closes_complete p t Hp Hv Ht Hc) as Hf. exists (snd (closes p t)).
    rewrite (surjective_pairing (closes p t)). by rewrite Hf.
Qed.

(** ** The registry *)

Section Registry.
Context {DB : Type} `{Repository DB}.
Implicit Types (e : Engine DB).

(** A definition that names no effect, deadline rule or assign rule. *)
Definition plain (d : WDefinition) : Prop :=
  Validate d = [] /\ EffectNames d = [] /\ DeadlineRules d = [] /\ AssignRules d = [].

(** What [New] keeps of the definitions [pending] it registered. *)
Record registry (pending : list WDefinition) e : Prop := mkRegistry {
  rg_ok : engine_ok e;
  rg_defs : forall k d, e_definitions e !! k = Some d ->
    d ∈ pending /\ exists l, e_latest e !! d_Name d = Some l /\ d_Version d <= d_Version l;
  rg_latest : forall n l, e_latest e !! n = Some l -> l ∈ pending;
  rg_plain : forall d, d ∈ pending -> plain d -> e_definitions e !! Key d = Some d }.

Lemma Register_Ok e e' d :
  Register e d = Ok e' ->
  Validate d = [] /\ e_definitions e' = <[Key d := d]> (e_definitions e)
  /\ (e_latest e' = <[d_Name d := d]> (e_latest e)
        /\ (forall l, e_latest e !! d_Name d = Some l -> d_Version l < d_Version d)
      \/ e_latest e' = e_latest e /\ exists l, e_latest e !! d_Name d = Some l /\ d_Version d <= d_Version l).
Proof.
  intros Hr. unfold Register in Hr. res_inv.
  match goal with Hb : bool_decide (Validate d = []) = true |- _ => apply bool_decide_eq_true in Hb; rename Hb into HV end.
  split_and!; [done..|]. simpl. destruct (e_latest e !! d_Name d) as [l|]; simpl.
  - destruct (d_Version l <? d_Version d) eqn:El; [left|right]; tally_tests.
    + split; [done|]. intros ? [= <-]. done.
    + eauto.
  - left. split; done.
Qed.

Lemma Register_plain e d : plain d -> exists e', Register e d = Ok e'.
Proof.
  intros (HV & HE & HD & HA). unfold Register, checkEffects. rewrite HV, HE, HD, HA. simpl. eauto.
Qed.

Lemma registry_skip pending e d :
  registry pending e -> (plain d -> False) -> registry (pending ++ [d]) e.
Proof.
  intros [H1 H2 H3 H4] Hn. constructor; [done|..].
  - intros k d0 Hk. destruct (H2 k d0 Hk) as [Hin Hl]. split; [|done]. apply elem_of_app. by left.
  - intros n l Hl. apply elem_of_app. left. by eapply H3.
  - intros d0 [Hin|E0%list_elem_of_singleton]%elem_of_app Hp; try subst d0; [auto|done].
Qed.

Lemma registry_add pending e e' d :
  registry pending e -> Key d ∉ Key <$> pending -> Register e d = Ok e' -> registry (pending ++ [d]) e'.
Proof.
  intros [H1 H2 H3 H4] Hnew Hr.
  assert (Hno : e_definitions e !! Key d = None).
  { destruct (e_definitions e !! Key d) as [d0|] eqn:E; [|done]. exfalso. apply Hnew.
    destruct (H2 _ _ E) as [Hin _]. destruct (eo_defs e H1 _ _ E) as [-> _]. by apply list_elem_of_fmap_2. }
  pose proof (Register_engine_ok e e' d H1 Hno Hr) as H1'.
  apply Register_Ok in Hr as (_ & Ed & Hl). constructor; [done|..].
  - rewrite Ed. intros k d0 [[<- <-]|[_ Hk]]%lookup_insert_Some.
    + split; [apply elem_of_app; right; apply list_elem_of_here|].
      destruct Hl as [[-> _]|[-> Hl]]; [|done]. rewrite lookup_insert_eq. eexists. split; [done|lia].
    + destruct (H2 k d0 Hk) as [Hin (l & Hl0 & Hle)]. split; [apply elem_of_app; by left|].
      destruct Hl as [[-> Hlt]|[-> _]]; [|eauto]. destruct (decide (d_Name d = d_Name d0)) as [En|En].
      * rewrite En, lookup_insert_eq. exists d. split; [done|]. rewrite En in Hlt. specialize (Hlt l Hl0). lia.
      * rewrite lookup_insert_ne by done. eauto.
  - intros n l Hl0. apply elem_of_app. destruct Hl as [[El _]|[El _]]; rewrite El in Hl0; [|left; by eapply H3].
    apply lookup_insert_Some in Hl0 as [[_ <-]|[_ Hl0]]; [right; apply list_elem_of_here | left; by eapply H3].
  - intros d0 [Hin|E0%list_elem_of_singleton]%elem_of_app Hp; try subst d0; rewrite Ed; [|apply lookup_insert_eq].
    rewrite lookup_insert_ne; [by apply H4|]. intros E. apply Hnew. rewrite E. by apply list_elem_of_fmap_2.
Qed.

Lemma New_registry (ports : Engine DB) pending : NoDup (Key <$> pending) -> registry pending (New ports pending).
Proof.
  induction pending as [|d pending IH] using rev_ind; intros Hnd.
  { constructor; simpl; [constructor; simpl|..]; try (intros ?? E; by rewrite lookup_empty in E).
    by intros d Hd%not_elem_of_nil. }
  rewrite fmap_app in Hnd. csimpl in Hnd. apply NoDup_app in Hnd as (Hnd & Hd & _).
  unfold New. rewrite fold_left_app. simpl. fold (New ports pending). specialize (IH Hnd).
  assert (Hnew : Key d ∉ Key <$> pending) by (intros Hin; apply (Hd _ Hin), list_elem_of_here).
  destruct (Register (New ports pending) d) as [e'| | |] eqn:Er; [by eapply registry_add|..];
    (apply registry_skip; [done|]; intros [e' He']%(Register_plain (New ports pending)); congruence).
Qed.

(** the registry [New] builds from definitions with distinct keys is sound: every
    definition it answers is valid and one of those given; version 0 resolves to the
    highest version registered under the name, and exists as soon as some version does;
    and a valid definition without effects or rules resolves to itself. *)
Theorem registry_resolves (ports : Engine DB) pending name :
  NoDup (Key <$> pending) ->
  let e := New ports pending in
  engine_ok e
  /\ (forall d, resolveDefinition e name 0 = Ok d -> d ∈ pending /\ d_Name d = name
        /\ forall v d', 0 < v -> resolveDefinition e name v = Ok d' ->
             d' ∈ pending /\ d_Name d' = name /\ d_Version d' = v /\ v <= d_Version d)
  /\ (forall v d, 0 < v -> resolveDefinition e name v = Ok d -> exists d', resolveDefinition e name 0 = Ok d')
  /\ (forall d, d ∈ pending -> plain d -> resolveDefinition e (d_Name d) (d_Version d) = Ok d).
Proof.
  intros Hnd e. pose proof (New_registry ports pending Hnd) as [Hok Hdefs Hlat Hpl]. fold e in Hok, Hdefs, Hlat, Hpl.
  clearbody e.
  assert (Hver : forall v d, 0 < v -> resolveDefinition e name v = Ok d ->
    d_Name d = name /\ d_Version d = v /\ d ∈ pending
    /\ exists l, e_latest e !! name = Some l /\ d_Version d <= d_Version l).
  { intros v d Hv Hr. destruct (resolveDefinition_ok e name v d Hok Hr) as (_ & En & _ & Ev). specialize (Ev Hv).
    unfold resolveDefinition in Hr. rewrite (proj2 (Z.ltb_lt _ _)) in Hr by lia. case_match eqn:Ek; [|done].
    injection Hr as ->. destruct (Hdefs _ _ Ek) as [Hin Hl]. rewrite En in Hl. done. }
  split_and!; [done|..].
  - intros d Hr. unfold resolveDefinition in Hr. simpl in Hr. case_match eqn:El; [|done]. injection Hr as ->.
    split_and!; [by eapply Hlat | by apply (eo_latest e Hok)|]. intros v d' Hv Hr.
    destruct (Hver v d' Hv Hr) as (E1 & E2 & Hin & l & Hl & Hle). split_and!; try done.
    simplify_eq. lia.
  - intros v d Hv Hr. destruct (Hver v d Hv Hr) as (_ & _ & _ & l & Hl & _). exists l.
    unfold resolveDefinition. simpl. by rewrite Hl.
  - intros d Hin Hp. specialize (Hpl d Hin Hp). destruct Hp as (HV%Validate_parts & _).
    unfold resolveDefinition. pose proof (vd_version d HV). rewrite (proj2 (Z.ltb_lt _ _)) by lia.
    unfold Key in Hpl. by rewrite Hpl.
Qed.

(** registering a definition again under the same name and version replaces it for
    callers that pin the version, and not for callers that ask for the latest one: those
    still get the definition registered first. *)
Theorem reregister_keeps_latest e d d' e1 e2 :
  e_latest e !! d_Name d = None -> Register e d = Ok e1 -> Register e1 d' = Ok e2 ->
  d_Name d' = d_Name d -> d_Version d' = d_Version d ->
  resolveDefinition e2 (d_Name d) 0 = Ok d /\ resolveDefinition e2 (d_Name d) (d_Version d) = Ok d'.
Proof.
  intros Hno (HV & _ & Hl1)%Register_Ok (_ & Ed2 & Hl2)%Register_Ok En Ev.
  destruct Hl1 as [[El1 _]|[_ (l & Hl & _)]]; [|congruence]. rewrite En, El1 in Hl2.
  assert (e_latest e2 !! d_Name d = Some d) as Hl.
  { destruct Hl2 as [[_ Hlt]|[-> _]]; [|apply lookup_insert_eq].
    specialize (Hlt d (lookup_insert_eq _ _ _)). lia. }
  unfold resolveDefinition. simpl. rewrite Hl. split; [done|].
  apply Validate_parts in HV. pose proof (vd_version d HV). rewrite (proj2 (Z.ltb_lt _ _)) by lia.
  rewrite Ed2. unfold Key. by rewrite En, Ev, lookup_insert_eq.
Qed.

End Registry.

(** ** The limit on decisions in a row *)

(** A decision with a guarded way out and a default to [next]. *)
Definition step_name (i : nat) : string := ("d" ++ itoa (Z.of_nat i))%string.

Definition step_out (last : nat) (i : nat) : list Transition :=
  [ arc (step_name i) "done" "stop" "stop_here" CommentNone false OutcomeNone;
    arc (step_name i) (if (i <? last)%nat then step_name (S i) else "done") "next" "" CommentNone false OutcomeNone ].

(** A task, [S last] decisions in a row, and the end. *)
Definition long_chain (last : nat) : WDefinition :=
  mkDefinition "chain" 1
    ([task "start" true false "clerk" 0 ""]
     ++ ((fun i => gateway (step_name i) NodeDecision "" JoinNone) <$> seq 0 (S last))
     ++ [task "done" false true "" 0 ""])
    (arc "start" (step_name 0) "go" "" CommentNone false OutcomeNone
     :: concat (step_out last <$> seq 0 (S last))).

Definition chain_engine (last : nat) : Engine Tables :=
  result_of ports (RegisterGuard (New ports [long_chain last]) "stop_here" (Some (fun _ _ => inr false))).

Definition chain_opening : OpenInput := mkOpenInput "chain" 0 "permits" "C-1" "north" "" clerk "".
Definition chain_db (last : nat) : Tables := fst (OpenDetailed (chain_engine last) (at_call 1) chain_opening db0).
Definition chain_move (last : nat) : result Case :=
  snd (Move (chain_engine last) (at_call 2) (moving 0%N clerk "go" "") (chain_db last)).

(** a valid definition can exceed the limit on decision hops.  Thirty-one decisions
    in a row are routed through; with thirty-two the definition still validates, and the
    move out of the task before them always fails with [ErrTooManyDecisionHops]. *)
Theorem validated_chain_exceeds_hops :
  Validate (long_chain 31) = [] /\ chain_move 31 = Err (sent ErrTooManyDecisionHops)
  /\ c_Status <$> (match chain_move 30 with Ok c => Some c | _ => None end) = Some StatusClosed.
Proof. split_and!; vm_compute; reflexivity. Qed.

(** ** The theorems on the scenario *)

Definition legal_arc : Transition := arc "fork" "legal" "to_legal" "" CommentNone false OutcomeNone.
Definition finance_arc : Transition := arc "fork" "finance" "to_finance" "" CommentNone false OutcomeNone.
Definition fork : Node := gateway "fork" NodeParallel "merge" JoinNone.

Lemma valid_blocks_structured_witness :
  inside (d := review) fork legal_arc "legal" /\ ~ inside (d := review) fork finance_arc "legal"
  /\ rtc (edge (inner_adj review fork)) "legal" "merge".
Proof.
  assert (Hi : inside (d := review) fork legal_arc "legal") by (split; [constructor|split; intros E; discriminate E]).
  destruct (valid_blocks_structured review fork legal_arc review_valid) as (_ & H1 & H2 & _).
  - right. left.
  - reflexivity.
  - vm_compute. left.
  - split_and!; [done| |].
    + apply H2; [vm_compute; right; left | intros E; discriminate E | done].
    + apply (H1 "legal" (task "legal" false false "lawyer" 0 "")); [done | reflexivity].
Defined.

Lemma valid_gateways_acyclic_witness : ~ tc (edge (gatewayAdjacency review)) "merge" "merge".
Proof. exact (valid_gateways_acyclic review "merge" review_valid). Defined.

Lemma valid_nodes_reachable_witness : rtc (edge (adjacency review)) "draft" "done".
Proof.
  apply (valid_nodes_reachable review (task "done" false true "" 0 "") (task "draft" true false "clerk" 3600 "escalate")
    review_valid); [repeat (left || right) | reflexivity].
Defined.

(** A cycle of two nodes. *)
Definition pair_adj (x : string) : list string := if bool_decide (x = "a") then ["b"] else if bool_decide (x = "b") then ["a"] else [].

Lemma detect_cycle_exact_witness : detectGatewayCycle ["a"; "b"] pair_adj = Some ["a"; "b"; "a"] /\ is_cycle pair_adj ["a"; "b"; "a"].
Proof.
  split; [reflexivity|]. apply (detect_cycle_exact ["a"; "b"] pair_adj).
  intros x y. unfold edge, pair_adj. repeat case_bool_decide; intros Hy; apply list_elem_of_In in Hy; simpl in Hy;
    destruct Hy as [<-|[]] || destruct Hy; apply list_elem_of_In; simpl; auto.
Defined.

Definition review_run : caseRun := new_run (case_in db3) review [] [].
Definition decision : Node := gateway "decide" NodeDecision "" JoinNone.
Definition any_token : Token :=
  mkToken 0%N 0%N 0%N "" TokenActive zero_Eligibility "" None None 0 0 0 None OutcomeNone.

Lemma valid_node_routes_witness :
  exists before tr after,
    TransitionsFrom review "decide" = before ++ tr :: after
    /\ resolveRoute office db3 (TransitionsFrom review "decide") (snapshot review_run any_token "decide") = Ok tr
    /\ Forall (rejects office db3 (snapshot review_run any_token "decide")) before
    /\ passes office db3 (snapshot review_run any_token "decide") tr.
Proof.
  apply (valid_node_routes office db3 review_run any_token decision review_valid); [repeat (left || right)| |reflexivity].
  intros tr Htr. apply list_elem_of_In in Htr.
  vm_compute in Htr. destruct Htr as [<-|[<-|[]]]; [right|left].
  - split; [intros E; discriminate E|]. exists (fun _ c => JoinRejected c). split; vm_compute; reflexivity.
  - left. reflexivity.
Defined.

Lemma verdict_final_witness :
  closes JoinAllApprove (mkTally 0 1 0 3) = (true, OutcomeRejected)
  /\ closes JoinAllApprove (mkTally 2 1 0 3) = (true, OutcomeRejected).
Proof.
  split; [reflexivity|].
  refine (proj2 (proj1 (verdict_final JoinAllApprove (mkTally 0 1 0 3) OutcomeRejected _ _ _) _) (mkTally 2 1 0 3) _);
    [unfold tally_ok; simpl; lia | reflexivity | intros E; discriminate E | reflexivity | unfold later_tally; simpl; lia].
Defined.

Definition review2 : WDefinition := mkDefinition "review" 2 (d_Nodes review) (d_Transitions review).

Lemma registry_resolves_witness :
  engine_ok (New ports [review; review2])
  /\ resolveDefinition (New ports [review; review2]) "review" 0 = Ok review2
  /\ resolveDefinition (New ports [review; review2]) "review" 1 = Ok review.
Proof.
  destruct (registry_resolves ports [review; review2] "review") as (H1 & _ & _ & H2).
  - apply (bool_decide_unpack _). vm_compute. exact I.
  - split_and!; [exact H1 | vm_compute; reflexivity|].
    apply (H2 review); [left | repeat split; vm_compute; reflexivity].
Defined.

(** Version 2 of the review process, its nodes listed in another order. *)
Definition review2_again : WDefinition := mkDefinition "review" 2 (rev (d_Nodes review)) (d_Transitions review).

Definition registered (e : Engine Tables) (d : WDefinition) : Engine Tables := result_of e (Register e d).

Lemma reregister_keeps_latest_witness :
  let e2 := registered (registered ports review2) review2_again in
  resolveDefinition e2 "review" 0 = Ok review2
  /\ resolveDefinition e2 "review" 2 = Ok review2_again.
Proof.
  exact (reregister_keeps_latest ports review2 review2_again
    (registered ports review2)
    (registered (registered ports review2) review2_again)
    eq_refl eq_refl eq_refl eq_refl eq_refl).
Defined.
