(* ===== verification/QueryTheorems.v ===== *)
(** The theorems on queries and on the pure parts: what [AvailableFor] offers, paging,
    the overdue and inbox lists, details as JSON, the upcast of old events, business-day
    deadlines, the last actor of a node, and the status of an error. *)

From stdpp Require Import base gmap fin_maps sets list strings sorting.
From Stdlib Require Import ZArith Lia.
From S2P Require Import Prelude GoStrings Errors Model Definitions JoinPolicies Repo Ports Events.
From S2P Require Import Run Validate Engine RunFrame CaseInv RunInv EngineInv Plans ValidateFacts.
From S2P Require Import System Postgres PostgresLaws Calendar Scenario.

Open Scope string_scope.
Open Scope list_scope.
Open Scope Z_scope.

(** ** What may be done next *)

Section Available.
Context {DB : Type} `{Repository DB}.
Implicit Types (e : Engine DB) (db : DB).

Lemma checkGuard_Ok e db tr snap :
  checkGuard e db tr snap = Ok tt <->
  tr_Guard tr = "" \/ exists fn, lookupGuard e (tr_Guard tr) = Ok fn /\ fn db snap = inr true.
Proof.
  unfold checkGuard. destruct (decide (tr_Guard tr = "")) as [E|E].
  { rewrite bool_decide_true by done. tauto. }
  rewrite bool_decide_false by done. split.
  - intros Hc. apply res_bind_Ok in Hc as (fn & Hf & Hc). apply res_bind_Ok in Hc as (ok & Ha & Hc).
    apply lift_Ok in Ha. apply guardB_Ok in Hc as ->. eauto.
  - intros [?|(fn & -> & Ha)]; [done|]. simpl. by rewrite Ha.
Qed.

Lemma available_loop_spec e db occ snap candidates out :
  available_loop e db occ snap candidates = Ok out ->
  forall tr, tr ∈ out <-> tr ∈ candidates /\ (tr_Return tr = true -> tr_To tr ∈ occ) /\ checkGuard e db tr snap = Ok tt.
Proof.
  revert out. induction candidates as [|r rest IH]; intros out; simpl.
  { intros [= <-] tr. rewrite elem_of_nil. tauto. }
  intros Hl tr. rewrite elem_of_cons.
  destruct (tr_Return r && negb (bool_decide (tr_To r ∈ occ))) eqn:Er.
  { rewrite (IH _ Hl). apply andb_true_iff in Er as [Er Ho%negb_true_iff%bool_decide_eq_false]. naive_solver. }
  assert (Hret : tr_Return r = true -> tr_To r ∈ occ).
  { intros E. rewrite E in Er. simpl in Er. by apply negb_false_iff, bool_decide_eq_true in Er. }
  destruct (decide (tr_Guard r = "")) as [E|E].
  { rewrite bool_decide_true in Hl by done. apply res_bind_Ok in Hl as (o & Ho & [= <-]).
    assert (checkGuard e db r snap = Ok tt) by (apply checkGuard_Ok; by left). rewrite elem_of_cons, (IH _ Ho). naive_solver. }
  rewrite bool_decide_false in Hl by done.
  apply res_bind_Ok in Hl as (fn & Hf & Hl). apply res_bind_Ok in Hl as (ok & Ha & Hl). apply lift_Ok in Ha.
  apply res_bind_Ok in Hl as (o & Ho & [= <-]). specialize (IH _ Ho). destruct ok.
  - assert (checkGuard e db r snap = Ok tt) by (apply checkGuard_Ok; eauto). rewrite elem_of_cons, IH. naive_solver.
  - assert (Hno : checkGuard e db r snap <> Ok tt).
    { rewrite checkGuard_Ok. intros [?|(fn2 & E2 & A2)]; [done|]. rewrite E2 in Hf. injection Hf as ->. congruence. }
    rewrite IH. naive_solver.
Qed.

Lemma hasReturn_elem l tr : tr ∈ l -> tr_Return tr = true -> hasReturnTransition l = true.
Proof.
  intros Hin Hr. unfold hasReturnTransition. apply existsb_exists. exists tr. split; [by apply list_elem_of_In|done].
Qed.

(** C22: [AvailableFor] offers exactly what [Move] accepts: on an open case, a
    transition out of the token's node is listed if and only if the checks of a move
    through it pass, given a comment its policy allows. *)
Theorem available_iff_movable e db caseID tokenID c d r tok out tr comment :
  openCase db caseID None ErrCaseClosed = Ok c -> resolveDefinition e (c_Definition c) (c_Version c) = Ok d ->
  loadRun db c d = Ok r -> pick r tokenID = Ok tok -> AvailableFor e db caseID tokenID = Ok out ->
  tr ∈ TransitionsFrom d (t_Node tok) -> checkComment (tr_Comment tr) comment = Ok tt ->
  tr ∈ out <-> check_transition e db caseID r tok tr comment = Ok tt.
Proof.
  intros Ho Hd Hload Hpick Hav Htr Hcom. apply openCase_Ok in Ho as (Hg & Hopen & _).
  unfold AvailableFor in Hav. rewrite Hg in Hav. simpl in Hav. rewrite Hopen, bool_decide_true in Hav by done. simpl in Hav.
  rewrite Hd in Hav. simpl in Hav. rewrite Hload in Hav. simpl in Hav. rewrite Hpick in Hav. simpl in Hav.
  apply res_bind_Ok in Hav as (occ & Hocc & Hav). rewrite (available_loop_spec _ _ _ _ _ _ Hav tr).
  unfold check_transition. rewrite Hcom. simpl. destruct (tr_Return tr) eqn:Er.
  - rewrite (hasReturn_elem _ tr Htr Er) in Hocc. rewrite Hocc. simpl.
    destruct (decide (tr_To tr ∈ occ)) as [Hin|Hin].
    + rewrite bool_decide_true by done. simpl. tauto.
    + rewrite bool_decide_false by done. simpl. split; [|done]. intros (_ & Hr & _). by destruct Hin; apply Hr.
  - simpl. naive_solver.
Qed.

End Available.

(** ** Pages *)

(** every list query is bounded: a page is refused only when its offset is out of
    range, and otherwise its limit lies between 1 and [MaxListLimit], the caller's own
    limit when that is in range. *)
Theorem page_bounds limit offset :
  (page limit offset = Err (sent ErrOffsetOutOfRange) <-> ~ 0 <= offset <= MaxListOffset)
  /\ forall l o, page limit offset = Ok (l, o) ->
     1 <= l <= MaxListLimit /\ o = offset /\ 0 <= o <= MaxListOffset
     /\ (1 <= limit <= MaxListLimit -> l = limit) /\ (limit <= 0 -> l = DefaultListLimit).
Proof.
  unfold page, MaxListOffset, MaxListLimit, DefaultListLimit.
  destruct (Z.ltb_spec offset 0), (Z.ltb_spec 100000 offset); simpl;
    try (split; [split; [lia|done]|done]).
  split; [split; [|lia]|].
  - destruct (Z.leb_spec limit 0); [done|]. by destruct (Z.ltb_spec 1000 limit).
  - intros l o E. destruct (Z.leb_spec limit 0), (Z.ltb_spec 1000 limit); simplify_eq; lia.
Qed.

(** ** Details *)

(** Values that have a constructor of their own are not written as other text. *)
Definition own_outcome (o : Outcome) : Prop := Outcome_of_string (Outcome_string o) = o.
Definition own_policy (p : JoinPolicy) : Prop := JoinPolicy_of_string (JoinPolicy_string p) = p.

Lemma branch_roundtrip b : own_outcome (br_Outcome b) -> unmarshal_BranchResult (marshal_BranchResult b) = Ok b.
Proof.
  destruct b as [t o q]. unfold own_outcome. cbn [br_Outcome]. intros E.
  change (unmarshal_BranchResult _) with (Ok (E := error) (mkBranchResult t (Outcome_of_string (Outcome_string o)) q)).
  by rewrite E.
Qed.

Lemma branches_roundtrip l :
  Forall (fun b => own_outcome (br_Outcome b)) l ->
  map_res unmarshal_BranchResult (marshal_BranchResult <$> l) = Ok l.
Proof.
  induction 1 as [|b l Hb _ IH]; [done|]. rewrite fmap_cons. cbn [map_res]. rewrite branch_roundtrip by done.
  cbn [res_bind]. by rewrite IH.
Qed.

Lemma uuids_roundtrip l : map_res as_uuid (JUuid <$> l) = Ok l.
Proof. induction l as [|u l IH]; csimpl; [done|]. by rewrite IH. Qed.

(** the detail of a joined event survives storage: reading back what [marshalDetail]
    wrote for a [JoinDetail] gives the same scope, tokens, policy, verdict and branches,
    whichever of the optional fields are left out. *)
Theorem join_detail_roundtrip d :
  own_policy (jd_Policy d) -> own_outcome (jd_Verdict d) ->
  Forall (fun b => own_outcome (br_Outcome b)) (jd_Branches d) ->
  unmarshal_JoinDetail (marshal_JoinDetail d) = Ok d.
Proof.
  destruct d as [scope node tokens policy verdict branches]. unfold own_policy. cbn [jd_Policy jd_Verdict jd_Branches].
  intros Hp Hv Hb. unfold own_outcome in Hv. apply branches_roundtrip in Hb. pose proof (uuids_roundtrip tokens) as Ht.
  unfold marshal_JoinDetail, omitempty. cbn [jd_Scope jd_JoinNode jd_Tokens jd_Policy jd_Verdict jd_Branches].
  revert Hb Ht. generalize (marshal_BranchResult <$> branches) (JUuid <$> tokens). intros js ts Hb Ht.
  destruct (bool_decide (policy = JoinNone)) eqn:E1, (bool_decide (verdict = OutcomeNone)) eqn:E2,
    (bool_decide (branches = [])) eqn:E3;
    repeat match goal with E : bool_decide _ = true |- _ => apply bool_decide_eq_true in E; subst end;
    cbv -[map_res as_uuid unmarshal_BranchResult marshal_BranchResult JoinPolicy_of_string JoinPolicy_string
          Outcome_of_string Outcome_string];
    by rewrite Ht, ?Hb, ?Hp, ?Hv.
Qed.

(** the upcast of a stored event is idempotent and only fills in what is missing:
    an event the engine writes today is left as it is. *)
Theorem upcast_idempotent ev :
  upcastEvent (upcastEvent ev) = upcastEvent ev
  /\ (1 <= ev_SchemaVersion ev -> a_Kind (ev_Actor ev) <> ActorKindNone -> ev_ActorID ev = a_ID (ev_Actor ev) ->
      is_Some (ev_Detail ev) -> ev_TokenID ev <> uuid_Nil -> ev_ScopeID ev <> uuid_Nil -> upcastEvent ev = ev).
Proof.
  destruct ev as [id cid seq kind tok scope from to act dl [ak ai aa ab av] aid ten com occ ver det req tra spa pd dg].
  unfold upcastEvent. cbn. split.
  - f_equal.
    + by repeat case_bool_decide.
    + by repeat case_bool_decide.
    + f_equal; by repeat case_bool_decide.
    + by repeat case_bool_decide.
    + destruct (ver <? 1) eqn:E; [done|]. by rewrite ?E.
    + by destruct det.
  - intros Hv Hk Ei [j ->] Ht Hs. subst aid. rewrite (proj2 (Z.ltb_ge _ _)) by lia.
    rewrite !bool_decide_false by done. by destruct (bool_decide (ai = "")).
Qed.

(** ** Lists of work items *)

(** The item of the join of a token with its case. *)
Lemma elem_of_joined_items db w :
  w ∈ joined_items db <->
  exists k t c, workflow_token db !! k = Some t /\ workflow_case db !! tr_case_id t = Some c
    /\ w = mkWorkItem (scanCase (tr_case_id t) c) (scanToken k t).
Proof.
  unfold joined_items. rewrite list_elem_of_omap. split.
  - intros ([k t] & Hin & Hw). apply elem_of_map_to_list in Hin. simpl in Hw.
    destruct (workflow_case db !! tr_case_id t) as [c|] eqn:Ec; [|done]. injection Hw as <-. eauto 6.
  - intros (k & t & c & Ht & Hc & ->). exists (k, t). split; [by apply elem_of_map_to_list|]. simpl. by rewrite Hc.
Qed.

(** Items are told apart by their token. *)
Lemma joined_items_inj db w w' :
  w ∈ joined_items db -> w' ∈ joined_items db -> t_ID (wi_Token w) = t_ID (wi_Token w') -> w = w'.
Proof.
  intros (k & t & c & Ht & Hc & ->)%elem_of_joined_items (k' & t' & c' & Ht' & Hc' & ->)%elem_of_joined_items.
  simpl. intros <-. congruence.
Qed.

Lemma joined_items_NoDup db : NoDup (joined_items db).
Proof.
  unfold joined_items. pose proof (NoDup_fst_map_to_list (workflow_token db)) as Hnd.
  induction (map_to_list (workflow_token db)) as [|[k t] l IH]; csimpl in *; [constructor|].
  apply NoDup_cons in Hnd as [Hk Hnd]. specialize (IH Hnd).
  destruct (workflow_case db !! tr_case_id t) as [c|]; csimpl; [|done]. apply NoDup_cons. split; [|done].
  intros ([k' t'] & Hin & Hw)%list_elem_of_omap. simpl in Hw.
  destruct (workflow_case db !! tr_case_id t') as [c'|]; [|done].
  apply (f_equal (fmap (fun w => t_ID (wi_Token w)))) in Hw. simpl in Hw. injection Hw as ->. apply Hk. by apply (list_elem_of_fmap_2 fst) in Hin.
Qed.

Lemma elem_of_filter_b {A} (p : A -> bool) l x : x ∈ List.filter p l <-> x ∈ l /\ p x = true.
Proof. by rewrite !list_elem_of_In, filter_In. Qed.

(** The key of the overdue order. *)
Definition before (w w' : WorkItem) : Prop :=
  let d := default 0 (t_DeadlineAt (wi_Token w)) in
  let d' := default 0 (t_DeadlineAt (wi_Token w')) in
  d < d' \/ d = d' /\ (t_ID (wi_Token w) < t_ID (wi_Token w'))%N.

Lemma overdue_order_spec w w' : overdue_order w w' = true <-> before w w'.
Proof.
  unfold overdue_order, order_then, by_Z, by_uuid, before.
  rewrite orb_true_iff, andb_true_iff, negb_true_iff, Z.ltb_lt, Z.ltb_ge, N.ltb_lt. lia.
Qed.

Lemma overdue_order_false w w' : overdue_order w w' = false <-> ~ before w w'.
Proof. rewrite <- overdue_order_spec. by destruct (overdue_order w w'). Qed.

(** The whole list [ListOverdue] takes its page from. *)
Definition overdue_all (db : Tables) (f : OverdueFilter) : list WorkItem :=
  sort_by overdue_order (List.filter (overdue_match f) (joined_items db)).

Lemma overdue_all_sorted db f : StronglySorted (not_after overdue_order) (overdue_all db f).
Proof.
  apply sort_by_StronglySorted.
  - intros a b. rewrite overdue_order_spec, overdue_order_false. unfold before. lia.
  - intros a b c. rewrite !overdue_order_false. unfold before. lia.
Qed.

(** The filter of the page after [w]. *)
Definition after_item (w : WorkItem) (f : OverdueFilter) : OverdueFilter :=
  mkOverdueFilter (of_Tenant f) (of_Limit f) (of_Before f) (WorkItem_OverdueCursor (Some w)).

Lemma overdue_match_after f w x :
  of_After f = None -> overdue_match f w = true -> 
  overdue_match (after_item w f) x = overdue_match f x && overdue_order w x.
Proof.
  intros Hno Hw. unfold overdue_match in *. rewrite Hno in *.
  destruct (t_DeadlineAt (wi_Token w)) as [dw|] eqn:Ew; [|done].
  destruct (t_DeadlineAt (wi_Token x)) as [dx|] eqn:Ex; [|done].
  unfold overdue_order, order_then, by_Z, by_uuid. rewrite Ew, Ex. unfold after_item. simpl. rewrite Ew. simpl.
  rewrite !andb_true_r. f_equal. destruct (Z.ltb_spec dw dx); [done|]. simpl. f_equal.
  apply eq_true_iff_eq. rewrite Z.eqb_eq, negb_true_iff, Z.ltb_ge. lia.
Qed.

Lemma filter_none {A} (p : A -> bool) (l : list A) : (forall x, x ∈ l -> p x = false) -> List.filter p l = [].
Proof.
  induction l as [|a l IH]; intros Hp; simpl; [done|]. rewrite Hp by apply list_elem_of_here.
  apply IH. intros x Hx. apply Hp. by apply list_elem_of_further.
Qed.

Lemma filter_andb {A} (p q : A -> bool) (l : list A) :
  List.filter (fun x => p x && q x) l = List.filter q (List.filter p l).
Proof. induction l as [|a l IH]; simpl; [done|]. destruct (p a); simpl; [destruct (q a)|]; by rewrite IH. Qed.

#[local] Instance filter_perm {A} (p : A -> bool) : Proper ((≡ₚ) ==> (≡ₚ)) (List.filter p).
Proof.
  induction 1; simpl; [done| | |by etransitivity]; repeat case_match; try done; by constructor.
Qed.

Lemma elem_of_overdue_all db f x :
  x ∈ overdue_all db f <-> x ∈ joined_items db /\ overdue_match f x = true.
Proof. unfold overdue_all. by rewrite elem_of_sort_by, elem_of_filter_b. Qed.

Lemma overdue_all_NoDup db f : NoDup (overdue_all db f).
Proof.
  unfold overdue_all. rewrite sort_by_Permutation. apply NoDup_ListNoDup, List.NoDup_filter, NoDup_ListNoDup, joined_items_NoDup.
Qed.

(** Distinct items in the order are strictly ordered. *)
Lemma overdue_all_strict db f : StronglySorted before (overdue_all db f).
Proof.
  assert (Hinj : forall x y, x ∈ overdue_all db f -> y ∈ overdue_all db f ->
    t_ID (wi_Token x) = t_ID (wi_Token y) -> x = y).
  { intros x y [Hx _]%elem_of_overdue_all [Hy _]%elem_of_overdue_all. by apply (joined_items_inj db). }
  pose proof (overdue_all_NoDup db f) as Hnd. pose proof (overdue_all_sorted db f) as Hs.
  revert Hinj Hnd. induction Hs as [|x l Hs IH HF]; intros Hinj Hnd; [constructor|].
  apply NoDup_cons in Hnd as [Hx Hnd]. constructor.
  - apply IH; [|done]. intros y z Hy Hz. apply Hinj; by apply list_elem_of_further.
  - rewrite Forall_forall in HF |- *. intros y Hy. specialize (HF y Hy). unfold not_after in HF.
    rewrite overdue_order_false in HF. assert (t_ID (wi_Token x) <> t_ID (wi_Token y)).
    { intros E. apply Hx. rewrite (Hinj x y); [done|apply list_elem_of_here|by apply list_elem_of_further|done]. }
    unfold before in *. lia.
Qed.

(** Asking for what follows an item gives the rest of the list. *)
Lemma overdue_after db f k w :
  of_After f = None -> overdue_all db f !! k = Some w ->
  overdue_all db (after_item w f) = drop (S k) (overdue_all db f).
Proof.
  intros Hno Hk. pose proof (overdue_all_strict db f) as Hs.
  assert (Hsub : forall y, y ∈ drop (S k) (overdue_all db f) -> y ∈ joined_items db).
  { intros y Hy. apply (elem_of_overdue_all db f). apply list_elem_of_lookup in Hy as [i Hi].
    rewrite lookup_drop in Hi. by eapply list_elem_of_lookup_2. }
  assert (Hw : overdue_match f w = true) by (apply list_elem_of_lookup_2, elem_of_overdue_all in Hk; tauto).
  pose proof (take_drop_middle _ _ _ Hk) as EL.
  assert (Hs0 : StronglySorted (not_after overdue_order) (drop (S k) (overdue_all db f))).
  { pose proof (overdue_all_sorted db f) as H0. rewrite <- EL in H0.
    apply StronglySorted_app_1_r in H0. by apply StronglySorted_inv in H0 as [? _]. }
  apply (StronglySorted_unique_strong (not_after overdue_order)); [|apply overdue_all_sorted|done|].
  - intros x y [Hx _]%elem_of_overdue_all Hy%Hsub H1 H2.
    apply (joined_items_inj db); [done..|]. unfold not_after in H1, H2. rewrite overdue_order_false in H1, H2.
    unfold before in *. lia.
  - unfold overdue_all at 1. rewrite sort_by_Permutation.
    rewrite (filter_ext _ (fun x => overdue_match f x && overdue_order w x)) by (intros x; by apply overdue_match_after).
    rewrite filter_andb, <- (sort_by_Permutation overdue_order (List.filter (overdue_match f) _)).
    fold (overdue_all db f). rewrite <- EL in Hs. apply StronglySorted_app in Hs as (Hs1 & _ & Hs2).
    apply StronglySorted_inv in Hs2 as [_ Hs3]. rewrite <- EL at 1. rewrite List.filter_app. simpl.
    rewrite filter_none; [|intros x Hx; specialize (Hs1 x w Hx (list_elem_of_here _ _));
      rewrite overdue_order_false; unfold before in *; lia].
    assert (overdue_order w w = false) as -> by (rewrite overdue_order_false; unfold before; lia).
    simpl. rewrite filter_all; [done|]. intros x Hx. apply overdue_order_spec.
    rewrite Forall_forall in Hs3. by apply Hs3.
Qed.

(** the overdue list can be walked page by page.  [ListOverdue] answers a prefix of
    the overdue tokens in order of deadline and identifier; with the cursor of the item
    at any position it answers the items right after that position, so no item is
    repeated or skipped, also among equal deadlines. *)
Theorem overdue_pages db f k w :
  of_After f = None -> overdue_all db f !! k = Some w ->
  let limit := Z.to_nat (OverdueFilter_Page f) in
  ListOverdue db f = inr (take limit (overdue_all db f))
  /\ ListOverdue db (after_item w f) = inr (take limit (drop (S k) (overdue_all db f)))
  /\ StronglySorted before (overdue_all db f)
  /\ forall x, x ∈ overdue_all db f <-> x ∈ joined_items db /\ overdue_match f x = true.
Proof.
  intros Hno Hk limit. split_and!.
  - unfold ListOverdue, limit_offset. by rewrite drop_0.
  - unfold ListOverdue, limit_offset. fold (overdue_all db (after_item w f)). rewrite drop_0, (overdue_after db f k w) by done.
    done.
  - apply overdue_all_strict.
  - apply elem_of_overdue_all.
Qed.

(** ** The inbox *)

(** A filter that only pages. *)
Definition unfiltered (f : InboxFilter) : Prop :=
  if_Domain f = "" /\ if_States f = [] /\ if_AssignedTo f = "" /\ if_Unassigned f = false /\ if_Overdue f = false
  /\ if_Tenant f = "" /\ if_Eligibility f = [].

Lemma unfiltered_match f now w :
  unfiltered f ->
  inbox_match f now w = bool_decide (t_Status (wi_Token w) = TokenActive) && bool_decide (c_Status (wi_Case w) = StatusOpen).
Proof.
  intros (E1 & E2 & E3 & E4 & E5 & E6 & E7). unfold inbox_match. rewrite E1, E2, E3, E4, E5, E6, E7. simpl.
  by rewrite !andb_true_r.
Qed.

Section Inbox.
Context (event_digest : bytes -> uuid -> event_row -> list N).
Abbreviation PGR := (Postgres event_digest).
Abbreviation PGL := (Postgres_laws event_digest).

(** no open case is lost.  Every item of the inbox is an active token of an open
    case; and when the filter only pages and the page is large enough, each open case
    the engine wrote is in it with some active token. *)
Theorem inbox_complete (e : Engine Tables) db f l items :
  engine_ok e -> sink_apart (H0 := PGL) e -> reachable (H := PGR) (H0 := PGL) e db ->
  unfiltered f -> InboxFilter_Page f = Ok (l, 0) ->
  (length (List.filter (inbox_match f (tx_now db)) (joined_items db)) <= Z.to_nat l)%nat ->
  ListWorkItems db f = inr items ->
  (forall w, w ∈ items -> t_Status (wi_Token w) = TokenActive /\ c_Status (wi_Case w) = StatusOpen
     /\ GetByID db (c_ID (wi_Case w)) = inr (wi_Case w))
  /\ forall id c, GetByID db id = inr c -> c_Status c = StatusOpen ->
       exists w, w ∈ items /\ wi_Case w = c.
Proof.
  intros He Hs Hr Hf Hp Hlen Hl. unfold ListWorkItems in Hl. rewrite Hp in Hl. injection Hl as <-.
  unfold limit_offset. rewrite drop_0, take_ge by (by rewrite length_sort_by). split.
  - intros w. rewrite elem_of_sort_by, elem_of_filter_b, (unfiltered_match _ _ _ Hf).
    intros [(k & t & c & Ht & Hc & ->)%elem_of_joined_items Hm]. apply andb_true_iff in Hm as [Ha Ho].
    apply bool_decide_eq_true in Ha, Ho. split_and!; [done..|]. unfold GetByID. simpl. by rewrite Hc.
  - intros id c Hg Ho. pose proof (reachable_ok (H := PGR) (H0 := PGL) e db He Hs Hr id) as Hok.
    pose proof (law_get (RepositoryLaws := PGL) db id c Hg) as (Hc & Eid & _).
    unfold stored_ok in Hok. rewrite Hc in Hok. destruct Hok as (_ & _ & (d & Hd & HI) & _). unfold case_inv in HI.
    rewrite Ho, bool_decide_true in HI by done. destruct (Inv_active HI) as (t & Ht & Ha & _).
    simpl in Ht. apply elem_of_rows_of in Ht as (k & row & Hk & Hrow & ->).
    unfold GetByID in Hg. destruct (workflow_case db !! id) as [crow|] eqn:Ec; [|done]. injection Hg as <-.
    exists (mkWorkItem (scanCase id crow) (scanToken k row)). split; [|done].
    rewrite elem_of_sort_by, elem_of_filter_b, (unfiltered_match _ _ _ Hf). split.
    + apply elem_of_joined_items. exists k, row, crow. by rewrite Hrow.
    + apply andb_true_iff. by rewrite !bool_decide_eq_true.
Qed.

End Inbox.

(** ** Business-day deadlines *)

(** the deadline [BusinessDays] answers starts the day after the n-th business day
    that follows the day of [from]: that day is a business day, and counting it there
    are [n] of them. *)
Theorem business_days_due n loc h ctx from due :
  BusinessDays n (Some loc) h ctx from = Ok due ->
  1 <= n /\ exists m, 1 <= m /\ due = loc_midnight loc (addDays (loc_date loc from) (m + 1))
    /\ is_business h (addDays (loc_date loc from) m) = true
    /\ business_between h (loc_date loc from) m = n.
Proof.
  unfold BusinessDays. destruct (Z.ltb_spec n 1) as [?|Hn]; [done|]. intros Hb. split; [done|].
  apply res_bind_Ok in Hb as (day & Hl & [= <-]).
  destruct (business_loop_sound _ _ _ _ _ _ _ _ _ (loc_date loc from) 0 Hl) as (m & _ & Hd & Hc & Hm);
    [lia|done|done|lia|]. destruct Hm as [Hm Hbus]; [lia|]. exists m. split_and!; [lia| |done|done]. by rewrite Hd.
Qed.

(** the walk always ends, whatever the holidays and the context answer: within
    [n * maxGapDays] days it finds the day, gives up, or meets an error.  Without
    holidays it finds it. *)
Theorem business_days_total n loc h ctx from :
  BusinessDays n loc h ctx from <> Fuel
  /\ forall l, 1 <= n -> exists due, BusinessDays n (Some l) None (fun _ => None) from = Ok due.
Proof.
  split.
  - unfold BusinessDays. destruct (Z.ltb_spec n 1); [done|]. destruct loc as [l|]; [|done].
    apply res_bind_not_Fuel; [|done]. apply business_loop_fuel; unfold business_fuel, maxGapDays; lia.
  - intros l Hn. unfold BusinessDays. rewrite (proj2 (Z.ltb_ge _ _)) by lia.
    destruct (business_loop_succeeds (business_fuel n) None n 0 0 0 (loc_date l from)) as [day Hd].
    + intros d. unfold isBusinessDay. case_match; [by right | by left].
    + apply weekday_soon.
    + unfold maxGapDays. lia.
    + unfold business_fuel, maxGapDays. lia.
    + unfold business_fuel. lia.
    + destruct (weekday_soon (loc_date l from)) as (k & Hk & Hb). exists k. split; [lia|done].
    + rewrite Hd. simpl. eauto.
Qed.

(** ** The last actor of a node *)

(** A move out of [node] by someone other than the system. *)
Definition moved_by_someone (node : string) (ev : Event) : Prop :=
  ev_Kind ev = EventMoved /\ ev_FromState ev = node /\ a_Kind (ev_Actor ev) <> ActorSystem /\ a_ID (ev_Actor ev) <> "".

Lemma last_actor_skip node acc ev : ~ moved_by_someone node ev -> last_actor_step node acc ev = acc.
Proof.
  intros Hn. unfold last_actor_step. destruct acc as [a q].
  destruct (_ || _ || _ || _) eqn:E; [done|]. exfalso. apply Hn. rewrite !orb_false_iff, !bool_decide_eq_false in E.
  destruct E as [[[E1 E2] E3] E4]. unfold moved_by_someone. destruct (decide (ev_Kind ev = EventMoved)), (decide (ev_FromState ev = node)); tauto.
Qed.

Lemma last_actor_take node acc ev : moved_by_someone node ev ->
  last_actor_step node acc ev
  = if bool_decide (acc.1 = "") || (acc.2 <? ev_Seq ev) then (a_ID (ev_Actor ev), ev_Seq ev) else acc.
Proof.
  intros (E1 & E2 & E3 & E4). unfold last_actor_step. destruct acc as [a q].
  by rewrite !(bool_decide_false (_ <> _)), !(bool_decide_false (_ = _)) by (by intros ?).
Qed.

(** What the loop keeps after the events [l]. *)
Definition last_actor_inv (node : string) (l : list Event) (acc : string * Z) : Prop :=
  (acc = ("", 0) /\ (forall ev, ev ∈ l -> ~ moved_by_someone node ev))
  \/ exists ev, ev ∈ l /\ moved_by_someone node ev /\ acc = (a_ID (ev_Actor ev), ev_Seq ev)
       /\ forall ev', ev' ∈ l -> moved_by_someone node ev' -> ev_Seq ev' <= ev_Seq ev.

#[local] Instance moved_by_someone_dec node ev : Decision (moved_by_someone node ev).
Proof. unfold moved_by_someone. apply _. Defined.

Lemma last_actor_inv_step node l acc ev :
  last_actor_inv node l acc -> last_actor_inv node (l ++ [ev]) (last_actor_step node acc ev).
Proof.
  intros Hi. destruct (decide (moved_by_someone node ev)) as [Hm|Hm].
  - rewrite last_actor_take by done. destruct Hi as [[-> Hno]|(e0 & He0 & Hm0 & -> & Hmax)].
    + simpl. right. exists ev. split_and!; [apply elem_of_app; right; apply list_elem_of_here|done|done|].
      intros ev' [Hin|E%list_elem_of_singleton]%elem_of_app Hm'; [by destruct (Hno ev' Hin)|subst; lia].
    + simpl. rewrite bool_decide_false by apply Hm0. simpl. right. destruct (Z.ltb_spec (ev_Seq e0) (ev_Seq ev)).
      * exists ev. split_and!; [apply elem_of_app; right; apply list_elem_of_here|done|done|].
        intros ev' [Hin|E%list_elem_of_singleton]%elem_of_app Hm'; [specialize (Hmax ev' Hin Hm'); lia|subst; lia].
      * exists e0. split_and!; [apply elem_of_app; by left|done|done|].
        intros ev' [Hin|E%list_elem_of_singleton]%elem_of_app Hm'; [by apply Hmax|subst; lia].
  - rewrite last_actor_skip by done. destruct Hi as [[-> Hno]|(e0 & He0 & Hm0 & -> & Hmax)]; [left|right].
    + split; [done|]. intros ev' [Hin|E%list_elem_of_singleton]%elem_of_app; [auto|by subst].
    + exists e0. split_and!; [apply elem_of_app; by left|done|done|].
      intros ev' [Hin|E%list_elem_of_singleton]%elem_of_app Hm'; [by apply Hmax|by subst].
Qed.

(** [LastActorOf] answers who last moved a token out of the node, the system left
    out: the actor of the newest such event, in whatever order the history is given,
    and nobody when there is none. *)
Theorem last_actor_newest history node :
  (LastActorOf history node = "" /\ forall ev, ev ∈ history -> ~ moved_by_someone node ev)
  \/ exists ev, ev ∈ history /\ moved_by_someone node ev /\ LastActorOf history node = a_ID (ev_Actor ev)
       /\ forall ev', ev' ∈ history -> moved_by_someone node ev' -> ev_Seq ev' <= ev_Seq ev.
Proof.
  assert (Hi : last_actor_inv node history (fold_left (last_actor_step node) history ("", 0))).
  { induction history as [|ev l IH] using rev_ind; [left; split; [done|by intros ev ?%not_elem_of_nil]|].
    rewrite fold_left_app. simpl. by apply last_actor_inv_step. }
  unfold LastActorOf. destruct Hi as [[-> Hno]|(ev & Hin & Hm & -> & Hmax)]; [by left|]. right. by exists ev.
Qed.

(** ** Errors *)

(** Every sentinel with a failure kind is in the table of statuses. *)
Lemma failure_mapped s k : (s, k) ∈ failureKinds -> exists a, (s, a) ∈ mappings.
Proof.
  assert (Hall : forallb (fun x => existsb (fun y => bool_decide (x.1 = y.1)) mappings) failureKinds = true) by done.
  rewrite forallb_forall in Hall. intros Hin%list_elem_of_In%Hall.
  apply existsb_exists in Hin as ([s' a] & Hin & E%bool_decide_eq_true). simpl in E. subst s'.
  exists a. by apply list_elem_of_In.
Qed.

(** every failure a caller may record has a client status: an error with a failure
    kind, however deeply wrapped, maps to a status of the 400 range, never to none. *)
Theorem failures_have_status err k :
  FailureKindOf err = Some k ->
  exists status code, http_Status (Some err) = Some (status, code) /\ 400 <= status < 500.
Proof.
  intros (s & Hin & His)%first_is_Some. simpl. destruct (first_is mappings err) as [[st code]|] eqn:E.
  - exists st, code. split; [done|]. apply first_is_Some in E as (s' & Hin' & _). clear -Hin'.
    apply list_elem_of_In in Hin'. simpl in Hin'. repeat destruct Hin' as [Hin'|Hin']; simplify_eq; lia.
  - exfalso. rewrite first_is_None in E. destruct (failure_mapped s k Hin) as [a Ha]. by rewrite (E s a Ha) in His.
Qed.

(** ** The theorems on the scenario *)

Definition legal_loaded : caseRun * Token :=
  result_of (new_run (case_in db2) review [] [],
             mkToken 0%N 0%N 0%N "" TokenActive zero_Eligibility "" None None 0 0 0 None OutcomeNone)
    (loadToken office db2 (case_in db2) legal_token).

Definition legal_offers : list Transition := result_of [] (AvailableFor office db2 the_case legal_token).
Definition legal_approve : Transition := arc "legal" "merge" "approve" "" CommentOptional false OutcomeApproved.

Lemma available_iff_movable_witness :
  legal_approve ∈ legal_offers
  <-> check_transition office db2 the_case legal_loaded.1 legal_loaded.2 legal_approve "" = Ok tt.
Proof.
  apply (available_iff_movable office db2 the_case legal_token (case_in db2) review);
    [vm_compute; reflexivity..| |reflexivity]. vm_compute. left.
Defined.

Lemma page_bounds_witness : 1 <= 1000 <= MaxListLimit /\ page 5000 40 = Ok (1000, 40).
Proof. split; [|reflexivity]. exact (proj1 (proj2 (page_bounds 5000 40) 1000 40 eq_refl)). Defined.

Definition a_round : JoinDetail :=
  mkJoinDetail 7%N "merge" [8%N; 9%N] JoinAllApprove OutcomeRejected
    [mkBranchResult 8%N OutcomeRejected 4; mkBranchResult 9%N OutcomeUnanswered 5].

Lemma join_detail_roundtrip_witness : unmarshal_JoinDetail (marshal_JoinDetail a_round) = Ok a_round.
Proof. apply (join_detail_roundtrip a_round); [reflexivity..|repeat constructor]. Defined.

Definition old_event : Event :=
  mkEvent 1%N 2%N 3 EventMoved 4%N 5%N "draft" "fork" "submit" None clerk "ana" "" "" 0 2 (Some emptyDetail)
    "" "" "" None None.

Lemma upcast_idempotent_witness : upcastEvent old_event = old_event.
Proof.
  apply (upcast_idempotent old_event); [done|intros E; discriminate E|reflexivity|by eexists|intros E; discriminate E..].
Defined.

(** A database where the draft is overdue. *)
Definition overdue_filter : OverdueFilter := mkOverdueFilter "" 0 1000000000000 None.
Definition overdue_first : WorkItem :=
  match overdue_all db1 overdue_filter with w :: _ => w | [] => mkWorkItem (case_in db1) legal_loaded.2 end.

Lemma overdue_pages_witness :
  ListOverdue db1 (after_item overdue_first overdue_filter) = inr (take 20 (drop 1 (overdue_all db1 overdue_filter))).
Proof.
  apply (overdue_pages db1 overdue_filter 0 overdue_first); [reflexivity|]. vm_compute. reflexivity.
Defined.

Definition whole_inbox : InboxFilter := mkInboxFilter "" "" [] [] "" false false 0 0.
Definition inbox2 : list WorkItem := match ListWorkItems db2 whole_inbox with inr l => l | inl _ => [] end.

Lemma inbox_complete_witness : exists w, w ∈ inbox2 /\ wi_Case w = case_in db2.
Proof.
  refine (proj2 (inbox_complete toy_digest office db2 whole_inbox 20 inbox2 office_ok office_sink reach2 _ _ _ _)
    the_case (case_in db2) _ _); [repeat split|reflexivity|vm_compute; lia|vm_compute; reflexivity..].
Defined.

(** A zone of midnights in UTC, from Friday 1970-01-02. *)
Definition day_ns : Z := 86400 * 1000000000.
Definition utc : Location := mkLocation (fun t => date_of (t / day_ns)) (fun d => days_of d * day_ns).

Lemma business_days_due_witness :
  1 <= 2 /\ exists m, 1 <= m /\ 6 * day_ns = loc_midnight utc (addDays (loc_date utc day_ns) (m + 1))
    /\ is_business None (addDays (loc_date utc day_ns) m) = true
    /\ business_between None (loc_date utc day_ns) m = 2.
Proof.
  apply (business_days_due 2 utc None (fun _ => None) day_ns (6 * day_ns)).
  vm_compute. reflexivity.
Defined.

Lemma business_days_total_witness : exists due, BusinessDays 5 (Some utc) None (fun _ => None) 0 = Ok due.
Proof. apply (proj2 (business_days_total 5 None None (fun _ => None) 0) utc). done. Defined.

Lemma failures_have_status_witness :
  exists status code, http_Status (Some (EWrap (EOther "move case") (sent ErrGuardRejected))) = Some (status, code)
    /\ 400 <= status < 500.
Proof. apply (failures_have_status _ FailureGuardRejected). vm_compute. reflexivity. Defined.
