(* ===== verification/Idempotency.v ===== *)
(** Idempotency keys ([idempotency/idempotency.go]) and their PostgreSQL store
    ([idempotency/postgres/store.go]), with the transaction helper of [pgxtx/tx.go]
    that [Do] runs in.

    The table [idempotency_key] is a finite map from its primary key (scope, key).
    [now()] is the time of the statement's transaction, in the microseconds of a
    TIMESTAMPTZ.  A statement runs alone; what other connections do between two
    statements of [Reserve] is an argument.  The stored header is the JSON value it
    denotes.  SHA-256 is a parameter. *)

From stdpp Require Import base gmap fin_maps sets list strings sorting.
From Stdlib Require Import ZArith Lia Ascii.
From S2P Require Import Prelude GoStrings Model.

Open Scope string_scope.
Open Scope list_scope.
Open Scope Z_scope.

(** ** Requests, responses and errors *)

(** The package's sentinels, the error of [complete] when the key is no longer
    reserved, and any other error: of the database or of the caller's operation. *)
Inductive idem_error :=
| ErrInvalidRequest
| ErrKeyReused
| ErrInProgress
| ErrNotReserved
| ErrOther (what : string).

#[export] Instance idem_error_eq_dec : EqDecision idem_error.
Proof. solve_decision. Defined.

Definition MaxKeyLength : Z := 255.

Record Request := mkRequest {
  rq_Scope : string; rq_Key : string; rq_Fingerprint : list N }.

Abbreviation Header := (gmap string (list string)).

(** [Header] is nil-able in a [Response]. *)
Record Response := mkResponse {
  rs_Status : Z; rs_Header : option Header; rs_Body : bytes }.

(** Exactly one field of a [Reservation] is set. *)
Inductive Reservation :=
| Token (t : uuid)
| Replay (r : Response).

Definition printable (c : ascii) : bool :=
  (32 <=? Z.of_nat (nat_of_ascii c)) && (Z.of_nat (nat_of_ascii c) <=? 126).

(** [Request.Validate]. *)
Definition Request_Validate (r : Request) : res idem_error unit :=
  let! _ := guardB (negb (bool_decide (rq_Scope r = ""))) ErrInvalidRequest in
  let! _ := guardB (negb (bool_decide (rq_Key r = ""))) ErrInvalidRequest in
  let! _ := guardB (Z.of_nat (String.length (rq_Key r)) <=? MaxKeyLength) ErrInvalidRequest in
  let! _ := guardB (negb (bool_decide (rq_Fingerprint r = []))) ErrInvalidRequest in
  guardB (forallb printable (String.list_ascii_of_string (rq_Key r))) ErrInvalidRequest.

(** ** Fingerprints *)

(** [binary.BigEndian.PutUint64]: eight bytes, the most significant first. *)
Definition PutUint64 (n : N) : list N :=
  (fun i => N.land (N.shiftr n (8 * i)) 255) <$> [7; 6; 5; 4; 3; 2; 1; 0]%N.

(** What [Fingerprint] writes to the hash: every part after its length. *)
Definition length_prefixed (parts : list (list N)) : list N :=
  concat ((fun p => PutUint64 (N.of_nat (length p)) ++ p) <$> parts).

Definition Fingerprint (sha256 : list N -> list N) (parts : list (list N)) : list N :=
  sha256 (length_prefixed parts).

(** [hex.EncodeToString]. *)
Definition hex_digit (n : N) : ascii :=
  ascii_of_N (if (n <? 10)%N then 48 + n else 87 + n)%N.
Definition hex_EncodeToString (l : list N) : string :=
  String.string_of_list_ascii (concat ((fun b => [hex_digit (N.shiftr b 4); hex_digit (N.land b 15)]) <$> l)).

(** The bytes of a string. *)
Definition string_bytes (s : string) : list N := N_of_ascii <$> String.list_ascii_of_string s.

(** ** The table *)

Inductive key_status := InProgress | Completed.

#[export] Instance key_status_eq_dec : EqDecision key_status.
Proof. solve_decision. Defined.

(** [idempotency_key], less its key (scope, key). *)
Record key_row := mkKeyRow {
  k_fingerprint : list N; k_status : key_status;
  k_response_status : option Z; k_response_header : option Header; k_response_body : bytes;
  k_created_at : Z; k_locked_until : option Z; k_reservation : option uuid; k_expires_at : Z }.

Abbreviation Keys := (gmap (string * string) key_row).

Definition rq_id (r : Request) : string * string := (rq_Scope r, rq_Key r).

(** [time.Duration.Microseconds]. *)
Definition Microseconds (d : duration) : Z := Z.quot d 1000.

Definition DefaultTTL : duration := 24 * 3600 * 1000000000.
Definition defaultDeleteLimit : Z := 1000.
Definition reserveAttempts : nat := 3.

(** [WithTTL] on a store's [ttl], and [NewStore]. *)
Definition WithTTL (d ttl : duration) : duration := if 0 <? d then d else ttl.
Definition NewStore (opts : list (duration -> duration)) : duration :=
  fold_left (fun ttl opt => opt ttl) opts DefaultTTL.

(** [nullToken]. *)
Definition nullToken (token : uuid) : option uuid :=
  if bool_decide (token = uuid_Nil) then None else Some token.

(** ** Statements *)

(** [x <= now()] of a nullable column: NULL is not true. *)
Definition passed (x : option Z) (now : Z) : bool :=
  match x with Some t => t <=? now | None => false end.

Definition in_progress_row (r : Request) (now ttl : Z) (locked : option Z) (reservation : option uuid)
  : key_row :=
  mkKeyRow (rq_Fingerprint r) InProgress None None None now locked reservation (now + ttl).

(** [claimSQL]: [None] when it returns no row. *)
Definition claimSQL (r : Request) (ttl now : Z) (db : Keys) : option Keys :=
  let row := in_progress_row r now ttl None None in
  match db !! rq_id r with
  | None => Some (<[rq_id r := row]> db)
  | Some old => if k_expires_at old <=? now then Some (<[rq_id r := row]> db) else None
  end.

(** [reserveSQL]. *)
Definition reserveSQL (r : Request) (ttl lease : Z) (token : uuid) (now : Z) (db : Keys) : option Keys :=
  let row := in_progress_row r now ttl (Some (now + lease)) (Some token) in
  match db !! rq_id r with
  | None => Some (<[rq_id r := row]> db)
  | Some old =>
      if (k_expires_at old <=? now)
         || (bool_decide (k_status old = InProgress) && passed (k_locked_until old) now
             && bool_decide (k_fingerprint old = rq_Fingerprint r))
      then Some (<[rq_id r := row]> db) else None
  end.

(** [existing]: [None] is [pgx.ErrNoRows]. *)
Definition existing (r : Request) (db : Keys) : option (res idem_error Response) :=
  match db !! rq_id r with
  | None => None
  | Some row =>
      Some (if negb (bool_decide (k_fingerprint row = rq_Fingerprint r)) then Err ErrKeyReused
            else match k_status row, k_response_status row with
                 | Completed, Some code => Ok (mkResponse code (k_response_header row) (k_response_body row))
                 | _, _ => Err ErrInProgress
                 end)
  end.

Definition completed_row (row : key_row) (resp : Response) : key_row :=
  mkKeyRow (k_fingerprint row) Completed (Some (rs_Status resp)) (rs_Header resp) (rs_Body resp)
    (k_created_at row) None None (k_expires_at row).

(** [complete]. *)
Definition complete (r : Request) (token : uuid) (resp : Response) (db : Keys)
  : Keys * res idem_error unit :=
  match db !! rq_id r with
  | Some row =>
      if bool_decide (k_fingerprint row = rq_Fingerprint r) && bool_decide (k_status row = InProgress)
         && bool_decide (k_reservation row = nullToken token)
      then (<[rq_id r := completed_row row resp]> db, Ok tt)
      else (db, Err ErrNotReserved)
  | None => (db, Err ErrNotReserved)
  end.

(** [Store.Complete]. *)
Definition Complete (r : Request) (token : uuid) (resp : Response) (db : Keys)
  : Keys * res idem_error unit := complete r token resp db.

(** [Store.Release]. *)
Definition Release (r : Request) (token : uuid) (db : Keys) : Keys * res idem_error unit :=
  match db !! rq_id r with
  | Some row =>
      (if bool_decide (k_status row = InProgress) && bool_decide (k_reservation row = Some token)
       then delete (rq_id r) db else db, Ok tt)
  | None => (db, Ok tt)
  end.

(** The expired rows, the oldest expiry first. *)
Definition expired_keys (now : Z) (db : Keys) : list ((string * string) * key_row) :=
  sort_by (fun a b => k_expires_at (snd a) <? k_expires_at (snd b))
    (List.filter (fun p => k_expires_at (snd p) <=? now) (map_to_list db)).

(** [Store.DeleteExpired]. *)
Definition DeleteExpired (limit now : Z) (db : Keys) : Keys * Z :=
  let limit := if limit <=? 0 then defaultDeleteLimit else limit in
  let victims := take (Z.to_nat limit) (expired_keys now db) in
  (foldr (fun p db => delete (fst p) db) db victims, Z.of_nat (length victims)).

(** [Store.Reserve]: at most [n] claims.  [clock i] is the time of the [i]-th claim
    and [others i] what other connections write between it and the read of the row
    it conflicted with. *)
Fixpoint reserve_loop (n i : nat) (clock : nat -> Z) (others : nat -> Keys -> Keys)
    (r : Request) (ttl lease : Z) (token : uuid) (db : Keys) : Keys * res idem_error Reservation :=
  match n with
  | O => (db, Err ErrInProgress)
  | S n' =>
      match reserveSQL r ttl lease token (clock i) db with
      | Some db' => (db', Ok (Token token))
      | None =>
          let db := others i db in
          match existing r db with
          | None => reserve_loop n' (S i) clock others r ttl lease token db
          | Some (Ok resp) => (db, Ok (Replay resp))
          | Some (Err e) => (db, Err e)
          | Some Panic => (db, Panic)
          | Some Fuel => (db, Fuel)
          end
      end
  end.

Definition Reserve (ttl : duration) (clock : nat -> Z) (others : nat -> Keys -> Keys) (token : uuid)
    (r : Request) (lease : duration) (db : Keys) : Keys * res idem_error Reservation :=
  match Request_Validate r with
  | Ok _ =>
      if lease <=? 0 then (db, Err ErrInvalidRequest)
      else reserve_loop reserveAttempts 0 clock others r (Microseconds ttl) (Microseconds lease) token db
  | _ => (db, Err ErrInvalidRequest)
  end.

(** ** Do, and the transaction it runs in *)

Section Transactions.
Context {A : Type}.

(** The database a transaction sees: the keys and the caller's own tables. *)
Abbreviation DB := (Keys * A)%type.

(** [PgxTxManager.WithTx]: [begin] and [commit] are the errors of the two
    statements, [None] when they succeed.  A transaction that does not commit
    leaves the database as it was. *)
Definition WithTx {S E R : Type} (begin commit : option E) (fn : S -> S * res E R) (s : S)
  : S * res E R :=
  match begin with
  | Some e => (s, Err e)
  | None =>
      match fn s with
      | (s', Ok r) => match commit with Some e => (s, Err e) | None => (s', Ok r) end
      | (_, r) => (s, r)
      end
  end.

(** [Store.Do]: the operation [fn] writes the caller's tables.  The answer is the
    response and whether it was replayed. *)
Definition Do (ttl : duration) (now : Z) (r : Request) (fn : A -> A * res idem_error Response)
    (s : DB) : DB * res idem_error (Response * bool) :=
  match Request_Validate r with
  | Ok _ =>
      match claimSQL r (Microseconds ttl) now (fst s) with
      | None =>
          (s, match existing r (fst s) with
              | Some (Ok resp) => Ok (resp, true)
              | Some (Err e) => Err e
              | Some Panic => Panic
              | Some Fuel => Fuel
              | None => Err (ErrOther "read key: no rows in result set")
              end)
      | Some keys =>
          match fn (snd s) with
          | (a, Ok resp) =>
              match complete r uuid_Nil resp keys with
              | (keys, Ok _) => ((keys, a), Ok (resp, false))
              | (keys, Err e) => ((keys, a), Err e)
              | (keys, _) => ((keys, a), Panic)
              end
          | (a, Err e) => ((keys, a), Err e)
          | (a, Panic) => ((keys, a), Panic)
          | (a, Fuel) => ((keys, a), Fuel)
          end
      end
  | _ => (s, Err ErrInvalidRequest)
  end.

End Transactions.
