(* ===== verification/IdempotencyHttp.v ===== *)
(** The HTTP middleware of idempotency keys ([idempotency/httpx/middleware.go]).

    A handler is what it does to its [http.ResponseWriter]: a sequence of operations
    that ends by returning or by a panic, computed from the request and the
    application's state.  The writer is the part of [net/http]'s response the
    middleware relies on: the header map, the status line sent with a copy of it, and
    the body.  The store is the interface [Store]; the request's body is read whole. *)

From stdpp Require Import base gmap fin_maps sets list strings.
From Stdlib Require Import ZArith Lia Ascii.
From S2P Require Import Prelude GoStrings Model Idempotency.

Open Scope string_scope.
Open Scope list_scope.
Open Scope Z_scope.

Definition HeaderKey : string := "Idempotency-Key".
Definition HeaderReplayed : string := "Idempotent-Replayed".
Definition DefaultLease : duration := 60 * 1000000000.
Definition DefaultMaxRequestBytes : Z := 1048576.
Definition DefaultMaxResponseBytes : Z := 1048576.

(** ** The response writer of net/http *)

Record wire := mkWire {
  w_Header : Header; w_status : option Z; w_sent : Header; w_body : list N }.

(** A status of the 1xx range is informational, [101] apart: the final one follows. *)
Definition informational (code : Z) : bool := (100 <=? code) && (code <=? 199) && negb (code =? 101).

Definition bodyAllowedForStatus (code : Z) : bool :=
  negb ((100 <=? code) && (code <=? 199)) && negb (code =? 204) && negb (code =? 304).

(** [WriteHeader]: [None] is the panic on an invalid status.  A second status is
    ignored. *)
Definition wire_WriteHeader (code : Z) (w : wire) : option wire :=
  match w_status w with
  | Some _ => Some w
  | None =>
      if (code <? 100) || (999 <? code) then None
      else if informational code then Some w
      else Some (mkWire (w_Header w) (Some code) (w_Header w) (w_body w))
  end.

(** The first write sends status 200 when none was sent. *)
Definition wire_start (w : wire) : wire := default w (wire_WriteHeader 200 w).

Definition wire_Write (b : list N) (w : wire) : wire :=
  let w := wire_start w in
  if bodyAllowedForStatus (default 200 (w_status w))
  then mkWire (w_Header w) (w_status w) (w_sent w) (w_body w ++ b) else w.

Definition wire_with_header (f : Header -> Header) (w : wire) : wire :=
  mkWire (f (w_Header w)) (w_status w) (w_sent w) (w_body w).

(** What a handler does to its writer. *)
Inductive wop :=
| OpHeader (name : string) (values : option (list string))
| OpWriteHeader (code : Z)
| OpWrite (b : list N)
| OpFlush.

Definition wire_op (op : wop) (w : wire) : option wire :=
  match op with
  | OpHeader name (Some v) => Some (wire_with_header <[name := v]> w)
  | OpHeader name None => Some (wire_with_header (delete name) w)
  | OpWriteHeader code => wire_WriteHeader code w
  | OpWrite b => Some (wire_Write b w)
  | OpFlush => Some (wire_start w)
  end.

(** Operations in order, up to a panic of one of them; [true] when one panicked. *)
Fixpoint run_ops {W : Type} (f : wop -> W -> option W) (ops : list wop) (w : W) : W * bool :=
  match ops with
  | [] => (w, false)
  | op :: rest => match f op w with Some w' => run_ops f rest w' | None => (w, true) end
  end.

(** ** The recorder *)

Record recorder := mkRecorder {
  rec_w : wire; rec_status : Z; rec_header : Header; rec_body : list N; rec_overflow : bool }.

Definition new_recorder (w : wire) : recorder := mkRecorder w 0 ∅ [] false.

Definition rec_with_wire (rec : recorder) (w : wire) : recorder :=
  mkRecorder w (rec_status rec) (rec_header rec) (rec_body rec) (rec_overflow rec).

(** [recorder.WriteHeader]. *)
Definition rec_WriteHeader (code : Z) (rec : recorder) : option recorder :=
  let rec := if (rec_status rec =? 0) && (200 <=? code)
             then mkRecorder (rec_w rec) code (w_Header (rec_w rec)) (rec_body rec) (rec_overflow rec)
             else rec in
  rec_with_wire rec <$> wire_WriteHeader code (rec_w rec).

(** Status 200 when the handler wrote none before its first write or flush. *)
Definition rec_start (rec : recorder) : option recorder :=
  if rec_status rec =? 0 then rec_WriteHeader 200 rec else Some rec.

(** [recorder.Write]. *)
Definition rec_Write (max : Z) (b : list N) (rec : recorder) : option recorder :=
  rec ← rec_start rec;
  let rec :=
    if rec_overflow rec then rec
    else if max <? Z.of_nat (length (rec_body rec) + length b)
    then mkRecorder (rec_w rec) (rec_status rec) (rec_header rec) [] true
    else mkRecorder (rec_w rec) (rec_status rec) (rec_header rec) (rec_body rec ++ b) false in
  Some (rec_with_wire rec (wire_Write b (rec_w rec))).

(** [recorder.Flush]. *)
Definition rec_Flush (rec : recorder) : option recorder :=
  rec ← rec_start rec; Some (rec_with_wire rec (wire_start (rec_w rec))).

Definition rec_op (max : Z) (op : wop) (rec : recorder) : option recorder :=
  match op with
  | OpHeader _ _ => rec_with_wire rec <$> wire_op op (rec_w rec)
  | OpWriteHeader code => rec_WriteHeader code rec
  | OpWrite b => rec_Write max b rec
  | OpFlush => rec_Flush rec
  end.

(** [recorder.result]. *)
Definition rec_result (rec : recorder) : Z * Header :=
  if rec_status rec =? 0 then (200, w_Header (rec_w rec)) else (rec_status rec, rec_header rec).

(** ** Stored headers *)

(** [strings.EqualFold] against a string of ASCII letters and hyphens: the letters
    fold to lower case, and so do the two other characters that fold into ASCII, the
    long s and the Kelvin sign. *)
Fixpoint fold_ascii (l : list ascii) : list ascii :=
  match l with
  | [] => []
  | "197"%char :: "191"%char :: rest => "s"%char :: fold_ascii rest
  | "226"%char :: "132"%char :: "170"%char :: rest => "k"%char :: fold_ascii rest
  | c :: rest =>
      let n := nat_of_ascii c in
      (if (65 <=? n)%nat && (n <=? 90)%nat then ascii_of_nat (n + 32) else c) :: fold_ascii rest
  end.

Definition EqualFold (s t : string) : bool :=
  bool_decide (fold_ascii (String.list_ascii_of_string s) = fold_ascii (String.list_ascii_of_string t)).

(** [handlerHeaders]. *)
Definition handlerHeaders (before final : Header) : Header :=
  filter (fun p => ~ (EqualFold p.1 "Set-Cookie" = true \/ EqualFold p.1 HeaderReplayed = true)
                   /\ before !! p.1 <> Some p.2) final.

(** [replay]. *)
Definition replay (w : wire) (resp : Response) : option wire :=
  let h := default ∅ (rs_Header resp) ∪ w_Header w in
  let w := mkWire (<[HeaderReplayed := ["true"]]> h) (w_status w) (w_sent w) (w_body w) in
  wire_Write (default [] (rs_Body resp)) <$> wire_WriteHeader (rs_Status resp) w.

(** ** The middleware *)

(** [Store]: the part of the store the middleware uses. *)
Record Store (S : Type) := mkStore {
  st_Reserve : Request -> duration -> S -> S * res idem_error Reservation;
  st_Complete : Request -> uuid -> Response -> S -> S * res idem_error unit;
  st_Release : Request -> uuid -> S -> S * res idem_error unit }.
Arguments st_Reserve {S} s _ _ _.
Arguments st_Complete {S} s _ _ _ _.
Arguments st_Release {S} s _ _ _.

Record Config := mkConfig {
  cfg_Lease : duration; cfg_Required : bool; cfg_MaxRequestBytes : Z; cfg_MaxResponseBytes : Z }.

(** The defaults [Middleware] fills in. *)
Definition Middleware_config (cfg : Config) : Config :=
  mkConfig (if cfg_Lease cfg <=? 0 then DefaultLease else cfg_Lease cfg) (cfg_Required cfg)
    (if cfg_MaxRequestBytes cfg <=? 0 then DefaultMaxRequestBytes else cfg_MaxRequestBytes cfg)
    (if cfg_MaxResponseBytes cfg <=? 0 then DefaultMaxResponseBytes else cfg_MaxResponseBytes cfg).

(** A request: the authenticated user if any, and a body that reads or fails. *)
Record http_request := mkHttpRequest {
  h_User : option string; h_Method : string; h_Path : string; h_RawQuery : string;
  h_Header : Header; h_Body : option (list N) }.

(** [http.Header.Get] of a name in canonical form. *)
Definition header_Get (h : Header) (name : string) : string := default "" (head (default [] (h !! name))).

(** [Scope]. *)
Definition Scope (sha256 : list N -> list N) (user method path : string) : string :=
  ("http:" ++ hex_EncodeToString
     (Fingerprint sha256 [string_bytes user; string_bytes method; string_bytes path]))%string.

(** The idempotency request of an HTTP request. *)
Definition http_key (sha256 : list N -> list N) (user : string) (r : http_request) (body : list N) : Request :=
  mkRequest (Scope sha256 user (h_Method r) (h_Path r)) (header_Get (h_Header r) HeaderKey)
    (Fingerprint sha256 [string_bytes (h_Method r); string_bytes (h_Path r); string_bytes (h_RawQuery r); body]).

(** How a request was answered: by the next handler directly, by an error envelope,
    by a stored response, or by the handler under the recorder.  A handler's answer
    says whether it panicked. *)
Inductive outcome :=
| Passed (w : wire) (panicked : bool)
| Refused (status : Z) (code : string)
| Replayed (w : wire)
| Handled (w : wire) (panicked : bool).

Section Serve.
Context {S A : Type} (sha256 : list N -> list N) (store : Store S).

(** A handler: what it does to the application's state and to its writer. *)
Abbreviation handler := (http_request -> A -> A * (list wop * bool)).

Definition run_next (next : handler) (w : wire) (r : http_request) (s : S * A) : (S * A) * outcome :=
  let '(a, (ops, panics)) := next r (snd s) in
  let '(w, panicked) := run_ops wire_op ops w in
  ((fst s, a), Passed w (panicked || panics)).

(** The end of [serve], once this request holds the key. *)
Definition serve_run (cfg : Config) (next : handler) (w : wire) (r : http_request) (req : Request)
    (token : uuid) (s : S * A) : (S * A) * outcome :=
  let before := w_Header w in
  let '(a, (ops, panics)) := next r (snd s) in
  let '(rec, panicked) := run_ops (rec_op (cfg_MaxResponseBytes cfg)) ops (new_recorder w) in
  if panicked || panics
  then ((fst (st_Release store req token (fst s)), a), Handled (rec_w rec) true)
  else
    let '(status, header) := rec_result rec in
    if (500 <=? status) || rec_overflow rec
    then ((fst (st_Release store req token (fst s)), a), Handled (rec_w rec) false)
    else
      let body := if bool_decide (rec_body rec = []) then None else Some (rec_body rec) in
      let resp := mkResponse status (Some (handlerHeaders before header)) body in
      ((fst (st_Complete store req token resp (fst s)), a), Handled (rec_w rec) false).

(** [serve]. *)
Definition serve (cfg : Config) (next : handler) (w : wire) (r : http_request) (s : S * A)
  : (S * A) * outcome :=
  let user := default "" (h_User r) in
  if bool_decide (user = "") then run_next next w r s
  else if bool_decide (header_Get (h_Header r) HeaderKey = "")
  then if cfg_Required cfg then (s, Refused 400 "VALIDATION_ERROR") else run_next next w r s
  else match h_Body r with
  | None => (s, Refused 400 "VALIDATION_ERROR")
  | Some body =>
      if cfg_MaxRequestBytes cfg <? Z.of_nat (length body) then (s, Refused 413 "BODY_TOO_LARGE")
      else
        let req := http_key sha256 user r body in
        match Request_Validate req with
        | Ok _ =>
            match st_Reserve store req (cfg_Lease cfg) (fst s) with
            | (k, Ok (Token token)) => serve_run cfg next w r req token (k, snd s)
            | (k, Ok (Replay resp)) =>
                ((k, snd s), match replay w resp with Some w => Replayed w | None => Handled w true end)
            | (k, Err ErrInProgress) => ((k, snd s), Refused 409 "CONFLICT")
            | (k, Err ErrKeyReused) => ((k, snd s), Refused 422 "UNPROCESSABLE_ENTITY")
            | (k, _) => ((k, snd s), Refused 503 "SERVICE_UNAVAILABLE")
            end
        | _ => (s, Refused 400 "VALIDATION_ERROR")
        end
  end.

End Serve.

(** The PostgreSQL store behind the interface, for one request: the times of its
    claims, what others write in between, and the token it draws. *)
Definition pg_store (ttl : duration) (clock : nat -> Z) (others : nat -> Keys -> Keys) (token : uuid)
  : Store Keys :=
  mkStore Keys (Reserve ttl clock others token) Complete Release.
