(* ===== verification/IdempotencyFacts.v ===== *)
(** Facts on the store of idempotency keys: the encoding a fingerprint hashes is
    injective, and how each operation of any connection treats the row of a key that
    is completed or under a live lease.  And on the middleware's recorder: what it
    keeps is what the client was sent. *)

From stdpp Require Import base gmap fin_maps sets list strings sorting.
From Stdlib Require Import ZArith Lia Ascii.
From S2P Require Import Prelude GoStrings Model Idempotency IdempotencyHttp.

Open Scope string_scope.
Open Scope list_scope.
Open Scope Z_scope.

(** ** Length-prefixed encodings *)

Lemma PutUint64_inj n m :
  (n < 2 ^ 64)%N -> (m < 2 ^ 64)%N -> PutUint64 n = PutUint64 m -> n = m.
Proof.
  intros Hn Hm H. apply (chunks_inj 8 8); [done..|]. intros j Hj. unfold PutUint64 in H. cbn [fmap list_fmap] in H.
  injection H as H7 H6 H5 H4 H3 H2 H1 H0.
  assert (j = 0 \/ j = 1 \/ j = 2 \/ j = 3 \/ j = 4 \/ j = 5 \/ j = 6 \/ j = 7)%N
    as [->|[->|[->|[->|[->|[->|[->| ->]]]]]]] by lia; done.
Qed.

(** A part whose length fits the eight bytes of its prefix. *)
Definition fits (p : list N) : Prop := (N.of_nat (length p) < 2 ^ 64)%N.

Lemma length_prefixed_inj ps qs :
  Forall fits ps -> Forall fits qs -> length_prefixed ps = length_prefixed qs -> ps = qs.
Proof.
  unfold length_prefixed. intros Hp. revert qs.
  induction Hp as [|p ps Hp _ IH]; intros [|q qs] Hq; try done.
  apply Forall_cons in Hq as [Hq Hqs]. rewrite !fmap_cons, !concat_cons, <- !app_assoc.
  intros [H1 H2]%app_inj_1; [|done]. apply PutUint64_inj in H1; [|done|done].
  apply app_inj_1 in H2 as [-> H2]; [|lia]. f_equal. by apply IH.
Qed.

(** ** Operations of any connection *)

Section Ops.
Context {A : Type}.

(** A statement or a transaction of some connection. *)
Inductive key_op :=
| KDo (ttl : duration) (r : Request) (fn : A -> A * res idem_error Response) (begin commit : option idem_error)
| KReserve (r : Request) (ttl lease : Z) (token : uuid)
| KComplete (r : Request) (token : uuid) (resp : Response)
| KRelease (r : Request) (token : uuid)
| KDelete (limit : Z).

Definition apply_op (now : Z) (op : key_op) (s : Keys * A) : Keys * A :=
  match op with
  | KDo ttl r fn b c => fst (WithTx b c (Do ttl now r fn) s)
  | KReserve r ttl lease token => (default (fst s) (reserveSQL r ttl lease token now (fst s)), snd s)
  | KComplete r token resp => (fst (Complete r token resp (fst s)), snd s)
  | KRelease r token => (fst (Release r token (fst s)), snd s)
  | KDelete limit => (fst (DeleteExpired limit now (fst s)), snd s)
  end.

Definition run_trace (tr : list (Z * key_op)) (s : Keys * A) : Keys * A :=
  fold_left (fun s p => apply_op (fst p) (snd p) s) tr s.

(** The row answers its request, or is leased to [tok], at time [now]. *)
Definition settled_row (row : key_row) : Prop := k_status row = Completed.
Definition leased_row (tok : uuid) (now : Z) (row : key_row) : Prop :=
  k_status row = InProgress /\ k_reservation row = Some tok
  /\ exists lu, k_locked_until row = Some lu /\ now < lu.

(** The holder of the lease gives the key up. *)
Definition gives_up (id : string * string) (tok : uuid) (op : key_op) : Prop :=
  match op with
  | KComplete r t _ | KRelease r t => rq_id r = id /\ t = tok
  | _ => False
  end.

Lemma expired_keys_elem now db id row :
  (id, row) ∈ expired_keys now db -> db !! id = Some row /\ k_expires_at row <= now.
Proof.
  unfold expired_keys. rewrite elem_of_sort_by. intros H.
  apply list_elem_of_In, List.filter_In in H as [H1%list_elem_of_In H2].
  apply elem_of_map_to_list in H1. split; [done|]. by apply Z.leb_le.
Qed.

Lemma foldr_delete_lookup (l : list ((string * string) * key_row)) db id :
  foldr (fun p db => delete (fst p) db) db l !! id
  = if decide (id ∈ fst <$> l) then None else (db : Keys) !! id.
Proof.
  induction l as [|p l IH].
  { case_decide as Hin; [|done]. by apply not_elem_of_nil in Hin. }
  assert (Hiff : id ∈ fst <$> p :: l <-> p.1 = id \/ id ∈ fst <$> l)
    by (rewrite fmap_cons, elem_of_cons; naive_solver).
  cbn [foldr]. destruct (decide (p.1 = id)) as [<-|Hne].
  - rewrite lookup_delete_eq, decide_True; [done|]. tauto.
  - rewrite lookup_delete_ne by done. rewrite IH. by repeat case_decide; try tauto.
Qed.

Lemma delete_keeps limit now db id row :
  db !! id = Some row -> now < k_expires_at row -> fst (DeleteExpired limit now db) !! id = Some row.
Proof.
  intros Hrow He. unfold DeleteExpired. cbn [fst]. rewrite foldr_delete_lookup.
  case_decide as Hin; [|done].
  apply list_elem_of_fmap in Hin as ([id' row'] & -> & Hin). cbn in Hrow.
  apply subseteq_take, expired_keys_elem in Hin as [Hr' ?]. simplify_eq. lia.
Qed.

Lemma complete_other r tok resp db id :
  rq_id r <> id -> fst (complete r tok resp db) !! id = db !! id.
Proof.
  intros Hne. unfold complete. repeat case_match; simpl; try done. by rewrite lookup_insert_ne.
Qed.

Lemma complete_keeps r tok resp db id row :
  db !! id = Some row -> k_status row = Completed \/ k_reservation row <> nullToken tok ->
  fst (complete r tok resp db) !! id = Some row.
Proof.
  intros Hrow H. destruct (decide (rq_id r = id)) as [<-|Hne]; [|by rewrite complete_other].
  unfold complete. rewrite Hrow. case_match eqn:E; [|done].
  apply andb_true_iff in E as [[_ E1]%andb_true_iff E2]. apply bool_decide_eq_true in E1, E2.
  destruct H; congruence.
Qed.

Lemma claim_held r ttl now db row :
  db !! rq_id r = Some row -> now < k_expires_at row -> claimSQL r ttl now db = None.
Proof. intros Hrow He. unfold claimSQL. rewrite Hrow. case_match eqn:E; [|done]. lia. Qed.

Lemma claim_other r ttl now db db' id :
  rq_id r <> id -> claimSQL r ttl now db = Some db' -> db' !! id = db !! id.
Proof. intros Hne H. unfold claimSQL in H. repeat case_match; simplify_eq; by rewrite lookup_insert_ne. Qed.

(** A row that has not expired survives any [Do]. *)
Lemma Do_keeps (ttl now : Z) (r : Request) (fn : A -> A * res idem_error Response) (s : Keys * A)
    (id : string * string) (row : key_row) :
  fst s !! id = Some row -> now < k_expires_at row -> fst (fst (Do ttl now r fn s)) !! id = Some row.
Proof.
  intros Hrow He. unfold Do. case_match; [|done..].
  destruct (claimSQL _ _ _ _) as [keys|] eqn:Hc; [|done].
  destruct (decide (rq_id r = id)) as [<-|Hne].
  { by rewrite (claim_held _ _ _ _ row) in Hc. }
  pose proof (claim_other _ _ _ _ _ id Hne Hc) as Hk.
  destruct (fn s.2) as [a1 [resp|e| |]]; simpl; rewrite ?Hk; try done.
  pose proof (complete_other r uuid_Nil resp keys id Hne) as Hc'.
  destruct (complete r uuid_Nil resp keys) as [keys' [|?| |]]; simpl in *; by rewrite Hc', Hk.
Qed.

Lemma reserve_keeps r ttl lease token now db id row :
  db !! id = Some row -> now < k_expires_at row ->
  settled_row row \/ (exists t, leased_row t now row) ->
  default db (reserveSQL r ttl lease token now db) !! id = Some row.
Proof.
  intros Hrow He Hp. unfold reserveSQL.
  destruct (decide (rq_id r = id)) as [<-|Hne].
  - rewrite Hrow. case_match eqn:E; [|done]. exfalso.
    apply orb_true_iff in E as [?|[[E1 E2]%andb_true_iff _]%andb_true_iff]; [lia|].
    apply bool_decide_eq_true in E1. destruct Hp as [?|(t & _ & _ & lu & Hl & ?)]; [congruence|].
    unfold passed in E2. rewrite Hl in E2. lia.
  - repeat case_match; simpl; try done; by rewrite lookup_insert_ne.
Qed.

Lemma release_keeps r tok db id row :
  db !! id = Some row -> k_status row = Completed \/ k_reservation row <> Some tok ->
  fst (Release r tok db) !! id = Some row.
Proof.
  intros Hrow H. unfold Release. destruct (decide (rq_id r = id)) as [<-|Hne].
  - rewrite Hrow. simpl. case_match eqn:E; [|done].
    apply andb_true_iff in E as [E1 E2]. apply bool_decide_eq_true in E1, E2. destruct H; congruence.
  - case_match; simpl; [|done]. case_match; [|done]. by rewrite lookup_delete_ne.
Qed.

(** No operation of another connection touches a settled row, or one under a live
    lease, before it expires. *)
Lemma apply_keeps (now : Z) (op : key_op) (s : Keys * A) (id : string * string) (row : key_row) :
  fst s !! id = Some row -> now < k_expires_at row ->
  settled_row row \/ (exists tok, tok <> uuid_Nil /\ leased_row tok now row /\ ~ gives_up id tok op) ->
  fst (apply_op now op s) !! id = Some row.
Proof.
  intros Hrow He Hp.
  assert (Hp' : settled_row row \/ exists t, leased_row t now row) by naive_solver.
  destruct op as [ttl r fn b c|r ttl lease token|r token resp|r token|limit]; simpl.
  - unfold WithTx. destruct b; [done|].
    pose proof (Do_keeps ttl now r fn s id row Hrow He) as Hd.
    destruct (Do ttl now r fn s) as [s' [x|?| |]]; try done. by destruct c.
  - by apply reserve_keeps.
  - unfold Complete. destruct (decide (rq_id r = id)) as [Hid|Hne]; [|by rewrite complete_other].
    apply complete_keeps; [done|]. destruct Hp as [?|(tok & Hnil & (_ & Hr & _) & Hg)]; [by left|right].
    rewrite Hr. unfold nullToken. case_bool_decide; [done|]. intros [= ->]. apply Hg. simpl. done.
  - destruct (decide (rq_id r = id)) as [Hid|Hne].
    + apply release_keeps; [done|]. destruct Hp as [?|(tok & Hnil & (_ & Hr & _) & Hg)]; [by left|right].
      rewrite Hr. intros [= ->]. apply Hg. simpl. done.
    + unfold Release. case_match; simpl; [|done]. case_match; [|done]. by rewrite lookup_delete_ne.
  - by apply delete_keeps.
Qed.

(** Along a trace whose times satisfy [ok]. *)
Lemma trace_keeps (tr : list (Z * key_op)) (s : Keys * A) (id : string * string) (row : key_row) :
  fst s !! id = Some row ->
  Forall (fun p => fst p < k_expires_at row
            /\ (settled_row row
                \/ exists tok, tok <> uuid_Nil /\ leased_row tok (fst p) row /\ ~ gives_up id tok (snd p))) tr ->
  fst (run_trace tr s) !! id = Some row.
Proof.
  intros Hrow Htr. revert s Hrow. induction Htr as [|[now op] tr [H1 H2] _ IH]; intros s Hrow; [done|].
  cbn. apply IH. by apply apply_keeps.
Qed.

End Ops.

Arguments key_op A : clear implicits.

(** ** The recorder against the wire *)

(** A handler that does not switch protocols. *)
Definition no_upgrade (op : wop) : Prop := op <> OpWriteHeader 101.

(** What the client gets of [body] under [status]. *)
Definition sent_body (status : Z) (body : list N) : list N :=
  if bodyAllowedForStatus status then body else [].

(** Before the handler sends a status nothing is recorded or sent; afterwards the
    recorder holds the status, the headers and, while it fits, the body sent. *)
Record rec_ok (rec : recorder) : Prop := mkRecOk {
  ro_none : rec_status rec = 0 ->
    w_status (rec_w rec) = None /\ w_body (rec_w rec) = [] /\ rec_body rec = [] /\ rec_overflow rec = false;
  ro_some : rec_status rec <> 0 ->
    200 <= rec_status rec <= 999 /\ w_status (rec_w rec) = Some (rec_status rec)
    /\ w_sent (rec_w rec) = rec_header rec
    /\ (rec_overflow rec = false -> w_body (rec_w rec) = sent_body (rec_status rec) (rec_body rec)) }.

Lemma wire_WriteHeader_200 w : w_status w = None ->
  wire_WriteHeader 200 w = Some (mkWire (w_Header w) (Some 200) (w_Header w) (w_body w)).
Proof. intros E. unfold wire_WriteHeader. by rewrite E. Qed.

Lemma rec_WriteHeader_ok code rec rec' :
  code <> 101 -> rec_ok rec -> rec_WriteHeader code rec = Some rec' -> rec_ok rec'.
Proof.
  intros H101 [Hn Hs] H. unfold rec_WriteHeader in H.
  destruct (rec_status rec =? 0) eqn:E0.
  - apply Z.eqb_eq in E0. destruct (Hn E0) as (Hst & Hb & Hrb & Ho).
    destruct (200 <=? code) eqn:E2; simpl in H; apply fmap_Some in H as (w & Hw & ->);
      unfold wire_WriteHeader in Hw; rewrite Hst in Hw; (case_match eqn:Hr; [done|]); apply orb_false_iff in Hr;
      unfold informational in Hw; (case_match eqn:Hi; [|try lia]); simplify_eq; try lia.
    + split; simpl; [lia|]. intros _. split_and!; [lia..|done|done|].
      intros _. rewrite Hb, Hrb. unfold sent_body. by case_match.
    + by split.
  - apply Z.eqb_neq in E0. destruct (Hs E0) as (Hr & Hst & Hse & Hb). simpl in H.
    apply fmap_Some in H as (w & Hw & ->).
    unfold wire_WriteHeader in Hw. rewrite Hst in Hw. simplify_eq. by split.
Qed.

Lemma rec_start_ok rec rec' : rec_ok rec -> rec_start rec = Some rec' -> rec_ok rec' /\ rec_status rec' <> 0.
Proof.
  intros Hok. unfold rec_start. case_match eqn:E.
  - intros H. split; [by apply (rec_WriteHeader_ok 200 rec)|].
    unfold rec_WriteHeader in H. apply fmap_Some in H as (w & _ & ->). rewrite E. done.
  - intros [= <-]. split; [done|]. by apply Z.eqb_neq.
Qed.

Lemma rec_op_ok max op rec rec' : no_upgrade op -> rec_ok rec -> rec_op max op rec = Some rec' -> rec_ok rec'.
Proof.
  intros Hu Hok H. destruct op as [name v|code|b|]; cbn [rec_op] in H.
  - apply fmap_Some in H as (w & Hw & ->). destruct Hok as [Hn Hs].
    destruct v; simpl in Hw; injection Hw as <-; by split.
  - eapply rec_WriteHeader_ok; [|done..]. intros ->. by apply Hu.
  - unfold rec_Write in H. destruct (rec_start rec) as [rec1|] eqn:Es; simpl in H; [|done].
    apply rec_start_ok in Es as [[_ Hs] H0]; [|done]. destruct (Hs H0) as (Hr & Hst & Hse & Hb).
    assert (Hws : wire_start (rec_w rec1) = rec_w rec1)
      by (unfold wire_start, wire_WriteHeader; by rewrite Hst).
    assert (Hww : w_status (wire_Write b (rec_w rec1)) = Some (rec_status rec1)
                  /\ w_sent (wire_Write b (rec_w rec1)) = rec_header rec1
                  /\ (rec_overflow rec1 = false -> w_body (wire_Write b (rec_w rec1))
                        = sent_body (rec_status rec1) (rec_body rec1 ++ b))).
    { unfold wire_Write. rewrite Hws, Hst. simpl. unfold sent_body in *.
      destruct (bodyAllowedForStatus (rec_status rec1)); simpl; split_and!; try done; intros Ho; by rewrite Hb. }
    destruct Hww as (H1 & H2 & H3).
    destruct (rec_overflow rec1) eqn:Eo; [|case_match]; simpl in H; injection H as <-;
      (split; simpl; [by intros ?|]); intros _; split_and!; rewrite ?Eo; try done; try lia; auto.
  - unfold rec_Flush in H. destruct (rec_start rec) as [rec1|] eqn:Es; simpl in H; [|done].
    apply rec_start_ok in Es as [Hok1 H0]; [|done]. destruct (ro_some _ Hok1 H0) as (Hr & Hst & Hse & Hb).
    injection H as <-. unfold wire_start, wire_WriteHeader. rewrite Hst. by destruct Hok1; split.
Qed.

Lemma run_ops_ok max ops rec rec' :
  Forall no_upgrade ops -> rec_ok rec -> run_ops (rec_op max) ops rec = (rec', false) -> rec_ok rec'.
Proof.
  intros Hu. revert rec. induction Hu as [|op ops Hop _ IH]; intros rec Hok; simpl; [by intros [= <-]|].
  destruct (rec_op max op rec) as [rec1|] eqn:E; [|done]. apply IH. by eapply rec_op_ok.
Qed.

Lemma new_recorder_ok w : w_status w = None -> w_body w = [] -> rec_ok (new_recorder w).
Proof. intros H1 H2. by split. Qed.

(** What the recorder keeps is what [net/http] sent once the handler returned. *)
Lemma rec_result_sent rec status header :
  rec_ok rec -> rec_result rec = (status, header) -> rec_overflow rec = false ->
  let w := wire_start (rec_w rec) in
  200 <= status <= 999 /\ w_status w = Some status /\ w_sent w = header /\ w_body w = sent_body status (rec_body rec).
Proof.
  intros [Hn Hs]. unfold rec_result. case_match eqn:E; intros [= <- <-] Ho.
  - apply Z.eqb_eq in E. destruct (Hn E) as (Hst & Hb & Hrb & _). unfold wire_start.
    rewrite wire_WriteHeader_200 by done. simpl. split_and!; [lia..|done|done|]. by rewrite Hb, Hrb.
  - apply Z.eqb_neq in E. destruct (Hs E) as (Hr & Hst & Hse & Hb). unfold wire_start, wire_WriteHeader.
    rewrite Hst. simpl. split_and!; [lia..|done|done|auto].
Qed.

(** ** A replayed response on the wire *)

Lemma replay_wire w resp :
  w_status w = None -> w_body w = [] -> 200 <= rs_Status resp <= 999 ->
  exists w', replay w resp = Some w' /\ w_status w' = Some (rs_Status resp)
    /\ w_body w' = sent_body (rs_Status resp) (default [] (rs_Body resp))
    /\ w_sent w' = <[HeaderReplayed := ["true"]]> (default ∅ (rs_Header resp) ∪ w_Header w).
Proof.
  intros Hst Hb Hr. unfold replay, wire_WriteHeader. cbn [w_status]. rewrite Hst.
  case_match eqn:E1; [lia|]. case_match eqn:E2; [unfold informational in E2; lia|].
  eexists. split; [done|]. unfold wire_Write, wire_start, wire_WriteHeader. simpl. unfold sent_body.
  case_match; simpl; rewrite ?Hb; done.
Qed.
