(* ===== verification/IdempotencyTheorems.v ===== *)
(** The theorems on idempotency keys: an operation runs once per key, a lease excludes
    every other request, a request that lost its lease is fenced off, a replayed
    response is the one the first client got, and different requests never share a
    fingerprint unless the hash collides. *)

From stdpp Require Import base gmap fin_maps sets list strings sorting.
From Stdlib Require Import ZArith Lia Ascii.
From S2P Require Import Prelude GoStrings Model Idempotency IdempotencyHttp IdempotencyFacts.

Open Scope string_scope.
Open Scope list_scope.
Open Scope Z_scope.

Section KeyTheorems.
Context {A : Type}.
Implicit Types (s : Keys * A) (r : Request) (id : string * string) (resp : Response) (row : key_row)
  (token t : uuid) (ttl lease now : Z) (db k : Keys) (clock : nat -> Z) (others : nat -> Keys -> Keys)
  (fn : A -> A * res idem_error Response) (n i : nat).

(** What a committed [Do] leaves: the operation's writes, and its response under the
    key until the key expires. *)
Lemma Do_commits ttl (now : Z) r fn s s' resp :
  WithTx None None (Do ttl now r fn) s = (s', Ok (resp, false)) ->
  fn (snd s) = (snd s', Ok resp)
  /\ fst s' !! rq_id r
     = Some (completed_row (in_progress_row r now (Microseconds ttl) None None) resp).
Proof.
  unfold WithTx, Do. intros H.
  destruct (Request_Validate r); [|done..].
  destruct (claimSQL r (Microseconds ttl) now (fst s)) as [keys|] eqn:Hc.
  - assert (Hk : keys !! rq_id r = Some (in_progress_row r now (Microseconds ttl) None None)).
    { unfold claimSQL in Hc. repeat case_match; simplify_eq; by rewrite lookup_insert_eq. }
    destruct (fn (snd s)) as [a1 [resp1|e| |]]; [|done..].
    unfold complete in H. rewrite Hk in H. simpl in H.
    rewrite !bool_decide_true in H by done. simpl in H. simplify_eq. simpl.
    by rewrite lookup_insert_eq.
  - destruct (existing r (fst s)) as [[?|?| |]|]; simplify_eq.
Qed.

Lemma existing_completed r row resp (db : Keys) :
  db !! rq_id r = Some (completed_row row resp) ->
  existing r db = Some (if bool_decide (k_fingerprint row = rq_Fingerprint r) then Ok resp else Err ErrKeyReused).
Proof.
  intros Hrow. unfold existing. rewrite Hrow. simpl. case_bool_decide; [|done]. by destruct resp.
Qed.

(** C9: an operation runs exactly once per key.  After a [Do] committed, whatever every
    connection does while the key lives, any further [Do] on the key changes nothing:
    with the same fingerprint it answers the stored response, with another one it
    fails with [ErrKeyReused]. *)
Theorem do_exactly_once ttl (now : Z) r fn s s1 resp (tr : list (Z * key_op A)) ttl2 (now2 : Z) r2 fn2 begin commit :
  WithTx None None (Do ttl now r fn) s = (s1, Ok (resp, false)) ->
  Forall (fun p => fst p < now + Microseconds ttl) tr -> now2 < now + Microseconds ttl ->
  rq_id r2 = rq_id r -> Request_Validate r2 = Ok tt ->
  let s2 := run_trace tr s1 in
  fst (WithTx begin commit (Do ttl2 now2 r2 fn2) s2) = s2
  /\ snd (WithTx None None (Do ttl2 now2 r2 fn2) s2)
     = (if bool_decide (rq_Fingerprint r = rq_Fingerprint r2) then Ok (resp, true) else Err ErrKeyReused).
Proof.
  intros H1 Htr Hnow Hid Hv s2. apply Do_commits in H1 as [_ Hrow].
  eapply (trace_keeps tr) in Hrow as Hrow2.
  2: { eapply Forall_impl; [exact Htr|]. intros p Hp. split; [done|by left]. }
  rewrite <- Hid in Hrow2. fold s2 in Hrow2.
  assert (HDo : Do ttl2 now2 r2 fn2 s2
    = (s2, if bool_decide (rq_Fingerprint r = rq_Fingerprint r2) then Ok (resp, true) else Err ErrKeyReused)).
  { unfold Do. rewrite Hv. rewrite (claim_held _ _ _ _ _ Hrow2) by done.
    rewrite (existing_completed _ _ _ _ Hrow2). simpl. by case_bool_decide. }
  unfold WithTx. rewrite HDo. split; [|by case_bool_decide]. destruct begin; [done|].
  case_bool_decide; [by destruct commit|done].
Qed.

(** ** Leases *)

Lemma reserveSQL_row r ttl lease token now (db db' : Keys) :
  reserveSQL r ttl lease token now db = Some db' ->
  db' = <[rq_id r := in_progress_row r now ttl (Some (now + lease)) (Some token)]> db.
Proof. unfold reserveSQL. intros H. by repeat case_match; simplify_eq. Qed.

Lemma reserve_loop_token n i clock others r ttl lease token (db db' : Keys) t :
  reserve_loop n i clock others r ttl lease token db = (db', Ok (Token t)) ->
  t = token /\ exists j, db' !! rq_id r
    = Some (in_progress_row r (clock j) ttl (Some (clock j + lease)) (Some token)).
Proof.
  revert i db. induction n as [|n IH]; intros i db; simpl; [done|].
  destruct (reserveSQL _ _ _ _ _ _) as [k|] eqn:E.
  - intros [= <- <-]. split; [done|]. exists i. apply reserveSQL_row in E as ->. by rewrite lookup_insert_eq.
  - destruct (existing r (others i db)) as [[?|?| |]|]; try done. apply IH.
Qed.

(** A key whose row is settled, or leased to another request. *)
Definition held_against (r : Request) (now : Z) (row : key_row) : Prop :=
  now < k_expires_at row /\ (settled_row row \/ exists t, leased_row t now row).

Lemma reserve_held r ttl lease token now (db : Keys) row :
  db !! rq_id r = Some row -> held_against r now row -> reserveSQL r ttl lease token now db = None.
Proof.
  intros Hrow [He Hp].
  destruct (reserveSQL r ttl lease token now db) as [db'|] eqn:E; [|done].
  unfold reserveSQL in E. rewrite Hrow in E. case_match eqn:Eb; [|done]. exfalso.
  apply orb_true_iff in Eb as [?|[[E1 E2]%andb_true_iff _]%andb_true_iff]; [lia|].
  apply bool_decide_eq_true in E1. destruct Hp as [?|(t & _ & _ & lu & Hl & ?)]; [congruence|].
  unfold passed in E2. rewrite Hl in E2. lia.
Qed.


(** The tokens an operation draws. *)
Definition draws (token : uuid) (op : key_op A) : Prop :=
  match op with KReserve _ _ _ t => t = token | _ => False end.

(** [token] does not hold the key. *)
Definition not_held (token : uuid) id (db : Keys) : Prop :=
  forall row, db !! id = Some row -> k_reservation row <> Some token.

Lemma insert_not_held token id (x : string * string) row (db : Keys) :
  not_held token id db -> k_reservation row <> Some token -> not_held token id (<[x := row]> db).
Proof.
  intros H Hrow row' Hl. destruct (decide (x = id)) as [->|Hne].
  - rewrite lookup_insert_eq in Hl. by simplify_eq.
  - rewrite lookup_insert_ne in Hl by done. by eapply H.
Qed.

Lemma delete_not_held token id (x : string * string) db : not_held token id db -> not_held token id (delete x db).
Proof. intros H row Hl. apply lookup_delete_Some in Hl as [_ Hl]. by eapply H. Qed.

Lemma complete_not_held token id r t resp (db : Keys) :
  not_held token id db -> not_held token id (fst (complete r t resp db)).
Proof.
  intros H. unfold complete. repeat case_match; simpl; try done. by apply insert_not_held.
Qed.

Lemma apply_not_held now (op : key_op A) s token id :
  not_held token id (fst s) -> ~ draws token op -> not_held token id (fst (apply_op now op s)).
Proof.
  intros H Hd. destruct op as [ttl r fn b c|r ttl lease t|r t resp|r t|limit]; simpl in *.
  - unfold WithTx. destruct b; [done|].
    assert (HDo : not_held token id (fst (fst (Do ttl now r fn s)))).
    { unfold Do. case_match; [|done..]. case_match eqn:Hc; [|done].
      assert (Hk : not_held token id g).
      { unfold claimSQL in Hc. repeat case_match; simplify_eq; by apply insert_not_held. }
      destruct (fn s.2) as [a1 [resp|e| |]]; simpl; try done.
      pose proof (complete_not_held token id r uuid_Nil resp g Hk) as Hc'.
      by destruct (complete r uuid_Nil resp g) as [? [|?| |]]. }
    destruct (Do ttl now r fn s) as [s' [x|?| |]]; try done. by destruct c.
  - destruct (reserveSQL _ _ _ _ _ _) as [k|] eqn:E; simpl; [|done].
    apply reserveSQL_row in E as ->. apply insert_not_held; [done|]. simpl. congruence.
  - by apply complete_not_held.
  - unfold Release. repeat case_match; simpl; try done. by apply delete_not_held.
  - generalize (take (Z.to_nat (if limit <=? 0 then defaultDeleteLimit else limit)) (expired_keys now (fst s))).
    intros l. induction l as [|p l IH]; simpl; [done|]. by apply delete_not_held.
Qed.

(** a request that lost its key is fenced off.  Once the key is not held by its
    token (the lease lapsed and another request took it over, or the row was deleted),
    nothing the other connections do gives it back, and its late [Complete] fails and its
    [Release] does nothing: neither touches the new holder's row. *)
Theorem stale_holder_fenced token r s (tr : list (Z * key_op A)) resp :
  token <> uuid_Nil -> not_held token (rq_id r) (fst s) -> Forall (fun p => ~ draws token (snd p)) tr ->
  let s2 := run_trace tr s in
  Complete r token resp (fst s2) = (fst s2, Err ErrNotReserved)
  /\ Release r token (fst s2) = (fst s2, Ok tt).
Proof.
  intros Hnil Hn Htr s2.
  assert (Hn2 : not_held token (rq_id r) (fst s2)).
  { subst s2. clear resp. revert s Hn. induction Htr as [|p tr Hp _ IH]; intros s Hn; [done|].
    cbn. apply IH. by apply apply_not_held. }
  unfold Complete, complete, Release.
  destruct (fst s2 !! rq_id r) as [row|] eqn:Hrow; [|done]. specialize (Hn2 _ Hrow).
  unfold nullToken. rewrite (bool_decide_false (token = uuid_Nil)) by done.
  rewrite (bool_decide_false (k_reservation row = Some token)) by done. by rewrite !andb_false_r.
Qed.

(** [DeleteExpired] deletes only expired keys, at most the limit, the oldest first:
    an expired key that stays expires no earlier than any that went; and when it deletes
    fewer than the limit, no expired key is left. *)
Theorem delete_expired_oldest limit now db :
  let limit' := if limit <=? 0 then defaultDeleteLimit else limit in
  let '(db', n) := DeleteExpired limit now db in
  0 <= n <= limit'
  /\ (forall id row, db' !! id = Some row -> db !! id = Some row)
  /\ (forall id row, db !! id = Some row -> db' !! id = None -> k_expires_at row <= now
        /\ forall id2 row2, db' !! id2 = Some row2 -> k_expires_at row2 <= now ->
             k_expires_at row <= k_expires_at row2)
  /\ (n < limit' -> forall id row, db' !! id = Some row -> now < k_expires_at row).
Proof.
  intros limit'. unfold DeleteExpired. fold limit'.
  assert (Hl : 0 <= limit') by (subst limit'; unfold defaultDeleteLimit; case_match; lia).
  set (ex := expired_keys now db).
  assert (Hex : forall id row, (id, row) ∈ ex <-> db !! id = Some row /\ k_expires_at row <= now).
  { intros id row. split; [apply expired_keys_elem|]. intros [Hr He]. subst ex. unfold expired_keys.
    rewrite elem_of_sort_by. apply list_elem_of_In, List.filter_In. split; [|by apply Z.leb_le].
    by apply list_elem_of_In, elem_of_map_to_list. }
  assert (Hkeys : forall id row l, l ⊆ ex -> db !! id = Some row -> id ∈ fst <$> l -> (id, row) ∈ l).
  { intros id row l Hsub Hr (p & -> & Hp)%list_elem_of_fmap. destruct p as [id' row']. cbn in *.
    pose proof (Hsub _ Hp) as [Hr' _]%Hex. by simplify_eq. }
  assert (Hsplit : ex = take (Z.to_nat limit') ex ++ drop (Z.to_nat limit') ex) by by rewrite take_drop.
  assert (Hsorted : StronglySorted (not_after (fun a b : (string * string) * key_row =>
                      k_expires_at (snd a) <? k_expires_at (snd b))) ex)
    by (apply sort_by_StronglySorted; intros; lia).
  split_and!.
  - lia.
  - rewrite length_take. lia.
  - intros id row. rewrite foldr_delete_lookup. by case_decide.
  - intros id row Hr. rewrite foldr_delete_lookup. case_decide as Hin; [intros _|congruence].
    apply (Hkeys _ _ _ ltac:(intros ?; apply subseteq_take) Hr) in Hin.
    pose proof (subseteq_take _ _ _ Hin) as [_ He]%Hex. split; [done|].
    intros id2 row2 Hr2 He2. rewrite foldr_delete_lookup in Hr2. case_decide as Hn2; [done|].
    assert (Hin2 : (id2, row2) ∈ drop (Z.to_nat limit') ex).
    { assert (H2 : (id2, row2) ∈ ex) by (apply Hex; done). rewrite Hsplit in H2.
      apply elem_of_app in H2 as [H2|H2]; [|done]. exfalso. apply Hn2, list_elem_of_fmap. by exists (id2, row2). }
    rewrite Hsplit in Hsorted. pose proof (StronglySorted_app_1_elem_of _ _ _ _ _ Hsorted Hin Hin2) as Hle.
    by apply Z.ltb_ge in Hle.
  - intros Hn id row. rewrite foldr_delete_lookup. case_decide as Hin; [done|]. intros Hr.
    destruct (decide (now < k_expires_at row)); [done|]. exfalso. apply Hin, list_elem_of_fmap.
    exists (id, row). split; [done|]. rewrite length_take in Hn. rewrite take_ge by lia. apply Hex. split; [done|lia].
Qed.

End KeyTheorems.

(** ** Fingerprints *)

(** two requests have the same fingerprint only when they have the same method,
    path, query and body, unless SHA-256 itself collides: the encoding it hashes keeps
    the parts apart wherever their bytes lie. *)
Theorem fingerprint_distinguishes (sha256 : list N -> list N) ps qs :
  Forall fits ps -> Forall fits qs -> Fingerprint sha256 ps = Fingerprint sha256 qs ->
  ps = qs \/ exists x y, x <> y /\ sha256 x = sha256 y.
Proof.
  intros Hp Hq H. destruct (decide (length_prefixed ps = length_prefixed qs)) as [E|E].
  - left. by apply length_prefixed_inj.
  - right. eauto.
Qed.

(** ** The middleware *)

Section MiddlewareTheorems.
Context {A : Type} (sha256 : list N -> list N).
Implicit Types (s : Keys * A) (cfg : Config) (w : wire) (r : http_request) (resp : Response)
  (row : key_row) (token : uuid) (ttl lease : Z) (others : nat -> Keys -> Keys)
  (next : http_request -> A -> A * (list wop * bool)).

(** The key of a request that reaches the store. *)
Definition key_of r : Request := http_key sha256 (default "" (h_User r)) r (default [] (h_Body r)).

Definition reaches_store cfg r : Prop :=
  default "" (h_User r) <> "" /\ header_Get (h_Header r) HeaderKey <> ""
  /\ (exists body, h_Body r = Some body /\ Z.of_nat (length body) <= cfg_MaxRequestBytes cfg)
  /\ Request_Validate (key_of r) = Ok tt.

Lemma serve_reserves (store : Store Keys) cfg next w r s :
  reaches_store cfg r ->
  serve sha256 store cfg next w r s
  = match st_Reserve store (key_of r) (cfg_Lease cfg) (fst s) with
    | (k, Ok (Token token)) => serve_run store cfg next w r (key_of r) token (k, snd s)
    | (k, Ok (Replay resp)) =>
        ((k, snd s), match replay w resp with Some w => Replayed w | None => Handled w true end)
    | (k, Err ErrInProgress) => ((k, snd s), Refused 409 "CONFLICT")
    | (k, Err ErrKeyReused) => ((k, snd s), Refused 422 "UNPROCESSABLE_ENTITY")
    | (k, _) => ((k, snd s), Refused 503 "SERVICE_UNAVAILABLE")
    end.
Proof.
  intros (Hu & Hk & (body & Hb & Hl) & Hv). unfold serve, key_of in *.
  rewrite (bool_decide_false (_ = "")) by done. rewrite (bool_decide_false (_ = "")) by done.
  rewrite Hb in *. simpl in *. case_match eqn:E; [lia|]. by rewrite Hv.
Qed.

Lemma reserve_settled ttl (clock : nat -> Z) token (r : Request) lease row resp (db : Keys) :
  Request_Validate r = Ok tt -> 0 < lease -> db !! rq_id r = Some (completed_row row resp) ->
  k_fingerprint row = rq_Fingerprint r -> clock 0%nat < k_expires_at row ->
  Reserve ttl clock (fun _ db => db) token r lease db = (db, Ok (Replay resp)).
Proof.
  intros Hv Hl Hrow Hf He. unfold Reserve. rewrite Hv. case_match eqn:E; [lia|]. unfold reserveAttempts.
  cbn [reserve_loop]. rewrite (reserve_held _ _ _ _ _ _ _ Hrow) by (split; [done|by left]).
  by rewrite (existing_completed _ _ _ _ Hrow), bool_decide_true.
Qed.

(** A request that ran its handler and stored its response. *)
Lemma serve_stored ttl (clock : nat -> Z) others token cfg next w r s s1 wa row :
  reaches_store cfg r -> w_status w = None -> w_body w = [] ->
  Forall no_upgrade (fst (snd (next r (snd s)))) ->
  serve sha256 (pg_store ttl clock others token) cfg next w r s = (s1, Handled wa false) ->
  fst s1 !! rq_id (key_of r) = Some row -> settled_row row ->
  exists row0 resp, row = completed_row row0 resp /\ k_fingerprint row0 = rq_Fingerprint (key_of r)
    /\ 200 <= rs_Status resp <= 999 /\ w_status (wire_start wa) = Some (rs_Status resp)
    /\ w_body (wire_start wa) = sent_body (rs_Status resp) (default [] (rs_Body resp))
    /\ rs_Header resp = Some (handlerHeaders (w_Header w) (w_sent (wire_start wa))).
Proof.
  intros Hr Hst Hb Hops H Hrow Hset. rewrite serve_reserves in H by done.
  cbn [pg_store st_Reserve] in H.
  destruct (Reserve _ _ _ _ _ _ _) as [k [[t|resp]|[]| |]] eqn:ER; try done.
  2: { destruct (replay w resp); simplify_eq. }
  unfold Reserve in ER. destruct Hr as (_ & _ & _ & Hv). rewrite Hv in ER.
  case_match; [done|]. apply reserve_loop_token in ER as (-> & j & Hk).
  unfold serve_run in H. cbn [fst snd] in H.
  destruct (next r (snd s)) as [a [ops p]]. cbn in Hops.
  destruct (run_ops _ ops _) as [rec pan] eqn:Ero.
  assert (Hrel : forall k', k' = fst (Release (key_of r) token k) -> k' !! rq_id (key_of r) = Some row -> False).
  { intros k' -> Hl. unfold Release in Hl. rewrite Hk in Hl. simpl in Hl. case_match.
    - by rewrite lookup_delete_eq in Hl.
    - rewrite Hk in Hl. by simplify_eq. }
  destruct (pan || p) eqn:Ep; [by simplify_eq|]. apply orb_false_iff in Ep as [-> ->].
  apply run_ops_ok in Ero; [|done|by apply new_recorder_ok].
  destruct (rec_result rec) as [status header] eqn:Eres.
  destruct ((500 <=? status) || rec_overflow rec) eqn:Eo.
  { simplify_eq. exfalso. by eapply Hrel. }
  apply orb_false_iff in Eo as [Eo1 Eo2].
  pose proof (rec_result_sent _ _ _ Ero Eres Eo2) as (Hs & Hw1 & Hw2 & Hw3).
  simplify_eq. cbn [fst pg_store st_Complete] in Hrow. unfold Complete, complete in Hrow. rewrite Hk in Hrow.
  case_match; cbn [fst] in Hrow; [|rewrite Hk in Hrow; by simplify_eq]. rewrite lookup_insert_eq in Hrow. simplify_eq.
  eexists _, _. split_and!; [done|done|simpl; lia..|done| |done]. cbn [rs_Status rs_Body].
  rewrite Hw3. f_equal. by case_bool_decide.
Qed.


End MiddlewareTheorems.

(** ** The theorems on a concrete payment *)

(** An application that logs the payments it made. *)
Definition pay_request : Request := mkRequest "svc:pay" "k-1" [7; 7]%N.
Definition other_request : Request := mkRequest "svc:pay" "k-1" [8]%N.
Definition pay (log : list Z) : list Z * res idem_error Response := (log ++ [100], Ok (mkResponse 201 None (Some [1]%N))).
Definition no_keys : Keys * list Z := (∅, []).
Definition paid : Keys * list Z := fst (WithTx None None (Do DefaultTTL 0 pay_request pay) no_keys).

(** Other connections: a stale release, a reservation of the key and a clean-up. *)
Definition meanwhile : list (Z * key_op (list Z)) :=
  [ (10, KRelease pay_request 5%N); (20, KReserve other_request 1000 1000 9%N); (30, KDelete 0) ].

Lemma do_exactly_once_witness :
  WithTx None None (Do DefaultTTL 0 pay_request pay) no_keys = (paid, Ok (mkResponse 201 None (Some [1]%N), false))
  /\ snd (WithTx None None (Do DefaultTTL 40 pay_request pay) (run_trace meanwhile paid))
     = Ok (mkResponse 201 None (Some [1]%N), true)
  /\ snd (WithTx None None (Do DefaultTTL 40 other_request pay) (run_trace meanwhile paid)) = Err ErrKeyReused.
Proof.
  assert (H1 : WithTx None None (Do DefaultTTL 0 pay_request pay) no_keys
    = (paid, Ok (mkResponse 201 None (Some [1]%N), false))).
  { assert (H : snd (WithTx None None (Do DefaultTTL 0 pay_request pay) no_keys)
      = Ok (mkResponse 201 None (Some [1]%N), false)) by (vm_compute; reflexivity).
    rewrite <- H. apply surjective_pairing. }
  split; [exact H1|]. split.
  - apply (do_exactly_once _ _ _ _ _ _ _ meanwhile DefaultTTL 40 pay_request pay None None H1);
      [repeat constructor; vm_compute; reflexivity | vm_compute; reflexivity..].
  - apply (do_exactly_once _ _ _ _ _ _ _ meanwhile DefaultTTL 40 other_request pay None None H1);
      [repeat constructor; vm_compute; reflexivity | vm_compute; reflexivity..].
Defined.

Definition minute : duration := 60 * 1000000000.
Definition still (t : Z) (i : nat) : Z := t.
Definition undisturbed (i : nat) (db : Keys) : Keys := db.
Definition reserved_keys : Keys := fst (Reserve DefaultTTL (still 0) undisturbed 5%N pay_request minute ∅).

(** Another connection tries to complete, to release and to reserve the key. *)
Definition intruders : list (Z * key_op (list Z)) :=
  [ (10, KComplete pay_request 6%N (mkResponse 200 None None)); (20, KRelease pay_request 6%N);
    (30, KReserve pay_request 1000 1000 6%N); (40, KDo DefaultTTL pay_request pay None None) ].


(** The lease of token 5 lapses and token 6 takes the key over. *)
Definition taken_over : Keys * list Z :=
  run_trace [(61000000, KReserve pay_request 86400000000 60000000 6%N)] (reserved_keys, []).

Lemma stale_holder_fenced_witness :
  Complete pay_request 5%N (mkResponse 200 None None) (fst (run_trace [(61000100, KDelete 10)] taken_over))
  = (fst (run_trace [(61000100, KDelete 10)] taken_over), Err ErrNotReserved)
  /\ fst taken_over !! rq_id pay_request
     = Some (in_progress_row pay_request 61000000 86400000000 (Some 121000000) (Some 6%N)).
Proof.
  split; [|vm_compute; reflexivity].
  apply (stale_holder_fenced 5%N pay_request taken_over [(61000100, KDelete 10)] (mkResponse 200 None None)).
  - discriminate.
  - intros row H. vm_compute in H. injection H as <-. discriminate.
  - repeat constructor. intros [].
Defined.

Lemma fingerprint_distinguishes_witness :
  [[1; 2]; [3]]%N = [[1]; [2; 3]]%N \/ (exists x y : list N, x <> y /\ (fun _ : list N => [0]%N) x = (fun _ => [0]%N) y).
Proof.
  apply (fingerprint_distinguishes (fun _ => [0]%N)); [repeat constructor..|reflexivity].
Defined.

(** A handler that creates an order: a header, a status and a body. *)
Definition order_handler (r : http_request) (log : list Z) : list Z * (list wop * bool) :=
  (log ++ [1], ([OpHeader "Location" (Some ["/orders/1"]); OpHeader "Set-Cookie" (Some ["a=b"]); OpWriteHeader 201;
                 OpWrite [79; 75]%N], false)).
Definition order_request : http_request :=
  mkHttpRequest (Some "ana") "POST" "/orders" "" {[ HeaderKey := ["k-1"] ]} (Some [42]%N).
Definition plain_config : Config := Middleware_config (mkConfig 0 true 0 0).
Definition blank_wire : wire := mkWire {[ "X-Request-Id" := ["q1"] ]} None ∅ [].
Definition toy_hash (l : list N) : list N := take 4 (reverse l).
Definition first_order : (Keys * list Z) * outcome :=
  serve toy_hash (pg_store DefaultTTL (still 0) undisturbed 5%N) plain_config order_handler blank_wire order_request no_keys.

Definition order_wire : wire := match snd first_order with Handled w _ => w | _ => blank_wire end.
Definition order_row : key_row :=
  default (in_progress_row pay_request 0 0 None None) (fst (fst first_order) !! rq_id (key_of toy_hash order_request)).

