(* ===== verification/Action.v ===== *)
(** Effects of a workflow as background jobs: the registry that is the engine's effect
    sink ([action/action.go]), the worker that runs a job and logs its attempts
    ([action/worker.go], [action/attempt.go]), and the handler that sends messages
    ([action/notify.go], [notification/notification.go]).

    The job queue is River: a class with the one operation used, an insert that is
    skipped when a job with the same unique arguments is there, and a class of that
    law.  A handler answers what it did to the queue and to its own world, and how it
    ended; what [net/mail] accepts as an address is an argument. *)

From stdpp Require Import base gmap fin_maps sets list strings pretty.
From Stdlib Require Import ZArith Lia Ascii.
From S2P Require Import Prelude GoStrings Errors Model Definitions Repo Ports.

Open Scope string_scope.
Open Scope list_scope.
Open Scope Z_scope.

#[export] Instance Actor_eq_dec : EqDecision Actor.
Proof. solve_decision. Defined.

(** ** Jobs *)

Definition action_Kind : string := "vogel_action".

(** [Args]: the payload of one effect job. *)
Record Args := mkArgs {
  ar_CaseID : uuid; ar_Seq : Z; ar_Effect : string; ar_Part : Z; ar_TokenID : uuid;
  ar_Definition : string; ar_Version : Z; ar_Domain : string; ar_ExternalID : string; ar_Unit : string;
  ar_Actor : Actor; ar_ActorID : string }.

(** The arguments tagged unique. *)
Definition unique_key (a : Args) : uuid * Z * string * Z :=
  (ar_CaseID a, ar_Seq a, ar_Effect a, ar_Part a).

Definition args_with_part (a : Args) (i : Z) : Args :=
  mkArgs (ar_CaseID a) (ar_Seq a) (ar_Effect a) i (ar_TokenID a) (ar_Definition a) (ar_Version a)
    (ar_Domain a) (ar_ExternalID a) (ar_Unit a) (ar_Actor a) (ar_ActorID a).

(** [Run] of the action package: one execution of an effect. *)
Record EffectRun := mkEffectRun {
  rn_Effect : string; rn_CaseID : uuid; rn_TokenID : uuid; rn_Seq : Z; rn_Definition : string; rn_Version : Z;
  rn_Domain : string; rn_ExternalID : string; rn_Unit : string; rn_Actor : Actor; rn_ActorID : string;
  rn_Attempt : Z; rn_Part : Z }.

(** [uuid.UUID.String]: 32 hexadecimal digits in groups of 8, 4, 4, 4 and 12. *)
Definition nibble (u : uuid) (i : N) : N := N.land (N.shiftr u (4 * i)) 15.
Definition nibble_char (n : N) : ascii := ascii_of_N (if (n <? 10)%N then 48 + n else 87 + n)%N.
Definition uuid_group (u : uuid) (places : list N) : list ascii := (fun i => nibble_char (nibble u i)) <$> places.
Definition uuid_String (u : uuid) : string :=
  String.string_of_list_ascii
    (uuid_group u [31; 30; 29; 28; 27; 26; 25; 24]%N ++ ["-"%char]
     ++ uuid_group u [23; 22; 21; 20]%N ++ ["-"%char] ++ uuid_group u [19; 18; 17; 16]%N ++ ["-"%char]
     ++ uuid_group u [15; 14; 13; 12]%N ++ ["-"%char]
     ++ uuid_group u [11; 10; 9; 8; 7; 6; 5; 4; 3; 2; 1; 0]%N).

(** [Run.IdempotencyKey]. *)
Definition IdempotencyKey (r : EffectRun) : string :=
  (uuid_String (rn_CaseID r) ++ "/" ++ itoa (rn_Seq r) ++ "/" ++ rn_Effect r
   ++ (if bool_decide (rn_Part r = 0) then "" else "/" ++ itoa (rn_Part r)))%string.

(** [Run.SystemActor]. *)
Definition SystemActor (r : EffectRun) : Actor :=
  mkActor ActorSystem (action_Kind ++ ":" ++ rn_Effect r)%string "" (a_ID (rn_Actor r)) "".

(** ** The queue *)

Class Queue (J : Type) := { q_Enqueue : Args -> J -> J * (error + unit) }.

(** River's unique jobs: an insert whose unique arguments a job already has is
    skipped, and a failed insert adds nothing. *)
Class QueueLaws (J : Type) `{Queue J} := {
  q_jobs : J -> list Args;
  law_enqueue : forall a j j', q_Enqueue a j = (j', inr tt) ->
    q_jobs j' = if bool_decide (unique_key a ∈ unique_key <$> q_jobs j) then q_jobs j else q_jobs j ++ [a];
  law_enqueue_fails : forall a j j' e, q_Enqueue a j = (j', inl e) -> q_jobs j' = q_jobs j }.

(** A list of jobs is such a queue. *)
#[export] Instance list_Queue : Queue (list Args) := {
  q_Enqueue a j := (if bool_decide (unique_key a ∈ unique_key <$> j) then j else j ++ [a], inr tt) }.
#[export] Instance list_QueueLaws : QueueLaws (list Args).
Proof.
  refine {| q_jobs := fun j => j |}.
  - intros a j j' H. by injection H.
  - intros a j j' e H. discriminate.
Defined.

(** The handle an operation gets: a transaction or the pool, over the database and
    the queue's tables. *)
Record Outbox (D J : Type) := mkOutbox { ob_tx : bool; ob_db : D; ob_queue : J }.
Arguments mkOutbox {D J} _ _ _.
Arguments ob_tx {D J} o.
Arguments ob_db {D J} o.
Arguments ob_queue {D J} o.

(** ** The registry *)

Inductive registry_error := ErrInvalidRegistration | ErrDuplicateEffect.

Section Registry.
Context {D J H : Type} `{Queue J}.

(** [Registry.handlers]. *)
Abbreviation Registry := (gmap string H).

(** [Registry.Register]; a nil handler is [None]. *)
Definition Registry_Register (name : string) (h : option H) (r : Registry) : res registry_error Registry :=
  match h with
  | None => Err ErrInvalidRegistration
  | Some h =>
      if bool_decide (name = "") then Err ErrInvalidRegistration
      else match r !! name with
           | Some _ => Err ErrDuplicateEffect
           | None => Ok (<[name := h]> r)
           end
  end.

Definition HasEffect (r : Registry) (name : string) : bool := bool_decide (is_Some (r !! name)).

(** [effectsFor]. *)
Definition effectsFor (d : WDefinition) (evt : Event) : list string :=
  match ev_Kind evt with
  | EventOpened => match Definition_Node d (ev_ToState evt) with Some n => n_Effects n | None => [] end
  | EventMoved =>
      match Definition_Node d (ev_ToState evt) with Some n => n_Effects n | None => [] end
      ++ match findTransition (TransitionsFrom d (ev_FromState evt)) (ev_Action evt) with
         | Some tr => tr_Effects tr
         | None => []
         end
  | _ => []
  end.

(** [eventActorID]. *)
Definition eventActorID (evt : Event) : string :=
  if bool_decide (a_ID (ev_Actor evt) <> "") then a_ID (ev_Actor evt) else ev_ActorID evt.

Definition effect_job (c : Case) (evt : Event) (name : string) : Args :=
  mkArgs (c_ID c) (ev_Seq evt) name 0 (ev_TokenID evt) (c_Definition c) (c_Version c) (c_Domain c)
    (c_ExternalID c) (c_Unit c) (ev_Actor evt) (eventActorID evt).

(** The inner loop of [plan]. *)
Fixpoint plan_event_jobs (r : Registry) (c : Case) (evt : Event) (names : list string) : result (list Args) :=
  match names with
  | [] => Ok []
  | name :: rest =>
      let! _ := guardB (HasEffect r name) (sent ErrUnknownEffect) in
      let! jobs := plan_event_jobs r c evt rest in
      Ok (effect_job c evt name :: jobs)
  end.

(** [Registry.plan]. *)
Fixpoint plan (r : Registry) (d : WDefinition) (c : Case) (events : list Event) : result (list Args) :=
  match events with
  | [] => Ok []
  | evt :: rest =>
      let! jobs := plan_event_jobs r c evt (effectsFor d evt) in
      let! more := plan r d c rest in
      Ok (jobs ++ more)
  end.

(** [resolveTx] and [Registry.CheckDB]. *)
Definition resolveTx (o : Outbox D J) : error + unit :=
  if ob_tx o then inr tt else inl (EOther "pgxtx: no transaction in context").
Definition CheckDB (o : Outbox D J) : error + unit := resolveTx o.

(** The loop of [Dispatch]: the first failed insert ends it. *)
Fixpoint enqueue_all (jobs : list Args) (o : Outbox D J) : Outbox D J * (error + unit) :=
  match jobs with
  | [] => (o, inr tt)
  | a :: rest =>
      let '(j, res) := q_Enqueue a (ob_queue o) in
      let o := mkOutbox (ob_tx o) (ob_db o) j in
      match res with inr _ => enqueue_all rest o | inl e => (o, inl e) end
  end.

(** [Registry.Dispatch]. *)
Definition Dispatch (r : Registry) (d : WDefinition) (c : Case) (events : list Event) (o : Outbox D J)
  : Outbox D J * (error + unit) :=
  match plan r d c events with
  | Ok [] => (o, inr tt)
  | Ok jobs =>
      match resolveTx o with
      | inl e => (o, inl e)
      | inr _ => enqueue_all jobs o
      end
  | Err e => (o, inl e)
  | _ => (o, inl (EOther "unreachable"))
  end.

(** The registry is the engine's effect sink. *)
Definition registry_sink (r : Registry) : EffectSink (Outbox D J) :=
  mkEffectSink (Outbox D J) (HasEffect r) CheckDB (Dispatch r).

End Registry.

(** ** Errors of a handler *)

(** What River reads in an error, found with [errors.As]. *)
Inductive river_kind := RiverNone | RiverCancel | RiverSnooze.

#[export] Instance river_kind_eq_dec : EqDecision river_kind.
Proof. solve_decision. Defined.

(** An error value: its Go type, what it means to River, the known sentinel it is, and
    the errors it wraps: one ([Unwrap() error]) or several ([Unwrap() []error]). *)
Inductive herr :=
| HErr (type : string) (kind : river_kind) (sentinel : string) (inner : hwrap)
with hwrap :=
| WrapNone
| WrapOne (e : herr)
| WrapMany (es : list herr).

(** [errors.As] for River's own errors. *)
Fixpoint is_kind (k : river_kind) (e : herr) : bool :=
  match e with
  | HErr _ k' _ inner =>
      bool_decide (k' = k)
      || match inner with
         | WrapNone => false
         | WrapOne e' => is_kind k e'
         | WrapMany es => existsb (is_kind k) es
         end
  end.

(** [errors.Is] for a known sentinel. *)
Fixpoint is_sentinel (s : string) (e : herr) : bool :=
  match e with
  | HErr _ _ s' inner =>
      bool_decide (s' = s)
      || match inner with
         | WrapNone => false
         | WrapOne e' => is_sentinel s e'
         | WrapMany es => existsb (is_sentinel s) es
         end
  end.

(** The type of the innermost error along [errors.Unwrap]. *)
Fixpoint innermost_type (e : herr) : string :=
  match e with
  | HErr t _ _ (WrapOne e') => innermost_type e'
  | HErr t _ _ _ => t
  end.

Definition knownSentinels : list string :=
  ["context.Canceled"; "context.DeadlineExceeded"; "workflow.ErrUnknownEffect"].

Definition errorClassPanic : string := "panic".

(** [errorClass]. *)
Definition errorClass (e : option herr) : string :=
  match e with
  | None => ""
  | Some e =>
      match List.find (fun s => is_sentinel s e) knownSentinels with
      | Some s => (innermost_type e ++ " (" ++ s ++ ")")%string
      | None => innermost_type e
      end
  end.

(** [IsCancel]. *)
Definition IsCancel (e : herr) : bool := is_kind RiverCancel e.

(** ** Attempts *)

Inductive AttemptOutcome :=
| OutcomeSucceeded
| OutcomeRetry
| OutcomeCancelled
| OutcomeSnoozed
| OutcomeDiscarded
| OutcomeUnknownEffect.

#[export] Instance AttemptOutcome_eq_dec : EqDecision AttemptOutcome.
Proof. solve_decision. Defined.

Record Attempt := mkAttempt {
  at_ID : uuid; at_CaseID : uuid; at_Seq : Z; at_Effect : string; at_Part : Z; at_Attempt : Z; at_Snooze : Z;
  at_JobID : Z; at_StartedAt : time; at_FinishedAt : time; at_Outcome : AttemptOutcome; at_ErrorClass : string;
  at_RequestID : string; at_TraceID : string; at_ActorKind : ActorKind; at_ActorID : string;
  at_ResultRef : string; at_ResultDigest : string }.

(** [Result]. *)
Record EffectResult := mkEffectResult { er_Ref : string; er_Digest : string }.

(** A River job: its arguments and, when River runs it, its row. *)
Record JobRow := mkJobRow { jr_ID : Z; jr_Attempt : Z; jr_MaxAttempts : Z; jr_Metadata : option json }.
Record Job := mkJob { jb_Args : Args; jb_Row : option JobRow }.

(** [snoozeCount]; metadata that is empty or does not decode is [None]. *)
Definition snoozeCount (metadata : option json) : Z :=
  match metadata with
  | Some (JObj fields) => match as_num (json_field "snoozes" fields) with Ok n => n | _ => 0 end
  | _ => 0
  end.

(** [failedOutcome]. *)
Definition failedOutcome (j : Job) : AttemptOutcome :=
  match jb_Row j with
  | Some row => if (0 <? jr_MaxAttempts row) && (jr_MaxAttempts row <=? jr_Attempt row)
                then OutcomeDiscarded else OutcomeRetry
  | None => OutcomeRetry
  end.

(** [attemptOutcome]. *)
Definition attemptOutcome (e : option herr) (j : Job) : AttemptOutcome :=
  match e with
  | None => OutcomeSucceeded
  | Some e => if is_kind RiverSnooze e then OutcomeSnoozed
              else if IsCancel e then OutcomeCancelled
              else failedOutcome j
  end.

(** The unique columns of [action_attempt]. *)
Definition attempt_key (a : Attempt) : Z * Z * Z := (at_JobID a, at_Attempt a, at_Snooze a).

(** [insertAttempt]: a row that breaks a constraint is an error, which the caller only
    logs; a second row of the same attempt is skipped. *)
Definition insertAttempt (a : Attempt) (log : list Attempt) : list Attempt :=
  if (at_Attempt a <? 1) || (at_Snooze a <? 0) then log
  else if bool_decide (attempt_key a ∈ attempt_key <$> log) then log
  else if bool_decide (at_ID a ∈ at_ID <$> log) then log
  else log ++ [a].

(** ** The worker *)

(** What a call of [Work] finds: whether the attempt log is on and its insert works, the
    identifiers of the request and the trace, the clock, and the drawn identifier. *)
Record WorkEnv := mkWorkEnv {
  we_log : bool; we_insert_fails : bool; we_RequestID : string; we_TraceID : option string;
  we_started : time; we_finished : time; we_id : option uuid }.

(** How a handler, or [Work], ended. *)
Inductive hres := Returned (e : option herr) | Panicked.

Section Worker.
Context {J A : Type} `{Queue J}.

(** [enqueuePartsFunc]. *)
Abbreviation parts_func := (Z -> J -> J * (error + unit)).

(** A handler: the run, the parts function of its context, the queue and its world. *)
Abbreviation Handler := (EffectRun -> option parts_func -> J * A -> (J * A) * (hres * option EffectResult)).

(** [enqueueParts]: items [i] to [n]. *)
Fixpoint enqueue_parts_from (a : Args) (i : Z) (n : nat) (j : J) : J * (error + unit) :=
  match n with
  | O => (j, inr tt)
  | S n' =>
      match q_Enqueue (args_with_part a i) j with
      | (j, inr _) => enqueue_parts_from a (i + 1) n' j
      | (j, inl e) => (j, inl e)
      end
  end.
Definition enqueueParts (a : Args) : parts_func := fun n j => enqueue_parts_from a 1 (Z.to_nat n) j.

(** The run [Work] builds from a job. *)
Definition job_run (j : Job) : EffectRun :=
  let a := jb_Args j in
  let actor := if bool_decide (ar_Actor a = zero_Actor) && negb (bool_decide (ar_ActorID a = ""))
               then mkActor ActorUnspecified (ar_ActorID a) "" "" "" else ar_Actor a in
  mkEffectRun (ar_Effect a) (ar_CaseID a) (ar_TokenID a) (ar_Seq a) (ar_Definition a) (ar_Version a)
    (ar_Domain a) (ar_ExternalID a) (ar_Unit a) actor (ar_ActorID a)
    (match jb_Row j with Some row => jr_Attempt row | None => 0 end) (ar_Part a).

(** [recordAttempt]. *)
Definition recordAttempt (env : WorkEnv) (j : Job) (run : EffectRun) (outcome : AttemptOutcome) (class : string)
    (result : option EffectResult) (log : list Attempt) : list Attempt :=
  match jb_Row j, we_id env with
  | Some row, Some id =>
      if negb (we_log env) || we_insert_fails env then log
      else
        let res := default (mkEffectResult "" "") result in
        insertAttempt
          (mkAttempt id (rn_CaseID run) (rn_Seq run) (rn_Effect run) (rn_Part run) (jr_Attempt row)
             (snoozeCount (jr_Metadata row)) (jr_ID row) (we_started env) (we_finished env) outcome class
             (we_RequestID env) (default "" (we_TraceID env)) (a_Kind (rn_Actor run)) (a_ID (rn_Actor run))
             (er_Ref res) (er_Digest res)) log
  | _, _ => log
  end.

(** The error of an effect no handler is registered for. *)
Definition unknown_effect_error : herr :=
  HErr "*fmt.wrapError" RiverNone "" (WrapOne (HErr "*errors.errorString" RiverNone "workflow.ErrUnknownEffect" WrapNone)).

(** [Worker.Work]. *)
Definition Work (env : WorkEnv) (registry : gmap string Handler) (j : Job) (s : (J * A) * list Attempt)
  : ((J * A) * list Attempt) * hres :=
  let run := job_run j in
  match registry !! ar_Effect (jb_Args j) with
  | None =>
      let e := Some unknown_effect_error in
      ((fst s, recordAttempt env j run OutcomeUnknownEffect (errorClass e) None (snd s)), Returned e)
  | Some h =>
      let '(w, (r, result)) := h run (Some (enqueueParts (jb_Args j))) (fst s) in
      let log :=
        match r with
        | Returned e => recordAttempt env j run (attemptOutcome e j) (errorClass e) result (snd s)
        | Panicked => recordAttempt env j run (failedOutcome j) errorClassPanic result (snd s)
        end in
      ((w, log), r)
  end.

(** ** Messages *)

Record Message := mkMessage {
  m_To : string; m_From : string; m_Subject : string; m_HTML : string; m_Text : string }.

(** [Message.Validate]: [valid_address] is [mail.ParseAddress] succeeding. *)
Definition Message_Validate (valid_address : string -> bool) (m : Message) : bool :=
  negb (bool_decide (m_To m = "")) && valid_address (m_To m)
  && (bool_decide (m_From m = "") || valid_address (m_From m))
  && negb (bool_decide (m_Subject m = ""))
  && negb (bool_decide (m_HTML m = "") && bool_decide (m_Text m = "")).

Definition fmt_error : herr := HErr "*errors.errorString" RiverNone "" WrapNone.

(** [river.JobCancel]. *)
Definition JobCancel (e : herr) : herr := HErr "*rivertype.JobCancelError" RiverCancel "" (WrapOne e).

(** [fmt.Errorf] with one [%w]. *)
Definition wrapped (e : herr) : herr := HErr "*fmt.wrapError" RiverNone "" (WrapOne e).

Section Notify.
Context (valid_address : string -> bool) (send : Message -> A -> A * option herr)
  (build : EffectRun -> herr + list (option Message)).

(** [invalidMessage]. *)
Definition invalidMessage (m : option Message) : bool :=
  match m with None => true | Some m => negb (Message_Validate valid_address m) end.

(** One message sent. *)
Definition send_one (m : option Message) (s : J * A) : (J * A) * hres :=
  match m with
  | None => (s, Panicked)
  | Some m => match send m (snd s) with
              | (a, None) => ((fst s, a), Returned None)
              | (a, Some e) => ((fst s, a), Returned (Some (wrapped e)))
              end
  end.

(** The loop that sends every message in order. *)
Fixpoint send_all (ms : list (option Message)) (s : J * A) : (J * A) * hres :=
  match ms with
  | [] => (s, Returned None)
  | m :: rest =>
      match send_one m s with
      | (s, Returned None) => send_all rest s
      | (s, r) => (s, r)
      end
  end.

(** [sendPart]. *)
Definition sendPart (part : Z) (ms : list (option Message)) (s : J * A) : (J * A) * hres :=
  match ms !! Z.to_nat (part - 1) with
  | None => (s, Returned (Some (JobCancel fmt_error)))
  | Some m => if invalidMessage m then (s, Returned (Some (JobCancel fmt_error))) else send_one m s
  end.

(** [NotifyHandler]. *)
Definition NotifyHandler : Handler :=
  fun r parts s =>
    let answer p := (fst p, (snd p, None)) in
    match build r with
    | inl e => answer (s, Returned (Some (wrapped e)))
    | inr ms =>
        if 0 <? rn_Part r then answer (sendPart (rn_Part r) ms s)
        else if existsb invalidMessage ms then answer (s, Returned (Some (JobCancel fmt_error)))
        else match parts with
             | Some enqueue =>
                 if (1 <? length ms)%nat
                 then match enqueue (Z.of_nat (length ms)) (fst s) with
                      | (j, inr _) => answer ((j, snd s), Returned None)
                      | (j, inl _) => answer ((j, snd s), Returned (Some (wrapped (wrapped fmt_error))))
                      end
                 else answer (send_all ms s)
             | None => answer (send_all ms s)
             end
    end.

End Notify.

End Worker.
