(* ===== verification/ActionFacts.v ===== *)
(** Facts on effect jobs: a repository and a queue behind one handle are a repository
    that keeps the contract of the port, what [plan] and [Dispatch] do to the queue, and
    that the names of a valid definition's effects are known to the registry it was
    registered with. *)

From stdpp Require Import base gmap fin_maps sets list strings.
From Stdlib Require Import ZArith Lia Ascii.
From S2P Require Import Prelude GoStrings Errors Model Definitions Repo Ports Events Run Validate Engine.
From S2P Require Import ValidateFacts Action.

Open Scope string_scope.
Open Scope list_scope.
Open Scope Z_scope.

(** ** The handle as a repository *)

Section OutboxRepository.
Context {D J : Type} `{Repository D}.

Definition with_db (o : Outbox D J) (d : D) : Outbox D J := mkOutbox (ob_tx o) d (ob_queue o).

Definition on_db {R : Type} (f : D -> D * R) (o : Outbox D J) : Outbox D J * R :=
  (with_db o (fst (f (ob_db o))), snd (f (ob_db o))).

Lemma on_db_inv {R : Type} (f : D -> D * R) o o' r :
  on_db f o = (o', r) -> f (ob_db o) = (ob_db o', r) /\ ob_queue o' = ob_queue o /\ ob_tx o' = ob_tx o.
Proof. unfold on_db. intros [= <- <-]. split; [apply surjective_pairing|done]. Qed.

#[export] Instance outbox_Repository : Repository (Outbox D J) := {
  repo_Create c := on_db (repo_Create c);
  repo_GetByID o := repo_GetByID (ob_db o);
  repo_GetByExternalID o := repo_GetByExternalID (ob_db o);
  repo_Update c q := on_db (repo_Update c q);
  repo_AppendEvent e := on_db (repo_AppendEvent e);
  repo_ListEvents o := repo_ListEvents (ob_db o);
  repo_ListWorkItems o := repo_ListWorkItems (ob_db o);
  repo_ListOverdue o := repo_ListOverdue (ob_db o);
  repo_AdvanceLastSeq id := on_db (repo_AdvanceLastSeq id);
  repo_ListParticipated o := repo_ListParticipated (ob_db o);
  repo_ListEventDigests o := repo_ListEventDigests (ob_db o);
  repo_CreateScope s := on_db (repo_CreateScope s);
  repo_UpdateScope s := on_db (repo_UpdateScope s);
  repo_ListScopes o := repo_ListScopes (ob_db o);
  repo_CreateToken t := on_db (repo_CreateToken t);
  repo_UpdateToken t := on_db (repo_UpdateToken t);
  repo_ListTokens o := repo_ListTokens (ob_db o) }.

Context `{!RepositoryLaws D}.

#[export] Instance outbox_Laws : RepositoryLaws (Outbox D J).
Proof.
  refine {| view := fun o id => view (ob_db o) id |}; cbn.
  - intros o id c. apply law_get.
  - intros o id l. apply law_list_scopes.
  - intros o id l. apply law_list_tokens.
  - intros o id l. apply law_list_events.
  - intros c o o' c' (Hd & _)%on_db_inv. by apply (law_create _ _ _ _ Hd).
  - intros c q o o' c' (Hd & _)%on_db_inv. by apply (law_update _ _ _ _ _ Hd).
  - intros c q o old H1 H2. destruct (law_update_stale _ q _ _ H1 H2) as (d' & e & Hd & He).
    exists (with_db o d'), e. split; [|done]. unfold on_db. by rewrite Hd.
  - intros id o o' c' (Hd & _)%on_db_inv. by apply (law_advance _ _ _ _ Hd).
  - intros s o o' (Hd & _)%on_db_inv. by apply (law_create_scope _ _ _ Hd).
  - intros s o o' (Hd & _)%on_db_inv. by apply (law_update_scope _ _ _ Hd).
  - intros t o o' (Hd & _)%on_db_inv. by apply (law_create_token _ _ _ Hd).
  - intros t o o' (Hd & _)%on_db_inv. by apply (law_update_token _ _ _ Hd).
  - intros e o o' e' (Hd & _)%on_db_inv. by apply (law_append _ _ _ _ Hd).
  - intros c o o' e (Hd & _)%on_db_inv. by apply (law_create_err _ _ _ _ Hd).
  - intros c q o o' e (Hd & _)%on_db_inv. by apply (law_update_err _ _ _ _ _ Hd).
  - intros i o o' e (Hd & _)%on_db_inv. by apply (law_advance_err _ _ _ _ Hd).
  - intros x o o' e (Hd & _)%on_db_inv. by apply (law_append_err _ _ _ _ Hd).
Defined.

End OutboxRepository.

(** ** What the events ask for *)

(** The jobs of the events of a call, in order: for each event, one per effect. *)
Definition wanted (d : WDefinition) (c : Case) (events : list Event) : list Args :=
  concat ((fun evt => effect_job c evt <$> effectsFor d evt) <$> events).

(** Jobs added to a queue: one whose unique arguments are there is skipped. *)
Definition add_jobs (old new : list Args) : list Args :=
  fold_left (fun l a => if bool_decide (unique_key a ∈ unique_key <$> l) then l else l ++ [a]) new old.

Lemma add_jobs_keeps old new : old `prefix_of` add_jobs old new.
Proof.
  revert old. induction new as [|a new IH]; intros old; [done|]. cbn. etrans; [|apply IH].
  case_bool_decide; [done|]. by apply prefix_app_r.
Qed.

Lemma add_jobs_has old new a : a ∈ new -> unique_key a ∈ unique_key <$> add_jobs old new.
Proof.
  revert old. induction new as [|b new IH]; intros old Ha; [by apply not_elem_of_nil in Ha|]. cbn.
  apply elem_of_cons in Ha as [->|Ha]; [|by apply IH].
  assert (Hb : unique_key b ∈ unique_key
    <$> (if bool_decide (unique_key b ∈ unique_key <$> old) then old else old ++ [b])).
  { case_bool_decide; [done|]. rewrite fmap_app, elem_of_app. right. apply list_elem_of_here. }
  destruct (add_jobs_keeps (if bool_decide (unique_key b ∈ unique_key <$> old) then old else old ++ [b]) new) as [k Hk].
  unfold add_jobs in *. rewrite Hk, fmap_app, elem_of_app. by left.
Qed.

Lemma add_jobs_known old new :
  (forall a, a ∈ new -> unique_key a ∈ unique_key <$> old) -> add_jobs old new = old.
Proof.
  revert old. induction new as [|a new IH]; intros old Hn; [done|]. cbn.
  rewrite bool_decide_true by (apply Hn, list_elem_of_here). apply IH. intros b Hb. by apply Hn, list_elem_of_further.
Qed.

Lemma add_jobs_unique old new : NoDup (unique_key <$> old) -> NoDup (unique_key <$> add_jobs old new).
Proof.
  revert old. induction new as [|a new IH]; intros old Hn; [done|]. cbn. apply IH.
  case_bool_decide; [done|]. rewrite fmap_app. apply NoDup_app. split_and!; [done| |by apply NoDup_singleton].
  intros x Hx ->%list_elem_of_singleton. done.
Qed.

Section Plans.
Context {D J H : Type} `{Queue J, !QueueLaws J}.
Implicit Types (r : gmap string H) (d : WDefinition) (c : Case) (o : Outbox D J) (events : list Event).

(** Every effect the events ask for is registered. *)
Definition effects_known r d events : Prop :=
  forall evt name, evt ∈ events -> name ∈ effectsFor d evt -> HasEffect r name = true.

Lemma plan_event_jobs_spec r c evt names :
  plan_event_jobs r c evt names
  = if forallb (HasEffect r) names then Ok (effect_job c evt <$> names) else Err (sent ErrUnknownEffect).
Proof.
  induction names as [|name names IH]; [done|]. cbn. unfold guardB. destruct (HasEffect r name); [|done].
  cbn. rewrite IH. by case_match.
Qed.

Lemma plan_spec r d c events :
  (effects_known r d events /\ plan r d c events = Ok (wanted d c events))
  \/ (~ effects_known r d events /\ plan r d c events = Err (sent ErrUnknownEffect)).
Proof.
  induction events as [|evt events IH].
  { left. split; [|done]. intros ? ? Hin. by apply not_elem_of_nil in Hin. }
  cbn [plan]. rewrite plan_event_jobs_spec. destruct (forallb (HasEffect r) (effectsFor d evt)) eqn:E; cbn.
  - assert (He : forall name, name ∈ effectsFor d evt -> HasEffect r name = true).
    { intros name Hin. apply (proj1 (forallb_forall _ _) E). by apply list_elem_of_In. }
    destruct IH as [[Hk ->]|[Hk ->]].
    + left. split; [|done]. intros ev name [->|Hev]%elem_of_cons Hn; [by apply He | by eapply Hk].
    + right. split; [|done]. intros Hall. apply Hk. intros ev name Hev. apply Hall. by apply list_elem_of_further.
  - right. split; [|done]. intros Hall.
    assert (forallb (HasEffect r) (effectsFor d evt) = true); [|congruence].
    apply forallb_forall. intros name Hn%list_elem_of_In. eapply Hall; [apply list_elem_of_here|done].
Qed.

Lemma enqueue_all_spec jobs o o' res :
  enqueue_all jobs o = (o', res) ->
  ob_db o' = ob_db o /\ ob_tx o' = ob_tx o
  /\ match res with
     | inr _ => q_jobs (ob_queue o') = add_jobs (q_jobs (ob_queue o)) jobs
     | inl _ => exists k, q_jobs (ob_queue o') = add_jobs (q_jobs (ob_queue o)) (take k jobs)
     end.
Proof.
  revert o. induction jobs as [|a jobs IH]; intros o; cbn [enqueue_all]; [by intros [= <- <-]|].
  destruct (q_Enqueue a (ob_queue o)) as [j [e|[]]] eqn:E.
  - intros [= <- <-]. split_and!; [done|done|]. exists 0%nat. cbn. by apply (law_enqueue_fails _ _ _ _ E).
  - intros Ha. apply IH in Ha as (H1 & H2 & H3). split_and!; [done|done|]. cbn in H3.
    rewrite (law_enqueue _ _ _ E) in H3. destruct res; [|done]. destruct H3 as [k Hk]. by exists (S k).
Qed.

End Plans.

(** ** The effects of a registered definition are known *)

Lemma checkEffectNames_nil owner i seen l : checkEffectNames owner i seen l = [] -> "" ∉ l.
Proof.
  revert i seen. induction l as [|x l IH]; intros i seen Hc; [apply not_elem_of_nil|].
  cbn in Hc. case_bool_decide; [done|]. apply app_nil in Hc as [_ Hc]. rewrite not_elem_of_cons.
  split; [congruence|]. by eapply IH.
Qed.

Lemma valid_effects_named d name :
  Validate d = [] ->
  (exists n, n ∈ d_Nodes d /\ name ∈ n_Effects n) \/ (exists tr, tr ∈ d_Transitions d /\ name ∈ tr_Effects tr) ->
  name ∈ EffectNames d.
Proof.
  intros HV%Validate_parts Hn. unfold EffectNames, sort_Strings. rewrite elem_of_sort_by, dedup_names_spec, elem_of_app.
  rewrite !list_elem_of_In, !in_concat. split_and!.
  - intros ->. destruct Hn as [(n & Hin & He)|(tr & Hin & He)].
    + destruct (valid_node HV n Hin) as (i & seen & Hv). unfold node_violations in Hv. vsplit Hv.
      revert He. by eapply checkEffectNames_nil.
    + destruct (transitions_violations_elem d _ _ _ tr (vd_transitions d HV) Hin) as (i & seen & Hv).
      unfold transition_violations in Hv. vsplit Hv. revert He. by eapply checkEffectNames_nil.
  - by intros ?%list_elem_of_In%not_elem_of_nil.
  - destruct Hn as [(n & Hin & He)|(tr & Hin & He)]; [left|right].
    + exists (n_Effects n). rewrite <- !list_elem_of_In. split; [|done]. apply list_elem_of_fmap. eauto.
    + exists (tr_Effects tr). rewrite <- !list_elem_of_In. split; [|done]. apply list_elem_of_fmap. eauto.
Qed.

Lemma effectsFor_named d evt name :
  name ∈ effectsFor d evt ->
  (exists n, n ∈ d_Nodes d /\ name ∈ n_Effects n) \/ (exists tr, tr ∈ d_Transitions d /\ name ∈ tr_Effects tr).
Proof.
  assert (Hnode : name ∈ match Definition_Node d (ev_ToState evt) with Some n => n_Effects n | None => [] end ->
    exists n, n ∈ d_Nodes d /\ name ∈ n_Effects n).
  { destruct (Definition_Node d (ev_ToState evt)) as [n|] eqn:En; [|by intros ?%not_elem_of_nil].
    apply Definition_Node_Some in En as [En _]. eauto. }
  unfold effectsFor. destruct (ev_Kind evt); try by intros ?%not_elem_of_nil.
  - auto.
  - rewrite elem_of_app. intros [Hn|Hn]; [auto|]. right.
    destruct (findTransition _ _) as [tr|] eqn:Et; [|by apply not_elem_of_nil in Hn].
    apply findTransition_Some in Et as [Et _]. apply elem_of_TransitionsFrom in Et as [Et _]. eauto.
Qed.

(** ** The text of a uuid *)

Lemma nibble_lt u i : (nibble u i < 16)%N.
Proof. unfold nibble. change 15%N with (N.ones 4). rewrite N.land_ones. by apply N.mod_lt. Qed.

(** The value of a hexadecimal digit. *)
Definition nibble_val (c : ascii) : N :=
  let n := N_of_ascii c in if (n <? 58)%N then (n - 48)%N else (n - 87)%N.

Lemma nibble_cases (n : N) (P : N -> Prop) :
  (n < 16)%N -> (forall k, k ∈ [0; 1; 2; 3; 4; 5; 6; 7; 8; 9; 10; 11; 12; 13; 14; 15]%N -> P k) -> P n.
Proof.
  intros Hn HP. apply HP. rewrite !elem_of_cons. lia.
Qed.

Lemma nibble_val_char n : (n < 16)%N -> nibble_val (nibble_char n) = n.
Proof.
  intros Hn. apply (nibble_cases n); [done|]. intros k Hk. rewrite !elem_of_cons, elem_of_nil in Hk.
  repeat destruct Hk as [->|Hk]; done.
Qed.

Lemma nibble_char_not c n :
  (n < 16)%N -> has_char c "0123456789abcdef" = false -> Ascii.eqb (nibble_char n) c = false.
Proof.
  intros Hn Hc. cbn [has_char] in Hc. repeat (apply orb_false_iff in Hc as [? Hc]).
  apply (nibble_cases n); [done|]. intros k Hk. rewrite !elem_of_cons, elem_of_nil in Hk.
  repeat destruct Hk as [->|Hk]; done.
Qed.

Lemma has_char_list c l : has_char c (String.string_of_list_ascii l) = existsb (fun a => Ascii.eqb a c) l.
Proof. induction l as [|a l IH]; [done|]. cbn. by rewrite IH. Qed.

Lemma uuid_group_no_char c u l :
  has_char c "0123456789abcdef" = false -> existsb (fun a => Ascii.eqb a c) (uuid_group u l) = false.
Proof.
  intros Hc. unfold uuid_group. induction l as [|i l IH]; [done|]. cbn.
  rewrite (nibble_char_not c _ (nibble_lt u i) Hc). apply IH.
Qed.

Lemma uuid_String_no_slash u : has_char "/"%char (uuid_String u) = false.
Proof.
  unfold uuid_String. rewrite has_char_list, !existsb_app, !uuid_group_no_char by done. done.
Qed.

Lemma uuid_String_inj u v :
  (u < 2 ^ 128)%N -> (v < 2 ^ 128)%N -> uuid_String u = uuid_String v -> u = v.
Proof.
  intros Hu Hv HS. apply (f_equal String.list_ascii_of_string) in HS. unfold uuid_String in HS.
  rewrite !String.list_ascii_of_string_of_list_ascii in HS.
  unfold uuid_group in HS. cbn [fmap list_fmap app] in HS. injection HS. clear HS. intros.
  apply (chunks_inj 4 32); [done..|]. change (N.ones 4) with 15%N. intros j Hj. fold (nibble u j) (nibble v j).
  repeat match goal with E : nibble_char _ = nibble_char _ |- _ =>
    apply (f_equal nibble_val) in E; rewrite !nibble_val_char in E by apply nibble_lt end.
  apply (proj1 (Forall_forall (fun i => nibble u i = nibble v i)
    [0; 1; 2; 3; 4; 5; 6; 7; 8; 9; 10; 11; 12; 13; 14; 15; 16; 17; 18; 19; 20; 21; 22; 23; 24; 25; 26; 27; 28; 29; 30; 31]%N)).
  - repeat (apply Forall_cons_2; [assumption|]). apply Forall_nil_2.
  - rewrite !elem_of_cons. lia.
Qed.
