(* ===== verification/ActionTheorems.v ===== *)
(** The theorems on effects: what a dispatch enqueues, that the engine's effects are
    enqueued with the change that caused them and never fail as unknown, the fan-out of
    messages, the attempt log, and the keys that identify an effect. *)

From stdpp Require Import base gmap fin_maps sets list strings.
From Stdlib Require Import ZArith Lia Ascii.
From S2P Require Import Prelude GoStrings Errors Model Definitions JoinPolicies Repo Ports Events.
From S2P Require Import Run Validate Engine RunFrame CaseInv RunInv EngineInv Persist Plans.
From S2P Require Import ValidateFacts System Calls Postgres PostgresLaws Chain Scenario Action ActionFacts.

Open Scope string_scope.
Open Scope list_scope.
Open Scope Z_scope.

Section DispatchTheorems.
Context {D J H : Type} `{Queue J, !QueueLaws J}.
Implicit Types (r : gmap string H) (d : WDefinition) (c : Case) (o : Outbox D J) (events : list Event).

Lemma Dispatch_queue r d c events o o' :
  Dispatch r d c events o = (o', inr tt) ->
  ob_db o' = ob_db o /\ ob_tx o' = ob_tx o
  /\ q_jobs (ob_queue o') = add_jobs (q_jobs (ob_queue o)) (wanted d c events).
Proof.
  unfold Dispatch. destruct (plan_spec r d c events) as [[_ ->]|[_ ->]]; [|done].
  destruct (wanted d c events) as [|a jobs] eqn:Ew; [by intros [= <-]|].
  unfold resolveTx. destruct (ob_tx o) eqn:Etx; [|done]. intros (H1 & H2 & H3)%enqueue_all_spec.
  split_and!; [done|congruence|done].
Qed.

(** a dispatch leaves the database alone and enqueues, in order, exactly one job per
    effect of each event (the node entered, then the transition taken), skipping those the
    queue already has; so dispatching the same events again adds nothing.  An unknown
    effect, or a handle that is no transaction, fails before anything is enqueued. *)
Theorem dispatch_outcomes r d c events o o' res :
  Dispatch r d c events o = (o', res) ->
  ob_db o' = ob_db o
  /\ match res with
     | inr _ =>
         effects_known r d events /\ (wanted d c events = [] \/ ob_tx o = true)
         /\ q_jobs (ob_queue o') = add_jobs (q_jobs (ob_queue o)) (wanted d c events)
         /\ forall o2, Dispatch r d c events o' = (o2, inr tt) -> q_jobs (ob_queue o2) = q_jobs (ob_queue o')
     | inl e =>
         (~ effects_known r d events /\ e = sent ErrUnknownEffect /\ o' = o)
         \/ (effects_known r d events /\ ob_tx o = false /\ wanted d c events <> [] /\ o' = o)
         \/ (effects_known r d events /\ ob_tx o = true
             /\ exists k, q_jobs (ob_queue o') = add_jobs (q_jobs (ob_queue o)) (take k (wanted d c events)))
     end.
Proof.
  intros HD. pose proof HD as HD'. unfold Dispatch in HD.
  destruct (plan_spec r d c events) as [[Hk Hp]|[Hk Hp]]; rewrite Hp in HD; [|simplify_eq; auto].
  assert (Hcase : (wanted d c events = [] /\ o' = o /\ res = inr tt)
    \/ (wanted d c events <> [] /\ ob_tx o = false /\ o' = o /\ exists e, res = inl e)
    \/ (ob_tx o = true /\ enqueue_all (wanted d c events) o = (o', res))).
  { destruct (wanted d c events) as [|a jobs]; [by left; simplify_eq|right].
    unfold resolveTx in HD. destruct (ob_tx o); [by right|left]. simplify_eq. eauto. }
  destruct Hcase as [(Hw & -> & ->)|[(Hw & Htx & -> & e & ->)|(Htx & He)]].
  - split_and!; [done|done|by left|by rewrite Hw|]. intros o2 (_ & _ & Hj)%Dispatch_queue. by rewrite Hj, Hw.
  - split; [done|]. right. left. done.
  - apply enqueue_all_spec in He as (H1 & _ & H3). split; [done|]. destruct res as [e|[]]; [auto|].
    split_and!; [done|by right|done|]. intros o2 (_ & _ & Hj)%Dispatch_queue. rewrite Hj. apply add_jobs_known.
    intros a Ha. rewrite H3. by apply add_jobs_has.
Qed.

End DispatchTheorems.

Section EngineTheorems.
Context {D J H : Type} `{Repository D, !RepositoryLaws D, Queue J, !QueueLaws J}.
Implicit Types (r : gmap string H) (e : Engine (Outbox D J)) (o : Outbox D J).

(** The registry writes only the queue. *)
Lemma registry_apart r e : e_effectSink e = Some (registry_sink r) -> sink_apart e.
Proof.
  intros Hs sink d c evs o o' Hsink HD id. rewrite Hs in Hsink. simplify_eq. cbn in *.
  apply Dispatch_queue in HD as (-> & _). done.
Qed.

(** a definition the engine accepted never fails a dispatch for an unknown effect:
    every effect an event of it can trigger is registered. *)
Theorem accepted_effects_known r e e' d events :
  e_effectSink e = Some (registry_sink r) -> Register e d = Ok e' -> effects_known r d events.
Proof.
  intros Hs HR evt name _ Hn. unfold Register in HR. res_inv.
  match goal with H : bool_decide (Validate d = []) = true |- _ => apply bool_decide_eq_true in H as HV end.
  match goal with H : checkEffects e d = Ok _ |- _ => rename H into HC end.
  unfold checkEffects in HC. rewrite Hs in HC. apply guardB_Ok, bool_decide_eq_true in HC.
  destruct (HasEffect r name) eqn:E; [done|]. exfalso.
  cbn [registry_sink es_HasEffect] in HC.
  assert (Hin : name ∈ List.filter (fun name => negb (HasEffect r name)) (EffectNames d)).
  { apply list_elem_of_In, List.filter_In. cbn. rewrite E. split; [|done]. apply list_elem_of_In.
    apply valid_effects_named; [done|]. by eapply effectsFor_named. }
  rewrite HC in Hin. by apply not_elem_of_nil in Hin.
Qed.

Lemma queue_kept q : repo_stable (fun o : Outbox D J => ob_queue o = q).
Proof.
  assert (Hop : forall R (f : D -> D * (error + R)), w_stable (fun o : Outbox D J => ob_queue o = q) (w_lift (on_db f))).
  { intros R f o o' x Hx Hq. unfold w_lift in Hx. destruct (on_db f o) as [o1 r1] eqn:E. simplify_eq.
    apply on_db_inv in E as (_ & -> & _). done. }
  constructor; intros; apply Hop.
Qed.

(** C12: effects commit with the change that caused them.  A successful move stores the
    planned run and, in the same transaction, adds to the queue exactly the jobs of the
    events it appended, each at a Seq the case did not have before. *)
Theorem move_enqueues_effects r e cx o inp o' res :
  engine_ok e -> e_effectSink e = Some (registry_sink r) -> reachable e o -> fresh_uuids cx o ->
  MoveDetailed e cx inp o = (o', Ok res) ->
  exists d run c, move_plan e cx o inp = Ok (d, run) /\ c_ID c = mi_CaseID inp
    /\ stored_as o o' run c (mr_Case res)
    /\ q_jobs (ob_queue o') = add_jobs (q_jobs (ob_queue o)) (wanted d (mr_Case res) (mr_Events res))
    /\ Forall (fun evt => c_LastSeq c < ev_Seq evt) (mr_Events res).
Proof.
  intros He Hsink Hr Hf Hm. pose proof (registry_apart r e Hsink) as Hs.
  pose proof (reachable_ok e o He Hs Hr) as Ha.
  unfold MoveDetailed in Hm. apply w_bind_Ok in Hm as (o0 & [d run] & [-> Hp]%w_res_Ok & Hm).
  unfold commit_dispatch in Hm. apply w_bind_Ok in Hm as (oa & [c1 evs] & Hpers & Hm).
  apply w_bind_Ok in Hm as (ob & [] & Hd & Hm). injection Hm as <- <-.
  pose proof (persist_stable (fun x : Outbox D J => ob_queue x = ob_queue o) (queue_kept _) e cx run _ _ _ Hpers eq_refl) as Hq.
  pose proof Hd as Hq2. unfold dispatch in Hq2. rewrite Hsink in Hq2. unfold w_lift in Hq2. cbn [es_Dispatch registry_sink] in Hq2.
  destruct (Dispatch r d c1 evs oa) as [o1 [|[]]] eqn:HD; [done|]. injection Hq2 as ->.
  apply Dispatch_queue in HD as (_ & _ & Hj). rewrite Hq in Hj.
  apply (dispatch_untouched _ _ _ _ _ _ Hs) in Hd.
  pose proof (sound_of_ok e cx o (mi_CaseID inp) He Ha Hf) as Hsound.
  pose proof (move_plan_plans _ _ _ _ _ _ Hp) as Hpl. pose proof (move_plan_inv _ _ _ _ _ _ Hsound Hp) as HR.
  destruct (persist_facts e cx o (mi_CaseID inp) run oa c1 evs Ha Hpl HR Hpers) as (c & Ec & [B1 B2 B3 B4 B5 B6 B7]).
  exists d, run, c. split_and!; [done..| |done|].
  - constructor; cbn [mr_Case]; rewrite ?Hd; try done. intros id Hid. by rewrite Hd, B7.
  - cbn [mr_Events]. assert (Hseq : ev_Seq <$> evs = ev_Seq <$> r_events run) by exact (persist_seqs (DB := Outbox D J) e cx run o oa c1 evs Hpers).
    destruct Hpl as (c0 & d0 & T0 & S0 & Hp0). pose proof (planned_facts _ _ _ _ _ _ _ _ Hp0) as (_ & Hnum & _ & _ & Eb).
    destruct Hp0 as (Hg & _). apply law_get in Hg as (Hc0 & Eid0 & _).
    assert (c0 = c) as -> by (rewrite Ec in B1; congruence).
    rewrite (seq_planned run Hnum), Eb in Hseq.
    apply Forall_forall. intros evt Hin. apply (list_elem_of_fmap_2 ev_Seq) in Hin. rewrite Hseq in Hin.
    apply elem_of_seqZ in Hin. lia.
Qed.

End EngineTheorems.

(** ** Messages *)

Section NotifyTheorems.
Context {J A : Type} `{Queue J, !QueueLaws J}.
Context (valid_address : string -> bool) (send : Message -> A -> A * option herr)
  (build : EffectRun -> herr + list (option Message)).
Implicit Types (env : WorkEnv) (s : (J * A) * list Attempt).

Definition notifies (name : string) : gmap string (EffectRun -> option (Z -> J -> J * (error + unit)) -> J * A
    -> (J * A) * (hres * option EffectResult)) := {[ name := NotifyHandler valid_address send build ]}.

Lemma enqueue_parts_spec a i n (j j' : J) res :
  enqueue_parts_from a i n j = (j', res) ->
  match res with
  | inr _ => q_jobs j' = add_jobs (q_jobs j) (args_with_part a <$> seqZ i (Z.of_nat n))
  | inl _ => True
  end.
Proof.
  revert i j. induction n as [|n IH]; intros i j; cbn [enqueue_parts_from]; [by intros [= <- <-]|].
  destruct (q_Enqueue (args_with_part a i) j) as [j1 [e|[]]] eqn:E; [by intros [= <- <-]|].
  intros HE%IH. destruct res; [done|]. rewrite HE, (law_enqueue _ _ _ E).
  rewrite (seqZ_cons i) by lia. replace (Z.pred (Z.of_nat (S n))) with (Z.of_nat n) by lia. done.
Qed.

(** The run of part [i] of a job is the run of the job with the part set. *)
Definition part_job (j : Job) (i : Z) (row : option JobRow) : Job := mkJob (args_with_part (jb_Args j) i) row.

(** a notification with several messages is fanned out.  The effect's own job sends
    nothing and enqueues one job per message; the job of part [i] sends message [i] and no
    other, whatever happened to the rest, so a retry never resends what went out.  A part
    beyond the messages, or an invalid message, is cancelled and nothing is sent. *)
Theorem notify_fans_out env name job ms s s' res :
  ar_Effect (jb_Args job) = name -> ar_Part (jb_Args job) = 0 ->
  (forall i row, build (job_run (part_job job i row)) = inr ms) -> build (job_run job) = inr ms ->
  (1 < length ms)%nat ->
  (Work env (notifies name) job s = (s', res) ->
     snd (fst s') = snd (fst s)
     /\ (existsb (invalidMessage valid_address) ms = true -> fst s' = fst s /\ res = Returned (Some (JobCancel fmt_error)))
     /\ (res = Returned None -> q_jobs (fst (fst s'))
           = add_jobs (q_jobs (fst (fst s))) (args_with_part (jb_Args job) <$> seqZ 1 (Z.of_nat (length ms)))))
  /\ forall i row, 0 < i ->
       let '(s2, res2) := Work env (notifies name) (part_job job i row) s in
       fst (fst s2) = fst (fst s)
       /\ match ms !! Z.to_nat (i - 1) with
          | Some (Some m) =>
              if Message_Validate valid_address m
              then snd (fst s2) = fst (send m (snd (fst s)))
                   /\ (res2 = Returned None <-> snd (send m (snd (fst s))) = None)
              else snd (fst s2) = snd (fst s) /\ res2 = Returned (Some (JobCancel fmt_error))
          | _ => snd (fst s2) = snd (fst s) /\ res2 = Returned (Some (JobCancel fmt_error))
          end.
Proof.
  intros Hname Hpart Hb Hb0 Hlen. split.
  - unfold Work, notifies. rewrite Hname, lookup_singleton_eq. unfold NotifyHandler at 1.
    rewrite Hb0. cbn [job_run rn_Part]. rewrite Hpart. cbn [Z.ltb Z.compare].
    destruct (existsb (invalidMessage valid_address) ms) eqn:Ei.
    { cbn. intros [= <- <-]. cbn. split_and!; [done|done|done]. }
    destruct (1 <? length ms)%nat eqn:El; [|apply Nat.ltb_ge in El; lia].
    destruct (enqueueParts (jb_Args job) (Z.of_nat (length ms)) (fst (fst s))) as [j [e|[]]] eqn:E;
      cbn; intros [= <- <-]; cbn; (split_and!; [done|done|]); [done|]. intros _.
    unfold enqueueParts in E. rewrite Nat2Z.id in E. by apply enqueue_parts_spec in E.
  - intros i row Hi. unfold Work, notifies. cbn [part_job jb_Args args_with_part ar_Effect].
    rewrite Hname, lookup_singleton_eq. unfold NotifyHandler at 1. fold (part_job job i row). rewrite Hb.
    cbn [job_run part_job jb_Args args_with_part rn_Part ar_Part].
    destruct (0 <? i) eqn:E0; [|lia]. unfold sendPart.
    destruct (ms !! Z.to_nat (i - 1)) as [[m|]|]; cbn; [|done..].
    destruct (Message_Validate valid_address m); cbn; [|done].
    destruct (send m (snd (fst s))) as [a' [e|]]; cbn; (split_and!; [done..|]); by split.
Qed.

End NotifyTheorems.

(** ** Attempts *)

Section AttemptTheorems.
Context {J A : Type} `{Queue J}.

(** Any sequence of jobs worked. *)
Fixpoint work_all (jobs : list (WorkEnv * Job)) registry (s : (J * A) * list Attempt) : (J * A) * list Attempt :=
  match jobs with
  | [] => s
  | (env, j) :: rest => work_all rest registry (fst (Work env registry j s))
  end.

Definition log_ok (log : list Attempt) : Prop :=
  NoDup (attempt_key <$> log) /\ Forall (fun a => 1 <= at_Attempt a /\ 0 <= at_Snooze a) log.

Lemma insert_log a log : log_ok log -> log_ok (insertAttempt a log) /\ log `prefix_of` insertAttempt a log.
Proof.
  intros [Hn Hf]. unfold insertAttempt. case_match eqn:E; [done|]. apply orb_false_iff in E.
  repeat case_bool_decide; try done. split; [|by apply prefix_app_r]. split.
  - rewrite fmap_app. apply NoDup_app. split_and!; [done| |by apply NoDup_singleton].
    intros x Hx ->%list_elem_of_singleton. done.
  - apply Forall_app. split; [done|]. apply Forall_singleton. lia.
Qed.

Lemma record_log env j run outcome class result log :
  log_ok log -> log_ok (recordAttempt env j run outcome class result log)
    /\ log `prefix_of` recordAttempt env j run outcome class result log.
Proof. intros Hl. unfold recordAttempt. repeat case_match; try done. by apply insert_log. Qed.

Lemma work_log env registry j (s : (J * A) * list Attempt) :
  log_ok (snd s) -> log_ok (snd (fst (Work env registry j s))) /\ snd s `prefix_of` snd (fst (Work env registry j s)).
Proof.
  intros Hl. unfold Work. destruct (registry !! _) as [h|]; cbn; [|by apply record_log].
  destruct (h _ _ _) as [w [[e|] result]]; cbn; by apply record_log.
Qed.

(** C13: the attempt log.  Whatever jobs are worked, in whatever order and however their
    handlers end, the log only grows and no attempt of a job is recorded twice; and an
    attempt River ran, with the log working and not recorded yet, gets one row whose
    outcome is discarded exactly when a failure (or a panic) used up the last attempt. *)
Theorem attempt_log_sound jobs registry (s : (J * A) * list Attempt) env j row id :
  log_ok (snd s) ->
  let s1 := work_all jobs registry s in
  log_ok (snd s1) /\ snd s `prefix_of` snd s1
  /\ (jb_Row j = Some row -> we_log env = true -> we_insert_fails env = false -> we_id env = Some id ->
      1 <= jr_Attempt row -> 0 <= snoozeCount (jr_Metadata row) ->
      (jr_ID row, jr_Attempt row, snoozeCount (jr_Metadata row)) ∉ attempt_key <$> snd s1 ->
      id ∉ at_ID <$> snd s1 ->
      let '(s2, res) := Work env registry j s1 in
      exists a, snd s2 = snd s1 ++ [a] /\ at_JobID a = jr_ID row /\ at_Attempt a = jr_Attempt row
        /\ at_Outcome a = match registry !! ar_Effect (jb_Args j), res with
                         | None, _ => OutcomeUnknownEffect
                         | _, Returned None => OutcomeSucceeded
                         | _, Returned (Some e) =>
                             if is_kind RiverSnooze e then OutcomeSnoozed
                             else if is_kind RiverCancel e then OutcomeCancelled
                             else if (0 <? jr_MaxAttempts row) && (jr_MaxAttempts row <=? jr_Attempt row)
                             then OutcomeDiscarded else OutcomeRetry
                         | _, Panicked =>
                             if (0 <? jr_MaxAttempts row) && (jr_MaxAttempts row <=? jr_Attempt row)
                             then OutcomeDiscarded else OutcomeRetry
                         end).
Proof.
  intros Hl s1.
  assert (Hs1 : log_ok (snd s1) /\ snd s `prefix_of` snd s1).
  { subst s1. revert s Hl. induction jobs as [|[env' j'] jobs IH]; intros s Hl; [done|]. cbn.
    destruct (work_log env' registry j' s Hl) as [H1 H2]. destruct (IH _ H1) as [H3 H4].
    split; [done|]. by etrans. }
  split_and!; [apply Hs1..|]. intros Hrow Hlog Hins Hid Hatt Hsn Hnew Hnewid.
  assert (Hrec : forall outcome class result, exists a,
    recordAttempt env j (job_run j) outcome class result (snd s1) = snd s1 ++ [a]
    /\ at_JobID a = jr_ID row /\ at_Attempt a = jr_Attempt row /\ at_Outcome a = outcome).
  { intros outcome class result. unfold recordAttempt. rewrite Hrow, Hid, Hlog, Hins. cbn [negb orb].
    unfold insertAttempt. cbn [at_Attempt at_Snooze at_ID].
    destruct (_ || _) eqn:E; [apply orb_true_iff in E; lia|].
    rewrite !bool_decide_false by done. eexists. split_and!; done. }
  unfold Work. destruct (registry !! _) as [h|]; [|apply Hrec].
  destruct (h _ _ _) as [w [[[e|]|] result]]; cbn; unfold failedOutcome, IsCancel; rewrite ?Hrow; apply Hrec.
Qed.

End AttemptTheorems.

(** ** Idempotency keys of effects *)

Definition slash_free (r : EffectRun) : Prop := has_char "/"%char (rn_Effect r) = false.
Definition has_uuid (r : EffectRun) : Prop := (rn_CaseID r < 2 ^ 128)%N.
Definition same_effect (a b : EffectRun) : Prop :=
  rn_CaseID a = rn_CaseID b /\ rn_Seq a = rn_Seq b /\ rn_Effect a = rn_Effect b /\ rn_Part a = rn_Part b.

(** A run told apart by its effect and part alone. *)
Definition run_named (effect : string) (part : Z) : EffectRun :=
  mkEffectRun effect 7%N 7%N 3 "review" 1 "" "" "" zero_Actor "" 1 part.

(** with effect names that have no slash, the idempotency key identifies the case,
    the event, the effect and the part.  A name with a slash can collide with a part:
    effect ["pay/1"] and part 1 of effect ["pay"] have the same key. *)
Theorem idempotency_key_identifies :
  (forall a b, slash_free a -> slash_free b -> has_uuid a -> has_uuid b ->
     IdempotencyKey a = IdempotencyKey b <-> same_effect a b)
  /\ IdempotencyKey (run_named "pay/1" 0) = IdempotencyKey (run_named "pay" 1).
Proof.
  split; [|vm_compute; reflexivity]. intros a b Ha Hb Hua Hub. split.
  - unfold IdempotencyKey. intros HK.
    apply (sep_join_inj_prefix "/"%char) in HK as [H1 HK]; [|apply uuid_String_no_slash..].
    apply uuid_String_inj in H1; [|done..].
    apply (sep_join_inj_prefix "/"%char) in HK as [H2%itoa_inj HK]; [|by apply itoa_no_char..].
    unfold slash_free in *. repeat case_bool_decide.
    + rewrite !str_app_empty_r in HK. split_and!; congruence.
    + rewrite str_app_empty_r in HK. rewrite HK, has_char_app in Ha.
      cbn in Ha. by rewrite orb_true_r in Ha.
    + rewrite str_app_empty_r in HK. rewrite <- HK, has_char_app in Hb.
      cbn in Hb. by rewrite orb_true_r in Hb.
    + apply (sep_join_inj_prefix "/"%char) in HK as [H3 H4%itoa_inj]; [|done..]. done.
  - intros (H1 & H2 & H3 & H4). unfold IdempotencyKey. by rewrite H1, H2, H3, H4.
Qed.

(** ** The theorems on a process with effects *)

Definition billing : WDefinition :=
  mkDefinition "billing" 1
    [ mkNode "draft" true false zero_Eligibility 0 "" NodeTask [] "" "" JoinNone "";
      mkNode "sent" false true zero_Eligibility 0 "" NodeTask ["notify"] "" "" JoinNone "" ]
    [ mkTransition "draft" "sent" "send" "" CommentOptional false ["archive"] OutcomeNone ].

(** The handlers are named by numbers. *)
Definition handlers : gmap string nat := {[ "notify" := 1%nat; "archive" := 2%nat ]}.

Abbreviation Desk := (Outbox Tables (list Args)).

Definition desk_ports : Engine Desk :=
  mkEngine Desk None None None None ∅ ∅ ∅ (Some (registry_sink handlers)).
Definition desk : Engine Desk := New desk_ports [billing].
Definition desk0 : Desk := mkOutbox true db0 [].
Definition bill : OpenInput := mkOpenInput "billing" 0 "billing" "B-1" "north" "" clerk "".
Definition desk1 : Desk := fst (perform desk (at_call 1) (COpen bill) desk0).
Definition sending : MoveInput := moving 0%N clerk "send" "".
Definition desk_sent : Desk * result MoveResult := MoveDetailed desk (at_call 2) sending desk1.
Definition sent_result : MoveResult := result_of (mkMoveResult (case_in db1) [] []) (snd desk_sent).

Lemma desk_ok : engine_ok desk.
Proof.
  assert (Ed : e_definitions desk = {[ "billing@1" := billing ]}) by (vm_compute; reflexivity).
  assert (El : e_latest desk = {[ "billing" := billing ]}) by (vm_compute; reflexivity).
  assert (Hv : Validate billing = []) by (vm_compute; reflexivity).
  constructor; rewrite ?Ed, ?El.
  - intros k d [<- <-]%lookup_singleton_Some. split; [reflexivity|exact Hv].
  - intros n d [<- <-]%lookup_singleton_Some. split; reflexivity.
Qed.

Lemma desk_registry : e_effectSink desk = Some (registry_sink handlers).
Proof. reflexivity. Qed.

Lemma desk_reach1 : reachable desk desk1.
Proof.
  eapply (reach_call desk desk0 desk1 (at_call 1) (COpen bill)).
  - apply reach_start. intros id. reflexivity.
  - split; [simpl; intros m n; lia|]. intros id n. split; apply not_elem_of_nil.
  - assert (Hs : snd (perform desk (at_call 1) (COpen bill) desk0) = Ok tt) by (vm_compute; reflexivity).
    rewrite <- Hs. apply surjective_pairing.
Qed.

Lemma desk_fresh2 : fresh_uuids (at_call 2) desk1.
Proof.
  assert (Hi : ids_below 2000000%N (ob_db desk1) = true) by (vm_compute; reflexivity).
  exact (fresh_at 2 (ob_db desk1) Hi).
Qed.

Lemma move_enqueues_effects_witness :
  ar_Effect <$> q_jobs (ob_queue (fst desk_sent)) = ["notify"; "archive"]
  /\ exists d run c, move_plan desk (at_call 2) desk1 sending = Ok (d, run) /\ c_ID c = the_case
     /\ stored_as desk1 (fst desk_sent) run c (mr_Case sent_result).
Proof.
  split; [vm_compute; reflexivity|].
  destruct (move_enqueues_effects handlers desk (at_call 2) desk1 sending (fst desk_sent) sent_result)
    as (d & run & c & H1 & H2 & H3 & _).
  - exact desk_ok.
  - exact desk_registry.
  - exact desk_reach1.
  - exact desk_fresh2.
  - assert (Hs : snd desk_sent = Ok sent_result) by (vm_compute; reflexivity).
    rewrite <- Hs. apply surjective_pairing.
  - exists d, run, c. split_and!; [exact H1|exact H2|exact H3].
Defined.

Lemma accepted_effects_known_witness : effects_known handlers billing (mr_Events sent_result).
Proof.
  apply (accepted_effects_known handlers desk_ports (result_of desk_ports (Register desk_ports billing)) billing).
  - reflexivity.
  - vm_compute. reflexivity.
Defined.

Definition sent_events : list Event := mr_Events sent_result.
Definition sent_case : Case := mr_Case sent_result.

Lemma dispatch_outcomes_witness :
  effects_known handlers billing sent_events
  /\ ar_Effect <$> q_jobs (ob_queue (fst (Dispatch handlers billing sent_case sent_events desk0))) = ["notify"; "archive"].
Proof.
  split; [|vm_compute; reflexivity].
  destruct (dispatch_outcomes handlers billing sent_case sent_events desk0
    (fst (Dispatch handlers billing sent_case sent_events desk0)) (inr tt)) as (_ & Hk & _).
  - assert (Hs : snd (Dispatch handlers billing sent_case sent_events desk0) = inr tt) by (vm_compute; reflexivity).
    rewrite <- Hs. apply surjective_pairing.
  - exact Hk.
Defined.

(** A notifier that keeps what it sent. *)
Definition outgoing (m : Message) (l : list Message) : list Message * option herr := (l ++ [m], None).
Definition two_messages (r : EffectRun) : herr + list (option Message) :=
  inr [Some (mkMessage "ana@x.cl" "" "Hi" "" "one"); Some (mkMessage "eva@x.cl" "" "Hi" "" "two")].
Definition notify_job : Job :=
  mkJob (mkArgs the_case 2 "notify" 0 the_case "billing" 1 "" "" "" zero_Actor "ana") (Some (mkJobRow 1 1 3 None)).
Definition logged (i : N) : WorkEnv := mkWorkEnv true false "" None 0 1 (Some i).
Definition idle : (list Args * list Message) * list Attempt := (([], []), []).

Lemma notify_fans_out_witness :
  let registry := notifies (fun _ => true) outgoing two_messages "notify" in
  snd (fst (fst (Work (logged 1) registry notify_job idle))) = []
  /\ snd (fst (fst (Work (logged 2) registry (part_job notify_job 2 (jb_Row notify_job)) idle)))
     = [mkMessage "eva@x.cl" "" "Hi" "" "two"].
Proof.
  intros registry.
  destruct (notify_fans_out (fun _ => true) outgoing two_messages (logged 1) "notify" notify_job
    [Some (mkMessage "ana@x.cl" "" "Hi" "" "one"); Some (mkMessage "eva@x.cl" "" "Hi" "" "two")] idle
    (fst (Work (logged 1) registry notify_job idle)) (snd (Work (logged 1) registry notify_job idle)))
    as [H1 H2].
  - reflexivity.
  - reflexivity.
  - reflexivity.
  - reflexivity.
  - simpl. lia.
  - split; [apply H1, surjective_pairing|].
    pose proof (H2 2 (jb_Row notify_job) ltac:(lia)) as H3. vm_compute in H3. vm_compute. apply H3.
Defined.

Lemma attempt_log_sound_witness :
  let registry := notifies (fun _ => true) outgoing two_messages "notify" in
  log_ok (snd (work_all [(logged 1, notify_job); (logged 2, notify_job)] registry idle))
  /\ length (snd (work_all [(logged 1, notify_job); (logged 2, notify_job)] registry idle)) = 1%nat.
Proof.
  intros registry. split; [|vm_compute; reflexivity].
  apply (attempt_log_sound [(logged 1, notify_job); (logged 2, notify_job)] registry idle (logged 3) notify_job
    (mkJobRow 1 1 3 None) 3%N).
  split; constructor.
Defined.
