(* ===== verification/Access.v ===== *)
(** Authorization: the per-instance check of [access/access.go], its middleware
    ([httpx/middleware/access.go], [authz.go]) and authentication by bearer token
    ([httpx/middleware/auth.go]).

    Attribute maps are mutable Go maps that are passed around, so a map is a location
    of a heap, nil is no location, and [maps.Clone] allocates.  A resolver and a checker
    are the consumer's code: they act on the whole world.  Guards and principals are
    pointers, told apart by a number. *)

From stdpp Require Import base gmap fin_maps sets list strings.
From Stdlib Require Import ZArith Lia Ascii.
From S2P Require Import Prelude GoStrings IdempotencyHttp.

Open Scope string_scope.
Open Scope list_scope.
Open Scope Z_scope.

(** ** Errors *)

Inductive access_sentinel := ErrUnauthenticated | ErrForbidden | ErrUnavailable.

#[export] Instance access_sentinel_eq_dec : EqDecision access_sentinel.
Proof. solve_decision. Defined.

Inductive access_error :=
| ASentinel (s : access_sentinel)
| AOther (what : string)
| AWrap (a b : access_error).

(** [errors.Is]. *)
Fixpoint access_Is (e : access_error) (s : access_sentinel) : bool :=
  match e with
  | ASentinel s' => bool_decide (s' = s)
  | AOther _ => false
  | AWrap a b => access_Is a s || access_Is b s
  end.

(** ** The world of a request *)

Abbreviation loc := positive.

(** [auth.Principal], with the identity of its pointer. *)
Record AuthPrincipal := mkAuthPrincipal { ap_ptr : N; ap_UserID : string; ap_Roles : list string }.

(** [authz.Principal] and [authz.Resource]; attributes are nil or a map. *)
Record AuthzPrincipal := mkAuthzPrincipal { zp_ID : string; zp_Roles : list string; zp_Attr : option loc }.
Record Resource := mkResource { rc_Kind : string; rc_ID : string; rc_Attr : option loc }.

(** The memoized outcome of one resolver call. *)
Record scopeEntry := mkScopeEntry { se_attr : option loc; se_err : option access_error }.

(** The context of a call: its principal and the request scope it carries. *)
Record AccessCtx := mkAccessCtx { ax_principal : option AuthPrincipal; ax_scope : option N }.

Section Access.
(** Attribute values, and the state of the consumer's own code. *)
Context {V C : Type}.

Record World := mkWorld {
  heap : gmap loc (gmap string V);
  scopes : gmap N (gmap (N * N) scopeEntry);
  consumer : C }.

Definition with_heap (w : World) (h : gmap loc (gmap string V)) : World := mkWorld h (scopes w) (consumer w).

(** [maps.Clone] of a map that is there. *)
Definition clone_map (w : World) (l : loc) : World * loc :=
  let l' := fresh (dom (heap w)) in
  (with_heap w (<[l' := default ∅ (heap w !! l)]> (heap w)), l').

(** [cloneAttr]. *)
Definition cloneAttr (w : World) (m : option loc) : World * option loc :=
  match m with
  | None => (w, None)
  | Some l => let '(w, l') := clone_map w l in (w, Some l')
  end.

(** [PrincipalAttributes] and [authz.Checker]. *)
Abbreviation Resolver := (AuthPrincipal -> World -> World * (access_error + option loc)).
Abbreviation Checker := (AuthzPrincipal -> Resource -> string -> World -> World * (access_error + bool)).

Record Guard := mkGuard { g_ptr : N; g_checker : Checker; g_attributes : option Resolver }.

(** [New]: [None] is the panic on a nil checker. *)
Definition New_Guard (ptr : N) (checker : option Checker) (attributes : option Resolver) : option Guard :=
  (fun c => mkGuard ptr c attributes) <$> checker.

Definition HasPrincipalAttributes (g : Guard) : bool := bool_decide (is_Some (g_attributes g)).

(** [callResolver]. *)
Definition callResolver (f : Resolver) (p : AuthPrincipal) (w : World)
  : World * (option loc * option access_error) :=
  match f p w with
  | (w, inl e) => (w, (None, Some (AWrap (ASentinel ErrUnavailable) e)))
  | (w, inr None) => (w, (None, None))
  | (w, inr (Some l)) =>
      if bool_decide (default ∅ (heap w !! l) = ∅) then (w, (None, None))
      else let '(w, l') := clone_map w l in (w, (Some l', None))
  end.

(** The entries of the scope a context carries. *)
Definition scope_entries (w : World) (id : N) : gmap (N * N) scopeEntry := default ∅ (scopes w !! id).

(** [resolveAttributes]. *)
Definition resolveAttributes (g : Guard) (f : Resolver) (cx : AccessCtx) (p : AuthPrincipal) (w : World)
  : World * (option loc * option access_error) :=
  match ax_scope cx with
  | None => callResolver f p w
  | Some id =>
      let key := (g_ptr g, ap_ptr p) in
      match scope_entries w id !! key with
      | Some entry => let '(w, l) := cloneAttr w (se_attr entry) in (w, (l, se_err entry))
      | None =>
          let '(w, (attr, err)) := callResolver f p w in
          let w := mkWorld (heap w) (<[id := <[key := mkScopeEntry attr err]> (scope_entries w id)]> (scopes w))
                     (consumer w) in
          let '(w, l) := cloneAttr w attr in (w, (l, err))
      end
  end.

(** [Guard.Principal]. *)
Definition Guard_Principal (g : Guard) (cx : AccessCtx) (w : World) : World * (access_error + AuthzPrincipal) :=
  match ax_principal cx with
  | None => (w, inl (ASentinel ErrUnauthenticated))
  | Some ap =>
      match g_attributes g with
      | None => (w, inr (mkAuthzPrincipal (ap_UserID ap) (ap_Roles ap) None))
      | Some f =>
          match resolveAttributes g f cx ap w with
          | (w, (_, Some e)) => (w, inl e)
          | (w, (l, None)) => (w, inr (mkAuthzPrincipal (ap_UserID ap) (ap_Roles ap) l))
          end
      end
  end.

(** [Guard.Check]: [None] is nil. *)
Definition Guard_Check (g : Guard) (cx : AccessCtx) (resource : Resource) (action : string) (w : World)
  : World * option access_error :=
  match Guard_Principal g cx w with
  | (w, inl e) => (w, Some e)
  | (w, inr p) =>
      match g_checker g p resource action w with
      | (w, inl e) => (w, Some (AWrap (ASentinel ErrUnavailable) e))
      | (w, inr false) => (w, Some (ASentinel ErrForbidden))
      | (w, inr true) => (w, None)
      end
  end.

(** [WithRequestScope]: a new scope unless the context carries one. *)
Definition WithRequestScope (cx : AccessCtx) (w : World) : AccessCtx * World :=
  match ax_scope cx with
  | Some _ => (cx, w)
  | None =>
      let id := fresh (dom (scopes w)) in
      (mkAccessCtx (ax_principal cx) (Some id), mkWorld (heap w) (<[id := ∅]> (scopes w)) (consumer w))
  end.

(** ** The middleware *)

(** [writeAccessStatus]: the status and code written, none for another error. *)
Definition writeAccessStatus (e : access_error) : option (Z * string) :=
  if access_Is e ErrUnauthenticated then Some (401, "UNAUTHORIZED")
  else if access_Is e ErrForbidden then Some (403, "FORBIDDEN")
  else if access_Is e ErrUnavailable then Some (503, "SERVICE_UNAVAILABLE")
  else None.

(** [WriteAccessErrorFor], and [WriteAccessError] that calls it. *)
Definition WriteAccessErrorFor (e : option access_error) : option (Z * string) := e ≫= writeAccessStatus.

Definition wildcardResourceID : string := "*".

(** What a middleware did: it ran the next handler with this context, or answered. *)
Inductive gate := Next (cx : AccessCtx) | Answered (status : option (Z * string)).

(** [RequireAccess]. *)
Definition RequireAccess (g : Guard) (kind action : string) (url_id : string) (cx : AccessCtx) (w : World)
  : World * gate :=
  let '(cx, w) := if HasPrincipalAttributes g then WithRequestScope cx w else (cx, w) in
  let id := if bool_decide (url_id = "") then wildcardResourceID else url_id in
  match Guard_Check g cx (mkResource kind id None) action w with
  | (w, Some e) => (w, Answered (writeAccessStatus e))
  | (w, None) => (w, Next cx)
  end.

(** [RequirePermission]: [RequireAccess] over a guard made of the bare checker.  [None] is
    the panic of [access.New] when the router is built. *)
Definition RequirePermission (ptr : N) (checker : option Checker) (kind action : string)
  : option (string -> AccessCtx -> World -> World * gate) :=
  (fun g => RequireAccess g kind action) <$> New_Guard ptr checker None.

End Access.

Arguments World V C : clear implicits.
Arguments Guard V C : clear implicits.

(** ** Authentication *)

(** [strings.Fields]: [cur] is the field being read, reversed. *)
Fixpoint fields_go (fuel : nat) (cur l : list ascii) : list (list ascii) :=
  let flush rest := if bool_decide (cur = []) then rest else reverse cur :: rest in
  match fuel with
  | O => flush []
  | S fuel' =>
      match l with
      | [] => flush []
      | c :: l' => match strip_any go_spaces l with
                   | Some rest => flush (fields_go fuel' [] rest)
                   | None => fields_go fuel' (c :: cur) l'
                   end
      end
  end.
Definition Fields (s : string) : list string :=
  let l := String.list_ascii_of_string s in
  String.string_of_list_ascii <$> fields_go (S (length l)) [] l.

(** [extractBearerToken], from the value of the Authorization header. *)
Definition extractBearerToken (header : string) : option string :=
  match Fields header with
  | [scheme; token] => if EqualFold scheme "Bearer" then Some token else None
  | _ => None
  end.

(** The user slot of a request context ([reqctx]): absent, empty or holding an id. *)
Abbreviation user_slot := (option (option string)).

(** [WithUserSlot]: a slot that is there stays. *)
Definition WithUserSlot (sl : user_slot) : user_slot :=
  match sl with Some _ => sl | None => Some None end.

(** [SetUserID]: nothing without a slot. *)
Definition SetUserID (sl : user_slot) (id : string) : user_slot :=
  match sl with Some _ => Some (Some id) | None => None end.

(** [UserIDFromContext]. *)
Definition UserIDFromContext (sl : user_slot) : string := default "" (mjoin sl).

(** The sentinels of package auth that the error of an authenticator wraps. *)
Record auth_error := mkAuthError { ae_unavailable : bool; ae_forbidden : bool }.

(** [HasRole], on a pointer that may be nil. *)
Definition HasRole (p : option AuthPrincipal) (role : string) : bool :=
  match p with None => false | Some p => bool_decide (role ∈ ap_Roles p) end.

(** [Authenticate], with the authenticator and its state: the context the next handler
    runs with, or the status and code answered, and the user slot afterwards. *)
Definition Authenticate {S : Type} (authenticate : string -> S -> S * (auth_error + AuthPrincipal))
    (header : string) (cx : AccessCtx) (sl : user_slot) (s : S) : S * user_slot * gate :=
  match extractBearerToken header with
  | None => (s, sl, Answered (Some (401, "UNAUTHORIZED")))
  | Some token =>
      match authenticate token s with
      | (s, inl e) =>
          (s, sl, Answered (Some (if ae_unavailable e then (503, "SERVICE_UNAVAILABLE")
                                  else if ae_forbidden e then (403, "FORBIDDEN")
                                  else (401, "UNAUTHORIZED"))))
      | (s, inr p) => (s, SetUserID sl (ap_UserID p), Next (mkAccessCtx (Some p) (ax_scope cx)))
      end
  end.
