(* ===== verification/AccessTheorems.v ===== *)
(** Facts on the authorization guard of Access.v: the memory discipline of the request
    scope (the maps it caches are out of the reach of the consumer's code) and the lists
    of fields of a header.

    What the authorization components promise: one resolution of the principal's
    attributes per request scope, a closed door on every failure, and no call of the
    authenticator without a token. *)

From stdpp Require Import base gmap fin_maps sets list strings.
From Stdlib Require Import ZArith Lia Ascii.
From S2P Require Import Prelude GoStrings IdempotencyHttp Access.

Open Scope string_scope.
Open Scope list_scope.
Open Scope Z_scope.

Section Confinement.
Context {V C : Type}.
(** The maps the consumer's own state refers to. *)
Context (reach : C -> gset loc).
Implicit Types (w : World V C) (l : loc).

Definition loc_set (o : option loc) : gset loc := match o with Some l => {[ l ]} | None => ∅ end.

(** What Go lets the consumer's code do when it is given the maps [args]: it leaves the
    scopes alone (their type is private to the package), it changes only maps it can
    reach, and it comes to reach only those, its arguments and new ones. *)
Record confined (args : gset loc) (w w' : World V C) : Prop := mkConfined {
  cf_scopes : scopes w' = scopes w;
  cf_heap : forall l, l ∈ dom (heap w) -> l ∉ reach (consumer w) ∪ args -> heap w' !! l = heap w !! l;
  cf_reach : forall l, l ∈ reach (consumer w') -> l ∈ reach (consumer w) ∪ args \/ l ∉ dom (heap w);
  cf_dom : reach (consumer w') ⊆ dom (heap w');
  cf_grow : dom (heap w) ⊆ dom (heap w') }.

Definition confined_resolver (f : AuthPrincipal -> World V C -> World V C * (access_error + option loc)) : Prop :=
  forall p w, reach (consumer w) ⊆ dom (heap w) -> confined ∅ w (f p w).1.

Definition confined_guard (g : Guard V C) : Prop :=
  (forall p r a w, reach (consumer w) ⊆ dom (heap w) -> loc_set (zp_Attr p) ∪ loc_set (rc_Attr r) ⊆ dom (heap w) ->
     confined (loc_set (zp_Attr p) ∪ loc_set (rc_Attr r)) w (g_checker g p r a w).1) /\
  match g_attributes g with None => True | Some f => confined_resolver f end.

(** A map a scope caches. *)
Definition cached (w : World V C) (l : loc) : Prop :=
  exists id ents key e, scopes w !! id = Some ents /\ ents !! key = Some e /\ se_attr e = Some l.

(** The consumer reaches only maps that exist, and never a cached one. *)
Definition scope_inv (w : World V C) : Prop :=
  reach (consumer w) ⊆ dom (heap w) /\
  forall l, cached w l -> l ∈ dom (heap w) /\ l ∉ reach (consumer w).

(** The content of an attribute map; nil is no map. *)
Definition content (w : World V C) (o : option loc) : option (gmap string V) :=
  (fun l => default ∅ (heap w !! l)) <$> o.

(** Every entry of [w] is still there in [w'], with the same content. *)
Definition entries_kept (w w' : World V C) : Prop :=
  forall id key e, scope_entries w id !! key = Some e ->
    scope_entries w' id !! key = Some e /\ content w' (se_attr e) = content w (se_attr e).

(** The passage of a request: entries are kept, maps never vanish, and a map that
    existed does not become a cached one. *)
Record grows (w w' : World V C) : Prop := mkGrows {
  gr_kept : entries_kept w w';
  gr_dom : dom (heap w) ⊆ dom (heap w');
  gr_old : forall l, l ∈ dom (heap w) -> cached w' l -> cached w l }.

#[export] Instance grows_refl : Reflexive grows.
Proof. by intros w; split. Qed.

#[export] Instance grows_trans : Transitive grows.
Proof.
  intros w1 w2 w3 [H12 D12 O12] [H23 D23 O23]. split.
  - intros id key e He. destruct (H12 _ _ _ He) as [He2 Hc2]. destruct (H23 _ _ _ He2) as [He3 Hc3].
    split; [done | congruence].
  - set_solver.
  - intros l Hl Hc. apply O12; [done |]. apply O23; [set_solver | done].
Qed.

Lemma scope_entry_cached w id key e l :
  scope_entries w id !! key = Some e -> se_attr e = Some l -> cached w l.
Proof.
  unfold scope_entries. intros He Hl. destruct (scopes w !! id) as [ents |] eqn:Hs; simpl in He.
  - by exists id, ents, key, e.
  - by rewrite lookup_empty in He.
Qed.

(** Confined code keeps the invariant and the entries. *)
Lemma confined_keeps args w w' :
  scope_inv w -> (forall l, cached w l -> l ∉ args) -> confined args w w' ->
  scope_inv w' /\ grows w w'.
Proof.
  intros [Hr Hc] Ha [Hs Hh Hre Hd Hg].
  assert (Hkeep : forall l, cached w l -> heap w' !! l = heap w !! l).
  { intros l Hl. destruct (Hc l Hl). apply Hh; [done | set_solver]. }
  assert (Hcw : forall l, cached w' l -> cached w l).
  { intros l (id & ents & key & e & H1 & H2 & H3). exists id, ents, key, e. by rewrite <- Hs. }
  split; [split; [done |] |].
  - intros l Hl%Hcw. destruct (Hc l Hl) as [Hin Hout]. split.
    + apply elem_of_dom. rewrite Hkeep by done. by apply elem_of_dom.
    + intros [H | H]%Hre; [| done]. specialize (Ha l Hl). set_solver.
  - split; [| done | intros l _; apply Hcw].
    intros id key e He. unfold scope_entries in *. rewrite Hs. split; [done |].
    unfold content. destruct (se_attr e) as [l |] eqn:El; [| done]. simpl.
    rewrite Hkeep; [done |]. by eapply scope_entry_cached.
Qed.

(** Allocating a copy changes no map that exists. *)
Lemma clone_map_spec w l w' l' :
  clone_map w l = (w', l') ->
  l' ∉ dom (heap w) /\ heap w' = <[l' := default ∅ (heap w !! l)]> (heap w) /\
  scopes w' = scopes w /\ consumer w' = consumer w.
Proof. unfold clone_map. intros [= <- <-]. split; [apply is_fresh | done]. Qed.

Lemma clone_map_content w l w' l' o :
  clone_map w l = (w', l') -> loc_set o ⊆ dom (heap w) -> content w' o = content w o.
Proof.
  intros (Hf & Hh & _)%clone_map_spec Ho. unfold content. destruct o as [l0 |]; [| done]. simpl in *.
  rewrite Hh, lookup_insert_ne; [done |]. intros ->. set_solver.
Qed.

Lemma clone_map_keeps w l w' l' :
  scope_inv w -> clone_map w l = (w', l') ->
  scope_inv w' /\ grows w w' /\ l' ∉ dom (heap w) /\ l' ∈ dom (heap w') /\
  dom (heap w) ⊆ dom (heap w') /\ l' ∉ reach (consumer w') /\ (forall l0, cached w' l0 -> l0 <> l') /\
  content w' (Some l') = content w (Some l).
Proof.
  intros [Hr Hc] Hcl. destruct (clone_map_spec _ _ _ _ Hcl) as (Hf & Hh & Hs & Hcons).
  assert (Hdom : dom (heap w') = {[ l' ]} ∪ dom (heap w)) by (rewrite Hh; apply dom_insert_L).
  assert (Hcw : forall l0, cached w' l0 -> cached w l0).
  { intros l0 (id & ents & key & e & H1 & H2 & H3). exists id, ents, key, e. by rewrite <- Hs. }
  assert (Hold : forall l0, cached w' l0 -> l0 <> l').
  { intros l0 Hl0 Heq. apply Hcw, Hc in Hl0 as [Hin _]. subst l0. done. }
  split; [| split; [| split; [done |]]].
  - split; [rewrite Hcons; set_solver |]. intros l0 Hl0%Hcw. destruct (Hc l0 Hl0).
    rewrite Hcons. split; [set_solver | done].
  - split; [| set_solver | intros l0 _; apply Hcw].
    intros id key e He. split; [unfold scope_entries in *; by rewrite Hs |].
    eapply clone_map_content; [done |]. destruct (se_attr e) as [l0 |] eqn:El; [| set_solver].
    destruct (Hc l0) as [Hin _]; [by eapply scope_entry_cached | set_solver].
  - rewrite Hcons, Hdom. split; [set_solver |]. split; [set_solver |]. split; [set_solver |].
    split; [done |]. unfold content. simpl. by rewrite Hh, lookup_insert_eq.
Qed.

(** A copy of a cached or returned map is new, holds the same content and is not cached. *)
Definition fresh_copy (w w' : World V C) (o : option loc) : Prop :=
  forall l, o = Some l -> l ∉ dom (heap w) /\ l ∈ dom (heap w') /\ l ∉ reach (consumer w') /\ ~ cached w' l.

Lemma cloneAttr_keeps w o w' o' :
  scope_inv w -> loc_set o ⊆ dom (heap w) -> cloneAttr w o = (w', o') ->
  scope_inv w' /\ grows w w' /\ dom (heap w) ⊆ dom (heap w') /\ fresh_copy w w' o' /\
  content w' o' = content w o.
Proof.
  intros Hi Ho. unfold cloneAttr. destruct o as [l |].
  - destruct (clone_map w l) as [w2 l2] eqn:Hcl. intros [= <- <-].
    destruct (clone_map_keeps _ _ _ _ Hi Hcl) as (H1 & H2 & H3 & H4 & H5 & H6 & H7 & H8).
    repeat (split; [done |]). split; [| done].
    intros l0 [= <-]. repeat split; try done. intros Hc. by specialize (H7 _ Hc).
  - by intros [= <- <-].
Qed.

(** The resolver's outcome is new to the heap or nil. *)
Lemma callResolver_keeps f p w w' attr err :
  scope_inv w -> confined_resolver f -> callResolver f p w = (w', (attr, err)) ->
  scope_inv w' /\ grows w w' /\ scopes w' = scopes w /\ fresh_copy w w' attr.
Proof.
  intros Hi Hf. unfold callResolver. specialize (Hf p w (proj1 Hi)).
  destruct (f p w) as [w1 r] eqn:Hr. simpl in Hf.
  destruct (confined_keeps ∅ _ _ Hi ltac:(set_solver) Hf) as [Hi1 Hk1].
  pose proof (cf_scopes _ _ _ Hf) as Hs.
  destruct r as [e | [l |]]; [by intros [= <- <- <-] | | by intros [= <- <- <-]].
  case_bool_decide; [by intros [= <- <- <-] |].
  destruct (clone_map w1 l) as [w2 l2] eqn:Hcl. intros [= <- <- <-].
  destruct (clone_map_keeps _ _ _ _ Hi1 Hcl) as (H1 & H2 & H3 & H4 & H5 & H6 & H7 & H8).
  split; [done |]. split; [by etrans |].
  split; [by apply clone_map_spec in Hcl as (_ & _ & -> & _) |].
  intros l0 [= <-]. split; [pose proof (gr_dom _ _ Hk1); set_solver |].
  split; [done |]. split; [done |]. intros Hc. by specialize (H7 _ Hc).
Qed.

(** Storing the entry of a key that has none, for a map made since [w0]. *)
Lemma store_entry_keeps w0 w id key a er :
  scope_inv w -> grows w0 w ->
  (forall l, a = Some l -> l ∉ dom (heap w0) /\ l ∈ dom (heap w) /\ l ∉ reach (consumer w)) ->
  scope_entries w id !! key = None ->
  let w2 := mkWorld (heap w) (<[id := <[key := mkScopeEntry a er]> (scope_entries w id)]> (scopes w)) (consumer w) in
  scope_inv w2 /\ grows w0 w2.
Proof.
  intros [Hr Hc] [Gk Gd Go] Ha Hnone w2.
  assert (Hnew : forall l, cached w2 l -> cached w l \/ a = Some l).
  { intros l (id' & ents & key' & e & H1 & H2 & H3). simpl in H1.
    destruct (decide (id' = id)) as [-> | Hid].
    - rewrite lookup_insert_eq in H1. injection H1 as <-.
      destruct (decide (key' = key)) as [-> | Hkey].
      + rewrite lookup_insert_eq in H2. injection H2 as <-. by right.
      + rewrite lookup_insert_ne in H2 by done. left. by eapply scope_entry_cached.
    - rewrite lookup_insert_ne in H1 by done. left. by exists id', ents, key', e. }
  split; [split; [done |] | split; [| done |]].
  - intros l [Hl | Hl]%Hnew; [by apply Hc |]. by destruct (Ha l Hl) as (_ & ? & ?).
  - intros id' key' e He. apply Gk in He as [He Hct]. split; [| done]. unfold scope_entries at 1. simpl.
    destruct (decide (id' = id)) as [-> | Hid]; [| by rewrite lookup_insert_ne].
    rewrite lookup_insert_eq. simpl. rewrite lookup_insert_ne; [done |]. intros <-. congruence.
  - intros l Hl [Hca | Hca]%Hnew; [by apply Go |]. by destruct (Ha l Hca) as (? & _).
Qed.

(** What [resolveAttributes] leaves behind in a scope: the entry of its key, whose
    content is that of the map it hands out, a fresh copy. *)
Lemma resolveAttributes_keeps g f cx p w w' attr err :
  scope_inv w -> confined_resolver f -> resolveAttributes g f cx p w = (w', (attr, err)) ->
  scope_inv w' /\ grows w w' /\
  fresh_copy w w' attr /\
  (forall id, ax_scope cx = Some id ->
     exists a, scope_entries w' id !! (g_ptr g, ap_ptr p) = Some (mkScopeEntry a err) /\
               content w' attr = content w' a /\
               (scope_entries w id !! (g_ptr g, ap_ptr p) = None ->
                exists w1, callResolver f p w = (w1, (a, err)) /\ content w' a = content w1 a)).
Proof.
  intros Hi Hf. unfold resolveAttributes. destruct (ax_scope cx) as [id |].
  2: { by intros (H1 & H2 & _ & H3)%callResolver_keeps. }
  destruct (scope_entries w id !! _) as [[a er] |] eqn:He; simpl.
  - destruct (cloneAttr w a) as [w1 l1] eqn:Hcl. intros [= <- <- <-].
    assert (Hin : loc_set a ⊆ dom (heap w)).
    { destruct a as [l |]; [| set_solver]. destruct (proj2 Hi l); [| set_solver]. by eapply scope_entry_cached. }
    destruct (cloneAttr_keeps _ _ _ _ Hi Hin Hcl) as (H1 & H2 & H3 & H4 & H5).
    split; [done |]. split; [done |]. split; [done |].
    intros id' [= <-]. exists a. destruct (gr_kept _ _ H2 _ _ _ He) as [Hk1 Hk2]. simpl in Hk2.
    split; [done |]. split; congruence.
  - destruct (callResolver f p w) as [w1 [a er]] eqn:Hcr.
    destruct (callResolver_keeps _ _ _ _ _ _ Hi Hf Hcr) as (Hi1 & Hk1 & Hs1 & Ha).
    set (key := (g_ptr g, ap_ptr p)) in *.
    set (w2 := mkWorld _ _ _). destruct (cloneAttr w2 a) as [w3 l3] eqn:Hcl. intros [= <- <- <-].
    destruct (store_entry_keeps w w1 id key a er Hi1 Hk1) as [Hi2 Hk2].
    { intros l Hl. by destruct (Ha l Hl) as (? & ? & ? & _). }
    { unfold scope_entries in *. by rewrite Hs1. }
    fold w2 in Hi2, Hk2.
    assert (Hin : loc_set a ⊆ dom (heap w2)).
    { destruct a as [l |]; [| set_solver]. destruct (Ha l) as (_ & ? & _); [done | set_solver]. }
    destruct (cloneAttr_keeps _ _ _ _ Hi2 Hin Hcl) as (H1 & H2 & H3 & H4 & H5).
    split; [done |]. split; [by etrans |].
    split; [intros l Hl; destruct (H4 l Hl) as (? & ?); pose proof (gr_dom _ _ Hk2); split; [set_solver | done] |].
    intros id' [= <-]. exists a.
    destruct (gr_kept _ _ H2 id key (mkScopeEntry a er)) as [Hk3 Hk4].
    { unfold w2, scope_entries. simpl. by rewrite lookup_insert_eq; simpl; rewrite lookup_insert_eq. }
    simpl in Hk4. split; [done |]. split; [congruence |]. intros _. by exists w1.
Qed.

(** What a check hands to the checker: nil or a fresh copy. *)
Lemma Guard_Principal_keeps g cx w w' r :
  scope_inv w -> confined_guard g -> Guard_Principal g cx w = (w', r) ->
  scope_inv w' /\ grows w w' /\ (forall p, r = inr p -> fresh_copy w w' (zp_Attr p)).
Proof.
  intros Hi [_ Hf]. unfold Guard_Principal.
  destruct (ax_principal cx) as [ap |]; [| by intros [= <- <-]].
  destruct (g_attributes g) as [f |]; [| by intros [= <- <-]; do 2 (split; [done |]); intros p [= <-]].
  destruct (resolveAttributes g f cx ap w) as [w1 [o er]] eqn:Hra.
  destruct (resolveAttributes_keeps _ _ _ _ _ _ _ _ Hi Hf Hra) as (H1 & H2 & H3 & _).
  destruct er as [e |]; intros [= <- <-]; do 2 (split; [done |]); intros p [= <-]. apply H3.
Qed.

Lemma Guard_Check_keeps g cx r a w :
  scope_inv w -> confined_guard g -> loc_set (rc_Attr r) ⊆ reach (consumer w) ->
  scope_inv (Guard_Check g cx r a w).1 /\ grows w (Guard_Check g cx r a w).1.
Proof.
  intros Hi Hg Hr. unfold Guard_Check. destruct (Guard_Principal g cx w) as [w1 q] eqn:Hp.
  destruct (Guard_Principal_keeps _ _ _ _ _ Hi Hg Hp) as (Hi1 & Hk1 & Hq).
  destruct q as [e | p]; [done |]. specialize (Hq p eq_refl).
  assert (Hin : loc_set (zp_Attr p) ∪ loc_set (rc_Attr r) ⊆ dom (heap w1)).
  { apply union_least.
    - destruct (zp_Attr p) as [l |]; [| set_solver]. destruct (Hq l) as (_ & ? & _); set_solver.
    - pose proof (gr_dom _ _ Hk1). destruct Hi. set_solver. }
  assert (Hout : forall l, cached w1 l -> l ∉ loc_set (zp_Attr p) ∪ loc_set (rc_Attr r)).
  { intros l Hl [Hl' | Hl']%elem_of_union.
    - destruct (zp_Attr p) as [l0 |]; [| set_solver]. simpl in Hl'. apply elem_of_singleton in Hl' as ->.
      by destruct (Hq l0) as (_ & _ & _ & ?).
    - destruct Hi as [Hi Hc]. destruct (Hc l); [| set_solver]. apply (gr_old _ _ Hk1); [set_solver | done]. }
  pose proof (proj1 Hg p r a w1 (proj1 Hi1) Hin) as Hcf.
  destruct (g_checker g p r a w1) as [w2 v]. simpl in Hcf.
  destruct (confined_keeps _ _ _ Hi1 Hout Hcf) as [Hi2 Hk2].
  assert (grows w w2) by (by etrans). by destruct v as [e | []].
Qed.

(** What a request does: a check by some guard, on a resource the handler builds from
    its state, or code of the handler. *)
Inductive step :=
| SCheck (g : Guard V C) (cx : AccessCtx) (resource : C -> Resource) (action : string)
| SRun (code : World V C -> World V C).

Definition run_step (s : step) (w : World V C) : World V C :=
  match s with
  | SCheck g cx r a => (Guard_Check g cx (r (consumer w)) a w).1
  | SRun code => code w
  end.

Definition run_steps (ss : list step) (w : World V C) : World V C := foldl (flip run_step) w ss.

(** Guards are confined, the handler's code too, and a resource's attributes are the
    handler's own. *)
Definition step_ok (s : step) : Prop :=
  match s with
  | SCheck g _ r _ => confined_guard g /\ forall c, loc_set (rc_Attr (r c)) ⊆ reach c
  | SRun code => forall w, reach (consumer w) ⊆ dom (heap w) -> confined ∅ w (code w)
  end.

Lemma run_steps_keeps ss w :
  scope_inv w -> Forall step_ok ss -> scope_inv (run_steps ss w) /\ grows w (run_steps ss w).
Proof.
  intros Hi Hs. revert w Hi. induction Hs as [| s ss Hs _ IH]; intros w Hi; [done |].
  assert (H : scope_inv (run_step s w) /\ grows w (run_step s w)).
  { destruct s as [g cx r a | code]; simpl in *.
    - destruct Hs as [Hg Hr]. by apply Guard_Check_keeps.
    - eapply confined_keeps; [done | | apply Hs, Hi]. set_solver. }
  destruct H as [H1 H2]. destruct (IH _ H1) as [H3 H4]. split; [done |]. by etrans.
Qed.

(** With an entry in the scope the resolver is not asked. *)
Lemma Guard_Principal_memo g f cx ap id w a er :
  scope_inv w -> ax_principal cx = Some ap -> ax_scope cx = Some id -> g_attributes g = Some f ->
  scope_entries w id !! (g_ptr g, ap_ptr ap) = Some (mkScopeEntry a er) ->
  exists w' o, cloneAttr w a = (w', o) /\ fresh_copy w w' o /\ content w' o = content w a /\
  Guard_Principal g cx w = (w', match er with
                                | Some e => inl e
                                | None => inr (mkAuthzPrincipal (ap_UserID ap) (ap_Roles ap) o)
                                end).
Proof.
  intros Hi Hp Hsc Hf He. destruct (cloneAttr w a) as [w' o] eqn:Hcl. exists w', o.
  assert (Hin : loc_set a ⊆ dom (heap w)).
  { destruct a as [l0 |]; [| set_solver]. destruct (proj2 Hi l0); [| set_solver]. by eapply scope_entry_cached. }
  destruct (cloneAttr_keeps _ _ _ _ Hi Hin Hcl) as (_ & _ & _ & H4 & H5).
  do 3 (split; [done |]). unfold Guard_Principal, resolveAttributes.
  rewrite Hp, Hf, Hsc, He. simpl. rewrite Hcl. by destruct er.
Qed.

End Confinement.

(** ** The answers of a check *)

Section Answers.
Context {V C : Type}.
Implicit Types (g : Guard V C) (w : World V C).

(** The errors a scope remembers are those of [callResolver]: unavailable. *)
Definition scope_errs (w : World V C) : Prop :=
  forall id key e er, scope_entries w id !! key = Some e -> se_err e = Some er -> access_Is er ErrUnavailable = true.

Lemma WithRequestScope_errs cx w : scope_errs w -> scope_errs (WithRequestScope cx w).2.
Proof.
  unfold WithRequestScope. destruct (ax_scope cx); [done |]. intros H id key e er. simpl.
  unfold scope_entries. simpl. destruct (decide (id = fresh (dom (scopes w)))) as [-> | Hne].
  - by rewrite lookup_insert_eq.
  - rewrite lookup_insert_ne by done. apply H.
Qed.

(** The subject a checker is asked about is the authenticated user; otherwise the error
    is one of two sentinels. *)
Lemma Guard_Principal_cases g cx w :
  scope_errs w ->
  match Guard_Principal g cx w with
  | (_, inr p) => exists ap, ax_principal cx = Some ap /\ zp_ID p = ap_UserID ap /\ zp_Roles p = ap_Roles ap
  | (_, inl e) => access_Is e ErrUnauthenticated = true \/ access_Is e ErrUnavailable = true
  end.
Proof.
  intros Hw. unfold Guard_Principal, resolveAttributes, callResolver.
  destruct (ax_principal cx) as [ap |]; [| by left].
  destruct (g_attributes g) as [f |]; [| by exists ap].
  destruct (ax_scope cx) as [id |]; [destruct (scope_entries w id !! _) as [[a er] |] eqn:He |]; simpl.
  - destruct (cloneAttr w a) as [w1 l]. destruct er as [e |]; [| by exists ap]. right. by eapply Hw.
  - destruct (f ap w) as [w1 [e | [l |]]]; simpl; [by right | | by exists ap].
    case_bool_decide; simpl; by exists ap.
  - destruct (f ap w) as [w1 [e | [l |]]]; simpl; [by right | | by exists ap].
    case_bool_decide; simpl; by exists ap.
Qed.

(** Every error of a check is one the middleware answers. *)
Lemma Guard_Check_answers g cx r a w w' e :
  scope_errs w -> Guard_Check g cx r a w = (w', Some e) ->
  writeAccessStatus e = Some (401, "UNAUTHORIZED") \/ writeAccessStatus e = Some (403, "FORBIDDEN") \/
  writeAccessStatus e = Some (503, "SERVICE_UNAVAILABLE").
Proof.
  intros Hw%(Guard_Principal_cases g cx). unfold Guard_Check, writeAccessStatus.
  destruct (Guard_Principal g cx w) as [w1 [e' | p]].
  - intros [= <- <-]. destruct (access_Is e' ErrUnauthenticated), (access_Is e' ErrForbidden),
      (access_Is e' ErrUnavailable); naive_solver.
  - destruct (g_checker g p r a w1) as [w2 [e' | []]]; intros [= <- <-]; simpl; [| by auto].
    destruct (access_Is e' ErrUnauthenticated), (access_Is e' ErrForbidden); auto.
Qed.

Lemma Guard_Check_allows g cx r a w w' :
  scope_errs w ->
  Guard_Check g cx r a w = (w', None) <->
  exists ap p w1, ax_principal cx = Some ap /\ zp_ID p = ap_UserID ap /\ zp_Roles p = ap_Roles ap /\
    Guard_Principal g cx w = (w1, inr p) /\ g_checker g p r a w1 = (w', inr true).
Proof.
  intros Hw%(Guard_Principal_cases g cx). unfold Guard_Check.
  destruct (Guard_Principal g cx w) as [w1 [e | p]]; [naive_solver |].
  destruct Hw as (ap & Hap & Hid & Hro). split.
  - destruct (g_checker g p r a w1) as [w2 [e | []]] eqn:Hck; intros [= <-]. by exists ap, p, w1.
  - intros (ap' & p' & w1' & _ & _ & _ & [= <- <-] & Hck). by rewrite Hck.
Qed.
End Answers.

(** ** The fields of a header *)

(** The visible ASCII bytes. *)
Definition visible (c : ascii) : bool := (33 <=? nat_of_ascii c)%nat && (nat_of_ascii c <=? 126)%nat.

Lemma strip_visible c l : visible c = true -> strip_any go_spaces (c :: l) = None.
Proof. destruct c as [[] [] [] [] [] [] [] []]; vm_compute; congruence. Qed.

Lemma strip_blank l : strip_any go_spaces (" "%char :: l) = Some l.
Proof. by destruct l. Qed.

(** Leading blanks are skipped, one unit of fuel each. *)
Lemma fields_go_blanks n fuel l :
  fields_go (n + fuel) [] (replicate n " "%char ++ l) = fields_go fuel [] l.
Proof.
  induction n as [| n IH]; [done |].
  change (S n + fuel)%nat with (S (n + fuel)). cbn [replicate app fields_go]. by rewrite strip_blank.
Qed.

(** A word is read into the current field. *)
Lemma fields_go_word wd fuel cur l :
  forallb visible wd = true ->
  fields_go (length wd + fuel) cur (wd ++ l) = fields_go fuel (reverse wd ++ cur) l.
Proof.
  revert cur. induction wd as [| c wd IH]; intros cur Hv; [done |].
  simpl in Hv. apply andb_prop in Hv as [Hc Hv].
  change (length (c :: wd) + fuel)%nat with (S (length wd + fuel)). cbn [app fields_go].
  rewrite strip_visible by done. rewrite IH by done. by rewrite reverse_cons, <- app_assoc.
Qed.

(** A word ends at the end of the header or at a blank. *)
Lemma fields_go_end fuel cur n :
  (n <= fuel)%nat -> cur <> [] -> fields_go fuel cur (replicate n " "%char) = [reverse cur].
Proof.
  intros Hn Hcur. assert (Hb : bool_decide (cur = []) = false) by (by apply bool_decide_eq_false).
  destruct fuel as [| fuel]; [assert (n = 0)%nat as -> by lia; simpl; by rewrite Hb |].
  destruct n as [| n]; cbn [replicate fields_go]; [by rewrite Hb |]. rewrite strip_blank, Hb. f_equal.
  replace fuel with (n + (fuel - n))%nat by lia.
  rewrite <- (app_nil_r (replicate n _)), fields_go_blanks. by destruct (fuel - n)%nat.
Qed.

Lemma fields_two b1 w1 b2 w2 b3 :
  w1 <> [] -> w2 <> [] -> forallb visible w1 = true -> forallb visible w2 = true ->
  let l := replicate b1 " "%char ++ w1 ++ replicate (S b2) " "%char ++ w2 ++ replicate b3 " "%char in
  fields_go (S (length l)) [] l = [w1; w2].
Proof.
  intros H1 H2 V1 V2 l.
  replace (S (length l)) with (b1 + (length w1 + (S b2 + (length w2 + S b3))))%nat.
  2: { unfold l. rewrite !length_app, !length_replicate. lia. }
  unfold l. rewrite fields_go_blanks, fields_go_word, app_nil_r by done.
  change (S b2 + (length w2 + S b3))%nat with (S (b2 + (length w2 + S b3))).
  cbn [replicate app fields_go]. rewrite strip_blank.
  assert (Hr : reverse w1 <> []) by (by rewrite <- reverse_nil; intros ?%(inj reverse)).
  rewrite (bool_decide_eq_false_2 _ Hr), fields_go_blanks, fields_go_word, app_nil_r, fields_go_end.
  - by rewrite !reverse_involutive.
  - lia.
  - by rewrite <- reverse_nil; intros ?%(inj reverse).
  - done.
Qed.

Lemma list_ascii_of_string_app (s t : string) :
  String.list_ascii_of_string (s +:+ t) = String.list_ascii_of_string s ++ String.list_ascii_of_string t.
Proof. induction s as [| c s IH]; [done |]. simpl. by rewrite <- IH. Qed.

(** within a request scope the attributes of a principal are resolved once per guard,
    whatever the outcome was: after the first look at the principal, and after any
    sequence of checks by any guards and of handler code - each free to change every map
    it was ever given - a guard of the same identity answers without asking its resolver
    (the answer is the same for every resolver put in its place), with the error first
    met or with a principal whose attributes are a map made for this call alone, holding
    what was resolved at first. *)
Theorem scope_resolves_once {V C : Type} (reach : C -> gset loc) (w : World V C) (g : Guard V C) f cx ap id ss :
  scope_inv reach w -> confined_guard reach g -> Forall (step_ok reach) ss ->
  g_attributes g = Some f -> ax_principal cx = Some ap -> ax_scope cx = Some id ->
  scope_entries w id !! (g_ptr g, ap_ptr ap) = None ->
  exists w1 attr err, callResolver f ap w = (w1, (attr, err)) /\
  forall f', let w3 := run_steps ss (Guard_Principal g cx w).1 in
  exists w4 o,
    Guard_Principal (mkGuard (g_ptr g) (g_checker g) (Some f')) cx w3
    = (w4, match err with
           | Some e => inl e
           | None => inr (mkAuthzPrincipal (ap_UserID ap) (ap_Roles ap) o)
           end) /\
    content w4 o = content w1 attr /\ fresh_copy reach w3 w4 o.
Proof.
  intros Hi Hg Hss Hf Hp Hsc Hnone.
  destruct (Guard_Principal g cx w) as [w2 q] eqn:Hgp.
  destruct (Guard_Principal_keeps _ _ _ _ _ _ Hi Hg Hgp) as (Hi2 & _ & _).
  unfold Guard_Principal in Hgp. rewrite Hp, Hf in Hgp.
  destruct (resolveAttributes g f cx ap w) as [w2' [at2 err]] eqn:Hra.
  assert (w2' = w2) as -> by (by destruct err; simplify_eq).
  destruct Hg as [_ Hgf]. rewrite Hf in Hgf.
  destruct (resolveAttributes_keeps _ _ _ _ _ _ _ _ _ Hi Hgf Hra) as (_ & _ & _ & Hent).
  destruct (Hent id Hsc) as (a & Hea & _ & Hfirst). destruct (Hfirst Hnone) as (w1 & Hcr & Hc1).
  exists w1, a, err. split; [done |]. intros f' w3. simpl in w3.
  destruct (run_steps_keeps _ ss w2 Hi2 Hss) as [Hi3 Hg3].
  destruct (gr_kept _ _ Hg3 _ _ _ Hea) as [He3 Hc3]. simpl in Hc3.
  destruct (Guard_Principal_memo reach (mkGuard (g_ptr g) (g_checker g) (Some f')) f' cx ap id w3 a err)
    as (w4 & o & _ & Hfr & Hco & Hans); try done.
  exists w4, o. split; [done |]. split; [| done]. unfold w3 in *. congruence.
Qed.

(** A consumer that keeps every map it is given and clears it. *)
Definition demo_checker (p : AuthzPrincipal) (r : Resource) (a : string) (w : World nat (gset loc))
  : World nat (gset loc) * (access_error + bool) :=
  (match zp_Attr p with
   | Some l => mkWorld (<[l := ∅]> (heap w)) (scopes w) ({[ l ]} ∪ consumer w)
   | None => w
   end, inr true).
Definition demo_resolver (p : AuthPrincipal) (w : World nat (gset loc))
  : World nat (gset loc) * (access_error + option loc) := (w, inr (Some 1%positive)).
Definition demo_clear (w : World nat (gset loc)) : World nat (gset loc) :=
  if bool_decide (1%positive ∈ consumer w) then mkWorld (<[1%positive := ∅]> (heap w)) (scopes w) (consumer w) else w.
Definition demo_guard : Guard nat (gset loc) := mkGuard 5 demo_checker (Some demo_resolver).
Definition demo_ap : AuthPrincipal := mkAuthPrincipal 9 "ana" ["clerk"].
Definition demo_cx : AccessCtx := mkAccessCtx (Some demo_ap) (Some 0%N).
Definition demo_world : World nat (gset loc) :=
  mkWorld {[ 1%positive := {[ "k" := 7%nat ]} ]} {[ 0%N := ∅ ]} {[ 1%positive ]}.
Definition demo_steps : list (@step nat (gset loc)) :=
  [SCheck demo_guard demo_cx (fun _ => mkResource "case" "1" None) "read"; SRun demo_clear].

Lemma demo_confined_guard : confined_guard id demo_guard.
Proof.
  split.
  - intros p r a w Hr Hin. simpl. unfold demo_checker. destruct (zp_Attr p) as [l |]; simpl in *.
    + split; simpl; try done; unfold id in *.
      * intros l' _ Hl'. rewrite lookup_insert_ne; [done | set_solver].
      * set_solver.
      * rewrite dom_insert. set_solver.
      * rewrite dom_insert. set_solver.
    + split; simpl; unfold id in *; set_solver.
  - intros p w Hr. split; simpl; unfold id in *; set_solver.
Qed.

Lemma demo_clear_confined w : id (consumer w) ⊆ dom (heap w) -> confined id ∅ w (demo_clear w).
Proof.
  unfold id, demo_clear. intros Hr. case_bool_decide as H1; split; simpl; try done; try set_solver.
  intros l _ Hl. rewrite lookup_insert_ne; [done | set_solver].
Qed.

Lemma demo_scope_inv : scope_inv id demo_world.
Proof.
  split; [vm_compute; set_solver |]. intros l (sid & ents & key & e & H1 & H2 & _). simpl in H1.
  apply lookup_singleton_Some in H1 as [<- <-]. by rewrite lookup_empty in H2.
Qed.

(** The scope holds what was resolved although the checker and the handler cleared
    every map they had. *)
Lemma scope_resolves_once_witness :
  exists w4 o, (Guard_Principal (mkGuard 5 demo_checker (Some (fun _ w => (w, inl (AOther "not asked"))))) demo_cx
                  (run_steps demo_steps (Guard_Principal demo_guard demo_cx demo_world).1))
               = (w4, inr (mkAuthzPrincipal "ana" ["clerk"] o)) /\ content w4 o = Some {[ "k" := 7%nat ]}.
Proof.
  destruct (scope_resolves_once id demo_world demo_guard demo_resolver demo_cx demo_ap 0%N demo_steps)
    as (w1 & attr & err & Hcr & Hall).
  - exact demo_scope_inv.
  - exact demo_confined_guard.
  - apply Forall_cons; split; [split; [exact demo_confined_guard | set_solver] |].
    apply Forall_cons; split; [exact demo_clear_confined | apply Forall_nil; exact I].
  - reflexivity.
  - reflexivity.
  - reflexivity.
  - vm_compute. reflexivity.
  - destruct (Hall (fun _ w => (w, inl (AOther "not asked")))) as (w4 & o & Hans & Hc & _).
    exists w4, o.
    assert (Herr : err = None) by (apply (f_equal (fun x => x.2.2)) in Hcr; vm_compute in Hcr; congruence).
    subst err. split; [exact Hans |]. rewrite Hc.
    assert (Hcw : content w1 attr = content (callResolver demo_resolver demo_ap demo_world).1
                                            (callResolver demo_resolver demo_ap demo_world).2.1) by (by rewrite Hcr).
    rewrite Hcw. vm_compute. reflexivity.
Defined.

(** The world and context a check of the middleware starts from. *)
Definition access_start {V C : Type} (g : Guard V C) (cx : AccessCtx) (w : World V C) : AccessCtx * World V C :=
  if HasPrincipalAttributes g then WithRequestScope cx w else (cx, w).

(** C17: the middleware fails closed and always answers.  The next handler runs exactly
    when there is a principal, its attributes were resolved and the checker, asked about
    that user on the resource of the URL (the wildcard when there is none), allowed it;
    without a principal neither resolver nor checker is asked and the answer is 401; a
    denial is 403; a failing checker or resolver is never taken for a permission and,
    unless its own error is one of the access sentinels, is reported as 503. *)
Theorem access_fails_closed {V C : Type} (g : Guard V C) kind action url_id cx (w : World V C) :
  let '(cx0, w0) := access_start g cx w in
  let id := if bool_decide (url_id = "") then "*" else url_id in
  let answer := RequireAccess g kind action url_id cx w in
  scope_errs w ->
  id <> "" /\
  (ax_principal cx = None -> answer = (w0, Answered (Some (401, "UNAUTHORIZED")))) /\
  (forall st, answer.2 = Answered st ->
     st = Some (401, "UNAUTHORIZED") \/ st = Some (403, "FORBIDDEN") \/ st = Some (503, "SERVICE_UNAVAILABLE")) /\
  (forall w' cx', answer = (w', Next cx') <->
     cx' = cx0 /\ exists ap p w1, ax_principal cx = Some ap /\ zp_ID p = ap_UserID ap /\ zp_Roles p = ap_Roles ap /\
       Guard_Principal g cx0 w0 = (w1, inr p) /\
       g_checker g p (mkResource kind id None) action w1 = (w', inr true)) /\
  (forall p w1 w', Guard_Principal g cx0 w0 = (w1, inr p) ->
     g_checker g p (mkResource kind id None) action w1 = (w', inr false) ->
     answer = (w', Answered (Some (403, "FORBIDDEN")))) /\
  (forall p w1 w' e, Guard_Principal g cx0 w0 = (w1, inr p) ->
     g_checker g p (mkResource kind id None) action w1 = (w', inl e) ->
     (forall s, access_Is e s = false) -> answer = (w', Answered (Some (503, "SERVICE_UNAVAILABLE")))) /\
  (forall f ap w1 e, g_attributes g = Some f -> ax_principal cx = Some ap -> ax_scope cx = None ->
     f ap w0 = (w1, inl e) -> (forall s, access_Is e s = false) ->
     answer.2 = Answered (Some (503, "SERVICE_UNAVAILABLE"))).
Proof.
  unfold access_start, RequireAccess.
  destruct (if HasPrincipalAttributes g then _ else _) as [cx0 w0] eqn:Hst.
  assert (Hcp : ax_principal cx0 = ax_principal cx).
  { destruct (HasPrincipalAttributes g); unfold WithRequestScope in Hst; [destruct (ax_scope cx)|]; by simplify_eq. }
  change "*" with wildcardResourceID. set (id := if bool_decide _ then _ else _). intros Herrs.
  assert (Herrs0 : scope_errs w0).
  { destruct (HasPrincipalAttributes g); [| by simplify_eq].
    apply (f_equal snd) in Hst. simpl in Hst. subst w0. by apply WithRequestScope_errs. }
  split; [unfold id; by case_bool_decide |].
  split; [intros Hn; unfold Guard_Check, Guard_Principal; by rewrite Hcp, Hn |].
  pose proof (Guard_Check_allows g cx0 (mkResource kind id None) action w0) as Hallow. rewrite Hcp in Hallow.
  split; [| split; [| split; [| split]]].
  - intros st. destruct (Guard_Check _ _ _ _ _) as [w1 [e |]] eqn:Hck; [| done].
    intros [= <-]. by eapply Guard_Check_answers.
  - intros w' cx'. rewrite <- Hallow by done. destruct (Guard_Check _ _ _ _ _) as [w1 [e |]]; naive_solver.
  - intros p w1 w' Hp Hck. unfold Guard_Check. by rewrite Hp, Hck.
  - intros p w1 w' e Hp Hck He. unfold Guard_Check. rewrite Hp, Hck. unfold writeAccessStatus. simpl. by rewrite !He.
  - intros f ap w1 e Hf Hap Hsc Hcall He. unfold Guard_Check, Guard_Principal. rewrite Hcp, Hap, Hf.
    unfold resolveAttributes, HasPrincipalAttributes in *. rewrite Hf in Hst. simpl in Hst.
    unfold WithRequestScope in Hst. rewrite Hsc in Hst. simplify_eq. simpl.
    unfold scope_entries. simpl. rewrite lookup_insert_eq. simpl. rewrite lookup_empty.
    unfold callResolver. rewrite Hcall. simpl. unfold writeAccessStatus. simpl. by rewrite !He.
Qed.

(** The demonstration's request, whose guard has a resolver that fails. *)
Lemma access_fails_closed_witness :
  (RequireAccess (mkGuard 5 demo_checker (Some (fun _ w => (w, inl (AOther "directory down"))))) "case" "read" ""
     (mkAccessCtx (Some demo_ap) None) demo_world).2 = Answered (Some (503, "SERVICE_UNAVAILABLE")).
Proof.
  pose proof (access_fails_closed (mkGuard 5 demo_checker (Some (fun _ w => (w, inl (AOther "directory down")))))
                "case" "read" "" (mkAccessCtx (Some demo_ap) None) demo_world) as H.
  cbv zeta beta in H. destruct (access_start _ _ _) as [cx0 w0] eqn:Hst.
  destruct H as (_ & _ & _ & _ & _ & _ & H).
  - intros sid key e er. simpl. unfold scope_entries. simpl.
    destruct (decide (sid = 0%N)) as [-> | Hne]; [by rewrite lookup_singleton_eq | by rewrite lookup_singleton_ne].
  - apply (H (fun _ w => (w, inl (AOther "directory down"))) demo_ap w0 (AOther "directory down"));
      reflexivity.
Defined.

(** A string of blanks. *)
Definition blanks (n : nat) : string := String.string_of_list_ascii (replicate n " "%char).

(** credentials are read as RFC 6750 writes them, and only then used.  A header of
    the scheme "Bearer", in any case and with any blanks around its two words, makes the
    middleware ask the authenticator about exactly that token, once; its principal goes
    into the context of the next handler and its id into the user slot, and its failures
    become 503, 403 or 401 in that order.  For every other header the authenticator is not
    asked, the answer is 401, and nothing is recorded. *)
Theorem authenticate_reads_bearer {S : Type} (auth : string -> S -> S * (auth_error + AuthPrincipal)) cx sl (s : S) :
  (forall scheme token b1 b2 b3, EqualFold scheme "Bearer" = true -> token <> "" ->
     forallb visible (String.list_ascii_of_string token) = true ->
     forallb visible (String.list_ascii_of_string scheme) = true ->
     Authenticate auth (blanks b1 +:+ scheme +:+ blanks (1 + b2) +:+ token +:+ blanks b3) cx sl s
     = match auth token s with
       | (s', inr p) => (s', SetUserID sl (ap_UserID p), Next (mkAccessCtx (Some p) (ax_scope cx)))
       | (s', inl e) => (s', sl, Answered (Some (if ae_unavailable e then (503, "SERVICE_UNAVAILABLE")
                                                 else if ae_forbidden e then (403, "FORBIDDEN")
                                                 else (401, "UNAUTHORIZED"))))
       end) /\
  (forall header, (forall scheme token, Fields header = [scheme; token] -> EqualFold scheme "Bearer" = false) ->
     Authenticate auth header cx sl s = (s, sl, Answered (Some (401, "UNAUTHORIZED")))).
Proof.
  split.
  - intros scheme token b1 b2 b3 Hs Ht Vt Vs. unfold Authenticate, extractBearerToken.
    assert (Hne : scheme <> "") by (intros ->; done).
    assert (HF : Fields (blanks b1 +:+ scheme +:+ blanks (1 + b2) +:+ token +:+ blanks b3) = [scheme; token]).
    { unfold Fields, blanks. rewrite !list_ascii_of_string_app, !String.list_ascii_of_string_of_list_ascii.
      rewrite fields_two; [| | | done | done].
      - simpl. by rewrite !String.string_of_list_ascii_of_string.
      - by destruct scheme.
      - by destruct token. }
    by rewrite HF, Hs.
  - intros header Hh. unfold Authenticate, extractBearerToken.
    destruct (Fields header) as [| scheme [| token []]]; try done. by rewrite (Hh scheme token).
Qed.

(** An authenticator that counts its calls. *)
Definition counting_authenticator (token : string) (n : nat) : nat * (auth_error + AuthPrincipal) :=
  (S n, if bool_decide (token = "t0k.en") then inr demo_ap else inl (mkAuthError false false)).

Lemma authenticate_reads_bearer_witness :
  Authenticate counting_authenticator "  bEaReR   t0k.en " (mkAccessCtx None None) (Some None) 0%nat
  = (1%nat, Some (Some "ana"), Next (mkAccessCtx (Some demo_ap) None)) /\
  Authenticate counting_authenticator "Basic t0k.en" (mkAccessCtx None None) (Some None) 0%nat
  = (0%nat, Some None, Answered (Some (401, "UNAUTHORIZED"))).
Proof.
  destruct (authenticate_reads_bearer counting_authenticator (mkAccessCtx None None) (Some None) 0%nat) as [H1 H2].
  split.
  - apply (H1 "bEaReR" "t0k.en" 2%nat 2%nat 1%nat); [reflexivity | discriminate | reflexivity | reflexivity].
  - apply H2. intros scheme token Hf.
    assert (Hb : Fields "Basic t0k.en" = ["Basic"; "t0k.en"]) by (vm_compute; reflexivity).
    rewrite Hb in Hf. assert (scheme = "Basic") as -> by congruence. vm_compute. reflexivity.
Defined.
