(* ===== verification/Decimal.v ===== *)
(** Bounded decimals ([decimalx/bounds.go], [decimalx/query.go]).

    The decimal type itself is shopspring/decimal, a library: it is the class
    [DecimalLib], whose laws state what its documentation says of the operations the
    package calls.  A decimal is worth its coefficient times ten to its exponent.

    What the decimal doors promise: whatever they let through is cheap to write out, the
    string door rejects nothing the value door would take except by its length, and the
    money rule accepts exactly the amounts that lose nothing at the scale. *)

From stdpp Require Import base list strings.
From Stdlib Require Import ZArith Lia Ascii.
From S2P Require Import Prelude GoStrings.

Open Scope string_scope.
Open Scope list_scope.
Open Scope Z_scope.

Inductive decimal_error :=
| ErrOutOfRange | ErrNotParseable | ErrTooManyDecimals | ErrInvalidBounds | ErrInvalidScale.

Definition defaultMaxLen : Z := 32.
Definition defaultMinExp : Z := -8.
Definition defaultMaxExp : Z := 8.
Definition MaxExponentLimit : Z := 1000.
Definition MaxLengthLimit : Z := 1000.

Record Bounds := mkBounds { maxLen : Z; minExp : Z; maxExp : Z }.

Definition DefaultBounds : Bounds := mkBounds defaultMaxLen defaultMinExp defaultMaxExp.

(** [Bounds{}]. *)
Definition zero_Bounds : Bounds := mkBounds 0 0 0.

(** [NewBounds]: the value returned, and the error beside it. *)
Definition NewBounds (maxLen minExp maxExp : Z) : Bounds * option decimal_error :=
  if maxLen <=? 0 then (zero_Bounds, Some ErrInvalidBounds)
  else if MaxLengthLimit <? maxLen then (zero_Bounds, Some ErrInvalidBounds)
  else if maxExp <? minExp then (zero_Bounds, Some ErrInvalidBounds)
  else if (minExp <? - MaxExponentLimit) || (MaxExponentLimit <? maxExp) then (zero_Bounds, Some ErrInvalidBounds)
  else (mkBounds maxLen minExp maxExp, None).

Definition effective (b : Bounds) : Bounds := if maxLen b =? 0 then DefaultBounds else b.

(** ** Reading an exponent *)

Definition is_digit (c : ascii) : bool := (48 <=? nat_of_ascii c)%nat && (nat_of_ascii c <=? 57)%nat.
Definition digit_value (c : ascii) : Z := Z.of_nat (nat_of_ascii c) - 48.
Definition is_sign (c : ascii) : bool := Ascii.eqb c "-" || Ascii.eqb c "+".

(** The digits of a number, most significant first. *)
Definition digits_value (l : list ascii) : Z := foldl (fun n c => 10 * n + digit_value c) 0 l.

(** [strconv.ParseInt(s, 10, 64)]. *)
Definition ParseInt64 (l : list ascii) : option Z :=
  let (neg, ds) := match l with
                   | "-"%char :: r => (true, r)
                   | "+"%char :: r => (false, r)
                   | _ => (false, l)
                   end in
  if bool_decide (ds = []) || negb (forallb is_digit ds) then None
  else let n := if (neg : bool) then - digits_value ds else digits_value ds in
       if (n <? - 2 ^ 63) || (2 ^ 63 - 1 <? n) then None else Some n.

(** [strings.LastIndexAny(s, "eE")]: what is before and after the last of them. *)
Fixpoint split_last_e (l : list ascii) : option (list ascii * list ascii) :=
  match l with
  | [] => None
  | c :: l' => match split_last_e l' with
               | Some (m, x) => Some (c :: m, x)
               | None => if Ascii.eqb c "e" || Ascii.eqb c "E" then Some ([], l') else None
               end
  end.

(** The loop of [isPlainMantissa]. *)
Fixpoint mantissa_counts (l : list ascii) (digits dots : Z) : option (Z * Z) :=
  match l with
  | [] => Some (digits, dots)
  | c :: l' => if is_digit c then mantissa_counts l' (digits + 1) dots
               else if Ascii.eqb c "." then mantissa_counts l' digits (dots + 1)
               else None
  end.

(** A leading sign is dropped. *)
Definition drop_sign (l : list ascii) : list ascii :=
  match l with c :: r => if is_sign c then r else l | [] => [] end.

Definition isPlainMantissa (m : list ascii) : bool :=
  match mantissa_counts (drop_sign m) 0 0 with
  | Some (digits, dots) => (0 <? digits) && (dots <=? 1)
  | None => false
  end.

(** [exponentSuffixOutOfReach]. *)
Definition exponentSuffixOutOfReach (s : string) : bool :=
  match split_last_e (String.list_ascii_of_string s) with
  | None => false
  | Some (m, x) =>
      if negb (isPlainMantissa m) then false
      else match ParseInt64 x with
           | None => false
           | Some exp => let reach := MaxExponentLimit + MaxLengthLimit in (reach <? exp) || (exp <? - reach)
           end
  end.

(** ** The decimal library *)

(** The fraction digits of a mantissa. *)
Fixpoint fraction_digits (l : list ascii) : Z :=
  match l with
  | [] => 0
  | c :: l' => if Ascii.eqb c "." then Z.of_nat (length l') else fraction_digits l'
  end.

Class DecimalLib (D : Type) := {
  coef : D -> Z;
  Exponent : D -> Z;
  NumDigits : D -> Z;
  dec_Equal : D -> D -> bool;
  dec_Round : D -> Z -> D;
  NewFromString : string -> option D;
  Zero : D }.

(** A decimal in units of ten to the [m]. *)
Definition scaled {D} `{DecimalLib D} (m : Z) (d : D) : Z := coef d * 10 ^ (Exponent d - m).

(** What the library promises: [NumDigits] counts the coefficient's digits, [Equal]
    compares values, [Round] goes to the nearest multiple of the last place kept, and a
    literal's digits and exponent are the decimal's. *)
Class DecimalLaws (D : Type) `{DecimalLib D} : Prop := {
  NumDigits_spec (d : D) : 1 <= NumDigits d /\ Z.abs (coef d) < 10 ^ NumDigits d /\
    (coef d <> 0 -> 10 ^ (NumDigits d - 1) <= Z.abs (coef d));
  Equal_spec (a b : D) m : m <= Exponent a -> m <= Exponent b ->
    dec_Equal a b = true <-> scaled m a = scaled m b;
  Round_spec (d : D) places m : m <= Exponent d -> m <= Exponent (dec_Round d places) -> m <= - places ->
    (10 ^ (- places - m) | scaled m (dec_Round d places)) /\
    2 * Z.abs (scaled m d - scaled m (dec_Round d places)) <= 10 ^ (- places - m);
  NewFromString_exponent s m x e (d : D) :
    NewFromString s = Some d -> split_last_e (String.list_ascii_of_string s) = Some (m, x) ->
    isPlainMantissa m = true -> ParseInt64 x = Some e -> Exponent d = e - fraction_digits m;
  NewFromString_digits s (d : D) : NewFromString s = Some d -> NumDigits d <= Z.of_nat (String.length s) }.

Section Doors.
Context {D : Type} `{DecimalLib D}.

(** [Bounds.ValidateBounds]: [None] is nil. *)
Definition ValidateBounds (b : Bounds) (d : D) : option decimal_error :=
  let b := effective b in
  if (maxExp b <? Exponent d) || (Exponent d <? minExp b) then Some ErrOutOfRange
  else if maxLen b <? NumDigits d then Some ErrOutOfRange
  else None.

(** [Bounds.Parse]: the value returned and the error beside it. *)
Definition Parse (b : Bounds) (s : string) : D * option decimal_error :=
  let b := effective b in
  if (maxLen b <? Z.of_nat (String.length s)) || exponentSuffixOutOfReach s then (Zero, Some ErrOutOfRange)
  else match NewFromString s with
       | None => (Zero, Some ErrNotParseable)
       | Some d => match ValidateBounds b d with
                   | Some e => (Zero, Some e)
                   | None => (d, None)
                   end
       end.

(** [Bounds.ValidateAmount]. *)
Definition ValidateAmount (b : Bounds) (d : D) (scale : Z) : option decimal_error :=
  let b := effective b in
  if (scale <? - MaxExponentLimit) || (MaxExponentLimit <? scale) then Some ErrInvalidScale
  else match ValidateBounds b d with
       | Some e => Some e
       | None => if negb (dec_Equal d (dec_Round d scale)) then Some ErrTooManyDecimals else None
       end.

(** [Bounds.ParseAmount]. *)
Definition ParseAmount (b : Bounds) (s : string) (scale : Z) : D * option decimal_error :=
  let b := effective b in
  match Parse b s with
  | (_, Some e) => (Zero, Some e)
  | (d, None) => match ValidateAmount b d scale with
                 | Some e => (Zero, Some e)
                 | None => (d, None)
                 end
  end.

(** [Query], on the raw parameter ("" when absent): the decimal, and whether an error
    was recorded for the parameter. *)
Definition Query (raw : string) : option D * bool :=
  if bool_decide (raw = "") then (None, false)
  else match Parse DefaultBounds raw with
       | (_, Some _) => (None, true)
       | (d, None) => (Some d, false)
       end.

End Doors.

(** ** Bounds a caller can hold *)

(** [Bounds] has no exported field: a value is the zero one, the default or what
    [NewBounds] returned, its error looked at or not. *)
Definition api_bounds (b : Bounds) : Prop :=
  b = zero_Bounds \/ b = DefaultBounds \/ exists l lo hi, b = (NewBounds l lo hi).1.

Lemma effective_bounded b :
  api_bounds b ->
  0 < maxLen (effective b) <= 1000 /\ -1000 <= minExp (effective b) /\ maxExp (effective b) <= 1000.
Proof.
  assert (Hd : forall b, b = zero_Bounds \/ b = DefaultBounds ->
    0 < maxLen (effective b) <= 1000 /\ -1000 <= minExp (effective b) /\ maxExp (effective b) <= 1000).
  { intros b' [-> | ->]; vm_compute; repeat split; discriminate. }
  intros [Hz | [Hz | (l & lo & hi & ->)]]; [auto | auto |]. unfold NewBounds.
  destruct (l <=? 0) eqn:?; [auto |]. destruct (MaxLengthLimit <? l) eqn:?; [auto |].
  destruct (hi <? lo) eqn:?; [auto |].
  destruct ((lo <? - MaxExponentLimit) || (MaxExponentLimit <? hi)) eqn:Hx; [auto |].
  apply orb_false_iff in Hx as [? ?]. unfold effective, MaxLengthLimit, MaxExponentLimit in *. simpl.
  destruct (l =? 0) eqn:?; simpl; lia.
Qed.

Lemma effective_idem b : effective (effective b) = effective b.
Proof. unfold effective. destruct (maxLen b =? 0) eqn:E; [done |]. by rewrite E. Qed.

(** ** What the doors let through *)

Section Laws.
Context {D : Type} `{L : DecimalLib D} {HL : DecimalLaws D}.

Lemma ValidateBounds_spec b (d : D) :
  ValidateBounds b d = None <->
  minExp (effective b) <= Exponent d <= maxExp (effective b) /\ NumDigits d <= maxLen (effective b).
Proof.
  unfold ValidateBounds. destruct (maxExp (effective b) <? Exponent d) eqn:E1; simpl; [split; [done | lia] |].
  destruct (Exponent d <? minExp (effective b)) eqn:E2; [split; [done | lia] |].
  destruct (maxLen (effective b) <? NumDigits d) eqn:E3; (split; [try done; lia | try done; lia]).
Qed.

Lemma ValidateBounds_cases b (d : D) : ValidateBounds b d = None \/ ValidateBounds b d = Some ErrOutOfRange.
Proof. unfold ValidateBounds. destruct (_ || _); [auto |]. destruct (_ <? _); auto. Qed.

Lemma ValidateBounds_effective b (d : D) : ValidateBounds (effective b) d = ValidateBounds b d.
Proof. unfold ValidateBounds. by rewrite effective_idem. Qed.

(** Written out, an accepted decimal has at most two thousand digits before its point. *)
Lemma bounded_value b (d : D) :
  api_bounds b -> ValidateBounds b d = None ->
  -1000 <= Exponent d <= 1000 /\ NumDigits d <= 1000 /\ Z.abs (coef d) * 10 ^ Z.max 0 (Exponent d) < 10 ^ 2000.
Proof.
  intros Hb%effective_bounded Hv%ValidateBounds_spec. destruct (NumDigits_spec d) as (H1 & H2 & _).
  split; [lia |]. split; [lia |].
  replace (10 ^ 2000) with (10 ^ 1000 * 10 ^ 1000) by (rewrite <- Z.pow_add_r by lia; done).
  assert (10 ^ NumDigits d <= 10 ^ 1000) by (apply Z.pow_le_mono_r; lia).
  assert (10 ^ Z.max 0 (Exponent d) <= 10 ^ 1000) by (apply Z.pow_le_mono_r; lia).
  assert (0 < 10 ^ Z.max 0 (Exponent d)) by (apply Z.pow_pos_nonneg; lia).
  apply Z.le_lt_trans with (Z.abs (coef d) * 10 ^ 1000).
  - apply Z.mul_le_mono_nonneg_l; lia.
  - apply Z.mul_lt_mono_pos_r; lia.
Qed.

Lemma fraction_digits_bound l : 0 <= fraction_digits l <= Z.of_nat (length l).
Proof. induction l as [| c l IH]; simpl; [lia |]. destruct (Ascii.eqb c "."); lia. Qed.

Lemma split_last_e_length l m x : split_last_e l = Some (m, x) -> (length m < length l)%nat.
Proof.
  revert m. induction l as [| c l IH]; intros m; simpl; [done |].
  destruct (split_last_e l) as [[m' x'] |].
  - intros [= <- <-]. simpl. specialize (IH m' eq_refl). lia.
  - destruct (_ || _); intros [= <- <-]. simpl. lia.
Qed.

Lemma list_ascii_length s : length (String.list_ascii_of_string s) = String.length s.
Proof. induction s; simpl; congruence. Qed.

(** The early look at the exponent refuses only what no bounds accept. *)
Lemma out_of_reach_refused b s (d : D) :
  api_bounds b -> Z.of_nat (String.length s) <= maxLen (effective b) -> exponentSuffixOutOfReach s = true ->
  NewFromString s = Some d -> ValidateBounds b d <> None.
Proof.
  intros Hb%effective_bounded Hl. unfold exponentSuffixOutOfReach.
  destruct (split_last_e _) as [[m x] |] eqn:Hs; [| done].
  destruct (isPlainMantissa m) eqn:Hm; simpl; [| done].
  destruct (ParseInt64 x) as [e |] eqn:Hx; [| done]. intros He Hn Hv%ValidateBounds_spec.
  pose proof (NewFromString_exponent s m x e d Hn Hs Hm Hx) as Hexp.
  pose proof (split_last_e_length _ _ _ Hs) as Hlen. rewrite list_ascii_length in Hlen.
  pose proof (fraction_digits_bound m). unfold MaxExponentLimit, MaxLengthLimit in He.
  apply orb_prop in He as [He | He]; lia.
Qed.

(** The string door in terms of the value door. *)
Lemma Parse_spec b s (d : D) :
  api_bounds b ->
  Parse b s = (d, None) <->
  Z.of_nat (String.length s) <= maxLen (effective b) /\ NewFromString s = Some d /\ ValidateBounds b d = None.
Proof.
  intros Hb. pose proof (out_of_reach_refused b s) as Hreach. unfold Parse.
  destruct (maxLen (effective b) <? Z.of_nat (String.length s)) eqn:Hl; simpl; [split; [done | lia] |].
  destruct (exponentSuffixOutOfReach s).
  - split; [done |]. intros (Hl' & Hn & Hv). by destruct (Hreach d Hb Hl' eq_refl Hn).
  - destruct (NewFromString s) as [d' |]; [| naive_solver]. rewrite ValidateBounds_effective.
    destruct (ValidateBounds b d') eqn:Hv; (split; [| naive_solver]); [done |].
    intros [= <-]. split; [lia | done].
Qed.

(** An amount equals its rounding exactly when it is a multiple of the last place. *)
Lemma round_exact (d : D) places m :
  m <= Exponent d -> m <= Exponent (dec_Round d places) -> m <= - places ->
  dec_Equal d (dec_Round d places) = true <-> (10 ^ (- places - m) | scaled m d).
Proof.
  intros H1 H2 H3. rewrite (Equal_spec d (dec_Round d places) m H1 H2).
  destruct (Round_spec d places m H1 H2 H3) as [[k Hk] Hnear].
  assert (Hu : 0 < 10 ^ (- places - m)) by (apply Z.pow_pos_nonneg; lia). split.
  - intros ->. by exists k.
  - intros [j Hj]. rewrite Hj, Hk in *. assert (j = k) by nia. by subst.
Qed.

(** The same in terms of the coefficient alone. *)
Lemma round_exact_coef (d : D) places :
  dec_Equal d (dec_Round d places) = true <-> (10 ^ Z.max 0 (- places - Exponent d) | coef d).
Proof.
  set (m := Z.min (Exponent d) (Z.min (Exponent (dec_Round d places)) (- places))).
  rewrite (round_exact d places m) by lia. unfold scaled. set (E := Exponent d) in *.
  destruct (Z.le_gt_cases E (- places)) as [Hle | Hgt].
  - replace (Z.max 0 (- places - E)) with (- places - E) by lia.
    replace (- places - m) with ((- places - E) + (E - m)) by lia.
    rewrite Z.pow_add_r by lia. rewrite Z.mul_divide_cancel_r; [done |].
    apply Z.pow_nonzero; lia.
  - replace (Z.max 0 (- places - E)) with 0 by lia. rewrite Z.pow_0_r.
    split; [intros _; apply Z.divide_1_l |]. intros _. apply Z.divide_mul_r.
    exists (10 ^ (E + places)). rewrite <- Z.pow_add_r by lia. f_equal. lia.
Qed.

(** The library with another rounding. *)
Definition with_round (R : D -> Z -> D) : DecimalLib D :=
  {| coef := coef; Exponent := Exponent; NumDigits := NumDigits; dec_Equal := dec_Equal;
     dec_Round := R; NewFromString := NewFromString; Zero := Zero |}.

(** no decimal that passes [Parse], [ValidateBounds] or the query parameter can
    exhaust a worker, whatever bounds a caller managed to obtain: its exponent is within a
    thousand, and written out it has at most two thousand digits.  The string door is the
    value door on strings short enough: it lets a literal through exactly when it is no
    longer than the bound, the library reads it and [ValidateBounds] accepts what was
    read - so the early refusal of exponents rejects nothing acceptable and the digit
    bound can no longer fire - and a literal that is short, reachable and unreadable is
    the one called not parseable. *)
Theorem parse_bounded b s :
  api_bounds b ->
  (forall d : D, ValidateBounds b d = None ->
     -1000 <= Exponent d <= 1000 /\ NumDigits d <= 1000 /\ Z.abs (coef d) * 10 ^ Z.max 0 (Exponent d) < 10 ^ 2000) /\
  (forall d : D, Parse b s = (d, None) <->
     Z.of_nat (String.length s) <= maxLen (effective b) /\ NewFromString s = Some d /\ ValidateBounds b d = None) /\
  (forall d : D, Z.of_nat (String.length s) <= maxLen (effective b) -> NewFromString s = Some d ->
     ValidateBounds b d = None <-> minExp (effective b) <= Exponent d <= maxExp (effective b)) /\
  ((Parse b s).2 = Some ErrNotParseable <->
     Z.of_nat (String.length s) <= maxLen (effective b) /\ exponentSuffixOutOfReach s = false /\
     NewFromString (D := D) s = None) /\
  (forall (d : D) raw, Query raw = (Some d, false) -> -8 <= Exponent d <= 8 /\ NumDigits d <= 32).
Proof.
  intros Hb. split; [intros d; by apply bounded_value |].
  split; [intros d; by apply Parse_spec |]. split; [| split].
  - intros d Hl Hn. rewrite ValidateBounds_spec. pose proof (NewFromString_digits s d Hn). intuition lia.
  - unfold Parse. destruct (maxLen (effective b) <? Z.of_nat (String.length s)) eqn:Hl; simpl; [split; [done | lia] |].
    destruct (exponentSuffixOutOfReach s); [naive_solver |].
    destruct (NewFromString s) as [d |]; [| split; [intros _; split; [lia | done] | done]].
    split; [| naive_solver]. by destruct (ValidateBounds_cases (effective b) d) as [-> | ->].
  - intros d raw. unfold Query. case_bool_decide; [done |].
    destruct (Parse DefaultBounds raw) as [d' [e |]] eqn:Hp; [done |]. intros [= <-].
    apply Parse_spec in Hp as (_ & _ & Hv); [| by right; left]. by apply ValidateBounds_spec in Hv.
Qed.

(** money is never rounded silently and rounding is never expensive.  An amount is
    accepted exactly when the scale is within a thousand, the value passes the bounds and
    its coefficient is a multiple of the places the scale cuts off - trailing zeros are
    no obstacle; and the verdict does not depend on how rounding behaves on any value or
    scale beyond a thousand, for [Round] is never asked there.  The string door gives the
    same verdict on the value it read, and no value beside an error. *)
Theorem amount_exact b :
  api_bounds b ->
  (forall (d : D) scale, ValidateAmount b d scale = None <->
     -1000 <= scale <= 1000 /\ ValidateBounds b d = None /\ (10 ^ Z.max 0 (- scale - Exponent d) | coef d)) /\
  (forall (d : D) scale R,
     (forall d' scale', -1000 <= scale' <= 1000 -> -1000 <= Exponent d' <= 1000 -> NumDigits d' <= 1000 ->
        R d' scale' = dec_Round d' scale') ->
     ValidateAmount (H := with_round R) b d scale = ValidateAmount b d scale) /\
  (forall s scale (d : D), ParseAmount b s scale = (d, None) <->
     Parse b s = (d, None) /\ ValidateAmount b d scale = None) /\
  (forall s scale (d : D) e, ParseAmount b s scale = (d, Some e) -> d = Zero).
Proof.
  intros Hb. split; [| split; [| split]].
  - intros d scale. unfold ValidateAmount, MaxExponentLimit. rewrite ValidateBounds_effective.
    destruct ((scale <? _) || _) eqn:Hs.
    + split; [done |]. intros (? & _). apply orb_prop in Hs as [Hs | Hs]; lia.
    + apply orb_false_iff in Hs as [? ?]. destruct (ValidateBounds b d); [naive_solver |].
      rewrite <- round_exact_coef. destruct (dec_Equal _ _); simpl; (split; [done || (intros _) | naive_solver]).
      split; [lia | done].
  - intros d scale R HR. unfold ValidateAmount, MaxExponentLimit.
    destruct ((scale <? _) || _) eqn:Hs; [done |]. apply orb_false_iff in Hs as [? ?].
    change (ValidateBounds (H := with_round R) (effective b) d) with (ValidateBounds (effective b) d).
    rewrite ValidateBounds_effective. destruct (ValidateBounds b d) eqn:Hv; [done |].
    destruct (bounded_value b d Hb Hv) as (? & ? & _). simpl. by rewrite HR by lia.
  - intros s scale d. unfold ParseAmount.
    replace (Parse (effective b) s) with (Parse (D := D) b s) by (unfold Parse; by rewrite effective_idem).
    assert (Hva : forall d' : D, ValidateAmount (effective b) d' scale = ValidateAmount b d' scale)
      by (intros d'; unfold ValidateAmount; by rewrite effective_idem).
    destruct (Parse b s) as [d' [e |]]; [naive_solver |]. rewrite Hva.
    destruct (ValidateAmount b d' scale) eqn:?; naive_solver.
  - intros s scale d e. unfold ParseAmount. destruct (Parse _ s) as [d' [e' |]]; [naive_solver |].
    destruct (ValidateAmount _ d' scale); naive_solver.
Qed.

End Laws.

(** ** A library that keeps the laws *)

Record dec := mkDec { dec_coef : Z; dec_exp : Z }.

Fixpoint count_digits (fuel : nat) (n : Z) : Z :=
  match fuel with
  | O => 1
  | S fuel => if n <? 10 then 1 else 1 + count_digits fuel (n / 10)
  end.

Lemma count_digits_spec fuel n :
  0 <= n < 10 ^ (Z.of_nat fuel + 1) ->
  1 <= count_digits fuel n /\ n < 10 ^ count_digits fuel n /\ (n <> 0 -> 10 ^ (count_digits fuel n - 1) <= n).
Proof.
  revert n. induction fuel as [| fuel IH]; intros n Hn; cbn [count_digits].
  - change (10 ^ (Z.of_nat 0 + 1)) with 10 in Hn. simpl. lia.
  - destruct (n <? 10) eqn:E; [simpl; lia |].
    replace (Z.of_nat (S fuel) + 1) with (1 + (Z.of_nat fuel + 1)) in Hn by lia.
    rewrite Z.pow_add_r in Hn by lia. change (10 ^ 1) with 10 in Hn.
    destruct (IH (n / 10)) as (H1 & H2 & H3).
    { split; [apply Z.div_pos; lia |]. apply Z.div_lt_upper_bound; lia. }
    assert (Hdm := Z.div_mod n 10 ltac:(lia)). assert (Hm := Z.mod_pos_bound n 10 ltac:(lia)).
    assert (n / 10 <> 0) by lia. specialize (H3 H). set (k := count_digits fuel (n / 10)) in *.
    split; [lia |]. split.
    + rewrite Z.pow_add_r by lia. change (10 ^ 1) with 10. lia.
    + intros _. replace (1 + k - 1) with (1 + (k - 1)) by lia. rewrite Z.pow_add_r by lia.
      change (10 ^ 1) with 10. lia.
Qed.

Definition num_digits (c : Z) : Z := count_digits (Z.to_nat (Z.log2 (Z.abs c) + 1)) (Z.abs c).

Lemma num_digits_spec c :
  1 <= num_digits c /\ Z.abs c < 10 ^ num_digits c /\ (c <> 0 -> 10 ^ (num_digits c - 1) <= Z.abs c).
Proof.
  unfold num_digits. destruct (count_digits_spec (Z.to_nat (Z.log2 (Z.abs c) + 1)) (Z.abs c)) as (H1 & H2 & H3).
  - split; [lia |]. pose proof (Z.log2_nonneg (Z.abs c)). rewrite Z2Nat.id by lia.
    destruct (Z.eq_dec c 0) as [-> | Hc]; [done |].
    destruct (Z.log2_spec (Z.abs c) ltac:(lia)) as [_ Hlt].
    eapply Z.lt_le_trans; [exact Hlt |]. etrans; [apply (Z.pow_le_mono_l 2 10); lia |].
    apply Z.pow_le_mono_r; lia.
  - split; [done |]. split; [done |]. intros Hc. apply H3. lia.
Qed.

(** Half away from zero, to a coefficient of the exponent [- places]. *)
Definition round_half (c u : Z) : Z := Z.sgn c * ((2 * Z.abs c + u) / (2 * u)).

Definition dec_round (d : dec) (places : Z) : dec :=
  if - places <=? dec_exp d then d
  else mkDec (round_half (dec_coef d) (10 ^ (- places - dec_exp d))) (- places).

Definition dec_parse (s : string) : option dec :=
  let l := String.list_ascii_of_string s in
  let '(m, e) := match split_last_e l with Some (m, x) => (m, ParseInt64 x) | None => (l, Some 0) end in
  if isPlainMantissa m then
    e ← e;
    let n := digits_value (filter (fun c => is_digit c) m) in
    Some (mkDec (match m with "-"%char :: _ => - n | _ => n end) (e - fraction_digits m))
  else None.

#[export] Instance dec_lib : DecimalLib dec := {|
  coef := dec_coef; Exponent := dec_exp; NumDigits d := num_digits (dec_coef d);
  dec_Equal a b := let m := Z.min (dec_exp a) (dec_exp b) in
                   dec_coef a * 10 ^ (dec_exp a - m) =? dec_coef b * 10 ^ (dec_exp b - m);
  dec_Round := dec_round; NewFromString := dec_parse; Zero := mkDec 0 1 |}.

Lemma digits_value_bound l acc :
  forallb is_digit l = true -> 0 <= acc ->
  0 <= foldl (fun n c => 10 * n + digit_value c) acc l < (acc + 1) * 10 ^ Z.of_nat (length l).
Proof.
  revert acc. induction l as [| c l IH]; intros acc Hl Ha; [simpl; lia |].
  simpl in Hl. apply andb_prop in Hl as [Hc Hl]. cbn [foldl length].
  assert (0 <= digit_value c <= 9) by (unfold is_digit in Hc; apply andb_prop in Hc as [?%Nat.leb_le ?%Nat.leb_le]; unfold digit_value; lia).
  destruct (IH (10 * acc + digit_value c) Hl ltac:(lia)) as [H1 H2]. split; [done |].
  eapply Z.lt_le_trans; [exact H2 |]. rewrite Nat2Z.inj_succ, Z.pow_succ_r by lia.
  assert (0 < 10 ^ Z.of_nat (length l)) by (apply Z.pow_pos_nonneg; lia). nia.
Qed.

Lemma num_digits_bound c k : 1 <= k -> Z.abs c < 10 ^ k -> num_digits c <= k.
Proof.
  intros Hk Hc. destruct (num_digits_spec c) as (H1 & _ & H3).
  destruct (Z.eq_dec c 0) as [-> | Hne]; [done |]. specialize (H3 Hne).
  destruct (Z.le_gt_cases (num_digits c) k) as [? | Hgt]; [done |].
  assert (10 ^ k <= 10 ^ (num_digits c - 1)) by (apply Z.pow_le_mono_r; lia). lia.
Qed.

Lemma round_half_spec c u : 0 < u -> 2 * Z.abs (c - round_half c u * u) <= u.
Proof.
  intros Hu. unfold round_half. set (q := (2 * Z.abs c + u) / (2 * u)).
  assert (Hdm := Z.div_mod (2 * Z.abs c + u) (2 * u) ltac:(lia)).
  assert (Hm := Z.mod_pos_bound (2 * Z.abs c + u) (2 * u) ltac:(lia)). fold q in Hdm.
  destruct (Z.abs_spec c) as [[? Ha] | [? Ha]]; rewrite Ha in *.
  - destruct (Z.eq_dec c 0) as [-> | ?]; [simpl; lia |]. rewrite Z.sgn_pos by lia. lia.
  - rewrite Z.sgn_neg by lia. lia.
Qed.

#[export] Instance dec_laws : DecimalLaws dec.
Proof.
  split.
  - intros d. apply num_digits_spec.
  - intros a b m Ha Hb. unfold scaled. simpl in *.
    set (k := Z.min (dec_exp a) (dec_exp b)). rewrite Z.eqb_eq.
    replace (dec_exp a - m) with (dec_exp a - k + (k - m)) by lia.
    replace (dec_exp b - m) with (dec_exp b - k + (k - m)) by lia.
    rewrite !Z.pow_add_r, !Z.mul_assoc by lia.
    assert (0 < 10 ^ (k - m)) by (apply Z.pow_pos_nonneg; lia). nia.
  - intros d places m H1 H2 H3. simpl in *. unfold scaled, dec_round in *. simpl.
    destruct (- places <=? dec_exp d) eqn:E; simpl in *.
    + split; [| rewrite Z.sub_diag; simpl; apply Z.pow_nonneg; lia].
      apply Z.divide_mul_r. exists (10 ^ (dec_exp d + places)). rewrite <- Z.pow_add_r by lia. f_equal. lia.
    + split; [by apply Z.divide_mul_r |].
      pose proof (round_half_spec (dec_coef d) (10 ^ (- places - dec_exp d)) ltac:(apply Z.pow_pos_nonneg; lia)) as Hr.
      set (c := round_half _ _) in *. replace (- places - m) with ((- places - dec_exp d) + (dec_exp d - m)) by lia.
      rewrite Z.pow_add_r by lia. set (u := 10 ^ (- places - dec_exp d)) in *.
      assert (0 < 10 ^ (dec_exp d - m)) by (apply Z.pow_pos_nonneg; lia).
      rewrite Z.mul_assoc, <- Z.mul_sub_distr_r, Z.abs_mul, (Z.abs_eq (10 ^ _)) by lia. nia.
  - intros s m x e d. simpl. unfold dec_parse. intros Hd Hs Hm Hx. rewrite Hs, Hm, Hx in Hd. simpl in Hd. by simplify_eq.
  - intros s d. simpl. unfold dec_parse.
    set (p := match split_last_e _ with Some (m, x) => (m, ParseInt64 x) | None => _ end).
    assert (Hlen : (length p.1 <= String.length s)%nat).
    { unfold p. rewrite <- list_ascii_length. destruct (split_last_e _) as [[m x] |] eqn:Hs; simpl; [| lia].
      apply split_last_e_length in Hs. lia. }
    destruct p as [m e]. simpl in Hlen. destruct (isPlainMantissa m) eqn:Hm; [| done].
    destruct e as [e |]; simpl; [| done]. intros [= <-]. simpl.
    pose proof (digits_value_bound (filter (fun c => is_digit c) m) 0) as Hv.
    pose proof (length_filter (fun c => is_digit c) m) as Hf.
    assert (Hall : forallb is_digit (filter (fun c => is_digit c) m) = true).
    { apply forallb_forall. intros c Hc. apply list_elem_of_In, list_elem_of_filter in Hc as [Hc _]. by apply Is_true_true. }
    destruct (Hv Hall ltac:(lia)) as [V1 V2]. fold (digits_value (filter (fun c => is_digit c) m)) in *.
    assert (m <> []) by (by intros ->).
    assert (1 <= Z.of_nat (length m)) by (destruct m; simpl; [done | lia]).
    apply num_digits_bound; [lia |].
    assert (Habs : forall n, 0 <= n -> Z.abs (match m with "-"%char :: _ => - n | _ => n end) = n).
    { intros n Hn. destruct m as [| [[] [] [] [] [] [] [] []] m]; lia. }
    rewrite Habs by done. eapply Z.lt_le_trans; [exact V2 |]. rewrite Z.mul_1_l. apply Z.pow_le_mono_r; lia.
Qed.

Lemma parse_bounded_witness :
  api_bounds zero_Bounds /\ Parse (D := dec) zero_Bounds "-12.50" = (mkDec (-1250) (-2), None) /\
  (Parse (D := dec) zero_Bounds "1e100000000").2 = Some ErrOutOfRange.
Proof.
  destruct (parse_bounded (D := dec) zero_Bounds "-12.50" (or_introl eq_refl)) as (_ & H & _).
  split; [left; reflexivity |]. split; [| vm_compute; reflexivity].
  apply H. split; [vm_compute; discriminate |]. split; vm_compute; reflexivity.
Defined.

Lemma amount_exact_witness :
  ValidateAmount zero_Bounds (mkDec 100500 (-3)) 2 = None /\
  ValidateAmount zero_Bounds (mkDec 100505 (-3)) 2 = Some ErrTooManyDecimals.
Proof.
  destruct (amount_exact (D := dec) zero_Bounds (or_introl eq_refl)) as (H & _).
  split; [| vm_compute; reflexivity]. apply H. split; [lia |]. split; [vm_compute; reflexivity |].
  exists 10050. reflexivity.
Defined.
