(* ===== verification/AuditLog.v ===== *)
(** The audit trail: redaction ([audit/redact.go]), the recorder ([audit/recorder.go])
    and the entry and its paging ([audit/audit.go]).

    A payload is a graph of shared Go maps and slices that may contain itself, so a
    value refers to a heap of maps and arrays; what redaction builds is new and is a
    tree.  A map is the list of its keys and values in the order the runtime ranges
    over them.  A value of another Go type carries what the package uses of it: its
    kind, whether it has an encoding of its own, and the generic form its JSON decodes
    to ([None]: encoding/json cannot encode it).  A failure of redaction is [None]: every
    such error wraps [ErrUnredactable]. *)

From stdpp Require Import base gmap list strings option.
From Stdlib Require Import ZArith Lia Ascii.
From S2P Require Import Prelude GoStrings.

Open Scope string_scope.
Open Scope list_scope.
Open Scope Z_scope.

(** ** Values *)

Abbreviation ptr := positive.

Inductive scalar := SString (s : string) | SBool (b : bool) | SNumber (text : string).

(** The reflect.Kind of a value, as far as [needsJSONForm] tells kinds apart. *)
Inductive reflect_kind := KPlain | KFloat (finite : bool) | KOther.

(** What decoding JSON into an [any] gives, with json.Number for numbers. *)
Inductive json_form :=
| JNull
| JObject (m : ptr)
| JArray (s : ptr) (n : nat)
| JScalar (s : scalar).

(** [any]: nil; a [map[string]any]; a [[]any], a data pointer and a length; a string,
    bool or json.Number; or a value of another type, whose number stands for what
    reflect.DeepEqual compares. *)
Inductive value :=
| VNil
| VMap (m : option ptr)
| VSlice (s : option (ptr * nat))
| VScalar (s : scalar)
| VOther (marshaler : bool) (kind : reflect_kind) (content : N) (json : option json_form).

Definition of_json (j : json_form) : value :=
  match j with
  | JNull => VNil
  | JObject m => VMap (Some m)
  | JArray s n => VSlice (Some (s, n))
  | JScalar s => VScalar s
  end.

Record Heap := mkHeap { hp_maps : gmap ptr (list (string * value)); hp_arrays : gmap ptr (list value) }.

Definition map_of (H : Heap) (l : ptr) : list (string * value) := default [] (hp_maps H !! l).
Definition slice_of (H : Heap) (l : ptr) (n : nat) : list value := take n (default [] (hp_arrays H !! l)).

Definition alloc_map (H : Heap) (kvs : list (string * value)) : Heap * ptr :=
  let l := fresh (dom (hp_maps H)) in (mkHeap (<[l := kvs]> (hp_maps H)) (hp_arrays H), l).

(** What redaction returns: a value it passes through, or a new map or slice. *)
Inductive rvalue :=
| RRaw (v : value)
| RNilMap
| RMap (kvs : list (string * rvalue))
| RSlice (items : list rvalue).

(** ** The denylist *)

Definition RedactedValue : string := "[REDACTED]".

Definition defaultRedactedKeys : list string :=
  ["password"; "passwd"; "token"; "secret"; "authorization"; "api_key"; "private_key"; "credential"; "cookie"].

(** [strings.ToLower]: the ASCII letters, and the two other code points whose lower case
    is an ASCII letter (the Kelvin sign and the dotted capital I).  The other code points
    stay outside ASCII and take no part in matching an ASCII key. *)
Fixpoint to_lower (l : list ascii) : list ascii :=
  match l with
  | "226"%char :: "132"%char :: "170"%char :: rest => "k"%char :: to_lower rest
  | "196"%char :: "176"%char :: rest => "i"%char :: to_lower rest
  | c :: rest =>
      let n := nat_of_ascii c in
      (if (65 <=? n)%nat && (n <=? 90)%nat then ascii_of_nat (n + 32) else c) :: to_lower rest
  | [] => []
  end.

Definition dropped (c : ascii) : bool := existsb (Ascii.eqb c) ["_"; "-"; "."; " "]%char.

Definition normalizeKey (key : string) : list ascii :=
  List.filter (fun c => negb (dropped c)) (to_lower (String.list_ascii_of_string key)).

(** [newKeyMatcher]: keys that normalize to nothing are ignored. *)
Definition newKeyMatcher (keys : list string) : list (list ascii) :=
  List.filter (fun n => negb (bool_decide (n = []))) (normalizeKey <$> keys).

(** [strings.Contains]. *)
Fixpoint contains (l needle : list ascii) : bool :=
  match strip_prefix needle l with
  | Some _ => true
  | None => match l with [] => false | _ :: l' => contains l' needle end
  end.

Definition matches (needles : list (list ascii)) (key : string) : bool :=
  existsb (contains (normalizeKey key)) needles.

(** ** The walk *)

Abbreviation Redactor := (string -> value -> option value).

Record redactor := mkRedactor { rd_keys : list (list ascii); rd_hooks : list Redactor }.

Definition maxRedactDepth : nat := 1000%nat.

(** A map (length -1) or a slice on the walk's path. *)
Abbreviation container := (ptr * Z)%type.

(** [enter], once the depth allows it: the path with the container on it.  An empty
    slice is not tracked. *)
Definition enter (path : list container) (c : container) : option (list container) :=
  if c.2 =? 0 then Some path
  else if bool_decide (c ∈ path) then None else Some (c :: path).

(** [needsJSONForm]. *)
Definition needsJSONForm (marshaler : bool) (kind : reflect_kind) : bool :=
  if marshaler then true
  else match kind with KPlain => false | KFloat finite => negb finite | KOther => true end.

(** [normalizeValue]. *)
Definition normalizeValue (v : value) : option value :=
  match v with
  | VOther marshaler kind _ json => if needsJSONForm marshaler kind then of_json <$> json else Some v
  | _ => Some v
  end.

(** The loop over the hooks: the first replacement. *)
Fixpoint first_hook (hooks : list Redactor) (key : string) (v : value) : option value :=
  match hooks with
  | [] => None
  | h :: hooks => match h key v with Some repl => Some repl | None => first_hook hooks key v end
  end.

Section Walk.
Context (rd : redactor) (H : Heap).

(** [redactField], given the redaction of the values below. *)
Definition redactField (redactValue : value -> option rvalue) (key : string) (v : value) : option rvalue :=
  if matches (rd_keys rd) key then
    Some (match v with VNil => RRaw VNil | _ => RRaw (VScalar (SString RedactedValue)) end)
  else
    v ← normalizeValue v;
    v ← match first_hook (rd_hooks rd) key v with Some repl => normalizeValue repl | None => Some v end;
    redactValue v.

(** [redactValue] with [redactMap]: [room] is what the depth leaves of
    [maxRedactDepth]. *)
Fixpoint redactValue (room : nat) (path : list container) (v : value) : option rvalue :=
  match v with
  | VMap None => Some RNilMap
  | VMap (Some l) =>
      match room with
      | O => None
      | S room =>
          path ← enter path (l, -1);
          out ← mapM (fun kv => r ← redactField (redactValue room path) kv.1 kv.2; Some (kv.1, r)) (map_of H l);
          Some (RMap out)
      end
  | VSlice None => Some (RRaw VNil)
  | VSlice (Some (l, n)) =>
      match room with
      | O => None
      | S room =>
          path ← enter path (l, Z.of_nat n);
          out ← mapM (fun item => item ← normalizeValue item; redactValue room path item) (slice_of H l n);
          Some (RSlice out)
      end
  | _ => Some (RRaw v)
  end.

Definition redactMap (m : option ptr) : option rvalue := redactValue maxRedactDepth [] (VMap m).

Definition isDiff (kvs : list (string * value)) : bool :=
  match kvs with
  | [] => false
  | _ => forallb (fun kv => bool_decide (kv.1 = "old") || bool_decide (kv.1 = "new")) kvs
  end.

(** One entry of [redactChanges]. *)
Definition redactChange (k : string) (v : value) : option rvalue :=
  let field := redactField (redactValue maxRedactDepth []) k in
  match v with
  | VMap (Some l) =>
      if isDiff (map_of H l)
      then sides ← mapM (fun sv => r ← field sv.2; Some (sv.1, r)) (map_of H l); Some (RMap sides)
      else field v
  | _ => field v
  end.

Definition redactChanges (changes : option ptr) : option rvalue :=
  match changes with
  | None => Some RNilMap
  | Some l => out ← mapM (fun kv => r ← redactChange kv.1 kv.2; Some (kv.1, r)) (map_of H l); Some (RMap out)
  end.

End Walk.

(** ** Entries *)

Definition ActionCreate : string := "create".
Definition ActionUpdate : string := "update".
Definition ActionDelete : string := "delete".
Definition ActionExecute : string := "execute".
Definition Actions : list string := [ActionCreate; ActionUpdate; ActionDelete; ActionExecute].

Definition StatusSuccess : string := "success".
Definition StatusFailed : string := "failed".
Definition StatusPartial : string := "partial".
Definition StatusNoop : string := "noop".
Definition Statuses : list string := [StatusSuccess; StatusFailed; StatusPartial; StatusNoop].

Record AffectedResource := mkAffectedResource { ar_Type : string; ar_ID : string }.

(** The fields of [Entry] that are not payloads. *)
Record EntryHead := mkEntryHead {
  e_ID : string; e_ResourceType : string; e_ResourceID : string;
  e_AggregateType : option string; e_AggregateID : option string;
  e_OperationCategory : string; e_OperationName : string; e_Status : string;
  e_ActorID : string; e_Username : string; e_Source : string; e_RequestID : option string;
  e_IP : string; e_UserAgent : string; e_ObjectRepr : string;
  e_AffectedResources : list AffectedResource;
  e_ErrorCode : option string; e_ErrorMessage : option string; e_CreatedAt : Z }.

(** [Entry]: its payloads are maps of the heap before redaction and new trees after. *)
Record Entry (P : Type) := mkEntry {
  e_head : EntryHead;
  e_InputPayload : P; e_BeforeSnapshot : P; e_AfterSnapshot : P; e_ChangedFields : P }.
Arguments mkEntry {P}.
Arguments e_head {P}.
Arguments e_InputPayload {P}.
Arguments e_BeforeSnapshot {P}.
Arguments e_AfterSnapshot {P}.
Arguments e_ChangedFields {P}.

(** [redactEntry]. *)
Definition redactEntry (rd : redactor) (H : Heap) (e : Entry (option ptr)) : option (Entry rvalue) :=
  input ← redactMap rd H (e_InputPayload e);
  before ← redactMap rd H (e_BeforeSnapshot e);
  after ← redactMap rd H (e_AfterSnapshot e);
  changes ← redactChanges rd H (e_ChangedFields e);
  Some (mkEntry (e_head e) input before after changes).

(** ** Options of an entry *)

(** [Option]: it changes the entry under construction, and may make new maps. *)
Abbreviation EntryOption := (Heap -> Entry (option ptr) -> Heap * Entry (option ptr)).

Definition set_head (f : EntryHead -> EntryHead) : EntryOption := fun H e =>
  (H, mkEntry (f (e_head e)) (e_InputPayload e) (e_BeforeSnapshot e) (e_AfterSnapshot e) (e_ChangedFields e)).

Definition with_ObjectRepr (repr : string) (h : EntryHead) : EntryHead :=
  mkEntryHead (e_ID h) (e_ResourceType h) (e_ResourceID h) (e_AggregateType h) (e_AggregateID h)
    (e_OperationCategory h) (e_OperationName h) (e_Status h) (e_ActorID h) (e_Username h) (e_Source h)
    (e_RequestID h) (e_IP h) (e_UserAgent h) repr (e_AffectedResources h) (e_ErrorCode h) (e_ErrorMessage h)
    (e_CreatedAt h).

Definition WithObjectRepr (repr : string) : EntryOption := set_head (with_ObjectRepr repr).

Definition WithAggregate (aggregateType aggregateID : string) : EntryOption := set_head (fun h =>
  mkEntryHead (e_ID h) (e_ResourceType h) (e_ResourceID h) (Some aggregateType) (Some aggregateID)
    (e_OperationCategory h) (e_OperationName h) (e_Status h) (e_ActorID h) (e_Username h) (e_Source h)
    (e_RequestID h) (e_IP h) (e_UserAgent h) (e_ObjectRepr h) (e_AffectedResources h) (e_ErrorCode h)
    (e_ErrorMessage h) (e_CreatedAt h)).

Definition WithOperationName (name : string) : EntryOption := set_head (fun h =>
  mkEntryHead (e_ID h) (e_ResourceType h) (e_ResourceID h) (e_AggregateType h) (e_AggregateID h)
    (e_OperationCategory h) name (e_Status h) (e_ActorID h) (e_Username h) (e_Source h)
    (e_RequestID h) (e_IP h) (e_UserAgent h) (e_ObjectRepr h) (e_AffectedResources h) (e_ErrorCode h)
    (e_ErrorMessage h) (e_CreatedAt h)).

Definition with_Status (status : string) (h : EntryHead) : EntryHead :=
  mkEntryHead (e_ID h) (e_ResourceType h) (e_ResourceID h) (e_AggregateType h) (e_AggregateID h)
    (e_OperationCategory h) (e_OperationName h) status (e_ActorID h) (e_Username h) (e_Source h)
    (e_RequestID h) (e_IP h) (e_UserAgent h) (e_ObjectRepr h) (e_AffectedResources h) (e_ErrorCode h)
    (e_ErrorMessage h) (e_CreatedAt h).

Definition WithStatus (status : string) : EntryOption := set_head (with_Status status).

Definition WithAffectedResources (resources : list AffectedResource) : EntryOption := set_head (fun h =>
  mkEntryHead (e_ID h) (e_ResourceType h) (e_ResourceID h) (e_AggregateType h) (e_AggregateID h)
    (e_OperationCategory h) (e_OperationName h) (e_Status h) (e_ActorID h) (e_Username h) (e_Source h)
    (e_RequestID h) (e_IP h) (e_UserAgent h) (e_ObjectRepr h) resources (e_ErrorCode h) (e_ErrorMessage h)
    (e_CreatedAt h)).

Definition WithError (code message : string) : EntryOption := set_head (fun h =>
  mkEntryHead (e_ID h) (e_ResourceType h) (e_ResourceID h) (e_AggregateType h) (e_AggregateID h)
    (e_OperationCategory h) (e_OperationName h) StatusFailed (e_ActorID h) (e_Username h) (e_Source h)
    (e_RequestID h) (e_IP h) (e_UserAgent h) (e_ObjectRepr h) (e_AffectedResources h) (Some code) (Some message)
    (e_CreatedAt h)).

Definition WithInputPayload (d : option ptr) : EntryOption := fun H e =>
  (H, mkEntry (e_head e) d (e_BeforeSnapshot e) (e_AfterSnapshot e) (e_ChangedFields e)).
Definition WithBeforeSnapshot (d : option ptr) : EntryOption := fun H e =>
  (H, mkEntry (e_head e) (e_InputPayload e) d (e_AfterSnapshot e) (e_ChangedFields e)).
Definition WithAfterSnapshot (d : option ptr) : EntryOption := fun H e =>
  (H, mkEntry (e_head e) (e_InputPayload e) (e_BeforeSnapshot e) d (e_ChangedFields e)).
Definition WithChangedFields (c : option ptr) : EntryOption := fun H e =>
  (H, mkEntry (e_head e) (e_InputPayload e) (e_BeforeSnapshot e) (e_AfterSnapshot e) c).

(** The entries of a snapshot; ranging over nil does nothing. *)
Definition snapshot_of (H : Heap) (m : option ptr) : list (string * value) :=
  match m with None => [] | Some l => map_of H l end.

(** A new map with, for every listed field, a new map of its two sides. *)
Fixpoint alloc_diffs (H : Heap) (diffs : list (string * (value * value))) : Heap * list (string * value) :=
  match diffs with
  | [] => (H, [])
  | (k, (old, new)) :: diffs =>
      let '(H, l) := alloc_map H [("old", old); ("new", new)] in
      let '(H, kvs) := alloc_diffs H diffs in
      (H, (k, VMap (Some l)) :: kvs)
  end.

Definition make_changes (H : Heap) (diffs : list (string * (value * value))) : Heap * option ptr :=
  let '(H, kvs) := alloc_diffs H diffs in let '(H, l) := alloc_map H kvs in (H, Some l).

Definition changesFromCreate (H : Heap) (snapshot : option ptr) : Heap * option ptr :=
  make_changes H ((fun kv => (kv.1, (VNil, kv.2))) <$> snapshot_of H snapshot).
Definition changesFromDelete (H : Heap) (snapshot : option ptr) : Heap * option ptr :=
  make_changes H ((fun kv => (kv.1, (kv.2, VNil))) <$> snapshot_of H snapshot).

Definition assoc (k : string) (kvs : list (string * value)) : option value :=
  snd <$> List.find (fun kv => bool_decide (kv.1 = k)) kvs.

#[export] Instance scalar_eq_dec : EqDecision scalar.
Proof. solve_decision. Defined.

(** [reflect.DeepEqual]: two containers already being compared are taken as equal, as
    are two that are the same object.  The fuel is the number of pairs of containers, so
    it is never the fuel that ends the comparison. *)
Fixpoint deep_equal (H : Heap) (fuel : nat) (seen : list (container * container)) (a b : value) : bool :=
  match a, b with
  | VNil, VNil | VMap None, VMap None | VSlice None, VSlice None => true
  | VScalar s, VScalar t => bool_decide (s = t)
  | VOther _ _ x _, VOther _ _ y _ => bool_decide (x = y)
  | VMap (Some l), VMap (Some l') =>
      match fuel with
      | O => false
      | S fuel =>
          let pair := ((l, -1), (l', -1)) in
          if bool_decide (pair ∈ seen) || bool_decide (l = l') then true
          else bool_decide (length (map_of H l) = length (map_of H l')) &&
               forallb (fun kv => match assoc kv.1 (map_of H l') with
                                  | Some v => deep_equal H fuel (pair :: seen) kv.2 v
                                  | None => false
                                  end) (map_of H l)
      end
  | VSlice (Some (l, n)), VSlice (Some (l', n')) =>
      match fuel with
      | O => false
      | S fuel =>
          let pair := ((l, Z.of_nat n), (l', Z.of_nat n')) in
          bool_decide (n = n') &&
          (bool_decide (pair ∈ seen) || bool_decide (l = l') ||
           forallb (fun ab => deep_equal H fuel (pair :: seen) ab.1 ab.2) (zip (slice_of H l n) (slice_of H l' n')))
      end
  | _, _ => false
  end.

Definition heap_size (H : Heap) : nat :=
  (size (hp_maps H) + sum_list ((fun kv => S (length kv.2)) <$> map_to_list (hp_arrays H)))%nat.

Definition DeepEqual (H : Heap) (a b : value) : bool := deep_equal H (S (heap_size H * heap_size H)) [] a b.

(** [computeChanges]: the fields of [after] that are new or different, then those
    [before] alone has. *)
Definition computeChanges (H : Heap) (before after : option ptr) : Heap * option ptr :=
  let bs := snapshot_of H before in
  let afs := snapshot_of H after in
  make_changes H
    (omap (fun kv => match assoc kv.1 bs with
                     | Some old => if DeepEqual H old kv.2 then None else Some (kv.1, (old, kv.2))
                     | None => Some (kv.1, (VNil, kv.2))
                     end) afs ++
     omap (fun kv => match assoc kv.1 afs with Some _ => None | None => Some (kv.1, (kv.2, VNil)) end) bs).

(** [Auditable]: what the entity answers. *)
Record Auditable := mkAuditable { AuditRepr : string; AuditSnapshot : option ptr }.

Definition WithSubject (a : Auditable) : EntryOption := fun H e =>
  let '(H, e) := WithObjectRepr (AuditRepr a) H e in
  let snapshot := AuditSnapshot a in
  if bool_decide (e_OperationCategory (e_head e) = ActionCreate) then
    let '(H, c) := changesFromCreate H snapshot in
    (H, mkEntry (e_head e) (e_InputPayload e) (e_BeforeSnapshot e) snapshot c)
  else if bool_decide (e_OperationCategory (e_head e) = ActionDelete) then
    let '(H, c) := changesFromDelete H snapshot in
    (H, mkEntry (e_head e) (e_InputPayload e) snapshot (e_AfterSnapshot e) c)
  else (H, e).

Definition WithChange (before after : Auditable) : EntryOption := fun H e =>
  let '(H, e) := WithObjectRepr (AuditRepr after) H e in
  let '(H, c) := computeChanges H (AuditSnapshot before) (AuditSnapshot after) in
  (H, mkEntry (e_head e) (e_InputPayload e) (AuditSnapshot before) (AuditSnapshot after) c).

(** ** The recorder *)

Record Recorder := mkRecorder { rc_redactedKeys : list string; rc_redactors : list Redactor }.

Definition WithRedactedKeys (keys : list string) (r : Recorder) : Recorder :=
  mkRecorder (rc_redactedKeys r ++ keys) (rc_redactors r).
Definition WithRedactor (fn : option Redactor) (r : Recorder) : Recorder :=
  match fn with
  | None => r
  | Some fn => mkRecorder (rc_redactedKeys r) (rc_redactors r ++ [fn])
  end.

(** [NewRecorder]: the redactor its entries go through. *)
Definition NewRecorder (opts : list (Recorder -> Recorder)) : redactor :=
  let r := foldl (fun r opt => opt r) (mkRecorder defaultRedactedKeys []) opts in
  mkRedactor (newKeyMatcher (rc_redactedKeys r)) (rc_redactors r).

(** What a context carries: the principal's id and name, the request id ("" for none),
    the client's address and agent. *)
Record AuditCtx := mkAuditCtx {
  cx_Principal : option (string * string); cx_RequestID : string; cx_RequestInfo : option (string * string) }.

(** [applyActorAndRequestContext]. *)
Definition applyActorAndRequestContext (cx : AuditCtx) (h : EntryHead) : EntryHead :=
  let '(actor, user) := default (e_ActorID h, e_Username h) (cx_Principal cx) in
  let '(ip, agent) := default (e_IP h, e_UserAgent h) (cx_RequestInfo cx) in
  mkEntryHead (e_ID h) (e_ResourceType h) (e_ResourceID h) (e_AggregateType h) (e_AggregateID h)
    (e_OperationCategory h) (e_OperationName h) (e_Status h) actor user (e_Source h)
    (if bool_decide (cx_RequestID cx = "") then e_RequestID h else Some (cx_RequestID cx))
    ip agent (e_ObjectRepr h) (e_AffectedResources h) (e_ErrorCode h) (e_ErrorMessage h) (e_CreatedAt h).

Definition lower_string (s : string) : string :=
  String.string_of_list_ascii (to_lower (String.list_ascii_of_string s)).

(** The entry [Record] starts from. *)
Definition new_entry (id : string) (now : Z) (cx : AuditCtx) (source action resourceType resourceID : string)
  : Entry (option ptr) :=
  let category := lower_string action in
  mkEntry (applyActorAndRequestContext cx
             (mkEntryHead id resourceType resourceID None None category (category +:+ "_" +:+ resourceType)
                StatusSuccess "" "" source None "" "" "" [] None None now))
    None None None None.

(** How [Record] ends: it refused the payload, or it returned what the repository said. *)
Inductive record_outcome (R : Type) := Unredactable | Created (answer : R).
Arguments Unredactable {R}.
Arguments Created {R} answer.

(** [Recorder.Record], with the repository's [Create] on its own state. *)
Definition Record_entry {S R : Type} (Create : Entry rvalue -> S -> S * R) (rd : redactor)
    (id : string) (now : Z) (cx : AuditCtx) (source action resourceType resourceID : string)
    (opts : list EntryOption) (H : Heap) (s : S) : S * record_outcome R :=
  let '(H, e) := foldl (fun He opt => opt He.1 He.2) (H, new_entry id now cx source action resourceType resourceID) opts in
  match redactEntry rd H e with
  | None => (s, Unredactable)
  | Some e => let '(s, answer) := Create e s in (s, Created answer)
  end.

(** ** Paging *)

Definition DefaultListLimit : Z := 20.
Definition MaxListLimit : Z := 1000.
Definition MaxListOffset : Z := 100000.

(** [Filters.Page], from its limit and offset: [None] is [ErrOffsetOutOfRange]. *)
Definition Filters_Page (Limit Offset : Z) : option (Z * Z) :=
  if (Offset <? 0) || (MaxListOffset <? Offset) then None
  else Some (if Limit <=? 0 then DefaultListLimit else if MaxListLimit <? Limit then MaxListLimit else Limit, Offset).
