(* ===== verification/AuditTheorems.v ===== *)
(** What the audit trail promises: nothing under a sensitive key reaches the repository,
    at any depth and whatever the hooks do; the check for cycles refuses exactly the
    payloads that are too deep to walk; and nothing else is lost. *)

From stdpp Require Import base gmap list strings option.
From Stdlib Require Import ZArith Lia Ascii.
From S2P Require Import Prelude GoStrings Errors Model AuditLog.

Open Scope string_scope.
Open Scope list_scope.
Open Scope Z_scope.

(** ** Lists *)

Lemma mapM_mono {A B} (f g : A -> option B) l ys :
  (forall x y, x ∈ l -> f x = Some y -> g x = Some y) -> mapM f l = Some ys -> mapM g l = Some ys.
Proof.
  intros Hfg. rewrite !mapM_Some. intros HF. induction HF as [| x y l ys Hx _ IH]; constructor.
  - apply Hfg; [left | done].
  - apply IH. intros x' y' Hx'. apply Hfg. by right.
Qed.

Section Redaction.
Context (rd : redactor) (H : Heap).

(** ** The reference: a walk that only counts its depth *)

Fixpoint redact_ref (room : nat) (v : value) : option rvalue :=
  match v with
  | VMap None => Some RNilMap
  | VMap (Some l) =>
      match room with
      | O => None
      | S room =>
          out ← mapM (fun kv => r ← redactField rd (redact_ref room) kv.1 kv.2; Some (kv.1, r)) (map_of H l);
          Some (RMap out)
      end
  | VSlice None => Some (RRaw VNil)
  | VSlice (Some (l, n)) =>
      match room with
      | O => None
      | S room =>
          out ← mapM (fun item => item ← normalizeValue item; redact_ref room item) (slice_of H l n);
          Some (RSlice out)
      end
  | _ => Some (RRaw v)
  end.

Lemma redactField_mono (f g : value -> option rvalue) k v r :
  (forall v r, f v = Some r -> g v = Some r) -> redactField rd f k v = Some r -> redactField rd g k v = Some r.
Proof.
  intros Hfg. unfold redactField. destruct (matches _ k); [done |].
  destruct (normalizeValue v) as [v1 |]; simpl; [| done].
  destruct (match first_hook _ k v1 with Some _ => _ | None => _ end) as [v2 |]; simpl; [apply Hfg | done].
Qed.

(** The fields of a map, and the items of a slice, under a better walk. *)
Lemma fields_mono (f g : value -> option rvalue) kvs out :
  (forall v r, f v = Some r -> g v = Some r) ->
  mapM (fun kv => r ← redactField rd f kv.1 kv.2; Some (kv.1, r)) kvs = Some out ->
  mapM (fun kv => r ← redactField rd g kv.1 kv.2; Some (kv.1, r)) kvs = Some out.
Proof.
  intros Hfg. apply mapM_mono. intros kv o _ Ho. destruct (redactField rd f kv.1 kv.2) as [r |] eqn:Hr; [| done].
  by rewrite (redactField_mono f g _ _ _ Hfg Hr).
Qed.

Lemma items_mono (f g : value -> option rvalue) items out :
  (forall v r, f v = Some r -> g v = Some r) ->
  mapM (fun item => item ← normalizeValue item; f item) items = Some out ->
  mapM (fun item => item ← normalizeValue item; g item) items = Some out.
Proof.
  intros Hfg. apply mapM_mono. intros v o _ Ho. destruct (normalizeValue v) as [v1 |]; [| done]. by apply Hfg.
Qed.

Lemma redact_ref_mono n m v r : (n <= m)%nat -> redact_ref n v = Some r -> redact_ref m v = Some r.
Proof.
  revert m v r. induction n as [| n IH]; intros m v r Hm.
  - destruct v as [| [l |] | [[l k] |] | | ]; simpl; try done; by destruct m.
  - destruct m as [| m]; [lia |].
    assert (Hnm : forall v r, redact_ref n v = Some r -> redact_ref m v = Some r) by (intros; apply IH; [lia | done]).
    destruct v as [| [l |] | [[l k] |] | | ]; try done.
    + cbn [redact_ref]. destruct (mapM _ (map_of H l)) as [out |] eqn:Hout; [| done]. simpl. intros [= <-].
      by rewrite (fields_mono _ _ _ _ Hnm Hout).
    + cbn [redact_ref]. destruct (mapM _ (slice_of H l k)) as [out |] eqn:Hout; [| done]. simpl. intros [= <-].
      by rewrite (items_mono _ _ _ _ Hnm Hout).
Qed.

(** What the walk with a path finds, the reference finds. *)
Lemma redactValue_sound room path v r : redactValue rd H room path v = Some r -> redact_ref room v = Some r.
Proof.
  revert path v r. induction room as [| room IH]; intros path v r;
    destruct v as [| [l |] | [[l k] |] | | ]; try done; cbn [redactValue redact_ref].
  - destruct (enter path _) as [path' |]; [| done]. simpl.
    destruct (mapM _ (map_of H l)) as [out |] eqn:Hout; [| done]. simpl. intros [= <-].
    by rewrite (fields_mono _ _ _ _ (IH path') Hout).
  - destruct (enter path _) as [path' |]; [| done]. simpl.
    destruct (mapM _ (slice_of H l k)) as [out |] eqn:Hout; [| done]. simpl. intros [= <-].
    by rewrite (items_mono _ _ _ _ (IH path') Hout).
Qed.

(** The value a container of the path is. *)
Definition container_value (c : container) : value :=
  if c.2 =? -1 then VMap (Some c.1) else VSlice (Some (c.1, Z.to_nat c.2)).

(** The least room a walk needs. *)
Lemma least_room n v r :
  redact_ref n v = Some r -> exists m, (m <= n)%nat /\ redact_ref m v = Some r /\ forall m', (m' < m)%nat -> redact_ref m' v = None.
Proof.
  induction n as [| n IH]; intros Hn; [exists 0%nat; split; [lia |]; split; [done | lia] |].
  destruct (redact_ref n v) as [r' |] eqn:Hr.
  - rewrite (redact_ref_mono n (S n) v r') in Hn by (done || lia). injection Hn as ->.
    destruct (IH eq_refl) as (m & Hm & ? & ?). exists m. split; [lia | done].
  - exists (S n). split; [lia |]. split; [done |]. intros m' Hm'.
    destruct (redact_ref m' v) as [r' |] eqn:Hr'; [| done].
    rewrite (redact_ref_mono m' n v r') in Hr by (done || lia). done.
Qed.

(** The path of a walk that will succeed never bites: the containers on it need more
    room than what is below them. *)
Lemma redactValue_complete n room path v r :
  (n <= room)%nat -> (forall c, c ∈ path -> redact_ref n (container_value c) = None) ->
  redact_ref n v = Some r -> redactValue rd H room path v = Some r.
Proof.
  revert room path v r. induction (lt_wf n) as [n _ IH]. intros room path v r Hroom Hpath Hr.
  assert (Hstep : forall c, container_value c = v -> redact_ref 0 v = None ->
    exists m, (m < n)%nat /\ redact_ref (S m) v = Some r /\ c ∉ path /\
      forall path', enter path c = Some path' ->
        forall v r, redact_ref m v = Some r -> redactValue rd H (pred room) path' v = Some r).
  { intros c Hc H0. destruct (least_room n v r Hr) as (m & Hm & Hmr & Hmin).
    destruct m as [| m]; [congruence |]. exists m. split; [lia |]. split; [done |].
    split; [intros Hin%Hpath; congruence |]. intros path' Hpath' v' r'. apply IH; [lia | lia |].
    assert (Hold : forall c', c' ∈ path -> redact_ref m (container_value c') = None).
    { intros c' Hc'%Hpath. destruct (redact_ref m (container_value c')) as [r'' |] eqn:Hr''; [| done].
      rewrite (redact_ref_mono m n _ r'') in Hc' by (done || lia). done. }
    unfold enter in Hpath'. destruct (c.2 =? 0); [by injection Hpath' as <- |].
    case_bool_decide; [done |]. injection Hpath' as <-.
    intros c' [-> | Hc']%elem_of_cons; [rewrite Hc; apply Hmin; lia | by apply Hold]. }
  destruct v as [| [l |] | [[l k] |] | | ]; try (by destruct n, room).
  - destruct (Hstep (l, -1) eq_refl eq_refl) as (m & Hmn & Hm & Hnin & Hbelow).
    destruct room as [| room]; [lia |]. cbn [redact_ref] in Hm. cbn [redactValue].
    destruct (enter path (l, -1)) as [path' |] eqn:Hen.
    2: { unfold enter in Hen. simpl in Hen. by case_bool_decide. }
    simpl. destruct (mapM _ (map_of H l)) as [out |] eqn:Hout; [| done]. simpl in Hm. injection Hm as <-.
    pose proof (Hbelow path' eq_refl) as Hb. cbn [Init.Nat.pred] in Hb. by rewrite (fields_mono _ _ _ _ Hb Hout).
  - destruct (Hstep (l, Z.of_nat k)) as (m & Hmn & Hm & Hnin & Hbelow).
    { unfold container_value, fst, snd. assert ((Z.of_nat k =? -1) = false) as -> by (apply Z.eqb_neq; lia). by rewrite Nat2Z.id. }
    { done. }
    destruct room as [| room]; [lia |]. cbn [redact_ref] in Hm. cbn [redactValue].
    destruct (enter path (l, Z.of_nat k)) as [path' |] eqn:Hen.
    2: { unfold enter in Hen. destruct (_ =? 0); [done |]. by case_bool_decide. }
    simpl. destruct (mapM _ (slice_of H l k)) as [out |] eqn:Hout; [| done]. simpl in Hm. injection Hm as <-.
    pose proof (Hbelow path' eq_refl) as Hb. cbn [Init.Nat.pred] in Hb. by rewrite (items_mono _ _ _ _ Hb Hout).
Qed.

Lemma redactValue_is_ref room v : redactValue rd H room [] v = redact_ref room v.
Proof.
  destruct (redact_ref room v) as [r |] eqn:Hr.
  - apply redactValue_complete with (n := room); [done | | done]. intros c Hc. by apply not_elem_of_nil in Hc.
  - destruct (redactValue rd H room [] v) as [r |] eqn:Hv; [| done].
    apply redactValue_sound in Hv. congruence.
Qed.

(** ** Clean values *)

Definition redacted : rvalue := RRaw (VScalar (SString RedactedValue)).

(** A value with nothing below it, as encoding/json writes it. *)
Definition plain (v : value) : bool :=
  match v with
  | VNil | VScalar _ => true
  | VOther marshaler kind _ _ => negb (needsJSONForm marshaler kind)
  | VMap _ | VSlice _ => false
  end.

(** No map of the value, at any depth, keeps anything under a sensitive key but nil or
    the mark. *)
Inductive clean : rvalue -> Prop :=
| clean_raw v : plain v = true -> clean (RRaw v)
| clean_nil : clean RNilMap
| clean_map kvs : Forall (fun kv => clean_field kv.1 kv.2) kvs -> clean (RMap kvs)
| clean_slice items : Forall clean items -> clean (RSlice items)
with clean_field : string -> rvalue -> Prop :=
| clean_secret k r : matches (rd_keys rd) k = true -> r = RRaw VNil \/ r = redacted -> clean_field k r
| clean_open k r : matches (rd_keys rd) k = false -> clean r -> clean_field k r.

(** A value a walk is given. *)
Definition normal (v : value) : Prop :=
  match v with VOther marshaler kind _ _ => needsJSONForm marshaler kind = false | _ => True end.

Lemma normalizeValue_normal v v' : normalizeValue v = Some v' -> normal v'.
Proof.
  unfold normalizeValue. destruct v as [| | | | mk kd c j]; try (by intros [= <-]).
  destruct (needsJSONForm mk kd) eqn:Hn; [| by intros [= <-]].
  destruct j as [[] |]; simpl; intros Hj; by simplify_eq.
Qed.

Lemma redactField_clean f k v r :
  (forall v r, normal v -> f v = Some r -> clean r) -> redactField rd f k v = Some r -> clean_field k r.
Proof.
  intros Hf. unfold redactField. destruct (matches _ k) eqn:Hm.
  - intros [= <-]. apply clean_secret; [done |]. destruct v; auto.
  - destruct (normalizeValue v) as [v1 |] eqn:Hv; simpl; [| done]. apply normalizeValue_normal in Hv.
    intros Hr. apply clean_open; [done |].
    destruct (first_hook _ k v1) as [repl |]; [| by apply Hf in Hr].
    destruct (normalizeValue repl) as [v2 |] eqn:Hv2; [| done]. apply normalizeValue_normal in Hv2. by apply Hf in Hr.
Qed.

Lemma fields_clean f kvs out :
  (forall v r, normal v -> f v = Some r -> clean r) ->
  mapM (fun kv => r ← redactField rd f kv.1 kv.2; Some (kv.1, r)) kvs = Some out ->
  Forall2 (fun kv o => o.1 = kv.1 /\ clean_field o.1 o.2) kvs out.
Proof.
  intros Hf. rewrite mapM_Some. apply Forall2_impl. intros kv [k r].
  destruct (redactField rd f kv.1 kv.2) as [r' |] eqn:Hr; [| done]. intros [= <- <-].
  split; [done |]. by eapply redactField_clean.
Qed.

Lemma redact_ref_clean n v r : normal v -> redact_ref n v = Some r -> clean r.
Proof.
  revert v r. induction n as [| n IH]; intros v r Hn.
  - destruct v as [| [l |] | [[l k] |] | | ]; simpl; try done; intros [= <-]; constructor; simpl in *; by rewrite ?Hn.
  - destruct v as [| [l |] | [[l k] |] | | ]; cbn [redact_ref]; try (intros [= <-]; constructor; simpl in *; by rewrite ?Hn).
    + destruct (mapM _ (map_of H l)) as [out |] eqn:Hout; [| done]. simpl. intros [= <-].
      apply (fields_clean _ _ _ IH) in Hout. constructor. apply Forall_lookup. intros i o Hi.
      by destruct (Forall2_lookup_r _ _ _ _ _ Hout Hi) as (kv & _ & _ & ?).
    + destruct (mapM _ (slice_of H l k)) as [out |] eqn:Hout; [| done]. simpl. intros [= <-].
      apply mapM_Some in Hout. constructor. apply Forall_lookup. intros i o Hi.
      destruct (Forall2_lookup_r _ _ _ _ _ Hout Hi) as (item & _ & Hit).
      destruct (normalizeValue item) as [item' |] eqn:Hni; [| done]. simpl in Hit.
      apply normalizeValue_normal in Hni. by eapply IH.
Qed.

Lemma redactValue_clean room path v r : normal v -> redactValue rd H room path v = Some r -> clean r.
Proof. intros Hn Hr%redactValue_sound. by eapply redact_ref_clean. Qed.

(** ** Changed fields *)

(** An entry of the changed fields: a sensitive field shows at most which of its sides
    were set. *)
Definition clean_change (k : string) (r : rvalue) : Prop :=
  clean_field k r \/
  exists sides, r = RMap sides /\ Forall (fun sv => (sv.1 = "old" \/ sv.1 = "new") /\ clean_field k sv.2) sides.

Definition clean_changes (r : rvalue) : Prop :=
  match r with
  | RNilMap => True
  | RMap kvs => Forall (fun kv => clean_change kv.1 kv.2) kvs
  | _ => False
  end.

Lemma redactChange_clean k v r : redactChange rd H k v = Some r -> clean_change k r.
Proof.
  unfold redactChange.
  assert (Hfield : forall v r, redactField rd (redactValue rd H maxRedactDepth []) k v = Some r -> clean_field k r).
  { intros v' r'. apply redactField_clean. intros v'' r''. apply redactValue_clean. }
  assert (Hplain : redactField rd (redactValue rd H maxRedactDepth []) k v = Some r -> clean_change k r)
    by (intros Hr; left; by apply Hfield in Hr).
  destruct v as [| [l |] | | |]; try done. destruct (isDiff (map_of H l)) eqn:Hd; [| done].
  destruct (mapM _ (map_of H l)) as [sides |] eqn:Hs; [| done]. simpl. intros [= <-]. right.
  exists sides. split; [done |]. apply mapM_Some in Hs.
  assert (Hsides : Forall (fun kv : string * value => kv.1 = "old" \/ kv.1 = "new") (map_of H l)).
  { unfold isDiff in Hd. destruct (map_of H l) as [| kv kvs]; [done |].
    apply Forall_lookup. intros i x Hi. apply forallb_forall with (x := x) in Hd.
    - apply orb_prop in Hd as [Hd%bool_decide_eq_true | Hd%bool_decide_eq_true]; auto.
    - apply list_elem_of_In. by eapply list_elem_of_lookup_2. }
  apply Forall_lookup. intros i o Hi. destruct (Forall2_lookup_r _ _ _ _ _ Hs Hi) as (sv & Hsv & Ho).
  destruct (redactField rd _ k sv.2) as [r |] eqn:Hr; [| done]. injection Ho as <-. simpl.
  split; [| by apply Hfield in Hr]. by apply (Forall_lookup_1 _ _ _ _ Hsides Hsv).
Qed.

Lemma redactChanges_clean m r : redactChanges rd H m = Some r -> clean_changes r.
Proof.
  unfold redactChanges. destruct m as [l |]; [| by intros [= <-]].
  destruct (mapM _ (map_of H l)) as [out |] eqn:Hout; [| done]. simpl. intros [= <-]. simpl.
  apply mapM_Some in Hout. apply Forall_lookup. intros i o Hi.
  destruct (Forall2_lookup_r _ _ _ _ _ Hout Hi) as (kv & _ & Ho).
  destruct (redactChange rd H kv.1 kv.2) as [r |] eqn:Hr; [| done]. injection Ho as <-. simpl.
  by apply redactChange_clean in Hr.
Qed.

(** An entry with nothing to hide. *)
Definition clean_entry (e : Entry rvalue) : Prop :=
  clean (e_InputPayload e) /\ clean (e_BeforeSnapshot e) /\ clean (e_AfterSnapshot e) /\
  clean_changes (e_ChangedFields e).

Lemma redactEntry_clean e e' : redactEntry rd H e = Some e' -> clean_entry e' /\ e_head e' = e_head e.
Proof.
  unfold redactEntry, redactMap.
  destruct (redactValue rd H _ [] (VMap (e_InputPayload e))) as [i |] eqn:Hi; [| done].
  destruct (redactValue rd H _ [] (VMap (e_BeforeSnapshot e))) as [b |] eqn:Hb; [| done].
  destruct (redactValue rd H _ [] (VMap (e_AfterSnapshot e))) as [a |] eqn:Ha; [| done].
  destruct (redactChanges rd H (e_ChangedFields e)) as [c |] eqn:Hc; [| done].
  simpl. intros [= <-]. apply redactValue_clean in Hi, Hb, Ha; try done.
  apply redactChanges_clean in Hc. by split.
Qed.

End Redaction.

(** C16: the walk with its path of open containers is the walk that only counts depth:
    the check for cycles never refuses a payload the depth would allow, however often the
    payload shares its parts, and never lets one through that has no finite form; a map
    that holds itself under an open key is refused.  The reference needs no more than
    [maxRedactDepth] levels, so every payload gets an answer. *)
Theorem redaction_equivalent (rd : redactor) (H : Heap) :
  (forall v, redactValue rd H maxRedactDepth [] v = redact_ref rd H maxRedactDepth v) /\
  (forall l k, (k, VMap (Some l)) ∈ map_of H l -> matches (rd_keys rd) k = false ->
     first_hook (rd_hooks rd) k (VMap (Some l)) = None -> redactMap rd H (Some l) = None).
Proof.
  split; [intros v; apply redactValue_is_ref |]. intros l k Hin Hm Hh. unfold redactMap.
  rewrite redactValue_is_ref. destruct (redact_ref rd H maxRedactDepth (VMap (Some l))) as [r |] eqn:Hr; [| done].
  destruct (least_room rd H _ _ _ Hr) as (m & _ & Hmr & Hmin). destruct m as [| m]; [done |].
  specialize (Hmin m ltac:(lia)). cbn [redact_ref] in Hmr.
  destruct (mapM _ (map_of H l)) as [out |] eqn:Hout; [| done]. apply mapM_Some in Hout.
  apply list_elem_of_lookup in Hin as [i Hi]. destruct (Forall2_lookup_l _ _ _ _ _ Hout Hi) as (o & _ & Ho).
  simpl in Ho. unfold redactField in Ho. rewrite Hm in Ho. simpl in Ho. rewrite Hh in Ho. simpl in Ho.
  by rewrite Hmin in Ho.
Qed.

(** The options [NewRecorder] can be given from outside the package. *)
Inductive recorder_option : (Recorder -> Recorder) -> Prop :=
| opt_keys keys : recorder_option (WithRedactedKeys keys)
| opt_redactor fn : recorder_option (WithRedactor fn).

Lemma NewRecorder_keys ropts :
  Forall recorder_option ropts ->
  forall key, matches (newKeyMatcher defaultRedactedKeys) key = true -> matches (rd_keys (NewRecorder ropts)) key = true.
Proof.
  intros Hopts key Hm. unfold NewRecorder. simpl.
  assert (Hkeep : forall r, Forall recorder_option ropts ->
    exists more, rc_redactedKeys (foldl (fun r opt => opt r) r ropts) = rc_redactedKeys r ++ more).
  { clear. induction ropts as [| o ropts IH]; intros r Ho; [exists []; by rewrite app_nil_r |].
    inversion Ho as [| ? ? Ho1 Ho2]; subst. simpl. destruct (IH (o r) Ho2) as [more ->].
    destruct Ho1 as [keys | fn]; simpl.
    - exists (keys ++ more). by rewrite app_assoc.
    - destruct fn; by exists more. }
  destruct (Hkeep (mkRecorder defaultRedactedKeys []) Hopts) as [more Hk].
  unfold matches in *. rewrite Hk. simpl (rc_redactedKeys _).
  unfold newKeyMatcher. rewrite fmap_app, List.filter_app, existsb_app. apply orb_true_iff. by left.
Qed.

(** C15: no secret reaches the audit log.  Whatever options build the entry and whatever
    hooks replace values - with maps of their own, structs, or the value they were given -
    a recorded entry was handed to the repository once, with every payload redacted at
    every depth: under each key the denylist matches (at least the default one) stands
    nil or the mark, a sensitive change shows only which sides were set, and all other
    fields of the entry are as the options left them.  A payload that cannot be redacted
    leaves the repository untouched. *)
Theorem record_redacts {S R : Type} (Create : Entry rvalue -> S -> S * R) ropts id now cx source action rt rid opts
    (H : Heap) (s s' : S) out :
  Forall recorder_option ropts ->
  Record_entry Create (NewRecorder ropts) id now cx source action rt rid opts H s = (s', out) ->
  (forall key, matches (newKeyMatcher defaultRedactedKeys) key = true ->
     matches (rd_keys (NewRecorder ropts)) key = true) /\
  ((out = Unredactable /\ s' = s) \/
   exists e answer, out = Created answer /\ Create e s = (s', answer) /\ clean_entry (NewRecorder ropts) e /\
     e_head e = e_head (foldl (fun He opt => opt He.1 He.2) (H, new_entry id now cx source action rt rid) opts).2).
Proof.
  intros Hopts Hrec. split; [by apply NewRecorder_keys |]. unfold Record_entry in Hrec.
  destruct (foldl _ _ opts) as [H' e]. destruct (redactEntry _ H' e) as [e' |] eqn:He.
  - destruct (Create e' s) as [s1 answer] eqn:Hc. injection Hrec as <- <-.
    apply redactEntry_clean in He as [Hcl Hhd]. right. by exists e', answer.
  - injection Hrec as <- <-. by left.
Qed.

(** ** Changes *)

Definition extends (H H' : Heap) : Prop :=
  hp_arrays H' = hp_arrays H /\ forall l kvs, hp_maps H !! l = Some kvs -> hp_maps H' !! l = Some kvs.

Lemma alloc_map_extends H kvs H' l :
  alloc_map H kvs = (H', l) -> extends H H' /\ hp_maps H' !! l = Some kvs.
Proof.
  unfold alloc_map. intros [= <- <-]. split; [split; [done |] |]; simpl.
  - intros l kvs' Hl. rewrite lookup_insert_ne; [done |]. intros <-.
    apply (is_fresh (dom (hp_maps H))). by eapply elem_of_dom_2.
  - by rewrite lookup_insert_eq.
Qed.

Lemma alloc_diffs_spec diffs H H' kvs :
  alloc_diffs H diffs = (H', kvs) ->
  extends H H' /\
  Forall2 (fun (d : string * (value * value)) (kv : string * value) =>
     kv.1 = d.1 /\ exists l, kv.2 = VMap (Some l) /\ hp_maps H' !! l = Some [("old", d.2.1); ("new", d.2.2)]) diffs kvs.
Proof.
  revert H H' kvs. induction diffs as [| [k [old new]] diffs IH]; intros H H' kvs; cbn [alloc_diffs].
  - intros [= <- <-]. split; [by split | constructor].
  - destruct (alloc_map H _) as [H1 l] eqn:Ha. destruct (alloc_diffs H1 diffs) as [H2 kvs2] eqn:Hd.
    intros [= <- <-]. destruct (alloc_map_extends _ _ _ _ Ha) as [[Ea1 Em1] Hl].
    destruct (IH _ _ _ Hd) as [[Ea2 Em2] HF]. split.
    + split; [congruence |]. intros l' kvs' Hl'. by apply Em2, Em1.
    + constructor; [| done]. split; [done |]. exists l. split; [done |]. by apply Em2.
Qed.

(** The map of changes that was made lists the given differences, each in a map of its
    two sides. *)
Lemma make_changes_spec H diffs H' c :
  make_changes H diffs = (H', c) ->
  extends H H' /\ exists lc, c = Some lc /\ forall k old new,
    (exists l, (k, VMap (Some l)) ∈ map_of H' lc /\ map_of H' l = [("old", old); ("new", new)]) <->
    (k, (old, new)) ∈ diffs.
Proof.
  unfold make_changes. destruct (alloc_diffs H diffs) as [H1 kvs] eqn:Hd.
  destruct (alloc_map H1 kvs) as [H2 lc] eqn:Ha. intros [= <- <-].
  destruct (alloc_diffs_spec _ _ _ _ Hd) as [[E1 M1] HF]. destruct (alloc_map_extends _ _ _ _ Ha) as [[E2 M2] Hlc].
  split; [split; [congruence | auto] |]. exists lc. split; [done |]. intros k old new.
  unfold map_of at 1. rewrite Hlc. simpl. split.
  - intros (l & Hin & Hl). apply list_elem_of_lookup in Hin as [i Hi].
    destruct (Forall2_lookup_r _ _ _ _ _ HF Hi) as ([k' [o n]] & Hdi & Hk & l' & Hl' & Hm). simpl in *.
    injection Hl' as <-. subst k'. unfold map_of in Hl. rewrite (M2 _ _ Hm) in Hl. simpl in Hl. injection Hl as <- <-.
    by eapply list_elem_of_lookup_2.
  - intros [i Hi]%list_elem_of_lookup. destruct (Forall2_lookup_l _ _ _ _ _ HF Hi) as ([k' v] & Hkv & Hk & l & Hl & Hm).
    simpl in *. subst. exists l. split; [by eapply list_elem_of_lookup_2 |]. unfold map_of. by rewrite (M2 _ _ Hm).
Qed.

Lemma assoc_elem k (v : value) kvs : NoDup kvs.*1 -> (k, v) ∈ kvs <-> assoc k kvs = Some v.
Proof.
  unfold assoc. induction kvs as [| [k' v'] kvs IH]; intros Hnd; simpl; [split; [by intros ?%not_elem_of_nil | done] |].
  inversion Hnd as [| ? ? Hnin Hnd']; subst. case_bool_decide as Hk; simpl in *.
  - subst k'. rewrite elem_of_cons. split.
    + intros [[= ->] | Hin]; [done |]. destruct Hnin. by apply (list_elem_of_fmap_2 fst) in Hin.
    + intros [= ->]. by left.
  - rewrite elem_of_cons, IH by done. naive_solver.
Qed.

(** the changes of an update are exactly its differences.  A field appears, in a map
    of its own with the old and the new side (nil where a snapshot lacks it), if and only
    if one snapshot lacks it or the two values are not deeply equal; the snapshots and
    every other map stay as they were. *)
Theorem changes_exact (H H' : Heap) before after c :
  NoDup (snapshot_of H before).*1 -> NoDup (snapshot_of H after).*1 ->
  computeChanges H before after = (H', c) ->
  extends H H' /\ exists lc, c = Some lc /\ forall k old new,
    (exists l, (k, VMap (Some l)) ∈ map_of H' lc /\ map_of H' l = [("old", old); ("new", new)]) <->
    match assoc k (snapshot_of H before), assoc k (snapshot_of H after) with
    | Some o, Some n => DeepEqual H o n = false /\ old = o /\ new = n
    | Some o, None => old = o /\ new = VNil
    | None, Some n => old = VNil /\ new = n
    | None, None => False
    end.
Proof.
  intros Hb Ha Hc. apply make_changes_spec in Hc as (Hext & lc & -> & Hspec).
  split; [done |]. exists lc. split; [done |]. intros k old new. rewrite Hspec, elem_of_app, !list_elem_of_omap.
  set (bs := snapshot_of H before) in *. set (afs := snapshot_of H after) in *. split.
  - intros [([k' v] & Hin & Hv) | ([k' v] & Hin & Hv)]; apply assoc_elem in Hin; try done; simpl in Hv.
    + destruct (assoc k' bs) as [o |] eqn:Ho; [destruct (DeepEqual H o v) eqn:Hd |]; simplify_eq;
        by rewrite Ho, Hin.
    + destruct (assoc k' afs) as [n |] eqn:Hn; simplify_eq. by rewrite Hin, Hn.
  - destruct (assoc k bs) as [o |] eqn:Ho, (assoc k afs) as [n |] eqn:Hn; [| | | done].
    + intros (Hd & -> & ->). left. exists (k, n). split; [by apply assoc_elem |]. simpl. by rewrite Ho, Hd.
    + intros (-> & ->). right. exists (k, o). split; [by apply assoc_elem |]. simpl. by rewrite Hn.
    + intros (-> & ->). left. exists (k, n). split; [by apply assoc_elem |]. simpl. by rewrite Ho.
Qed.

(** Creation and deletion list the whole snapshot. *)
Lemma changesFromCreate_spec H snapshot H' c :
  changesFromCreate H snapshot = (H', c) ->
  extends H H' /\ exists lc, c = Some lc /\ forall k old new,
    (exists l, (k, VMap (Some l)) ∈ map_of H' lc /\ map_of H' l = [("old", old); ("new", new)]) <->
    old = VNil /\ (k, new) ∈ snapshot_of H snapshot.
Proof.
  intros (Hext & lc & -> & Hspec)%make_changes_spec. split; [done |]. exists lc. split; [done |].
  intros k old new. rewrite Hspec, list_elem_of_fmap. split.
  - by intros ([k' v] & [= -> -> ->] & Hin).
  - intros [-> Hin]. by exists (k, new).
Qed.

(** The audit log and the case lists page alike, as their comments require. *)
Lemma audit_page_twin limit offset :
  Filters_Page limit offset = match Model.page limit offset with Ok p => Some p | _ => None end.
Proof. unfold Filters_Page, Model.page. by destruct (_ || _). Qed.

(** ** A recorded update *)

Definition demo_heap : Heap :=
  mkHeap
    {[ 1%positive := [("user", VScalar (SString "ana")); ("profile", VMap (Some 2%positive))];
       2%positive := [("apiKey", VScalar (SString "k-1")); ("logins", VSlice (Some (1%positive, 1%nat)))];
       3%positive := [("X-Csrf-Token", VNil); ("note", VOther true KOther 7 (Some (JObject 4%positive)))];
       4%positive := [("pass.word", VScalar (SString "hunter2"))];
       5%positive := [("user", VScalar (SString "eva")); ("loop", VMap (Some 5%positive))] ]}
    {[ 1%positive := [VMap (Some 3%positive)] ]}.

Definition demo_opts : list EntryOption :=
  [WithChange (mkAuditable "before" (Some 1%positive)) (mkAuditable "after" (Some 1%positive)); WithInputPayload (Some 1%positive)].

Definition demo_create (e : Entry rvalue) (n : nat) : nat * rvalue := (S n, e_InputPayload e).

Lemma record_redacts_witness :
  exists e, Record_entry demo_create (NewRecorder [WithRedactor None]) "id" 0 (mkAuditCtx None "r-1" None)
              "http" ActionUpdate "user" "1" demo_opts demo_heap 0%nat = (1%nat, Created (e_InputPayload e)) /\
            clean_entry (NewRecorder [WithRedactor None]) e.
Proof.
  destruct (Record_entry demo_create (NewRecorder [WithRedactor None]) "id" 0 (mkAuditCtx None "r-1" None)
              "http" ActionUpdate "user" "1" demo_opts demo_heap 0%nat) as [s' out] eqn:Hrec.
  destruct (record_redacts demo_create [WithRedactor None] "id" 0 (mkAuditCtx None "r-1" None)
              "http" ActionUpdate "user" "1" demo_opts demo_heap 0%nat s' out) as [_ [[Hout _] | (e & ans & Hout & Hc & Hcl & _)]].
  - constructor; [apply opt_redactor | constructor].
  - exact Hrec.
  - exfalso. assert (Hnot : match snd (Record_entry demo_create (NewRecorder [WithRedactor None]) "id" 0
       (mkAuditCtx None "r-1" None) "http" ActionUpdate "user" "1" demo_opts demo_heap 0%nat) with
       | Unredactable => false | Created _ => true end = true) by (vm_compute; reflexivity).
    rewrite Hrec, Hout in Hnot. discriminate Hnot.
  - exists e. split; [| exact Hcl]. rewrite Hout. injection Hc as <- <-. reflexivity.
Defined.

Lemma redaction_equivalent_witness :
  redactMap (NewRecorder []) demo_heap (Some 5%positive) = None /\
  redactMap (NewRecorder []) demo_heap (Some 2%positive)
  = Some (RMap [("apiKey", redacted);
                ("logins", RSlice [RMap [("X-Csrf-Token", RRaw VNil); ("note", RMap [("pass.word", redacted)])]])]).
Proof.
  destruct (redaction_equivalent (NewRecorder []) demo_heap) as [Heq Hloop]. split.
  - apply (Hloop 5%positive "loop"); [| reflexivity | reflexivity].
    apply list_elem_of_lookup. exists 1%nat. reflexivity.
  - unfold redactMap. rewrite Heq. vm_compute. reflexivity.
Defined.

Lemma changes_exact_witness :
  exists H' lc l, computeChanges demo_heap (Some 1%positive) (Some 5%positive) = (H', Some lc) /\
    ("user", VMap (Some l)) ∈ map_of H' lc /\
    map_of H' l = [("old", VScalar (SString "ana")); ("new", VScalar (SString "eva"))].
Proof.
  destruct (computeChanges demo_heap (Some 1%positive) (Some 5%positive)) as [H' c] eqn:Hc.
  destruct (changes_exact demo_heap H' (Some 1%positive) (Some 5%positive) c) as (_ & lc & -> & Hspec).
  - vm_compute. repeat constructor; set_solver.
  - vm_compute. repeat constructor; set_solver.
  - exact Hc.
  - destruct (proj2 (Hspec "user" (VScalar (SString "ana")) (VScalar (SString "eva")))) as (l & Hin & Hl).
    + vm_compute. split; [reflexivity | split; reflexivity].
    + exists H', lc, l. split; [reflexivity | split; [exact Hin | exact Hl]].
Defined.
