(* ===== verification/Document.v ===== *)
(** Generated documents: the service that renders, uploads and records a PDF
    ([document/document.go], [document/service.go]), its table
    ([document/postgres/repository.go] over [document/migrations]), the HTTP adapter's
    verdicts on a conversion ([document/gotenberg/gotenberg.go]), and the effect handler
    and guard that tie documents to a case ([document/docflow/docflow.go]).

    The template engine (html/template), the renderer, SHA-256, the random source, the
    clock and the failures of the database and of the object store are arguments: one
    [GenEnv] is what one call finds.  Object storage holds bytes by key; a failed upload
    or delete changes nothing.

    What document generation promises, for any interleaving of calls and any failures of
    the renderer, the object store and the database: one document per source key, and
    every recorded document's bytes in the store with the digest recorded. *)

From stdpp Require Import base gmap list sorting strings.
From Stdlib Require Import ZArith Lia Ascii.
From S2P Require Import Prelude GoStrings Errors Model Repo Ports Idempotency Action ActionFacts.

Open Scope string_scope.
Open Scope list_scope.
Open Scope Z_scope.

Definition ContentType : string := "application/pdf".
Definition DefaultKeyPrefix : string := "documents".
Definition verificationKeyBytes : nat := 32.

(** ** Errors *)

Definition sentinel_error (name : string) : herr := HErr "*errors.errorString" RiverNone name WrapNone.

Definition ErrDocNotFound : string := "document.ErrNotFound".
Definition ErrInvalidInput : string := "document.ErrInvalidInput".
Definition ErrTemplate : string := "document.ErrTemplate".
Definition ErrEmptyPDF : string := "document.ErrEmptyPDF".
Definition ErrRenderRejected : string := "document.ErrRenderRejected".

(** ** Data *)

Record Template := mkTemplate { tm_Name : string; tm_Version : Z; tm_Body : string }.

Record Document := mkDocument {
  d_ID : uuid; d_Domain : string; d_ExternalID : string; d_CaseID : option uuid;
  d_TemplateName : string; d_TemplateVersion : Z; d_SHA256 : string; d_StorageKey : string;
  d_VerificationKey : string; d_Size : Z; d_SourceKey : string; d_CreatedAt : Z }.

#[export] Instance Document_eq_dec : EqDecision Document.
Proof. solve_decision. Defined.

(** [GenerateInput], over a type of template data. *)
Record GenerateInput (Data : Type) := mkGenerateInput {
  gi_Domain : string; gi_ExternalID : string; gi_CaseID : option uuid; gi_Template : Template;
  gi_Data : Data; gi_SourceKey : string }.
Arguments mkGenerateInput {Data}.
Arguments gi_Domain {Data}.
Arguments gi_ExternalID {Data}.
Arguments gi_CaseID {Data}.
Arguments gi_Template {Data}.
Arguments gi_Data {Data}.
Arguments gi_SourceKey {Data}.

(** ** The table *)

Abbreviation Rows := (list Document).

(** The columns with a unique index; NULL source keys never clash. *)
Definition clashes (d d' : Document) : bool :=
  bool_decide (d_ID d = d_ID d') || bool_decide (d_StorageKey d = d_StorageKey d')
  || bool_decide (d_VerificationKey d = d_VerificationKey d')
  || (negb (bool_decide (d_SourceKey d = "")) && bool_decide (d_SourceKey d = d_SourceKey d')).

Definition unique_violation : herr := HErr "*pgconn.PgError" RiverNone "" WrapNone.

(** [Repository.Insert]; [fails] is a failure of the database itself. *)
Definition doc_Insert (fails : option herr) (d : Document) (rows : Rows) : Rows * option herr :=
  match fails with
  | Some e => (rows, Some (wrapped e))
  | None => if existsb (clashes d) rows then (rows, Some (wrapped unique_violation)) else (rows ++ [d], None)
  end.

Definition not_found : herr := wrapped (sentinel_error ErrDocNotFound).

(** A query for one row. *)
Definition doc_get (p : Document -> bool) (rows : Rows) : herr + Document :=
  match List.find p rows with Some d => inr d | None => inl not_found end.

Definition doc_GetByID (id : uuid) (rows : Rows) : herr + Document :=
  doc_get (fun d => bool_decide (d_ID d = id)) rows.
Definition doc_GetByVerificationKey (key : string) (rows : Rows) : herr + Document :=
  doc_get (fun d => bool_decide (d_VerificationKey d = key)) rows.
(** An empty key matches no row: it is stored as NULL. *)
Definition doc_GetBySourceKey (key : string) (rows : Rows) : herr + Document :=
  doc_get (fun d => negb (bool_decide (d_SourceKey d = "")) && bool_decide (d_SourceKey d = key)) rows.

(** [ORDER BY created_at ASC, id ASC]. *)
Definition doc_le (a b : Document) : Prop :=
  d_CreatedAt a < d_CreatedAt b \/ (d_CreatedAt a = d_CreatedAt b /\ (d_ID a <= d_ID b)%N).
#[export] Instance doc_le_dec : RelDecision doc_le.
Proof. intros a b. unfold doc_le. apply _. Defined.

Definition doc_ListByCase (caseID : uuid) (rows : Rows) : list Document :=
  merge_sort doc_le (List.filter (fun d => bool_decide (d_CaseID d = Some caseID)) rows).
Definition doc_ExistsForCase (caseID : uuid) (templateName : string) (rows : Rows) : bool :=
  existsb (fun d => bool_decide (d_CaseID d = Some caseID) && bool_decide (d_TemplateName d = templateName)) rows.

(** ** Keys *)

Definition upper_hex (n : N) : ascii := ascii_of_N (if (n <? 10)%N then 48 + n else 55 + n)%N.
Definition is_alnum (c : ascii) : bool :=
  let n := nat_of_ascii c in
  ((48 <=? n)%nat && (n <=? 57)%nat) || ((65 <=? n)%nat && (n <=? 90)%nat) || ((97 <=? n)%nat && (n <=? 122)%nat).

(** [url.PathEscape]. *)
Definition path_plain (c : ascii) : bool :=
  is_alnum c || existsb (Ascii.eqb c) ["-"; "_"; "."; "~"; "$"; "&"; "+"; ":"; "="; "@"]%char.
Definition PathEscape (s : string) : string :=
  String.string_of_list_ascii
    (concat ((fun c => if path_plain c then [c]
                       else ["%"%char; upper_hex (N.shiftr (N_of_ascii c) 4); upper_hex (N.land (N_of_ascii c) 15)])
             <$> String.list_ascii_of_string s)).

(** [storageKey]. *)
Definition storageKey (prefix : string) (domain externalID : string) (caseID : option uuid) (id : uuid) : string :=
  let owner := match caseID with Some c => uuid_String c | None => externalID end in
  (prefix ++ "/" ++ PathEscape domain ++ "/" ++ PathEscape owner ++ "/" ++ uuid_String id ++ ".pdf")%string.

(** [base64.RawURLEncoding.EncodeToString]. *)
Definition b64_char (n : N) : ascii :=
  ascii_of_N (if (n <? 26)%N then 65 + n else if (n <? 52)%N then 71 + n else if (n <? 62)%N then n - 4
              else if (n =? 62)%N then 45 else 95)%N.
Fixpoint b64_bytes (l : list N) : list ascii :=
  match l with
  | a :: b :: c :: l =>
      b64_char (N.shiftr a 2) :: b64_char (N.lor (N.shiftl (N.land a 3) 4) (N.shiftr b 4)) ::
      b64_char (N.lor (N.shiftl (N.land b 15) 2) (N.shiftr c 6)) :: b64_char (N.land c 63) :: b64_bytes l
  | [a; b] =>
      [b64_char (N.shiftr a 2); b64_char (N.lor (N.shiftl (N.land a 3) 4) (N.shiftr b 4));
       b64_char (N.shiftl (N.land b 15) 2)]
  | [a] => [b64_char (N.shiftr a 2); b64_char (N.shiftl (N.land a 3) 4)]
  | [] => []
  end.

(** [newVerificationKey], from what [rand.Read] gave. *)
Definition newVerificationKey (random : option (list N)) : herr + string :=
  match random with
  | None => inl (wrapped (HErr "*errors.errorString" RiverNone "" WrapNone))
  | Some b => inr (String.string_of_list_ascii (b64_bytes (take verificationKeyBytes b)))
  end.

(** ** The service *)

(** The table and the bucket: a content type and bytes under each key. *)
Record DocWorld := mkDocWorld { dw_rows : Rows; dw_objects : gmap string (string * list N) }.

Section Service.
Context {Data : Type} (sha256 : list N -> list N) (html : string -> Data -> herr + list N).

(** What one call of [Generate] finds. *)
Record GenEnv := mkGenEnv {
  ge_lookup_error : option herr;
  ge_render : list N -> herr + list N;
  ge_random : option (list N);
  ge_id : uuid;
  ge_now : Z;
  ge_upload_error : option herr;
  ge_insert_error : option herr;
  ge_delete_error : option herr }.

(** [GenerateInput.validate]. *)
Definition gi_validate (i : GenerateInput Data) : option herr :=
  if bool_decide (gi_Domain i = "") || bool_decide (gi_ExternalID i = "")
  then Some (wrapped (sentinel_error ErrInvalidInput))
  else if existsb (fun v => bool_decide (v = ".") || bool_decide (v = "..")) [gi_Domain i; gi_ExternalID i]
  then Some (wrapped (sentinel_error ErrInvalidInput))
  else None.

(** [Template.Execute]. *)
Definition Template_Execute (t : Template) (data : Data) : herr + list N :=
  if bool_decide (tm_Name t = "") || (tm_Version t <=? 0) then inl (wrapped (sentinel_error ErrInvalidInput))
  else match html (tm_Body t) data with
       | inl e => inl (HErr "*fmt.wrapErrors" RiverNone "" (WrapMany [sentinel_error ErrTemplate; e]))
       | inr h => inr h
       end.

(** [s.now().UTC().Truncate(time.Microsecond)], in nanoseconds. *)
Definition truncate_us (t : Z) : Z := t - Z.modulo t 1000.

Definition new_document (prefix : string) (env : GenEnv) (i : GenerateInput Data) (pdf : list N) (vkey : string)
  : Document :=
  mkDocument (ge_id env) (gi_Domain i) (gi_ExternalID i) (gi_CaseID i) (tm_Name (gi_Template i))
    (tm_Version (gi_Template i)) (hex_EncodeToString (sha256 pdf))
    (storageKey prefix (gi_Domain i) (gi_ExternalID i) (gi_CaseID i) (ge_id env))
    vkey (Z.of_nat (length pdf)) (gi_SourceKey i) (truncate_us (ge_now env)).

(** How [Generate] stands once nothing but the insert is left. *)
Inductive started := Failed (e : herr) | Existing (d : Document) | Uploaded (d : Document).

(** [Generate] up to its upload. *)
Definition Generate_start (prefix : string) (env : GenEnv) (i : GenerateInput Data) (w : DocWorld)
  : DocWorld * started :=
  match gi_validate i with
  | Some e => (w, Failed e)
  | None =>
      let render :=
        match Template_Execute (gi_Template i) (gi_Data i) with
        | inl e => (w, Failed e)
        | inr h =>
            match ge_render env h with
            | inl e => (w, Failed (wrapped e))
            | inr [] => (w, Failed (sentinel_error ErrEmptyPDF))
            | inr pdf =>
                match newVerificationKey (ge_random env) with
                | inl e => (w, Failed e)
                | inr vkey =>
                    let doc := new_document prefix env i pdf vkey in
                    match ge_upload_error env with
                    | Some e => (w, Failed (wrapped e))
                    | None => (mkDocWorld (dw_rows w) (<[d_StorageKey doc := (ContentType, pdf)]> (dw_objects w)),
                               Uploaded doc)
                    end
                end
            end
        end in
      if bool_decide (gi_SourceKey i = "") then render
      else match ge_lookup_error env with
           | Some e => (w, Failed (wrapped e))
           | None =>
               match doc_GetBySourceKey (gi_SourceKey i) (dw_rows w) with
               | inr d => (w, Existing d)
               | inl e => if is_sentinel ErrDocNotFound e then render else (w, Failed (wrapped e))
               end
           end
  end.

(** [Generate] from its insert on: a failed insert tries to delete the object. *)
Definition Generate_finish (env : GenEnv) (doc : Document) (w : DocWorld) : DocWorld * (herr + Document) :=
  match doc_Insert (ge_insert_error env) doc (dw_rows w) with
  | (rows, None) => (mkDocWorld rows (dw_objects w), inr doc)
  | (rows, Some e) =>
      (mkDocWorld rows (match ge_delete_error env with
                        | Some _ => dw_objects w
                        | None => delete (d_StorageKey doc) (dw_objects w)
                        end), inl (wrapped e))
  end.

(** [Service.Generate]. *)
Definition Generate (prefix : string) (env : GenEnv) (i : GenerateInput Data) (w : DocWorld)
  : DocWorld * (herr + Document) :=
  match Generate_start prefix env i w with
  | (w, Failed e) => (w, inl e)
  | (w, Existing d) => (w, inr d)
  | (w, Uploaded doc) => Generate_finish env doc w
  end.

(** [FindByVerificationKey]: an empty key is not looked up. *)
Definition FindByVerificationKey (key : string) (w : DocWorld) : herr + Document :=
  if bool_decide (key = "") then inl not_found else doc_GetByVerificationKey key (dw_rows w).

(** [NewService], as far as the prefix. *)
Definition service_prefix (KeyPrefix : string) : string :=
  if bool_decide (KeyPrefix = "") then DefaultKeyPrefix else KeyPrefix.

(** ** Documents of a case *)

(** [docflow.Exists]: the guard. *)
Definition doc_Exists (templateName : string) : GuardFunc DocWorld :=
  fun w c => inr (doc_ExistsForCase (c_ID c) templateName (dw_rows w)).

(** [permanent]. *)
Definition permanent (e : herr) : bool :=
  existsb (fun s => is_sentinel s e) [ErrInvalidInput; ErrTemplate; ErrRenderRejected; ErrEmptyPDF].

(** What the run fills in. *)
Definition fill_input (r : EffectRun) (i : GenerateInput Data) : GenerateInput Data :=
  mkGenerateInput
    (if bool_decide (gi_Domain i = "") then rn_Domain r else gi_Domain i)
    (if bool_decide (gi_ExternalID i = "") then rn_ExternalID r else gi_ExternalID i)
    (match gi_CaseID i with Some c => Some c | None => Some (rn_CaseID r) end)
    (gi_Template i) (gi_Data i)
    (if bool_decide (gi_SourceKey i = "") then IdempotencyKey r else gi_SourceKey i).

(** [docflow.Generate]: the handler; [env] is what the call finds. *)
Definition doc_Handler {J : Type} (prefix : string) (env : GenEnv) (build : EffectRun -> herr + GenerateInput Data)
    (r : EffectRun) (s : J * DocWorld) : (J * DocWorld) * (hres * option EffectResult) :=
  match build r with
  | inl e => (s, (Returned (Some (wrapped e)), None))
  | inr i =>
      match Generate prefix env (fill_input r i) (snd s) with
      | (w, inl e) => ((fst s, w), (Returned (Some (if permanent e then JobCancel e else e)), None))
      | (w, inr d) => ((fst s, w), (Returned None, Some (mkEffectResult (uuid_String (d_ID d)) (d_SHA256 d))))
      end
  end.

End Service.

(** ** The verdict of Gotenberg *)

(** [permanentStatus]. *)
Definition permanentStatus (code : Z) : bool := (code =? 400) || (code =? 409) || (code =? 422).

(** [Renderer.Render] on a response that arrived: its status and body. *)
Definition gotenberg_verdict (maxBytes : Z) (code : Z) (body : list N) : herr + list N :=
  let unexpected := wrapped (sentinel_error "gotenberg.ErrUnexpectedStatus") in
  let too_large := wrapped (sentinel_error "gotenberg.ErrResponseTooLarge") in
  let rejected e := HErr "gotenberg.rejected" RiverNone "" (WrapMany [e; sentinel_error ErrRenderRejected]) in
  if (code <? 200) || (299 <? code) then
    if permanentStatus code then inl (rejected unexpected) else inl unexpected
  else
    let pdf := take (Z.to_nat (maxBytes + 1)) body in
    if maxBytes <? Z.of_nat (length pdf) then inl (rejected too_large) else inr pdf.

(** ** Storage keys *)

Lemma pdf_name_no_slash u : has_char "/"%char (uuid_String u ++ ".pdf")%string = false.
Proof. rewrite has_char_app, uuid_String_no_slash. done. Qed.

Lemma uuid_String_no_dot u : has_char "."%char (uuid_String u) = false.
Proof. unfold uuid_String. rewrite has_char_list, !existsb_app, !uuid_group_no_char by done. done. Qed.

Lemma str_app_assoc (a b c : string) : (a ++ (b ++ c))%string = ((a ++ b) ++ c)%string.
Proof.
  induction a as [| x a IH]; [done |].
  change (String x (a ++ (b ++ c))%string = String x ((a ++ b) ++ c)%string). by rewrite IH.
Qed.

(** A storage key tells its document. *)
Lemma storageKey_inj prefix dom1 ext1 case1 id1 dom2 ext2 case2 id2 :
  (id1 < 2 ^ 128)%N -> (id2 < 2 ^ 128)%N ->
  storageKey prefix dom1 ext1 case1 id1 = storageKey prefix dom2 ext2 case2 id2 -> id1 = id2.
Proof.
  intros H1 H2 Hk. unfold storageKey in Hk.
  assert (Hsplit : forall a b c : string, (prefix ++ "/" ++ a ++ "/" ++ b ++ "/" ++ c)%string
    = ((prefix ++ "/" ++ a ++ "/" ++ b) ++ String "/" c)%string)
    by (intros a b c; by rewrite <- !str_app_assoc).
  rewrite !Hsplit in Hk. apply sep_join_inj_suffix in Hk as [_ Hk]; try apply pdf_name_no_slash.
  apply (sep_join_inj_prefix "."%char (uuid_String id1) (uuid_String id2) "pdf" "pdf") in Hk as [Hk _];
    try apply uuid_String_no_dot. by apply uuid_String_inj.
Qed.

(** ** Calls in flight *)

Section Interleaving.
Context {Data : Type} (sha256 : list N -> list N) (html : string -> Data -> herr + list N) (prefix : string).
Implicit Types (w : DocWorld) (d : Document) (env : GenEnv).

(** Calls of [Generate] that run concurrently meet at the table and the bucket: one runs
    up to its upload, others do the same or finish, then it finishes. *)
Record DocSystem := mkDocSystem { sy_world : DocWorld; sy_flight : list Document }.

Inductive doc_step :=
| DStart (env : GenEnv) (i : GenerateInput Data)
| DFinish (env : GenEnv) (n : nat).

Definition run_doc_step (st : DocSystem) (s : doc_step) : DocSystem :=
  match s with
  | DStart env i =>
      match Generate_start sha256 html prefix env i (sy_world st) with
      | (w, Uploaded d) => mkDocSystem w (sy_flight st ++ [d])
      | (w, _) => mkDocSystem w (sy_flight st)
      end
  | DFinish env n =>
      match sy_flight st !! n with
      | None => st
      | Some d => mkDocSystem (Generate_finish env d (sy_world st)).1 (delete n (sy_flight st))
      end
  end.

Definition run_doc_steps (ss : list doc_step) (st : DocSystem) : DocSystem := foldl run_doc_step st ss.

(** The identifiers the calls draw. *)
Definition drawn (ss : list doc_step) : list uuid :=
  omap (fun s => match s with DStart env _ => Some (ge_id env) | DFinish _ _ => None end) ss.

(** A document whose bytes are stored as recorded. *)
Definition backed (w : DocWorld) (d : Document) : Prop :=
  exists pdf, dw_objects w !! d_StorageKey d = Some (ContentType, pdf) /\ pdf <> [] /\
    d_SHA256 d = hex_EncodeToString (sha256 pdf) /\ d_Size d = Z.of_nat (length pdf) /\
    d_StorageKey d = storageKey prefix (d_Domain d) (d_ExternalID d) (d_CaseID d) (d_ID d) /\ (d_ID d < 2 ^ 128)%N.

Definition sources (rows : Rows) : list string := List.filter (fun k => negb (bool_decide (k = ""))) (d_SourceKey <$> rows).

(** Recorded documents and those in flight are backed and told apart by their ids; no two
    recorded ones share a source key. *)
Definition doc_inv (st : DocSystem) : Prop :=
  NoDup (d_ID <$> (dw_rows (sy_world st) ++ sy_flight st)) /\ NoDup (sources (dw_rows (sy_world st))) /\
  Forall (backed (sy_world st)) (dw_rows (sy_world st) ++ sy_flight st).

Lemma backed_key_ne w w' d d' : backed w d -> backed w' d' -> d_ID d <> d_ID d' -> d_StorageKey d <> d_StorageKey d'.
Proof.
  intros (? & _ & _ & _ & _ & Hk & Hb) (? & _ & _ & _ & _ & Hk' & Hb') Hne Heq.
  apply Hne. rewrite Hk, Hk' in Heq. by eapply storageKey_inj.
Qed.

(** Other objects do not matter. *)
Lemma backed_other w w' d :
  dw_objects w' !! d_StorageKey d = dw_objects w !! d_StorageKey d -> backed w d -> backed w' d.
Proof. intros Ho (pdf & H1 & H2). exists pdf. by rewrite Ho. Qed.

(** What the start of a call leaves. *)
Lemma Generate_start_spec env (i : GenerateInput Data) w w' r :
  (ge_id env < 2 ^ 128)%N -> Generate_start sha256 html prefix env i w = (w', r) ->
  match r with
  | Uploaded d => dw_rows w' = dw_rows w /\ d_ID d = ge_id env /\ d_SourceKey d = gi_SourceKey i /\ backed w' d /\
      forall k, k <> d_StorageKey d -> dw_objects w' !! k = dw_objects w !! k
  | Existing d => w' = w /\ d ∈ dw_rows w /\ d_SourceKey d = gi_SourceKey i /\ gi_SourceKey i <> ""
  | Failed _ => w' = w
  end.
Proof.
  intros Hid. unfold Generate_start. destruct (gi_validate i); [by intros [= <- <-] |].
  set (render := match Template_Execute html _ _ with inl _ => _ | inr _ => _ end).
  assert (Hr : render = (w', r) -> match r with
    | Uploaded d => dw_rows w' = dw_rows w /\ d_ID d = ge_id env /\ d_SourceKey d = gi_SourceKey i /\ backed w' d /\
        forall k, k <> d_StorageKey d -> dw_objects w' !! k = dw_objects w !! k
    | Existing d => False
    | Failed _ => w' = w
    end).
  { unfold render. destruct (Template_Execute html _ _) as [e | h]; [by intros [= <- <-] |].
    destruct (ge_render env h) as [e | [| b pdf]]; [by intros [= <- <-] | by intros [= <- <-] |].
    destruct (newVerificationKey _) as [e | vkey]; [by intros [= <- <-] |].
    destruct (ge_upload_error env); [by intros [= <- <-] |]. intros [= <- <-]. simpl.
    do 3 (split; [done |]). split.
    - exists (b :: pdf). simpl. rewrite lookup_insert_eq. by repeat split.
    - intros k Hk. by rewrite lookup_insert_ne. }
  case_bool_decide as Hs; [intros H; apply Hr in H; by destruct r |].
  destruct (ge_lookup_error env); [by intros [= <- <-] |].
  unfold doc_GetBySourceKey, doc_get. destruct (List.find _ (dw_rows w)) as [d |] eqn:Hf.
  - intros [= <- <-]. apply List.find_some in Hf as [Hin Hp]. apply list_elem_of_In in Hin.
    apply andb_prop in Hp as [_ Hp%bool_decide_eq_true]. done.
  - simpl. intros H. apply Hr in H. by destruct r.
Qed.

Lemma Generate_start_doc env (i : GenerateInput Data) w w' d :
  Generate_start sha256 html prefix env i w = (w', Uploaded d) ->
  d_CaseID d = gi_CaseID i /\ d_TemplateName d = tm_Name (gi_Template i).
Proof.
  unfold Generate_start. destruct (gi_validate i); [done |].
  set (render := match Template_Execute html _ _ with inl _ => _ | inr _ => _ end).
  assert (Hr : render = (w', Uploaded d) -> d_CaseID d = gi_CaseID i /\ d_TemplateName d = tm_Name (gi_Template i)).
  { unfold render. destruct (Template_Execute html _ _) as [e | h]; [done |].
    destruct (ge_render env h) as [e | [| b pdf]]; [done | done |].
    destruct (newVerificationKey _) as [e | vkey]; [done |].
    destruct (ge_upload_error env); [done |]. by intros [= <- <-]. }
  case_bool_decide; [done |]. destruct (ge_lookup_error env); [done |].
  destruct (doc_GetBySourceKey _ _) as [e | d']; [| done]. by destruct (is_sentinel ErrDocNotFound e).
Qed.

Lemma existsb_false {A} (f : A -> bool) l x : existsb f l = false -> x ∈ l -> f x = false.
Proof.
  intros He Hin. destruct (f x) eqn:Hf; [| done]. assert (existsb f l = true); [| congruence].
  apply existsb_exists. exists x. split; [by apply list_elem_of_In | done].
Qed.

Lemma sources_snoc rows d :
  sources (rows ++ [d]) = sources rows ++ (if bool_decide (d_SourceKey d = "") then [] else [d_SourceKey d]).
Proof. unfold sources. rewrite fmap_app, List.filter_app. simpl. by case_bool_decide. Qed.

Lemma sources_elem rows k : k ∈ sources rows <-> k <> "" /\ exists d, d ∈ rows /\ d_SourceKey d = k.
Proof.
  unfold sources. rewrite list_elem_of_In, List.filter_In, <- list_elem_of_In, list_elem_of_fmap.
  split.
  - intros [(d & -> & Hd) Hb]. split; [by case_bool_decide | by exists d].
  - intros (Hk & d & Hd & <-). split; [by exists d | by rewrite bool_decide_eq_false_2].
Qed.

Lemma flight_split (rows flight : list Document) n d :
  flight !! n = Some d -> rows ++ flight ≡ₚ d :: rows ++ delete n flight.
Proof. intros Hn. rewrite (delete_Permutation flight n d Hn) at 1. by rewrite Permutation_middle. Qed.

(** The end of a call: its document is recorded, or its object is removed or orphaned. *)
Lemma finish_keeps env n d st :
  doc_inv st -> sy_flight st !! n = Some d ->
  doc_inv (mkDocSystem (Generate_finish env d (sy_world st)).1 (delete n (sy_flight st))).
Proof.
  destruct st as [[rows objs] flight]. unfold doc_inv. simpl. intros (Hid & Hsrc & Hb) Hn.
  pose proof (flight_split rows flight n d Hn) as Hp. rewrite Hp in Hid, Hb.
  cbn [fmap list_fmap] in Hid. inversion Hid as [| ? ? Hnew Hid']; subst. apply Forall_cons in Hb as [Hbd Hb].
  unfold Generate_finish, doc_Insert. simpl.
  assert (Hfail : forall e, NoDup (d_ID <$> rows ++ delete n flight) /\ NoDup (sources rows) /\
    Forall (backed (mkDocWorld rows (match ge_delete_error env with Some _ => objs | None => delete (d_StorageKey d) objs end)))
      (rows ++ delete n flight) /\ e = e :> herr).
  { intros e. split; [done |]. split; [done |]. split; [| done].
    apply Forall_lookup. intros j d' Hj. pose proof (Forall_lookup_1 _ _ _ _ Hb Hj) as Hb'.
    eapply backed_other; [| exact Hb']. simpl. destruct (ge_delete_error env); [done |].
    rewrite lookup_delete_ne; [done |]. eapply backed_key_ne; [exact Hbd | exact Hb' |].
    intros Heq. apply Hnew. rewrite Heq. apply list_elem_of_fmap_2. by eapply list_elem_of_lookup_2. }
  destruct (ge_insert_error env) as [e |]; [destruct (Hfail e) as (? & ? & ? & _); by simpl |].
  destruct (existsb (clashes d) rows) eqn:Hcl; [destruct (Hfail unique_violation) as (? & ? & ? & _); by simpl |].
  simpl. split; [| split].
  - rewrite <- app_assoc. simpl. rewrite <- Permutation_middle. by constructor.
  - rewrite sources_snoc. case_bool_decide as Hk; [by rewrite app_nil_r |].
    apply NoDup_app. split; [done |]. split; [| apply NoDup_singleton].
    intros k (_ & d' & Hd' & <-)%sources_elem Hin%list_elem_of_singleton.
    apply (existsb_false _ _ _ Hcl) in Hd'. unfold clashes in Hd'.
    apply orb_false_iff in Hd' as [_ Hd']. rewrite (bool_decide_eq_false_2 _ Hk), Hin, bool_decide_eq_true_2 in Hd' by done.
    done.
  - assert (Hall : Forall (backed (mkDocWorld rows objs)) ((rows ++ [d]) ++ delete n flight)).
    { rewrite <- app_assoc. apply Forall_app in Hb as [? ?]. apply Forall_app. split; [done | by constructor]. }
    eapply Forall_impl; [exact Hall |]. intros x. by apply backed_other.
Qed.

(** The start of a call with a new identifier. *)
Lemma start_keeps env (i : GenerateInput Data) st :
  doc_inv st -> (ge_id env < 2 ^ 128)%N -> ge_id env ∉ d_ID <$> (dw_rows (sy_world st) ++ sy_flight st) ->
  doc_inv (run_doc_step st (DStart env i)).
Proof.
  destruct st as [w flight]. unfold doc_inv. simpl. intros (Hid & Hsrc & Hb) Hlt Hfresh.
  destruct (Generate_start sha256 html prefix env i w) as [w' r] eqn:Hs.
  pose proof (Generate_start_spec _ _ _ _ _ Hlt Hs) as Hspec.
  destruct r as [e | d | d]; [by subst w' | by destruct Hspec as (-> & _) |].
  destruct Hspec as (Hrows & Hdid & _ & Hbd & Hobj). simpl. rewrite Hrows, app_assoc. split; [| split; [done |]].
  - rewrite fmap_app. apply NoDup_app. split; [done |]. split; [| apply NoDup_singleton].
    intros u Hu ->%list_elem_of_singleton. by rewrite Hdid in Hu.
  - apply Forall_app. split; [| by constructor]. apply Forall_lookup. intros j d' Hj.
    pose proof (Forall_lookup_1 _ _ _ _ Hb Hj) as Hb'. eapply backed_other; [| exact Hb']. apply Hobj.
    intros Heq. eapply backed_key_ne; [exact Hb' | exact Hbd | | exact Heq]. intros Hdd. apply Hfresh.
    rewrite <- Hdid, <- Hdd. apply list_elem_of_fmap_2. by eapply list_elem_of_lookup_2.
Qed.

(** Identifiers in use only come from those drawn. *)
Lemma step_ids st s u :
  match s with DStart env _ => (ge_id env < 2 ^ 128)%N | DFinish _ _ => True end ->
  u ∈ d_ID <$> (dw_rows (sy_world (run_doc_step st s)) ++ sy_flight (run_doc_step st s)) ->
  u ∈ drawn [s] \/ u ∈ d_ID <$> (dw_rows (sy_world st) ++ sy_flight st).
Proof.
  destruct st as [w flight]. destruct s as [env i | env n]; simpl; intros Hlt.
  - destruct (Generate_start sha256 html prefix env i w) as [w' r] eqn:Hs.
    pose proof (Generate_start_spec _ _ _ _ _ Hlt Hs) as Hspec.
    destruct r as [e | d | d]; simpl; [by subst w'; right | by destruct Hspec as (-> & _); right |].
    destruct Hspec as (-> & Hdid & _). rewrite app_assoc, fmap_app, elem_of_app. cbn. rewrite list_elem_of_singleton.
    intros [? | ->]; [by right |]. rewrite Hdid. left. by left.
  - destruct (flight !! n) as [d |] eqn:Hn; [| by right]. simpl. intros Hu. right.
    rewrite (flight_split (dw_rows w) flight n d Hn). cbn. rewrite elem_of_cons.
    unfold Generate_finish, doc_Insert in Hu.
    destruct (ge_insert_error env); simpl in Hu; [by right |].
    destruct (existsb (clashes d) (dw_rows w)); simpl in Hu; [by right |].
    rewrite <- app_assoc, fmap_app, elem_of_app in Hu. cbn in Hu. rewrite elem_of_cons in Hu.
    rewrite fmap_app, elem_of_app. naive_solver.
Qed.

Lemma run_doc_steps_inv ss st :
  doc_inv st -> Forall (fun u => (u < 2 ^ 128)%N) (drawn ss) ->
  NoDup (drawn ss ++ (d_ID <$> (dw_rows (sy_world st) ++ sy_flight st))) -> doc_inv (run_doc_steps ss st).
Proof.
  revert st. induction ss as [| s ss IH]; intros st Hi Hlt Hnd; [done |]. simpl.
  assert (Hs : drawn (s :: ss) = drawn [s] ++ drawn ss) by (unfold drawn; by rewrite <- omap_app).
  rewrite Hs in Hlt, Hnd. apply Forall_app in Hlt as [Hlt1 Hlt2]. rewrite <- app_assoc in Hnd.
  apply NoDup_app in Hnd as (Hn1 & Hn2 & Hn3). pose proof Hn3 as Hn3'. apply NoDup_app in Hn3' as (Hn4 & Hn5 & Hn6).
  assert (Hslt : match s with DStart env _ => (ge_id env < 2 ^ 128)%N | DFinish _ _ => True end)
    by (destruct s; [by apply Forall_cons in Hlt1 as [? _] | done]).
  assert (Hi' : doc_inv (run_doc_step st s)).
  { destruct s as [env i | env n].
    - apply start_keeps; [done | done |]. intros Hin. apply (Hn2 (ge_id env)); [by left |]. set_solver.
    - simpl. destruct (sy_flight st !! n) as [d |] eqn:Hf; [by apply finish_keeps | done]. }
  apply IH; [done | done |]. apply NoDup_app. split; [done |]. split; [| by destruct Hi'].
  intros u Hu Hin. apply step_ids in Hin as [Hin | Hin]; [| by eapply Hn5 | done].
  apply (Hn2 u Hin). apply elem_of_app. by left.
Qed.

(** Rows are only ever added. *)
Lemma run_doc_steps_rows ss st :
  Forall (fun u => (u < 2 ^ 128)%N) (drawn ss) ->
  exists more, dw_rows (sy_world (run_doc_steps ss st)) = dw_rows (sy_world st) ++ more.
Proof.
  revert st. induction ss as [| s ss IH]; intros st Hlt; [exists []; by rewrite app_nil_r |]. simpl.
  assert (Hs : drawn (s :: ss) = drawn [s] ++ drawn ss) by (unfold drawn; by rewrite <- omap_app).
  rewrite Hs in Hlt. apply Forall_app in Hlt as [Hlt1 Hlt2].
  destruct (IH (run_doc_step st s) Hlt2) as [more ->].
  assert (Hone : exists one, dw_rows (sy_world (run_doc_step st s)) = dw_rows (sy_world st) ++ one).
  { destruct s as [env i | env n]; simpl.
    - destruct (Generate_start sha256 html prefix env i (sy_world st)) as [w' r] eqn:Hst.
      apply Forall_cons in Hlt1 as [Hlt1 _]. pose proof (Generate_start_spec _ _ _ _ _ Hlt1 Hst) as Hspec.
      exists []. rewrite app_nil_r. destruct r as [e | d | d]; simpl; [by subst w' | by destruct Hspec as (-> & _) |].
      by destruct Hspec as (-> & _).
    - destruct (sy_flight st !! n) as [d |]; [| exists []; by rewrite app_nil_r]. simpl.
      unfold Generate_finish, doc_Insert. destruct (ge_insert_error env); [exists []; by rewrite app_nil_r |].
      destruct (existsb _ _); [exists []; by rewrite app_nil_r | by exists [d]]. }
  destruct Hone as [one ->]. exists (one ++ more). by rewrite app_assoc.
Qed.

(** The row a source key finds. *)
Lemma source_found rows d :
  NoDup (sources rows) -> d ∈ rows -> d_SourceKey d <> "" -> doc_GetBySourceKey (d_SourceKey d) rows = inr d.
Proof.
  intros Hnd Hin Hk. unfold doc_GetBySourceKey, doc_get. induction rows as [| x rows IH]; [by apply not_elem_of_nil in Hin |].
  simpl. destruct (decide (x = d)) as [-> | Hne]; [by rewrite (bool_decide_eq_false_2 _ Hk), bool_decide_eq_true_2 |].
  apply elem_of_cons in Hin as [-> | Hin]; [done |]. unfold sources in Hnd. simpl in Hnd.
  case_bool_decide as Hx; simpl in Hnd; simpl; [by apply IH |].
  fold (sources rows) in Hnd. inversion Hnd as [| ? ? Hni Hnd']; subst.
  rewrite bool_decide_eq_false_2; [by apply IH |]. intros Heq. apply Hni. apply sources_elem. split; [done |].
  by exists d.
Qed.


(** an attempt of a document effect either records a document or changes no row.  A
    successful attempt reports the identifier and the digest of a document recorded under
    the run's source key, found there or added as the newest row; when it was added, the
    guard that waits for a document of that template lets the case pass from then on.  A
    failed attempt leaves the rows as they were and cancels the job exactly when the
    failure is one a retry cannot fix. *)
Theorem document_attempt {J : Type} (env : GenEnv) (build : EffectRun -> herr + GenerateInput Data) r i (j j' : J)
    w w' answer result :
  (ge_id env < 2 ^ 128)%N -> build r = inr i -> gi_SourceKey i = "" ->
  doc_Handler sha256 html prefix env build r (j, w) = ((j', w'), (answer, result)) ->
  j' = j /\
  match answer with
  | Returned None =>
      exists d, d ∈ dw_rows w' /\ d_SourceKey d = IdempotencyKey r /\
        result = Some (mkEffectResult (uuid_String (d_ID d)) (d_SHA256 d)) /\
        (w' = w \/
         (dw_rows w' = dw_rows w ++ [d] /\ backed w' d /\
          forall c, gi_CaseID i = None -> c_ID c = rn_CaseID r ->
            doc_Exists (tm_Name (gi_Template i)) w' c = inr true))
  | Returned (Some e) =>
      dw_rows w' = dw_rows w /\ result = None /\
      ((exists e0, e = JobCancel e0 /\ permanent e0 = true) \/ permanent e = false)
  | Panicked => False
  end.
Proof.
  intros Hlt Hb Hsk. unfold doc_Handler. rewrite Hb. unfold Generate. simpl.
  destruct (Generate_start sha256 html prefix env (fill_input r i) w) as [w1 st] eqn:Hst.
  pose proof (Generate_start_spec _ _ _ _ _ Hlt Hst) as Hspec.
  assert (Hkey : gi_SourceKey (fill_input r i) = IdempotencyKey r) by (simpl; by rewrite Hsk).
  assert (Hfail : forall e w2, dw_rows w2 = dw_rows w ->
    (j, w2, (Returned (Some (if permanent e then JobCancel e else e)), @None EffectResult)) = (j', w', (answer, result)) ->
    j' = j /\ match answer with
      | Returned (Some e') => dw_rows w' = dw_rows w /\ result = None /\
          ((exists e0, e' = JobCancel e0 /\ permanent e0 = true) \/ permanent e' = false)
      | _ => False end).
  { intros e w2 Hr [= <- <- <- <-]. split; [done |]. split; [done |]. split; [done |].
    destruct (permanent e) eqn:Hp; [left; by exists e | by right]. }
  destruct st as [e | d | d].
  - subst w1. intros H. apply Hfail in H as [-> H]; [| done]. by destruct answer as [[] |].
  - destruct Hspec as (-> & Hd & Hk & _). intros [= <- <- <- <-]. split; [done |]. exists d. rewrite Hk, Hkey. auto.
  - destruct Hspec as (Hrows & Hid & Hk & Hbd & _). unfold Generate_finish, doc_Insert. rewrite Hrows.
    destruct (ge_insert_error env) as [e |]; [intros H; apply Hfail in H as [-> H]; [| done]; by destruct answer as [[] |] |].
    destruct (existsb (clashes d) (dw_rows w)); [intros H; apply Hfail in H as [-> H]; [| done]; by destruct answer as [[] |] |].
    intros [= <- <- <- <-]. split; [done |]. exists d. simpl.
    split; [apply elem_of_app; right; by left |]. rewrite Hk, Hkey. split; [done |]. split; [done |]. right.
    split; [done |]. split; [by eapply backed_other; [| exact Hbd] |].
    intros c Hci Hc. unfold doc_Exists, doc_ExistsForCase. simpl. f_equal. rewrite existsb_app. apply orb_true_iff. right.
    destruct (Generate_start_doc _ _ _ _ _ Hst) as [Hdc Hdt]. simpl. rewrite Hdc, Hdt, Hc. simpl. rewrite Hci.
    by rewrite !bool_decide_eq_true_2.
Qed.

End Interleaving.

(** ** Two workers race for one effect *)

Definition demo_sha (l : list N) : list N := [N.of_nat (length l)].
Definition demo_html (body : string) (data : string) : herr + list N := inr (string_bytes body ++ string_bytes data).
Definition demo_env (id : uuid) : GenEnv :=
  mkGenEnv None (fun h => inr (37%N :: h)) (Some (replicate 32 id)) id 1234567 None None None.
Definition demo_run : EffectRun :=
  mkEffectRun "document.generate" 11 0 3 "permit" 1 "permits" "p-1" "" zero_Actor "" 1 0.
Definition demo_input : GenerateInput string :=
  mkGenerateInput "permits" "p-1" (Some 11%N) (mkTemplate "permit" 2 "<h1>") "ok" (IdempotencyKey demo_run).
Definition demo_race : list (@doc_step string) :=
  [DStart (demo_env 1) demo_input; DStart (demo_env 2) demo_input; DFinish (demo_env 2) 1; DFinish (demo_env 1) 0].


Definition demo_build (r : EffectRun) : herr + GenerateInput string :=
  inr (mkGenerateInput "" "" None (mkTemplate "permit" 2 "<h1>") "ok" "").

Lemma document_attempt_witness :
  exists w' d, doc_Handler demo_sha demo_html "documents" (demo_env 1) demo_build demo_run (tt, mkDocWorld [] ∅)
    = ((tt, w'), (Returned None, Some (mkEffectResult (uuid_String (d_ID d)) (d_SHA256 d)))) /\
    d_SourceKey d = IdempotencyKey demo_run /\
    forall c, c_ID c = 11%N -> doc_Exists "permit" w' c = inr true.
Proof.
  destruct (doc_Handler demo_sha demo_html "documents" (demo_env 1) demo_build demo_run (tt, mkDocWorld [] ∅))
    as [[j' w'] [answer result]] eqn:Hh.
  assert (Hans : snd (fst (doc_Handler demo_sha demo_html "documents" (demo_env 1) demo_build demo_run (tt, mkDocWorld [] ∅))) = w')
    by (rewrite Hh; reflexivity).
  destruct (document_attempt demo_sha demo_html "documents" (demo_env 1) demo_build demo_run
              (mkGenerateInput "" "" None (mkTemplate "permit" 2 "<h1>") "ok" "") tt j' (mkDocWorld [] ∅) w' answer result)
    as [Hj Hcase].
  - reflexivity.
  - reflexivity.
  - reflexivity.
  - exact Hh.
  - subst j'. assert (Hok : answer = Returned None) by (apply (f_equal (fun x => x.2.1)) in Hh; vm_compute in Hh; congruence).
    rewrite Hok in *. destruct Hcase as (d & Hin & Hk & Hres & Hnew).
    exists w', d. split; [rewrite Hres; reflexivity |]. split; [exact Hk |].
    destruct Hnew as [Hw | (_ & _ & Hg)]; [exfalso | intros c Hc; apply (Hg c); [reflexivity | exact Hc]].
    apply (f_equal (fun x => length (dw_rows x))) in Hans. rewrite Hw in Hans. vm_compute in Hans. discriminate Hans.
Defined.
