(* ===== verification/ProcessForm.v ===== *)
(** The process domain of the boilerplate: field types ([domain/process/field.go]),
    forms ([form.go]) and process specifications compiled to workflow definitions
    ([spec.go]), under [examples/boilerplate/internal].

    Rules are CEL expressions, evaluated by cel-go: whether an environment and a rule
    compile, and what a rule answers on the values of the declared variables, are
    arguments, and so is the address check of net/mail.  JSON text is the value it
    denotes. *)

From stdpp Require Import base gmap list strings.
From Stdlib Require Import ZArith Lia Ascii.
From S2P Require Import Prelude GoStrings Errors Model Definitions Validate IdempotencyHttp.

Open Scope string_scope.
Open Scope list_scope.
Open Scope Z_scope.

(** ** JSON values *)

(** [any] as encoding/json fills it; a number that is no integer keeps its text. *)
Inductive jval :=
| JvNull
| JvBool (b : bool)
| JvNum (n : Z)
| JvFrac (text : string)
| JvStr (s : string)
| JvArr (l : list jval)
| JvObj (fields : list (string * jval)).

(** The value a [JSONB] column gives back: the keys of an object by length and bytes, the
    last of equal keys, and PostgreSQL's reading of a number. *)
Definition key_before (a b : string) : bool :=
  bool_decide (String.length a < String.length b)%nat
  || bool_decide (String.length a = String.length b) && bool_decide (String.le a b).
Fixpoint obj_insert (k : string) (v : jval) (fields : list (string * jval)) : list (string * jval) :=
  match fields with
  | [] => [(k, v)]
  | (k', v') :: rest =>
      if bool_decide (k = k') then (k, v) :: rest
      else if key_before k k' then (k, v) :: fields
      else (k', v') :: obj_insert k v rest
  end.
Fixpoint jsonb (number : string -> jval) (v : jval) : jval :=
  match v with
  | JvFrac text => number text
  | JvArr l => JvArr (map (jsonb number) l)
  | JvObj fields =>
      JvObj (fold_left (fun acc kv => obj_insert kv.1 kv.2 acc) (map (fun kv => (kv.1, jsonb number kv.2)) fields) [])
  | _ => v
  end.

(** A value of a field's type decoded into a string: null leaves it as it was. *)
Definition dec_string (old : string) (v : jval) : option string :=
  match v with JvStr s => Some s | JvNull => Some old | _ => None end.
Definition dec_bool (old : bool) (v : jval) : option bool :=
  match v with JvBool b => Some b | JvNull => Some old | _ => None end.
Definition dec_int (old : Z) (v : jval) : option Z :=
  match v with
  | JvNum n => if (- 2 ^ 63 <=? n) && (n <? 2 ^ 63) then Some n else None
  | JvNull => Some old
  | _ => None
  end.

(** An object decoded field by field into a struct; [set] is [None] on an unknown key or
    a value of the wrong type.  null leaves the struct as it was.  The objects decoded
    here name a field at most once (on a repeated key encoding/json would merge). *)
Fixpoint dec_fields {A} (set : string -> jval -> A -> option A) (fields : list (string * jval)) (a : A) : option A :=
  match fields with
  | [] => Some a
  | (k, v) :: fields => a ← set k v a; dec_fields set fields a
  end.
Definition dec_struct {A} (set : string -> jval -> A -> option A) (v : jval) (a : A) : option A :=
  match v with
  | JvNull => Some a
  | JvObj fields => dec_fields set fields a
  | _ => None
  end.

(** ** Runes *)

Definition cont (c : ascii) : bool := (128 <=? nat_of_ascii c)%nat && (nat_of_ascii c <=? 191)%nat.
Definition in_range (lo hi : nat) (c : ascii) : bool := (lo <=? nat_of_ascii c)%nat && (nat_of_ascii c <=? hi)%nat.

(** The bytes the next rune takes; an invalid byte is a rune of its own. *)
Definition rune_width (l : list ascii) : nat :=
  match l with
  | a :: b :: c :: d :: _ =>
      if in_range 194 223 a && cont b then 2
      else if (in_range 224 224 a && in_range 160 191 b || in_range 237 237 a && in_range 128 159 b
               || (in_range 225 236 a || in_range 238 239 a) && cont b) && cont c then 3
      else if (in_range 240 240 a && in_range 144 191 b || in_range 244 244 a && in_range 128 143 b
               || in_range 241 243 a && cont b) && cont c && cont d then 4
      else 1
  | [a; b; c] =>
      if in_range 194 223 a && cont b then 2
      else if (in_range 224 224 a && in_range 160 191 b || in_range 237 237 a && in_range 128 159 b
               || (in_range 225 236 a || in_range 238 239 a) && cont b) && cont c then 3
      else 1
  | [a; b] => if in_range 194 223 a && cont b then 2 else 1
  | _ => 1
  end%nat.

(** [utf8.RuneCountInString]. *)
Fixpoint rune_count (fuel : nat) (l : list ascii) : Z :=
  match fuel, l with
  | S fuel, _ :: _ => 1 + rune_count fuel (drop (rune_width l) l)
  | _, _ => 0
  end.
Definition RuneCountInString (s : string) : Z :=
  let l := String.list_ascii_of_string s in rune_count (length l) l.

(** ** Field types *)

(** [FieldType]: its key, whether it accepts a configuration, and whether a value is
    valid under one. *)
Record FieldType := mkFieldType {
  ft_Key : string; ft_ValidateConfig : option jval -> bool; ft_Validate : jval -> option jval -> bool }.

(** [decodeConfig]: an absent configuration is an empty object. *)
Definition decodeConfig {A} (set : string -> jval -> A -> option A) (cfg : option jval) (a : A) : option A :=
  dec_struct set (default (JvObj []) cfg) a.

(** [validateLengthConfig]: the maximum. *)
Definition set_length (k : string) (v : jval) (n : Z) : option Z := if EqualFold k "maxLength" then dec_int n v else None.
Definition validateLengthConfig (cfg : option jval) : option Z :=
  n ← decodeConfig set_length cfg 0; if n <? 0 then None else Some n.

Definition validateLength (defaultMax : Z) (v : jval) (cfg : option jval) : bool :=
  match v with
  | JvStr s =>
      match validateLengthConfig cfg with
      | None => false
      | Some n => let limit := if n =? 0 then defaultMax else n in negb (limit <? RuneCountInString s)
      end
  | _ => false
  end.

Definition textField : FieldType :=
  mkFieldType "text" (fun cfg => bool_decide (is_Some (validateLengthConfig cfg))) (validateLength 200).
Definition textareaField : FieldType :=
  mkFieldType "textarea" (fun cfg => bool_decide (is_Some (validateLengthConfig cfg))) (validateLength 2000).

(** [parse_address] is what [mail.ParseAddress] reads as the address. *)
Definition emailField (parse_address : string -> option string) : FieldType :=
  mkFieldType "email"
    (fun cfg => bool_decide (is_Some (decodeConfig (fun _ _ (u : unit) => None) cfg tt)))
    (fun v _ => match v with JvStr s => bool_decide (parse_address s = Some s) | _ => false end).

Definition set_options (k : string) (v : jval) (l : list string) : option (list string) :=
  if EqualFold k "options" then
    match v with
    | JvNull => Some []
    | JvArr items => mapM (dec_string "") items
    | _ => None
    end
  else None.
Definition select_options (cfg : option jval) : option (list string) := decodeConfig set_options cfg [].

Definition selectField : FieldType :=
  mkFieldType "select"
    (fun cfg => match select_options cfg with
                | None => false
                | Some opts => negb (bool_decide (opts = [])) && negb (bool_decide ("" ∈ opts)) && bool_decide (NoDup opts)
                end)
    (fun v cfg => match v with
                  | JvStr s => match select_options cfg with None => false | Some opts => bool_decide (s ∈ opts) end
                  | _ => false
                  end).

Definition DefaultFieldTypes (parse_address : string -> option string) : list FieldType :=
  [textField; textareaField; emailField parse_address; selectField].

(** [NewFieldRegistry]: [None] for a key registered twice. *)
Fixpoint NewFieldRegistry_from (types : list FieldType) (r : gmap string FieldType) : option (gmap string FieldType) :=
  match types with
  | [] => Some r
  | t :: types => if bool_decide (is_Some (r !! ft_Key t)) then None else NewFieldRegistry_from types (<[ft_Key t := t]> r)
  end.
Definition NewFieldRegistry (types : list FieldType) : option (gmap string FieldType) := NewFieldRegistry_from types ∅.

(** ** Forms *)

Record FieldSpec := mkFieldSpec {
  fs_Key : string; fs_Type : string; fs_Label : string; fs_Required : bool; fs_Config : option jval;
  fs_VisibleWhen : string }.

(** [compiledField]; the program is its rule, compiled in the form's environment. *)
Record compiledField := mkCompiledField { cf_spec : FieldSpec; cf_typ : FieldType; cf_visible : option string }.

(** [Form]: its fields and the variables of the definition, all of type string. *)
Record Form := mkForm { f_fields : list compiledField; f_vars : list string }.

(** What [Validate] says of a field; the text of [MInvalid] is the field type's. *)
Inductive field_msg := MNotField | MRuleFailed | MRequired | MInvalid.

Record ProfileSpec := mkProfileSpec { ps_Position : string; ps_Unit : string }.
Record NodeSpec := mkNodeSpec {
  ns_ID : string; ns_Start : bool; ns_Terminal : bool; ns_Profile : option ProfileSpec; ns_Form : list FieldSpec }.
Record TransitionSpec := mkTransitionSpec { ts_From : string; ts_To : string; ts_Action : string }.
Record ProcessSpec := mkProcessSpec {
  sp_Name : string; sp_Nodes : list NodeSpec; sp_Transitions : list TransitionSpec }.

Record Process := mkProcess { p_Spec : ProcessSpec; p_Definition : WDefinition; p_Forms : gmap string Form }.

(** Why a specification does not compile: a message, or the violations of the
    definition. *)
Inductive compile_error := CMessage (node : string) | CInvalid (v : list violation).

Section Forms.
(** cel-go: an environment of string variables exists, a rule compiles in it to a
    boolean, and evaluates to true, to something else, or fails. *)
Context (env_ok : list string -> bool) (rule_ok : list string -> string -> bool)
  (eval : list string -> string -> gmap string jval -> option bool).
Context (reg : gmap string FieldType).

(** [ruleEnv]: the declared keys, in order. *)
Fixpoint rule_vars (fields : list FieldSpec) (seen : list string) : option (list string) :=
  match fields with
  | [] => Some seen
  | f :: fields =>
      match reg !! fs_Type f with
      | None => None
      | Some _ => if bool_decide (fs_Key f ∈ seen) then None else rule_vars fields (seen ++ [fs_Key f])
      end
  end.
Definition ruleEnv (allFields : list FieldSpec) : option (list string) :=
  vars ← rule_vars allFields []; if env_ok vars then Some vars else None.

(** The loop of [CompileForm]. *)
Fixpoint compile_fields (vars : list string) (fields : list FieldSpec) (seen : list string)
  : option (list compiledField) :=
  match fields with
  | [] => Some []
  | f :: fields =>
      if bool_decide (fs_Key f = "") then None
      else if bool_decide (fs_Key f ∈ seen) then None
      else
        typ ← reg !! fs_Type f;
        if negb (ft_ValidateConfig typ (fs_Config f)) then None
        else
          visible ← (if bool_decide (fs_VisibleWhen f = "") then Some None
                     else if rule_ok vars (fs_VisibleWhen f) then Some (Some (fs_VisibleWhen f)) else None);
          rest ← compile_fields vars fields (fs_Key f :: seen);
          Some (mkCompiledField f typ visible :: rest)
  end.

Definition CompileForm (allFields nodeFields : list FieldSpec) : option Form :=
  vars ← ruleEnv allFields;
  fields ← compile_fields vars nodeFields [];
  Some (mkForm fields vars).

(** The values the rules see: "" for a declared variable, the case's value, and the
    submitted string of a field of this form. *)
Definition form_vars (f : Form) (submitted caseData : gmap string jval) : gmap string jval :=
  let zero := list_to_map ((fun k => (k, JvStr "")) <$> f_vars f) : gmap string jval in
  let vars := filter (fun kv => kv.1 ∈ f_vars f) caseData ∪ zero in
  foldl (fun vars cf =>
           match submitted !! fs_Key (cf_spec cf) with
           | Some (JvStr s) => <[fs_Key (cf_spec cf) := JvStr s]> vars
           | _ => vars
           end) vars (f_fields f).

(** One field of [Form.Validate]: nothing, an error, or the accepted value. *)
Inductive field_verdict := VSkip | VErr (m : field_msg) | VAccept (v : jval).

Definition validate_field (fvars : list string) (vars submitted : gmap string jval) (cf : compiledField) : field_verdict :=
  let check :=
    match submitted !! fs_Key (cf_spec cf) with
    | None | Some JvNull | Some (JvStr "") => if fs_Required (cf_spec cf) then VErr MRequired else VSkip
    | Some v => if ft_Validate (cf_typ cf) v (fs_Config (cf_spec cf)) then VAccept v else VErr MInvalid
    end in
  match cf_visible cf with
  | None => check
  | Some rule => match eval fvars rule vars with
                 | None => VErr MRuleFailed
                 | Some true => check
                 | Some false => VSkip
                 end
  end.

(** [Form.Validate]: the errors, or the values kept. *)
Definition Form_Validate (f : Form) (submitted caseData : gmap string jval) : gmap string field_msg + gmap string jval :=
  let vars := form_vars f submitted caseData in
  let keys := (fun cf => fs_Key (cf_spec cf)) <$> f_fields f in
  let unknown := (fun _ => MNotField) <$> filter (fun kv => kv.1 ∉ keys) submitted in
  let '(errs, out) :=
    foldl (fun eo cf =>
             match validate_field (f_vars f) vars submitted cf with
             | VSkip => eo
             | VErr m => (<[fs_Key (cf_spec cf) := m]> eo.1, eo.2)
             | VAccept v => (eo.1, <[fs_Key (cf_spec cf) := v]> eo.2)
             end) (unknown, ∅) (f_fields f) in
  if bool_decide (errs = ∅) then inr out else inl errs.

(** [Process.ValidateNode]. *)
Definition ValidateNode (p : Process) (nodeID : string) (values caseData : gmap string jval)
  : gmap string field_msg + gmap string jval :=
  match p_Forms p !! nodeID with
  | None => if bool_decide (values = ∅) then inr ∅ else inl ((fun _ => MNotField) <$> values)
  | Some form => Form_Validate form values caseData
  end.

(** [ProfiledNodes]. *)
Definition ProfiledNodes (p : Process) : list string :=
  n_ID <$> List.filter (fun n => negb (el_IsZero (n_Eligible n))) (d_Nodes (p_Definition p)).

(** ** Processes *)

(** A node of the definition. *)
Definition compile_node (n : NodeSpec) : compile_error + Node :=
  if ns_Terminal n && negb (bool_decide (ns_Form n = [])) then inl (CMessage (ns_ID n))
  else
    let node e := mkNode (ns_ID n) (ns_Start n) (ns_Terminal n) e 0 "" NodeTask [] "" "" JoinNone "" in
    match ns_Profile n with
    | None => inr (node zero_Eligibility)
    | Some pr =>
        if ns_Start n then inl (CMessage (ns_ID n))
        else if bool_decide (ps_Position pr = "") || bool_decide (ps_Unit pr = "") then inl (CMessage (ns_ID n))
        else inr (node (ByPositionInUnit (ps_Position pr) (ps_Unit pr)))
    end.

Fixpoint compile_nodes (nodes : list NodeSpec) : compile_error + list Node :=
  match nodes with
  | [] => inr []
  | n :: nodes =>
      match compile_node n with
      | inl e => inl e
      | inr node => match compile_nodes nodes with inl e => inl e | inr rest => inr (node :: rest) end
      end
  end.

Definition compile_transition (t : TransitionSpec) : Transition :=
  mkTransition (ts_From t) (ts_To t) (ts_Action t) "" CommentNone false [] OutcomeNone.

(** The forms, by node. *)
Fixpoint compile_forms (allFields : list FieldSpec) (nodes : list NodeSpec) (forms : gmap string Form)
  : compile_error + gmap string Form :=
  match nodes with
  | [] => inr forms
  | n :: nodes =>
      if bool_decide (ns_Form n = []) then compile_forms allFields nodes forms
      else match CompileForm allFields (ns_Form n) with
           | None => inl (CMessage (ns_ID n))
           | Some f => compile_forms allFields nodes (<[ns_ID n := f]> forms)
           end
  end.

Definition CompileProcess (spec : ProcessSpec) (version : Z) : compile_error + Process :=
  match compile_nodes (sp_Nodes spec) with
  | inl e => inl e
  | inr nodes =>
      let def := mkDefinition (sp_Name spec) version nodes (compile_transition <$> sp_Transitions spec) in
      if negb (bool_decide (Validate.Validate def = [])) then inl (CInvalid (Validate.Validate def))
      else
        match compile_forms (concat (ns_Form <$> sp_Nodes spec)) (sp_Nodes spec) ∅ with
        | inl e => inl e
        | inr forms => inr (mkProcess spec def forms)
        end
  end.

End Forms.

(** ** Specifications as JSON *)

(** [json.Marshal] of a specification; an empty list of nodes or transitions is nil. *)
Definition enc_list {A} (enc : A -> jval) (l : list A) : jval :=
  match l with [] => JvNull | _ => JvArr (enc <$> l) end.
Definition omit (b : bool) (k : string) (v : jval) : list (string * jval) := if b then [] else [(k, v)].

Definition enc_field (f : FieldSpec) : jval :=
  JvObj ([("key", JvStr (fs_Key f)); ("type", JvStr (fs_Type f)); ("label", JvStr (fs_Label f))]
         ++ omit (negb (fs_Required f)) "required" (JvBool true)
         ++ match fs_Config f with None => [] | Some c => [("config", c)] end
         ++ omit (bool_decide (fs_VisibleWhen f = "")) "visibleWhen" (JvStr (fs_VisibleWhen f))).
Definition enc_profile (p : ProfileSpec) : jval :=
  JvObj (("position", JvStr (ps_Position p)) :: omit (bool_decide (ps_Unit p = "")) "unit" (JvStr (ps_Unit p))).
Definition enc_node (n : NodeSpec) : jval :=
  JvObj ([("id", JvStr (ns_ID n))]
         ++ omit (negb (ns_Start n)) "start" (JvBool true) ++ omit (negb (ns_Terminal n)) "terminal" (JvBool true)
         ++ match ns_Profile n with None => [] | Some p => [("profile", enc_profile p)] end
         ++ omit (bool_decide (ns_Form n = [])) "form" (enc_list enc_field (ns_Form n))).
Definition enc_transition (t : TransitionSpec) : jval :=
  JvObj [("from", JvStr (ts_From t)); ("to", JvStr (ts_To t)); ("action", JvStr (ts_Action t))].
Definition enc_spec (s : ProcessSpec) : jval :=
  JvObj [("name", JvStr (sp_Name s)); ("nodes", enc_list enc_node (sp_Nodes s));
         ("transitions", enc_list enc_transition (sp_Transitions s))].

(** Decoding with [DisallowUnknownFields]; keys match in any case. *)
Definition dec_list {A} (dec : jval -> option A) (v : jval) : option (list A) :=
  match v with JvNull => Some [] | JvArr l => mapM dec l | _ => None end.

Definition set_field (k : string) (v : jval) (f : FieldSpec) : option FieldSpec :=
  let '(mkFieldSpec key type label required config visible) := f in
  if EqualFold k "key" then key ← dec_string key v; Some (mkFieldSpec key type label required config visible)
  else if EqualFold k "type" then type ← dec_string type v; Some (mkFieldSpec key type label required config visible)
  else if EqualFold k "label" then label ← dec_string label v; Some (mkFieldSpec key type label required config visible)
  else if EqualFold k "required" then
    required ← dec_bool required v; Some (mkFieldSpec key type label required config visible)
  else if EqualFold k "config" then Some (mkFieldSpec key type label required (Some v) visible)
  else if EqualFold k "visibleWhen" then
    visible ← dec_string visible v; Some (mkFieldSpec key type label required config visible)
  else None.
Definition dec_field (v : jval) : option FieldSpec := dec_struct set_field v (mkFieldSpec "" "" "" false None "").

Definition set_profile (k : string) (v : jval) (p : ProfileSpec) : option ProfileSpec :=
  let '(mkProfileSpec position unit) := p in
  if EqualFold k "position" then position ← dec_string position v; Some (mkProfileSpec position unit)
  else if EqualFold k "unit" then unit ← dec_string unit v; Some (mkProfileSpec position unit)
  else None.
Definition dec_profile (v : jval) : option (option ProfileSpec) :=
  match v with JvNull => Some None | _ => Some <$> dec_struct set_profile v (mkProfileSpec "" "") end.

Definition set_node (k : string) (v : jval) (n : NodeSpec) : option NodeSpec :=
  let '(mkNodeSpec id start terminal profile form) := n in
  if EqualFold k "id" then id ← dec_string id v; Some (mkNodeSpec id start terminal profile form)
  else if EqualFold k "start" then start ← dec_bool start v; Some (mkNodeSpec id start terminal profile form)
  else if EqualFold k "terminal" then terminal ← dec_bool terminal v; Some (mkNodeSpec id start terminal profile form)
  else if EqualFold k "profile" then profile ← dec_profile v; Some (mkNodeSpec id start terminal profile form)
  else if EqualFold k "form" then form ← dec_list dec_field v; Some (mkNodeSpec id start terminal profile form)
  else None.
Definition dec_node (v : jval) : option NodeSpec := dec_struct set_node v (mkNodeSpec "" false false None []).

Definition set_transition (k : string) (v : jval) (t : TransitionSpec) : option TransitionSpec :=
  let '(mkTransitionSpec from to action) := t in
  if EqualFold k "from" then from ← dec_string from v; Some (mkTransitionSpec from to action)
  else if EqualFold k "to" then to ← dec_string to v; Some (mkTransitionSpec from to action)
  else if EqualFold k "action" then action ← dec_string action v; Some (mkTransitionSpec from to action)
  else None.
Definition dec_transition (v : jval) : option TransitionSpec := dec_struct set_transition v (mkTransitionSpec "" "" "").

Definition set_spec (k : string) (v : jval) (s : ProcessSpec) : option ProcessSpec :=
  let '(mkProcessSpec name nodes transitions) := s in
  if EqualFold k "name" then name ← dec_string name v; Some (mkProcessSpec name nodes transitions)
  else if EqualFold k "nodes" then nodes ← dec_list dec_node v; Some (mkProcessSpec name nodes transitions)
  else if EqualFold k "transitions" then
    transitions ← dec_list dec_transition v; Some (mkProcessSpec name nodes transitions)
  else None.

(** [ParseProcessSpec]: no top-level "version", then the strict decoding. *)
Definition ParseProcessSpec (raw : jval) : option ProcessSpec :=
  match raw with
  | JvObj fields =>
      if bool_decide ("version" ∈ fields.*1) then None else dec_struct set_spec raw (mkProcessSpec "" [] [])
  | JvNull => Some (mkProcessSpec "" [] [])
  | _ => None
  end.
