(* ===== verification/ProcessService.v ===== *)
(** The process application of the boilerplate: the catalog of published processes
    ([application/process/catalog.go]), the service that opens, claims, submits and shows
    cases ([service.go]), its tables ([infrastructure/bpms/value_repository.go],
    [version_repository.go]) and the check of profiles ([domain/process/profile.go]).

    A transaction ([pgx.BeginFunc]) runs on the whole database and is undone on an error.
    The directory of profiles is an argument. *)

From stdpp Require Import base gmap list sorting strings.
From Stdlib Require Import ZArith Lia.
From S2P Require Import Prelude GoStrings Errors Model Definitions Repo Ports Engine ProcessForm.

Open Scope string_scope.
Open Scope list_scope.
Open Scope Z_scope.

Definition CaseDomain : string := "bpms".

(** ** Errors *)

Inductive process_error :=
| PEngine (e : error)
| ErrProcessNotFound | ErrNotHolder | ErrNotClaimant | ErrNoAccess | ErrPublishConflict
| FormError (fields : gmap string field_msg)
| CompileError (e : compile_error)
| LoadError (e : compile_error)
| PSpec
| PJoin (a b : process_error).

(** [workflow.FailureKindOf], on an error of this package. *)
Definition process_failure_kind (e : process_error) : option FailureKind :=
  match e with PEngine e => FailureKindOf e | _ => None end.

Abbreviation presult := (res process_error).

Definition of_result {A} (m : result A) : presult A :=
  match m with Ok a => Ok a | Err e => Err (PEngine e) | Panic => Panic | Fuel => Fuel end.

(** ** The tables *)

(** [case_value], in the order of its ids; [process_version]. *)
Record CaseValue := mkCaseValue {
  cv_CaseID : uuid; cv_Field : string; cv_Value : jval; cv_NodeID : string; cv_ActorID : string }.
Record StoredVersion := mkStoredVersion { sv_Name : string; sv_Version : Z; sv_Spec : jval }.

Section Service.
Context {D : Type} `{Repository D}.
(** PostgreSQL's reading of a number in a [JSONB] column. *)
Context (number : string -> jval).

Record ProcessDB := mkProcessDB { pd_cases : D; pd_values : list CaseValue; pd_versions : list StoredVersion }.

Definition with_cases (db : ProcessDB) (d : D) : ProcessDB := mkProcessDB d (pd_values db) (pd_versions db).

(** An engine call inside the transaction. *)
Definition on_cases {A} (m : writer D A) (db : ProcessDB) : ProcessDB * presult A :=
  let '(d, r) := m (pd_cases db) in (with_cases db d, of_result r).

(** [pgx.BeginFunc]: the effects stay only when the function answers no error. *)
Definition BeginFunc {A} (f : ProcessDB -> ProcessDB * presult A) (db : ProcessDB) : ProcessDB * presult A :=
  match f db with
  | (db', Ok a) => (db', Ok a)
  | (_, r) => (db, r)
  end.

(** Steps in a transaction. *)
Definition tx_bind {A B} (m : ProcessDB -> ProcessDB * presult A) (k : A -> ProcessDB -> ProcessDB * presult B)
    (db : ProcessDB) : ProcessDB * presult B :=
  match m db with
  | (db, Ok a) => k a db
  | (db, Err e) => (db, Err e)
  | (db, Panic) => (db, Panic)
  | (db, Fuel) => (db, Fuel)
  end.
Definition tx_res {A} (m : presult A) (db : ProcessDB) : ProcessDB * presult A := (db, m).

(** [ValueRepository.Save]: one row per value, in the order of the keys. *)
Definition Save (caseID : uuid) (nodeID actorID : string) (values : gmap string jval) (db : ProcessDB)
  : ProcessDB * presult unit :=
  let keys := merge_sort String.le (elements (dom values)) in
  let rows := omap (fun k => (fun v => mkCaseValue caseID k (jsonb number v) nodeID actorID) <$> values !! k) keys in
  (mkProcessDB (pd_cases db) (pd_values db ++ rows) (pd_versions db), Ok tt).

(** [ValueRepository.Current]: the newest value of each field. *)
Definition Current (caseID : uuid) (db : ProcessDB) : gmap string jval :=
  foldl (fun m r => if bool_decide (cv_CaseID r = caseID) then <[cv_Field r := cv_Value r]> m else m) ∅ (pd_values db).

(** [ValueRepository.History]. *)
Definition ValueHistory (caseID : uuid) (db : ProcessDB) : list CaseValue :=
  List.filter (fun r => bool_decide (cv_CaseID r = caseID)) (pd_values db).

(** [VersionRepository.Insert]: the version after the highest of the name. *)
Definition versions_of (name : string) (db : ProcessDB) : list Z :=
  sv_Version <$> List.filter (fun r => bool_decide (sv_Name r = name)) (pd_versions db).
Definition max_version (name : string) (db : ProcessDB) : Z := foldr Z.max 0 (versions_of name db).
Definition add_version (r : StoredVersion) (db : ProcessDB) : ProcessDB :=
  mkProcessDB (pd_cases db) (pd_values db) (pd_versions db ++ [r]).
Definition InsertVersion (name : string) (spec : jval) (db : ProcessDB) : ProcessDB * Z :=
  let v := max_version name db + 1 in (add_version (mkStoredVersion name v (jsonb number spec)) db, v).

(** [VersionRepository.InsertFirst]. *)
Definition InsertFirst (name : string) (spec : jval) (db : ProcessDB) : ProcessDB * bool :=
  if bool_decide (versions_of name db = []) then (add_version (mkStoredVersion name 1 (jsonb number spec)) db, true) else (db, false).

(** [ORDER BY name, version]. *)
Definition sv_le (a b : StoredVersion) : Prop :=
  String.le (sv_Name a) (sv_Name b) /\ (sv_Name a = sv_Name b -> sv_Version a <= sv_Version b).
#[export] Instance sv_le_dec : RelDecision sv_le.
Proof. intros a b. unfold sv_le. apply _. Defined.
Definition AllVersions (db : ProcessDB) : list StoredVersion := merge_sort sv_le (pd_versions db).

(** ** The catalog *)

Context (env_ok : list string -> bool) (rule_ok : list string -> string -> bool)
  (eval : list string -> string -> gmap string jval -> option bool) (reg : gmap string FieldType).

(** [Catalog] and the engine it registers definitions with. *)
Record Catalog := mkCatalog { ct_engine : Engine D; ct_byKey : gmap string Process; ct_latest : gmap string Z }.

Definition Catalog_Get (c : Catalog) (name : string) (version : Z) : option Process :=
  ct_byKey c !! definition_key name version.
Definition Catalog_Latest (c : Catalog) (name : string) : option Process :=
  v ← ct_latest c !! name; Catalog_Get c name v.
(** [Catalog.All], in the order the map is ranged over. *)
Definition Catalog_All (c : Catalog) : list Process := snd <$> map_to_list (ct_byKey c).

(** [Catalog.add]. *)
Definition Catalog_add (p : Process) (c : Catalog) : presult Catalog :=
  let d := p_Definition p in
  match Catalog_Get c (d_Name d) (d_Version d) with
  | Some _ => Ok c
  | None =>
      match Register (ct_engine c) d with
      | Ok e =>
          Ok (mkCatalog e (<[Key d := p]> (ct_byKey c))
                (if default 0 (ct_latest c !! d_Name d) <? d_Version d
                 then <[d_Name d := d_Version d]> (ct_latest c) else ct_latest c))
      | Err e => Err (PEngine e)
      | Panic => Panic
      | Fuel => Fuel
      end
  end.

Definition with_version (p : Process) (v : Z) : Process :=
  let d := p_Definition p in mkProcess (p_Spec p) (mkDefinition (d_Name d) v (d_Nodes d) (d_Transitions d)) (p_Forms p).

(** [Catalog.Publish]; [conflict] is a concurrent publish that took the version. *)
Definition Publish (conflict : bool) (spec : ProcessSpec) (s : Catalog * ProcessDB)
  : (Catalog * ProcessDB) * presult Process :=
  let '(c, db) := s in
  match CompileProcess env_ok rule_ok reg spec 1 with
  | inl e => (s, Err (CompileError e))
  | inr p =>
      if conflict then (s, Err ErrPublishConflict)
      else
        let '(db, version) := InsertVersion (sp_Name spec) (enc_spec spec) db in
        let p := with_version p version in
        match Catalog_add p c with
        | Ok c => ((c, db), Ok p)
        | Err e => ((c, db), Err e)
        | Panic => ((c, db), Panic)
        | Fuel => ((c, db), Fuel)
        end
  end.

(** [Catalog.Load]: what was added before a failure stays. *)
Fixpoint load_all (stored : list StoredVersion) (c : Catalog) : Catalog * presult unit :=
  match stored with
  | [] => (c, Ok tt)
  | sv :: stored =>
      match ParseProcessSpec (sv_Spec sv) with
      | None => (c, Err PSpec)
      | Some spec =>
          match CompileProcess env_ok rule_ok reg spec (sv_Version sv) with
          | inl e => (c, Err (LoadError e))
          | inr p => match Catalog_add p c with
                     | Ok c => load_all stored c
                     | Err e => (c, Err e)
                     | Panic => (c, Panic)
                     | Fuel => (c, Fuel)
                     end
          end
      end
  end.
Definition Load (s : Catalog * ProcessDB) : (Catalog * ProcessDB) * presult unit :=
  let '(c, r) := load_all (AllVersions s.2) s.1 in ((c, s.2), r).

(** [Catalog.EnsurePublished]. *)
Definition EnsurePublished (raw : jval) (s : Catalog * ProcessDB) : (Catalog * ProcessDB) * presult unit :=
  match ParseProcessSpec raw with
  | None => (s, Err PSpec)
  | Some spec =>
      match Catalog_Latest s.1 (sp_Name spec) with
      | Some _ => (s, Ok tt)
      | None =>
          match CompileProcess env_ok rule_ok reg spec 1 with
          | inl e => (s, Err (CompileError e))
          | inr p =>
              match InsertFirst (sp_Name spec) (enc_spec spec) s.2 with
              | (db, false) => Load (s.1, db)
              | (db, true) =>
                  match Catalog_add p s.1 with
                  | Ok c => ((c, db), Ok tt)
                  | Err e => ((s.1, db), Err e)
                  | Panic => ((s.1, db), Panic)
                  | Fuel => ((s.1, db), Fuel)
                  end
              end
          end
      end
  end.

(** ** The service *)

Context (holders : string -> string -> error + list string).

(** [Holds]. *)
Definition Holds (e : Eligibility) (actor : string) : presult bool :=
  if el_IsZero e then Ok false
  else match holders (el_Position e) (el_Unit e) with
       | inl err => Err (PEngine err)
       | inr people => Ok (bool_decide (actor ∈ people))
       end.

Definition form_result (r : gmap string field_msg + gmap string jval) : presult (gmap string jval) :=
  match r with inl errs => Err (FormError errs) | inr clean => Ok clean end.

Definition move_input (caseID tokenID : uuid) (action actor : string) : MoveInput :=
  mkMoveInput caseID tokenID action (human actor) "" "" None None.

(** [Service.Start]; [ext] is the drawn external id, [cx] and [cx'] what the two engine
    calls bring. *)
Definition Start (c : Catalog) (cx cx' : Ctx) (ext : string) (actor process action : string)
    (values : gmap string jval) (db : ProcessDB) : ProcessDB * presult Case :=
  match Catalog_Latest c process with
  | None => (db, Err ErrProcessNotFound)
  | Some p =>
      let d := p_Definition p in
      let start := match StartNode d with Some n => n_ID n | None => "" end in
      match form_result (ValidateNode eval p start values ∅) with
      | Ok clean =>
          BeginFunc (tx_bind (on_cases (Open (ct_engine c) cx
                       (mkOpenInput (d_Name d) (d_Version d) CaseDomain ext "" "" (human actor) ""))) (fun opened =>
                     tx_bind (Save (c_ID opened) start actor clean) (fun _ =>
                     on_cases (Move (ct_engine c) cx' (move_input (c_ID opened) uuid_Nil action actor))))) db
      | Err e => (db, Err e)
      | Panic => (db, Panic)
      | Fuel => (db, Fuel)
      end
  end.

(** [activeToken]. *)
Definition activeToken (c : Catalog) (db : D) (caseID tokenID : uuid) : presult Token :=
  let! tokens := of_result (Tokens (ct_engine c) db caseID) in
  let active := List.filter (fun t => bool_decide (t_Status t = TokenActive)) tokens in
  if bool_decide (tokenID = uuid_Nil) then
    match active with
    | [t] => Ok t
    | [] => Err (PEngine (sent ErrCaseClosed))
    | _ => Err (PEngine (sent ErrTokenRequired))
    end
  else match find_by t_ID tokenID active with
       | Some t => Ok t
       | None => Err (PEngine (sent ErrTokenNotFound))
       end.

(** [Service.Claim]. *)
Definition Service_Claim (c : Catalog) (cx : Ctx) (actor : string) (caseID tokenID : uuid) (db : ProcessDB)
  : ProcessDB * presult Case :=
  BeginFunc (fun db =>
    tx_bind (tx_res (let! tok := activeToken c (pd_cases db) caseID tokenID in
                     let! ok := Holds (t_Eligible tok) actor in
                     if ok then Ok tok else Err ErrNotHolder)) (fun tok =>
    on_cases (ClaimWith (ct_engine c) cx (mkClaimInput caseID (t_ID tok) (human actor) None))) db) db.

(** The checks of [Submit] inside its transaction: the token, and the values kept. *)
Definition submit_plan (c : Catalog) (actor : string) (caseID tokenID : uuid) (values : gmap string jval)
    (db : ProcessDB) : presult Token * presult (gmap string jval) :=
  let tok :=
    let! current := of_result (lift (repo_GetByID (pd_cases db) caseID)) in
    if negb (bool_decide (c_Status current = StatusOpen)) then Err (PEngine (sent ErrCaseClosed))
    else activeToken c (pd_cases db) caseID tokenID in
  (tok,
   let! current := of_result (lift (repo_GetByID (pd_cases db) caseID)) in
   let! tok := tok in
   if negb (bool_decide (t_AssignedTo tok = actor)) then Err ErrNotClaimant
   else match Catalog_Get c (c_Definition current) (c_Version current) with
        | None => Err ErrProcessNotFound
        | Some p => form_result (ValidateNode eval p (t_Node tok) values (Current caseID db))
        end).

(** The transaction of [Submit]: the values, then the move. *)
Definition submit_tx (c : Catalog) (cx : Ctx) (actor : string) (caseID tokenID : uuid) (action : string)
    (values : gmap string jval) (db : ProcessDB) : ProcessDB * presult Case :=
  let '(tok, clean) := submit_plan c actor caseID tokenID values db in
  tx_bind (tx_res tok) (fun tok =>
  tx_bind (tx_res clean) (fun clean =>
  tx_bind (Save caseID (t_Node tok) actor clean) (fun _ =>
  on_cases (Move (ct_engine c) cx (move_input caseID (t_ID tok) action actor))))) db.

(** [Service.Submit]: a rejected move is rolled back with its values, and recorded in a
    transaction of its own. *)
Definition Submit (c : Catalog) (cx cx' : Ctx) (actor : string) (caseID tokenID : uuid) (action : string)
    (values : gmap string jval) (db : ProcessDB) : ProcessDB * presult Case :=
  let moved := match (submit_plan c actor caseID tokenID values db).1 with Ok tok => t_ID tok | _ => tokenID end in
  match BeginFunc (submit_tx c cx actor caseID tokenID action values) db with
  | (db, Err e) =>
      match process_failure_kind e with
      | None => (db, Err e)
      | Some kind =>
          match BeginFunc (on_cases (RecordFailure (ct_engine c) cx'
                  (mkFailureInput caseID moved (human actor) action kind RawNone))) db with
          | (db, Err e') => (db, Err (PJoin e e'))
          | (db, Ok _) => (db, Err e)
          | (db, Panic) => (db, Panic)
          | (db, Fuel) => (db, Fuel)
          end
      end
  | r => r
  end.

(** [related]: an actor of the history, the assignee or a holder of an active token. *)
Fixpoint related_tokens (actor : string) (tokens : list Token) : presult bool :=
  match tokens with
  | [] => Ok false
  | t :: tokens =>
      if negb (bool_decide (t_Status t = TokenActive)) then related_tokens actor tokens
      else if bool_decide (t_AssignedTo t = actor) then Ok true
      else let! ok := Holds (t_Eligible t) actor in
           if ok then Ok true else related_tokens actor tokens
  end.
Definition related (c : Catalog) (actor : string) (cs : Case) (db : D) : presult bool :=
  let! events := of_result (History db (c_ID cs)) in
  if existsb (fun ev => bool_decide (a_ID (ev_Actor ev) = actor)) events then Ok true
  else if negb (bool_decide (c_Status cs = StatusOpen)) then Ok false
  else let! tokens := of_result (Tokens (ct_engine c) db (c_ID cs)) in related_tokens actor tokens.

(** [Service.View]. *)
Definition View (c : Catalog) (actor : string) (caseID : uuid) (db : ProcessDB)
  : presult (Case * gmap string jval * list CaseValue) :=
  let! cs := of_result (lift (repo_GetByID (pd_cases db) caseID)) in
  let! allowed := related c actor cs (pd_cases db) in
  if allowed then Ok (cs, Current caseID db, ValueHistory caseID db) else Err ErrNoAccess.

(** [profiledStates]. *)
Definition profiledStates (c : Catalog) : list string :=
  foldl (fun states id => if bool_decide (id ∈ states) then states else states ++ [id]) []
    (concat (ProfiledNodes <$> Catalog_All c)).

(** [heldEligibilities]: each distinct eligibility is asked about once. *)
Fixpoint held_from (actor : string) (es : list Eligibility) (seen : list Eligibility) : presult (list Eligibility) :=
  match es with
  | [] => Ok []
  | e :: es =>
      if bool_decide (e ∈ seen) then held_from actor es seen
      else let! ok := Holds e actor in
           let! rest := held_from actor es (e :: seen) in
           Ok (if ok then e :: rest else rest)
  end.
Definition declared_eligibilities (c : Catalog) : list Eligibility :=
  concat ((fun p => (fun n => mkEligibility (el_Position (n_Eligible n)) (ResolveUnit (n_Eligible n) "")) <$>
                    List.filter (fun n => negb (el_IsZero (n_Eligible n))) (d_Nodes (p_Definition p)))
          <$> Catalog_All c).
Definition heldEligibilities (c : Catalog) (actor : string) : presult (list Eligibility) :=
  held_from actor (declared_eligibilities c) [].

(** [Service.Inbox]. *)
Definition Service_Inbox (c : Catalog) (actor : string) (db : D) : presult (list WorkItem) :=
  let states := profiledStates c in
  if bool_decide (states = []) then Ok []
  else
    let! held := heldEligibilities c actor in
    let! unclaimed :=
      (if bool_decide (held = []) then Ok []
       else of_result (Inbox db (mkInboxFilter "" CaseDomain [] held "" true false 0 0))) in
    let! claimed := of_result (Inbox db (mkInboxFilter "" CaseDomain states [] actor false false 0 0)) in
    Ok (unclaimed ++ claimed).

End Service.
