(* ===== verification/ProcessFacts.v ===== *)
(** Lemmas on the process application: the fields of a compiled form, the verdicts of a
    form, the reading of a stored specification and its independence of the version.

    The catalog of published processes: what every stored version and every catalogued
    process satisfies, and that adding, loading and publishing keep it. *)

From stdpp Require Import base gmap list sorting strings relations.
From Stdlib Require Import ZArith Lia.
From S2P Require Import Prelude GoStrings Errors Model Definitions Validate Repo Ports Engine ValidateFacts DefinitionTheorems ProcessForm ProcessService.

Open Scope string_scope.
Open Scope list_scope.
Open Scope Z_scope.

(** ** Compiled fields *)

Abbreviation cf_key cf := (fs_Key (cf_spec cf)).

Section Fields.
Context (env_ok : list string -> bool) (rule_ok : list string -> string -> bool)
  (eval : list string -> string -> gmap string jval -> option bool) (reg : gmap string FieldType).

Lemma compile_fields_keys vars fields seen out :
  compile_fields rule_ok reg vars fields seen = Some out ->
  cf_spec <$> out = fields /\ NoDup (fs_Key <$> fields) /\ Forall (fun f => fs_Key f ∉ seen) fields.
Proof.
  revert seen out. induction fields as [|f fields IH]; intros seen out Hc; simpl in Hc.
  { injection Hc as <-. by repeat constructor. }
  case_bool_decide as E1; [done|]. case_bool_decide as E2; [done|].
  apply bind_Some in Hc as (typ & _ & Hc). destruct (negb _); [done|].
  apply bind_Some in Hc as (visible & _ & Hc). apply bind_Some in Hc as (rest & Hr & [= <-]).
  destruct (IH _ _ Hr) as (<- & Hnd & Hs). csimpl. split_and!; [done|..].
  - constructor; [|done]. intros (f' & Ef & Hf')%list_elem_of_fmap.
    rewrite Forall_lookup in Hs. apply list_elem_of_lookup in Hf' as [i Hi].
    apply (Hs i f' Hi). rewrite Ef. apply list_elem_of_here.
  - constructor; [done|]. eapply Forall_impl; [exact Hs|]. intros f' Hf' Hin. apply Hf'. by right.
Qed.

Lemma CompileForm_keys allFields nodeFields f :
  CompileForm env_ok rule_ok reg allFields nodeFields = Some f ->
  cf_spec <$> f_fields f = nodeFields /\ NoDup ((fun cf => cf_key cf) <$> f_fields f).
Proof.
  unfold CompileForm. intros (vars & _ & (fields & Hc & [= <-])%bind_Some)%bind_Some. simpl.
  apply compile_fields_keys in Hc as (<- & Hnd & _). split; [done|]. by rewrite <- list_fmap_compose in Hnd.
Qed.

(** ** Verdicts *)

(** The field is shown: it has no rule, or its rule answers true. *)
Definition shown (f : Form) (vars : gmap string jval) (cf : compiledField) : Prop :=
  match cf_visible cf with None => True | Some rule => eval (f_vars f) rule vars = Some true end.

(** A value counts as given. *)
Definition given (v : jval) : bool := match v with JvNull | JvStr "" => false | _ => true end.

(** What is wrong with a field. *)
Definition error_of (f : Form) (vars submitted : gmap string jval) (cf : compiledField) (m : field_msg) : Prop :=
  match m with
  | MNotField => False
  | MRuleFailed => exists rule, cf_visible cf = Some rule /\ eval (f_vars f) rule vars = None
  | MRequired => shown f vars cf /\ fs_Required (cf_spec cf) = true
                 /\ forall v, submitted !! cf_key cf = Some v -> given v = false
  | MInvalid => shown f vars cf
                /\ exists v, submitted !! cf_key cf = Some v /\ given v = true
                             /\ ft_Validate (cf_typ cf) v (fs_Config (cf_spec cf)) = false
  end.

(** The field keeps the value. *)
Definition accepted (f : Form) (vars submitted : gmap string jval) (cf : compiledField) (v : jval) : Prop :=
  shown f vars cf /\ submitted !! cf_key cf = Some v /\ given v = true
  /\ ft_Validate (cf_typ cf) v (fs_Config (cf_spec cf)) = true.

(** The check of a shown field. *)
Definition check_shown (submitted : gmap string jval) (cf : compiledField) : field_verdict :=
  match submitted !! cf_key cf with
  | Some v => if given v then if ft_Validate (cf_typ cf) v (fs_Config (cf_spec cf)) then VAccept v else VErr MInvalid
              else if fs_Required (cf_spec cf) then VErr MRequired else VSkip
  | None => if fs_Required (cf_spec cf) then VErr MRequired else VSkip
  end.

Lemma validate_field_shown fvars vars submitted cf :
  validate_field eval fvars vars submitted cf =
  match cf_visible cf with
  | None => check_shown submitted cf
  | Some rule => match eval fvars rule vars with
                 | None => VErr MRuleFailed
                 | Some true => check_shown submitted cf
                 | Some false => VSkip
                 end
  end.
Proof.
  unfold validate_field, check_shown.
  destruct (cf_visible cf) as [rule|]; [destruct (eval fvars rule vars) as [[]|]; try done|];
    (destruct (submitted !! cf_key cf) as [[| | | |[]| |]|]; done).
Qed.

Lemma check_shown_spec submitted cf :
  (forall m, check_shown submitted cf = VErr m <->
     m = MRequired /\ fs_Required (cf_spec cf) = true /\ (forall v, submitted !! cf_key cf = Some v -> given v = false)
     \/ m = MInvalid /\ exists v, submitted !! cf_key cf = Some v /\ given v = true
                                 /\ ft_Validate (cf_typ cf) v (fs_Config (cf_spec cf)) = false)
  /\ (forall v, check_shown submitted cf = VAccept v <->
       submitted !! cf_key cf = Some v /\ given v = true
       /\ ft_Validate (cf_typ cf) v (fs_Config (cf_spec cf)) = true).
Proof.
  unfold check_shown. destruct (submitted !! cf_key cf) as [v|]; [destruct (given v) eqn:Eg|];
    [destruct (ft_Validate _ _ _) eqn:Ev|destruct (fs_Required _)..];
    split; intros; split; try naive_solver congruence.
Qed.

Lemma validate_field_spec f vars submitted cf :
  (forall m, validate_field eval (f_vars f) vars submitted cf = VErr m <-> error_of f vars submitted cf m)
  /\ (forall v, validate_field eval (f_vars f) vars submitted cf = VAccept v <-> accepted f vars submitted cf v).
Proof.
  destruct (check_shown_spec submitted cf) as [He Ha].
  rewrite validate_field_shown. unfold error_of, accepted, shown.
  destruct (cf_visible cf) as [rule|]; [destruct (eval (f_vars f) rule vars) as [[]|] eqn:Er|]; cbn [fst snd].
  1,4: (split; [intros m; rewrite He; destruct m | intros v; rewrite Ha]);
       split; intros Hx; destruct_or?; destruct_and?; try done; eauto;
       try (by destruct Hx as (rule' & [= <-] & E'); congruence).
  1: split; [intros m; destruct m | intros v]; split; intros Hx; try done; destruct_and?; try done;
       destruct Hx as (rule' & [= <-] & E'); congruence.
  split; [intros m; destruct m | intros v]; split; intros Hx; try done; destruct_and?; try done; eauto.
Qed.

(** ** The loop over the fields *)

Definition verdict_step (verdict : compiledField -> field_verdict)
    (eo : gmap string field_msg * gmap string jval) (cf : compiledField) :=
  match verdict cf with
  | VSkip => eo
  | VErr m => (<[cf_key cf := m]> eo.1, eo.2)
  | VAccept v => (eo.1, <[cf_key cf := v]> eo.2)
  end.

Lemma verdicts_spec verdict l errs0 :
  NoDup ((fun cf => cf_key cf) <$> l) ->
  (forall k, k ∈ (fun cf => cf_key cf) <$> l -> errs0 !! k = None) ->
  let '(errs, out) := foldl (verdict_step verdict) (errs0, ∅) l in
  (forall k m, errs !! k = Some m <->
     errs0 !! k = Some m \/ exists cf, cf ∈ l /\ cf_key cf = k /\ verdict cf = VErr m)
  /\ (forall k v, out !! k = Some v <-> exists cf, cf ∈ l /\ cf_key cf = k /\ verdict cf = VAccept v).
Proof.
  induction l as [|cf l IH] using rev_ind; intros Hnd H0; simpl.
  { split; [set_solver|]. intros k v. rewrite lookup_empty. set_solver. }
  rewrite fmap_app, NoDup_app in Hnd. destruct Hnd as (Hnd & Hd & _). rewrite foldl_snoc.
  destruct (foldl _ _ l) as [errs out]. destruct IH as [IHe IHo]; [done| |].
  { intros k Hk. apply H0. rewrite fmap_app. set_solver. }
  assert (Hn0 : errs0 !! cf_key cf = None).
  { apply H0. rewrite fmap_app. apply elem_of_app. right. csimpl. apply list_elem_of_here. }
  assert (Hne : forall cf', cf' ∈ l -> cf_key cf' <> cf_key cf).
  { intros cf' Hin E. apply (Hd (cf_key cf)); [rewrite <- E; by apply (list_elem_of_fmap_2 (fun cf => cf_key cf))|].
    csimpl. apply list_elem_of_here. }
  assert (Happ : forall k w, (exists cf', cf' ∈ l ++ [cf] /\ cf_key cf' = k /\ verdict cf' = w)
                             <-> (exists cf', cf' ∈ l /\ cf_key cf' = k /\ verdict cf' = w)
                                 \/ cf_key cf = k /\ verdict cf = w).
  { intros k w. setoid_rewrite elem_of_app. setoid_rewrite list_elem_of_singleton. naive_solver. }
  unfold verdict_step at 1. destruct (verdict cf) as [|m|v] eqn:Ev; simpl; setoid_rewrite Happ.
  - split; intros; rewrite ?IHe, ?IHo; naive_solver.
  - split; [|intros; rewrite IHo; naive_solver]. intros k m'.
    destruct (decide (k = cf_key cf)) as [->|]; [rewrite lookup_insert_eq | rewrite lookup_insert_ne, IHe by done]; naive_solver.
  - split; [intros; rewrite IHe; naive_solver|]. intros k v'.
    destruct (decide (k = cf_key cf)) as [->|]; [rewrite lookup_insert_eq | rewrite lookup_insert_ne, IHo by done]; naive_solver.
Qed.

End Fields.

(** ** Stored specifications *)

Section Stored.
Context (number : string -> jval).

(** Its configurations are as a [JSONB] column gives them back. *)
Definition canonical_field (f : FieldSpec) : Prop := forall c, fs_Config f = Some c -> jsonb number c = c.
Definition canonical (s : ProcessSpec) : Prop :=
  Forall (fun n => Forall canonical_field (ns_Form n)) (sp_Nodes s).

Lemma dec_list_stored {A} (enc : A -> jval) (dec : jval -> option A) l :
  Forall (fun a => dec (jsonb number (enc a)) = Some a) l -> dec_list dec (jsonb number (enc_list enc l)) = Some l.
Proof.
  intros Hl. assert (Hm : mapM dec (map (jsonb number) (enc <$> l)) = Some l) by (induction Hl; by simplify_option_eq).
  by destruct l.
Qed.

Lemma dec_field_stored f : canonical_field f -> dec_field (jsonb number (enc_field f)) = Some f.
Proof.
  destruct f as [key type label required config visible]. intros Hc. unfold canonical_field in Hc. simpl in Hc.
  unfold enc_field, omit. cbn [fs_Key fs_Type fs_Label fs_Required fs_Config fs_VisibleWhen].
  destruct config as [c|]; [specialize (Hc c eq_refl)|]; destruct required;
    (case_bool_decide as Ev; [subst visible|]); cbn [negb app jsonb map fst snd]; rewrite ?Hc; vm_compute; done.
Qed.

Lemma dec_profile_stored p : dec_profile (jsonb number (enc_profile p)) = Some (Some p).
Proof.
  destruct p as [position unit]. unfold enc_profile, omit. cbn [ps_Position ps_Unit].
  case_bool_decide; [subst unit|]; vm_compute; done.
Qed.

Lemma dec_transition_stored t : dec_transition (jsonb number (enc_transition t)) = Some t.
Proof. destruct t. vm_compute. done. Qed.

Lemma dec_node_stored n : Forall canonical_field (ns_Form n) -> dec_node (jsonb number (enc_node n)) = Some n.
Proof.
  intros Hf. assert (HF : dec_list dec_field (jsonb number (enc_list enc_field (ns_Form n))) = Some (ns_Form n)).
  { apply dec_list_stored. eapply Forall_impl; [exact Hf|]. apply dec_field_stored. }
  destruct n as [id start terminal profile form]. clear Hf. unfold enc_node, omit. cbn [ns_ID ns_Start ns_Terminal ns_Profile ns_Form] in *.
  destruct profile as [p|]; [pose proof (dec_profile_stored p) as HP; revert HP|];
    destruct start, terminal; (case_bool_decide as Ef; [subst form; clear HF|revert HF]);
    cbn [negb app jsonb map fst snd];
    try (generalize (jsonb number (enc_list enc_field form)); intros form_json);
    try (generalize (jsonb number (enc_profile p)); intros profile_json);
    intros; cbv -[dec_list dec_profile dec_field]; rewrite ?HP, ?HF; done.
Qed.

(** What a published specification reads back as. *)
Lemma ParseProcessSpec_stored s : canonical s -> ParseProcessSpec (jsonb number (enc_spec s)) = Some s.
Proof.
  intros Hs. assert (HN : dec_list dec_node (jsonb number (enc_list enc_node (sp_Nodes s))) = Some (sp_Nodes s)).
  { apply dec_list_stored. eapply Forall_impl; [exact Hs|]. apply dec_node_stored. }
  assert (HT : dec_list dec_transition (jsonb number (enc_list enc_transition (sp_Transitions s))) = Some (sp_Transitions s)).
  { apply dec_list_stored, Forall_true, dec_transition_stored. }
  destruct s as [name nodes transitions]. unfold enc_spec. cbn [sp_Name sp_Nodes sp_Transitions jsonb map fst snd] in *.
  revert HN HT. generalize (jsonb number (enc_list enc_node nodes)), (jsonb number (enc_list enc_transition transitions)).
  intros nodes_json transitions_json HN HT. cbv -[dec_list dec_node dec_transition]. rewrite HN, HT. done.
Qed.

End Stored.

(** ** Versions *)

Definition set_version (d : WDefinition) (v : Z) : WDefinition :=
  mkDefinition (d_Name d) v (d_Nodes d) (d_Transitions d).

Lemma transitions_violations_version d v i seen l :
  transitions_violations (set_version d v) i seen l = transitions_violations d i seen l.
Proof. revert i seen. induction l as [|tr l IH]; intros i seen; simpl; [done|]. by rewrite IH. Qed.

Lemma branches_violations_version d v b l :
  branches_violations (set_version d v) b l = branches_violations d b l.
Proof. induction l as [|br l IH]; simpl; [done|]. by rewrite IH. Qed.

Lemma checkBlock_version d v b : checkBlock (set_version d v) b = checkBlock d b.
Proof.
  unfold checkBlock. rewrite branches_violations_version. done.
Qed.

Lemma validateBlocks_version d v : validateBlocks (set_version d v) = validateBlocks d.
Proof.
  unfold validateBlocks.
  rewrite (list_fmap_ext (checkBlock (set_version d v)) (checkBlock d)) by (intros; apply checkBlock_version).
  done.
Qed.

(** The version of a definition is checked only to be positive. *)
Lemma Validate_version d v : 1 <= v -> Validate d = [] -> Validate (set_version d v) = [].
Proof.
  intros Hv. unfold Validate. rewrite transitions_violations_version, validateBlocks_version.
  rewrite (proj2 (Z.ltb_ge (d_Version (set_version d v)) 1)) by done.
  rewrite !app_nil. tauto.
Qed.

(** ** Compiled processes *)

Lemma no_names l : (forall x, x ∈ l -> x = "") -> sort_Strings (dedup_names [] l) = [].
Proof.
  intros Hl. destruct (dedup_names [] l) as [|x rest] eqn:E; [done|].
  assert (Hx : x ∈ dedup_names [] l) by (rewrite E; apply list_elem_of_here).
  apply dedup_names_spec in Hx as (Hx & _ & Hin). by apply Hl in Hin.
Qed.

Section Compiled.
Context (env_ok : list string -> bool) (rule_ok : list string -> string -> bool) (reg : gmap string FieldType).

Lemma compile_nodes_plain nodes out :
  compile_nodes nodes = inr out ->
  Forall (fun n => n_DeadlineRule n = "" /\ n_AssignRule n = "" /\ n_Effects n = []) out.
Proof.
  revert out. induction nodes as [|n nodes IH]; intros out Hc; simpl in Hc; [by simplify_eq|].
  destruct (compile_node n) as [|node] eqn:En; [done|]. destruct (compile_nodes nodes) as [|rest]; [done|].
  injection Hc as <-. constructor; [|by apply IH]. clear IH. unfold compile_node in En.
  repeat case_match; simplify_eq; done.
Qed.

Lemma CompileProcess_plain spec v p :
  CompileProcess env_ok rule_ok reg spec v = inr p ->
  p_Spec p = spec /\ d_Name (p_Definition p) = sp_Name spec /\ d_Version (p_Definition p) = v
  /\ plain (p_Definition p).
Proof.
  unfold CompileProcess. destruct (compile_nodes _) as [|nodes] eqn:En; [done|].
  case_bool_decide as EV; [|done]. simpl. destruct (compile_forms _ _ _ _ _ _) as [|forms]; [done|]. intros [= <-]. simpl.
  apply compile_nodes_plain in En. rewrite Forall_lookup in En.
  assert (HN : forall n, n ∈ nodes -> n_DeadlineRule n = "" /\ n_AssignRule n = "" /\ n_Effects n = []).
  { intros n [i Hi]%list_elem_of_lookup. by apply (En i). }
  split_and!; [done..|]. split; [done|]. unfold EffectNames, DeadlineRules, AssignRules. simpl.
  split_and!; apply no_names; intros x Hx.
  - apply elem_of_app in Hx as [Hx|Hx].
    + apply list_elem_of_In, in_concat in Hx as (l & Hl & Hx). apply list_elem_of_In, list_elem_of_fmap in Hl as (n & -> & Hn).
      destruct (HN n Hn) as (_ & _ & E). by rewrite E in Hx.
    + apply list_elem_of_In, in_concat in Hx as (l & Hl & Hx). apply list_elem_of_In, list_elem_of_fmap in Hl as (t & -> & Ht).
      apply list_elem_of_fmap in Ht as (ts & -> & _). done.
  - apply list_elem_of_fmap in Hx as (n & -> & Hn). apply HN. apply list_elem_of_In, filter_In in Hn as [Hn _].
    by apply list_elem_of_In.
  - apply list_elem_of_fmap in Hx as (n & -> & Hn). by apply HN.
Qed.

(** A specification that compiles at version 1 compiles at every version. *)
Lemma CompileProcess_version spec v p :
  1 <= v -> CompileProcess env_ok rule_ok reg spec 1 = inr p ->
  CompileProcess env_ok rule_ok reg spec v = inr (with_version p v).
Proof.
  intros Hv. unfold CompileProcess. destruct (compile_nodes _) as [|nodes]; [done|].
  case_bool_decide as E1; [|done]. simpl. intros Hp.
  rewrite bool_decide_eq_true_2; [|by apply (Validate_version _ v Hv) in E1]. simpl.
  destruct (compile_forms _ _ _ _ _ _) as [|forms]; [done|]. by injection Hp as <-.
Qed.

Lemma CompileProcess_positive spec v p : CompileProcess env_ok rule_ok reg spec v = inr p -> 1 <= v.
Proof.
  intros (_ & _ & <- & HV & _)%CompileProcess_plain. apply Validate_parts in HV. exact (vd_version _ HV).
Qed.

End Compiled.

Section Catalog.
Context {D : Type} `{Repository D} (number : string -> jval).
Context (env_ok : list string -> bool) (rule_ok : list string -> string -> bool) (reg : gmap string FieldType).
Implicit Types (c : Catalog (D := D)) (db : ProcessDB (D := D)).

Abbreviation compile := (CompileProcess env_ok rule_ok reg).

(** The process a stored version stands for. *)
Definition process_of (sv : StoredVersion) : option Process :=
  spec ← ParseProcessSpec (sv_Spec sv);
  match compile spec (sv_Version sv) with inr p => Some p | inl _ => None end.

Definition sv_id (sv : StoredVersion) : string * Z := (sv_Name sv, sv_Version sv).

(** A stored version compiles, under its own name. *)
Definition stored_ok (sv : StoredVersion) : Prop :=
  exists p, process_of sv = Some p /\ d_Name (p_Definition p) = sv_Name sv.

Record versions_ok (l : list StoredVersion) : Prop := mkVersionsOk {
  vo_stored : forall sv, sv ∈ l -> stored_ok sv;
  vo_unique : NoDup (sv_id <$> l) }.

(** What the catalog holds is stored, under its key, and registered with the engine; the
    latest version of a name is the highest it holds. *)
Record catalog_ok (l : list StoredVersion) c : Prop := mkCatalogOk {
  co_stored : forall k p, ct_byKey c !! k = Some p ->
    k = Key (p_Definition p)
    /\ (exists sv, sv ∈ l /\ process_of sv = Some p /\ d_Name (p_Definition p) = sv_Name sv)
    /\ e_definitions (ct_engine c) !! k = Some (p_Definition p);
  co_latest : forall n v, ct_latest c !! n = Some v ->
    is_Some (Catalog_Get c n v) /\ forall v', is_Some (Catalog_Get c n v') -> v' <= v;
  co_some : forall n v, is_Some (Catalog_Get c n v) -> is_Some (ct_latest c !! n) }.

Definition NewCatalog (e : Engine D) : Catalog (D := D) := mkCatalog e ∅ ∅.

Lemma catalog_ok_new l e : catalog_ok l (NewCatalog e).
Proof.
  constructor.
  - intros k p Hk. simpl in Hk. by rewrite lookup_empty in Hk.
  - intros n v Hn. simpl in Hn. by rewrite lookup_empty in Hn.
  - intros n v [p Hn]. unfold Catalog_Get in Hn. simpl in Hn. by rewrite lookup_empty in Hn.
Qed.

Lemma process_of_facts sv p :
  process_of sv = Some p ->
  d_Version (p_Definition p) = sv_Version sv /\ 1 <= sv_Version sv /\ plain (p_Definition p).
Proof.
  unfold process_of. intros (spec & _ & Hp)%bind_Some. destruct (compile spec (sv_Version sv)) as [|q] eqn:E; [done|].
  injection Hp as ->. split_and!; [..|].
  - by apply CompileProcess_plain in E as (_ & _ & -> & _).
  - by apply CompileProcess_positive in E.
  - by apply CompileProcess_plain in E as (_ & _ & _ & ?).
Qed.

(** Two stored versions of one key are the same. *)
Lemma process_of_key l sv sv' p p' :
  versions_ok l -> sv ∈ l -> sv' ∈ l -> process_of sv = Some p -> process_of sv' = Some p' ->
  d_Name (p_Definition p) = sv_Name sv -> d_Name (p_Definition p') = sv_Name sv' ->
  Key (p_Definition p) = Key (p_Definition p') -> p = p'.
Proof.
  intros [_ Hu] Hin Hin' Hp Hp' En En' Ek. unfold Key in Ek. apply definition_key_inj in Ek as [E1 E2].
  pose proof (process_of_facts _ _ Hp) as (Ev & _). pose proof (process_of_facts _ _ Hp') as (Ev' & _).
  assert (Es : sv = sv'); [|congruence].
  apply list_elem_of_lookup in Hin as [i Hi]. apply list_elem_of_lookup in Hin' as [j Hj].
  assert (i = j) as <-; [|congruence]. eapply NoDup_lookup; [exact Hu|..].
  - rewrite list_lookup_fmap, Hi. done.
  - rewrite list_lookup_fmap, Hj. simpl. unfold sv_id. congruence.
Qed.

(** A process added to the catalog. *)
Definition added (e : Engine D) (p : Process) c : Catalog (D := D) :=
  let d := p_Definition p in
  mkCatalog e (<[Key d := p]> (ct_byKey c))
    (if default 0 (ct_latest c !! d_Name d) <? d_Version d then <[d_Name d := d_Version d]> (ct_latest c) else ct_latest c).

Lemma added_get e p c n v :
  is_Some (Catalog_Get (added e p c) n v) <->
  n = d_Name (p_Definition p) /\ v = d_Version (p_Definition p) \/ is_Some (Catalog_Get c n v).
Proof.
  unfold Catalog_Get. simpl. destruct (decide (Key (p_Definition p) = definition_key n v)) as [E|E].
  - rewrite E, lookup_insert_eq. apply definition_key_inj in E as [-> ->]. split; eauto.
  - rewrite lookup_insert_ne by done. split; [auto|]. intros [[-> ->]|?]; [done|auto].
Qed.

Lemma added_latest l e p c :
  catalog_ok l c -> 1 <= d_Version (p_Definition p) ->
  (forall n v, ct_latest (added e p c) !! n = Some v ->
     is_Some (Catalog_Get (added e p c) n v) /\ forall v', is_Some (Catalog_Get (added e p c) n v') -> v' <= v)
  /\ (forall n v, is_Some (Catalog_Get (added e p c) n v) -> is_Some (ct_latest (added e p c) !! n)).
Proof.
  intros Hc Hv. setoid_rewrite added_get. unfold added. simpl. destruct (_ <? _) eqn:Elt; split.
  - intros n v [[<- <-]|[Hne Hn]]%lookup_insert_Some.
    + split; [by left|]. intros v' [[_ ->]|Hv']; [lia|]. destruct (co_some l c Hc _ _ Hv') as [w Hw].
      pose proof (proj2 (co_latest l c Hc _ _ Hw) _ Hv'). rewrite Hw in Elt. simpl in Elt. lia.
    + destruct (co_latest l c Hc _ _ Hn) as [Hs Hm]. split; [by right|]. intros v' [[? _]|Hv']; [done|auto].
  - intros n v Hn. destruct (decide (d_Name (p_Definition p) = n)) as [->|Hne]; [by rewrite lookup_insert_eq|].
    rewrite lookup_insert_ne by done. destruct Hn as [[? _]|Hn]; [done|]. by apply (co_some l c Hc) in Hn.
  - intros n v Hn. destruct (co_latest l c Hc _ _ Hn) as [Hs Hm]. split; [by right|].
    intros v' [[-> ->]|Hv']; [|auto]. rewrite Hn in Elt. simpl in Elt. lia.
  - intros n v [[-> ->]|Hs]; [|by apply (co_some l c Hc) in Hs].
    destruct (ct_latest c !! d_Name (p_Definition p)); [done|]. simpl in Elt. lia.
Qed.

Lemma Catalog_add_ok l c sv p :
  versions_ok l -> catalog_ok l c -> sv ∈ l -> process_of sv = Some p -> d_Name (p_Definition p) = sv_Name sv ->
  exists c', Catalog_add p c = Ok c' /\ catalog_ok l c'
    /\ Catalog_Get c' (sv_Name sv) (sv_Version sv) = Some p
    /\ (forall k q, ct_byKey c !! k = Some q -> ct_byKey c' !! k = Some q).
Proof.
  intros Hl Hc Hin Hp En. pose proof (process_of_facts _ _ Hp) as (Ev & Hv & Hplain). unfold Catalog_add.
  rewrite <- En, <- Ev. rewrite <- Ev in Hv. destruct (Catalog_Get c _ _) as [q|] eqn:Eg.
  - exists c. assert (q = p) as ->; [|split_and!; eauto].
    destruct (co_stored l c Hc _ _ Eg) as (Ek & (sv' & Hin' & Hp' & En') & _). by apply (process_of_key l sv' sv).
  - destruct (Register_plain (ct_engine c) _ Hplain) as [e' He']. rewrite He'. exists (added e' p c). split; [done|].
    apply Register_Ok in He' as (_ & Ed & _). destruct (added_latest l e' p c Hc Hv) as [Hla Hso].
    split_and!; [constructor; [|done..]|unfold Catalog_Get; apply lookup_insert_eq|].
    + simpl. intros k q [[<- <-]|[Hne Hk]]%lookup_insert_Some.
      { split_and!; [done|eauto|]. by rewrite Ed, lookup_insert_eq. }
      destruct (co_stored l c Hc _ _ Hk) as (Ek & Hs & Hd). split_and!; [done..|]. by rewrite Ed, lookup_insert_ne.
    + intros k q Hk. simpl. rewrite lookup_insert_ne; [done|]. intros <-. unfold Catalog_Get, Key in *. congruence.
Qed.

Lemma load_all_ok l stored c :
  versions_ok l -> catalog_ok l c -> (forall sv, sv ∈ stored -> sv ∈ l) ->
  exists c', load_all env_ok rule_ok reg stored c = (c', Ok tt) /\ catalog_ok l c'
    /\ (forall sv p, sv ∈ stored -> process_of sv = Some p -> Catalog_Get c' (sv_Name sv) (sv_Version sv) = Some p)
    /\ (forall k q, ct_byKey c !! k = Some q -> ct_byKey c' !! k = Some q).
Proof.
  intros Hl. revert c. induction stored as [|sv stored IH]; intros c Hc Hs; simpl.
  { exists c. split_and!; [done..| |done]. by intros sv p Hn%not_elem_of_nil. }
  destruct (vo_stored l Hl sv (Hs _ (list_elem_of_here _ _))) as (p & Hp & En).
  destruct (Catalog_add_ok l c sv p Hl Hc (Hs _ (list_elem_of_here _ _)) Hp En) as (c1 & Ha & Hc1 & Hg1 & Hm1).
  destruct (IH c1 Hc1) as (c' & Hr & Hc' & Hg & Hm); [intros ??; apply Hs; by right|].
  exists c'. unfold process_of in Hp. apply bind_Some in Hp as (spec & Hps & Hp). rewrite Hps.
  destruct (compile spec (sv_Version sv)) as [|q] eqn:Eq; [done|]. injection Hp as ->. rewrite Ha.
  split_and!; [done..| |auto]. intros sv' p' [->|Hin]%elem_of_cons Hp'; [|by apply Hg].
  unfold process_of in Hp'. rewrite Hps in Hp'. simpl in Hp'. rewrite Eq in Hp'. injection Hp' as <-. by apply Hm.
Qed.

(** ** Storing a version *)

Lemma versions_of_spec name v db :
  v ∈ versions_of name db <-> exists sv, sv ∈ pd_versions db /\ sv_id sv = (name, v).
Proof.
  unfold versions_of. rewrite list_elem_of_fmap. split.
  - intros (sv & -> & Hin). apply list_elem_of_In, filter_In in Hin as [Hin E]. apply bool_decide_eq_true in E as <-.
    exists sv. split; [by apply list_elem_of_In|done].
  - intros (sv & Hin & [= <- <-]). exists sv. split; [done|]. apply list_elem_of_In, filter_In.
    split; [by apply list_elem_of_In | by apply bool_decide_eq_true].
Qed.

Lemma max_version_le name v db : v ∈ versions_of name db -> v <= max_version name db.
Proof.
  unfold max_version. induction (versions_of name db) as [|w l IH]; [by intros ?%not_elem_of_nil|].
  simpl. intros [->|Hin%IH]%elem_of_cons; lia.
Qed.

Lemma max_version_nonneg name db : 0 <= max_version name db.
Proof. unfold max_version. induction (versions_of name db); simpl; lia. Qed.

(** A specification stored under a version its name does not have yet. *)
Lemma versions_ok_add db spec v p :
  versions_ok (pd_versions db) -> canonical number spec -> compile spec 1 = inr p -> 1 <= v ->
  v ∉ versions_of (sp_Name spec) db ->
  let sv := mkStoredVersion (sp_Name spec) v (jsonb number (enc_spec spec)) in
  versions_ok (pd_versions db ++ [sv]) /\ process_of sv = Some (with_version p v)
  /\ d_Name (p_Definition (with_version p v)) = sv_Name sv.
Proof.
  intros [Hs Hu] Hcan Hp Hv Hnew sv.
  assert (Hpo : process_of sv = Some (with_version p v)).
  { unfold process_of, sv. cbn [sv_Spec sv_Version]. rewrite (ParseProcessSpec_stored number spec Hcan). cbn.
    by rewrite (CompileProcess_version env_ok rule_ok reg spec v p Hv Hp). }
  assert (En : d_Name (p_Definition (with_version p v)) = sv_Name sv) by (apply CompileProcess_plain in Hp as (_ & E & _); exact E).
  split_and!; [constructor|done..].
  - intros sv' [Hin| ->%list_elem_of_singleton]%elem_of_app; [by apply Hs|]. by exists (with_version p v).
  - rewrite fmap_app. apply NoDup_app. split_and!; [done| |apply NoDup_singleton].
    intros x (sv' & -> & Hin)%list_elem_of_fmap Hx%list_elem_of_singleton. apply Hnew, versions_of_spec. by exists sv'.
Qed.

Lemma catalog_ok_more l l' c : catalog_ok l c -> (forall sv, sv ∈ l -> sv ∈ l') -> catalog_ok l' c.
Proof.
  intros [H1 H2 H3] Hl. constructor; [|done..]. intros k p Hk. destruct (H1 k p Hk) as (? & (sv & Hin & ?) & ?). eauto 8.
Qed.

End Catalog.
