(* ===== verification/ProcessTheorems.v ===== *)
(** Properties of the process application: what a form keeps and reports, that a
    submission is recorded whole or not at all, and that published processes survive a
    restart. *)

From stdpp Require Import base gmap list sorting strings relations.
From Stdlib Require Import ZArith Lia.
From S2P Require Import Prelude GoStrings Errors Model Definitions JoinPolicies Repo Ports Events Run.
From S2P Require Import Validate Engine ValidateFacts Postgres Scenario DefinitionTheorems ProcessForm ProcessService.
From S2P Require Import ProcessFacts.

Open Scope string_scope.
Open Scope list_scope.
Open Scope Z_scope.

(** ** Forms *)

Definition form_keys (f : Form) : list string := (fun cf => cf_key cf) <$> f_fields f.

Section FormTheorems.
Context (env_ok : list string -> bool) (rule_ok : list string -> string -> bool)
  (eval : list string -> string -> gmap string jval -> option bool) (reg : gmap string FieldType).

(** C20: a submission to a compiled form is accepted exactly when every submitted key is a
    field of the form and no field has an error (its rule fails, a shown required field is
    not given, or a shown given value is not of its type), and then the form keeps exactly
    the given values of the shown fields; a refused one reports every such error and
    nothing else.  A hidden field never contributes a value or an error. *)
Theorem form_validates_exactly allFields nodeFields f submitted caseData :
  CompileForm env_ok rule_ok reg allFields nodeFields = Some f ->
  let vars := form_vars f submitted caseData in
  let bad k m := m = MNotField /\ is_Some (submitted !! k) /\ k ∉ form_keys f
                 \/ exists cf, cf ∈ f_fields f /\ cf_key cf = k /\ error_of eval f vars submitted cf m in
  match Form_Validate eval f submitted caseData with
  | inr out => (forall k m, ~ bad k m)
      /\ forall k v, out !! k = Some v <->
           exists cf, cf ∈ f_fields f /\ cf_key cf = k /\ accepted eval f vars submitted cf v
  | inl errs => (exists k m, bad k m) /\ forall k m, errs !! k = Some m <-> bad k m
  end.
Proof.
  intros [_ Hnd]%CompileForm_keys vars bad. unfold Form_Validate. fold vars.
  pose proof (verdicts_spec (validate_field eval (f_vars f) vars submitted) (f_fields f)
    ((fun _ => MNotField) <$> filter (fun kv => kv.1 ∉ form_keys f) submitted) Hnd) as Hspec.
  unfold verdict_step in Hspec. destruct (foldl _ _ (f_fields f)) as [errs out].
  destruct Hspec as [He Ho].
  { intros k Hk. rewrite lookup_fmap, fmap_None. apply map_lookup_filter_None. right. intros v _ Hn. by apply Hn. }
  assert (Hbad : forall k m, errs !! k = Some m <-> bad k m).
  { intros k m. rewrite He. unfold bad. setoid_rewrite <- (proj1 (validate_field_spec eval f vars submitted _)).
    rewrite lookup_fmap, fmap_Some. setoid_rewrite map_lookup_filter_Some. simpl. split.
    - intros [(v & [Hv Hk] & ->)|Hx]; [left; eauto|by right].
    - intros [(-> & [v Hv] & Hk)|Hx]; [left; eauto|by right]. }
  case_bool_decide as E.
  - split; [intros k m Hb%Hbad; by rewrite E, lookup_empty in Hb|]. intros k v. rewrite Ho.
    by setoid_rewrite (proj2 (validate_field_spec eval f vars submitted _)).
  - split; [|done]. apply map_choose in E as (k & m & Hk). exists k, m. by apply Hbad.
Qed.

End FormTheorems.

(** ** Submissions *)

Section SubmitTheorems.
Context {D : Type} `{Repository D} (number : string -> jval).
Context (eval : list string -> string -> gmap string jval -> option bool).
Implicit Types (c : Catalog (D := D)) (db : ProcessDB (D := D)).

Definition value_step (caseID : uuid) (m : gmap string jval) (r : CaseValue) : gmap string jval :=
  if bool_decide (cv_CaseID r = caseID) then <[cv_Field r := cv_Value r]> m else m.

Lemma saved_rows_lookup caseID nodeID actorID (values : gmap string jval) keys m f :
  foldl (value_step caseID) m
    (omap (fun k => (fun v => mkCaseValue caseID k (jsonb number v) nodeID actorID) <$> values !! k) keys) !! f =
  match values !! f with
  | Some v => if bool_decide (f ∈ keys) then Some (jsonb number v) else m !! f
  | None => m !! f
  end.
Proof.
  revert m. induction keys as [|k keys IH]; intros m; simpl; [by destruct (values !! f)|].
  destruct (decide (f = k)) as [->|Hne].
  - rewrite (bool_decide_eq_true_2 (k ∈ k :: keys)) by apply list_elem_of_here.
    destruct (values !! k) as [v|] eqn:Ek; simpl; rewrite IH, ?Ek; [|done].
    unfold value_step. simpl. rewrite (bool_decide_eq_true_2 (caseID = caseID)), lookup_insert_eq by done. by destruct (bool_decide _).
  - rewrite (bool_decide_ext (f ∈ k :: keys) (f ∈ keys)) by (rewrite elem_of_cons; tauto).
    destruct (values !! k) as [v|]; simpl; rewrite IH; [|done].
    unfold value_step. simpl. by rewrite (bool_decide_eq_true_2 (caseID = caseID)), lookup_insert_ne.
Qed.

(** The rows [Save] adds. *)
Definition saved_rows (caseID : uuid) (nodeID actorID : string) (values : gmap string jval) : list CaseValue :=
  omap (fun k => (fun v => mkCaseValue caseID k (jsonb number v) nodeID actorID) <$> values !! k)
    (merge_sort String.le (elements (dom values))).

Lemma saved_current caseID nodeID actorID values db :
  Current caseID (mkProcessDB (pd_cases db) (pd_values db ++ saved_rows caseID nodeID actorID values) (pd_versions db))
  = (jsonb number <$> values) ∪ Current caseID db.
Proof.
  unfold Current. simpl. rewrite foldl_app. fold (value_step caseID). apply map_eq. intros f.
  rewrite lookup_union, lookup_fmap. unfold saved_rows. rewrite saved_rows_lookup.
  destruct (values !! f) as [v|] eqn:Ef; simpl; [|symmetry; apply (left_id_L None (∪))].
  rewrite bool_decide_eq_true_2; [by destruct (foldl _ _ _ !! f)|].
  rewrite merge_sort_Permutation. apply elem_of_elements, elem_of_dom. eauto.
Qed.

Lemma saved_rows_case caseID nodeID actorID values r :
  r ∈ saved_rows caseID nodeID actorID values -> cv_CaseID r = caseID /\ cv_NodeID r = nodeID /\ cv_ActorID r = actorID.
Proof. intros (k & _ & (v & _ & ->)%fmap_Some)%list_elem_of_omap. done. Qed.

Lemma saved_others caseID nodeID actorID values db db' :
  pd_values db' = pd_values db ++ saved_rows caseID nodeID actorID values ->
  forall other, other <> caseID -> ValueHistory other db' = ValueHistory other db.
Proof.
  intros Hv other Hne. unfold ValueHistory. rewrite Hv, List.filter_app.
  assert (Hn : forall r, r ∈ saved_rows caseID nodeID actorID values -> cv_CaseID r <> other)
    by (intros r (E & _)%saved_rows_case; congruence).
  clear Hv. induction (saved_rows _ _ _ _) as [|r rows IH]; [by rewrite app_nil_r|]. simpl.
  rewrite bool_decide_eq_false_2 by (apply Hn, list_elem_of_here). apply IH. intros r' Hr'. apply Hn. by right.
Qed.

Lemma BeginFunc_Ok {A} (f : ProcessDB (D := D) -> ProcessDB * presult A) db db' a :
  BeginFunc f db = (db', Ok a) -> f db = (db', Ok a).
Proof. unfold BeginFunc. destruct (f db) as [db1 []]; congruence. Qed.

Lemma BeginFunc_fail {A} (f : ProcessDB (D := D) -> ProcessDB * presult A) db db' r :
  BeginFunc f db = (db', r) -> (forall a, r <> Ok a) -> db' = db.
Proof. unfold BeginFunc. destruct (f db) as [db1 []]; intros [= <- <-] Hn; try done. by destruct (Hn a). Qed.

(** What an accepted submission has to be, and what it leaves. *)
Record submitted_ok c (cx : Ctx) (actor : string) (caseID tokenID : uuid) (action : string)
    (values : gmap string jval) db db' (moved : Case) : Prop := mkSubmittedOk {
  so_plan : exists current tok p clean,
    repo_GetByID (pd_cases db) caseID = inr current /\ c_Status current = StatusOpen
    /\ activeToken c (pd_cases db) caseID tokenID = Ok tok /\ t_AssignedTo tok = actor
    /\ Catalog_Get c (c_Definition current) (c_Version current) = Some p
    /\ ValidateNode eval p (t_Node tok) values (Current caseID db) = inr clean
    /\ pd_values db' = pd_values db ++ saved_rows caseID (t_Node tok) actor clean
    /\ Current caseID db' = (jsonb number <$> clean) ∪ Current caseID db
    /\ Move (ct_engine c) cx (move_input caseID (t_ID tok) action actor) (pd_cases db) = (pd_cases db', Ok moved);
  so_others : forall other, other <> caseID -> ValueHistory other db' = ValueHistory other db;
  so_versions : pd_versions db' = pd_versions db }.

Lemma submit_tx_Ok c cx actor caseID tokenID action values db db' moved :
  submit_tx number eval c cx actor caseID tokenID action values db = (db', Ok moved) ->
  submitted_ok c cx actor caseID tokenID action values db db' moved.
Proof.
  unfold submit_tx, submit_plan, tx_bind, tx_res, on_cases.
  destruct (repo_GetByID (pd_cases db) caseID) as [|current] eqn:Eg; [done|]. simpl.
  case_bool_decide as Eo; simpl; [|done].
  destruct (activeToken c (pd_cases db) caseID tokenID) as [tok| | |] eqn:Et; [|done..]. simpl.
  case_bool_decide as Ea; simpl; [|done].
  destruct (Catalog_Get c _ _) as [p|] eqn:Ep; [|done].
  destruct (ValidateNode _ _ _ _ _) as [|clean] eqn:Ev; [done|]. simpl.
  destruct (Move _ _ _ _) as [d r] eqn:Em. destruct r as [cs| | |]; [|done..]. simpl. intros [= <- <-].
  constructor; [|by eapply saved_others|done]. exists current, tok, p, clean. split_and!; try done.
  exact (saved_current caseID (t_Node tok) actor clean db).
Qed.

(** C18: a submission is recorded whole or not at all.  When it is accepted the case was
    open, the acting person held the token claimed, the values passed the form of the
    token's node, exactly they were appended and are now current (over those of before),
    and the engine's move is what changed the case.  When it is refused no value is left;
    the cases are as they were, unless the move itself was rejected, whose failure is then
    recorded in its own transaction. *)
Theorem submit_atomic c cx cx' actor caseID tokenID action values db db' r :
  Submit number eval c cx cx' actor caseID tokenID action values db = (db', r) ->
  match r with
  | Ok moved => submitted_ok c cx actor caseID tokenID action values db db' moved
  | _ =>
      pd_values db' = pd_values db /\ pd_versions db' = pd_versions db
      /\ (pd_cases db' = pd_cases db
          \/ exists e kind moved ev,
               submit_tx number eval c cx actor caseID tokenID action values db = (ev.1, Err e)
               /\ process_failure_kind e = Some kind /\ r = Err e
               /\ RecordFailure (ct_engine c) cx' (mkFailureInput caseID moved (human actor) action kind RawNone) (pd_cases db)
                  = (pd_cases db', Ok ev.2))
  end.
Proof.
  unfold Submit. destruct (BeginFunc (submit_tx _ _ _ _ _ _ _ _ _) db) as [db1 r1] eqn:Eb.
  destruct r1 as [moved|e| |].
  - intros [= <- <-]. by apply submit_tx_Ok, BeginFunc_Ok.
  - assert (db1 = db) as -> by (by eapply BeginFunc_fail).
    destruct (process_failure_kind e) as [kind|] eqn:Ek; [|intros [= <- <-]; auto].
    destruct (BeginFunc (on_cases _) db) as [db2 r2] eqn:Er. destruct r2 as [ev|e'| |].
    2-4: (assert (db2 = db) as -> by (by eapply BeginFunc_fail)); intros [= <- <-]; auto.
    intros [= <- <-]. apply BeginFunc_Ok in Er. unfold on_cases in Er. destruct (RecordFailure _ _ _ _) as [d rf] eqn:Ef.
    destruct rf as [ev'| | |]; [|done..]. injection Er as <- <-. split_and!; [done..|]. right. simpl.
    unfold BeginFunc in Eb. destruct (submit_tx _ _ _ _ _ _ _ _ _ db) as [db3 r3]; destruct r3; [done| |done..].
    injection Eb as <-. by eexists _, kind, _, (db3, ev').
  - intros [= <- <-]. assert (db1 = db) as -> by (by eapply BeginFunc_fail). auto.
  - intros [= <- <-]. assert (db1 = db) as -> by (by eapply BeginFunc_fail). auto.
Qed.

End SubmitTheorems.

(** ** The catalog *)

Section CatalogTheorems.
Context {D : Type} `{Repository D} (number : string -> jval).
Context (env_ok : list string -> bool) (rule_ok : list string -> string -> bool) (reg : gmap string FieldType).
Context (boot : Engine D).
Abbreviation state := (Catalog (D := D) * ProcessDB (D := D))%type.

(** One step of the life of a catalog and the database it shares: a publish, a start-up
    publish, a load, a restart with a fresh catalog and engine, a publish by another
    process, and anything done to cases and their values. *)
Inductive catalog_step : state -> state -> Prop :=
| step_publish conflict spec s s' r :
    canonical number spec -> Publish number env_ok rule_ok reg conflict spec s = (s', r) -> catalog_step s s'
| step_ensure raw spec s s' r :
    ParseProcessSpec raw = Some spec -> canonical number spec ->
    EnsurePublished number env_ok rule_ok reg raw s = (s', r) -> catalog_step s s'
| step_load s s' r : Load env_ok rule_ok reg s = (s', r) -> catalog_step s s'
| step_restart c db : catalog_step (c, db) (NewCatalog boot, db)
| step_elsewhere c spec db p :
    canonical number spec -> CompileProcess env_ok rule_ok reg spec 1 = inr p ->
    catalog_step (c, db) (c, (InsertVersion number (sp_Name spec) (enc_spec spec) db).1)
| step_cases c db d values : catalog_step (c, db) (c, mkProcessDB d values (pd_versions db)).

Definition state_ok (s : state) : Prop :=
  versions_ok env_ok rule_ok reg (pd_versions s.2) /\ catalog_ok env_ok rule_ok reg (pd_versions s.2) s.1.

Abbreviation process_of' := (process_of env_ok rule_ok reg).

Lemma Load_ok s :
  state_ok s -> exists c', Load env_ok rule_ok reg s = ((c', s.2), Ok tt) /\ state_ok (c', s.2)
    /\ (forall sv p, sv ∈ pd_versions s.2 -> process_of' sv = Some p -> Catalog_Get c' (sv_Name sv) (sv_Version sv) = Some p)
    /\ (forall k q, ct_byKey s.1 !! k = Some q -> ct_byKey c' !! k = Some q).
Proof.
  intros [Hv Hc]. unfold Load, AllVersions. pose proof (merge_sort_Permutation sv_le (pd_versions s.2)) as Hp.
  destruct (load_all_ok env_ok rule_ok reg _ (merge_sort sv_le (pd_versions s.2)) s.1 Hv Hc) as (c' & -> & Hc' & Hg & Hm).
  { intros sv. by rewrite Hp. }
  exists c'. split_and!; [done..| |done]. intros sv p Hin. apply Hg. by rewrite Hp.
Qed.

(** A version stored and added to the catalog. *)
Lemma store_and_add c db spec v p :
  state_ok (c, db) -> canonical number spec -> CompileProcess env_ok rule_ok reg spec 1 = inr p ->
  1 <= v -> v ∉ versions_of (sp_Name spec) db ->
  let db' := add_version (mkStoredVersion (sp_Name spec) v (jsonb number (enc_spec spec))) db in
  state_ok (c, db') /\ exists c', Catalog_add (with_version p v) c = Ok c' /\ state_ok (c', db')
    /\ Catalog_Get c' (sp_Name spec) v = Some (with_version p v).
Proof.
  intros [Hv Hc] Hcan Hp Hpos Hnew db'.
  destruct (versions_ok_add number env_ok rule_ok reg db spec v p Hv Hcan Hp Hpos Hnew) as (Hv' & Hpo & En).
  assert (Hc0 : catalog_ok env_ok rule_ok reg (pd_versions db') c).
  { eapply catalog_ok_more; [exact Hc|]. intros sv Hin. apply elem_of_app. by left. }
  split; [done|]. destruct (Catalog_add_ok env_ok rule_ok reg _ c _ (with_version p v) Hv' Hc0 ltac:(apply elem_of_app; right; apply list_elem_of_here) Hpo En)
    as (c' & Ha & Hc' & Hg & _).
  exists c'. by split_and!.
Qed.

Lemma fresh_version name (db : ProcessDB (D := D)) : max_version name db + 1 ∉ versions_of name db.
Proof. intros Hin%max_version_le. lia. Qed.
#[local] Hint Resolve fresh_version : core.

Lemma Publish_ok conflict spec s :
  state_ok s -> canonical number spec ->
  exists s' r, Publish number env_ok rule_ok reg conflict spec s = (s', r) /\ state_ok s'
    /\ match CompileProcess env_ok rule_ok reg spec 1 with
       | inl e => s' = s /\ r = Err (CompileError e)
       | inr p => if conflict then s' = s /\ r = Err ErrPublishConflict
                  else let v := max_version (sp_Name spec) s.2 + 1 in
                       r = Ok (with_version p v) /\ Catalog_Get s'.1 (sp_Name spec) v = Some (with_version p v)
                       /\ pd_versions s'.2 = pd_versions s.2 ++ [mkStoredVersion (sp_Name spec) v (jsonb number (enc_spec spec))]
       end.
Proof.
  destruct s as [c db]. intros Hs Hcan. unfold Publish.
  destruct (CompileProcess env_ok rule_ok reg spec 1) as [e|p] eqn:Ep; [by eexists _, _; split_and!|].
  destruct conflict; [by eexists _, _; split_and!|]. simpl.
  pose proof (max_version_nonneg (sp_Name spec) db) as Hm.
  destruct (store_and_add c db spec (max_version (sp_Name spec) db + 1) p Hs Hcan Ep) as (_ & c' & Ha & Hc' & Hg); [lia|done|].
  rewrite Ha. eexists _, _. by split_and!.
Qed.

Lemma EnsurePublished_ok raw spec s :
  state_ok s -> ParseProcessSpec raw = Some spec -> canonical number spec ->
  state_ok (EnsurePublished number env_ok rule_ok reg raw s).1.
Proof.
  destruct s as [c db]. intros Hs Hraw Hcan. unfold EnsurePublished. rewrite Hraw. cbn [fst snd].
  destruct (Catalog_Latest c (sp_Name spec)); [done|].
  destruct (CompileProcess env_ok rule_ok reg spec 1) as [e|p] eqn:Ep; [done|]. unfold InsertFirst.
  case_bool_decide as E.
  - destruct (store_and_add c db spec 1 p Hs Hcan Ep) as (_ & c' & Ha & Hc' & Hg); [lia|rewrite E; apply not_elem_of_nil|].
    assert (Hw : with_version p 1 = p).
    { pose proof (CompileProcess_plain _ _ _ _ _ _ Ep) as (_ & _ & Ev & _). destruct p as [sp d fo]. unfold with_version. simpl in *.
      destruct d. simpl in *. by subst. }
    rewrite Hw in Ha. by rewrite Ha.
  - destruct (Load_ok (c, db) Hs) as (c' & -> & Hc' & _). done.
Qed.

Lemma catalog_step_ok s s' : catalog_step s s' -> state_ok s -> state_ok s'.
Proof.
  intros Hstep Hs. destruct Hstep.
  - edestruct (Publish_ok conflict spec s Hs) as (s1 & r1 & E & Hs1 & _); [done|]. congruence.
  - pose proof (EnsurePublished_ok raw spec s Hs) as Ho. by rewrite H2 in Ho; apply Ho.
  - destruct (Load_ok s Hs) as (c' & E & Hc' & _). congruence.
  - destruct Hs as [Hv _]. split; [done|]. apply catalog_ok_new.
  - pose proof (max_version_nonneg (sp_Name spec) db) as Hm.
    eapply (store_and_add c db spec (max_version (sp_Name spec) db + 1) p Hs); [done..|lia|done].
  - done.
Qed.

Lemma published_states_ok (db0 : ProcessDB (D := D)) s :
  pd_versions db0 = [] -> rtc catalog_step (NewCatalog boot, db0) s -> state_ok s.
Proof.
  intros H0 Hr. assert (Hs : state_ok (NewCatalog boot, db0)).
  { split; [|apply catalog_ok_new]. simpl. rewrite H0. constructor; [by intros sv Hn%not_elem_of_nil|]. apply NoDup_nil_2. }
  clear H0. revert Hs. induction Hr as [|s1 s2 s3 Hstep _ IH]; [done|]. intros Hs. by eapply IH, catalog_step_ok.
Qed.

(** The latest process of a catalog that holds the highest stored version. *)
Lemma latest_highest s name p :
  state_ok s -> Catalog_Get s.1 name (max_version name s.2) = Some p -> Catalog_Latest s.1 name = Some p.
Proof.
  intros [Hv Hc] Hg. destruct (co_some _ _ _ _ _ Hc name _ ltac:(by eexists)) as [w Hw].
  destruct (co_latest _ _ _ _ _ Hc _ _ Hw) as [[q Hq] Hmax]. specialize (Hmax (max_version name s.2) ltac:(by eexists)).
  unfold Catalog_Latest. rewrite Hw. simpl. assert (w = max_version name s.2) as ->; [|done].
  destruct (co_stored _ _ _ _ _ Hc _ _ Hq) as (Ek & (sv & Hin & Hp & En) & _).
  apply definition_key_inj in Ek as [En' Ev']. destruct (process_of_facts _ _ _ _ _ Hp) as (Ev & _ & _).
  assert (w <= max_version name s.2); [|lia]. apply max_version_le, versions_of_spec. exists sv.
  split; [done|]. unfold sv_id. congruence.
Qed.

Lemma max_version_snoc name (db db' : ProcessDB (D := D)) sv :
  pd_versions db' = pd_versions db ++ [sv] -> sv_Name sv = name -> 0 <= sv_Version sv ->
  max_version name db' = Z.max (max_version name db) (sv_Version sv).
Proof.
  intros Hst En Hpos. unfold max_version, versions_of. rewrite Hst, List.filter_app, fmap_app. simpl.
  rewrite bool_decide_eq_true_2 by done. simpl. induction (sv_Version <$> _); simpl; lia.
Qed.

Lemma max_version_in name (db : ProcessDB (D := D)) :
  (forall v, v ∈ versions_of name db -> 1 <= v) -> versions_of name db <> [] -> max_version name db ∈ versions_of name db.
Proof.
  unfold max_version. induction (versions_of name db) as [|v l IH]; [done|]. intros Hpos _. simpl.
  destruct (decide (l = [])) as [->|Hl].
  - simpl. rewrite Z.max_l; [apply list_elem_of_here|]. specialize (Hpos v (list_elem_of_here _ _)). lia.
  - assert (Hin : foldr Z.max 0 l ∈ l) by (apply IH; [intros w Hw; apply Hpos; by right|done]).
    destruct (Z.max_spec v (foldr Z.max 0 l)) as [[_ ->]|[_ ->]]; [by right|apply list_elem_of_here].
Qed.


(** publishing a specification that compiles stores it under the version after the
    highest of its name and makes that version the latest at once; one that does not
    compile, or whose version a concurrent publish took, changes nothing. *)
Theorem publish_next_version db0 s conflict spec :
  pd_versions db0 = [] -> rtc catalog_step (NewCatalog boot, db0) s -> canonical number spec ->
  let v := max_version (sp_Name spec) s.2 + 1 in
  match CompileProcess env_ok rule_ok reg spec 1 with
  | inl e => Publish number env_ok rule_ok reg conflict spec s = (s, Err (CompileError e))
  | inr p =>
      if conflict then Publish number env_ok rule_ok reg conflict spec s = (s, Err ErrPublishConflict)
      else exists s', Publish number env_ok rule_ok reg conflict spec s = (s', Ok (with_version p v))
             /\ max_version (sp_Name spec) s'.2 = v /\ Catalog_Latest s'.1 (sp_Name spec) = Some (with_version p v)
  end.
Proof.
  intros H0 Hr Hcan v. pose proof (published_states_ok db0 s H0 Hr) as Hs.
  destruct (Publish_ok conflict spec s Hs Hcan) as (s' & r & HP & Hs' & Hm). revert Hm.
  destruct (CompileProcess env_ok rule_ok reg spec 1) as [e|p]; [by intros [-> ->]|]. destruct conflict; [by intros [-> ->]|].
  intros (-> & Hg & Hst). exists s'. split; [done|].
  assert (Hmax : max_version (sp_Name spec) s'.2 = v).
  { rewrite (max_version_snoc (sp_Name spec) _ _ _ Hst eq_refl); simpl; pose proof (max_version_nonneg (sp_Name spec) s.2); lia. }
  split; [done|]. apply latest_highest; [done|]. by rewrite Hmax.
Qed.

End CatalogTheorems.

(** ** A permit process *)

(** A rule names a variable, and holds where its value is not empty. *)
Definition rule_known (vars : list string) (rule : string) : bool := bool_decide (rule ∈ vars).
Definition rule_holds (vars : list string) (rule : string) (values : gmap string jval) : option bool :=
  match values !! rule with Some (JvStr "") => Some false | Some (JvStr _) => Some true | _ => None end.
Definition any_env (vars : list string) : bool := true.
Definition plain_number (text : string) : jval := JvFrac text.

Definition field_types : gmap string FieldType := default ∅ (NewFieldRegistry (DefaultFieldTypes (fun s => Some s))).

Definition request_form : list FieldSpec :=
  [ mkFieldSpec "kind" "select" "Kind" true (Some (JvObj [("options", JvArr [JvStr "works"; JvStr "event"])])) "";
    mkFieldSpec "detail" "text" "Detail" true (Some (JvObj [("maxLength", JvNum 20)])) "kind" ].
Definition review_form : list FieldSpec := [ mkFieldSpec "remark" "textarea" "Remark" false None "" ].

Definition permit : ProcessSpec :=
  mkProcessSpec "permit"
    [ mkNodeSpec "request" true false None request_form;
      mkNodeSpec "review" false false (Some (mkProfileSpec "reviewer" "north")) review_form;
      mkNodeSpec "done" false true None [] ]
    [ mkTransitionSpec "request" "review" "send"; mkTransitionSpec "review" "done" "approve" ].

Definition permit_form : Form :=
  default (mkForm [] []) (CompileForm any_env rule_known field_types (request_form ++ review_form) request_form).

Definition works : gmap string jval := {[ "kind" := JvStr "works"; "detail" := JvStr "a roof" ]}.
Definition party : gmap string jval := {[ "kind" := JvStr "party" ]}.

Lemma permit_form_compiles :
  CompileForm any_env rule_known field_types (request_form ++ review_form) request_form = Some permit_form.
Proof.
  assert (H : match CompileForm any_env rule_known field_types (request_form ++ review_form) request_form with
              | Some _ => true | None => false end = true) by (vm_compute; reflexivity).
  unfold permit_form. by destruct (CompileForm _ _ _ _ _).
Qed.

Lemma form_validates_exactly_witness :
  CompileForm any_env rule_known field_types (request_form ++ review_form) request_form = Some permit_form
  /\ Form_Validate rule_holds permit_form works ∅ = inr works
  /\ (forall cf, cf ∈ f_fields permit_form -> cf_key cf = "kind" ->
       ~ error_of rule_holds permit_form (form_vars permit_form works ∅) works cf MInvalid)
  /\ exists cf, cf ∈ f_fields permit_form /\ cf_key cf = "detail"
       /\ error_of rule_holds permit_form (form_vars permit_form party ∅) party cf MRequired.
Proof.
  pose proof permit_form_compiles as HC. split; [exact HC|].
  pose proof (form_validates_exactly any_env rule_known rule_holds field_types _ _ _ works ∅ HC) as Hw.
  pose proof (form_validates_exactly any_env rule_known rule_holds field_types _ _ _ party ∅ HC) as Hp.
  cbv zeta in Hw, Hp.
  assert (Ew : Form_Validate rule_holds permit_form works ∅ = inr works) by (vm_compute; reflexivity).
  assert (Ep : Form_Validate rule_holds permit_form party ∅ = inl {[ "kind" := MInvalid; "detail" := MRequired ]})
    by (vm_compute; reflexivity).
  rewrite Ew in Hw. rewrite Ep in Hp. split; [exact Ew|]. split.
  - intros cf Hin Hk He. apply (proj1 Hw "kind" MInvalid). right. exists cf. split; [exact Hin|]. split; [exact Hk|exact He].
  - destruct (proj1 (proj2 Hp "detail" MRequired) ltac:(vm_compute; reflexivity)) as [[Hx _]|Hx]; [discriminate Hx|exact Hx].
Defined.

Definition start_state : Catalog (D := Tables) * ProcessDB := (NewCatalog ports, mkProcessDB db0 [] []).
Definition published : (Catalog (D := Tables) * ProcessDB) * presult Process :=
  Publish plain_number any_env rule_known field_types false permit start_state.
Definition reviewers (position unit : string) : error + list string :=
  inr (if bool_decide (position = "reviewer") then ["luis"] else []).

Definition opened : ProcessDB * presult Case :=
  Start plain_number rule_holds published.1.1 (at_call 1) (at_call 2) "ext-1" "ana" "permit" "send"
    works published.1.2.
Definition claimed : ProcessDB * presult Case :=
  Service_Claim reviewers published.1.1 (at_call 3) "luis" the_case 0%N opened.1.
Definition after_claim : ProcessDB := Eval vm_compute in claimed.1.

Definition submitted : ProcessDB * presult Case :=
  Submit plain_number rule_holds published.1.1 (at_call 4) (at_call 5) "luis" the_case 0%N "approve"
    {[ "remark" := JvStr "fine" ]} after_claim.
Definition after_submit : ProcessDB := Eval vm_compute in submitted.1.
Definition closed_case : Case :=
  Eval vm_compute in match submitted.2 with Ok c => c | _ => case_in db0 end.

Lemma submit_atomic_witness :
  submitted_ok plain_number rule_holds published.1.1 (at_call 4) "luis" the_case 0%N "approve"
    {[ "remark" := JvStr "fine" ]} after_claim after_submit closed_case
  /\ c_Status closed_case = StatusClosed /\ length (pd_values after_submit) = 3%nat.
Proof.
  split; [|split; reflexivity].
  apply (submit_atomic plain_number rule_holds published.1.1 (at_call 4) (at_call 5) "luis" the_case 0%N "approve"
           {[ "remark" := JvStr "fine" ]} after_claim after_submit (Ok closed_case)).
  vm_compute. reflexivity.
Defined.

Lemma permit_canonical : canonical plain_number permit.
Proof. repeat constructor; intros c Hc; vm_compute in Hc; simplify_eq; reflexivity. Qed.

Lemma permit_published : rtc (catalog_step plain_number any_env rule_known field_types ports) start_state published.1.
Proof.
  apply rtc_once. eapply step_publish with (conflict := false) (spec := permit); [exact permit_canonical|].
  unfold published. apply surjective_pairing.
Qed.


Lemma publish_next_version_witness :
  exists s' p, Publish plain_number any_env rule_known field_types false permit published.1 = (s', Ok p)
    /\ max_version "permit" s'.2 = 2 /\ Catalog_Latest s'.1 "permit" = Some p.
Proof.
  pose proof (publish_next_version plain_number any_env rule_known field_types ports (mkProcessDB db0 [] []) published.1
                false permit eq_refl permit_published permit_canonical) as HP.
  assert (HC : match CompileProcess any_env rule_known field_types permit 1 with inl _ => false | inr _ => true end = true)
    by (vm_compute; reflexivity).
  destruct (CompileProcess any_env rule_known field_types permit 1) as [e|p]; [discriminate HC|].
  destruct HP as (s' & HP & Hm & Hl). exists s', (with_version p (max_version "permit" published.1.2 + 1)).
  split; [exact HP|]. split; [|exact Hl]. etransitivity; [exact Hm|]. vm_compute. reflexivity.
Defined.
