(* ===== verification/GoText.v ===== *)
(** Texts as bytes: the characters, the searching and splitting of [strings] and [bytes],
    and the digits of [strconv], with the facts the components share. *)

From stdpp Require Import base gmap list strings.
From Stdlib Require Import ZArith Lia Ascii.
From S2P Require Import Prelude GoStrings.

Open Scope string_scope.
Open Scope list_scope.
Open Scope Z_scope.

Abbreviation text := (list ascii).
Definition bytes_of (s : string) : text := String.list_ascii_of_string s.
Definition string_of (t : text) : string := String.string_of_list_ascii t.

(** ** Characters *)

Definition char_in (lo hi : ascii) (c : ascii) : bool :=
  (nat_of_ascii lo <=? nat_of_ascii c)%nat && (nat_of_ascii c <=? nat_of_ascii hi)%nat.
Definition is_digit (c : ascii) : bool := char_in "0" "9" c.
Definition is_lower (c : ascii) : bool := char_in "a" "z" c.
Definition is_upper (c : ascii) : bool := char_in "A" "Z" c.
(** [\s], and the characters of [\b]. *)
Definition is_ws (c : ascii) : bool := existsb (Ascii.eqb c) (ascii_of_nat <$> [9; 10; 12; 13; 32]%nat).
Definition is_word (c : ascii) : bool := is_digit c || is_lower c || is_upper c || Ascii.eqb c "_".
Definition newline : ascii := ascii_of_nat 10.

(** The longest prefix of characters [p], and the rest. *)
Fixpoint span (p : ascii -> bool) (t : text) : text * text :=
  match t with
  | [] => ([], [])
  | c :: t' => if p c then let '(a, b) := span p t' in (c :: a, b) else ([], t)
  end.
Definition lit (s : string) (t : text) : option text := strip_prefix (bytes_of s) t.

(** [strings.Split(s, sep)] for a one-byte separator. *)
Fixpoint split_on (sep : ascii) (t : text) : list text :=
  match t with
  | [] => [[]]
  | c :: t' =>
      if Ascii.eqb c sep then [] :: split_on sep t'
      else match split_on sep t' with
           | [] => [[c]]
           | w :: ws => (c :: w) :: ws
           end
  end.

Definition digit_value (c : ascii) : Z := Z.of_nat (nat_of_ascii c) - 48.
Definition digits_value (t : text) : Z := fold_left (fun n c => 10 * n + digit_value c) t 0.

(** [strconv.ParseUint(s, 10, 64)]. *)
Definition ParseUint (t : text) : option Z :=
  if negb (bool_decide (t = [])) && forallb is_digit t && (digits_value t <? 2 ^ 64) then Some (digits_value t) else None.

Definition to_lower (c : ascii) : ascii := if is_upper c then ascii_of_nat (nat_of_ascii c + 32) else c.

(** [bytes.Contains]. *)
Fixpoint Contains (t sub : text) : bool :=
  bool_decide (is_Some (strip_prefix sub t)) || match t with [] => false | _ :: t' => Contains t' sub end.

Definition has_suffix (suffix t : text) : bool := bool_decide (is_Some (strip_prefix (rev suffix) (rev t))).

(** ** Facts *)

Lemma bytes_string t : bytes_of (string_of t) = t.
Proof. apply String.list_ascii_of_string_of_list_ascii. Qed.

Lemma string_bytes v : string_of (bytes_of v) = v.
Proof. apply String.string_of_list_ascii_of_string. Qed.

Lemma bytes_app a b : bytes_of (a +:+ b) = bytes_of a ++ bytes_of b.
Proof. induction a as [|x a IH]; [done|]. change (x :: bytes_of (a +:+ b) = x :: (bytes_of a ++ bytes_of b)). by rewrite IH. Qed.
Lemma strip_prefix_Some p l r : strip_prefix p l = Some r <-> l = p ++ r.
Proof.
  revert l. induction p as [|a p IH]; intros l; simpl; [split; congruence|].
  destruct l as [|b l]; [done|]. destruct (Ascii.eqb_spec a b) as [->|Hn]; [rewrite IH|]; split; congruence.
Qed.

Lemma split_on_ne sep t : split_on sep t <> [].
Proof. destruct t as [|c t]; simpl; [done|]. destruct (Ascii.eqb c sep); [done|]. by destruct (split_on sep t). Qed.

Lemma split_on_app sep a b : split_on sep (a ++ sep :: b) = split_on sep a ++ split_on sep b.
Proof.
  induction a as [|c a IH]; simpl; [by rewrite Ascii.eqb_refl|]. rewrite IH. destruct (Ascii.eqb c sep); [done|].
  destruct (split_on sep a) as [|w ws] eqn:E; [by apply split_on_ne in E|done].
Qed.

Lemma split_on_no_sep sep t e : e ∈ split_on sep t -> sep ∉ e.
Proof.
  revert e. induction t as [|c t IH]; intros e; simpl.
  { rewrite list_elem_of_singleton. intros ->. apply not_elem_of_nil. }
  destruct (Ascii.eqb_spec c sep) as [->|Hc].
  - rewrite elem_of_cons. intros [->|H]; [apply not_elem_of_nil|auto].
  - destruct (split_on sep t) as [|w ws]; rewrite elem_of_cons.
    + intros [->|[]%not_elem_of_nil]. rewrite list_elem_of_singleton. congruence.
    + intros [->|H]; [|apply IH; by constructor]. rewrite not_elem_of_cons. split; [congruence|].
      apply IH. by constructor.
Qed.

Lemma split_on_chars sep t e c : e ∈ split_on sep t -> c ∈ e -> c ∈ t.
Proof.
  revert e. induction t as [|d t IH]; intros e; simpl.
  { by rewrite list_elem_of_singleton; intros ->. }
  destruct (Ascii.eqb_spec d sep) as [->|Hd].
  - rewrite elem_of_cons. intros [->|H] Hc; [by apply not_elem_of_nil in Hc|]. apply list_elem_of_further. eauto.
  - destruct (split_on sep t) as [|w ws] eqn:E; [by apply split_on_ne in E|]. rewrite elem_of_cons.
    intros [->|H] Hc; [|apply list_elem_of_further, (IH e); [by constructor|done]].
    apply elem_of_cons in Hc as [->|Hc]; [apply list_elem_of_here|].
    apply list_elem_of_further, (IH w); [apply list_elem_of_here|done].
Qed.

Lemma split_on_word sep t : sep ∉ t -> split_on sep t = [t].
Proof.
  induction t as [|c t IH]; intros H; [done|]. apply not_elem_of_cons in H as [Hc H]. simpl.
  rewrite (proj2 (Ascii.eqb_neq c sep)) by congruence. by rewrite IH.
Qed.
