(* ===== verification/Scaffold.v ===== *)
(** The project generator ([internal/scaffold]): markers of optional components in the
    template ([markers.go]), the manifest and the choice of components ([manifest.go]),
    release versions ([version.go]), and the rewriting of a template's files
    ([generate.go], without fetching, git and the go command).

    A text is its bytes.  A project is its regular files by slash path.  The rendering of
    a replacement's template is an argument. *)

From stdpp Require Import base gmap list strings.
From Stdlib Require Import ZArith Lia Ascii.
From S2P Require Import Prelude GoStrings GoText.

Open Scope string_scope.
Open Scope list_scope.
Open Scope Z_scope.

Definition skip_ws (t : text) : text := (span is_ws t).2.
Definition lit_or (a b : string) (t : text) : option (bool * text) :=
  match lit a t with
  | Some r => Some (true, r)
  | None => r ← lit b t; Some (false, r)
  end.

(** ** Markers *)

(** The opener of a comment, and whether it is HTML's. *)
Definition opener (t : text) : option (bool * text) :=
  match lit "//" t, lit "#" t, lit "--" t, lit "<!--" t with
  | Some r, _, _, _ | None, Some r, _, _ | None, None, Some r, _ => Some (false, r)
  | None, None, None, Some r => Some (true, r)
  | None, None, None, None => None
  end.

(** A match of [markerRe]: [m_name] is empty for [vogel:only]. *)
Record marker_match := mkMarkerMatch { m_html : bool; m_name : text; m_begin : bool; m_closed : bool }.

Definition marker_subject (t : text) : option (text * text) :=
  match lit "component " t with
  | Some r => let '(name, r) := span is_lower r in if bool_decide (name = []) then None else Some (name, r)
  | None => r ← lit "only" t; Some ([], r)
  end.

Definition markerRe (t : text) : option marker_match :=
  '(html, t) ← opener t;
  t ← lit "vogel:" (skip_ws t);
  '(name, t) ← marker_subject t;
  t ← lit " " t;
  '(begin, t) ← lit_or "begin" "end" t;
  let t := skip_ws t in
  if bool_decide (t = []) then Some (mkMarkerMatch html name begin false)
  else if bool_decide (t = bytes_of "-->") then Some (mkMarkerMatch html name begin true)
  else None.

(** [markerLikeRe]. *)
Definition markerLikeRe (t : text) : bool :=
  match ('(_, t) ← opener t; t ← lit "vogel:" (skip_ws t); lit_or "component" "only" t) with
  | Some (_, []) => true
  | Some (_, c :: _) => negb (is_word c)
  | None => false
  end.

Record markerFrame := mkFrame { mf_name : text; mf_line : Z; mf_keep : bool }.

Inductive marker_problem :=
| PMalformed | PUnclosed | PUnknown (name : text) | PNoBegin (name : text) | PMismatch (name top : text) (at_line : Z)
| PNeverClosed (name : text).

(** The lines of a text, each with its newline. *)
Fixpoint lines_of (t : text) : list text :=
  match t with
  | [] => []
  | c :: t' =>
      if Ascii.eqb c newline then [c] :: lines_of t'
      else match lines_of t' with
           | [] => [[c]]
           | l :: ls => (c :: l) :: ls
           end
  end.

(** [checkMarkerSyntax]. *)
Definition checkMarkerSyntax (m : marker_match) : bool := Bool.eqb (m_html m) (m_closed m).

Definition trimmed (line : text) : text := bytes_of (TrimSpace (string_of line)).

(** The loop of [StripMarkers]: the lines kept, or a line and what is wrong with it; the
    innermost frame comes first. *)
Fixpoint strip_loop (selection : gmap string bool) (lineNo : Z) (stack : list markerFrame) (lines out : list text)
  : (Z * marker_problem) + list text :=
  match lines with
  | [] => match stack with [] => inr out | top :: _ => inl (mf_line top, PNeverClosed (mf_name top)) end
  | line :: lines =>
      match markerRe (trimmed line) with
      | None =>
          if markerLikeRe (trimmed line) then inl (lineNo, PMalformed)
          else strip_loop selection (lineNo + 1) stack lines (if forallb mf_keep stack then out ++ [line] else out)
      | Some m =>
          if negb (checkMarkerSyntax m) then inl (lineNo, PUnclosed)
          else
            let selected := if bool_decide (m_name m = []) then Some false else selection !! string_of (m_name m) in
            match selected with
            | None => inl (lineNo, PUnknown (m_name m))
            | Some keep =>
                if m_begin m then strip_loop selection (lineNo + 1) (mkFrame (m_name m) lineNo keep :: stack) lines out
                else match stack with
                     | [] => inl (lineNo, PNoBegin (m_name m))
                     | top :: stack =>
                         if bool_decide (mf_name top = m_name m) then strip_loop selection (lineNo + 1) stack lines out
                         else inl (lineNo, PMismatch (m_name m) (mf_name top) (mf_line top))
                     end
            end
      end
  end.

(** [StripMarkers]. *)
Definition StripMarkers (content : text) (selection : gmap string bool) : (Z * marker_problem) + text :=
  match strip_loop selection 1 [] (lines_of content) [] with
  | inl e => inl e
  | inr lines => inr (concat lines)
  end.

(** ** Versions *)

(** A match of [semverRe]: three numbers and the pre-release, each a text. *)
Record semver := mkSemver { sm_major : text; sm_minor : text; sm_patch : text; sm_pre : text }.

(** [0|[1-9]\d*]: a zero stands alone. *)
Definition number (t : text) : option (text * text) :=
  match t with
  | c :: r => if Ascii.eqb c "0" then Some ([c], r)
              else if is_digit c then let '(ds, r) := span is_digit r in Some (c :: ds, r) else None
  | [] => None
  end.

Definition is_identifier (c : ascii) : bool := is_digit c || is_lower c || is_upper c || Ascii.eqb c "-".

Definition prerelease_ok (t : text) : bool :=
  forallb (fun id => negb (bool_decide (id = [])) && forallb is_identifier id) (split_on "." t).

Definition semverRe (v : string) : option semver :=
  t ← lit "v" (bytes_of v);
  '(major, t) ← number t; t ← lit "." t;
  '(minor, t) ← number t; t ← lit "." t;
  '(patch, t) ← number t;
  match t with
  | [] => Some (mkSemver major minor patch [])
  | c :: pre => if Ascii.eqb c "-" && prerelease_ok pre then Some (mkSemver major minor patch pre) else None
  end.

Definition is_hex (c : ascii) : bool := is_digit c || char_in "a" "f" c.

(** [pseudoRe]: fourteen digits, a dash and twelve hexadecimal digits at the end, at the
    start or after a dash or a dot (what [0\.] before them ends in). *)
Definition pseudoRe (t : text) : bool :=
  let n := (length t - 27)%nat in
  let tail := drop n t in
  (27 <=? length t)%nat
  && forallb is_digit (take 14 tail)
  && bool_decide (take 1 (drop 14 tail) = bytes_of "-")
  && forallb is_hex (drop 15 tail)
  && match last (take n t) with
     | None => true
     | Some c => Ascii.eqb c "-" || Ascii.eqb c "."
     end.

(** [ValidateVersion]. *)
Definition ValidateVersion (v : string) : bool :=
  match semverRe v with
  | None => false
  | Some m => negb (negb (bool_decide (sm_pre m = [])) && pseudoRe (sm_pre m))
  end.

(** [strings.Compare]. *)
Fixpoint bytes_Compare (a b : text) : comparison :=
  match a, b with
  | [], [] => Eq
  | [], _ :: _ => Lt
  | _ :: _, [] => Gt
  | x :: a, y :: b =>
      match Nat.compare (nat_of_ascii x) (nat_of_ascii y) with Eq => bytes_Compare a b | c => c end
  end.

(** [compareNumeric]. *)
Definition compareNumeric (a b : text) : comparison :=
  match Nat.compare (length a) (length b) with Eq => bytes_Compare a b | c => c end.

(** One pair of identifiers of a pre-release. *)
Definition compare_identifier (a b : text) : comparison :=
  match ParseUint a, ParseUint b with
  | Some na, Some nb => Z.compare na nb
  | Some _, None => Lt
  | None, Some _ => Gt
  | None, None => bytes_Compare a b
  end.

Fixpoint compare_identifiers (a b : list text) : comparison :=
  match a, b with
  | [], [] => Eq
  | [], _ :: _ => Lt
  | _ :: _, [] => Gt
  | x :: a, y :: b => match compare_identifier x y with Eq => compare_identifiers a b | c => c end
  end.

(** [comparePrerelease]. *)
Definition comparePrerelease (a b : text) : comparison :=
  if bool_decide (a = b) then Eq
  else if bool_decide (a = []) then Gt
  else if bool_decide (b = []) then Lt
  else compare_identifiers (split_on "." a) (split_on "." b).

Definition compare_semver (a b : semver) : comparison :=
  match compareNumeric (sm_major a) (sm_major b) with
  | Eq => match compareNumeric (sm_minor a) (sm_minor b) with
          | Eq => match compareNumeric (sm_patch a) (sm_patch b) with
                  | Eq => comparePrerelease (sm_pre a) (sm_pre b)
                  | c => c
                  end
          | c => c
          end
  | c => c
  end.

(** [CompareVersions]; [None] is an invalid version. *)
Definition CompareVersions (a b : string) : option comparison :=
  ma ← semverRe a; mb ← semverRe b; Some (compare_semver ma mb).

(** [CheckMinVersion]. *)
Definition CheckMinVersion (version minimum : string) : bool :=
  if bool_decide (minimum = "") then true
  else match CompareVersions version minimum with
       | None | Some Lt => false
       | Some _ => true
       end.

(** ** The manifest *)

Record Component := mkComponent {
  cp_Name : string; cp_Prompt : string; cp_Default : bool; cp_Requires : list string; cp_Paths : list string }.
Record Replacement := mkReplacement { rp_Path : string; rp_From : string; rp_To : string }.
Record Manifest := mkManifest {
  mn_ModulePath : string; mn_MinVogelVersion : string; mn_Components : list Component;
  mn_AlwaysRemove : list string; mn_Replacements : list Replacement }.

(** [path.Clean] of a relative path: the elements that stay, innermost first. *)
Fixpoint clean_elements (elems stack : list text) : list text :=
  match elems with
  | [] => stack
  | e :: elems =>
      if bool_decide (e = []) || bool_decide (e = bytes_of ".") then clean_elements elems stack
      else if bool_decide (e = bytes_of "..") then
        match stack with
        | [] => clean_elements elems [e]
        | top :: rest => if bool_decide (top = bytes_of "..") then clean_elements elems (e :: stack)
                         else clean_elements elems rest
        end
      else clean_elements elems (e :: stack)
  end.
Fixpoint join_slash (l : list text) : text :=
  match l with
  | [] => []
  | [e] => e
  | e :: l => e ++ "/"%char :: join_slash l
  end.
Definition Clean (p : text) : text :=
  match clean_elements (split_on "/" p) [] with
  | [] => bytes_of "."
  | stack => join_slash (rev stack)
  end.

(** [checkRelPath]. *)
Definition checkRelPath (path : string) : bool :=
  let p := bytes_of path in
  negb (bool_decide (p = [])
        || existsb (Ascii.eqb (ascii_of_nat 92)) p
        || bool_decide (is_Some (lit "/" p))
        || negb (bool_decide (Clean p = p))
        || bool_decide (p = bytes_of ".") || bool_decide (p = bytes_of "..")
        || bool_decide (is_Some (lit "../" p))).

(** [componentRe]. *)
Definition componentRe (name : string) : bool :=
  negb (bool_decide (name = "")) && forallb is_lower (bytes_of name).

(** The loop of [validate] over the components. *)
Fixpoint components_ok (cs : list Component) (seen : list string) : bool :=
  match cs with
  | [] => true
  | c :: cs =>
      componentRe (cp_Name c)
      && negb (bool_decide (cp_Name c ∈ seen))
      && forallb (fun r => bool_decide (r ∈ seen)) (cp_Requires c)
      && forallb checkRelPath (cp_Paths c)
      && components_ok cs (cp_Name c :: seen)
  end.

(** [Manifest.validate]; [template_ok] says whether text/template parses. *)
Definition Manifest_validate (template_ok : string -> bool) (m : Manifest) : bool :=
  negb (bool_decide (mn_ModulePath m = ""))
  && (bool_decide (mn_MinVogelVersion m = "") || ValidateVersion (mn_MinVogelVersion m))
  && components_ok (mn_Components m) []
  && forallb checkRelPath (mn_AlwaysRemove m)
  && forallb (fun r => checkRelPath (rp_Path r) && negb (bool_decide (rp_From r = "")) && template_ok (rp_To r))
       (mn_Replacements m).

(** ** The choice of components *)

Record Selection := mkSelection {
  sl_Selected : gmap string bool; sl_Cascaded : list string; sl_order : list string }.

Definition componentNames (m : Manifest) : list string := cp_Name <$> mn_Components m.
Definition hasComponent (m : Manifest) (name : string) : bool := bool_decide (name ∈ componentNames m).

Definition is_selected (s : gmap string bool) (name : string) : bool := default false (s !! name).
Definition Selection_filter (keep : bool) (s : Selection) : list string :=
  List.filter (fun name => Bool.eqb (is_selected (sl_Selected s) name) keep) (sl_order s).
Definition Kept (s : Selection) : list string := Selection_filter true s.
Definition Removed (s : Selection) : list string := Selection_filter false s.

Inductive select_error :=
| SUnknownWith (name : string) | SUnknownWithout (name : string) | SBoth (name : string)
| SRequires (name missing : string) | SAsk (name : string).

Fixpoint force_with (m : Manifest) (names : list string) (forced : gmap string bool) : select_error + gmap string bool :=
  match names with
  | [] => inr forced
  | n :: names => if negb (hasComponent m n) then inl (SUnknownWith n) else force_with m names (<[n := true]> forced)
  end.
Fixpoint force_without (m : Manifest) (names : list string) (forced : gmap string bool) : select_error + gmap string bool :=
  match names with
  | [] => inr forced
  | n :: names =>
      if negb (hasComponent m n) then inl (SUnknownWithout n)
      else if is_selected forced n then inl (SBoth n)
      else force_without m names (<[n := false]> forced)
  end.

(** The loop over the components; [ask] answers for one, or fails. *)
Fixpoint select_loop (forced : gmap string bool) (ask : option (Component -> option bool)) (cs : list Component)
    (selected : gmap string bool) (cascaded : list string) : select_error + (gmap string bool * list string) :=
  match cs with
  | [] => inr (selected, cascaded)
  | c :: cs =>
      match List.find (fun r => negb (is_selected selected r)) (cp_Requires c) with
      | Some missing =>
          if is_selected forced (cp_Name c) then inl (SRequires (cp_Name c) missing)
          else select_loop forced ask cs (<[cp_Name c := false]> selected) (cascaded ++ [cp_Name c])
      | None =>
          let keep := match forced !! cp_Name c, ask with
                      | Some keep, _ => Some keep
                      | None, Some ask => ask c
                      | None, None => Some (cp_Default c)
                      end in
          match keep with
          | None => inl (SAsk (cp_Name c))
          | Some keep => select_loop forced ask cs (<[cp_Name c := keep]> selected) cascaded
          end
      end
  end.

(** [Select]. *)
Definition Select (m : Manifest) (with_ without : list string) (ask : option (Component -> option bool))
  : select_error + Selection :=
  match force_with m with_ ∅ with
  | inl e => inl e
  | inr forced =>
      match force_without m without forced with
      | inl e => inl e
      | inr forced =>
          match select_loop forced ask (mn_Components m) ∅ [] with
          | inl e => inl e
          | inr (selected, cascaded) => inr (mkSelection selected cascaded (componentNames m))
          end
      end
  end.

(** ** Names *)

(** Groups of characters [p] separated by single dashes. *)
Definition dashed (p : ascii -> bool) (t : text) : bool :=
  forallb (fun g => negb (bool_decide (g = [])) && forallb p g) (split_on "-" t).
Definition lower_or_digit (c : ascii) : bool := is_lower c || is_digit c.

Definition maxNameLength : Z := 50.
Definition maxOwnerLength : Z := 39.

(** [ValidateName] with [nameRe]. *)
Definition ValidateName (name : string) : bool :=
  let t := bytes_of name in
  match t with c :: _ => is_lower c | [] => false end
  && dashed lower_or_digit t && negb (maxNameLength <? Z.of_nat (length t)).

(** [ValidateOwner] with [ownerRe]. *)
Definition ValidateOwner (owner : string) : bool :=
  let t := bytes_of owner in
  dashed (fun c => lower_or_digit c || is_upper c) t && negb (maxOwnerLength <? Z.of_nat (length t)).

(** [moduleHostRe]: a dot after the first character and before the last, all characters
    of the host, the first and the last no dot or dash. *)
Definition moduleHostRe (t : text) : bool :=
  let ends := fun c => lower_or_digit c in
  let host c := lower_or_digit c || Ascii.eqb c "." || Ascii.eqb c "-" in
  forallb host t
  && match t with c :: _ => ends c | [] => false end
  && match last t with Some c => ends c | None => false end
  && existsb (Ascii.eqb ".") t.

Definition moduleElemRe (t : text) : bool :=
  negb (bool_decide (t = []))
  && forallb (fun c => lower_or_digit c || is_upper c || existsb (Ascii.eqb c) (bytes_of "_~.-")) t.

(** [ValidateModulePath]. *)
Definition ValidateModulePath (module : string) : bool :=
  match split_on "/" (bytes_of module) with
  | host :: (_ :: _) as elems =>
      moduleHostRe host
      && forallb (fun e => moduleElemRe e && negb (bool_decide (head e = Some "."%char))
                           && negb (bool_decide (last e = Some "."%char))) (tail elems)
  | _ => false
  end.

Record TemplateValues := mkTemplateValues {
  tv_Name : string; tv_DBName : string; tv_Owner : string; tv_ImageBase : string; tv_Module : string }.

(** [Derive]; the owner is ASCII ([ownerRe]). *)
Definition Derive (name owner module : string) : TemplateValues :=
  mkTemplateValues name
    (string_of ((fun c => if Ascii.eqb c "-" then "_"%char else c) <$> bytes_of name))
    owner
    (("ghcr.io/" ++ string_of (to_lower <$> bytes_of owner) ++ "/" ++ name)%string)
    module.

(** ** The files of a project *)

Abbreviation Project := (gmap string text).

(** [underAny]. *)
Definition under (file p : string) : bool :=
  bool_decide (file = p) || bool_decide (is_Some (strip_prefix (bytes_of (p ++ "/")%string) (bytes_of file))).
Definition underAny (file : string) (prefixes : list string) : bool := existsb (under file) prefixes.

(** [os.Lstat] finds a file or a directory that holds one. *)
Definition present (p : string) (files : Project) : bool := existsb (fun kv => under kv.1 p) (map_to_list files).

Definition removed_paths (m : Manifest) (sel : Selection) : list string :=
  concat ((fun c => if is_selected (sl_Selected sel) (cp_Name c) then [] else cp_Paths c) <$> mn_Components m)
  ++ mn_AlwaysRemove m.

(** [removePaths]: the files left and the removed paths. *)
Definition removePaths (m : Manifest) (sel : Selection) (files : Project) : option (Project * list string) :=
  if forallb (fun p => present p files) (concat (cp_Paths <$> mn_Components m) ++ mn_AlwaysRemove m)
  then let removed := removed_paths m sel in
       Some (filter (fun kv => underAny kv.1 removed = false) files, removed)
  else None.

(** [bytes.ReplaceAll] of a text that is not empty. *)
Fixpoint replace_all (fuel : nat) (old new t : text) : text :=
  match fuel, t with
  | S fuel, c :: t' => match strip_prefix old t with
                       | Some rest => new ++ replace_all fuel old new rest
                       | None => c :: replace_all fuel old new t'
                       end
  | _, _ => t
  end.
Definition ReplaceAll (old new t : text) : text := replace_all (length t) old new t.

(** [applyReplacements]; [render] is what the template of a replacement gives. *)
Fixpoint applyReplacements (render : string -> TemplateValues -> option string) (values : TemplateValues)
    (removed : list string) (rs : list Replacement) (files : Project) : option Project :=
  match rs with
  | [] => Some files
  | r :: rs =>
      match files !! rp_Path r with
      | None => if underAny (rp_Path r) removed then applyReplacements render values removed rs files else None
      | Some content =>
          if negb (Contains content (bytes_of (rp_From r))) then None
          else
            to ← render (rp_To r) values;
            applyReplacements render values removed rs
              (<[rp_Path r := ReplaceAll (bytes_of (rp_From r)) (bytes_of to) content]> files)
      end
  end.

Definition binarySniffLen : nat := 8192.
(** [isBinary]. *)
Definition isBinary (content : text) : bool := existsb (Ascii.eqb (ascii_of_nat 0)) (take binarySniffLen content).

(** [path.Base] of a slash path that ends in a name. *)
Definition Base (rel : string) : text := default [] (last (split_on "/" (bytes_of rel))).
Definition names_module (rel : string) : bool :=
  let base := Base rel in
  bool_decide (base = bytes_of "go.mod") || has_suffix (bytes_of ".go") base || has_suffix (bytes_of ".md") base.

(** One file of [rewriteFiles]. *)
Definition rewrite_file (m : Manifest) (selection : gmap string bool) (module rel : string) (content : text) : option text :=
  if isBinary content then Some content
  else match StripMarkers content selection with
       | inl _ => None
       | inr out => Some (if names_module rel then ReplaceAll (bytes_of (mn_ModulePath m)) (bytes_of module) out else out)
       end.

(** [rewriteFiles]: every file, or a failure (the target is then removed). *)
Definition rewriteFiles (m : Manifest) (selection : gmap string bool) (module : string) (files : Project) : option Project :=
  let rewritten := map_imap (fun rel content => Some (rewrite_file m selection module rel content)) files in
  if forallb (fun kv => bool_decide (is_Some kv.2)) (map_to_list rewritten)
  then Some (omap id rewritten) else None.

(** [Options.render] from the manifest on. *)
Definition render_project (template : string -> TemplateValues -> option string) (m : Manifest) (sel : Selection)
    (name owner module : string) (files : Project) : option Project :=
  '(files, removed) ← removePaths m sel files;
  files ← applyReplacements template (Derive name owner module) removed (mn_Replacements m) files;
  rewriteFiles m (sl_Selected sel) module files.
