(* ===== verification/ScaffoldTheorems.v ===== *)
(** Properties of the project generator: the markers of a template as nested blocks, the
    choice of components, the order of versions, and the files of a generated project. *)

From stdpp Require Import base gmap list strings.
From Stdlib Require Import ZArith Lia Ascii.
From S2P Require Import Prelude GoStrings GoText Scaffold.

Open Scope string_scope.
Open Scope list_scope.
Open Scope Z_scope.

(** ** Templates as nested blocks *)

Inductive line_kind := LPlain | LBegin (name : text) (keep : bool) | LEnd (name : text).

(** What a line is; [None] for a broken or unknown marker. *)
Definition kind_of (selection : gmap string bool) (line : text) : option line_kind :=
  match markerRe (trimmed line) with
  | None => if markerLikeRe (trimmed line) then None else Some LPlain
  | Some m =>
      if checkMarkerSyntax m then
        keep ← (if bool_decide (m_name m = []) then Some false else selection !! string_of (m_name m));
        Some (if m_begin m then LBegin (m_name m) keep else LEnd (m_name m))
      else None
  end.

(** A line that is neither a marker nor looks like one, whatever is selected. *)
Definition plain_line (line : text) : Prop := markerRe (trimmed line) = None /\ markerLikeRe (trimmed line) = false.

Lemma plain_kind sel line : kind_of sel line = Some LPlain <-> plain_line line.
Proof.
  unfold kind_of, plain_line. destruct (markerRe (trimmed line)) as [m|].
  - split; [|by intros [? _]]. destruct (checkMarkerSyntax m); [|done].
    intros (keep & _ & E)%bind_Some. by destruct (m_begin m).
  - destruct (markerLikeRe (trimmed line)); split; try done. by intros [_ ?].
Qed.

(** A template's lines and those that stay: plain lines, and blocks between a begin and
    an end of one name, which stay when their component is selected. *)
Inductive template (sel : gmap string bool) : list text -> list text -> Prop :=
| tp_nil : template sel [] []
| tp_line line ls kept : plain_line line -> template sel ls kept -> template sel (line :: ls) (line :: kept)
| tp_block name keep b e body inner ls kept :
    kind_of sel b = Some (LBegin name keep) -> kind_of sel e = Some (LEnd name) ->
    template sel body inner -> template sel ls kept ->
    template sel (b :: body ++ e :: ls) ((if keep then inner else []) ++ kept).

Lemma template_app sel l1 k1 l2 k2 :
  template sel l1 k1 -> template sel l2 k2 -> template sel (l1 ++ l2) (k1 ++ k2).
Proof.
  intros H1 H2. induction H1 as [|line ls kept Hp _ IH|name keep b e body inner ls kept Hb He Hbody _ _ IH]; [done|by constructor|].
  simpl. rewrite <- !app_assoc. simpl. by econstructor.
Qed.

(** One step of the loop, by the kind of the line. *)
Lemma strip_loop_cons sel n stack line ls out :
  strip_loop sel n stack (line :: ls) out =
  match kind_of sel line with
  | Some LPlain => strip_loop sel (n + 1) stack ls (if forallb mf_keep stack then out ++ [line] else out)
  | Some (LBegin name keep) => strip_loop sel (n + 1) (mkFrame name n keep :: stack) ls out
  | Some (LEnd name) =>
      match stack with
      | [] => inl (n, PNoBegin name)
      | top :: stack => if bool_decide (mf_name top = name) then strip_loop sel (n + 1) stack ls out
                        else inl (n, PMismatch name (mf_name top) (mf_line top))
      end
  | None => strip_loop sel n stack (line :: ls) out
  end.
Proof.
  unfold kind_of. simpl. destruct (markerRe (trimmed line)) as [m|]; [|by destruct (markerLikeRe _)].
  destruct (checkMarkerSyntax m); [|done]. simpl.
  destruct (if bool_decide (m_name m = []) then _ else _) as [keep|]; [|done]. simpl. by destruct (m_begin m).
Qed.

Lemma strip_loop_broken sel n stack line ls out :
  kind_of sel line = None -> exists e, strip_loop sel n stack (line :: ls) out = inl e.
Proof.
  unfold kind_of. simpl. destruct (markerRe (trimmed line)) as [m|]; [|destruct (markerLikeRe _); eauto; done].
  destruct (checkMarkerSyntax m); [|eauto]. simpl.
  destruct (if bool_decide (m_name m = []) then _ else _) as [keep|]; [done|eauto].
Qed.

Definition kept_under (stack : list markerFrame) (kept : list text) : list text :=
  if forallb mf_keep stack then kept else [].

Lemma kept_under_app stack k1 k2 : kept_under stack (k1 ++ k2) = kept_under stack k1 ++ kept_under stack k2.
Proof. unfold kept_under. by destruct (forallb _ _). Qed.

Lemma kept_under_frame f stack kept :
  kept_under (f :: stack) kept = kept_under stack (if mf_keep f then kept else []).
Proof. unfold kept_under. simpl. destruct (mf_keep f), (forallb mf_keep stack); done. Qed.

Lemma strip_template sel ls kept n stack rest out :
  template sel ls kept ->
  exists n', strip_loop sel n stack (ls ++ rest) out = strip_loop sel n' stack rest (out ++ kept_under stack kept).
Proof.
  intros Ht. revert n stack rest out.
  induction Ht as [|line ls kept Hp _ IH|name keep b e body inner ls kept Hb He _ IHb _ IH]; intros n stack rest out.
  - exists n. unfold kept_under. simpl. destruct (forallb _ _); by rewrite app_nil_r.
  - simpl app. rewrite strip_loop_cons, (proj2 (plain_kind sel line) Hp). destruct (IH (n + 1) stack rest
      (if forallb mf_keep stack then out ++ [line] else out)) as [n' ->].
    exists n'. f_equal. unfold kept_under. destruct (forallb _ _); [|done]. by rewrite <- app_assoc.
  - simpl app. rewrite strip_loop_cons, Hb, <- app_assoc. simpl app.
    destruct (IHb (n + 1) (mkFrame name n keep :: stack) (e :: ls ++ rest) out) as [n1 ->].
    rewrite strip_loop_cons, He. simpl. rewrite bool_decide_eq_true_2 by done.
    destruct (IH (n1 + 1) stack rest (out ++ kept_under (mkFrame name n keep :: stack) inner)) as [n2 ->].
    exists n2. by rewrite kept_under_app, kept_under_frame, app_assoc.
Qed.

(** The lines left close the open frames, one after the other. *)
Fixpoint closes (sel : gmap string bool) (stack : list markerFrame) (ls kept : list text) : Prop :=
  match stack with
  | [] => template sel ls kept
  | f :: stack' => exists body inner e rest kept', ls = body ++ e :: rest /\ template sel body inner
      /\ kind_of sel e = Some (LEnd (mf_name f)) /\ closes sel stack' rest kept'
      /\ kept = kept_under stack inner ++ kept'
  end.

Lemma closes_app sel stack pre inner ls kept :
  template sel pre inner -> closes sel stack ls kept -> closes sel stack (pre ++ ls) (kept_under stack inner ++ kept).
Proof.
  intros Hp. destruct stack as [|f stack]; simpl; [by apply template_app|].
  intros (body & inn & e & rest & kept' & -> & Hb & He & Hc & ->). exists (pre ++ body), (inner ++ inn), e, rest, kept'.
  rewrite <- app_assoc. split_and!; [done|by apply template_app|done..|]. by rewrite kept_under_app, app_assoc.
Qed.

Lemma strip_closes sel ls n stack out res :
  strip_loop sel n stack ls out = inr res -> exists kept, closes sel stack ls kept /\ res = out ++ kept.
Proof.
  revert n stack out. induction ls as [|line ls IH]; intros n stack out Hs.
  { destruct stack; [|done]. injection Hs as <-. exists []. split; [constructor | by rewrite app_nil_r]. }
  destruct (kind_of sel line) as [k|] eqn:Ek.
  2: { destruct (strip_loop_broken sel n stack line ls out Ek) as [e He]. congruence. }
  rewrite strip_loop_cons, Ek in Hs. destruct k as [|name keep|name].
  - apply IH in Hs as (kept & Hc & ->). exists (kept_under stack [line] ++ kept). split.
    + apply (closes_app sel stack [line]); [|done]. constructor; [by apply plain_kind in Ek|constructor].
    + unfold kept_under. destruct (forallb _ _); [by rewrite <- app_assoc|done].
  - apply IH in Hs as (kept & (body & inner & e & rest & kept' & -> & Hb & He & Hc & ->) & ->).
    eexists. split; [|done]. rewrite kept_under_frame. simpl in *.
    replace (line :: body ++ e :: rest) with ((line :: body ++ [e]) ++ rest) by (simpl; by rewrite <- app_assoc).
    apply closes_app; [|done]. rewrite <- (app_nil_r (if keep then inner else [])).
    econstructor; [done..|constructor].
  - destruct stack as [|top stack]; [done|]. case_bool_decide as En; [|done]. subst name.
    apply IH in Hs as (kept & Hc & ->). exists kept. split; [|done].
    exists [], [], line, ls, kept. split_and!; [done|constructor|done..|]. unfold kept_under. by destruct (forallb _ _).
Qed.

(** ** Lines *)

Inductive line_list : list text -> Prop :=
| ll_nil : line_list []
| ll_last t : t <> [] -> newline ∉ t -> line_list [t]
| ll_line t ls : newline ∉ t -> line_list ls -> line_list ((t ++ [newline]) :: ls).

Lemma lines_of_line t rest : newline ∉ t -> lines_of (t ++ newline :: rest) = (t ++ [newline]) :: lines_of rest.
Proof.
  induction t as [|c t IH]; intros Hn; [done|]. apply not_elem_of_cons in Hn as [Hc Hn]. cbn [app lines_of].
  rewrite (proj2 (Ascii.eqb_neq c newline)) by congruence. by rewrite IH.
Qed.

Lemma lines_of_last t : t <> [] -> newline ∉ t -> lines_of t = [t].
Proof.
  induction t as [|c t IH]; intros Hne Hn; [done|]. apply not_elem_of_cons in Hn as [Hc Hn]. cbn [lines_of].
  rewrite (proj2 (Ascii.eqb_neq c newline)) by congruence. destruct t as [|d t]; [done|]. by rewrite IH.
Qed.

Lemma lines_of_concat ls : line_list ls -> lines_of (concat ls) = ls.
Proof.
  induction 1 as [|t Hne Hn|t ls Hn _ IH]; [done| |]; simpl.
  - rewrite app_nil_r. by apply lines_of_last.
  - rewrite <- app_assoc. simpl. by rewrite lines_of_line, IH.
Qed.

Lemma lines_of_list t : line_list (lines_of t).
Proof.
  induction t as [|c t IH]; simpl; [constructor|]. destruct (Ascii.eqb_spec c newline) as [->|Hc].
  { apply (ll_line []); [apply not_elem_of_nil|done]. }
  inversion IH as [E|l Hne Hn E|l ls Hn Hls E]; subst.
  - apply ll_last; [done|]. rewrite not_elem_of_cons. split; [congruence|apply not_elem_of_nil].
  - apply ll_last; [done|]. rewrite not_elem_of_cons. split; [congruence|done].
  - apply (ll_line (c :: l)); [|done]. rewrite not_elem_of_cons. split; [congruence|done].
Qed.

Lemma line_list_sublist k ls : sublist k ls -> line_list ls -> line_list k.
Proof.
  intros Hs. induction Hs as [|x k ls Hs IH|x k ls Hs IH]; intros Hl; [done| |].
  - inversion Hl as [|t Hne Hn E|t ls' Hn Hls E]; subst.
    + apply sublist_nil_r in Hs as ->. by constructor.
    + constructor; auto.
  - inversion Hl as [|t Hne Hn E|t ls' Hn Hls E]; subst; [|auto]. apply sublist_nil_r in Hs as ->. constructor.
Qed.

Lemma template_kept sel ls kept : template sel ls kept -> sublist kept ls /\ Forall plain_line kept.
Proof.
  induction 1 as [|line ls kept Hp _ [IHs IHp]|name keep b e body inner ls kept _ _ _ [IHb IHbp] _ [IHs IHp]].
  - split; constructor.
  - split; by constructor.
  - split; [|destruct keep; [by apply Forall_app|done]]. apply sublist_cons. destruct keep; simpl.
    + apply sublist_app; [done|]. by constructor.
    + apply sublist_inserts_l. by constructor.
Qed.

Lemma plain_template sel ls : Forall plain_line ls -> template sel ls ls.
Proof. induction 1; by constructor. Qed.

Lemma strip_sound content sel out :
  StripMarkers content sel = inr out -> exists kept, template sel (lines_of content) kept /\ out = concat kept.
Proof.
  unfold StripMarkers. destruct (strip_loop _ _ _ _ _) as [e|res] eqn:E; [done|]. intros [= <-].
  apply strip_closes in E as (kept & Hc & ->). by exists kept.
Qed.

Lemma strip_complete content sel kept : template sel (lines_of content) kept -> StripMarkers content sel = inr (concat kept).
Proof.
  intros Ht. unfold StripMarkers. destruct (strip_template sel _ kept 1 [] [] [] Ht) as [n Hn].
  rewrite app_nil_r in Hn. by rewrite Hn.
Qed.

(** What was stripped holds no marker. *)
Lemma strip_again content sel out sel' : StripMarkers content sel = inr out -> StripMarkers out sel' = inr out.
Proof.
  intros (kept & Ht & ->)%strip_sound. apply strip_complete.
  apply template_kept in Ht as [Hsub Hplain]. rewrite lines_of_concat.
  - by apply plain_template.
  - eapply line_list_sublist; [exact Hsub|]. apply lines_of_list.
Qed.

(** C23: stripping a template is exactly keeping the plain lines of its selected blocks.
    It succeeds if and only if the lines are plain lines and properly nested blocks of
    known components, a block staying (without its markers) when its component is
    selected and every block around it stays, and a [vogel:only] block never; and its
    output holds no marker and nothing like one, so that stripping it again, with any
    selection, changes nothing. *)
Theorem strip_markers_exact content sel out :
  (StripMarkers content sel = inr out <-> exists kept, template sel (lines_of content) kept /\ out = concat kept)
  /\ (StripMarkers content sel = inr out -> forall sel', StripMarkers out sel' = inr out).
Proof.
  split; [split; [apply strip_sound|]|].
  - intros (kept & Ht & ->). by apply strip_complete.
  - intros Hs sel'. by eapply strip_again.
Qed.

(** ** The choice of components *)

(** What is asked for a component whose requirements are met. *)
Definition wanted (forced : gmap string bool) (ask : option (Component -> option bool)) (c : Component) : option bool :=
  match forced !! cp_Name c, ask with
  | Some keep, _ => Some keep
  | None, Some ask => ask c
  | None, None => Some (cp_Default c)
  end.

(** A component's choice, given those of its requirements. *)
Record chosen (forced : gmap string bool) (ask : option (Component -> option bool)) (sel : gmap string bool)
    (cascaded : list string) (c : Component) : Prop := mkChosen {
  ch_met : (forall r, r ∈ cp_Requires c -> is_selected sel r = true) ->
    sel !! cp_Name c = wanted forced ask c /\ is_Some (wanted forced ask c) /\ cp_Name c ∉ cascaded;
  ch_missing : (exists r, r ∈ cp_Requires c /\ is_selected sel r = false) ->
    sel !! cp_Name c = Some false /\ cp_Name c ∈ cascaded /\ is_selected forced (cp_Name c) = false }.

Lemma find_missing sel (l : list string) :
  match List.find (fun r => negb (is_selected sel r)) l with
  | Some r => r ∈ l /\ is_selected sel r = false
  | None => forall r, r ∈ l -> is_selected sel r = true
  end.
Proof.
  destruct (List.find _ l) as [r|] eqn:E.
  - apply List.find_some in E as [Hin Hr]. split; [by apply list_elem_of_In|]. by destruct (is_selected sel r).
  - intros r Hin%list_elem_of_In. apply (List.find_none _ _ E) in Hin. by destruct (is_selected sel r).
Qed.

(** What a loop from [sel0] and [casc0], with [seen] behind it, leaves. *)
Record loop_left (forced : gmap string bool) (ask : option (Component -> option bool)) (cs : list Component)
    (seen : list string) (sel0 sel : gmap string bool) (casc0 casc : list string) : Prop := mkLoopLeft {
  lf_seen : forall n, n ∈ seen -> sel !! n = sel0 !! n /\ (n ∈ casc <-> n ∈ casc0);
  lf_other : forall n, n ∉ seen -> n ∉ cp_Name <$> cs -> sel !! n = sel0 !! n;
  lf_chosen : forall c, c ∈ cs -> is_Some (sel !! cp_Name c) /\ chosen forced ask sel casc c }.

(** One component, then the rest of the loop. *)
Lemma loop_left_cons forced ask c cs seen sel0 sel v casc0 casc1 casc :
  cp_Name c ∉ seen -> (forall n, n ∈ seen -> n ∈ casc1 <-> n ∈ casc0) ->
  loop_left forced ask cs (cp_Name c :: seen) (<[cp_Name c := v]> sel0) sel casc1 casc ->
  ((forall r, r ∈ seen -> is_selected sel r = is_selected sel0 r) -> sel !! cp_Name c = Some v ->
   (cp_Name c ∈ casc <-> cp_Name c ∈ casc1) -> chosen forced ask sel casc c) ->
  loop_left forced ask (c :: cs) seen sel0 sel casc0 casc.
Proof.
  intros Hnew H2 [A B C] Hch. destruct (A (cp_Name c) (list_elem_of_here _ _)) as [Ec Ecasc]. rewrite lookup_insert_eq in Ec.
  assert (Hseen : forall n, n ∈ seen -> sel !! n = sel0 !! n /\ (n ∈ casc <-> n ∈ casc0)).
  { intros n Hn. destruct (A n) as [-> ->]; [by right|]. split; [|by apply H2]. apply lookup_insert_ne. by intros <-. }
  constructor; [done|..].
  - intros n Hn Hcs. csimpl in Hcs. apply not_elem_of_cons in Hcs as [Hne Hcs].
    rewrite B; [|rewrite not_elem_of_cons; done|done]. by apply lookup_insert_ne.
  - intros c' [->|Hin]%elem_of_cons; [|by apply C]. split; [by rewrite Ec|]. apply Hch; [|done..].
    intros r Hr. unfold is_selected. by rewrite (proj1 (Hseen r Hr)).
Qed.

Lemma select_loop_left forced ask cs seen sel0 casc0 sel casc :
  select_loop forced ask cs sel0 casc0 = inr (sel, casc) -> components_ok cs seen = true ->
  (forall n, n ∈ casc0 -> n ∈ seen) -> loop_left forced ask cs seen sel0 sel casc0 casc.
Proof.
  revert seen sel0 casc0. induction cs as [|c cs IH]; intros seen sel0 casc0 Hs Hok Hc0; simpl in Hs, Hok.
  { injection Hs as <- <-. constructor; [done..|]. by intros c Hn%not_elem_of_nil. }
  rewrite !andb_true_iff, negb_true_iff, bool_decide_eq_false in Hok. destruct Hok as [[[[_ Hnew] Hreq] _] Hok].
  assert (Hreq' : forall r, r ∈ cp_Requires c -> r ∈ seen).
  { intros r Hr. rewrite forallb_forall in Hreq. apply list_elem_of_In, Hreq in Hr. by apply bool_decide_eq_true in Hr. }
  pose proof (find_missing sel0 (cp_Requires c)) as Hfind. destruct (List.find _ _) as [missing|].
  - destruct Hfind as [Hm Hsel]. destruct (is_selected forced (cp_Name c)) eqn:Ef; [done|].
    apply (loop_left_cons _ _ _ _ _ _ _ false _ (casc0 ++ [cp_Name c])); [done| |apply IH; [done..|]|].
    + intros n Hn. rewrite elem_of_app, list_elem_of_singleton. split; [|by left]. intros [?| ->]; done.
    + intros n [Hn|Hn%list_elem_of_singleton]%elem_of_app; [right; by apply Hc0|subst; apply list_elem_of_here].
    + intros Hagree Ec Ecasc. constructor.
      * intros Hall. specialize (Hall missing Hm). rewrite Hagree in Hall by auto. congruence.
      * intros _. split_and!; [done| |done]. apply Ecasc, elem_of_app. right. apply list_elem_of_here.
  - fold (wanted forced ask c) in Hs. destruct (wanted forced ask c) as [keep|] eqn:Ew; [|done].
    apply (loop_left_cons _ _ _ _ _ _ _ keep _ casc0); [done..|apply IH; [done..|]|].
    + intros n Hn. right. by apply Hc0.
    + intros Hagree Ec Ecasc. constructor.
      * intros _. split_and!; [congruence|by rewrite Ew|]. intros Hin%Ecasc%Hc0. done.
      * intros (r & Hr & Hsel). rewrite Hagree, Hfind in Hsel by auto. done.
Qed.

(** ** Forced choices *)

Lemma force_with_spec m names forced0 forced :
  force_with m names forced0 = inr forced ->
  (forall n, n ∈ names -> n ∈ componentNames m)
  /\ forall n, forced !! n = if bool_decide (n ∈ names) then Some true else forced0 !! n.
Proof.
  revert forced0. induction names as [|x names IH]; intros forced0 Hf; simpl in Hf.
  { injection Hf as <-. split; [by intros n Hn%not_elem_of_nil|done]. }
  unfold hasComponent in Hf. case_bool_decide as Hx; [|done]. simpl in Hf. destruct (IH _ Hf) as [Hin Hl]. split.
  - intros n [->|Hn]%elem_of_cons; auto.
  - intros n. rewrite Hl. destruct (decide (n = x)) as [->|Hne].
    + rewrite lookup_insert_eq, (bool_decide_eq_true_2 (x ∈ x :: names)) by apply list_elem_of_here. by case_bool_decide.
    + rewrite lookup_insert_ne, (bool_decide_ext (n ∈ x :: names) (n ∈ names)) by (done || (rewrite elem_of_cons; tauto)). done.
Qed.

Lemma force_without_spec m names forced0 forced :
  force_without m names forced0 = inr forced ->
  (forall n, n ∈ names -> is_selected forced0 n = false)
  /\ forall n, forced !! n = if bool_decide (n ∈ names) then Some false else forced0 !! n.
Proof.
  revert forced0. induction names as [|x names IH]; intros forced0 Hf; simpl in Hf.
  { injection Hf as <-. split; [by intros n Hn%not_elem_of_nil|done]. }
  destruct (hasComponent m x); [|done]. simpl in Hf. destruct (is_selected forced0 x) eqn:Ex; [done|].
  destruct (IH _ Hf) as [Hin Hl]. split.
  - intros n [->|Hn]%elem_of_cons; [done|]. specialize (Hin n Hn). revert Hin. unfold is_selected.
    destruct (decide (n = x)) as [->|Hne]; [done|]. by rewrite lookup_insert_ne.
  - intros n. rewrite Hl. destruct (decide (n = x)) as [->|Hne].
    + rewrite lookup_insert_eq, (bool_decide_eq_true_2 (x ∈ x :: names)) by apply list_elem_of_here. by case_bool_decide.
    + rewrite lookup_insert_ne, (bool_decide_ext (n ∈ x :: names) (n ∈ names)) by (done || (rewrite elem_of_cons; tauto)). done.
Qed.

(** a choice of components is consistent.  For a valid manifest, when [Select]
    answers, every component is decided, a selected one has all it requires, the names
    given to [--with] are in and those given to [--without] are out, the ones reported as
    cascaded are exactly those with a requirement left out, and every other component not
    named is as the user answered (or its default). *)
Theorem select_consistent template_ok m with_ without ask s :
  Manifest_validate template_ok m = true -> Select m with_ without ask = inr s ->
  let selected n := is_selected (sl_Selected s) n = true in
  (forall n, is_Some (sl_Selected s !! n) <-> n ∈ componentNames m)
  /\ (forall n, n ∈ with_ -> n ∈ componentNames m /\ selected n) /\ (forall n, n ∈ without -> ~ selected n)
  /\ forall c, c ∈ mn_Components m ->
       (selected (cp_Name c) -> forall r, r ∈ cp_Requires c -> selected r)
       /\ (cp_Name c ∈ sl_Cascaded s <-> exists r, r ∈ cp_Requires c /\ ~ selected r)
       /\ (cp_Name c ∉ with_ -> cp_Name c ∉ without -> (forall r, r ∈ cp_Requires c -> selected r) ->
           sl_Selected s !! cp_Name c = match ask with Some ask => ask c | None => Some (cp_Default c) end).
Proof.
  intros HV HS selected. unfold Manifest_validate in HV. rewrite !andb_true_iff in HV. destruct HV as [[[_ Hok] _] _].
  unfold Select in HS.
  destruct (force_with m with_ ∅) as [|f1] eqn:E1; [done|]. apply force_with_spec in E1 as [Hw Hf1].
  destruct (force_without m without f1) as [|f2] eqn:E2; [done|]. apply force_without_spec in E2 as [Hwo Hf2].
  destruct (select_loop f2 ask (mn_Components m) ∅ []) as [|[sel casc]] eqn:E3; [done|]. injection HS as <-. simpl in *.
  apply (select_loop_left _ _ _ []) in E3 as [_ Hoth Hch]; [|done|intros n Hn; by apply not_elem_of_nil in Hn].
  assert (Hmiss : forall c, c ∈ mn_Components m ->
            (forall r, r ∈ cp_Requires c -> selected r) \/ exists r, r ∈ cp_Requires c /\ is_selected sel r = false).
  { intros c Hc. pose proof (find_missing sel (cp_Requires c)) as Hf. destruct (List.find _ _); [right; eauto|by left]. }
  assert (Hall : forall n, is_Some (sel !! n) <-> n ∈ componentNames m).
  { intros n. split; [|by intros (c & -> & Hc)%list_elem_of_fmap; apply Hch].
    intros Hs. destruct (decide (n ∈ componentNames m)) as [|Hn]; [done|].
    rewrite (Hoth n (not_elem_of_nil n) Hn), lookup_empty in Hs. by destruct Hs. }
  assert (Hwith : forall n, n ∈ with_ -> f2 !! n = Some true).
  { intros n Hn. rewrite Hf2, Hf1. rewrite (bool_decide_eq_true_2 (n ∈ with_)) by done. case_bool_decide as Ho; [|done].
    apply Hwo in Ho. unfold is_selected in Ho. by rewrite Hf1, bool_decide_eq_true_2 in Ho. }
  assert (Hwithout : forall n, n ∈ without -> f2 !! n = Some false) by (intros n Hn; by rewrite Hf2, bool_decide_eq_true_2).
  split_and!; [done|..].
  - intros n Hn. split; [by apply Hw|]. destruct (list_elem_of_fmap_1 cp_Name (mn_Components m) n (Hw n Hn)) as (c & -> & Hc).
    destruct (Hch c Hc) as [_ [Hmet Hms]]. unfold selected, is_selected. destruct (Hmiss c Hc) as [Hm|Hm].
    + destruct (Hmet Hm) as (-> & _). unfold wanted. by rewrite (Hwith _ Hn).
    + destruct (Hms Hm) as (_ & _ & Hf). unfold is_selected in Hf. by rewrite (Hwith _ Hn) in Hf.
  - intros n Hn Hs. assert (Hin : n ∈ componentNames m).
    { apply Hall. unfold selected, is_selected in Hs. by destruct (sel !! n). }
    apply list_elem_of_fmap in Hin as (c & -> & Hc). destruct (Hch c Hc) as [_ [Hmet Hms]]. unfold selected, is_selected in Hs.
    destruct (Hmiss c Hc) as [Hm|Hm]; [destruct (Hmet Hm) as (E & _) | destruct (Hms Hm) as (E & _)]; rewrite E in Hs; [|done].
    unfold wanted in Hs. by rewrite (Hwithout _ Hn) in Hs.
  - intros c Hc. destruct (Hch c Hc) as [_ [Hmet Hms]]. split_and!.
    + intros Hs. destruct (Hmiss c Hc) as [?|Hm]; [done|]. destruct (Hms Hm) as (E & _).
      unfold selected, is_selected in Hs. by rewrite E in Hs.
    + split; [|intros (r & Hr & Hn); apply Hms; exists r; split; [done|]; by apply not_true_is_false].
      intros Hin. destruct (Hmiss c Hc) as [Hm|(r & Hr & Hf)]; [by destruct (Hmet Hm) as (_ & _ & ?)|].
      exists r. split; [done|]. unfold selected. congruence.
    + intros Hn1 Hn2 Hm. destruct (Hmet Hm) as (-> & _). unfold wanted.
      by rewrite Hf2, Hf1, !bool_decide_eq_false_2, lookup_empty.
Qed.

(** ** The order of versions *)

(** A comparison function of a total preorder. *)
Record ordered {A} (cmp : A -> A -> comparison) : Prop := mkOrdered {
  or_sym : forall a b, cmp b a = CompOpp (cmp a b);
  or_eq : forall a b x, cmp a b = Eq -> cmp a x = cmp b x;
  or_lt : forall a b x, cmp a b = Lt -> cmp b x = Lt -> cmp a x = Lt }.

Lemma ordered_refl {A} (cmp : A -> A -> comparison) a : ordered cmp -> cmp a a = Eq.
Proof. intros [Hs _ _]. specialize (Hs a a). by destruct (cmp a a). Qed.

Lemma ordered_eq_r {A} (cmp : A -> A -> comparison) a b x : ordered cmp -> cmp a b = Eq -> cmp x a = cmp x b.
Proof. intros [Hs He _] E. by rewrite (Hs a x), (Hs b x), (He a b x E). Qed.

Lemma ordered_ext {A} (c1 c2 : A -> A -> comparison) : (forall a b, c1 a b = c2 a b) -> ordered c2 -> ordered c1.
Proof. intros E [H1 H2 H3]. constructor; intros *; rewrite !E; eauto. Qed.

Lemma Nat_compare_ordered : ordered Nat.compare.
Proof.
  constructor.
  - intros a b. apply Nat.compare_antisym.
  - intros a b x. by intros ->%Nat.compare_eq.
  - intros a b x. rewrite !Nat.compare_lt_iff. lia.
Qed.

Lemma Z_compare_ordered : ordered Z.compare.
Proof.
  constructor.
  - intros a b. apply Z.compare_antisym.
  - intros a b x. by intros ->%Z.compare_eq.
  - intros a b x. rewrite !Z.compare_lt_iff. lia.
Qed.

Lemma ordered_on {A B} (f : A -> B) (cmp : B -> B -> comparison) : ordered cmp -> ordered (fun a b => cmp (f a) (f b)).
Proof. intros [H1 H2 H3]. constructor; eauto. Qed.

(** First by [cmp1], then by [cmp2]. *)
Definition lex {A} (cmp1 cmp2 : A -> A -> comparison) (a b : A) : comparison :=
  match cmp1 a b with Eq => cmp2 a b | c => c end.

Lemma lex_ordered {A} (cmp1 cmp2 : A -> A -> comparison) : ordered cmp1 -> ordered cmp2 -> ordered (lex cmp1 cmp2).
Proof.
  intros H1 H2. unfold lex. constructor.
  - intros a b. rewrite (or_sym _ H1 a b). destruct (cmp1 a b); simpl; [apply (or_sym _ H2)|done..].
  - intros a b x. destruct (cmp1 a b) eqn:E; [|done..]. rewrite (or_eq _ H1 a b x E). destruct (cmp1 b x); [|done..].
    apply (or_eq _ H2).
  - intros a b x. destruct (cmp1 a b) eqn:Eab; [|destruct (cmp1 b x) eqn:Ebx|done]; try done.
    + rewrite (or_eq _ H1 a b x Eab). destruct (cmp1 b x); [apply (or_lt _ H2)|done..].
    + intros _ _. by rewrite <- (ordered_eq_r cmp1 b x a H1 Ebx), Eab.
    + intros _ _. by rewrite (or_lt _ H1 a b x Eab Ebx).
Qed.

(** Lists, element by element, a prefix first. *)
Fixpoint lex_list {A} (cmp : A -> A -> comparison) (a b : list A) : comparison :=
  match a, b with
  | [], [] => Eq
  | [], _ :: _ => Lt
  | _ :: _, [] => Gt
  | x :: a, y :: b => match cmp x y with Eq => lex_list cmp a b | c => c end
  end.

Lemma lex_list_ordered {A} (cmp : A -> A -> comparison) : ordered cmp -> ordered (lex_list cmp).
Proof.
  intros H. constructor.
  - induction a as [|x a IH]; intros [|y b]; simpl; [done..|]. rewrite (or_sym _ H x y). destruct (cmp x y); simpl; auto.
  - induction a as [|x a IH]; intros [|y b] [|z c]; simpl; try done. destruct (cmp x y) eqn:E; [|done..]. intros Eab.
    rewrite (or_eq _ H x y z E). destruct (cmp y z); auto.
  - induction a as [|x a IH]; intros [|y b] [|z c]; simpl; try done.
    destruct (cmp x y) eqn:Exy; [|destruct (cmp y z) eqn:Eyz|done]; try done.
    + rewrite (or_eq _ H x y z Exy). destruct (cmp y z); [eauto|done..].
    + intros _ _. by rewrite <- (ordered_eq_r cmp y z x H Eyz), Exy.
    + intros _ _. by rewrite (or_lt _ H x y z Exy Eyz).
Qed.

(** The values [f] reads come first, in the order of [c1]; the others in that of [c2]. *)
Definition numbers_first {A B} (f : A -> option B) (c1 : B -> B -> comparison) (c2 : A -> A -> comparison) (a b : A) : comparison :=
  match f a, f b with
  | Some x, Some y => c1 x y
  | Some _, None => Lt
  | None, Some _ => Gt
  | None, None => c2 a b
  end.

Lemma numbers_first_ordered {A B} (f : A -> option B) c1 c2 : ordered c1 -> ordered c2 -> ordered (numbers_first f c1 c2).
Proof.
  intros H1 H2. unfold numbers_first. constructor.
  - intros a b. destruct (f a), (f b); [apply (or_sym _ H1)|done..|apply (or_sym _ H2)].
  - intros a b x. destruct (f a), (f b), (f x); try done; [apply (or_eq _ H1)|apply (or_eq _ H2)].
  - intros a b x. destruct (f a), (f b), (f x); try done; [apply (or_lt _ H1)|apply (or_lt _ H2)].
Qed.

Lemma bytes_Compare_ordered : ordered bytes_Compare.
Proof.
  eapply ordered_ext; [|exact (lex_list_ordered _ (ordered_on nat_of_ascii _ Nat_compare_ordered))].
  induction a as [|x a IH]; intros [|y b]; simpl; [done..|]. by destruct (Nat.compare _ _).
Qed.

Lemma compareNumeric_ordered : ordered compareNumeric.
Proof. exact (lex_ordered _ _ (ordered_on length _ Nat_compare_ordered) bytes_Compare_ordered). Qed.

Lemma compare_identifiers_ordered : ordered compare_identifiers.
Proof.
  eapply ordered_ext; [|exact (lex_list_ordered _ (numbers_first_ordered ParseUint _ _ Z_compare_ordered bytes_Compare_ordered))].
  induction a as [|x a IH]; intros [|y b]; simpl; [done..|]. fold (compare_identifier x y). unfold numbers_first.
  fold (compare_identifier x y). by destruct (compare_identifier x y).
Qed.

Lemma comparePrerelease_ordered : ordered comparePrerelease.
Proof.
  set (ids a b := compare_identifiers (split_on "." a) (split_on "." b)).
  set (pre (a : text) := if bool_decide (a = []) then None else Some a).
  assert (Hids : ordered ids) by (apply (ordered_on (split_on ".")), compare_identifiers_ordered).
  assert (E : forall a b, comparePrerelease a b = numbers_first pre ids (fun _ _ => Eq) a b).
  { intros a b. unfold comparePrerelease, numbers_first, pre. case_bool_decide as Eab.
    - subst b. case_bool_decide; [done|]. by rewrite (ordered_refl ids a Hids).
    - repeat case_bool_decide; try done. congruence. }
  assert (Heq : ordered (fun _ _ : text => Eq)) by (constructor; done).
  exact (ordered_ext _ _ E (numbers_first_ordered pre ids _ Hids Heq)).
Qed.

Lemma compare_semver_ordered : ordered compare_semver.
Proof.
  pose proof compareNumeric_ordered as HN.
  exact (lex_ordered _ _ (ordered_on sm_major _ HN) (lex_ordered _ _ (ordered_on sm_minor _ HN)
           (lex_ordered _ _ (ordered_on sm_patch _ HN) (ordered_on sm_pre _ comparePrerelease_ordered)))).
Qed.

(** ** Numbers of a version *)

Definition all_digits (t : text) : Prop := forallb is_digit t = true.

(** A decimal without leading zeros. *)
Definition canonical_number (t : text) : Prop :=
  all_digits t /\ exists c r, t = c :: r /\ (r = [] \/ 1 <= digit_value c).

Lemma is_digit_value c : is_digit c = true -> 0 <= digit_value c <= 9.
Proof.
  unfold is_digit, char_in, digit_value. rewrite andb_true_iff, !Nat.leb_le.
  change (nat_of_ascii "0") with 48%nat. change (nat_of_ascii "9") with 57%nat. lia.
Qed.

Lemma span_all p t : forallb p (span p t).1 = true.
Proof. induction t as [|c t IH]; [done|]. simpl. destruct (p c) eqn:E; [|done]. destruct (span p t). simpl in *. by rewrite E. Qed.

Lemma number_canonical t n r : number t = Some (n, r) -> canonical_number n.
Proof.
  destruct t as [|c t]; [done|]. simpl. destruct (Ascii.eqb_spec c "0") as [->|Hc].
  { intros [= <- <-]. split; [done|]. eauto. }
  destruct (is_digit c) eqn:Ed; [|done]. pose proof (span_all is_digit t) as Hs.
  destruct (span is_digit t) as [ds rest]. intros [= <- <-]. split; [unfold all_digits; simpl; by rewrite Ed|].
  exists c, ds. split; [done|]. right. apply is_digit_value in Ed. cut (digit_value c <> 0); [lia|]. unfold digit_value. intros E.
  apply Hc. rewrite <- (ascii_nat_embedding c). replace (nat_of_ascii c) with 48%nat by lia. done.
Qed.

Lemma digits_value_acc t n : fold_left (fun n c => 10 * n + digit_value c) t n = n * 10 ^ Z.of_nat (length t) + digits_value t.
Proof.
  unfold digits_value. revert n. induction t as [|c t IH]; intros n; [simpl; lia|]. cbn [fold_left length].
  rewrite (IH (10 * n + digit_value c)), (IH (10 * 0 + digit_value c)), Nat2Z.inj_succ, Z.pow_succ_r by lia. lia.
Qed.

Lemma digits_value_cons c t : digits_value (c :: t) = digit_value c * 10 ^ Z.of_nat (length t) + digits_value t.
Proof. unfold digits_value at 1. cbn [fold_left]. rewrite digits_value_acc. lia. Qed.

Lemma digits_value_lt t : all_digits t -> 0 <= digits_value t < 10 ^ Z.of_nat (length t).
Proof.
  unfold all_digits. induction t as [|c t IH]; [done|]. cbn [forallb length]. rewrite andb_true_iff.
  intros [Hc%is_digit_value Ht%IH]. rewrite digits_value_cons, Nat2Z.inj_succ, Z.pow_succ_r by lia. nia.
Qed.

Lemma bytes_Compare_value a b :
  all_digits a -> all_digits b -> length a = length b -> bytes_Compare a b = Z.compare (digits_value a) (digits_value b).
Proof.
  unfold all_digits. revert b. induction a as [|x a IH]; intros [|y b]; try done. cbn [forallb length]. rewrite !andb_true_iff.
  intros [Hx Ha] [Hy Hb] [= El]. cbn [bytes_Compare]. rewrite !digits_value_cons, El, (IH b Ha Hb El).
  apply is_digit_value in Hx, Hy. pose proof (digits_value_lt a Ha) as Va. pose proof (digits_value_lt b Hb) as Vb.
  rewrite El in Va. unfold digit_value in *. destruct (Nat.compare_spec (nat_of_ascii x) (nat_of_ascii y)) as [E|E|E].
  - rewrite E. symmetry. apply Z.add_compare_mono_l.
  - symmetry. apply Z.compare_lt_iff. nia.
  - symmetry. apply Z.compare_gt_iff. nia.
Qed.

Lemma canonical_lt a b :
  canonical_number a -> canonical_number b -> (length a < length b)%nat -> digits_value a < digits_value b.
Proof.
  intros [Ha (c & r & -> & _)] [Hb (d & s & -> & Hd)] Hl. simpl in Hl. destruct Hd as [->|Hd]; [simpl in Hl; lia|].
  pose proof (digits_value_lt _ Ha) as Va. rewrite (digits_value_cons d). unfold all_digits in Hb. simpl in Hb.
  apply andb_true_iff in Hb as [_ Hs]. pose proof (digits_value_lt s Hs) as Vs.
  assert (10 ^ Z.of_nat (length (c :: r)) <= 10 ^ Z.of_nat (length s)) by (apply Z.pow_le_mono_r; simpl; lia). nia.
Qed.

(** Comparing lengths and then bytes compares the numbers. *)
Lemma compareNumeric_value a b :
  canonical_number a -> canonical_number b -> compareNumeric a b = Z.compare (digits_value a) (digits_value b).
Proof.
  intros Ha Hb. unfold compareNumeric. destruct (Nat.compare_spec (length a) (length b)) as [E|E|E]; symmetry.
  - symmetry. apply bytes_Compare_value; [apply Ha|apply Hb|done].
  - apply Z.compare_lt_iff. by apply canonical_lt.
  - apply Z.compare_gt_iff. by apply canonical_lt.
Qed.

Lemma semverRe_canonical v m :
  semverRe v = Some m -> canonical_number (sm_major m) /\ canonical_number (sm_minor m) /\ canonical_number (sm_patch m).
Proof.
  unfold semverRe. intros (t1 & _ & ([a r1] & Ha & (t2 & _ & ([b r2] & Hb & (t3 & _ & ([c r3] & Hc & Hm)%bind_Some)%bind_Some)%bind_Some)%bind_Some)%bind_Some)%bind_Some.
  apply number_canonical in Ha, Hb, Hc. destruct r3 as [|d pre]; [by injection Hm as <-|].
  destruct (_ && _); [|done]. by injection Hm as <-.
Qed.

(** versions are totally ordered and ordered as versions.  [CompareVersions] answers
    for any two valid versions, is antisymmetric and transitive, compares releases by the
    values of their three numbers (however many digits they have), and puts a release
    after its pre-releases; so [CheckMinVersion] accepts a version exactly when it is not
    before the minimum.  Identifiers of a pre-release beyond 64 bits compare as text: one
    of twenty-three digits is placed after the alphanumeric [1a]. *)
Theorem version_order :
  (forall a b, CompareVersions b a = CompOpp <$> CompareVersions a b)
  /\ (forall a b c, CompareVersions a b = Some Lt -> CompareVersions b c = Some Lt -> CompareVersions a c = Some Lt)
  /\ (forall a b c r, CompareVersions a b = Some Eq -> CompareVersions b c = Some r -> CompareVersions a c = Some r)
  /\ (forall a b ma mb, semverRe a = Some ma -> semverRe b = Some mb ->
       let nums m := [digits_value (sm_major m); digits_value (sm_minor m); digits_value (sm_patch m)] in
       CompareVersions a b = Some match lex_list Z.compare (nums ma) (nums mb) with
                                  | Eq => comparePrerelease (sm_pre ma) (sm_pre mb)
                                  | c => c
                                  end
       /\ (sm_pre ma = [] -> sm_pre mb <> [] -> comparePrerelease (sm_pre ma) (sm_pre mb) = Gt)
       /\ (CheckMinVersion a b = true <-> CompareVersions a b <> Some Lt))
  /\ CompareVersions "v1.0.0-99999999999999999999999" "v1.0.0-1a" = Some Gt.
Proof.
  pose proof compare_semver_ordered as HO. unfold CompareVersions. split_and!.
  - intros a b. destruct (semverRe a), (semverRe b); simpl; [|done..]. by rewrite (or_sym _ HO).
  - intros a b c. destruct (semverRe a), (semverRe b), (semverRe c); simpl; try done. intros [= E1] [= E2].
    by rewrite (or_lt _ HO _ _ _ E1 E2).
  - intros a b c r. destruct (semverRe a), (semverRe b), (semverRe c); simpl; try done. intros [= E1] [= E2].
    by rewrite (or_eq _ HO _ _ _ E1), E2.
  - intros a b ma mb Ha Hb. rewrite Ha, Hb. cbn [mbind option_bind]. split; [|split].
    + apply semverRe_canonical in Ha as (A1 & A2 & A3), Hb as (B1 & B2 & B3). unfold compare_semver.
      rewrite !compareNumeric_value by done. cbn [lex_list].
      destruct (digits_value (sm_major ma) ?= _); [|done..]. destruct (digits_value (sm_minor ma) ?= _); [|done..].
      by destruct (digits_value (sm_patch ma) ?= _).
    + intros Ea Hne. rewrite Ea. unfold comparePrerelease. rewrite bool_decide_eq_false_2 by congruence. done.
    + unfold CheckMinVersion, CompareVersions. rewrite Ha, Hb. simpl. case_bool_decide as E; [by subst b|].
      by destruct (compare_semver ma mb).
  - vm_compute. reflexivity.
Qed.

(** ** The files of a generated project *)

Lemma applyReplacements_files render values removed rs files files' :
  applyReplacements render values removed rs files = Some files' ->
  (forall f, is_Some (files' !! f) <-> is_Some (files !! f))
  /\ forall f, f ∉ rp_Path <$> rs -> files' !! f = files !! f.
Proof.
  revert files. induction rs as [|r rs IH]; intros files Ha; simpl in Ha; [by injection Ha as <-|].
  destruct (files !! rp_Path r) as [content|] eqn:Er.
  - destruct (negb _); [done|]. apply bind_Some in Ha as (to & _ & Ha). destruct (IH _ Ha) as [Hd Hl]. split.
    + intros f. rewrite Hd. destruct (decide (f = rp_Path r)) as [->|Hne].
      * rewrite lookup_insert_eq, Er. split; eauto.
      * by rewrite lookup_insert_ne.
    + intros f. csimpl. intros [Hne Hf]%not_elem_of_cons. rewrite Hl by done. by apply lookup_insert_ne.
  - destruct (underAny _ _); [|done]. destruct (IH _ Ha) as [Hd Hl]. split; [done|].
    intros f. csimpl. intros [_ Hf]%not_elem_of_cons. auto.
Qed.

Lemma rewriteFiles_lookup m sel module files files' f :
  rewriteFiles m sel module files = Some files' ->
  files' !! f = content ← files !! f; rewrite_file m sel module f content.
Proof.
  unfold rewriteFiles. destruct (forallb _ _); [|done]. intros [= <-]. rewrite lookup_omap, map_lookup_imap.
  by destruct (files !! f).
Qed.

Lemma rewriteFiles_some m sel module files files' f content :
  rewriteFiles m sel module files = Some files' -> files !! f = Some content ->
  is_Some (rewrite_file m sel module f content).
Proof.
  unfold rewriteFiles. set (rw := map_imap _ files). destruct (forallb _ (map_to_list rw)) eqn:E; [|done]. intros _ Hf.
  rewrite forallb_forall in E. assert (Hin : rw !! f = Some (rewrite_file m sel module f content)).
  { unfold rw. by rewrite map_lookup_imap, Hf. }
  apply elem_of_map_to_list, list_elem_of_In, E in Hin. by apply bool_decide_eq_true in Hin.
Qed.

(** a generated project holds exactly the files of the template outside the removed
    paths - those of the components not selected and those always removed - and a file no
    replacement names is its template with the blocks of unselected components cut; in a
    text file that does not name the module no marker is left. *)
Theorem generated_project template_text m sel name owner module files files' :
  render_project template_text m sel name owner module files = Some files' ->
  (forall f, is_Some (files' !! f) <-> is_Some (files !! f) /\ underAny f (removed_paths m sel) = false)
  /\ forall f content, f ∉ rp_Path <$> mn_Replacements m -> files !! f = Some content ->
       underAny f (removed_paths m sel) = false -> isBinary content = false ->
       exists out, StripMarkers content (sl_Selected sel) = inr out
         /\ files' !! f = Some (if names_module f then ReplaceAll (bytes_of (mn_ModulePath m)) (bytes_of module) out else out)
         /\ forall sel', StripMarkers out sel' = inr out.
Proof.
  unfold render_project, removePaths. destruct (forallb _ _); [|done]. simpl. set (removed := removed_paths m sel).
  intros (files2 & Ha & Hr)%bind_Some. apply applyReplacements_files in Ha as [Hd Hl].
  assert (Hkeep : forall f c, filter (fun kv => underAny kv.1 removed = false) files !! f = Some c <->
                              files !! f = Some c /\ underAny f removed = false) by (intros; by rewrite map_lookup_filter_Some).
  split.
  - intros f. rewrite (rewriteFiles_lookup _ _ _ _ _ f Hr). destruct (files2 !! f) as [c|] eqn:E2.
    + assert (Hs : is_Some (files2 !! f)) by (by rewrite E2). apply Hd in Hs as [c0 [Hc Hu]%Hkeep].
      split; [intros _; split; [by rewrite Hc|done]|]. intros _. by apply (rewriteFiles_some _ _ _ _ _ f c Hr).
    + split; [by intros [? ?]|]. intros [[c Hc] Hu]. assert (Hs : is_Some (files2 !! f)); [|rewrite E2 in Hs; by destruct Hs].
      apply Hd. exists c. by apply Hkeep.
  - intros f content Hf Hc Hu Hb. assert (H2 : files2 !! f = Some content) by (rewrite Hl by done; by apply Hkeep).
    pose proof (rewriteFiles_some _ _ _ _ _ f content Hr H2) as Hs. rewrite (rewriteFiles_lookup _ _ _ _ _ f Hr), H2. simpl.
    unfold rewrite_file in *. rewrite Hb in *. destruct (StripMarkers content (sl_Selected sel)) as [|out] eqn:Es; [by destruct Hs|].
    exists out. split_and!; [done..|]. intros sel'. by eapply strip_again.
Qed.

(** ** A small template *)

Definition nl : string := String newline "".
Definition main_go : text :=
  bytes_of ("package main" ++ nl ++ "// vogel:component worker begin" ++ nl ++ "run()" ++ nl
            ++ "  # vogel:only begin" ++ nl ++ "todo()" ++ nl ++ "  # vogel:only end" ++ nl
            ++ "// vogel:component worker end" ++ nl ++ "done()")%string.
Definition readme : text := bytes_of ("<!-- vogel:component docs begin -->" ++ nl ++ "Docs" ++ nl ++ "<!-- vogel:component docs end -->" ++ nl)%string.

Definition demo_manifest : Manifest :=
  mkManifest "example.com/old" "v0.10.0"
    [ mkComponent "worker" "Keep the worker?" true [] ["cmd/worker"];
      mkComponent "mail" "Keep mail?" true ["worker"] ["mail"];
      mkComponent "docs" "Keep docs?" false [] [] ]
    [".vogel"] [].

Lemma strip_markers_exact_witness :
  StripMarkers main_go {[ "worker" := true ]} = inr (bytes_of ("package main" ++ nl ++ "run()" ++ nl ++ "done()")%string)
  /\ exists kept, template {[ "worker" := true ]} (lines_of main_go) kept /\ length kept = 3%nat.
Proof.
  assert (Hs : StripMarkers main_go {[ "worker" := true ]} = inr (bytes_of ("package main" ++ nl ++ "run()" ++ nl ++ "done()")%string))
    by (vm_compute; reflexivity).
  split; [exact Hs|]. destruct (proj1 (proj1 (strip_markers_exact main_go {[ "worker" := true ]} _)) Hs) as (kept & Ht & Hk).
  exists kept. split; [exact Ht|]. apply template_kept in Ht as [Hsub _].
  assert (El : line_list kept) by (eapply line_list_sublist; [exact Hsub|apply lines_of_list]).
  rewrite <- (lines_of_concat kept El), <- Hk. reflexivity.
Defined.

Lemma select_consistent_witness :
  exists s, Select demo_manifest [] ["worker"] None = inr s
    /\ is_selected (sl_Selected s) "worker" <> true /\ "mail" ∈ sl_Cascaded s.
Proof.
  pose (s := match Select demo_manifest [] ["worker"] None with inr s => s | inl _ => mkSelection ∅ [] [] end).
  assert (HS : Select demo_manifest [] ["worker"] None = inr s) by (vm_compute; reflexivity).
  exists s. split; [exact HS|].
  destruct (select_consistent (fun _ => true) demo_manifest [] ["worker"] None s ltac:(vm_compute; reflexivity) HS)
    as (_ & _ & Hwo & Hc).
  split; [apply Hwo; left|].
  destruct (Hc (mkComponent "mail" "Keep mail?" true ["worker"] ["mail"])) as (_ & [_ Hcasc] & _); [right; left|].
  apply Hcasc. exists "worker". split; [left|]. apply Hwo. left.
Defined.

Definition demo_files : Project :=
  {[ "cmd/api/main.go" := main_go; "cmd/worker/main.go" := []; "mail/mail.go" := []; "README" := readme;
     ".vogel/template.json" := [] ]}.
Definition demo_selection : Selection :=
  match Select demo_manifest ["docs"] ["worker"] None with inr s => s | inl _ => mkSelection ∅ [] [] end.
Definition demo_project : Project :=
  default ∅ (render_project (fun to _ => Some to) demo_manifest demo_selection "demo" "me" "example.com/new" demo_files).

Lemma generated_project_witness :
  demo_project !! "cmd/worker/main.go" = None
  /\ demo_project !! "README" = Some (bytes_of ("Docs" ++ nl)%string)
  /\ exists out, StripMarkers readme (sl_Selected demo_selection) = inr out /\ demo_project !! "README" = Some out.
Proof.
  assert (HR : render_project (fun to _ => Some to) demo_manifest demo_selection "demo" "me" "example.com/new" demo_files
               = Some demo_project) by (vm_compute; reflexivity).
  destruct (generated_project _ _ _ _ _ _ _ _ HR) as [Hd Hf].
  split; [vm_compute; reflexivity|]. split; [vm_compute; reflexivity|].
  destruct (Hf "README" readme) as (out & Hs & Hl & _); [apply not_elem_of_nil|reflexivity..|].
  exists out. split; [exact Hs|exact Hl].
Defined.
