(* ===== verification/ScaffoldSource.v ===== *)
(** Where the project generator takes its template from ([internal/scaffold/source.go]):
    the extraction of [examples/boilerplate] from a release's tarball, and the copy of it
    from a local checkout.

    A directory is a map from slash paths, as lists of elements, to directories and
    regular files; the empty path is the directory itself.  The tarball is what
    [archive/tar] reads from it, entry by entry, each with the bytes that can be read of
    its content.  [os.Root]'s operations are those on the map; failures of the disk
    itself are left out. *)

From stdpp Require Import base gmap list strings.
From Stdlib Require Import ZArith Lia Ascii.
From S2P Require Import Prelude GoStrings GoText Scaffold.

Open Scope string_scope.
Open Scope list_scope.
Open Scope Z_scope.

(** ** Paths *)

Definition slash : ascii := "/".
Definition backslash : ascii := ascii_of_nat 92.
Definition is_abs (p : text) : bool := match p with c :: _ => Ascii.eqb c slash | [] => false end.

(** [path.Clean] of a rooted path: what climbs above the root stays there. *)
Fixpoint rooted_elements (elems stack : list text) : list text :=
  match elems with
  | [] => stack
  | e :: elems =>
      if bool_decide (e = []) || bool_decide (e = bytes_of ".") then rooted_elements elems stack
      else if bool_decide (e = bytes_of "..") then rooted_elements elems (tail stack)
      else rooted_elements elems (e :: stack)
  end.
Definition path_Clean (p : text) : text :=
  if is_abs p then slash :: join_slash (rev (rooted_elements (split_on slash p) [])) else Clean p.

(** [path.Dir]: up to the last slash, cleaned. *)
Fixpoint dir_part (elems : list text) : text :=
  match elems with
  | [] | [_] => []
  | e :: elems => e ++ slash :: dir_part elems
  end.
Definition path_Dir (p : text) : text := path_Clean (dir_part (split_on slash p)).

(** [path.Join] of a path that is not empty and another. *)
Definition path_Join (a b : text) : text := path_Clean (match b with [] => a | _ => a ++ slash :: b end).

(** [path.Base]: the last element, without trailing slashes. *)
Fixpoint drop_slashes (t : text) : text :=
  match t with c :: t' => if Ascii.eqb c slash then drop_slashes t' else t | [] => [] end.
Definition path_Base (p : text) : text :=
  match p, rev (drop_slashes (rev p)) with
  | [], _ => bytes_of "."
  | _, [] => bytes_of "/"
  | _, q => default [] (last (split_on slash q))
  end.

Definition isSafeArchivePath (name : text) : bool :=
  negb (bool_decide (name = []) || existsb (Ascii.eqb backslash) name || is_abs name)
  && forallb (fun elem => negb (bool_decide (elem = bytes_of ".."))) (split_on slash name).

Definition escapes (rel target : text) : bool :=
  if bool_decide (target = []) || is_abs target || existsb (Ascii.eqb backslash) target then true
  else
    let resolved := path_Join (path_Dir rel) target in
    bool_decide (resolved = bytes_of "..") || bool_decide (is_Some (lit "../" resolved)).

Definition isEnvFile (name : text) : bool :=
  bool_decide (name = bytes_of ".env") || bool_decide (is_Some (lit ".env." name)).

(** ** The target directory *)

Inductive node := NDir | NFile (mode : Z) (content : text).
Abbreviation tree := (gmap (list string) node).

Definition normal_elem (e : text) : bool := negb (bool_decide (e = []) || bool_decide (e = bytes_of ".")).

(** The elements of a path given to [os.Root], [None] where it refuses the path: an empty
    one and an absolute one.  No caller gives one with [..]. *)
Definition root_parts (rel : text) : option (list string) :=
  if bool_decide (rel = []) || is_abs rel then None
  else Some (string_of <$> List.filter normal_elem (split_on slash rel)).

(** The directories of [rest] below [done]; [false] when one of them is a file. *)
Fixpoint mkdir_parts (t : tree) (done rest : list string) : tree * bool :=
  match rest with
  | [] => (t, true)
  | e :: rest =>
      let p := done ++ [e] in
      match t !! p with
      | Some (NFile _ _) => (t, false)
      | Some NDir => mkdir_parts t p rest
      | None => mkdir_parts (<[p := NDir]> t) p rest
      end
  end.

(** [root.MkdirAll]. *)
Definition MkdirAll (t : tree) (rel : text) : tree * bool :=
  match root_parts rel with
  | None => (t, false)
  | Some parts => mkdir_parts t [] parts
  end.

Inductive source_error :=
| XGzip | XDest | XRead | XTooMany | XUnsafe (name : text) | XTops (top first : text) | XFs (rel : text)
| XLimit | XDuplicate (rel : text) | XShort (rel : text) | XEscapes (name target : text) | XNoBoilerplate
| XNotCheckout | XListing.

Definition is_dir (t : tree) (p : list string) : bool :=
  match p, t !! p with
  | [], _ | _, Some NDir => true
  | _, _ => false
  end.

(** [root.OpenFile] with [O_CREATE|O_EXCL]: the path of the new file, [Some true] where
    the failure is [fs.ErrExist]. *)
Definition open_excl (t : tree) (rel : text) : bool + list string :=
  match root_parts rel, last (split_on slash rel) with
  | Some parts, Some final =>
      if negb (normal_elem final) then inl false
      else if negb (is_dir t (removelast parts)) then inl false
      else match t !! parts with
           | Some _ => inl true
           | None => inr parts
           end
  | _, _ => inl false
  end.

Definition fileMode (executable : bool) : Z := if executable then 493 else 420.

(** The directories above [rel], as [extractFile] and [copyRegular] make them. *)
Definition make_parents (t : tree) (rel : text) : tree * bool :=
  let dir := path_Dir rel in
  if bool_decide (dir = bytes_of ".") then (t, true) else MkdirAll t dir.

(** ** The tarball *)

Inductive typeflag := TypeReg | TypeDir | TypeSymlink | TypeLink | TypeXGlobalHeader | TypeOther (c : ascii).
#[export] Instance typeflag_eq_dec : EqDecision typeflag.
Proof. solve_decision. Defined.

(** A header, and what can be read of the content behind it. *)
Record tar_header := mkHeader {
  h_Name : text; h_Typeflag : typeflag; h_Size : Z; h_Mode : Z; h_Linkname : text; h_content : text }.

(** [tr.Next]; the end of the list is [io.EOF]. *)
Inductive tar_next := Entry (h : tar_header) | Broken.

Definition executable_bits (mode : Z) : bool := negb (Z.land mode 73 =? 0).

(** What [io.CopyN] copies of an entry. *)
Definition copied (h : tar_header) : text :=
  take (Z.to_nat (Z.min (h_Size h) (Z.of_nat (length (h_content h))))) (h_content h).

Definition extractFile (t : tree) (rel : text) (h : tar_header) : tree * option source_error :=
  let '(t, made) := make_parents t rel in
  if negb made then (t, Some (XFs rel))
  else match open_excl t rel with
       | inl exists_ => (t, Some (if exists_ then XDuplicate rel else XFs rel))
       | inr p =>
           (<[p := NFile (fileMode (executable_bits (h_Mode h))) (copied h)]> t,
            if Z.of_nat (length (h_content h)) <? h_Size h then Some (XShort rel) else None)
       end.

Definition boilerplateDir : string := "examples/boilerplate".
Definition maxTarEntries : Z := 100000.
Definition DefaultMaxExtractBytes : Z := Z.shiftl 64 20.

(** The wrap-around of [int64]. *)
Definition int64 (n : Z) : Z := (n + 2 ^ 63) mod 2 ^ 64 - 2 ^ 63.

Record extraction := mkExtraction {
  x_top : text; x_total : Z; x_entries : Z; x_written : bool; x_tree : tree }.

(** [strings.TrimSuffix(name, "/")]. *)
Definition trim_slash (t : text) : text :=
  match rev t with c :: r => if Ascii.eqb c slash then rev r else t | [] => t end.
(** [strings.Cut(name, "/")], the part before. *)
Definition first_elem (name : text) : text := default [] (head (split_on slash name)).

(** The path below [<top>/examples/boilerplate]; [None] for an entry outside it. *)
Definition below_boilerplate (top name : text) : option text :=
  match strip_prefix (top ++ slash :: bytes_of boilerplateDir) name with
  | None => None
  | Some [] => Some []
  | Some (c :: rel) => if Ascii.eqb c slash then Some rel else None
  end.

(** The switch over the kind of an entry below the boilerplate. *)
Definition extract_entry (maxBytes : Z) (s : extraction) (h : tar_header) (rel : text) : extraction * option source_error :=
  match h_Typeflag h with
  | TypeDir =>
      if bool_decide (rel = []) then (mkExtraction (x_top s) (x_total s) (x_entries s) true (x_tree s), None)
      else
        let '(t, made) := MkdirAll (x_tree s) rel in
        (mkExtraction (x_top s) (x_total s) (x_entries s) (made || x_written s) t,
         if made then None else Some (XFs rel))
  | TypeReg =>
      let total := int64 (x_total s + h_Size h) in
      if (h_Size h <? 0) || (maxBytes <? total) then
        (mkExtraction (x_top s) total (x_entries s) (x_written s) (x_tree s), Some XLimit)
      else
        let '(t, e) := extractFile (x_tree s) rel h in
        (mkExtraction (x_top s) total (x_entries s) (match e with None => true | _ => x_written s end) t, e)
  | TypeSymlink =>
      (s, if escapes rel (h_Linkname h) then Some (XEscapes (h_Name h) (h_Linkname h)) else None)
  | TypeLink =>
      (s, if negb (isSafeArchivePath (h_Linkname h))
             || negb (bool_decide (is_Some (strip_prefix (x_top s ++ slash :: bytes_of boilerplateDir ++ [slash]) (h_Linkname h))))
          then Some (XEscapes (h_Name h) (h_Linkname h)) else None)
  | TypeXGlobalHeader | TypeOther _ => (s, None)
  end.

(** One turn of [ExtractBoilerplate]'s loop, after [tr.Next]. *)
Definition extract_step (maxBytes : Z) (s : extraction) (h : tar_header) : extraction * option source_error :=
  let entries := x_entries s + 1 in
  let s := mkExtraction (x_top s) (x_total s) entries (x_written s) (x_tree s) in
  if maxTarEntries <? entries then (s, Some XTooMany)
  else if bool_decide (h_Typeflag h = TypeXGlobalHeader) then (s, None)
  else
    let name := trim_slash (h_Name h) in
    if negb (isSafeArchivePath name) then (s, Some (XUnsafe (h_Name h)))
    else
      let first := first_elem name in
      if negb (bool_decide (x_top s = [])) && negb (bool_decide (first = x_top s))
      then (s, Some (XTops (x_top s) first))
      else
        let s := mkExtraction first (x_total s) entries (x_written s) (x_tree s) in
        match below_boilerplate first name with
        | None => (s, None)
        | Some rel => extract_entry maxBytes s h rel
        end.

Fixpoint extract_loop (maxBytes : Z) (archive : list tar_next) (s : extraction) : extraction * option source_error :=
  match archive with
  | [] => (s, None)
  | Broken :: _ => (s, Some XRead)
  | Entry h :: archive =>
      match extract_step maxBytes s h with
      | (s, None) => extract_loop maxBytes archive s
      | (s, Some e) => (s, Some e)
      end
  end.

(** [ExtractBoilerplate] into a directory that holds [t]: the directory left, and the
    failure if there is one.  [None] for an archive that is no gzip stream, and for a
    directory that cannot be made. *)
Definition ExtractBoilerplate (archive : option (list tar_next)) (dest : option tree) (maxBytes : Z)
  : option tree * option source_error :=
  match archive, dest with
  | None, _ => (dest, Some XGzip)
  | Some _, None => (None, Some XDest)
  | Some archive, Some t =>
      let '(s, e) := extract_loop maxBytes archive (mkExtraction [] 0 0 false t) in
      (Some (x_tree s),
       match e with
       | Some e => Some e
       | None => if x_written s then None else Some XNoBoilerplate
       end)
  end.

(** ** Downloading *)

Definition DefaultTarballBaseURL : string := "https://codeload.github.com".
Definition maxDownloadBytes : Z := Z.shiftl 256 20.

(** [Fetcher]; an empty base and a limit that is not positive stand for the defaults. *)
Record Fetcher := mkFetcher { ft_BaseURL : string; ft_MaxBytes : Z }.

Definition tarball_url (base version : string) : string :=
  string_of (trim_slash (bytes_of base)) +:+ "/kafeiih/vogel/tar.gz/refs/tags/" +:+ version.

Inductive fetch_error := FVersion | FDownload | FStatus (status : Z) | FExtract (e : source_error).

(** [Fetch]; [get url limit] is the response to a request: its status and what its first
    [limit] bytes hold as an archive. *)
Definition Fetch (get : string -> Z -> option (Z * option (list tar_next))) (f : option Fetcher) (version : string)
    (dest : option tree) : option tree * option fetch_error :=
  if negb (ValidateVersion version) then (dest, Some FVersion)
  else
    let base := match f with
                | Some f => if bool_decide (ft_BaseURL f = "") then DefaultTarballBaseURL else ft_BaseURL f
                | None => DefaultTarballBaseURL
                end in
    let limit := match f with
                 | Some f => if 0 <? ft_MaxBytes f then ft_MaxBytes f else DefaultMaxExtractBytes
                 | None => DefaultMaxExtractBytes
                 end in
    match get (tarball_url base version) maxDownloadBytes with
    | None => (dest, Some FDownload)
    | Some (status, archive) =>
        if negb (status =? 200) then (dest, Some (FStatus status))
        else let '(t, e) := ExtractBoilerplate archive dest limit in (t, FExtract <$> e)
    end.

(** ** A local checkout *)

(** [$] of a multi-line expression after [\s*]. *)
Definition line_ends (t : text) : bool :=
  let '(w, r) := span is_ws t in bool_decide (r = []) || existsb (Ascii.eqb newline) w.

(** [module\s+github\.com/kafeiih/vogel\s*$] at the start of a line. *)
Definition module_line_at (t : text) : bool :=
  match lit "module" t with
  | None => false
  | Some t =>
      let '(w, t) := span is_ws t in
      negb (bool_decide (w = [])) && match lit "github.com/kafeiih/vogel" t with Some t => line_ends t | None => false end
  end.

(** [vogelModuleLineRe.Match]; [bol] when the text starts a line. *)
Fixpoint vogelModuleLine (bol : bool) (t : text) : bool :=
  (bol && module_line_at t) || match t with [] => false | c :: t => vogelModuleLine (Ascii.eqb c newline) t end.

(** [os.Lstat] and [os.Open] of a file of the checkout. *)
Inductive lstat_result := LMissing | LFails | LOther | LUnreadable | LRegular (mode : Z) (content : text).

(** What a checkout shows: its go.mod, whether it has the boilerplate, what
    [git ls-files -z] prints in it, the entries a walk of it visits (and whether each is
    a regular file), and its files. *)
Record checkout := mkCheckout {
  ck_gomod : option text; ck_boilerplate : bool; ck_git : option text;
  ck_walk : option (list (text * bool)); ck_lstat : text -> lstat_result }.

Definition gitListFiles (k : checkout) : option (list text) :=
  (fun out => List.filter (fun f => negb (bool_decide (f = []))) (split_on (ascii_of_nat 0) out)) <$> ck_git k.

Definition walkFiles (k : checkout) : option (list text) :=
  (fun entries => fst <$> List.filter snd entries) <$> ck_walk k.

Definition copyRegular (k : checkout) (t : tree) (rel : text) : tree * option source_error :=
  if negb (isSafeArchivePath rel) then (t, Some (XUnsafe rel))
  else match ck_lstat k rel with
       | LMissing | LOther => (t, None)
       | LFails | LUnreadable => (t, Some (XFs rel))
       | LRegular mode content =>
           let '(t, made) := make_parents t rel in
           if negb made then (t, Some (XFs rel))
           else match open_excl t rel with
                | inl _ => (t, Some (XFs rel))
                | inr p => (<[p := NFile (fileMode (executable_bits mode)) content]> t, None)
                end
       end.

Fixpoint copy_loop (k : checkout) (files : list text) (t : tree) : tree * option source_error :=
  match files with
  | [] => (t, None)
  | rel :: files =>
      if isEnvFile (path_Base rel) then copy_loop k files t
      else match copyRegular k t rel with
           | (t, None) => copy_loop k files t
           | (t, Some e) => (t, Some e)
           end
  end.

(** The files [CopyLocal] copies from: git's, or else those of a walk. *)
Definition listed (k : checkout) : option (list text) :=
  match gitListFiles k with Some files => Some files | None => walkFiles k end.

Definition CopyLocal (k : checkout) (dest : option tree) : option tree * option source_error :=
  if negb (match ck_gomod k with Some gomod => vogelModuleLine true gomod | None => false end) then (dest, Some XNotCheckout)
  else if negb (ck_boilerplate k) then (dest, Some XNotCheckout)
  else match listed k, dest with
       | None, _ => (dest, Some XListing)
       | Some _, None => (None, Some XDest)
       | Some files, Some t => let '(t, e) := copy_loop k files t in (Some t, e)
       end.
