(* ===== verification/ExtractTheorems.v ===== *)
(** The extraction of a template stays in its directory: paths of the archive against the
    directory's, what an extraction or a copy can add, and what one that succeeds has
    written. *)

From stdpp Require Import base gmap list strings.
From Stdlib Require Import ZArith Lia Ascii.
From S2P Require Import Prelude GoStrings GoText Scaffold ScaffoldSource.

Open Scope string_scope.
Open Scope list_scope.
Open Scope Z_scope.

(** ** Splitting at slashes *)

Lemma split_on_join (l : list text) :
  l <> [] -> Forall (fun e => slash ∉ e) l -> split_on slash (join_slash l) = l.
Proof.
  intros Hne H. induction H as [|e l He Hl IH]; [done|]. destruct l as [|e' l]; [by apply split_on_word|].
  change (join_slash (e :: e' :: l)) with (e ++ slash :: join_slash (e' :: l)).
  by rewrite split_on_app, split_on_word, IH.
Qed.

Lemma split_dir_part (l : list text) :
  Forall (fun e => slash ∉ e) l -> (2 <= length l)%nat -> split_on slash (dir_part l) = removelast l ++ [[]].
Proof.
  induction l as [|e l IH]; intros H Hl; simpl in Hl; [lia|]. inversion H as [|? ? He Hr]; subst.
  destruct l as [|e' l]; [simpl in Hl; lia|].
  change (dir_part (e :: e' :: l)) with (e ++ slash :: dir_part (e' :: l)).
  rewrite split_on_app, split_on_word by done.
  destruct l as [|e'' l]; [done|]. rewrite IH by (done || simpl; lia). done.
Qed.

Lemma is_abs_split t : is_abs t = true <-> exists e l, split_on slash t = [] :: e :: l.
Proof.
  destruct t as [|c t]; simpl; [split; [done|by intros (?&?&?)]|]. destruct (Ascii.eqb c slash).
  - destruct (split_on slash t) as [|e l] eqn:E; [by apply split_on_ne in E|]. split; eauto.
  - split; [done|]. destruct (split_on slash t); by intros (?&?&?).
Qed.

Lemma split_slashless t : Forall (fun e => slash ∉ e) (split_on slash t).
Proof. apply List.Forall_forall. intros e He. eapply split_on_no_sep. by apply list_elem_of_In. Qed.

(** ** Cleaning paths *)

Definition dotdot : text := bytes_of "..".

Lemma clean_app a b stack : clean_elements (a ++ b) stack = clean_elements b (clean_elements a stack).
Proof.
  revert stack. induction a as [|e a IH]; intros stack; cbn [app clean_elements]; [done|].
  destruct (bool_decide (e = []) || _); [apply IH|]. destruct (bool_decide (e = bytes_of "..")); [|apply IH].
  destruct stack as [|top rest]; [apply IH|]. destruct (bool_decide (top = bytes_of "..")); apply IH.
Qed.

(** Without [..], cleaning drops the empty and the [.] elements. *)
Lemma clean_plain elems stack :
  dotdot ∉ elems -> clean_elements elems stack = rev (List.filter normal_elem elems) ++ stack.
Proof.
  revert stack. induction elems as [|e elems IH]; intros stack H; [done|].
  apply not_elem_of_cons in H as [He H]. cbn [clean_elements List.filter]. unfold normal_elem at 1.
  destruct (bool_decide (e = []) || _); cbn [negb]; [by apply IH|].
  rewrite bool_decide_eq_false_2 by (unfold dotdot in He; congruence). rewrite IH by done. simpl. by rewrite <- app_assoc.
Qed.

Lemma filter_slashless t : Forall (fun e => slash ∉ e) (List.filter normal_elem (split_on slash t)).
Proof.
  apply List.Forall_forall. intros e He. apply List.filter_In in He as [He _]. eapply split_on_no_sep. by apply list_elem_of_In.
Qed.

Lemma filter_idem l : List.filter normal_elem (List.filter normal_elem l) = List.filter normal_elem l.
Proof. induction l as [|e l IH]; simpl; [done|]. destruct (normal_elem e) eqn:E; simpl; [|done]. by rewrite E, IH. Qed.

Lemma clean_stack (l : list text) :
  match rev l with [] => bytes_of "." | stack => join_slash (rev stack) end
  = match l with [] => bytes_of "." | e :: l' => join_slash (e :: l') end.
Proof.
  destruct l as [|e l _] using rev_ind; [done|]. rewrite rev_unit. change (e :: rev l) with (rev [e] ++ rev l).
  rewrite <- rev_app_distr, rev_involutive. by destruct l.
Qed.

(** The directories above a path, and the path. *)
Definition parent_elems (rel : text) : list text := List.filter normal_elem (removelast (split_on slash rel)).
Definition rel_elems (rel : text) : list text := List.filter normal_elem (split_on slash rel).

Lemma elem_of_removelast {A} (x : A) l : x ∈ removelast l -> x ∈ l.
Proof.
  induction l as [|y l IH]; [done|]. destruct l as [|z l]; [by intros ?%not_elem_of_nil|].
  change (removelast (y :: z :: l)) with (y :: removelast (z :: l)). rewrite (elem_of_cons _ x y), (elem_of_cons (z :: l) x y).
  intros [->|H]; [by left|right]. by apply IH.
Qed.

(** The directory of a relative path without [..] is its parents, joined. *)
Lemma path_Dir_eq rel :
  is_abs rel = false -> dotdot ∉ split_on slash rel ->
  path_Dir rel = match parent_elems rel with [] => bytes_of "." | l => join_slash l end.
Proof.
  intros Ha Hd. unfold path_Dir. destruct (decide (2 <= length (split_on slash rel))%nat) as [Hl|Hl].
  - assert (Hsp := split_dir_part _ (split_slashless rel) Hl). unfold path_Clean.
    destruct (is_abs (dir_part _)) eqn:Ea.
    { apply is_abs_split in Ea as (e & l & E). rewrite Hsp in E.
      assert (is_abs rel = true); [|congruence]. apply is_abs_split.
      destruct (split_on slash rel) as [|a [|b r]]; [done|simpl in Hl; lia|].
      change (removelast (a :: b :: r)) with (a :: removelast (b :: r)) in E. injection E as -> _. eauto. }
    unfold Clean. change (split_on "/" ?x) with (split_on slash x). rewrite Hsp, clean_plain, app_nil_r.
    + rewrite List.filter_app. change (List.filter normal_elem [[]]) with (@nil text). rewrite app_nil_r. fold (parent_elems rel).
      apply clean_stack.
    + rewrite elem_of_app, list_elem_of_singleton. intros [H%elem_of_removelast|H]; done.
  - unfold parent_elems. destruct (split_on slash rel) as [|a [|b r]] eqn:E; [by apply split_on_ne in E|done|simpl in Hl; lia].
Qed.

Lemma normal_join_parts (l : list text) :
  l <> [] -> Forall (fun e => slash ∉ e) l -> Forall (fun e => normal_elem e = true) l ->
  root_parts (join_slash l) = Some (string_of <$> l).
Proof.
  intros Hne Hs Hn. unfold root_parts. assert (Hsp := split_on_join l Hne Hs).
  rewrite bool_decide_eq_false_2.
  2: { intros E. rewrite E in Hsp. simpl in Hsp. subst l. inversion Hn as [|? ? H]; subst. done. }
  destruct (is_abs (join_slash l)) eqn:Ea.
  { apply is_abs_split in Ea as (e & r & E). rewrite Hsp in E. subst l. by inversion Hn. }
  rewrite Hsp. simpl. f_equal. f_equal.
  clear -Hn. induction Hn as [|e l He _ IH]; simpl; [done|]. by rewrite He, IH.
Qed.

Lemma filter_normal l : Forall (fun e => normal_elem e = true) (List.filter normal_elem l).
Proof. apply List.Forall_forall. by intros e [_ He]%List.filter_In. Qed.

Lemma make_parents_eq t rel :
  is_abs rel = false -> dotdot ∉ split_on slash rel ->
  make_parents t rel = mkdir_parts t [] (string_of <$> parent_elems rel).
Proof.
  intros Ha Hd. unfold make_parents. rewrite path_Dir_eq by done.
  destruct (parent_elems rel) as [|e l] eqn:E; [done|]. unfold MkdirAll.
  assert (Hn : Forall (fun e => normal_elem e = true) (e :: l)) by (rewrite <- E; apply filter_normal).
  rewrite normal_join_parts; [|done| |done].
  2: { rewrite <- E. apply List.Forall_forall. intros x [Hx _]%List.filter_In. apply list_elem_of_In, elem_of_removelast in Hx.
       by eapply split_on_no_sep. }
  rewrite bool_decide_eq_false_2; [done|]. intros Ej. inversion Hn as [|? ? He Hl]; subst.
  destruct l as [|e' l]; simpl in Ej; [by subst e|].
  apply (f_equal (split_on slash)) in Ej. change (split_on slash (bytes_of ".")) with [bytes_of "."] in Ej.
  change (e ++ "/"%char :: _) with (e ++ slash :: join_slash (e' :: l)) in Ej. rewrite split_on_app in Ej.
  apply (f_equal (@length _)) in Ej. rewrite length_app in Ej. simpl in Ej.
  destruct (split_on slash e) eqn:E1; [by apply split_on_ne in E1|].
  destruct (split_on slash (join_slash (e' :: l))) eqn:E2; [by apply split_on_ne in E2|]. simpl in Ej, E2. rewrite E2 in Ej. simpl in Ej. lia.
Qed.

Lemma make_parents_abs t rel : is_abs rel = true -> make_parents t rel = (t, false).
Proof.
  intros (e & l & E)%is_abs_split. unfold make_parents, path_Dir. rewrite E.
  change (dir_part ([] :: e :: l)) with (slash :: dir_part (e :: l)). done.
Qed.

(** ** Links *)

(** A walk along [elems] from a directory [depth] levels below the root that never leaves
    the root. *)
Fixpoint stays (depth : nat) (elems : list text) : bool :=
  match elems with
  | [] => true
  | e :: elems =>
      if negb (normal_elem e) then stays depth elems
      else if bool_decide (e = dotdot) then match depth with O => false | S d => stays d elems end
      else stays (S depth) elems
  end.

Lemma clean_bottom elems pre : exists pre', clean_elements elems (pre ++ [dotdot]) = pre' ++ [dotdot].
Proof.
  revert pre. induction elems as [|e elems IH]; intros pre; cbn [clean_elements]; [by exists pre|].
  destruct (_ || _); [apply IH|]. case_bool_decide as He; [subst e|apply (IH (e :: pre))].
  destruct pre as [|top pre]; cbn [app].
  - rewrite bool_decide_eq_true_2 by done. apply (IH [bytes_of ".."]).
  - case_bool_decide; [apply (IH (_ :: _ :: pre))|apply IH].
Qed.

Lemma clean_stays elems stack :
  dotdot ∉ stack ->
  if stays (length stack) elems then dotdot ∉ clean_elements elems stack
  else exists pre, clean_elements elems stack = pre ++ [dotdot].
Proof.
  revert stack. induction elems as [|e elems IH]; intros stack Hs; cbn [clean_elements stays]; [done|].
  unfold normal_elem. rewrite negb_involutive. destruct (_ || _); [by apply IH|].
  case_bool_decide as He; [|rewrite bool_decide_eq_false_2 by (unfold dotdot in He; congruence)].
  - rewrite bool_decide_eq_true_2 by done. destruct stack as [|top stack]; simpl length.
    + subst e. apply (clean_bottom elems []).
    + apply not_elem_of_cons in Hs as [Ht Hs]. rewrite bool_decide_eq_false_2 by (unfold dotdot in Ht; congruence). by apply IH.
  - change (S (length stack)) with (length (e :: stack)). apply IH. apply not_elem_of_cons. done.
Qed.

Lemma clean_subset elems stack e : e ∈ clean_elements elems stack -> e ∈ elems \/ e ∈ stack.
Proof.
  revert stack. induction elems as [|x elems IH]; intros stack; cbn [clean_elements]; [by right|].
  rewrite elem_of_cons. destruct (_ || _); [intros []%IH; tauto|].
  destruct (bool_decide (x = bytes_of "..")).
  - destruct stack as [|top stack]; [|destruct (bool_decide (top = _))]; intros []%IH; try tauto.
    + apply list_elem_of_singleton in H as ->. tauto.
    + apply elem_of_cons in H as [->|H]; tauto.
    + right. by apply list_elem_of_further.
  - intros [|[->|?]%elem_of_cons]%IH; tauto.
Qed.

(** A joined path leaves its directory exactly when its first element is [..]. *)
Lemma join_outside (l : list text) :
  Forall (fun e => slash ∉ e) l ->
  bool_decide (join_slash l = dotdot) || bool_decide (is_Some (lit "../" (join_slash l))) = bool_decide (head l = Some dotdot).
Proof.
  intros Hs. apply eq_bool_prop_intro. rewrite orb_True, !bool_decide_spec. split.
  - intros H. assert (Hne : l <> []) by (by intros ->; destruct H as [|[]]).
    assert (Hsp := split_on_join l Hne Hs). destruct H as [E|[r E]].
    + rewrite E in Hsp. by subst l.
    + apply strip_prefix_Some in E. rewrite E in Hsp.
      change (bytes_of "../" ++ r) with (dotdot ++ slash :: r) in Hsp. rewrite split_on_app in Hsp. by subst l.
  - destruct l as [|e [|e' l]]; [done| |]; intros [= ->]; [by left|right].
    change (join_slash (dotdot :: e' :: l)) with (bytes_of "../" ++ join_slash (e' :: l)).
    eexists. unfold lit. by apply strip_prefix_Some.
Qed.

Lemma outside_bottom (stack : list text) :
  Forall (fun e => slash ∉ e) stack ->
  (let resolved := match stack with [] => bytes_of "." | e :: l => join_slash (rev (e :: l)) end in
   bool_decide (resolved = bytes_of "..") || bool_decide (is_Some (lit "../" resolved)))
  = bool_decide (last stack = Some dotdot).
Proof.
  intros Hs. destruct stack as [|e l]; [done|]. cbn zeta.
  etransitivity; [exact (join_outside (rev (e :: l)) (Forall_rev Hs))|]. apply bool_decide_ext. rewrite <- (rev_involutive (e :: l)) at 2. destruct (rev (e :: l)) as [|x y]; [done|].
  simpl rev. by rewrite last_snoc.
Qed.

Lemma parent_elems_in rel e :
  e ∈ parent_elems rel -> slash ∉ e /\ (dotdot ∉ split_on slash rel -> e <> dotdot) /\ normal_elem e = true.
Proof.
  intros H%list_elem_of_In. apply List.filter_In in H as [H Hn]. apply list_elem_of_In, elem_of_removelast in H.
  split; [by eapply split_on_no_sep|]. split; [|done]. by intros Hd ->.
Qed.

Lemma parent_elems_slashless rel : Forall (fun e => slash ∉ e) (parent_elems rel).
Proof. apply List.Forall_forall. intros e He%list_elem_of_In. by apply parent_elems_in in He as [? _]. Qed.

Lemma parent_elems_inside rel : dotdot ∉ split_on slash rel -> dotdot ∉ parent_elems rel.
Proof. intros Hd He. apply parent_elems_in in He as (_ & He & _). by apply He. Qed.

Lemma split_path_Dir rel :
  is_abs rel = false -> dotdot ∉ split_on slash rel ->
  clean_elements (split_on slash (path_Dir rel)) [] = rev (parent_elems rel) /\ is_abs (path_Dir rel) = false
  /\ path_Dir rel <> [].
Proof.
  intros Ha Hd. rewrite path_Dir_eq by done.
  assert (Hn : Forall (fun e => normal_elem e = true) (parent_elems rel)) by apply filter_normal.
  assert (Hs := parent_elems_slashless rel). assert (Hdd := parent_elems_inside rel Hd).
  destruct (parent_elems rel) as [|e l] eqn:E; [done|]. rewrite split_on_join by done. split; [|split].
  - rewrite clean_plain, app_nil_r by done. f_equal. rewrite <- E. apply filter_idem.
  - destruct (is_abs (join_slash (e :: l))) eqn:Ej; [|done]. apply is_abs_split in Ej as (x & y & Ej). rewrite split_on_join in Ej by done.
    injection Ej as -> _. by inversion Hn.
  - intros Ej. apply (f_equal (split_on slash)) in Ej. rewrite split_on_join in Ej by done. injection Ej as -> _. by inversion Hn.
Qed.

Lemma escapes_walk rel target :
  is_abs rel = false -> dotdot ∉ split_on slash rel ->
  escapes rel target = false <->
  target <> [] /\ is_abs target = false /\ backslash ∉ target
  /\ stays (length (parent_elems rel)) (split_on slash target) = true.
Proof.
  intros Ha Hd. unfold escapes.
  destruct (bool_decide (target = []) || is_abs target || existsb (Ascii.eqb backslash) target) eqn:E.
  { split; [done|]. intros (Hne & Hat & Hb & _). rewrite bool_decide_eq_false_2, Hat in E by done. simpl in E.
    apply existsb_exists in E as (c & Hc & <-%Ascii.eqb_eq). by apply list_elem_of_In in Hc. }
  apply orb_false_iff in E as [[Hne Hat]%orb_false_iff Hb]. apply bool_decide_eq_false in Hne.
  assert (Hb' : backslash ∉ target).
  { intros Hin%list_elem_of_In. apply Bool.not_true_iff_false in Hb. apply Hb, existsb_exists. exists backslash.
    split; [done|apply Ascii.eqb_refl]. }
  destruct (split_path_Dir rel Ha Hd) as (Hc & Hda & Hdn).
  assert (Hj : path_Join (path_Dir rel) target = Clean (path_Dir rel ++ slash :: target)).
  { unfold path_Join, path_Clean. destruct target as [|c target]; [done|]. by destruct (path_Dir rel) as [|d p]; simpl in *; [|rewrite Hda]. }
  rewrite Hj. unfold Clean. change (split_on "/" ?x) with (split_on slash x). rewrite split_on_app, clean_app, Hc.
  assert (Hst := clean_stays (split_on slash target) (rev (parent_elems rel))). rewrite List.length_rev in Hst.
  assert (Hsl : Forall (fun e => slash ∉ e) (clean_elements (split_on slash target) (rev (parent_elems rel)))).
  { apply List.Forall_forall. intros e He%list_elem_of_In. apply clean_subset in He as [He|He]; [by eapply split_on_no_sep|].
    apply list_elem_of_In, in_rev, list_elem_of_In in He. by apply parent_elems_in in He as [He _]. }
  assert (Hrev : dotdot ∉ rev (parent_elems rel)).
  { intros He%list_elem_of_In. apply in_rev, list_elem_of_In in He. by apply parent_elems_inside in He. }
  rewrite outside_bottom by done. rewrite bool_decide_eq_false.
  destruct (stays _ _).
  - split; [done|]. intros _ Hl. apply Hst; [done|by apply last_Some_elem_of].
  - split; [|naive_solver]. intros Hl. exfalso. apply Hl. destruct Hst as [pre ->]; [done|by rewrite last_snoc].
Qed.

(** ** What may be added to the directory *)

(** An element of a path that names an entry of its directory. *)
Definition good_elem (e : string) : Prop :=
  normal_elem (bytes_of e) = true /\ bytes_of e <> dotdot /\ slash ∉ bytes_of e /\ backslash ∉ bytes_of e.

(** A path of the archive or of git's list without [..] and backslashes. *)
Definition safe_rel (rel : text) : Prop := dotdot ∉ split_on slash rel /\ backslash ∉ rel.

Lemma good_elems rel (l : list text) :
  safe_rel rel -> (forall e, e ∈ l -> e ∈ split_on slash rel /\ normal_elem e = true) -> Forall good_elem (string_of <$> l).
Proof.
  intros [Hd Hb] Hl. apply Forall_fmap, List.Forall_forall. intros e He%list_elem_of_In. apply Hl in He as [He Hn].
  unfold good_elem, compose. rewrite bytes_string. split_and!; [done| |by eapply split_on_no_sep|].
  - by intros ->.
  - intros Hc. by eapply Hb, split_on_chars.
Qed.

Lemma root_parts_good rel ps : root_parts rel = Some ps -> safe_rel rel -> Forall good_elem ps.
Proof.
  unfold root_parts. destruct (_ || _); [done|]. intros [= <-] Hs. eapply good_elems; [done|].
  intros e He%list_elem_of_In. apply List.filter_In in He as [He Hn]. by apply list_elem_of_In in He.
Qed.

Lemma parents_good rel : safe_rel rel -> Forall good_elem (string_of <$> parent_elems rel).
Proof.
  intros Hs. eapply good_elems; [done|]. intros e He. split; [|by apply parent_elems_in in He as (_ & _ & ?)].
  apply list_elem_of_In, List.filter_In in He as [He _]. by apply elem_of_removelast, list_elem_of_In.
Qed.

Lemma isSafe_inv name :
  isSafeArchivePath name = true -> name <> [] /\ is_abs name = false /\ safe_rel name.
Proof.
  unfold isSafeArchivePath. intros [Hn Hf]%andb_true_iff. apply negb_true_iff, orb_false_iff in Hn as [[He Hb]%orb_false_iff Ha].
  apply bool_decide_eq_false in He. split_and!; [done..|split].
  - intros Hd%list_elem_of_In. rewrite forallb_forall in Hf. apply Hf in Hd. by rewrite bool_decide_eq_true_2 in Hd.
  - intros Hd%list_elem_of_In. apply not_true_iff_false in Hb. apply Hb, existsb_exists. exists backslash.
    split; [done|apply Ascii.eqb_refl].
Qed.

Lemma safe_rel_suffix a rel : safe_rel (a ++ slash :: rel) -> safe_rel rel.
Proof.
  unfold safe_rel. rewrite split_on_app. intros [Hd Hb]. split.
  - intros H. apply Hd, elem_of_app. by right.
  - intros H. apply Hb, elem_of_app. right. by constructor.
Qed.

Lemma below_safe top name rel : safe_rel name -> below_boilerplate top name = Some rel -> safe_rel rel.
Proof.
  unfold below_boilerplate. intros Hs. destruct (strip_prefix _ name) as [[|c r]|] eqn:E; [intros [= <-]| |done].
  - split; [|apply not_elem_of_nil]. simpl. by intros ?%list_elem_of_singleton.
  - destruct (Ascii.eqb_spec c slash) as [->|]; [intros [= <-]|done]. apply strip_prefix_Some in E. rewrite E in Hs.
    by apply safe_rel_suffix in Hs.
Qed.

(** A directory that only grew: what was there is as it was, what is new lies inside and
    is a directory or a file of [P]. *)
Record grown (P : list string -> node -> Prop) (t t' : tree) : Prop := mkGrown {
  gr_kept : t ⊆ t';
  gr_new : forall p n, t' !! p = Some n -> t !! p = None -> p <> [] /\ Forall good_elem p /\ (n = NDir \/ P p n) }.

Lemma grown_refl P t : grown P t t.
Proof. split; [done|congruence]. Qed.

Lemma grown_trans P t1 t2 t3 : grown P t1 t2 -> grown P t2 t3 -> grown P t1 t3.
Proof.
  intros [K1 N1] [K2 N2]. split; [by etrans|]. intros p n H3 H1. destruct (t2 !! p) as [n2|] eqn:E2; [|by apply N2].
  assert (t3 !! p = Some n2) by by eapply lookup_weaken. simplify_eq. by apply N1.
Qed.

Lemma grown_weaken (P Q : list string -> node -> Prop) t t' :
  (forall p n, P p n -> Q p n) -> grown P t t' -> grown Q t t'.
Proof. intros H [K N]. split; [done|]. intros p n Hp Hn. apply N in Hp as (? & ? & ?); naive_solver. Qed.

Lemma grown_insert (P : list string -> node -> Prop) t p n :
  t !! p = None -> p <> [] -> Forall good_elem p -> n = NDir \/ P p n -> grown P t (<[p := n]> t).
Proof.
  intros Hp Hne Hg Hn. split; [by apply insert_subseteq|]. intros q m.
  rewrite lookup_insert_Some. intros [[<- <-]|[_ ?]]; [done|congruence].
Qed.

Lemma mkdir_grown P t done rest :
  Forall good_elem (done ++ rest) -> grown P t (mkdir_parts t done rest).1.
Proof.
  revert t done. induction rest as [|e rest IH]; intros t done Hg; simpl; [apply grown_refl|].
  assert (Hg' : Forall good_elem ((done ++ [e]) ++ rest)) by (rewrite <- app_assoc; done).
  destruct (t !! (done ++ [e])) as [[|m c]|] eqn:E; [by apply IH|apply grown_refl|].
  eapply grown_trans; [|by apply IH]. apply grown_insert; [done|by destruct done| |by left].
  by apply Forall_app in Hg' as [? _].
Qed.

Lemma is_dir_NDir t p : t !! p = Some NDir -> is_dir t p = true.
Proof. unfold is_dir. destruct p; [done|]. by intros ->. Qed.

(** The directories asked for are there. *)
Lemma mkdir_made t done rest : is_dir t done = true -> (mkdir_parts t done rest).2 = true ->
  is_dir (mkdir_parts t done rest).1 (done ++ rest) = true.
Proof.
  revert t done. induction rest as [|e rest IH]; intros t done Hd Hm; simpl in *; [by rewrite app_nil_r|].
  replace (done ++ e :: rest) with ((done ++ [e]) ++ rest) by by rewrite <- app_assoc.
  destruct (t !! (done ++ [e])) as [[|m c]|] eqn:E; [| done |]; apply IH; try done; apply is_dir_NDir; [done|].
  by rewrite lookup_insert_eq.
Qed.

Lemma MkdirAll_grown P t rel : safe_rel rel -> grown P t (MkdirAll t rel).1.
Proof.
  intros Hs. unfold MkdirAll. destruct (root_parts rel) as [ps|] eqn:E; [|apply grown_refl].
  apply mkdir_grown. by eapply root_parts_good.
Qed.

Lemma make_parents_grown P t rel : safe_rel rel -> grown P t (make_parents t rel).1.
Proof.
  intros Hs. destruct (is_abs rel) eqn:Ha; [rewrite make_parents_abs by done; apply grown_refl|].
  rewrite make_parents_eq by (done || apply Hs). by apply mkdir_grown, parents_good.
Qed.

Lemma open_excl_inr t rel p :
  open_excl t rel = inr p -> root_parts rel = Some p /\ t !! p = None /\ p <> [] /\ is_dir t (removelast p) = true.
Proof.
  unfold open_excl. destruct (root_parts rel) as [ps|] eqn:Er; [|done].
  destruct (last (split_on slash rel)) as [final|] eqn:El; [|done].
  destruct (normal_elem final) eqn:En; [|done]. simpl. destruct (is_dir t (removelast ps)) eqn:Ed; [|done]. simpl.
  destruct (t !! ps) as [n|] eqn:E; [done|]. intros [= ->]. split_and!; try done.
  intros ->. unfold root_parts in Er. destruct (_ || _); [done|]. injection Er as Er.
  apply last_Some_elem_of, list_elem_of_In in El. assert (H : In final (List.filter normal_elem (split_on slash rel))) by by apply List.filter_In.
  destruct (List.filter normal_elem _); done.
Qed.

(** ** Extraction *)

(** The path of an entry below the boilerplate of its own top-level directory. *)
Definition entry_rel (h : tar_header) : option text :=
  let name := trim_slash (h_Name h) in below_boilerplate (first_elem name) name.

Definition entry_node (h : tar_header) : node := NFile (fileMode (executable_bits (h_Mode h))) (copied h).

(** Where a regular file of the boilerplate is extracted. *)
Definition file_path (h : tar_header) : option (list string) :=
  if bool_decide (h_Typeflag h = TypeReg) then entry_rel h ≫= root_parts else None.

Definition file_of (hs : list tar_header) (p : list string) (n : node) : Prop :=
  exists h, h ∈ hs /\ file_path h = Some p /\ n = entry_node h.

Lemma extractFile_grown t rel h hs :
  safe_rel rel -> h ∈ hs -> h_Typeflag h = TypeReg -> entry_rel h = Some rel ->
  grown (file_of hs) t (extractFile t rel h).1.
Proof.
  intros Hs Hin Ht Hr. unfold extractFile.
  assert (Hp := make_parents_grown (file_of hs) t rel Hs). destruct (make_parents t rel) as [t1 made].
  destruct made; [|done]. destruct (open_excl t1 rel) as [b|p] eqn:Eo; [done|]. apply open_excl_inr in Eo as (Hps & Hnone & Hne & _).
  eapply grown_trans; [exact Hp|]. apply grown_insert; [done|done|by eapply root_parts_good|]. right. exists h.
  split_and!; [done| |done]. unfold file_path. rewrite bool_decide_eq_true_2, Hr by done. done.
Qed.

Lemma extract_step_grown maxBytes s h hs :
  h ∈ hs -> grown (file_of hs) (x_tree s) (x_tree (extract_step maxBytes s h).1).
Proof.
  intros Hin. unfold extract_step. destruct (maxTarEntries <? _); [apply grown_refl|].
  destruct (bool_decide (h_Typeflag h = _)); [apply grown_refl|].
  destruct (isSafeArchivePath _) eqn:Esafe; [|apply grown_refl]. apply isSafe_inv in Esafe as (_ & _ & Hsafe).
  destruct (_ && _); [apply grown_refl|]. simpl negb. cbv match. cbn zeta.
  destruct (below_boilerplate _ _) as [rel|] eqn:Er; [|apply grown_refl].
  assert (Hs := below_safe _ _ _ Hsafe Er). unfold extract_entry. cbn [x_top x_total x_entries x_written x_tree].
  destruct (h_Typeflag h) eqn:Et; try apply grown_refl.
  - destruct (_ || _); [apply grown_refl|].
    assert (H := extractFile_grown (x_tree s) rel h hs Hs Hin Et Er). by destruct (extractFile _ _ _) as [t e].
  - case_bool_decide; [apply grown_refl|].
    assert (Hm := MkdirAll_grown (file_of hs) (x_tree s) rel Hs). by destruct (MkdirAll _ _) as [t made].
Qed.

(** The entries read of an archive. *)
Fixpoint headers (archive : list tar_next) : list tar_header :=
  match archive with
  | [] | Broken :: _ => []
  | Entry h :: archive => h :: headers archive
  end.

Lemma extract_loop_grown maxBytes archive s hs :
  headers archive ⊆ hs -> grown (file_of hs) (x_tree s) (x_tree (extract_loop maxBytes archive s).1).
Proof.
  revert s. induction archive as [|[h|] archive IH]; intros s Hsub; simpl; try apply grown_refl.
  assert (Hh : h ∈ hs) by (apply Hsub; by constructor).
  assert (H := extract_step_grown maxBytes s h hs Hh). destruct (extract_step maxBytes s h) as [s' [e|]]; [done|].
  eapply grown_trans; [exact H|]. apply IH. intros x Hx. apply Hsub. by constructor.
Qed.

(** C25: whatever the archive holds, and whether its extraction succeeds or fails half way,
    the directory only grows: nothing that was in it is changed or removed, every new path
    lies inside it (each of its elements is a name, neither empty nor [.] nor [..], without
    slashes and backslashes), and is a directory or the content of a regular entry of the
    archive's [examples/boilerplate], at that entry's path, with mode 0644 or 0755; no
    link and no special file is ever made. *)
Theorem extraction_confined archive t maxBytes :
  exists t', (ExtractBoilerplate (Some archive) (Some t) maxBytes).1 = Some t'
  /\ grown (file_of (headers archive)) t t'.
Proof.
  unfold ExtractBoilerplate. assert (H := extract_loop_grown maxBytes archive (mkExtraction [] 0 0 false t) _ (reflexivity _)).
  destruct (extract_loop _ _ _) as [s e]. by exists (x_tree s).
Qed.

(** ** A successful extraction *)

Definition global (h : tar_header) : Prop := h_Typeflag h = TypeXGlobalHeader.

(** An entry that does not stop the extraction of an archive with this top-level directory. *)
Definition admitted (top : text) (h : tar_header) : Prop :=
  global h \/
  isSafeArchivePath (trim_slash (h_Name h)) = true /\ first_elem (trim_slash (h_Name h)) = top
  /\ forall rel, entry_rel h = Some rel ->
     match h_Typeflag h with
     | TypeReg => is_Some (file_path h) /\ 0 <= h_Size h <= Z.of_nat (length (h_content h))
     | TypeSymlink => escapes rel (h_Linkname h) = false
     | TypeLink => isSafeArchivePath (h_Linkname h) = true
                   /\ is_Some (strip_prefix (top ++ slash :: bytes_of boilerplateDir ++ [slash]) (h_Linkname h))
     | _ => True
     end.

(** The sizes of the extracted files together. *)
Definition file_size (h : tar_header) : Z := match file_path h with Some _ => h_Size h | None => 0 end.
Definition sizes (hs : list tar_header) : Z := foldr Z.add 0 (file_size <$> hs).

Lemma sizes_snoc hs h : sizes (hs ++ [h]) = sizes hs + file_size h.
Proof.
  unfold sizes. rewrite fmap_app. change (file_size <$> [h]) with [file_size h]. induction (file_size <$> hs) as [|x l IH]; simpl; [lia|]. rewrite IH. lia.
Qed.

(** A directory or a regular file of the boilerplate. *)
Definition template_entry (h : tar_header) : Prop :=
  is_Some (entry_rel h) /\ (h_Typeflag h = TypeReg \/ h_Typeflag h = TypeDir).

Record extracted (maxBytes : Z) (t : tree) (hs : list tar_header) (s : extraction) : Prop := mkExtracted {
  ed_count : x_entries s = Z.of_nat (length hs);
  ed_bound : x_entries s <= maxTarEntries;
  ed_written : x_written s = true -> exists h, h ∈ hs /\ template_entry h;
  ed_some : x_top s <> [] \/ forall h, h ∈ hs -> global h;
  ed_admitted : forall h, h ∈ hs -> admitted (x_top s) h;
  ed_grown : grown (file_of hs) t (x_tree s);
  ed_files : forall h p, h ∈ hs -> file_path h = Some p -> x_tree s !! p = Some (entry_node h) /\ t !! p = None;
  ed_once : NoDup (omap file_path hs);
  ed_dirs : forall h rel, h ∈ hs -> h_Typeflag h = TypeDir -> entry_rel h = Some rel -> rel <> [] ->
    exists ps, root_parts rel = Some ps /\ is_dir (x_tree s) ps = true;
  ed_limit : x_total s <= Z.max 0 maxBytes;
  ed_total : sizes hs < 2 ^ 63 -> x_total s = sizes hs }.

Lemma is_dir_mono (t t' : tree) p : t ⊆ t' -> is_dir t p = true -> is_dir t' p = true.
Proof.
  intros Hsub. unfold is_dir. destruct p as [|e p]; [done|]. destruct (t !! (e :: p)) as [n|] eqn:E; [|done].
  by rewrite (lookup_weaken _ _ _ _ E Hsub).
Qed.

Lemma int64_id n : - 2 ^ 63 <= n < 2 ^ 63 -> int64 n = n.
Proof. intros H. unfold int64. rewrite Z.mod_small by lia. lia. Qed.

Lemma first_elem_ne name : name <> [] -> is_abs name = false -> first_elem name <> [].
Proof.
  intros Hne Ha. unfold first_elem. destruct (split_on slash name) as [|e l] eqn:E; [by apply split_on_ne in E|].
  simpl. intros ->. destruct l as [|e l].
  - destruct name as [|c name]; [done|]. simpl in E, Ha. rewrite Ha in E. by destruct (split_on slash name).
  - assert (is_abs name = true) by (apply is_abs_split; eauto). congruence.
Qed.

Lemma admitted_file top h p : admitted top h -> file_path h = Some p -> 0 <= h_Size h <= Z.of_nat (length (h_content h)).
Proof.
  unfold admitted, global, file_path. case_bool_decide as Ht; [|done]. rewrite Ht. intros [H|(_ & _ & H)]; [done|].
  destruct (entry_rel h) as [rel|]; [|done]. intros _. by apply (H rel).
Qed.

Lemma sizes_bounds top hs :
  (forall h, h ∈ hs -> admitted top h) ->
  0 <= sizes hs <= foldr Z.add 0 ((fun h => Z.of_nat (length (h_content h))) <$> hs).
Proof.
  intros H. unfold sizes. induction hs as [|h hs IH]; cbn [fmap list_fmap foldr]; [lia|].
  assert (0 <= file_size h <= Z.of_nat (length (h_content h))).
  { unfold file_size. destruct (file_path h) as [p|] eqn:E; [|lia].
    eapply admitted_file; [|exact E]. apply H. by constructor. }
  assert (forall h, h ∈ hs -> admitted top h) by (intros; apply H; by constructor). specialize (IH H1). lia.
Qed.

(** One entry more. *)
Record admits (maxBytes : Z) (s s' : extraction) (h : tar_header) : Prop := mkAdmits {
  ad_count : x_entries s' = x_entries s + 1;
  ad_bound : x_entries s' <= maxTarEntries;
  ad_written : x_written s' = true -> x_written s = true \/ template_entry h;
  ad_top : x_top s = [] \/ x_top s' = x_top s;
  ad_some : x_top s' <> [] \/ global h /\ x_top s' = x_top s;
  ad_ok : admitted (x_top s') h;
  ad_grown : grown (file_of [h]) (x_tree s) (x_tree s');
  ad_file : forall p, file_path h = Some p -> x_tree s !! p = None /\ x_tree s' !! p = Some (entry_node h);
  ad_dir : forall rel, h_Typeflag h = TypeDir -> entry_rel h = Some rel -> rel <> [] ->
    exists ps, root_parts rel = Some ps /\ is_dir (x_tree s') ps = true;
  ad_limit : x_total s <= Z.max 0 maxBytes -> x_total s' <= Z.max 0 maxBytes;
  ad_total : x_total s' = match file_path h with Some _ => int64 (x_total s + h_Size h) | None => x_total s end }.

Lemma admitted_top top top' h : admitted top h -> top = [] \/ top' = top -> admitted top' h.
Proof.
  intros [H|(Hs & Hf & H)] [->| ->]; try (by left); [|by right]. exfalso.
  apply isSafe_inv in Hs as (Hne & Ha & _). by eapply first_elem_ne.
Qed.

Lemma extracted_snoc maxBytes t hs s s' h :
  extracted maxBytes t hs s -> admits maxBytes s s' h -> extracted maxBytes t (hs ++ [h]) s'.
Proof.
  intros [Ec Eb Ew Es Ea Eg Ef Eo Ed El Et] [Ac Ab Aw At As Ak Ag Af Ad Al Ax].
  assert (Hkept := gr_kept _ _ _ Ag).
  assert (Hall : forall x, x ∈ hs ++ [h] -> admitted (x_top s') x).
  { intros x [Hx|Hx]%elem_of_app; [by eapply admitted_top, At; apply Ea|].
    by apply list_elem_of_singleton in Hx as ->. }
  split.
  - rewrite Ac, Ec, length_app. simpl. lia.
  - done.
  - intros [Hw|Hw]%Aw; [destruct (Ew Hw) as (x & Hx & ?); exists x|exists h]; (split; [apply elem_of_app|done]); [by left|].
    right. apply list_elem_of_here.
  - destruct As as [?|[Hg Ht]]; [by left|]. rewrite Ht. destruct Es as [?|Hs]; [by left|right].
    intros x [Hx|Hx]%elem_of_app; [auto|]. by apply list_elem_of_singleton in Hx as ->.
  - done.
  - eapply grown_trans.
    + eapply grown_weaken, Eg. intros p n (x & Hx & ? & ?). exists x. split; [|done]. apply elem_of_app. by left.
    + eapply grown_weaken, Ag. intros p n (x & Hx & ? & ?). exists x. split; [|done]. apply elem_of_app. by right.
  - intros x p [Hx|Hx]%elem_of_app Hp.
    + destruct (Ef x p Hx Hp) as [Hl Hn]. split; [by eapply lookup_weaken|done].
    + apply list_elem_of_singleton in Hx as ->. destruct (Af p Hp) as [Hl Hn]. split; [done|].
      eapply lookup_weaken_None; [exact Hl|apply Eg].
  - rewrite omap_app. apply NoDup_app. split; [done|]. simpl. destruct (file_path h) as [p|] eqn:Ep.
    + split; [|apply NoDup_singleton]. intros q Hq ->%list_elem_of_singleton.
      apply list_elem_of_omap in Hq as (x & Hx & Hq). destruct (Ef x p Hx Hq) as [Hl _].
      destruct (Af p eq_refl) as [Hn _]. congruence.
    + split; [|constructor]. intros q _ Hq. by apply not_elem_of_nil in Hq.
  - intros x rel [Hx|Hx]%elem_of_app Htd Hr Hne.
    + destruct (Ed x rel Hx Htd Hr Hne) as (ps & Hps & Hd). exists ps. split; [done|]. by eapply is_dir_mono.
    + apply list_elem_of_singleton in Hx as ->. by apply Ad.
  - by apply Al.
  - rewrite sizes_snoc. unfold file_size. intros Hlt.
    assert (Hb := sizes_bounds (x_top s) hs Ea). rewrite Ax. destruct (file_path h) as [p|] eqn:Ep; [|rewrite Et; lia].
    assert (Hsz := admitted_file _ _ _ Ak Ep). rewrite Et by lia. apply int64_id. lia.
Qed.

(** An entry that leaves the directory alone. *)
Lemma admits_skip maxBytes s h top :
  x_entries s + 1 <= maxTarEntries -> x_top s = [] \/ top = x_top s -> top <> [] \/ global h /\ top = x_top s ->
  admitted top h -> file_path h = None ->
  (forall rel, h_Typeflag h = TypeDir -> entry_rel h = Some rel -> rel = []) ->
  forall w, (w = true -> x_written s = true \/ template_entry h) ->
  admits maxBytes s (mkExtraction top (x_total s) (x_entries s + 1) w (x_tree s)) h.
Proof.
  intros Hc Ht Hg Ha Hf Hd w Hw. split; cbn [x_top x_total x_entries x_written x_tree]; try done.
  - apply grown_refl.
  - congruence.
  - intros rel Htd Hr Hne. by apply Hd in Hr.
  - by rewrite Hf.
Qed.

Lemma extractFile_ok t rel h t' :
  extractFile t rel h = (t', None) -> safe_rel rel -> h_Typeflag h = TypeReg -> entry_rel h = Some rel ->
  exists p, file_path h = Some p /\ t !! p = None /\ t' !! p = Some (entry_node h)
    /\ h_Size h <= Z.of_nat (length (h_content h)).
Proof.
  unfold extractFile. intros H Hs Ht Hr.
  assert (Hp := make_parents_grown (file_of []) t rel Hs). destruct (make_parents t rel) as [t1 made].
  destruct made; [|done]. simpl in H. destruct (open_excl t1 rel) as [b|p] eqn:Eo; [done|].
  apply open_excl_inr in Eo as (Hps & Hnone & _). destruct (Z.ltb_spec (Z.of_nat (length (h_content h))) (h_Size h)); [done|].
  injection H as <-. exists p. split_and!; [| |by rewrite lookup_insert_eq|done].
  - unfold file_path. by rewrite bool_decide_eq_true_2, Hr.
  - eapply lookup_weaken_None; [exact Hnone|apply Hp].
Qed.

Lemma file_path_other h : h_Typeflag h <> TypeReg -> file_path h = None.
Proof. intros H. unfold file_path. by rewrite bool_decide_eq_false_2. Qed.

Lemma MkdirAll_made t rel : (MkdirAll t rel).2 = true ->
  exists ps, root_parts rel = Some ps /\ is_dir (MkdirAll t rel).1 ps = true.
Proof.
  unfold MkdirAll. destruct (root_parts rel) as [ps|]; [|done]. intros H. exists ps. split; [done|].
  by apply (mkdir_made t [] ps).
Qed.

Lemma extract_entry_admits maxBytes s h rel s' :
  x_entries s + 1 <= maxTarEntries -> isSafeArchivePath (trim_slash (h_Name h)) = true -> entry_rel h = Some rel ->
  ~ global h -> let top := first_elem (trim_slash (h_Name h)) in x_top s = [] \/ top = x_top s ->
  extract_entry maxBytes (mkExtraction top (x_total s) (x_entries s + 1) (x_written s) (x_tree s)) h rel = (s', None) ->
  admits maxBytes s s' h.
Proof.
  intros Hc Hsafe Hr Hng top Ht. destruct (isSafe_inv _ Hsafe) as (Hne & Hab & Hsf).
  assert (Hs : safe_rel rel) by (by eapply below_safe, Hr).
  assert (Hne' : top <> [] \/ global h /\ top = x_top s) by (left; by apply first_elem_ne).
  unfold extract_entry. cbn [x_top x_total x_entries x_written x_tree].
  destruct (h_Typeflag h) eqn:Ef.
  - destruct ((h_Size h <? 0) || _) eqn:El; [done|]. apply orb_false_iff in El as [Hsz%Z.ltb_ge Hl%Z.ltb_ge].
    destruct (extractFile (x_tree s) rel h) as [t [e|]] eqn:Ex; [done|]. intros [= <-].
    destruct (extractFile_ok _ _ _ _ Ex Hs Ef Hr) as (p & Hp & Hn & Hl' & Hlen).
    assert (Hg := extractFile_grown (x_tree s) rel h [h] Hs (list_elem_of_here _ _) Ef Hr). rewrite Ex in Hg.
    split; cbn [x_top x_total x_entries x_written x_tree]; try done.
    + intros _. right. split; [by rewrite Hr|by left].
    + right. split_and!; [done..|]. intros r _. rewrite Ef, Hp. split; [done|lia].
    + intros q Hq. rewrite Hp in Hq. by injection Hq as <-.
    + congruence.
    + lia.
    + by rewrite Hp.
  - assert (Had : admitted top h) by (right; rewrite Ef; done).
    assert (Hte : template_entry h) by (split; [by rewrite Hr|by right]).
    case_bool_decide as Hrel.
    + intros [= <-]. apply admits_skip; try done; [by apply file_path_other; rewrite Ef|congruence|by right].
    + assert (Hm := MkdirAll_made (x_tree s) rel). assert (Hg := MkdirAll_grown (file_of [h]) (x_tree s) rel Hs).
      destruct (MkdirAll (x_tree s) rel) as [t [|]]; [|done]. intros [= <-].
      assert (Hfp : file_path h = None) by by apply file_path_other; rewrite Ef.
      split; cbn [x_top x_total x_entries x_written x_tree]; try done.
      * by right.
      * congruence.
      * intros r _ Hr' _. rewrite Hr in Hr'. injection Hr' as <-. by apply Hm.
      * by rewrite Hfp.
  - destruct (escapes _ _) eqn:Ee; [done|]. intros [= <-]. apply admits_skip; try done; [|by apply file_path_other; rewrite Ef|by rewrite Ef|by left].
    right. split_and!; [done..|]. intros r Hr'. rewrite Ef. rewrite Hr in Hr'. by injection Hr' as <-.
  - destruct (negb _ || _) eqn:Ee; [done|]. intros [= <-]. apply orb_false_iff in Ee as [E1%negb_false_iff E2%negb_false_iff].
    apply bool_decide_eq_true in E2. apply admits_skip; try done; [|by apply file_path_other; rewrite Ef|by rewrite Ef|by left].
    right. split_and!; [done..|]. intros r Hr'. by rewrite Ef.
  - done.
  - intros [= <-]. apply admits_skip; try done; [|by apply file_path_other; rewrite Ef|by rewrite Ef|by left].
    right. split_and!; [done..|]. intros r Hr'. by rewrite Ef.
Qed.

Lemma extract_step_admits maxBytes s h s' : extract_step maxBytes s h = (s', None) -> admits maxBytes s s' h.
Proof.
  unfold extract_step. destruct (Z.ltb_spec maxTarEntries (x_entries s + 1)) as [|Hc]; [done|].
  case_bool_decide as Hg.
  { intros [= <-]. apply admits_skip; [done|by right|by right|by left|apply file_path_other; by rewrite Hg|by rewrite Hg|by left]. }
  destruct (isSafeArchivePath _) eqn:Esafe; [|done]. simpl negb. cbv match. cbn zeta. cbn [x_top x_total x_entries x_written x_tree].
  destruct (_ && _) eqn:Et; [done|].
  assert (Ht : x_top s = [] \/ first_elem (trim_slash (h_Name h)) = x_top s).
  { apply andb_false_iff in Et as [Et%negb_false_iff|Et%negb_false_iff]; apply bool_decide_eq_true in Et; [by left|by right]. }
  change (below_boilerplate _ _) with (entry_rel h). destruct (entry_rel h) as [rel|] eqn:Er.
  { by apply extract_entry_admits. }
  destruct (isSafe_inv _ Esafe) as (Hne & Hab & Hsf).
  intros [= <-]. apply admits_skip; [done|done|left; by apply first_elem_ne| | | |by left].
  - right. split_and!; [done..|]. congruence.
  - unfold file_path. rewrite Er. destruct (bool_decide (h_Typeflag h = TypeReg)); reflexivity.
  - congruence.
Qed.

Lemma extract_loop_extracted maxBytes t archive hs s s' :
  extracted maxBytes t hs s -> extract_loop maxBytes archive s = (s', None) ->
  extracted maxBytes t (hs ++ headers archive) s' /\ archive = Entry <$> headers archive.
Proof.
  revert hs s. induction archive as [|[h|] archive IH]; intros hs s He; simpl; [| |done].
  - intros [= <-]. by rewrite app_nil_r.
  - destruct (extract_step maxBytes s h) as [s1 [e|]] eqn:Es; [done|]. intros Hl. apply extract_step_admits in Es. apply (extracted_snoc _ t hs) in Es; [|done].
    destruct (IH _ _ Es Hl) as [H1 H2]. rewrite <- app_assoc in H1. split; [done|]. by rewrite H2 at 1.
Qed.

Lemma extracted_start maxBytes t : extracted maxBytes t [] (mkExtraction [] 0 0 false t).
Proof.
  split; cbn [x_top x_total x_entries x_written x_tree]; try done; try (by intros * []%not_elem_of_nil); try lia.
  - right. by intros * []%not_elem_of_nil.
  - apply grown_refl.
  - constructor.
Qed.

Lemma extraction_extracted archive t maxBytes t' :
  ExtractBoilerplate (Some archive) (Some t) maxBytes = (Some t', None) ->
  exists s, t' = x_tree s /\ extracted maxBytes t (headers archive) s /\ archive = Entry <$> headers archive /\ x_written s = true.
Proof.
  unfold ExtractBoilerplate. destruct (extract_loop _ _ _) as [s [e|]] eqn:E; [done|].
  destruct (x_written s) eqn:Ew; [|done]. intros [= <-].
  apply (extract_loop_extracted maxBytes t archive [] _ s (extracted_start maxBytes t)) in E as [H1 H2]. by exists s.
Qed.

Lemma copied_full h : 0 <= h_Size h <= Z.of_nat (length (h_content h)) -> copied h = take (Z.to_nat (h_Size h)) (h_content h).
Proof. intros H. unfold copied. by rewrite Z.min_l by lia. Qed.

(** an extraction that succeeds has read a whole archive of at most [maxTarEntries]
    entries, all under one top-level directory at safe paths, its links all pointing into
    the boilerplate; every regular entry of the boilerplate was extracted, in full, at its
    path, which was free and which no other entry has; every directory of it is there;
    and the files together have at most [maxBytes] bytes. *)
Theorem extraction_complete archive t maxBytes t' :
  ExtractBoilerplate (Some archive) (Some t) maxBytes = (Some t', None) ->
  exists hs top, archive = Entry <$> hs /\ Z.of_nat (length hs) <= maxTarEntries
  /\ (forall h, h ∈ hs -> admitted top h) /\ (exists h, h ∈ hs /\ template_entry h)
  /\ NoDup (omap file_path hs)
  /\ (forall h p, h ∈ hs -> file_path h = Some p -> t !! p = None
      /\ t' !! p = Some (NFile (fileMode (executable_bits (h_Mode h))) (take (Z.to_nat (h_Size h)) (h_content h))))
  /\ (forall h rel, h ∈ hs -> h_Typeflag h = TypeDir -> entry_rel h = Some rel -> rel <> [] ->
      exists ps, root_parts rel = Some ps /\ is_dir t' ps = true)
  /\ (foldr Z.add 0 ((fun h => Z.of_nat (length (h_content h))) <$> hs) < 2 ^ 63 -> sizes hs <= Z.max 0 maxBytes).
Proof.
  intros (s & -> & [Ec Eb Ew Es Ea Eg Ef Eo Ed El Et] & Ha & Hw)%extraction_extracted.
  exists (headers archive), (x_top s). split_and!; auto; [lia| |].
  - intros h p Hh Hp. destruct (Ef h p Hh Hp) as [Hl Hn]. split; [done|]. rewrite Hl. unfold entry_node.
    by rewrite copied_full by (eapply admitted_file; eauto).
  - intros Hlt. assert (Hb := sizes_bounds _ _ Ea). rewrite <- Et by lia. done.
Qed.

(** A tarball of a release: a directory, a file, a script below a directory of its own,
    a link, and the repository's README, which stays out. *)
Definition tarball : list tar_next :=
  let reg name mode body := Entry (mkHeader (bytes_of name) TypeReg (Z.of_nat (String.length body)) mode [] (bytes_of body)) in
  [ Entry (mkHeader (bytes_of "pax_global_header") TypeXGlobalHeader 0 0 [] []);
    Entry (mkHeader (bytes_of "vogel-1.0.0/") TypeDir 0 493 [] []);
    reg "vogel-1.0.0/README.md" 420 "vogel";
    Entry (mkHeader (bytes_of "vogel-1.0.0/examples/boilerplate/") TypeDir 0 493 [] []);
    reg "vogel-1.0.0/examples/boilerplate/go.mod" 438 "module app";
    reg "vogel-1.0.0/examples/boilerplate/bin/run.sh" 509 "exec";
    Entry (mkHeader (bytes_of "vogel-1.0.0/examples/boilerplate/bin/go") TypeSymlink 0 511 (bytes_of "../go.mod") []) ].

Definition tarball_tree : tree :=
  {[ ["go.mod"] := NFile 420 (bytes_of "module app"); ["bin"] := NDir; ["bin"; "run.sh"] := NFile 493 (bytes_of "exec") ]}.

Lemma tarball_extracted : ExtractBoilerplate (Some tarball) (Some ∅) 14 = (Some tarball_tree, None).
Proof. vm_compute. reflexivity. Qed.

#[local] Instance Entry_inj : Inj (=) (=) Entry.
Proof. by intros ? ? [= ->]. Qed.

Lemma extraction_complete_witness :
  exists hs top, tarball = Entry <$> hs /\ Z.of_nat (length hs) <= maxTarEntries
  /\ (forall h, h ∈ hs -> admitted top h) /\ sizes hs <= 14.
Proof.
  destruct (extraction_complete tarball ∅ 14 tarball_tree tarball_extracted) as (hs & top & Ha & Hl & Had & _ & _ & _ & _ & Hs).
  exists hs, top. split_and!; [done..|]. apply Hs. change tarball with (Entry <$> headers tarball) in Ha.
  apply (inj (fmap Entry)) in Ha as <-. vm_compute. reflexivity.
Defined.

Lemma reg_step maxBytes s h rel :
  (maxTarEntries <? x_entries s + 1) = false -> h_Typeflag h = TypeReg ->
  isSafeArchivePath (trim_slash (h_Name h)) = true -> x_top s = [] \/ first_elem (trim_slash (h_Name h)) = x_top s ->
  entry_rel h = Some rel -> (h_Size h <? 0) = false -> (maxBytes <? int64 (x_total s + h_Size h)) = false ->
  extract_step maxBytes s h =
  let '(t, e) := extractFile (x_tree s) rel h in
  (mkExtraction (first_elem (trim_slash (h_Name h))) (int64 (x_total s + h_Size h)) (x_entries s + 1)
     (match e with None => true | _ => x_written s end) t, e).
Proof.
  intros Hc Ht Hs Htop Hr Hsz Hl. unfold extract_step. rewrite Hc, Hs, Ht. simpl negb. cbv match. cbn zeta.
  rewrite bool_decide_eq_false_2 by done. cbn [x_top x_total x_entries x_written x_tree].
  replace (_ && _) with false.
  2: { symmetry. apply andb_false_iff. destruct Htop as [-> | ->]; [by left|right]. by rewrite bool_decide_eq_true_2. }
  change (below_boilerplate _ _) with (entry_rel h). rewrite Hr. unfold extract_entry. rewrite Ht. cbn [x_top x_total x_entries x_written x_tree]. by rewrite Hsz, Hl.
Qed.

(** The count of the extracted bytes wraps around: after one byte, an entry that declares
    2^63-1 bytes makes it negative, and whatever content follows is written to the disk
    before the missing rest is noticed. *)
Theorem limit_wraps maxBytes (c : text) :
  1 <= maxBytes < 2 ^ 63 -> Z.of_nat (length c) < 2 ^ 63 - 1 ->
  exists archive t', ExtractBoilerplate (Some archive) (Some ∅) maxBytes = (Some t', Some (XShort (bytes_of "b")))
  /\ t' !! ["b"] = Some (NFile 420 c).
Proof.
  intros Hm Hc. set (entry name size body := mkHeader (bytes_of name) TypeReg size 420 [] body).
  set (a := entry "v/examples/boilerplate/a" 1 (bytes_of "x")). set (b := entry "v/examples/boilerplate/b" (2 ^ 63 - 1) c).
  exists [Entry a; Entry b], (<[["b"] := NFile 420 c]> {[ ["a"] := NFile 420 (bytes_of "x") ]}).
  split; [|by rewrite lookup_insert_eq]. unfold ExtractBoilerplate. cbn [extract_loop].
  rewrite (reg_step maxBytes _ a (bytes_of "a")); try reflexivity; [|by left|apply Z.ltb_ge; vm_compute Z.of_nat; change (int64 _) with 1; lia].
  cbn [x_top x_total x_entries x_written x_tree]. change (extractFile ∅ (bytes_of "a") a) with ({[ ["a"] := NFile 420 (bytes_of "x") ]} : tree, @None source_error).
  cbv beta iota. rewrite (reg_step maxBytes _ b (bytes_of "b")); try reflexivity; [|by right|apply Z.ltb_ge; change (int64 _) with (- 2 ^ 63); lia].
  unfold extractFile. cbn [x_tree]. change (make_parents ?t (bytes_of "b")) with (t, true). cbv beta iota.
  change (open_excl _ (bytes_of "b")) with (@inr bool (list string) ["b"]). cbv beta iota.
  rewrite (proj2 (Z.ltb_lt _ _)) by exact Hc. cbn. unfold copied. cbn [h_Size h_content b entry].
  rewrite Z.min_r, Nat2Z.id, take_ge by lia. done.
Qed.

(** ** A local checkout *)

Lemma last_split_normal rel final :
  last (split_on slash rel) = Some final -> normal_elem final = true ->
  path_Base rel = final /\ last (rel_elems rel) = Some final.
Proof.
  intros Hl Hn. assert (Hd : rel <> [] /\ drop_slashes (rev rel) = rev rel).
  { destruct rel as [|c r _] using rev_ind; [injection Hl as <-; done|]. split; [by destruct r|].
    rewrite rev_unit. simpl. destruct (Ascii.eqb_spec c slash) as [->|]; [|done].
    rewrite split_on_app in Hl. simpl in Hl. rewrite last_snoc in Hl. by injection Hl as <-. }
  destruct Hd as [Hne Hd]. split.
  - destruct rel as [|c rel]; [done|]. unfold path_Base. rewrite Hd, rev_involutive. by rewrite Hl.
  - unfold rel_elems. destruct (split_on slash rel) as [|e l _] using rev_ind; [done|].
    rewrite last_snoc in Hl. injection Hl as ->. rewrite List.filter_app. simpl. by rewrite Hn, last_snoc.
Qed.

(** The files a copy of [files] may make. *)
Definition copied_from (k : checkout) (files : list text) (p : list string) (n : node) : Prop :=
  exists rel mode content base, rel ∈ files /\ root_parts rel = Some p /\ ck_lstat k rel = LRegular mode content
  /\ n = NFile (fileMode (executable_bits mode)) content
  /\ last p = Some base /\ isEnvFile (bytes_of base) = false.

Lemma copyRegular_grown k t rel files :
  rel ∈ files -> isEnvFile (path_Base rel) = false -> grown (copied_from k files) t (copyRegular k t rel).1.
Proof.
  intros Hin He. unfold copyRegular. destruct (isSafeArchivePath rel) eqn:Es; [|apply grown_refl].
  apply isSafe_inv in Es as (_ & _ & Hs). cbn [negb]. destruct (ck_lstat k rel) as [| | | |mode content] eqn:El; try apply grown_refl.
  assert (Hp := make_parents_grown (copied_from k files) t rel Hs). destruct (make_parents t rel) as [t1 made].
  destruct made; [|done]. cbn [negb]. destruct (open_excl t1 rel) as [b|p] eqn:Eo; [done|].
  assert (Ho := open_excl_inr _ _ _ Eo). destruct Ho as (Hps & Hnone & Hne & _).
  eapply grown_trans; [exact Hp|]. apply grown_insert; [done|done|by eapply root_parts_good|]. right.
  unfold open_excl in Eo. rewrite Hps in Eo. destruct (last (split_on slash rel)) as [final|] eqn:Ef; [|done].
  destruct (normal_elem final) eqn:En; [|done]. destruct (last_split_normal rel final Ef En) as [Hb Hl].
  exists rel, mode, content, (string_of final). rewrite Hb in He. split_and!; [done..| |by rewrite bytes_string].
  unfold root_parts in Hps. destruct (_ || _); [done|]. injection Hps as <-. rewrite fmap_last.
  change (List.filter normal_elem (split_on slash rel)) with (rel_elems rel). by rewrite Hl.
Qed.

Lemma copy_loop_grown k files all t :
  files ⊆ all -> grown (copied_from k all) t (copy_loop k files t).1.
Proof.
  revert t. induction files as [|rel files IH]; intros t Hsub; simpl; [apply grown_refl|].
  assert (Hr : rel ∈ all) by (apply Hsub; by constructor).
  assert (Hf : files ⊆ all) by (intros x Hx; apply Hsub; by constructor).
  destruct (isEnvFile (path_Base rel)) eqn:He; [by apply IH|].
  assert (H := copyRegular_grown k t rel all Hr He). destruct (copyRegular k t rel) as [t1 [e|]]; [done|].
  eapply grown_trans; [exact H|]. by apply IH.
Qed.

Lemma copyRegular_ok k t rel t1 :
  copyRegular k t rel = (t1, None) ->
  match ck_lstat k rel with
  | LRegular mode content => exists p, root_parts rel = Some p /\ t !! p = None
      /\ t1 !! p = Some (NFile (fileMode (executable_bits mode)) content)
  | LMissing | LOther => t1 = t
  | LFails | LUnreadable => False
  end.
Proof.
  unfold copyRegular. destruct (isSafeArchivePath rel) eqn:Es; [|done]. apply isSafe_inv in Es as (_ & _ & Hs). cbn [negb].
  destruct (ck_lstat k rel) as [| | | |mode content]; try done; [by intros [= <-]..|].
  assert (Hp := make_parents_grown (copied_from k []) t rel Hs). destruct (make_parents t rel) as [t2 made].
  destruct made; [|done]. cbn [negb]. destruct (open_excl t2 rel) as [b|p] eqn:Eo; [done|].
  apply open_excl_inr in Eo as (Hps & Hnone & _). intros [= <-]. exists p. split_and!; [done| |by rewrite lookup_insert_eq].
  eapply lookup_weaken_None; [exact Hnone|apply Hp].
Qed.

Lemma copy_loop_ok k files t t' :
  copy_loop k files t = (t', None) ->
  forall rel mode content, rel ∈ files -> isEnvFile (path_Base rel) = false -> ck_lstat k rel = LRegular mode content ->
  exists p, root_parts rel = Some p /\ t !! p = None /\ t' !! p = Some (NFile (fileMode (executable_bits mode)) content).
Proof.
  revert t. induction files as [|r files IH]; intros t H rel mode content Hin He Hl; simpl in *; [by apply not_elem_of_nil in Hin|].
  destruct (isEnvFile (path_Base r)) eqn:Er.
  { apply elem_of_cons in Hin as [->|Hin]; [congruence|]. by eapply IH. }
  assert (Hg := copyRegular_grown k t r [r] (list_elem_of_here _ _) Er).
  destruct (copyRegular k t r) as [t1 [e|]] eqn:Ec; [done|]. apply elem_of_cons in Hin as [->|Hin].
  - apply copyRegular_ok in Ec. rewrite Hl in Ec. destruct Ec as (p & Hp & Hn & Hs). exists p. split_and!; [done..|].
    assert (Hg' := copy_loop_grown k files files t1 (reflexivity _)). rewrite H in Hg'.
    eapply lookup_weaken; [exact Hs|apply Hg'].
  - destruct (IH t1 H rel mode content Hin He Hl) as (p & Hp & Hn & Hs). exists p. split_and!; [done| |done].
    eapply lookup_weaken_None; [exact Hn|apply Hg].
Qed.

(** copying a local checkout leaves what was in the directory as it was and adds
    directories and copies of the checkout's regular files only, never one named [.env] or
    [.env.*]; when it succeeds, every other regular file that git lists (or, without git,
    a walk finds) is there with its content and mode 0644 or 0755. *)
Theorem copy_local_sound k t files :
  listed k = Some files ->
  exists t' e, CopyLocal k (Some t) = (Some t', e) /\ grown (copied_from k files) t t'
  /\ (e = None -> forall rel mode content, rel ∈ files -> isEnvFile (path_Base rel) = false ->
      ck_lstat k rel = LRegular mode content -> exists p, root_parts rel = Some p /\ t !! p = None
      /\ t' !! p = Some (NFile (fileMode (executable_bits mode)) content)).
Proof.
  intros Hf. unfold CopyLocal. destruct (negb (match _ with _ => _ end)).
  { exists t, (Some XNotCheckout). split_and!; [done|apply grown_refl|done]. }
  destruct (ck_boilerplate k); cbn [negb].
  2: { exists t, (Some XNotCheckout). split_and!; [done|apply grown_refl|done]. }
  rewrite Hf. assert (Hg := copy_loop_grown k files files t (reflexivity _)).
  assert (Ho := copy_loop_ok k files t). destruct (copy_loop k files t) as [t' e]. exists t', e. split_and!; [done..|].
  intros ->. by apply Ho.
Qed.

Definition sample_checkout : checkout :=
  mkCheckout (Some (bytes_of "module github.com/kafeiih/vogel")) true None
    (Some [(bytes_of "cmd", false); (bytes_of "cmd/main.go", true); (bytes_of ".env.local", true)])
    (fun rel => if bool_decide (rel = bytes_of "cmd/main.go") then LRegular 420 (bytes_of "package main")
                else if bool_decide (rel = bytes_of ".env.local") then LRegular 384 (bytes_of "KEY=secret") else LMissing).

Lemma copy_local_sound_witness :
  exists t', CopyLocal sample_checkout (Some ∅) = (Some t', None)
  /\ t' !! ["cmd"; "main.go"] = Some (NFile 420 (bytes_of "package main")) /\ t' !! [".env.local"] = None.
Proof.
  destruct (copy_local_sound sample_checkout ∅ [bytes_of "cmd/main.go"; bytes_of ".env.local"] (reflexivity _))
    as (t' & e & Hc & _ & _).
  exists t'. vm_compute in Hc. injection Hc as <- <-. by split_and!.
Defined.

(** the check of a symbolic link is the walk along its target: from the directory of a
    link inside the boilerplate, a target is accepted exactly when it is not empty, not
    absolute, holds no backslash, and following its elements one by one never climbs above
    the boilerplate, not even to come back. *)
Theorem escapes_exact rel target :
  is_abs rel = false -> dotdot ∉ split_on slash rel ->
  escapes rel target = false <->
  target <> [] /\ is_abs target = false /\ backslash ∉ target
  /\ stays (length (parent_elems rel)) (split_on slash target) = true.
Proof. apply escapes_walk. Qed.

Lemma escapes_exact_witness :
  escapes (bytes_of "bin/go") (bytes_of "../go.mod") = false /\ escapes (bytes_of "bin/go") (bytes_of "../../x/../examples") = true.
Proof.
  split; [|reflexivity]. apply escapes_exact; [reflexivity| |split_and!; try reflexivity; [done|]].
  - apply (bool_decide_unpack _). vm_compute. exact I.
  - apply (bool_decide_unpack _). vm_compute. exact I.
Defined.
