(* ===== verification/CreateApp.v ===== *)
(** The command that creates a project ([cmd/create-vogel-app]) and the whole of
    [scaffold.Generate]: arguments and questions, the target directory, the template, and
    the commands run in it.

    What the process sees of the outside is a [world]: the releases and checkouts it can
    read, the go and git commands, as functions of their arguments and the project they
    run in.  Empty directories are left out of a project.

    Properties of the command that creates a project: arguments in any order, the questions
    against the choice of components, and what its exit code says of the target
    directory. *)

From stdpp Require Import base gmap list strings.
From Stdlib Require Import ZArith Lia Ascii.
From S2P Require Import Prelude GoStrings GoText Scaffold ScaffoldSource.

Open Scope string_scope.
Open Scope list_scope.
Open Scope Z_scope.

(** ** Options and results *)

Record Options := mkOptions {
  op_Name : string; op_Owner : string; op_Module : string; op_Dir : string; op_Version : string; op_From : string;
  op_Select : option (Manifest -> select_error + Selection);
  op_SkipTidy : bool; op_SkipChecks : bool; op_NoGit : bool }.

Inductive git_note := GNone | GSkipped | GUnconfigured (key : string).

Record Result := mkResult {
  rs_Dir : string; rs_Module : string; rs_Version : string; rs_Kept : list string; rs_Removed : list string;
  rs_Cascaded : list string; rs_LocalReplace : string; rs_Committed : bool; rs_GitNote : git_note }.

Record goMod := mkGoMod { gm_Path : string; gm_Require : list (string * string) }.

(** [goMod.require]. *)
Definition goMod_require (m : goMod) (module : string) : string :=
  match List.find (fun r => bool_decide (r.1 = module)) (gm_Require m) with
  | Some r => r.2
  | None => ""
  end.

Record world := mkWorld {
  w_abs : string -> option string;
  w_get : string -> Z -> option (Z * option (list tar_next));
  w_fetcher : option Fetcher;
  w_checkout : string -> checkout;
  w_decode : text -> option Manifest;
  w_template_ok : string -> bool;
  w_render : string -> TemplateValues -> option string;
  w_run : list string -> Project -> Project * option string;
  w_goMod : string -> option goMod;
  w_goroot : option string;
  w_stat : string -> bool;
  w_lookpath : option string }.

Inductive usage := UName | UOwner | UModule | UVersion | UNoVersion | UNoDir | UFrom | UTarget | UNotEmpty.

Inductive generate_error :=
| GUsage (u : usage) | GAbs | GTarget | GCopy (e : source_error) | GFetch (e : fetch_error) | GNoManifest | GManifest
| GTooOld | GSelect (e : select_error) | GFiles | GCommand (argv : list string) | GParseMod | GModule | GNoGofmt | GUnformatted.

(** Errors that unwrap to [*UsageError]. *)
Definition is_usage (e : generate_error) : bool :=
  match e with
  | GUsage _ => true
  | GSelect (SAsk _) => false
  | GSelect _ => true
  | _ => false
  end.

(** [Options.validate]. *)
Definition Options_validate (w : world) (o : Options) : generate_error + Options :=
  if negb (ValidateName (op_Name o)) then inl (GUsage UName)
  else if negb (ValidateOwner (op_Owner o)) then inl (GUsage UOwner)
  else if negb (ValidateModulePath (op_Module o)) then inl (GUsage UModule)
  else if negb (bool_decide (op_Version o = "")) && negb (ValidateVersion (op_Version o)) then inl (GUsage UVersion)
  else if bool_decide (op_From o = "") && bool_decide (op_Version o = "") then inl (GUsage UNoVersion)
  else if bool_decide (op_Dir o = "") then inl (GUsage UNoDir)
  else if bool_decide (op_From o = "") then inr o
  else match w_abs w (op_From o) with
       | None => inl (GUsage UFrom)
       | Some abs =>
           inr (mkOptions (op_Name o) (op_Owner o) (op_Module o) (op_Dir o) (op_Version o) abs (op_Select o)
                  (op_SkipTidy o) (op_SkipChecks o) (op_NoGit o))
       end.

(** ** The target directory *)

(** [TBlocked] is missing and cannot be made, [TNonEmpty] holds something already. *)
Inductive target := TMissing | TBlocked | TUnreadable | TNonEmpty | TDir (files : Project).

(** [prepareTarget]: whether the directory was made. *)
Definition prepareTarget (t : target) : generate_error + bool :=
  match t with
  | TMissing => inr true
  | TBlocked => inl GTarget
  | TUnreadable => inl (GUsage UTarget)
  | TNonEmpty => inl (GUsage UNotEmpty)
  | TDir files => if bool_decide (files = ∅) then inr false else inl (GUsage UNotEmpty)
  end.

(** [cleanupTarget]. *)
Definition cleanupTarget (created : bool) : target := if created then TMissing else TDir ∅.

(** ** The template *)

Fixpoint join_path (p : list string) : string :=
  match p with
  | [] => ""
  | [e] => e
  | e :: p => e +:+ "/" +:+ join_path p
  end.
Definition project_of (t : tree) : Project :=
  list_to_map (omap (fun pn => match pn.2 with NFile _ c => Some (join_path pn.1, c) | NDir => None end) (map_to_list t)).

Definition ManifestPath : string := ".vogel/template.json".
Definition VogelModule : string := "github.com/kafeiih/vogel".

(** [LoadManifest] and [ParseManifest]. *)
Definition LoadManifest (w : world) (files : Project) : generate_error + Manifest :=
  match files !! ManifestPath with
  | None => inl GNoManifest
  | Some content =>
      match w_decode w content with
      | None => inl GManifest
      | Some m => if Manifest_validate (w_template_ok w) m then inr m else inl GManifest
      end
  end.

(** [Options.selection]. *)
Definition Options_selection (o : Options) (m : Manifest) : select_error + Selection :=
  match op_Select o with
  | None => Select m [] [] None
  | Some select => select m
  end.

(** The boilerplate, fetched or copied into an empty directory. *)
Definition obtain (w : world) (o : Options) : option tree * option generate_error :=
  if bool_decide (op_From o = "") then
    let '(t, e) := Fetch (w_get w) (w_fetcher w) (op_Version o) (Some ∅) in (t, GFetch <$> e)
  else let '(t, e) := CopyLocal (w_checkout w (op_From o)) (Some ∅) in (t, GCopy <$> e).

(** [Options.render]. *)
Definition Options_render (w : world) (o : Options) (dir : string) : generate_error + (Project * Result) :=
  match obtain w o with
  | (_, Some e) => inl e
  | (t, None) =>
      let files := project_of (default ∅ t) in
      match LoadManifest w files with
      | inl e => inl e
      | inr m =>
          if bool_decide (op_From o = "") && negb (CheckMinVersion (op_Version o) (mn_MinVogelVersion m)) then inl GTooOld
          else
            match Options_selection o m with
            | inl e => inl (GSelect e)
            | inr sel =>
                match render_project (w_render w) m sel (op_Name o) (op_Owner o) (op_Module o) files with
                | None => inl GFiles
                | Some files =>
                    inr (files, mkResult dir (op_Module o) "" (Kept sel) (Removed sel) (sl_Cascaded sel) (op_From o) false GNone)
                end
            end
      end
  end.

(** ** Commands *)

(** [runCmd] in the project. *)
Definition runCmd (w : world) (argv : list string) (files : Project) : Project * (generate_error + string) :=
  match w_run w argv files with
  | (files, Some out) => (files, inr out)
  | (files, None) => (files, inl (GCommand argv))
  end.

(** [readGoMod]. *)
Definition readGoMod (w : world) (files : Project) : Project * (generate_error + goMod) :=
  match runCmd w ["go"; "mod"; "edit"; "-json"] files with
  | (files, inl e) => (files, inl e)
  | (files, inr out) => (files, match w_goMod w out with Some m => inr m | None => inl GParseMod end)
  end.

(** [Options.checkGoMod]. *)
Definition checkGoMod (w : world) (o : Options) (files : Project) : Project * option generate_error :=
  match readGoMod w files with
  | (files, inl e) => (files, Some e)
  | (files, inr m) => (files, if bool_decide (gm_Path m = op_Module o) then None else Some GModule)
  end.

(** [gofmtPath]. *)
Definition gofmtPath (w : world) : option string :=
  match w_goroot w with
  | Some out => let p := TrimSpace out +:+ "/bin/gofmt" in if w_stat w p then Some p else w_lookpath w
  | None => w_lookpath w
  end.

(** [checkGofmt]. *)
Definition checkGofmt (w : world) (files : Project) : Project * option generate_error :=
  match gofmtPath w with
  | None => (files, Some GNoGofmt)
  | Some gofmt =>
      match runCmd w [gofmt; "-l"; "."] files with
      | (files, inl e) => (files, Some e)
      | (files, inr out) => (files, if bool_decide (TrimSpace out = "") then None else Some GUnformatted)
      end
  end.

Definition commitMessage (name version : string) : string := "chore: scaffold " +:+ name +:+ " from vogel " +:+ version.

Definition with_git (committed : bool) (note : git_note) (r : Result) : Result :=
  mkResult (rs_Dir r) (rs_Module r) (rs_Version r) (rs_Kept r) (rs_Removed r) (rs_Cascaded r) (rs_LocalReplace r) committed note.
Definition with_version (v : string) (r : Result) : Result :=
  mkResult (rs_Dir r) (rs_Module r) v (rs_Kept r) (rs_Removed r) (rs_Cascaded r) (rs_LocalReplace r) (rs_Committed r) (rs_GitNote r).

(** The first key of git's configuration that has no value. *)
Fixpoint git_unconfigured (w : world) (keys : list string) (files : Project) : Project * option string :=
  match keys with
  | [] => (files, None)
  | key :: keys =>
      match runCmd w ["git"; "config"; key] files with
      | (files, inr out) => if bool_decide (TrimSpace out = "") then (files, Some key) else git_unconfigured w keys files
      | (files, inl _) => (files, Some key)
      end
  end.

(** [Options.initGit]. *)
Definition initGit (w : world) (o : Options) (res : Result) (files : Project) : Project * Result * option generate_error :=
  match runCmd w ["git"; "init"; "-q"; "-b"; "main"] files with
  | (files, inl e) => (files, res, Some e)
  | (files, inr _) =>
      match git_unconfigured w ["user.name"; "user.email"] files with
      | (files, Some key) => (files, with_git (rs_Committed res) (GUnconfigured key) res, None)
      | (files, None) =>
          match runCmd w ["git"; "add"; "-A"] files with
          | (files, inl e) => (files, res, Some e)
          | (files, inr _) =>
              match runCmd w ["git"; "commit"; "-q"; "-m"; commitMessage (op_Name o) (rs_Version res)] files with
              | (files, inl e) => (files, res, Some e)
              | (files, inr _) => (files, with_git true (rs_GitNote res) res, None)
              end
          end
      end
  end.

(** The edit of go.mod that [finish] starts with. *)
Definition edit_argv (o : Options) : list string :=
  ["go"; "mod"; "edit";
   if bool_decide (op_From o = "") then "-dropreplace=" +:+ VogelModule
   else "-replace=" +:+ VogelModule +:+ "=" +:+ op_From o]
  ++ (if bool_decide (op_Version o = "") then [] else ["-require=" +:+ VogelModule +:+ "@" +:+ op_Version o]).

(** The last two steps of [finish]. *)
Definition finish_checks (w : world) (o : Options) (res : Result) (files : Project) : Project * Result * option generate_error :=
  match (if op_SkipChecks o then (files, None) else checkGofmt w files) with
  | (files, Some e) => (files, res, Some e)
  | (files, None) =>
      if op_NoGit o then (files, with_git (rs_Committed res) GSkipped res, None) else initGit w o res files
  end.

(** [finish] once go.mod is edited and the version is known. *)
Definition finish_tidy (w : world) (o : Options) (res : Result) (files : Project) : Project * Result * option generate_error :=
  if op_SkipTidy o then finish_checks w o res files
  else match runCmd w ["go"; "mod"; "tidy"] files with
       | (files, inl e) => (files, res, Some e)
       | (files, inr _) => finish_checks w o res files
       end.

(** [Options.finish]. *)
Definition finish (w : world) (o : Options) (res : Result) (files : Project) : Project * Result * option generate_error :=
  match runCmd w (edit_argv o) files with
  | (files, inl e) => (files, res, Some e)
  | (files, inr _) =>
      if bool_decide (op_Version o = "") then
        match readGoMod w files with
        | (files, inl e) => (files, with_version "" res, Some e)
        | (files, inr m) => finish_tidy w o (with_version (goMod_require m VogelModule) res) files
        end
      else finish_tidy w o (with_version (op_Version o) res) files
  end.

(** [Generate]: the target directory left, the result if the project was made, and the
    failure if there is one. *)
Definition Generate (w : world) (o : Options) (t : target) : target * option Result * option generate_error :=
  match Options_validate w o with
  | inl e => (t, None, Some e)
  | inr o =>
      match w_abs w (op_Dir o) with
      | None => (t, None, Some GAbs)
      | Some dir =>
          match prepareTarget t with
          | inl e => (t, None, Some e)
          | inr created =>
              match Options_render w o dir with
              | inl e => (cleanupTarget created, None, Some e)
              | inr (files, res) =>
                  match checkGoMod w o files with
                  | (_, Some e) => (cleanupTarget created, None, Some e)
                  | (files, None) => let '(files, res, e) := finish w o res files in (TDir files, Some res, e)
                  end
              end
          end
      end
  end.

(** ** Arguments *)

Record config := mkConfig {
  cf_name : string; cf_owner : string; cf_module : string; cf_dir : string; cf_version : string; cf_from : string;
  cf_with : list string; cf_without : list string;
  cf_yes : bool; cf_noGit : bool; cf_skipTidy : bool; cf_skipChecks : bool }.
Definition empty_config : config := mkConfig "" "" "" "" "" "" [] [] false false false false.

(** The flags of [newFlagSet], and what each sets. *)
Inductive string_flag := FOwner | FModule | FDir | FVersionFlag | FFrom | FWith | FWithout.
Inductive bool_flag := FYes | FNoGit | FSkipTidy | FSkipChecks.

Definition string_flag_name (f : string_flag) : string :=
  match f with
  | FOwner => "owner" | FModule => "module" | FDir => "dir" | FVersionFlag => "version" | FFrom => "from"
  | FWith => "with" | FWithout => "without"
  end.
Definition bool_flag_name (f : bool_flag) : string :=
  match f with FYes => "yes" | FNoGit => "no-git" | FSkipTidy => "skip-tidy" | FSkipChecks => "skip-checks" end.

Definition set_string (f : string_flag) (v : string) (c : config) : config :=
  let '(mkConfig name owner module dir version from with_ without yes noGit skipTidy skipChecks) := c in
  match f with
  | FOwner => mkConfig name v module dir version from with_ without yes noGit skipTidy skipChecks
  | FModule => mkConfig name owner v dir version from with_ without yes noGit skipTidy skipChecks
  | FDir => mkConfig name owner module v version from with_ without yes noGit skipTidy skipChecks
  | FVersionFlag => mkConfig name owner module dir v from with_ without yes noGit skipTidy skipChecks
  | FFrom => mkConfig name owner module dir version v with_ without yes noGit skipTidy skipChecks
  | FWith => mkConfig name owner module dir version from (with_ ++ [v]) without yes noGit skipTidy skipChecks
  | FWithout => mkConfig name owner module dir version from with_ (without ++ [v]) yes noGit skipTidy skipChecks
  end.
Definition set_bool (f : bool_flag) (v : bool) (c : config) : config :=
  let '(mkConfig name owner module dir version from with_ without yes noGit skipTidy skipChecks) := c in
  match f with
  | FYes => mkConfig name owner module dir version from with_ without v noGit skipTidy skipChecks
  | FNoGit => mkConfig name owner module dir version from with_ without yes v skipTidy skipChecks
  | FSkipTidy => mkConfig name owner module dir version from with_ without yes noGit v skipChecks
  | FSkipChecks => mkConfig name owner module dir version from with_ without yes noGit skipTidy v
  end.
Definition set_name (v : string) (c : config) : config :=
  mkConfig v (cf_owner c) (cf_module c) (cf_dir c) (cf_version c) (cf_from c) (cf_with c) (cf_without c)
    (cf_yes c) (cf_noGit c) (cf_skipTidy c) (cf_skipChecks c).

Definition formal (name : text) : option (string_flag + bool_flag) :=
  let named n := bool_decide (name = bytes_of n) in
  match List.find (fun f => named (string_flag_name f)) [FOwner; FModule; FDir; FVersionFlag; FFrom; FWith; FWithout] with
  | Some f => Some (inl f)
  | None => inr <$> List.find (fun f => named (bool_flag_name f)) [FYes; FNoGit; FSkipTidy; FSkipChecks]
  end.

(** [strconv.ParseBool]. *)
Definition ParseBool (v : string) : option bool :=
  if bool_decide (v ∈ ["1"; "t"; "T"; "TRUE"; "true"; "True"]) then Some true
  else if bool_decide (v ∈ ["0"; "f"; "F"; "FALSE"; "false"; "False"]) then Some false
  else None.

(** The name and the value of a flag argument, cut at the first [=] after the first
    character. *)
Definition cut_equals (name : text) : text * option text :=
  match name with
  | [] => ([], None)
  | c :: rest =>
      let '(a, b) := span (fun c => negb (Ascii.eqb c "=")) rest in
      (c :: a, match b with [] => None | _ :: v => Some v end)
  end.

Inductive flag_error := EHelp | EFlag | EMissingName | EManyNames | EBadName.

(** What [flag.FlagSet.parseOne] makes of an argument: not a flag, the end of the flags,
    or a flag's name and value. *)
Inductive flag_token := TPositional | TEnd | TBad | TFlag (name : text) (value : option text).
Definition flag_token_of (arg : text) : flag_token :=
  match arg with
  | c1 :: c2 :: rest =>
      if negb (Ascii.eqb c1 "-") then TPositional
      else
        let name := if Ascii.eqb c2 "-" then rest else c2 :: rest in
        if Ascii.eqb c2 "-" && bool_decide (rest = []) then TEnd
        else match name with
             | [] => TBad
             | c :: _ => if Ascii.eqb c "-" || Ascii.eqb c "=" then TBad
                         else let '(n, v) := cut_equals name in TFlag n v
             end
  | _ => TPositional
  end.

(** [flag.FlagSet.Parse]: the configuration and the arguments left. *)
Fixpoint flags_Parse (c : config) (args : list string) : flag_error + (config * list string) :=
  match args with
  | [] => inr (c, [])
  | arg :: rest =>
      match flag_token_of (bytes_of arg) with
      | TPositional => inr (c, args)
      | TEnd => inr (c, rest)
      | TBad => inl EFlag
      | TFlag name value =>
          match formal name with
          | None => inl (if bool_decide (name = bytes_of "help") || bool_decide (name = bytes_of "h") then EHelp else EFlag)
          | Some (inr f) =>
              match ParseBool (match value with Some v => string_of v | None => "true" end) with
              | Some b => flags_Parse (set_bool f b c) rest
              | None => inl EFlag
              end
          | Some (inl f) =>
              match value, rest with
              | Some v, _ => flags_Parse (set_string f (string_of v) c) rest
              | None, v :: rest => flags_Parse (set_string f v c) rest
              | None, [] => inl EFlag
              end
          end
      end
  end.

(** The loop of [parseArgs]; every turn takes an argument. *)
Fixpoint parse_positional (fuel : nat) (c : config) (args positional : list string) : flag_error + (config * list string) :=
  match flags_Parse c args with
  | inl e => inl e
  | inr (c, []) => inr (c, positional)
  | inr (c, arg :: args) =>
      match fuel with
      | O => inr (c, positional)
      | S fuel => parse_positional fuel c args (positional ++ [arg])
      end
  end.

Definition parseArgs (args : list string) : flag_error + config :=
  match parse_positional (length args) empty_config args [] with
  | inl e => inl e
  | inr (c, positional) =>
      match positional with
      | [] => inl EMissingName
      | [name] => if ValidateName name then inr (set_name name c) else inl EBadName
      | _ => inl EManyNames
      end
  end.

(** ** Questions *)

(** What comes in on standard input while a question waits: a line and whether it was the
    last, or an interrupt. *)
Inductive input := ILine (line : string) (eof : bool) | IInterrupt.

(** The answer of a question; with an interrupt, the context stays cancelled. *)
Inductive answer (A : Type) := AOk (a : A) (rest : list input) | AFails (rest : list input) | AInterrupted.
Arguments AOk {A}. Arguments AFails {A}. Arguments AInterrupted {A}.

(** [askOwner]. *)
Fixpoint askOwner (ins : list input) : answer string :=
  match ins with
  | [] => AFails []
  | IInterrupt :: _ => AInterrupted
  | ILine line eof :: ins =>
      let owner := TrimSpace line in
      if negb (bool_decide (owner = "")) then
        if ValidateOwner owner then AOk owner ins
        else if eof then AFails ins else askOwner ins
      else if eof then AFails ins else askOwner ins
  end.

(** [strings.ToLower] as far as an answer can tell: the ASCII letters, and the two capitals
    whose lower case is an [i], with or without its accent. *)
Fixpoint lower_answer (t : text) : text :=
  match t with
  | [] => []
  | c :: t' =>
      match strip_prefix [ascii_of_nat 195; ascii_of_nat 141] t, strip_prefix [ascii_of_nat 196; ascii_of_nat 176] t with
      | Some _, _ => ascii_of_nat 195 :: ascii_of_nat 173 :: match t' with _ :: t' => lower_answer t' | [] => [] end
      | None, Some _ => "i"%char :: match t' with _ :: t' => lower_answer t' | [] => [] end
      | None, None => to_lower c :: lower_answer t'
      end
  end.

Definition yes_answers : list text :=
  (bytes_of <$> ["y"; "yes"; "s"; "si"]) ++ [["s"%char; ascii_of_nat 195; ascii_of_nat 173]].
Definition no_answers : list text := bytes_of <$> ["n"; "no"].

(** [askYesNo]. *)
Fixpoint askYesNo (c : Component) (ins : list input) : answer bool :=
  match ins with
  | [] => AFails []
  | IInterrupt :: _ => AInterrupted
  | ILine line eof :: ins =>
      let a := lower_answer (bytes_of (TrimSpace line)) in
      if bool_decide (a = []) then if eof then AFails ins else AOk (cp_Default c) ins
      else if bool_decide (a ∈ yes_answers) then AOk true ins
      else if bool_decide (a ∈ no_answers) then AOk false ins
      else if eof then AFails ins else askYesNo c ins
  end.

(** [Select] with the questions asked on standard input, which each answer takes from; the
    flag is whether an interrupt ended it. *)
Fixpoint ask_loop (forced : gmap string bool) (cs : list Component) (selected : gmap string bool) (cascaded : list string)
    (ins : list input) : (select_error + (gmap string bool * list string)) * bool :=
  match cs with
  | [] => (inr (selected, cascaded), false)
  | c :: cs =>
      match List.find (fun r => negb (is_selected selected r)) (cp_Requires c) with
      | Some missing =>
          if is_selected forced (cp_Name c) then (inl (SRequires (cp_Name c) missing), false)
          else ask_loop forced cs (<[cp_Name c := false]> selected) (cascaded ++ [cp_Name c]) ins
      | None =>
          match forced !! cp_Name c with
          | Some keep => ask_loop forced cs (<[cp_Name c := keep]> selected) cascaded ins
          | None =>
              match askYesNo c ins with
              | AOk keep ins => ask_loop forced cs (<[cp_Name c := keep]> selected) cascaded ins
              | AFails _ => (inl (SAsk (cp_Name c)), false)
              | AInterrupted => (inl (SAsk (cp_Name c)), true)
              end
          end
      end
  end.

Definition Select_asking (m : Manifest) (with_ without : list string) (ins : list input) : (select_error + Selection) * bool :=
  match force_with m with_ ∅ with
  | inl e => (inl e, false)
  | inr forced =>
      match force_without m without forced with
      | inl e => (inl e, false)
      | inr forced =>
          match ask_loop forced (mn_Components m) ∅ [] ins with
          | (inl e, i) => (inl e, i)
          | (inr (selected, cascaded), i) => (inr (mkSelection selected cascaded (componentNames m)), i)
          end
      end
  end.

(** ** The command *)

(** [BuildVersion] of the version in the build information. *)
Definition BuildVersion (build : option string) : option string :=
  v ← build;
  if bool_decide (v = "") || bool_decide (v = "(devel)") || negb (ValidateVersion v) then None else Some v.

Definition exitOK : Z := 0.
Definition exitFailure : Z := 1.
Definition exitUsage : Z := 2.
Definition exitInterrupted : Z := 130.

(** The options [run] gives to [Generate]; the selection asks when [ask] is set. *)
Definition options_of (c : config) (version owner : string) (ask : bool) (ins : list input) : Options :=
  mkOptions (cf_name c) owner
    (if bool_decide (cf_module c = "") then "github.com/" +:+ string_of (to_lower <$> bytes_of owner) +:+ "/" +:+ cf_name c
     else cf_module c)
    (if bool_decide (cf_dir c = "") then "./" +:+ cf_name c else cf_dir c)
    version (cf_from c)
    (Some (fun m => if ask then (Select_asking m (cf_with c) (cf_without c) ins).1
                    else Select m (cf_with c) (cf_without c) None))
    (cf_skipTidy c) (cf_skipChecks c) (cf_noGit c).

(** The manifest the selection is given. *)
Definition loaded_manifest (w : world) (o : Options) : option Manifest :=
  match Options_validate w o with
  | inl _ => None
  | inr o => match LoadManifest w (project_of (default ∅ (obtain w o).1)) with inr m => Some m | inl _ => None end
  end.

(** Whether an interrupt ended the questions. *)
Definition asked_interrupted (w : world) (c : config) (o : Options) (ins : list input) (e : generate_error) : bool :=
  match e, loaded_manifest w o with
  | GSelect (SAsk _), Some m => (Select_asking m (cf_with c) (cf_without c) ins).2
  | _, _ => false
  end.

(** The rest of [run] once the version and the owner are known; [late] is whether an
    interrupt came while [Generate] was at work. *)
Definition run_generate (w : world) (c : config) (version owner : string) (ask late : bool) (ins : list input) (t : target)
  : Z * target :=
  let o := options_of c version owner ask ins in
  let '(t, _, e) := Generate w o t in
  match e with
  | None => (exitOK, t)
  | Some e =>
      if late || (ask && asked_interrupted w c o ins e) then (exitInterrupted, t)
      else if is_usage e then (exitUsage, t) else (exitFailure, t)
  end.

(** [run]: the exit code, and the target directory left. *)
Definition run_app (w : world) (build : option string) (interactive late : bool) (args : list string) (ins : list input)
    (t : target) : Z * target :=
  match parseArgs args with
  | inl EHelp => (exitOK, t)
  | inl _ => (exitUsage, t)
  | inr c =>
      let ask := interactive && negb (cf_yes c) in
      match (if bool_decide (cf_version c = "") && bool_decide (cf_from c = "") then BuildVersion build else Some (cf_version c)) with
      | None => (exitUsage, t)
      | Some version =>
          if bool_decide (cf_owner c = "") then
            if negb ask then (exitUsage, t)
            else match askOwner ins with
                 | AOk owner ins => run_generate w c version owner ask late ins t
                 | AFails _ => (exitUsage, t)
                 | AInterrupted => (exitInterrupted, t)
                 end
          else run_generate w c version (cf_owner c) ask late ins t
      end
  end.

(** ** Arguments *)

(** A flag as it can be written: with one dash or two, its value after [=] or as the next
    argument. *)
Inductive flag_arg :=
| ANext (two : bool) (f : string_flag) (v : string)
| AEquals (two : bool) (f : string_flag) (v : string)
| ABool (two : bool) (f : bool_flag)
| ABoolEquals (two : bool) (f : bool_flag) (b : bool).

Definition dashes (two : bool) : string := if two then "--" else "-".
Definition written (a : flag_arg) : list string :=
  match a with
  | ANext two f v => [dashes two +:+ string_flag_name f; v]
  | AEquals two f v => [dashes two +:+ string_flag_name f +:+ "=" +:+ v]
  | ABool two f => [dashes two +:+ bool_flag_name f]
  | ABoolEquals two f b => [dashes two +:+ bool_flag_name f +:+ "=" +:+ (if b then "true" else "false")]
  end.
Definition meant (a : flag_arg) (c : config) : config :=
  match a with
  | ANext _ f v | AEquals _ f v => set_string f v c
  | ABool _ f => set_bool f true c
  | ABoolEquals _ f b => set_bool f b c
  end.
Definition all_written (l : list flag_arg) : list string := concat (written <$> l).
Definition all_meant (l : list flag_arg) (c : config) : config := fold_left (fun c a => meant a c) l c.

(** The token of a flag, and the flag of its name. *)
Lemma token_string two f :
  flag_token_of (bytes_of (dashes two +:+ string_flag_name f)) = TFlag (bytes_of (string_flag_name f)) None.
Proof. by destruct two, f. Qed.
Lemma token_string_value two f v :
  flag_token_of (bytes_of (dashes two +:+ string_flag_name f +:+ "=" +:+ v)) = TFlag (bytes_of (string_flag_name f)) (Some (bytes_of v)).
Proof. by destruct two, f. Qed.
Lemma token_bool two f :
  flag_token_of (bytes_of (dashes two +:+ bool_flag_name f)) = TFlag (bytes_of (bool_flag_name f)) None.
Proof. by destruct two, f. Qed.
Lemma token_bool_value two f v :
  flag_token_of (bytes_of (dashes two +:+ bool_flag_name f +:+ "=" +:+ v)) = TFlag (bytes_of (bool_flag_name f)) (Some (bytes_of v)).
Proof. by destruct two, f. Qed.
Lemma formal_string f : formal (bytes_of (string_flag_name f)) = Some (inl f).
Proof. by destruct f. Qed.
Lemma formal_bool f : formal (bytes_of (bool_flag_name f)) = Some (inr f).
Proof. by destruct f. Qed.

Lemma flags_Parse_one c a rest : flags_Parse c (written a ++ rest) = flags_Parse (meant a c) rest.
Proof.
  destruct a as [two f v|two f v|two f|two f b]; cbn [written app flags_Parse meant].
  - by rewrite token_string, formal_string.
  - by rewrite token_string_value, formal_string, string_bytes.
  - by rewrite token_bool, formal_bool.
  - rewrite token_bool_value, formal_bool, string_bytes. by destruct b.
Qed.

Lemma flags_Parse_all c l rest : flags_Parse c (all_written l ++ rest) = flags_Parse (all_meant l c) rest.
Proof.
  revert c. induction l as [|a l IH]; intros c; [done|]. unfold all_written. cbn [fmap list_fmap concat].
  rewrite <- app_assoc, flags_Parse_one. apply IH.
Qed.

Lemma name_positional name : ValidateName name = true -> flag_token_of (bytes_of name) = TPositional.
Proof.
  unfold ValidateName, flag_token_of. destruct (bytes_of name) as [|c [|c2 t]]; [done..|].
  intros [[Hc _]%andb_true_iff _]%andb_true_iff. destruct (Ascii.eqb_spec c "-") as [->|]; [by vm_compute in Hc|done].
Qed.

(** The parsing loop stops by itself. *)
Lemma flags_Parse_length c args c' rest : flags_Parse c args = inr (c', rest) -> (length rest <= length args)%nat.
Proof.
  remember (length args) as n eqn:Hn. assert (Hle : (length args <= n)%nat) by lia. rewrite Hn. clear Hn. revert c args Hle.
  induction n as [|n IH]; intros c args Hle; (destruct args as [|arg args]; [by intros [= <- <-]|simpl in Hle]); [lia|].
  cbn [flags_Parse]. destruct (flag_token_of _) as [| | |name value]; [by intros [= <- <-]|intros [= <- <-]; simpl; lia|done|].
  assert (Hs : forall c l, (length l <= length args)%nat -> flags_Parse c l = inr (c', rest) -> (length rest <= length (arg :: args))%nat).
  { intros c0 l Hl H. apply IH in H; simpl in *; lia. }
  destruct (formal name) as [[f|f]|]; [|destruct (ParseBool _); [by apply Hs|done]|done].
  destruct value as [v|]; [by apply Hs|]. destruct args as [|v args]; [done|]. apply Hs. simpl. lia.
Qed.

Lemma parse_fuel fuel c args pos :
  (length args <= fuel)%nat -> parse_positional fuel c args pos = parse_positional (S fuel) c args pos.
Proof.
  revert c args pos. induction fuel as [|fuel IH]; intros c args pos Hl.
  { destruct args; [done|simpl in Hl; lia]. }
  cbn [parse_positional]. destruct (flags_Parse c args) as [e|[c' [|arg rest]]] eqn:E; [done..|].
  apply flags_Parse_length in E. simpl in E. rewrite IH by lia. cbn [parse_positional]. done.
Qed.

(** the arguments of the command can come in any order and in any of the spellings of
    the flag package. With a valid name among them, before, between or after flags written
    with one dash or two and values after [=] or as the next argument, parsing gives the
    configuration the flags mean, from left to right, with that name. *)
Theorem args_any_order (a b : list flag_arg) name :
  ValidateName name = true ->
  parseArgs (all_written a ++ name :: all_written b) = inr (set_name name (all_meant (a ++ b) empty_config))
  /\ parseArgs (all_written (a ++ b) ++ [name]) = inr (set_name name (all_meant (a ++ b) empty_config)).
Proof.
  intros Hv. assert (Hp := name_positional name Hv).
  assert (H : forall a b, parseArgs (all_written a ++ name :: all_written b) = inr (set_name name (all_meant (a ++ b) empty_config))).
  { clear a b. intros a b. unfold parseArgs. rewrite length_app, Nat.add_comm. cbn [length Nat.add parse_positional].
    rewrite flags_Parse_all. cbn [flags_Parse]. rewrite Hp. cbv beta iota.
    assert (Hb : forall fuel c, parse_positional fuel c (all_written b) [name] = inr (all_meant b c, [name])).
    { intros fuel c. assert (E := flags_Parse_all c b []). rewrite app_nil_r in E. destruct fuel; cbn [parse_positional]; by rewrite E. }
    rewrite Hb. cbv beta iota. rewrite Hv. unfold all_meant. by rewrite fold_left_app. }
  split; [apply H|]. assert (H2 := H (a ++ b) []). by rewrite app_nil_r in H2.
Qed.

Lemma args_any_order_witness :
  parseArgs ["--owner"; "acme"; "my-app"; "-with=mail"; "--yes"]
  = inr (mkConfig "my-app" "acme" "" "" "" "" ["mail"] [] true false false false).
Proof. apply (args_any_order [ANext true FOwner "acme"] [AEquals false FWith "mail"; ABool true FYes] "my-app" (reflexivity _)). Defined.

(** ** Questions *)

Lemma select_loop_ext forced f g cs selected cascaded :
  (forall c, c ∈ cs -> f c = g c) ->
  select_loop forced (Some f) cs selected cascaded = select_loop forced (Some g) cs selected cascaded.
Proof.
  revert selected cascaded. induction cs as [|c cs IH]; intros selected cascaded H; simpl; [done|].
  assert (Hcs : forall c, c ∈ cs -> f c = g c) by (intros x Hx; apply H; by constructor).
  destruct (List.find _ _) as [missing|]; [destruct (is_selected forced _); [done|by apply IH]|].
  rewrite (H c (list_elem_of_here _ _)). destruct (forced !! cp_Name c) as [keep|]; [by apply IH|].
  destruct (g c) as [keep|]; [by apply IH|done].
Qed.

Lemma ask_loop_select forced cs selected cascaded ins :
  NoDup (cp_Name <$> cs) ->
  exists answers : gmap string bool,
    (ask_loop forced cs selected cascaded ins).1
    = select_loop forced (Some (fun c => answers !! cp_Name c)) cs selected cascaded.
Proof.
  intros Hnd. revert selected cascaded ins. induction cs as [|c cs IH]; intros selected cascaded ins.
  { by exists ∅. }
  cbn [fmap list_fmap] in Hnd. inversion Hnd as [|? ? Hc Hcs]; subst. specialize (IH Hcs). simpl.
  destruct (List.find _ _) as [missing|].
  { destruct (is_selected forced _); [by exists ∅|apply IH]. }
  destruct (forced !! cp_Name c) as [keep|]; [apply IH|].
  destruct (askYesNo c ins) as [keep ins'|ins'|].
  - destruct (IH (<[cp_Name c := keep]> selected) cascaded ins') as [answers Ha].
    exists (<[cp_Name c := keep]> answers). rewrite lookup_insert_eq, Ha. apply select_loop_ext.
    intros x Hx. rewrite lookup_insert_ne; [done|]. intros E. apply Hc. rewrite E. by apply list_elem_of_fmap_2.
  - exists ∅. by rewrite lookup_empty.
  - exists ∅. by rewrite lookup_empty.
Qed.

(** asking the user is a choice of components like any other: whatever is typed, the
    interactive selection of a manifest with distinct names is [Select] with some answer
    for each component, so all that holds of the choice (requirements, forced components)
    holds of it, and a question without an answer fails. *)
Theorem asking_is_select m with_ without ins :
  NoDup (componentNames m) ->
  exists answers : gmap string bool,
    (Select_asking m with_ without ins).1 = Select m with_ without (Some (fun c => answers !! cp_Name c)).
Proof.
  intros Hnd. unfold Select_asking, Select. destruct (force_with m with_ ∅) as [e|forced]; [by exists ∅|].
  destruct (force_without m without forced) as [e|forced']; [by exists ∅|].
  destruct (ask_loop_select forced' (mn_Components m) ∅ [] ins Hnd) as [answers Ha]. exists answers. rewrite <- Ha.
  by destruct (ask_loop _ _ _ _ _) as [[e|[selected cascaded]] i].
Qed.

Definition sample_manifest : Manifest :=
  mkManifest "example.com/template" "" [mkComponent "mail" "" true [] ["mail"]; mkComponent "audit" "" false ["mail"] ["audit"]] [] [].

Lemma asking_is_select_witness :
  exists answers : gmap string bool,
    Select sample_manifest [] [] (Some (fun c => answers !! cp_Name c))
    = inr (mkSelection (<["audit" := true]> {["mail" := true]}) [] ["mail"; "audit"]).
Proof.
  destruct (asking_is_select sample_manifest [] [] [ILine "maybe" false; ILine "" false; ILine " SI " false]) as [answers Ha].
  - apply (bool_decide_unpack _). vm_compute. exact I.
  - exists answers. rewrite <- Ha. reflexivity.
Defined.

(** ** The target directory *)

Lemma validate_inr w o o' : Options_validate w o = inr o' ->
  ValidateName (op_Name o') = true /\ ValidateOwner (op_Owner o') = true /\ ValidateModulePath (op_Module o') = true
  /\ op_Module o' = op_Module o.
Proof.
  unfold Options_validate. destruct (ValidateName (op_Name o)) eqn:En; [|done].
  destruct (ValidateOwner (op_Owner o)) eqn:Eo; [|done]. destruct (ValidateModulePath (op_Module o)) eqn:Em; [|done].
  cbn [negb]. destruct (_ && _); [done|]. destruct (_ && _); [done|]. destruct (bool_decide (op_Dir o = "")); [done|].
  destruct (bool_decide (op_From o = "")); [by intros [= <-]|]. destruct (w_abs w _); [|done]. by intros [= <-].
Qed.

Lemma prepare_cleanup t created : prepareTarget t = inr created -> cleanupTarget created = t.
Proof. destruct t as [| | | |files]; simpl; try done; [by intros [= <-]|]. case_bool_decide; [|done]. intros [= <-]. by subst. Qed.

(** Nothing is reported as made when the target is as it was. *)
Lemma generate_unmade w o t t' e : Generate w o t = (t', None, e) -> t' = t /\ e <> None.
Proof.
  unfold Generate. destruct (Options_validate w o) as [e1|o1]; [by intros [= <- <-]|].
  destruct (w_abs w (op_Dir o1)) as [dir|]; [|by intros [= <- <-]].
  destruct (prepareTarget t) as [e2|created] eqn:Ep; [by intros [= <- <-]|]. apply prepare_cleanup in Ep.
  destruct (Options_render w o1 dir) as [e3|[files res]]; [by intros [= <- <-]|].
  destruct (checkGoMod w o1 files) as [files1 [e4|]]; [by intros [= <- <-]|].
  by destruct (finish w o1 res files1) as [[files2 res2] e5].
Qed.

(** A project that was made: rendered from the template, with the module asked for in its
    go.mod, and in the target directory. *)
Definition made (w : world) (o : Options) (t t' : target) (res : Result) (e : option generate_error) : Prop :=
  exists o1 dir created files0 files1 files2 res0,
    Options_validate w o = inr o1 /\ w_abs w (op_Dir o1) = Some dir /\ prepareTarget t = inr created
    /\ Options_render w o1 dir = inr (files0, res0) /\ checkGoMod w o1 files0 = (files1, None)
    /\ finish w o1 res0 files1 = (files2, res, e) /\ t' = TDir files2.

Lemma generate_made w o t t' res e : Generate w o t = (t', Some res, e) -> made w o t t' res e.
Proof.
  unfold Generate. destruct (Options_validate w o) as [e1|o1] eqn:Ev; [done|].
  destruct (w_abs w (op_Dir o1)) as [dir|] eqn:Ed; [|done]. destruct (prepareTarget t) as [e2|created] eqn:Ep; [done|].
  destruct (Options_render w o1 dir) as [e3|[files0 res0]] eqn:Er; [done|].
  destruct (checkGoMod w o1 files0) as [files1 [e4|]] eqn:Ec; [done|].
  destruct (finish w o1 res0 files1) as [[files2 res2] e5] eqn:Ef. intros [= <- <- <-]. repeat eexists; eauto.
Qed.

(** No failure of a command is a usage error. *)
Lemma runCmd_error w argv files files' e : runCmd w argv files = (files', inl e) -> is_usage e = false.
Proof. unfold runCmd. destruct (w_run w argv files) as [f [out|]]; [done|]. by intros [= _ <-]. Qed.

Lemma readGoMod_error w files files' e : readGoMod w files = (files', inl e) -> is_usage e = false.
Proof.
  unfold readGoMod. destruct (runCmd w _ files) as [f [e1|out]] eqn:E.
  - intros [= _ <-]. by eapply runCmd_error.
  - destruct (w_goMod w out); [done|]. by intros [= _ <-].
Qed.

Lemma checkGofmt_error w files files' e : checkGofmt w files = (files', Some e) -> is_usage e = false.
Proof.
  unfold checkGofmt. destruct (gofmtPath w) as [g|]; [|by intros [= _ <-]].
  destruct (runCmd w [g; "-l"; "."] files) as [f [e1|out]] eqn:E; [intros [= _ <-]; by eapply runCmd_error|].
  case_bool_decide; [done|]. by intros [= _ <-].
Qed.

Lemma initGit_error w o res files files' res' e : initGit w o res files = (files', res', Some e) -> is_usage e = false.
Proof.
  unfold initGit. destruct (runCmd w _ files) as [f1 [e1|o1]] eqn:E1; [intros [= _ _ <-]; by eapply runCmd_error|].
  destruct (git_unconfigured w _ f1) as [f2 [key|]]; [done|].
  destruct (runCmd w ["git"; "add"; "-A"] f2) as [f3 [e2|o2]] eqn:E2; [intros [= _ _ <-]; by eapply runCmd_error|].
  destruct (runCmd w _ f3) as [f4 [e3|o3]] eqn:E3; [intros [= _ _ <-]; by eapply runCmd_error|done].
Qed.

Lemma finish_checks_error w o res files files' res' e :
  finish_checks w o res files = (files', res', Some e) -> is_usage e = false.
Proof.
  unfold finish_checks. destruct (if op_SkipChecks o then _ else _) as [f [e1|]] eqn:E.
  - destruct (op_SkipChecks o); [done|]. intros [= _ _ <-]. by eapply checkGofmt_error.
  - destruct (op_NoGit o); [done|]. apply initGit_error.
Qed.

Lemma finish_tidy_error w o res files files' res' e :
  finish_tidy w o res files = (files', res', Some e) -> is_usage e = false.
Proof.
  unfold finish_tidy. destruct (op_SkipTidy o); [apply finish_checks_error|].
  destruct (runCmd w _ files) as [f [e1|out]] eqn:E; [intros [= _ _ <-]; by eapply runCmd_error|apply finish_checks_error].
Qed.

Lemma finish_error w o res files files' res' e : finish w o res files = (files', res', Some e) -> is_usage e = false.
Proof.
  unfold finish. destruct (runCmd w _ files) as [f [e1|out]] eqn:E; [intros [= _ _ <-]; by eapply runCmd_error|].
  destruct (bool_decide (op_Version o = "")); [|apply finish_tidy_error].
  destruct (readGoMod w f) as [f1 [e1|m]] eqn:E1; [intros [= _ _ <-]; by eapply readGoMod_error|apply finish_tidy_error].
Qed.

(** What an exit code says of the target directory before and after; [help] is whether the
    help was asked for. *)
Definition exit_means (w : world) (help : Prop) (code : Z) (t t' : target) : Prop :=
  (code = exitOK /\ (help /\ t' = t \/ exists o res, made w o t t' res None))
  \/ (code = exitUsage /\ t' = t)
  \/ ((code = exitFailure \/ code = exitInterrupted) /\ (t' = t \/ exists o res e, made w o t t' res (Some e))).

Lemma run_generate_exit w help c version owner ask late ins t :
  let '(code, t') := run_generate w c version owner ask late ins t in exit_means w help code t t'.
Proof.
  unfold run_generate. destruct (Generate w (options_of c version owner ask ins) t) as [[t' [res|]] e] eqn:E.
  - apply generate_made in E as Hm. destruct e as [e|]; [|left; eauto 6].
    destruct (late || _); [right; right; eauto 10|]. destruct (is_usage e) eqn:Eu; [|right; right; eauto 10].
    destruct Hm as (o1 & dir & created & f0 & f1 & f2 & r0 & _ & _ & _ & _ & _ & Hf & _). apply finish_error in Hf. congruence.
  - apply generate_unmade in E as [-> He]. destruct e as [e|]; [|done].
    destruct (late || _); [right; right; auto|]. destruct (is_usage e); [right; left; auto|right; right; auto].
Qed.

(** the exit code of the command says what became of the target directory. With 2 (a
    usage error) it is exactly as it was; with 0 it is as it was (only the help was asked
    for) or holds a project rendered from the template of a checked release or checkout,
    whose go.mod declares the module asked for and all of whose steps succeeded; with 1 or
    130 it is as it was, or holds a project that had come as far as the edit of its go.mod.
    There are no other codes. *)
Theorem exit_code_means w build interactive late args ins t :
  let '(code, t') := run_app w build interactive late args ins t in
  exit_means w (parseArgs args = inl EHelp) code t t'.
Proof.
  assert (Husage : exit_means w (parseArgs args = inl EHelp) exitUsage t t) by (right; left; done).
  unfold run_app. destruct (parseArgs args) as [e|c]; [by destruct e; [left; auto|..]|].
  destruct (if bool_decide (cf_version c = "") && _ then _ else _) as [version|]; [|done].
  destruct (bool_decide (cf_owner c = "")); [|apply run_generate_exit].
  destruct (negb _); [done|]. destruct (askOwner ins) as [owner ins'|ins'|]; [apply run_generate_exit|done|].
  right. right. auto.
Qed.
