(* ===== verification/Netip.v ===== *)
(** Addresses and prefixes as [net/netip] parses, prints and compares them, and
    [net.SplitHostPort]: what the middlewares use of the standard library's network
    packages, with the round trip of an address through its text. *)

From stdpp Require Import base list strings.
From Stdlib Require Import ZArith Lia Ascii.
From S2P Require Import Prelude GoStrings GoText.

Open Scope string_scope.
Open Scope list_scope.
Open Scope Z_scope.

(** ** Addresses *)

(** [netip.Addr]: a 32-bit or a 128-bit number, the latter with a zone. *)
Inductive addr := V4 (a : Z) | V6 (a : Z) (zone : text).
#[export] Instance addr_eq_dec : EqDecision addr.
Proof. solve_decision. Defined.

Definition Is4 (a : addr) : bool := match a with V4 _ => true | V6 _ _ => false end.
Definition Is6 (a : addr) : bool := negb (Is4 a).
Definition Zone (a : addr) : text := match a with V4 _ => [] | V6 _ z => z end.
Definition BitLen (a : addr) : Z := match a with V4 _ => 32 | V6 _ _ => 128 end.
Definition bits_of (a : addr) : Z := match a with V4 a | V6 a _ => a end.
(** [::ffff:a.b.c.d]. *)
Definition Is4In6 (a : addr) : bool := match a with V4 _ => false | V6 a _ => Z.shiftr a 32 =? 65535 end.
Definition Unmap (a : addr) : addr := if Is4In6 a then V4 (Z.land (bits_of a) (Z.ones 32)) else a.
Definition WithZone (a : addr) (zone : text) : addr := match a with V4 _ => a | V6 a _ => V6 a zone end.

(** An address of its width, without zone. *)
Definition plain_addr (a : addr) : Prop := 0 <= bits_of a < 2 ^ BitLen a /\ Zone a = [].

(** *** Parsing *)

Definition dot : ascii := ".".
Definition colon : ascii := ":".

(** One field of a dotted address: no leading zero, at most 255. *)
Definition parse_octet (t : text) : option Z :=
  match t with
  | [] => None
  | c :: r =>
      if forallb is_digit t && (negb (Ascii.eqb c "0") || bool_decide (r = [])) && (digits_value t <=? 255)
      then Some (digits_value t) else None
  end.

(** [parseIPv4Fields]: the 32-bit number. *)
Definition parseIPv4 (t : text) : option Z :=
  match split_on dot t with
  | [a; b; c; d] =>
      a ← parse_octet a; b ← parse_octet b; c ← parse_octet c; d ← parse_octet d;
      Some (((a * 256 + b) * 256 + c) * 256 + d)
  | _ => None
  end.

Definition hex_value (c : ascii) : option Z :=
  if is_digit c then Some (digit_value c)
  else if char_in "a" "f" c then Some (Z.of_nat (nat_of_ascii c) - 87)
  else if char_in "A" "F" c then Some (Z.of_nat (nat_of_ascii c) - 55)
  else None.
Definition is_hexdigit (c : ascii) : bool := bool_decide (is_Some (hex_value c)).
Definition hex_group (t : text) : Z := fold_left (fun n c => 16 * n + default 0 (hex_value c)) t 0.

(** The loop of [parseIPv6] over the groups, with those read, where the ellipsis was, and
    the text left; a group is sixteen bits. *)
Fixpoint parse6_loop (fuel : nat) (groups : list Z) (ellipsis : option nat) (s : text) : option (list Z * option nat) :=
  match fuel with
  | O => if bool_decide (s = []) then Some (groups, ellipsis) else None
  | S fuel =>
      let '(hex, rest) := span is_hexdigit s in
      if bool_decide (hex = []) || (4 <? Z.of_nat (length hex)) then None
      else
        let groups' := groups ++ [hex_group hex] in
        match rest with
        | [] => Some (groups', ellipsis)
        | c :: rest =>
            if Ascii.eqb c dot then
              if bool_decide (ellipsis = None) && negb (Z.of_nat (length groups) =? 6) then None
              else if 6 <? Z.of_nat (length groups) then None
              else a ← parseIPv4 s; Some (groups ++ [Z.shiftr a 16; Z.land a (Z.ones 16)], ellipsis)
            else if negb (Ascii.eqb c colon) then None
            else match rest with
                 | [] => None
                 | c2 :: rest2 =>
                     if Ascii.eqb c2 colon then
                       match ellipsis with
                       | Some _ => None
                       | None =>
                           if bool_decide (rest2 = []) then Some (groups', Some (length groups'))
                           else parse6_loop fuel groups' (Some (length groups')) rest2
                       end
                     else parse6_loop fuel groups' ellipsis rest
                 end
        end
  end.

(** Expanding the ellipsis to eight groups. *)
Definition expand (parsed : list Z * option nat) : option (list Z) :=
  let '(groups, ellipsis) := parsed in
  if (length groups <? 8)%nat then
    e ← ellipsis; Some (take e groups ++ replicate (8 - length groups) 0 ++ drop e groups)
  else if bool_decide (ellipsis = None) then Some groups else None.

Definition join_groups (groups : list Z) : Z := fold_left (fun n g => 65536 * n + g) groups 0.

(** [parseIPv6]. *)
Definition parseIPv6 (t : text) : option addr :=
  let '(s, z) := span (fun c => negb (Ascii.eqb c "%")) t in
  zone ← (match z with [] => Some [] | [_] => None | _ :: z => Some z end);
  parsed ← (match strip_prefix [colon; colon] s with
            | Some [] => Some ([], Some O)
            | Some s => parse6_loop 8 [] (Some O) s
            | None => parse6_loop 8 [] None s
            end);
  groups ← expand parsed;
  Some (V6 (join_groups groups) zone).

(** [netip.ParseAddr]: the first dot, colon or percent sign decides. *)
Fixpoint addr_kind (t : text) : option bool :=
  match t with
  | [] => None
  | c :: t => if Ascii.eqb c dot then Some true else if Ascii.eqb c colon then Some false
              else if Ascii.eqb c "%" then None else addr_kind t
  end.
Definition ParseAddr (t : text) : option addr :=
  match addr_kind t with
  | None => None
  | Some true => V4 <$> parseIPv4 t
  | Some false => parseIPv6 t
  end.

(** The text before and after the last [c]. *)
Definition cut_last (c : ascii) (t : text) : option (text * text) :=
  let '(after, before) := span (fun x => negb (Ascii.eqb x c)) (rev t) in
  match before with [] => None | _ :: before => Some (rev before, rev after) end.

(** [netip.ParseAddrPort], the address of it. *)
Definition ParseAddrPort (t : text) : option addr :=
  '(ip, port) ← cut_last colon t;
  if bool_decide (ip = []) || bool_decide (port = []) then None
  else
    '(v6, ip) ← (match ip with
                 | c :: r => if Ascii.eqb c "[" then
                               if (match last r with Some x => Ascii.eqb x "]" | None => false end) then Some (true, removelast r)
                               else None
                             else Some (false, ip)
                 | [] => None
                 end);
    if negb (forallb is_digit port && (digits_value port <? 65536)) then None
    else a ← ParseAddr ip; if Bool.eqb v6 (Is6 a) then Some a else None.

(** [net.SplitHostPort], the host of it. *)
Definition has (c : ascii) (t : text) : bool := existsb (Ascii.eqb c) t.
Definition SplitHostPort (t : text) : option text :=
  '(before, port) ← cut_last colon t;
  match t with
  | c :: r =>
      if Ascii.eqb c "[" then
        let '(host, rest) := span (fun x => negb (Ascii.eqb x "]")) r in
        match rest with
        | _ :: rest => if bool_decide (rest = colon :: port) && negb (has "[" r) && negb (has "]" rest) then Some host else None
        | [] => None
        end
      else if has colon before || has "[" t || has "]" t then None else Some before
  | [] => None
  end.

(** *** Printing *)

Definition digit_char (n : Z) : ascii := ascii_of_nat (Z.to_nat n + 48).
Definition hex_char (n : Z) : ascii := ascii_of_nat (Z.to_nat n + (if n <? 10 then 48 else 87)).

(** A number of at most three decimal digits, and of at most four hexadecimal ones. *)
Definition print_octet (n : Z) : text :=
  (if 100 <=? n then [digit_char (n / 100)] else []) ++ (if 10 <=? n then [digit_char (n / 10 mod 10)] else []) ++ [digit_char (n mod 10)].
Definition print_group (n : Z) : text :=
  (if 4096 <=? n then [hex_char (n / 4096)] else []) ++ (if 256 <=? n then [hex_char (n / 256 mod 16)] else [])
  ++ (if 16 <=? n then [hex_char (n / 16 mod 16)] else []) ++ [hex_char (n mod 16)].

Fixpoint join_sep (sep : ascii) (l : list text) : text :=
  match l with
  | [] => []
  | [e] => e
  | e :: l => e ++ sep :: join_sep sep l
  end.

Definition octets (a : Z) : list Z := [a / 256 / 256 / 256; a / 256 / 256 mod 256; a / 256 mod 256; a mod 256].
Definition string4 (a : Z) : text := join_sep dot (print_octet <$> octets a).

Definition groups_of (a : Z) : list Z :=
  (fun i => Z.land (Z.shiftr a (16 * i)) (Z.ones 16)) <$> [7; 6; 5; 4; 3; 2; 1; 0].

(** The zeros at the head of a list. *)
Fixpoint zeros (l : list Z) : nat := match l with 0 :: l => S (zeros l) | _ => O end.

(** The first of the longest runs of zero groups, of two at least: its start and its end. *)
Fixpoint zero_run (i : nat) (l : list Z) (best : nat * nat) : nat * nat :=
  match l with
  | [] => best
  | _ :: l' =>
      let n := zeros l in
      zero_run (S i) l' (if (2 <=? n)%nat && (best.2 - best.1 <? n)%nat then (i, i + n)%nat else best)
  end.

Definition string6 (a : Z) : text :=
  let gs := groups_of a in
  let '(s, e) := zero_run 0 gs (0, 0)%nat in
  let print l := join_sep colon (print_group <$> l) in
  if (s =? e)%nat then print gs else print (take s gs) ++ [colon; colon] ++ print (drop e gs).

(** [Addr.String]. *)
Definition addr_String (a : addr) : text :=
  match a with
  | V4 a => string4 a
  | V6 n z =>
      (if Is4In6 a then bytes_of "::ffff:" ++ string4 (Z.land n (Z.ones 32)) else string6 n)
      ++ (if bool_decide (z = []) then [] else "%"%char :: z)
  end.

(** ** Prefixes *)

(** [netip.Prefix]; a negative length stands for an invalid one. *)
Record prefix := mkPrefix { pf_addr : addr; pf_bits : Z }.
Definition PrefixFrom (a : addr) (bits : Z) : prefix :=
  mkPrefix (WithZone a []) (if (0 <=? bits) && (bits <=? BitLen a) then bits else -1).
Definition prefix_valid (p : prefix) : bool := 0 <=? pf_bits p.

Definition ParsePrefix (t : text) : option prefix :=
  '(ip, bits) ← cut_last "/" t;
  a ← ParseAddr ip;
  if negb (bool_decide (Zone a = [])) then None
  else match bits with
       | [] => None
       | c :: r =>
           if negb (bool_decide (r = [])) && negb (char_in "1" "9" c) then None
           else if negb (forallb is_digit bits) || (BitLen a <? digits_value bits) then None
           else Some (PrefixFrom a (digits_value bits))
       end.

(** [Prefix.Masked]. *)
Definition clear_low (n low : Z) : Z := Z.shiftl (Z.shiftr n low) low.
Definition Masked (p : prefix) : prefix :=
  let low := BitLen (pf_addr p) - pf_bits p in
  mkPrefix (match pf_addr p with V4 a => V4 (clear_low a low) | V6 a z => V6 (clear_low a low) z end) (pf_bits p).

(** [Prefix.Contains]. *)
Definition prefix_Contains (p : prefix) (a : addr) : bool :=
  prefix_valid p && bool_decide (Zone a = []) && (BitLen (pf_addr p) =? BitLen a)
  && (Z.shiftr (Z.lxor (bits_of a) (bits_of (pf_addr p))) (BitLen a - pf_bits p) =? 0).

Example parse_v6 : ParseAddr (bytes_of "2001:db8::1") = Some (V6 42540766411282592856903984951653826561 []).
Proof. vm_compute. reflexivity. Qed.
Example parse_mapped : Unmap <$> ParseAddr (bytes_of "::ffff:10.0.0.1") = Some (V4 167772161).
Proof. vm_compute. reflexivity. Qed.
Example print_v6 : addr_String <$> ParseAddr (bytes_of "2001:DB8:0:0:1:0:0:1%eth0") = Some (bytes_of "2001:db8::1:0:0:1%eth0").
Proof. vm_compute. reflexivity. Qed.
Example parse_bad : ParseAddr (bytes_of "1:2:3:4:5:6:7::8") = None /\ ParseAddr (bytes_of "01.2.3.4") = None
  /\ ParseAddr (bytes_of "1::2::3") = None /\ ParseAddr (bytes_of "12345::") = None /\ ParseAddr (bytes_of "::1.2.3.4%") = None.
Proof. vm_compute. done. Qed.
