(* ===== verification/NetipFacts.v ===== *)
(** An address survives its text: parsing what is printed gives it back, and what is parsed
    has its width. *)

From stdpp Require Import base list strings.
From Stdlib Require Import ZArith Lia Ascii.
From S2P Require Import Prelude GoStrings GoText Netip.

Open Scope string_scope.
Open Scope list_scope.
Open Scope Z_scope.

(** ** Spans and joins *)

Lemma span_app p a rest :
  forallb p a = true -> match rest with [] => True | c :: _ => p c = false end -> span p (a ++ rest) = (a, rest).
Proof.
  intros Ha Hr. induction a as [|c a IH]; simpl in *.
  - destruct rest as [|c rest]; simpl; [done|]. by rewrite Hr.
  - apply andb_true_iff in Ha as [-> Ha]. by rewrite IH.
Qed.

Lemma span_whole p a : forallb p a = true -> span p a = (a, []).
Proof. intros H. rewrite <- (app_nil_r a) at 1. by apply span_app. Qed.

Lemma span_spec p t : let '(a, b) := span p t in t = a ++ b /\ forallb p a = true.
Proof.
  induction t as [|c t IH]; simpl; [done|]. destruct (p c) eqn:E; [|done]. destruct (span p t) as [a b].
  destruct IH as [-> IH]. simpl. by rewrite E.
Qed.

Lemma split_join_sep sep (l : list text) :
  l <> [] -> Forall (fun e => sep ∉ e) l -> split_on sep (join_sep sep l) = l.
Proof.
  intros Hne H. induction H as [|e l He Hl IH]; [done|]. destruct l as [|e' l]; [by apply split_on_word|].
  change (join_sep sep (e :: e' :: l)) with (e ++ sep :: join_sep sep (e' :: l)). by rewrite split_on_app, split_on_word, IH.
Qed.

Lemma forallb_no_char (p : ascii -> bool) c (t : text) : forallb p t = true -> p c = false -> c ∉ t.
Proof. intros Hf Hc Hin%list_elem_of_In. rewrite forallb_forall in Hf. apply Hf in Hin. congruence. Qed.

(** ** Numbers of a few digits *)

(** A check of every number below a bound. *)
Lemma below_checked (f : Z -> bool) (n : nat) :
  forallb f (Z.of_nat <$> seq 0 n) = true -> forall z, 0 <= z < Z.of_nat n -> f z = true.
Proof.
  intros H z Hz. rewrite forallb_forall in H. apply H. apply list_elem_of_In, list_elem_of_fmap. exists (Z.to_nat z).
  split; [lia|]. apply elem_of_seq. lia.
Qed.

Definition octet_ok (n : Z) : bool :=
  bool_decide (parse_octet (print_octet n) = Some n) && forallb is_digit (print_octet n) && negb (bool_decide (print_octet n = [])).
Lemma octets_ok n : 0 <= n < 256 -> octet_ok n = true.
Proof. apply (below_checked _ 256). vm_compute. reflexivity. Qed.

(** ** Dotted addresses *)

Lemma octet_text n :
  0 <= n < 256 -> parse_octet (print_octet n) = Some n /\ forallb is_digit (print_octet n) = true /\ print_octet n <> [].
Proof.
  intros H%octets_ok. unfold octet_ok in H. apply andb_true_iff in H as [[H1%bool_decide_eq_true H2]%andb_true_iff H3%negb_true_iff].
  by apply bool_decide_eq_false in H3.
Qed.

Lemma octets_range a : 0 <= a < 2 ^ 32 -> Forall (fun n => 0 <= n < 256) (octets a).
Proof.
  intros H. unfold octets. constructor; [|repeat constructor; apply Z.mod_pos_bound; lia].
  rewrite !Z.div_div by lia. split; [apply Z.div_pos; lia|apply Z.div_lt_upper_bound; lia].
Qed.

Lemma octets_join a :
  ((a / 256 / 256 / 256 * 256 + a / 256 / 256 mod 256) * 256 + a / 256 mod 256) * 256 + a mod 256 = a.
Proof.
  assert (H1 := Z.div_mod a 256). assert (H2 := Z.div_mod (a / 256) 256). assert (H3 := Z.div_mod (a / 256 / 256) 256). lia.
Qed.

Lemma parse_string4 a : 0 <= a < 2 ^ 32 -> parseIPv4 (string4 a) = Some a.
Proof.
  intros Ha. unfold parseIPv4, string4. rewrite split_join_sep; [|done|].
  - assert (Hr := octets_range a Ha). unfold octets in *. cbn [fmap list_fmap].
    inversion Hr as [|? ? H1 Hr1]; subst. inversion Hr1 as [|? ? H2 Hr2]; subst.
    inversion Hr2 as [|? ? H3 Hr3]; subst. inversion Hr3 as [|? ? H4 _]; subst.
    rewrite (proj1 (octet_text _ H1)), (proj1 (octet_text _ H2)), (proj1 (octet_text _ H3)), (proj1 (octet_text _ H4)).
    simpl. f_equal. apply (octets_join a).
  - apply Forall_fmap. eapply Forall_impl; [apply octets_range, Ha|]. intros n Hn. unfold compose.
    apply octet_text in Hn as (_ & Hd & _). by eapply forallb_no_char.
Qed.

(** The first character that decides the kind of an address. *)
Lemma addr_kind_skip a rest :
  forallb is_hexdigit a = true -> addr_kind (a ++ rest) = addr_kind rest.
Proof.
  induction a as [|c a IH]; simpl; [done|]. intros [Hc Ha]%andb_true_iff. rewrite IH by done.
  destruct (Ascii.eqb_spec c dot) as [->|]; [done|]. destruct (Ascii.eqb_spec c colon) as [->|]; [done|].
  destruct (Ascii.eqb_spec c "%") as [->|]; [done|done].
Qed.

Lemma digit_hexdigit t : forallb is_digit t = true -> forallb is_hexdigit t = true.
Proof.
  rewrite !forallb_forall. intros H c Hc. unfold is_hexdigit, hex_value. rewrite (H c Hc). by apply bool_decide_eq_true.
Qed.

Lemma kind_string4 a : 0 <= a < 2 ^ 32 -> addr_kind (string4 a) = Some true.
Proof.
  intros Ha. assert (Hr := octets_range a Ha). unfold string4. unfold octets in *. inversion Hr as [|? ? H1 _]; subst.
  apply octet_text in H1 as (_ & Hd & _). cbn [fmap list_fmap join_sep]. rewrite addr_kind_skip by by apply digit_hexdigit. done.
Qed.

(** ** Groups *)

Lemma hex_char_value d : 0 <= d < 16 -> hex_value (hex_char d) = Some d.
Proof.
  intros H. apply (bool_decide_eq_true_1 (hex_value (hex_char d) = Some d)).
  revert d H. apply (below_checked (fun d => bool_decide (hex_value (hex_char d) = Some d)) 16). vm_compute. reflexivity.
Qed.

Lemma hex_chars (l : list Z) :
  Forall (fun d => 0 <= d < 16) l ->
  forallb is_hexdigit (hex_char <$> l) = true /\ forall n, fold_left (fun n c => 16 * n + default 0 (hex_value c)) (hex_char <$> l) n
    = fold_left (fun n d => 16 * n + d) l n.
Proof.
  induction 1 as [|d l Hd _ [IH1 IH2]]; [done|]. cbn [fmap list_fmap forallb fold_left]. unfold is_hexdigit at 1.
  rewrite hex_char_value by done. split; [done|]. intros n. apply IH2.
Qed.

(** The hexadecimal digits of a group. *)
Definition nibbles (n : Z) : list Z :=
  (if 4096 <=? n then [n / 4096] else []) ++ (if 256 <=? n then [n / 256 mod 16] else [])
  ++ (if 16 <=? n then [n / 16 mod 16] else []) ++ [n mod 16].
Lemma print_group_nibbles n : print_group n = hex_char <$> nibbles n.
Proof. unfold print_group, nibbles. by destruct (4096 <=? n), (256 <=? n), (16 <=? n). Qed.

Lemma nibbles_spec n :
  0 <= n < 65536 -> Forall (fun d => 0 <= d < 16) (nibbles n) /\ fold_left (fun n d => 16 * n + d) (nibbles n) 0 = n
    /\ (1 <= length (nibbles n) <= 4)%nat.
Proof.
  intros H. unfold nibbles.
  assert (H1 := Z.div_mod n 16). assert (H2 := Z.div_mod (n / 16) 16). assert (H3 := Z.div_mod (n / 256) 16).
  rewrite !Z.div_div in H2, H3 by lia. change (16 * 16) with 256 in *. change (256 * 16) with 4096 in *.
  assert (B0 := Z.mod_pos_bound n 16). assert (B1 := Z.mod_pos_bound (n / 16) 16). assert (B2 := Z.mod_pos_bound (n / 256) 16).
  assert (B3 : 0 <= n / 4096 < 16) by (Z.to_euclidean_division_equations; lia).
  destruct (Z.leb_spec 4096 n), (Z.leb_spec 256 n), (Z.leb_spec 16 n); try lia; cbn [app fold_left length];
    (split; [repeat constructor; lia|split; [|lia]]).
  all: try (rewrite (Z.div_small n 4096) in * by lia). all: try (rewrite (Z.div_small n 256) in * by lia).
  all: try (rewrite (Z.div_small n 16) in * by lia). all: lia.
Qed.

Lemma group_text n :
  0 <= n < 65536 -> hex_group (print_group n) = n /\ forallb is_hexdigit (print_group n) = true /\ print_group n <> []
    /\ (length (print_group n) <= 4)%nat.
Proof.
  intros H. destruct (nibbles_spec n H) as (Hd & Hv & Hl). destruct (hex_chars _ Hd) as [Hh Hf].
  rewrite print_group_nibbles, length_fmap. split_and!; [|done| |lia].
  - unfold hex_group. by rewrite Hf.
  - destruct (nibbles n); [simpl in Hl; lia|done].
Qed.

Definition print_groups (l : list Z) : text := join_sep colon (print_group <$> l).
Definition in_group (n : Z) : Prop := 0 <= n < 65536.

Lemma loop_group fuel gs ell n rest :
  in_group n -> match rest with [] => True | c :: _ => c = colon end ->
  parse6_loop (S fuel) gs ell (print_group n ++ rest) =
  match rest with
  | [] => Some (gs ++ [n], ell)
  | _ :: rest =>
      match rest with
      | [] => None
      | c2 :: rest2 =>
          if Ascii.eqb c2 colon then
            match ell with
            | Some _ => None
            | None => if bool_decide (rest2 = []) then Some (gs ++ [n], Some (length (gs ++ [n])))
                      else parse6_loop fuel (gs ++ [n]) (Some (length (gs ++ [n]))) rest2
            end
          else parse6_loop fuel (gs ++ [n]) ell rest
      end
  end.
Proof.
  intros Hn Hr. destruct (group_text n Hn) as (Hv & Hh & Hne & Hl). cbn [parse6_loop].
  rewrite span_app; [|done|destruct rest as [|c rest]; [done|by subst c]].
  rewrite bool_decide_eq_false_2 by done. rewrite (proj2 (Z.ltb_ge 4 _)) by lia. cbn [orb]. rewrite Hv.
  destruct rest as [|c rest]; [done|]. subst c. done.
Qed.

Lemma print_groups_head n l :
  in_group n -> exists c t, print_groups (n :: l) = c :: t /\ is_hexdigit c = true.
Proof.
  intros Hn. destruct (group_text n Hn) as (_ & Hh & Hne & _). unfold print_groups. cbn [fmap list_fmap].
  destruct (print_group n) as [|c t]; [done|]. simpl in Hh. apply andb_true_iff in Hh as [Hc _].
  exists c. destruct l as [|m l]; eexists; done.
Qed.

Lemma hexdigit_not_colon c : is_hexdigit c = true -> Ascii.eqb c colon = false.
Proof. intros H. destruct (Ascii.eqb_spec c colon) as [->|]; done. Qed.

Lemma loop_groups fuel gs ell hs :
  hs <> [] -> Forall in_group hs -> (length hs <= fuel)%nat ->
  parse6_loop fuel gs ell (print_groups hs) = Some (gs ++ hs, ell).
Proof.
  intros Hne Hf. revert fuel gs. induction Hf as [|n hs Hn Hf IH]; intros fuel gs Hl; [done|].
  simpl in Hl. destruct fuel as [|fuel]; [lia|]. destruct hs as [|m hs].
  - change (print_groups [n]) with (print_group n). rewrite <- (app_nil_r (print_group n)). by rewrite loop_group.
  - change (print_groups (n :: m :: hs)) with (print_group n ++ colon :: print_groups (m :: hs)).
    rewrite loop_group by done. inversion Hf as [|? ? Hm _]; subst.
    destruct (print_groups_head m hs Hm) as (c & t & E & Hc). rewrite E, (hexdigit_not_colon c Hc), <- E.
    rewrite IH by (done || simpl in *; lia). by rewrite <- app_assoc.
Qed.

Lemma loop_ellipsis fuel gs hs hs2 :
  hs <> [] -> Forall in_group hs -> Forall in_group hs2 -> (length hs + length hs2 <= fuel)%nat ->
  parse6_loop fuel gs None (print_groups hs ++ [colon; colon] ++ print_groups hs2)
  = Some (gs ++ hs ++ hs2, Some (length gs + length hs)%nat).
Proof.
  intros Hne Hf Hf2. revert fuel gs. induction Hf as [|n hs Hn Hf IH]; intros fuel gs Hl; [done|].
  simpl in Hl. destruct fuel as [|fuel]; [lia|]. destruct hs as [|m hs].
  - change (print_groups [n]) with (print_group n). rewrite loop_group by done. cbn [app].
    change (Ascii.eqb colon colon) with true. cbv iota. rewrite length_app. destruct hs2 as [|m2 hs2]; [done|].
    inversion Hf2 as [|? ? Hm2 _]; subst. destruct (print_groups_head m2 hs2 Hm2) as (c & t & E & Hc).
    rewrite bool_decide_eq_false_2 by (rewrite E; done). rewrite loop_groups by (done || simpl in *; lia).
    by rewrite <- app_assoc.
  - change (print_groups (n :: m :: hs)) with (print_group n ++ colon :: print_groups (m :: hs)).
    rewrite <- app_assoc. rewrite loop_group by done. cbn [app]. inversion Hf as [|? ? Hm _]; subst.
    destruct (print_groups_head m hs Hm) as (c & t & E & Hc).
    specialize (IH ltac:(done) fuel (gs ++ [n])). rewrite E in IH |- *. cbn [app] in IH |- *. cbv beta iota.
    rewrite (hexdigit_not_colon c Hc). rewrite IH by (simpl in *; lia). rewrite length_app, <- app_assoc. simpl. do 3 f_equal. lia.
Qed.

(** ** Runs of zeros *)

Lemma zeros_spec l : (zeros l <= length l)%nat /\ take (zeros l) l = replicate (zeros l) 0.
Proof.
  induction l as [|x l [IH1 IH2]]; [done|]. destruct x; simpl; [split; [lia|by rewrite IH2]|split; [lia|done]..].
Qed.

(** A run of at least two zero groups, or none. *)
Definition run_ok (gs : list Z) (r : nat * nat) : Prop :=
  r = (0, 0)%nat \/ (r.1 + 2 <= r.2 <= length gs)%nat /\ take (r.2 - r.1) (drop r.1 gs) = replicate (r.2 - r.1) 0.

Lemma zero_run_ok gs pre l best : gs = pre ++ l -> run_ok gs best -> run_ok gs (zero_run (length pre) l best).
Proof.
  revert pre best. induction l as [|x l IH]; intros pre best -> Hb; [done|]. cbn [zero_run].
  replace (S (length pre)) with (length (pre ++ [x])) by (rewrite length_app; simpl; lia).
  apply (IH (pre ++ [x])); [by rewrite <- app_assoc|].
  destruct (_ && _) eqn:E; [|done]. apply andb_true_iff in E as [E1%Nat.leb_le _]. right. cbn [fst snd].
  destruct (zeros_spec (x :: l)) as [Hz1 Hz2]. rewrite length_app. split; [lia|]. rewrite drop_app_length. by replace (length pre + zeros (x :: l) - length pre)%nat with (zeros (x :: l)) by lia.
Qed.

Lemma run_restored gs s e :
  (s + 2 <= e <= length gs)%nat -> take (e - s) (drop s gs) = replicate (e - s) 0 ->
  take s gs ++ replicate (e - s) 0 ++ drop e gs = gs.
Proof.
  intros Hl Hz. rewrite <- Hz. rewrite <- (take_drop s gs) at 4. f_equal.
  rewrite <- (take_drop (e - s) (drop s gs)) at 2. f_equal. rewrite drop_drop. f_equal. lia.
Qed.

(** ** Eight groups *)

Lemma groups_range a : Forall in_group (groups_of a).
Proof.
  unfold groups_of. apply Forall_fmap, Forall_forall. intros i _. unfold compose, in_group. rewrite Z.land_ones by lia.
  apply Z.mod_pos_bound. lia.
Qed.

Lemma groups_join a : 0 <= a < 2 ^ 128 -> join_groups (groups_of a) = a.
Proof.
  intros Ha. unfold groups_of. cbn [fmap list_fmap]. rewrite !Z.land_ones, !Z.shiftr_div_pow2 by lia.
  change (2 ^ 16) with 65536. set (d := fun x => x / 65536).
  assert (E : forall k x, 0 <= k -> x = a / 2 ^ (16 * k) -> a / 2 ^ (16 * (k + 1)) = d x).
  { intros k x Hk ->. unfold d. change 65536 with (2 ^ 16). rewrite Z.div_div, <- Z.pow_add_r by lia. do 2 f_equal. lia. }
  assert (E0 : a = a / 2 ^ (16 * 0)) by (change (2 ^ (16 * 0)) with 1; by rewrite Z.div_1_r).
  assert (E1 := E 0 _ ltac:(lia) E0). assert (E2 := E 1 _ ltac:(lia) (eq_sym E1)). assert (E3 := E 2 _ ltac:(lia) (eq_sym E2)).
  assert (E4 := E 3 _ ltac:(lia) (eq_sym E3)). assert (E5 := E 4 _ ltac:(lia) (eq_sym E4)).
  assert (E6 := E 5 _ ltac:(lia) (eq_sym E5)). assert (E7 := E 6 _ ltac:(lia) (eq_sym E6)).
  change (0 + 1) with 1 in *. change (1 + 1) with 2 in *. change (2 + 1) with 3 in *. change (3 + 1) with 4 in *.
  change (4 + 1) with 5 in *. change (5 + 1) with 6 in *. change (6 + 1) with 7 in *.
  assert (H7 : 0 <= a / 2 ^ (16 * 7) < 65536) by (split; [apply Z.div_pos; lia|apply Z.div_lt_upper_bound; lia]).
  rewrite <- E0, E1, E2, E3, E4, E5, E6, E7 in *. clear E E0 E1 E2 E3 E4 E5 E6 E7.
  rewrite (Z.mod_small (d (d (d (d (d (d (d a))))))) 65536) by done. unfold join_groups. cbn [fold_left].
  assert (D : forall x, 65536 * d x + x mod 65536 = x) by (intros x; symmetry; apply Z.div_mod; lia).
  by rewrite Z.mul_0_r, Z.add_0_l, !D.
Qed.

Lemma print_groups_cons n m l : print_groups (n :: m :: l) = print_group n ++ colon :: print_groups (m :: l).
Proof. done. Qed.

Lemma kind_groups n l rest : in_group n -> (l <> [] \/ exists t, rest = colon :: t) ->
  addr_kind (print_groups (n :: l) ++ rest) = Some false.
Proof.
  intros Hn Hr. destruct (group_text n Hn) as (_ & Hh & _ & _). destruct l as [|m l].
  - destruct Hr as [|[t ->]]; [done|]. change (print_groups [n]) with (print_group n). by rewrite addr_kind_skip.
  - rewrite print_groups_cons, <- app_assoc, addr_kind_skip by done. done.
Qed.

Definition no_percent (c : ascii) : bool := negb (Ascii.eqb c "%").

Lemma print_groups_clean l : Forall in_group l -> forallb no_percent (print_groups l) = true.
Proof.
  induction 1 as [|n l Hn Hl IH]; [done|]. destruct (group_text n Hn) as (_ & Hh & _ & _).
  assert (Hp : forallb no_percent (print_group n) = true).
  { rewrite forallb_forall in Hh |- *. intros c Hc. apply Hh in Hc. unfold no_percent. by destruct (Ascii.eqb_spec c "%") as [->|]. }
  destruct l as [|m l]; [done|]. rewrite print_groups_cons, forallb_app, Hp. done.
Qed.

Lemma strip_colons_groups n l rest : in_group n -> strip_prefix [colon; colon] (print_groups (n :: l) ++ rest) = None.
Proof.
  intros Hn. destruct (print_groups_head n l Hn) as (c & t & -> & Hc). cbn [app strip_prefix].
  by destruct (Ascii.eqb_spec colon c) as [<-|].
Qed.

(** The text of eight groups, read back. *)
Lemma parse_string6 a : 0 <= a < 2 ^ 128 -> addr_kind (string6 a) = Some false /\ parseIPv6 (string6 a) = Some (V6 a []).
Proof.
  intros Ha. assert (Hr := groups_range a). assert (Hj := groups_join a Ha). assert (Hl : length (groups_of a) = 8%nat) by done.
  unfold string6, parseIPv6. cbv zeta. generalize dependent (groups_of a). intros gs Hr Hj Hl.
  assert (Hrun := zero_run_ok gs [] gs (0, 0)%nat eq_refl (or_introl eq_refl)). simpl length in Hrun.
  destruct (zero_run 0 gs (0, 0)%nat) as [s e]. fold (print_groups gs). fold (print_groups (take s gs)). fold (print_groups (drop e gs)).
  destruct (Nat.eqb_spec s e) as [->|Hse].
  - destruct gs as [|n gs]; [done|]. inversion Hr as [|? ? Hn Hgs]; subst.
    split. { rewrite <- (app_nil_r (print_groups _)). apply kind_groups; [done|]. left. by destruct gs. }
    rewrite span_whole by by apply (print_groups_clean (n :: gs)). cbn [mbind option_bind].
    rewrite <- (app_nil_r (print_groups (n :: gs))), strip_colons_groups, app_nil_r by done.
    rewrite loop_groups by (done || lia). cbn [app mbind option_bind]. unfold expand. rewrite Hl. done.
  - destruct Hrun as [[= -> ->]|[Hb Hz]]; [done|]. simpl in Hb, Hz. assert (Hrest := run_restored gs s e Hb Hz).
    assert (Hrt : Forall in_group (take s gs)) by by apply Forall_take. assert (Hrd : Forall in_group (drop e gs)) by by apply Forall_drop.
    assert (Hlt : length (take s gs) = s) by (rewrite length_take; lia). assert (Hld : length (drop e gs) = (8 - e)%nat) by (rewrite length_drop; lia).
    assert (Hclean : forallb no_percent (print_groups (take s gs) ++ [colon; colon] ++ print_groups (drop e gs)) = true).
    { rewrite !forallb_app, !print_groups_clean by done. done. }
    rewrite span_whole by exact Hclean.
    assert (Hexp : expand (take s gs ++ drop e gs, Some s) = Some gs).
    { unfold expand. rewrite length_app, Hlt, Hld. destruct (Nat.ltb_spec (s + (8 - e)) 8) as [_|]; [|lia]. cbn [mbind option_bind].
      rewrite take_app_length', drop_app_length' by done. f_equal.
      by replace (8 - (s + (8 - e)))%nat with (e - s)%nat by lia. }
    cbn [mbind option_bind].
    destruct (take s gs) as [|n ts] eqn:Ets.
    + simpl in Hlt. subst s. split; [done|]. change (strip_prefix [colon; colon] (print_groups [] ++ [colon; colon] ++ ?x)) with (Some x).
      simpl app in Hexp. destruct (drop e gs) as [|m ds] eqn:Eds.
      * change (print_groups []) with (@nil ascii). cbv iota. cbn [mbind option_bind]. rewrite Hexp. cbn [mbind option_bind]. by rewrite Hj.
      * inversion Hrd as [|? ? Hm _]; subst. destruct (print_groups_head m ds Hm) as (c & t & E & Hc). rewrite E, <- E.
        rewrite loop_groups by (done || lia). cbn [app mbind option_bind]. rewrite Hexp. cbn [mbind option_bind]. done.
    + inversion Hrt as [|? ? Hn _]; subst. split; [apply kind_groups; [done|right; by eexists]|].
      rewrite strip_colons_groups by done. rewrite loop_ellipsis by (done || lia). cbn [app mbind option_bind].
      change (length (@nil Z) + length (n :: ts))%nat with (length (n :: ts)).
      cbn [app] in Hexp. rewrite Hexp. cbn [mbind option_bind]. done.
Qed.

(** Printing an address that is no IPv4-mapped one, and parsing it, gives it back. *)
Lemma parse_print a : plain_addr a -> Is4In6 a = false -> ParseAddr (addr_String a) = Some a.
Proof.
  intros [Hb Hz] H4. unfold ParseAddr, addr_String. destruct a as [a|a z].
  - rewrite kind_string4, parse_string4 by exact Hb. done.
  - simpl in Hz. subst z. rewrite H4. cbn [bool_decide]. rewrite app_nil_r. destruct (parse_string6 a Hb) as [-> ->]. done.
Qed.

(** ** What is parsed has its width *)

Lemma parse_octet_range t n : parse_octet t = Some n -> 0 <= n < 256.
Proof.
  unfold parse_octet. destruct t as [|c r]; [done|]. destruct (_ && _) eqn:E; [|done]. intros [= <-].
  apply andb_true_iff in E as [[Hd _]%andb_true_iff Hm%Z.leb_le]. split; [|lia].
  unfold digits_value. assert (H : forall l m, 0 <= m -> forallb is_digit l = true -> 0 <= fold_left (fun n c => 10 * n + digit_value c) l m).
  { induction l as [|x l IH]; intros m Hm' Hl; [done|]. simpl in Hl. apply andb_true_iff in Hl as [Hx Hl]. simpl. apply IH; [|done].
    unfold is_digit, char_in in Hx. apply andb_true_iff in Hx as [Hx%Nat.leb_le _]. unfold digit_value.
    change (nat_of_ascii "0") with 48%nat in Hx. lia. }
  by apply H.
Qed.

Lemma parseIPv4_range t a : parseIPv4 t = Some a -> 0 <= a < 2 ^ 32.
Proof.
  unfold parseIPv4. destruct (split_on dot t) as [|x1 [|x2 [|x3 [|x4 [|]]]]]; try done.
  intros (a1 & H1%parse_octet_range & (a2 & H2%parse_octet_range & (a3 & H3%parse_octet_range & (a4 & H4%parse_octet_range & [= <-])%bind_Some)%bind_Some)%bind_Some)%bind_Some.
  lia.
Qed.

Lemma hex_value_range c n : hex_value c = Some n -> 0 <= n < 16.
Proof.
  unfold hex_value, is_digit, char_in, digit_value.
  change (nat_of_ascii "0") with 48%nat. change (nat_of_ascii "9") with 57%nat. change (nat_of_ascii "a") with 97%nat.
  change (nat_of_ascii "f") with 102%nat. change (nat_of_ascii "A") with 65%nat. change (nat_of_ascii "F") with 70%nat.
  destruct (_ && _) eqn:E1; [|destruct ((97 <=? _)%nat && _) eqn:E2; [|destruct ((65 <=? _)%nat && _) eqn:E3; [|done]]]; intros [= <-];
    [apply andb_true_iff in E1 as [?%Nat.leb_le ?%Nat.leb_le]|apply andb_true_iff in E2 as [?%Nat.leb_le ?%Nat.leb_le]
    |apply andb_true_iff in E3 as [?%Nat.leb_le ?%Nat.leb_le]]; lia.
Qed.

Lemma hex_group_range t : Z.of_nat (length t) <= 4 -> in_group (hex_group t).
Proof.
  intros Hl. unfold in_group, hex_group.
  assert (H : forall l m k, 0 <= m < 16 ^ k -> 0 <= k ->
    0 <= fold_left (fun n c => 16 * n + default 0 (hex_value c)) l m < 16 ^ (k + Z.of_nat (length l))).
  { induction l as [|c l IH]; intros m k Hm Hk; [by rewrite Z.add_0_r|].
    cbn [fold_left length]. rewrite Nat2Z.inj_succ, <- Z.add_1_l, Z.add_assoc. apply IH; [|lia].
    rewrite Z.pow_add_r by lia. assert (0 <= default 0 (hex_value c) < 16).
    { destruct (hex_value c) as [n|] eqn:E; simpl; [by eapply hex_value_range|lia]. } lia. }
  specialize (H t 0 0 ltac:(lia) ltac:(lia)). rewrite Z.add_0_l in H. split; [lia|].
  assert (16 ^ Z.of_nat (length t) <= 16 ^ 4) by (apply Z.pow_le_mono_r; lia). lia.
Qed.

Lemma loop_range fuel gs ell s r :
  parse6_loop fuel gs ell s = Some r -> Forall in_group gs -> (length gs + fuel = 8)%nat ->
  (match ell with Some e => (e <= length gs)%nat | None => True end) ->
  Forall in_group r.1 /\ (length r.1 <= 8)%nat /\ match r.2 with Some e => (e <= length r.1)%nat | None => True end.
Proof.
  revert gs ell s. induction fuel as [|fuel IH]; intros gs ell s H Hg Hl He.
  { cbn in H. case_bool_decide; [|done]. injection H as <-. cbn. repeat split; [done|lia|done]. }
  cbn [parse6_loop] in H. destruct (span is_hexdigit s) as [hex rest].
  destruct (bool_decide (hex = []) || _) eqn:Eh; [done|]. apply orb_false_iff in Eh as [_ Hh%Z.ltb_ge].
  assert (Hg' : Forall in_group (gs ++ [hex_group hex])).
  { apply Forall_app. split; [done|]. constructor; [by apply hex_group_range|constructor]. }
  assert (Hl' : length (gs ++ [hex_group hex]) = S (length gs)) by (rewrite length_app; simpl; lia).
  assert (He' : match ell with Some e => (e <= length (gs ++ [hex_group hex]))%nat | None => True end) by (destruct ell; [lia|done]).
  destruct rest as [|c rest]; [injection H as <-; cbn; repeat split; [done|lia|done]|].
  destruct (Ascii.eqb c dot).
  { destruct (_ && _); [done|]. destruct (Z.ltb_spec 6 (Z.of_nat (length gs))) as [|H6]; [done|].
    apply bind_Some in H as (a & Ha%parseIPv4_range & [= <-]). cbn [fst snd]. rewrite length_app. simpl length.
    split; [|split; [lia|destruct ell; [lia|done]]]. apply Forall_app. split; [done|]. repeat constructor; unfold in_group.
    - rewrite Z.shiftr_div_pow2 by lia. apply Z.div_pos; lia.
    - rewrite Z.shiftr_div_pow2 by lia. apply Z.div_lt_upper_bound; lia.
    - rewrite Z.land_ones by lia. apply Z.mod_pos_bound. lia.
    - rewrite Z.land_ones by lia. apply Z.mod_pos_bound. lia. }
  destruct (negb _); [done|]. destruct rest as [|c2 rest2]; [done|]. destruct (Ascii.eqb c2 colon).
  - destruct ell; [done|]. case_bool_decide.
    + injection H as <-. cbn [fst snd]. repeat split; [done|lia|lia].
    + apply IH in H; [done|done|lia|lia].
  - apply IH in H; [done|done|lia|done].
Qed.

Lemma join_groups_range gs : Forall in_group gs -> 0 <= join_groups gs < 65536 ^ Z.of_nat (length gs).
Proof.
  intros Hg. unfold join_groups.
  assert (H : forall m k, 0 <= m < 65536 ^ k -> 0 <= k ->
    0 <= fold_left (fun n g => 65536 * n + g) gs m < 65536 ^ (k + Z.of_nat (length gs))).
  { induction Hg as [|g l Hg _ IH]; intros m k Hm Hk; [by rewrite Z.add_0_r|].
    cbn [fold_left length]. rewrite Nat2Z.inj_succ, <- Z.add_1_l, Z.add_assoc. apply IH; [|lia].
    rewrite Z.pow_add_r by lia. unfold in_group in Hg. lia. }
  apply (H 0 0); lia.
Qed.

Lemma parse_width t a : ParseAddr t = Some a -> 0 <= bits_of a < 2 ^ BitLen a.
Proof.
  unfold ParseAddr. destruct (addr_kind t) as [[|]|]; [| |done].
  { intros (n & H%parseIPv4_range & ->)%fmap_Some. done. }
  unfold parseIPv6. destruct (span _ t) as [s z]. intros (zone & _ & (parsed & Hp & (gs & He & [= <-])%bind_Some)%bind_Some)%bind_Some.
  assert (Hr : Forall in_group parsed.1 /\ (length parsed.1 <= 8)%nat /\ match parsed.2 with Some e => (e <= length parsed.1)%nat | None => True end).
  { destruct (strip_prefix _ s) as [[|c s']|].
    - injection Hp as <-. cbn. split; [apply Forall_nil_2|lia].
    - apply loop_range in Hp; [done|apply Forall_nil_2|done|simpl; lia].
    - apply loop_range in Hp; [done|apply Forall_nil_2|done|done]. }
  destruct Hr as (Hg & Hl & Hell). assert (H8 : Forall in_group gs /\ length gs = 8%nat).
  { destruct parsed as [groups ell]. cbn [fst snd] in *. unfold expand in He. destruct (Nat.ltb_spec (length groups) 8).
    - apply bind_Some in He as (e & -> & [= <-]). split.
      + rewrite !Forall_app. split; [by apply Forall_take|]. split; [|by apply Forall_drop]. apply Forall_replicate. unfold in_group. lia.
      + rewrite !length_app, length_take, length_drop, length_replicate. lia.
    - case_bool_decide; [|done]. injection He as <-. split; [done|lia]. }
  destruct H8 as [H8 Hlen]. apply join_groups_range in H8. rewrite Hlen in H8. exact H8.
Qed.
