(* ===== verification/Middleware.v ===== *)
(** The middlewares every request goes through ([httpx/middleware], [reqctx],
    [httpx/response], [internal/logtext]): the client's address behind trusted proxies,
    request ids, the request context, the access log, recovery from panics, metrics and
    the security headers, and the stack the boilerplate's router makes of them.

    A handler takes a request and a response writer to what it did: the writer, the shared
    user slot, the lines it logged, the samples it counted, and the value it panicked with
    if it did.  The size of an encoded error body, the random bytes of an id and the
    duration of a request are arguments.  A request reaches the stack before anything is
    written. *)

From stdpp Require Import base gmap list strings.
From Stdlib Require Import ZArith Lia Ascii.
From S2P Require Import Prelude GoStrings GoText Netip Access.

Open Scope string_scope.
Open Scope list_scope.
Open Scope Z_scope.

Definition trim_space (t : text) : text := bytes_of (TrimSpace (string_of t)).

(** ** Trusted proxies *)

(** [normalizePrefix]. *)
Definition normalizePrefix (p : prefix) : prefix :=
  Masked (if Is4In6 (pf_addr p) && (96 <=? pf_bits p) then PrefixFrom (Unmap (pf_addr p)) (pf_bits p - 96) else p).

Definition isTrusted (prefixes : list prefix) (a : addr) : bool := existsb (fun p => prefix_Contains p a) prefixes.

Definition parsePeer (remoteAddr : text) : option addr :=
  let host := match SplitHostPort remoteAddr with Some host => host | None => remoteAddr end in
  (fun a => Unmap (WithZone a [])) <$> ParseAddr host.

Definition parseForwardedAddr (t : text) : option addr :=
  let s := trim_space t in
  if bool_decide (s = []) then None
  else (fun a => Unmap (WithZone a [])) <$> match ParseAddr s with Some a => Some a | None => ParseAddrPort s end.

(** The walk over the entries, the last one first; [leftmost] is the last one seen. *)
Fixpoint walk_entries (trusted : addr -> bool) (entries : list text) (leftmost : option addr) : option addr :=
  match entries with
  | [] => leftmost
  | e :: entries =>
      match parseForwardedAddr e with
      | None => None
      | Some a => if negb (trusted a) then Some a else walk_entries trusted entries (Some a)
      end
  end.

Abbreviation http_header := (gmap string (list text)).
Definition header_values (h : http_header) (key : string) : list text := default [] (h !! key).
Definition header_get (h : http_header) (key : string) : text := default [] (head (header_values h key)).

(** The entries of the X-Forwarded-For lines: joined by commas, and split at commas. *)
Definition join_commas (l : list text) : text := join_sep "," l.
Definition forwarded_entries (xff : list text) : list text := split_on "," (join_commas xff).

Definition forwardedClient (h : http_header) (trusted : addr -> bool) : option addr :=
  match header_values h "X-Forwarded-For" with
  | [] =>
      let xrip := header_get h "X-Real-Ip" in
      if bool_decide (xrip = []) then None else parseForwardedAddr xrip
  | xff => walk_entries trusted (rev (forwarded_entries xff)) None
  end.

(** What [RealIP] makes of a request's address. *)
Definition real_ip (trusted : list prefix) (remoteAddr : text) (h : http_header) : text :=
  let prefixes := normalizePrefix <$> List.filter prefix_valid trusted in
  match prefixes with
  | [] => remoteAddr
  | _ =>
      match parsePeer remoteAddr with
      | Some peer =>
          if isTrusted prefixes peer then
            match forwardedClient h (isTrusted prefixes) with
            | Some client => addr_String client
            | None => remoteAddr
            end
          else remoteAddr
      | None => remoteAddr
      end
  end.

(** One item of [ParseTrustedProxies]; [None] is an invalid one. *)
Definition parse_proxy (item : text) : option prefix :=
  normalizePrefix <$>
  if existsb (Ascii.eqb "/") item then ParsePrefix item
  else a ← ParseAddr item; if bool_decide (Zone a = []) then Some (PrefixFrom a (BitLen a)) else None.

Fixpoint parse_proxies (items : list text) : option (list prefix) :=
  match items with
  | [] => Some []
  | item :: items =>
      let item := trim_space item in
      if bool_decide (item = []) then parse_proxies items
      else p ← parse_proxy item; ps ← parse_proxies items; Some (p :: ps)
  end.
Definition ParseTrustedProxies (s : text) : option (list prefix) := parse_proxies (split_on "," s).

(** ** Requests and responses *)

Record RequestInfo := mkRequestInfo { ri_IP : text; ri_UserAgent : text }.

(** The values of a request's context; the user slot is the shared cell. *)
Record rctx := mkRctx {
  cx_requestID : text; cx_chiID : text; cx_clientID : text; cx_info : option RequestInfo; cx_slot : user_slot }.

Record request := mkRequest {
  rq_Method : text; rq_Path : text; rq_RemoteAddr : text; rq_Header : http_header; rq_ctx : rctx }.

Definition with_ctx (c : rctx) (r : request) : request :=
  mkRequest (rq_Method r) (rq_Path r) (rq_RemoteAddr r) (rq_Header r) c.
Definition with_addr (a : text) (r : request) : request :=
  mkRequest (rq_Method r) (rq_Path r) a (rq_Header r) (rq_ctx r).

(** A response writer: the header so far, the status and header sent, the bytes of body. *)
Record writer := mkWriter { w_Header : gmap string text; w_head : option (Z * gmap string text); w_bytes : Z }.
Definition fresh_writer : writer := mkWriter ∅ None 0.
Definition set_header (k : string) (v : text) (w : writer) : writer := mkWriter (<[k := v]> (w_Header w)) (w_head w) (w_bytes w).
Definition write_header (status : Z) (w : writer) : writer :=
  match w_head w with
  | Some _ => w
  | None => mkWriter (w_Header w) (Some (status, w_Header w)) (w_bytes w)
  end.
Definition write_body (n : Z) (w : writer) : writer :=
  let w := write_header 200 w in mkWriter (w_Header w) (w_head w) (w_bytes w + n).
(** [Status] of chi's wrapper. *)
Definition status_of (w : writer) : Z := match w_head w with Some (status, _) => status | None => 0 end.

Inductive log_value := LStr (v : text) | LStrs (l : list text) | LNum (n : Z) | LBool (b : bool).
Record log_line := mkLine { ln_msg : string; ln_attrs : list (string * log_value) }.

(** A panic value: an error with its text, a string, bool or number (with whether its type
    has methods) with its text, or another value; and the name of its type. *)
Inductive panic_kind := PkError (t : text) | PkScalar (methods : bool) (t : text) | PkOther.
Record panic_value := mkPanic { pv_type : text; pv_kind : panic_kind }.

(** A sample of the request metrics: method, route and status, and the size. *)
Record sample := mkSample { sa_method : text; sa_route : text; sa_status : Z; sa_size : Z }.

Record out := mkOut {
  o_w : writer; o_slot : user_slot; o_log : list log_line; o_samples : list sample; o_panic : option panic_value }.
Definition handler : Type := request -> writer -> out.

(** ** Error responses *)

Record ErrorResponse := mkErrorResponse {
  er_Success : bool; er_Message : string; er_Code : string; er_Error : string; er_Field : string; er_RequestID : text }.

Inductive ErrorOption := WithErrorID (id : string) | WithField (name : string).
Definition apply_option (e : ErrorResponse) (o : ErrorOption) : ErrorResponse :=
  match o with
  | WithErrorID id => mkErrorResponse (er_Success e) (er_Message e) (er_Code e) id (er_Field e) (er_RequestID e)
  | WithField name => mkErrorResponse (er_Success e) (er_Message e) (er_Code e) (er_Error e) name (er_RequestID e)
  end.

(** The envelope [ErrorWith] sends. *)
Definition error_response (r : request) (code message : string) (opts : list ErrorOption) : ErrorResponse :=
  fold_left apply_option opts (mkErrorResponse false message code "" "" (cx_chiID (rq_ctx r))).

Section Handlers.
Context (json_size : ErrorResponse -> Z).

Definition ErrorWith (r : request) (status : Z) (code message : string) (opts : list ErrorOption) (w : writer) : writer :=
  let w := set_header "Content-Type" (bytes_of "application/json") w in
  write_body (json_size (error_response r code message opts)) (write_header status w).

(** [RateLimitJSON]. *)
Definition RateLimitJSON (r : request) (w : writer) : writer :=
  ErrorWith r 429 "RATE_LIMITED" "You have exceeded the request rate limit. Please try again later." [] w.

(** ** Request ids *)

Definition RequestIDHeader : string := "X-Request-Id".
Definition maxClientRequestIDLen : Z := 128.

(** [hex.EncodeToString]. *)
Definition hex_encode (b : list Z) : text := concat ((fun n => [hex_char (n / 16); hex_char (n mod 16)]) <$> b).

Definition visible (c : ascii) : bool := char_in "!" "~" c.

(** The loop of [sanitizeClientRequestID], with the bytes kept so far. *)
Fixpoint sanitize_loop (s out : text) : text :=
  match s with
  | [] => out
  | c :: s =>
      if Z.of_nat (length out) <? maxClientRequestIDLen
      then sanitize_loop s (if visible c then out ++ [c] else out)
      else out
  end.
Definition sanitizeClientRequestID (s : text) : text := sanitize_loop s [].

(** [RequestID]; [b] are the sixteen bytes crypto/rand gives. *)
Definition RequestID (b : list Z) (next : handler) : handler := fun r w =>
  let id := hex_encode b in
  let c := rq_ctx r in
  let client := sanitizeClientRequestID (header_get (rq_Header r) RequestIDHeader) in
  let ctx := mkRctx id id (if bool_decide (client = []) then cx_clientID c else client) (cx_info c) (cx_slot c) in
  next (with_ctx ctx r) (set_header RequestIDHeader id w).

(** [RealIP]. *)
Definition RealIP (trusted : list prefix) (next : handler) : handler := fun r w =>
  next (with_addr (real_ip trusted (rq_RemoteAddr r) (rq_Header r)) r) w.

(** [RequestContext]. *)
Definition RequestContext (next : handler) : handler := fun r w =>
  let c := rq_ctx r in
  let id := if bool_decide (cx_requestID c = []) then cx_chiID c else cx_requestID c in
  let ip := match SplitHostPort (rq_RemoteAddr r) with
            | Some (_ :: _ as ip) => ip
            | _ => rq_RemoteAddr r
            end in
  let info := mkRequestInfo ip (header_get (rq_Header r) "User-Agent") in
  next (with_ctx (mkRctx id (cx_chiID c) (cx_clientID c) (Some info) (WithUserSlot (cx_slot c))) r) w.

(** ** The access log *)

Inductive RemoteAddrMode := RemoteAddrFull | RemoteAddrTruncated | RemoteAddrOmitted | RemoteAddrUnknown.
Definition truncatedIPv4Bits : Z := 24.
Definition truncatedIPv6Bits : Z := 48.
Record loggerConfig := mkLoggerConfig { lc_remoteAddr : RemoteAddrMode; lc_userAgent : bool }.
Inductive LoggerOption := WithRemoteAddr (mode : RemoteAddrMode) | WithoutUserAgent.
Definition apply_logger_option (c : loggerConfig) (o : LoggerOption) : loggerConfig :=
  match o with
  | WithRemoteAddr mode => mkLoggerConfig mode (lc_userAgent c)
  | WithoutUserAgent => mkLoggerConfig (lc_remoteAddr c) false
  end.
Definition logger_config (opts : list LoggerOption) : loggerConfig :=
  fold_left apply_logger_option opts (mkLoggerConfig RemoteAddrFull true).

(** [truncateAddr]. *)
Definition truncateAddr (raw : text) : option text :=
  a ← (match ParseAddrPort raw with Some a => Some a | None => ParseAddr raw end);
  let a := WithZone (Unmap a) [] in
  let bits := if Is4 a then truncatedIPv4Bits else truncatedIPv6Bits in
  Some (addr_String (pf_addr (Masked (PrefixFrom a bits)))).

Definition remoteAddrValue (c : loggerConfig) (raw : text) : option text :=
  match lc_remoteAddr c with
  | RemoteAddrFull => Some raw
  | RemoteAddrTruncated => truncateAddr raw
  | RemoteAddrOmitted | RemoteAddrUnknown => None
  end.

Definition when {A} (b : bool) (x : A) : list A := if b then [x] else [].

(** The line [StructuredLogger] logs once the request is served. *)
Definition access_line (c : loggerConfig) (r : request) (w : writer) (slot : user_slot) (duration : Z) : log_line :=
  mkLine "http request"
    ([("method", LStr (rq_Method r)); ("path", LStr (rq_Path r)); ("status", LNum (status_of w)); ("bytes", LNum (w_bytes w));
      ("duration_ms", LNum duration)]
     ++ (match remoteAddrValue c (rq_RemoteAddr r) with Some a => [("remote_addr", LStr a)] | None => [] end)
     ++ when (lc_userAgent c) ("user_agent", LStr (header_get (rq_Header r) "User-Agent"))
     ++ [("request_id", LStr (cx_requestID (rq_ctx r)))]
     ++ when (negb (bool_decide (cx_clientID (rq_ctx r) = []))) ("client_request_id", LStr (cx_clientID (rq_ctx r)))
     ++ when (negb (bool_decide (UserIDFromContext slot = ""))) ("user_id", LStr (bytes_of (UserIDFromContext slot)))).

(** [StructuredLogger]: the line is logged whether the handler returns or panics. *)
Definition StructuredLogger (opts : list LoggerOption) (duration : Z) (next : handler) : handler := fun r w =>
  let o := next r w in
  let line := access_line (logger_config opts) r (o_w o) (o_slot o) duration in
  mkOut (o_w o) (o_slot o) (o_log o ++ [line]) (o_samples o) (o_panic o).

(** ** Panics *)

Definition maxLoggedPanicBytes : Z := 1024.

(** [utf8.RuneStart]. *)
Definition rune_start (c : ascii) : bool := negb (char_in (ascii_of_nat 128) (ascii_of_nat 191) c).

(** [logtext.Truncate]: at most three bytes back from the limit. *)
Fixpoint back_off (back : nat) (s : text) (n : nat) : nat :=
  match back, n with
  | S back, S n' => if (match s !! n with Some c => rune_start c | None => true end) then n else back_off back s n'
  | _, _ => n
  end.
Definition Truncate (s : text) (n : nat) : text * bool :=
  if (length s <=? n)%nat then (s, false) else (take (back_off 3 s n) s, true).

Definition panicText (v : panic_value) : option text :=
  match pv_kind v with
  | PkError t => Some t
  | PkScalar methods t => if methods then None else Some t
  | PkOther => None
  end.

(** The line [Recovery] logs; the stack is left out. *)
Definition panic_line (r : request) (v : panic_value) : log_line :=
  mkLine "panic recovered"
    ([("panic_type", LStr (pv_type v))]
     ++ (match panicText v with
         | Some t => let '(value, truncated) := Truncate t (Z.to_nat maxLoggedPanicBytes) in
                     [("error", LStr value)] ++ when truncated ("error_truncated", LBool true)
         | None => []
         end)
     ++ [("path", LStr (rq_Path r)); ("method", LStr (rq_Method r))]).

(** [Recovery]. *)
Definition Recovery (next : handler) : handler := fun r w =>
  let o := next r w in
  match o_panic o with
  | None => o
  | Some v =>
      mkOut (ErrorWith r 500 "INTERNAL_ERROR" "Internal server error" [] (o_w o)) (o_slot o) (o_log o ++ [panic_line r v])
        (o_samples o) None
  end.

(** ** Metrics *)

(** [routePatternOf]; [None] outside a router. *)
Definition routePatternOf (pattern : option text) : text :=
  match pattern with
  | Some (_ :: _ as p) => p
  | _ => bytes_of "unknown"
  end.

(** [Metrics.Middleware]: counted also when the handler panics, as a 500, and the panic
    goes on. *)
Definition Metrics (pattern : option text) (next : handler) : handler := fun r w =>
  let o := next r w in
  let code := match o_panic o with Some _ => 500 | None => status_of (o_w o) end in
  mkOut (o_w o) (o_slot o) (o_log o) (o_samples o ++ [mkSample (rq_Method r) (routePatternOf pattern) code (w_bytes (o_w o))])
    (o_panic o).

(** [validateBuckets], of bounds in thousandths. *)
Fixpoint increasing (l : list Z) : bool :=
  match l with
  | a :: (b :: _) as l' => (a <? b) && increasing l'
  | _ => true
  end.
Definition validateBuckets (buckets : list Z) : bool := negb (bool_decide (buckets = [])) && increasing buckets.
Definition DefaultDurationBuckets : list Z := [5; 10; 25; 50; 100; 250; 500; 1000; 2500; 5000; 10000].

(** ** Security headers *)

Definition security_headers : list (string * string) :=
  [("X-Content-Type-Options", "nosniff"); ("X-Frame-Options", "DENY"); ("X-Xss-Protection", "0");
   ("Referrer-Policy", "strict-origin-when-cross-origin"); ("Content-Security-Policy", "default-src 'none'");
   ("Strict-Transport-Security", "max-age=63072000; includeSubDomains");
   ("Permissions-Policy", "camera=(), microphone=(), geolocation=()");
   ("Cross-Origin-Opener-Policy", "same-origin"); ("Cross-Origin-Resource-Policy", "same-origin");
   ("Cache-Control", "private, no-store"); ("Pragma", "no-cache")].

Definition SecurityHeaders (next : handler) : handler := fun r w =>
  next r (fold_left (fun w kv => set_header kv.1 (bytes_of kv.2) w) security_headers w).

(** ** The stack *)

(** What differs from one request to the next: the random bytes of its id, its duration and
    the route it matches. *)
Definition stack (trusted : list prefix) (opts : list LoggerOption) (b : list Z) (duration : Z) (pattern : option text)
    (next : handler) : handler :=
  SecurityHeaders (RequestID b (RealIP trusted (RequestContext (StructuredLogger opts duration (Recovery (Metrics pattern next)))))).

End Handlers.
