(* ===== verification/MiddlewareTheorems.v ===== *)
(** Properties of the middlewares: whose word is taken for a client's address, what the
    stack makes of a request, and what reaches the log. *)

From stdpp Require Import base gmap list strings.
From Stdlib Require Import ZArith Lia Ascii.
From S2P Require Import Prelude GoStrings GoText Netip NetipFacts Access Middleware.

Open Scope string_scope.
Open Scope list_scope.
Open Scope Z_scope.

(** ** The client's address *)

(** An entry the walk does not go past: it is no address, or not a trusted one. *)
Definition stops (trusted : addr -> bool) (e : text) : Prop :=
  match parseForwardedAddr e with None => True | Some a => trusted a = false end.

Lemma walk_stops trusted l e m m' left_ :
  stops trusted e -> walk_entries trusted (l ++ e :: m) left_ = walk_entries trusted (l ++ e :: m') left_.
Proof.
  intros Hs. revert left_. induction l as [|x l IH]; intros left_; simpl.
  - unfold stops in Hs. destruct (parseForwardedAddr e) as [a|]; [|done]. by rewrite Hs.
  - destruct (parseForwardedAddr x) as [a|]; [|done]. destruct (trusted a); [apply IH|done].
Qed.

(** Where the client found by the walk comes from. *)
Lemma walk_from trusted l left_ a :
  walk_entries trusted l left_ = Some a -> left_ = Some a \/ exists e, e ∈ l /\ parseForwardedAddr e = Some a.
Proof.
  revert left_. induction l as [|x l IH]; intros left_; simpl; [by left|].
  destruct (parseForwardedAddr x) as [b|] eqn:E; [|done]. destruct (trusted b).
  - intros [[= <-]|(e & He & H)]%IH; right; [exists x; split; [apply list_elem_of_here|done]|].
    exists e. split; [by apply list_elem_of_further|done].
  - intros [= <-]. right. exists x. split; [apply list_elem_of_here|done].
Qed.

Lemma unmap_plain a : 0 <= bits_of a < 2 ^ BitLen a -> plain_addr (Unmap (WithZone a [])) /\ Is4In6 (Unmap (WithZone a [])) = false.
Proof.
  intros H. unfold Unmap, plain_addr. destruct a as [n|n z]; cbn [WithZone].
  - done.
  - destruct (Is4In6 (V6 n [])) eqn:E; [|done]. cbn [bits_of BitLen Zone Is4In6]. split; [|done]. split; [|done].
    rewrite Z.land_ones by lia. apply Z.mod_pos_bound. lia.
Qed.

Lemma ParseAddrPort_width t a : ParseAddrPort t = Some a -> 0 <= bits_of a < 2 ^ BitLen a.
Proof.
  unfold ParseAddrPort. intros ([ip port] & _ & H)%bind_Some. destruct (_ || _); [done|].
  apply bind_Some in H as ([v6 ip'] & _ & H). destruct (negb _); [done|].
  apply bind_Some in H as (b & Hb%parse_width & H). destruct (Bool.eqb _ _); [|done]. by injection H as <-.
Qed.

Lemma forwarded_plain e a : parseForwardedAddr e = Some a -> plain_addr a /\ Is4In6 a = false.
Proof.
  unfold parseForwardedAddr. destruct (bool_decide _); [done|]. intros (b & Hb & ->)%fmap_Some. apply unmap_plain.
  destruct (ParseAddr (trim_space e)) as [c|] eqn:E; [injection Hb as <-; by eapply parse_width|by eapply ParseAddrPort_width].
Qed.

(** *** An address alone is no host and port *)

Definition occurrences (c : ascii) (t : text) : nat := length (List.filter (Ascii.eqb c) t).

Lemma occurrences_app c a b : occurrences c (a ++ b) = (occurrences c a + occurrences c b)%nat.
Proof. unfold occurrences. by rewrite List.filter_app, length_app. Qed.

Lemma occurrences_none c t : has c t = false -> occurrences c t = O.
Proof.
  unfold has, occurrences. induction t as [|x t IH]; simpl; [done|]. intros [H1 H2]%orb_false_iff. rewrite H1. by apply IH.
Qed.

Lemma cut_last_Some c t b a : cut_last c t = Some (b, a) -> t = b ++ c :: a /\ has c a = false.
Proof.
  unfold cut_last. assert (H := span_spec (fun x => negb (Ascii.eqb x c)) (rev t)).
  assert (Hh : match (span (fun x => negb (Ascii.eqb x c)) (rev t)).2 with [] => True | x :: _ => x = c end).
  { generalize (rev t). clear. intros t. induction t as [|x t IH]; simpl; [done|].
    destruct (Ascii.eqb_spec x c) as [->|]; simpl; [done|]. by destruct (span _ t). }
  destruct (span _ (rev t)) as [after before]. destruct H as [E Hf]. destruct before as [|x before]; [done|].
  intros [= <- <-]. cbn in Hh. subst x. split.
  - rewrite <- (rev_involutive t), E, rev_app_distr. simpl. by rewrite <- app_assoc.
  - unfold has. apply not_true_iff_false. intros (y & Hy & ->%Ascii.eqb_eq)%existsb_exists.
    rewrite forallb_forall in Hf. apply in_rev in Hy. apply Hf in Hy. by rewrite Ascii.eqb_refl in Hy.
Qed.

(** With two colons and no bracket in front, there is no host and port to split. *)
Lemma SplitHostPort_many t c r : t = c :: r -> c <> "["%char -> (2 <= occurrences colon t)%nat -> SplitHostPort t = None.
Proof.
  intros -> Hc Ho. unfold SplitHostPort. destruct (cut_last colon (c :: r)) as [[b a]|] eqn:E; [|done]. cbn [mbind option_bind].
  rewrite (proj2 (Ascii.eqb_neq c "[") Hc). destruct (has colon b) eqn:Eb; [done|]. exfalso.
  apply cut_last_Some in E as [E Ha]. rewrite E, occurrences_app in Ho. change (colon :: a) with ([colon] ++ a) in Ho.
  rewrite occurrences_app, (occurrences_none _ _ Eb), (occurrences_none _ _ Ha) in Ho. cbn in Ho. lia.
Qed.

Lemma SplitHostPort_none t : has colon t = false -> SplitHostPort t = None.
Proof.
  intros H. unfold SplitHostPort. destruct (cut_last colon t) as [[b a]|] eqn:E; [|done].
  apply cut_last_Some in E as [-> _]. unfold has in H. rewrite existsb_app in H. simpl in H. by rewrite orb_true_r in H.
Qed.

Lemma has_no c t : c ∉ t -> has c t = false.
Proof. intros H. unfold has. apply not_true_iff_false. intros (y & Hy & <-%Ascii.eqb_eq)%existsb_exists. by apply list_elem_of_In in Hy. Qed.

Lemma string4_no_colon a : 0 <= a < 2 ^ 32 -> has colon (string4 a) = false.
Proof.
  intros Ha. apply has_no. assert (Hr := octets_range a Ha). unfold string4. induction Hr as [|n l Hn Hl IH]; [apply not_elem_of_nil|].
  apply octet_text in Hn as (_ & Hd & _). assert (Hc : colon ∉ print_octet n) by by eapply forallb_no_char.
  cbn [fmap list_fmap] in *. destruct l as [|m l]; [done|].
  change (join_sep dot (print_octet n :: (print_octet <$> m :: l))) with (print_octet n ++ dot :: join_sep dot (print_octet <$> m :: l)).
  rewrite elem_of_app, elem_of_cons. intros [?|[?|?]]; done.
Qed.

Lemma print_groups_colons l : Forall in_group l -> occurrences colon (print_groups l) = (length l - 1)%nat.
Proof.
  induction 1 as [|n l Hn Hl IH]; [done|]. destruct (group_text n Hn) as (_ & Hh & _ & _).
  assert (Hc : occurrences colon (print_group n) = O) by by apply occurrences_none, has_no; eapply forallb_no_char.
  destruct l as [|m l]; [done|]. rewrite print_groups_cons, occurrences_app, Hc.
  change (colon :: ?x) with ([colon] ++ x). rewrite occurrences_app, IH. simpl. lia.
Qed.

Lemma string6_colons a : (2 <= occurrences colon (string6 a))%nat.
Proof.
  unfold string6. assert (Hr := groups_range a). assert (Hl : length (groups_of a) = 8%nat) by done. cbv zeta.
  destruct (zero_run 0 (groups_of a) (0, 0)%nat) as [s e]. destruct (s =? e)%nat.
  - change (join_sep colon ?x) with (print_groups (groups_of a)). rewrite print_groups_colons, Hl by done. lia.
  - rewrite !occurrences_app. change (occurrences colon [colon; colon]) with 2%nat. lia.
Qed.

Lemma string6_head a : exists c r, string6 a = c :: r /\ c <> "["%char.
Proof.
  assert (H := string6_colons a). assert (Hr := groups_range a). unfold string6 in *. cbv zeta in *.
  destruct (zero_run 0 (groups_of a) (0, 0)%nat) as [s e].
  assert (Hg : forall l rest, Forall in_group l -> l <> [] -> exists c r, print_groups l ++ rest = c :: r /\ c <> "["%char).
  { intros [|n l] rest Hl Hne; [done|]. inversion Hl as [|? ? Hn _]; subst. destruct (print_groups_head n l Hn) as (c & t & -> & Hc).
    exists c, (t ++ rest). split; [done|]. by intros ->. }
  destruct (s =? e)%nat.
  - destruct (Hg (groups_of a) [] Hr) as (c & r & E & Hc); [done|]. rewrite app_nil_r in E. eauto.
  - destruct (take s (groups_of a)) as [|n l] eqn:Et; [eexists _, _; split; [reflexivity|done]|].
    apply Hg; [rewrite <- Et; by apply Forall_take|done].
Qed.

(** The rewritten address is read back as the client. *)
Lemma parsePeer_String a : plain_addr a -> Is4In6 a = false -> parsePeer (addr_String a) = Some a.
Proof.
  intros Hp H4. unfold parsePeer. assert (Hs : SplitHostPort (addr_String a) = None).
  { destruct a as [n|n z]; cbn [addr_String].
    - apply SplitHostPort_none, string4_no_colon, Hp.
    - destruct Hp as [_ Hz]. cbn in Hz. subst z. rewrite H4. cbn [bool_decide]. rewrite bool_decide_eq_true_2, app_nil_r by done.
      destruct (string6_head n) as (c & r & E & Hc). eapply SplitHostPort_many; [exact E|done|apply string6_colons]. }
  rewrite Hs, (parse_print a Hp H4). cbn [fmap option_fmap option_map]. f_equal. destruct Hp as [_ Hz].
  destruct a as [n|n z]; [done|]. cbn in Hz. subst z. cbn [WithZone]. unfold Unmap. by rewrite H4.
Qed.

(** The prefixes [RealIP] compares with. *)
Definition trusted_prefixes (trusted : list prefix) : list prefix := normalizePrefix <$> List.filter prefix_valid trusted.

(** Whether the peer of a request is one of the trusted proxies. *)
Definition peer_trusted (trusted : list prefix) (remoteAddr : text) : bool :=
  match parsePeer remoteAddr with Some peer => isTrusted (trusted_prefixes trusted) peer | None => false end.

Lemma real_ip_eq trusted remoteAddr h :
  real_ip trusted remoteAddr h =
  if peer_trusted trusted remoteAddr then
    match forwardedClient h (isTrusted (trusted_prefixes trusted)) with
    | Some client => addr_String client
    | None => remoteAddr
    end
  else remoteAddr.
Proof.
  unfold real_ip, peer_trusted. cbv zeta. fold (trusted_prefixes trusted). destruct (trusted_prefixes trusted) as [|p ps].
  - by destruct (parsePeer remoteAddr).
  - by destruct (parsePeer remoteAddr) as [peer|].
Qed.

Definition entries_of (h : http_header) : list text := forwarded_entries (header_values h "X-Forwarded-For").

Lemma forwardedClient_stops h h' trusted pre pre' e right_ :
  header_values h "X-Forwarded-For" <> [] -> header_values h' "X-Forwarded-For" <> [] ->
  entries_of h = pre ++ e :: right_ -> entries_of h' = pre' ++ e :: right_ -> stops trusted e ->
  forwardedClient h trusted = forwardedClient h' trusted.
Proof.
  unfold forwardedClient, entries_of. intros Hn Hn' He He' Hs.
  destruct (header_values h _) as [|x xs]; [done|]. destruct (header_values h' _) as [|y ys]; [done|].
  rewrite He, He', !rev_app_distr. simpl. rewrite <- !app_assoc. by apply walk_stops.
Qed.

Lemma forwardedClient_plain h trusted a : forwardedClient h trusted = Some a -> plain_addr a /\ Is4In6 a = false.
Proof.
  unfold forwardedClient. destruct (header_values h _) as [|x xs].
  - destruct (bool_decide _); [done|]. apply forwarded_plain.
  - intros [?|(e & _ & He)]%walk_from; [done|]. by eapply forwarded_plain.
Qed.

(** C26: no one but the trusted proxies can say who the client is. A request whose peer is
    not in a trusted prefix (or is no address) keeps its address whatever its headers say;
    behind a trusted peer, what stands in X-Forwarded-For to the left of an entry that is
    not a trusted address has no influence on the outcome, whether that entry is the
    client or no address at all; and where the address is rewritten, its text is read back
    as exactly the address found. *)
Theorem real_ip_unforgeable trusted remoteAddr h :
  (peer_trusted trusted remoteAddr = false -> real_ip trusted remoteAddr h = remoteAddr)
  /\ (forall h' pre pre' e right_,
      header_values h "X-Forwarded-For" <> [] -> header_values h' "X-Forwarded-For" <> [] ->
      entries_of h = pre ++ e :: right_ -> entries_of h' = pre' ++ e :: right_ ->
      stops (isTrusted (trusted_prefixes trusted)) e -> real_ip trusted remoteAddr h = real_ip trusted remoteAddr h')
  /\ (real_ip trusted remoteAddr h = remoteAddr \/
      exists client, forwardedClient h (isTrusted (trusted_prefixes trusted)) = Some client
        /\ parsePeer (real_ip trusted remoteAddr h) = Some client).
Proof.
  rewrite real_ip_eq. split_and!.
  - by intros ->.
  - intros h' pre pre' e right_ Hn Hn' He He' Hs. rewrite real_ip_eq. by rewrite (forwardedClient_stops h h' _ pre pre' e right_).
  - destruct (peer_trusted trusted remoteAddr); [|by left]. destruct (forwardedClient h _) as [a|] eqn:E; [|by left].
    right. exists a. split; [done|]. apply forwardedClient_plain in E as [? ?]. by apply parsePeer_String.
Qed.

(** A proxy at 10.0.0.1, a client at 203.0.113.7 that forges an entry. *)
Definition proxy : prefix := mkPrefix (V4 167772160) 8.
Definition forged (xff : string) : http_header := {["X-Forwarded-For" := [bytes_of xff]]}.

Lemma real_ip_unforgeable_witness :
  real_ip [proxy] (bytes_of "203.0.113.7:4711") (forged "10.9.9.9") = bytes_of "203.0.113.7:4711"
  /\ real_ip [proxy] (bytes_of "10.0.0.1:80") (forged "8.8.8.8, 203.0.113.7, 10.0.0.2")
     = real_ip [proxy] (bytes_of "10.0.0.1:80") (forged "garbage,, 203.0.113.7, 10.0.0.2")
  /\ real_ip [proxy] (bytes_of "10.0.0.1:80") (forged "203.0.113.7, 10.0.0.2") = bytes_of "203.0.113.7".
Proof.
  split_and!.
  - apply (real_ip_unforgeable [proxy] _ (forged "10.9.9.9")). vm_compute. reflexivity.
  - destruct (real_ip_unforgeable [proxy] (bytes_of "10.0.0.1:80") (forged "8.8.8.8, 203.0.113.7, 10.0.0.2")) as (_ & H & _).
    apply (H _ [bytes_of "8.8.8.8"] [bytes_of "garbage"; []] (bytes_of " 203.0.113.7") [bytes_of " 10.0.0.2"]); try done.
  - vm_compute. reflexivity.
Defined.

(** *** Prefixes *)

Lemma clear_low_shiftr n low : 0 <= low -> Z.shiftr (clear_low n low) low = Z.shiftr n low.
Proof. intros H. unfold clear_low. rewrite Z.shiftr_shiftl_l by lia. by rewrite Z.sub_diag, Z.shiftl_0_r. Qed.

Lemma shiftr_lxor_0 a b k : (Z.shiftr (Z.lxor a b) k =? 0) = (Z.shiftr a k =? Z.shiftr b k).
Proof.
  rewrite Z.shiftr_lxor. apply eq_bool_prop_intro. rewrite !Is_true_true, !Z.eqb_eq. apply Z.lxor_eq_0_iff.
Qed.

(** An address is in a prefix exactly when they are of one family and agree on its first bits. *)
Lemma prefix_Contains_bits p a :
  prefix_Contains p a = true <->
  0 <= pf_bits p /\ Zone a = [] /\ BitLen (pf_addr p) = BitLen a
  /\ Z.shiftr (bits_of a) (BitLen a - pf_bits p) = Z.shiftr (bits_of (pf_addr p)) (BitLen a - pf_bits p).
Proof.
  unfold prefix_Contains, prefix_valid. rewrite shiftr_lxor_0, !andb_true_iff, Z.leb_le, bool_decide_eq_true, !Z.eqb_eq. tauto.
Qed.

Lemma masked_contains p a : pf_bits p <= BitLen (pf_addr p) -> prefix_Contains (Masked p) a = prefix_Contains p a.
Proof.
  intros Hb. apply eq_bool_prop_intro. rewrite !Is_true_true, !prefix_Contains_bits. unfold Masked. cbn [pf_bits pf_addr].
  destruct (pf_addr p) as [n|n z], a as [m|m z']; cbn [BitLen bits_of Zone] in *;
    first [rewrite clear_low_shiftr by lia; done | split; intros (_ & _ & ? & _); lia].
Qed.

(** [::ffff:x]. *)
Definition mapped (x : Z) : addr := V6 (Z.lor (Z.shiftl 65535 32) x) [].

Lemma mapped_bits n : 0 <= n -> Z.shiftr n 32 = 65535 -> n = Z.lor (Z.shiftl 65535 32) (Z.land n (Z.ones 32)).
Proof.
  intros Hn H. apply Z.bits_inj'. intros i Hi. rewrite Z.lor_spec, Z.land_spec, Z.testbit_ones_nonneg by lia.
  destruct (Z.ltb_spec i 32).
  - rewrite Z.shiftl_spec_low by lia. by rewrite andb_true_r.
  - rewrite andb_false_r, orb_false_r, <- H, Z.shiftl_spec, Z.shiftr_spec by lia. f_equal. lia.
Qed.

Lemma mapped_shiftr x k : 0 <= k -> Z.shiftr (Z.lor (Z.shiftl 65535 32) x) k = Z.lor (Z.shiftr (Z.shiftl 65535 32) k) (Z.shiftr x k).
Proof. intros H. apply Z.shiftr_lor. Qed.

(** An address below 2^32 and the high bits of a mapped one do not meet. *)
Lemma mapped_inj x y k : 0 <= k <= 32 -> 0 <= x < 2 ^ 32 -> 0 <= y < 2 ^ 32 ->
  Z.shiftr (Z.lor (Z.shiftl 65535 32) x) k = Z.shiftr (Z.lor (Z.shiftl 65535 32) y) k <-> Z.shiftr x k = Z.shiftr y k.
Proof.
  intros Hk Hx Hy. rewrite !mapped_shiftr by lia. split; [|congruence]. intros E. apply Z.bits_inj'. intros i Hi.
  assert (Ei := f_equal (fun n => Z.testbit n i) E). cbn beta in Ei. rewrite !Z.lor_spec, !Z.shiftr_spec in Ei by lia. rewrite !Z.shiftr_spec by lia.
  destruct (Z.ltb_spec (i + k) 32).
  - by rewrite Z.shiftl_spec_low in Ei by lia.
  - assert (Hhigh : forall z, 0 <= z < 2 ^ 32 -> Z.testbit z (i + k) = false).
    { intros z Hz. destruct (Z.eq_dec z 0) as [->|]; [apply Z.testbit_0_l|]. apply Z.bits_above_log2; [lia|].
      apply Z.log2_lt_pow2; [lia|]. assert (2 ^ 32 <= 2 ^ (i + k)) by (apply Z.pow_le_mono_r; lia). lia. }
    by rewrite !Hhigh.
Qed.

(** normalizing a trusted prefix does not change whom it trusts. A valid prefix and its
    normal form contain the same addresses when it is no IPv4-mapped one; an IPv4-mapped
    prefix of at least 96 bits contains the mapped form of an IPv4 address exactly when
    its normal form contains that address, which is how addresses are compared. *)
Theorem normalize_keeps_trust p x a :
  plain_addr (pf_addr p) -> 0 <= pf_bits p <= BitLen (pf_addr p) -> 0 <= x < 2 ^ 32 ->
  (Is4In6 (pf_addr p) && (96 <=? pf_bits p) = false -> prefix_Contains (normalizePrefix p) a = prefix_Contains p a)
  /\ (Is4In6 (pf_addr p) = true -> 96 <= pf_bits p ->
      prefix_Contains (normalizePrefix p) (V4 x) = prefix_Contains p (mapped x)).
Proof.
  intros [Hw Hz] Hb Hx. unfold normalizePrefix. split.
  - intros ->. apply masked_contains; lia.
  - intros H4 H96. rewrite H4, (proj2 (Z.leb_le _ _) H96). cbn [andb].
    destruct p as [[n|n z] b]; cbn [pf_addr pf_bits] in *; [done|]. cbn in Hz. subst z. unfold Unmap. rewrite H4.
    cbn in H4. apply Z.eqb_eq in H4. cbn [bits_of BitLen] in *.
    unfold PrefixFrom. cbn [WithZone BitLen]. rewrite (proj2 (Z.leb_le 0 (b - 96))) by lia. rewrite (proj2 (Z.leb_le (b - 96) 32)) by lia. cbn [andb].
    rewrite masked_contains by (cbn; lia). apply eq_bool_prop_intro. rewrite !Is_true_true, !prefix_Contains_bits.
    cbn [pf_addr pf_bits Zone BitLen bits_of mapped]. rewrite (mapped_bits n) at 2 by (lia || done).
    replace (32 - (b - 96)) with (128 - b) by lia.
    assert (Hl : 0 <= Z.land n (Z.ones 32) < 2 ^ 32) by (rewrite Z.land_ones by lia; apply Z.mod_pos_bound; lia).
    rewrite (mapped_inj x (Z.land n (Z.ones 32)) (128 - b)) by lia. split; intros (? & ? & ? & ?); (split_and!; [lia|done..]).
Qed.

Lemma normalize_keeps_trust_witness :
  let p := mkPrefix (mapped 167772160) 104 in
  prefix_Contains (normalizePrefix p) (V4 167772161) = prefix_Contains p (mapped 167772161).
Proof.
  apply (normalize_keeps_trust (mkPrefix (mapped 167772160) 104) 167772161 (V4 0)); [split; [|done]|..]; vm_compute; try done; by split.
Defined.

(** ** Ids *)

Lemma sanitize_loop_eq s out :
  (length out <= 128)%nat -> sanitize_loop s out = take 128 (out ++ List.filter visible s).
Proof.
  revert out. induction s as [|c s IH]; intros out Hl; cbn [sanitize_loop List.filter].
  { rewrite app_nil_r. by rewrite take_ge. }
  change maxClientRequestIDLen with (Z.of_nat 128). destruct (Z.ltb_spec (Z.of_nat (length out)) (Z.of_nat 128)).
  - rewrite IH by (destruct (visible c); rewrite ?length_app; simpl; lia). destruct (visible c); [|done]. by rewrite <- app_assoc.
  - rewrite take_app_le by lia. by rewrite take_ge by lia.
Qed.

(** The loop keeps the first visible bytes. *)
Lemma sanitize_eq s : sanitizeClientRequestID s = take 128 (List.filter visible s).
Proof. apply (sanitize_loop_eq s []). simpl. lia. Qed.

Lemma hex_encode_length b : length (hex_encode b) = (2 * length b)%nat.
Proof. unfold hex_encode. induction b as [|n b IH]; [done|]. cbn [fmap list_fmap concat]. rewrite length_app, IH. simpl. lia. Qed.

(** ** The stack *)

(** The request a handler behind the stack is given. *)
Definition seen (trusted : list prefix) (b : list Z) (r : request) : request :=
  let id := hex_encode b in
  let remote := real_ip trusted (rq_RemoteAddr r) (rq_Header r) in
  let client := sanitizeClientRequestID (header_get (rq_Header r) RequestIDHeader) in
  let info := mkRequestInfo (match SplitHostPort remote with Some (_ :: _ as ip) => ip | _ => remote end)
                (header_get (rq_Header r) "User-Agent") in
  mkRequest (rq_Method r) (rq_Path r) remote (rq_Header r)
    (mkRctx id id (if bool_decide (client = []) then cx_clientID (rq_ctx r) else client)
       (Some info) (WithUserSlot (cx_slot (rq_ctx r)))).

(** The writer it is given. *)
Definition opened (b : list Z) : writer :=
  set_header RequestIDHeader (hex_encode b)
    (fold_left (fun w kv => set_header kv.1 (bytes_of kv.2) w) security_headers fresh_writer).

Lemma stack_eq json_size trusted opts b duration pattern next r :
  stack json_size trusted opts b duration pattern next r fresh_writer
  = StructuredLogger opts duration (Recovery json_size (Metrics pattern next)) (seen trusted b r) (opened b).
Proof.
  unfold stack, SecurityHeaders, RequestID, RealIP. cbv zeta. unfold RequestContext. cbv zeta.
  cbn [rq_ctx rq_RemoteAddr rq_Header rq_Method rq_Path with_ctx with_addr cx_requestID cx_chiID cx_clientID cx_info cx_slot].
  unfold seen. cbv zeta. by destruct (bool_decide (hex_encode b = [])).
Qed.

Lemma error_status json_size r status code message opts w :
  status_of (ErrorWith json_size r status code message opts w) = match w_head w with Some (s, _) => s | None => status end.
Proof. by destruct w as [h [[s sent]|] n]. Qed.

Lemma seen_client trusted b r : cx_clientID (rq_ctx r) = [] ->
  cx_clientID (rq_ctx (seen trusted b r)) = take 128 (List.filter visible (header_get (rq_Header r) RequestIDHeader)).
Proof. intros H. unfold seen. cbv zeta. cbn [rq_ctx cx_clientID]. rewrite sanitize_eq, H. case_bool_decide as E; [by rewrite E|done]. Qed.


(** A handler that panics with a value holding a secret; the line carries its type only. *)
Example panic_kept_out :
  o_log (stack (fun _ => 0) [] [] (replicate 16 255) 3 None
    (fun r w => mkOut w (cx_slot (rq_ctx r)) [] [] (Some (mkPanic (bytes_of "app.Token") (PkScalar true (bytes_of "s3cret")))))
    (mkRequest (bytes_of "GET") (bytes_of "/x") (bytes_of "1.2.3.4:5") {["X-Request-Id" := [bytes_of "mine"]]} (mkRctx [] [] [] None None))
    fresh_writer)
  = [mkLine "panic recovered" [("panic_type", LStr (bytes_of "app.Token")); ("path", LStr (bytes_of "/x")); ("method", LStr (bytes_of "GET"))];
     mkLine "http request" [("method", LStr (bytes_of "GET")); ("path", LStr (bytes_of "/x")); ("status", LNum 500); ("bytes", LNum 0);
       ("duration_ms", LNum 3); ("remote_addr", LStr (bytes_of "1.2.3.4:5")); ("user_agent", LStr []);
       ("request_id", LStr (bytes_of "ffffffffffffffffffffffffffffffff")); ("client_request_id", LStr (bytes_of "mine"))]].
Proof. vm_compute. reflexivity. Qed.

(** ** What reaches the log *)

(** The address [truncateAddr] reads, unmapped and without its zone. *)
Definition logged_addr (raw : text) : option addr :=
  (fun a => WithZone (Unmap a) []) <$> match ParseAddrPort raw with Some a => Some a | None => ParseAddr raw end.
Definition network_bits (a : addr) : Z := if Is4 a then truncatedIPv4Bits else truncatedIPv6Bits.

Lemma truncateAddr_eq raw :
  truncateAddr raw = (fun a => addr_String (pf_addr (Masked (PrefixFrom a (network_bits a))))) <$> logged_addr raw.
Proof. unfold truncateAddr, logged_addr. by destruct (match ParseAddrPort raw with Some a => Some a | None => ParseAddr raw end). Qed.

(** with truncated addresses the access log tells networks apart, never hosts. Two
    addresses of one family that agree on their first 24 (IPv4) or 48 (IPv6) bits, in
    whatever form and with whatever port, are logged alike; and text that is no address is
    left out. *)
Theorem truncated_hides_host raw1 raw2 a1 a2 :
  logged_addr raw1 = Some a1 -> logged_addr raw2 = Some a2 -> Is4 a1 = Is4 a2 ->
  Z.shiftr (bits_of a1) (BitLen a1 - network_bits a1) = Z.shiftr (bits_of a2) (BitLen a2 - network_bits a2) ->
  truncateAddr raw1 = truncateAddr raw2 /\ truncateAddr raw1 <> None.
Proof.
  intros H1 H2 Hf Hb. rewrite !truncateAddr_eq, H1, H2. cbn [fmap option_fmap option_map]. split; [|done]. f_equal.
  assert (Hz : Zone a1 = [] /\ Zone a2 = []).
  { unfold logged_addr in *. apply fmap_Some in H1 as (x & _ & ->). apply fmap_Some in H2 as (y & _ & ->).
    by destruct (Unmap x), (Unmap y). }
  destruct a1 as [n1|n1 z1], a2 as [n2|n2 z2]; try done; cbn [Zone] in Hz; unfold network_bits in *;
    cbn [Is4 BitLen bits_of] in *.
  - change (addr_String (V4 (clear_low n1 8)) = addr_String (V4 (clear_low n2 8))). unfold clear_low.
    change (32 - truncatedIPv4Bits) with 8 in Hb. by rewrite Hb.
  - destruct Hz as [-> ->]. change (addr_String (V6 (clear_low n1 80) []) = addr_String (V6 (clear_low n2 80) [])). unfold clear_low.
    change (128 - truncatedIPv6Bits) with 80 in Hb. by rewrite Hb.
Qed.

Lemma truncated_hides_host_witness :
  truncateAddr (bytes_of "203.0.113.7:4711") = truncateAddr (bytes_of "::ffff:203.0.113.99")
  /\ truncateAddr (bytes_of "203.0.113.7:4711") <> None.
Proof.
  apply (truncated_hides_host _ _ (V4 3405803783) (V4 3405803875)); [vm_compute; reflexivity..|reflexivity|vm_compute; reflexivity].
Defined.

Lemma back_off_bounds back s n : (n - back <= back_off back s n <= n)%nat.
Proof.
  revert n. induction back as [|back IH]; intros n; simpl; [lia|]. destruct n as [|n]; [lia|].
  destruct (match s !! S n with Some c => rune_start c | None => true end); [lia|]. specialize (IH n). lia.
Qed.

(** A text is cut to its limit, at most three bytes short of it, and only when it is longer. *)
Theorem truncate_bounded s n :
  let '(out, cut) := Truncate s n in
  out `prefix_of` s /\ (length out <= n)%nat /\ (cut = false <-> out = s)
  /\ (cut = true -> (n - 3 <= length out)%nat).
Proof.
  unfold Truncate. destruct (Nat.leb_spec (length s) n) as [Hl|Hl].
  - split_and!; try done.
  - assert (Hb := back_off_bounds 3 s n). assert (Ht : length (take (back_off 3 s n) s) = back_off 3 s n) by (rewrite length_take; lia).
    split_and!; [apply prefix_take|lia| |lia]. split; [done|]. intros E. rewrite E in Ht. lia.
Qed.
