(* ===== verification/Requests.v ===== *)
(** Reading requests ([request]): the validator that gathers the errors of every parameter
    ([validate.go]), the messages it records ([messages.go]), the decoding of JSON bodies
    with its limits ([json.go]), and the event logged for input that is refused ([log.go]).

    Parsing a UUID (github.com/google/uuid), an RFC 3339 time, and Unicode's normal form C
    (golang.org/x/text) are arguments.  A body is the sequence of its pieces of JSON text;
    what [encoding/json] reads of it, and when a limited reader stops it, follow from
    their lengths.

    Properties of reading requests: which bodies are accepted and what the others are
    refused with, and how the validator gathers errors. *)

From stdpp Require Import base gmap list strings pretty.
From Stdlib Require Import ZArith Lia Ascii.
From S2P Require Import Prelude GoStrings GoText Middleware.

Open Scope string_scope.
Open Scope list_scope.
Open Scope Z_scope.

(** ** Numbers, runes and dates *)

Definition min_int64 : Z := - 2 ^ 63.
Definition max_int64 : Z := 2 ^ 63 - 1.

(** [strconv.ParseInt(s, 10, 64)], and [strconv.Atoi] on a 64-bit platform. *)
Definition ParseInt (t : text) : option Z :=
  let '(neg, ds) := match t with
                    | c :: r => if Ascii.eqb c "-" then (true, r) else if Ascii.eqb c "+" then (false, r) else (false, t)
                    | [] => (false, [])
                    end in
  if bool_decide (ds = []) || negb (forallb is_digit ds) then None
  else
    let n := if neg then - digits_value ds else digits_value ds in
    if (min_int64 <=? n) && (n <=? max_int64) then Some n else None.

(** [strconv.ParseBool]. *)
Definition ParseBool (v : text) : option bool :=
  if bool_decide (v ∈ bytes_of <$> ["1"; "t"; "T"; "TRUE"; "true"; "True"]) then Some true
  else if bool_decide (v ∈ bytes_of <$> ["0"; "f"; "F"; "FALSE"; "false"; "False"]) then Some false
  else None.

Definition byte_in (lo hi : nat) (c : ascii) : bool := (lo <=? nat_of_ascii c)%nat && (nat_of_ascii c <=? hi)%nat.
Definition byte (c : ascii) : Z := Z.of_nat (nat_of_ascii c).
Definition cont (c : ascii) : Z := byte c - 128.
Definition is_cont (c : ascii) : bool := byte_in 128 191 c.
Definition rune_error : Z := 65533.

(** One rune of a text and the bytes it takes, as [utf8.DecodeRuneInString] reads it: an
    invalid byte is one [RuneError]. *)
Definition decode_rune (t : text) : Z * nat :=
  match t with
  | [] => (rune_error, 0%nat)
  | a :: t1 =>
      if byte_in 0 127 a then (byte a, 1%nat)
      else match t1 with
           | b :: t2 =>
               if byte_in 194 223 a && is_cont b then ((byte a - 192) * 64 + cont b, 2%nat)
               else match t2 with
                    | c :: t3 =>
                        if ((byte_in 224 224 a && byte_in 160 191 b) || (byte_in 225 236 a && is_cont b)
                            || (byte_in 237 237 a && byte_in 128 159 b) || (byte_in 238 239 a && is_cont b)) && is_cont c
                        then (((byte a - 224) * 64 + cont b) * 64 + cont c, 3%nat)
                        else match t3 with
                             | d :: _ =>
                                 if ((byte_in 240 240 a && byte_in 144 191 b) || (byte_in 241 243 a && is_cont b)
                                     || (byte_in 244 244 a && byte_in 128 143 b)) && is_cont c && is_cont d
                                 then ((((byte a - 240) * 64 + cont b) * 64 + cont c) * 64 + cont d, 4%nat)
                                 else (rune_error, 1%nat)
                             | [] => (rune_error, 1%nat)
                             end
                    | [] => (rune_error, 1%nat)
                    end
           | [] => (rune_error, 1%nat)
           end
  end.

(** The runes of a text; every one takes a byte at least. *)
Fixpoint runes_go (fuel : nat) (t : text) : list Z :=
  match fuel, t with
  | S fuel, _ :: _ => let '(r, n) := decode_rune t in r :: runes_go fuel (drop n t)
  | _, _ => []
  end.
Definition runes (t : text) : list Z := runes_go (length t) t.
Definition RuneCount (t : text) : Z := Z.of_nat (length (runes t)).

Definition leap (y : Z) : bool := (y mod 4 =? 0) && (negb (y mod 100 =? 0) || (y mod 400 =? 0)).
Definition month_days (y m : Z) : Z :=
  if m =? 2 then (if leap y then 29 else 28) else if bool_decide (m ∈ [4; 6; 9; 11]) then 30 else 31.

(** [time.Parse("2006-01-02", s)]: year, month and day. *)
Definition ParseDate (t : text) : option (Z * Z * Z) :=
  match split_on "-" t with
  | [y; m; d] =>
      if (length y =? 4)%nat && (length m =? 2)%nat && (length d =? 2)%nat && forallb is_digit (y ++ m ++ d) then
        let '(y, m, d) := (digits_value y, digits_value m, digits_value d) in
        if (1 <=? m) && (m <=? 12) && (1 <=? d) && (d <=? month_days y m) then Some (y, m, d) else None
      else None
  | _ => None
  end.

(** ** Messages *)

(** The errors a validator records. *)
Inductive field_error :=
| FRequired | FInvalidUUID | FNotInteger | FNegative | FInvalidRFC3339 | FInvalidISODate | FInvalidInteger | FNotAllowed
| FInvalidPublicID | FInvalidIntegerList | FInvalidBoolean | FInvalidDecimal | FTooLong (maxRunes : Z).
#[export] Instance field_error_eq_dec : EqDecision field_error.
Proof. solve_decision. Defined.

(** The texts of a body that is refused. *)
Inductive body_error :=
| BMalformed (offset : Z) | BWrongType (field expected : string) | BTooLarge (maxBytes : Z) | BEmpty
| BUnknownField (field : string) | BInvalid | BMediaType | BTrailing.

Record Messages := mkMessages { ms_field : field_error -> string -> string; ms_body : body_error -> string }.

(** [%.0f] of a number of bytes in units of 2^20: to the nearest, ties to even. *)
Definition megabytes (n : Z) : Z :=
  let q := n / 2 ^ 20 in
  let r := n mod 2 ^ 20 in
  if r <? 2 ^ 19 then q else if 2 ^ 19 <? r then q + 1 else if Z.even q then q else q + 1.

(** [%q] of a name with nothing to escape. *)
Definition quoted (s : string) : string := String (ascii_of_nat 34) (s +:+ String (ascii_of_nat 34) "").

Definition DefaultMessages : Messages :=
  mkMessages
    (fun e field => field +:+
       match e with
       | FRequired => " is required"
       | FInvalidUUID => " must be a valid UUID"
       | FNotInteger => " must be an integer"
       | FNegative => " must be non-negative"
       | FInvalidRFC3339 => " must be in RFC3339 format"
       | FInvalidISODate => " must have ISO format (YYYY-MM-DD)"
       | FInvalidInteger => " must be a valid integer"
       | FNotAllowed => " must be one of the allowed values"
       | FInvalidPublicID => " must be a valid UUID or ULID"
       | FInvalidIntegerList => " must contain valid integers"
       | FInvalidBoolean => " must be a boolean"
       | FInvalidDecimal => " must be a valid decimal"
       | FTooLong n => " must be at most " +:+ itoa n +:+ " characters long"
       end)
    (fun e => match e with
              | BMalformed offset => "Malformed JSON at position " +:+ itoa offset
              | BWrongType field expected => "Wrong type for field " +:+ quoted field +:+ ": expected " +:+ expected
              | BTooLarge n => "Request body exceeds the " +:+ itoa (megabytes n) +:+ "MB limit"
              | BEmpty => "Request body is empty"
              | BUnknownField field => "Unknown field: " +:+ field
              | BInvalid => "Invalid request body"
              | BMediaType => "Content-Type must be application/json or application/*+json"
              | BTrailing => "Request body contains data after the JSON value"
              end).

(** [WithMessages]: the texts given replace the others. *)
Definition WithMessages (f : field_error -> option (string -> string)) (b : body_error -> option string) (m : Messages) : Messages :=
  mkMessages (fun e => default (ms_field m e) (f e)) (fun e => default (ms_body m e) (b e)).

(** ** The validator *)

Section Validate.
Context {uuid time : Type} (uuid_parse : text -> option uuid) (rfc3339 : text -> option time) (nfc : text -> text).

(** The parameters of a request, empty when absent: of the query and of the route. *)
Record parameters := mkParameters { pr_query : string -> text; pr_route : string -> text }.

Abbreviation FieldErrors := (gmap string field_error).

Definition AddError (field : string) (e : field_error) (v : FieldErrors) : FieldErrors := <[field := e]> v.
Definition HasErrors (v : FieldErrors) : bool := negb (bool_decide (v = ∅)).

(** A parameter that must be there. *)
Definition required {A} (param : string) (raw : text) (parse : text -> option A) (e : field_error) (v : FieldErrors)
  : FieldErrors * option A :=
  if bool_decide (raw = []) then (AddError param FRequired v, None)
  else match parse raw with
       | None => (AddError param e v, None)
       | Some a => (v, Some a)
       end.
(** One that may be absent. *)
Definition optional {A} (param : string) (raw : text) (parse : text -> option A) (e : field_error) (v : FieldErrors)
  : FieldErrors * option A :=
  if bool_decide (raw = []) then (v, None)
  else match parse raw with
       | None => (AddError param e v, None)
       | Some a => (v, Some a)
       end.

Definition UUIDParam (r : parameters) (param : string) := required param (pr_route r param) uuid_parse FInvalidUUID.
Definition UUIDQuery (r : parameters) (param : string) := optional param (pr_query r param) uuid_parse FInvalidUUID.
Definition TimeQuery (r : parameters) (param : string) := optional param (pr_query r param) rfc3339 FInvalidRFC3339.
Definition DateQuery (r : parameters) (param : string) := optional param (pr_query r param) ParseDate FInvalidISODate.
Definition Int64Query (r : parameters) (param : string) := optional param (pr_query r param) ParseInt FInvalidInteger.
Definition BoolQuery (r : parameters) (param : string) := optional param (pr_query r param) ParseBool FInvalidBoolean.

(** The zero stands for a value that is not there. *)
Definition Int64Param (r : parameters) (param : string) (v : FieldErrors) : FieldErrors * Z :=
  let '(v, n) := required param (pr_route r param) ParseInt FInvalidInteger v in (v, default 0 n).

Definition IntQuery (r : parameters) (param : string) (defaultVal : Z) (v : FieldErrors) : FieldErrors * Z :=
  let raw := pr_query r param in
  if bool_decide (raw = []) then (v, defaultVal)
  else match ParseInt raw with
       | None => (AddError param FNotInteger v, defaultVal)
       | Some n => if n <? 0 then (AddError param FNegative v, defaultVal) else (v, n)
       end.

Definition MaxInt (val max : Z) : Z := if max <? val then max else val.

Definition Enum (param : string) (value : text) (allowed : list text) (v : FieldErrors) : FieldErrors * text :=
  let value := nfc value in
  if bool_decide (value = []) then (v, value)
  else match List.find (fun a => bool_decide (value = nfc a)) allowed with
       | Some a => (v, a)
       | None => (AddError param FNotAllowed v, value)
       end.

Definition MaxLen (param : string) (value : text) (maxRunes : Z) (v : FieldErrors) : FieldErrors * text :=
  let value := nfc value in
  (if maxRunes <? RuneCount value then AddError param (FTooLong maxRunes) v else v, value).

(** [unicode.ToUpper], as far as a comparison with A to Z can tell: besides the ASCII
    letters, the long s is an S and the dotless i an I. *)
Definition ToUpper (c : Z) : Z :=
  if (97 <=? c) && (c <=? 122) then c - 32 else if c =? 383 then 83 else if c =? 305 then 73 else c.

Definition isCrockfordBase32 (c : Z) : bool :=
  if (48 <=? c) && (c <=? 57) then true
  else
    let c := ToUpper c in
    (65 <=? c) && (c <=? 90) && negb (c =? 73) && negb (c =? 76) && negb (c =? 79) && negb (c =? 85).

Definition isValidULID (s : text) : bool := (length s =? 26)%nat && forallb isCrockfordBase32 (runes s).

Definition isValidPublicID (s : text) : bool :=
  match uuid_parse s with
  | Some _ => true
  | None => isValidULID s
  end.

Definition PublicIDParam (r : parameters) (param : string) (v : FieldErrors) : FieldErrors * text :=
  let raw := pr_route r param in
  if bool_decide (raw = []) then (AddError param FRequired v, [])
  else if negb (isValidPublicID raw) then (AddError param FInvalidPublicID v, [])
  else (v, raw).

(** The items of a list of integers, the empty ones left out. *)
Fixpoint parse_ints (parts : list text) : option (list Z) :=
  match parts with
  | [] => Some []
  | p :: parts =>
      let p := trim_space p in
      if bool_decide (p = []) then parse_ints parts
      else n ← ParseInt p; ns ← parse_ints parts; Some (n :: ns)
  end.
Definition Int64sQuery (r : parameters) (param : string) (v : FieldErrors) : FieldErrors * option (list Z) :=
  let raw := pr_query r param in
  if bool_decide (raw = []) then (v, None)
  else match parse_ints (split_on "," raw) with
       | None => (AddError param FInvalidIntegerList v, None)
       | Some ns => (v, Some ns)
       end.

End Validate.

(** ** The security event *)

(** The line logged for input that is refused; [fields] are the names of the fields at
    fault, none when the whole body was. *)
Definition validation_line (r : request) (status : Z) (code : string) (fields : option (list string)) : log_line :=
  mkLine "request validation failed"
    ([("status", LNum status); ("code", LStr (bytes_of code)); ("method", LStr (rq_Method r)); ("path", LStr (rq_Path r));
      ("ip", LStr (match cx_info (rq_ctx r) with Some i => ri_IP i | None => [] end));
      ("request_id", LStr (cx_requestID (rq_ctx r)))]
     ++ (match fields with Some fs => [("fields", LStrs (bytes_of <$> fs))] | None => [] end)).

Definition sortedFields (errs : gmap string field_error) : list string := sort_Strings (map_to_list errs).*1.

(** [WriteErrors]: the event logged and the status answered with the errors. *)
Definition WriteErrors (r : request) (errs : gmap string field_error) : log_line * Z * gmap string field_error :=
  (validation_line r 400 "VALIDATION_ERROR" (Some (sortedFields errs)), 400, errs).

(** ** JSON bodies *)

(** What decoding a value into its destination says. *)
Inductive verdict := VOk | VType (field expected : string) | VUnknown (field : string) | VRefused.

(** A piece of a body: white space, a value (an object or an array, or a scalar), text that
    is no JSON after [n] bytes, a value that the end cuts short, or a read that fails. *)
Inductive piece :=
| PSpace (n : Z) | PValue (compound : bool) (n : Z) (v : verdict) | PSyntax (compound : bool) (n : Z) | PCut (compound : bool) (n : Z)
| PBroken.

Inductive read_error := REOF | RUnexpectedEOF | RSyntax (offset : Z) | RMaxBytes | RType (field expected : string)
| RUnknown (field : string) | ROther.

#[export] Instance read_error_eq_dec : EqDecision read_error.
Proof. solve_decision. Defined.

(** The pieces after white space, and where they start. *)
Fixpoint skip_space (pos : Z) (b : list piece) : Z * list piece :=
  match b with
  | PSpace n :: b => skip_space (pos + n) b
  | _ => (pos, b)
  end.

(** The bytes a value takes: the decoder looks one byte beyond a scalar, if there is one. *)
Definition scalar_end (compound : bool) (n : Z) (rest : list piece) : Z :=
  match compound, rest with
  | true, _ | false, [] | false, PBroken :: _ => n
  | false, _ :: _ => n + 1
  end.
(** Whether that look fails. *)
Definition look_fails (compound : bool) (rest : list piece) : bool :=
  match compound, rest with
  | false, PBroken :: _ => true
  | _, _ => false
  end.

(** [Decoder.Decode], with [limit] bytes to read: the error, or the position and the pieces
    behind the value. *)
Definition Decode (limit pos : Z) (b : list piece) : read_error + (Z * list piece) :=
  let '(pos, b) := skip_space pos b in
  if limit <? pos then inl RMaxBytes
  else match b with
       | [] => inl REOF
       | PSpace _ :: _ => inl REOF
       | PBroken :: _ => inl ROther
       | PSyntax _ n :: _ => if limit <? pos + n then inl RMaxBytes else inl (RSyntax (pos + n))
       | PCut _ n :: _ => if limit <? pos + n then inl RMaxBytes else inl RUnexpectedEOF
       | PValue compound n v :: rest =>
           if limit <? pos + scalar_end compound n rest then inl RMaxBytes
           else if look_fails compound rest then inl ROther
           else match v with
                | VOk => inr (pos + n, rest)
                | VType f e => inl (RType f e)
                | VUnknown f => inl (RUnknown f)
                | VRefused => inl ROther
                end
       end.

(** [Decoder.Token]: [None] when there is a token. A bracket is one by itself; a scalar is
    decoded. *)
Definition Token (limit pos : Z) (b : list piece) : option read_error :=
  let '(pos, b) := skip_space pos b in
  if limit <? pos then Some RMaxBytes
  else match b with
       | [] => Some REOF
       | PSpace _ :: _ => Some REOF
       | PBroken :: _ => Some ROther
       | PSyntax true _ :: _ | PCut true _ :: _ | PValue true _ _ :: _ => if limit <? pos + 1 then Some RMaxBytes else None
       | PSyntax false n :: _ => if limit <? pos + n then Some RMaxBytes else Some (RSyntax (pos + n))
       | PCut false n :: _ => if limit <? pos + n then Some RMaxBytes else Some RUnexpectedEOF
       | PValue false n _ :: rest =>
           if limit <? pos + scalar_end false n rest then Some RMaxBytes else if look_fails false rest then Some ROther else None
       end.

(** What a body is refused with: the status, the code and the message. *)
Record refusal := mkRefusal { rf_status : Z; rf_code : string; rf_message : body_error }.

Definition writeDecodeError (e : read_error) (maxBytes : Z) : refusal :=
  match e with
  | RSyntax offset => mkRefusal 400 "INVALID_JSON" (BMalformed offset)
  | RType f x => mkRefusal 400 "INVALID_JSON" (BWrongType f x)
  | RMaxBytes => mkRefusal 413 "BODY_TOO_LARGE" (BTooLarge maxBytes)
  | REOF => mkRefusal 400 "INVALID_JSON" BEmpty
  | RUnknown f => mkRefusal 400 "UNKNOWN_FIELD" (BUnknownField f)
  | RUnexpectedEOF | ROther => mkRefusal 400 "INVALID_JSON" BInvalid
  end.

(** A request's Content-Type: absent, and as [mime.ParseMediaType] gives it otherwise. *)
Record content_type := mkContentType { ct_absent : bool; ct_media : option text }.

Definition isJSONMediaType (c : content_type) : bool :=
  match ct_media c with
  | None => false
  | Some m => bool_decide (m = bytes_of "application/json")
              || (bool_decide (is_Some (lit "application/" m)) && has_suffix (bytes_of "+json") m)
  end.

Definition defaultMaxBytes : Z := 1048576.
Definition unsupported : refusal := mkRefusal 415 "UNSUPPORTED_MEDIA_TYPE" BMediaType.

Inductive decoded := DValue | DAbsent | DRefused (r : refusal).

(** [checkContentType]: what ends the decoding, if anything does. *)
Definition checkContentType (c : content_type) (limit : Z) (allowEmpty : bool) (b : list piece) : option decoded :=
  if isJSONMediaType c then None
  else if ct_absent c && allowEmpty then
    match Token limit 0 b with
    | Some REOF => Some DAbsent
    | Some RMaxBytes => Some (DRefused (writeDecodeError RMaxBytes limit))
    | _ => Some (DRefused unsupported)
    end
  else Some (DRefused unsupported).

(** [Decoder.decode]; [check] is off with [AllowAnyContentType]. *)
Definition decode (check : bool) (c : content_type) (limit : Z) (allowEmpty : bool) (b : list piece) : decoded :=
  match (if check then checkContentType c limit allowEmpty b else None) with
  | Some d => d
  | None =>
      match Decode limit 0 b with
      | inl REOF => if allowEmpty then DAbsent else DRefused (writeDecodeError REOF limit)
      | inl e => DRefused (writeDecodeError e limit)
      | inr (pos, rest) =>
          match Token limit pos rest with
          | Some REOF => DValue
          | None | Some (RSyntax _) | Some RUnexpectedEOF => DRefused (mkRefusal 400 "INVALID_JSON" BTrailing)
          | Some e => DRefused (writeDecodeError e limit)
          end
      end
  end.

Definition JSON_body (c : content_type) (b : list piece) : decoded := decode true c defaultMaxBytes false b.
Definition JSONWithLimit (c : content_type) (b : list piece) (maxBytes : Z) : decoded := decode true c maxBytes false b.
Definition JSONOptional (c : content_type) (b : list piece) : decoded := decode true c defaultMaxBytes true b.

(** ** Bodies *)

Definition piece_size (p : piece) : Z :=
  match p with
  | PSpace n | PValue _ n _ | PSyntax _ n | PCut _ n => n
  | PBroken => 0
  end.
Definition body_size (b : list piece) : Z := foldr Z.add 0 (piece_size <$> b).
Definition is_space (p : piece) : Prop := match p with PSpace _ => True | _ => False end.

(** A body as it comes: every piece takes bytes. *)
Definition body_ok (b : list piece) : Prop := Forall (fun p => p = PBroken \/ 1 <= piece_size p) b.

Lemma body_size_app a b : body_size (a ++ b) = body_size a + body_size b.
Proof. unfold body_size. rewrite fmap_app. induction (piece_size <$> a) as [|x l IH]; simpl; [done|]. rewrite IH. lia. Qed.

Lemma body_size_cons p b : body_size (p :: b) = piece_size p + body_size b.
Proof. done. Qed.

Lemma body_size_nonneg b : body_ok b -> 0 <= body_size b.
Proof. induction 1 as [|p b Hp _ IH]; [done|]. rewrite body_size_cons. destruct Hp as [->|Hp]; cbn [piece_size]; lia. Qed.

Lemma skip_space_spec b pos :
  exists pre rest, b = pre ++ rest /\ Forall is_space pre /\ skip_space pos b = (pos + body_size pre, rest)
    /\ match rest with p :: _ => ~ is_space p | [] => True end.
Proof.
  revert pos. induction b as [|p b IH]; intros pos.
  { exists [], []. split_and!; [done|constructor|simpl; f_equal; cbn; lia|done]. }
  destruct p as [n|c n v|c n|c n|]; try (eexists [], _; split_and!; [done|constructor|cbn; f_equal; lia|by intros []]).
  destruct (IH (pos + n)) as (pre & rest & -> & Hp & Hs & Hr). exists (PSpace n :: pre), rest.
  split_and!; [done|by constructor| |done]. cbn [skip_space]. rewrite Hs. f_equal. rewrite body_size_cons. cbn. lia.
Qed.

Lemma body_ok_app a b : body_ok (a ++ b) <-> body_ok a /\ body_ok b.
Proof. apply Forall_app. Qed.

(** Only white space is left. *)
Lemma Token_eof limit pos b : body_ok b -> Token limit pos b = Some REOF <-> Forall is_space b /\ pos + body_size b <= limit.
Proof.
  intros Hb. unfold Token. destruct (skip_space_spec b pos) as (pre & rest & -> & Hp & -> & Hr).
  apply body_ok_app in Hb as [Hbp Hbr]. destruct (Z.ltb_spec limit (pos + body_size pre)) as [Hl|Hl].
  { split; [done|]. rewrite body_size_app. intros [_ ?]. assert (0 <= body_size rest) by by apply body_size_nonneg. lia. }
  destruct rest as [|p rest].
  { rewrite app_nil_r. split; [done|]. done. }
  assert (Hno : ~ Forall is_space (pre ++ p :: rest)).
  { rewrite Forall_app. intros [_ Hf]. by inversion Hf. }
  destruct p as [n|[] n v|[] n|[] n|]; try (by destruct Hr);
    (split; [|intros [Hf _]; by destruct Hno]); try destruct (limit <? _); try destruct (look_fails _ _); done.
Qed.

(** A value that can be decoded, between white space. *)
Definition one_value (b : list piece) : Prop :=
  exists pre compound n post, b = pre ++ PValue compound n VOk :: post /\ Forall is_space pre /\ Forall is_space post.

Lemma scalar_end_fits compound n rest : body_ok rest -> scalar_end compound n rest <= n + body_size rest.
Proof.
  intros Hb. assert (Hn := body_size_nonneg rest Hb). unfold scalar_end. destruct compound; [lia|].
  destruct rest as [|p rest]; [lia|]. inversion Hb as [|? ? Hp Hr]; subst. apply body_size_nonneg in Hr. rewrite body_size_cons in *.
  destruct Hp as [->|Hp]; [cbn in *; lia|]. destruct p; cbn in *; lia.
Qed.

Lemma look_space compound rest : Forall is_space rest -> look_fails compound rest = false.
Proof. intros H. destruct compound; [done|]. destruct H as [|[] rest Hp _]; done. Qed.

(** The outcome of decoding the first value and looking for a second one. *)
Definition decode_rest (limit : Z) (allowEmpty : bool) (b : list piece) : decoded := decode false (mkContentType true None) limit allowEmpty b.

Lemma decode_checked check c limit allowEmpty b :
  decode check c limit allowEmpty b =
  match (if check then checkContentType c limit allowEmpty b else None) with
  | Some d => d
  | None => decode_rest limit allowEmpty b
  end.
Proof. unfold decode_rest, decode. by destruct (if check then _ else _). Qed.

Lemma decode_rest_value limit allowEmpty b :
  body_ok b -> decode_rest limit allowEmpty b = DValue <-> one_value b /\ body_size b <= limit.
Proof.
  intros Hb. unfold decode_rest, decode, Decode. destruct (skip_space_spec b 0) as (pre & rest & -> & Hp & -> & Hr).
  rewrite Z.add_0_l. apply body_ok_app in Hb as [Hbp Hbr]. rewrite body_size_app.
  assert (Hone : one_value (pre ++ rest) -> exists compound n post, rest = PValue compound n VOk :: post /\ Forall is_space post).
  { intros (pre' & compound & n & post & E & Hp' & Hpost). destruct rest as [|p rest].
    - rewrite app_nil_r in E. subst pre. apply Forall_app in Hp as [_ Hp]. by inversion Hp.
    - assert (Hpre : pre = pre').
      { clear -E Hp Hp' Hr. revert pre' E Hp'. induction Hp as [|x pre Hx _ IH]; intros [|y pre'] E Hp'; cbn in E.
        - done.
        - injection E as -> ->. inversion Hp'. done.
        - injection E as -> _. done.
        - injection E as -> E. f_equal. inversion Hp'; subst. by apply IH. }
      subst pre'. apply app_inv_head in E. injection E as -> ->. eauto. }
  destruct (Z.ltb_spec limit (body_size pre)) as [Hl|Hl].
  { split; [by destruct allowEmpty|]. intros [_ ?]. assert (0 <= body_size rest) by by apply body_size_nonneg. lia. }
  destruct rest as [|p rest].
  { split; [by destruct allowEmpty|]. intros [(? & ? & ? & ? & _)%Hone _]. done. }
  assert (Hbr2 : body_ok rest) by by inversion Hbr.
  destruct p as [n|compound n v|compound n|compound n|];
    [by destruct Hr| |destruct (limit <? body_size pre + n)|destruct (limit <? body_size pre + n)|]; try (split; [done|intros [(? & ? & ? & ? & _)%Hone _]; done]).
  rewrite body_size_cons. cbn [piece_size].
  destruct (Z.ltb_spec limit (body_size pre + scalar_end compound n rest)) as [Hl2|Hl2].
  { split; [done|]. intros [(c' & n' & post & [= <- <- -> <-] & Hpost)%Hone Hsz].
    assert (Hfit := scalar_end_fits compound n rest Hbr2). lia. }
  destruct (look_fails compound rest) eqn:Elf.
  { split; [done|]. intros [(c' & n' & post & [= <- <- -> <-] & Hpost)%Hone Hsz]. rewrite look_space in Elf; done. }
  destruct v as [|f e|f|]; try (split; [done|intros [(? & ? & ? & ? & _)%Hone _]; done]).
  assert (Ht := Token_eof limit (body_size pre + n) rest Hbr2).
  split.
  - intros Hd. assert (Hrt : Token limit (body_size pre + n) rest = Some REOF) by (destruct (Token _ _ rest) as [[]|]; done).
    apply Ht in Hrt as [Hs Hsz]. split; [|lia]. exists pre, compound, n, rest. done.
  - intros [(c' & n' & post & [= <- <- <-] & Hpost)%Hone Hsz]. rewrite (proj2 Ht); [done|]. split; [done|lia].
Qed.

Lemma decode_rest_absent limit allowEmpty b :
  body_ok b -> decode_rest limit allowEmpty b = DAbsent <-> allowEmpty = true /\ Forall is_space b /\ body_size b <= limit.
Proof.
  intros Hb. unfold decode_rest, decode, Decode. destruct (skip_space_spec b 0) as (pre & rest & -> & Hp & -> & Hr).
  rewrite Z.add_0_l, body_size_app. apply body_ok_app in Hb as [_ Hbr]. apply body_size_nonneg in Hbr.
  destruct (Z.ltb_spec limit (body_size pre)) as [Hl|Hl].
  { split; [done|]. intros (_ & _ & ?). lia. }
  destruct rest as [|p rest].
  { rewrite app_nil_r. change (body_size []) with 0. destruct allowEmpty; (split; [|by intros (? & _)]); [|done].
    intros _. split; [done|]. split; [done|lia]. }
  split.
  - intros H. exfalso. destruct p as [n|compound n v|compound n|compound n|]; [done| |by destruct (limit <? _)|by destruct (limit <? _)|done].
    destruct (limit <? _); [done|]. destruct (look_fails compound rest); [done|]. destruct v; try done.
    by destruct (Token _ _ rest) as [[]|].
  - intros (_ & [_ Hf]%Forall_app & _). by inversion Hf.
Qed.

(** What is found too large is larger than the limit. *)
Lemma Decode_limit limit pos b : body_ok b -> Decode limit pos b = inl RMaxBytes -> limit < pos + body_size b.
Proof.
  intros Hb. unfold Decode. destruct (skip_space_spec b pos) as (pre & rest & -> & Hp & -> & Hr).
  rewrite body_size_app. apply body_ok_app in Hb as [_ Hbr]. assert (Hn := body_size_nonneg _ Hbr).
  destruct (Z.ltb_spec limit (pos + body_size pre)) as [Hl|Hl]; [lia|].
  destruct rest as [|p rest]; [done|]. inversion Hbr as [|? ? Hbp Hbr2]; subst. rewrite body_size_cons in *. apply body_size_nonneg in Hbr2 as Hn2.
  destruct p as [n|compound n v|compound n|compound n|]; [done| |destruct (Z.ltb_spec limit (pos + body_size pre + n)); [cbn; lia|done]..|done].
  destruct (Z.ltb_spec limit (pos + body_size pre + scalar_end compound n rest)) as [Hl2|].
  { assert (Hfit := scalar_end_fits compound n rest Hbr2). cbn. lia. }
  destruct (look_fails compound rest); [done|]. by destruct v.
Qed.

Lemma Token_limit limit pos b : body_ok b -> Token limit pos b = Some RMaxBytes -> limit < pos + body_size b.
Proof.
  intros Hb. unfold Token. destruct (skip_space_spec b pos) as (pre & rest & -> & Hp & -> & Hr).
  rewrite body_size_app. apply body_ok_app in Hb as [_ Hbr]. assert (Hn := body_size_nonneg _ Hbr).
  destruct (Z.ltb_spec limit (pos + body_size pre)) as [Hl|Hl]; [lia|].
  destruct rest as [|p rest]; [done|]. inversion Hbr as [|? ? Hbp Hbr2]; subst. rewrite body_size_cons in *. apply body_size_nonneg in Hbr2 as Hn2.
  destruct p as [n|[] n v|[] n|[] n|]; cbn [piece_size] in *; try done;
    try (destruct (Z.ltb_spec limit (pos + body_size pre + 1)); [destruct Hbp as [|Hbp]; [done|lia]|done]);
    try (destruct (Z.ltb_spec limit (pos + body_size pre + n)); [lia|done]).
  destruct (Z.ltb_spec limit (pos + body_size pre + scalar_end false n rest)) as [Hl2|].
  - assert (Hfit := scalar_end_fits false n rest Hbr2). lia.
  - by destruct (look_fails false rest).
Qed.

(** A position inside a body: what is left behind a decoded value. *)
Lemma Decode_left limit pos b pos' rest :
  body_ok b -> Decode limit pos b = inr (pos', rest) -> body_ok rest /\ pos' + body_size rest = pos + body_size b.
Proof.
  intros Hb. unfold Decode. destruct (skip_space_spec b pos) as (pre & tl & -> & Hp & -> & Hr).
  rewrite body_size_app. apply body_ok_app in Hb as [_ Hbr]. destruct (limit <? pos + body_size pre); [done|].
  destruct tl as [|p tl]; [done|]. inversion Hbr as [|? ? _ Hbr2]; subst. rewrite body_size_cons.
  destruct p as [n|compound n v|compound n|compound n|]; [done| |by destruct (limit <? _)|by destruct (limit <? _)|done].
  destruct (limit <? _); [done|]. destruct (look_fails compound tl); [done|]. destruct v; try done.
  intros [= <- <-]. split; [done|]. cbn. lia.
Qed.

Lemma writeDecodeError_status e limit :
  rf_status (writeDecodeError e limit) = 413 /\ e = RMaxBytes \/ rf_status (writeDecodeError e limit) = 400.
Proof. destruct e; auto. Qed.

Lemma decode_rest_refused limit allowEmpty b r :
  body_ok b -> decode_rest limit allowEmpty b = DRefused r -> rf_status r = 413 /\ limit < body_size b \/ rf_status r = 400.
Proof.
  intros Hb. unfold decode_rest, decode. cbn match.
  destruct (Decode limit 0 b) as [e|[pos rest]] eqn:Ed.
  - intros H. assert (Hr : r = writeDecodeError e limit) by (destruct e, allowEmpty; by simplify_eq). subst r.
    destruct (writeDecodeError_status e limit) as [[H1 ->]|H1]; [left|by right]. split; [done|]. by apply Decode_limit in Ed.
  - destruct (Decode_left _ _ _ _ _ Hb Ed) as [Hbr Hsz]. destruct (Token limit pos rest) as [e|] eqn:Et.
    2: { intros [= <-]. by right. }
    destruct e; try (intros [= <-]; by right). intros [= <-]. left. split; [done|].
    apply Token_limit in Et; [lia|done].
Qed.

(** C37: exactly one JSON value is read from a body, within its limit. A body is accepted
    if and only if its Content-Type is a JSON one (or the check was switched off) and it is
    one decodable value between white space, all of it within the limit; it counts as
    absent only where it may be, when nothing but white space is there; and a refusal is a
    415 for its type alone, a 413 only for a body that is larger than the limit, and a 400
    for everything else. *)
Theorem body_read_exactly check c limit allowEmpty b :
  body_ok b ->
  (decode check c limit allowEmpty b = DValue <->
   (check = false \/ isJSONMediaType c = true) /\ one_value b /\ body_size b <= limit)
  /\ (decode check c limit allowEmpty b = DAbsent <->
      allowEmpty = true /\ (check = false \/ isJSONMediaType c = true \/ ct_absent c = true)
      /\ Forall is_space b /\ body_size b <= limit)
  /\ (forall r, decode check c limit allowEmpty b = DRefused r ->
      (rf_status r = 415 /\ check = true /\ isJSONMediaType c = false) \/ (rf_status r = 413 /\ limit < body_size b)
      \/ (rf_status r = 400 /\ (check = false \/ isJSONMediaType c = true))).
Proof.
  intros Hb. rewrite decode_checked.
  assert (Hrest : (check = false \/ isJSONMediaType c = true) ->
    (decode_rest limit allowEmpty b = DValue <-> (check = false \/ isJSONMediaType c = true) /\ one_value b /\ body_size b <= limit)
    /\ (decode_rest limit allowEmpty b = DAbsent <-> allowEmpty = true
        /\ (check = false \/ isJSONMediaType c = true \/ ct_absent c = true) /\ Forall is_space b /\ body_size b <= limit)
    /\ (forall r, decode_rest limit allowEmpty b = DRefused r ->
        (rf_status r = 415 /\ check = true /\ isJSONMediaType c = false) \/ (rf_status r = 413 /\ limit < body_size b)
        \/ (rf_status r = 400 /\ (check = false \/ isJSONMediaType c = true)))).
  { intros Hc. rewrite decode_rest_value, decode_rest_absent by done. split_and!; [tauto|tauto|].
    intros r [Hr|Hr]%decode_rest_refused; [tauto|tauto|done]. }
  destruct check; [|apply Hrest; by left]. unfold checkContentType.
  destruct (isJSONMediaType c) eqn:Ej; [apply Hrest; by right|].
  assert (Hun : (DRefused unsupported = DValue <-> (true = false \/ false = true) /\ one_value b /\ body_size b <= limit)
    /\ (forall r, DRefused unsupported = DRefused r -> (rf_status r = 415 /\ true = true /\ false = false)
        \/ (rf_status r = 413 /\ limit < body_size b) \/ (rf_status r = 400 /\ (true = false \/ false = true)))).
  { split; [split; [done|by intros [[] _]]|]. intros r [= <-]. by left. }
  destruct Hun as [Hv Hr]. assert (Ht := Token_eof limit 0 b Hb). assert (Hm := Token_limit limit 0 b Hb). rewrite Z.add_0_l in Ht, Hm.
  destruct (ct_absent c && allowEmpty) eqn:Ea.
  - apply andb_true_iff in Ea as [-> ->]. destruct (decide (Token limit 0 b = Some REOF)) as [E|Hno].
    { rewrite E. apply Ht in E. split_and!; [by split; [done|intros [[] _]]|tauto|done]. }
    assert (Habs : forall r, DRefused r = DAbsent <-> true = true /\ (true = false \/ false = true \/ true = true)
      /\ Forall is_space b /\ body_size b <= limit) by (intros r; split; [done|intros (_ & _ & Hs); by destruct Hno; apply Ht]).
    destruct (Token limit 0 b) as [[]|]; try (by destruct Hno); try (split_and!; [done|apply Habs|done]).
    split_and!; [by split; [done|intros [[] _]]|apply Habs|]. intros r [= <-]. right. left. split; [done|by apply Hm].
  - split_and!; [done| |done]. split; [done|]. intros (-> & [|[|Hc]] & _); try done. by rewrite Hc in Ea.
Qed.

Definition sample_body : list piece := [PSpace 1; PValue true 12 VOk; PSpace 2].
Definition json_type : content_type := mkContentType false (Some (bytes_of "application/vnd.api+json")).

Lemma body_read_exactly_witness : body_ok sample_body /\ decode true json_type 15 false sample_body = DValue.
Proof.
  assert (Hb : body_ok sample_body) by (repeat (apply List.Forall_cons; [right; cbn; lia|]); apply List.Forall_nil).
  split; [done|]. apply (body_read_exactly true json_type 15 false sample_body Hb). split; [by right|]. split; [|cbn; lia].
  exists [PSpace 1], true, 12, [PSpace 2]. split; [done|]. split; by apply List.Forall_cons.
Defined.

(** The limit in the message is a whole number of megabytes: below half of one it is 0. *)
Theorem small_limit_message n :
  0 <= n < 2 ^ 19 -> ms_body DefaultMessages (BTooLarge n) = "Request body exceeds the 0MB limit".
Proof.
  intros H. unfold DefaultMessages, ms_body, megabytes. rewrite Z.div_small, Z.mod_small by lia.
  by rewrite (proj2 (Z.ltb_lt n (2 ^ 19))) by lia.
Qed.

Lemma small_limit_message_witness : ms_body DefaultMessages (BTooLarge 65536) = "Request body exceeds the 0MB limit".
Proof. apply (small_limit_message 65536). lia. Defined.

(** ** Integers *)

Lemma pretty_char_value d : (d < 10)%N -> is_digit (pretty_N_char d) = true /\ digit_value (pretty_N_char d) = Z.of_N d.
Proof.
  intros Hd. assert (Hf : forallb (fun n => is_digit (pretty_N_char (N.of_nat n)) && (digit_value (pretty_N_char (N.of_nat n)) =? Z.of_nat n)) (seq 0 10) = true)
    by (vm_compute; reflexivity).
  rewrite forallb_forall in Hf. specialize (Hf (N.to_nat d)). rewrite N2Nat.id in Hf.
  assert (Hin : In (N.to_nat d) (seq 0 10)) by (apply in_seq; lia). apply Hf in Hin. apply andb_true_iff in Hin as [H1 H2%Z.eqb_eq].
  split; [done|]. rewrite H2. lia.
Qed.

Lemma pretty_go_value (x : N) s :
  fold_left (fun n c => 10 * n + digit_value c) (bytes_of (pretty_N_go x s)) 0
  = fold_left (fun n c => 10 * n + digit_value c) (bytes_of s) (Z.of_N x)
  /\ (forallb is_digit (bytes_of s) = true -> forallb is_digit (bytes_of (pretty_N_go x s)) = true).
Proof.
  revert s. induction (N.lt_wf_0 x) as [x _ IH]. intros s. destruct (decide (0 < x)%N) as [Hx|Hx].
  - rewrite pretty_N_go_step by done. destruct (IH (x `div` 10)%N ltac:(apply N.div_lt; lia) (String (pretty_N_char (x `mod` 10)) s)) as [H1 H2].
    assert (Hm : (x `mod` 10 < 10)%N) by (apply N.mod_lt; lia). destruct (pretty_char_value _ Hm) as [Hd Hv]. split.
    + rewrite H1. cbn [bytes_of String.list_ascii_of_string fold_left]. rewrite Hv. f_equal.
      rewrite N2Z.inj_mod, N2Z.inj_div. symmetry. apply Z.div_mod. lia.
    + intros Hs. apply H2. cbn [bytes_of String.list_ascii_of_string forallb]. by rewrite Hd.
  - assert (x = 0%N) as -> by lia. rewrite pretty_N_go_0. done.
Qed.

Lemma pretty_N_value (x : N) :
  digits_value (bytes_of (pretty x)) = Z.of_N x /\ forallb is_digit (bytes_of (pretty x)) = true /\ bytes_of (pretty x) <> [].
Proof.
  unfold pretty, pretty_N. case_decide as H; [subst; done|]. destruct (pretty_go_value x "") as [H1 H2].
  split_and!; [exact H1|by apply H2|]. intros E. unfold digits_value in H1. rewrite E in H1. cbn in H1. lia.
Qed.

Lemma digit_not_sign c : is_digit c = true -> Ascii.eqb c "-" = false /\ Ascii.eqb c "+" = false.
Proof.
  intros H. split; [destruct (Ascii.eqb_spec c "-") as [->|]|destruct (Ascii.eqb_spec c "+") as [->|]]; done.
Qed.

(** Every 64-bit integer, and nothing beyond, is read back from its decimal form. *)
Theorem int64_roundtrip n :
  ParseInt (bytes_of (itoa n)) = if (min_int64 <=? n) && (n <=? max_int64) then Some n else None.
Proof.
  destruct n as [|p|p]; [done| |].
  - destruct (pretty_N_value (N.pos p)) as (Hv & Hd & Hne). change (itoa (Z.pos p)) with (pretty (N.pos p)).
    unfold ParseInt. destruct (bytes_of (pretty (N.pos p))) as [|c r] eqn:E; [done|].
    assert (Hc : is_digit c = true) by (cbn in Hd; by apply andb_true_iff in Hd as [? _]).
    destruct (digit_not_sign c Hc) as [-> ->]. rewrite bool_decide_eq_false_2, Hd by done. cbn [negb orb]. by rewrite Hv.
  - destruct (pretty_N_value (N.pos p)) as (Hv & Hd & Hne).
    change (bytes_of (itoa (Z.neg p))) with ("-"%char :: bytes_of (pretty (N.pos p))). unfold ParseInt.
    rewrite Ascii.eqb_refl, bool_decide_eq_false_2, Hd by done. cbn [negb orb]. by rewrite Hv.
Qed.

(** ** The validator *)

Section Gathering.
Context {uuid time : Type} (uuid_parse : text -> option uuid) (rfc3339 : text -> option time) (nfc : text -> text).

(** The checks of a handler. *)
Inductive check :=
| CkUUIDParam (p : string) | CkUUIDQuery (p : string) | CkTime (p : string) | CkDate (p : string) | CkInt (p : string) (d : Z)
| CkInt64Param (p : string) | CkInt64 (p : string) | CkBool (p : string) | CkPublicID (p : string) | CkInts (p : string)
| CkEnum (p : string) (value : text) (allowed : list text) | CkMaxLen (p : string) (value : text) (maxRunes : Z).

Definition check_field (c : check) : string :=
  match c with
  | CkUUIDParam p | CkUUIDQuery p | CkTime p | CkDate p | CkInt p _ | CkInt64Param p | CkInt64 p | CkBool p | CkPublicID p
  | CkInts p | CkEnum p _ _ | CkMaxLen p _ _ => p
  end.

Definition run_check (r : parameters) (v : gmap string field_error) (c : check) : gmap string field_error :=
  match c with
  | CkUUIDParam p => (UUIDParam uuid_parse r p v).1
  | CkUUIDQuery p => (UUIDQuery uuid_parse r p v).1
  | CkTime p => (TimeQuery rfc3339 r p v).1
  | CkDate p => (DateQuery r p v).1
  | CkInt p d => (IntQuery r p d v).1
  | CkInt64Param p => (Int64Param r p v).1
  | CkInt64 p => (Int64Query r p v).1
  | CkBool p => (BoolQuery r p v).1
  | CkPublicID p => (PublicIDParam uuid_parse r p v).1
  | CkInts p => (Int64sQuery r p v).1
  | CkEnum p value allowed => (Enum nfc p value allowed v).1
  | CkMaxLen p value n => (MaxLen nfc p value n v).1
  end.

(** What is wrong with a parameter that must be there, and with one that may be absent. *)
Definition missing_or {A} (raw : text) (parse : text -> option A) (e : field_error) : option field_error :=
  if bool_decide (raw = []) then Some FRequired else match parse raw with None => Some e | Some _ => None end.
Definition absent_or {A} (raw : text) (parse : text -> option A) (e : field_error) : option field_error :=
  if bool_decide (raw = []) then None else match parse raw with None => Some e | Some _ => None end.

(** The fault of a value, whatever was found before. *)
Definition fault (r : parameters) (c : check) : option field_error :=
  match c with
  | CkUUIDParam p => missing_or (pr_route r p) uuid_parse FInvalidUUID
  | CkUUIDQuery p => absent_or (pr_query r p) uuid_parse FInvalidUUID
  | CkTime p => absent_or (pr_query r p) rfc3339 FInvalidRFC3339
  | CkDate p => absent_or (pr_query r p) ParseDate FInvalidISODate
  | CkInt p _ => match absent_or (pr_query r p) ParseInt FNotInteger, ParseInt (pr_query r p) with
                 | Some e, _ => Some e
                 | None, Some n => if n <? 0 then Some FNegative else None
                 | None, None => None
                 end
  | CkInt64Param p => missing_or (pr_route r p) ParseInt FInvalidInteger
  | CkInt64 p => absent_or (pr_query r p) ParseInt FInvalidInteger
  | CkBool p => absent_or (pr_query r p) ParseBool FInvalidBoolean
  | CkPublicID p => missing_or (pr_route r p) (fun t => if isValidPublicID uuid_parse t then Some tt else None) FInvalidPublicID
  | CkInts p => absent_or (pr_query r p) (fun t => parse_ints (split_on "," t)) FInvalidIntegerList
  | CkEnum _ value allowed =>
      if bool_decide (nfc value = []) || bool_decide (nfc value ∈ nfc <$> allowed) then None else Some FNotAllowed
  | CkMaxLen _ value n => if n <? RuneCount (nfc value) then Some (FTooLong n) else None
  end.

Lemma find_allowed value allowed :
  match List.find (fun a => bool_decide (value = nfc a)) allowed with
  | Some a => a ∈ allowed /\ value = nfc a
  | None => value ∉ nfc <$> allowed
  end.
Proof.
  destruct (List.find _ allowed) as [a|] eqn:E.
  - apply List.find_some in E as [Hin Ha%bool_decide_eq_true]. by apply list_elem_of_In in Hin.
  - rewrite list_elem_of_fmap. intros (a & Ha & Hin%list_elem_of_In). apply (List.find_none _ _ E) in Hin.
    by apply bool_decide_eq_false in Hin.
Qed.

(** A check records its fault under its field, and nothing else. *)
Lemma run_check_eq r v c : run_check r v c = match fault r c with Some e => <[check_field c := e]> v | None => v end.
Proof.
  destruct c as [p|p|p|p|p d|p|p|p|p|p|p value allowed|p value n]; cbn [run_check fault check_field];
    unfold UUIDParam, UUIDQuery, TimeQuery, DateQuery, Int64Param, Int64Query, BoolQuery, required, optional, missing_or, absent_or.
  1-4, 7-8: by case_bool_decide; [|destruct (_ : option _)].
  - unfold IntQuery. case_bool_decide as H; [by rewrite H|]. destruct (ParseInt _) as [n|]; [|done]. by destruct (n <? 0).
  - case_bool_decide; [done|]. by destruct (ParseInt _).
  - unfold PublicIDParam. case_bool_decide; [done|]. by destruct (isValidPublicID _ _).
  - unfold Int64sQuery. case_bool_decide; [done|]. by destruct (parse_ints _).
  - unfold Enum. case_bool_decide as H; [done|]. cbn [orb]. assert (Hf := find_allowed (nfc value) allowed).
    destruct (List.find _ allowed) as [a|].
    + destruct Hf as [Hin Ha]. rewrite bool_decide_eq_true_2; [done|]. rewrite Ha. by apply list_elem_of_fmap_2.
    + by rewrite bool_decide_eq_false_2.
  - unfold MaxLen. cbn. by destruct (n <? _).
Qed.

Lemma run_checks_lookup r cs v f :
  fold_left (run_check r) cs v !! f
  = match last (omap (fun c => if bool_decide (check_field c = f) then fault r c else None) cs) with
    | Some e => Some e
    | None => v !! f
    end.
Proof.
  revert v. induction cs as [|c cs IH]; intros v; [done|]. cbn [fold_left omap list_omap]. rewrite IH, run_check_eq.
  case_bool_decide as H; destruct (fault r c) as [e|]; try done.
  - subst f. rewrite lookup_insert_eq, last_cons. by destruct (last _).
  - by rewrite lookup_insert_ne.
Qed.

(** a handler that runs all its checks learns all that is wrong. Whatever the checks and
    their order, each field ends with the fault of the last check of it that failed, and a
    field none of whose checks failed has none; so there are no errors exactly when every
    check passes. *)
Theorem errors_gathered r cs :
  (forall f, fold_left (run_check r) cs ∅ !! f
    = last (omap (fun c => if bool_decide (check_field c = f) then fault r c else None) cs))
  /\ (HasErrors (fold_left (run_check r) cs ∅) = false <-> forall c, c ∈ cs -> fault r c = None).
Proof.
  assert (Hl : forall f, fold_left (run_check r) cs ∅ !! f
    = last (omap (fun c => if bool_decide (check_field c = f) then fault r c else None) cs)).
  { intros f. rewrite run_checks_lookup, lookup_empty. by destruct (last _). }
  split; [done|]. unfold HasErrors. rewrite negb_false_iff, bool_decide_eq_true. split.
  - intros He c Hc. destruct (fault r c) as [e|] eqn:E; [|done]. specialize (Hl (check_field c)). rewrite He, lookup_empty in Hl.
    symmetry in Hl. apply last_None in Hl. assert (Hin : e ∈ omap (fun x => if bool_decide (check_field x = check_field c) then fault r x else None) cs).
    { apply list_elem_of_omap. exists c. by rewrite bool_decide_eq_true_2. }
    rewrite Hl in Hin. by apply not_elem_of_nil in Hin.
  - intros Hall. apply map_eq. intros f. rewrite Hl, lookup_empty. apply last_None.
    apply elem_of_nil_inv. intros e (c & Hc & He)%list_elem_of_omap. rewrite Hall in He by done. by case_bool_decide.
Qed.

End Gathering.

(** A text of thirteen long s, two bytes each, passes for a ULID: upper case, the long s is
    an S. *)
Definition long_s : text := [ascii_of_nat 197; ascii_of_nat 191].
Theorem ulid_accepts_long_s :
  isValidULID (concat (replicate 13 long_s)) = true
  /\ forallb (fun c => is_digit c || is_lower c || is_upper c) (concat (replicate 13 long_s)) = false.
Proof. split; vm_compute; reflexivity. Qed.
