(* ===== verification/AuditStore.v ===== *)
(** The audit log's storage and its HTTP interface: [audit/postgres/repository.go] over the
    table of [audit/migrations], and [audit/httpx] ([filters.go], [handler.go], [dto.go],
    [messages.go]) over any repository.

    The arguments are: JSON encoding and decoding of a payload and of the affected
    resources ([encoding/json] through a JSONB column), parsing a UUID to its canonical
    form, an RFC 3339 time, Unicode's normal form C, and the order PostgreSQL returns rows
    of equal time in, which may differ from one query to the next.

    What the audit log's storage and interface guarantee: an entry reads back as it was
    recorded, pages cut the matching entries newest first with none repeated or lost when
    their times differ, and the status of a listing tells exactly what was wrong. *)

From stdpp Require Import base gmap list strings sorting.
From Stdlib Require Import ZArith Lia Ascii Btauto.
From S2P Require Import Prelude GoStrings GoText Middleware AuditLog Requests.

Open Scope string_scope.
Open Scope list_scope.
Open Scope Z_scope.

(** ** Values of the database *)

(** What a TEXT value may hold: UTF-8 without the zero byte. *)
Fixpoint utf8_go (fuel : nat) (t : text) : bool :=
  match fuel, t with
  | S fuel, a :: _ =>
      let '(_, n) := decode_rune t in
      negb (nat_of_ascii a =? 0)%nat && (byte_in 0 127 a || (1 <? n)%nat) && utf8_go fuel (drop n t)
  | _, _ => true
  end.
Definition pg_text (s : string) : bool := utf8_go (length (bytes_of s)) (bytes_of s).

(** A TIMESTAMPTZ holds whole microseconds: pgx drops what is below. *)
Definition pg_time (ns : Z) : Z := ns / 1000 * 1000.

Definition max_int32 : Z := 2 ^ 31 - 1.

(** How a statement fails: by a duplicate key, a value a column refuses, or a fault of the
    connection; and before it, by a value JSON cannot hold; after it, by a row that cannot
    be decoded, or none. *)
Inductive store_error :=
  | EUnique | EText | ERange | EFault (what : string)
  | EMarshal (column : string) | EUnmarshal (column : string) | ENoRows | EOffsetOutOfRange.

(** [audit.Filters]. *)
Record Filters := mkFilters {
  f_ActorID : string; f_ResourceType : string; f_ResourceID : option string;
  f_OperationCategory : string; f_OperationName : string; f_Status : string;
  f_AggregateType : string; f_AggregateID : string;
  f_From : option Z; f_To : option Z; f_Limit : Z; f_Offset : Z }.

(** A row: the entry's own columns, and its JSONB columns. *)
Record row (D : Type) := mkRow {
  rw_head : EntryHead; rw_input : option D; rw_before : option D; rw_after : option D; rw_changes : option D;
  rw_resources : option D }.
Arguments mkRow {D}.
Arguments rw_head {D}.
Arguments rw_input {D}.
Arguments rw_before {D}.
Arguments rw_after {D}.
Arguments rw_changes {D}.
Arguments rw_resources {D}.

(** [audit.Repository], on a state of its own. *)
Class AuditRepository (S M : Type) := {
  repo_Create : Entry (option M) -> S -> store_error + S;
  repo_GetByID : S -> string -> store_error + Entry (option M);
  repo_List : S -> Filters -> store_error + (list (Entry (option M)) * Z) }.

(** ** The PostgreSQL repository *)

Section Repository.
Context {M D : Type} (marshal : M -> option D) (unmarshal : D -> option M)
  (marshal_resources : list AffectedResource -> option D) (unmarshal_resources : D -> option (list AffectedResource)).
Context (arrange : Filters -> list (row D) -> list (row D)).

Definition jsonOrNull (column : string) (m : option M) : store_error + option D :=
  match m with
  | None => inr None
  | Some m => match marshal m with Some d => inr (Some d) | None => inl (EMarshal column) end
  end.

(** The entry's list cannot tell a nil slice from an empty one; either reads back empty. *)
Definition jsonSliceOrNull (column : string) (l : list AffectedResource) : store_error + option D :=
  match l with
  | [] => inr None
  | _ => match marshal_resources l with Some d => inr (Some d) | None => inl (EMarshal column) end
  end.

(** Every text the statement sends. *)
Definition head_texts (h : EntryHead) : list string :=
  let opt (o : option string) := match o with Some s => [s] | None => [] end in
  [e_ID h; e_ResourceType h; e_ResourceID h] ++ opt (e_AggregateType h) ++ opt (e_AggregateID h)
  ++ [e_OperationCategory h; e_OperationName h; e_Status h; e_ActorID h; e_Username h; e_Source h] ++ opt (e_RequestID h)
  ++ [e_IP h; e_UserAgent h; e_ObjectRepr h] ++ opt (e_ErrorCode h) ++ opt (e_ErrorMessage h).

Definition with_CreatedAt (at_ : Z) (h : EntryHead) : EntryHead :=
  mkEntryHead (e_ID h) (e_ResourceType h) (e_ResourceID h) (e_AggregateType h) (e_AggregateID h)
    (e_OperationCategory h) (e_OperationName h) (e_Status h) (e_ActorID h) (e_Username h) (e_Source h) (e_RequestID h)
    (e_IP h) (e_UserAgent h) (e_ObjectRepr h) (e_AffectedResources h) (e_ErrorCode h) (e_ErrorMessage h) at_.
Definition with_resources (l : list AffectedResource) (h : EntryHead) : EntryHead :=
  mkEntryHead (e_ID h) (e_ResourceType h) (e_ResourceID h) (e_AggregateType h) (e_AggregateID h)
    (e_OperationCategory h) (e_OperationName h) (e_Status h) (e_ActorID h) (e_Username h) (e_Source h) (e_RequestID h)
    (e_IP h) (e_UserAgent h) (e_ObjectRepr h) l (e_ErrorCode h) (e_ErrorMessage h) (e_CreatedAt h).

(** [INSERT INTO audit_log]: the primary key is the id, and no row is ever changed. *)
Definition insert_row (w : row D) (table : list (row D)) : store_error + list (row D) :=
  if negb (forallb pg_text (head_texts (rw_head w))) then inl EText
  else if existsb (fun x => bool_decide (e_ID (rw_head x) = e_ID (rw_head w))) table then inl EUnique
  else inr (table ++ [w]).

(** [Create]; [fault] is what the connection may report instead of running the statement. *)
Definition Create (fault : option string) (e : Entry (option M)) (table : list (row D)) : store_error + list (row D) :=
  match jsonOrNull "input_payload" (e_InputPayload e) with inl er => inl er | inr input =>
  match jsonOrNull "before_snapshot" (e_BeforeSnapshot e) with inl er => inl er | inr before =>
  match jsonOrNull "after_snapshot" (e_AfterSnapshot e) with inl er => inl er | inr after =>
  match jsonOrNull "changed_fields" (e_ChangedFields e) with inl er => inl er | inr changes =>
  match jsonSliceOrNull "affected_resources" (e_AffectedResources (e_head e)) with inl er => inl er | inr resources =>
  match fault with Some f => inl (EFault f) | None =>
    insert_row (mkRow (with_resources [] (with_CreatedAt (pg_time (e_CreatedAt (e_head e))) (e_head e)))
                  input before after changes resources) table
  end end end end end end.

Definition column {A} (name : string) (decode : D -> option A) (absent : A) (d : option D) : store_error + A :=
  match d with
  | None => inr absent
  | Some d => match decode d with Some a => inr a | None => inl (EUnmarshal name) end
  end.

(** [scanEntry] and [unmarshalJSONFields]. *)
Definition scanEntry (w : row D) : store_error + Entry (option M) :=
  match column "input_payload" (fmap Some ∘ unmarshal) None (rw_input w) with inl er => inl er | inr input =>
  match column "before_snapshot" (fmap Some ∘ unmarshal) None (rw_before w) with inl er => inl er | inr before =>
  match column "after_snapshot" (fmap Some ∘ unmarshal) None (rw_after w) with inl er => inl er | inr after =>
  match column "changed_fields" (fmap Some ∘ unmarshal) None (rw_changes w) with inl er => inl er | inr changes =>
  match column "affected_resources" unmarshal_resources [] (rw_resources w) with inl er => inl er | inr resources =>
    inr (mkEntry (with_resources resources (rw_head w)) input before after changes)
  end end end end end.

(** [GetByID]. *)
Definition GetByID (fault : option string) (table : list (row D)) (id : string) : store_error + Entry (option M) :=
  match fault with
  | Some f => inl (EFault f)
  | None =>
      match List.find (fun w => bool_decide (e_ID (rw_head w) = id)) table with
      | None => inl ENoRows
      | Some w => scanEntry w
      end
  end.

Definition nullString (s : string) : option string := if bool_decide (s = "") then None else Some s.

(** One condition of the query: a null parameter accepts every row, a null column no other. *)
Definition cond (param column : option string) : bool :=
  match param with None => true | Some p => bool_decide (column = Some p) end.
Definition time_cond (le : Z -> Z -> bool) (param : option Z) (at_ : Z) : bool :=
  match param with None => true | Some p => le (pg_time p) at_ end.

(** The query's [WHERE]. *)
Definition where_ (f : Filters) (h : EntryHead) : bool :=
  cond (nullString (f_ActorID f)) (Some (e_ActorID h))
  && cond (nullString (f_ResourceType f)) (Some (e_ResourceType h))
  && cond (f_ResourceID f) (Some (e_ResourceID h))
  && cond (nullString (f_OperationCategory f)) (Some (e_OperationCategory h))
  && cond (nullString (f_OperationName f)) (Some (e_OperationName h))
  && cond (nullString (f_Status f)) (Some (e_Status h))
  && cond (nullString (f_AggregateType f)) (e_AggregateType h)
  && cond (nullString (f_AggregateID f)) (e_AggregateID h)
  && time_cond Z.leb (f_From f) (e_CreatedAt h)
  && time_cond Z.geb (f_To f) (e_CreatedAt h).

Definition matching (f : Filters) (table : list (row D)) : list (row D) :=
  List.filter (fun w => where_ f (rw_head w)) table.

(** The texts the query sends. *)
Definition filter_texts (f : Filters) : list string :=
  [f_ActorID f; f_ResourceType f; default "" (f_ResourceID f); f_OperationCategory f; f_OperationName f; f_Status f;
   f_AggregateType f; f_AggregateID f].

(** The rows of a page, each with the count of all that match. *)
Definition page_rows (f : Filters) (limit offset : Z) (table : list (row D)) : list (row D * Z) :=
  let found := matching f table in
  (fun w => (w, Z.of_nat (length found))) <$> take (Z.to_nat limit) (drop (Z.to_nat offset) (arrange f found)).

(** The loop over the rows: the total is the last one scanned. *)
Fixpoint scan_rows (rows : list (row D * Z)) (entries : list (Entry (option M))) (total : Z)
  : store_error + (list (Entry (option M)) * Z) :=
  match rows with
  | [] => inr (entries, total)
  | (w, t) :: rows =>
      match scanEntry w with
      | inl er => inl er
      | inr e => scan_rows rows (entries ++ [e]) t
      end
  end.

(** [List]. *)
Definition List_ (fault : option string) (table : list (row D)) (f : Filters)
  : store_error + (list (Entry (option M)) * Z) :=
  match Filters_Page (f_Limit f) (f_Offset f) with
  | None => inl EOffsetOutOfRange
  | Some (limit, offset) =>
      match fault with
      | Some e => inl (EFault e)
      | None =>
          if negb (forallb pg_text (filter_texts f)) then inl EText
          else if max_int32 <? Z.of_nat (length (matching f table)) then inl ERange
          else scan_rows (page_rows f limit offset table) [] 0
      end
  end.

#[export] Instance NewRepository : AuditRepository (list (row D)) M :=
  {| repo_Create := Create None; repo_GetByID := GetByID None; repo_List := List_ None |}.

End Repository.

(** ** The HTTP interface *)

Module Httpx.

(** [Messages], [DefaultMessages] and [WithMessages]. *)
Record Messages := mkMessages { ListFailed : string; NotFound : string; GetFailed : string; InvalidOffset : string }.
Definition DefaultMessages : Messages :=
  mkMessages "Failed to list audit log entries" "Audit log entry not found" "Failed to get audit log entry"
    "Offset is out of range; narrow the filters instead of paging further".
Definition WithMessages (m dst : Messages) : Messages :=
  let over (new old : string) := if bool_decide (new = "") then old else new in
  mkMessages (over (ListFailed m) (ListFailed dst)) (over (NotFound m) (NotFound dst)) (over (GetFailed m) (GetFailed dst))
    (over (InvalidOffset m) (InvalidOffset dst)).

(** [Response]: the entry as it is sent, its id printed. *)
Record Response (M : Type) := mkResponse {
  rs_head : EntryHead; rs_InputPayload : option M; rs_BeforeSnapshot : option M; rs_AfterSnapshot : option M;
  rs_ChangedFields : option M }.
Arguments mkResponse {M}.
Arguments rs_head {M}.
Definition ToResponse {M} (e : Entry (option M)) : Response M :=
  mkResponse (e_head e) (e_InputPayload e) (e_BeforeSnapshot e) (e_AfterSnapshot e) (e_ChangedFields e).
Definition ToResponseList {M} (entries : list (Entry (option M))) : list (Response M) := ToResponse <$> entries.

(** What a handler answers: the errors of the fields, an error envelope, a page with its
    total, limit and offset, or an entry. *)
Inductive reply (M : Type) :=
  | RFields (errs : gmap string field_error)
  | RError (status : Z) (body : ErrorResponse)
  | RList (items : list (Response M)) (total limit offset : Z)
  | ROne (item : Response M).
Arguments RFields {M}.
Arguments RError {M}.
Arguments RList {M}.
Arguments ROne {M}.

Definition status {M} (a : reply M) : Z :=
  match a with RFields _ => 400 | RError s _ => s | RList _ _ _ _ | ROne _ => 200 end.

Section Handler.
Context {S M : Type} (repo : AuditRepository S M).
Context (uuid_parse : text -> option string) (rfc3339 : text -> option Z) (nfc : text -> text).
Context (messages : Messages).

Definition MaxFilterLength : Z := 256.
Definition operationCategories : list text := bytes_of <$> Actions.
Definition statuses : list text := bytes_of <$> Statuses.

Definition filterParams : list string :=
  ["limit"; "offset"; "operation_category"; "status"; "from"; "to"; "resource_id";
   "actor_id"; "resource_type"; "operation_name"; "aggregate_type"; "aggregate_id"].
Definition usedFilterParams (has : string -> bool) : list string := List.filter has filterParams.

Definition rawBounded (r : parameters) (param : string) (v : gmap string field_error) : gmap string field_error * string :=
  let raw := pr_query r param in
  (if MaxFilterLength <? RuneCount raw then AddError param (FTooLong MaxFilterLength) v else v, string_of raw).

(** [FiltersFromRequest]. *)
Definition FiltersFromRequest (r : parameters) (v : gmap string field_error) : gmap string field_error * Filters :=
  let '(v, limit) := IntQuery r "limit" 20 v in
  let limit := MaxInt limit 100 in
  let '(v, offset) := IntQuery r "offset" 0 v in
  let '(v, category) := Enum nfc "operation_category" (pr_query r "operation_category") operationCategories v in
  let '(v, status) := Enum nfc "status" (pr_query r "status") statuses v in
  let '(v, from) := TimeQuery rfc3339 r "from" v in
  let '(v, to) := TimeQuery rfc3339 r "to" v in
  let '(v, resourceID) := UUIDQuery uuid_parse r "resource_id" v in
  let '(v, actorID) := rawBounded r "actor_id" v in
  let '(v, resourceType) := rawBounded r "resource_type" v in
  let '(v, operationName) := rawBounded r "operation_name" v in
  let '(v, aggregateType) := rawBounded r "aggregate_type" v in
  let '(v, aggregateID) := rawBounded r "aggregate_id" v in
  (v, mkFilters actorID resourceType resourceID (string_of category) operationName (string_of status)
        aggregateType aggregateID from to limit offset).

Definition envelope (r : request) (st : Z) (code message : string) (opts : list ErrorOption) : reply M :=
  RError st (error_response r code message opts).

(** [Handler.List]: the lines it logs and its answer. *)
Definition List_handler (s : S) (r : request) (p : parameters) (has : string -> bool) : list log_line * reply M :=
  let '(v, filters) := FiltersFromRequest p ∅ in
  if HasErrors v then let '(line, _, errs) := WriteErrors r v in ([line], RFields errs)
  else match repo_List s filters with
       | inl EOffsetOutOfRange => ([], envelope r 400 "VALIDATION_ERROR" (InvalidOffset messages) [WithField "offset"])
       | inl _ =>
           ([mkLine "listing audit entries" [("path", LStr (rq_Path r)); ("filters", LStrs (bytes_of <$> usedFilterParams has))]],
            envelope r 500 "INTERNAL_ERROR" (ListFailed messages) [])
       | inr (entries, total) => ([], RList (ToResponseList entries) total (f_Limit filters) (f_Offset filters))
       end.

(** [Handler.GetByID]. *)
Definition GetByID_handler (s : S) (r : request) (p : parameters) : list log_line * reply M :=
  match UUIDParam uuid_parse p "id" ∅ with
  | (v, Some id) =>
      match repo_GetByID s id with
      | inl ENoRows => ([], envelope r 404 "NOT_FOUND" (NotFound messages) [])
      | inl _ => ([mkLine "getting audit entry" [("id", LStr (bytes_of id))]],
                  envelope r 500 "INTERNAL_ERROR" (GetFailed messages) [])
      | inr e => ([], ROne (ToResponse e))
      end
  | (v, None) => let '(line, _, errs) := WriteErrors r v in ([line], RFields errs)
  end.

End Handler.
End Httpx.

(** ** Pages of a list *)

Lemma take_drop_pages {A} (n K : nat) (l : list A) :
  concat ((fun k => take n (drop (k * n) l)) <$> seq 0 K) = take (K * n) l.
Proof.
  revert l. induction K as [|K IH]; intros l; [done|]. cbn [seq fmap list_fmap concat]. rewrite Nat.mul_0_l, drop_0.
  rewrite <- fmap_S_seq, <- list_fmap_compose.
  rewrite (list_fmap_ext _ (fun k => take n (drop (k * n) (drop n l)))).
  - rewrite IH. rewrite Nat.mul_succ_l, (Nat.add_comm (K * n)). by rewrite take_take_drop.
  - intros i k _. unfold compose. rewrite drop_drop. done.
Qed.

(** ** Writing and reading *)

Section Storage.
Context {M D : Type} (marshal : M -> option D) (unmarshal : D -> option M)
  (marshal_resources : list AffectedResource -> option D) (unmarshal_resources : D -> option (list AffectedResource)).

(** The payload is one that JSON gives back as it is. *)
Definition stable (m : option M) : Prop := forall x d, m = Some x -> marshal x = Some d -> unmarshal d = Some x.
Definition stable_resources (l : list AffectedResource) : Prop :=
  forall d, marshal_resources l = Some d -> unmarshal_resources d = Some l.

Lemma json_column name m d : stable m -> jsonOrNull marshal name m = inr d ->
  column name (fmap Some ∘ unmarshal) None d = inr m.
Proof.
  intros Hs. destruct m as [x|]; cbn; [|by intros [= <-]]. destruct (marshal x) as [y|] eqn:E; [|done].
  intros [= <-]. cbn. by rewrite (Hs x y).
Qed.
Lemma json_slice name l d : stable_resources l -> jsonSliceOrNull marshal_resources name l = inr d ->
  column name unmarshal_resources [] d = inr l.
Proof.
  intros Hs. destruct l as [|a l]; [by intros [= <-]|]. unfold jsonSliceOrNull.
  destruct (marshal_resources _) as [y|] eqn:E; [|done]. intros [= <-]. cbn. by rewrite (Hs y).
Qed.

Lemma find_app {A} (p : A -> bool) l r :
  List.find p (l ++ r) = match List.find p l with Some a => Some a | None => List.find p r end.
Proof. induction l as [|a l IH]; [done|]. cbn. by destruct (p a). Qed.
Lemma existsb_find {A} (p : A -> bool) l : existsb p l = false -> List.find p l = None.
Proof. induction l as [|a l IH]; [done|]. cbn. by destruct (p a). Qed.

Abbreviation Create := (Create marshal marshal_resources).
Abbreviation GetByID := (GetByID unmarshal unmarshal_resources).
Abbreviation scanEntry := (scanEntry unmarshal unmarshal_resources).

(** The entry as the table gives it back: its time is of whole microseconds. *)
Definition truncated (e : Entry (option M)) : Entry (option M) :=
  mkEntry (with_CreatedAt (pg_time (e_CreatedAt (e_head e))) (e_head e))
    (e_InputPayload e) (e_BeforeSnapshot e) (e_AfterSnapshot e) (e_ChangedFields e).

(** What a successful [Create] did. *)
Lemma Create_inv e table table' : Create None e table = inr table' ->
  exists w, table' = table ++ [w] /\ e_ID (rw_head w) = e_ID (e_head e)
    /\ existsb (fun x => bool_decide (e_ID (rw_head x) = e_ID (e_head e))) table = false
    /\ (stable (e_InputPayload e) -> stable (e_BeforeSnapshot e) -> stable (e_AfterSnapshot e) ->
        stable (e_ChangedFields e) -> stable_resources (e_AffectedResources (e_head e)) ->
        scanEntry w = inr (truncated e)).
Proof.
  unfold AuditStore.Create.
  destruct (jsonOrNull marshal "input_payload" _) as [|input] eqn:E1; [done|].
  destruct (jsonOrNull marshal "before_snapshot" _) as [|before] eqn:E2; [done|].
  destruct (jsonOrNull marshal "after_snapshot" _) as [|after] eqn:E3; [done|].
  destruct (jsonOrNull marshal "changed_fields" _) as [|changes] eqn:E4; [done|].
  destruct (jsonSliceOrNull _ _ _) as [|resources] eqn:E5; [done|].
  unfold insert_row. destruct (negb _); [done|]. cbn [rw_head e_ID with_resources with_CreatedAt].
  destruct (existsb _ table) eqn:Ex; [done|]. intros [= <-]. eexists. split; [done|]. split; [done|]. split; [done|].
  intros H1 H2 H3 H4 H5. unfold AuditStore.scanEntry. cbn [rw_input rw_before rw_after rw_changes rw_resources].
  rewrite (json_column _ _ _ H1 E1), (json_column _ _ _ H2 E2), (json_column _ _ _ H3 E3), (json_column _ _ _ H4 E4),
    (json_slice _ _ _ H5 E5). by destruct e as [[] ? ? ? ?].
Qed.

(** an entry that was recorded reads back by its id as it was, its payloads too when JSON
    gives them back, with its time cut to the microsecond; recording it changes no earlier
    row, so every other id still answers what it did, and a second entry with that id is
    refused. *)
Theorem create_get e table table' : Create None e table = inr table' ->
  stable (e_InputPayload e) -> stable (e_BeforeSnapshot e) -> stable (e_AfterSnapshot e) ->
  stable (e_ChangedFields e) -> stable_resources (e_AffectedResources (e_head e)) ->
  GetByID None table' (e_ID (e_head e)) = inr (truncated e)
  /\ (forall id, id <> e_ID (e_head e) -> GetByID None table' id = GetByID None table id)
  /\ table `prefix_of` table'
  /\ Create None e table' = inl EUnique.
Proof.
  intros Hc H1 H2 H3 H4 H5. destruct (Create_inv _ _ _ Hc) as (w & -> & Hid & Hno & Hscan).
  specialize (Hscan H1 H2 H3 H4 H5). unfold AuditStore.GetByID. split; [|split; [|split]].
  - rewrite find_app, (existsb_find _ _ Hno). cbn [List.find]. by rewrite bool_decide_eq_true_2.
  - intros id Hne. rewrite find_app. destruct (List.find _ table); [done|]. cbn [List.find].
    rewrite bool_decide_eq_false_2; [done|congruence].
  - by apply prefix_app_r.
  - revert Hc. unfold AuditStore.Create. repeat (destruct (jsonOrNull _ _ _); [done|]). destruct (jsonSliceOrNull _ _ _); [done|].
    unfold insert_row. destruct (negb _); [done|]. cbn [rw_head e_ID with_resources with_CreatedAt]. intros _.
    rewrite existsb_app. cbn [existsb]. rewrite (bool_decide_eq_true_2 (e_ID (rw_head w) = _)) by done.
    by rewrite orb_true_r.
Qed.

(** ** Listing *)

(** Newer first. *)
Definition newer (a b : row D) : Prop := e_CreatedAt (rw_head b) <= e_CreatedAt (rw_head a).

Context (arrange : Filters -> list (row D) -> list (row D)).
(** [ORDER BY created_at DESC]: the rows in some order of that kind. *)
Definition orders : Prop := forall f l, arrange f l ≡ₚ l /\ StronglySorted newer (arrange f l).

Abbreviation List_ := (List_ unmarshal unmarshal_resources arrange).

Definition page_of (f : Filters) (limit offset : Z) : Filters :=
  mkFilters (f_ActorID f) (f_ResourceType f) (f_ResourceID f) (f_OperationCategory f) (f_OperationName f) (f_Status f)
    (f_AggregateType f) (f_AggregateID f) (f_From f) (f_To f) limit offset.

Lemma scan_rows_ok rows es acc t :
  Forall2 (fun w e => scanEntry w.1 = inr e) rows es ->
  scan_rows unmarshal unmarshal_resources rows acc t = inr (acc ++ es, default t (last (rows.*2))).
Proof.
  intros H. revert acc t. induction H as [|[w c] e rows es He _ IH]; intros acc t; [by rewrite app_nil_r|].
  cbn [scan_rows]. cbn in He. rewrite He, IH, <- app_assoc. f_equal. f_equal. cbn [fmap list_fmap snd].
  rewrite last_cons. by destruct (last _).
Qed.

Lemma Forall2_take_drop {A B} (P : A -> B -> Prop) n m l k :
  Forall2 P l k -> Forall2 P (take n (drop m l)) (take n (drop m k)).
Proof. intros H. by apply Forall2_take, Forall2_drop. Qed.

(** The rows that match, decoded. *)
Lemma scan_all l : (forall w, w ∈ l -> exists e, scanEntry w = inr e) -> exists es, Forall2 (fun w e => scanEntry w = inr e) l es.
Proof.
  induction l as [|w l IH]; intros H; [by exists []|]. destruct (H w) as [e He]; [by left|].
  destruct IH as [es Hes]; [by intros x Hx; apply H; right|]. exists (e :: es). by constructor.
Qed.

Lemma List_page f table limit offset L es :
  1 <= limit <= MaxListLimit -> 0 <= offset <= MaxListOffset ->
  forallb pg_text (filter_texts f) = true -> Z.of_nat (length (matching f table)) <= max_int32 ->
  arrange (page_of f limit offset) (matching f table) = L -> Forall2 (fun w e => scanEntry w = inr e) L es ->
  exists total, List_ None table (page_of f limit offset)
    = inr (take (Z.to_nat limit) (drop (Z.to_nat offset) es), total)
    /\ (total = Z.of_nat (length (matching f table)) \/ take (Z.to_nat limit) (drop (Z.to_nat offset) es) = []).
Proof.
  intros Hl Ho Ht Hc HL Hes. unfold AuditStore.List_, Filters_Page. cbn [f_Limit f_Offset page_of].
  rewrite (proj2 (Z.ltb_ge offset 0)), (proj2 (Z.ltb_ge MaxListOffset offset)) by lia. cbn [orb].
  rewrite (proj2 (Z.leb_gt limit 0)), (proj2 (Z.ltb_ge MaxListLimit limit)) by lia.
  replace (filter_texts (page_of f limit offset)) with (filter_texts f) by done. rewrite Ht. cbn [negb].
  replace (matching (page_of f limit offset) table) with (matching f table) by done.
  rewrite (proj2 (Z.ltb_ge max_int32 _)) by done. unfold page_rows.
  replace (matching (page_of f limit offset) table) with (matching f table) by done. rewrite HL.
  set (c := Z.of_nat _). assert (HF := Forall2_take_drop _ (Z.to_nat limit) (Z.to_nat offset) _ _ Hes).
  set (page := take _ (drop _ L)) in *. rewrite (scan_rows_ok _ (take (Z.to_nat limit) (drop (Z.to_nat offset) es))).
  - eexists. split; [done|]. destruct (decide (page = [])) as [->|Hne]; [right; by apply Forall2_nil_inv_l in HF|left].
    rewrite <- list_fmap_compose. rewrite fmap_last. destruct (last page) eqn:E; [done|]. by apply last_None in E.
  - apply Forall2_fmap_l. eapply Forall2_impl; [exact HF|done].
Qed.

(** With distinct times there is one order. *)
Lemma arrange_unique f g l : orders -> NoDup ((fun w => e_CreatedAt (rw_head w)) <$> l) -> arrange f l = arrange g l.
Proof.
  intros Ho Hnd. destruct (Ho f l) as [Hp Hs], (Ho g l) as [Hq Ht].
  apply (StronglySorted_unique_strong newer); try done; [|by rewrite Hp, Hq].
  intros a b Ha%(elem_of_Permutation_proper _ _ _ Hp) Hb%(elem_of_Permutation_proper _ _ _ Hq) Hab Hba.
  apply list_elem_of_lookup in Ha as [i Hi], Hb as [j Hj].
  assert (i = j) as <-; [|congruence]. eapply NoDup_lookup; [exact Hnd|by rewrite list_lookup_fmap, Hi|].
  rewrite list_lookup_fmap, Hj. cbn. f_equal. unfold newer in *. lia.
Qed.

(** paging through a listing meets every matching entry once, newest first. When the
    times of the entries that match differ, pages of [n] read one after another return,
    together, exactly those entries in the order of their times, whatever order the database
    would give to equal ones, and each page that is not empty carries their number. *)
Theorem pages_partition f table (n K : nat) :
  orders -> (1 <= n <= 1000)%nat -> Z.of_nat ((K - 1) * n) <= MaxListOffset ->
  (length (matching f table) <= K * n)%nat -> Z.of_nat (length (matching f table)) <= max_int32 ->
  forallb pg_text (filter_texts f) = true -> (forall w, w ∈ matching f table -> exists e, scanEntry w = inr e) ->
  NoDup ((fun w => e_CreatedAt (rw_head w)) <$> matching f table) ->
  exists rows entries pages,
    rows ≡ₚ matching f table /\ StronglySorted newer rows /\ Forall2 (fun w e => scanEntry w = inr e) rows entries
    /\ concat pages = entries
    /\ Forall2 (fun k page => exists total,
         List_ None table (page_of f (Z.of_nat n) (Z.of_nat (k * n))) = inr (page, total)
         /\ (total = Z.of_nat (length (matching f table)) \/ page = [])) (seq 0 K) pages.
Proof.
  intros Ho Hn Hoff Hlen Hc Ht Hscan Hnd. set (rows := arrange f (matching f table)). destruct (Ho f (matching f table)) as [Hp Hs].
  fold rows in Hp, Hs. destruct (scan_all rows) as [es Hes]; [by intros w Hw; apply Hscan; rewrite <- Hp|].
  exists rows, es, ((fun k => take n (drop (k * n) es)) <$> seq 0 K). split_and!; try done.
  - rewrite take_drop_pages, take_ge; [done|]. apply Forall2_length in Hes. rewrite <- Hes, (Permutation_length Hp). lia.
  - apply Forall2_fmap_r, Forall_Forall2_diag, Forall_forall. intros k Hk%elem_of_seq.
    destruct (List_page f table (Z.of_nat n) (Z.of_nat (k * n)) rows es) as (total & Hl & Ht'); try done.
    + unfold MaxListLimit. lia.
    + split; [lia|]. etransitivity; [|exact Hoff]. apply inj_le, Nat.mul_le_mono_r. lia.
    + by apply arrange_unique.
    + rewrite !Nat2Z.id in *. by exists total.
Qed.

(** The count is of the window, and the window has no row to carry it: a page past the end
    reports that nothing matches. *)
Theorem empty_page_total f table limit offset :
  orders -> 1 <= limit <= MaxListLimit -> Z.of_nat (length (matching f table)) <= offset <= MaxListOffset ->
  Z.of_nat (length (matching f table)) <= max_int32 -> forallb pg_text (filter_texts f) = true ->
  List_ None table (page_of f limit offset) = inr ([], 0).
Proof.
  intros Ho Hl Hoff Hc Ht. unfold AuditStore.List_, Filters_Page. cbn [f_Limit f_Offset page_of].
  rewrite (proj2 (Z.ltb_ge offset 0)), (proj2 (Z.ltb_ge MaxListOffset offset)) by lia. cbn [orb].
  rewrite (proj2 (Z.leb_gt limit 0)), (proj2 (Z.ltb_ge MaxListLimit limit)) by lia.
  change (filter_texts (page_of f limit offset)) with (filter_texts f). rewrite Ht. cbn [negb].
  change (matching (page_of f limit offset) table) with (matching f table).
  rewrite (proj2 (Z.ltb_ge max_int32 _)) by done. unfold page_rows.
  change (matching (page_of f limit offset) table) with (matching f table).
  rewrite drop_ge; [by rewrite take_nil|]. rewrite (Permutation_length (proj1 (Ho _ _))). lia.
Qed.

(** The window of times keeps what it asks for, though both ends and the stored times are
    cut to the microsecond. *)
Lemma pg_time_mono a b : a <= b -> pg_time a <= pg_time b.
Proof. unfold pg_time. intros H. apply Z.mul_le_mono_nonneg_r; [lia|]. by apply Z.div_le_mono. Qed.

End Storage.

(** ** An example *)

Definition plain_head (id : string) (at_ : Z) : EntryHead :=
  mkEntryHead id "user" "42" None None "create" "create_user" "success" "actor" "name" "http" None "" "" "" [] None None at_.
Definition plain (id : string) (at_ : Z) : Entry (option string) := mkEntry (plain_head id at_) None None None None.
Definition no_filters : Filters := mkFilters "" "" None "" "" "" "" "" None None 20 0.

(** The rows sorted by time, equal ones as they were. *)
Fixpoint put {D} (w : row D) (l : list (row D)) : list (row D) :=
  match l with
  | [] => [w]
  | x :: l' => if e_CreatedAt (rw_head x) <=? e_CreatedAt (rw_head w) then w :: l else x :: put w l'
  end.
Definition by_time {D} (l : list (row D)) : list (row D) := foldr put [] l.

Lemma put_perm {D} (w : row D) l : put w l ≡ₚ w :: l.
Proof. induction l as [|x l IH]; [done|]. cbn. destruct (_ <=? _); [done|]. rewrite IH. apply Permutation_swap. Qed.
Lemma put_sorted {D} (w : row D) l : StronglySorted newer l -> StronglySorted newer (put w l).
Proof.
  induction 1 as [|x l Hl IH Hx]; cbn; [by repeat constructor|]. destruct (_ <=? _) eqn:E.
  - apply Z.leb_le in E. constructor; [by constructor|]. constructor; [done|]. eapply Forall_impl; [exact Hx|].
    unfold newer. intros. lia.
  - apply Z.leb_gt in E. constructor; [done|]. rewrite (put_perm w l). constructor; [unfold newer; lia|done].
Qed.
Lemma by_time_ok {D} (l : list (row D)) : by_time l ≡ₚ l /\ StronglySorted newer (by_time l).
Proof.
  unfold by_time. induction l as [|w l [IH IHs]]; cbn; [by split; [|constructor]|]. split; [by rewrite put_perm, IH|by apply put_sorted].
Qed.

Definition json_id (m : string) : option string := Some m.
Definition no_resources (l : list AffectedResource) : option string := None.
Definition no_decode (d : string) : option (list AffectedResource) := None.
Definition saved (id : string) (at_ : Z) : row string := mkRow (plain_head id at_) None None None None None.

(** Recording an entry at 1234567 ns and reading it back. *)
Lemma create_get_witness :
  AuditStore.GetByID json_id no_decode None [saved "a" 5000; saved "b" 1234000] "b" = inr (truncated (plain "b" 1234567)).
Proof.
  apply (proj1 (create_get json_id json_id no_resources no_decode (plain "b" 1234567) [saved "a" 5000]
    [saved "a" 5000; saved "b" 1234000] eq_refl ltac:(discriminate) ltac:(discriminate) ltac:(discriminate)
    ltac:(discriminate) ltac:(discriminate))).
Defined.

(** Three entries in pages of two. *)
Definition three : list (row string) := [saved "a" 1000; saved "b" 3000; saved "c" 2000].
Lemma pages_partition_witness :
  exists entries (pages : list (list (Entry (option string)))), length entries = 3%nat /\ concat pages = entries
    /\ Forall2 (fun k page => exists total,
         List_ json_id no_decode (fun _ => by_time) None three (page_of no_filters 2 (Z.of_nat (k * 2))) = inr (page, total)
         /\ (total = 3 \/ page = [])) [0%nat; 1%nat] pages.
Proof.
  destruct (pages_partition json_id no_decode (fun _ => by_time) no_filters three 2 2)
    as (rows & es & pages & Hp & _ & Hes & Hc & Hpages); try (cbn; lia); try (vm_compute; lia); try (vm_compute; done); try done.
  - intros f l. apply by_time_ok.
  - intros w Hw. cbn in Hw. repeat (apply elem_of_cons in Hw as [->|Hw]; [by eexists|]). by apply not_elem_of_nil in Hw.
  - cbn. repeat constructor; set_solver.
  - exists es, pages. split; [|split; [done|exact Hpages]]. apply Forall2_length in Hes. rewrite <- Hes. by rewrite (Permutation_length Hp).
Defined.

(** Rows of one time may come in one order for the first page and in the other for the
    second. *)
Definition fickle (f : Filters) (l : list (row string)) : list (row string) :=
  if f_Offset f =? 0 then by_time l else by_time (rev l).
Definition twins : list (row string) := [saved "a" 1000; saved "b" 1000].
Theorem ties_lose_an_entry :
  orders fickle
  /\ (exists e total, List_ json_id no_decode fickle None twins (page_of no_filters 1 0) = inr ([e], total)
       /\ List_ json_id no_decode fickle None twins (page_of no_filters 1 1) = inr ([e], total) /\ total = 2).
Proof.
  split.
  - intros f l. unfold fickle. destruct (_ =? 0); [apply by_time_ok|]. destruct (by_time_ok (rev l)) as [Hp Hs].
    split; [|done]. etransitivity; [exact Hp|]. symmetry. apply Permutation_rev.
  - exists (plain "a" 1000), 2. split; [|split]; reflexivity.
Qed.

(** ** The status of a listing *)

Section Statuses.
Context {M D : Type} (unmarshal : D -> option M) (unmarshal_resources : D -> option (list AffectedResource))
  (arrange : Filters -> list (row D) -> list (row D)).
Context (marshal : M -> option D) (marshal_resources : list AffectedResource -> option D).
Context (uuid_parse : text -> option string) (rfc3339 : text -> option Z) (nfc : text -> text) (messages : Httpx.Messages).

Abbreviation repo := (NewRepository marshal unmarshal marshal_resources unmarshal_resources arrange).

Definition natural (t : text) : bool := match ParseInt t with Some n => 0 <=? n | None => false end.
Definition given (t : text) : bool := negb (bool_decide (t = [])).
Definition free_texts : list string := ["actor_id"; "resource_type"; "operation_name"; "aggregate_type"; "aggregate_id"].

(** The value of a parameter that is refused. *)
Definition refused (p : parameters) (name : string) : bool :=
  let t := pr_query p name in
  if bool_decide (name ∈ ["limit"; "offset"]) then given t && negb (natural t)
  else if bool_decide (name = "operation_category") then given (nfc t) && negb (bool_decide (nfc t ∈ nfc <$> Httpx.operationCategories))
  else if bool_decide (name = "status") then given (nfc t) && negb (bool_decide (nfc t ∈ nfc <$> Httpx.statuses))
  else if bool_decide (name ∈ ["from"; "to"]) then given t && negb (bool_decide (is_Some (rfc3339 t)))
  else if bool_decide (name = "resource_id") then given t && negb (bool_decide (is_Some (uuid_parse t)))
  else 256 <? RuneCount t.

Definition offset_of (p : parameters) : Z :=
  if given (pr_query p "offset") then default 0 (ParseInt (pr_query p "offset")) else 0.

Lemma HasErrors_step (b : bool) f e v : HasErrors (if b then AddError f e v else v) = b || HasErrors v.
Proof.
  destruct b; [|done]. unfold HasErrors, AddError. rewrite bool_decide_eq_false_2; [done|]. apply insert_non_empty.
Qed.

Lemma IntQuery_faults r param d v :
  HasErrors (IntQuery r param d v).1 = (given (pr_query r param) && negb (natural (pr_query r param))) || HasErrors v.
Proof.
  unfold IntQuery, given, natural. case_bool_decide; [done|]. destruct (ParseInt _) as [n|]; cbn.
  - destruct (n <? 0) eqn:E; cbn; [rewrite (HasErrors_step true)|]; (destruct (0 <=? n) eqn:E'; [|done || lia]); try lia; done.
  - by rewrite (HasErrors_step true).
Qed.
Lemma optional_faults {A} param raw (parse : text -> option A) e v :
  HasErrors (optional param raw parse e v).1 = (given raw && negb (bool_decide (is_Some (parse raw)))) || HasErrors v.
Proof.
  unfold optional, given. case_bool_decide; [done|]. destruct (parse raw); [done|].
  cbn [fst]. by rewrite (HasErrors_step true).
Qed.
Lemma find_same (x : text) allowed :
  is_Some (List.find (fun a => bool_decide (x = nfc a)) allowed) <-> x ∈ nfc <$> allowed.
Proof.
  induction allowed as [|a l IH]; cbn [List.find fmap list_fmap]; [split; [by intros [? ?]|by intros ?%not_elem_of_nil]|].
  rewrite elem_of_cons. case_bool_decide; [split; [by left|by eexists]|]. rewrite IH. naive_solver.
Qed.
Lemma Enum_faults param t allowed v :
  HasErrors (Enum nfc param t allowed v).1 = (given (nfc t) && negb (bool_decide (nfc t ∈ nfc <$> allowed))) || HasErrors v.
Proof.
  unfold Enum, given. case_bool_decide; [done|]. rewrite <- (bool_decide_ext _ _ (find_same (nfc t) allowed)).
  destruct (List.find _ allowed); [done|]. cbn [fst]. by rewrite (HasErrors_step true).
Qed.
Lemma rawBounded_faults r param v :
  HasErrors (Httpx.rawBounded r param v).1 = (256 <? RuneCount (pr_query r param)) || HasErrors v.
Proof. apply HasErrors_step. Qed.

Lemma Enum_value param t allowed v : let '(v', value) := Enum nfc param t allowed v in
  HasErrors v' = false -> value = [] \/ value ∈ allowed.
Proof.
  unfold Enum. case_bool_decide; [by left|]. destruct (List.find _ allowed) as [a|] eqn:E.
  - intros _. right. apply list_elem_of_In. by apply (List.find_some _ _ E).
  - by rewrite (HasErrors_step true).
Qed.

Lemma IntQuery_value r param v : let '(v', n) := IntQuery r param 0 v in
  HasErrors v' = false -> n = if given (pr_query r param) then default 0 (ParseInt (pr_query r param)) else 0.
Proof.
  unfold IntQuery, given. case_bool_decide; [done|]. destruct (ParseInt _) as [n|]; [|by rewrite (HasErrors_step true)].
  destruct (n <? 0); [by rewrite (HasErrors_step true)|done].
Qed.
Lemma IntQuery_nonneg r param d v : 0 <= d -> 0 <= (IntQuery r param d v).2.
Proof. intros H. unfold IntQuery. case_bool_decide; [done|]. destruct (ParseInt _) as [n|]; [|done]. destruct (n <? 0) eqn:E; cbn; [done|lia]. Qed.

Lemma optional_value {A} param raw (parse : text -> option A) e v a :
  (optional param raw parse e v).2 = Some a -> exists t, parse t = Some a.
Proof. unfold optional. case_bool_decide; [done|]. destruct (parse raw) eqn:E; [|done]. intros [= <-]. by exists raw. Qed.

Lemma category_text t : t = [] \/ t ∈ Httpx.operationCategories -> pg_text (string_of t) = true.
Proof. intros [->|H]; [done|]. cbn in H. repeat (apply elem_of_cons in H as [->|H]; [done|]). by apply not_elem_of_nil in H. Qed.
Lemma status_text t : t = [] \/ t ∈ Httpx.statuses -> pg_text (string_of t) = true.
Proof. intros [->|H]; [done|]. cbn in H. repeat (apply elem_of_cons in H as [->|H]; [done|]). by apply not_elem_of_nil in H. Qed.

Lemma refused_all p : existsb (refused p) Httpx.filterParams =
  let bad_int n := given (pr_query p n) && negb (natural (pr_query p n)) in
  let bad_enum n allowed := given (nfc (pr_query p n)) && negb (bool_decide (nfc (pr_query p n) ∈ nfc <$> allowed)) in
  let bad_time n := given (pr_query p n) && negb (bool_decide (is_Some (rfc3339 (pr_query p n)))) in
  let long n := 256 <? RuneCount (pr_query p n) in
  bad_int "limit" || (bad_int "offset" || (bad_enum "operation_category" Httpx.operationCategories
  || (bad_enum "status" Httpx.statuses || (bad_time "from" || (bad_time "to"
  || ((given (pr_query p "resource_id") && negb (bool_decide (is_Some (uuid_parse (pr_query p "resource_id")))))
  || (long "actor_id" || (long "resource_type" || (long "operation_name" || (long "aggregate_type"
  || (long "aggregate_id" || false))))))))))).
Proof. reflexivity. Qed.

(** What [FiltersFromRequest] reads: the errors are those of the parameters refused, and
    without any the offset and the texts are those of the query. *)
Lemma filters_read p : (forall t u, uuid_parse t = Some u -> pg_text u = true) ->
  let '(v, f) := Httpx.FiltersFromRequest uuid_parse rfc3339 nfc p ∅ in
  HasErrors v = existsb (refused p) Httpx.filterParams
  /\ (HasErrors v = false -> f_Offset f = offset_of p /\ 0 <= f_Offset f /\ f_Limit f <= 100
      /\ forallb pg_text (filter_texts f) = forallb (fun n => pg_text (string_of (pr_query p n))) free_texts).
Proof.
  intros Hu. unfold Httpx.FiltersFromRequest.
  assert (F1 := IntQuery_faults p "limit" 20 ∅). destruct (IntQuery p "limit" 20 ∅) as [v1 l].
  assert (F2 := IntQuery_faults p "offset" 0 v1). assert (V2 := IntQuery_value p "offset" v1).
  assert (N2 := IntQuery_nonneg p "offset" 0 v1 ltac:(done)). destruct (IntQuery p "offset" 0 v1) as [v2 o].
  assert (F3 := Enum_faults "operation_category" (pr_query p "operation_category") Httpx.operationCategories v2).
  assert (V3 := Enum_value "operation_category" (pr_query p "operation_category") Httpx.operationCategories v2).
  destruct (Enum nfc "operation_category" _ _ v2) as [v3 c].
  assert (F4 := Enum_faults "status" (pr_query p "status") Httpx.statuses v3).
  assert (V4 := Enum_value "status" (pr_query p "status") Httpx.statuses v3).
  destruct (Enum nfc "status" _ _ v3) as [v4 st].
  assert (F5 := optional_faults "from" (pr_query p "from") rfc3339 FInvalidRFC3339 v4). fold (TimeQuery rfc3339 p "from" v4) in F5.
  destruct (TimeQuery rfc3339 p "from" v4) as [v5 from].
  assert (F6 := optional_faults "to" (pr_query p "to") rfc3339 FInvalidRFC3339 v5). fold (TimeQuery rfc3339 p "to" v5) in F6.
  destruct (TimeQuery rfc3339 p "to" v5) as [v6 to].
  assert (F7 := optional_faults "resource_id" (pr_query p "resource_id") uuid_parse FInvalidUUID v6).
  assert (V7 := optional_value "resource_id" (pr_query p "resource_id") uuid_parse FInvalidUUID v6).
  fold (UUIDQuery uuid_parse p "resource_id" v6) in F7, V7. destruct (UUIDQuery uuid_parse p "resource_id" v6) as [v7 rid].
  cbn [fst snd] in *.
  unfold Httpx.rawBounded. cbn [fst snd f_Offset f_Limit filter_texts f_ActorID f_ResourceType f_ResourceID f_OperationCategory
    f_OperationName f_Status f_AggregateType f_AggregateID]. rewrite !HasErrors_step.
  split.
  - rewrite F7, F6, F5, F4, F3, F2, F1, refused_all. change (HasErrors ∅) with false. unfold Httpx.MaxFilterLength. btauto.
  - intros H. rewrite !orb_false_iff in H. destruct H as (_ & _ & _ & _ & _ & H7). rewrite F7, F6, F5, !orb_false_iff in H7.
    destruct H7 as (_ & _ & _ & H4). assert (H3 := H4). rewrite F4, orb_false_iff in H3. destruct H3 as [_ H3].
    assert (H2 := H3). rewrite F3, orb_false_iff in H2. destruct H2 as [_ H2].
    split; [by apply V2|]. split; [done|]. split; [unfold MaxInt; destruct (100 <? l) eqn:E; lia|].
    unfold filter_texts. cbn [forallb free_texts f_ActorID f_ResourceType f_ResourceID f_OperationCategory f_OperationName
      f_Status f_AggregateType f_AggregateID]. rewrite (category_text c), (status_text st) by auto.
    replace (pg_text (default "" rid)) with true; [btauto|]. destruct rid as [u|]; [|done].
    destruct (V7 u eq_refl) as [t Ht]. symmetry. by apply (Hu t).
Qed.

(** the status of a listing says what was wrong. Over the PostgreSQL repository, with rows
    that decode and a count that fits, it is 400 exactly when a parameter is refused or the
    offset is past the bound, 500 exactly when a free-text filter is not a text the database
    can hold, and 200 otherwise. *)
Theorem list_status table r p has :
  orders arrange -> (forall t u, uuid_parse t = Some u -> pg_text u = true) ->
  (forall w, w ∈ table -> exists e, scanEntry unmarshal unmarshal_resources w = inr e) ->
  Z.of_nat (length table) <= max_int32 ->
  Httpx.status (Httpx.List_handler repo uuid_parse rfc3339 nfc messages table r p has).2
  = if existsb (refused p) Httpx.filterParams || (MaxListOffset <? offset_of p) then 400
    else if forallb (fun n => pg_text (string_of (pr_query p n))) free_texts then 200 else 500.
Proof.
  intros Ho Hu Hscan Hlen. unfold Httpx.List_handler. assert (Hf := filters_read p Hu).
  destruct (Httpx.FiltersFromRequest _ _ _ p ∅) as [v f]. destruct Hf as [Hv Hf]. rewrite <- Hv.
  destruct (HasErrors v); [done|]. destruct (Hf eq_refl) as (Hoff & Hnn & _ & Htexts). rewrite <- Htexts, <- Hoff. clear Hf Hv.
  cbn [repo_List NewRepository orb]. unfold List_, Filters_Page. rewrite (proj2 (Z.ltb_ge (f_Offset f) 0)) by done. cbn [orb].
  destruct (MaxListOffset <? f_Offset f); [done|]. destruct (forallb pg_text _); [|done]. cbn [negb].
  rewrite (proj2 (Z.ltb_ge max_int32 _)) by (assert (H := List.filter_length_le (fun w => where_ f (rw_head w)) table);
    unfold matching; lia).
  unfold page_rows. set (limit := Z.to_nat _). set (page := take limit _).
  destruct (scan_all unmarshal unmarshal_resources page) as [es Hes].
  { intros w Hw. apply Hscan. apply elem_of_take in Hw as (i & Hi & _). rewrite lookup_drop in Hi.
    apply list_elem_of_lookup_2 in Hi. rewrite (proj1 (Ho f (matching f table))) in Hi. apply list_elem_of_In in Hi.
    apply List.filter_In in Hi as [Hi _]. by apply list_elem_of_In. }
  rewrite (scan_rows_ok _ _ _ es); [done|]. apply Forall2_fmap_l. eapply Forall2_impl; [exact Hes|done].
Qed.

End Statuses.

(** The query as a list of parameters. *)
Definition query (kvs : list (string * string)) : parameters :=
  mkParameters (fun k => match List.find (fun kv => bool_decide (kv.1 = k)) kvs with Some kv => bytes_of kv.2 | None => [] end)
    (fun _ => []).
Definition a_request : request := mkRequest [] [] [] ∅ (mkRctx [] [] [] None None).
Definition some_time (t : text) : option Z := Some 2000.
Definition no_uuid (t : text) : option string := None.

Abbreviation listing kvs := (Httpx.List_handler (NewRepository json_id json_id no_resources no_decode (fun _ => by_time))
  no_uuid some_time id Httpx.DefaultMessages three a_request (query kvs) (fun _ => false)).

Lemma list_status_witness : Httpx.status (listing [("limit", "2"); ("status", "success"); ("offset", "100001")]).2 = 400.
Proof.
  rewrite list_status; [reflexivity| | | |].
  - intros f l. apply by_time_ok.
  - discriminate.
  - intros w Hw. repeat (apply elem_of_cons in Hw as [->|Hw]; [by eexists|]). by apply not_elem_of_nil in Hw.
  - vm_compute. discriminate.
Defined.

(** A limit of zero lists twenty entries and reports a page of none. *)
Theorem zero_limit_reported :
  exists items, (listing [("limit", "0")]).2 = Httpx.RList items 3 0 0 /\ length items = 3%nat.
Proof. eexists. split; [vm_compute; reflexivity|reflexivity]. Qed.

(** A filter with a zero byte is not a text of the database: the listing fails with 500
    though no parameter was refused. *)
Theorem nul_filter_fails :
  Httpx.status (listing [("actor_id", String (ascii_of_nat 0) "")]).2 = 500.
Proof. vm_compute. reflexivity. Qed.
