(* ===== verification/Zitadel.v ===== *)
(** Token validation against Zitadel ([auth/zitadel]): the checks of the configuration and
    of the issuer's URL ([zitadel.go]), the claims a token must carry ([claims.go]), and
    introspection with its cache of answers and its merging of concurrent calls
    ([introspection.go]).

    The SDK is not part of the program: what it makes of a verifier's answer and the
    introspection call are arguments.  What the issuer would say of a token at a time is an
    argument too; the calls to it take time, and other callers act meanwhile, so the
    verifier is a relation on states.  Instants and durations are nanoseconds; an instant a
    claim leaves out is [None].

    What token validation guarantees: an accepted token has the claims asked for, the cache
    of answers is bounded and forgets least recently used ones first, a burst for one token
    costs one call, and a revoked token is refused once the answer that let it in has aged. *)

From stdpp Require Import base gmap list strings.
From Stdlib Require Import ZArith Lia Ascii.
From S2P Require Import Prelude GoStrings GoText Netip Middleware Access.

Open Scope string_scope.
Open Scope list_scope.
Open Scope Z_scope.

(** ** Claims *)

(** A claim of any JSON kind: a string, an object with its keys, or another. *)
Inductive claim := CString (s : string) | CObject (keys : list string) | COther.

(** [oauth.IntrospectionContext], as far as the package reads it. *)
Record introspection := mkIntrospection {
  in_Active : bool; in_Subject : string; in_PreferredUsername : string; in_Username : string; in_Audience : list string;
  in_IssuedAt : option Z; in_NotBefore : option Z; in_Expiration : option Z; in_Claims : gmap string claim }.

Record tokenClaims := mkTokenClaims {
  tc_authorizedParty : string; tc_hasAuthorizedParty : bool; tc_authorizedPartyMalformed : bool;
  tc_issuedAt : option Z; tc_notBefore : option Z; tc_expiration : option Z }.

Inductive claims_error := errAuthorizedParty | errNotYetValid | errIssuedInFuture | errLifetimeExceeded | errAudience.

Definition second : Z := 1000000000.
Definition clockSkewLeeway : Z := 60 * second.

Definition claimsOf (c : introspection) : tokenClaims :=
  let tc party has malformed := mkTokenClaims party has malformed (in_IssuedAt c) (in_NotBefore c) (in_Expiration c) in
  match in_Claims c !! "azp" with
  | None => tc "" false false
  | Some (CString s) => tc s true false
  | Some _ => tc "" true true
  end.

(** [Time.Sub]: the difference, kept within a duration. *)
Definition Sub (a b : Z) : Z := Z.max (- 2 ^ 63) (Z.min (2 ^ 63 - 1) (a - b)).

Definition after (at_ : option Z) (limit : Z) : bool := match at_ with Some t => limit <? t | None => false end.

Definition checkClaims (c : tokenClaims) (allowedParties : list string) (maxLifetime now : Z) : option claims_error :=
  if tc_authorizedPartyMalformed c then Some errAuthorizedParty
  else if negb (bool_decide (allowedParties = []))
          && (bool_decide (tc_authorizedParty c = "") || negb (bool_decide (tc_authorizedParty c ∈ allowedParties)))
  then Some errAuthorizedParty
  else if after (tc_notBefore c) (now + clockSkewLeeway) then Some errNotYetValid
  else if after (tc_issuedAt c) (now + clockSkewLeeway) then Some errIssuedInFuture
  else if 0 <? maxLifetime then
    match tc_issuedAt c, tc_expiration c with
    | Some iat, Some exp => if maxLifetime <? Sub exp iat then Some errLifetimeExceeded else None
    | _, _ => Some errLifetimeExceeded
    end
  else None.

Definition checkAudience (c : introspection) (clientID : string) : option claims_error :=
  if bool_decide (clientID ∈ in_Audience c) then None else Some errAudience.

Definition pickUsername (c : introspection) : string :=
  if bool_decide (in_PreferredUsername c = "") then in_Username c else in_PreferredUsername c.

(** The roles in the order the map is walked. *)
Definition extractRoles (c : introspection) : list string :=
  match in_Claims c !! "urn:zitadel:iam:org:project:roles" with
  | Some (CObject keys) => keys
  | _ => []
  end.

(** ** Configuration *)

Record IntrospectionConfig := mkIntrospectionConfig {
  zi_KeyFile : string; zi_ClientSecret : string; zi_CacheTTL : Z; zi_CacheMaxEntries : Z }.
Record Config := mkConfig {
  zc_Issuer : text; zc_ClientID : string; zc_HTTPTimeout : Z; zc_MaxTokenLifetime : Z;
  zc_AllowedAuthorizedParties : list string; zc_Introspection : option IntrospectionConfig }.

Definition DefaultHTTPTimeout : Z := 10 * second.
Definition DefaultIntrospectionCacheTTL : Z := 30 * second.
Definition DefaultIntrospectionCacheMaxEntries : Z := 10000.

Definition validateIntrospection (ic : IntrospectionConfig) : string + IntrospectionConfig :=
  if Bool.eqb (bool_decide (zi_KeyFile ic = "")) (bool_decide (zi_ClientSecret ic = ""))
  then inl "introspection needs exactly one of KeyFile or ClientSecret"
  else if zi_CacheTTL ic <? 0 then inl "introspection cache TTL must not be negative"
  else if zi_CacheMaxEntries ic <? 0 then inl "introspection cache max entries must not be negative"
  else inr (mkIntrospectionConfig (zi_KeyFile ic) (zi_ClientSecret ic)
              (if zi_CacheTTL ic =? 0 then DefaultIntrospectionCacheTTL else zi_CacheTTL ic)
              (if zi_CacheMaxEntries ic =? 0 then DefaultIntrospectionCacheMaxEntries else zi_CacheMaxEntries ic)).

Definition validateConfig (cfg : Config) : string + Config :=
  if bool_decide (zc_Issuer cfg = []) then inl "issuer is required"
  else if bool_decide (zc_ClientID cfg = "") then inl "client ID is required"
  else if zc_HTTPTimeout cfg <? 0 then inl "HTTP timeout must not be negative"
  else if zc_MaxTokenLifetime cfg <? 0 then inl "max token lifetime must not be negative"
  else if bool_decide ("" ∈ zc_AllowedAuthorizedParties cfg) then inl "allowed authorized parties must not contain an empty client ID"
  else match zc_Introspection cfg with
       | None => inr cfg
       | Some ic =>
           match validateIntrospection ic with
           | inl e => inl e
           | inr ic => inr (mkConfig (zc_Issuer cfg) (zc_ClientID cfg) (zc_HTTPTimeout cfg) (zc_MaxTokenLifetime cfg)
                              (zc_AllowedAuthorizedParties cfg) (Some ic))
           end
       end.

(** [issuerHTTPClient]'s timeout. *)
Definition issuer_timeout (cfg : Config) : Z := if zc_HTTPTimeout cfg =? 0 then DefaultHTTPTimeout else zc_HTTPTimeout cfg.

(** A URL as [url.Parse] splits it. *)
Record URL := mkURL {
  u_Scheme : text; u_Hostname : text; u_Port : text; u_User : bool; u_Path : text; u_RawQuery : text; u_ForceQuery : bool;
  u_Fragment : text }.

(** [net.ParseIP] and [IsLoopback]. *)
Definition ParseIP (t : text) : option addr := a ← ParseAddr t; if bool_decide (Zone a = []) then Some a else None.
Definition IsLoopback (a : addr) : bool :=
  match Unmap a with
  | V4 n => Z.shiftr n 24 =? 127
  | V6 n _ => n =? 1
  end.

(** [strings.EqualFold(host, "localhost")]: the long s folds to s. *)
Fixpoint fold_ascii (t : text) : text :=
  match t with
  | [] => []
  | a :: t' =>
      match t' with
      | b :: t'' =>
          if (nat_of_ascii a =? 197)%nat && (nat_of_ascii b =? 191)%nat then "s"%char :: fold_ascii t''
          else to_lower a :: fold_ascii t'
      | [] => [to_lower a]
      end
  end.
Definition isLoopbackHost (host : text) : bool :=
  bool_decide (fold_ascii host = bytes_of "localhost")
  || match ParseIP host with Some a => IsLoopback a | None => false end.

(** What [zitadel.New] is given: the host, and whether the connection is without TLS on a
    port, or with it on a port of its own. *)
Inductive transport := TDefault | TInsecure (port : text) | TPort (port : Z).
Record provider := mkProvider { pv_host : text; pv_transport : transport }.

(** [issuerProvider]; [parse] is [url.Parse]. *)
Definition issuerProvider (parse : text -> option URL) (issuer : text) : string + provider :=
  if negb (Contains issuer (bytes_of "://")) then inr (mkProvider issuer TDefault)
  else match parse issuer with
  | None => inl "invalid issuer"
  | Some u =>
      let http := bool_decide (u_Scheme u = bytes_of "http") in
      if negb (bool_decide (u_Scheme u = bytes_of "https")) && negb http then inl "scheme must be https or http"
      else if bool_decide (u_Hostname u = []) then inl "no host"
      else if u_User u then inl "must not have user info"
      else if negb (bool_decide (u_Path u = [])) && negb (bool_decide (u_Path u = bytes_of "/")) then inl "must not have a path"
      else if negb (bool_decide (u_RawQuery u = [])) || u_ForceQuery u || negb (bool_decide (u_Fragment u = []))
      then inl "must not have a query or fragment"
      else if http && negb (isLoopbackHost (u_Hostname u)) then inl "http is only allowed for a loopback host"
      else
        let host := if existsb (Ascii.eqb ":") (u_Hostname u)
                    then "["%char :: u_Hostname u ++ ["]"%char] else u_Hostname u in
        let hasPort := negb (bool_decide (u_Port u = [])) in
        let port := match ParseUint (u_Port u) with Some n => if n <? 2 ^ 16 then Some n else None | None => None end in
        match hasPort, port with
        | true, None => inl "port"
        | true, Some 0 => inl "port must be between 1 and 65535"
        | true, Some n => inr (mkProvider host (if http then TInsecure (bytes_of (itoa n)) else TPort n))
        | false, _ => inr (mkProvider host (if http then TInsecure (bytes_of "80") else TDefault))
        end
  end.

(** ** Errors of the SDK *)

(** The kinds [mapError] tells apart: the provider is unavailable, the introspection call
    failed, a required role is missing, and any other. *)
Inductive sdk_error := SdkUnavailable | SdkIntrospectionFailed | SdkPermissionDenied | SdkOther.

Definition mapError (e : sdk_error) : auth_error :=
  match e with
  | SdkUnavailable | SdkIntrospectionFailed => mkAuthError true false
  | SdkPermissionDenied => mkAuthError false true
  | SdkOther => mkAuthError false false
  end.

(** The sentinel [ErrUnauthenticated] alone. *)
Definition unauthenticated : auth_error := mkAuthError false false.

(** [Authenticate] after the verifier: [sdk] is what the SDK's authorizer makes of the
    verifier's answer, [mode] whether the answer came by introspection. *)
Definition Authenticate_checks (mode : bool) (clientID : string) (parties : list string) (maxLifetime now : Z) (ptr : N)
    (r : sdk_error + introspection) : auth_error + AuthPrincipal :=
  match r with
  | inl e => inl (mapError e)
  | inr c =>
      match checkClaims (claimsOf c) parties maxLifetime now with
      | Some _ => inl unauthenticated
      | None =>
          match (if mode then checkAudience c clientID else None) with
          | Some _ => inl unauthenticated
          | None => inr (mkAuthPrincipal ptr (in_Subject c) (extractRoles c))
          end
      end
  end.

(** ** The cache of introspection answers *)

Section Cache.
Context {K : Type} `{Countable K}.

Record cacheEntry := mkCacheEntry { ce_value : introspection; ce_expires : Z }.
(** The entries by key, and the keys of the list, the most recently used first. *)
Record introspectionCache := mkCache { ca_maxEntries : Z; ca_entries : gmap K cacheEntry; ca_lru : list K }.

Definition newIntrospectionCache (maxEntries : Z) : introspectionCache := mkCache maxEntries ∅ [].

Definition drop_key (key : K) (lru : list K) : list K := List.filter (fun k => negb (bool_decide (k = key))) lru.
Definition MoveToFront (key : K) (lru : list K) : list K := key :: drop_key key lru.
Definition cache_remove (key : K) (c : introspectionCache) : introspectionCache :=
  mkCache (ca_maxEntries c) (delete key (ca_entries c)) (drop_key key (ca_lru c)).

(** [Get]. *)
Definition cache_Get (now : Z) (key : K) (c : introspectionCache) : introspectionCache * option introspection :=
  match ca_entries c !! key with
  | None => (c, None)
  | Some e =>
      if ce_expires e <=? now then (cache_remove key c, None)
      else (mkCache (ca_maxEntries c) (ca_entries c) (MoveToFront key (ca_lru c)), Some (ce_value e))
  end.

(** The loop that evicts from the back of the list. *)
Fixpoint evict (fuel : nat) (c : introspectionCache) : introspectionCache :=
  match fuel with
  | O => c
  | S fuel =>
      if ca_maxEntries c <? Z.of_nat (length (ca_lru c)) then
        match last (ca_lru c) with
        | Some key => evict fuel (cache_remove key c)
        | None => c
        end
      else c
  end.

(** When an answer stored now is to be forgotten. *)
Definition expires_at (now ttl : Z) (exp : option Z) : Z :=
  match exp with Some e => if e <? now + ttl then e else now + ttl | None => now + ttl end.

(** [Set]. *)
Definition cache_Set (now : Z) (key : K) (value : introspection) (ttl : Z) (c : introspectionCache) : introspectionCache :=
  if negb (in_Active value) || (ttl <=? 0) then c
  else
    let expires := expires_at now ttl (in_Expiration value) in
    if expires <=? now then c
    else match ca_entries c !! key with
         | Some _ =>
             mkCache (ca_maxEntries c) (<[key := mkCacheEntry value expires]> (ca_entries c)) (MoveToFront key (ca_lru c))
         | None =>
             let c := mkCache (ca_maxEntries c) (<[key := mkCacheEntry value expires]> (ca_entries c)) (key :: ca_lru c) in
             evict (length (ca_lru c)) c
         end.

(** ** The verifier *)

Context (cacheKey : text -> K) (server : Z -> text -> introspection) (ttl : Z).

Definition BearerToken : string := "Bearer".

(** The token of an authorization header. *)
Definition bearer (header : text) : option text :=
  match lit BearerToken header with
  | None => None
  | Some t => let t := trim_space t in if bool_decide (t = []) then None else Some t
  end.

(** A caller that waits for a shared call: which one, with what token, since when. *)
Record waiter := mkWaiter { wt_caller : nat; wt_token : text; wt_since : Z }.

(** A call of the group: not begun, asked of the issuer, or answered by it at a time ([None]:
    the call failed). *)
Inductive phase := PBegin | PAsked | PAnswered (at_ : Z) (answer : option introspection).
Record flight := mkFlight { fl_token : text; fl_phase : phase; fl_waiters : list waiter }.

(** What a caller got, and when it had come. *)
Inductive verdict := VContext (c : introspection) | VInvalidHeader | VFailed.
Record outcome := mkOutcome { oc_caller : nat; oc_token : text; oc_since : Z; oc_verdict : verdict }.

Record verifier := mkVerifier {
  vf_now : Z; vf_cache : introspectionCache; vf_group : gmap K flight; vf_outcomes : list outcome; vf_calls : list K;
  vf_done : list K }.

Definition settle (r : verdict) (w : waiter) : outcome := mkOutcome (wt_caller w) (wt_token w) (wt_since w) r.

(** The end of a shared call: its waiters get the result and the group forgets it. *)
Definition deliver (key : K) (f : flight) (r : verdict) (v : verifier) : verifier :=
  mkVerifier (vf_now v) (vf_cache v) (delete key (vf_group v)) (vf_outcomes v ++ (settle r <$> fl_waiters f)) (vf_calls v) (vf_done v).

(** [CheckAuthorization] until it waits: the header, the cache, and the group's call, which
    is begun when there is none. *)
Definition arrive (caller : nat) (header : text) (v : verifier) : verifier :=
  match bearer header with
  | None => mkVerifier (vf_now v) (vf_cache v) (vf_group v) (vf_outcomes v ++ [mkOutcome caller [] (vf_now v) VInvalidHeader])
              (vf_calls v) (vf_done v)
  | Some token =>
      let key := cacheKey token in
      match cache_Get (vf_now v) key (vf_cache v) with
      | (c, Some ctx) =>
          mkVerifier (vf_now v) c (vf_group v) (vf_outcomes v ++ [mkOutcome caller token (vf_now v) (VContext ctx)])
            (vf_calls v) (vf_done v)
      | (c, None) =>
          let w := mkWaiter caller token (vf_now v) in
          let f := match vf_group v !! key with
                   | Some f => mkFlight (fl_token f) (fl_phase f) (fl_waiters f ++ [w])
                   | None => mkFlight token PBegin [w]
                   end in
          mkVerifier (vf_now v) c (<[key := f]> (vf_group v)) (vf_outcomes v) (vf_calls v) (vf_done v)
      end
  end.

(** The shared call begins: the cache again, then the issuer. *)
Definition begin (key : K) (f : flight) (v : verifier) : verifier :=
  match cache_Get (vf_now v) (cacheKey (fl_token f)) (vf_cache v) with
  | (c, Some ctx) => deliver key f (VContext ctx) (mkVerifier (vf_now v) c (vf_group v) (vf_outcomes v) (vf_calls v) (vf_done v))
  | (c, None) =>
      mkVerifier (vf_now v) c (<[key := mkFlight (fl_token f) PAsked (fl_waiters f)]> (vf_group v)) (vf_outcomes v)
        (vf_calls v ++ [key]) (vf_done v)
  end.

(** The shared call ends: an answer is stored, a failure is not. *)
Definition finish (key : K) (f : flight) (answer : option introspection) (v : verifier) : verifier :=
  let v := mkVerifier (vf_now v)
             (match answer with
              | Some r => cache_Set (vf_now v) (cacheKey (fl_token f)) r ttl (vf_cache v)
              | None => vf_cache v
              end) (vf_group v) (vf_outcomes v) (vf_calls v) (vf_done v ++ [key]) in
  deliver key f (match answer with Some r => VContext r | None => VFailed end) v.

Inductive vstep : verifier -> verifier -> Prop :=
  | step_tick v now : vf_now v <= now ->
      vstep v (mkVerifier now (vf_cache v) (vf_group v) (vf_outcomes v) (vf_calls v) (vf_done v))
  | step_arrive v caller header : vstep v (arrive caller header v)
  | step_begin v key f : vf_group v !! key = Some f -> fl_phase f = PBegin -> vstep v (begin key f v)
  (** The issuer answers as it knows the token now, or the call fails. *)
  | step_answer v key f answer : vf_group v !! key = Some f -> fl_phase f = PAsked ->
      answer = None \/ answer = Some (server (vf_now v) (fl_token f)) ->
      vstep v (mkVerifier (vf_now v) (vf_cache v)
                 (<[key := mkFlight (fl_token f) (PAnswered (vf_now v) answer) (fl_waiters f)]> (vf_group v)) (vf_outcomes v)
                 (vf_calls v) (vf_done v))
  | step_finish v key f at_ answer : vf_group v !! key = Some f -> fl_phase f = PAnswered at_ answer ->
      vstep v (finish key f answer v)
  (** A caller gives up: the call goes on for the others. *)
  | step_cancel v key f pre w post : vf_group v !! key = Some f -> fl_waiters f = pre ++ w :: post ->
      vstep v (mkVerifier (vf_now v) (vf_cache v) (<[key := mkFlight (fl_token f) (fl_phase f) (pre ++ post)]> (vf_group v))
                 (vf_outcomes v ++ [settle VFailed w]) (vf_calls v) (vf_done v)).

Definition start (maxEntries now : Z) : verifier := mkVerifier now (newIntrospectionCache maxEntries) ∅ [] [] [].

End Cache.
Arguments cacheEntry : clear implicits.
Arguments introspectionCache K {_ _}.
Arguments verifier K {_ _}.

(** ** Claims *)

(** What a token must carry, whatever order it is checked in. *)
Definition acceptable (mode : bool) (clientID : string) (parties : list string) (maxLifetime now : Z) (c : introspection) : Prop :=
  (forall v, in_Claims c !! "azp" = Some v -> exists s, v = CString s)
  /\ (parties <> [] -> exists s, in_Claims c !! "azp" = Some (CString s) /\ s ∈ parties /\ s <> "")
  /\ (forall t, in_NotBefore c = Some t -> t <= now + 60 * second)
  /\ (forall t, in_IssuedAt c = Some t -> t <= now + 60 * second)
  /\ (0 < maxLifetime -> exists iat exp, in_IssuedAt c = Some iat /\ in_Expiration c = Some exp /\ exp - iat <= maxLifetime)
  /\ (mode = true -> clientID ∈ in_Audience c).

Lemma Sub_le a b m : 0 < m < 2 ^ 63 - 1 -> Sub a b <= m <-> a - b <= m.
Proof. unfold Sub. lia. Qed.

Lemma after_false at_ limit : after at_ limit = false <-> forall t, at_ = Some t -> t <= limit.
Proof. destruct at_ as [t|]; cbn; [rewrite Z.ltb_ge|]; naive_solver. Qed.

Lemma checkClaims_None c parties maxLifetime now : maxLifetime < 2 ^ 63 - 1 ->
  checkClaims (claimsOf c) parties maxLifetime now = None <->
  acceptable false "" parties maxLifetime now c.
Proof.
  intros Hm. unfold checkClaims, acceptable.
  assert (Hat : tc_issuedAt (claimsOf c) = in_IssuedAt c /\ tc_notBefore (claimsOf c) = in_NotBefore c
    /\ tc_expiration (claimsOf c) = in_Expiration c) by (unfold claimsOf; by repeat case_match).
  destruct Hat as (-> & -> & ->).
  assert (Hp : tc_authorizedPartyMalformed (claimsOf c) = false <-> forall v, in_Claims c !! "azp" = Some v -> exists s, v = CString s).
  { unfold claimsOf. destruct (_ !! "azp") as [[s|ks|]|]; cbn; split; try done; naive_solver. }
  destruct (tc_authorizedPartyMalformed (claimsOf c)) eqn:Em; [split; [done|intros [H _]; by apply Hp in H]|].
  assert (Hq : (negb (bool_decide (parties = []))
      && (bool_decide (tc_authorizedParty (claimsOf c) = "") || negb (bool_decide (tc_authorizedParty (claimsOf c) ∈ parties)))) = false
    <-> (parties <> [] -> exists s, in_Claims c !! "azp" = Some (CString s) /\ s ∈ parties /\ s <> "")).
  { revert Em. unfold claimsOf. destruct (_ !! "azp") as [[s|ks|]|]; cbn; try done; intros _;
      destruct parties as [|q qs]; cbn -[elem_of]; try naive_solver.
    destruct (bool_decide_reflect (s = "")); cbn -[elem_of]; [split; [done|naive_solver]|].
    rewrite negb_false_iff, bool_decide_eq_true. naive_solver. }
  destruct (negb _ && _); [split; [done|intros (_ & H & _); by apply Hq in H]|].
  destruct (after (in_NotBefore c) _) eqn:E1.
  { split; [done|]. intros (_ & _ & H & _). apply (after_false _ (now + clockSkewLeeway)) in H. congruence. }
  destruct (after (in_IssuedAt c) _) eqn:E2.
  { split; [done|]. intros (_ & _ & _ & H & _). apply (after_false _ (now + clockSkewLeeway)) in H. congruence. }
  rewrite after_false in E1, E2. destruct (Z.ltb_spec 0 maxLifetime); [|naive_solver lia].
  destruct (in_IssuedAt c) as [iat|]; [|naive_solver]. destruct (in_Expiration c) as [exp|]; [|naive_solver].
  destruct (Z.ltb_spec maxLifetime (Sub exp iat)) as [Hs|Hs].
  - split; [done|]. intros (_ & _ & _ & _ & H' & _). destruct (H' ltac:(done)) as (? & ? & [= <-] & [= <-] & Hl).
    apply Sub_le in Hl; lia.
  - apply Sub_le in Hs; [|lia]. split; [|done]. intros _. split_and!; try done; [by apply Hp|by apply Hq|by eauto].
Qed.

(** a token is accepted exactly when its claims are: whatever the SDK let through, the
    principal is granted if and only if the party, the times, the lifetime and, by
    introspection, the audience are as configured; and a refusal for them is
    [ErrUnauthenticated], the 401 of a bad token, never an outage. *)
Theorem authenticate_exact mode clientID parties maxLifetime now ptr c :
  maxLifetime < 2 ^ 63 - 1 ->
  (acceptable mode clientID parties maxLifetime now c ->
     Authenticate_checks mode clientID parties maxLifetime now ptr (inr c) = inr (mkAuthPrincipal ptr (in_Subject c) (extractRoles c)))
  /\ (~ acceptable mode clientID parties maxLifetime now c ->
     Authenticate_checks mode clientID parties maxLifetime now ptr (inr c) = inl unauthenticated).
Proof.
  intros Hm. assert (Hc := checkClaims_None c parties maxLifetime now Hm). unfold Authenticate_checks.
  assert (Ha : acceptable mode clientID parties maxLifetime now c <->
    acceptable false "" parties maxLifetime now c /\ (if mode then checkAudience c clientID else None) = None).
  { unfold acceptable, checkAudience. destruct mode; [case_bool_decide|]; naive_solver. }
  rewrite Ha, <- Hc. destruct (checkClaims _ _ _ _); [naive_solver|].
  destruct (if mode then _ else None); naive_solver.
Qed.

Definition some_token : introspection :=
  mkIntrospection true "u1" "ana" "" ["api"] (Some 0) None (Some (600 * second)) {["azp" := CString "web"]}.
Lemma authenticate_exact_witness :
  Authenticate_checks true "api" ["web"] (3600 * second) (30 * second) 1 (inr some_token) = inr (mkAuthPrincipal 1 "u1" []).
Proof.
  apply (authenticate_exact true "api" ["web"] (3600 * second) (30 * second) 1 some_token ltac:(vm_compute; done)).
  unfold acceptable, second. cbn [in_NotBefore in_IssuedAt in_Expiration in_Audience some_token in_Claims].
  split; [|split; [|split; [|split; [|split]]]].
  - intros v [= <-]. by eexists.
  - intros _. exists "web". split; [done|]. split; [by left|done].
  - done.
  - intros t [= <-]. lia.
  - intros _. exists 0, (600 * 1000000000). split; [done|]. split; [done|lia].
  - intros _. by left.
Defined.

(** An outage is never an answer about the token: the middleware's status is 503 exactly
    when the provider could not be asked, 401 when the token was refused. *)
Lemma mapError_unavailable e : ae_unavailable (mapError e) = true <-> e = SdkUnavailable \/ e = SdkIntrospectionFailed.
Proof. destruct e; naive_solver. Qed.

(** ** The issuer *)

(** Without TLS the host is a loopback one. *)
Theorem insecure_is_loopback parse issuer p port :
  issuerProvider parse issuer = inr p -> pv_transport p = TInsecure port ->
  exists u, parse issuer = Some u /\ isLoopbackHost (u_Hostname u) = true /\ (u_User u = false) /\ u_RawQuery u = [].
Proof.
  unfold issuerProvider. destruct (negb _); [by intros [= <-]|]. destruct (parse issuer) as [u|]; [|done].
  destruct (_ && _) eqn:E1; [done|]. destruct (bool_decide (u_Hostname u = [])); [done|]. destruct (u_User u) eqn:Eu; [done|].
  destruct (negb (bool_decide (u_Path u = [])) && _); [done|]. destruct (negb (bool_decide (u_RawQuery u = [])) || u_ForceQuery u || _) eqn:Eq; [done|].
  rewrite !orb_false_iff, !negb_false_iff, bool_decide_eq_true in Eq.
  destruct (_ && negb (isLoopbackHost _)) eqn:El; [done|]. intros Hp Ht. exists u. split; [done|]. split; [|naive_solver].
  destruct (bool_decide (u_Scheme u = bytes_of "http")) eqn:Eh; [cbn in El; by apply negb_false_iff in El|].
  exfalso. destruct (negb (bool_decide (u_Port u = []))); [|by simplify_eq].
  destruct (match ParseUint _ with Some _ => _ | None => _ end) as [[|n|n]|]; by simplify_eq.
Qed.

(** ** The cache *)

Section Bounded.
Context {K : Type} `{Countable K}.
Implicit Types (c : introspectionCache K) (key k : K) (lru : list K) (D : gset K).

(** The list and the map hold the same keys, each once. *)
Definition paired c : Prop := NoDup (ca_lru c) /\ forall k, k ∈ ca_lru c <-> is_Some (ca_entries c !! k).
Definition cache_wf c : Prop := paired c /\ Z.of_nat (length (ca_lru c)) <= ca_maxEntries c.

Lemma elem_of_drop_key k key lru : k ∈ drop_key key lru <-> k ∈ lru /\ k <> key.
Proof.
  unfold drop_key. rewrite !list_elem_of_In, List.filter_In, negb_true_iff, bool_decide_eq_false. done.
Qed.
Lemma NoDup_drop_key key lru : NoDup lru -> NoDup (drop_key key lru).
Proof. rewrite !NoDup_ListNoDup. apply List.NoDup_filter. Qed.
Lemma drop_key_length key lru : (length (drop_key key lru) <= length lru)%nat.
Proof. apply List.filter_length_le. Qed.
Lemma drop_key_notin key lru : key ∉ lru -> drop_key key lru = lru.
Proof.
  intros Hk. induction lru as [|x l IH]; [done|]. cbn. rewrite bool_decide_eq_false_2 by set_solver. cbn. f_equal. apply IH. set_solver.
Qed.
Lemma drop_key_app key l r : drop_key key (l ++ r) = drop_key key l ++ drop_key key r.
Proof. apply List.filter_app. Qed.
Lemma drop_key_in key lru : NoDup lru -> key ∈ lru -> S (length (drop_key key lru)) = length lru.
Proof.
  intros Hn Hk. apply list_elem_of_split in Hk as (l & r & ->). rewrite NoDup_app, NoDup_cons in Hn.
  assert (Hr : drop_key key (key :: r) = drop_key key r) by (cbn; by rewrite bool_decide_eq_true_2).
  rewrite drop_key_app, Hr, !drop_key_notin, !length_app by set_solver. cbn. lia.
Qed.

Lemma MoveToFront_length key lru : NoDup lru -> key ∈ lru -> length (MoveToFront key lru) = length lru.
Proof. intros Hn Hk. cbn. by apply drop_key_in. Qed.

Lemma remove_paired key c : paired c -> paired (cache_remove key c).
Proof.
  intros [Hn Hk]. split; cbn; [by apply NoDup_drop_key|]. intros k. rewrite elem_of_drop_key, Hk.
  destruct (decide (k = key)) as [->|]; [rewrite lookup_delete_eq|rewrite lookup_delete_ne by done]; naive_solver.
Qed.
Lemma front_paired key c e : paired c -> is_Some (ca_entries c !! key) ->
  paired (mkCache (ca_maxEntries c) (<[key := e]> (ca_entries c)) (MoveToFront key (ca_lru c))).
Proof.
  intros [Hn Hk] He. split; cbn.
  - apply NoDup_cons. split; [rewrite elem_of_drop_key; naive_solver|by apply NoDup_drop_key].
  - intros k. unfold MoveToFront. rewrite elem_of_cons, elem_of_drop_key, Hk.
    destruct (decide (k = key)) as [->|]; [rewrite lookup_insert_eq|rewrite lookup_insert_ne by done]; naive_solver.
Qed.
Lemma insert_same c key e : ca_entries c !! key = Some e -> <[key := e]> (ca_entries c) = ca_entries c.
Proof. apply insert_id. Qed.

Lemma cache_Get_wf now key c : cache_wf c -> cache_wf (cache_Get now key c).1.
Proof.
  intros [Hp Hl]. unfold cache_Get. destruct (_ !! key) as [e|] eqn:E; [|done]. destruct (_ <=? now); cbn.
  - split; [by apply remove_paired|]. cbn. assert (Hd := drop_key_length key (ca_lru c)). lia.
  - split; [rewrite <- (insert_same _ _ _ E); apply front_paired; eauto|]. cbn [ca_lru ca_maxEntries].
    rewrite MoveToFront_length; [done|apply Hp|]. apply Hp. by eexists.
Qed.

(** A list one too long loses its last key. *)
Lemma evict_eq c fuel : NoDup (ca_lru c) -> (0 < fuel)%nat -> Z.of_nat (length (ca_lru c)) <= ca_maxEntries c + 1 -> 0 <= ca_maxEntries c ->
  evict fuel c = if ca_maxEntries c <? Z.of_nat (length (ca_lru c)) then
                   match last (ca_lru c) with Some k => cache_remove k c | None => c end
                 else c.
Proof.
  intros Hn Hf Hl Hm. destruct fuel as [|fuel]; [lia|]. cbn [evict]. destruct (_ <? _) eqn:E; [|done].
  destruct (last (ca_lru c)) as [k|] eqn:El; [|done]. assert (Hin : k ∈ ca_lru c) by (by apply last_Some_elem_of).
  destruct fuel; [done|]. cbn [evict cache_remove ca_lru ca_maxEntries]. assert (Hd := drop_key_in k _ Hn Hin).
  rewrite (proj2 (Z.ltb_ge _ _)); [done|lia].
Qed.

Lemma cache_Set_wf now key value ttl c : 0 <= ca_maxEntries c -> cache_wf c -> cache_wf (cache_Set now key value ttl c).
Proof.
  intros Hm [Hp Hl]. unfold cache_Set. destruct (_ || _); [done|]. destruct (_ <=? now); [done|].
  destruct (ca_entries c !! key) as [e|] eqn:E.
  - split; [apply front_paired; eauto|]. cbn [ca_lru ca_maxEntries]. rewrite MoveToFront_length; [done|apply Hp|]. apply Hp. by eexists.
  - assert (Hk : key ∉ ca_lru c) by (rewrite (proj2 Hp), E; by intros [? ?]).
    set (c' := mkCache _ _ _). assert (Hp' : paired c').
    { destruct Hp as [Hn Hd]. split; cbn; [by apply NoDup_cons|]. intros k. rewrite elem_of_cons, Hd.
      destruct (decide (k = key)) as [->|]; [rewrite lookup_insert_eq|rewrite lookup_insert_ne by done]; naive_solver. }
    rewrite evict_eq; [|apply Hp'|cbn; lia..]. destruct (_ <? _) eqn:El; [|split; [done|apply Z.ltb_ge in El; exact El]].
    destruct (last (ca_lru c')) as [k|] eqn:Ek; [|split; [done|]; apply last_None in Ek; done].
    split; [by apply remove_paired|]. assert (Hd := drop_key_in k _ (proj1 Hp') ltac:(by apply last_Some_elem_of)).
    cbn [cache_remove ca_lru ca_maxEntries] in *. cbn [c' ca_lru length] in Hd. cbn [c' ca_lru ca_maxEntries]. lia.
Qed.

(** The uses of a cache. *)
Inductive use := UGet (now : Z) (key : K) | USet (now : Z) (key : K) (value : introspection) (ttl : Z).
Definition use_key (u : use) : K := match u with UGet _ k | USet _ k _ _ => k end.
Definition run_use (c : introspectionCache K) (u : use) : introspectionCache K :=
  match u with UGet now k => (cache_Get now k c).1 | USet now k v ttl => cache_Set now k v ttl c end.

(** The key is in the list, behind keys of a set only. *)
Definition behind (D : gset K) key (e : cacheEntry) c : Prop :=
  ca_entries c !! key = Some e /\ exists pre post, ca_lru c = pre ++ key :: post /\ forall k, k ∈ pre -> k ∈ D.

Lemma within_size D (l : list K) : NoDup l -> (forall k, k ∈ l -> k ∈ D) -> (length l <= size D)%nat.
Proof.
  intros Hn Hp. rewrite <- (size_list_to_set (C := gset K)) by done. apply subseteq_size.
  intros k Hin%elem_of_list_to_set. by apply Hp.
Qed.
Lemma behind_room D key e c : cache_wf c -> key ∉ D -> behind D key e c -> Z.of_nat (size D) < ca_maxEntries c ->
  exists pre post, ca_lru c = pre ++ key :: post /\ (forall k, k ∈ pre -> k ∈ D) /\ NoDup pre /\ (length pre <= size D)%nat.
Proof.
  intros [[Hn _] _] Hk [_ (pre & post & Hl & Hp)] Hs. exists pre, post. split; [done|]. split; [done|].
  rewrite Hl in Hn. apply NoDup_app in Hn as [Hn _]. split; [done|]. by apply within_size.
Qed.

Lemma front_behind (D : gset K) key k c pre post : key ∉ D -> k ∈ D -> ca_lru c = pre ++ key :: post -> (forall k, k ∈ pre -> k ∈ D) ->
  exists pre' post', MoveToFront k (ca_lru c) = pre' ++ key :: post' /\ forall k, k ∈ pre' -> k ∈ D.
Proof.
  intros Hk Hu Hl Hp. exists (k :: drop_key k pre), (drop_key k post). unfold MoveToFront. rewrite Hl, drop_key_app. split.
  - cbn. by rewrite bool_decide_eq_false_2 by congruence.
  - intros x. rewrite elem_of_cons, elem_of_drop_key. naive_solver.
Qed.

Lemma remove_behind D key e k c : k <> key -> behind D key e c -> behind D key e (cache_remove k c).
Proof.
  intros Hne [He (pre & post & Hl & Hp)]. split; cbn; [by rewrite lookup_delete_ne|].
  exists (drop_key k pre), (drop_key k post). rewrite Hl, drop_key_app. split; [cbn; by rewrite bool_decide_eq_false_2 by congruence|].
  intros x [Hin _]%elem_of_drop_key. by apply Hp.
Qed.

(** A key just stored is the first of the list. *)
Lemma set_behind D now key value ttl c : cache_wf c -> 0 < ca_maxEntries c -> in_Active value = true -> 0 < ttl ->
  now < expires_at now ttl (in_Expiration value) ->
  behind D key (mkCacheEntry value (expires_at now ttl (in_Expiration value))) (cache_Set now key value ttl c).
Proof.
  intros Hw Hm Ha Ht Hx. unfold cache_Set. rewrite Ha, (proj2 (Z.leb_gt ttl 0)), (proj2 (Z.leb_gt _ now)) by done. cbn [negb orb].
  destruct (ca_entries c !! key) as [e|] eqn:E.
  - split; cbn; [by rewrite lookup_insert_eq|]. exists [], (drop_key key (ca_lru c)). split; [done|]. by intros ? ?%not_elem_of_nil.
  - assert (Hkn : key ∉ ca_lru c) by (rewrite (proj2 (proj1 Hw)), E; by intros [? ?]).
    rewrite evict_eq; cbn [ca_lru ca_maxEntries length]; [|by apply NoDup_cons; split; [|apply Hw]|lia|destruct Hw; lia|lia].
    set (c' := mkCache _ _ _). assert (Hb : behind D key (mkCacheEntry value (expires_at now ttl (in_Expiration value))) c').
    { split; cbn; [by rewrite lookup_insert_eq|]. exists [], (ca_lru c). split; [done|]. by intros ? ?%not_elem_of_nil. }
    destruct (_ <? _) eqn:El; [|done]. destruct (last _) as [x|] eqn:Ex; [|done]. apply remove_behind; [|done]. intros ->.
    apply Z.ltb_lt in El. destruct (ca_lru c) as [|y l]; [cbn in El; lia|]. cbn [last] in Ex. by apply (last_Some_elem_of (y :: l)) in Ex.
Qed.

Lemma run_use_max c u : ca_maxEntries (run_use c u) = ca_maxEntries c.
Proof.
  assert (He : forall fuel c, ca_maxEntries (evict fuel c) = ca_maxEntries c).
  { induction fuel as [|fuel IH]; intros c'; [done|]. cbn [evict]. destruct (_ <? _); [|done].
    destruct (last _); [|done]. by rewrite IH. }
  destruct u; cbn; [unfold cache_Get|unfold cache_Set]; repeat case_match; try done. by rewrite He.
Qed.

Lemma use_behind D key e c u : cache_wf c -> key ∉ D -> use_key u ∈ D -> Z.of_nat (size D) < ca_maxEntries c ->
  behind D key e c -> behind D key e (run_use c u).
Proof.
  intros Hw Hk Hu Hs Hb. destruct (behind_room _ _ _ _ Hw Hk Hb Hs) as (pre & post & Hl & Hp & Hn & Hlen). destruct Hb as [He Hx].
  assert (Hne : use_key u <> key) by congruence.
  destruct u as [now k|now k v ttl]; cbn [use_key run_use] in *; [unfold cache_Get|unfold cache_Set].
  - destruct (ca_entries c !! k) as [e'|]; [|by split]. destruct (_ <=? now); cbn [fst]; [by apply remove_behind|].
    split; cbn [ca_entries ca_lru]; [done|]. eapply front_behind; eauto.
  - destruct (_ || _); [by split|]. destruct (_ <=? now); [by split|]. destruct (ca_entries c !! k) as [e'|] eqn:E.
    + split; cbn [ca_entries ca_lru]; [by rewrite lookup_insert_ne|]. eapply front_behind; eauto.
    + assert (Hkn : k ∉ ca_lru c) by (rewrite (proj2 (proj1 Hw)), E; by intros [? ?]).
      rewrite evict_eq; cbn [ca_lru ca_maxEntries length]; [|by apply NoDup_cons; split; [|apply Hw]|lia|destruct Hw; lia|lia].
      assert (Hb' : behind D key e (mkCache (ca_maxEntries c) (<[k:=mkCacheEntry v (expires_at now ttl (in_Expiration v))]> (ca_entries c)) (k :: ca_lru c))).
      { split; cbn; [by rewrite lookup_insert_ne|]. exists (k :: pre), post. rewrite Hl. split; [done|]. intros x [->|?]%elem_of_cons; auto. }
      destruct (_ <? _) eqn:El; [|done]. apply Z.ltb_lt in El.
      destruct (last (k :: ca_lru c)) as [x|] eqn:Ex; [|done]. rewrite Hl, app_comm_cons, last_app_cons in Ex.
      apply remove_behind; [|done]. intros ->. destruct Hw as [[Hnl _] _]. rewrite Hl, NoDup_app, NoDup_cons in Hnl.
      destruct post as [|y post].
      * assert (Hr := within_size D (k :: pre)). rewrite Hl, length_app in El. cbn [length] in *.
        assert (Hkp : NoDup (k :: pre)) by (apply NoDup_cons; split; [|done];
          intros Hin; apply Hkn; rewrite Hl; apply elem_of_app; by left). lapply Hr; [|done]. clear Hr. intros Hr.
        lapply Hr; [lia|]. intros z [->|?]%elem_of_cons; auto.
      * cbn in Ex. apply (last_Some_elem_of (y :: post)) in Ex. naive_solver.
Qed.

(** the cache forgets the least recently used answer first. An answer that was stored is
    still there, unchanged, after any uses of it for other tokens, as long as those tokens
    are fewer than the entries the cache may hold. *)
Theorem lru_keeps_recent now key value ttl c uses D :
  cache_wf c -> in_Active value = true -> 0 < ttl -> now < expires_at now ttl (in_Expiration value) ->
  key ∉ D -> (forall u, u ∈ uses -> use_key u ∈ D) -> Z.of_nat (size D) < ca_maxEntries c ->
  ca_entries (fold_left run_use uses (cache_Set now key value ttl c)) !! key
  = Some (mkCacheEntry value (expires_at now ttl (in_Expiration value))).
Proof.
  intros Hw Ha Ht Hx Hk Hu Hs. set (e := mkCacheEntry _ _).
  assert (Hb : behind D key e (cache_Set now key value ttl c)) by (apply set_behind; [done|lia|done..]).
  assert (Hw' : cache_wf (cache_Set now key value ttl c)) by (apply cache_Set_wf; [lia|done]).
  assert (Hs' : Z.of_nat (size D) < ca_maxEntries (cache_Set now key value ttl c)) by (assert (Hr := run_use_max c (USet now key value ttl));
    cbn [run_use] in Hr; by rewrite Hr).
  clear Hw Hs. revert Hb Hw' Hs'. generalize (cache_Set now key value ttl c). clear c. induction uses as [|u uses IH]; intros c Hb Hw Hs; cbn.
  - apply Hb.
  - apply IH; [set_solver|apply use_behind; set_solver| |by rewrite run_use_max].
    destruct u; cbn; [by apply cache_Get_wf|apply cache_Set_wf; [lia|done]].
Qed.
End Bounded.

(** ** The verifier *)

Section Verifying.
Context {K : Type} `{Countable K} (cacheKey : text -> K) (server : Z -> text -> introspection) (ttl : Z).
Implicit Types (v : verifier K) (key k : K) (f : flight).

Abbreviation vstep := (vstep cacheKey server ttl).

(** An answer the issuer gave about a token of that key, no later than [s]. *)
Definition given_by key (c : introspection) (s : Z) : Prop := exists tk a, cacheKey tk = key /\ c = server a tk /\ a <= s.

Definition entry_ok (now : Z) key (e : cacheEntry) : Prop :=
  in_Active (ce_value e) = true
  /\ exists s, given_by key (ce_value e) s /\ s <= now /\ ce_expires e <= s + ttl
     /\ forall exp, in_Expiration (ce_value e) = Some exp -> ce_expires e <= exp.
Definition phase_ok (now : Z) (token : text) (p : phase) : Prop :=
  match p with PAnswered at_ (Some r) => r = server at_ token /\ at_ <= now | _ => True end.
Definition flight_ok (now : Z) key f : Prop :=
  cacheKey (fl_token f) = key /\ (forall w, w ∈ fl_waiters f -> wt_since w <= now /\ cacheKey (wt_token w) = key)
  /\ phase_ok now (fl_token f) (fl_phase f).
Definition outcome_ok (now : Z) (o : outcome) : Prop :=
  match oc_verdict o with
  | VContext c => exists s, given_by (cacheKey (oc_token o)) c s /\ s <= now /\ oc_since o < s + ttl
  | _ => True
  end.

Record verifier_ok v : Prop := mkVerifierOk {
  vo_cache : cache_wf (vf_cache v);
  vo_max : 0 <= ca_maxEntries (vf_cache v);
  vo_entries k e : ca_entries (vf_cache v) !! k = Some e -> entry_ok (vf_now v) k e;
  vo_group k f : vf_group v !! k = Some f -> flight_ok (vf_now v) k f;
  vo_outcomes o : o ∈ vf_outcomes v -> outcome_ok (vf_now v) o }.

Lemma entry_ok_later now now' k e : now <= now' -> entry_ok now k e -> entry_ok now' k e.
Proof. intros Hn (Ha & s & Hg & Hs & He). split; [done|]. exists s. split; [done|]. split; [lia|done]. Qed.
Lemma flight_ok_later now now' k f : now <= now' -> flight_ok now k f -> flight_ok now' k f.
Proof.
  intros Hn (Hk & Hw & Hp). split; [done|]. split.
  - intros w Hin. destruct (Hw w Hin). split; [lia|done].
  - destruct (fl_phase f) as [| |at_ [r|]]; try done. destruct Hp. split; [done|lia].
Qed.
Lemma outcome_ok_later now now' o : now <= now' -> outcome_ok now o -> outcome_ok now' o.
Proof.
  unfold outcome_ok. destruct (oc_verdict o); [|done..]. intros Hn (s & Hg & Hs & Ho). exists s. split; [done|]. split; [lia|done].
Qed.

Lemma cache_Get_entries now key c k e : ca_entries (cache_Get now key c).1 !! k = Some e -> ca_entries c !! k = Some e.
Proof.
  unfold cache_Get. destruct (_ !! key) eqn:E; [|done]. destruct (_ <=? now); [|done]. cbn. by intros [_ ?]%lookup_delete_Some.
Qed.
Lemma cache_Get_hit now key (c : introspectionCache K) r : (cache_Get now key c).2 = Some r ->
  exists e, ca_entries c !! key = Some e /\ ce_value e = r /\ now < ce_expires e.
Proof.
  unfold cache_Get. destruct (_ !! key) as [e|]; [|done]. destruct (_ <=? now) eqn:E; [done|]. intros [= <-]. exists e.
  split; [done|]. split; [done|lia].
Qed.
Lemma evict_entries fuel (c : introspectionCache K) k e : ca_entries (evict fuel c) !! k = Some e -> ca_entries c !! k = Some e.
Proof.
  revert c. induction fuel as [|fuel IH]; intros c; [done|]. cbn [evict]. destruct (_ <? _); [|done]. destruct (last _); [|done].
  intros He%IH. cbn in He. by apply lookup_delete_Some in He as [_ ?].
Qed.
Lemma cache_Set_entries now key value (c : introspectionCache K) k e : ca_entries (cache_Set now key value ttl c) !! k = Some e ->
  ca_entries c !! k = Some e
  \/ (k = key /\ in_Active value = true /\ e = mkCacheEntry value (expires_at now ttl (in_Expiration value))).
Proof.
  unfold cache_Set. destruct (_ || _) eqn:Ea; [by left|]. destruct (_ <=? now); [by left|].
  rewrite orb_false_iff, negb_false_iff in Ea. destruct Ea as [Ea _].
  destruct (_ !! key); [intros He|intros He%evict_entries]; cbn in He;
    apply lookup_insert_Some in He as [[<- <-]|[_ ?]]; auto.
Qed.
Lemma cache_max_Get now key (c : introspectionCache K) : ca_maxEntries (cache_Get now key c).1 = ca_maxEntries c.
Proof. exact (run_use_max c (UGet now key)). Qed.
Lemma cache_max_Set now key value (c : introspectionCache K) : ca_maxEntries (cache_Set now key value ttl c) = ca_maxEntries c.
Proof. exact (run_use_max c (USet now key value ttl)). Qed.

(** What an answer found in the cache is worth to a caller that came before. *)
Lemma hit_ok v key r token since : verifier_ok v -> (cache_Get (vf_now v) key (vf_cache v)).2 = Some r ->
  cacheKey token = key -> since <= vf_now v -> outcome_ok (vf_now v) (mkOutcome 0 token since (VContext r)).
Proof.
  intros Hv Hr <- Hs. destruct (cache_Get_hit _ _ _ _ Hr) as (e & He & <- & Hx). destruct (vo_entries v Hv _ _ He) as (_ & s & Hg & Hn & Ht & _).
  exists s. split; [done|]. split; [done|]. cbn. lia.
Qed.

Lemma deliver_ok v key f r : verifier_ok v -> vf_group v !! key = Some f ->
  (forall w, w ∈ fl_waiters f -> outcome_ok (vf_now v) (settle r w)) -> verifier_ok (deliver key f r v).
Proof.
  intros [] Hf Hw. constructor; cbn; try done.
  - intros k g [_ Hg]%lookup_delete_Some. auto.
  - intros o [Ho|Ho]%elem_of_app; [auto|]. apply list_elem_of_fmap in Ho as (w & -> & Hin). auto.
Qed.

(** The verifier with its cache used for a look-up. *)
Lemma looked_ok v key : verifier_ok v ->
  verifier_ok (mkVerifier (vf_now v) (cache_Get (vf_now v) key (vf_cache v)).1 (vf_group v) (vf_outcomes v) (vf_calls v) (vf_done v)).
Proof.
  intros []. constructor; cbn; try done.
  - by apply cache_Get_wf.
  - by rewrite cache_max_Get.
  - intros k e He%cache_Get_entries. auto.
Qed.

Lemma group_ok v key f calls : verifier_ok v -> flight_ok (vf_now v) key f ->
  verifier_ok (mkVerifier (vf_now v) (vf_cache v) (<[key := f]> (vf_group v)) (vf_outcomes v) calls (vf_done v)).
Proof.
  intros [] Hf. constructor; cbn; try done. intros k g [[<- <-]|[_ Hg]]%lookup_insert_Some; auto.
Qed.
Lemma outcomes_ok v os : verifier_ok v -> (forall o, o ∈ os -> outcome_ok (vf_now v) o) ->
  verifier_ok (mkVerifier (vf_now v) (vf_cache v) (vf_group v) (vf_outcomes v ++ os) (vf_calls v) (vf_done v)).
Proof. intros [] Hf. constructor; cbn; try done. intros o [Ho|Ho]%elem_of_app; auto. Qed.

Lemma arrive_ok v caller header : verifier_ok v -> verifier_ok (arrive cacheKey caller header v).
Proof.
  intros Hv. unfold arrive. destruct (bearer header) as [token|].
  2: { apply (outcomes_ok v); [done|]. intros o ->%list_elem_of_singleton. done. }
  assert (Hl := looked_ok v (cacheKey token) Hv). assert (Hh := hit_ok v (cacheKey token)).
  destruct (cache_Get _ _ _) as [c [r|]]; cbn [fst snd] in *.
  - apply (outcomes_ok _ _ Hl). intros o ->%list_elem_of_singleton. cbn [vf_now].
    exact (Hh r token (vf_now v) Hv eq_refl eq_refl ltac:(lia)).
  - apply (group_ok _ _ _ _ Hl). cbn. destruct (vf_group v !! cacheKey token) as [f|] eqn:Ef.
    + destruct (vo_group v Hv _ _ Ef) as (Hk & Hw & Hp). split; [done|]. split; [|done].
      intros w [Hw'| ->%list_elem_of_singleton]%elem_of_app; [auto|]. cbn. split; [lia|done].
    + split; [done|]. split; [|done]. intros w ->%list_elem_of_singleton. cbn. split; [lia|done].
Qed.

Lemma vstep_ok v v' : 0 < ttl -> verifier_ok v -> vstep v v' -> verifier_ok v'.
Proof.
  intros Ht Hv Hs. destruct Hs as [v now Hn|v caller header|v key f Hf Hp|v key f answer Hf Hp Ha|v key f at_ answer Hf Hp|v key f pre w post Hf Hw].
  - destruct Hv. constructor; cbn; try done.
    + intros. eapply entry_ok_later; eauto.
    + intros. eapply flight_ok_later; eauto.
    + intros. eapply outcome_ok_later; eauto.
  - by apply arrive_ok.
  - destruct (vo_group v Hv _ _ Hf) as (Hk & Hw & _). unfold begin. assert (Hl := looked_ok v (cacheKey (fl_token f)) Hv).
    assert (Hh := hit_ok v (cacheKey (fl_token f))). destruct (cache_Get _ _ _) as [c [r|]]; cbn [fst snd] in *.
    + apply (deliver_ok _ _ _ _ Hl Hf). intros w Hin. destruct (Hw w Hin) as [Hs Hkw].
      exact (Hh r (wt_token w) (wt_since w) Hv eq_refl ltac:(congruence) Hs).
    + by apply (group_ok _ _ _ _ Hl).
  - destruct (vo_group v Hv _ _ Hf) as (Hk & Hw & _). apply (group_ok v _ _ _ Hv). split; [done|]. split; [done|].
    cbn. destruct Ha as [->| ->]; [done|]. split; [done|lia].
  - destruct (vo_group v Hv _ _ Hf) as (Hk & Hw & Hpo). rewrite Hp in Hpo. unfold finish. apply deliver_ok; [|done|].
    + destruct answer as [r|]; [|by destruct Hv]. destruct Hpo as [-> Hat]. destruct Hv. constructor; cbn; try done.
      * by apply cache_Set_wf.
      * by rewrite cache_max_Set.
      * intros k e [He|(-> & Hact & ->)]%cache_Set_entries; [auto|]. split; [done|]. exists (vf_now v). cbn. unfold expires_at.
        split; [by exists (fl_token f), at_|]. split; [lia|]. destruct (in_Expiration _) as [x|]; [|split; [lia|done]].
        destruct (x <? vf_now v + ttl) eqn:Ex; split; intros; simplify_eq; lia.
    + intros w Hin. destruct (Hw w Hin) as [Hs Hkw]. destruct answer as [r|]; [|done]. destruct Hpo as [-> Hat]. exists (vf_now v).
      cbn. split; [|split; lia]. exists (fl_token f), at_. split; [congruence|done].
  - destruct (vo_group v Hv _ _ Hf) as (Hk & Hws & Hp).
    assert (Hg := group_ok v key (mkFlight (fl_token f) (fl_phase f) (pre ++ post)) (vf_calls v) Hv).
    apply (outcomes_ok (mkVerifier _ _ _ _ _ _)); [apply Hg|by intros o ->%list_elem_of_singleton].
    split; [done|]. split; [|done]. intros x Hx. apply Hws. rewrite Hw. set_solver.
Qed.

Definition reachable (maxEntries t0 : Z) v : Prop := rtc vstep (start maxEntries t0) v.

Lemma verifier_reachable_ok maxEntries t0 v : 0 < ttl -> 0 <= maxEntries -> reachable maxEntries t0 v -> verifier_ok v.
Proof.
  intros Ht Hm Hr. assert (H0 : verifier_ok (start maxEntries t0)).
  { assert (Hno : forall A (k : K) (x : A), (∅ : gmap K A) !! k = Some x -> False) by (intros A k x; by rewrite lookup_empty).
    constructor; [|done|by intros k e ?%Hno|by intros k e ?%Hno|by intros o ?%not_elem_of_nil].
    split; [split; [constructor|]|done]. intros k. split; [by intros ?%not_elem_of_nil|]. by intros [e ?%Hno]. }
  induction Hr as [|v v' v'' Hs _ IH]; [done|]. apply IH. by eapply vstep_ok.
Qed.


(** the cache keeps within its bounds whatever runs at once: it never holds more entries
    than it may, each is an active answer of the issuer about a token of its key, and none is
    kept past the token's own expiry or a time to live after it was stored. *)
Theorem cache_bounded maxEntries t0 v :
  0 < ttl -> 0 <= maxEntries -> reachable maxEntries t0 v ->
  Z.of_nat (size (ca_entries (vf_cache v))) <= ca_maxEntries (vf_cache v)
  /\ forall k e, ca_entries (vf_cache v) !! k = Some e -> entry_ok (vf_now v) k e.
Proof.
  intros Ht Hm Hr. destruct (verifier_reachable_ok _ _ _ Ht Hm Hr) as [[[Hn Hk] Hl] _ He _ _]. split; [|exact He].
  etransitivity; [|exact Hl]. apply inj_le. rewrite <- size_dom. rewrite <- (size_list_to_set (C := gset K) (ca_lru _)) by done.
  apply subseteq_size. intros k Hin%elem_of_dom. apply elem_of_list_to_set. by apply Hk.
Qed.

(** ** One call for a burst *)

Definition count (k : K) (l : list K) : nat := length (List.filter (fun x => bool_decide (x = k)) l).
Definition outstanding (f : option flight) : nat :=
  match f with
  | Some f => match fl_phase f with PBegin => 0 | _ => 1 end
  | None => 0
  end.

Lemma calls_app k l r : count k (l ++ r) = (count k l + count k r)%nat.
Proof. unfold count. by rewrite List.filter_app, length_app. Qed.
Lemma count_one k x : count k [x] = if bool_decide (x = k) then 1%nat else 0%nat.
Proof. unfold count. cbn. by case_bool_decide. Qed.

Arguments count : simpl never.

Definition balanced v : Prop :=
  forall k, count k (vf_calls v) = (count k (vf_done v) + outstanding (vf_group v !! k))%nat.

Lemma vstep_balanced v v' : balanced v -> vstep v v' -> balanced v'.
Proof.
  intros Hb Hs k. specialize (Hb k).
  destruct Hs as [v now Hn|v caller header|v key f Hf Hp|v key f answer Hf Hp Ha|v key f at_ answer Hf Hp|v key f pre w post Hf Hw]; [done|..].
  - unfold arrive. destruct (bearer header) as [token|]; [|done]. destruct (cache_Get _ _ _) as [c [r|]]; [done|]. cbn.
    destruct (decide (k = cacheKey token)) as [->|]; [rewrite lookup_insert_eq|by rewrite lookup_insert_ne].
    destruct (vf_group v !! _); done.
  - unfold begin. destruct (cache_Get _ _ _) as [c [r|]]; cbn.
    + destruct (decide (k = key)) as [->|]; [rewrite lookup_delete_eq|by rewrite lookup_delete_ne].
      rewrite Hf in Hb. cbn in Hb. rewrite Hp in Hb. done.
    + rewrite calls_app, count_one. destruct (decide (k = key)) as [->|].
      * rewrite lookup_insert_eq, bool_decide_eq_true_2 by done. rewrite Hf in Hb. cbn in Hb. rewrite Hp in Hb. cbn. lia.
      * rewrite lookup_insert_ne, bool_decide_eq_false_2 by done. lia.
  - cbn. destruct (decide (k = key)) as [->|]; [rewrite lookup_insert_eq|by rewrite lookup_insert_ne].
    rewrite Hf in Hb. cbn in *. by rewrite Hp in Hb.
  - unfold finish. cbn. rewrite calls_app, count_one. destruct (decide (k = key)) as [->|].
    + rewrite lookup_delete_eq, bool_decide_eq_true_2 by done. rewrite Hf in Hb. cbn in *. rewrite Hp in Hb. lia.
    + rewrite lookup_delete_ne, bool_decide_eq_false_2 by done. lia.
  - cbn. destruct (decide (k = key)) as [->|]; [rewrite lookup_insert_eq|by rewrite lookup_insert_ne]. rewrite Hf in Hb. done.
Qed.

(** a burst of callers with one token costs one introspection. However they interleave,
    the calls sent for a key are the calls that ended and at most the one under way, so no
    second call is sent for it before the first has ended and its callers have been told. *)
Theorem one_call_at_a_time maxEntries t0 v k : reachable maxEntries t0 v ->
  count k (vf_calls v) = (count k (vf_done v) + outstanding (vf_group v !! k))%nat /\ (outstanding (vf_group v !! k) <= 1)%nat.
Proof.
  intros Hr. assert (Hb : balanced v).
  { assert (H0 : balanced (start maxEntries t0)) by (intros x; cbn; by rewrite lookup_empty).
    unfold reachable in Hr. clear k. induction Hr as [|x y z Hs _ IH]; [done|]. apply IH. by eapply vstep_balanced. }
  split; [by apply Hb|]. destruct (_ !! k) as [f|]; cbn; [|lia]. destruct (fl_phase f); lia.
Qed.

End Verifying.

(** ** A late answer *)

(** The issuer knows every token until 100. *)
Definition until_100 (t : Z) (token : text) : introspection := mkIntrospection (t <? 100) "u1" "" "" [] None None None ∅.
Definition bearer_x : text := bytes_of "Bearer x".
Abbreviation vstep30 := (vstep (K := string) string_of until_100 30).

Definition at_ (now : Z) (v : verifier string) : verifier string :=
  mkVerifier now (vf_cache v) (vf_group v) (vf_outcomes v) (vf_calls v) (vf_done v).
Definition flight_x (p : phase) : flight := mkFlight (bytes_of "x") p [mkWaiter 0 (bytes_of "x") 99].
Definition asked_at_99 : verifier string := begin string_of "x" (flight_x PBegin) (arrive string_of 0 bearer_x (start 10 99)).
Definition answered_at_99 : verifier string :=
  mkVerifier 99 (vf_cache asked_at_99) (<["x" := flight_x (PAnswered 99 (Some (until_100 99 (bytes_of "x"))))]> (vf_group asked_at_99))
    (vf_outcomes asked_at_99) (vf_calls asked_at_99) (vf_done asked_at_99).
Definition stored_at_105 : verifier string :=
  finish string_of 30 "x" (flight_x (PAnswered 99 (Some (until_100 99 (bytes_of "x"))))) (Some (until_100 99 (bytes_of "x"))) (at_ 105 answered_at_99).
Definition hit_at_134 : verifier string := arrive string_of 1 bearer_x (at_ 134 stored_at_105).

Lemma late_run : rtc vstep30 (start 10 99) hit_at_134.
Proof.
  apply (rtc_l _ _ (arrive string_of 0 bearer_x (start 10 99))); [apply step_arrive|].
  apply (rtc_l _ _ asked_at_99); [apply step_begin; vm_compute; reflexivity|].
  apply (rtc_l _ _ answered_at_99).
  { apply (step_answer _ _ _ asked_at_99 "x" (flight_x PAsked)); [vm_compute; reflexivity..|by right]. }
  apply (rtc_l _ _ (at_ 105 answered_at_99)); [apply step_tick; vm_compute; discriminate|].
  apply (rtc_l _ _ stored_at_105); [eapply step_finish; vm_compute; reflexivity|].
  apply (rtc_l _ _ (at_ 134 stored_at_105)); [apply step_tick; vm_compute; discriminate|].
  apply rtc_once. apply step_arrive.
Qed.

(** The time to live runs from when the answer arrives, not from when the issuer gave it: a
    token revoked at 100 is accepted from a caller that comes at 134, more than the time to
    live of 30 later. *)
Theorem revoked_past_ttl :
  rtc vstep30 (start 10 99) hit_at_134
  /\ (forall t, 100 <= t -> in_Active (until_100 t (bytes_of "x")) = false)
  /\ exists o, o ∈ vf_outcomes hit_at_134 /\ oc_since o = 134 /\ 100 + 30 < oc_since o
     /\ exists c, oc_verdict o = VContext c /\ in_Active c = true.
Proof.
  split; [exact late_run|]. split; [intros t Ht; cbn; lia|]. exists (mkOutcome 1 (bytes_of "x") 134 (VContext (until_100 99 (bytes_of "x")))).
  split; [vm_compute; set_solver|]. split; [done|]. split; [done|]. by eexists.
Qed.


Lemma cache_bounded_witness : Z.of_nat (size (ca_entries (vf_cache hit_at_134))) <= 10.
Proof. exact (proj1 (cache_bounded (K := string) string_of until_100 30 10 99 hit_at_134 ltac:(lia) ltac:(lia) late_run)). Defined.

Lemma one_call_at_a_time_witness :
  count "x" (vf_calls hit_at_134) = (count "x" (vf_done hit_at_134) + outstanding (vf_group hit_at_134 !! "x"))%nat
  /\ count "x" (vf_calls hit_at_134) = 1%nat.
Proof.
  split; [|vm_compute; reflexivity].
  exact (proj1 (one_call_at_a_time (K := string) string_of until_100 30 10 99 hit_at_134 "x" late_run)).
Defined.

(** A cache of two, one other token used. *)
Lemma lru_keeps_recent_witness :
  ca_entries (fold_left run_use [USet 1 "b" (until_100 1 []) 30; UGet 2 "b"; USet 3 "b" (until_100 3 []) 30]
    (cache_Set 0 "a" (until_100 0 []) 30 (newIntrospectionCache 2))) !! "a"
  = Some (mkCacheEntry (until_100 0 []) 30).
Proof.
  apply (lru_keeps_recent 0 "a" (until_100 0 []) 30 (newIntrospectionCache 2) _ {["b"]}).
  - split; [split; [constructor|]|cbn; lia]. intros k. split; [by intros ?%not_elem_of_nil|intros [e He]]. by cbn in He; rewrite lookup_empty in He.
  - reflexivity.
  - lia.
  - cbn. lia.
  - set_solver.
  - intros u Hu. repeat (apply elem_of_cons in Hu as [->|Hu]; [cbn; set_solver|]). by apply not_elem_of_nil in Hu.
  - rewrite size_singleton. cbn. lia.
Defined.
