(* ===== verification/Storage.v ===== *)
(** Object storage ([storage] and [storage/s3]): the options of presigned URLs with the
    download's name made safe for a header ([presign.go]), the detection of an upload's type
    ([sniff.go]), and the S3 adapter over a bucket ([s3.go]).

    The AWS client is an argument, as are the signature of a URL, the detection of a type
    from the first bytes ([net/http]) and the parsing of a media type ([mime]).

    What storage guarantees: the name a client chose cannot break out of the header it is
    sent in and reads back from it, an upload passes on whole, and no signed URL outlives the
    maximum. *)

From stdpp Require Import base gmap list strings.
From Stdlib Require Import ZArith Lia Ascii ZifyBool.
From S2P Require Import Prelude GoStrings GoText Middleware Requests.

Open Scope string_scope.
Open Scope list_scope.
Open Scope Z_scope.

(** ** Runes *)

Definition byte_of (n : Z) : ascii := ascii_of_nat (Z.to_nat n).

(** [utf8.AppendRune], of a scalar value. *)
Definition encode_rune (c : Z) : text :=
  if c <? 128 then [byte_of c]
  else if c <? 2048 then [byte_of (192 + c / 64); byte_of (128 + c mod 64)]
  else if c <? 65536 then [byte_of (224 + c / 4096); byte_of (128 + c / 64 mod 64); byte_of (128 + c mod 64)]
  else [byte_of (240 + c / 262144); byte_of (128 + c / 4096 mod 64); byte_of (128 + c / 64 mod 64); byte_of (128 + c mod 64)].
Definition utf8 (rs : list Z) : text := concat (encode_rune <$> rs).

(** [strings.Map], with a negative result dropping the rune. *)
Definition Map_runes (f : Z -> Z) (t : text) : text := utf8 (List.filter (fun c => 0 <=? c) (f <$> runes t)).

Definition in_ranges (ranges : list (Z * Z)) (c : Z) : bool := existsb (fun r => (r.1 <=? c) && (c <=? r.2)) ranges.

(** [unicode.IsControl]. *)
Definition IsControl : Z -> bool := in_ranges [(0, 31); (127, 159)].
(** [unicode.Cf]. *)
Definition Cf : Z -> bool := in_ranges
  [(173, 173); (1536, 1541); (1564, 1564); (1757, 1757); (1807, 1807); (2192, 2193); (2274, 2274); (6158, 6158); (8203, 8207);
   (8234, 8238); (8288, 8292); (8294, 8303); (65279, 65279); (65529, 65531); (69821, 69821); (69837, 69837); (78896, 78911);
   (113824, 113827); (119155, 119162); (917505, 917505); (917536, 917631)].
Definition Zl (c : Z) : bool := c =? 8232.
Definition Zp (c : Z) : bool := c =? 8233.
(** [unicode.IsSpace]. *)
Definition IsSpace : Z -> bool := in_ranges
  [(9, 13); (32, 32); (133, 133); (160, 160); (5760, 5760); (8192, 8202); (8232, 8233); (8239, 8239); (8287, 8287); (12288, 12288)].

Fixpoint drop_spaces (rs : list Z) : list Z :=
  match rs with
  | c :: rs' => if IsSpace c then drop_spaces rs' else rs
  | [] => []
  end.
Definition trim_runes (rs : list Z) : list Z := rev (drop_spaces (rev (drop_spaces rs))).
(** [strings.TrimSpace], of a text that is UTF-8. *)
Definition Trim (t : text) : text := utf8 (trim_runes (runes t)).

(** ** Options of a presigned download *)

Definition DefaultContentDisposition : text := bytes_of "attachment".
Definition DefaultResponseContentType : text := bytes_of "application/octet-stream".

Record PresignGetOptions := mkGetOptions { go_ContentDisposition : text; go_ContentType : text }.

Definition quote : ascii := ascii_of_nat 34.
Definition backslash : ascii := ascii_of_nat 92.

Definition asciiFallback (name : text) : text * bool :=
  (Map_runes (fun r => if 127 <? r then 95 else r) name, forallb (fun r => r <=? 127) (runes name)).

Definition isAttrChar (c : ascii) : bool :=
  is_lower c || is_upper c || is_digit c || existsb (Ascii.eqb c) (bytes_of "!#$&+-.^_`|~").

Definition upper_hex (n : Z) : ascii := byte_of (if n <? 10 then 48 + n else 55 + n).
Definition rfc5987_byte (c : ascii) : text :=
  if isAttrChar c then [c] else ["%"%char; upper_hex (byte c / 16); upper_hex (byte c mod 16)].
Definition rfc5987Encode (s : text) : text := concat (rfc5987_byte <$> s).

(** The mapping that cleans a name. *)
Definition clean_rune (r : Z) : Z :=
  if (r =? 34) || (r =? 92) then -1
  else if IsControl r || (Cf r || Zl r || Zp r) then -1
  else r.
Definition clean_name (name : text) : text := Trim (Map_runes clean_rune name).

Definition filename_prefix : text := bytes_of "attachment; filename=" ++ [quote].
Definition extended_prefix : text := bytes_of "; filename*=UTF-8''".

(** The disposition [AsAttachment] makes of a name. *)
Definition attachment (name : text) : text :=
  let clean := clean_name name in
  if bool_decide (clean = []) then DefaultContentDisposition
  else
    let '(fallback, ascii) := asciiFallback clean in
    filename_prefix ++ fallback ++ [quote] ++ (if ascii then [] else extended_prefix ++ rfc5987Encode clean).

(** A [PresignGetOption]; a nil one is ignored. *)
Inductive PresignGetOption := WithContentDisposition (d : text) | AsAttachment (name : text) | WithResponseContentType (t : text).
Definition apply_get (o : PresignGetOptions) (opt : option PresignGetOption) : PresignGetOptions :=
  match opt with
  | None => o
  | Some (WithContentDisposition d) => mkGetOptions d (go_ContentType o)
  | Some (AsAttachment name) => mkGetOptions (attachment name) (go_ContentType o)
  | Some (WithResponseContentType t) => mkGetOptions (go_ContentDisposition o) t
  end.
Definition or_default (d t : text) : text := if bool_decide (t = []) then d else t.
Definition ApplyPresignGetOptions (opts : list (option PresignGetOption)) : PresignGetOptions :=
  let o := fold_left apply_get opts (mkGetOptions DefaultContentDisposition DefaultResponseContentType) in
  mkGetOptions (or_default DefaultContentDisposition (go_ContentDisposition o))
    (or_default DefaultResponseContentType (go_ContentType o)).

(** Options of a presigned upload: the length signed, when there is one. *)
Definition ApplyPresignPutOptions (opts : list (option Z)) : option Z :=
  fold_left (fun o opt => match opt with None => o | Some n => Some n end) opts None.

(** ** Detecting a type *)

Definition sniffLen : nat := 512.

(** A reader: what it yields, and how it ends: at the end of its input or by an error. *)
Record reader := mkReader { rd_data : text; rd_error : option string }.

(** How [SniffContentType] ends: a read error, a type that is not allowed, or the type and
    the whole content again. *)
Inductive sniffed := SniffError (what : string) | SniffRefused (contentType : text) | SniffOk (contentType : text) (body : reader).

Section Sniff.
Context (DetectContentType : text -> text) (mediaType : text -> text).

Definition SniffContentType (r : reader) (allowed : list text) : sniffed :=
  let head := take sniffLen (rd_data r) in
  match (if (length (rd_data r) <? sniffLen)%nat then rd_error r else None) with
  | Some what => SniffError what
  | None =>
      let contentType := DetectContentType head in
      let detected := mediaType contentType in
      if existsb (fun a => negb (bool_decide (mediaType a = [])) && bool_decide (mediaType a = detected)) allowed
      then SniffOk contentType (mkReader (head ++ drop sniffLen (rd_data r)) (rd_error r))
      else SniffRefused contentType
  end.

End Sniff.

(** ** The S3 adapter *)

Module S3.

Definition second : Z := 1000000000.
Definition DefaultResponseHeaderTimeout : Z := 60 * second.
Definition DefaultPresignExpiry : Z := 15 * 60 * second.
Definition DefaultMaxPresignExpiry : Z := 3600 * second.
Definition MaxSigV4PresignExpiry : Z := 7 * 24 * 3600 * second.

Record Config := mkConfig {
  sc_Bucket : string; sc_Region : string; sc_Endpoint : string; sc_AccessKey : string; sc_SecretKey : string; sc_PathStyle : bool;
  sc_PresignExpiry : Z; sc_MaxPresignExpiry : Z; sc_ResponseHeaderTimeout : Z }.
Record S3Storage := mkS3Storage { st_bucket : string; st_presignExpiry : Z; st_maxExpiry : Z; st_headerTimeout : Z }.

(** [NewS3Storage], with a logger or none. *)
Definition NewS3Storage (cfg : Config) (logger : bool) : string + S3Storage :=
  if bool_decide (sc_Bucket cfg = "") then inl "bucket is required"
  else if negb logger then inl "logger is required"
  else if sc_ResponseHeaderTimeout cfg <? 0 then inl "response header timeout must not be negative"
  else if sc_MaxPresignExpiry cfg <? 0 then inl "max presign expiry must not be negative"
  else if MaxSigV4PresignExpiry <? sc_MaxPresignExpiry cfg then inl "max presign expiry exceeds what SigV4 allows"
  else
    let maxExpiry := if sc_MaxPresignExpiry cfg =? 0 then DefaultMaxPresignExpiry else sc_MaxPresignExpiry cfg in
    let presignExpiry := if sc_PresignExpiry cfg <=? 0 then DefaultPresignExpiry else sc_PresignExpiry cfg in
    if maxExpiry <? presignExpiry then inl "presign expiry exceeds the maximum"
    else inr (mkS3Storage (sc_Bucket cfg) presignExpiry maxExpiry
                (if sc_ResponseHeaderTimeout cfg =? 0 then DefaultResponseHeaderTimeout else sc_ResponseHeaderTimeout cfg)).

(** The timeouts of [newHTTPClient]: to dial, for the TLS handshake, for the headers. *)
Definition newHTTPClient (dial handshake bound : Z) : Z * Z * Z := (Z.min dial bound, Z.min handshake bound, bound).

Inductive s3_error := ErrPresignExpiryTooLong | ErrInvalidContentLength | ErrNotFound | EClient (what : string).

Definition effectiveExpiry (s : S3Storage) (expiry : Z) : s3_error + Z :=
  if expiry <=? 0 then inr (st_presignExpiry s)
  else if st_maxExpiry s <? expiry then inl ErrPresignExpiryTooLong
  else inr expiry.

(** An object, and the answer of the client to a request. *)
Record object := mkObject { ob_body : text; ob_type : option text }.
Inductive client_error := NoSuchKey | ClientOther (what : string).

(** A client on a store of its own: the calls [PutObject], [GetObject], [DeleteObject]. *)
Record client (W : Type) := mkClient {
  PutObject : string -> string -> object -> W -> W * option client_error;
  GetObject : string -> string -> W -> client_error + object;
  DeleteObject : string -> string -> W -> W * option client_error }.
Arguments PutObject {W}.
Arguments GetObject {W}.
Arguments DeleteObject {W}.

Definition client_failed (e : client_error) : s3_error :=
  match e with NoSuchKey => EClient "NoSuchKey" | ClientOther w => EClient w end.

Section Adapter.
Context {W : Type} (c : client W) (s : S3Storage).

(** Each with the lines it logs. *)
Definition Upload (key : string) (body contentType : text) (w : W) : W * list log_line * option s3_error :=
  match PutObject c (st_bucket s) key (mkObject body (Some contentType)) w with
  | (w, Some e) => (w, [], Some (client_failed e))
  | (w, None) =>
      (w, [mkLine "file uploaded" [("bucket", LStr (bytes_of (st_bucket s))); ("key", LStr (bytes_of key)); ("content_type", LStr contentType)]],
       None)
  end.
Definition Download (key : string) (w : W) : s3_error + (text * text) :=
  match GetObject c (st_bucket s) key w with
  | inl NoSuchKey => inl ErrNotFound
  | inl e => inl (client_failed e)
  | inr o => inr (ob_body o, default [] (ob_type o))
  end.
Definition Delete (key : string) (w : W) : W * list log_line * option s3_error :=
  match DeleteObject c (st_bucket s) key w with
  | (w, Some e) => (w, [], Some (client_failed e))
  | (w, None) => (w, [mkLine "file deleted" [("bucket", LStr (bytes_of (st_bucket s))); ("key", LStr (bytes_of key))]], None)
  end.

(** What a URL signs. *)
Inductive signed :=
  | SignedGet (bucket key : string) (disposition contentType : text)
  | SignedPut (bucket key : string) (contentType : text) (length : option Z).
Context (sign : signed -> Z -> option text).

Definition presign (what : signed) (expires : Z) : s3_error + text :=
  match sign what expires with Some url => inr url | None => inl (EClient "presign") end.

Definition PresignedGetURL (key : string) (expiry : Z) (opts : list (option PresignGetOption)) : s3_error + text :=
  let o := ApplyPresignGetOptions opts in
  match effectiveExpiry s expiry with
  | inl e => inl e
  | inr expires => presign (SignedGet (st_bucket s) key (go_ContentDisposition o) (go_ContentType o)) expires
  end.
Definition PresignedPutURL (key : string) (contentType : text) (expiry : Z) (opts : list (option Z)) : s3_error + text :=
  let length := ApplyPresignPutOptions opts in
  match effectiveExpiry s expiry with
  | inl e => inl e
  | inr expires =>
      if match length with Some n => n <=? 0 | None => false end then inl ErrInvalidContentLength
      else presign (SignedPut (st_bucket s) key contentType length) expires
  end.

End Adapter.
End S3.

(** ** Runes and their bytes *)

Definition scalar (c : Z) : Prop := 0 <= c < 55296 \/ 57343 < c < 1114112.

Lemma byte_byte_of n : 0 <= n < 256 -> byte (byte_of n) = n.
Proof. intros Hn. unfold byte, byte_of. rewrite nat_ascii_embedding by lia. lia. Qed.
Lemma byte_range c : 0 <= byte c < 256.
Proof. unfold byte. assert (H := nat_ascii_bounded c). lia. Qed.
Lemma byte_in_Z lo hi c : byte_in lo hi c = (Z.of_nat lo <=? byte c) && (byte c <=? Z.of_nat hi).
Proof. unfold byte_in, byte. apply eq_true_iff_eq. rewrite !andb_true_iff, !Nat.leb_le, !Z.leb_le. lia. Qed.
Lemma is_cont_Z c : is_cont c = (128 <=? byte c) && (byte c <=? 191).
Proof. apply byte_in_Z. Qed.

(** The values of encoded bytes. *)
Ltac byte_values := rewrite ?byte_in_Z, ?is_cont_Z; unfold cont; rewrite ?byte_byte_of by lia.

Lemma parts64 c : c = c / 64 * 64 + c mod 64 /\ 0 <= c mod 64 < 64.
Proof. split; [rewrite (Z.div_mod c 64) at 1 by lia; lia|apply Z.mod_pos_bound; lia]. Qed.
Lemma parts4096 c : c / 4096 = c / 64 / 64.
Proof. rewrite Z.div_div by lia. done. Qed.
Lemma parts262144 c : c / 262144 = c / 64 / 64 / 64.
Proof. rewrite !Z.div_div by lia. done. Qed.

Lemma decode_encode c rest : scalar c -> decode_rune (encode_rune c ++ rest) = (c, length (encode_rune c)).
Proof.
  intros Hc. unfold scalar in Hc. assert (H1 := parts64 c). assert (H2 := parts64 (c / 64)). assert (H3 := parts64 (c / 64 / 64)).
  unfold encode_rune. rewrite parts4096, parts262144. set (x := c / 64) in *. set (y := x / 64) in *. set (z := y / 64) in *.
  set (c0 := c mod 64) in *. set (x0 := x mod 64) in *. set (y0 := y mod 64) in *. clearbody c0 x0 y0 z y x.
  destruct (Z.ltb_spec c 128); [|destruct (Z.ltb_spec c 2048); [|destruct (Z.ltb_spec c 65536)]];
    cbn [app decode_rune length]; byte_values.
  - rewrite (proj2 (andb_true_iff _ _)); [done|]. rewrite !Z.leb_le. lia.
  - replace ((Z.of_nat 0 <=? 192 + x) && (192 + x <=? Z.of_nat 127)) with false by lia.
    replace (_ && _ && (_ && _)) with true by lia. f_equal. lia.
  - replace ((Z.of_nat 0 <=? 224 + y) && (224 + y <=? Z.of_nat 127)) with false by lia.
    replace ((Z.of_nat 194 <=? 224 + y) && (224 + y <=? Z.of_nat 223) && ((128 <=? 128 + x0) && (128 + x0 <=? 191))) with false by lia.
    match goal with |- (if ?b then _ else _) = _ => replace b with true by lia end. f_equal. lia.
  - replace ((Z.of_nat 0 <=? 240 + z) && (240 + z <=? Z.of_nat 127)) with false by lia.
    replace ((Z.of_nat 194 <=? 240 + z) && (240 + z <=? Z.of_nat 223) && ((128 <=? 128 + y0) && (128 + y0 <=? 191))) with false by lia.
    match goal with |- (if ?b then _ else _) = _ => replace b with false by lia end.
    match goal with |- (if ?b then _ else _) = _ => replace b with true by lia end. f_equal. lia.
Qed.

Lemma encode_rune_pos c : (1 <= length (encode_rune c))%nat.
Proof. unfold encode_rune. repeat case_match; cbn; lia. Qed.

Lemma runes_go_utf8 fuel rs : Forall scalar rs -> (length (utf8 rs) <= fuel)%nat -> runes_go fuel (utf8 rs) = rs.
Proof.
  revert fuel. induction rs as [|c rs IH]; intros fuel Hs Hf; [by destruct fuel|]. apply List.Forall_cons_iff in Hs as [Hc Hs].
  unfold utf8 in *. cbn [fmap list_fmap concat] in *. fold (utf8 rs) in *. assert (Hp := encode_rune_pos c). rewrite length_app in Hf.
  destruct fuel as [|fuel]; [lia|]. destruct (encode_rune c ++ utf8 rs) as [|b t] eqn:E.
  { apply (f_equal length) in E. rewrite length_app in E. cbn in E. lia. }
  cbn [runes_go]. rewrite <- E, decode_encode, drop_app_length by done. f_equal. apply IH; [done|]. lia.
Qed.
Lemma runes_utf8 rs : Forall scalar rs -> runes (utf8 rs) = rs.
Proof. intros Hs. by apply runes_go_utf8. Qed.

Lemma scalar_error : scalar rune_error.
Proof. right. done. Qed.
Lemma decode_scalar t : scalar (decode_rune t).1.
Proof.
  destruct t as [|a t]; [apply scalar_error|]. cbn [decode_rune]. assert (Ha := byte_range a). destruct (byte_in 0 127 a) eqn:E1.
  { rewrite byte_in_Z in E1. cbn [fst]. left. lia. }
  destruct t as [|b t]; [apply scalar_error|]. assert (Hb := byte_range b). destruct (_ && is_cont b) eqn:E2.
  { rewrite byte_in_Z, is_cont_Z in E2. cbn [fst]. unfold cont. left. lia. }
  destruct t as [|c t]; [apply scalar_error|]. assert (Hc := byte_range c). destruct (_ && is_cont c) eqn:E3.
  { rewrite !byte_in_Z, !is_cont_Z in E3. cbn [fst]. unfold cont, scalar. clear - E3 Ha Hb Hc. lia. }
  destruct t as [|d t]; [apply scalar_error|]. assert (Hd := byte_range d). destruct (_ && is_cont d) eqn:E4; [|apply scalar_error].
  rewrite !byte_in_Z, !is_cont_Z in E4. cbn [fst]. unfold cont. right. clear - E4 Ha Hb Hc Hd. lia.
Qed.
Lemma runes_scalar t : Forall scalar (runes t).
Proof.
  unfold runes. generalize (length t) as fuel. intros fuel. revert t. induction fuel as [|fuel IH]; intros [|a t]; try constructor.
  cbn [runes_go]. assert (H := decode_scalar (a :: t)). destruct (decode_rune (a :: t)) as [r n]. constructor; [exact H|apply IH].
Qed.

(** ** Names in headers *)

Definition printable (b : ascii) : Prop := 32 <= byte b <= 126.
Definition plain_rune (c : Z) : Prop := scalar c /\ c <> 34 /\ c <> 92 /\ IsControl c = false.

(** Percent decoding, of an RFC 5987 value. *)
Definition hex_digit (c : ascii) : Z := if byte c <? 58 then byte c - 48 else byte c - 55.
Fixpoint percent_decode (t : text) : text :=
  match t with
  | c :: t' =>
      match t' with
      | h :: l :: t'' => if Ascii.eqb c "%" then byte_of (hex_digit h * 16 + hex_digit l) :: percent_decode t'' else c :: percent_decode t'
      | _ => c :: percent_decode t'
      end
  | [] => []
  end.

Lemma byte_of_byte c : byte_of (byte c) = c.
Proof. unfold byte_of, byte. rewrite Nat2Z.id. apply ascii_nat_embedding. Qed.

Lemma drop_spaces_sub rs c : c ∈ drop_spaces rs -> c ∈ rs.
Proof. induction rs as [|x rs IH]; [done|]. cbn [drop_spaces]. destruct (IsSpace x); [|done]. intros H. right. auto. Qed.
Lemma trim_runes_sub rs c : c ∈ trim_runes rs -> c ∈ rs.
Proof.
  unfold trim_runes. rewrite list_elem_of_In, <- List.in_rev, <- list_elem_of_In. intros H%drop_spaces_sub.
  rewrite list_elem_of_In, <- List.in_rev, <- list_elem_of_In in H. by apply drop_spaces_sub.
Qed.

(** The runes of a cleaned name. *)
Definition clean_runes (name : text) : list Z := trim_runes (List.filter (fun c => 0 <=? c) (clean_rune <$> runes name)).

Lemma cleaned_plain name : Forall plain_rune (List.filter (fun c => 0 <=? c) (clean_rune <$> runes name)).
Proof.
  apply List.Forall_forall. intros c [Hc Hpos]%List.filter_In. apply list_elem_of_In, list_elem_of_fmap in Hc as (x & -> & Hx).
  assert (Hs : scalar x). { apply list_elem_of_In in Hx. exact (proj1 (List.Forall_forall _ _) (runes_scalar name) x Hx). }
  revert Hpos. unfold clean_rune, plain_rune. destruct (_ || _) eqn:Eq; [done|]. apply orb_false_iff in Eq as [Eq1 Eq2].
  destruct (IsControl x || _) eqn:Ec; [done|]. apply orb_false_iff in Ec as [Ec _]. intros _. split; [done|]. lia.
Qed.
Lemma plain_scalar rs : Forall plain_rune rs -> Forall scalar rs.
Proof. intros H. eapply List.Forall_impl; [|exact H]. by intros c [? _]. Qed.
Lemma clean_runes_plain name : Forall plain_rune (clean_runes name).
Proof.
  apply List.Forall_forall. intros c Hc%list_elem_of_In%trim_runes_sub%list_elem_of_In.
  exact (proj1 (List.Forall_forall _ _) (cleaned_plain name) c Hc).
Qed.
Lemma clean_name_runes name : clean_name name = utf8 (clean_runes name).
Proof. unfold clean_name, Trim, Map_runes. by rewrite runes_utf8 by apply plain_scalar, cleaned_plain. Qed.

(** The bytes of the fallback. *)
Lemma fallback_bytes rs : Forall plain_rune rs ->
  Map_runes (fun r => if 127 <? r then 95 else r) (utf8 rs) = byte_of <$> ((fun r => if 127 <? r then 95 else r) <$> rs)
  /\ Forall (fun b => printable b /\ b <> quote /\ b <> backslash) (byte_of <$> ((fun r => if 127 <? r then 95 else r) <$> rs)).
Proof.
  intros Hp. unfold Map_runes. rewrite runes_utf8 by (by apply plain_scalar).
  assert (Hf : Forall (fun c => 32 <= c <= 126 /\ c <> 34 /\ c <> 92) ((fun r => if 127 <? r then 95 else r) <$> rs)).
  { apply List.Forall_map. eapply List.Forall_impl; [|exact Hp]. intros c (Hs & H1 & H2 & H3). cbn in H3. unfold scalar in Hs.
    destruct (127 <? c) eqn:E; lia. }
  rewrite filter_all. 2: { intros c Hc%list_elem_of_In. apply (proj1 (List.Forall_forall _ _) Hf) in Hc. lia. }
  split.
  - unfold utf8. clear Hp. induction Hf as [|c l Hc _ IH]; [done|]. cbn. rewrite IH. unfold encode_rune.
    by rewrite (proj2 (Z.ltb_lt c 128)) by lia.
  - apply List.Forall_map. eapply List.Forall_impl; [|exact Hf]. intros c (Hc & H1 & H2). unfold printable.
    assert (Hb := byte_byte_of c ltac:(lia)). split; [lia|]. split; intros E; rewrite E in Hb; vm_compute in Hb; lia.
Qed.

Lemma ascii_utf8 rs : Forall plain_rune rs -> forallb (fun r => r <=? 127) rs = true ->
  byte_of <$> ((fun r => if 127 <? r then 95 else r) <$> rs) = utf8 rs.
Proof.
  intros Hp Ha. unfold utf8. induction Hp as [|c rs (Hs & _) _ IH]; [done|]. cbn in Ha |- *. apply andb_true_iff in Ha as [Hc Ha].
  rewrite IH by done. unfold encode_rune. by rewrite (proj2 (Z.ltb_lt c 128)), (proj2 (Z.ltb_ge 127 c)) by lia.
Qed.

Lemma attr_printable c : isAttrChar c = true -> printable c /\ c <> quote /\ c <> "%"%char.
Proof. destruct c as [[] [] [] [] [] [] [] []]; vm_compute; intuition discriminate. Qed.
Lemma upper_hex_ok n : 0 <= n < 16 -> printable (upper_hex n) /\ upper_hex n <> quote /\ hex_digit (upper_hex n) = n.
Proof.
  intros Hn. unfold printable, upper_hex, hex_digit. destruct (n <? 10) eqn:E.
  - assert (Hb := byte_byte_of (48 + n) ltac:(lia)). split; [lia|]. split; [intros Eq; rewrite Eq in Hb; change (byte quote) with 34 in Hb; lia|].
    rewrite Hb. destruct (48 + n <? 58) eqn:?; lia.
  - assert (Hb := byte_byte_of (55 + n) ltac:(lia)). split; [lia|]. split; [intros Eq; rewrite Eq in Hb; change (byte quote) with 34 in Hb; lia|].
    rewrite Hb. destruct (55 + n <? 58) eqn:?; lia.
Qed.
Lemma nibbles c : 0 <= byte c / 16 < 16 /\ 0 <= byte c mod 16 < 16 /\ byte c = byte c / 16 * 16 + byte c mod 16.
Proof. assert (H := byte_range c). Z.to_euclidean_division_equations. lia. Qed.

Lemma rfc5987_printable s : Forall (fun b => printable b /\ b <> quote) (rfc5987Encode s).
Proof.
  unfold rfc5987Encode. induction s as [|c s IH]; [constructor|]. cbn. apply Forall_app. split; [|done]. unfold rfc5987_byte.
  destruct (isAttrChar c) eqn:E; [destruct (attr_printable c E) as (? & ? & _); by apply List.Forall_cons|].
  destruct (nibbles c) as (H1 & H2 & _). destruct (upper_hex_ok _ H1) as (? & ? & _), (upper_hex_ok _ H2) as (? & ? & _).
  apply List.Forall_cons; [split; [vm_compute; split; discriminate|discriminate]|].
  apply List.Forall_cons; [done|]. by apply List.Forall_cons.
Qed.

Lemma percent_decode_byte c t : percent_decode (rfc5987_byte c ++ t) = c :: percent_decode t.
Proof.
  unfold rfc5987_byte. destruct (isAttrChar c) eqn:E.
  - destruct (attr_printable c E) as (_ & _ & Hne). cbn [app percent_decode]. destruct t as [|h [|l t]]; [done..|].
    by rewrite (proj2 (Ascii.eqb_neq _ _) Hne).
  - destruct (nibbles c) as (H1 & H2 & H3). cbn [app percent_decode]. rewrite Ascii.eqb_refl.
    destruct (upper_hex_ok _ H1) as (_ & _ & ->), (upper_hex_ok _ H2) as (_ & _ & ->). by rewrite <- H3, byte_of_byte.
Qed.
Lemma percent_decode_encode s : percent_decode (rfc5987Encode s) = s.
Proof. unfold rfc5987Encode. induction s as [|c s IH]; [done|]. cbn [fmap list_fmap concat]. by rewrite percent_decode_byte, IH. Qed.

Lemma literal_printable s : forallb (fun c => (32 <=? byte c) && (byte c <=? 126)) s = true -> Forall printable s.
Proof. intros Hs. apply List.Forall_forall. intros c Hc. apply (proj1 (List.forallb_forall _ _) Hs) in Hc. unfold printable. lia. Qed.

(** whatever the name, bytes that are not UTF-8 included, the disposition is printable
    ASCII and the name cannot leave its quotes: it is the bare default, or a file name
    without quote or backslash between quotes, followed by nothing or by the extended form,
    which decodes to the cleaned name exactly; and an ASCII name is sent as it is. *)
Theorem disposition_safe name :
  Forall printable (attachment name)
  /\ (attachment name = DefaultContentDisposition /\ clean_name name = []
      \/ exists f ext, attachment name = filename_prefix ++ f ++ [quote] ++ ext /\ quote ∉ f /\ backslash ∉ f
         /\ (ext = [] /\ f = clean_name name
             \/ exists e, ext = extended_prefix ++ e /\ quote ∉ e /\ percent_decode e = clean_name name)).
Proof.
  unfold attachment. case_bool_decide as Hne; [split; [by apply literal_printable|by left]|].
  assert (Hp := clean_runes_plain name). rewrite clean_name_runes in *. set (rs := clean_runes name) in *.
  unfold asciiFallback. rewrite (runes_utf8 rs) by (by apply plain_scalar). destruct (fallback_bytes rs Hp) as [-> Hf].
  set (f := byte_of <$> _) in *.
  assert (Hq : quote ∉ f /\ backslash ∉ f).
  { split; intros Hin%list_elem_of_In; apply (proj1 (List.Forall_forall _ _) Hf) in Hin; naive_solver. }
  assert (Hpf : Forall printable f) by (eapply List.Forall_impl; [|exact Hf]; naive_solver).
  destruct (forallb _ rs) eqn:Ea.
  - split; [|right; exists f, []; split; [done|]; split; [apply Hq|]; split; [apply Hq|]; left; split; [done|by apply ascii_utf8]].
    repeat (apply Forall_app; split); try done; by apply literal_printable.
  - assert (He := rfc5987_printable (utf8 rs)). split.
    + repeat (apply Forall_app; split); try done; try (by apply literal_printable). eapply List.Forall_impl; [|exact He]. naive_solver.
    + right. exists f, (extended_prefix ++ rfc5987Encode (utf8 rs)). split; [done|]. split; [apply Hq|]. split; [apply Hq|]. right. eexists.
      split; [done|]. split; [|apply percent_decode_encode].
      intros Hin%list_elem_of_In. apply (proj1 (List.Forall_forall _ _) He) in Hin. naive_solver.
Qed.

(** A name with bidirectional overrides, quotes and accents. *)
Example attachment_example :
  attachment (bytes_of "a" ++ [quote; ascii_of_nat 13; ascii_of_nat 195; ascii_of_nat 177] ++ bytes_of ".pdf ")
  = bytes_of "attachment; filename=" ++ [quote] ++ bytes_of "a_.pdf" ++ [quote] ++ bytes_of "; filename*=UTF-8''a%C3%B1.pdf".
Proof. vm_compute. reflexivity. Qed.

(** ** Signed URLs *)

(** What an adapter that was built keeps. *)
Lemma NewS3Storage_ok cfg logger s : S3.NewS3Storage cfg logger = inr s ->
  0 < S3.st_presignExpiry s <= S3.st_maxExpiry s /\ S3.st_maxExpiry s <= S3.MaxSigV4PresignExpiry.
Proof.
  unfold S3.NewS3Storage, S3.MaxSigV4PresignExpiry, S3.DefaultMaxPresignExpiry, S3.DefaultPresignExpiry, S3.second.
  repeat (case_match; [done|]). intros [= <-]. cbn in *. repeat case_match; lia.
Qed.

Lemma nil_options opts o : Forall (fun x => x = None) opts -> fold_left apply_get opts o = o.
Proof. intros H. revert o. induction H as [|x l -> _ IH]; intros o; [done|]. cbn. apply IH. Qed.
Lemma put_options_go opts o : fold_left (fun o opt => match opt with None => o | Some n => Some n end) opts o = None
  <-> o = None /\ Forall (fun x : option Z => x = None) opts.
Proof.
  revert o. induction opts as [|x l IH]; intros o; cbn; [naive_solver|]. rewrite IH, List.Forall_cons_iff. destruct x; naive_solver.
Qed.
Lemma put_options opts : ApplyPresignPutOptions opts = None <-> Forall (fun x => x = None) opts.
Proof. unfold ApplyPresignPutOptions. rewrite put_options_go. naive_solver. Qed.

(** Signatures that tell what they signed. *)
Section Signing.
Context (sign : S3.signed -> Z -> option text).

(** no signed URL outlives the maximum, and none says less than it should. With any
    configuration the adapter accepts, whatever expiry and options are passed, a URL to
    download is signed for a positive time within the maximum, itself within the seven days
    S3 allows, with a disposition and a type that are not empty, and an attachment of opaque
    bytes when no option says otherwise; one to upload signs a positive length or none; and
    an expiry above the maximum is an error. *)
Theorem presigned_bounded cfg logger s key contentType expiry opts puts url :
  S3.NewS3Storage cfg logger = inr s ->
  (S3.PresignedGetURL s sign key expiry opts = inr url ->
     exists expires d t, 0 < expires <= S3.st_maxExpiry s /\ expires <= S3.MaxSigV4PresignExpiry
       /\ sign (S3.SignedGet (S3.sc_Bucket cfg) key d t) expires = Some url /\ d <> [] /\ t <> []
       /\ (Forall (fun o => o = None) opts -> d = DefaultContentDisposition /\ t = DefaultResponseContentType))
  /\ (S3.PresignedPutURL s sign key contentType expiry puts = inr url ->
     exists expires length, 0 < expires <= S3.st_maxExpiry s
       /\ sign (S3.SignedPut (S3.sc_Bucket cfg) key contentType length) expires = Some url
       /\ (forall n, length = Some n -> 0 < n) /\ (length = None <-> Forall (fun o => o = None) puts))
  /\ (S3.st_maxExpiry s < expiry ->
     S3.PresignedGetURL s sign key expiry opts = inl S3.ErrPresignExpiryTooLong
     /\ S3.PresignedPutURL s sign key contentType expiry puts = inl S3.ErrPresignExpiryTooLong).
Proof.
  intros Hs. destruct (NewS3Storage_ok _ _ _ Hs) as [Hp Hm].
  assert (Hb : S3.st_bucket s = S3.sc_Bucket cfg).
  { revert Hs. unfold S3.NewS3Storage. repeat (case_match; [done|]). by intros [= <-]. }
  assert (He : forall e, S3.effectiveExpiry s expiry = inr e -> 0 < e <= S3.st_maxExpiry s).
  { unfold S3.effectiveExpiry. intros e. destruct (expiry <=? 0) eqn:E1; [intros [= <-]; lia|].
    destruct (_ <? expiry) eqn:E2; [done|]. intros [= <-]. lia. }
  unfold S3.PresignedGetURL, S3.PresignedPutURL, S3.presign. rewrite Hb. split; [|split].
  - destruct (S3.effectiveExpiry s expiry) as [|e]; [done|]. specialize (He e eq_refl).
    destruct (sign _ e) as [u|] eqn:Eu; [|done]. intros [= <-]. eexists e, _, _. split; [done|]. split; [lia|]. split; [exact Eu|].
    cbn [ApplyPresignGetOptions go_ContentDisposition go_ContentType]. unfold or_default.
    split; [by case_bool_decide|]. split; [by case_bool_decide|]. intros Hn. rewrite nil_options by done. done.
  - destruct (S3.effectiveExpiry s expiry) as [|e]; [done|]. specialize (He e eq_refl).
    destruct (match ApplyPresignPutOptions puts with Some n => n <=? 0 | None => false end) eqn:El; [done|].
    destruct (sign _ e) as [u|] eqn:Eu; [|done]. intros [= <-]. eexists e, _. split; [done|]. split; [exact Eu|].
    split; [intros n Hn; rewrite Hn in El; lia|apply put_options].
  - intros Hx. unfold S3.effectiveExpiry. rewrite (proj2 (Z.leb_gt expiry 0)), (proj2 (Z.ltb_lt (S3.st_maxExpiry s) expiry)) by lia. done.
Qed.

End Signing.

Definition a_config : S3.Config := S3.mkConfig "docs" "us-east-1" "" "" "" false 0 0 0.
Definition a_storage : S3.S3Storage := S3.mkS3Storage "docs" S3.DefaultPresignExpiry S3.DefaultMaxPresignExpiry S3.DefaultResponseHeaderTimeout.
Definition any_sign (w : S3.signed) (e : Z) : option text := Some [].
Lemma presigned_bounded_witness :
  exists expires d t, 0 < expires <= S3.DefaultMaxPresignExpiry /\ any_sign (S3.SignedGet "docs" "k" d t) expires = Some []
    /\ d = DefaultContentDisposition.
Proof.
  destruct (presigned_bounded any_sign a_config true a_storage "k" [] 0 [None] [] [] eq_refl) as [Hg _].
  destruct (Hg eq_refl) as (e & d & t & He & _ & Hu & _ & _ & Hd). exists e, d, t. split; [exact He|]. split; [exact Hu|].
  apply Hd. by apply List.Forall_cons.
Defined.

(** ** Uploads *)

(** Detecting the type of an upload loses nothing of it: it is allowed exactly when its media
    type is listed, and then the reader returned yields what the first one would have. *)
Theorem sniff_whole detect media r allowed : ((length (rd_data r) < sniffLen)%nat -> rd_error r = None) ->
  SniffContentType detect media r allowed
  = let t := detect (take sniffLen (rd_data r)) in
    if bool_decide (media t <> [] /\ media t ∈ media <$> allowed) then SniffOk t r else SniffRefused t.
Proof.
  intros Hr. unfold SniffContentType. destruct r as [data er]. cbn [rd_data rd_error] in *.
  replace (if (length data <? sniffLen)%nat then er else None) with (@None string)
    by (destruct (Nat.ltb_spec (length data) sniffLen); [by rewrite Hr|done]).
  rewrite take_drop. set (t := detect _). cbn zeta.
  replace (existsb _ allowed) with (bool_decide (media t <> [] /\ media t ∈ media <$> allowed)); [done|].
  apply eq_true_iff_eq. rewrite bool_decide_eq_true, List.existsb_exists, list_elem_of_fmap. split.
  - intros [Hne (a & Ha & Hin)]. exists a. rewrite <- list_elem_of_In, <- Ha. rewrite bool_decide_eq_false_2 by done. by rewrite bool_decide_eq_true_2.
  - intros (a & Hin & Hb). apply andb_true_iff in Hb as [Hb1 Hb2]. rewrite negb_true_iff, bool_decide_eq_false in Hb1.
    apply bool_decide_eq_true in Hb2. rewrite <- Hb2. split; [done|]. exists a. by rewrite list_elem_of_In.
Qed.
