(* ===== verification/Logging.v ===== *)
(** The logger ([logger]): the denylist of keys whose values never reach the output
    ([redact.go]), the correlation of a line with its request ([context_handler.go]), and the
    construction of a logger ([logger.go]), over the handlers of [log/slog].

    A handler of [log/slog] is the groups opened and the attributes bound at each of them; a
    line is the list of its fields, each with the groups it is in.  How a line is encoded and
    the time of a record are not part of it.

    What the logger guarantees: the values under sensitive keys never change a line, however
    deep they are and however they were bound, and a line carries its request's ids once. *)

From stdpp Require Import base gmap list strings.
From Stdlib Require Import ZArith Lia Ascii.
From S2P Require Import Prelude GoStrings AuditLog.

Open Scope string_scope.
Open Scope list_scope.
Open Scope Z_scope.

(** ** Attributes and handlers of slog *)

(** An attribute: a value under a key, or a group of attributes. *)
Inductive attr := ALeaf (key : string) (v : string) | AGroup (key : string) (attrs : list attr).
Definition attr_Key (a : attr) : string := match a with ALeaf k _ | AGroup k _ => k end.

(** A field of a line. *)
Record line_field := mkField { fd_groups : list string; fd_key : string; fd_value : string }.

Abbreviation replacer := (list string -> string -> string -> string).

(** The fields of an attribute in the groups open around it: a value is replaced, a group
    without a key is inlined. *)
Fixpoint emit (rep : replacer) (groups : list string) (a : attr) : list line_field :=
  match a with
  | ALeaf k v => [mkField groups k (rep groups k v)]
  | AGroup k attrs => concat (List.map (emit rep (if String.eqb k "" then groups else groups ++ [k])) attrs)
  end.
Definition emit_all (rep : replacer) (groups : list string) (attrs : list attr) : list line_field :=
  concat (emit rep groups <$> attrs).

(** The levels closed by opening a group, with their attributes, and the level open now. *)
Record slog_handler := mkHandler { sh_outer : list (list string * list attr); sh_groups : list string; sh_bound : list attr }.
Definition slog_WithAttrs (attrs : list attr) (h : slog_handler) : slog_handler :=
  mkHandler (sh_outer h) (sh_groups h) (sh_bound h ++ attrs).
Definition slog_WithGroup (name : string) (h : slog_handler) : slog_handler :=
  mkHandler (sh_outer h ++ [(sh_groups h, sh_bound h)]) (sh_groups h ++ [name]) [].

(** The fields every record starts with, then those bound, then the record's own. *)
Definition slog_Handle (rep : replacer) (h : slog_handler) (level msg : string) (attrs : list attr) : list line_field :=
  [mkField [] "level" (rep [] "level" level); mkField [] "msg" (rep [] "msg" msg)]
  ++ concat ((fun l => emit_all rep l.1 l.2) <$> sh_outer h)
  ++ emit_all rep (sh_groups h) (sh_bound h ++ attrs).

(** ** Redaction *)

Module Redact.

Definition RedactedValue : string := "[REDACTED]".
Definition defaultRedactedKeys : list string :=
  ["password"; "passwd"; "token"; "secret"; "authorization"; "api_key"; "private_key"; "credential"; "cookie"].

(** The matcher is the audit log's. *)
Definition newKeyMatcher (keys : list string) : list (list ascii) := AuditLog.newKeyMatcher keys.
Definition matches (m : list (list ascii)) (key : string) : bool := AuditLog.matches m key.

Definition matchesAny (m : list (list ascii)) (groups : list string) : bool := existsb (matches m) groups.
Definition isBuiltInKey (key : string) : bool := bool_decide (key ∈ ["time"; "level"; "msg"; "source"]).

Definition redactAttr (m : list (list ascii)) (groups : list string) (key v : string) : string :=
  if bool_decide (groups = []) && isBuiltInKey key then v
  else if matches m key || matchesAny m groups then RedactedValue
  else v.

End Redact.

(** ** Correlation *)

Definition requestIDKey : string := "request_id".
Definition userIDKey : string := "user_id".
Definition traceIDKey : string := "trace_id".
Definition spanIDKey : string := "span_id".

(** What a context carries: the request's id and user, and its trace and span when the
    logger reads them. *)
Record log_ctx := mkLogCtx { lc_requestID : string; lc_userID : string; lc_traceID : string; lc_spanID : string }.

(** Which keys are bound at the level open now. *)
Record flags := mkFlags { hasRequestID : bool; hasUserID : bool; hasTraceID : bool; hasSpanID : bool }.
Definition no_flags : flags := mkFlags false false false false.

Record contextHandler := mkContextHandler { ch_inner : slog_handler; ch_traceIDs : bool; ch_flags : flags }.

Definition complete (traceIDs : bool) (f : flags) : bool :=
  hasRequestID f && hasUserID f && (negb traceIDs || (hasTraceID f && hasSpanID f)).

Definition bind (key : string) (f : flags) : flags :=
  mkFlags (hasRequestID f || bool_decide (key = requestIDKey)) (hasUserID f || bool_decide (key = userIDKey))
    (hasTraceID f || bool_decide (key = traceIDKey)) (hasSpanID f || bool_decide (key = spanIDKey)).

(** The walk over the record's attributes, which stops once every key was seen. *)
Fixpoint bind_all (traceIDs : bool) (attrs : list attr) (f : flags) : flags :=
  match attrs with
  | [] => f
  | a :: attrs => let f := bind (attr_Key a) f in if complete traceIDs f then f else bind_all traceIDs attrs f
  end.

Definition added (has : bool) (key id : string) : list attr :=
  if has then [] else if bool_decide (id = "") then [] else [ALeaf key id].

(** The attributes [Handle] adds to a record. *)
Definition correlation (h : contextHandler) (cx : option log_ctx) (attrs : list attr) : list attr :=
  match cx with
  | None => []
  | Some cx =>
      if complete (ch_traceIDs h) (ch_flags h) then []
      else
        let seen := bind_all (ch_traceIDs h) attrs (ch_flags h) in
        added (hasRequestID seen) requestIDKey (lc_requestID cx) ++ added (hasUserID seen) userIDKey (lc_userID cx)
        ++ (if ch_traceIDs h then added (hasTraceID seen) traceIDKey (lc_traceID cx) ++ added (hasSpanID seen) spanIDKey (lc_spanID cx)
            else [])
  end.

(** [Handle], [WithAttrs] and [WithGroup]. *)
Definition Handle (rep : replacer) (h : contextHandler) (cx : option log_ctx) (level msg : string) (attrs : list attr) : list line_field :=
  slog_Handle rep (ch_inner h) level msg (attrs ++ correlation h cx attrs).
Definition WithAttrs (attrs : list attr) (h : contextHandler) : contextHandler :=
  mkContextHandler (slog_WithAttrs attrs (ch_inner h)) (ch_traceIDs h) (fold_left (fun f a => bind (attr_Key a) f) attrs (ch_flags h)).
Definition WithGroup (name : string) (h : contextHandler) : contextHandler :=
  mkContextHandler (slog_WithGroup name (ch_inner h)) (ch_traceIDs h) (if String.eqb name "" then ch_flags h else no_flags).

(** ** The logger *)

(** Levels, as slog numbers them. *)
Definition LevelDebug : Z := -4.
Definition LevelInfo : Z := 0.
Definition getLogLevel (env : string) : Z :=
  if String.eqb env "production" then LevelInfo else if String.eqb env "staging" then LevelInfo else LevelDebug.

(** An [Option]; a nil one is ignored. *)
Inductive log_option := WithRedactedKeys (keys : list string) | WithTraceIDs.
Record log_config := mkLogConfig { lo_redactedKeys : list string; lo_traceIDs : bool }.
Definition apply_log_option (c : log_config) (o : option log_option) : log_config :=
  match o with
  | None => c
  | Some (WithRedactedKeys keys) => mkLogConfig (lo_redactedKeys c ++ keys) (lo_traceIDs c)
  | Some WithTraceIDs => mkLogConfig (lo_redactedKeys c) true
  end.

Record Logger := mkLogger { lg_level : Z; lg_json : bool; lg_replace : replacer; lg_handler : contextHandler }.

(** [New]. *)
Definition New (env : string) (options : list (option log_option)) : Logger :=
  let cfg := fold_left apply_log_option options (mkLogConfig Redact.defaultRedactedKeys false) in
  mkLogger (getLogLevel env) (String.eqb env "production") (Redact.redactAttr (Redact.newKeyMatcher (lo_redactedKeys cfg)))
    (mkContextHandler (mkHandler [] [] []) (lo_traceIDs cfg) no_flags).

Definition with_handler (h : contextHandler) (l : Logger) : Logger := mkLogger (lg_level l) (lg_json l) (lg_replace l) h.

(** [With]; [WithContext] binds the request's id even when it is empty. *)
Definition With (attrs : list attr) (l : Logger) : Logger := with_handler (WithAttrs attrs (lg_handler l)) l.
Definition WithContext (cx : log_ctx) (l : Logger) : Logger :=
  With ([ALeaf requestIDKey (lc_requestID cx)] ++ added false userIDKey (lc_userID cx)
        ++ (if ch_traceIDs (lg_handler l) then added false traceIDKey (lc_traceID cx) ++ added false spanIDKey (lc_spanID cx) else [])) l.
(** slog's own [WithGroup] of a logger: a group without a name is none. *)
Definition Logger_WithGroup (name : string) (l : Logger) : Logger :=
  if String.eqb name "" then l else with_handler (WithGroup name (lg_handler l)) l.

(** A record logged at a level, when it is enabled. *)
Definition Log (cx : option log_ctx) (level : Z) (name msg : string) (attrs : list attr) (l : Logger) : option (list line_field) :=
  if level <? lg_level l then None else Some (Handle (lg_replace l) (lg_handler l) cx name msg attrs).

(** The two denylists are one. *)
Lemma denylists_agree : Redact.defaultRedactedKeys = AuditLog.defaultRedactedKeys.
Proof. reflexivity. Qed.

(** ** Secrets *)

Section Secrets.
Context (m : list (list ascii)).

(** A value that is not to be seen: its key, or a group it is in, is on the denylist. *)
Definition secret (groups : list string) (key : string) : bool :=
  negb (bool_decide (groups = []) && Redact.isBuiltInKey key) && (Redact.matches m key || existsb (Redact.matches m) groups).

Definition inside (groups : list string) (key : string) : list string := if String.eqb key "" then groups else groups ++ [key].

(** Attributes that differ in secret values only. *)
Fixpoint alike (groups : list string) (a b : attr) : Prop :=
  match a, b with
  | ALeaf k v, ALeaf k' v' => k = k' /\ (v = v' \/ secret groups k = true)
  | AGroup k l, AGroup k' l' =>
      k = k' /\ (fix all l l' := match l, l' with
                                 | [], [] => True
                                 | a :: l, b :: l' => alike (inside groups k) a b /\ all l l'
                                 | _, _ => False
                                 end) l l'
  | _, _ => False
  end.

Lemma redact_secret groups key v v' : v = v' \/ secret groups key = true ->
  Redact.redactAttr m groups key v = Redact.redactAttr m groups key v'.
Proof.
  intros [->|Hs]; [done|]. unfold secret in Hs. apply andb_true_iff in Hs as [Hb Hm]. unfold Redact.redactAttr, Redact.matchesAny.
  apply negb_true_iff in Hb. by rewrite Hb, Hm.
Qed.

Fixpoint emit_alike groups a b {struct a} : alike groups a b ->
  emit (Redact.redactAttr m) groups a = emit (Redact.redactAttr m) groups b.
Proof.
  destruct a as [k v|k l], b as [k' v'|k' l']; cbn [alike emit]; [intros [<- Hv]|done..|intros [<- Hl]].
  - by rewrite (redact_secret groups k v v').
  - fold (inside groups k). f_equal. revert l' Hl. induction l as [|a l IH]; intros [|b l']; [done..|]. intros [Hab Hl]. cbn [List.map].
    rewrite (emit_alike _ a b Hab). f_equal. by apply IH.
Qed.
Lemma emit_all_alike groups l l' : Forall2 (alike groups) l l' ->
  emit_all (Redact.redactAttr m) groups l = emit_all (Redact.redactAttr m) groups l'.
Proof. unfold emit_all. induction 1 as [|a b l l' Hab _ IH]; [done|]. cbn. by rewrite (emit_alike _ _ _ Hab), IH. Qed.

Fixpoint alike_refl groups a {struct a} : alike groups a a.
Proof.
  destruct a as [k v|k l]; cbn; [by split; [|left]|]. split; [done|]. induction l as [|a l IH]; [done|]. by split; [apply alike_refl|].
Qed.
Lemma alike_key groups a b : alike groups a b -> attr_Key a = attr_Key b.
Proof. by destruct a, b; cbn; [intros [-> _]|..|intros [-> _]]. Qed.
Lemma alike_keys groups l l' : Forall2 (alike groups) l l' -> attr_Key <$> l = attr_Key <$> l'.
Proof. induction 1 as [|a b l l' Hab _ IH]; [done|]. cbn. by rewrite (alike_key _ _ _ Hab), IH. Qed.

Lemma bind_all_keys t l l' f : attr_Key <$> l = attr_Key <$> l' -> bind_all t l f = bind_all t l' f.
Proof.
  revert l' f. induction l as [|a l IH]; intros [|b l'] f Hk; try done. cbn in Hk. injection Hk as Hab Hk. cbn. rewrite Hab.
  destruct (complete _ _); [done|]. by apply IH.
Qed.
Lemma fold_bind_keys l l' f : attr_Key <$> l = attr_Key <$> l' ->
  fold_left (fun f a => bind (attr_Key a) f) l f = fold_left (fun f a => bind (attr_Key a) f) l' f.
Proof. revert l' f. induction l as [|a l IH]; intros [|b l'] f Hk; try done. cbn in Hk. injection Hk as Hab Hk. cbn. rewrite Hab. by apply IH. Qed.

(** Handlers that differ in secret values only. *)
Record handlers_alike (h h' : contextHandler) : Prop := mkHandlersAlike {
  ha_trace : ch_traceIDs h = ch_traceIDs h';
  ha_flags : ch_flags h = ch_flags h';
  ha_groups : sh_groups (ch_inner h) = sh_groups (ch_inner h');
  ha_bound : Forall2 (alike (sh_groups (ch_inner h))) (sh_bound (ch_inner h)) (sh_bound (ch_inner h'));
  ha_outer : Forall2 (fun l l' => l.1 = l'.1 /\ Forall2 (alike l.1) l.2 l'.2) (sh_outer (ch_inner h)) (sh_outer (ch_inner h')) }.

Lemma WithAttrs_alike h h' l l' : handlers_alike h h' -> Forall2 (alike (sh_groups (ch_inner h))) l l' ->
  handlers_alike (WithAttrs l h) (WithAttrs l' h').
Proof.
  intros [] Hl. constructor; cbn; try done; [|by apply Forall2_app]. rewrite ha_flags0. by apply fold_bind_keys, (alike_keys (sh_groups (ch_inner h))).
Qed.
Lemma WithGroup_alike name h h' : handlers_alike h h' -> handlers_alike (WithGroup name h) (WithGroup name h').
Proof.
  intros []. constructor; cbn; try done; [by rewrite ha_flags0|by rewrite ha_groups0|]. apply Forall2_app; [done|].
  constructor; [|done]. by split.
Qed.
Lemma Handle_alike h h' cx level msg l l' : handlers_alike h h' -> Forall2 (alike (sh_groups (ch_inner h))) l l' ->
  Handle (Redact.redactAttr m) h cx level msg l = Handle (Redact.redactAttr m) h' cx level msg l'.
Proof.
  intros [] Hl. unfold Handle, slog_Handle.
  assert (Hc : correlation h cx l = correlation h' cx l').
  { unfold correlation. rewrite ha_trace0, ha_flags0. destruct cx as [cx|]; [|done].
    by rewrite (bind_all_keys _ l l') by (by eapply alike_keys). }
  rewrite Hc. f_equal. f_equal.
  - clear - ha_outer0. induction ha_outer0 as [|[g a] [g' b] r r' [Hg Hab] _ IH]; [done|]. cbn [fst snd] in Hg, Hab. subst g'.
    rewrite !fmap_cons. cbn [concat fst snd]. by rewrite (emit_all_alike _ _ _ Hab), IH.
  - rewrite <- ha_groups0. apply emit_all_alike. repeat apply Forall2_app; try done. clear. induction (correlation _ _ _); constructor; auto using alike_refl.
Qed.

(** What a program does with its logger: binds attributes, opens groups, logs. *)
Inductive log_op :=
  | OWith (attrs : list attr)
  | OGroup (name : string)
  | OLog (cx : option log_ctx) (level : Z) (name msg : string) (attrs : list attr).

Fixpoint run (ops : list log_op) (l : Logger) : list (option (list line_field)) :=
  match ops with
  | [] => []
  | OWith attrs :: ops => run ops (With attrs l)
  | OGroup name :: ops => run ops (Logger_WithGroup name l)
  | OLog cx level name msg attrs :: ops => Log cx level name msg attrs l :: run ops l
  end.

Fixpoint alike_ops (groups : list string) (ops ops' : list log_op) : Prop :=
  match ops, ops' with
  | [], [] => True
  | OWith l :: ops, OWith l' :: ops' => Forall2 (alike groups) l l' /\ alike_ops groups ops ops'
  | OGroup n :: ops, OGroup n' :: ops' => n = n' /\ alike_ops (inside groups n) ops ops'
  | OLog cx lv nm msg l :: ops, OLog cx' lv' nm' msg' l' :: ops' =>
      cx = cx' /\ lv = lv' /\ nm = nm' /\ msg = msg' /\ Forall2 (alike groups) l l' /\ alike_ops groups ops ops'
  | _, _ => False
  end.

Lemma run_alike ops ops' lv js h h' : handlers_alike h h' -> alike_ops (sh_groups (ch_inner h)) ops ops' ->
  run ops (mkLogger lv js (Redact.redactAttr m) h) = run ops' (mkLogger lv js (Redact.redactAttr m) h').
Proof.
  revert ops' h h'. induction ops as [|o ops IH]; intros ops' h h' Hh Ho; [by destruct ops'|].
  destruct o as [l|n|cx level nm msg l], ops' as [|[l'|n'|cx' level' nm' msg' l'] ops']; cbn in Ho; try done.
  - destruct Ho as [Hl Ho]. cbn [run With with_handler lg_level lg_json lg_replace lg_handler]. apply IH; [by apply WithAttrs_alike|done].
  - destruct Ho as [<- Ho]. cbn [run]. unfold Logger_WithGroup, inside in *. destruct (String.eqb n ""); [by apply IH|].
    apply IH; [by apply WithGroup_alike|done].
  - destruct Ho as (<- & <- & <- & <- & Hl & Ho). cbn [run]. f_equal; [|by apply IH]. unfold Log. cbn.
    destruct (_ <? _); [done|]. f_equal. by apply Handle_alike.
Qed.

End Secrets.

(** The matcher a logger is built with. *)
Definition matcher (options : list (option log_option)) : list (list ascii) :=
  Redact.newKeyMatcher (lo_redactedKeys (fold_left apply_log_option options (mkLogConfig Redact.defaultRedactedKeys false))).

(** C27: secrets do not reach the log. Two programs that do the same with their logger except
    for the values of attributes whose key, or one of whose groups, is on the denylist write
    the same lines: at any depth of groups, bound beforehand or logged, opened by the logger
    or by an attribute, for every environment and every extension of the denylist. *)
Theorem secrets_stay_out env options ops ops' : alike_ops (matcher options) [] ops ops' ->
  run ops (New env options) = run ops' (New env options).
Proof. intros Ho. unfold New. apply run_alike; [|exact Ho]. by constructor. Qed.

Lemma secrets_stay_out_witness :
  run [OGroup "http"; OWith [AGroup "Cookies" [ALeaf "theme" "dark"]]; OLog None 0 "INFO" "login" [ALeaf "X-Csrf-Token" "abc"; ALeaf "user" "u1"]]
    (New "production" [])
  = run [OGroup "http"; OWith [AGroup "Cookies" [ALeaf "theme" "light"]]; OLog None 0 "INFO" "login" [ALeaf "X-Csrf-Token" "xyz"; ALeaf "user" "u1"]]
    (New "production" []).
Proof.
  apply (secrets_stay_out "production" []). cbn [alike_ops]. split; [reflexivity|]. split.
  - apply Forall2_cons. split; [|constructor]. cbn [alike]. split; [reflexivity|]. split; [|exact I]. split; [reflexivity|]. right. vm_compute. reflexivity.
  - split; [reflexivity|]. split; [reflexivity|]. split; [reflexivity|]. split; [reflexivity|]. split; [|exact I].
    apply Forall2_cons. split; [cbn [alike]; split; [reflexivity|right; vm_compute; reflexivity]|].
    apply Forall2_cons. split; [cbn [alike]; split; [reflexivity|left; reflexivity]|constructor].
Defined.

(** ** Correlation *)

Definition has_key (k : string) (l : list attr) : bool := existsb (fun a => bool_decide (attr_Key a = k)) l.
Definition count_key (k : string) (l : list attr) : nat := length (List.filter (fun a => bool_decide (attr_Key a = k)) l).

(** The id a context gives a key, when the logger reads it. *)
Definition id_of (t : bool) (cx : log_ctx) (k : string) : string :=
  if String.eqb k requestIDKey then lc_requestID cx
  else if String.eqb k userIDKey then lc_userID cx
  else if negb t then ""
  else if String.eqb k traceIDKey then lc_traceID cx
  else if String.eqb k spanIDKey then lc_spanID cx
  else "".

Definition flag (k : string) (f : flags) : bool :=
  if String.eqb k requestIDKey then hasRequestID f
  else if String.eqb k userIDKey then hasUserID f
  else if String.eqb k traceIDKey then hasTraceID f
  else hasSpanID f.
Definition id_keys : list string := [requestIDKey; userIDKey; traceIDKey; spanIDKey].

Lemma flag_bind k key f : k ∈ id_keys -> flag k (bind key f) = flag k f || bool_decide (key = k).
Proof. intros Hk. repeat (apply elem_of_cons in Hk as [->|Hk]; [done|]). by apply not_elem_of_nil in Hk. Qed.

(** The flags of a handler tell what is bound at its level. *)
Definition flags_true (h : contextHandler) : Prop := forall k, k ∈ id_keys -> flag k (ch_flags h) = has_key k (sh_bound (ch_inner h)).

Lemma flags_fold k l f : k ∈ id_keys -> flag k (fold_left (fun f a => bind (attr_Key a) f) l f) = flag k f || has_key k l.
Proof.
  intros Hk. revert f. induction l as [|a l IH]; intros f; cbn; [by rewrite orb_false_r|]. rewrite IH, flag_bind by done. by rewrite orb_assoc.
Qed.

(** The loggers that can be made. *)
Inductive made (t : bool) : contextHandler -> Prop :=
  | made_new : made t (mkContextHandler (mkHandler [] [] []) t no_flags)
  | made_with h attrs : made t h -> made t (WithAttrs attrs h)
  | made_group h name : made t h -> name <> "" -> made t (WithGroup name h).

Lemma made_flags t h : made t h -> flags_true h /\ ch_traceIDs h = t.
Proof.
  induction 1 as [|h attrs _ [IH Ht]|h name _ [IH Ht] Hn]; (split; [|done]); intros k Hk; cbn.
  - repeat (apply elem_of_cons in Hk as [->|Hk]; [done|]). by apply not_elem_of_nil in Hk.
  - rewrite flags_fold, IH by done. unfold has_key. by rewrite existsb_app.
  - rewrite (proj2 (String.eqb_neq _ _) Hn). repeat (apply elem_of_cons in Hk as [->|Hk]; [done|]). by apply not_elem_of_nil in Hk.
Qed.

(** The keys the walk must see: all, or without traces the first two. *)
Definition watched (t : bool) : list string := if t then id_keys else [requestIDKey; userIDKey].
Lemma watched_ids t k : k ∈ watched t -> k ∈ id_keys.
Proof. destruct t; [done|]. cbn. set_solver. Qed.
Lemma complete_flags t f k : complete t f = true -> k ∈ watched t -> flag k f = true.
Proof.
  unfold complete. rewrite !andb_true_iff. intros [[H1 H2] H3] Hk. destruct t; cbn in H3, Hk.
  - apply andb_true_iff in H3 as [H3 H4]. repeat (apply elem_of_cons in Hk as [->|Hk]; [done|]). by apply not_elem_of_nil in Hk.
  - repeat (apply elem_of_cons in Hk as [->|Hk]; [done|]). by apply not_elem_of_nil in Hk.
Qed.
Lemma bind_all_flag t l f k : k ∈ watched t -> flag k (bind_all t l f) = flag k f || has_key k l.
Proof.
  intros Hk. revert f. induction l as [|a l IH]; intros f; cbn; [by rewrite orb_false_r|].
  assert (Hb := flag_bind k (attr_Key a) f (watched_ids t k Hk)). destruct (complete t (bind (attr_Key a) f)) eqn:E.
  - rewrite Hb, orb_assoc. rewrite (complete_flags t _ k E Hk) in Hb. by rewrite <- Hb.
  - by rewrite IH, Hb, orb_assoc.
Qed.

Lemma count_key_app k l r : count_key k (l ++ r) = (count_key k l + count_key k r)%nat.
Proof. unfold count_key. by rewrite List.filter_app, length_app. Qed.
Lemma has_key_count k l : has_key k l = negb (count_key k l =? 0)%nat.
Proof. unfold has_key, count_key. induction l as [|a l IH]; [done|]. cbn. by case_bool_decide. Qed.
Lemma count_added k key has id : count_key k (added has key id) = (if bool_decide (key = k) && negb has && negb (bool_decide (id = "")) then 1 else 0)%nat.
Proof. unfold added, count_key. destruct has; [by case_bool_decide|]. case_bool_decide; [by case_bool_decide|]. cbn. by case_bool_decide. Qed.

(** Decides the equality of two keys. *)
Ltac settle_keys := repeat match goal with
  | |- context [bool_decide (?a = ?b)] =>
      let r := eval vm_compute in (bool_decide (a = b)) in
      match r with true => idtac | false => idtac end; change (bool_decide (a = b)) with r
  end; unfold id_of; cbn; repeat case_bool_decide; repeat (destruct (has_key _ _)); try done.

Lemma correlation_count t h cx l k : made t h -> k ∈ id_keys ->
  count_key k (correlation h (Some cx) l)
  = (if has_key k (sh_bound (ch_inner h)) || has_key k l || bool_decide (id_of t cx k = "") then 0 else 1)%nat.
Proof.
  intros Hm Hk. destruct (made_flags t h Hm) as [Hf Ht]. unfold correlation. rewrite Ht. destruct (complete t (ch_flags h)) eqn:Ec.
  - destruct (decide (k ∈ watched t)) as [Hw|Hw].
    + rewrite <- Hf, (complete_flags t _ k Ec Hw) by done. done.
    + replace (id_of t cx k) with "" ; [by rewrite orb_true_r|]. destruct t; [done|]. clear - Hk Hw.
      repeat (apply elem_of_cons in Hk as [->|Hk]; [first [done|exfalso; apply Hw; cbn; set_solver]|]). by apply not_elem_of_nil in Hk.
  - rewrite !count_key_app, !count_added.
    assert (Hb : forall x, x ∈ watched t -> flag x (bind_all t l (ch_flags h)) = has_key x (sh_bound (ch_inner h)) || has_key x l).
    { intros x Hx. rewrite bind_all_flag, Hf by eauto using watched_ids. done. }
    assert (H1 := Hb requestIDKey ltac:(destruct t; cbn; set_solver)). assert (H2 := Hb userIDKey ltac:(destruct t; cbn; set_solver)).
    cbn [flag] in H1, H2. change (flag requestIDKey ?f) with (hasRequestID f) in H1. change (flag userIDKey ?f) with (hasUserID f) in H2.
    destruct t.
    + assert (H3 := Hb traceIDKey ltac:(cbn; set_solver)). assert (H4 := Hb spanIDKey ltac:(cbn; set_solver)).
      change (flag traceIDKey ?f) with (hasTraceID f) in H3. change (flag spanIDKey ?f) with (hasSpanID f) in H4.
      rewrite !count_key_app, !count_added, H1, H2, H3, H4. clear - Hk. revert Hk.
      by repeat (intros [->|Hk]%elem_of_cons; [settle_keys|revert Hk]); intros ?%not_elem_of_nil.
    + rewrite H1, H2. clear - Hk. revert Hk.
      by repeat (intros [->|Hk]%elem_of_cons; [settle_keys|revert Hk]); intros ?%not_elem_of_nil.
Qed.

(** a line carries the ids of its request once, and a value given explicitly wins. For
    any logger that can be made, a key a context fills is at the level of the record as many
    times as it was bound or logged there, and when it was not, once if the context has a
    value for it, and never if it has none. *)
Theorem correlated_once t h cx l k : made t h -> k ∈ id_keys ->
  let explicit := count_key k (sh_bound (ch_inner h) ++ l) in
  count_key k (sh_bound (ch_inner h) ++ l ++ correlation h (Some cx) l)
  = if (explicit =? 0)%nat then (if bool_decide (id_of t cx k = "") then 0 else 1)%nat else explicit.
Proof.
  intros Hm Hk explicit. subst explicit. rewrite app_assoc, count_key_app, (correlation_count t) by done.
  rewrite !has_key_count, count_key_app. destruct (count_key k (sh_bound _)) as [|a], (count_key k l) as [|b]; cbn [Nat.eqb negb orb Nat.add].
  1: by case_bool_decide. all: lia.
Qed.

Definition logged_in : log_ctx := mkLogCtx "r1" "u1" "" "".
Lemma correlated_once_witness :
  count_key "request_id" (sh_bound (ch_inner (lg_handler (With [ALeaf "request_id" "mine"] (New "staging" []))))
    ++ [] ++ correlation (lg_handler (With [ALeaf "request_id" "mine"] (New "staging" []))) (Some logged_in) []) = 1%nat.
Proof.
  rewrite (correlated_once false); [reflexivity|apply made_with, made_new|by left].
Defined.

(** A group without a key is inlined by slog, and its keys are not seen: the line has the
    request's id twice. *)
Theorem inlined_group_repeats_key :
  List.filter (fun f => bool_decide (fd_groups f = [] /\ fd_key f = "request_id"))
    (default [] (Log (Some logged_in) 0 "INFO" "m" [AGroup "" [ALeaf "request_id" "mine"]] (New "production" [])))
  = [mkField [] "request_id" "mine"; mkField [] "request_id" "r1"].
Proof. vm_compute. reflexivity. Qed.
