(* ===== verification/Settings.v ===== *)
(** Configuration: the readers and checks of environment variables that gather every problem
    ([config/env.go], [validate.go], [errors.go]), and the settings the two example
    applications load with them ([examples/boilerplate/internal/infrastructure/config] and
    [examples/api/config.go]).

    Arguments: durations ([time]), floats ([strconv]), upper case ([unicode]) and URLs
    ([net/url]).  A problem is the variable at fault and what is wrong with it.

    What loading the settings guarantees: settings that load are settings the adapters accept,
    and a boot that fails names every variable at fault. *)

From stdpp Require Import base gmap list strings.
From Stdlib Require Import ZArith Lia Ascii.
From S2P Require Import Prelude GoStrings GoText Netip Middleware Requests Zitadel Storage.

Open Scope string_scope.
Open Scope list_scope.
Open Scope Z_scope.

(** A URL as [url.Parse] splits it, for the checks made of one. *)
Record url_parts := mkUrlParts { ul_Scheme : text; ul_Opaque : text; ul_Host : text }.

Inductive fault := FMissing | FInvalid (kind : string) | FRule (what : string).
Record problem := mkProblem { pb_key : string; pb_fault : fault }.

(** ** Readers *)

Abbreviation environ := (gmap string text).
Definition Getenv (env : environ) (key : string) : text := default [] (env !! key).

Section Config.
Context (ParseDuration : text -> option Z) (parse_url : text -> option url_parts).

Definition String_ (env : environ) (key : string) (defaultValue : text) : text :=
  let v := Getenv env key in if bool_decide (v = []) then defaultValue else v.
Definition Require (env : environ) (key : string) : problem + text :=
  let v := Getenv env key in if bool_decide (v = []) then inl (mkProblem key FMissing) else inr v.
Definition Bool (env : environ) (key : string) (defaultValue : bool) : bool :=
  let v := Getenv env key in
  if bool_decide (v = []) then defaultValue else default defaultValue (ParseBool v).

(** A value that is parsed when it is there. *)
Definition typed {A} (kind : string) (parse : text -> option A) (env : environ) (key : string) (defaultValue : A) : problem + A :=
  let v := Getenv env key in
  if bool_decide (v = []) then inr defaultValue
  else match parse v with Some a => inr a | None => inl (mkProblem key (FInvalid kind)) end.
Definition Int : environ -> string -> Z -> problem + Z := typed "int" ParseInt.
Definition Int32 : environ -> string -> Z -> problem + Z :=
  typed "int32" (fun v => n ← ParseInt v; if (- 2 ^ 31 <=? n) && (n <? 2 ^ 31) then Some n else None).
Definition Duration : environ -> string -> Z -> problem + Z := typed "duration" ParseDuration.

(** The parts of a list that are not blank. *)
Definition parts (sep : ascii) (v : text) : list text :=
  List.filter (fun t => negb (bool_decide (t = []))) (trim_space <$> split_on sep v).
Definition StringSlice (env : environ) (key : string) (sep : ascii) : list text :=
  let v := Getenv env key in if bool_decide (v = []) then [] else parts sep v.

(** ** Checks *)

Definition ValidURL (fieldName : string) (value : text) : option problem :=
  match parse_url value with
  | None => Some (mkProblem fieldName (FRule "must be a well-formed URL"))
  | Some u =>
      if bool_decide (ul_Scheme u = []) then Some (mkProblem fieldName (FRule "missing scheme"))
      else if negb (bool_decide (ul_Opaque u = [])) then Some (mkProblem fieldName (FRule "missing // before the host"))
      else if bool_decide (ul_Host u = []) then Some (mkProblem fieldName (FRule "missing host"))
      else None
  end.
Definition IntRange (fieldName : string) (value min max : Z) : option problem :=
  if (value <? min) || (max <? value) then Some (mkProblem fieldName (FRule "out of range")) else None.
Definition OneOf (fieldName : string) (value : text) (allowed : list text) : option problem :=
  if bool_decide (value ∈ allowed) then None else Some (mkProblem fieldName (FRule "not allowed")).
Definition MinMax (minFieldName : string) (min max : Z) : option problem :=
  if max <? min then Some (mkProblem minFieldName (FRule "must be at most the maximum")) else None.

(** ** Gathering *)

(** A reading that appends the problems it finds. *)
Definition Errs (A : Type) : Type := list problem -> list problem * A.
#[global] Instance Errs_ret : MRet Errs := fun A a ps => (ps, a).
#[global] Instance Errs_bind : MBind Errs := fun A B f m ps => let '(ps, a) := m ps in f a ps.

Definition Add (p : option problem) : Errs () := fun ps => (match p with Some p => ps ++ [p] | None => ps end, ()).
Definition Addf (key what : string) : Errs () := Add (Some (mkProblem key (FRule what))).
(** [Err]: the problems, when there are any. *)
Definition Err (ps : list problem) : option (list problem) := if bool_decide (ps = []) then None else Some ps.

(** A reading whose problem is recorded, with the value used instead. *)
Definition recorded {A} (instead : A) (r : problem + A) : Errs A :=
  fun ps => match r with inl p => (ps ++ [p], instead) | inr a => (ps, a) end.
Definition Errors_Require (env : environ) (key : string) : Errs text := recorded [] (Require env key).
Definition Errors_Int (env : environ) (key : string) (d : Z) : Errs Z := recorded d (Int env key d).
Definition Errors_Int32 (env : environ) (key : string) (d : Z) : Errs Z := recorded d (Int32 env key d).
Definition Errors_Duration (env : environ) (key : string) (d : Z) : Errs Z := recorded d (Duration env key d).

(** An http or https URL with a host. *)
Definition http_url (v : text) : bool :=
  match parse_url v with
  | Some u => bool_decide (ul_Scheme u ∈ [bytes_of "http"; bytes_of "https"]) && negb (bool_decide (ul_Host u = []))
  | None => false
  end.

End Config.

(** ** The boilerplate's settings *)

Module Boilerplate.

Section Load.
Context (ParseDuration : text -> option Z) (parse_url : text -> option url_parts) (ToUpper : text -> text)
  (sample_ratio : text -> option bool).

Definition minute : Z := 60 * second.
Definition hour : Z := 60 * minute.

Record AppConfig := mkAppConfig {
  ac_Env : text; ac_Port : text; ac_Url : text; ac_Version : text; ac_Timeout : Z; ac_TrustedProxies : list prefix;
  ac_SwaggerEnabled : bool }.
Record DatabaseConfig := mkDatabaseConfig {
  dc_URL : text; dc_MaxConns : Z; dc_MinConns : Z; dc_MaxConnLifetime : Z; dc_MaxConnIdleTime : Z; dc_ConnectTimeout : Z;
  dc_RequireTLS : bool; dc_AcquireTimeout : Z; dc_LeakThreshold : Z }.
Record CerbosConfig := mkCerbosConfig { cc_Host : text; cc_Plaintext : bool }.
Record MetricsConfig := mkMetricsConfig { mc_ListenAddr : text; mc_WorkerListenAddr : text }.
Record WorkerConfig := mkWorkerConfig { wc_Schema : text; wc_DefaultMaxWorkers : Z; wc_Queues : gmap string Z; wc_PollOnly : bool }.
Record NotificationConfig := mkNotificationConfig {
  nc_Provider : text; nc_DefaultFrom : text; nc_Host : text; nc_Port : Z; nc_Username : text; nc_Password : text; nc_APIKey : text }.
(** The sampling ratio as its text; empty when none was given. *)
Record TracingConfig := mkTracingConfig {
  rc_Endpoint : text; rc_ServiceName : text; rc_ServiceVersion : text; rc_Environment : text; rc_SampleRatio : text }.
Record ProfileHolder := mkProfileHolder { ph_Position : text; ph_Unit : text; ph_UserID : text }.
Record BPMSConfig := mkBPMSConfig { bc_DocumentStorage : text; bc_BaseURL : text; bc_Timeout : Z; bc_ProfileHolders : list ProfileHolder }.
Record CORSConfig := mkCORSConfig { oc_AllowedOrigins : list text; oc_AllowedMethods : list string; oc_AllowedHeaders : list string }.
Record Config := mkConfig {
  cf_App : AppConfig; cf_Database : DatabaseConfig; cf_Zitadel : Zitadel.Config; cf_Cerbos : CerbosConfig; cf_CORS : CORSConfig;
  cf_Metrics : MetricsConfig; cf_Worker : WorkerConfig; cf_Storages : gmap string S3.Config; cf_Notification : NotificationConfig;
  cf_Tracing : TracingConfig; cf_BPMS : BPMSConfig }.

Context (env : environ).

Definition IsProduction (c : Config) : bool := bool_decide (ac_Env (cf_App c) = bytes_of "production").

Definition parseSlice (key : string) (sep : ascii) : list text :=
  let v := Getenv env key in if bool_decide (v = []) then [] else parts sep v.

Definition parseTrustedProxies : Errs (list prefix) :=
  recorded [] (match ParseTrustedProxies (Getenv env "TRUSTED_PROXIES") with
               | Some ps => inr ps
               | None => inl (mkProblem "TRUSTED_PROXIES" (FInvalid "proxy list"))
               end).

Definition defaultAcquireTimeout : Z := 3 * second.
Definition defaultLeakThreshold : Z := 10 * second.

Definition positiveDuration (key : string) (def : Z) : Errs Z :=
  v ← Errors_Duration ParseDuration env key def;
  if v <=? 0 then _ ← Addf key "must be greater than zero"; mret def else mret v.

Definition parseBool (key : string) (def : bool) : Errs bool :=
  let raw := Getenv env key in
  if bool_decide (raw = []) then mret def
  else match ParseBool raw with
       | Some b => mret b
       | None => _ ← Addf key "must be true or false"; mret def
       end.
Definition parseSwaggerEnabled : Errs bool := parseBool "SWAGGER_ENABLED" false.

Definition defaultMaxTokenLifetime : Z := 12 * hour.

Definition parseZitadelConfig : Errs Zitadel.Config :=
  issuer ← Errors_Require env "ZITADEL_ISSUER";
  clientID ← Errors_Require env "ZITADEL_CLIENT_ID";
  httpTimeout ← Errors_Duration ParseDuration env "ZITADEL_HTTP_TIMEOUT" DefaultHTTPTimeout;
  lifetime ← Errors_Duration ParseDuration env "ZITADEL_MAX_TOKEN_LIFETIME" defaultMaxTokenLifetime;
  let parties := string_of <$> parseSlice "ZITADEL_ALLOWED_AUTHORIZED_PARTIES" "," in
  httpTimeout ← (if httpTimeout <=? 0 then _ ← Addf "ZITADEL_HTTP_TIMEOUT" "must be greater than zero"; mret DefaultHTTPTimeout
                 else mret httpTimeout);
  lifetime ← (if lifetime <? 0 then _ ← Addf "ZITADEL_MAX_TOKEN_LIFETIME" "must not be negative"; mret defaultMaxTokenLifetime
              else mret lifetime);
  introspection ← parseBool "ZITADEL_INTROSPECTION" false;
  let keyFile := string_of (Getenv env "ZITADEL_INTROSPECTION_KEY_FILE") in
  let clientSecret := string_of (Getenv env "ZITADEL_INTROSPECTION_CLIENT_SECRET") in
  ttl ← Errors_Duration ParseDuration env "ZITADEL_INTROSPECTION_CACHE_TTL" 0;
  entries ← Errors_Int env "ZITADEL_INTROSPECTION_CACHE_MAX_ENTRIES" 0;
  let cfg ic := Zitadel.mkConfig issuer (string_of clientID) httpTimeout lifetime parties ic in
  let hasCredential := negb (bool_decide (keyFile = "")) || negb (bool_decide (clientSecret = "")) in
  if negb introspection then
    _ ← (if hasCredential then Addf "ZITADEL_INTROSPECTION" "a credential is set but introspection is off" else mret ());
    mret (cfg None)
  else
    _ ← (if Bool.eqb (bool_decide (keyFile = "")) (bool_decide (clientSecret = ""))
         then Addf "ZITADEL_INTROSPECTION" "needs exactly one credential" else mret ());
    _ ← (if ttl <? 0 then Addf "ZITADEL_INTROSPECTION_CACHE_TTL" "must not be negative" else mret ());
    _ ← (if entries <? 0 then Addf "ZITADEL_INTROSPECTION_CACHE_MAX_ENTRIES" "must not be negative" else mret ());
    mret (cfg (Some (mkIntrospectionConfig keyFile clientSecret ttl entries))).

Definition WorkerSchema : text := String_ env "WORKER_SCHEMA" (bytes_of "river").

(** The two halves of a text at the first separator. *)
Definition cut (sep : ascii) (t : text) : text * option text :=
  let '(a, b) := span (fun c => negb (Ascii.eqb c sep)) t in (a, match b with [] => None | _ :: r => Some r end).

(** One entry of [WORKER_QUEUES]; one that is malformed is left out. *)
Definition queue_entry (queues : gmap string Z) (entry : text) : gmap string Z :=
  match cut ":" (trim_space entry) with
  | (name, Some max) =>
      let name := trim_space name in
      match ParseInt (trim_space max) with
      | Some n => if (n <=? 0) || bool_decide (name = []) then queues else <[string_of name := n]> queues
      | None => queues
      end
  | _ => queues
  end.
(** An integer that is used when it is positive. *)
Definition positive_or (key : string) (d : Z) : Z :=
  match ParseInt (Getenv env key) with Some n => if 0 <? n then n else d | None => d end.

Definition parseWorkerConfig : Errs WorkerConfig :=
  let raw := Getenv env "WORKER_QUEUES" in
  let queues := if bool_decide (raw = []) then ∅ else fold_left queue_entry (split_on "," raw) ∅ in
  pollOnly ← parseBool "WORKER_POLL_ONLY" false;
  mret (mkWorkerConfig WorkerSchema (positive_or "WORKER_DEFAULT_MAX_WORKERS" 100) queues pollOnly).

Definition defaultPresignExpiry : Z := 15 * minute.
Definition maxPresignExpiry : Z := hour.

Definition storage_config (configs : gmap string S3.Config) (name : text) : Errs (gmap string S3.Config) :=
  let name := trim_space name in
  if bool_decide (name = []) then mret configs
  else
    let prefix := "STORAGE_" +:+ string_of (ToUpper name) +:+ "_" in
    let key := prefix +:+ "PRESIGN_EXPIRY" in
    expiry ← Errors_Duration ParseDuration env key defaultPresignExpiry;
    expiry ← (if expiry <=? 0 then _ ← Addf key "must be greater than zero"; mret defaultPresignExpiry
              else if maxPresignExpiry <? expiry then _ ← Addf key "must be at most 1h"; mret defaultPresignExpiry
              else mret expiry);
    let get k d := string_of (String_ env (prefix +:+ k) (bytes_of d)) in
    mret (<[string_of name := S3.mkConfig (get "BUCKET" "") (get "REGION" "us-east-1") (get "ENDPOINT" "") (get "ACCESS_KEY" "")
              (get "SECRET_KEY" "") (Bool env (prefix +:+ "PATH_STYLE") false) expiry 0 0]> configs).
Fixpoint storage_configs (names : list text) (configs : gmap string S3.Config) : Errs (gmap string S3.Config) :=
  match names with
  | [] => mret configs
  | name :: names => configs ← storage_config configs name; storage_configs names configs
  end.
Definition parseStorageConfigs : Errs (gmap string S3.Config) :=
  let raw := Getenv env "STORAGE_CONFIGS" in
  if bool_decide (raw = []) then mret ∅ else storage_configs (split_on "," raw) ∅.

(** [sample_ratio] is whether a text is a number, and then above zero and at most one. *)
Definition parseTracingConfig (environment version : text) : Errs TracingConfig :=
  let endpoint := String_ env "OTEL_EXPORTER_OTLP_ENDPOINT" [] in
  _ ← (if negb (bool_decide (endpoint = [])) && negb (http_url parse_url endpoint)
       then Addf "OTEL_EXPORTER_OTLP_ENDPOINT" "must be an http:// or https:// URL with a host" else mret ());
  let raw := String_ env "OTEL_TRACES_SAMPLER_ARG" [] in
  ratio ← (if bool_decide (raw = []) then mret []
           else match sample_ratio raw with
                | Some true => mret raw
                | _ => _ ← Addf "OTEL_TRACES_SAMPLER_ARG" "must be a number greater than 0 and at most 1"; mret []
                end);
  mret (mkTracingConfig endpoint (String_ env "OTEL_SERVICE_NAME" []) version environment ratio).

Definition defaultDocumentStorage : text := bytes_of "documents".
Definition gotenbergDefaultTimeout : Z := 30 * second.
(** Three quarters of the minute River gives a job. *)
Definition maxGotenbergTimeout : Z := minute * 3 / 4.

Fixpoint profile_holders (entries : list text) : Errs (list ProfileHolder) :=
  match entries with
  | [] => mret []
  | entry :: entries =>
      let entry := trim_space entry in
      if bool_decide (entry = []) then profile_holders entries
      else
        let '(profile, userID) := cut "=" entry in
        let '(position, unit) := cut "@" profile in
        let position := trim_space position in
        let unit' := trim_space (default [] unit) in
        let userID' := trim_space (default [] userID) in
        if negb (bool_decide (is_Some userID)) || negb (bool_decide (is_Some unit)) || bool_decide (position = [])
           || bool_decide (unit' = []) || bool_decide (userID' = [])
        then _ ← Addf "BPMS_PROFILE_HOLDERS" "must look like position@unit=user-id"; profile_holders entries
        else rest ← profile_holders entries; mret (mkProfileHolder position unit' userID' :: rest)
  end.
Definition parseProfileHolders (raw : text) : Errs (list ProfileHolder) := profile_holders (split_on "," raw).

Fixpoint trim_right (c : ascii) (t : text) : text :=
  match t with
  | [] => []
  | x :: t' => match trim_right c t' with [] => if Ascii.eqb x c then [] else [x] | r => x :: r end
  end.

Definition parseBPMSConfig : Errs BPMSConfig :=
  let storage := String_ env "BPMS_DOCUMENT_STORAGE" defaultDocumentStorage in
  baseURL ← Errors_Require env "GOTENBERG_URL";
  timeout ← positiveDuration "GOTENBERG_TIMEOUT" gotenbergDefaultTimeout;
  holders ← parseProfileHolders (Getenv env "BPMS_PROFILE_HOLDERS");
  timeout ← (if maxGotenbergTimeout <? timeout then _ ← Addf "GOTENBERG_TIMEOUT" "must be at most 45s"; mret gotenbergDefaultTimeout
             else mret timeout);
  _ ← (if negb (bool_decide (baseURL = [])) && negb (http_url parse_url (trim_right "/" baseURL))
       then Addf "GOTENBERG_URL" "must be an absolute http(s) url" else mret ());
  mret (mkBPMSConfig storage baseURL timeout holders).

Definition parseCerbosConfig : Errs CerbosConfig :=
  _ ← (if bool_decide (is_Some (env !! "CERBOS_TLS")) then Addf "CERBOS_TLS" "is no longer read" else mret ());
  plaintext ← parseBool "CERBOS_PLAINTEXT" false;
  mret (mkCerbosConfig (String_ env "CERBOS_HOST" (bytes_of "localhost:3593")) plaintext).

Definition parseNotificationConfig : NotificationConfig :=
  mkNotificationConfig (String_ env "NOTIFICATION_PROVIDER" (bytes_of "smtp")) (String_ env "NOTIFICATION_DEFAULT_FROM" [])
    (String_ env "SMTP_HOST" []) (positive_or "SMTP_PORT" 587) (String_ env "SMTP_USERNAME" []) (String_ env "SMTP_PASSWORD" [])
    (String_ env "SENDGRID_API_KEY" []).

Definition parseMetricsConfig : MetricsConfig :=
  mkMetricsConfig (String_ env "METRICS_LISTEN_ADDR" (bytes_of ":9090")) (String_ env "WORKER_METRICS_LISTEN_ADDR" (bytes_of ":9091")).

Definition validate (c : Config) : Errs () :=
  _ ← (if ac_SwaggerEnabled (cf_App c) && IsProduction c
       then Addf "SWAGGER_ENABLED" "must not be true with APP_ENV=production" else mret ());
  if bool_decide (is_Some (cf_Storages c !! string_of (bc_DocumentStorage (cf_BPMS c)))) then mret ()
  else Addf "BPMS_DOCUMENT_STORAGE" "is not listed in STORAGE_CONFIGS".

(** The readings of [Load], in its order, and the checks across them. *)
Definition read : Errs Config :=
  dbURL ← Errors_Require env "DB_URL";
  dbRequireTLS ← parseBool "DB_REQUIRE_TLS" true;
  maxConns ← Errors_Int32 env "DB_MAX_CONNS" 25;
  minConns ← Errors_Int32 env "DB_MIN_CONNS" 5;
  appTimeout ← Errors_Duration ParseDuration env "APP_TIMEOUT" (30 * second);
  maxConnLifetime ← Errors_Duration ParseDuration env "DB_MAX_CONN_LIFETIME" hour;
  maxConnIdleTime ← Errors_Duration ParseDuration env "DB_MAX_CONN_IDLE_TIME" (30 * minute);
  connectTimeout ← Errors_Duration ParseDuration env "DB_CONNECT_TIMEOUT" (10 * second);
  acquireTimeout ← positiveDuration "DB_ACQUIRE_TIMEOUT" defaultAcquireTimeout;
  leakThreshold ← positiveDuration "DB_LEAK_THRESHOLD" defaultLeakThreshold;
  trustedProxies ← parseTrustedProxies;
  cerbos ← parseCerbosConfig;
  zitadel ← parseZitadelConfig;
  swagger ← parseSwaggerEnabled;
  let appEnv := String_ env "APP_ENV" (bytes_of "development") in
  let appVersion := String_ env "APP_VERSION" (bytes_of "0.1.0") in
  worker ← parseWorkerConfig;
  storages ← parseStorageConfigs;
  tracing ← parseTracingConfig appEnv appVersion;
  bpms ← parseBPMSConfig;
  let cfg := mkConfig
    (mkAppConfig appEnv (String_ env "APP_PORT" (bytes_of ":8080")) (String_ env "APP_URL" (bytes_of "localhost:8080")) appVersion
       appTimeout trustedProxies swagger)
    (mkDatabaseConfig dbURL maxConns minConns maxConnLifetime maxConnIdleTime connectTimeout dbRequireTLS acquireTimeout leakThreshold)
    zitadel cerbos
    (mkCORSConfig (parseSlice "CORS_ALLOWED_ORIGINS" ",") ["GET"; "POST"; "PUT"; "PATCH"; "DELETE"]
       ["Authorization"; "Content-Type"; "X-Request-ID"])
    parseMetricsConfig worker storages parseNotificationConfig tracing bpms in
  _ ← validate cfg;
  mret cfg.

Definition MigrateRequiresTLS : list problem + bool :=
  let '(ps, v) := parseBool "DB_REQUIRE_TLS" true [] in match Err ps with Some e => inl e | None => inr v end.

End Load.

(** The environment with what a [.env] file adds to it, outside production. *)
Definition with_dotenv (env dotenv : environ) : environ :=
  if bool_decide (Getenv env "APP_ENV" = bytes_of "production") then env else env ∪ dotenv.

(** [Load]. *)
Definition Load (ParseDuration : text -> option Z) (parse_url : text -> option url_parts) (ToUpper : text -> text)
    (sample_ratio : text -> option bool) (env dotenv : environ) : list problem + Config :=
  let '(ps, cfg) := read ParseDuration parse_url ToUpper sample_ratio (with_dotenv env dotenv) [] in
  match Err ps with Some e => inl e | None => inr cfg end.

End Boilerplate.

(** ** The example API's settings *)

Module Api.

Record ApiConfig := mkApiConfig {
  ap_Env : text; ap_Port : Z; ap_DatabaseURL : text; ap_RiverSchema : text; ap_NotifyFrom : text; ap_ShutdownTimeout : Z;
  ap_MetricsAddr : text; ap_ReadHeaderTimeout : Z; ap_ReadTimeout : Z; ap_WriteTimeout : Z; ap_IdleTimeout : Z;
  ap_RateLimitRequests : Z; ap_RateLimitWindow : Z; ap_FakeStorageBaseURL : text }.

Section Load.
Context (ParseDuration : text -> option Z) (parse_url : text -> option url_parts) (env : environ).

(** This one keeps the value it complains about. *)
Definition positiveApiDuration (key : string) (d : Z) : Errs Z :=
  v ← Errors_Duration ParseDuration env key d;
  _ ← (if v <=? 0 then Addf key "must be greater than zero" else mret ());
  mret v.

Definition readApi : Errs ApiConfig :=
  databaseURL ← Errors_Require env "DATABASE_URL";
  let environment := String_ env "ENV" (bytes_of "development") in
  _ ← Add (OneOf "ENV" environment (bytes_of <$> ["development"; "staging"; "production"]));
  port ← Errors_Int env "PORT" 8080;
  _ ← Add (IntRange "PORT" port 1 65535);
  shutdownTimeout ← Errors_Duration ParseDuration env "SHUTDOWN_TIMEOUT" (15 * second);
  let metricsAddr := String_ env "METRICS_ADDR" (bytes_of "127.0.0.1:2112") in
  _ ← (if bool_decide (trim_space metricsAddr = []) then Addf "METRICS_ADDR" "must not be empty" else mret ());
  readHeaderTimeout ← positiveApiDuration "HTTP_READ_HEADER_TIMEOUT" (5 * second);
  readTimeout ← positiveApiDuration "HTTP_READ_TIMEOUT" (15 * second);
  writeTimeout ← positiveApiDuration "HTTP_WRITE_TIMEOUT" (30 * second);
  idleTimeout ← positiveApiDuration "HTTP_IDLE_TIMEOUT" (60 * second);
  rateLimitRequests ← Errors_Int env "RATE_LIMIT_REQUESTS" 300;
  _ ← Add (IntRange "RATE_LIMIT_REQUESTS" rateLimitRequests 1 (2 ^ 31 - 1));
  rateLimitWindow ← positiveApiDuration "RATE_LIMIT_WINDOW" (60 * second);
  let base := String_ env "FAKE_STORAGE_BASE_URL" (bytes_of ("http://localhost:" +:+ itoa port)) in
  _ ← (if http_url parse_url base then mret () else Addf "FAKE_STORAGE_BASE_URL" "must be an absolute http or https URL");
  mret (mkApiConfig environment port databaseURL (String_ env "RIVER_SCHEMA" (bytes_of "river"))
          (String_ env "NOTIFY_FROM" (bytes_of "noreply@example.com")) shutdownTimeout metricsAddr readHeaderTimeout readTimeout
          writeTimeout idleTimeout rateLimitRequests rateLimitWindow base).

Definition LoadConfig : list problem + ApiConfig :=
  let '(ps, cfg) := readApi [] in match Err ps with Some e => inl e | None => inr cfg end.

End Load.
End Api.

(** ** Readings *)

(** A reading keeps the problems it was given, and reports one whatever came before. *)
Definition grows {A} (m : Errs A) : Prop := forall ps, ps `prefix_of` (m ps).1.
Definition reports {A} (p : problem) (m : Errs A) : Prop := forall ps, p ∈ (m ps).1.
(** What it reads when it finds no problem. *)
Definition spec {A} (m : Errs A) (Q : A -> Prop) : Prop := forall ps, (m ps).1 = ps -> Q (m ps).2.

Lemma grows_ret {A} (a : A) : grows (mret a).
Proof. by intros ps. Qed.
Lemma grows_bind {A B} (m : Errs A) (f : A -> Errs B) : grows m -> (forall a, grows (f a)) -> grows (m ≫= f).
Proof.
  intros Hm Hf ps. unfold mbind, Errs_bind. specialize (Hm ps). destruct (m ps) as [ps' a]. etransitivity; [exact Hm|apply Hf].
Qed.
Lemma grows_recorded {A} (d : A) r : grows (recorded d r).
Proof. intros ps. destruct r; cbn; [by apply prefix_app_r|done]. Qed.
Lemma grows_Add p : grows (Add p).
Proof. intros ps. destruct p; cbn; [by apply prefix_app_r|done]. Qed.
Lemma grows_if {A} (b : bool) (m n : Errs A) : grows m -> grows n -> grows (if b then m else n).
Proof. by destruct b. Qed.

Create HintDb readings.
#[export] Hint Resolve grows_ret grows_bind grows_recorded grows_Add grows_if : readings.

Lemma bind_clean {A B} (m : Errs A) (f : A -> Errs B) ps : grows m -> (forall a, grows (f a)) -> ((m ≫= f) ps).1 = ps ->
  exists a, m ps = (ps, a) /\ (f a ps).1 = ps /\ (m ≫= f) ps = f a ps.
Proof.
  intros Hm Hf. unfold mbind, Errs_bind. specialize (Hm ps). destruct (m ps) as [ps' a] eqn:E. cbn in Hm. intros He.
  assert (Hp : ps' `prefix_of` ps) by (rewrite <- He; apply Hf).
  assert (ps' = ps) as ->. { destruct Hm as [u ->], Hp as [w Hw]. rewrite <- app_assoc in Hw. rewrite <- (app_nil_r ps) in Hw at 1.
    apply app_inv_head in Hw. destruct u; [by rewrite app_nil_r|done]. }
  by exists a.
Qed.

Lemma spec_bind {A B} (m : Errs A) (f : A -> Errs B) (Q : A -> Prop) (R : B -> Prop) :
  spec m Q -> grows m -> (forall a, grows (f a)) -> (forall a, Q a -> spec (f a) R) -> spec (m ≫= f) R.
Proof.
  intros Hm Hg Hf Hr ps He. destruct (bind_clean m f ps Hg Hf He) as (a & Ha & Hfa & ->). apply Hr; [|done].
  specialize (Hm ps). rewrite Ha in Hm. by apply Hm.
Qed.
Lemma spec_ret {A} (a : A) (Q : A -> Prop) : Q a -> spec (mret a) Q.
Proof. by intros Hq ps _. Qed.
Lemma spec_true {A} (m : Errs A) : spec m (fun _ => True).
Proof. by intros ps _. Qed.
Lemma spec_Addf {A} key what (f : () -> Errs A) Q : (forall u, grows (f u)) -> spec (Addf key what ≫= f) Q.
Proof.
  intros Hf ps He. destruct (bind_clean _ _ _ (grows_Add _) Hf He) as (u & Hu & _). unfold Addf, Add in Hu. injection Hu as Hu _.
  apply (f_equal length) in Hu. rewrite length_app in Hu. cbn in Hu. lia.
Qed.
Lemma spec_Addf_end key what (Q : () -> Prop) : spec (Addf key what) Q.
Proof. intros ps He. apply (f_equal length) in He. cbn in He. rewrite length_app in He. cbn in He. lia. Qed.
Lemma spec_recorded {A} (d : A) r (Q : A -> Prop) : (forall a, r = inr a -> Q a) -> spec (recorded d r) Q.
Proof.
  intros Hr ps He. destruct r as [p|a]; [|by apply Hr]. apply (f_equal length) in He. cbn in He. rewrite length_app in He. cbn in He. lia.
Qed.
Lemma spec_weaken {A} (m : Errs A) (Q R : A -> Prop) : spec m Q -> (forall a, Q a -> R a) -> spec m R.
Proof. intros Hm Hq ps He. apply Hq. by apply Hm. Qed.

Lemma reports_here {A B} p (m : Errs A) (f : A -> Errs B) : reports p m -> (forall a, grows (f a)) -> reports p (m ≫= f).
Proof.
  intros Hm Hf ps. unfold mbind, Errs_bind. specialize (Hm ps). destruct (m ps) as [ps' a]. destruct (Hf a ps') as [u ->].
  apply elem_of_app. by left.
Qed.
Lemma reports_later {A B} p (m : Errs A) (f : A -> Errs B) : (forall a, reports p (f a)) -> reports p (m ≫= f).
Proof. intros Hf ps. unfold mbind, Errs_bind. destruct (m ps) as [ps' a]. apply Hf. Qed.
Lemma reports_recorded {A} p (d : A) r : r = inl p -> reports p (recorded d r).
Proof. intros -> ps. cbn. apply elem_of_app. right. by left. Qed.

Lemma Err_None ps : Err ps = None <-> ps = [].
Proof. unfold Err. by case_bool_decide. Qed.

Section Loading.
Context (ParseDuration : text -> option Z) (parse_url : text -> option url_parts) (ToUpper : text -> text)
  (sample_ratio : text -> option bool) (env : environ).

#[local] Abbreviation positiveDuration := (Boilerplate.positiveDuration ParseDuration env).

(** ** Every reading keeps the problems *)

Lemma grows_positiveDuration key d : grows (positiveDuration key d).
Proof. unfold Boilerplate.positiveDuration. eauto 10 with readings. Qed.
Lemma grows_parseBool key d : grows (Boilerplate.parseBool env key d).
Proof. unfold Boilerplate.parseBool. destruct (bool_decide _); [eauto with readings|]. destruct (ParseBool _); eauto with readings. Qed.
Hint Resolve grows_positiveDuration grows_parseBool : readings.

Ltac grow := repeat first
  [ apply grows_ret | apply grows_recorded | apply grows_Add | apply grows_positiveDuration | apply grows_parseBool
  | apply grows_if | apply grows_bind; [|intros ?] ].

Lemma grows_zitadel : grows (Boilerplate.parseZitadelConfig ParseDuration env).
Proof. unfold Boilerplate.parseZitadelConfig. grow. Qed.
Lemma grows_worker : grows (Boilerplate.parseWorkerConfig env).
Proof. unfold Boilerplate.parseWorkerConfig. grow. Qed.
Lemma grows_storage configs name : grows (Boilerplate.storage_config ParseDuration ToUpper env configs name).
Proof. unfold Boilerplate.storage_config. cbn zeta. grow. Qed.
Lemma grows_storages names configs : grows (Boilerplate.storage_configs ParseDuration ToUpper env names configs).
Proof. revert configs. induction names as [|n names IH]; intros configs; cbn; [grow|]. apply grows_bind; [apply grows_storage|done]. Qed.
Lemma grows_parseStorages : grows (Boilerplate.parseStorageConfigs ParseDuration ToUpper env).
Proof. unfold Boilerplate.parseStorageConfigs. cbn zeta. apply grows_if; [grow|apply grows_storages]. Qed.
Lemma grows_tracing e v : grows (Boilerplate.parseTracingConfig parse_url sample_ratio env e v).
Proof. unfold Boilerplate.parseTracingConfig. grow. destruct (sample_ratio _) as [[]|]; grow. Qed.
Lemma grows_holders entries : grows (Boilerplate.profile_holders entries).
Proof.
  induction entries as [|e es IH]; cbn; [grow|]. case_bool_decide; [done|]. destruct (Boilerplate.cut "=" _) as [profile user].
  destruct (Boilerplate.cut "@" _) as [position unit]. apply grows_if; (apply grows_bind; [|intros ?]); try done; grow.
Qed.
Lemma grows_bpms : grows (Boilerplate.parseBPMSConfig ParseDuration parse_url env).
Proof. unfold Boilerplate.parseBPMSConfig. grow. apply grows_holders. Qed.
Lemma grows_cerbos : grows (Boilerplate.parseCerbosConfig env).
Proof. unfold Boilerplate.parseCerbosConfig. grow. Qed.
Lemma grows_validate c : grows (Boilerplate.validate c).
Proof. unfold Boilerplate.validate. grow. Qed.

(** ** What is read without problems *)

Lemma spec_Require key : spec (Errors_Require env key) (fun v => v <> []).
Proof. apply spec_recorded. unfold Require. intros a. case_bool_decide; [done|]. by intros [= <-]. Qed.
Lemma spec_positiveDuration key d : spec (positiveDuration key d) (fun v => 0 < v).
Proof.
  unfold Boilerplate.positiveDuration. eapply spec_bind; [apply spec_true|grow|intros a; grow|intros v _]. destruct (v <=? 0) eqn:E.
  - apply spec_Addf. intros u. grow.
  - apply spec_ret. lia.
Qed.
Lemma spec_Int32 key d : - 2 ^ 31 <= d < 2 ^ 31 -> spec (Errors_Int32 env key d) (fun v => - 2 ^ 31 <= v < 2 ^ 31).
Proof.
  intros Hd. apply spec_recorded. unfold Int32, typed. intros a. case_bool_decide; [by intros [= <-]|].
  destruct (ParseInt _) as [n|]; cbn; [|done]. destruct (_ && _) eqn:E; [|done]. intros [= <-]. lia.
Qed.

(** A check whose failure is a problem. *)
Lemma spec_unless (b : bool) key what : spec (if b then Addf key what else mret ()) (fun _ => b = false).
Proof. destruct b; [apply spec_Addf_end|by apply spec_ret]. Qed.
(** A value replaced when it is a problem. *)
Lemma spec_replaced {A} (b : bool) key what (d v : A) :
  spec (if b then _ ← Addf key what; mret d else mret v) (fun x => x = v /\ b = false).
Proof. destruct b; [apply spec_Addf; intros u; grow|by apply spec_ret]. Qed.

Lemma parts_not_empty sep v x : x ∈ parts sep v -> x <> [].
Proof. unfold parts. rewrite list_elem_of_In. intros [_ Hx]%List.filter_In. by rewrite negb_true_iff, bool_decide_eq_false in Hx. Qed.
Lemma string_of_empty t : string_of t = "" <-> t = [].
Proof. destruct t; split; done. Qed.

(** What is read is a configuration the Zitadel adapter accepts. *)
Lemma spec_zitadel : spec (Boilerplate.parseZitadelConfig ParseDuration env) (fun z => exists z', validateConfig z = inr z').
Proof.
  unfold Boilerplate.parseZitadelConfig. eapply spec_bind; [apply spec_Require|grow|intros ?; grow|intros issuer Hi].
  eapply spec_bind; [apply spec_Require|grow|intros ?; grow|intros client Hc].
  eapply spec_bind; [apply spec_true|grow|intros ?; grow|intros timeout _].
  eapply spec_bind; [apply spec_true|grow|intros ?; grow|intros lifetime _].
  eapply spec_bind; [apply spec_replaced|grow|intros ?; grow|intros timeout' [-> Ht]].
  eapply spec_bind; [apply spec_replaced|grow|intros ?; grow|intros lifetime' [-> Hl]].
  eapply spec_bind; [apply spec_true|grow|intros ?; grow|intros introspection _].
  eapply spec_bind; [apply spec_true|grow|intros ?; grow|intros ttl _].
  eapply spec_bind; [apply spec_true|grow|intros ?; grow|intros entries _].
  set (key := string_of _). set (secret := string_of _).
  assert (Hv : forall ic, (forall c, ic = Some c -> exists c', validateIntrospection c = inr c') ->
    exists z', validateConfig (mkConfig issuer (string_of client) timeout lifetime
      (string_of <$> Boilerplate.parseSlice env "ZITADEL_ALLOWED_AUTHORIZED_PARTIES" ",") ic) = inr z').
  { intros ic Hic. unfold validateConfig.
    cbn [zc_Issuer zc_ClientID zc_HTTPTimeout zc_MaxTokenLifetime zc_AllowedAuthorizedParties zc_Introspection].
    rewrite (bool_decide_eq_false_2 (issuer = [])) by done. rewrite (bool_decide_eq_false_2 (string_of client = "")) by (by rewrite string_of_empty).
    rewrite (proj2 (Z.ltb_ge timeout 0)) by lia. rewrite Hl. rewrite (bool_decide_eq_false_2 ("" ∈ _)).
    - destruct ic as [c|]; [|by eexists]. destruct (Hic c eq_refl) as [c' ->]. by eexists.
    - intros (x & Hx & Hin)%list_elem_of_fmap. symmetry in Hx. rewrite string_of_empty in Hx. subst x. revert Hin. unfold Boilerplate.parseSlice.
      case_bool_decide; [by intros ?%not_elem_of_nil|]. by intros ?%parts_not_empty. }
  destruct introspection; cbn [negb].
  - eapply spec_bind; [apply spec_unless|grow|intros ?; grow|intros [] H1]. eapply spec_bind; [apply spec_unless|grow|intros ?; grow|intros [] H2].
    eapply spec_bind; [apply spec_unless|grow|intros ?; grow|intros [] H3]. apply spec_ret, Hv. intros c [= <-].
    unfold validateIntrospection. cbn [zi_KeyFile zi_ClientSecret zi_CacheTTL zi_CacheMaxEntries]. rewrite H1, H2, H3. by eexists.
  - eapply spec_bind; [apply spec_true|grow|intros ?; grow|intros [] _]. apply spec_ret, Hv. done.
Qed.

(** Each storage is one the S3 adapter accepts, once its bucket is named. *)
Definition buildable (c : S3.Config) : Prop := S3.sc_Bucket c <> "" -> exists s, S3.NewS3Storage c true = inr s.
Lemma expiry_buildable b r e k sk p x : 0 < x <= Boilerplate.hour -> buildable (S3.mkConfig b r e k sk p x 0 0).
Proof.
  intros Hx Hb. unfold S3.NewS3Storage. cbn in Hb |- *. rewrite bool_decide_eq_false_2 by done.
  unfold S3.DefaultMaxPresignExpiry, Boilerplate.hour, Boilerplate.minute, second, S3.second in *.
  rewrite (proj2 (Z.leb_gt x 0)) by lia. rewrite (proj2 (Z.ltb_ge _ x)) by lia. by eexists.
Qed.
Lemma spec_storage configs name : map_Forall (fun _ => buildable) configs ->
  spec (Boilerplate.storage_config ParseDuration ToUpper env configs name) (map_Forall (fun _ => buildable)).
Proof.
  intros Hc. unfold Boilerplate.storage_config. cbn zeta. case_bool_decide; [by apply spec_ret|].
  eapply spec_bind; [apply spec_true|grow|intros ?; grow|intros x _].
  eapply (spec_bind _ _ (fun y => 0 < y <= Boilerplate.hour)).
  - destruct (x <=? 0) eqn:E1; [apply spec_Addf; intros ?; grow|]. destruct (_ <? x) eqn:E2; [apply spec_Addf; intros ?; grow|].
    apply spec_ret. unfold Boilerplate.maxPresignExpiry in E2. lia.
  - grow.
  - intros ?; grow.
  - intros y Hy. apply spec_ret. apply map_Forall_insert_2; [by apply expiry_buildable|done].
Qed.
Lemma spec_storages names configs : map_Forall (fun _ => buildable) configs ->
  spec (Boilerplate.storage_configs ParseDuration ToUpper env names configs) (map_Forall (fun _ => buildable)).
Proof.
  revert configs. induction names as [|n names IH]; intros configs Hc; cbn; [by apply spec_ret|].
  eapply spec_bind; [by apply spec_storage|apply grows_storage|intros ?; apply grows_storages|exact IH].
Qed.
Lemma spec_parseStorages : spec (Boilerplate.parseStorageConfigs ParseDuration ToUpper env) (map_Forall (fun _ => buildable)).
Proof.
  unfold Boilerplate.parseStorageConfigs. cbn zeta. case_bool_decide; [apply spec_ret|apply spec_storages]; apply map_Forall_empty.
Qed.

Definition bpms_ok (b : Boilerplate.BPMSConfig) : Prop :=
  0 < Boilerplate.bc_Timeout b <= 45 * second /\ http_url parse_url (Boilerplate.trim_right "/" (Boilerplate.bc_BaseURL b)) = true
  /\ Forall (fun h => Boilerplate.ph_Position h <> [] /\ Boilerplate.ph_Unit h <> [] /\ Boilerplate.ph_UserID h <> []) (Boilerplate.bc_ProfileHolders b).

Lemma spec_holders entries : spec (Boilerplate.profile_holders entries)
  (Forall (fun h => Boilerplate.ph_Position h <> [] /\ Boilerplate.ph_Unit h <> [] /\ Boilerplate.ph_UserID h <> [])).
Proof.
  induction entries as [|e es IH]; cbn; [by apply spec_ret|]. case_bool_decide; [done|]. destruct (Boilerplate.cut "=" _) as [profile user].
  destruct (Boilerplate.cut "@" _) as [position unit]. destruct (_ || _) eqn:E; [apply spec_Addf; intros _; apply grows_holders|].
  rewrite !orb_false_iff, !bool_decide_eq_false in E.
  eapply spec_bind; [exact IH|apply grows_holders|intros ?; grow|intros rest Hr]. apply spec_ret. constructor; [cbn; naive_solver|done].
Qed.
Lemma spec_bpms : spec (Boilerplate.parseBPMSConfig ParseDuration parse_url env) bpms_ok.
Proof.
  unfold Boilerplate.parseBPMSConfig. cbn zeta.
  eapply spec_bind; [apply spec_Require|grow|intros ?; grow; apply grows_holders|intros url Hu].
  eapply spec_bind; [apply spec_positiveDuration|grow|intros ?; grow; apply grows_holders|intros timeout Ht].
  eapply spec_bind; [apply spec_holders|apply grows_holders|intros ?; grow|intros holders Hh].
  eapply spec_bind; [apply spec_replaced|grow|intros ?; grow|intros timeout' [-> Hm]].
  eapply spec_bind; [apply spec_unless|grow|intros ?; grow|intros [] Hurl]. apply spec_ret. split; [|split; [|exact Hh]]; cbn.
  - cbn beta in Ht. apply Z.ltb_ge in Hm. change Boilerplate.maxGotenbergTimeout with (45 * second) in Hm. lia.
  - rewrite bool_decide_eq_false_2 in Hurl by done. cbn in Hurl. by apply negb_false_iff in Hurl.
Qed.

(** Settings that can be used as they are. *)
Record usable (c : Boilerplate.Config) : Prop := mkUsable {
  us_db : Boilerplate.dc_URL (Boilerplate.cf_Database c) <> [];
  us_conns : - 2 ^ 31 <= Boilerplate.dc_MaxConns (Boilerplate.cf_Database c) < 2 ^ 31
             /\ - 2 ^ 31 <= Boilerplate.dc_MinConns (Boilerplate.cf_Database c) < 2 ^ 31;
  us_waits : 0 < Boilerplate.dc_AcquireTimeout (Boilerplate.cf_Database c) /\ 0 < Boilerplate.dc_LeakThreshold (Boilerplate.cf_Database c);
  us_zitadel : exists z, validateConfig (Boilerplate.cf_Zitadel c) = inr z;
  us_storages : map_Forall (fun _ => buildable) (Boilerplate.cf_Storages c);
  us_bpms : bpms_ok (Boilerplate.cf_BPMS c);
  us_documents : is_Some (Boilerplate.cf_Storages c !! string_of (Boilerplate.bc_DocumentStorage (Boilerplate.cf_BPMS c)));
  us_swagger : Boilerplate.IsProduction c = true -> Boilerplate.ac_SwaggerEnabled (Boilerplate.cf_App c) = false }.

Ltac grow_read := repeat first
  [ apply grows_zitadel | apply grows_worker | apply grows_parseStorages | apply grows_tracing | apply grows_bpms
  | apply grows_cerbos | apply grows_validate | apply grows_holders | apply grows_ret | apply grows_recorded | apply grows_Add
  | apply grows_positiveDuration | apply grows_parseBool | apply grows_if | apply grows_bind; [|intros ?] ].

Lemma spec_validate c : spec (Boilerplate.validate c) (fun _ =>
  is_Some (Boilerplate.cf_Storages c !! string_of (Boilerplate.bc_DocumentStorage (Boilerplate.cf_BPMS c)))
  /\ (Boilerplate.IsProduction c = true -> Boilerplate.ac_SwaggerEnabled (Boilerplate.cf_App c) = false)).
Proof.
  unfold Boilerplate.validate. eapply spec_bind; [apply spec_unless|grow|intros ?; grow|intros [] H]. case_bool_decide; [|apply spec_Addf_end].
  apply spec_ret. split; [done|]. intros Hp. rewrite Hp, andb_true_r in H. done.
Qed.

Lemma spec_read : spec (Boilerplate.read ParseDuration parse_url ToUpper sample_ratio env) usable.
Proof.
  unfold Boilerplate.read. cbn zeta.
  eapply spec_bind; [apply spec_Require|grow|intros ?; grow_read|intros url Hurl].
  eapply spec_bind; [apply spec_true|grow|intros ?; grow_read|intros tls _].
  eapply spec_bind; [apply spec_Int32; lia|grow|intros ?; grow_read|intros max Hmax].
  eapply spec_bind; [apply spec_Int32; lia|grow|intros ?; grow_read|intros min Hmin].
  do 4 (eapply spec_bind; [apply spec_true|grow|intros ?; grow_read|intros ? _]).
  eapply spec_bind; [apply spec_positiveDuration|grow|intros ?; grow_read|intros acquire Ha].
  eapply spec_bind; [apply spec_positiveDuration|grow|intros ?; grow_read|intros leak Hl].
  eapply spec_bind; [apply spec_true|grow|intros ?; grow_read|intros proxies _].
  eapply spec_bind; [apply spec_true|apply grows_cerbos|intros ?; grow_read|intros cerbos _].
  eapply spec_bind; [apply spec_zitadel|apply grows_zitadel|intros ?; grow_read|intros zitadel Hz].
  eapply spec_bind; [apply spec_true|grow|intros ?; grow_read|intros swagger _].
  eapply spec_bind; [apply spec_true|apply grows_worker|intros ?; grow_read|intros worker _].
  eapply spec_bind; [apply spec_parseStorages|apply grows_parseStorages|intros ?; grow_read|intros storages Hs].
  eapply spec_bind; [apply spec_true|apply grows_tracing|intros ?; grow_read|intros tracing _].
  eapply spec_bind; [apply spec_bpms|apply grows_bpms|intros ?; grow_read|intros bpms Hb].
  eapply spec_bind; [apply spec_validate|apply grows_validate|intros ?; grow_read|intros [] [Hd Hw]].
  apply spec_ret. by constructor.
Qed.

(** ** What is reported *)

Definition requiredKeys : list string := ["DB_URL"; "ZITADEL_ISSUER"; "ZITADEL_CLIENT_ID"; "GOTENBERG_URL"].
Definition durationKeys : list string :=
  ["APP_TIMEOUT"; "DB_MAX_CONN_LIFETIME"; "DB_MAX_CONN_IDLE_TIME"; "DB_CONNECT_TIMEOUT"; "DB_ACQUIRE_TIMEOUT"; "DB_LEAK_THRESHOLD";
   "ZITADEL_HTTP_TIMEOUT"; "ZITADEL_MAX_TOKEN_LIFETIME"; "ZITADEL_INTROSPECTION_CACHE_TTL"; "GOTENBERG_TIMEOUT"].

Lemma reports_Require key : Getenv env key = [] -> reports (mkProblem key FMissing) (Errors_Require env key).
Proof. intros Hk. apply reports_recorded. unfold Require. by rewrite Hk. Qed.
Lemma reports_Duration key d : Getenv env key <> [] -> ParseDuration (Getenv env key) = None ->
  reports (mkProblem key (FInvalid "duration")) (Errors_Duration ParseDuration env key d).
Proof. intros Hk Hp. apply reports_recorded. unfold Duration, typed. by rewrite bool_decide_eq_false_2, Hp. Qed.

(** Looks for the reading that reports, in the components too. *)
Ltac report := first
  [ apply reports_Require; assumption | apply reports_Duration; assumption
  | apply reports_here; [solve [report]|intros ?; grow_read]
  | apply reports_later; intros ?; report ].

Lemma read_reports_missing key : key ∈ requiredKeys -> Getenv env key = [] ->
  reports (mkProblem key FMissing) (Boilerplate.read ParseDuration parse_url ToUpper sample_ratio env).
Proof.
  intros Hk He. unfold Boilerplate.read. cbn zeta.
  repeat (apply elem_of_cons in Hk as [->|Hk]; [report|]). by apply not_elem_of_nil in Hk.
Qed.

Lemma read_reports_duration key : key ∈ durationKeys -> Getenv env key <> [] -> ParseDuration (Getenv env key) = None ->
  reports (mkProblem key (FInvalid "duration")) (Boilerplate.read ParseDuration parse_url ToUpper sample_ratio env).
Proof.
  intros Hk He Hp. unfold Boilerplate.read. cbn zeta.
  repeat (apply elem_of_cons in Hk as [->|Hk]; [report|]). by apply not_elem_of_nil in Hk.
Qed.

End Loading.

Section Claims.
Context (ParseDuration : text -> option Z) (parse_url : text -> option url_parts) (ToUpper : text -> text)
  (sample_ratio : text -> option bool).

Abbreviation Load := (Boilerplate.Load ParseDuration parse_url ToUpper sample_ratio).


(** one boot names every variable at fault. Whatever else is wrong, each required variable
    that is missing and each duration that does not parse is among the problems [Load]
    returns, in one error. *)
Theorem problems_all_reported env dotenv key :
  let e := Boilerplate.with_dotenv env dotenv in
  (key ∈ requiredKeys -> Getenv e key = [] -> exists ps, Load env dotenv = inl ps /\ mkProblem key FMissing ∈ ps)
  /\ (key ∈ durationKeys -> Getenv e key <> [] -> ParseDuration (Getenv e key) = None ->
      exists ps, Load env dotenv = inl ps /\ mkProblem key (FInvalid "duration") ∈ ps).
Proof.
  intros e. unfold Boilerplate.Load. fold e.
  assert (Hall : forall p, reports p (Boilerplate.read ParseDuration parse_url ToUpper sample_ratio e) ->
    exists ps, (let '(ps, cfg) := Boilerplate.read ParseDuration parse_url ToUpper sample_ratio e [] in
                match Err ps with Some x => inl x | None => inr cfg end) = inl ps /\ p ∈ ps).
  { intros p Hp. specialize (Hp []). destruct (Boilerplate.read _ _ _ _ _ []) as [ps cfg]. cbn in Hp. exists ps. split; [|done].
    unfold Err. case_bool_decide as Hn; [|done]. rewrite Hn in Hp. by apply not_elem_of_nil in Hp. }
  split.
  - intros Hk He. by apply Hall, read_reports_missing.
  - intros Hk He Hd. by apply Hall, read_reports_duration.
Qed.

(** ** The example API *)

Lemma api_grows_positive env key d : grows (Api.positiveApiDuration ParseDuration env key d).
Proof. unfold Api.positiveApiDuration. apply grows_bind; [apply grows_recorded|intros v]. apply grows_bind; [|intros ?; apply grows_ret].
  apply grows_if; [apply grows_Add|apply grows_ret]. Qed.
Lemma api_spec_positive env key d : spec (Api.positiveApiDuration ParseDuration env key d) (fun v => 0 < v).
Proof.
  unfold Api.positiveApiDuration. eapply spec_bind; [apply spec_true|apply grows_recorded|intros v|intros v _].
  - apply grows_bind; [|intros ?; apply grows_ret]. apply grows_if; [apply grows_Add|apply grows_ret].
  - eapply spec_bind; [apply spec_unless|apply grows_if; [apply grows_Add|apply grows_ret]|intros ?; apply grows_ret|intros [] Hv].
    apply spec_ret. lia.
Qed.
Lemma spec_Add p (Q : () -> Prop) : (p = None -> Q ()) -> spec (Add p) Q.
Proof. intros Hq ps He. destruct p; [|by apply Hq]. apply (f_equal length) in He. cbn in He. rewrite length_app in He. cbn in He. lia. Qed.
Lemma spec_IntRange key v lo hi : spec (Add (IntRange key v lo hi)) (fun _ => lo <= v <= hi).
Proof. apply spec_Add. unfold IntRange. destruct (_ || _) eqn:E; [done|]. intros _. lia. Qed.

Ltac api_grow := repeat first
  [ apply api_grows_positive | apply grows_ret | apply grows_recorded | apply grows_Add | apply grows_if | apply grows_bind; [|intros ?] ].

(** The API's own settings: what loads has a port in range, positive timeouts, and a budget
    the rate limiter can keep. *)
Theorem api_loaded_usable env c : Api.LoadConfig ParseDuration parse_url env = inr c ->
  1 <= Api.ap_Port c <= 65535 /\ 0 < Api.ap_ReadHeaderTimeout c /\ 0 < Api.ap_ReadTimeout c /\ 0 < Api.ap_WriteTimeout c
  /\ 0 < Api.ap_IdleTimeout c /\ 1 <= Api.ap_RateLimitRequests c <= 2 ^ 31 - 1 /\ 0 < Api.ap_RateLimitWindow c
  /\ Api.ap_DatabaseURL c <> [].
Proof.
  assert (Hs : spec (Api.readApi ParseDuration parse_url env) (fun c => 1 <= Api.ap_Port c <= 65535 /\ 0 < Api.ap_ReadHeaderTimeout c
    /\ 0 < Api.ap_ReadTimeout c /\ 0 < Api.ap_WriteTimeout c /\ 0 < Api.ap_IdleTimeout c
    /\ 1 <= Api.ap_RateLimitRequests c <= 2 ^ 31 - 1 /\ 0 < Api.ap_RateLimitWindow c /\ Api.ap_DatabaseURL c <> [])).
  { unfold Api.readApi. cbn zeta. eapply spec_bind; [apply spec_Require|api_grow|intros ?; api_grow|intros url Hu].
    eapply spec_bind; [apply spec_true|api_grow|intros ?; api_grow|intros ? _].
    eapply spec_bind; [apply spec_true|api_grow|intros ?; api_grow|intros port _].
    eapply spec_bind; [apply spec_IntRange|api_grow|intros ?; api_grow|intros [] Hp].
    do 2 (eapply spec_bind; [apply spec_true|api_grow|intros ?; api_grow|intros ? _]).
    eapply spec_bind; [apply api_spec_positive|api_grow|intros ?; api_grow|intros t1 H1].
    eapply spec_bind; [apply api_spec_positive|api_grow|intros ?; api_grow|intros t2 H2].
    eapply spec_bind; [apply api_spec_positive|api_grow|intros ?; api_grow|intros t3 H3].
    eapply spec_bind; [apply api_spec_positive|api_grow|intros ?; api_grow|intros t4 H4].
    eapply spec_bind; [apply spec_true|api_grow|intros ?; api_grow|intros n _].
    eapply spec_bind; [apply spec_IntRange|api_grow|intros ?; api_grow|intros [] Hn].
    eapply spec_bind; [apply api_spec_positive|api_grow|intros ?; api_grow|intros w Hw].
    eapply spec_bind; [apply spec_true|api_grow|intros ?; api_grow|intros ? _]. apply spec_ret. cbn. cbn beta in *. split_and!; first [done|lia]. }
  unfold Api.LoadConfig. specialize (Hs []). destruct (Api.readApi _ _ _ []) as [ps cfg]. cbn in Hs. destruct (Err ps) eqn:E; [done|].
  intros [= <-]. apply Err_None in E. by apply Hs.
Qed.

End Claims.

(** ** An example *)

Definition no_durations (t : text) : option Z := None.
Definition some_url (t : text) : option url_parts := Some (mkUrlParts (bytes_of "http") [] (bytes_of "h")).
Definition minimal : environ := list_to_map ((fun kv : string * string => (kv.1, bytes_of kv.2)) <$>
  [("DB_URL", "postgres://db"); ("ZITADEL_ISSUER", "https://id"); ("ZITADEL_CLIENT_ID", "api"); ("GOTENBERG_URL", "http://g");
   ("STORAGE_CONFIGS", "documents"); ("APP_ENV", "production")]).
Abbreviation LoadMinimal := (Boilerplate.Load no_durations some_url (fun t => t) (fun _ => None)).

Definition loaded : option Boilerplate.Config := match LoadMinimal minimal ∅ with inr c => Some c | inl _ => None end.
Lemma problems_all_reported_witness : exists ps, LoadMinimal (delete "DB_URL" minimal) ∅ = inl ps /\ mkProblem "DB_URL" FMissing ∈ ps.
Proof.
  apply (problems_all_reported no_durations some_url (fun t => t) (fun _ => None) (delete "DB_URL" minimal) ∅ "DB_URL"); [by left|reflexivity].
Defined.
