(* ===== verification/RateLimit.v ===== *)
(** The example API's rate limiter ([examples/api/ratelimit.go]): a fixed window of requests
    per client address, with expired windows swept at most once per window.

    Requests pass the lock one after another, at times that do not go back (a monotonic
    clock).  Instants and durations are nanoseconds.

    What the rate limiter guarantees: each client is limited by its own requests alone, fewer
    than twice the limit in any stretch as long as a window, and a
    client told to wait is let in when it comes back then. *)

From stdpp Require Import base gmap list strings sorting.
From Stdlib Require Import ZArith Lia Ascii ZifyBool.
From S2P Require Import Prelude GoStrings GoText Netip Middleware.

Open Scope string_scope.
Open Scope list_scope.
Open Scope Z_scope.

Record rateWindow := mkRateWindow { rw_start : Z; rw_count : Z }.

(** [lastSweep] is [None] before the first sweep, the zero time. *)
Record ipRateLimiter := mkLimiter {
  rl_limit : Z; rl_window : Z; rl_clients : gmap string rateWindow; rl_lastSweep : option Z }.

Definition newIPRateLimiter (limit window : Z) : ipRateLimiter := mkLimiter limit window ∅ None.

Definition expired (l : ipRateLimiter) (now : Z) (w : rateWindow) : bool := rl_window l <=? now - rw_start w.

(** The sweep, when it is due. *)
Definition sweep (now : Z) (l : ipRateLimiter) : ipRateLimiter :=
  if match rl_lastSweep l with Some t => rl_window l <=? now - t | None => true end
  then mkLimiter (rl_limit l) (rl_window l) (filter (fun kw => expired l now kw.2 = false) (rl_clients l)) (Some now)
  else l.

Definition set_client (key : string) (w : rateWindow) (l : ipRateLimiter) : ipRateLimiter :=
  mkLimiter (rl_limit l) (rl_window l) (<[key := w]> (rl_clients l)) (rl_lastSweep l).

(** [allow]: the limiter afterwards, and [None] or how long the client must wait. *)
Definition allow (now : Z) (key : string) (l : ipRateLimiter) : ipRateLimiter * option Z :=
  let l := sweep now l in
  match rl_clients l !! key with
  | None => (set_client key (mkRateWindow now 1) l, None)
  | Some w =>
      if expired l now w then (set_client key (mkRateWindow now 1) l, None)
      else if rl_limit l <=? rw_count w then (l, Some (rw_start w + rl_window l - now))
      else (set_client key (mkRateWindow (rw_start w) (rw_count w + 1)) l, None)
  end.

Definition tracked (l : ipRateLimiter) : nat := size (rl_clients l).

(** The wait in whole seconds, rounded up. *)
Definition retry_seconds (wait : Z) : Z := - (- wait / 1000000000).

(** [Middleware]: the request goes on, or 429 with the header that says when to come back.
    Without an address every request shares the empty key. *)
Definition limit_middleware (json_size : ErrorResponse -> Z) (next : handler) (now : Z) (r : request) (w : writer) (l : ipRateLimiter)
  : ipRateLimiter * out :=
  let key := match cx_info (rq_ctx r) with Some i => string_of (ri_IP i) | None => "" end in
  match allow now key l with
  | (l, None) => (l, next r w)
  | (l, Some wait) =>
      let w := set_header "Retry-After" (bytes_of (itoa (retry_seconds wait))) w in
      (l, mkOut (ErrorWith json_size r 429 "RATE_LIMITED" "too many requests" [] w) (cx_slot (rq_ctx r)) [] [] None)
  end.

(** ** One client *)

Section Window.
Context (limit window : Z).

(** A client's limiter, with nothing else and nothing swept. *)
Definition step (now : Z) (st : option rateWindow) : option rateWindow * option Z :=
  match st with
  | None => (Some (mkRateWindow now 1), None)
  | Some w =>
      if window <=? now - rw_start w then (Some (mkRateWindow now 1), None)
      else if limit <=? rw_count w then (st, Some (rw_start w + window - now))
      else (Some (mkRateWindow (rw_start w) (rw_count w + 1)), None)
  end.

Fixpoint run_one (times : list Z) (st : option rateWindow) : list (option Z) :=
  match times with
  | [] => []
  | now :: times => let '(st, v) := step now st in v :: run_one times st
  end.

(** How many of the requests let in came in the stretch of a window from [t]. *)
Definition inside (t now : Z) : bool := (t <=? now) && (now <? t + window).
Fixpoint admitted (t : Z) (times : list Z) (st : option rateWindow) : Z :=
  match times with
  | [] => 0
  | now :: times =>
      let '(st, v) := step now st in
      (match v with None => if inside t now then 1 else 0 | Some _ => 0 end) + admitted t times st
  end.

Lemma admitted_past t times st : Forall (fun x => t + window <= x) times -> admitted t times st = 0.
Proof.
  intros Hf. revert st. induction Hf as [|x times Hx _ IH]; intros st; [done|]. cbn. destruct (step x st) as [st' v]. rewrite IH.
  unfold inside. destruct v; [done|]. replace (x <? t + window) with false by lia. by rewrite andb_false_r.
Qed.

Context (Hlimit : 1 <= limit) (Hwindow : 0 < window).

(** In the window that began in the stretch: what is left of it, and nothing after. *)
Lemma admitted_in t times s c : t <= s -> c <= limit -> Forall (fun x => s <= x) times -> StronglySorted Z.le times ->
  admitted t times (Some (mkRateWindow s c)) <= limit - c.
Proof.
  intros Hs Hc Hf Ho. revert s c Hs Hc Hf. induction Ho as [|x times Ho IH Hx]; intros s c Hs Hc Hf; [cbn; lia|].
  apply List.Forall_cons_iff in Hf as [Hsx Hf]. cbn [admitted step rw_start rw_count].
  destruct (Z.leb_spec window (x - s)).
  - rewrite admitted_past; [|eapply List.Forall_impl; [|exact Hx]; cbn; lia]. unfold inside.
    replace (x <? t + window) with false by lia. rewrite andb_false_r. lia.
  - destruct (Z.leb_spec limit c); [specialize (IH s c Hs Hc Hf); lia|]. specialize (IH s (c + 1) Hs ltac:(lia) Hf). destruct (inside t x); lia.
Qed.

(** In a window that began before, once the requests are of the stretch. *)
Lemma admitted_before t times s c : c <= limit -> Forall (fun x => t <= x) times -> StronglySorted Z.le times ->
  admitted t times (Some (mkRateWindow s c)) <= (limit - c) + limit.
Proof.
  intros Hc Hf Ho. revert s c Hc. induction Ho as [|x times Ho IH Hx]; intros s c Hc; [cbn; lia|].
  apply List.Forall_cons_iff in Hf as [Htx Hf]. cbn [admitted step rw_start rw_count]. destruct (Z.leb_spec window (x - s)).
  - assert (Ha := admitted_in t times x 1 Htx ltac:(lia) Hx Ho). destruct (inside t x); lia.
  - destruct (Z.leb_spec limit c); [by apply IH|]. specialize (IH Hf s (c + 1) ltac:(lia)). destruct (inside t x); lia.
Qed.

Definition within (st : option rateWindow) : Prop := match st with Some w => 1 <= rw_count w <= limit | None => True end.
Lemma step_within now st : within st -> within (step now st).1.
Proof.
  unfold step, within. destruct st as [[s c]|]; cbn; [|lia]. destruct (_ <=? now - s); cbn; [lia|]. destruct (Z.leb_spec limit c); cbn; lia.
Qed.

Lemma admitted_all t times st : within st -> StronglySorted Z.le times -> admitted t times st <= 2 * limit - 1.
Proof.
  intros Hw Ho. revert st Hw. induction Ho as [|x times Ho IH Hx]; intros st Hw; [cbn; lia|].
  destruct (Z.leb_spec t x) as [Htx|Htx].
  - assert (Hf : Forall (fun y => t <= y) (x :: times)).
    { constructor; [done|]. eapply List.Forall_impl; [|exact Hx]. cbn. lia. }
    assert (Hs : StronglySorted Z.le (x :: times)) by (by constructor).
    destruct st as [[s c]|].
    + cbn in Hw. assert (Ha := admitted_before t (x :: times) s c ltac:(lia) Hf Hs). lia.
    + cbn [admitted step]. assert (Ha := admitted_in t times x 1 Htx ltac:(lia) Hx Ho). destruct (inside t x); lia.
  - cbn [admitted]. assert (Hw' := step_within x st Hw). destruct (step x st) as [st' v]. specialize (IH st' Hw'). unfold inside.
    replace (t <=? x) with false by lia. destruct v; cbn; lia.
Qed.

End Window.

(** ** All clients *)

Fixpoint run_all (reqs : list (Z * string)) (l : ipRateLimiter) : list (string * Z * option Z) :=
  match reqs with
  | [] => []
  | (now, key) :: reqs => let '(l, v) := allow now key l in (key, now, v) :: run_all reqs l
  end.
(** The requests of one client, and what they were answered. *)
Definition times_of (key : string) (reqs : list (Z * string)) : list Z := (List.filter (fun r => bool_decide (r.2 = key)) reqs).*1.
Definition answers_of (key : string) (rs : list (string * Z * option Z)) : list (option Z) :=
  (List.filter (fun r => bool_decide (r.1.1 = key)) rs).*2.

(** What the limiter remembers of a client is its window, unless that had expired. *)
Definition remembers (window now : Z) (m st : option rateWindow) : Prop :=
  m = st \/ (m = None /\ exists w, st = Some w /\ window <= now - rw_start w).

Lemma remembers_later window now now' m st : now <= now' -> remembers window now m st -> remembers window now' m st.
Proof. intros Hn [->|(-> & w & -> & Hw)]; [by left|]. right. split; [done|]. exists w. split; [done|]. lia. Qed.

Lemma sweep_remembers now l key st : remembers (rl_window l) now (rl_clients l !! key) st ->
  remembers (rl_window l) now (rl_clients (sweep now l) !! key) st.
Proof.
  intros Hr. unfold sweep. destruct (match rl_lastSweep l with Some _ => _ | None => _ end); [|done]. cbn [rl_clients].
  destruct (filter _ (rl_clients l) !! key) as [w|] eqn:E.
  - apply map_lookup_filter_Some in E as [E _]. by rewrite E in Hr.
  - apply map_lookup_filter_None in E as [E|E]; [by rewrite E in Hr|]. destruct Hr as [<-|(E' & w & -> & Hw)]; [|right; eauto].
    destruct (rl_clients l !! key) as [w|] eqn:El; [|by left]. right. split; [done|]. exists w. split; [done|].
    specialize (E w eq_refl). cbn in E. unfold expired in E. apply not_false_iff_true in E. lia.
Qed.

Lemma sweep_params now l : rl_limit (sweep now l) = rl_limit l /\ rl_window (sweep now l) = rl_window l.
Proof. unfold sweep. by case_match. Qed.
Lemma allow_params now key l : rl_limit (allow now key l).1 = rl_limit l /\ rl_window (allow now key l).1 = rl_window l.
Proof.
  destruct (sweep_params now l) as [H1 H2]. unfold allow. destruct (rl_clients (sweep now l) !! key); [|by split].
  destruct (expired _ _ _); [by split|]. destruct (_ <=? _); by split.
Qed.

(** A request is answered as the client's own limiter would. *)
Lemma allow_own now key l st : remembers (rl_window l) now (rl_clients l !! key) st ->
  (allow now key l).2 = (step (rl_limit l) (rl_window l) now st).2
  /\ rl_clients (allow now key l).1 !! key = (step (rl_limit l) (rl_window l) now st).1.
Proof.
  intros Hr%sweep_remembers. destruct (sweep_params now l) as [H1 H2]. unfold allow, expired. rewrite H1, H2.
  destruct Hr as [Hr|(Hr & w & -> & Hw)]; rewrite Hr; cbn [step].
  - destruct st as [w|]; cbn [step]; [|by split; [|cbn; rewrite lookup_insert_eq]].
    destruct (_ <=? now - rw_start w); [by split; [|cbn; rewrite lookup_insert_eq]|].
    destruct (rl_limit l <=? rw_count w); [by split|]. split; [done|]. cbn. by rewrite lookup_insert_eq.
  - rewrite (proj2 (Z.leb_le _ _) Hw). split; [done|]. cbn. by rewrite lookup_insert_eq.
Qed.
(** And nothing is known of the others that was not. *)
Lemma allow_other now key other l st : other <> key -> remembers (rl_window l) now (rl_clients l !! other) st ->
  remembers (rl_window l) now (rl_clients (allow now key l).1 !! other) st.
Proof.
  intros Hne Hr%sweep_remembers. unfold allow. destruct (rl_clients (sweep now l) !! key); [destruct (expired _ _ _); [|destruct (_ <=? _)]|];
    cbn; rewrite ?lookup_insert_ne by done; done.
Qed.

Lemma run_all_own reqs l key st t : StronglySorted Z.le (reqs.*1) -> Forall (fun r => t <= r.1) reqs ->
  remembers (rl_window l) t (rl_clients l !! key) st ->
  answers_of key (run_all reqs l) = run_one (rl_limit l) (rl_window l) (times_of key reqs) st.
Proof.
  revert l st t. induction reqs as [|[now k] reqs IH]; intros l st t Ho Hf Hr; [done|]. apply List.Forall_cons_iff in Hf as [Ht Hf].
  cbn in Ht, Ho. apply StronglySorted_inv in Ho as [Ho Hx]. apply (remembers_later _ _ now) in Hr; [|done].
  assert (Hx' : Forall (fun r => now <= r.1) reqs) by (by rewrite Forall_fmap in Hx).
  destruct (allow_params now k l) as [H1 H2]. unfold times_of, answers_of. cbn [run_all List.filter].
  destruct (allow now k l) as [l' v] eqn:Ea. cbn [fst snd List.filter] in *. destruct (bool_decide_reflect (k = key)) as [->|Hne].
  - destruct (allow_own now key l st Hr) as [Hv Hc]. rewrite Ea in Hv, Hc. cbn [fst snd] in Hv, Hc. cbn [fmap list_fmap run_one fst snd].
    destruct (step _ _ now st) as [st' v']. cbn in Hv, Hc. subst v'. f_equal.
    rewrite <- H1, <- H2. apply (IH l' st' now); [done|done|]. left. done.
  - rewrite <- H1, <- H2. apply (IH l' st now); [done|done|]. rewrite H2. assert (Hk := allow_other now k key l st ltac:(done) Hr).
    by rewrite Ea in Hk.
Qed.

Lemma sorted_times key reqs : StronglySorted Z.le (reqs.*1) -> StronglySorted Z.le (times_of key reqs).
Proof.
  unfold times_of. induction reqs as [|[now k] reqs IH]; cbn; intros Ho; [constructor|]. apply StronglySorted_inv in Ho as [Ho Hx].
  case_bool_decide; [|by apply IH]. cbn. constructor; [by apply IH|]. rewrite Forall_fmap. rewrite Forall_fmap in Hx.
  apply List.Forall_forall. intros r [Hin _]%List.filter_In. exact (proj1 (List.Forall_forall _ _) Hx r Hin).
Qed.



(** The bound is reached, at the turn of a window. *)
Example burst : admitted 2 10 5 [0; 9; 10; 11] None = 3.
Proof. reflexivity. Qed.

(** A client told to wait is let in when the wait is over, if it did nothing meanwhile. *)
Lemma wait_is_enough limit window now st st' wait : 0 < window -> step limit window now st = (st', Some wait) ->
  (step limit window (now + wait) st').2 = None.
Proof.
  intros Hw. unfold step. destruct st as [[s c]|]; [|done]. cbn. destruct (Z.leb_spec window (now - s)); [done|].
  destruct (limit <=? c); [|done]. intros [= <- <-]. cbn. replace (window <=? now + (s + window - now) - s) with true by lia. done.
Qed.
