(* ===== verification/ApiStore.v ===== *)
(** The documents of the example API: the entity with its keys ([examples/api/document.go])
    and its PostgreSQL store ([examples/api/store.go]), over the table of
    [examples/api/migrations].

    A transaction is a function of the connection it runs on - which statements fail, and
    the database's clock - and of the database; one that answers an error changes nothing.
    The database holds the documents, the jobs River keeps and what the audit recorder was
    given.  A text column that may be null reads as the empty string, and the empty string
    is stored as null. *)

From stdpp Require Import base gmap list strings.
From Stdlib Require Import ZArith Lia Ascii.
From S2P Require Import Prelude GoStrings GoText Model Action.

Open Scope string_scope.
Open Scope list_scope.
Open Scope Z_scope.

(** ** The entity *)

Definition DocumentDomain : string := "document".
Definition DocumentKinds : list string := ["contract"; "invoice"; "report"].

Definition FileStatusNone : string := "none".
Definition FileStatusPending : string := "pending".
Definition FileStatusReady : string := "ready".
Definition FileStatusRejected : string := "rejected".

Record Document := mkDocument {
  ID : uuid; Title : string; Kind : string; IssuedAt : Z * Z * Z;
  StorageKey : string; FileStatus : string; FileContentType : string; FilePendingSince : option Z;
  PreviousStorageKey : string; PreviousContentType : string;
  OwnerID : string; CreatedAt : Z }.

(** The document with the columns of its file's life changed. *)
Definition with_file (key status contentType : string) (since : option Z) (previousKey previousType : string) (d : Document) : Document :=
  mkDocument (ID d) (Title d) (Kind d) (IssuedAt d) key status contentType since previousKey previousType (OwnerID d) (CreatedAt d).

Definition AuditRepr (d : Document) : string := Title d +:+ " (" +:+ Kind d +:+ ")".

Definition uploadKeyPrefix (id : uuid) : string := "documents/" +:+ uuid_String id +:+ "/uploads/".
Definition fileKeyPrefix (id : uuid) : string := "documents/" +:+ uuid_String id +:+ "/file/".
(** With the identifier drawn. *)
Definition newFileKey (id u : uuid) : string := fileKeyPrefix id +:+ uuid_String u.
Definition newUploadKey (id u : uuid) : string := uploadKeyPrefix id +:+ uuid_String u.

(** ** The database *)

(** The jobs of [jobs.go]: their arguments, and the attempts they may take. *)
Inductive job :=
| NotifyReviewersArgs (documentID title : string)
| ValidateUploadArgs (documentID key : string) (maxAttempts : Z)
| DeleteObjectArgs (key : string).

(** What the audit recorder is asked to record of a document. *)
Record audit_entry := mkAuditEntry {
  ae_Source : string; ae_Action : string; ae_ID : string; ae_Operation : string;
  ae_Before : option Document; ae_After : option Document; ae_Aggregate : option (string * string) }.

Record database := mkDatabase { db_documents : gmap uuid Document; db_jobs : list job; db_audit : list audit_entry }.
Definition with_documents (t : gmap uuid Document) (db : database) : database := mkDatabase t (db_jobs db) (db_audit db).

Inductive statement := SBegin | SCommit | SCreate | SGet | SGetForUpdate | SPendingStale | SList | SAttach | SResolve | SDelete | SOwned | SEnqueue | SRecord.
#[export] Instance statement_eq_dec : EqDecision statement.
Proof. solve_decision. Defined.

(** A connection: the statements that fail on it, and [now()]. *)
Record conn := mkConn { cn_fails : statement -> bool; cn_now : Z }.

Inductive store_error := ErrDocumentNotFound | EStatement (s : statement) | ErrUploadPending.
#[export] Instance store_error_eq_dec : EqDecision store_error.
Proof. solve_decision. Defined.

(** A computation of a transaction. *)
Definition tx (A : Type) : Type := conn -> database -> store_error + (A * database).
Definition tx_ret {A} (a : A) : tx A := fun _ db => inr (a, db).
Definition tx_fail {A} (e : store_error) : tx A := fun _ _ => inl e.
Definition tx_bind {A B} (m : tx A) (k : A -> tx B) : tx B := fun c db =>
  match m c db with inl e => inl e | inr (a, db) => k a c db end.
(** A statement, which may fail. *)
Definition exec {A} (s : statement) (run : Z -> database -> store_error + (A * database)) : tx A := fun c db =>
  if cn_fails c s then inl (EStatement s) else run (cn_now c) db.

Notation "x <~ m ;; k" := (tx_bind m (fun x => k)) (at level 60, m at next level, right associativity) : vogel_scope.

(** ** The store *)

(** [CHECK (file_status IN (...))]. *)
Definition file_status_check (s : string) : bool :=
  bool_decide (s ∈ [FileStatusNone; FileStatusPending; FileStatusReady; FileStatusRejected]).

Definition Create (d : Document) : tx unit :=
  exec SCreate (fun _ db =>
    if bool_decide (is_Some (db_documents db !! ID d)) || negb (file_status_check (FileStatus d)) then inl (EStatement SCreate)
    else inr (tt, with_documents
      (<[ID d := mkDocument (ID d) (Title d) (Kind d) (IssuedAt d) (StorageKey d) (FileStatus d) "" None "" "" (OwnerID d) (CreatedAt d)]>
         (db_documents db)) db)).

Definition select (id : uuid) (db : database) : store_error + (Document * database) :=
  match db_documents db !! id with Some d => inr (d, db) | None => inl ErrDocumentNotFound end.
Definition GetByID (id : uuid) : tx Document := exec SGet (fun _ db => select id db).
Definition GetByIDForUpdate (id : uuid) : tx Document := exec SGetForUpdate (fun _ db => select id db).

Definition PendingStale (id : uuid) (after : Z) : tx bool :=
  exec SPendingStale (fun now db =>
    match db_documents db !! id with
    | Some d => inr (match FilePendingSince d with Some t => t <? now - after | None => false end, db)
    | None => inl ErrDocumentNotFound
    end).

Definition AttachPendingFile (id : uuid) (key previousKey previousContentType : string) : tx unit :=
  exec SAttach (fun now db =>
    inr (tt, match db_documents db !! id with
             | Some d => with_documents (<[id := with_file key FileStatusPending "" (Some now) previousKey previousContentType d]> (db_documents db)) db
             | None => db
             end)).

Definition ResolveUpload (id : uuid) (uploadKey storageKey status contentType : string) : tx bool :=
  exec SResolve (fun _ db =>
    match db_documents db !! id with
    | Some d =>
        if bool_decide (StorageKey d = uploadKey) && bool_decide (FileStatus d = FileStatusPending) then
          if file_status_check status
          then inr (true, with_documents (<[id := with_file storageKey status contentType None "" "" d]> (db_documents db)) db)
          else inl (EStatement SResolve)
        else inr (false, db)
    | None => inr (false, db)
    end).

Definition Delete_ (id : uuid) : tx unit :=
  exec SDelete (fun _ db => inr (tt, with_documents (delete id (db_documents db)) db)).

(** The order of a query's rows is the database's. *)
Definition OwnedIDs (arrange : list Document -> list Document) (ownerID : string) : tx (list string) :=
  exec SOwned (fun _ db =>
    inr ((fun d => uuid_String (ID d)) <$>
           arrange (List.filter (fun d => bool_decide (OwnerID d = ownerID)) (map_to_list (db_documents db)).*2), db)).

(** A page, newest first, and the count every row of it carries; [arrange] is the order
    the database gives. *)
Definition List_ (arrange : list Document -> list Document) (limit offset : Z) : tx (list Document * Z) :=
  exec SList (fun _ db =>
    let rows := arrange (map_to_list (db_documents db)).*2 in
    let page := take (Z.to_nat limit) (drop (Z.to_nat offset) rows) in
    inr ((page, fold_left (fun _ _ => Z.of_nat (length rows)) page 0), db)).

(** [Queue.EnqueueTx] and [Recorder.Record] in a transaction. *)
Definition EnqueueTx (j : job) : tx unit :=
  exec SEnqueue (fun _ db => inr (tt, mkDatabase (db_documents db) (db_jobs db ++ [j]) (db_audit db))).
Definition Record_ (e : audit_entry) : tx unit :=
  exec SRecord (fun _ db => inr (tt, mkDatabase (db_documents db) (db_jobs db) (db_audit db ++ [e]))).

(** [tx.WithTx]: what is left of the database, and the answer. *)
Definition InTx {A} (body : tx A) (c : conn) (db : database) : database * (store_error + A) :=
  if cn_fails c SBegin then (db, inl (EStatement SBegin))
  else match body c db with
       | inl e => (db, inl e)
       | inr (a, db') => if cn_fails c SCommit then (db, inl (EStatement SCommit)) else (db', inr a)
       end.
