(* ===== verification/Uploads.v ===== *)
(** The presigned upload flow of the example API: the handlers that sign an upload, confirm
    it and sign a download ([UploadURL], [AttachFile], [DownloadURL] of
    [examples/api/handler.go]), and the jobs that validate an upload and delete what is
    retired ([examples/api/jobs.go]).

    A job is a program: a tree of the calls it makes of the object store and the database,
    each followed by what is done with the answer.  A call is one step; between two of them
    other jobs, requests and clients act.  A transaction is one step too: it locks the row
    it works on first.  The system starts and drops runs of the jobs in the queue at any
    time, in any number, as River does when it retries, rescues or loses a run.

    Arguments: parsing a UUID, the detection of a content type, the parsing of a media type,
    and the signature of a URL. *)

From stdpp Require Import base gmap list strings.
From Stdlib Require Import ZArith Lia Ascii.
From S2P Require Import Prelude GoStrings GoText Model Action Middleware Requests Storage ApiStore.

Open Scope string_scope.
Open Scope list_scope.
Open Scope Z_scope.

(** ** Programs *)

Inductive prog (A : Type) : Type :=
| Ret (a : A)
| Download (key : string) (k : S3.s3_error + reader -> prog A)
| Upload (key : string) (body : reader) (contentType : text) (k : option S3.s3_error -> prog A)
| Delete (key : string) (k : option S3.s3_error -> prog A)
| NewFileKey (id : uuid) (k : string -> prog A)
| Read (id : uuid) (k : store_error + Document -> prog A)
| Tx (body : tx bool) (k : store_error + bool -> prog A).
Arguments Ret {A}.
Arguments Download {A}.
Arguments Upload {A}.
Arguments Delete {A}.
Arguments NewFileKey {A}.
Arguments Read {A}.
Arguments Tx {A}.

Fixpoint bind {A B} (p : prog A) (f : A -> prog B) : prog B :=
  match p with
  | Ret a => f a
  | Download key k => Download key (fun r => bind (k r) f)
  | Upload key body contentType k => Upload key body contentType (fun r => bind (k r) f)
  | Delete key k => Delete key (fun r => bind (k r) f)
  | NewFileKey id k => NewFileKey id (fun key => bind (k key) f)
  | Read id k => Read id (fun r => bind (k r) f)
  | Tx body k => Tx body (fun r => bind (k r) f)
  end.

Notation "'let*' x := p 'in' q" := (bind p (fun x => q)) (at level 200, x binder, p at level 100, q at level 200) : vogel_scope.

(** ** The jobs *)

Definition allowedUploadTypes : list text := bytes_of <$> ["application/pdf"; "image/png"; "image/jpeg"; "text/plain"].
Definition validateUploadMaxAttempts : Z := 5.
Definition maxUploadBytes : Z := Z.shiftl 25 20.

(** How a run fails. *)
Inductive job_error :=
| JCancel
| JStorage (what key : string) (e : S3.s3_error)
| JSniff (key what : string)
| JDatabase (e : store_error)
| JJoin (cause e : job_error).

Record verdict := mkVerdict { vd_storageKey : string; vd_status : string; vd_contentType : string; vd_operation : string; vd_retire : string }.

Definition acceptVerdict (finalKey contentType : string) (before : Document) : verdict :=
  mkVerdict finalKey FileStatusReady contentType "document_validate_file" (PreviousStorageKey before).

Definition rejectVerdict (before : Document) : verdict :=
  if negb (bool_decide (PreviousStorageKey before = ""))
  then mkVerdict (PreviousStorageKey before) FileStatusReady (PreviousContentType before) "document_restore_file" ""
  else mkVerdict (StorageKey before) FileStatusRejected "" "document_validate_file" "".

(** The transaction of [finish]: whether the verdict was recorded. *)
Definition finish_tx (id : uuid) (uploadKey : string) (buildVerdict : Document -> verdict) : tx bool := fun c db =>
  match GetByIDForUpdate id c db with
  | inl ErrDocumentNotFound => inr (false, db)
  | inl e => inl e
  | inr (before, db) =>
      let v := buildVerdict before in
      (updated <~ ResolveUpload id uploadKey (vd_storageKey v) (vd_status v) (vd_contentType v) ;;
       if updated : bool then
         _ <~ (if negb (bool_decide (vd_retire v = "")) && negb (bool_decide (vd_retire v = vd_storageKey v))
               then EnqueueTx (DeleteObjectArgs (vd_retire v)) else tx_ret tt) ;;
         let after := with_file (vd_storageKey v) (vd_status v) (vd_contentType v) None "" "" before in
         _ <~ Record_ (mkAuditEntry "worker" "update" (uuid_String id) (vd_operation v) (Some before) (Some after) None) ;;
         tx_ret true
       else tx_ret false) c db
  end.

Definition finish (id : uuid) (uploadKey : string) (buildVerdict : Document -> verdict) : prog (job_error + bool) :=
  Tx (finish_tx id uploadKey buildVerdict) (fun r => Ret (match r with inl e => inl (JDatabase e) | inr b => inr b end)).

Definition removed (what key : string) (k : prog (option job_error)) : prog (option job_error) :=
  Delete key (fun r => match r with Some e => Ret (Some (JStorage what key e)) | None => k end).

Definition cleanup (id : uuid) (key : string) : prog (option job_error) :=
  Read id (fun r =>
    match r with
    | inr doc =>
        if bool_decide (FileStatus doc = FileStatusPending) && bool_decide (StorageKey doc = key) then Ret None
        else removed "delete upload" key (Ret None)
    | inl ErrDocumentNotFound => removed "delete upload" key (Ret None)
    | inl e => Ret (Some (JDatabase e))
    end).

Definition deleteCopyUnlessReferenced (id : uuid) (key : string) : prog unit :=
  let drop_copy := Delete key (fun _ => Ret tt) in
  Read id (fun r =>
    match r with
    | inl ErrDocumentNotFound => drop_copy
    | inl _ => Ret tt
    | inr doc => if bool_decide (StorageKey doc = key) then Ret tt else drop_copy
    end).

Section Jobs.
Context (uuid_parse : text -> option uuid) (DetectContentType mediaType : text -> text).

(** [finish] with the rules of a rejection, then [cleanup]. *)
Definition reject (id : uuid) (key : string) : prog (option job_error) :=
  let* r := finish id key rejectVerdict in
  match r with inl e => Ret (Some e) | inr _ => cleanup id key end.

Definition decide_upload (id : uuid) (key : string) : prog (option job_error) :=
  Download key (fun out =>
    match out with
    | inl S3.ErrNotFound => reject id key
    | inl e => Ret (Some (JStorage "download" key e))
    | inr content =>
        match SniffContentType DetectContentType mediaType content allowedUploadTypes with
        | SniffRefused _ => removed "delete" key (reject id key)
        | SniffError what => Ret (Some (JSniff key what))
        | SniffOk contentType body =>
            NewFileKey id (fun finalKey =>
              Upload finalKey body contentType (fun copied =>
                match copied with
                | Some e => Ret (Some (JStorage "copy" key e))
                | None =>
                    let* applied := finish id key (acceptVerdict finalKey (string_of contentType)) in
                    match applied with
                    | inl e => let* _ := deleteCopyUnlessReferenced id finalKey in Ret (Some e)
                    | inr true => cleanup id key
                    | inr false => removed "delete unused copy" finalKey (cleanup id key)
                    end
                end))
        end
    end).

Definition giveUp (id : uuid) (key : string) (cause : job_error) : prog (option job_error) :=
  Delete key (fun _ =>
    let* r := finish id key rejectVerdict in
    match r with
    | inl e => Ret (Some (JJoin cause e))
    | inr _ => let* _ := cleanup id key in Ret (Some cause)
    end).

(** [ValidateUploadWorker.Work] on an attempt of a job. *)
Definition ValidateUpload_Work (documentID key : string) (attempt maxAttempts : Z) : prog (option job_error) :=
  match uuid_parse (bytes_of documentID) with
  | None => Ret (Some JCancel)
  | Some id =>
      let* err := decide_upload id key in
      match err with
      | None => Ret None
      | Some cause => if attempt <? maxAttempts then Ret (Some cause) else giveUp id key cause
      end
  end.

(** [DeleteObjectWorker.Work]. *)
Definition DeleteObject_Work (key : string) : prog (option job_error) := removed "delete object" key (Ret None).

End Jobs.

(** ** The handlers *)

(** What a handler answers. *)
Inductive data :=
| DNone
| DDocument (d : Document)
| DUpload (url : text) (key method : string) (contentType : text) (expiresAt : Z)
| DURL (url : text)
| DDocuments (docs : list Document) (total limit offset : Z)
| DEvents (events : list Event)
| DCases (cases : list Case)
| DAction (action : text).
Inductive reply :=
| RRefused (r : refusal)
| RFields (errors : gmap string string)
| RError (status : Z) (code message : string)
| RData (status : Z) (message : string) (d : data).
Definition reply_status (r : reply) : Z :=
  match r with RRefused f => rf_status f | RFields _ => 400 | RError s _ _ => s | RData s _ _ => s end.

(** The texts of what a validator gathered. *)
Definition texts (v : gmap string field_error) : gmap string string := map_imap (fun field e => Some (ms_field DefaultMessages e field)) v.

Definition uploadURLExpiry : Z := 5 * 60 * S3.second.
Definition downloadURLExpiry : Z := 5 * 60 * S3.second.
Definition stalePendingAfter : Z := 3600 * S3.second.

(** What a signed upload lets its holder put. *)
Record grant := mkGrant { gr_key : string; gr_contentType : text; gr_size : Z }.

Definition internal (message : string) : reply := RError 500 "INTERNAL_ERROR" message.
(** How a read of the document that failed is answered. *)
Definition get_failed (e : store_error) : reply :=
  match e with ErrDocumentNotFound => RError 404 "NOT_FOUND" "document not found" | _ => internal "failed to get document" end.

Section Handlers.
Context (uuid_parse : text -> option uuid).
Context (PresignedGetURL : string -> Z -> list (option PresignGetOption) -> S3.s3_error + text).
Context (PresignedPutURL : string -> text -> Z -> list (option Z) -> S3.s3_error + text).

(** [UploadURL]: the body as [request.JSON] reads it, the UUID drawn for the key and the
    time of signing; the answer with the grant the URL is. *)
Definition UploadURL (p : parameters) (body : refusal + text * Z) (u : uuid) (signedAt : Z) (c : conn) (db : database)
  : option grant * reply :=
  match body with
  | inl f => (None, RRefused f)
  | inr (contentType, size) =>
      match UUIDParam uuid_parse p "id" ∅ with
      | (v, None) => (None, RFields (texts v))
      | (v, Some id) =>
          if negb (bool_decide (contentType ∈ allowedUploadTypes)) then
            (None, RError 415 "UNSUPPORTED_MEDIA_TYPE"
                     "file type not allowed: accepted types are application/pdf, image/png, image/jpeg, text/plain")
          else if (size <? 1) || (maxUploadBytes <? size) then
            (None, RFields (<["size" := "size must be between 1 and " +:+ itoa maxUploadBytes +:+ " bytes"]> (texts v)))
          else match GetByID id c db with
               | inl e => (None, get_failed e)
               | inr (doc, _) =>
                   let key := newUploadKey (ID doc) u in
                   match PresignedPutURL key contentType uploadURLExpiry [Some size] with
                   | inl _ => (None, internal "failed to generate upload url")
                   | inr url => (Some (mkGrant key contentType size),
                                 RData 200 "OK" (DUpload url key "PUT" contentType (signedAt + uploadURLExpiry)))
                   end
               end
      end
  end.

(** The file that stays on the row while an upload is pending. *)
Definition previous_file (before : Document) (takeover : bool) : string * string :=
  if bool_decide (FileStatus before = FileStatusReady) && negb (bool_decide (StorageKey before = ""))
  then (StorageKey before, FileContentType before)
  else if takeover then (PreviousStorageKey before, PreviousContentType before)
  else ("", "").

(** The transaction of [AttachFile]; [now] is the process's clock. *)
Definition AttachFile_tx (id : uuid) (key : string) (now : Z) : tx Document :=
  before <~ GetByIDForUpdate id ;;
  takeover <~ (if bool_decide (FileStatus before = FileStatusPending) then
                 stale <~ PendingStale id stalePendingAfter ;;
                 if stale : bool then tx_ret true else tx_fail ErrUploadPending
               else tx_ret false) ;;
  let '(previousKey, previousContentType) := previous_file before takeover in
  let after := with_file key FileStatusPending "" (Some now) previousKey previousContentType before in
  _ <~ AttachPendingFile id key previousKey previousContentType ;;
  _ <~ EnqueueTx (ValidateUploadArgs (uuid_String id) key validateUploadMaxAttempts) ;;
  _ <~ Record_ (mkAuditEntry "http" "update" (uuid_String id) "document_attach_file" (Some before) (Some after) None) ;;
  tx_ret after.

(** A key [UploadURL] could have issued for the document. *)
Definition issued_key (id : uuid) (key : string) : bool :=
  match strip_prefix (bytes_of (uploadKeyPrefix id)) (bytes_of key) with
  | Some suffix => match uuid_parse suffix with Some parsed => bool_decide (bytes_of (uuid_String parsed) = suffix) | None => false end
  | None => false
  end.

Definition AttachFile (p : parameters) (body : refusal + string) (now : Z) (c : conn) (db : database) : database * reply :=
  match body with
  | inl f => (db, RRefused f)
  | inr key =>
      match UUIDParam uuid_parse p "id" ∅ with
      | (v, None) => (db, RFields (texts v))
      | (v, Some id) =>
          if negb (issued_key id key) then
            (db, RFields (<["key" := "key must be an upload key issued for this document (" +:+ uploadKeyPrefix id +:+ "<uuid>)"]> (texts v)))
          else match InTx (AttachFile_tx id key now) c db with
               | (db, inr after) => (db, RData 202 "file pending validation" (DDocument after))
               | (db, inl ErrDocumentNotFound) => (db, RError 404 "NOT_FOUND" "document not found")
               | (db, inl ErrUploadPending) => (db, RError 409 "CONFLICT" "a previous upload is still being validated")
               | (db, inl _) => (db, internal "failed to attach file")
               end
      end
  end.

Definition fileNotReadyMessages (status : string) : string :=
  if bool_decide (status = FileStatusNone) then "document has no file attached"
  else if bool_decide (status = FileStatusPending) then "document file is still being validated"
  else if bool_decide (status = FileStatusRejected) then "document file was rejected"
  else "document file is not ready".

(** The key and the type a download is served with. *)
Definition download_file (doc : Document) : option (string * string) :=
  if bool_decide (FileStatus doc = FileStatusReady) then Some (StorageKey doc, FileContentType doc)
  else if bool_decide (FileStatus doc = FileStatusPending) && negb (bool_decide (PreviousStorageKey doc = ""))
  then Some (PreviousStorageKey doc, PreviousContentType doc)
  else None.

Definition DownloadURL (p : parameters) (c : conn) (db : database) : reply :=
  match UUIDParam uuid_parse p "id" ∅ with
  | (v, None) => RFields (texts v)
  | (v, Some id) =>
      match GetByID id c db with
      | inl e => get_failed e
      | inr (doc, _) =>
          match download_file doc with
          | None => RError 409 "CONFLICT" (fileNotReadyMessages (FileStatus doc))
          | Some (key, contentType) =>
              match PresignedGetURL key downloadURLExpiry [Some (WithResponseContentType (bytes_of contentType))] with
              | inl _ => internal "failed to generate download url"
              | inr url => RData 200 "OK" (DURL url)
              end
          end
      end
  end.

End Handlers.

(** ** The system *)

(** What all of them share: the database, the object store, the grants given out, and the
    UUIDs drawn. *)
Record shared := mkShared { sh_db : database; sh_objects : gmap string S3.object; sh_grants : list grant; sh_drawn : list uuid }.
Definition with_db (db : database) (s : shared) : shared := mkShared db (sh_objects s) (sh_grants s) (sh_drawn s).
Definition with_objects (o : gmap string S3.object) (s : shared) : shared := mkShared (sh_db s) o (sh_grants s) (sh_drawn s).
Definition with_drawn (u : uuid) (s : shared) : shared := mkShared (sh_db s) (sh_objects s) (sh_grants s) (u :: sh_drawn s).
Definition unused (u : uuid) (s : shared) : Prop := u ∉ sh_drawn s /\ (u < 2 ^ 128)%N.

Section System.
Context (uuid_parse : text -> option uuid) (DetectContentType mediaType : text -> text).
Context (PresignedPutURL : string -> text -> Z -> list (option Z) -> S3.s3_error + text).
(** Whether a commit may land although the connection reports an error. *)
Context (ambiguous : bool).

(** One call of a program.  A store that reports an error may have done what was asked. *)
Inductive call_step {A} : shared -> prog A -> shared -> prog A -> Prop :=
| cs_found s key k o : sh_objects s !! key = Some o ->
    call_step s (Download key k) s (k (inr (mkReader (S3.ob_body o) None)))
| cs_cut s key k o data what : sh_objects s !! key = Some o -> data `prefix_of` S3.ob_body o ->
    call_step s (Download key k) s (k (inr (mkReader data (Some what))))
| cs_missing s key k : sh_objects s !! key = None -> call_step s (Download key k) s (k (inl S3.ErrNotFound))
| cs_download_fails s key k what : call_step s (Download key k) s (k (inl (S3.EClient what)))
| cs_upload s key body contentType k : rd_error body = None ->
    call_step s (Upload key body contentType k)
      (with_objects (<[key := S3.mkObject (rd_data body) (Some contentType)]> (sh_objects s)) s) (k None)
| cs_upload_fails s key body contentType k what : call_step s (Upload key body contentType k) s (k (Some (S3.EClient what)))
| cs_upload_unsure s key body contentType k what : rd_error body = None ->
    call_step s (Upload key body contentType k)
      (with_objects (<[key := S3.mkObject (rd_data body) (Some contentType)]> (sh_objects s)) s) (k (Some (S3.EClient what)))
| cs_delete s key k : call_step s (Delete key k) (with_objects (delete key (sh_objects s)) s) (k None)
| cs_delete_fails s key k what : call_step s (Delete key k) s (k (Some (S3.EClient what)))
| cs_delete_unsure s key k what : call_step s (Delete key k) (with_objects (delete key (sh_objects s)) s) (k (Some (S3.EClient what)))
| cs_new_key s id k u : unused u s -> call_step s (NewFileKey id k) (with_drawn u s) (k (newFileKey id u))
| cs_read s id k c : call_step s (Read id k) s (k (match GetByID id c (sh_db s) with inl e => inl e | inr (d, _) => inr d end))
| cs_tx s body k c db r : InTx body c (sh_db s) = (db, r) -> call_step s (Tx body k) (with_db db s) (k r)
| cs_tx_unsure s body k c db b : ambiguous = true -> body c (sh_db s) = inr (b, db) ->
    call_step s (Tx body k) (with_db db s) (k (inl (EStatement SCommit))).

(** A program runs to its end with nobody else acting. *)
Inductive ends {A} : shared -> prog A -> shared -> A -> Prop :=
| ends_ret s a : ends s (Ret a) s a
| ends_call s p s1 p1 s2 a : call_step s p s1 p1 -> ends s1 p1 s2 a -> ends s p s2 a.

(** A run on its own, each call answered by the store and by a database on which [c]'s
    statements fail; [u] is the UUID it draws. *)
Fixpoint run {A} (c : conn) (u : uuid) (s : shared) (p : prog A) : shared * A :=
  match p with
  | Ret a => (s, a)
  | Download key k =>
      run c u s (k (match sh_objects s !! key with Some o => inr (mkReader (S3.ob_body o) None) | None => inl S3.ErrNotFound end))
  | Upload key body contentType k =>
      match rd_error body with
      | Some what => run c u s (k (Some (S3.EClient what)))
      | None => run c u (with_objects (<[key := S3.mkObject (rd_data body) (Some contentType)]> (sh_objects s)) s) (k None)
      end
  | Delete key k => run c u (with_objects (delete key (sh_objects s)) s) (k None)
  | NewFileKey id k => run c u (with_drawn u s) (k (newFileKey id u))
  | Read id k => run c u s (k (match GetByID id c (sh_db s) with inl e => inl e | inr (d, _) => inr d end))
  | Tx body k => let '(db, r) := InTx body c (sh_db s) in run c u (with_db db s) (k r)
  end.

Record system := mkSystem { sy_shared : shared; sy_runs : list (prog (option job_error)) }.

Inductive sys_step : system -> system -> Prop :=
(** A run makes its next call, or is lost. *)
| ss_call s runs i p s' p' : runs !! i = Some p -> call_step s p s' p' ->
    sys_step (mkSystem s runs) (mkSystem s' (<[i := p']> runs))
| ss_lost s runs i : sys_step (mkSystem s runs) (mkSystem s (<[i := Ret None]> runs))
(** A worker takes a job. *)
| ss_validate s runs documentID key maxAttempts attempt : ValidateUploadArgs documentID key maxAttempts ∈ db_jobs (sh_db s) ->
    sys_step (mkSystem s runs)
      (mkSystem s (runs ++ [ValidateUpload_Work uuid_parse DetectContentType mediaType documentID key attempt maxAttempts]))
| ss_delete_object s runs key : DeleteObjectArgs key ∈ db_jobs (sh_db s) ->
    sys_step (mkSystem s runs) (mkSystem s (runs ++ [DeleteObject_Work key]))
(** A client uses the URL it was given. *)
| ss_put s runs g body : g ∈ sh_grants s -> Z.of_nat (length body) = gr_size g ->
    sys_step (mkSystem s runs)
      (mkSystem (with_objects (<[gr_key g := S3.mkObject body (Some (gr_contentType g))]> (sh_objects s)) s) runs)
(** Requests. *)
| ss_upload_url s runs p body u signedAt c g r : unused u s ->
    UploadURL uuid_parse PresignedPutURL p body u signedAt c (sh_db s) = (Some g, r) ->
    sys_step (mkSystem s runs) (mkSystem (mkShared (sh_db s) (sh_objects s) (g :: sh_grants s) (u :: sh_drawn s)) runs)
| ss_attach s runs p body now c db r : AttachFile uuid_parse p body now c (sh_db s) = (db, r) ->
    sys_step (mkSystem s runs) (mkSystem (with_db db s) runs)
| ss_create s runs d c db : unused (ID d) s -> FileStatus d = FileStatusNone -> StorageKey d = "" ->
    Create d c (sh_db s) = inr (tt, db) ->
    sys_step (mkSystem s runs) (mkSystem (with_drawn (ID d) (with_db db s)) runs)
| ss_remove s runs id c db : Delete_ id c (sh_db s) = inr (tt, db) ->
    sys_step (mkSystem s runs) (mkSystem (with_db db s) runs).

Definition initial : system := mkSystem (mkShared (mkDatabase ∅ [] []) ∅ [] []) [].
Definition reachable (w : system) : Prop := rtc sys_step initial w.

End System.
