(* ===== verification/UploadFacts.v ===== *)
(** The invariant of the upload flow: what each run of a job may still touch, the logic that
    reads it off a program, and that every step of the system keeps it. *)

From stdpp Require Import base gmap list strings.
From Stdlib Require Import ZArith Lia Ascii.
From S2P Require Import Prelude GoStrings GoText Model Action ActionFacts Middleware Requests Storage ApiStore Uploads.

Open Scope string_scope.
Open Scope list_scope.
Open Scope Z_scope.

(** ** Keys *)

Lemma string_app_assoc (a b c : string) : (a +:+ b) +:+ c = a +:+ (b +:+ c).
Proof. induction a as [|x a IH]; [done|]. change (String x ((a +:+ b) +:+ c) = String x (a +:+ (b +:+ c))). by rewrite IH. Qed.

(** A key of an area of a document is its document, its area and its name. *)
Definition area_key (area : string) (id u : uuid) : string :=
  "documents/" +:+ uuid_String id +:+ "/" +:+ area +:+ "/" +:+ uuid_String u.

Lemma slash_inj (a b x y : string) : has_char "/"%char a = false -> has_char "/"%char b = false ->
  a +:+ "/" +:+ x = b +:+ "/" +:+ y -> a = b /\ x = y.
Proof. intros Ha Hb H. by apply (sep_join_inj_prefix "/"%char). Qed.

Lemma area_key_inj a b i j u v : has_char "/"%char a = false -> has_char "/"%char b = false ->
  area_key a i u = area_key b j v -> uuid_String i = uuid_String j /\ a = b /\ uuid_String u = uuid_String v.
Proof.
  intros Ha Hb H. unfold area_key in H.
  assert (Hp : forall x y, "documents/" +:+ x = "documents/" +:+ y -> x = y) by (intros x y E; by repeat injection E as E).
  apply Hp in H. apply slash_inj in H as [Hi H]; [|apply uuid_String_no_slash..]. by apply slash_inj in H as [Hab H].
Qed.

Lemma newFileKey_area id u : newFileKey id u = area_key "file" id u.
Proof. unfold newFileKey, fileKeyPrefix, area_key. by rewrite !string_app_assoc. Qed.
Lemma newUploadKey_area id u : newUploadKey id u = area_key "uploads" id u.
Proof. unfold newUploadKey, uploadKeyPrefix, area_key. by rewrite !string_app_assoc. Qed.

Lemma upload_not_file i j u v : newUploadKey i u <> newFileKey j v.
Proof. rewrite newUploadKey_area, newFileKey_area. by intros (_ & ? & _)%area_key_inj. Qed.
Lemma newFileKey_inj i j u v : (i < 2 ^ 128)%N -> (j < 2 ^ 128)%N -> (u < 2 ^ 128)%N -> (v < 2 ^ 128)%N ->
  newFileKey i u = newFileKey j v -> i = j /\ u = v.
Proof.
  intros ???? H. rewrite (newFileKey_area i), (newFileKey_area j) in H. apply area_key_inj in H as (Hi & _ & Hu); [|done..].
  split; by apply uuid_String_inj.
Qed.
Lemma newFileKey_same i j u v : newFileKey i u = newFileKey j v -> newFileKey i u = newFileKey i v.
Proof.
  rewrite (newFileKey_area i u), (newFileKey_area j v), (newFileKey_area i v).
  intros (_ & _ & Hu)%area_key_inj; [|done..]. unfold area_key. by rewrite Hu.
Qed.
Lemma newFileKey_nonempty i u : newFileKey i u <> "".
Proof. by rewrite newFileKey_area. Qed.

Definition upload_key (k : string) : Prop := exists id u, k = newUploadKey id u.
Lemma issued_upload_key uuid_parse id key : issued_key uuid_parse id key = true -> upload_key key.
Proof.
  unfold issued_key. destruct (strip_prefix _ _) as [suffix|] eqn:E; [|done]. destruct (uuid_parse suffix) as [u|]; [|done].
  intros Hs%bool_decide_eq_true. exists id, u. unfold newUploadKey.
  apply strip_prefix_Some in E. rewrite <- Hs, <- bytes_app in E.
  rewrite <- (string_bytes key), E. apply string_bytes.
Qed.

(** ** The invariant *)

(** What a run holds: nothing, a copy it made (or is about to make), or the key of a retired
    object. *)
Inductive own := Nothing | Copy (key : string) (o : option S3.object) | Retired (key : string).

Lemma Copy_inj k o k' o' : Copy k o = Copy k' o' -> k = k' /\ o = o'.
Proof. by intros [=]. Qed.

(** A document names a file: the one it serves, or the one a pending upload would replace. *)
Definition refers (d : Document) (key contentType : string) : Prop :=
  (FileStatus d = FileStatusReady /\ StorageKey d = key /\ FileContentType d = contentType)
  \/ (key <> "" /\ PreviousStorageKey d = key /\ PreviousContentType d = contentType).

Section Invariant.
Context (uuid_parse : text -> option uuid) (DetectContentType mediaType : text -> text).

(** The content was inspected, and its type is the one recorded. *)
Definition accepted (body : text) (contentType : string) : Prop :=
  exists t rest, SniffContentType DetectContentType mediaType (mkReader body None) allowedUploadTypes = SniffOk t rest /\ contentType = string_of t.

Record inv (owns : nat -> own) (s : shared) : Prop := mkInv {
  inv_drawn : forall u, u ∈ sh_drawn s -> (u < 2 ^ 128)%N;
  inv_ids : forall id d, db_documents (sh_db s) !! id = Some d -> (id < 2 ^ 128)%N;
  (** A file a document names is its own, inspected, and nobody's to delete. *)
  inv_named : forall id d k ct, db_documents (sh_db s) !! id = Some d -> refers d k ct ->
    (exists u, u ∈ sh_drawn s /\ k = newFileKey id u) /\
    (exists o, sh_objects s !! k = Some o /\ accepted (S3.ob_body o) ct) /\
    DeleteObjectArgs k ∉ db_jobs (sh_db s) /\ (forall i o, owns i <> Copy k o);
  inv_copy : forall i k x, owns i = Copy k x ->
    (exists id u, u ∈ sh_drawn s /\ (id < 2 ^ 128)%N /\ k = newFileKey id u) /\
    DeleteObjectArgs k ∉ db_jobs (sh_db s) /\ (forall o, x = Some o -> sh_objects s !! k = Some o);
  inv_distinct : forall i j k x y, owns i = Copy k x -> owns j = Copy k y -> i = j;
  inv_retired : forall i k, owns i = Retired k -> DeleteObjectArgs k ∈ db_jobs (sh_db s);
  inv_deletes : forall k, DeleteObjectArgs k ∈ db_jobs (sh_db s) ->
    exists id u, u ∈ sh_drawn s /\ (id < 2 ^ 128)%N /\ k = newFileKey id u;
  inv_validates : forall documentID k n, ValidateUploadArgs documentID k n ∈ db_jobs (sh_db s) -> upload_key k;
  inv_grants : forall g, g ∈ sh_grants s -> upload_key (gr_key g) }.

(** ** A logic of programs *)

(** From what the run holds, the program only touches what it may, and ends as [Q] says. *)
Fixpoint wp {A} (o : own) (p : prog A) (Q : own -> A -> Prop) : Prop :=
  match p with
  | Ret a => Q o a
  | Download _ k => forall r, wp o (k r) Q
  | Upload key body contentType k =>
      (exists x, o = Copy key x) /\
      (rd_error body = None -> wp (Copy key (Some (S3.mkObject (rd_data body) (Some contentType)))) (k None) Q) /\
      (forall e, wp (Copy key None) (k (Some e)) Q)
  | Delete key k =>
      (upload_key key /\ forall r, wp o (k r) Q)
      \/ (o = Retired key /\ forall r, wp o (k r) Q)
      \/ ((exists x, o = Copy key x) /\ forall r, wp (Copy key None) (k r) Q)
  | NewFileKey id k => (id < 2 ^ 128)%N /\ forall u, wp (Copy (newFileKey id u) None) (k (newFileKey id u)) Q
  | Read _ k => forall r, wp o (k r) Q
  | Tx body k =>
      exists id key v, body = finish_tx id key v /\
      ((v = rejectVerdict /\ forall r, wp o (k r) Q)
       \/ (exists u obj ct, v = acceptVerdict (newFileKey id u) ct /\ o = Copy (newFileKey id u) (Some obj) /\
             accepted (S3.ob_body obj) ct /\ (forall e, wp o (k (inl e)) Q) /\ wp o (k (inr false)) Q /\ wp Nothing (k (inr true)) Q))
  end.

Lemma wp_mono {A} (p : prog A) : forall o (Q Q' : own -> A -> Prop), (forall o a, Q o a -> Q' o a) -> wp o p Q -> wp o p Q'.
Proof.
  induction p as [a|key k IH|key body ct k IH|key k IH|id k IH|id k IH|body k IH]; intros o Q Q' HQ; cbn [wp].
  - apply HQ.
  - intros H r. by apply (IH r _ Q).
  - intros (Ho & H1 & H2). split; [done|]. split; [intros He|intros e]; apply (IH _ _ Q); auto.
  - intros [[Hk H]|[[Hk H]|[Hk H]]]; [left|right; left|right; right]; (split; [done|]); intros r; by apply (IH r _ Q).
  - intros [Hid H]. split; [done|]. intros u. by apply (IH _ _ Q).
  - intros H r. by apply (IH r _ Q).
  - intros (id & key & v & -> & [[-> H]|(u & obj & ct & -> & -> & Ha & H1 & H2 & H3)]); eexists id, key, _; (split; [done|]).
    + left. split; [done|]. intros r. by apply (IH r _ Q).
    + right. exists u, obj, ct. repeat (split; [done|]). split; [intros e|split]; by apply (IH _ _ Q).
Qed.

Lemma wp_bind {A B} (p : prog A) (f : A -> prog B) : forall o Q, wp o p (fun o a => wp o (f a) Q) -> wp o (bind p f) Q.
Proof.
  induction p as [a|key k IH|key body ct k IH|key k IH|id k IH|id k IH|body k IH]; intros o Q; cbn [wp bind].
  - done.
  - intros H r. apply IH, H.
  - intros (Ho & H1 & H2). split; [done|]. split; [intros He|intros e]; apply IH; auto.
  - intros [[Hk H]|[[Hk H]|[Hk H]]]; [left|right; left|right; right]; (split; [done|]); intros r; apply IH, H.
  - intros [Hid H]. split; [done|]. intros u. apply IH, H.
  - intros H r. apply IH, H.
  - intros (id & key & v & -> & [[-> H]|(u & obj & ct & -> & -> & Ha & H1 & H2 & H3)]); eexists id, key, _; (split; [done|]).
    + left. split; [done|]. intros r. apply IH, H.
    + right. exists u, obj, ct. repeat (split; [done|]). split; [intros e|split]; apply IH; auto.
Qed.

(** Runs end with anything. *)
Abbreviation safe o p := (wp o p (fun _ _ => True)).

Lemma removed_safe o what key p : upload_key key -> safe o p -> safe o (removed what key p).
Proof. intros Hk Hp. left. split; [done|]. by intros [e|]. Qed.

Lemma cleanup_safe o id key : upload_key key -> safe o (cleanup id key).
Proof.
  intros Hk [[]|d]; cbn; try done; [by apply removed_safe|].
  destruct (_ && _); [done|by apply removed_safe].
Qed.

Lemma finish_reject_safe {A} o id key (f : job_error + bool -> prog A) : (forall r, safe o (f r)) -> safe o (bind (finish id key rejectVerdict) f).
Proof. intros Hf. cbn. exists id, key, rejectVerdict. split; [done|]. left. split; [done|]. intros r. cbn. apply Hf. Qed.

Lemma reject_safe o id key : upload_key key -> safe o (reject id key).
Proof. intros Hk. apply finish_reject_safe. intros [e|b]; [done|by apply cleanup_safe]. Qed.

Lemma sniffed_whole content t body : SniffContentType DetectContentType mediaType content allowedUploadTypes = SniffOk t body ->
  rd_error body = None -> accepted (rd_data body) (string_of t).
Proof.
  intros H He. exists t, body. split; [|done]. rewrite <- H. unfold SniffContentType in H.
  destruct (if (_ <? _)%nat then _ else _) eqn:Ee; [done|]. destruct (existsb _ _); [|done].
  injection H as _ <-. cbn in He |- *. destruct content as [data er]. cbn in He |- *. subst er. by rewrite take_drop.
Qed.

Lemma decide_upload_safe id key : (id < 2 ^ 128)%N -> upload_key key ->
  wp Nothing (decide_upload DetectContentType mediaType id key) (fun _ _ => True).
Proof.
  intros Hid Hk [[]|content]; try done; [by apply reject_safe|].
  destruct (SniffContentType _ _ _ _) as [what|t|t body] eqn:Hs; [done|by apply removed_safe, reject_safe|].
  split; [done|]. intros u. split; [eauto|]. split; [|done]. intros He. cbn.
  exists id, key, (acceptVerdict (newFileKey id u) (string_of t)). split; [done|]. right.
  eexists u, _, _. split; [done|]. split; [done|]. split; [by apply (sniffed_whole content)|]. split; [|split].
  - intros e. cbn. intros [[]|d]; cbn; try done; [|destruct (bool_decide _); [done|]]; right; right; (split; [eauto|done]).
  - cbn. right; right. split; [eauto|]. intros [e|]; [done|by apply cleanup_safe].
  - cbn. by apply cleanup_safe.
Qed.

Lemma giveUp_safe o id key cause : upload_key key -> safe o (giveUp id key cause).
Proof.
  intros Hk. left. split; [done|]. intros r. apply finish_reject_safe. intros [e|b]; [done|].
  apply wp_bind. apply (wp_mono _ o (fun _ _ => True)); [done|by apply cleanup_safe].
Qed.

Lemma ValidateUpload_safe documentID key attempt maxAttempts :
  (forall t u, uuid_parse t = Some u -> (u < 2 ^ 128)%N) -> upload_key key ->
  safe Nothing (ValidateUpload_Work uuid_parse DetectContentType mediaType documentID key attempt maxAttempts).
Proof.
  intros Hp Hk. unfold ValidateUpload_Work. destruct (uuid_parse _) as [id|] eqn:E; [|done]. apply wp_bind.
  apply (wp_mono _ Nothing (fun _ _ => True)); [|by apply decide_upload_safe; [apply (Hp _ _ E)|]].
  intros o [cause|] _; [|done]. destruct (attempt <? maxAttempts); [done|by apply giveUp_safe].
Qed.

Lemma DeleteObject_safe key : safe (Retired key) (DeleteObject_Work key).
Proof. right; left. split; [done|]. by intros [e|]. Qed.

(** ** Effects on what is shared *)

Definition named (s : shared) (k : string) : Prop := exists id d ct, db_documents (sh_db s) !! id = Some d /\ refers d k ct.
Definition upd (owns : nat -> own) (i : nat) (x : own) : nat -> own := fun j => if decide (j = i) then x else owns j.
Lemma upd_eq owns i x : upd owns i x i = x.
Proof. unfold upd. by rewrite decide_True. Qed.
Lemma upd_ne owns i j x : j <> i -> upd owns i x j = owns j.
Proof. intros H. unfold upd. by rewrite decide_False. Qed.

(** Objects nobody relies on may change. *)
Lemma inv_set_objects owns s objs : inv owns s ->
  (forall k, named s k \/ (exists i o, owns i = Copy k (Some o)) -> objs !! k = sh_objects s !! k) -> inv owns (with_objects objs s).
Proof.
  intros [] Ho. constructor; cbn; try done.
  - intros id d k ct Hd Hr. rewrite (Ho k) by (left; by exists id, d, ct). by apply (inv_named0 id d).
  - intros i k x Hi. destruct (inv_copy0 i k x Hi) as (H1 & H2 & H3). split; [done|]. split; [done|].
    intros o ->. rewrite (Ho k) by (right; eauto). by apply H3.
Qed.

(** A run may come to hold less, or what it has just written, or what is retired. *)
Lemma inv_set_own owns s i x : inv owns s ->
  match x with
  | Nothing => True
  | Copy k y => (exists z, owns i = Copy k z) /\ (forall o, y = Some o -> sh_objects s !! k = Some o)
  | Retired k => DeleteObjectArgs k ∈ db_jobs (sh_db s)
  end -> inv (upd owns i x) s.
Proof.
  intros [] Hx.
  assert (Hback : forall j k y, upd owns i x j = Copy k y -> exists z, owns j = Copy k z).
  { intros j k y. unfold upd. destruct (decide (j = i)) as [->|]; [intros ->; apply Hx|eauto]. }
  constructor; try done.
  - intros id d k ct Hd Hr. destruct (inv_named0 id d k ct Hd Hr) as (H1 & H2 & H3 & H4). repeat (split; [done|]).
    intros j o [z Hz]%Hback. exact (H4 _ _ Hz).
  - intros j k y Hj. destruct (Hback j k y Hj) as [z Hz]. destruct (inv_copy0 j k z Hz) as (H1 & H2 & H3). repeat (split; [done|]).
    unfold upd in Hj. destruct (decide (j = i)) as [->|]; [subst x; apply Hx|]. rewrite Hz in Hj. by injection Hj as ->.
  - intros j l k y z [y' Hy]%Hback [z' Hz]%Hback. by apply (inv_distinct0 j l k y' z').
  - intros j k. unfold upd. destruct (decide (j = i)) as [->|]; [intros ->; exact Hx|eauto].
Qed.

(** A new key is nobody's. *)
Lemma inv_new_key owns s i id u : inv owns s -> unused u s -> (id < 2 ^ 128)%N ->
  inv (upd owns i (Copy (newFileKey id u) None)) (with_drawn u s).
Proof.
  intros [] [Hu Hb] Hid.
  assert (Hnew : forall id' u', u' ∈ sh_drawn s -> (id' < 2 ^ 128)%N -> newFileKey id u = newFileKey id' u' -> False).
  { intros id' u' Hu' Hid' [_ ->]%newFileKey_inj; auto. }
  constructor; cbn; try done.
  - intros v [->|Hv]%elem_of_cons; eauto.
  - intros id' d k ct Hd Hr. destruct (inv_named0 id' d k ct Hd Hr) as ((v & Hv & ->) & H2 & H3 & H4).
    split; [exists v; split; [by right|done]|]. split; [done|]. split; [done|]. intros j o. unfold upd. destruct (decide (j = i)); [|apply H4].
    intros [He _]%Copy_inj. apply (Hnew id' v); eauto.
  - intros j k x. unfold upd. destruct (decide (j = i)).
    + intros [<- <-]%Copy_inj. split; [exists id, u; split; [by left|done]|]. split; [|done].
      intros (id' & v & Hv & Hid' & He)%inv_deletes0. by apply (Hnew id' v).
    + intros Hj. destruct (inv_copy0 j k x Hj) as ((id' & v & Hv & H1) & H2). split; [|done]. exists id', v. split; [by right|done].
  - intros j l k x y. unfold upd. destruct (decide (j = i)) as [->|], (decide (l = i)) as [->|]; [done|..|by apply inv_distinct0].
    + intros [<- <-]%Copy_inj Hl. destruct (inv_copy0 l _ y Hl) as ((id' & v & Hv & Hid' & He) & _). by destruct (Hnew id' v).
    + intros Hl [<- <-]%Copy_inj. destruct (inv_copy0 j _ x Hl) as ((id' & v & Hv & Hid' & He) & _). by destruct (Hnew id' v).
  - intros j k. unfold upd. destruct (decide (j = i)); [done|eauto].
  - intros k (id' & v & Hv & H1)%inv_deletes0. exists id', v. split; [by right|done].
Qed.

(** The documents name no file they did not name, and no file is retired. *)
Lemma inv_set_db owns s db : inv owns s ->
  (forall id d, db_documents db !! id = Some d -> (id < 2 ^ 128)%N) ->
  (forall id d k ct, db_documents db !! id = Some d -> refers d k ct -> exists d0, db_documents (sh_db s) !! id = Some d0 /\ refers d0 k ct) ->
  (forall j, j ∈ db_jobs db -> j ∈ db_jobs (sh_db s) \/
     match j with DeleteObjectArgs _ => False | ValidateUploadArgs _ k _ => upload_key k | _ => True end) ->
  (forall j, j ∈ db_jobs (sh_db s) -> j ∈ db_jobs db) -> inv owns (with_db db s).
Proof.
  intros [] Hids Hrefs Hjobs Hkept.
  assert (Hdel : forall k, DeleteObjectArgs k ∈ db_jobs db -> DeleteObjectArgs k ∈ db_jobs (sh_db s)) by (intros k Hk; by destruct (Hjobs _ Hk)).
  constructor; cbn; try done.
  - intros id d k ct Hd Hr. destruct (Hrefs id d k ct Hd Hr) as (d0 & Hd0 & Hr0).
    destruct (inv_named0 id d0 k ct Hd0 Hr0) as (H1 & H2 & H3 & H4). repeat (split; [done|]). split; [|done]. intros Hk. by apply H3, Hdel.
  - intros i k x Hi. destruct (inv_copy0 i k x Hi) as (H1 & H2 & H3). repeat (split; [done|]). split; [|done]. intros Hk. by apply H2, Hdel.
  - eauto.
  - eauto.
  - intros documentID k n Hk. destruct (Hjobs _ Hk); eauto.
Qed.

(** ** Transactions *)

(** What recording a verdict writes. *)
Definition resolved (id : uuid) (v : verdict) (before : Document) (db : database) : database :=
  let after := with_file (vd_storageKey v) (vd_status v) (vd_contentType v) None "" "" before in
  mkDatabase (<[id := after]> (db_documents db))
    (db_jobs db ++ (if negb (bool_decide (vd_retire v = "")) && negb (bool_decide (vd_retire v = vd_storageKey v))
                    then [DeleteObjectArgs (vd_retire v)] else []))
    (db_audit db ++ [mkAuditEntry "worker" "update" (uuid_String id) (vd_operation v) (Some before) (Some after) None]).

Lemma exec_Ok {A} st run c db (r : A * database) : exec st run c db = inr r -> run (cn_now c) db = inr r.
Proof. unfold exec. by destruct (cn_fails c st). Qed.
Lemma tx_bind_Ok {A B} (m : tx A) (k : A -> tx B) c db r : tx_bind m k c db = inr r -> exists a db1, m c db = inr (a, db1) /\ k a c db1 = inr r.
Proof. unfold tx_bind. destruct (m c db) as [e|[a db1]]; [done|eauto]. Qed.
Lemma GetByIDForUpdate_Ok id c db d db' : GetByIDForUpdate id c db = inr (d, db') -> db' = db /\ db_documents db !! id = Some d.
Proof. intros H%exec_Ok. unfold select in H. destruct (_ !! _); [|done]. by injection H as -> ->. Qed.

(** The document waits for the verdict on an upload. *)
Definition waiting (id : uuid) (key : string) (db : database) : Prop :=
  exists d, db_documents db !! id = Some d /\ FileStatus d = FileStatusPending /\ StorageKey d = key.

Lemma finish_tx_Ok id key bv c db b db' : finish_tx id key bv c db = inr (b, db') ->
  (b = false /\ db' = db /\ ~ waiting id key db) \/
  (b = true /\ exists before, db_documents db !! id = Some before /\ StorageKey before = key /\ FileStatus before = FileStatusPending /\
     db' = resolved id (bv before) before db).
Proof.
  unfold finish_tx. destruct (GetByIDForUpdate id c db) as [[]|[before db1]] eqn:Hg; try done.
  - intros [= <- <-]. left. split; [done|]. split; [done|]. intros (d & Hd & _). unfold GetByIDForUpdate, exec, select in Hg.
    rewrite Hd in Hg. by destruct (cn_fails c SGetForUpdate).
  - apply GetByIDForUpdate_Ok in Hg as [-> Hd]. intros (updated & db1 & H1 & H)%tx_bind_Ok.
    apply exec_Ok in H1. rewrite Hd in H1. destruct (_ && _) eqn:Hc.
    + destruct (file_status_check _); [|done]. injection H1 as <- <-.
      apply andb_true_iff in Hc as [Hc1%bool_decide_eq_true Hc2%bool_decide_eq_true]. right.
      apply tx_bind_Ok in H as ([] & db2 & H2 & H). apply tx_bind_Ok in H as ([] & db3 & H3 & H).
      apply exec_Ok in H3. injection H3 as <-. injection H as <- <-. split; [done|]. exists before. repeat (split; [done|]).
      unfold resolved. destruct (_ && _).
      * apply exec_Ok in H2. by injection H2 as <-.
      * injection H2 as <-. cbn. by rewrite app_nil_r.
    + injection H1 as <- <-. left. injection H as <- <-. split; [done|]. split; [done|]. intros (d & Hd' & Hp & Hk).
      assert (d = before) as -> by congruence. by rewrite !bool_decide_eq_true_2 in Hc.
Qed.

Lemma InTx_cases {A} (body : tx A) c db db' r : InTx body c db = (db', r) ->
  (exists e, r = inl e /\ db' = db) \/ (exists a, r = inr a /\ body c db = inr (a, db')).
Proof.
  unfold InTx. destruct (cn_fails c SBegin); [intros [= <- <-]; eauto|].
  destruct (body c db) as [e|[a db1]]; [intros [= <- <-]; eauto|]. destruct (cn_fails c SCommit); intros [= <- <-]; eauto.
Qed.

(** A rejection goes back to the file the document had. *)
Lemma inv_reject owns s id before : inv owns s -> db_documents (sh_db s) !! id = Some before ->
  inv owns (with_db (resolved id (rejectVerdict before) before (sh_db s)) s).
Proof.
  intros Hi Hd. apply inv_set_db; [done|..]; unfold resolved, rejectVerdict; cbn.
  - intros id' d [[<- _]|[_ Hd']]%lookup_insert_Some; by eapply (inv_ids _ _ Hi).
  - intros id' d k ct [[<- <-]|[_ Hd']]%lookup_insert_Some Hr; [|eauto]. exists before. split; [done|].
    destruct (bool_decide_reflect (PreviousStorageKey before = "")) as [He|He]; cbn in Hr;
      (destruct Hr as [(H1 & H2 & H3)|(H1 & H2 & H3)]; [|cbn in H2; by subst k]); cbn in H1, H2, H3; [done|].
    right. by subst k.
  - intros j. rewrite bool_decide_eq_true_2 by (by destruct (bool_decide _)). cbn. rewrite app_nil_r. by left.
  - intros j Hj. by apply elem_of_app; left.
Qed.

(** An acceptance moves it to the run's copy and retires the one it had. *)
Lemma inv_accept owns s i id before u obj ct : inv owns s -> db_documents (sh_db s) !! id = Some before ->
  owns i = Copy (newFileKey id u) (Some obj) -> accepted (S3.ob_body obj) ct ->
  inv (upd owns i Nothing) (with_db (resolved id (acceptVerdict (newFileKey id u) ct before) before (sh_db s)) s).
Proof.
  intros Hi Hd Ho Ha. destruct (inv_copy _ _ Hi i _ _ Ho) as ((id0 & u0 & Hu0 & Hid0 & Hk0) & Hnd & Hobj).
  pose proof (inv_ids _ _ Hi id before Hd) as Hid.
  assert (Hused : exists v, v ∈ sh_drawn s /\ newFileKey id u = newFileKey id v).
  { exists u0. split; [done|]. by apply newFileKey_same in Hk0. }
  set (new := newFileKey id u) in *.
  assert (Hprev : forall k, k <> "" -> PreviousStorageKey before = k -> refers before k (PreviousContentType before)) by (intros k Hk <-; by right).
  assert (Hretired : forall k, DeleteObjectArgs k ∈ db_jobs (sh_db (with_db (resolved id (acceptVerdict new ct before) before (sh_db s)) s)) ->
    DeleteObjectArgs k ∈ db_jobs (sh_db s) \/ (k <> "" /\ k <> new /\ PreviousStorageKey before = k)).
  { intros k. unfold resolved. cbn. intros [Hk|Hk]%elem_of_app; [by left|right].
    destruct (bool_decide_reflect (PreviousStorageKey before = "")); cbn in Hk; [by apply elem_of_nil in Hk|].
    destruct (bool_decide_reflect (PreviousStorageKey before = new)); cbn in Hk; [by apply elem_of_nil in Hk|].
    apply list_elem_of_singleton in Hk. injection Hk as ->. done. }
  destruct Hi. constructor; cbn [with_db sh_drawn sh_objects sh_grants]; try done.
  - intros id' d. unfold resolved. cbn. intros [[<- _]|[_ Hd']]%lookup_insert_Some; eauto.
  - intros id' d k ct'. unfold resolved at 1. cbn [sh_db with_db db_documents]. intros [[<- <-]|[Hne Hd']]%lookup_insert_Some Hr.
    + destruct Hr as [(_ & H2 & H3)|(H1 & H2 & _)]; cbn in H2; [|by subst k]. cbn in H3. subst k ct'.
      split; [done|]. split; [exists obj; auto|]. split; [by intros [?|(_ & ? & _)]%Hretired|].
      intros j o. unfold upd. destruct (decide (j = i)) as [->|Hj]; [done|]. intros Hj'. apply Hj. by apply (inv_distinct0 j i new o (Some obj)).
    + destruct (inv_named0 id' d k ct' Hd' Hr) as ((v & Hv & Hk) & H2 & H3 & H4). split; [eauto|]. split; [done|]. split.
      * intros [?|(Hk1 & Hk2 & Hk3)]%Hretired; [done|].
        destruct (inv_named0 id before k _ Hd (Hprev k Hk1 Hk3)) as ((v' & Hv' & Hk') & _).
        rewrite Hk' in Hk. apply newFileKey_inj in Hk as [-> _]; eauto.
      * intros j o. unfold upd. destruct (decide (j = i)); [done|apply H4].
  - intros j k x. unfold upd. destruct (decide (j = i)) as [->|Hj]; [done|]. intros Hj'.
    destruct (inv_copy0 j k x Hj') as (H1 & H2 & H3). split; [done|]. split; [|done].
    intros [?|(Hk1 & Hk2 & Hk3)]%Hretired; [done|]. destruct (inv_named0 id before k _ Hd (Hprev k Hk1 Hk3)) as (_ & _ & _ & H4). by apply (H4 j x).
  - intros j l k x y. unfold upd. destruct (decide (j = i)), (decide (l = i)); try done. apply inv_distinct0.
  - intros j k. unfold upd. destruct (decide (j = i)); [done|]. intros Hj. unfold resolved. cbn. apply elem_of_app. left. eauto.
  - intros k [?|(Hk1 & Hk2 & Hk3)]%Hretired; [eauto|].
    destruct (inv_named0 id before k _ Hd (Hprev k Hk1 Hk3)) as ((v' & Hv' & Hk') & _). eauto 10.
  - intros documentID k n. unfold resolved. cbn. intros [Hk|Hk]%elem_of_app; [eauto|].
    destruct (_ && _) in Hk; [by apply list_elem_of_singleton in Hk|by apply elem_of_nil in Hk].
Qed.

(** ** Steps *)

Lemma inv_ext o1 o2 s : (forall i, o1 i = o2 i) -> inv o1 s -> inv o2 s.
Proof.
  intros He []. constructor; try done.
  - intros id d k ct Hd Hr. destruct (inv_named0 id d k ct Hd Hr) as (H1 & H2 & H3 & H4). repeat (split; [done|]). intros i. by rewrite <- He.
  - intros i. rewrite <- He. apply inv_copy0.
  - intros i j. rewrite <- !He. apply inv_distinct0.
  - intros i. rewrite <- He. apply inv_retired0.
Qed.
Lemma upd_upd owns i x y j : upd (upd owns i x) i y j = upd owns i y j.
Proof. unfold upd. by destruct (decide (j = i)). Qed.

Lemma inv_same owns s i : inv owns s -> inv (upd owns i (owns i)) s.
Proof.
  intros Hi. apply inv_set_own; [done|]. destruct (owns i) as [|k x|k] eqn:E; [done|..].
  - split; [eauto|]. by apply (inv_copy _ _ Hi i).
  - by apply (inv_retired _ _ Hi i).
Qed.

(** What a document names is no upload, no copy and not retired. *)
Lemma named_not_upload owns s k k' : inv owns s -> named s k -> upload_key k' -> k <> k'.
Proof.
  intros Hi (id & d & ct & Hd & Hr) (id' & u' & ->). destruct (inv_named _ _ Hi id d k ct Hd Hr) as ((u & _ & ->) & _).
  intros He. symmetry in He. by apply upload_not_file in He.
Qed.
Lemma copy_not_upload owns s i k x k' : inv owns s -> owns i = Copy k x -> upload_key k' -> k <> k'.
Proof.
  intros Hi Ho (id' & u' & ->). destruct (inv_copy _ _ Hi i k x Ho) as ((id & u & _ & _ & ->) & _).
  intros He. symmetry in He. by apply upload_not_file in He.
Qed.
Lemma named_not_copy owns s i k x k' : inv owns s -> named s k -> owns i = Copy k' x -> k <> k'.
Proof. intros Hi (id & d & ct & Hd & Hr) Ho ->. destruct (inv_named _ _ Hi id d k' ct Hd Hr) as (_ & _ & _ & H). by apply (H i x). Qed.
Lemma named_not_retired owns s k k' : inv owns s -> named s k -> DeleteObjectArgs k' ∈ db_jobs (sh_db s) -> k <> k'.
Proof. intros Hi (id & d & ct & Hd & Hr) Ho ->. by destruct (inv_named _ _ Hi id d k' ct Hd Hr) as (_ & _ & H & _). Qed.
Lemma copy_not_retired owns s i k x k' : inv owns s -> owns i = Copy k x -> DeleteObjectArgs k' ∈ db_jobs (sh_db s) -> k <> k'.
Proof. intros Hi Ho Hk ->. by destruct (inv_copy _ _ Hi i k' x Ho) as (_ & H & _). Qed.

(** Changing the object at one key that is none of these. *)
Lemma inv_set_key owns s key objs : inv owns s ->
  (forall k, k <> key -> objs !! k = sh_objects s !! k) -> (forall k, named s k -> k <> key) ->
  (forall i k o, owns i = Copy k (Some o) -> k <> key) -> inv owns (with_objects objs s).
Proof. intros Hi Ho Hn Hc. apply inv_set_objects; [done|]. intros k [Hk|(i & o & Hk)]; apply Ho; eauto. Qed.

(** A run works on its copy. *)
Lemma inv_write_copy owns s i key x objs : inv owns s -> owns i = Copy key x ->
  (forall k, k <> key -> objs !! k = sh_objects s !! k) ->
  inv (upd owns i (Copy key None)) (with_objects objs s) /\ (forall k, named s k -> objs !! k = sh_objects s !! k).
Proof.
  intros Hi Ho Hk.
  assert (Hi' : inv (upd owns i (Copy key None)) s) by (apply inv_set_own; [done|]; by split; [eauto|]).
  split; [|intros k Hn; by apply Hk, (named_not_copy owns s i k x)]. apply (inv_set_key _ _ key); [done..| |].
  - intros k Hn. by apply (named_not_copy owns s i k x).
  - intros j k o Hj ->. unfold upd in Hj. destruct (decide (j = i)) as [->|Hne]; [by apply Copy_inj in Hj as [_ ?]|].
    apply Hne. by apply (inv_distinct _ _ Hi j i key (Some o) x).
Qed.

(** Deleting an object a run may delete. *)
Lemma inv_delete {A} owns s i key (k : option S3.s3_error -> prog A) Q r : inv owns s -> wp (owns i) (Delete key k) Q ->
  exists x, wp x (k r) Q /\ inv (upd owns i x) (with_objects (delete key (sh_objects s)) s) /\
    (forall k, named s k -> delete key (sh_objects s) !! k = sh_objects s !! k).
Proof.
  intros Hi. assert (Hk : forall k, k <> key -> delete key (sh_objects s) !! k = sh_objects s !! k) by (intros ??; by apply lookup_delete_ne).
  intros [[Hu H]|[[Ho H]|[[x Ho] H]]].
  - exists (owns i). split; [done|]. split; [apply inv_same, (inv_set_key _ _ key); [done..| |]|].
    + intros k' Hn. by apply (named_not_upload owns s).
    + intros j k' o Hj. by apply (copy_not_upload owns s j k' (Some o)).
    + intros k' Hn. by apply Hk, (named_not_upload owns s).
  - pose proof (inv_retired _ _ Hi i key Ho) as Hj.
    exists (owns i). split; [done|]. split; [apply inv_same, (inv_set_key _ _ key); [done..| |]|].
    + intros k' Hn. by apply (named_not_retired owns s).
    + intros j k' o Hc. by apply (copy_not_retired owns s j k' (Some o)).
    + intros k' Hn. by apply Hk, (named_not_retired owns s).
  - exists (Copy key None). split; [done|]. by apply (inv_write_copy owns s i key x).
Qed.

Lemma call_step_ok {A} owns s i (p : prog A) s' p' Q : inv owns s -> wp (owns i) p Q -> call_step false s p s' p' ->
  exists x, wp x p' Q /\ inv (upd owns i x) s' /\ (forall k, named s k -> sh_objects s' !! k = sh_objects s !! k).
Proof.
  intros Hi Hw Hs. destruct Hs as [s key k o Ho|s key k o data what Ho Hp|s key k Hn|s key k what
    |s key body ct k He|s key body ct k what|s key body ct k what He|s key k|s key k what|s key k what
    |s id k u Hf|s id k c|s body k c db r Hb|s body k c db b Ha Hb]; try done.
  1-4, 12: by exists (owns i); split; [apply Hw|split; [by apply inv_same|done]].
  - destruct Hw as ([x Hx] & Hw & _). set (o := S3.mkObject _ _). specialize (Hw He).
    edestruct (inv_write_copy owns s i key x (<[key := o]> (sh_objects s))) as [H1 H2]; [done..|intros ??; by apply lookup_insert_ne|].
    eexists. split; [exact Hw|]. split; [|done]. apply (inv_ext _ _ _ (upd_upd owns i (Copy key None) _)).
    apply inv_set_own; [done|]. split; [by rewrite upd_eq; eauto|]. intros o' [= <-]. apply lookup_insert_eq.
  - destruct Hw as ([x Hx] & _ & Hw). exists (Copy key None). split; [done|]. split; [|done]. apply inv_set_own; [done|]. by split; [eauto|].
  - destruct Hw as ([x Hx] & _ & Hw). exists (Copy key None). split; [done|].
    apply (inv_write_copy owns s i key x); [done..|]. intros ??. by apply lookup_insert_ne.
  - by apply inv_delete.
  - destruct Hw as [[Hu H]|[[Ho H]|[[x Ho] H]]]; [exists (owns i)|exists (owns i)|exists (Copy key None)]; (split; [done|]); (split; [|done]);
      [by apply inv_same..|]. apply inv_set_own; [done|]. by split; [eauto|].
  - by apply inv_delete.
  - destruct Hw as [Hid Hw]. eexists. split; [apply Hw|]. split; [by apply inv_new_key|done].
  - destruct Hw as (id & key & v & -> & Hv). apply InTx_cases in Hb as [(e & -> & ->)|(b & -> & Hb)].
    { exists (owns i). destruct s. destruct Hv as [[_ H]|(u & obj & ct & _ & Ho & _ & H & _)]; (split; [apply H|]); (split; [|done]); by apply inv_same. }
    apply finish_tx_Ok in Hb as [(-> & -> & _)|(-> & before & Hd & _ & _ & ->)].
    { exists (owns i). destruct s. destruct Hv as [[_ H]|(u & obj & ct & _ & Ho & _ & _ & H & _)]; (split; [apply H|]); (split; [|done]); by apply inv_same. }
    destruct Hv as [[-> H]|(u & obj & ct & -> & Ho & Ha & _ & _ & H)].
    + exists (owns i). split; [apply H|]. split; [|done]. by apply inv_same, inv_reject.
    + exists Nothing. split; [apply H|]. split; [|done]. by eapply inv_accept.
Qed.

(** ** Requests *)

(** What a confirmed upload writes. *)
Definition attached (id : uuid) (key : string) (now pendingSince : Z) (before : Document) (takeover : bool) (db : database) : database :=
  let '(previousKey, previousType) := previous_file before takeover in
  mkDatabase (<[id := with_file key FileStatusPending "" (Some pendingSince) previousKey previousType before]> (db_documents db))
    (db_jobs db ++ [ValidateUploadArgs (uuid_String id) key validateUploadMaxAttempts])
    (db_audit db ++ [mkAuditEntry "http" "update" (uuid_String id) "document_attach_file" (Some before)
                       (Some (with_file key FileStatusPending "" (Some now) previousKey previousType before)) None]).

Lemma AttachFile_tx_Ok id key now c db after db' : AttachFile_tx id key now c db = inr (after, db') ->
  exists before takeover, db_documents db !! id = Some before /\ db' = attached id key now (cn_now c) before takeover db /\
    takeover = bool_decide (FileStatus before = FileStatusPending) /\
    (takeover = true -> exists t, FilePendingSince before = Some t /\ t < cn_now c - stalePendingAfter) /\
    db_documents db' !! id = Some (with_file key FileStatusPending "" (Some (cn_now c)) (previous_file before takeover).1 (previous_file before takeover).2 before).
Proof.
  intros (before & db1 & [-> Hd]%GetByIDForUpdate_Ok & H)%tx_bind_Ok.
  apply tx_bind_Ok in H as (takeover & db1 & Ht & H). exists before, takeover. split; [done|].
  assert (db1 = db /\ takeover = bool_decide (FileStatus before = FileStatusPending) /\
    (takeover = true -> exists t, FilePendingSince before = Some t /\ t < cn_now c - stalePendingAfter)) as (-> & Htk & Hst).
  { destruct (bool_decide_reflect (FileStatus before = FileStatusPending)); [|by injection Ht as <- <-].
    apply tx_bind_Ok in Ht as (stale & db2 & Hs & Ht). apply exec_Ok in Hs. rewrite Hd in Hs. injection Hs as <- <-.
    destruct (FilePendingSince before) as [t|]; [|done]. destruct (Z.ltb_spec t (cn_now c - stalePendingAfter)); [|done].
    injection Ht as <- <-. eauto. }
  unfold attached. destruct (previous_file before takeover) as [pk pt] eqn:Hp. cbn.
  apply tx_bind_Ok in H as ([] & db2 & H1 & H). apply exec_Ok in H1. rewrite Hd in H1. injection H1 as <-.
  apply tx_bind_Ok in H as ([] & db3 & H2 & H). apply exec_Ok in H2. injection H2 as <-.
  apply tx_bind_Ok in H as ([] & db4 & H3 & H). apply exec_Ok in H3. injection H3 as <-. injection H as _ <-.
  repeat (split; [done|]). by apply lookup_insert_eq.
Qed.

Lemma AttachFile_cases p body now c db db' r : AttachFile uuid_parse p body now c db = (db', r) ->
  db' = db \/ exists id key after, issued_key uuid_parse id key = true /\ AttachFile_tx id key now c db = inr (after, db').
Proof.
  unfold AttachFile. destruct body as [f|key]; [intros [= <- _]; by left|].
  destruct (UUIDParam _ _ _ _) as [v [id|]]; [|intros [= <- _]; by left].
  destruct (issued_key uuid_parse id key) eqn:Hk; cbn [negb]; [|intros [= <- _]; by left].
  destruct (InTx _ c db) as [db1 r1] eqn:Ht. apply InTx_cases in Ht as [(e & -> & ->)|(after & -> & Ht)].
  - destruct e; intros [= <- _]; by left.
  - intros [= <- _]. right. by exists id, key, after.
Qed.

(** A file that stays is one the document named. *)
Lemma previous_refers before takeover k ct : k <> "" -> previous_file before takeover = (k, ct) -> refers before k ct.
Proof.
  unfold previous_file. intros Hk. destruct (bool_decide_reflect (FileStatus before = FileStatusReady)); cbn.
  - destruct (bool_decide_reflect (StorageKey before = "")); cbn; [|intros [= <- <-]; by left].
    destruct takeover; intros [= <- <-]; [by right|done].
  - destruct takeover; intros [= <- <-]; [by right|done].
Qed.

Lemma inv_attach owns s p body now c db r : inv owns s -> AttachFile uuid_parse p body now c (sh_db s) = (db, r) -> inv owns (with_db db s).
Proof.
  intros Hi [->|(id & key & after & Hk & Ht)]%AttachFile_cases; [by destruct s|].
  apply AttachFile_tx_Ok in Ht as (before & takeover & Hd & -> & _). unfold attached.
  destruct (previous_file before takeover) as [pk pt] eqn:Hp. apply inv_set_db; [done|..]; cbn.
  - intros id' d [[<- _]|[_ Hd']]%lookup_insert_Some; by eapply (inv_ids _ _ Hi).
  - intros id' d k ct [[<- <-]|[_ Hd']]%lookup_insert_Some Hr; [|eauto]. exists before. split; [done|].
    destruct Hr as [(H1 & _)|(H1 & H2 & H3)]; [done|]. cbn in H2, H3. subst. by eapply previous_refers.
  - intros j [Hj|Hj]%elem_of_app; [by left|]. apply list_elem_of_singleton in Hj as ->. right. by apply (issued_upload_key uuid_parse id).
  - intros j Hj. apply elem_of_app. by left.
Qed.

Lemma inv_create owns s d c db : inv owns s -> unused (ID d) s -> FileStatus d = FileStatusNone ->
  Create d c (sh_db s) = inr (tt, db) -> inv owns (with_db db s).
Proof.
  intros Hi [_ Hf] Hs Hc%exec_Ok. destruct (_ || _); [done|]. injection Hc as <-. apply inv_set_db; [done|..]; cbn.
  - intros id' d' [[<- _]|[_ Hd']]%lookup_insert_Some; [done|by eapply (inv_ids _ _ Hi)].
  - intros id' d' k ct [[<- <-]|[_ Hd']]%lookup_insert_Some Hr; [|eauto]. exfalso.
    destruct Hr as [(H1 & _)|(H1 & H2 & _)]; cbn in *; [by rewrite Hs in H1|done].
  - by left.
  - done.
Qed.

Lemma inv_remove owns s id c db : inv owns s -> Delete_ id c (sh_db s) = inr (tt, db) -> inv owns (with_db db s).
Proof.
  intros Hi Hc%exec_Ok. injection Hc as <-. apply inv_set_db; [done|..]; cbn; [..|by left|done].
  - intros id' d' [_ Hd']%lookup_delete_Some. by eapply (inv_ids _ _ Hi).
  - intros id' d' k ct [_ Hd']%lookup_delete_Some Hr. eauto.
Qed.

Lemma inv_draw owns s g u : inv owns s -> unused u s -> (forall x, x ∈ g -> upload_key (gr_key x)) ->
  inv owns (mkShared (sh_db s) (sh_objects s) (g ++ sh_grants s) (u :: sh_drawn s)).
Proof.
  intros [] [_ Hu] Hg. assert (Hr : forall v, v ∈ sh_drawn s -> v ∈ u :: sh_drawn s) by (intros; by right).
  constructor; cbn; try done.
  - intros v [->|Hv]%elem_of_cons; eauto.
  - intros id d k ct Hd Hrf. destruct (inv_named0 id d k ct Hd Hrf) as ((v & Hv & ->) & H). split; [eauto|done].
  - intros i k x Hi. destruct (inv_copy0 i k x Hi) as ((id & v & Hv & H1) & H2). split; [eauto|done].
  - intros k (id & v & Hv & H1)%inv_deletes0. eauto.
  - intros g' [Hg'|Hg']%elem_of_app; eauto.
Qed.

Lemma UploadURL_key PresignedPutURL p body u signedAt c db g r :
  UploadURL uuid_parse PresignedPutURL p body u signedAt c db = (Some g, r) ->
  upload_key (gr_key g) /\ gr_contentType g ∈ allowedUploadTypes /\ 1 <= gr_size g <= maxUploadBytes.
Proof.
  unfold UploadURL. destruct body as [f|[ct size]]; [done|]. destruct (UUIDParam _ _ _ _) as [v [id|]]; [|done].
  destruct (bool_decide_reflect (ct ∈ allowedUploadTypes)); cbn [negb]; [|done].
  destruct (Z.ltb_spec size 1), (Z.ltb_spec maxUploadBytes size); cbn [orb]; try done.
  destruct (GetByID id c db) as [?|[doc db']]; [done|]. destruct (PresignedPutURL _ _ _ _) as [?|url]; [done|].
  intros [= <- _]. cbn. split; [eexists _, _; done|]. split; [done|lia].
Qed.

(** ** Every step *)

Definition sys_inv (w : system) : Prop := exists owns, inv owns (sy_shared w) /\ forall i p, sy_runs w !! i = Some p -> safe (owns i) p.

Context (PresignedPutURL : string -> text -> Z -> list (option Z) -> S3.s3_error + text).
Abbreviation step := (sys_step uuid_parse DetectContentType mediaType PresignedPutURL).
Hypothesis parse_bounded : forall t u, uuid_parse t = Some u -> (u < 2 ^ 128)%N.

(** A run is added. *)
Lemma add_run (runs : list (prog (option job_error))) owns s p x : inv owns s -> (forall i p, runs !! i = Some p -> safe (owns i) p) -> safe x p ->
  match x with Nothing => True | Copy _ _ => False | Retired k => DeleteObjectArgs k ∈ db_jobs (sh_db s) end ->
  sys_inv (mkSystem s (runs ++ [p])).
Proof.
  intros Hi Hr Hp Hx. exists (upd owns (length runs) x). split; [apply inv_set_own; [done|by destruct x]|]. cbn. intros i q Hq.
  apply lookup_app_Some in Hq as [Hq|[Hl Hq]].
  - rewrite upd_ne; [eauto|]. apply lookup_lt_Some in Hq. lia.
  - apply list_lookup_singleton_Some in Hq as [Hl' <-]. replace i with (length runs) by lia. by rewrite upd_eq.
Qed.

Lemma sys_step_ok w w' : sys_inv w -> step false w w' ->
  sys_inv w' /\ (forall k, named (sy_shared w) k -> sh_objects (sy_shared w') !! k = sh_objects (sy_shared w) !! k).
Proof.
  intros (owns & Hi & Hr) Hs. destruct Hs as [s runs i p s' p' Hp Hc|s runs i|s runs documentID key n attempt Hj|s runs key Hj
    |s runs g body Hg Hl|s runs p body u signedAt c g r Hf Hu|s runs p body now c db r Ha|s runs d c db Hf Hst Hk Hc|s runs id c db Hc]; cbn in *.
  - destruct (call_step_ok owns s i p s' p' _ Hi (Hr i p Hp) Hc) as (x & Hw & Hi' & Ho). split; [|done].
    exists (upd owns i x). split; [done|]. cbn. intros j q [[-> [<- _]]|[Hne Hq]]%list_lookup_insert_Some; [by rewrite upd_eq|].
    rewrite upd_ne by done. eauto.
  - split; [|done]. exists owns. split; [done|]. cbn. intros j q [[-> [<- _]]|[Hne Hq]]%list_lookup_insert_Some; [done|eauto].
  - split; [|done]. apply (add_run runs owns s _ Nothing); [done..| |done]. apply ValidateUpload_safe; [done|]. by eapply (inv_validates _ _ Hi).
  - split; [|done]. apply (add_run runs owns s _ (Retired key)); [done..|apply DeleteObject_safe|done].
  - pose proof (inv_grants _ _ Hi g Hg) as Hu. split; [|intros k Hn; apply lookup_insert_ne; intros <-; by apply (named_not_upload owns s _ _ Hi Hn Hu)].
    exists owns. split; [|done]. apply (inv_set_key _ _ (gr_key g)); [done|intros; by apply lookup_insert_ne|..].
    + intros k Hn. by apply (named_not_upload owns s).
    + intros i k o Ho. by apply (copy_not_upload owns s i k (Some o)).
  - split; [|done]. exists owns. split; [|done]. apply (inv_draw owns s [g] u); [done..|]. intros g' ->%list_elem_of_singleton. by eapply UploadURL_key.
  - split; [|done]. exists owns. split; [by eapply inv_attach|done].
  - split; [|done]. exists owns. split; [|done]. apply (inv_draw owns (with_db db s) [] (ID d)); [by eapply inv_create|done|].
    intros g' Hg%elem_of_nil. done.
  - split; [|done]. exists owns. split; [by eapply inv_remove|done].
Qed.

Lemma initial_inv : sys_inv initial.
Proof.
  exists (fun _ => Nothing). split; [|by intros i p Hp]. constructor; cbn; try done; try (intros; by match goal with H : _ ∈ [] |- _ => apply elem_of_nil in H end).
Qed.

Lemma reachable_inv w : reachable uuid_parse DetectContentType mediaType PresignedPutURL false w -> sys_inv w.
Proof.
  unfold reachable. intros H. remember initial as w0 eqn:E. assert (Hi : sys_inv w0) by (subst; apply initial_inv). clear E.
  induction H as [|w0 w1 w2 Hs _ IH]; [done|]. by apply IH, (sys_step_ok w0).
Qed.

End Invariant.
