(* ===== verification/UploadTheorems.v ===== *)
(** What the upload flow guarantees: a document's file is there, was inspected and cannot be
    changed, however requests, jobs, retries and failures interleave; and what one run of
    the validation makes of a document. *)

From stdpp Require Import base gmap list strings.
From Stdlib Require Import ZArith Lia Ascii.
From S2P Require Import Prelude GoStrings GoText Model Action ActionFacts Middleware Requests Storage ApiStore Uploads UploadFacts.

Open Scope string_scope.
Open Scope list_scope.
Open Scope Z_scope.

Lemma tauto_if {A} (b : bool) (x : A) : (if b then x else x) = x.
Proof. by destruct b. Qed.

Lemma download_refers d k ct : download_file d = Some (k, ct) -> refers d k ct.
Proof.
  unfold download_file. destruct (bool_decide_reflect (FileStatus d = FileStatusReady)); [intros [= <- <-]; by left|].
  destruct (bool_decide_reflect (FileStatus d = FileStatusPending)); cbn; [|done].
  destruct (bool_decide_reflect (PreviousStorageKey d = "")); cbn; [done|]. intros [= <- <-]. by right.
Qed.
Lemma ready_downloads k ct since pk pt d : is_Some (download_file (with_file k FileStatusReady ct since pk pt d)).
Proof. unfold download_file. cbn. by rewrite bool_decide_eq_true_2. Qed.
Lemma pending_downloads k ct since pk pt d : pk <> "" -> is_Some (download_file (with_file k FileStatusPending ct since pk pt d)).
Proof. intros H. unfold download_file. cbn. rewrite (bool_decide_eq_false_2 (pk = "")) by done. done. Qed.

Section Flow.
Context (uuid_parse : text -> option uuid) (DetectContentType mediaType : text -> text).
Context (PresignedPutURL : string -> text -> Z -> list (option Z) -> S3.s3_error + text).
Hypothesis parse_bounded : forall t u, uuid_parse t = Some u -> (u < 2 ^ 128)%N.
Abbreviation step := (sys_step uuid_parse DetectContentType mediaType PresignedPutURL false).
Abbreviation reachable := (reachable uuid_parse DetectContentType mediaType PresignedPutURL false).
Abbreviation inv := (inv DetectContentType mediaType).
Abbreviation sniffs := (fun body => SniffContentType DetectContentType mediaType (mkReader body None) allowedUploadTypes).

(** A verdict leaves a document that had a file with one. *)
Lemma verdict_keeps_file owns s id before v : inv owns s -> db_documents (sh_db s) !! id = Some before -> FileStatus before = FileStatusPending ->
  v = rejectVerdict before \/ vd_status v = FileStatusReady -> is_Some (download_file before) ->
  is_Some (download_file (with_file (vd_storageKey v) (vd_status v) (vd_contentType v) None "" "" before)).
Proof.
  intros Hi Hd Hp [->| ->] Hs; [|apply ready_downloads]. unfold rejectVerdict. unfold download_file in Hs.
  rewrite Hp in Hs. cbn in Hs. destruct (bool_decide_reflect (PreviousStorageKey before = "")); cbn in *; [by destruct Hs|apply ready_downloads].
Qed.

Lemma step_keeps_file owns w w' id d d' : inv owns (sy_shared w) -> (forall i p, sy_runs w !! i = Some p -> wp DetectContentType mediaType (owns i) p (fun _ _ => True)) ->
  step w w' -> db_documents (sh_db (sy_shared w)) !! id = Some d -> db_documents (sh_db (sy_shared w')) !! id = Some d' ->
  is_Some (download_file d) -> is_Some (download_file d').
Proof.
  intros Hi Hr Hs Hd Hd' Hf.
  destruct Hs as [s runs i p s' p' Hp Hc|s runs i|s runs documentID key n attempt Hj|s runs key Hj
    |s runs g body Hg Hl|s runs p body u signedAt c g r Hfr Hu|s runs p body now c db r Ha|s runs e c db Hfr Hst Hk Hc|s runs id' c db Hc]; cbn in *; try congruence.
  - specialize (Hr i p Hp). destruct Hc; cbn in Hd'; try congruence.
    destruct Hr as (id1 & key & v & -> & Hv). apply InTx_cases in H as [(e & -> & ->)|(b & -> & Hb)]; [congruence|].
    apply finish_tx_Ok in Hb as [(-> & -> & _)|(-> & before & Hb & Hk & Hst & ->)]; [congruence|]. unfold resolved in Hd'. cbn in Hd'.
    apply lookup_insert_Some in Hd' as [[-> <-]|[_ Hd']]; [|congruence]. assert (before = d) as -> by congruence.
    apply (verdict_keeps_file owns s id); [done..| |done]. destruct Hv as [[-> _]|(u & obj & ct & -> & _)]; [by left|by right].
  - apply AttachFile_cases in Ha as [->|(id1 & key & after & Hk & Ht)]; [congruence|].
    destruct (AttachFile_tx_Ok _ _ _ _ _ _ _ Ht) as (before & takeover & Hb & Hdb & Htk & _ & Hn).
    destruct (decide (id1 = id)) as [->|Hne].
    + rewrite Hn in Hd'. injection Hd' as <-. assert (before = d) as -> by congruence. apply pending_downloads.
      destruct Hf as [[k ct] Hf]. unfold previous_file. unfold download_file in Hf.
      destruct (bool_decide_reflect (FileStatus d = FileStatusReady)) as [Hs|Hs]; cbn in Hf |- *.
      * destruct (inv_named _ _ _ _ Hi id d (StorageKey d) (FileContentType d) Hd) as ((u & _ & Hu) & _); [by left|].
        rewrite bool_decide_eq_false_2; cbn; rewrite Hu; apply newFileKey_nonempty.
      * rewrite Htk. destruct (bool_decide (FileStatus d = FileStatusPending)); [|done]. cbn in Hf.
        by destruct (bool_decide_reflect (PreviousStorageKey d = "")).
    + rewrite Hdb in Hd'. unfold attached in Hd'. destruct (previous_file before takeover). cbn in Hd'. rewrite lookup_insert_ne in Hd' by done. congruence.
  - apply exec_Ok in Hc. destruct (_ || _) eqn:Hx; [done|]. injection Hc as <-. cbn in Hd'.
    apply lookup_insert_Some in Hd' as [[<- _]|[_ Hd']]; [|congruence]. rewrite Hd in Hx. by rewrite bool_decide_eq_true_2 in Hx.
  - apply exec_Ok in Hc. injection Hc as <-. cbn in Hd'. apply lookup_delete_Some in Hd' as [_ Hd']. congruence.
Qed.


(** ** One run *)


Lemma ends_Ret {A amb} s (a : A) s' b : ends amb s (Ret a) s' b -> s' = s /\ b = a.
Proof. inversion 1 as [|? ? ? ? ? ? Hc]; subst; [done|inversion Hc]. Qed.

Lemma ends_bind {A B amb} (p : prog A) (f : A -> prog B) s s' b : ends amb s (bind p f) s' b -> exists s1 a, ends amb s p s1 a /\ ends amb s1 (f a) s' b.
Proof.
  revert s. induction p as [a|key k IH|key body ct k IH|key k IH|id k IH|id k IH|body k IH]; intros s H; cbn in H.
  1: exists s, a; split; [constructor|done].
  all: inversion H as [|? ? ? ? ? ? Hc He]; subst; inversion Hc; subst; cbn in He; apply IH in He as (s2 & a & H1 & H2);
    exists s2, a; (split; [|done]); (eapply ends_call; [|exact H1]); by econstructor.
Qed.

(** A program that does not write the database. *)
Lemma ends_removed {amb} what key p s s' r : ends amb s (removed what key p) s' r ->
  exists s1, sh_db s1 = sh_db s /\ (ends amb s1 p s' r \/ (s' = s1 /\ exists e, r = Some (JStorage what key e))).
Proof.
  unfold removed. inversion 1 as [|? ? s1 ? ? ? Hc He]; subst. exists s1. inversion Hc; subst; cbn in He; (split; [done|]); [by left|..];
    apply ends_Ret in He as [-> ->]; eauto.
Qed.
Lemma ends_cleanup {amb} id key s s' r : ends amb s (cleanup id key) s' r -> sh_db s' = sh_db s.
Proof.
  assert (Hrm : forall s1, ends amb s1 (removed "delete upload" key (Ret None)) s' r -> sh_db s' = sh_db s1).
  { intros s1 (s2 & <- & [[-> _]%ends_Ret|[-> _]])%ends_removed; done. }
  unfold cleanup. inversion 1 as [|? ? s1 ? ? ? Hc He]; subst. inversion Hc; subst.
  destruct (match GetByID _ _ _ with inl e => inl e | inr (d, _) => inr d end) as [[]|d]; [auto|by apply ends_Ret in He as [-> _]..|].
  destruct (_ && _); [by apply ends_Ret in He as [-> _]|auto].
Qed.

(** A verdict that is recorded, or found recorded, leaves the document not waiting. *)
Lemma ends_finish {amb} id key bv s s' r : (forall before, vd_status (bv before) <> FileStatusPending) -> ends amb s (finish id key bv) s' r ->
  (exists e, r = inl e /\ forall a b, e <> JJoin a b) \/ (exists b, r = inr b /\ ~ waiting id key (sh_db s')).
Proof.
  intros Hv. unfold finish. inversion 1 as [|? ? s1 ? ? ? Hc He]; subst. inversion Hc as [| | | | | | | | | | | |? ? ? c db r1 Ht|]; subst; apply ends_Ret in He as [-> ->].
  - apply InTx_cases in Ht as [(e & -> & ->)|(b & -> & Hb)]; [left; eexists; split; [done|]; done|]. right. eexists. split; [done|].
    apply finish_tx_Ok in Hb as [(-> & -> & Hn)|(-> & before & Hd & Hk & Hp & ->)]; [done|].
    intros (d & Hd' & Hp' & _). unfold resolved in Hd'. cbn in Hd'. rewrite lookup_insert_eq in Hd'. injection Hd' as <-. by apply (Hv before).
  - left. eexists. split; [done|]. done.
Qed.
Lemma reject_status before : vd_status (rejectVerdict before) <> FileStatusPending.
Proof. unfold rejectVerdict. by destruct (bool_decide _). Qed.

Lemma ends_reject {amb} id key s s' r : ends amb s (reject id key) s' r -> (exists e, r = Some e /\ forall a b, e <> JJoin a b) \/ ~ waiting id key (sh_db s').
Proof.
  intros (s1 & x & Hf & He)%ends_bind. apply ends_finish in Hf as [(e & -> & Hj)|(b & -> & Hw)]; [|..|exact reject_status].
  - apply ends_Ret in He as [-> ->]. eauto.
  - right. by rewrite (ends_cleanup _ _ _ _ _ He).
Qed.

Lemma ends_accept {amb} id key finalKey ct s s' r : ends amb s
    (let* applied := finish id key (acceptVerdict finalKey ct) in
     match applied with
     | inl e => let* _ := deleteCopyUnlessReferenced id finalKey in Ret (Some e)
     | inr true => cleanup id key
     | inr false => removed "delete unused copy" finalKey (cleanup id key)
     end) s' r -> r = None -> ~ waiting id key (sh_db s').
Proof.
  intros (s1 & x & Hf & He)%ends_bind ->. apply ends_finish in Hf as [(e & -> & _)|([] & -> & Hw)]; [..|done].
  - by apply ends_bind in He as (s2 & [] & _ & [_ ?]%ends_Ret).
  - by rewrite (ends_cleanup _ _ _ _ _ He).
  - apply ends_removed in He as (s2 & Hs & [He|[-> [e ?]]]); [|done]. rewrite <- Hs in Hw. by rewrite (ends_cleanup _ _ _ _ _ He).
Qed.

Lemma ends_decide {amb} id key s s' r : ends amb s (decide_upload DetectContentType mediaType id key) s' r -> r = None -> ~ waiting id key (sh_db s').
Proof.
  assert (Hrej : forall s1 s2, ends amb s1 (reject id key) s2 None -> ~ waiting id key (sh_db s2)).
  { by intros s1 s2 [(e & ? & _)|?]%ends_reject. }
  assert (Hcontent : forall content s1, ends amb s1
    match SniffContentType DetectContentType mediaType content allowedUploadTypes with
    | SniffError what => Ret (Some (JSniff key what))
    | SniffRefused _ => removed "delete" key (reject id key)
    | SniffOk contentType body => NewFileKey id (fun finalKey => Upload finalKey body contentType (fun copied =>
        match copied with
        | Some e => Ret (Some (JStorage "copy" key e))
        | None => let* applied := finish id key (acceptVerdict finalKey (string_of contentType)) in
                  match applied with
                  | inl e => let* _ := deleteCopyUnlessReferenced id finalKey in Ret (Some e)
                  | inr true => cleanup id key
                  | inr false => removed "delete unused copy" finalKey (cleanup id key)
                  end
        end)) end s' None -> ~ waiting id key (sh_db s')).
  { intros content s1. destruct (SniffContentType _ _ _ _) as [what|t|t body]; [by intros [_ ?]%ends_Ret|..].
    - intros (s2 & _ & [He|[_ [e ?]]])%ends_removed; [by eapply Hrej|done].
    - inversion 1 as [|? ? s2 ? ? ? Hc He]; subst. inversion Hc; subst. inversion He as [|? ? s3 ? ? ? Hc' He']; subst.
      inversion Hc'; subst; [exact (ends_accept _ _ _ _ _ _ _ He' eq_refl)|by apply ends_Ret in He' as [_ ?]..]. }
  intros Hd ->. unfold decide_upload in Hd. inversion Hd as [|? ? s1 ? ? ? Hc He]; subst.
  inversion Hc; subst; [exact (Hcontent _ _ He)..|exact (Hrej _ _ He)|by apply ends_Ret in He as [_ ?]].
Qed.

(** Whatever fails of the store and of the database, a run of the validation that returns
    without an error, or that was the last attempt and could record its verdict, does not
    leave the document waiting for that upload. *)
Theorem validation_resolves amb s documentID id key attempt maxAttempts s' r : uuid_parse (bytes_of documentID) = Some id ->
  ends amb s (ValidateUpload_Work uuid_parse DetectContentType mediaType documentID key attempt maxAttempts) s' r ->
  r = None \/ (maxAttempts <= attempt /\ forall cause e, r <> Some (JJoin cause e)) -> ~ waiting id key (sh_db s').
Proof.
  intros Hp. unfold ValidateUpload_Work. rewrite Hp. intros (s1 & err & Hd & He)%ends_bind Hr.
  pose proof (ends_decide _ _ _ _ _ Hd) as Hdecide.
  destruct err as [cause|]; [|apply ends_Ret in He as [-> _]; auto].
  destruct (Z.ltb_spec attempt maxAttempts).
  { apply ends_Ret in He as [-> ->]. destruct Hr as [?|[? _]]; [done|lia]. }
  unfold giveUp in He. inversion He as [|? ? s2 p2 ? ? Hc He']; subst.
  assert (exists x, p2 = (let* r0 := finish id key rejectVerdict in match r0 with inl e => Ret (Some (JJoin cause e)) | inr _ => let* _ := cleanup id key in Ret (Some cause) end) /\ x = tt) as (_ & -> & _)
    by (inversion Hc; subst; eexists; by split).
  apply ends_bind in He' as (s3 & x & Hf & He3). apply ends_finish in Hf as [(e & -> & _)|(b & -> & Hw)]; [|..|exact reject_status].
  - apply ends_Ret in He3 as [_ ->]. destruct Hr as [?|[_ Hj]]; [done|]. by destruct (Hj cause e).
  - apply ends_bind in He3 as (s4 & y & Hcl & [-> _]%ends_Ret). by rewrite (ends_cleanup _ _ _ _ _ Hcl).
Qed.

(** ** A run on its own *)

Definition quiet (c : conn) : Prop := forall st, cn_fails c st = false.

Lemma exec_quiet {A} st (f : Z -> database -> store_error + (A * database)) c db : quiet c -> exec st f c db = f (cn_now c) db.
Proof. intros Hq. unfold exec. by rewrite Hq. Qed.

(** Recording a verdict when nothing fails. *)
Lemma InTx_finish c db id key bv before : quiet c -> db_documents db !! id = Some before -> file_status_check (vd_status (bv before)) = true ->
  InTx (finish_tx id key bv) c db
  = if bool_decide (StorageKey before = key) && bool_decide (FileStatus before = FileStatusPending)
    then (resolved id (bv before) before db, inr true) else (db, inr false).
Proof.
  intros Hq Hd Hs. unfold InTx, finish_tx, GetByIDForUpdate, ResolveUpload, tx_bind. rewrite !Hq, exec_quiet by done.
  unfold select. rewrite Hd, exec_quiet by done. rewrite Hd. destruct (_ && _); [|done]. rewrite Hs. unfold EnqueueTx, Record_, resolved.
  destruct (_ && _); [rewrite exec_quiet by done|]; cbv beta iota delta [tx_ret]; rewrite exec_quiet by done; [done|].
  cbn. by rewrite app_nil_r.
Qed.
Lemma reject_checked before : file_status_check (vd_status (rejectVerdict before)) = true.
Proof. unfold rejectVerdict. by destruct (bool_decide _). Qed.

(** What is left of an upload the document does not wait for. *)
Lemma run_cleanup c u s id key before : quiet c -> db_documents (sh_db s) !! id = Some before ->
  bool_decide (FileStatus before = FileStatusPending) && bool_decide (StorageKey before = key) = false ->
  run c u s (cleanup id key) = (with_objects (delete key (sh_objects s)) s, None).
Proof. intros Hq Hd Hp. cbn. unfold GetByID. rewrite exec_quiet by done. unfold select. rewrite Hd, Hp. done. Qed.

Lemma run_bind {A B} (p : prog A) (f : A -> prog B) : forall c u s, run c u s (bind p f) = let '(s1, a) := run c u s p in run c u s1 (f a).
Proof.
  induction p as [a|key k IH|key body ct k IH|key k IH|id k IH|id k IH|body k IH]; intros c u s; cbn; auto.
  - destruct (rd_error body); apply IH.
  - destruct (InTx body c (sh_db s)). apply IH.
Qed.

(** The object an upload left, if it may become the document's file: its type and content. *)
Definition allowed_upload (s : shared) (key : string) : option (text * text) :=
  match sh_objects s !! key with
  | Some o => match sniffs (S3.ob_body o) with SniffOk t _ => Some (t, S3.ob_body o) | _ => None end
  | None => None
  end.

(** The verdict a run reaches, [finalKey] being the key it would copy to. *)
Definition verdict_of (s : shared) (key finalKey : string) (before : Document) : verdict :=
  match allowed_upload s key with
  | Some (t, _) => acceptVerdict finalKey (string_of t) before
  | None => rejectVerdict before
  end.

(** A rejection, after the object may have been deleted. *)
Lemma run_reject c u s id key before : quiet c -> db_documents (sh_db s) !! id = Some before ->
  FileStatus before = FileStatusPending -> StorageKey before = key ->
  run c u s (reject id key) = (with_objects (delete key (sh_objects s)) (with_db (resolved id (rejectVerdict before) before (sh_db s)) s), None).
Proof.
  intros Hq Hd Hp Hk. unfold reject. rewrite run_bind. cbn [run finish].
  rewrite (InTx_finish c (sh_db s) id key _ before), !bool_decide_eq_true_2 by (done || apply reject_checked). cbn [andb].
  erewrite run_cleanup; [done|done|unfold resolved; cbn; apply lookup_insert_eq|].
  apply andb_false_iff. left. apply bool_decide_eq_false. apply reject_status.
Qed.

(** C29: when nothing fails, a run of the validation on a document that waits for the upload
    decides it: an object whose content is of an allowed type is copied whole to a new key
    the document then serves with the type found, and the file it replaces is handed to a
    deletion; anything else, or nothing, puts the document back on the file it had, or marks
    it rejected.  The upload itself is gone, one audit entry tells the change, and every
    other object is as it was. *)
Theorem upload_decided c u s documentID id key attempt maxAttempts before :
  quiet c -> uuid_parse (bytes_of documentID) = Some id -> upload_key key ->
  db_documents (sh_db s) !! id = Some before -> FileStatus before = FileStatusPending -> StorageKey before = key ->
  let '(s', r) := run c u s (ValidateUpload_Work uuid_parse DetectContentType mediaType documentID key attempt maxAttempts) in
  let finalKey := newFileKey id u in
  r = None /\ sh_db s' = resolved id (verdict_of s key finalKey before) before (sh_db s) /\
  sh_objects s' !! key = None /\
  (forall t body, allowed_upload s key = Some (t, body) -> sh_objects s' !! finalKey = Some (S3.mkObject body (Some t))) /\
  (forall k, k <> key -> (allowed_upload s key = None \/ k <> finalKey) -> sh_objects s' !! k = sh_objects s !! k).
Proof.
  intros Hq Hp [id0 [u0 Hu]] Hd Hst Hk.
  assert (Hne : newFileKey id u <> key) by (rewrite Hu; intros E; symmetry in E; by apply upload_not_file in E).
  assert (Hrej : forall s1, sh_db s1 = sh_db s -> run c u s1 (reject id key)
    = (with_objects (delete key (sh_objects s1)) (with_db (resolved id (rejectVerdict before) before (sh_db s)) s1), None)).
  { intros s1 Hs. rewrite <- Hs in Hd |- *. by apply run_reject. }
  unfold ValidateUpload_Work. rewrite Hp, run_bind. unfold verdict_of, allowed_upload. cbn [decide_upload run].
  destruct (sh_objects s !! key) as [o|] eqn:Ho.
  2:{ rewrite Hrej by done. cbn. repeat (split; [done|]). split; [apply lookup_delete_eq|]. split; [done|].
      intros k Hkk _. by apply lookup_delete_ne. }
  destruct (SniffContentType _ _ _ _) as [what|t|t body] eqn:Hs.
  - exfalso. unfold SniffContentType in Hs. cbn [rd_error] in Hs.
    rewrite (tauto_if (length (rd_data (mkReader (S3.ob_body o) None)) <? sniffLen)%nat) in Hs. by destruct (existsb _ _).
  - cbn [run removed]. rewrite Hrej by done. cbn. repeat (split; [done|]). split; [apply lookup_delete_eq|]. split; [done|].
    intros k Hkk _. by rewrite !lookup_delete_ne.
  - assert (body = mkReader (S3.ob_body o) None) as ->.
    { unfold SniffContentType in Hs. cbn [rd_error rd_data] in Hs. rewrite tauto_if, take_drop in Hs.
      destruct (existsb _ _); [by injection Hs|done]. }
    cbn [run rd_error rd_data]. set (s1 := with_objects _ _). rewrite run_bind. cbn [run finish].
    change (sh_db s1) with (sh_db s). rewrite (InTx_finish c (sh_db s) id key _ before), !bool_decide_eq_true_2 by done. cbn [andb].
    erewrite run_cleanup; [|done|unfold resolved; cbn; apply lookup_insert_eq|].
    2:{ apply andb_false_iff. left. by apply bool_decide_eq_false. }
    cbn. split; [done|]. split; [done|]. split; [apply lookup_delete_eq|]. split.
    + intros t' body' [= <- <-]. rewrite lookup_delete_ne by done. apply lookup_insert_eq.
    + intros k Hkk [?|Hkf]; [done|]. by rewrite lookup_delete_ne, lookup_insert_ne.
Qed.

(** Running it again changes nothing of the database: no second verdict, deletion or entry. *)
Theorem validation_idempotent c u s documentID id key attempt maxAttempts before :
  quiet c -> uuid_parse (bytes_of documentID) = Some id -> db_documents (sh_db s) !! id = Some before ->
  ~ waiting id key (sh_db s) ->
  let '(s', r) := run c u s (ValidateUpload_Work uuid_parse DetectContentType mediaType documentID key attempt maxAttempts) in
  r = None /\ sh_db s' = sh_db s /\ sh_objects s' !! key = None.
Proof.
  intros Hq Hp Hd Hw.
  assert (Hb : bool_decide (StorageKey before = key) && bool_decide (FileStatus before = FileStatusPending) = false).
  { apply not_true_is_false. intros [Hk%bool_decide_eq_true Hs%bool_decide_eq_true]%andb_true_iff. apply Hw. by exists before. }
  assert (Hcl : forall s1, sh_db s1 = sh_db s -> run c u s1 (cleanup id key) = (with_objects (delete key (sh_objects s1)) s1, None)).
  { intros s1 Hs. apply (run_cleanup c u s1 id key before); [done|by rewrite Hs|by rewrite andb_comm]. }
  assert (Hrej : forall s1, sh_db s1 = sh_db s -> run c u s1 (reject id key) = (with_objects (delete key (sh_objects s1)) s1, None)).
  { intros s1 Hs. unfold reject. rewrite run_bind. cbn [run finish]. rewrite Hs.
    rewrite (InTx_finish c (sh_db s) id key _ before), Hb by (done || apply reject_checked). destruct s1. cbn in Hs. subst. by rewrite Hcl. }
  unfold ValidateUpload_Work. rewrite Hp, run_bind. cbn [decide_upload run].
  destruct (sh_objects s !! key) as [o|]; [|rewrite Hrej by done; cbn; by rewrite lookup_delete_eq].
  destruct (SniffContentType _ _ _ _) as [what|t|t body] eqn:Hs.
  - exfalso. unfold SniffContentType in Hs. cbn [rd_error rd_data] in Hs. rewrite tauto_if in Hs. by destruct (existsb _ _).
  - cbn [run removed]. rewrite Hrej by done. cbn. by rewrite lookup_delete_eq.
  - assert (rd_error body = None) as He.
    { unfold SniffContentType in Hs. cbn [rd_error rd_data] in Hs. rewrite tauto_if in Hs. destruct (existsb _ _); [by injection Hs as _ <-|done]. }
    cbn [run]. rewrite He, run_bind. cbn [run finish]. set (s1 := with_objects _ _). change (sh_db s1) with (sh_db s).
    rewrite (InTx_finish c (sh_db s) id key _ before), Hb by done. cbn [run removed]. rewrite Hcl by done. cbn. by rewrite lookup_delete_eq.
Qed.

End Flow.

(** ** Confirming an upload *)

(** [AttachFile] for a document and a key issued for it: while an upload waits for its
    verdict and has not been waiting for an hour the answer is a conflict, and otherwise the
    upload is recorded with its job and its entry, the file that could be downloaded staying
    on the row; a refusal changes nothing. *)
Theorem attach_outcomes uuid_parse p key now c db id : quiet c ->
  UUIDParam uuid_parse p "id" ∅ = (∅, Some id) -> issued_key uuid_parse id key = true ->
  AttachFile uuid_parse p (inr key) now c db =
  match db_documents db !! id with
  | None => (db, RError 404 "NOT_FOUND" "document not found")
  | Some before =>
      let pending := bool_decide (FileStatus before = FileStatusPending) in
      if pending && match FilePendingSince before with Some t => cn_now c - stalePendingAfter <=? t | None => true end
      then (db, RError 409 "CONFLICT" "a previous upload is still being validated")
      else (attached id key now (cn_now c) before pending db,
            RData 202 "file pending validation"
              (DDocument (with_file key FileStatusPending "" (Some now) (previous_file before pending).1 (previous_file before pending).2 before)))
  end.
Proof.
  intros Hq Hp Hk. unfold AttachFile. rewrite Hp, Hk. cbn [negb]. unfold InTx, AttachFile_tx, tx_bind, GetByIDForUpdate, PendingStale. rewrite !Hq.
  rewrite exec_quiet by done. unfold select. destruct (db_documents db !! id) as [before|] eqn:Hd; [|done].
  assert (Hrest : forall b, (let '(pk, pt) := previous_file before b in
    (_ <~ AttachPendingFile id key pk pt ;; _ <~ EnqueueTx (ValidateUploadArgs (uuid_String id) key validateUploadMaxAttempts) ;;
     _ <~ Record_ (mkAuditEntry "http" "update" (uuid_String id) "document_attach_file" (Some before)
            (Some (with_file key FileStatusPending "" (Some now) pk pt before)) None) ;;
     tx_ret (with_file key FileStatusPending "" (Some now) pk pt before)) c db)
    = inr (with_file key FileStatusPending "" (Some now) (previous_file before b).1 (previous_file before b).2 before, attached id key now (cn_now c) before b db)).
  { intros b. unfold attached. destruct (previous_file before b) as [pk pt]. unfold AttachPendingFile, EnqueueTx, Record_, tx_bind.
    rewrite exec_quiet, Hd by done. by rewrite !exec_quiet by done. }
  unfold tx_bind, tx_ret in Hrest. unfold tx_ret. cbv beta iota zeta in Hrest |- *.
  destruct (bool_decide_reflect (FileStatus before = FileStatusPending)); cbn [andb].
  - rewrite exec_quiet, Hd by done. destruct (FilePendingSince before) as [t|]; [|done].
    destruct (Z.ltb_spec t (cn_now c - stalePendingAfter)), (Z.leb_spec (cn_now c - stalePendingAfter) t); try lia; [|done].
    specialize (Hrest true). destruct (previous_file before true). by rewrite Hrest.
  - specialize (Hrest false). destruct (previous_file before false). by rewrite Hrest.
Qed.

(** ** An example, and a commit that lands although it reports an error *)

Module Sample.

Definition parse (t : text) : option uuid := List.find (fun u => bool_decide (bytes_of (uuid_String u) = t)) [1; 2; 3; 4]%N.
Definition detect (_ : text) : text := bytes_of "text/plain".
Definition media (t : text) : text := t.
Definition presign (_ : string) (_ : text) (_ : Z) (_ : list (option Z)) : S3.s3_error + text := inr (bytes_of "https://bucket/put").
Definition calm : conn := mkConn (fun _ => false) 0.
Definition for_one : parameters := mkParameters (fun _ => []) (fun _ => bytes_of (uuid_String 1)).
Definition contract : Document := mkDocument 1 "lease" "contract" (2026, 3, 31) "" FileStatusNone "" None "" "" "ana" 0.
Definition upload (u : uuid) : string := newUploadKey 1 u.
Definition content : text := bytes_of "hello".

Abbreviation sample_step := (sys_step parse detect media presign).

Lemma parse_in_range t u : parse t = Some u -> (u < 2 ^ 128)%N.
Proof. intros [Hu _]%List.find_some. cbn in Hu. repeat destruct Hu as [<-|Hu]; done. Qed.

(** The state after a document was created and an upload to it confirmed. *)
Definition created : shared :=
  mkShared (mkDatabase {[1%N := contract]} [] []) ∅ [] [1%N].
Definition granted : shared := mkShared (sh_db created) ∅ [mkGrant (upload 2) (bytes_of "text/plain") 5] [2%N; 1%N].
Definition put_done : shared := with_objects {[upload 2 := S3.mkObject content (Some (bytes_of "text/plain"))]} granted.
Definition confirmed : shared := with_db (AttachFile parse for_one (inr (upload 2)) 0 calm (sh_db put_done)).1 put_done.
Abbreviation work := (ValidateUpload_Work parse detect media (uuid_String 1) (upload 2) 1 5).

Lemma confirmed_reachable ambiguous : reachable parse detect media presign ambiguous (mkSystem confirmed []).
Proof.
  eapply rtc_l. { apply (ss_create _ _ _ _ _ _ _ contract calm (mkDatabase {[1%N := contract]} [] [])); try done. split; [by apply not_elem_of_nil|done]. }
  eapply rtc_l. { apply (ss_upload_url _ _ _ _ _ _ _ for_one (inr (bytes_of "text/plain", 5)) 2 0 calm (mkGrant (upload 2) (bytes_of "text/plain") 5)
    (RData 200 "OK" (DUpload (bytes_of "https://bucket/put") (upload 2) "PUT" (bytes_of "text/plain") (0 + uploadURLExpiry)))).
    - split; [|done]. cbn. intros H%list_elem_of_singleton. done.
    - by vm_compute. }
  eapply rtc_l. { apply (ss_put _ _ _ _ _ _ _ (mkGrant (upload 2) (bytes_of "text/plain") 5) content); [by left|done]. }
  eapply rtc_l. { eapply (ss_attach _ _ _ _ _ put_done _ for_one (inr (upload 2)) 0 calm). apply surjective_pairing. }
  apply rtc_refl.
Qed.

(** The run copies what it inspected. *)
Definition final : string := newFileKey 1 3.
Definition copied : shared :=
  with_objects (<[final := S3.mkObject content (Some (bytes_of "text/plain"))]> (sh_objects confirmed)) (with_drawn 3 confirmed).
Definition waiting_row : Document := with_file (upload 2) FileStatusPending "" (Some 0) "" "" contract.
Definition accept : Document -> verdict := acceptVerdict final "text/plain".
Definition accepted_db : database := resolved 1 (accept waiting_row) waiting_row (sh_db confirmed).
Definition after_tx (r : store_error + bool) : prog (option job_error) :=
  bind (bind (Ret (match r with inl e => inl (JDatabase e) | inr b => inr b end))
    (fun applied => match applied with
     | inl e => let* _ := deleteCopyUnlessReferenced 1 final in Ret (Some e)
     | inr true => cleanup 1 (upload 2)
     | inr false => removed "delete unused copy" final (cleanup 1 (upload 2))
     end))
    (fun err => match err with None => Ret None | Some cause => if 1 <? 5 then Ret (Some cause) else giveUp 1 (upload 2) cause end).

(** The run up to its transaction. *)
Lemma copied_reachable ambiguous :
  reachable parse detect media presign ambiguous (mkSystem copied [Tx (finish_tx 1 (upload 2) accept) after_tx]).
Proof.
  unfold reachable; etrans; [apply confirmed_reachable|].
  eapply rtc_l. { apply (ss_validate _ _ _ _ _ _ _ (uuid_String 1) (upload 2) 5 1). vm_compute. by left. }
  eapply rtc_l. { eapply (ss_call _ _ _ _ _ _ _ 0); [done|]. eapply (cs_found _ _ (upload 2)). by vm_compute. }
  eapply rtc_l. { eapply (ss_call _ _ _ _ _ _ _ 0); [done|]. eapply (cs_new_key _ _ 1 _ 3). split; [|done]. by apply (bool_decide_unpack _). }
  eapply rtc_l. { eapply (ss_call _ _ _ _ _ _ _ 0); [done|]. by eapply (cs_upload _ _ final). }
  apply rtc_refl.
Qed.

(** When the commit of the verdict lands although an error is reported, and another upload is
    confirmed before the run looks at the document, the run deletes the copy the document
    keeps as its file: [deleteCopyUnlessReferenced] looks at the key the document serves, and
    not at the one it keeps while an upload is pending. *)
Theorem unsure_commit_loses_file :
  exists w d key contentType, reachable parse detect media presign true w /\
    db_documents (sh_db (sy_shared w)) !! 1%N = Some d /\ download_file d = Some (key, contentType) /\
    sh_objects (sy_shared w) !! key = None.
Proof.
  eexists _, _, final, "text/plain". split.
  { unfold reachable; etrans; [apply copied_reachable|].
    eapply rtc_l. { eapply (ss_call _ _ _ _ _ _ _ 0); [done|]. apply (cs_tx_unsure _ _ _ _ calm accepted_db true); [done|]. by vm_compute. }
    eapply rtc_l. { eapply (ss_attach _ _ _ _ _ _ _ for_one (inr (upload 4)) 0 calm). apply surjective_pairing. }
    eapply rtc_l. { eapply (ss_call _ _ _ _ _ _ _ 0); [done|]. apply (cs_read _ _ 1 _ calm). }
    eapply rtc_l. { eapply (ss_call _ _ _ _ _ _ _ 0); [done|]. apply (cs_delete _ _ final). }
    apply rtc_refl. }
  split; [by vm_compute|]. split; by vm_compute.
Qed.

(** The commit of the verdict as it normally ends. *)
Definition accepted_shared : shared := with_db accepted_db copied.
Lemma accepted_reachable : reachable parse detect media presign false (mkSystem accepted_shared [after_tx (inr true)]).
Proof.
  unfold reachable. etrans; [apply copied_reachable|]. apply rtc_once.
  apply (ss_call _ _ _ _ _ copied [Tx (finish_tx 1 (upload 2) accept) after_tx] 0 _ accepted_shared (after_tx (inr true)) eq_refl).
  apply (cs_tx _ _ _ _ calm). by vm_compute.
Qed.

Definition accepted_row : Document := with_file final FileStatusReady "text/plain" None "" "" waiting_row.


Lemma upload_decided_witness : let '(s', r) := run calm 3 confirmed work in r = None /\ sh_objects s' !! final = Some (S3.mkObject content (Some (bytes_of "text/plain"))).
Proof.
  pose proof (upload_decided parse detect media calm 3 confirmed (uuid_String 1) 1 (upload 2) 1 5 waiting_row) as H.
  destruct (run calm 3 confirmed work) as [s' r]. destruct H as (-> & _ & _ & H & _).
  - done.
  - by vm_compute.
  - by exists 1%N, 2%N.
  - by vm_compute.
  - done.
  - done.
  - split; [done|]. apply H. by vm_compute.
Defined.

End Sample.
