(* ===== verification/ApiHandlers.v ===== *)
(** The document API of the example: its handlers over the store, the workflow engine, the
    audit recorder and the queue ([examples/api/handler.go]), its workflow
    ([examples/api/workflow.go]), the policy it is run with ([examples/api/fakes.go]) and the
    job that notifies reviewers ([examples/api/jobs.go]); with the dates and names of
    [stringutil] it reads.

    The engine is the one of [Engine], over any repository; a transaction holds the engine's
    tables and the document's.  Arguments: parsing a UUID, normal form C, the removal of
    accents and lower case of [Normalize], the order of a query's rows, and what is drawn or
    read from a clock. *)

From stdpp Require Import base gmap list strings.
From Stdlib Require Import ZArith Lia Ascii.
From S2P Require Import Prelude GoStrings GoText Errors Model Repo Ports Engine Idempotency Access Action Middleware Requests Storage ApiStore Uploads.

Open Scope string_scope.
Open Scope list_scope.
Open Scope Z_scope.

(** ** Dates and names *)

(** A date of its parts, as [time.Parse] reads two digits of a day and a month and four of a
    year. *)
Definition date_of (y m d : text) : option (Z * Z * Z) :=
  if (length y =? 4)%nat && (length m =? 2)%nat && (length d =? 2)%nat && forallb is_digit (y ++ m ++ d) then
    let '(y, m, d) := (digits_value y, digits_value m, digits_value d) in
    if (1 <=? m) && (m <=? 12) && (1 <=? d) && (d <=? month_days y m) then Some (y, m, d) else None
  else None.

(** [supportedDateFormats], each with its separator and whether the year comes first. *)
Definition supportedDateFormats : list (ascii * bool) := [("/"%char, false); ("-"%char, false); ("-"%char, true)].
Definition parse_layout (layout : ascii * bool) (s : text) : option (Z * Z * Z) :=
  match split_on layout.1 s with
  | [a; b; c] => if layout.2 then date_of a b c else date_of c b a
  | _ => None
  end.
Fixpoint first_layout (layouts : list (ascii * bool)) (s : text) : option (Z * Z * Z) :=
  match layouts with
  | [] => None
  | layout :: rest => match parse_layout layout s with Some d => Some d | None => first_layout rest s end
  end.
Definition ParseFlexibleDate (s : text) : option (Z * Z * Z) :=
  if bool_decide (s = []) then None else first_layout supportedDateFormats s.

(** The loop of [collapseSpaces]. *)
Fixpoint collapse (inSpace : bool) (rs : list Z) : list Z :=
  match rs with
  | [] => []
  | r :: rs => if IsSpace r then (if inSpace then collapse true rs else 32 :: collapse true rs) else r :: collapse false rs
  end.
Definition collapseSpaces (s : text) : text := utf8 (collapse false (trim_runes (runes s))).

(** ** The policy *)

(** [fakeAuthenticator.Authenticate]: a token is [user:name:role,role]. *)
Definition fakeAuthenticate (token : text) : option (string * string * list string) :=
  match split_on ":" token with
  | user :: name :: r :: rest =>
      if bool_decide (user = []) || bool_decide (name = []) then None
      else let roles := foldl (fun a b => a ++ [":"%char] ++ b) r rest in
           Some (string_of user, string_of name,
                 if bool_decide (roles = []) then [] else string_of <$> split_on "," roles)
  | _ => None
  end.

(** The values of attributes the policy reads. *)
Inductive attr := AStr (s : string) | AStrs (l : list string).
#[export] Instance attr_eq_dec : EqDecision attr.
Proof. solve_decision. Defined.

(** [fakeChecker.IsAllowed]. *)
Definition fakeIsAllowed (p : AuthzPrincipal) (res : Resource) (action : string) (p_attr r_attr : gmap string attr) : bool :=
  if bool_decide ("admin" ∈ zp_Roles p) then true
  else if bool_decide (action = "delete") then
    let kind := match r_attr !! "kind" with Some (AStr k) => k | _ => "" end in
    if bool_decide (kind = "report") then false
    else let owned := match p_attr !! "owned_document_ids" with Some (AStrs l) => l | _ => [] end in
         bool_decide (rc_ID res ∈ owned)
  else bool_decide (action = "read").

(** ** The workflow *)

Definition ApprovalDefinitionName : string := "document-approval".
Definition task (id : string) (start terminal : bool) (eligible : Eligibility) : Node :=
  mkNode id start terminal eligible 0 "" NodeTask [] "" "" JoinNone "".
Definition edge (from to action guard : string) : Transition :=
  mkTransition from to action guard CommentNone false [] OutcomeNone.
Definition ApprovalDefinition : WDefinition :=
  mkDefinition ApprovalDefinitionName 1
    [task "draft" true false (ByPosition "author"); task "in_review" false false (ByPositionInUnit "reviewer" "");
     task "approved" false true zero_Eligibility; task "rejected" false true zero_Eligibility]
    [edge "draft" "in_review" "submit" ""; edge "in_review" "approved" "approve" "assigned";
     edge "in_review" "rejected" "reject" ""; edge "in_review" "draft" "return" ""].
Definition AssignedGuard {DB} : GuardFunc DB := fun _ c => inr (negb (bool_decide (c_AssignedTo c = ""))).

(** ** The transactions *)

Inductive api_error := AStore (e : store_error) | AEngine (e : error).

Section Api.
Context {D : Type} `{Repository D}.

Record api := mkApi { ap_cases : D; ap_db : database }.
Abbreviation atx A := (api -> api * res api_error A).

Definition on_store {A} (c : conn) (m : tx A) : atx A := fun s =>
  match m c (ap_db s) with
  | inl e => (s, Err (AStore e))
  | inr (a, db) => (mkApi (ap_cases s) db, Ok a)
  end.
Definition of_engine {A} (r : result A) : res api_error A :=
  match r with Ok a => Ok a | Err e => Err (AEngine e) | Panic => Panic | Fuel => Fuel end.
Definition on_engine {A} (m : Repo.writer D A) : atx A := fun s =>
  let '(d, r) := m (ap_cases s) in (mkApi d (ap_db s), of_engine r).
Definition a_bind {A B} (m : atx A) (k : A -> atx B) : atx B := fun s =>
  match m s with
  | (s, Ok a) => k a s
  | (s, Err e) => (s, Err e)
  | (s, Panic) => (s, Panic)
  | (s, Fuel) => (s, Fuel)
  end.

(** [tx.WithTx] on a connection. *)
Definition api_tx {A} (c : conn) (m : atx A) : atx A :=
  let fails st := if cn_fails c st then Some (AStore (EStatement st)) else None in
  WithTx (fails SBegin) (fails SCommit) m.

(** ** The handlers *)

Context (uuid_parse : text -> option uuid) (nfc strip_accents lower : text -> text).

Definition Normalize (s : text) : text := collapseSpaces (lower (strip_accents s)).

Definition maxTitleLength : Z := 200.
Record createDocumentRequest := mkCreateRequest { cq_Title : text; cq_Kind : text; cq_IssuedAt : text }.

(** What a handler answers; [None] when it panics. *)
Abbreviation handled := (api * option reply)%type.

(** The fields of [Create] that are refused, with the title as it is kept. *)
Definition create_checks (req : createDocumentRequest) : gmap string string * text * option (Z * Z * Z) :=
  let '(v, title) :=
    if bool_decide (cq_Title req = []) || bool_decide (Normalize (cq_Title req) = [])
    then ({["title" := "title is required"]}, cq_Title req)
    else let '(v, t) := MaxLen nfc "title" (cq_Title req) maxTitleLength ∅ in (texts v, t) in
  let v := if existsb (fun k => bool_decide (cq_Kind req = bytes_of k)) DocumentKinds then v
           else <["kind" := "kind must be one of contract, invoice, report"]> v in
  let issuedAt := ParseFlexibleDate (cq_IssuedAt req) in
  (match issuedAt with
   | Some _ => v
   | None => <["issued_at" := "issued_at must be a valid date (DD/MM/YYYY, DD-MM-YYYY or YYYY-MM-DD)"]> v
   end, title, issuedAt).

(** The transaction of [Create]. *)
Definition create_tx (e : Engine D) (c : conn) (cx : Ctx) (actor : string) (doc : Document) : atx unit :=
  a_bind (on_store c (Create doc)) (fun _ =>
  a_bind (on_engine (Open e cx (mkOpenInput ApprovalDefinitionName 0 DocumentDomain (uuid_String (ID doc)) "" "" (human actor) ""))) (fun wfCase =>
  a_bind (on_store c (Record_ (mkAuditEntry "http" "create" (uuid_String (ID doc)) "" None (Some doc)
                                 (Some ("workflow_case", uuid_String (c_ID wfCase)))))) (fun _ =>
  on_store c (EnqueueTx (NotifyReviewersArgs (uuid_String (ID doc)) (Title doc)))))).

(** [Create]; [actor] is the principal's user, empty when there is none, and [u] the UUID
    drawn. *)
Definition Create_handler (e : Engine D) (c : conn) (cx : Ctx) (actor : string) (body : refusal + createDocumentRequest) (u : uuid) (now : Z) (s : api)
  : handled :=
  if bool_decide (actor = "") then (s, Some (RError 401 "UNAUTHORIZED" "authentication required"))
  else match body with
  | inl f => (s, Some (RRefused f))
  | inr req =>
      match create_checks req with
      | (v, title, Some issuedAt) =>
          if negb (bool_decide (v = ∅)) then (s, Some (RFields v))
          else
            let doc := mkDocument u (string_of title) (string_of (cq_Kind req)) issuedAt "" FileStatusNone "" None "" "" actor now in
            match api_tx c (create_tx e c cx actor doc) s with
            | (s, Ok _) => (s, Some (RData 201 "OK" (DDocument doc)))
            | (s, Err _) => (s, Some (internal "failed to create document"))
            | (s, _) => (s, None)
            end
      | (v, _, None) => (s, Some (RFields v))
      end
  end.

(** A read-only handler on one document. *)
Definition Get_handler (c : conn) (p : parameters) (s : api) : reply :=
  match UUIDParam uuid_parse p "id" ∅ with
  | (v, None) => RFields (texts v)
  | (_, Some id) =>
      match GetByID id c (ap_db s) with
      | inl e => get_failed e
      | inr (doc, _) => RData 200 "OK" (DDocument doc)
      end
  end.

(** [Delete]: [check] is the guard's decision on the document loaded. *)
Definition Delete_handler {W : Type} (c : conn) (check : Document -> W -> W * option access_error) (p : parameters) (s : api * W) : (api * W) * reply :=
  match UUIDParam uuid_parse p "id" ∅ with
  | (v, None) => (s, RFields (texts v))
  | (_, Some id) =>
      match GetByID id c (ap_db s.1) with
      | inl e => (s, get_failed e)
      | inr (doc, _) =>
          match check doc s.2 with
          | (w, Some e) =>
              ((s.1, w), match writeAccessStatus e with
                         | Some (status, code) => RError status code ""
                         | None => internal "failed to authorize delete"
                         end)
          | (w, None) =>
              match Delete_ (ID doc) c (ap_db s.1) with
              | inl _ => ((s.1, w), internal "failed to delete document")
              | inr (_, db) => ((mkApi (ap_cases s.1) db, w), RData 200 "document deleted" DNone)
              end
          end
      end
  end.

(** The guard of [main.go]: the policy, with the ids of the caller's documents as its
    attributes. *)
Abbreviation W := (World attr api).
Definition owned_attributes (arrange : list Document -> list Document) (c : conn) (p : AuthPrincipal) (w : W) : W * (access_error + option loc) :=
  match OwnedIDs arrange (ap_UserID p) c (ap_db (consumer w)) with
  | inl _ => (w, inl (AOther "owned ids"))
  | inr (ids, _) =>
      let l := fresh (dom (heap w)) in
      (with_heap w (<[l := {["owned_document_ids" := AStrs ids]}]> (heap w)), inr (Some l))
  end.
Definition map_at (w : W) (l : option loc) : gmap string attr := match l with Some l => default ∅ (heap w !! l) | None => ∅ end.
Definition policy (p : AuthzPrincipal) (res : Resource) (action : string) (w : W) : W * (access_error + bool) :=
  (w, inr (fakeIsAllowed p res action (map_at w (zp_Attr p)) (map_at w (rc_Attr res)))).
Definition accessGuard (arrange : list Document -> list Document) (c : conn) : Guard attr api :=
  mkGuard 0 policy (Some (owned_attributes arrange c)).

(** The check of [Delete] on the document it loaded. *)
Definition check_delete (g : Guard attr api) (cx : AccessCtx) (doc : Document) (w : W) : W * option access_error :=
  let l := fresh (dom (heap w)) in
  let w := with_heap w (<[l := {["owner" := AStr (OwnerID doc); "kind" := AStr (Kind doc)]}]> (heap w)) in
  Guard_Check g cx (mkResource "documents:document" (uuid_String (ID doc)) (Some l)) "delete" w.

(** The route: [RequireAccess], then [Delete]. *)
Definition delete_route (arrange : list Document -> list Document) (c : conn) (cx : AccessCtx) (p : parameters) (w : W) : W * reply :=
  let g := accessGuard arrange c in
  match RequireAccess g "documents:document" "delete" (string_of (pr_route p "id")) cx w with
  | (w, Answered (Some (status, code))) => (w, RError status code "")
  | (w, Answered None) => (w, internal "")
  | (w, Next cx) =>
      let '((s, w), r) := Delete_handler c (check_delete g cx) p (consumer w, w) in
      (mkWorld (heap w) (scopes w) s, r)
  end.

(** The page of a list: the limit is cut, and an offset too deep is refused. *)
Definition page_of (p : parameters) : gmap string string * Z * Z :=
  let '(v, limit) := IntQuery p "limit" 20 ∅ in
  let limit := MaxInt limit 100 in
  let '(v, offset) := IntQuery p "offset" 0 v in
  let t := texts v in
  (if MaxListOffset <? offset then <["offset" := "offset must not exceed " +:+ itoa MaxListOffset]> t else t, limit, offset).

Definition List_handler (arrange : list Document -> list Document) (c : conn) (p : parameters) (s : api) : reply :=
  let '(v, limit, offset) := page_of p in
  if negb (bool_decide (v = ∅)) then RFields v
  else match List_ arrange limit offset c (ap_db s) with
       | inl _ => internal "failed to list documents"
       | inr ((docs, total), _) => RData 200 "OK" (DDocuments docs total limit offset)
       end.

Definition transitionActions : list text := bytes_of <$> ["submit"; "approve"; "reject"; "return"].

(** [caseFor]. *)
Definition caseFor (id : uuid) : atx Case := fun s =>
  (s, of_engine (lift (repo_GetByExternalID (ap_cases s) "" DocumentDomain (uuid_String id)))).

Definition transition_tx (e : Engine D) (c : conn) (cx : Ctx) (actor : string) (id : uuid) (action : text) : atx unit :=
  a_bind (caseFor id) (fun wfCase =>
  a_bind (on_engine (Move e cx (mkMoveInput (c_ID wfCase) uuid_Nil (string_of action) (human actor) "" "" None None))) (fun _ =>
  on_store c (Record_ (mkAuditEntry "http" "execute" (uuid_String id) ("document_" +:+ string_of action) None None None)))).

(** How an engine's refusal is answered. *)
Definition transition_failed (e : api_error) : reply :=
  match e with
  | AEngine e =>
      if errors_Is e ErrCaseNotFound then RError 404 "NOT_FOUND" "document case not found"
      else if errors_Is e ErrCaseClosed then RError 409 "CONFLICT" "document case is already closed"
      else if errors_Is e ErrInvalidTransition || errors_Is e ErrGuardRejected then RError 409 "CONFLICT" "transition not allowed"
      else internal "failed to transition document"
  | AStore _ => internal "failed to transition document"
  end.

Definition Transition_handler (e : Engine D) (c : conn) (cx : Ctx) (actor : string) (p : parameters) (body : refusal + text) (s : api) : handled :=
  let '(v, id) := UUIDParam uuid_parse p "id" ∅ in
  match body with
  | inl f => (s, Some (RRefused f))
  | inr action =>
      let '(v, action) := Enum nfc "action" action transitionActions v in
      match id with
      | Some id =>
          if HasErrors v then (s, Some (RFields (texts v)))
          else match api_tx c (transition_tx e c cx actor id action) s with
               | (s, Ok _) => (s, Some (RData 200 "transition applied" (DAction action)))
               | (s, Err e) => (s, Some (transition_failed e))
               | (s, _) => (s, None)
               end
      | None => (s, Some (RFields (texts v)))
      end
  end.

Definition claim_failed (e : api_error) : reply :=
  match e with
  | AEngine e =>
      if errors_Is e ErrCaseNotFound then RError 404 "NOT_FOUND" "document case not found"
      else if errors_Is e ErrCaseClosed then RError 409 "CONFLICT" "document case is already closed"
      else if errors_Is e ErrAlreadyAssigned then RError 409 "CONFLICT" "document case is already claimed"
      else internal "failed to claim document"
  | AStore _ => internal "failed to claim document"
  end.

Definition Claim_handler (e : Engine D) (c : conn) (cx : Ctx) (actor : string) (p : parameters) (s : api) : handled :=
  match UUIDParam uuid_parse p "id" ∅ with
  | (v, None) => (s, Some (RFields (texts v)))
  | (_, Some id) =>
      match api_tx c (a_bind (caseFor id) (fun wfCase => on_engine (Claim e cx (c_ID wfCase) actor))) s with
      | (s, Ok _) => (s, Some (RData 200 "document claimed" DNone))
      | (s, Err e) => (s, Some (claim_failed e))
      | (s, _) => (s, None)
      end
  end.

Definition History_handler (p : parameters) (s : api) : option reply :=
  match UUIDParam uuid_parse p "id" ∅ with
  | (v, None) => Some (RFields (texts v))
  | (_, Some id) =>
      match (caseFor id s).2 with
      | Ok wfCase =>
          match History (ap_cases s) (c_ID wfCase) with
          | Ok events => Some (RData 200 "OK" (DEvents events))
          | Err _ => Some (internal "failed to get document history")
          | _ => None
          end
      | Err (AEngine e) =>
          if errors_Is e ErrCaseNotFound then Some (RError 404 "NOT_FOUND" "document case not found")
          else Some (internal "failed to get document history")
      | Err _ => Some (internal "failed to get document history")
      | _ => None
      end
  end.

Definition Inbox_handler (p : parameters) (s : api) : option reply :=
  let '(v, limit, offset) := page_of p in
  if negb (bool_decide (v = ∅)) then Some (RFields v)
  else match Inbox (ap_cases s) (mkInboxFilter "" DocumentDomain [] [] "" true false limit offset) with
       | Ok items => Some (RData 200 "OK" (DCases (wi_Case <$> items)))
       | Err _ => Some (internal "failed to get inbox")
       | _ => None
       end.

End Api.
Arguments api D : clear implicits.

(** ** Notifying reviewers *)

(** [NotifyReviewersWorker.Work]: the message it makes, what was sent and recorded, and
    whether it failed. *)
Definition reviewers_message (from documentID title : string) : Message :=
  mkMessage "reviewers@example.com" from ("Document ready for review: " +:+ title) ""
    ("Document " +:+ title +:+ " (" +:+ documentID +:+ ") is ready for review.").
Definition NotifyReviewers_Work (valid_address : string -> bool) (send : Message -> bool) (from documentID title : string) (c : conn) (db : database)
  : database * list Message * bool :=
  let msg := reviewers_message from documentID title in
  if negb (Message_Validate valid_address msg) then (db, [], false)
  else if negb (send msg) then (db, [], false)
  else match Record_ (mkAuditEntry "worker" "execute" documentID "notify_reviewers" None None None) c db with
       | inl _ => (db, [msg], false)
       | inr (_, db) => (db, [msg], true)
       end.
