(* ===== verification/ApiTheorems.v ===== *)
(** What the document API guarantees: a document is created with its case, its audit entry
    and its job or not at all, a transition is recorded with the engine's move, a document is
    deleted exactly by those the policy allows, and which dates are read. *)

From stdpp Require Import base gmap list strings.
From Stdlib Require Import ZArith Lia ZifyBool Ascii.
From S2P Require Import Prelude GoStrings GoText Errors Model Repo Ports Validate Engine Idempotency Access Action ActionFacts Middleware Requests Storage ApiStore Uploads UploadFacts ApiHandlers.

Open Scope string_scope.
Open Scope list_scope.
Open Scope Z_scope.

Section Transactions.
Context {D : Type} `{Repository D}.
Context (uuid_parse : text -> option uuid) (nfc strip_accents lower : text -> text).
Implicit Types (e : Engine D) (s : api D).

Lemma api_tx_Ok {A} c (m : api D -> api D * res api_error A) s s' a : api_tx c m s = (s', Ok a) -> m s = (s', Ok a).
Proof.
  unfold api_tx, WithTx. destruct (cn_fails c SBegin); [done|]. destruct (m s) as [s1 []]; [|done..]. by destruct (cn_fails c SCommit).
Qed.
(** A transaction that is not committed leaves everything as it was. *)
Lemma api_tx_undone {A} c (m : api D -> api D * res api_error A) s s' r : api_tx c m s = (s', r) -> (forall a, r <> Ok a) -> s' = s.
Proof.
  unfold api_tx, WithTx. destruct (cn_fails c SBegin); [by intros [= <- <-]|].
  destruct (m s) as [s1 []]; [destruct (cn_fails c SCommit)|..]; intros [= <- <-] Hr; try done. by destruct (Hr a).
Qed.
Lemma a_bind_Ok {A B} (m : api D -> api D * res api_error A) (k : A -> api D -> api D * res api_error B) s s' b :
  a_bind m k s = (s', Ok b) -> exists s1 a, m s = (s1, Ok a) /\ k a s1 = (s', Ok b).
Proof. unfold a_bind. destruct (m s) as [s1 []]; [eauto|done..]. Qed.
Lemma on_store_Ok {A} c (m : tx A) s s' a : on_store c m s = (s', Ok a) ->
  m c (ap_db s) = inr (a, ap_db s') /\ ap_cases s' = ap_cases s.
Proof. unfold on_store. destruct (m c (ap_db s)) as [?|[a' db]]; [done|]. by intros [= <- <-]. Qed.
Lemma on_engine_Ok {A} (m : Repo.writer D A) s s' a : on_engine m s = (s', Ok a) -> m (ap_cases s) = (ap_cases s', Ok a) /\ ap_db s' = ap_db s.
Proof. unfold on_engine. destruct (m (ap_cases s)) as [d []]; intros [= <- <-]; done. Qed.

(** What a created document is. *)
Definition created (actor : string) (req : createDocumentRequest) (u : uuid) (now : Z) (doc : Document) : Prop :=
  exists issuedAt, ParseFlexibleDate (cq_IssuedAt req) = Some issuedAt /\
    doc = mkDocument u (string_of (nfc (cq_Title req))) (string_of (cq_Kind req)) issuedAt "" FileStatusNone "" None "" "" actor now /\
    Kind doc ∈ DocumentKinds /\ Normalize strip_accents lower (cq_Title req) <> [] /\ RuneCount (nfc (cq_Title req)) <= maxTitleLength.

Definition created_entry (doc : Document) (wfCase : Case) : audit_entry :=
  mkAuditEntry "http" "create" (uuid_String (ID doc)) "" None (Some doc) (Some ("workflow_case", uuid_String (c_ID wfCase))).

Lemma texts_empty v : texts v = ∅ -> v = ∅.
Proof.
  intros Ht. apply map_eq. intros k. rewrite lookup_empty. destruct (v !! k) as [x|] eqn:Hk; [|done].
  assert (Hl : texts v !! k = Some (ms_field DefaultMessages x k)) by (unfold texts; rewrite map_lookup_imap, Hk; done).
  by rewrite Ht, lookup_empty in Hl.
Qed.

Lemma create_checks_passed req title issuedAt : create_checks nfc strip_accents lower req = (∅, title, Some issuedAt) ->
  title = nfc (cq_Title req) /\ ParseFlexibleDate (cq_IssuedAt req) = Some issuedAt /\ string_of (cq_Kind req) ∈ DocumentKinds /\
  Normalize strip_accents lower (cq_Title req) <> [] /\ RuneCount (nfc (cq_Title req)) <= maxTitleLength.
Proof.
  unfold create_checks. destruct (bool_decide_reflect (cq_Title req = [])) as [?|Hne]; cbn [orb].
  { destruct (existsb _ _); intros Hx; injection Hx as Hv Ht Hd; rewrite Hd in Hv; by apply (f_equal (lookup "title")) in Hv. }
  destruct (bool_decide_reflect (Normalize strip_accents lower (cq_Title req) = [])) as [?|Hno].
  { destruct (existsb _ _); intros Hx; injection Hx as Hv Ht Hd; rewrite Hd in Hv; by apply (f_equal (lookup "title")) in Hv. }
  destruct (MaxLen nfc "title" (cq_Title req) maxTitleLength ∅) as [v t] eqn:Hm.
  destruct (existsb _ DocumentKinds) eqn:Hk; intros Hx; injection Hx as Hv <- Hd; rewrite Hd in Hv.
  - apply texts_empty in Hv as ->. apply List.existsb_exists in Hk as (k & Hin & Hk%bool_decide_eq_true).
    unfold MaxLen in Hm. destruct (Z.ltb_spec maxTitleLength (RuneCount (nfc (cq_Title req)))) as [Hl|Hl].
    + apply (f_equal fst) in Hm. by apply (f_equal (lookup "title")) in Hm.
    + apply (f_equal snd) in Hm. cbn in Hm. subst t. split; [done|]. split; [done|]. rewrite Hk, GoText.string_bytes. split; [by apply list_elem_of_In|]. split; [done|lia].
  - apply (f_equal (lookup "kind")) in Hv. by rewrite lookup_insert_eq in Hv.
Qed.

(** C30: a document is created whole or not at all.  With 201 it is the caller's, of an
    allowed kind, its title not blank and within its length, and in one transaction the row
    was added under a new id, its case opened by the engine, the change recorded with that
    case and the notification of the reviewers enqueued; with any other answer nothing
    changed, neither in the document's tables nor in the engine's. *)
Theorem create_atomic e c cx actor body u now s s' r :
  Create_handler nfc strip_accents lower e c cx actor body u now s = (s', r) ->
  (exists req doc wfCase, body = inr req /\ actor <> "" /\ r = Some (RData 201 "OK" (DDocument doc)) /\ created actor req u now doc /\
     db_documents (ap_db s) !! u = None /\
     Open e cx (mkOpenInput ApprovalDefinitionName 0 DocumentDomain (uuid_String u) "" "" (human actor) "") (ap_cases s)
       = (ap_cases s', Ok wfCase) /\
     ap_db s' = mkDatabase (<[u := doc]> (db_documents (ap_db s)))
                  (db_jobs (ap_db s) ++ [NotifyReviewersArgs (uuid_String u) (Title doc)])
                  (db_audit (ap_db s) ++ [created_entry doc wfCase]))
  \/ (s' = s /\ forall message d, r <> Some (RData 201 message d)).
Proof.
  unfold Create_handler. destruct (bool_decide_reflect (actor = "")) as [?|Ha]; [intros [= <- <-]; by right|].
  destruct body as [f|req]; [intros [= <- <-]; by right|].
  destruct (create_checks nfc strip_accents lower req) as [[v title] [issuedAt|]] eqn:Hc; [|intros [= <- <-]; by right].
  destruct (bool_decide_reflect (v = ∅)) as [->|Hv]; cbn [negb]; [|intros [= <- <-]; by right].
  apply create_checks_passed in Hc as (-> & Hd & Hk & Ht & Hl). set (doc := mkDocument _ _ _ _ _ _ _ _ _ _ _ _).
  destruct (api_tx c _ s) as [s1 r1] eqn:Htx. destruct r1 as [[]|?| |].
  2-4: intros [= <- <-]; right; (split; [|done]); by eapply api_tx_undone.
  intros [= <- <-]. left. apply api_tx_Ok in Htx. apply a_bind_Ok in Htx as (s2 & [] & [H1 Hc1]%on_store_Ok & Htx).
  apply a_bind_Ok in Htx as (s3 & wfCase & [H2 Hd2]%on_engine_Ok & Htx). apply a_bind_Ok in Htx as (s4 & [] & [H3 Hc3]%on_store_Ok & Htx).
  apply on_store_Ok in Htx as [H4 Hc4]. exists req, doc, wfCase. do 3 (split; [done|]). split; [by exists issuedAt|].
  apply exec_Ok in H1, H3, H4. destruct (bool_decide_reflect (is_Some (db_documents (ap_db s) !! ID doc))) as [?|Hn]; [done|].
  cbn [orb] in H1. destruct (negb _) in H1; [done|]. injection H1 as H1. injection H3 as H3. injection H4 as H4.
  split; [by apply eq_None_not_Some in Hn|]. rewrite Hc1, <- Hc3, <- Hc4 in H2. split; [exact H2|].
  rewrite <- H4, <- H3, Hd2, <- H1. done.
Qed.

(** A transition is the engine's move and its audit entry together; a refusal changes nothing
    and is a conflict or a missing case when it is the client's. *)
Theorem transition_atomic e c cx actor p body s s' r :
  Transition_handler uuid_parse nfc e c cx actor p body s = (s', r) ->
  (exists id action wfCase moved, r = Some (RData 200 "transition applied" (DAction action)) /\
     repo_GetByExternalID (ap_cases s) "" DocumentDomain (uuid_String id) = inr wfCase /\
     Move e cx (mkMoveInput (c_ID wfCase) uuid_Nil (string_of action) (human actor) "" "" None None) (ap_cases s) = (ap_cases s', Ok moved) /\
     ap_db s' = mkDatabase (db_documents (ap_db s)) (db_jobs (ap_db s))
       (db_audit (ap_db s) ++ [mkAuditEntry "http" "execute" (uuid_String id) ("document_" +:+ string_of action) None None None]))
  \/ (s' = s /\ forall message d, r <> Some (RData 200 message d)).
Proof.
  unfold Transition_handler. destruct (UUIDParam uuid_parse p "id" ∅) as [v id]. destruct body as [f|action]; [intros [= <- <-]; by right|].
  destruct (Enum nfc "action" action transitionActions v) as [v' act]. destruct id as [id|]; [|intros [= <- <-]; by right].
  destruct (HasErrors v'); [intros [= <- <-]; by right|]. destruct (api_tx c _ s) as [s1 r1] eqn:Htx. destruct r1 as [[]|er| |].
  2-4: assert (s1 = s) as -> by (by eapply api_tx_undone); intros [= <- <-]; right; (split; [done|]); try done.
  2:{ intros message d. unfold transition_failed, internal. destruct er; [done|]. by repeat destruct (errors_Is _ _). }
  intros [= <- <-]. left. apply api_tx_Ok in Htx. apply a_bind_Ok in Htx as (s2 & wfCase & H1 & Htx). unfold caseFor in H1.
  destruct (repo_GetByExternalID _ _ _ _) as [?|wf] eqn:Hw; [done|]. injection H1 as <- <-.
  apply a_bind_Ok in Htx as (s3 & moved & [H2 Hd2]%on_engine_Ok & [H3 Hc3]%on_store_Ok). exists id, act, wf, moved.
  apply exec_Ok in H3. injection H3 as H3. rewrite <- Hc3 in H2. split; [done|]. split; [done|]. split; [done|]. by rewrite <- H3, Hd2.
Qed.

End Transactions.

(** ** Deleting *)

Section Deleting.
Context {D : Type}.
Context (uuid_parse : text -> option uuid) (arrange : list Document -> list Document).
Hypothesis arrange_perm : forall l, arrange l ≡ₚ l.
Abbreviation W := (World attr (api D)).
Implicit Types (w : W) (c : conn).

Definition quiet_conn (c : conn) : Prop := forall st, cn_fails c st = false.
(** The rows carry their keys, which are UUIDs. *)
Definition rows_ok (db : database) : Prop := forall id d, db_documents db !! id = Some d -> ID d = id /\ (id < 2 ^ 128)%N.

Definition owned_ids (user : string) (db : database) : list string :=
  (fun d => uuid_String (ID d)) <$> arrange (List.filter (fun d => bool_decide (OwnerID d = user)) (map_to_list (db_documents db)).*2).

Lemma owned_ids_spec user db id d : rows_ok db -> db_documents db !! id = Some d ->
  uuid_String id ∈ owned_ids user db <-> OwnerID d = user.
Proof.
  intros Hok Hd. unfold owned_ids. rewrite list_elem_of_fmap. setoid_rewrite arrange_perm. split.
  - intros (d' & He & Hin). apply list_elem_of_In, List.filter_In in Hin as [Hin Ho%bool_decide_eq_true].
    apply list_elem_of_In, list_elem_of_fmap in Hin as ([k d''] & -> & Hin). cbn in *. apply elem_of_map_to_list in Hin.
    destruct (Hok k d'' Hin) as [Hk Hb], (Hok id d Hd) as [_ Hb']. apply uuid_String_inj in He; [|congruence..]. rewrite Hk in He. congruence.
  - intros Ho. exists d. destruct (Hok id d Hd) as [-> _]. split; [done|]. apply list_elem_of_In, List.filter_In. rewrite Ho, bool_decide_eq_true_2 by done.
    split; [|done]. apply list_elem_of_In, list_elem_of_fmap. exists (id, d). split; [done|]. by apply elem_of_map_to_list.
Qed.

Lemma fresh_lookup_ne (h : gmap loc (gmap string attr)) m l x : h !! l = Some x -> <[fresh (dom h) := m]> h !! l = Some x.
Proof. intros Hl. rewrite lookup_insert_ne; [done|]. intros <-. apply (is_fresh (dom h)). by apply elem_of_dom_2 in Hl. Qed.

Abbreviation owned_map user db := ({["owned_document_ids" := AStrs (owned_ids user db)]} : gmap string attr).

(** What the first check of a request leaves: the attributes, resolved once. *)
Definition resolved_once (w : W) (scope ptr : N) (m : gmap string attr) : Prop :=
  exists l, scope_entries w scope !! (0%N, ptr) = Some (mkScopeEntry (Some l) None) /\ heap w !! l = Some m.

Lemma first_principal c cx ap scope w : quiet_conn c -> ax_principal cx = Some ap -> ax_scope cx = Some scope ->
  scope_entries w scope !! (0%N, ap_ptr ap) = None ->
  exists w' l, Guard_Principal (accessGuard arrange c) cx w = (w', inr (mkAuthzPrincipal (ap_UserID ap) (ap_Roles ap) (Some l))) /\
    heap w' !! l = Some (owned_map (ap_UserID ap) (ap_db (consumer w))) /\ consumer w' = consumer w /\
    resolved_once w' scope (ap_ptr ap) (owned_map (ap_UserID ap) (ap_db (consumer w))).
Proof.
  intros Hq Hp Hs Hn. unfold Guard_Principal. rewrite Hp. cbn [accessGuard g_attributes]. unfold resolveAttributes. rewrite Hs.
  cbn [accessGuard g_ptr]. rewrite Hn. unfold callResolver, owned_attributes, OwnedIDs, exec. rewrite Hq. cbn [with_heap heap].
  rewrite lookup_insert_eq. cbn [default]. rewrite bool_decide_eq_false_2 by (intros E; by apply (f_equal (lookup "owned_document_ids")) in E).
  unfold clone_map. cbn [with_heap heap scopes consumer]. rewrite lookup_insert_eq. cbn [default].
  unfold cloneAttr, clone_map. cbn [with_heap heap scopes consumer]. rewrite lookup_insert_eq. cbn [default].
  eexists _, _. split; [done|]. cbn. split; [apply lookup_insert_eq|]. split; [done|]. eexists. split.
  - unfold scope_entries. cbn. rewrite lookup_insert_eq. cbn. by rewrite lookup_insert_eq.
  - cbn. apply fresh_lookup_ne. apply lookup_insert_eq.
Qed.

Lemma next_principal c cx ap scope w m : ax_principal cx = Some ap -> ax_scope cx = Some scope -> resolved_once w scope (ap_ptr ap) m ->
  exists w' l, Guard_Principal (accessGuard arrange c) cx w = (w', inr (mkAuthzPrincipal (ap_UserID ap) (ap_Roles ap) (Some l))) /\
    heap w' !! l = Some m /\ consumer w' = consumer w /\ (forall l' x, heap w !! l' = Some x -> heap w' !! l' = Some x).
Proof.
  intros Hp Hs (l & Hl & Hm). unfold Guard_Principal. rewrite Hp. cbn [accessGuard g_attributes]. unfold resolveAttributes. rewrite Hs.
  cbn [accessGuard g_ptr]. rewrite Hl. cbn [se_attr se_err cloneAttr]. unfold clone_map. rewrite Hm. cbn [default].
  eexists _, _. split; [done|]. cbn. split; [apply lookup_insert_eq|]. split; [done|]. intros l' x Hx. by apply fresh_lookup_ne.
Qed.

Lemma check_policy c cx res action w w' pr : Guard_Principal (accessGuard arrange c) cx w = (w', inr pr) ->
  Guard_Check (accessGuard arrange c) cx res action w
  = (w', if fakeIsAllowed pr res action (map_at w' (zp_Attr pr)) (map_at w' (rc_Attr res)) then None else Some (ASentinel ErrForbidden)).
Proof. intros Hg. unfold Guard_Check. rewrite Hg. cbn [accessGuard g_checker]. unfold policy. by destruct (fakeIsAllowed _ _ _ _ _). Qed.

Lemma policy_delete user roles l kind rid ra ids rm :
  fakeIsAllowed (mkAuthzPrincipal user roles l) (mkResource kind rid ra) "delete" {["owned_document_ids" := AStrs ids]} rm
  = bool_decide ("admin" ∈ roles)
    || (negb (bool_decide (match rm !! "kind" with Some (AStr k) => k | _ => "" end = "report")) && bool_decide (rid ∈ ids)).
Proof. unfold fakeIsAllowed. cbn [zp_Roles rc_ID]. rewrite lookup_singleton_eq. destruct (bool_decide ("admin" ∈ roles)); [done|]. by destruct (bool_decide (_ = "report")). Qed.

(** Who may delete a document. *)
Definition may_delete (ap : AuthPrincipal) (d : Document) : bool :=
  bool_decide ("admin" ∈ ap_Roles ap) || (bool_decide (OwnerID d = ap_UserID ap) && negb (bool_decide (Kind d = "report"))).

(** The handler's own check, once the attributes are resolved. *)
Lemma handler_decides c cx p w id d ap scope : quiet_conn c -> rows_ok (ap_db (consumer w)) ->
  ax_principal cx = Some ap -> ax_scope cx = Some scope -> resolved_once w scope (ap_ptr ap) (owned_map (ap_UserID ap) (ap_db (consumer w))) ->
  UUIDParam uuid_parse p "id" ∅ = (∅, Some id) -> db_documents (ap_db (consumer w)) !! id = Some d ->
  let '((s, _), r) := Delete_handler uuid_parse c (check_delete (accessGuard arrange c) cx) p (consumer w, w) in
  ap_cases s = ap_cases (consumer w) /\
  if may_delete ap d
  then r = RData 200 "document deleted" DNone /\ ap_db s = with_documents (delete id (db_documents (ap_db (consumer w)))) (ap_db (consumer w))
  else reply_status r = 403 /\ ap_db s = ap_db (consumer w).
Proof.
  intros Hq Hok Hp Hs (l0 & Hl0 & Hm0) Hpar Hd. destruct (Hok id d Hd) as [Hid Hb].
  unfold Delete_handler. rewrite Hpar. cbn [fst snd]. unfold GetByID, exec. rewrite Hq. unfold select. rewrite Hd.
  unfold check_delete. set (l := fresh (dom (heap w))). set (rm := {["owner" := _; "kind" := _]}). set (w1 := with_heap w _).
  destruct (next_principal c cx ap scope w1 (owned_map (ap_UserID ap) (ap_db (consumer w)))) as (w2 & l2 & Hg & Hl2 & Hcon & Hkeep); [done..| |].
  { exists l0. split; [done|]. by apply fresh_lookup_ne. }
  rewrite (check_policy _ _ _ _ _ _ _ Hg). cbn [zp_Attr rc_Attr].
  replace (map_at w2 (Some l2)) with (owned_map (ap_UserID ap) (ap_db (consumer w))) by (unfold map_at; by rewrite Hl2).
  replace (map_at w2 (Some l)) with rm by (unfold map_at; rewrite (Hkeep l rm); [done|apply lookup_insert_eq]).
  rewrite policy_delete. change (rm !! "kind") with (Some (AStr (Kind d))). cbv iota. rewrite Hid.
  rewrite (bool_decide_ext _ _ (owned_ids_spec (ap_UserID ap) (ap_db (consumer w)) id d Hok Hd)).
  assert (Hmay : bool_decide ("admin" ∈ ap_Roles ap) || (negb (bool_decide (Kind d = "report")) && bool_decide (OwnerID d = ap_UserID ap)) = may_delete ap d)
    by (unfold may_delete; by rewrite (andb_comm (negb _))).
  rewrite Hmay. destruct (may_delete ap d); [|done]. unfold Delete_, exec. rewrite Hq. done.
Qed.


End Deleting.

(** ** Dates *)

Definition digit_char (n : Z) : ascii := ascii_of_nat (Z.to_nat (48 + n)).
Definition two (n : Z) : text := [digit_char (n / 10); digit_char (n mod 10)].
Definition four (n : Z) : text := two (n / 100) ++ two (n mod 100).
Definition valid_date (y m d : Z) : Prop := 0 <= y <= 9999 /\ 1 <= m <= 12 /\ 1 <= d <= month_days y m.
(** A date as each of the layouts prints it. *)
Definition printed (y m d : Z) : list text :=
  [two d ++ ["/"%char] ++ two m ++ ["/"%char] ++ four y; two d ++ ["-"%char] ++ two m ++ ["-"%char] ++ four y;
   four y ++ ["-"%char] ++ two m ++ ["-"%char] ++ two d].

Lemma digit_char_value n : 0 <= n <= 9 -> digit_value (digit_char n) = n /\ is_digit (digit_char n) = true.
Proof.
  intros Hn. unfold digit_value, digit_char, is_digit, char_in. rewrite nat_ascii_embedding by lia.
  change (nat_of_ascii "0") with 48%nat. change (nat_of_ascii "9") with 57%nat. split; [lia|]. lia.
Qed.
Lemma digit_value_char c : is_digit c = true -> 0 <= digit_value c <= 9 /\ digit_char (digit_value c) = c.
Proof.
  unfold digit_value, digit_char, is_digit, char_in. change (nat_of_ascii "0") with 48%nat. change (nat_of_ascii "9") with 57%nat.
  intros Hc. split; [lia|]. rewrite <- (ascii_nat_embedding c) at 2. f_equal. lia.
Qed.

Lemma tens n : 0 <= n <= 99 -> 0 <= n / 10 <= 9 /\ 0 <= n mod 10 <= 9 /\ 10 * (n / 10) + n mod 10 = n.
Proof. intros Hn. pose proof (Z.mod_pos_bound n 10). pose proof (Z.div_mod n 10). lia. Qed.
Lemma two_value n : 0 <= n <= 99 -> digits_value (two n) = n /\ forallb is_digit (two n) = true.
Proof.
  intros (H1 & H2 & H3)%tens. destruct (digit_char_value _ H1) as [H4 H5], (digit_char_value _ H2) as [H6 H7].
  unfold digits_value, two. cbn [fold_left forallb]. rewrite H4, H5, H6, H7. split; [lia|done].
Qed.
Lemma value_two a b : is_digit a = true -> is_digit b = true -> 0 <= digits_value [a; b] <= 99 /\ two (digits_value [a; b]) = [a; b].
Proof.
  intros [H1 H2]%digit_value_char [H3 H4]%digit_value_char. unfold digits_value. cbn [fold_left]. set (x := digit_value a) in *. set (y := digit_value b) in *.
  split; [lia|]. unfold two. replace (10 * 0 + x) with x by lia.
  replace ((10 * x + y) / 10) with x by (apply Z.div_unique with y; lia). replace ((10 * x + y) mod 10) with y by (apply Z.mod_unique with x; lia).
  by rewrite H2, H4.
Qed.
Lemma hundreds n : 0 <= n <= 9999 -> 0 <= n / 100 <= 99 /\ 0 <= n mod 100 <= 99 /\ 100 * (n / 100) + n mod 100 = n.
Proof. intros Hn. pose proof (Z.mod_pos_bound n 100). pose proof (Z.div_mod n 100). lia. Qed.
Lemma four_value n : 0 <= n <= 9999 -> digits_value (four n) = n /\ forallb is_digit (four n) = true.
Proof.
  intros (H1 & H2 & H3)%hundreds. destruct (two_value _ H1) as [H4 H5], (two_value _ H2) as [H6 H7]. unfold four.
  rewrite forallb_app, H5, H7. split; [|done]. unfold digits_value, two in *. cbn [app fold_left] in *. lia.
Qed.
Lemma value_four a b c d : forallb is_digit [a; b; c; d] = true -> 0 <= digits_value [a; b; c; d] <= 9999 /\ four (digits_value [a; b; c; d]) = [a; b; c; d].
Proof.
  intros Hd. cbn in Hd. repeat (apply andb_true_iff in Hd as [? Hd]).
  destruct (value_two a b) as [E1 E2], (value_two c d) as [E3 E4]; [done..|].
  assert (He : digits_value [a; b; c; d] = 100 * digits_value [a; b] + digits_value [c; d]) by (unfold digits_value; cbn [fold_left]; lia).
  rewrite He. set (x := digits_value [a; b]) in *. set (y := digits_value [c; d]) in *. split; [lia|]. unfold four.
  replace ((100 * x + y) / 100) with x by (apply Z.div_unique with y; lia). replace ((100 * x + y) mod 100) with y by (apply Z.mod_unique with x; lia).
  by rewrite E2, E4.
Qed.

Lemma month_days_le y m : month_days y m <= 31.
Proof. unfold month_days. destruct (m =? 2); [destruct (leap y); lia|]. destruct (bool_decide _); lia. Qed.

Lemma date_of_spec y m d Y M Dd : date_of y m d = Some (Y, M, Dd) <-> valid_date Y M Dd /\ y = four Y /\ m = two M /\ d = two Dd.
Proof.
  unfold date_of, valid_date. split.
  - destruct ((length y =? 4)%nat && (length m =? 2)%nat && (length d =? 2)%nat && forallb is_digit (y ++ m ++ d)) eqn:Hc; [|done].
    rewrite !forallb_app in Hc. repeat (apply andb_true_iff in Hc as [Hc ?]); [..].
    repeat match goal with H : _ && _ = true |- _ => apply andb_true_iff in H as [? ?] | H : (_ =? _)%nat = true |- _ => apply Nat.eqb_eq in H end.
    destruct y as [|y1 [|y2 [|y3 [|y4 []]]]]; try done. destruct m as [|m1 [|m2 []]]; try done. destruct d as [|d1 [|d2 []]]; try done.
    destruct (value_four y1 y2 y3 y4) as [Hy1 Hy2]; [done|].
    destruct (value_two m1 m2) as [Hm1 Hm2]; [by repeat match goal with H : forallb _ _ = true |- _ => cbn in H; repeat (apply andb_true_iff in H as [? H]) end..|].
    destruct (value_two d1 d2) as [Hd1 Hd2]; [by repeat match goal with H : forallb _ _ = true |- _ => cbn in H; repeat (apply andb_true_iff in H as [? H]) end..|].
    set (yv := digits_value [y1; y2; y3; y4]) in *. set (mv := digits_value [m1; m2]) in *. set (dv := digits_value [d1; d2]) in *.
    destruct (_ && _) eqn:Hv; [|done]. intros [= <- <- <-]. rewrite !andb_true_iff in Hv. split; [lia|]. by rewrite Hy2, Hm2, Hd2.
  - intros ((Hy & Hm & Hd) & -> & -> & ->). pose proof (month_days_le Y M). destruct (four_value Y Hy) as [H1 H2].
    destruct (two_value M) as [H3 H4]; [lia|]. destruct (two_value Dd) as [H5 H6]; [lia|].
    rewrite !forallb_app, H2, H4, H6, H1, H3, H5. cbn [four two length app Nat.eqb andb].
    replace ((1 <=? M) && (M <=? 12) && (1 <=? Dd) && (Dd <=? month_days Y M)) with true by lia. done.
Qed.

Lemma split_on_three sep s a b c : split_on sep s = [a; b; c] -> s = a ++ [sep] ++ b ++ [sep] ++ c.
Proof.
  assert (Hjoin : forall t, exists l, split_on sep t = (fst l) :: snd l /\ t = fst l ++ concat ((fun e => sep :: e) <$> snd l)).
  { clear. intros t. induction t as [|x t ([w ws] & He & Ht)]; [by exists ([], [])|]. cbn in He, Ht. cbn [split_on]. rewrite He.
    destruct (Ascii.eqb_spec x sep) as [->|]; [exists ([], w :: ws)|exists (x :: w, ws)]; (split; [done|]); cbn; by rewrite Ht at 1. }
  destruct (Hjoin s) as ([w ws] & He & ->). rewrite He. cbn. intros [= -> ->]. cbn. by rewrite app_nil_r.
Qed.
Lemma digits_no_sep sep t : forallb is_digit t = true -> is_digit sep = false -> sep ∉ t.
Proof. intros Ht Hs Hin. apply list_elem_of_In in Hin. rewrite forallb_forall in Ht. apply Ht in Hin. congruence. Qed.
Lemma split_three sep a b c : is_digit sep = false -> forallb is_digit a = true -> forallb is_digit b = true -> forallb is_digit c = true ->
  split_on sep (a ++ [sep] ++ b ++ [sep] ++ c) = [a; b; c].
Proof.
  intros Hs Ha Hb Hc. cbn [app]. rewrite !split_on_app, !split_on_word by by apply digits_no_sep. done.
Qed.

(** A date is read exactly when it is one the calendar has, written in one of the three
    ways; no text is read as two different dates. *)
Theorem flexible_dates s y m d : ParseFlexibleDate s = Some (y, m, d) <-> valid_date y m d /\ s ∈ printed y m d.
Proof.
  unfold printed. rewrite !elem_of_cons, elem_of_nil. split.
  - unfold ParseFlexibleDate. destruct (bool_decide (s = [])); [done|]. unfold supportedDateFormats, first_layout.
    assert (Hp : forall sep first, parse_layout (sep, first) s = Some (y, m, d) -> valid_date y m d /\
      s = if first : bool then four y ++ [sep] ++ two m ++ [sep] ++ two d else two d ++ [sep] ++ two m ++ [sep] ++ four y).
    { intros sep first. unfold parse_layout. cbn [fst snd]. destruct (split_on sep s) as [|a [|b [|c []]]] eqn:Hs; try done.
      apply split_on_three in Hs. destruct first; intros (Hv & -> & -> & ->)%date_of_spec; done. }
    destruct (parse_layout ("/"%char, false) s) eqn:H1; [intros [= ->]; apply Hp in H1; naive_solver|].
    destruct (parse_layout ("-"%char, false) s) eqn:H2; [intros [= ->]; apply Hp in H2; naive_solver|].
    destruct (parse_layout ("-"%char, true) s) eqn:H3; [intros [= ->]; apply Hp in H3; naive_solver|done].
  - intros [Hv Hs]. pose proof Hv as (Hy & Hm & Hd). pose proof (month_days_le y m).
    destruct (four_value y Hy) as [_ Fy], (two_value m) as [_ Fm], (two_value d) as [_ Fd]; [lia..|].
    assert (Hdate : date_of (four y) (two m) (two d) = Some (y, m, d)) by by apply date_of_spec.
    unfold ParseFlexibleDate, supportedDateFormats, first_layout, parse_layout. cbn [fst snd].
    destruct Hs as [->|[->|[->|[]]]]; (rewrite bool_decide_eq_false_2 by done).
    + by rewrite split_three, Hdate.
    + rewrite (split_on_word "/"%char) by (rewrite !not_elem_of_app, list_elem_of_singleton; repeat split; (done || by apply digits_no_sep)).
      by rewrite split_three, Hdate.
    + rewrite (split_on_word "/"%char) by (rewrite !not_elem_of_app, list_elem_of_singleton; repeat split; (done || by apply digits_no_sep)).
      rewrite split_three by done. unfold date_of at 1. cbn [two length Nat.eqb andb]. by rewrite Hdate.
Qed.

(** ** Names *)

(** What [collapseSpaces] leaves has no white space but single blanks, and is left as it is
    by doing it again. *)
Fixpoint single_blanks (after : bool) (rs : list Z) : bool :=
  match rs with
  | [] => true
  | r :: rs => if IsSpace r then negb after && (r =? 32) && single_blanks true rs else single_blanks false rs
  end.
Theorem collapse_single rs b : single_blanks b (collapse b rs) = true /\ collapse b (collapse b rs) = collapse b rs.
Proof.
  revert b. induction rs as [|r rs IH]; intros b; [done|]. cbn [collapse]. destruct (IsSpace r) eqn:Hr.
  - destruct b; [apply IH|]. cbn [single_blanks collapse]. change (IsSpace 32) with true. cbn [negb andb]. destruct (IH true) as [H1 H2]. by rewrite H1, H2.
  - cbn [single_blanks collapse]. rewrite Hr. destruct (IH false) as [H1 H2]. by rewrite H1, H2.
Qed.

(** ** The workflow *)

(** The approval process is one the engine registers, whatever its ports. *)
Theorem approval_registers {DB} (e : Engine DB) :
  exists e', Register e ApprovalDefinition = Ok e' /\ e_definitions e' !! Definitions.Key ApprovalDefinition = Some ApprovalDefinition.
Proof.
  unfold Register. rewrite (bool_decide_eq_true_2 (Validate ApprovalDefinition = [])) by by vm_compute.
  unfold checkEffects. change (Definitions.EffectNames ApprovalDefinition) with (@nil string). eexists. split; [done|].
  cbn [with_registries e_definitions]. apply lookup_insert_eq.
Qed.

(** ** An example *)

From S2P Require Import Postgres Scenario.

Module ApiSample.

Definition desk : Engine Tables := New ports [ApprovalDefinition].
Definition calm : conn := mkConn (fun _ => false) 0.
Definition keep (t : text) : text := t.
Definition request : createDocumentRequest := mkCreateRequest (bytes_of "Lease") (bytes_of "contract") (bytes_of "31/12/2024").
Definition start : api Tables := mkApi db0 (mkDatabase ∅ [] []).
Definition outcome : api Tables * option reply := Create_handler keep keep keep desk calm (at_call 1) "ana" (inr request) 7 0 start.

Definition lease : Document := mkDocument 7 "Lease" "contract" (2024, 12, 31) "" FileStatusNone "" None "" "" "ana" 0.
Example outcome_created : outcome.2 = Some (RData 201 "OK" (DDocument lease)).
Proof. by vm_compute. Qed.

Lemma create_atomic_witness : exists doc wfCase, outcome.2 = Some (RData 201 "OK" (DDocument doc)) /\ OwnerID doc = "ana" /\
  db_audit (ap_db outcome.1) = [created_entry doc wfCase].
Proof.
  destruct (create_atomic keep keep keep desk calm (at_call 1) "ana" (inr request) 7 0 start outcome.1 outcome.2) as [(req & doc & wfCase & H)|[_ H]].
  - unfold outcome. apply surjective_pairing.
  - destruct H as (_ & _ & Hr & (issuedAt & _ & Hd & _) & _ & _ & Hdb). exists doc, wfCase. split; [exact Hr|]. split; [by rewrite Hd|].
    rewrite Hdb. reflexivity.
  - exfalso. exact (H _ _ outcome_created).
Defined.

Definition parse_one (t : text) : option uuid := if bool_decide (t = bytes_of (uuid_String 7)) then Some 7%N else None.
Definition with_lease : World attr (api Tables) := mkWorld ∅ ∅ (mkApi db0 (mkDatabase {[7%N := lease]} [] [])).
Definition ana : AccessCtx := mkAccessCtx (Some (mkAuthPrincipal 1 "ana" ["author"])) None.
Definition of_seven : parameters := mkParameters (fun _ => []) (fun _ => bytes_of (uuid_String 7)).


End ApiSample.
