(* ===== verification/Bucket.v ===== *)
(** The example's object store ([examples/api/fakestorage.go]): objects in memory under a cap
    on their total size, presigned URLs that carry a keyed hash of what they allow, and the
    HTTP endpoint that honours them.

    A URL is its path below the store's and its query, as [net/url] reads back what it wrote.
    The keyed hash is an argument.  Instants and durations are nanoseconds.

    What the example's object store guarantees: its count of bytes is exact and within the
    cap, a presigned URL allows what it was signed for and nothing else, and what is put
    through one is got through another. *)

From stdpp Require Import base gmap list strings.
From Stdlib Require Import ZArith Lia Ascii ZifyBool.
From S2P Require Import Prelude GoStrings GoText Middleware Requests Storage ActionFacts.

Open Scope string_scope.
Open Scope list_scope.
Open Scope Z_scope.

Definition fakeStoragePath : string := "/fake-storage/".
Definition fakePresignExpiry : Z := 15 * 60 * S3.second.
Definition fakeMaxPresignExpiry : Z := 3600 * S3.second.
Definition fakeMaxTotalBytes : Z := Z.shiftl 256 20.
Definition fakeMaxUnsignedPutBytes : Z := Z.shiftl 32 20.

Record fakeObject := mkFakeObject { fo_data : text; fo_contentType : text }.
Record fakeStorage := mkFakeStorage { fs_objects : gmap string fakeObject; fs_totalBytes : Z; fs_maxTotalBytes : Z }.
Definition newFakeStorage : fakeStorage := mkFakeStorage ∅ 0 fakeMaxTotalBytes.

Definition size_at (key : string) (s : fakeStorage) : Z :=
  match fs_objects s !! key with Some o => Z.of_nat (length (fo_data o)) | None => 0 end.

(** [put]: nothing when the bucket would be full. *)
Definition put (key : string) (data contentType : text) (s : fakeStorage) : option fakeStorage :=
  let total := fs_totalBytes s - size_at key s + Z.of_nat (length data) in
  if fs_maxTotalBytes s <? total then None
  else Some (mkFakeStorage (<[key := mkFakeObject data contentType]> (fs_objects s)) total (fs_maxTotalBytes s)).

(** [Upload], [Download] and [Delete] of the port. *)
Definition fake_Upload (key : string) (body : reader) (contentType : text) (s : fakeStorage) : fakeStorage * bool :=
  match rd_error body with
  | Some _ => (s, false)
  | None => match put key (rd_data body) contentType s with Some s' => (s', true) | None => (s, false) end
  end.
Definition fake_Download (key : string) (s : fakeStorage) : S3.s3_error + fakeObject :=
  match fs_objects s !! key with Some o => inr o | None => inl S3.ErrNotFound end.
Definition fake_Delete (key : string) (s : fakeStorage) : fakeStorage :=
  mkFakeStorage (delete key (fs_objects s)) (fs_totalBytes s - size_at key s) (fs_maxTotalBytes s).

(** ** Signing *)

Definition presignExpiry (expiry : Z) : Z := if expiry <=? 0 then fakePresignExpiry else expiry.
(** [Time.Unix]. *)
Definition unix (ns : Z) : Z := ns / S3.second.
Definition expiresAt (now expiry : Z) : S3.s3_error + Z :=
  let d := presignExpiry expiry in
  if fakeMaxPresignExpiry <? d then inl S3.ErrPresignExpiryTooLong else inr (unix (now + d)).

(** [fmt.Fprintf("%d:%s;", len(f), f)]. *)
Definition signed_field (f : text) : text := bytes_of (itoa (Z.of_nat (length f))) ++ [":"%char] ++ f ++ [";"%char].

Record signed_url := mkURL { su_key : string; su_query : list (string * text) }.
(** [url.Values.Get]. *)
Definition Get (q : list (string * text)) (name : string) : text :=
  match List.find (fun kv => bool_decide (kv.1 = name)) q with Some kv => kv.2 | None => [] end.

Definition GET : text := bytes_of "GET".
Definition PUT : text := bytes_of "PUT".

Section Signed.
Context (hmac : text -> text).

Definition sign (fields : list text) : text := hmac (concat (signed_field <$> fields)).

Definition fake_PresignedGetURL (now : Z) (key : string) (expiry : Z) (opts : list (option PresignGetOption)) : S3.s3_error + signed_url :=
  match expiresAt now expiry with
  | inl e => inl e
  | inr expires =>
      let o := ApplyPresignGetOptions opts in
      let exp := bytes_of (itoa expires) in
      inr (mkURL key [("expires", exp); ("disposition", go_ContentDisposition o); ("response_content_type", go_ContentType o);
                      ("sig", sign [GET; bytes_of key; exp; go_ContentDisposition o; go_ContentType o])])
  end.

Definition fake_PresignedPutURL (now : Z) (key : string) (contentType : text) (expiry : Z) (opts : list (option Z)) : S3.s3_error + signed_url :=
  match expiresAt now expiry with
  | inl e => inl e
  | inr expires =>
      let o := ApplyPresignPutOptions opts in
      if match o with Some n => n <=? 0 | None => false end then inl S3.ErrInvalidContentLength
      else
        let exp := bytes_of (itoa expires) in
        let length := match o with Some n => bytes_of (itoa n) | None => [] end in
        inr (mkURL key ([("expires", exp); ("content_type", contentType)]
                        ++ (if bool_decide (length = []) then [] else [("content_length", length)])
                        ++ [("sig", sign [PUT; bytes_of key; exp; contentType; length])]))
  end.

(** ** The endpoint *)

(** A request's header, its declared length (-1 when unknown) and its body. *)
Record put_request := mkPutRequest { pq_contentType : text; pq_contentLength : Z; pq_body : reader }.
Inductive bucket_reply := BStatus (status : Z) | BObject (contentType disposition data : text).
Definition bucket_status (r : bucket_reply) : Z := match r with BStatus s => s | BObject _ _ _ => 200 end.

(** [authorize]. *)
Definition authorize (now : Z) (q : list (string * text)) (fields : list text) : bool :=
  bool_decide (Get q "sig" = sign fields)
  && match ParseInt (Get q "expires") with Some expires => unix now <=? expires | None => false end.

Definition servePut (now : Z) (key : string) (q : list (string * text)) (r : put_request) (s : fakeStorage) : fakeStorage * bucket_reply :=
  let contentType := Get q "content_type" in
  let len := Get q "content_length" in
  if negb (authorize now q [PUT; bytes_of key; Get q "expires"; contentType; len]) then (s, BStatus 403)
  else if negb (bool_decide (pq_contentType r = contentType)) then (s, BStatus 403)
  else
    let limit := if bool_decide (len = []) then Some fakeMaxUnsignedPutBytes
                 else match ParseInt len with
                      | Some n => if pq_contentLength r =? n then Some n else None
                      | None => None
                      end in
    match limit with
    | None => (s, BStatus 403)
    | Some limit =>
        let data := rd_data (pq_body r) in
        if Z.max 0 limit <? Z.of_nat (length data) then (s, BStatus 413) (* [MaxBytesReader] reads a negative limit as zero *)
        else match rd_error (pq_body r) with
             | Some _ => (s, BStatus 400)
             | None =>
                 if negb (bool_decide (len = [])) && negb (Z.of_nat (length data) =? limit) then (s, BStatus 403)
                 else match put key data contentType s with
                      | None => (s, BStatus 507)
                      | Some s' => (s', BStatus 200)
                      end
             end
    end.

Definition serveGet (now : Z) (key : string) (q : list (string * text)) (s : fakeStorage) : bucket_reply :=
  let disposition := Get q "disposition" in
  let contentType := Get q "response_content_type" in
  if negb (authorize now q [GET; bytes_of key; Get q "expires"; disposition; contentType]) then BStatus 403
  else match fs_objects s !! key with
       | None => BStatus 404
       | Some o => BObject contentType disposition (fo_data o)
       end.

(** [Handler]. *)
Inductive bucket_method := MPut (r : put_request) | MGet | MOther.
Definition bucket_Handler (now : Z) (path : string) (q : list (string * text)) (m : bucket_method) (s : fakeStorage) : fakeStorage * bucket_reply :=
  match strip_prefix (bytes_of fakeStoragePath) (bytes_of path) with
  | None | Some [] => (s, BStatus 404)
  | Some key =>
      match m with
      | MPut r => servePut now (string_of key) q r s
      | MGet => (s, serveGet now (string_of key) q s)
      | MOther => (s, BStatus 405)
      end
  end.

End Signed.

(** ** The cap *)

Definition size_of (o : fakeObject) : Z := Z.of_nat (length (fo_data o)).
Definition total (m : gmap string fakeObject) : Z := map_fold (fun _ o n => size_of o + n) 0 m.
Definition counted (s : fakeStorage) : Prop := fs_totalBytes s = total (fs_objects s) /\ fs_totalBytes s <= fs_maxTotalBytes s.

Lemma total_insert_new m k o : m !! k = None -> total (<[k := o]> m) = size_of o + total m.
Proof. intros Hk. unfold total. apply (map_fold_insert_L (fun _ o n => size_of o + n)); [|done]. intros. lia. Qed.
Lemma total_delete m k : total (delete k m) = total m - match m !! k with Some o => size_of o | None => 0 end.
Proof.
  destruct (m !! k) as [o|] eqn:Hk; [|by rewrite delete_id, Z.sub_0_r].
  rewrite <- (insert_delete_id m k o Hk) at 2. rewrite total_insert_new by apply lookup_delete_eq. lia.
Qed.
Lemma total_insert m k o : total (<[k := o]> m) = total m - match m !! k with Some o => size_of o | None => 0 end + size_of o.
Proof. rewrite <- insert_delete_eq, total_insert_new by apply lookup_delete_eq. rewrite total_delete. lia. Qed.

Lemma put_counted key data ct s s' : counted s -> put key data ct s = Some s' -> counted s'.
Proof.
  intros [Ht Hm]. unfold put. destruct (Z.ltb_spec (fs_maxTotalBytes s) (fs_totalBytes s - size_at key s + Z.of_nat (length data))); [done|].
  intros [= <-]. split; cbn; [|lia]. rewrite total_insert, Ht. unfold size_at, size_of. cbn. by destruct (fs_objects s !! key).
Qed.
Lemma size_at_nonneg key s : 0 <= size_at key s.
Proof. unfold size_at. destruct (fs_objects s !! key); lia. Qed.
Lemma delete_counted key s : counted s -> counted (fake_Delete key s).
Proof.
  intros [Ht Hm]. pose proof (size_at_nonneg key s). split; cbn; [|lia]. rewrite total_delete, Ht. unfold size_at, size_of. done.
Qed.

(** ** Signatures *)

Lemma first_sep_inj (c : ascii) (a b x y : text) : c ∉ a -> c ∉ b -> a ++ c :: x = b ++ c :: y -> a = b /\ x = y.
Proof.
  revert b. induction a as [|d a IH]; intros [|e b] Ha Hb H; cbn in H.
  - by injection H.
  - injection H as -> H. exfalso. apply Hb. by left.
  - injection H as -> H. exfalso. apply Ha. by left.
  - injection H as -> H. apply not_elem_of_cons in Ha as [_ Ha], Hb as [_ Hb]. by destruct (IH b Ha Hb H) as [-> ->].
Qed.
Lemma itoa_no_colon n : ":"%char ∉ bytes_of (itoa n).
Proof.
  intros Hin. pose proof (itoa_no_char ":"%char n eq_refl) as Hn. rewrite <- (string_bytes (itoa n)) in Hn. unfold string_of in Hn.
  rewrite has_char_list in Hn. apply not_true_iff_false in Hn. apply Hn, List.existsb_exists. exists ":"%char. by rewrite <- list_elem_of_In.
Qed.
(** The text that is hashed tells the fields apart. *)
Lemma signed_fields_inj l l' : concat (signed_field <$> l) = concat (signed_field <$> l') -> l = l'.
Proof.
  revert l'. induction l as [|f l IH]; intros [|f' l'] H; [done|..].
  - apply (f_equal length) in H. cbn in H. unfold signed_field in H. rewrite !length_app in H. cbn in H. lia.
  - apply (f_equal length) in H. cbn in H. unfold signed_field in H. rewrite !length_app in H. cbn in H. lia.
  - cbn [fmap list_fmap concat] in H. unfold signed_field at 1 3 in H. rewrite <- !app_assoc in H.
    apply (first_sep_inj ":"%char) in H as [Hl H]; [|apply itoa_no_colon..].
    assert (Hlen : length f = length f').
    { apply (f_equal string_of) in Hl. rewrite !string_bytes in Hl. apply itoa_inj in Hl. lia. }
    change (f ++ [";"%char] ++ concat (signed_field <$> l) = f' ++ [";"%char] ++ concat (signed_field <$> l')) in H.
    apply app_inj_1 in H as [-> H]; [|done]. injection H as H. f_equal. by apply IH.
Qed.

Lemma handler_at hmac now key q m s : key <> "" ->
  bucket_Handler hmac now (fakeStoragePath +:+ key) q m s =
  match m with MPut r => servePut hmac now key q r s | MGet => (s, serveGet hmac now key q s) | MOther => (s, BStatus 405) end.
Proof.
  intros Hk. unfold bucket_Handler. rewrite bytes_app. rewrite (proj2 (strip_prefix_Some _ _ (bytes_of key)) eq_refl). destruct (bytes_of key) as [|c l] eqn:E.
  - exfalso. apply Hk. by rewrite <- (string_bytes key), E.
  - by rewrite <- E, string_bytes.
Qed.

Section Signed.
Context (hmac : text -> text).
(** The hash of two texts never agrees. *)
Hypothesis hmac_inj : Inj (=) (=) hmac.

Lemma sign_inj l l' : sign hmac l = sign hmac l' -> l = l'.
Proof. intros H%hmac_inj. by apply signed_fields_inj. Qed.

(** What a URL signed for an upload says. *)
Lemma put_url_query now key ct expiry opts url : fake_PresignedPutURL hmac now key ct expiry opts = inr url ->
  exists expires, expiresAt now expiry = inr expires /\ su_key url = key /\
    let len := match ApplyPresignPutOptions opts with Some n => bytes_of (itoa n) | None => [] end in
    Get (su_query url) "expires" = bytes_of (itoa expires) /\ Get (su_query url) "content_type" = ct /\ Get (su_query url) "content_length" = len /\
    Get (su_query url) "sig" = sign hmac [PUT; bytes_of key; bytes_of (itoa expires); ct; len] /\
    (forall n, ApplyPresignPutOptions opts = Some n -> 0 < n).
Proof.
  unfold fake_PresignedPutURL. destruct (expiresAt now expiry) as [?|expires]; [done|]. set (o := ApplyPresignPutOptions opts).
  destruct (match o with Some n => n <=? 0 | None => false end) eqn:Hn; [done|]. intros [= <-]. exists expires. split; [done|]. split; [done|]. cbn zeta.
  assert (Hpos : forall n, o = Some n -> 0 < n) by (intros n ->; lia).
  destruct (bool_decide_reflect (match o with Some n => bytes_of (itoa n) | None => [] end = [])) as [He|He].
  - rewrite He. done.
  - done.
Qed.

Lemma servePut_accepted now key q r s s' reply : servePut hmac now key q r s = (s', reply) -> bucket_status reply = 200 ->
  Get q "sig" = sign hmac [PUT; bytes_of key; Get q "expires"; Get q "content_type"; Get q "content_length"] /\
  (exists expires, ParseInt (Get q "expires") = Some expires /\ unix now <= expires) /\
  pq_contentType r = Get q "content_type" /\ rd_error (pq_body r) = None /\
  (if bool_decide (Get q "content_length" = []) then Z.of_nat (length (rd_data (pq_body r))) <= fakeMaxUnsignedPutBytes
   else ParseInt (Get q "content_length") = Some (Z.of_nat (length (rd_data (pq_body r))))) /\
  put key (rd_data (pq_body r)) (Get q "content_type") s = Some s'.
Proof.
  unfold servePut, authorize. destruct (bool_decide_reflect (Get q "sig" = sign hmac [PUT; bytes_of key; Get q "expires"; Get q "content_type"; Get q "content_length"])) as [Hs|]; cbn [andb negb];
    [|by intros [= <- <-]].
  destruct (ParseInt (Get q "expires")) as [expires|] eqn:Hx; cbn [negb]; [|by intros [= <- <-]].
  destruct (Z.leb_spec (unix now) expires) as [He|]; cbn [negb]; [|by intros [= <- <-]].
  destruct (bool_decide_reflect (pq_contentType r = Get q "content_type")) as [Hct|]; cbn [negb]; [|by intros [= <- <-]].
  destruct (bool_decide_reflect (Get q "content_length" = [])) as [Hl|Hl]; cbn [negb andb].
  - destruct (Z.ltb_spec (Z.max 0 fakeMaxUnsignedPutBytes) (Z.of_nat (length (rd_data (pq_body r))))); [by intros [= <- <-]|].
    destruct (rd_error (pq_body r)) eqn:Hr; [by intros [= <- <-]|]. destruct (put _ _ _ s) eqn:Hp; [|by intros [= <- <-]].
    intros [= <- <-] _. replace (Z.max 0 fakeMaxUnsignedPutBytes) with fakeMaxUnsignedPutBytes in * by done. eauto 10.
  - destruct (ParseInt (Get q "content_length")) as [n|] eqn:Hn; [|by intros [= <- <-]].
    destruct (Z.eqb_spec (pq_contentLength r) n); [|by intros [= <- <-]].
    destruct (Z.ltb_spec (Z.max 0 n) (Z.of_nat (length (rd_data (pq_body r))))); [by intros [= <- <-]|].
    destruct (rd_error (pq_body r)) eqn:Hr; [by intros [= <- <-]|].
    destruct (Z.eqb_spec (Z.of_nat (length (rd_data (pq_body r)))) n) as [<-|]; cbn [negb]; [|by intros [= <- <-]].
    destruct (put _ _ _ s) eqn:Hp; [|by intros [= <- <-]]. intros [= <- <-] _. eauto 10.
Qed.


(** What is put through a URL signed for it is got, with the type and disposition chosen for
    the download, through a URL signed for that; both through the endpoint. *)
Theorem put_get_roundtrip now key ct expiry opts url n now' r s now2 expiry2 gets url2 now3 :
  key <> "" -> min_int64 <= unix now' -> min_int64 <= unix now3 ->
  fake_PresignedPutURL hmac now key ct expiry opts = inr url -> ApplyPresignPutOptions opts = Some n ->
  n <= max_int64 -> (forall x, expiresAt now expiry = inr x -> unix now' <= x <= max_int64) ->
  pq_contentType r = ct -> pq_contentLength r = n -> rd_error (pq_body r) = None -> Z.of_nat (length (rd_data (pq_body r))) = n ->
  fs_totalBytes s - size_at key s + n <= fs_maxTotalBytes s ->
  fake_PresignedGetURL hmac now2 key expiry2 gets = inr url2 -> (forall x, expiresAt now2 expiry2 = inr x -> unix now3 <= x <= max_int64) ->
  exists s', bucket_Handler hmac now' (fakeStoragePath +:+ key) (su_query url) (MPut r) s = (s', BStatus 200) /\
    bucket_Handler hmac now3 (fakeStoragePath +:+ key) (su_query url2) MGet s' =
      (s', BObject (go_ContentType (ApplyPresignGetOptions gets)) (go_ContentDisposition (ApplyPresignGetOptions gets)) (rd_data (pq_body r))).
Proof.
  intros Hkey Hlo Hlo3 Hu Ho Hn Hx Hct Hcl Herr Hlen Hfit Hg Hx2.
  apply put_url_query in Hu as (e & He & _ & H1 & H2 & H3 & H4 & Hpos). rewrite Ho in H3, H4. specialize (Hpos n Ho). destruct (Hx e He) as [Hb1 Hb2].
  assert (Hparse : forall z, min_int64 <= z <= max_int64 -> ParseInt (bytes_of (itoa z)) = Some z).
  { intros z Hz. rewrite int64_roundtrip. by replace ((min_int64 <=? z) && (z <=? max_int64)) with true by lia. }
  assert (min_int64 <= n) by (unfold min_int64; lia).
  set (s' := mkFakeStorage (<[key := mkFakeObject (rd_data (pq_body r)) ct]> (fs_objects s)) (fs_totalBytes s - size_at key s + n) (fs_maxTotalBytes s)).
  exists s'. rewrite !handler_at by done. split.
  - unfold servePut, authorize. rewrite H1, H2, H3, H4, bool_decide_eq_true_2 by done. rewrite (Hparse e), (Hparse n) by lia.
    rewrite Hct, bool_decide_eq_true_2 by done. replace (unix now' <=? e) with true by lia. cbn [negb andb].
    assert (Hne : bytes_of (itoa n) <> []) by (intros E; specialize (Hparse n ltac:(lia)); by rewrite E in Hparse).
    rewrite !(bool_decide_eq_false_2 _ Hne), Hcl, Z.eqb_refl, Hlen, Z.max_r, Z.ltb_irrefl, Herr, Z.eqb_refl by lia. cbn [negb andb].
    unfold put. rewrite Hlen. by replace (fs_maxTotalBytes s <? fs_totalBytes s - size_at key s + n) with false by lia.
  - f_equal. unfold fake_PresignedGetURL in Hg. destruct (expiresAt now2 expiry2) as [|e2] eqn:He2; [done|]. injection Hg as <-. destruct (Hx2 e2 eq_refl).
    unfold serveGet, authorize, Get. cbn [su_query List.find fst snd]. rewrite !bool_decide_eq_true_2, ?bool_decide_eq_false_2 by done. cbn [snd].
    rewrite Hparse by lia. replace (unix now3 <=? e2) with true by lia. cbn [negb andb]. subst s'. cbn [fs_objects]. by rewrite lookup_insert_eq.
Qed.

End Signed.

Module BucketSample.

Definition opts : list (option Z) := [Some 3].
Definition body : text := bytes_of "%PD".
Definition request : put_request := mkPutRequest (bytes_of "application/pdf") 3 (mkReader body None).
Definition url : signed_url :=
  mkURL "uploads/u1" [("expires", bytes_of "1600"); ("content_type", bytes_of "application/pdf"); ("content_length", bytes_of "3");
    ("sig", sign (fun x => x) [PUT; bytes_of "uploads/u1"; bytes_of "1600"; bytes_of "application/pdf"; bytes_of "3"])].
Definition after : fakeStorage := mkFakeStorage {[ "uploads/u1" := mkFakeObject body (bytes_of "application/pdf") ]} 3 fakeMaxTotalBytes.


End BucketSample.
