(* ===== verification/Workers.v ===== *)
(** The worker package around River ([worker/worker.go], [river.go], [requestid.go],
    [metrics.go], [schema.go]): the configuration of a client, the chain of middlewares, the
    request ID that travels in a job's metadata, the histogram of job attempts, and the name
    of the schema.

    River's client is not modelled; what it does with the chain is: the first middleware is
    the outermost.  A middleware of the consumer is what it does to the parameters of an
    insert and around a job.  Metadata is empty, a JSON value, or bytes that are no JSON.

    What the worker package guarantees: the chain of middlewares of every client, the
    request ID from the process that enqueues a job to the one that works it, one sample of
    the histogram for each attempt, and a schema statement that cannot be escaped. *)

From stdpp Require Import base gmap list sorting strings.
From Stdlib Require Import ZArith Lia Ascii.
From S2P Require Import Prelude GoStrings GoText Action IdempotencyHttp Requests Storage ProcessForm.

Open Scope string_scope.
Open Scope list_scope.
Open Scope Z_scope.

(** ** The request ID of a job *)

Definition requestIDMetadataKey : string := "vogel_request_id".

Inductive metadata := MEmpty | MBroken (raw : text) | MJson (v : jval).

(** A [map[string]json.RawMessage] decoded from an object, and encoded again: the last of
    equal keys, in the order of the keys. *)
Definition decode_map (fields : list (string * jval)) : gmap string jval := list_to_map (reverse fields).
Definition key_le (a b : string * jval) : Prop := String.le a.1 b.1.
#[export] Instance key_le_dec a b : Decision (key_le a b).
Proof. unfold key_le. apply _. Defined.
Definition encode_map (m : gmap string jval) : list (string * jval) := merge_sort key_le (map_to_list m).

(** A string as JSON gives it back: bytes that are no UTF-8 are replaced. *)
Definition json_string (s : string) : string := string_of (utf8 (runes (bytes_of s))).

Definition withRequestID (m : metadata) (id : string) : metadata :=
  match (match m with
         | MEmpty => Some ∅
         | MJson (JvObj fields) => Some (decode_map fields)
         | MJson _ | MBroken _ => None
         end : option (gmap string jval)) with
  | None => m
  | Some fields =>
      match fields !! requestIDMetadataKey with
      | Some _ => m
      | None => MJson (JvObj (encode_map (<[requestIDMetadataKey := JvStr (json_string id)]> fields)))
      end
  end.

(** The struct with the one field; other keys are passed over. *)
Definition set_request_id (k : string) (v : jval) (id : string) : option string :=
  if EqualFold k requestIDMetadataKey then dec_string id v else Some id.
Definition requestIDFromMetadata (m : metadata) : string :=
  match m with
  | MJson v => default "" (dec_struct set_request_id v "")
  | MEmpty | MBroken _ => ""
  end.

(** ** Middlewares *)

(** A context, as far as this package reads it. *)
Record wctx := mkWctx { wc_RequestID : string }.

(** What a middleware is around: the samples of the histogram, each a kind and an outcome,
    and how the job ended. *)
Definition samples : Type := list (string * string).
Definition inner : Type := wctx -> samples -> samples * hres.

(** A middleware of the consumer. *)
Record user_mw := mkUserMw { um_InsertMany : wctx -> list metadata -> list metadata; um_Work : string -> metadata -> inner -> inner }.

Inductive middleware := RequestIDMiddleware | MetricsMiddleware | UserMiddleware (u : user_mw).

Definition InsertMany (mw : middleware) (c : wctx) (ps : list metadata) : list metadata :=
  match mw with
  | RequestIDMiddleware =>
      if bool_decide (wc_RequestID c = "") then ps else (fun m => withRequestID m (wc_RequestID c)) <$> ps
  | MetricsMiddleware => ps
  | UserMiddleware u => um_InsertMany u c ps
  end.

Definition requestID_Work (m : metadata) (next : inner) : inner := fun c o =>
  let id := requestIDFromMetadata m in
  next (if bool_decide (id = "") then c else mkWctx id) o.

(** [jobOutcome]. *)
Definition outcomeSuccess : string := "success".
Definition outcomeError : string := "error".
Definition outcomeCancel : string := "cancel".
Definition outcomeSnooze : string := "snooze".
Definition outcomePanic : string := "panic".
Definition jobOutcome (e : option herr) : string :=
  match e with
  | None => outcomeSuccess
  | Some e => if is_kind RiverSnooze e then outcomeSnooze else if is_kind RiverCancel e then outcomeCancel else outcomeError
  end.

Definition metrics_Work (kind : string) (next : inner) : inner := fun c o =>
  let '(o, r) := next c o in
  (o ++ [(kind, match r with Returned e => jobOutcome e | Panicked => outcomePanic end)], r).

Definition mw_Work (kind : string) (m : metadata) (mw : middleware) (next : inner) : inner :=
  match mw with
  | RequestIDMiddleware => requestID_Work m next
  | MetricsMiddleware => metrics_Work kind next
  | UserMiddleware u => um_Work u kind m next
  end.

(** River's order: the first of the chain is the outermost. *)
Fixpoint insert_chain (chain : list middleware) (c : wctx) (ps : list metadata) : list metadata :=
  match chain with [] => ps | mw :: chain => insert_chain chain c (InsertMany mw c ps) end.
Fixpoint work_chain (kind : string) (m : metadata) (chain : list middleware) (work : inner) : inner :=
  match chain with [] => work | mw :: chain => mw_Work kind m mw (work_chain kind m chain work) end.

(** ** The configuration of a client *)

(** [Config] of the package, and [options]; the registerer's answer is whether the
    collector could be registered or reused. *)
Record WorkConfig := mkWorkConfig { wk_Schema : string; wk_DefaultMaxWorkers : Z; wk_Queues : gmap string Z; wk_PollOnly : bool }.
Record options (periodic : Type) := mkOptions { op_periodicJobs : list periodic; op_metrics : bool; op_middleware : list middleware }.
Arguments mkOptions {_} _ _ _.
Arguments op_periodicJobs {_} _.
Arguments op_metrics {_} _.
Arguments op_middleware {_} _.

Inductive Option (periodic : Type) := OptPeriodic (jobs : list periodic) | OptMetrics | OptMiddleware (mws : list user_mw).
Arguments OptPeriodic {_} _.
Arguments OptMetrics {_}.
Arguments OptMiddleware {_} _.

Section Client.
Context {periodic workers : Type}.

Definition apply_option (o : options periodic) (opt : Option periodic) : options periodic :=
  match opt with
  | OptPeriodic jobs => mkOptions jobs (op_metrics o) (op_middleware o)
  | OptMetrics => mkOptions (op_periodicJobs o) true (op_middleware o)
  | OptMiddleware mws => mkOptions (op_periodicJobs o) (op_metrics o) (op_middleware o ++ (UserMiddleware <$> mws))
  end.
Definition newOptions (opts : list (Option periodic)) : options periodic := fold_left apply_option opts (mkOptions [] false []).

(** [river.Config] as far as it is set. *)
Record river_config := mkRiverConfig {
  rc_Schema : string; rc_Middleware : list middleware; rc_Workers : option workers; rc_Queues : gmap string Z;
  rc_PollOnly : bool; rc_PeriodicJobs : list periodic }.

Definition QueueDefault : string := "default".
Definition buildQueueConfig (cfg : WorkConfig) : gmap string Z :=
  if bool_decide (size (wk_Queues cfg) = 0%nat) then {[QueueDefault := wk_DefaultMaxWorkers cfg]} else wk_Queues cfg.

Definition buildRiverConfig (cfg : WorkConfig) (ws : option workers) (jobs : list periodic) (metrics : bool) : river_config :=
  match ws with
  | None => mkRiverConfig (wk_Schema cfg) [RequestIDMiddleware] None ∅ false []
  | Some _ =>
      mkRiverConfig (wk_Schema cfg) (RequestIDMiddleware :: (if metrics then [MetricsMiddleware] else [])) ws
        (buildQueueConfig cfg) (wk_PollOnly cfg) jobs
  end.

(** Where the middlewares of the options go: after the request ID one, or at the front. *)
Fixpoint after_request_id (chain : list middleware) : option (list middleware * list middleware) :=
  match chain with
  | [] => None
  | RequestIDMiddleware :: rest => Some ([RequestIDMiddleware], rest)
  | mw :: rest => match after_request_id rest with Some (l, r) => Some (mw :: l, r) | None => None end
  end.
Definition applyMiddleware (o : options periodic) (rc : river_config) : river_config :=
  match op_middleware o with
  | [] => rc
  | mws =>
      let chain := match after_request_id (rc_Middleware rc) with
                   | Some (before, after) => before ++ mws ++ after
                   | None => mws ++ rc_Middleware rc
                   end in
      mkRiverConfig (rc_Schema rc) chain (rc_Workers rc) (rc_Queues rc) (rc_PollOnly rc) (rc_PeriodicJobs rc)
  end.

(** [buildMetrics]: whether the middleware is installed, or the registration failed. *)
Definition buildMetrics (o : options periodic) (ws : option workers) (registers : bool) : option bool :=
  if negb (op_metrics o) || negb (bool_decide (is_Some ws)) then Some false
  else if registers then Some true else None.

Inductive queue_error := EPoolRequired | ELoggerRequired | EMetrics | EClient.

(** [NewRiverQueue]: the configuration the client is made with. *)
Definition NewRiverQueue (has_pool has_logger : bool) (ws : option workers) (cfg : WorkConfig) (opts : list (Option periodic))
    (registers : bool) (accepts : river_config -> bool) : queue_error + river_config :=
  if negb has_pool then inl EPoolRequired
  else if negb has_logger then inl ELoggerRequired
  else
    let o := newOptions opts in
    match buildMetrics o ws registers with
    | None => inl EMetrics
    | Some metrics =>
        let rc := applyMiddleware o (buildRiverConfig cfg ws (op_periodicJobs o) metrics) in
        if accepts rc then inr rc else inl EClient
    end.

End Client.
Arguments river_config : clear implicits.

(** ** The schema *)

Definition schema_first (c : ascii) : bool :=
  let n := nat_of_ascii c in
  (97 <=? n)%nat && (n <=? 122)%nat || (65 <=? n)%nat && (n <=? 90)%nat || (n =? 95)%nat.
Definition schema_char (c : ascii) : bool := schema_first c || (let n := nat_of_ascii c in (48 <=? n)%nat && (n <=? 57)%nat).
Definition isValidSchemaName (s : text) : bool :=
  match s with
  | [] => false
  | c :: rest => (length s <=? 63)%nat && schema_first c && forallb schema_char rest
  end.

(** [pgx.Identifier.Sanitize]: zero bytes dropped, quotes doubled, all of it in quotes. *)
Definition quote : ascii := "034"%char.
Definition Sanitize (s : text) : text :=
  [quote] ++ concat ((fun c => if bool_decide (c = "000"%char) then [] else if bool_decide (c = quote) then [quote; quote] else [c]) <$> s)
  ++ [quote].

(** [EnsureSchema]: the statement it runs. *)
Definition EnsureSchema (has_pool : bool) (schema : text) : option text :=
  if negb (isValidSchemaName schema) then None
  else if negb has_pool then None
  else Some (bytes_of "CREATE SCHEMA IF NOT EXISTS " ++ Sanitize schema).

(** ** Reading the request ID *)

Definition is_key (kv : string * jval) : bool := EqualFold kv.1 requestIDMetadataKey.

(** Fields that give the key one value read as it, in any order. *)
Lemma read_fields l x a : (forall kv, kv ∈ l -> is_key kv = true -> kv.2 = JvStr x) ->
  dec_fields set_request_id l a = Some (if existsb is_key l then x else a).
Proof.
  revert a. induction l as [|[k v] l IH]; intros a H; [done|]. cbn [existsb].
  change (dec_fields set_request_id ((k, v) :: l) a)
    with (set_request_id k v a ≫= fun b => dec_fields set_request_id l b).
  destruct (is_key (k, v)) eqn:E; cbn [orb].
  - assert (set_request_id k v a = Some x) as ->.
    { unfold set_request_id. unfold is_key in E. cbn [fst] in E. rewrite E. by rewrite (H (k, v) ltac:(left) E : v = _). }
    cbn [mbind option_bind]. rewrite IH by (intros; apply H; [by right|done]). by destruct (existsb is_key l).
  - assert (set_request_id k v a = Some a) as -> by (unfold set_request_id; unfold is_key in E; cbn [fst] in E; by rewrite E).
    cbn [mbind option_bind]. apply IH. intros; apply H; [by right|done].
Qed.

(** The value PostgreSQL keeps in the column reads as the one that was written. *)
Lemma obj_insert_elem k v l kv : kv ∈ obj_insert k v l -> kv = (k, v) \/ kv ∈ l.
Proof.
  induction l as [|[k' v'] l IH]; cbn; [by intros ->%list_elem_of_singleton; left|].
  repeat case_match; rewrite ?elem_of_cons; naive_solver.
Qed.
Lemma obj_insert_new k v l : (k, v) ∈ obj_insert k v l.
Proof. induction l as [|[k' v'] l IH]; cbn; [by left|]. repeat case_match; rewrite ?elem_of_cons; naive_solver. Qed.
Lemma obj_insert_keep k v l kv : kv ∈ l -> kv.1 <> k -> kv ∈ obj_insert k v l.
Proof.
  induction l as [|[k' v'] l IH]; [by intros ?%elem_of_nil|]. intros Hin Hk. cbn. repeat case_match; rewrite ?elem_of_cons in *;
    repeat match goal with H : bool_decide _ = true |- _ => apply bool_decide_eq_true in H end; naive_solver.
Qed.
Lemma jsonb_fields number fields :
  exists fields', jsonb number (JvObj fields) = JvObj fields' /\
    (forall kv, kv ∈ fields' -> exists v, (kv.1, v) ∈ fields /\ kv.2 = jsonb number v) /\
    (forall k v, (k, v) ∈ fields -> exists v', (k, v') ∈ fields').
Proof.
  eexists. split; [reflexivity|]. set (l := map _ fields).
  assert (Hl : forall kv, kv ∈ l -> exists v, (kv.1, v) ∈ fields /\ kv.2 = jsonb number v).
  { intros kv (x & -> & Hx)%list_elem_of_fmap. destruct x as [k v]. eauto. }
  assert (Hl' : forall k v, (k, v) ∈ fields -> exists v', (k, v') ∈ l).
  { intros k v Hin. exists (jsonb number v). apply list_elem_of_fmap. by exists (k, v). }
  clearbody l.
  assert (G : forall l acc,
    (forall kv, kv ∈ fold_left (fun acc kv => obj_insert kv.1 kv.2 acc) l acc -> kv ∈ l \/ kv ∈ acc) /\
    (forall k v, (k, v) ∈ l \/ (k, v) ∈ acc -> exists v', (k, v') ∈ fold_left (fun acc kv => obj_insert kv.1 kv.2 acc) l acc)).
  { clear. induction l as [|[k v] l IH]; intros acc; cbn [fold_left fst snd].
    - split; [by right|]. intros k v [H|H]; [by apply elem_of_nil in H|eauto].
    - destruct (IH (obj_insert k v acc)) as [IH1 IH2]. split.
      + intros kv [H|[->|H]%obj_insert_elem]%IH1; rewrite elem_of_cons; auto.
      + intros k' v' H. rewrite elem_of_cons in H.
        destruct (decide (k' = k)) as [->|Hne]; [apply (IH2 k v); right; apply obj_insert_new|].
        apply (IH2 k' v'). destruct H as [[[= -> ->]|H]|H]; [done|by left|right; by apply obj_insert_keep]. }
  destruct (G l []) as [G1 G2]. split.
  - intros kv [H|H%elem_of_nil]%G1; [by apply Hl|done].
  - intros k v (v' & H)%Hl'. apply (G2 k v'). by left.
Qed.

(** Metadata nobody else wrote the ID into. *)
Definition unclaimed (m : metadata) : Prop :=
  match m with
  | MEmpty => True
  | MJson (JvObj fields) => forall kv, kv ∈ fields -> is_key kv = false
  | _ => False
  end.

Lemma key_is_key v : is_key (requestIDMetadataKey, v) = true.
Proof. vm_compute. reflexivity. Qed.

Lemma stamped_fields (fields : gmap string jval) id :
  (forall k v, fields !! k = Some v -> is_key (k, v) = false) ->
  (forall kv, kv ∈ encode_map (<[requestIDMetadataKey := JvStr id]> fields) -> is_key kv = true -> kv.2 = JvStr id) /\
  (requestIDMetadataKey, JvStr id) ∈ encode_map (<[requestIDMetadataKey := JvStr id]> fields).
Proof.
  intros H. assert (Hp : forall kv, kv ∈ encode_map (<[requestIDMetadataKey := JvStr id]> fields) <->
                                    <[requestIDMetadataKey := JvStr id]> fields !! kv.1 = Some kv.2).
  { intros [k v]. unfold encode_map. rewrite merge_sort_Permutation. apply elem_of_map_to_list. }
  split; [|apply Hp, lookup_insert_eq].
  intros [k v] Hin%Hp Hk. cbn in *. destruct (decide (k = requestIDMetadataKey)) as [->|Hne].
  - rewrite lookup_insert_eq in Hin. by injection Hin.
  - rewrite lookup_insert_ne in Hin by done. apply H in Hin. congruence.
Qed.
Lemma decode_map_elem fields k v : decode_map fields !! k = Some v -> (k, v) ∈ fields.
Proof. intros H%elem_of_list_to_map_2. by rewrite elem_of_reverse in H. Qed.

Lemma existsb_key l : (exists kv, kv ∈ l /\ is_key kv = true) -> existsb is_key l = true.
Proof. intros (kv & Hin & Hk). apply List.existsb_exists. exists kv. by rewrite <- list_elem_of_In. Qed.

(** Metadata that gives the key one value, however often and however it is written. *)
Definition carries (id : string) (m : metadata) : Prop :=
  exists fields, m = MJson (JvObj fields) /\ (exists kv, kv ∈ fields /\ is_key kv = true) /\
    forall kv, kv ∈ fields -> is_key kv = true -> kv.2 = JvStr id.

Lemma carries_read id m : carries id m -> requestIDFromMetadata m = id.
Proof.
  intros (fields & -> & He & Hv). unfold requestIDFromMetadata, dec_struct. rewrite (read_fields fields id) by done.
  by rewrite (existsb_key _ He).
Qed.
Lemma carries_jsonb number id v : carries id (MJson v) -> carries id (MJson (jsonb number v)).
Proof.
  intros (fields & [= ->] & (kv & Hin & Hk) & Hv). destruct (jsonb_fields number fields) as (l' & -> & G1 & G2).
  exists l'. split; [done|]. split.
  - destruct kv as [k v]. destruct (G2 _ _ Hin) as (v' & Hin'). by exists (k, v').
  - intros [k v] (w & Hw & E)%G1 Hk'. cbn in *. specialize (Hv (k, w) Hw Hk'). cbn in Hv. by rewrite E, Hv.
Qed.
(** What a worker reads of the metadata: the bytes, or what the [JSONB] column gives back. *)
Definition stored_as (m row : metadata) : Prop :=
  row = m \/ exists v number, m = MJson v /\ row = MJson (jsonb number v).
Lemma stored_carries id m row : stored_as m row -> carries id m -> carries id row.
Proof. intros [->|(v & number & -> & ->)]; [done|]. apply carries_jsonb. Qed.
(** What is stamped is carried. *)
Lemma stamp_carries m id : unclaimed m -> carries (json_string id) (withRequestID m id).
Proof.
  intros Hu. set (x := json_string id).
  assert (Hf : exists fields : gmap string jval, (forall k v, fields !! k = Some v -> is_key (k, v) = false) /\
    withRequestID m id = MJson (JvObj (encode_map (<[requestIDMetadataKey := JvStr x]> fields)))).
  { destruct m as [|raw|[| | | | | |fields]]; try done.
    - exists ∅. split; [|done]. intros k v H. by rewrite lookup_empty in H.
    - exists (decode_map fields). cbn in Hu. assert (Hd : forall k v, decode_map fields !! k = Some v -> is_key (k, v) = false)
        by (intros k v H; apply Hu; by apply decode_map_elem).
      split; [done|]. cbn. destruct (decode_map fields !! requestIDMetadataKey) as [v|] eqn:E; [|done].
      apply Hd in E. by rewrite key_is_key in E. }
  destruct Hf as (fields & Hn & ->). destruct (stamped_fields fields x Hn) as [H1 H2].
  eexists. split; [reflexivity|]. split; [|exact H1]. eexists. split; [exact H2|apply key_is_key].
Qed.

(** ** The chain *)

Definition option_middlewares {periodic} (opt : Option periodic) : list user_mw :=
  match opt with OptMiddleware mws => mws | _ => [] end.
Definition users {periodic} (opts : list (Option periodic)) : list user_mw := concat (option_middlewares <$> opts).
Definition wants_metrics {periodic} (opts : list (Option periodic)) : bool :=
  existsb (fun o => match o with OptMetrics => true | _ => false end) opts.

Lemma options_collected {periodic} (opts : list (Option periodic)) :
  op_middleware (newOptions opts) = UserMiddleware <$> users opts /\ op_metrics (newOptions opts) = wants_metrics opts.
Proof.
  unfold newOptions. assert (G : forall o, op_middleware (fold_left apply_option opts o) = op_middleware o ++ (UserMiddleware <$> users opts) /\
    op_metrics (fold_left apply_option opts o) = op_metrics o || wants_metrics opts).
  { induction opts as [|opt opts IH]; intros o; cbn [fold_left]; [by rewrite app_nil_r, orb_false_r|].
    destruct (IH (apply_option o opt)) as [-> ->]. unfold users in *. destruct opt; cbn [apply_option op_middleware op_metrics fmap list_fmap concat option_middlewares wants_metrics existsb].
    - done.
    - by rewrite orb_true_r.
    - rewrite fmap_app, app_assoc. done. }
  destruct (G (mkOptions [] false [])) as [-> ->]. done.
Qed.

(** Every client has the request ID first, the consumer's middlewares in the order given,
    and the histogram last, in a process that works jobs and asked for it; a client that
    only inserts has no queue, periodic job or histogram. *)
Theorem chain_shape {periodic workers} has_pool has_logger (ws : option workers) cfg (opts : list (Option periodic)) registers accepts rc :
  NewRiverQueue has_pool has_logger ws cfg opts registers accepts = inr rc ->
  rc_Middleware rc = RequestIDMiddleware :: (UserMiddleware <$> users opts)
                     ++ (if wants_metrics opts && bool_decide (is_Some ws) then [MetricsMiddleware] else []) /\
  rc_Schema rc = wk_Schema cfg /\
  match ws with
  | None => rc_Queues rc = ∅ /\ rc_PeriodicJobs rc = [] /\ rc_Workers rc = None
  | Some _ => rc_Queues rc = buildQueueConfig cfg /\ rc_PeriodicJobs rc = op_periodicJobs (newOptions opts) /\ rc_Workers rc = ws
  end.
Proof.
  unfold NewRiverQueue. destruct has_pool, has_logger; try done. cbn [negb]. unfold buildMetrics.
  destruct (options_collected opts) as [Hm Hw]. rewrite Hw.
  destruct ws as [w|].
  - rewrite bool_decide_eq_true_2 by done. cbn [negb]. rewrite orb_false_r, andb_true_r.
    destruct (wants_metrics opts); cbn [negb]; [destruct registers; [|done]|]; destruct (accepts _); try done; intros [= <-];
      unfold applyMiddleware; rewrite Hm; destruct (users opts) as [|u us]; cbn; try done;
      by rewrite ?app_nil_r.
  - rewrite bool_decide_eq_false_2 by (by intros [? ?]). rewrite andb_false_r. cbn [negb]. rewrite orb_true_r.
    destruct (accepts _); [|done]. intros [= <-]. unfold applyMiddleware. rewrite Hm. by destruct (users opts).
Qed.

(** ** A job from enqueue to work *)

Definition keeps_id (m m' : metadata) : Prop := forall id, carries id m -> carries id m'.
#[export] Instance keeps_id_preorder : PreOrder keeps_id.
Proof. split; [by intros m id|]. intros m1 m2 m3 H H' id Hc. by apply H', H. Qed.

(** A middleware that keeps the request ID metadata carries and that of contexts, and runs
    what it is around once. *)
Definition transparent (u : user_mw) : Prop :=
  (forall c ps, Forall2 keeps_id ps (um_InsertMany u c ps)) /\
  (forall kind m next c o, exists c', wc_RequestID c' = wc_RequestID c /\ um_Work u kind m next c o = next c' o).

Definition with_outcome (kind : string) (or : samples * hres) : samples * hres :=
  (or.1 ++ [(kind, match or.2 with Returned e => jobOutcome e | Panicked => outcomePanic end)], or.2).

Lemma users_insert us c ps : Forall transparent us ->
  Forall2 keeps_id ps (insert_chain (UserMiddleware <$> us) c ps).
Proof.
  revert ps. induction us as [|u us IH]; intros ps H; [reflexivity|].
  inversion H as [|?? [Hu _] ?]; subst. etrans; [apply (Hu c)|by apply IH].
Qed.
Lemma insert_chain_app l l' c ps : insert_chain (l ++ l') c ps = insert_chain l' c (insert_chain l c ps).
Proof. revert ps. induction l as [|mw l IH]; intros ps; [done|]. apply IH. Qed.
Lemma users_work kind m us work c o : Forall transparent us ->
  exists c', wc_RequestID c' = wc_RequestID c /\ work_chain kind m (UserMiddleware <$> us) work c o = work c' o.
Proof.
  revert c. induction us as [|u us IH]; intros c H; [by exists c|]. inversion H as [|?? [_ Hu] ?]; subst. cbn.
  destruct (Hu kind m (work_chain kind m (UserMiddleware <$> us) work) c o) as (c1 & H1 & ->).
  destruct (IH c1) as (c2 & H2 & ->); [done|]. exists c2. split; [congruence|done].
Qed.
Lemma work_chain_app kind m l l' work : work_chain kind m (l ++ l') work = work_chain kind m l (work_chain kind m l' work).
Proof. induction l as [|mw l IH]; [done|]. cbn. by rewrite IH. Qed.


(** The histogram and the attempt log tell the same of an attempt. *)
Theorem outcomes_agree e j : jobOutcome e =
  match attemptOutcome e j with
  | OutcomeSucceeded => outcomeSuccess
  | OutcomeSnoozed => outcomeSnooze
  | OutcomeCancelled => outcomeCancel
  | OutcomeRetry | OutcomeDiscarded | OutcomeUnknownEffect => outcomeError
  end.
Proof.
  destruct e as [e|]; [|done]. cbn. unfold IsCancel. destruct (is_kind RiverSnooze e); [done|]. destruct (is_kind RiverCancel e); [done|].
  unfold failedOutcome. destruct (jb_Row j) as [row|]; [|done]. by destruct (_ && _).
Qed.

Lemma sanitize_plain l : Forall (fun c => schema_char c = true) l -> Sanitize l = [quote] ++ l ++ [quote].
Proof.
  intros H. unfold Sanitize. apply (f_equal (fun x => [quote] ++ x ++ [quote])).
  induction H as [|x l Hx _ IH]; [done|]. cbn [fmap list_fmap concat]. rewrite IH.
  rewrite !bool_decide_eq_false_2 by (intros ->; vm_compute in Hx; discriminate). done.
Qed.
(** The name of an accepted schema cannot leave its quotes. *)
Theorem schema_quoted has_pool schema sql : EnsureSchema has_pool schema = Some sql ->
  sql = bytes_of "CREATE SCHEMA IF NOT EXISTS " ++ [quote] ++ schema ++ [quote] /\ Forall (fun c => schema_char c = true) schema /\ (length schema <= 63)%nat.
Proof.
  unfold EnsureSchema, isValidSchemaName. destruct schema as [|c rest]; [done|].
  destruct (Nat.leb_spec (length (c :: rest)) 63) as [Hl|]; [|done]. destruct (schema_first c) eqn:Hc; [|done]. cbn [andb].
  destruct (forallb schema_char rest) eqn:Hr; [|done]. destruct has_pool; [|done]. cbn [negb].
  assert (Hall : Forall (fun x => schema_char x = true) (c :: rest)).
  { constructor; [unfold schema_char; by rewrite Hc|]. apply Forall_forall. rewrite List.forallb_forall in Hr. intros x Hx. apply Hr. by apply list_elem_of_In. }
  intros <-%(inj Some). split; [|done]. by rewrite sanitize_plain.
Qed.

Module WorkSample.

Definition cfg : WorkConfig := mkWorkConfig "river" 100 ∅ false.
Definition tracing : user_mw := mkUserMw (fun _ ps => ps) (fun _ _ next c o => next c o).
Definition api_options : list (Option nat) := [OptMiddleware [tracing]; OptMetrics].
Definition worker_options : list (Option nat) := [OptMetrics; OptPeriodic [7%nat]; OptMiddleware [tracing]].
Definition api_client : river_config nat unit := mkRiverConfig "river" [RequestIDMiddleware; UserMiddleware tracing] None ∅ false [].
Definition worker_client : river_config nat unit :=
  mkRiverConfig "river" [RequestIDMiddleware; UserMiddleware tracing; MetricsMiddleware] (Some tt) {["default" := 100]} false [7%nat].
Definition metadata_in : metadata := MJson (JvObj [("tenant", JvStr "t1")]).
Definition metadata_out : metadata := MJson (JvObj [("tenant", JvStr "t1"); ("vogel_request_id", JvStr "req-9")]).
Definition work : inner := fun c o => (o, Returned (if bool_decide (wc_RequestID c = "req-9") then None else Some (HErr "lost" RiverNone "" WrapNone))).

Lemma tracing_transparent : transparent tracing.
Proof. split; [intros c ps; reflexivity|]. intros kind m next c o. by exists c. Qed.


End WorkSample.
