(* ===== verification/Adapters.v ===== *)
(** Adapters around remote services: e-mail through SendGrid and SMTP
    ([notification/sendgrid], [notification/smtp]), the policy service
    ([authz/cerbos]), and the probes of the boilerplate ([health_handler.go]).

    The services are arguments: what each call answers.  Texts of errors and log lines are
    left out; an error is what it says, with the values it carries.

    The queries over the attempt log ([action/postgres/repository.go]): the attempts of a
    case, or of one of its events, in the order of a timeline.

    The order of texts is the database's collation, an argument; the rows come from the table
    in whatever order the database keeps them. *)

From stdpp Require Import base gmap list strings sorting.
From Stdlib Require Import ZArith Lia ZifyBool.
From S2P Require Import Prelude GoStrings GoText Action Requests Storage Model.

Open Scope string_scope.
Open Scope list_scope.
Open Scope Z_scope.

Module Mail.

(** [net/mail.ParseAddress]: the name and the address. *)
Definition parser : Type := string -> option (string * string).
Definition accepts (parse : parser) (s : string) : bool := bool_decide (is_Some (parse s)).

Inductive mail_error := EInvalidMessage | ENoSender | EFrom | ETo | EClient | ESending | EAPI (status : Z) (body : text) | EReading.
Inductive new_error := EMissing (what : string) | ETimeout | EDefaultFrom.

(** [resolveFrom], of both adapters. *)
Definition resolveFrom (msgFrom defaultFrom : string) : mail_error + string :=
  if negb (bool_decide (msgFrom = "")) then inr msgFrom
  else if negb (bool_decide (defaultFrom = "")) then inr defaultFrom
  else inl ENoSender.

(** ** SendGrid *)

Definition DefaultHTTPTimeout : Z := 30 * S3.second.
Record SendGridConfig := mkSendGridConfig { sg_APIKey : string; sg_HTTPTimeout : Z }.
Record SendGridNotifier := mkSendGrid { sn_apiKey : string; sn_timeout : Z; sn_defaultFrom : string }.

Definition NewSendGridNotifier (parse : parser) (cfg : SendGridConfig) (defaultFrom : string) (logger : bool) : new_error + SendGridNotifier :=
  if bool_decide (sg_APIKey cfg = "") then inl (EMissing "API key")
  else if negb logger then inl (EMissing "logger")
  else if sg_HTTPTimeout cfg <? 0 then inl ETimeout
  else if negb (bool_decide (defaultFrom = "")) && negb (accepts parse defaultFrom) then inl EDefaultFrom
  else inr (mkSendGrid (sg_APIKey cfg) (if sg_HTTPTimeout cfg =? 0 then DefaultHTTPTimeout else sg_HTTPTimeout cfg) defaultFrom).

(** The e-mail a request carries; what the API answers: a status, the id of the message and a
    body, which may break off; or nothing, when the request did not come through. *)
Record email := mkEmail { em_From : string * string; em_To : string * string; em_Subject : string; em_Text : string; em_HTML : string }.
Record api_response := mkApiResponse { ap_status : Z; ap_messageID : string; ap_body : reader }.
Definition maxResponseBody : Z := Z.shiftl 64 10.

(** [post]. *)
Record sendResponse := mkSendResponse { sr_status : Z; sr_messageID : string; sr_body : text }.
Definition post (answer : option api_response) : mail_error + sendResponse :=
  match answer with
  | None => inl ESending
  | Some resp =>
      let data := rd_data (ap_body resp) in
      (* [io.LimitReader]: an error past the limit is not met *)
      if match rd_error (ap_body resp) with Some _ => Z.of_nat (length data) <? maxResponseBody | None => false end then
        if (200 <=? ap_status resp) && (ap_status resp <? 300) then inr (mkSendResponse (ap_status resp) (ap_messageID resp) [])
        else inl EReading
      else inr (mkSendResponse (ap_status resp) (ap_messageID resp) (take (Z.to_nat maxResponseBody) data))
  end.

(** [Send]: the requests it sends, at most one, and how it ends. *)
Definition SendGrid_Send (parse : parser) (n : SendGridNotifier) (msg : Message) (api : email -> option api_response) : list email * option mail_error :=
  if negb (Message_Validate (accepts parse) msg) then ([], Some EInvalidMessage)
  else match resolveFrom (m_From msg) (sn_defaultFrom n) with
       | inl e => ([], Some e)
       | inr from =>
           match parse from, parse (m_To msg) with
           | None, _ => ([], Some EFrom)
           | _, None => ([], Some ETo)
           | Some sgFrom, Some sgTo =>
               let mail := mkEmail sgFrom sgTo (m_Subject msg) (m_Text msg) (m_HTML msg) in
               ([mail], match post (api mail) with
                        | inl e => Some e
                        | inr r => if 400 <=? sr_status r then Some (EAPI (sr_status r) (sr_body r)) else None
                        end)
           end
       end.

(** ** SMTP *)

Record SMTPConfig := mkSMTPConfig { sc_Host : string; sc_Port : Z; sc_Username : string; sc_Password : string }.
Record SMTPNotifier := mkSMTP { st_host : string; st_port : Z; st_username : string; st_password : string; st_defaultFrom : string }.
Definition NewSMTPNotifier (parse : parser) (cfg : SMTPConfig) (defaultFrom : string) (logger : bool) : new_error + SMTPNotifier :=
  if bool_decide (sc_Host cfg = "") then inl (EMissing "host")
  else if negb logger then inl (EMissing "logger")
  else if negb (bool_decide (defaultFrom = "")) && negb (accepts parse defaultFrom) then inl EDefaultFrom
  else inr (mkSMTP (sc_Host cfg) (sc_Port cfg) (sc_Username cfg) (sc_Password cfg) defaultFrom).

(** The parts of a message, the first being its body and a second an alternative. *)
Record smtp_message := mkSmtpMessage { sm_From : string; sm_To : string; sm_Subject : string; sm_parts : list (string * string) }.
Definition smtp_parts (m : Message) : list (string * string) :=
  (if bool_decide (m_HTML m = "") then [] else [("text/html", m_HTML m)]) ++ (if bool_decide (m_Text m = "") then [] else [("text/plain", m_Text m)]).
(** [Send]; go-mail's own reading of an address is an argument, as are the making of a client
    and the delivery. *)
Definition SMTP_Send (parse : parser) (gomail : string -> bool) (n : SMTPNotifier) (msg : Message) (client : bool) (deliver : smtp_message -> bool)
    : list smtp_message * option mail_error :=
  if negb (Message_Validate (accepts parse) msg) then ([], Some EInvalidMessage)
  else match resolveFrom (m_From msg) (st_defaultFrom n) with
       | inl e => ([], Some e)
       | inr from =>
           if negb (gomail from) then ([], Some EFrom)
           else if negb (gomail (m_To msg)) then ([], Some ETo)
           else if negb client then ([], Some EClient)
           else let m := mkSmtpMessage from (m_To msg) (m_Subject msg) (smtp_parts msg) in
                ([m], if deliver m then None else Some ESending)
       end.

(** ** What they promise *)

(** What a send reports of the answer it got. *)
Definition reported (answer : option api_response) : option mail_error :=
  match post answer with inl e => Some e | inr r => if 400 <=? sr_status r then Some (EAPI (sr_status r) (sr_body r)) else None end.
Lemma reported_by_status a : (200 <= ap_status a < 300 -> reported (Some a) = None) /\ (400 <= ap_status a -> exists e, reported (Some a) = Some e).
Proof.
  unfold reported, post. destruct (match rd_error (ap_body a) with Some _ => _ | None => false end).
  - destruct ((200 <=? ap_status a) && (ap_status a <? 300)) eqn:E; cbn [sr_status]; split; intros; try lia; eauto;
      by replace (400 <=? ap_status a) with false by lia.
  - cbn [sr_status]. destruct (Z.leb_spec 400 (ap_status a)); split; intros; try lia; eauto.
Qed.

(** whatever SendGrid answers, a message is given to it at most once, and never when it
    is invalid or has no sender; a message SendGrid accepted (2xx) is reported as sent, even
    when the rest of the answer is lost, so a retrying caller does not send it twice; and
    one it refused (4xx, 5xx) or never got is reported as failed. *)
Theorem sent_once parse cfg defaultFrom n msg api sent r :
  NewSendGridNotifier parse cfg defaultFrom true = inr n -> SendGrid_Send parse n msg api = (sent, r) ->
  match sent with
  | [] => r = Some EInvalidMessage \/ r = Some ENoSender /\ m_From msg = "" /\ defaultFrom = ""
  | [mail] =>
      Message_Validate (accepts parse) msg = true /\ parse (m_To msg) = Some (em_To mail) /\
      parse (if bool_decide (m_From msg = "") then defaultFrom else m_From msg) = Some (em_From mail) /\
      match api mail with
      | None => r = Some ESending
      | Some a => (200 <= ap_status a < 300 -> r = None) /\ (400 <= ap_status a -> exists e, r = Some e)
      end
  | _ => False
  end.
Proof.
  intros Hn. assert (Hd : sn_defaultFrom n = defaultFrom /\ (defaultFrom = "" \/ accepts parse defaultFrom = true)).
  { unfold NewSendGridNotifier in Hn. destruct (bool_decide (sg_APIKey cfg = "")); [done|]. cbn [negb] in Hn. destruct (_ <? 0); [done|].
    destruct (bool_decide_reflect (defaultFrom = "")) as [He|He]; cbn [negb andb] in Hn; [injection Hn as <-; auto|].
    destruct (accepts parse defaultFrom); cbn [negb] in Hn; [injection Hn as <-; auto|done]. }
  destruct Hd as [Hd Hdef]. unfold SendGrid_Send. destruct (Message_Validate (accepts parse) msg) eqn:Hv; cbn [negb]; [|intros [= <- <-]; by left].
  pose proof Hv as Hparts. unfold Message_Validate in Hparts. rewrite !andb_true_iff, orb_true_iff in Hparts. destruct Hparts as [[[[_ Hto] Hfrom] _] _].
  unfold accepts in Hto, Hfrom, Hdef. rewrite bool_decide_eq_true in Hto. destruct Hto as [to Hto]. rewrite !bool_decide_eq_true in Hfrom.
  rewrite Hd. unfold resolveFrom. destruct (bool_decide_reflect (m_From msg = "")) as [He|He]; cbn [negb].
  - destruct (bool_decide_reflect (defaultFrom = "")) as [He'|He']; cbn [negb]; [intros [= <- <-]; right; auto|].
    destruct Hdef as [|Hdef%bool_decide_eq_true]; [done|]. destruct Hdef as [from Hf]. rewrite Hf, Hto. intros [= <- <-]. cbn [em_To em_From].
    split_and!; try done. destruct (api _) as [a|]; [|reflexivity]. apply reported_by_status.
  - destruct Hfrom as [|[from Hf]]; [done|]. rewrite Hf, Hto. intros [= <- <-]. cbn [em_To em_From].
    split_and!; try done. destruct (api _) as [a|]; [|reflexivity]. apply reported_by_status.
Qed.

(** Over SMTP a message goes out with exactly the parts it has, the HTML one first. *)
Theorem smtp_parts_kept parse gomail n msg client deliver m sent r :
  SMTP_Send parse gomail n msg client deliver = (m :: sent, r) ->
  sent = [] /\ sm_parts m <> [] /\ (r = None <-> deliver m = true) /\
  (forall kind body, (kind, body) ∈ sm_parts m <-> body <> "" /\ (kind = "text/html" /\ body = m_HTML msg \/ kind = "text/plain" /\ body = m_Text msg)).
Proof.
  unfold SMTP_Send. destruct (Message_Validate (accepts parse) msg) eqn:Hv; cbn [negb]; [|done].
  destruct (resolveFrom _ _); [done|]. destruct (gomail s), (gomail (m_To msg)), client; try done. cbn [negb]. intros Hm.
  apply pair_equal_spec in Hm as [Hm Hr]. apply (f_equal (fun l => (head l, tail l))) in Hm. injection Hm as <- <-.
  split; [done|]. unfold Message_Validate in Hv. apply andb_true_iff in Hv as [_ Hv]. apply negb_true_iff, andb_false_iff in Hv. rewrite !bool_decide_eq_false in Hv. cbn [sm_parts].
  split; [|split; [subst r; by destruct (deliver _)|intros kind body]]; clear Hr; unfold smtp_parts;
    destruct (bool_decide_reflect (m_HTML msg = "")), (bool_decide_reflect (m_Text msg = "")); cbn [app]; rewrite ?elem_of_cons, ?elem_of_nil;
    first [done|naive_solver].
Qed.

End Mail.

Module Cerbos.

Definition DefaultCallTimeout : Z := 2 * S3.second.
Record CerbosConfig := mkCerbosConfig { cb_Host : string; cb_Plaintext : bool; cb_CallTimeout : Z }.
Record Checker := mkChecker { ch_host : string; ch_plaintext : bool; ch_callTimeout : Z }.
Inductive cerbos_error := EHost | ECallTimeout | EConnect | ECheck.

(** [New] and [clientOptions]: TLS unless plain text was asked for. *)
Definition New (cfg : CerbosConfig) (connects : bool) : cerbos_error + Checker :=
  if bool_decide (cb_Host cfg = "") then inl EHost
  else if cb_CallTimeout cfg <? 0 then inl ECallTimeout
  else if negb connects then inl EConnect
  else inr (mkChecker (cb_Host cfg) (cb_Plaintext cfg) (if cb_CallTimeout cfg =? 0 then DefaultCallTimeout else cb_CallTimeout cfg)).

(** [context.WithTimeout]: the earlier of the two deadlines. *)
Definition bounded_by (now timeout : Z) (deadline : option Z) : Z :=
  match deadline with Some d => Z.min d (now + timeout) | None => now + timeout end.
(** [IsAllowed]: the service is asked under a deadline, and no answer is an error. *)
Definition IsAllowed (c : Checker) (now : Z) (deadline : option Z) (service : Z -> option bool) : cerbos_error + bool :=
  match service (bounded_by now (ch_callTimeout c) deadline) with None => inl ECheck | Some allowed => inr allowed end.
Definition Ping (c : Checker) (now : Z) (deadline : option Z) (service : Z -> bool) : bool :=
  service (match deadline with Some d => d | None => bounded_by now (ch_callTimeout c) None end).

(** A check has a deadline of its own whatever the caller's, and allows only what the
    service allowed in time; a ping keeps the deadline of its caller. *)
Theorem checks_bounded cfg c now deadline service :
  New cfg true = inr c ->
  0 < ch_callTimeout c /\ (ch_plaintext c = true <-> cb_Plaintext cfg = true) /\
  (exists d, d <= now + ch_callTimeout c /\ (forall d', deadline = Some d' -> d <= d') /\
     (IsAllowed c now deadline service = inr true <-> service d = Some true) /\
     (IsAllowed c now deadline service = inl ECheck <-> service d = None)) /\
  (forall d p, Ping c now (Some d) p = p d).
Proof.
  unfold New. destruct (bool_decide _); [done|]. destruct (Z.ltb_spec (cb_CallTimeout cfg) 0); [done|]. intros [= <-]. cbn [ch_callTimeout ch_plaintext].
  assert (0 < if cb_CallTimeout cfg =? 0 then DefaultCallTimeout else cb_CallTimeout cfg) by (destruct (Z.eqb_spec (cb_CallTimeout cfg) 0); [reflexivity|lia]).
  split_and!; try done. unfold IsAllowed. cbn [ch_callTimeout]. exists (bounded_by now (if cb_CallTimeout cfg =? 0 then DefaultCallTimeout else cb_CallTimeout cfg) deadline).
  split_and!; [| |destruct (service _) as [[]|]; split; congruence..].
  - unfold bounded_by. destruct deadline; lia.
  - intros d' ->. unfold bounded_by. lia.
Qed.

End Cerbos.

Module Probes.

(** [HealthHandler]: the cause of the last failure, and the lines logged. *)
Inductive probe_line := DownLine (probe cause : string) | BackLine (probe : string).
Record health := mkHealth { hh_dbCause : string; hh_log : list probe_line }.

(** [ping]: the error of the database, if it has one. *)
Definition ping (probe : string) (err : option string) (h : health) : health * bool :=
  let cause := default "" err in
  (mkHealth cause
     (hh_log h ++ (if bool_decide (cause = hh_dbCause h) then []
                   else match err with Some e => [DownLine probe e] | None => [BackLine probe] end)),
   bool_decide (is_Some err)).

Definition Check (err : option string) (h : health) : health * (Z * string) :=
  let '(h, down) := ping "health check" err h in (h, if down then (503, "degraded") else (200, "ok")).
Definition Ready (err : option string) (h : health) : health * (Z * string) :=
  let '(h, down) := ping "readiness check" err h in (h, if down then (503, "not_ready") else (200, "ready")).
Definition Live : Z * string := (200, "alive").

(** Probes one after another, each a check or a readiness check with what the database
    answered. *)
Definition probe_step (h : health) (p : bool * option string) : health := (if p.1 then Check p.2 h else Ready p.2 h).1.
Definition probed (ps : list (bool * option string)) : health := fold_left probe_step ps (mkHealth "" []).

(** What the log should say: a line where the cause differs from the one before. *)
Definition probe_name (check : bool) : string := if check then "health check" else "readiness check".
Fixpoint changes (before : string) (ps : list (bool * option string)) : list probe_line :=
  match ps with
  | [] => []
  | (check, err) :: ps =>
      (if bool_decide (default "" err = before) then []
       else match err with Some e => [DownLine (probe_name check) e] | None => [BackLine (probe_name check)] end)
      ++ changes (default "" err) ps
  end.

Theorem outages_logged_once ps : hh_log (probed ps) = changes "" ps /\
  (forall h err, (Check err h).2.1 = 200 <-> err = None) /\ (forall h err, (Ready err h).2.1 = 200 <-> err = None).
Proof.
  split; [|split; intros h [e|]; cbn; naive_solver].
  unfold probed. assert (G : forall h, hh_log (fold_left probe_step ps h) = hh_log h ++ changes (hh_dbCause h) ps).
  { induction ps as [|[check err] ps IH]; intros h; cbn [fold_left changes]; [by rewrite app_nil_r|].
    rewrite IH. unfold probe_step. cbn [fst snd]. destruct check; cbn; by rewrite <- app_assoc. }
  apply G.
Qed.

End Probes.

(** ** Orders by several columns *)

Definition then_by {A} (c d : A -> A -> comparison) (a b : A) : comparison := match c a b with Eq => d a b | r => r end.
Definition by_column {A B} (c : B -> B -> comparison) (f : A -> B) (a b : A) : comparison := c (f a) (f b).

(** A comparison that orders: equal values are interchangeable. *)
Record orders {A} (c : A -> A -> comparison) : Prop := mkOrders {
  ord_opp a b : c b a = CompOpp (c a b);
  ord_lt a b d : c a b = Lt -> c b d = Lt -> c a d = Lt;
  ord_eq a b d : c a b = Eq -> c a d = c b d }.

Lemma orders_then {A} (c d : A -> A -> comparison) : orders c -> orders d -> orders (then_by c d).
Proof.
  intros [co cl ce] [do_ dl de]. split; unfold then_by.
  - intros a b. rewrite (co a b), (do_ a b). by destruct (c a b).
  - intros a b e. destruct (c a b) eqn:Hab; try done.
    + intros Hd. rewrite (ce _ _ e Hab). destruct (c b e) eqn:Hbe; try done. by apply dl.
    + intros _. destruct (c b e) eqn:Hbe; try done.
      * intros _. assert (c e a = Gt) as He by (rewrite <- (ce b e a Hbe), (co a b), Hab; done). rewrite (co e a), He. done.
      * intros _. by rewrite (cl a b e).
  - intros a b e. destruct (c a b) eqn:Hab; try done. intros Hd. rewrite (ce _ _ e Hab). by rewrite (de _ _ e Hd).
Qed.
Lemma orders_by {A B} (c : B -> B -> comparison) (f : A -> B) : orders c -> orders (by_column c f).
Proof. intros [co cl ce]. split; unfold by_column; eauto. Qed.
Lemma orders_Z : orders Z.compare.
Proof.
  split; intros a b.
  - apply Z.compare_antisym.
  - intros d. rewrite !Z.compare_lt_iff. lia.
  - intros d ->%Z.compare_eq_iff. done.
Qed.
Lemma orders_N : orders N.compare.
Proof.
  split; intros a b.
  - apply N.compare_antisym.
  - intros d. rewrite !N.compare_lt_iff. lia.
  - intros d ->%N.compare_eq_iff. done.
Qed.

(** ** The queries *)

Section Queries.
Context (collate : string -> string -> comparison).

(** [attemptOrder]: ORDER BY seq, attempt, started_at, effect, part, id. *)
Definition attemptOrder : Attempt -> Attempt -> comparison :=
  then_by (by_column Z.compare at_Seq) (then_by (by_column Z.compare at_Attempt) (then_by (by_column Z.compare at_StartedAt)
    (then_by (by_column collate at_Effect) (then_by (by_column Z.compare at_Part) (by_column N.compare at_ID))))).
Definition not_later (a b : Attempt) : Prop := attemptOrder a b <> Gt.
#[export] Instance not_later_dec a b : Decision (not_later a b).
Proof. unfold not_later. destruct (attemptOrder a b); (left; done) || (right; intros H; by apply H). Defined.

Definition ListByCase (caseID : uuid) (log : list Attempt) : list Attempt :=
  merge_sort not_later (filter (fun a => at_CaseID a = caseID) log).
Definition ListByEvent (caseID : uuid) (seq : Z) (log : list Attempt) : list Attempt :=
  merge_sort not_later (filter (fun a => at_CaseID a = caseID /\ at_Seq a = seq) log).

(** ** What they answer *)

Context (collates : orders collate).

Lemma attemptOrder_orders : orders attemptOrder.
Proof. repeat apply orders_then; apply orders_by; first [apply collates|apply orders_Z|apply orders_N]. Qed.

#[local] Instance not_later_total : Total not_later.
Proof.
  intros a b. unfold not_later. destruct (attemptOrder a b) eqn:E; [by left|by left|right].
  by rewrite (ord_opp _ attemptOrder_orders a b), E.
Qed.
#[local] Instance not_later_trans : Transitive not_later.
Proof.
  destruct attemptOrder_orders as [co cl ce]. intros a b d. unfold not_later. intros H1 H2.
  destruct (attemptOrder a b) eqn:Hab; [by rewrite (ce a b d Hab)| |done].
  destruct (attemptOrder b d) eqn:Hbd; [|by rewrite (cl a b d)|done].
  assert (attemptOrder d a = Gt) as He by (rewrite <- (ce b d a Hbd), (co a b), Hab; done). rewrite (co d a), He. done.
Qed.
(** Attempts neither of which is later are one row. *)
Lemma not_later_same a b : not_later a b -> not_later b a -> at_ID a = at_ID b.
Proof.
  unfold not_later. rewrite (ord_opp _ attemptOrder_orders a b). intros H1 H2.
  assert (E : attemptOrder a b = Eq) by (destruct (attemptOrder a b); done). clear H1 H2.
  unfold attemptOrder, then_by, by_column in E. repeat case_match; try done. by apply N.compare_eq_iff.
Qed.

(** the timeline of a case holds exactly its attempts, in the order of the columns,
    whatever order the table gives them in; and the attempts of an event are the part of
    its case's timeline that belongs to the event. *)
Theorem timeline_exact log log' caseID seq : NoDup (at_ID <$> log) -> log' ≡ₚ log ->
  ListByCase caseID log' = ListByCase caseID log /\
  (forall a, a ∈ ListByCase caseID log <-> a ∈ log /\ at_CaseID a = caseID) /\
  StronglySorted not_later (ListByCase caseID log) /\
  ListByEvent caseID seq log' = filter (fun a => at_Seq a = seq) (ListByCase caseID log).
Proof.
  intros Hn Hp.
  assert (Hone : forall a b, a ∈ log -> b ∈ log -> not_later a b -> not_later b a -> a = b).
  { intros a b Ha Hb H1 H2. apply list_elem_of_lookup in Ha as [i Hi], Hb as [j Hj].
    assert (i = j) as ->; [|congruence]. eapply (NoDup_lookup (at_ID <$> log)); [done|..]; rewrite list_lookup_fmap; [by rewrite Hi|].
    rewrite Hj. cbn. f_equal. symmetry. by apply not_later_same. }
  assert (Hin : forall a, a ∈ ListByCase caseID log <-> a ∈ log /\ at_CaseID a = caseID).
  { intros a. unfold ListByCase. rewrite merge_sort_Permutation, list_elem_of_filter. tauto. }
  assert (Hs : StronglySorted not_later (ListByCase caseID log)) by apply (StronglySorted_merge_sort _ _).
  split_and!; [|done..|].
  - apply (StronglySorted_unique_strong not_later); [|apply (StronglySorted_merge_sort _ _)|done|unfold ListByCase; by rewrite !merge_sort_Permutation, Hp].
    intros a b Ha Hb. unfold ListByCase in Ha. rewrite merge_sort_Permutation, Hp, list_elem_of_filter in Ha. apply Hin in Hb as [Hb _]. destruct Ha as [_ Ha]. by apply Hone.
  - assert (Hp' : ListByEvent caseID seq log' ≡ₚ filter (fun a => at_Seq a = seq) (ListByCase caseID log)).
    { unfold ListByEvent, ListByCase. rewrite !merge_sort_Permutation, Hp, list_filter_filter. apply reflexive_eq, list_filter_iff. intros a. tauto. }
    apply (StronglySorted_unique_strong not_later); [|apply (StronglySorted_merge_sort _ _)| |done].
    + intros a b Ha Hb. rewrite Hp' in Ha. apply list_elem_of_filter in Ha as [_ [Ha _]%Hin], Hb as [_ [Hb _]%Hin]. by apply Hone.
    + clear -Hs. induction Hs as [|a l Hl IH Hall]; [constructor|]. rewrite filter_cons. case_decide; [|done]. constructor; [done|].
      apply Forall_forall. intros b [_ Hb]%list_elem_of_filter. rewrite Forall_forall in Hall. by apply Hall.
Qed.

End Queries.

(** ** An instance: the collation of bytes *)

Lemma orders_bytes : orders String.compare.
Proof.
  assert (Hlt : forall a b d : Ascii.ascii, Ascii.compare a b = Lt -> Ascii.compare b d = Lt -> Ascii.compare a d = Lt).
  { intros a b d. unfold Ascii.compare. rewrite !N.compare_lt_iff. lia. }
  assert (Heq : forall a b : Ascii.ascii, Ascii.compare a b = Eq -> a = b) by apply Ascii.compare_eq_iff.
  split.
  - intros a b. apply String.compare_antisym.
  - intros a. induction a as [|x a IH]; intros [|y b] [|z d]; cbn; try done.
    destruct (Ascii.compare x y) eqn:E1; try done; [apply Heq in E1 as ->|].
    + intros H1. destruct (Ascii.compare y z) eqn:E2; try done. by apply IH.
    + intros _. destruct (Ascii.compare y z) eqn:E2; try done; [apply Heq in E2 as <-; by rewrite E1|]. by rewrite (Hlt x y z).
  - intros a b d ->%String.compare_eq_iff. done.
Qed.

Module TimelineSample.

Definition attempt (id : uuid) (seq n : Z) (effect : string) : Attempt :=
  mkAttempt id 1%N seq effect 0 n 0 (Z.of_N id) n (n + 1) OutcomeRetry "" "" "" ActorSystem "" "" "".
Definition log : list Attempt := [attempt 3 2 1 "notify"; attempt 1 1 2 "notify"; attempt 2 1 1 "archive"; attempt 4 1 1 "notify"].

Lemma timeline_exact_witness :
  at_ID <$> ListByCase String.compare 1%N (reverse log) = [2; 4; 1; 3]%N.
Proof.
  destruct (timeline_exact String.compare orders_bytes log (reverse log) 1%N 1) as (-> & _ & _ & _).
  - cbn. repeat (constructor; [rewrite ?not_elem_of_cons; repeat split; (discriminate || apply not_elem_of_nil)|]). constructor.
  - apply reverse_Permutation.
  - vm_compute. reflexivity.
Defined.

End TimelineSample.
