(* ===== verification/Pool.v ===== *)
(** The database pool ([postgres/postgres.go], [pool_tracer.go], [slow_query_tracer.go]): the
    configuration a pool is made with, the policy on TLS, the settings of a new connection,
    the tracer that bounds and times every acquire, and the line of a slow query.

    What [pgxpool.ParseConfig] makes of a connection string is an argument, as are the hash of
    a statement and the frames of a stack.  A connection is the number of its weak pointer.
    Instants and durations are nanoseconds.

    What the pool guarantees: verified TLS wherever it is required, waits that are bounded,
    a sample for every wait and every hold with a warning for the long ones, a map of held
    connections that cannot grow without hijacked ones, and slow-query lines that carry no
    more of a statement than they may. *)

From stdpp Require Import base gmap list strings relations.
From Stdlib Require Import ZArith Lia Ascii ZifyBool.
From S2P Require Import Prelude GoStrings GoText Middleware Requests Storage.

Open Scope string_scope.
Open Scope list_scope.
Open Scope Z_scope.

Definition millisecond : Z := 1000000.
Definition slowQueryThreshold : Z := 200 * millisecond.
Definition defaultStatementTimeout : Z := 30 * S3.second.
Definition defaultLockTimeout : Z := 5 * S3.second.
Definition defaultIdleInTransactionSessionTimeout : Z := 60 * S3.second.

(** ** Configuration *)

(** [tls.Config], with whether a callback verifies the peer. *)
Record tls_config := mkTLS { tc_ServerName : string; tc_InsecureSkipVerify : bool; tc_VerifyPeerCertificate : bool; tc_MinVersion : Z }.
Definition VersionTLS12 : Z := 771.
Definition with_MinVersion (v : Z) (c : tls_config) : tls_config :=
  mkTLS (tc_ServerName c) (tc_InsecureSkipVerify c) (tc_VerifyPeerCertificate c) v.

(** [pgxpool.Config] as far as it is read and set: the TLS of the first host and of each
    fallback, [None] for plain text. *)
Record pool_config := mkPoolConfig {
  pc_MaxConns : Z; pc_MinConns : Z; pc_MaxConnLifetime : Z; pc_MaxConnIdleTime : Z; pc_HealthCheckPeriod : Z;
  pc_ConnectTimeout : Z; pc_TLSConfig : option tls_config; pc_Fallbacks : list (option tls_config) }.

Record PgConfig := mkPgConfig {
  pg_URL : string; pg_MaxConns : Z; pg_MinConns : Z; pg_MaxConnLifetime : Z; pg_MaxConnIdleTime : Z; pg_ConnectTimeout : Z;
  pg_RequireTLS : bool; pg_StatementTimeout : Z; pg_LockTimeout : Z; pg_IdleInTransactionSessionTimeout : Z;
  pg_AcquireTimeout : Z; pg_LeakThreshold : Z; pg_HashSlowQuerySQL : bool }.

Definition or_keep (configured old : Z) : Z := if 0 <? configured then configured else old.
Definition applyPoolSettings (p : pool_config) (cfg : PgConfig) : pool_config :=
  mkPoolConfig (or_keep (pg_MaxConns cfg) (pc_MaxConns p)) (or_keep (pg_MinConns cfg) (pc_MinConns p))
    (or_keep (pg_MaxConnLifetime cfg) (pc_MaxConnLifetime p)) (or_keep (pg_MaxConnIdleTime cfg) (pc_MaxConnIdleTime p))
    (pc_HealthCheckPeriod p) (or_keep (pg_ConnectTimeout cfg) (pc_ConnectTimeout p)) (pc_TLSConfig p) (pc_Fallbacks p).

(** [Duration.Milliseconds], which drops what is below. *)
Definition Milliseconds (d : Z) : Z := Z.quot d millisecond.
Definition resolveTimeoutMillis (configured defaultValue : Z) : Z :=
  if configured <? 0 then 0 else if configured =? 0 then Milliseconds defaultValue else Milliseconds configured.

Inductive pool_error := EAcquireTimeout | ELeakThreshold | EParse | EPlaintext | EUnverified | ECreate | EPing.

(** The first configuration that is refused, in the order of the hosts. *)
Fixpoint refused_tls (configs : list (option tls_config)) : option pool_error :=
  match configs with
  | [] => None
  | None :: _ => Some EPlaintext
  | Some c :: rest => if tc_InsecureSkipVerify c && negb (tc_VerifyPeerCertificate c) then Some EUnverified else refused_tls rest
  end.
Definition with_tls (primary : option tls_config) (fallbacks : list (option tls_config)) (p : pool_config) : pool_config :=
  mkPoolConfig (pc_MaxConns p) (pc_MinConns p) (pc_MaxConnLifetime p) (pc_MaxConnIdleTime p) (pc_HealthCheckPeriod p)
    (pc_ConnectTimeout p) primary fallbacks.
Definition applyTLSConfig (p : pool_config) (requireTLS : bool) : pool_error + pool_config :=
  if negb requireTLS then inr p
  else match refused_tls (pc_TLSConfig p :: pc_Fallbacks p) with
       | Some e => inl e
       | None => inr (with_tls (option_map (with_MinVersion VersionTLS12) (pc_TLSConfig p))
                        (map (option_map (with_MinVersion VersionTLS12)) (pc_Fallbacks p)) p)
       end.

(** What [newPoolTracer] is made with. *)
Record tracer_config := mkTracer {
  tr_slowQueryThreshold : Z; tr_hashSQL : bool; tr_acquireTimeout : Z; tr_leakThreshold : Z; tr_maxConns : Z; tr_internalPrefixes : list text }.
Definition defaultInternalPrefixes : list text :=
  bytes_of <$> ["github.com/jackc/pgx/"; "github.com/jackc/puddle/"; "github.com/kafeiih/vogel/postgres."; "github.com/kafeiih/vogel/pgxtx."].
Definition newPoolTracer (threshold : Z) (hash : bool) (acquireTimeout leakThreshold maxConns : Z) (prefixes : option (list text)) : tracer_config :=
  mkTracer threshold hash acquireTimeout leakThreshold maxConns (default defaultInternalPrefixes prefixes).

(** [AfterConnect]: the statements of a new connection, and then the consumer's. *)
Definition connection_settings (cfg : PgConfig) : list (string * Z) :=
  [("statement_timeout", resolveTimeoutMillis (pg_StatementTimeout cfg) defaultStatementTimeout);
   ("lock_timeout", resolveTimeoutMillis (pg_LockTimeout cfg) defaultLockTimeout);
   ("idle_in_transaction_session_timeout", resolveTimeoutMillis (pg_IdleInTransactionSessionTimeout cfg) defaultIdleInTransactionSessionTimeout)].
Fixpoint set_all (fails : string -> bool) (settings : list (string * Z)) (session : gmap string Z) : gmap string Z * bool :=
  match settings with
  | [] => (session, true)
  | (name, v) :: rest => if fails name then (session, false) else set_all fails rest (<[name := v]> session)
  end.
Definition AfterConnect (cfg : PgConfig) (user : option (gmap string Z -> gmap string Z * bool)) (fails : string -> bool) (session : gmap string Z)
    : gmap string Z * bool :=
  match set_all fails (connection_settings cfg) session with
  | (session, true) => match user with Some f => f session | None => (session, true) end
  | (session, false) => (session, false)
  end.

Section Dsn.
Context (ParseConfig : string -> option pool_config).

Definition newPoolConfig (cfg : PgConfig) : pool_error + (pool_config * tracer_config) :=
  if pg_AcquireTimeout cfg <? 0 then inl EAcquireTimeout
  else if pg_LeakThreshold cfg <? 0 then inl ELeakThreshold
  else match ParseConfig (pg_URL cfg) with
       | None => inl EParse
       | Some p =>
           let p := applyPoolSettings p cfg in
           let p := mkPoolConfig (pc_MaxConns p) (pc_MinConns p) (pc_MaxConnLifetime p) (pc_MaxConnIdleTime p) (60 * S3.second)
                      (pc_ConnectTimeout p) (pc_TLSConfig p) (pc_Fallbacks p) in
           match applyTLSConfig p (pg_RequireTLS cfg) with
           | inl e => inl e
           | inr p => inr (p, newPoolTracer slowQueryThreshold (pg_HashSlowQuerySQL cfg) (pg_AcquireTimeout cfg) (pg_LeakThreshold cfg) (pc_MaxConns p) None)
           end
       end.

Definition CheckTLS (dsn : string) : option pool_error :=
  match ParseConfig dsn with
  | None => Some EParse
  | Some p => match applyTLSConfig p true with inl e => Some e | inr _ => None end
  end.

(** [NewPool]: whether pgxpool made the pool, and whether its first ping came through. *)
Definition NewPool (cfg : PgConfig) (creates pings : bool) : pool_error + (pool_config * tracer_config) :=
  match newPoolConfig cfg with
  | inl e => inl e
  | inr pt => if negb creates then inl ECreate else if negb pings then inl EPing else inr pt
  end.
End Dsn.

(** ** The tracer *)

Record frame := mkFrame { fr_Function : text; fr_File : text; fr_Line : Z }.
Definition isInternalFrame (function : text) (prefixes : list text) : bool :=
  existsb (fun p => bool_decide (is_Some (strip_prefix p function))) prefixes.
Definition unknown_frame : frame := mkFrame (bytes_of "unknown") (bytes_of "unknown") 0.
Fixpoint firstExternalFrame (frames : list frame) (prefixes : list text) : frame :=
  match frames with
  | [] => unknown_frame
  | f :: rest => if isInternalFrame (fr_Function f) prefixes then firstExternalFrame rest prefixes else f
  end.

(** [utf8.ValidString]: writing the runes again gives the bytes back. *)
Definition ValidString (t : text) : bool := bool_decide (utf8 (runes t) = t).
Definition ExemplarMaxRunes : Z := 128.
Definition validExemplar (traceID spanID : text) : bool :=
  ValidString traceID && ValidString spanID
  && (Z.of_nat (length (runes (bytes_of "trace_id" ++ traceID ++ bytes_of "span_id" ++ spanID))) <=? ExemplarMaxRunes).

(** A sample of a histogram and its exemplar. *)
Record sample := mkSample { sm_value : Z; sm_exemplar : option (text * text) }.
Definition observe (v : Z) (traceID spanID : text) : sample :=
  mkSample v (if negb (bool_decide (traceID = [])) && validExemplar traceID spanID then Some (traceID, spanID) else None).

Record heldConn := mkHeld { hc_acquiredAt : Z; hc_callers : list frame; hc_traceID : text; hc_spanID : text }.
Record leak_warning := mkLeak { lk_hold : Z; lk_threshold : Z; lk_caller : frame; lk_trace : option (text * text) }.
Record tracer := mkTracerState {
  ts_held : gmap nat heldConn; ts_acquireWait : list sample; ts_connHold : list sample; ts_warnings : list leak_warning }.
Definition new_tracer : tracer := mkTracerState ∅ [] [] [].

(** [TraceAcquireStart]: the trace of the acquire, and the deadline of its context.  A
    deadline of the caller that is earlier is kept, as [context.WithTimeout] does. *)
Record acquireTrace := mkTrace { at_start : Z; at_callers : list frame }.
Definition TraceAcquireStart (t : tracer_config) (now : Z) (deadline : option Z) (exempt : bool) (stack : list frame) : acquireTrace * option Z :=
  (mkTrace now (if 0 <? tr_leakThreshold t then stack else []),
   if (0 <? tr_acquireTimeout t) && negb exempt
   then Some (match deadline with Some d => Z.min d (now + tr_acquireTimeout t) | None => now + tr_acquireTimeout t end)
   else deadline).

(** [pruneLocked]; [collected] are the connections the garbage collector has taken. *)
Definition pruneLocked (t : tracer_config) (collected : nat -> bool) (held : gmap nat heldConn) : gmap nat heldConn :=
  if Z.of_nat (size held) <=? tr_maxConns t then held else filter (fun kv => collected kv.1 = false) held.

(** [TraceAcquireEnd]: the connection, unless the acquire failed. *)
Definition TraceAcquireEnd (t : tracer_config) (trace : option acquireTrace) (now : Z) (ids : text * text) (conn : option nat)
    (collected : nat -> bool) (s : tracer) : tracer :=
  match trace with
  | None => s
  | Some tr =>
      let s := mkTracerState (ts_held s) (ts_acquireWait s ++ [observe (now - at_start tr) ids.1 ids.2]) (ts_connHold s) (ts_warnings s) in
      match conn with
      | None => s
      | Some c =>
          mkTracerState (pruneLocked t collected (<[c := mkHeld now (at_callers tr) ids.1 ids.2]> (ts_held s)))
            (ts_acquireWait s) (ts_connHold s) (ts_warnings s)
      end
  end.

Definition leak_of (t : tracer_config) (entry : heldConn) (hold : Z) : list leak_warning :=
  if (tr_leakThreshold t <=? 0) || (hold <=? tr_leakThreshold t) then []
  else [mkLeak hold (tr_leakThreshold t) (firstExternalFrame (hc_callers entry) (tr_internalPrefixes t))
          (if bool_decide (hc_traceID entry = []) then None else Some (hc_traceID entry, hc_spanID entry))].
Definition TraceRelease (t : tracer_config) (now : Z) (conn : nat) (s : tracer) : tracer :=
  match ts_held s !! conn with
  | None => s
  | Some entry =>
      let hold := now - hc_acquiredAt entry in
      mkTracerState (delete conn (ts_held s)) (ts_acquireWait s)
        (ts_connHold s ++ [observe hold (hc_traceID entry) (hc_spanID entry)]) (ts_warnings s ++ leak_of t entry hold)
  end.

(** ** Slow queries *)

Definition maxLoggedSQLBytes : nat := Z.to_nat 2048.
Definition maxLoggedErrorBytes : nat := Z.to_nat 1024.
Definition sqlHashBytes : nat := 8.

(** The error of a query: its text and type, and what [errors.As] and [errors.Is] find. *)
Record query_error := mkQueryError {
  qe_text : text; qe_type : text; qe_pg : option (text * text); qe_canceled : bool; qe_deadline : bool }.
Inductive log_value := LvText (t : text) | LvInt (n : Z) | LvTrue.

Section Slow.
Context (sha256 : text -> text).

Definition hex_digit (n : nat) : ascii := ascii_of_nat (if (n <? 10)%nat then 48 + n else 87 + n).
Definition hex (t : text) : text := concat ((fun c => let n := nat_of_ascii c in [hex_digit (n / 16); hex_digit (n mod 16)]) <$> t).

Definition sqlAttrs (hashSQL : bool) (sql : text) : list (string * log_value) :=
  if hashSQL then [("sql_hash", LvText (hex (take sqlHashBytes (sha256 sql))))]
  else match Truncate sql maxLoggedSQLBytes with
       | (t, false) => [("sql", LvText t)]
       | (t, true) => [("sql", LvText t); ("sql_truncated", LvTrue); ("sql_bytes", LvInt (Z.of_nat (length sql)))]
       end.
Definition errorAttrs (hashSQL : bool) (e : query_error) : list (string * log_value) :=
  if negb hashSQL then
    match Truncate (qe_text e) maxLoggedErrorBytes with
    | (t, false) => [("error", LvText t)]
    | (t, true) => [("error", LvText t); ("error_truncated", LvTrue)]
    end
  else match qe_pg e with
       | Some (code, constraint) =>
           ("error_code", LvText code) :: (if bool_decide (constraint = []) then [] else [("error_constraint", LvText constraint)])
       | None =>
           if qe_canceled e then [("error", LvText (bytes_of "context canceled"))]
           else if qe_deadline e then [("error", LvText (bytes_of "context deadline exceeded"))]
           else [("error_type", LvText (qe_type e))]
       end.

(** [TraceQueryStart] and [TraceQueryEnd]: the line, if there is one. *)
Definition slow_line (threshold : Z) (hashSQL : bool) (start now : Z) (sql : text) (args : list text) (err : option query_error)
    : option (list (string * log_value)) :=
  let elapsed := now - start in
  if elapsed <? threshold then None
  else Some ([("duration", LvInt elapsed)] ++ sqlAttrs hashSQL sql ++ [("args_count", LvInt (Z.of_nat (length args)))]
             ++ match err with Some e => errorAttrs hashSQL e | None => [] end).
End Slow.

(** ** TLS *)

(** A connection that is encrypted, to a server whose certificate is checked. *)
Definition verified (c : option tls_config) : Prop :=
  match c with Some c => tc_InsecureSkipVerify c = false \/ tc_VerifyPeerCertificate c = true | None => False end.

Lemma refused_tls_None configs : refused_tls configs = None <-> Forall verified configs.
Proof.
  induction configs as [|[c|] configs IH]; cbn; [done| |].
  - rewrite Forall_cons. cbn. destruct (tc_InsecureSkipVerify c), (tc_VerifyPeerCertificate c); cbn; rewrite ?IH; naive_solver.
  - rewrite Forall_cons. naive_solver.
Qed.

(** What is changed of a configuration that is accepted: the version, and nothing else. *)
Definition hardened (before after : option tls_config) : Prop :=
  exists c, before = Some c /\ verified before /\ after = Some (with_MinVersion VersionTLS12 c).

Lemma applyTLSConfig_spec p :
  match applyTLSConfig p true with
  | inl e => ~ Forall verified (pc_TLSConfig p :: pc_Fallbacks p) /\ (e = EPlaintext \/ e = EUnverified)
  | inr p' => Forall2 hardened (pc_TLSConfig p :: pc_Fallbacks p) (pc_TLSConfig p' :: pc_Fallbacks p')
              /\ p = with_tls (pc_TLSConfig p) (pc_Fallbacks p) p'
  end.
Proof.
  unfold applyTLSConfig. cbn [negb]. destruct (refused_tls _) as [e|] eqn:E.
  - split; [rewrite <- refused_tls_None; congruence|]. revert E. generalize (pc_TLSConfig p :: pc_Fallbacks p). clear.
    induction l as [|[c|] l IH]; cbn; [done| |intros [= <-]; auto]. destruct (_ && _); [intros [= <-]; auto|done].
  - apply refused_tls_None in E. split; [|by destruct p].
    cbn [with_tls pc_TLSConfig pc_Fallbacks]. change (Forall2 hardened (pc_TLSConfig p :: pc_Fallbacks p)
      (map (option_map (with_MinVersion VersionTLS12)) (pc_TLSConfig p :: pc_Fallbacks p))).
    induction E as [|[c|] l Hc _ IH]; [constructor| |done]. constructor; [|done]. exists c. done.
Qed.

Section Dsn.
Context (ParseConfig : string -> option pool_config).

(** Where TLS is required, a pool is configured exactly when every host the connection
    string names would be verified, and [CheckTLS] answers the same; then each of those
    configurations is kept as it was parsed, with at least TLS 1.2. *)
Theorem tls_policy cfg p : ParseConfig (pg_URL cfg) = Some p -> pg_RequireTLS cfg = true -> 0 <= pg_AcquireTimeout cfg -> 0 <= pg_LeakThreshold cfg ->
  ((exists r, newPoolConfig ParseConfig cfg = inr r) <-> Forall verified (pc_TLSConfig p :: pc_Fallbacks p)) /\
  (CheckTLS ParseConfig (pg_URL cfg) = None <-> Forall verified (pc_TLSConfig p :: pc_Fallbacks p)) /\
  (forall p' t, newPoolConfig ParseConfig cfg = inr (p', t) ->
     Forall2 hardened (pc_TLSConfig p :: pc_Fallbacks p) (pc_TLSConfig p' :: pc_Fallbacks p') /\ tr_maxConns t = pc_MaxConns p').
Proof.
  intros Hp Hr H1 H2. unfold newPoolConfig, CheckTLS. rewrite Hp, Hr.
  replace (pg_AcquireTimeout cfg <? 0) with false by lia. replace (pg_LeakThreshold cfg <? 0) with false by lia.
  assert (Hh : forall l l', Forall2 hardened l l' -> Forall verified l).
  { induction 1 as [|x y l l' (c & -> & Hv & _) _ IH]; constructor; [exact Hv|done]. }
  set (q := mkPoolConfig _ _ _ _ _ _ _ _). pose proof (applyTLSConfig_spec q) as Hq. pose proof (applyTLSConfig_spec p) as Hs.
  change (pc_TLSConfig q) with (pc_TLSConfig p) in Hq. change (pc_Fallbacks q) with (pc_Fallbacks p) in Hq.
  destruct (applyTLSConfig q true) as [e|q'], (applyTLSConfig p true) as [e'|p'].
  - destruct Hq as [Hq _]. split_and!; try done; naive_solver.
  - destruct Hq as [Hq _], Hs as [Hs%Hh _]. naive_solver.
  - destruct Hs as [Hs _], Hq as [Hq%Hh _]. naive_solver.
  - destruct Hq as [Hq _]. pose proof (Hh _ _ Hq) as Hv. split_and!; [naive_solver..|]. intros x t [= <- <-]. done.
Qed.
End Dsn.

(** The session settings of a new connection; a failing statement leaves the connection
    refused, and the consumer's own settings come last. *)
Lemma connection_timeouts cfg session : AfterConnect cfg None (fun _ => false) session =
  (<["idle_in_transaction_session_timeout" := resolveTimeoutMillis (pg_IdleInTransactionSessionTimeout cfg) defaultIdleInTransactionSessionTimeout]>
   (<["lock_timeout" := resolveTimeoutMillis (pg_LockTimeout cfg) defaultLockTimeout]>
    (<["statement_timeout" := resolveTimeoutMillis (pg_StatementTimeout cfg) defaultStatementTimeout]> session)), true).
Proof. done. Qed.

(** A timeout is off exactly for a negative duration, or one below a millisecond. *)
Theorem timeout_off configured d : millisecond <= d ->
  resolveTimeoutMillis configured d = 0 <-> configured < 0 \/ 0 < configured < millisecond.
Proof.
  intros Hd. unfold resolveTimeoutMillis, Milliseconds, millisecond in *.
  destruct (Z.ltb_spec configured 0); [intuition lia|]. destruct (Z.eqb_spec configured 0) as [->|].
  - split; [|lia]. rewrite Z.quot_div_nonneg by lia. intros E. assert (1 <= d / 1000000) by (apply Z.div_le_lower_bound; lia). lia.
  - rewrite Z.quot_div_nonneg by lia. split.
    + intros E. right. split; [lia|]. assert (configured = 1000000 * (configured / 1000000) + configured mod 1000000) by (apply Z.div_mod; lia).
      pose proof (Z.mod_pos_bound configured 1000000). lia.
    + intros [?|?]; [lia|]. apply Z.div_small. lia.
Qed.

(** ** Waits *)

(** The deadline of an acquire: within the timeout, never after the caller's own, and
    unchanged without a timeout or for the ping of the start. *)
Theorem acquire_bounded t now deadline exempt stack :
  let d := (TraceAcquireStart t now deadline exempt stack).2 in
  (0 < tr_acquireTimeout t -> exempt = false -> exists d', d = Some d' /\ d' <= now + tr_acquireTimeout t) /\
  (forall c, deadline = Some c -> exists d', d = Some d' /\ d' <= c) /\
  (tr_acquireTimeout t <= 0 \/ exempt = true -> d = deadline).
Proof.
  cbn. destruct (Z.ltb_spec 0 (tr_acquireTimeout t)), exempt, deadline as [dl|]; cbn; split_and!; intros; simplify_eq; try lia; try done;
    try (eexists; split; [reflexivity|lia]); destruct_or!; try done; lia.
Qed.

(** ** Holds *)

(** The pool and its tracer: when each connection that is out was acquired, those taken out
    of the pool and still in use, those collected; and the waits and holds there were. *)
Record world := mkPoolWorld {
  pw_acquired : gmap nat Z; pw_hijacked : gset nat; pw_collected : gset nat; pw_waits : list Z; pw_holds : list Z; pw_tracer : tracer }.

Section Tracer.
Context (t : tracer_config).

(** pgxpool: at most the maximum is out, a connection is handed out while it is in the
    pool, and every acquire and release is traced; a hijacked connection is released by
    nobody, and collected once its owner drops it. *)
Inductive pool_step : world -> world -> Prop :=
| PAcquire w tr now ids c :
    c ∉ dom (pw_acquired w) -> c ∉ pw_hijacked w -> c ∉ pw_collected w -> Z.of_nat (size (pw_acquired w)) < tr_maxConns t ->
    pool_step w (mkPoolWorld (<[c := now]> (pw_acquired w)) (pw_hijacked w) (pw_collected w) (pw_waits w ++ [now - at_start tr]) (pw_holds w)
                   (TraceAcquireEnd t (Some tr) now ids (Some c) (fun c => bool_decide (c ∈ pw_collected w)) (pw_tracer w)))
| PRefused w tr now ids collected :
    pool_step w (mkPoolWorld (pw_acquired w) (pw_hijacked w) (pw_collected w) (pw_waits w ++ [now - at_start tr]) (pw_holds w)
                   (TraceAcquireEnd t (Some tr) now ids None collected (pw_tracer w)))
| PRelease w c at_ now :
    pw_acquired w !! c = Some at_ ->
    pool_step w (mkPoolWorld (delete c (pw_acquired w)) (pw_hijacked w) (pw_collected w) (pw_waits w) (pw_holds w ++ [now - at_])
                   (TraceRelease t now c (pw_tracer w)))
| PHijack w c at_ :
    pw_acquired w !! c = Some at_ ->
    pool_step w (mkPoolWorld (delete c (pw_acquired w)) ({[c]} ∪ pw_hijacked w) (pw_collected w) (pw_waits w) (pw_holds w) (pw_tracer w))
| PCollect w c :
    c ∈ pw_hijacked w ->
    pool_step w (mkPoolWorld (pw_acquired w) (pw_hijacked w ∖ {[c]}) ({[c]} ∪ pw_collected w) (pw_waits w) (pw_holds w) (pw_tracer w)).

Definition new_pool : world := mkPoolWorld ∅ ∅ ∅ [] [] new_tracer.

Definition too_long (hold : Z) : bool := (0 <? tr_leakThreshold t) && (tr_leakThreshold t <? hold).

Record accounted (w : world) : Prop := mkAccounted {
  acc_held c at_ : pw_acquired w !! c = Some at_ -> exists e, ts_held (pw_tracer w) !! c = Some e /\ hc_acquiredAt e = at_;
  acc_known c : c ∈ dom (ts_held (pw_tracer w)) -> c ∈ dom (pw_acquired w) ∪ pw_hijacked w ∪ pw_collected w;
  acc_apart : dom (pw_acquired w) ## pw_hijacked w ∪ pw_collected w;
  acc_size : Z.of_nat (size (pw_acquired w)) <= Z.max 0 (tr_maxConns t);
  acc_waits : sm_value <$> ts_acquireWait (pw_tracer w) = pw_waits w;
  acc_holds : sm_value <$> ts_connHold (pw_tracer w) = pw_holds w;
  acc_warned : lk_hold <$> ts_warnings (pw_tracer w) = List.filter too_long (pw_holds w) }.

Lemma prune_lookup collected held c : pruneLocked t collected held !! c = held !! c \/ collected c = true /\ pruneLocked t collected held !! c = None.
Proof.
  unfold pruneLocked. destruct (_ <=? _); [by left|]. destruct (collected c) eqn:E.
  - right. split; [done|]. apply map_lookup_filter_None. right. intros x _. cbn. congruence.
  - left. destruct (held !! c) eqn:Hc; [by apply map_lookup_filter_Some|]. apply map_lookup_filter_None. by left.
Qed.

Lemma leak_of_holds entry hold : lk_hold <$> leak_of t entry hold = if too_long hold then [hold] else [].
Proof.
  unfold leak_of, too_long. destruct (Z.ltb_spec 0 (tr_leakThreshold t)), (Z.ltb_spec (tr_leakThreshold t) hold); cbn [andb].
  1: by replace ((tr_leakThreshold t <=? 0) || (hold <=? tr_leakThreshold t)) with false by lia.
  all: by replace ((tr_leakThreshold t <=? 0) || (hold <=? tr_leakThreshold t)) with true by lia.
Qed.

Lemma step_accounted w w' : accounted w -> pool_step w w' -> accounted w'.
Proof.
  intros [H1 H2 H3 H4 H5 H6 H7] Hs. destruct Hs as [w tr now ids c Ha Hh Hc Hn|w tr now ids coll|w c a now Ha|w c a Ha|w c Hc].
  - split; cbn; try done; [..|].
    + intros c' a. destruct (prune_lookup (fun c => bool_decide (c ∈ pw_collected w)) (<[c := mkHeld now (at_callers tr) ids.1 ids.2]> (ts_held (pw_tracer w))) c') as [->|[Hp _]].
      * destruct (decide (c' = c)) as [->|Hne]; [rewrite !lookup_insert_eq; intros [= <-]; eauto|]. rewrite !lookup_insert_ne by done. apply H1.
      * apply bool_decide_eq_true in Hp. destruct (decide (c' = c)) as [->|Hne]; [done|]. rewrite lookup_insert_ne by done.
        intros Hq%elem_of_dom_2. set_solver.
    + intros c' Hin. apply elem_of_dom in Hin as [e He].
      destruct (prune_lookup (fun c => bool_decide (c ∈ pw_collected w)) (<[c := mkHeld now (at_callers tr) ids.1 ids.2]> (ts_held (pw_tracer w))) c') as [E|[_ E]]; rewrite E in He; [|done].
      destruct (decide (c' = c)) as [->|Hne]; [set_solver|]. rewrite lookup_insert_ne in He by done. apply elem_of_dom_2, H2 in He. set_solver.
    + set_solver.
    + rewrite map_size_insert_None by (by apply not_elem_of_dom). lia.
    + by rewrite fmap_app, H5.
  - split; cbn; try done. by rewrite fmap_app, H5.
  - destruct (H1 c a Ha) as (e & He & Ht). cbn. unfold TraceRelease. rewrite He. split; cbn; try done.
    + intros c' a'. destruct (decide (c' = c)) as [->|Hne]; [by rewrite lookup_delete_eq|]. rewrite !lookup_delete_ne by done. apply H1.
    + intros c' Hin. rewrite dom_delete in Hin. apply elem_of_difference in Hin as [Hin Hne]. apply H2 in Hin. set_solver.
    + set_solver.
    + rewrite map_size_delete, Ha. lia.
    + rewrite fmap_app, H6. cbn. by rewrite Ht.
    + rewrite fmap_app, H7, leak_of_holds, List.filter_app. cbn. by rewrite Ht.
  - split; cbn; try done.
    + intros c' a'. destruct (decide (c' = c)) as [->|Hne]; [by rewrite lookup_delete_eq|]. rewrite lookup_delete_ne by done. apply H1.
    + intros c' Hin%H2. destruct (decide (c' = c)); set_solver.
    + set_solver.
    + rewrite map_size_delete, Ha. lia.
  - split; cbn; try done; [|set_solver]. intros c' Hin%H2. destruct (decide (c' = c)); set_solver.
Qed.

Lemma reachable_accounted w : rtc pool_step new_pool w -> accounted w.
Proof.
  intros H. assert (Hn : accounted new_pool) by (split; cbn; [intros ?? Hc; by rewrite lookup_empty in Hc|set_solver|set_solver|rewrite map_size_empty; lia|done..]).
  revert Hn. induction H as [w|w w1 w2 Hs _ IH]; [done|]. intros Hw. apply IH. by eapply step_accounted.
Qed.


End Tracer.

(** ** Slow queries *)

(** The class of an error, which is all a hashed line tells of it. *)
Definition error_class (e : query_error) : text * option (text * text) * bool * bool := (qe_type e, qe_pg e, qe_canceled e, qe_deadline e).

(** With hashing, a line tells of a query how long it took, eight bytes of the hash of its
    text, the number of its arguments and the class of its error: queries that agree on
    those write the same line. *)
Theorem hashed_line_opaque sha256 threshold start now sql sql' args args' err err' :
  take sqlHashBytes (sha256 sql) = take sqlHashBytes (sha256 sql') -> length args = length args' -> error_class <$> err = error_class <$> err' ->
  slow_line sha256 threshold true start now sql args err = slow_line sha256 threshold true start now sql' args' err'.
Proof.
  intros Hs Ha He. unfold slow_line, sqlAttrs. rewrite Hs, Ha. destruct (_ <? _); [done|]. do 4 f_equal.
  destruct err as [e|], err' as [e'|]; try done. apply (inj Some) in He. unfold error_class in He. injection He as H1 H2 H3 H4.
  unfold errorAttrs. cbn [negb]. by rewrite H1, H2, H3, H4.
Qed.

Module PoolSample.

Definition t : tracer_config := newPoolTracer slowQueryThreshold false (3 * S3.second) (10 * S3.second) 1 None.
Definition stack : list frame := [mkFrame (bytes_of "github.com/jackc/pgx/v5/pgxpool.(*Pool).Acquire") (bytes_of "pool.go") 9; mkFrame (bytes_of "app.Handle") (bytes_of "app.go") 42].
Definition trace : acquireTrace := (TraceAcquireStart t 0 None false stack).1.
Definition out : tracer := TraceAcquireEnd t (Some trace) (1 * S3.second) (bytes_of "t1", bytes_of "s1") (Some 7%nat) (fun _ => false) new_tracer.
Definition back : tracer := TraceRelease t (13 * S3.second) 7%nat out.


(** A timeout of half a millisecond switches the timeout off. *)
Example short_timeout_disabled : resolveTimeoutMillis 500000 defaultLockTimeout = 0.
Proof. reflexivity. Qed.

End PoolSample.
