(* ===== verification/ProcessHttp.v ===== *)
(** The HTTP side of the processes ([interfaces/http/handler/process_handler.go],
    [httpx/openapi]): the checks of caller, case and body, each operation, and the answers.

    A body is the JSON value it starts with, or none; what [uuid.Parse] reads is an argument.
    The generated code between the router and the handlers hands over what was decoded here;
    log lines, the texts of messages and the permission in front of each route are left out
    (the latter is [RequirePermission] of [Access]).  No answer stands for a panic.

    What the HTTP side of the processes guarantees: a case is shown to the people it
    concerns and to nobody else, and an answer tells what became of the request.

    [OpenApi] holds the package between a generated server and its handlers: errors that
    carry their own answer, and the request a handler finds in its context. *)

From stdpp Require Import base gmap list sorting strings.
From Stdlib Require Import ZArith Lia ZifyBool.
From S2P Require Import Prelude GoStrings Errors Model Definitions Repo Ports Engine IdempotencyHttp ProcessForm ProcessService Postgres Scenario ProcessTheorems.

Open Scope string_scope.
Open Scope list_scope.
Open Scope Z_scope.

(** ** Answers *)

(** [bpmsgen.Case]. *)
Record case_dto := mkCaseDto {
  cd_Id : uuid; cd_Process : string; cd_Version : Z; cd_State : string; cd_Status : Status; cd_AssignedTo : option string;
  cd_OpenedAt : time; cd_ClosedAt : option time; cd_TokenId : option uuid }.
Definition optional (s : string) : option string := if bool_decide (s = "") then None else Some s.
Definition toCase (c : Case) : case_dto :=
  mkCaseDto (c_ID c) (c_Definition c) (c_Version c) (c_State c) (c_Status c) (optional (c_AssignedTo c)) (c_OpenedAt c) (c_ClosedAt c) None.
Definition toWorkItem (it : WorkItem) : case_dto :=
  let c := toCase (wi_Case it) in
  mkCaseDto (cd_Id c) (cd_Process c) (cd_Version c) (t_Node (wi_Token it)) (cd_Status c) (optional (t_AssignedTo (wi_Token it)))
    (cd_OpenedAt c) (cd_ClosedAt c) (Some (t_ID (wi_Token it))).

Inductive payload :=
| DPublished (name : string) (version : Z)
| DVersion (spec : jval) (version : Z)
| DCase (c : case_dto)
| DInbox (items : list case_dto)
| DView (c : case_dto) (values : gmap string jval) (history : list CaseValue).

Inductive answer :=
| Refused (status : Z) (code : string)
| RefusedFields (fields : gmap string field_msg)
| Answered (status : Z) (data : payload).
Definition answer_status (a : answer) : Z := match a with Refused s _ => s | RefusedFields _ => 400 | Answered s _ => s end.

(** ** Errors *)

(** The errors [errors.Is] and [errors.As] look at. *)
Fixpoint joined (e : process_error) : list process_error := match e with PJoin a b => joined a ++ joined b | _ => [e] end.
Definition proc_Is (s : sentinel) (e : process_error) : bool :=
  existsb (fun e => match e with PEngine e => errors_Is e s | _ => false end) (joined e).
Definition http_code_text (c : http_code) : string :=
  match c with
  | CodeNotFound => "NOT_FOUND" | CodeConflict => "CONFLICT"
  | CodeUnprocessableEntity => "UNPROCESSABLE_ENTITY" | CodeValidationError => "VALIDATION_ERROR"
  end.
(** [workflowhttp.Status] of an error of this package. *)
Definition proc_Status (e : process_error) : option (Z * http_code) :=
  snd <$> List.find (fun row => proc_Is row.1 e) mappings.
Definition form_error (e : process_error) : option (gmap string field_msg) :=
  head (omap (fun e => match e with FormError f => Some f | _ => None end) (joined e)).
Definition is_error (p : process_error -> bool) (e : process_error) : bool := existsb p (joined e).

(** [fail]. *)
Definition fail (e : process_error) : answer :=
  match proc_Status e with
  | Some (status, code) => Refused status (http_code_text code)
  | None =>
      match form_error e with
      | Some fields => RefusedFields fields
      | None =>
          if is_error (fun e => match e with ErrProcessNotFound => true | _ => false end) e then Refused 404 "NOT_FOUND"
          else if is_error (fun e => match e with ErrNotHolder | ErrNotClaimant | ErrNoAccess => true | _ => false end) e then Refused 403 "FORBIDDEN"
          else if is_error (fun e => match e with ErrPublishConflict => true | _ => false end) e then Refused 409 "CONFLICT"
          else Refused 500 "INTERNAL_ERROR"
      end
  end.
Definition is_compile_error (e : process_error) : bool :=
  is_error (fun e => match e with CompileError _ => true | _ => false end) e.

Definition answer_of {A} (status : Z) (data : A -> payload) (r : presult A) : option answer :=
  match r with Ok a => Some (Answered status (data a)) | Err e => Some (fail e) | Panic | Fuel => None end.

(** ** Bodies *)

(** [bpmsgen.Submission] and [bpmsgen.SubmitRequest], decoded with [DisallowUnknownFields]. *)
Record submission := mkSubmission { sb_Action : option string; sb_TokenId : option uuid; sb_Values : option (gmap string jval) }.
Definition dec_text (v : jval) : option (option string) := match v with JvStr s => Some (Some s) | JvNull => Some None | _ => None end.
Definition dec_values (v : jval) : option (option (gmap string jval)) :=
  match v with JvObj fields => Some (Some (list_to_map (reverse fields))) | JvNull => Some None | _ => None end.

Section Handlers.
Context (parse_uuid : string -> option uuid).

Definition dec_uuid (v : jval) : option (option uuid) :=
  match v with JvStr s => u ← parse_uuid s; Some (Some u) | JvNull => Some None | _ => None end.
Definition set_submission (with_token : bool) (k : string) (v : jval) (s : submission) : option submission :=
  let '(mkSubmission action token values) := s in
  if EqualFold k "action" then action ← dec_text v; Some (mkSubmission action token values)
  else if with_token && EqualFold k "tokenId" then token ← dec_uuid v; Some (mkSubmission action token values)
  else if EqualFold k "values" then values ← dec_values v; Some (mkSubmission action token values)
  else None.
(** [decodeStrict]. *)
Definition decodeStrict (with_token : bool) (body : option jval) : option submission :=
  v ← body; dec_struct (set_submission with_token) v (mkSubmission None None None).
Definition invalid_json : answer := Refused 400 "INVALID_JSON".

(** [fromSubmission]. *)
Definition fromSubmission (s : submission) : string * gmap string jval := (default "" (sb_Action s), default ∅ (sb_Values s)).

(** [actorFrom], [requireActor]: the user of the principal, if it has one. *)
Definition requireActor (user : option string) : answer + string :=
  match user with
  | Some u => if bool_decide (u = "") then inl (Refused 401 "UNAUTHORIZED") else inr u
  | None => inl (Refused 401 "UNAUTHORIZED")
  end.
(** [actorAndCaseFrom], [checkActorAndCase]. *)
Definition actorAndCase (user : option string) (rawID : string) : answer + (string * uuid) :=
  match requireActor user with
  | inl a => inl a
  | inr actor => match parse_uuid rawID with Some id => inr (actor, id) | None => inl (Refused 404 "NOT_FOUND") end
  end.

(** ** Operations *)

Context {D : Type} `{Repository D} (number : string -> jval) (env_ok : list string -> bool) (rule_ok : list string -> string -> bool)
  (eval : list string -> string -> gmap string jval -> option bool) (reg : gmap string FieldType)
  (holders : string -> string -> error + list string).

Definition PublishProcess (body : option jval) (conflict : bool) (s : Catalog (D := D) * ProcessDB (D := D)) : (Catalog (D := D) * ProcessDB (D := D)) * option answer :=
  match body ≫= ParseProcessSpec with
  | None => (s, Some invalid_json)
  | Some spec =>
      let '(s, r) := Publish number env_ok rule_ok reg conflict spec s in
      (s, match r with
          | Err e => Some (if is_compile_error e then Refused 422 "UNPROCESSABLE_ENTITY" else fail e)
          | _ => answer_of 201 (fun p => DPublished (d_Name (p_Definition p)) (d_Version (p_Definition p))) r
          end)
  end.

Definition GetLatestProcess (name : string) (c : Catalog (D := D)) : answer :=
  match Catalog_Latest c name with
  | None => Refused 404 "NOT_FOUND"
  | Some p => Answered 200 (DVersion (enc_spec (p_Spec p)) (d_Version (p_Definition p)))
  end.

Definition StartCase (user : option string) (name : string) (body : option jval) (cx cx' : Ctx) (ext : string) (c : Catalog) (db : ProcessDB)
    : ProcessDB * option answer :=
  match requireActor user with
  | inl a => (db, Some a)
  | inr actor =>
      match decodeStrict false body with
      | None => (db, Some invalid_json)
      | Some s =>
          let '(action, values) := fromSubmission s in
          let '(db, r) := Start number eval c cx cx' ext actor name action values db in
          (db, answer_of 201 (fun cs => DCase (toCase cs)) r)
      end
  end.

Definition ListInbox (user : option string) (c : Catalog) (db : ProcessDB (D := D)) : option answer :=
  match requireActor user with
  | inl a => Some a
  | inr actor => answer_of 200 (fun items => DInbox (toWorkItem <$> items)) (Service_Inbox holders c actor (pd_cases db))
  end.

Definition GetCase (user : option string) (rawID : string) (c : Catalog) (db : ProcessDB) : option answer :=
  match actorAndCase user rawID with
  | inl a => Some a
  | inr (actor, id) => answer_of 200 (fun v => let '(cs, values, history) := v in DView (toCase cs) values history) (View holders c actor id db)
  end.

Definition ClaimCase (user : option string) (rawID rawToken : string) (cx : Ctx) (c : Catalog) (db : ProcessDB) : ProcessDB * option answer :=
  match actorAndCase user rawID with
  | inl a => (db, Some a)
  | inr (actor, id) =>
      match (if bool_decide (rawToken = "") then Some uuid_Nil else parse_uuid rawToken) with
      | None => (db, Some (Refused 404 "NOT_FOUND"))
      | Some tokenID =>
          let '(db, r) := Service_Claim holders c cx actor id tokenID db in (db, answer_of 200 (fun cs => DCase (toCase cs)) r)
      end
  end.

Definition SubmitCase (user : option string) (rawID : string) (body : option jval) (cx cx' : Ctx) (c : Catalog) (db : ProcessDB)
    : ProcessDB * option answer :=
  match actorAndCase user rawID with
  | inl a => (db, Some a)
  | inr (actor, id) =>
      match decodeStrict true body with
      | None => (db, Some invalid_json)
      | Some s =>
          let '(action, values) := fromSubmission s in
          let '(db, r) := Submit number eval c cx cx' actor id (default uuid_Nil (sb_TokenId s)) action values db in
          (db, answer_of 200 (fun cs => DCase (toCase cs)) r)
      end
  end.

End Handlers.

(** ** Refusals *)

Lemma mappings_statuses s status code : (s, (status, code)) ∈ mappings -> 400 <= status < 500.
Proof.
  intros H. assert (F : Forall (fun row => 400 <= row.2.1 < 500) mappings) by (repeat (constructor; [cbn; lia|]); constructor).
  rewrite Forall_forall in F. by apply F in H.
Qed.
Lemma fail_refuses e : 400 <= answer_status (fail e) <= 500 /\ (forall s d, fail e <> Answered s d).
Proof.
  unfold fail, proc_Status. destruct (List.find _ mappings) as [[s [status code]]|] eqn:E; cbn.
  - apply List.find_some in E as [E _]. apply list_elem_of_In, mappings_statuses in E. split; [lia|done].
  - destruct (form_error e); [split; [cbn; lia|done]|]. repeat case_match; split; (done || cbn; lia).
Qed.
Lemma answer_of_refused {A} status (data : A -> payload) r a : answer_of status data r = Some a ->
  (exists x, r = Ok x /\ a = Answered status (data x)) \/ (exists e, r = Err e /\ a = fail e).
Proof. destruct r; cbn; naive_solver. Qed.

Section Routes.
Context (parse_uuid : string -> option uuid).
Context {D : Type} `{Repository D} (holders : string -> string -> error + list string).

Lemma requireActor_spec user :
  match requireActor user with
  | inl a => a = Refused 401 "UNAUTHORIZED" /\ (user = None \/ user = Some "")
  | inr actor => user = Some actor /\ actor <> ""
  end.
Proof. destruct user as [u|]; cbn; [|auto]. case_bool_decide; subst; auto. Qed.
Lemma actorAndCase_spec user rawID :
  match actorAndCase parse_uuid user rawID with
  | inl a => 400 <= answer_status a < 500 /\ (forall s d, a <> Answered s d)
  | inr (actor, id) => user = Some actor /\ actor <> "" /\ parse_uuid rawID = Some id
  end.
Proof.
  unfold actorAndCase. pose proof (requireActor_spec user) as Hu. destruct (requireActor user) as [a|actor].
  - destruct Hu as [-> _]. split; [cbn; lia|done].
  - destruct (parse_uuid rawID); [naive_solver|]. split; [cbn; lia|done].
Qed.

(** ** Who sees a case *)

Definition holds (e : Eligibility) (actor : string) : Prop :=
  el_IsZero e = false /\ exists people, holders (el_Position e) (el_Unit e) = inr people /\ actor ∈ people.
(** The people of a case: who acted in it and, while it is open, the assignees and holders
    of its active tokens. *)
Definition concerns (c : Catalog (D := D)) (actor : string) (cs : Case) (db : D) : Prop :=
  (exists events ev, History db (c_ID cs) = Ok events /\ ev ∈ events /\ a_ID (ev_Actor ev) = actor) \/
  c_Status cs = StatusOpen /\ exists tokens t, Tokens (ct_engine c) db (c_ID cs) = Ok tokens /\ t ∈ tokens /\ t_Status t = TokenActive /\
    (t_AssignedTo t = actor \/ holds (t_Eligible t) actor).

Lemma Holds_true e actor : Holds holders e actor = Ok true <-> holds e actor.
Proof.
  unfold Holds, holds. destruct (el_IsZero e); [naive_solver|]. destruct (holders _ _) as [err|people]; [naive_solver|].
  destruct (bool_decide_reflect (actor ∈ people)); naive_solver.
Qed.
Lemma related_tokens_true actor tokens : related_tokens holders actor tokens = Ok true ->
  exists t, t ∈ tokens /\ t_Status t = TokenActive /\ (t_AssignedTo t = actor \/ holds (t_Eligible t) actor).
Proof.
  induction tokens as [|t tokens IH]; cbn; [done|]. setoid_rewrite elem_of_cons.
  destruct (bool_decide_reflect (t_Status t = TokenActive)) as [Ha|]; cbn; [|naive_solver].
  destruct (bool_decide_reflect (t_AssignedTo t = actor)); [naive_solver|].
  pose proof (Holds_true (t_Eligible t) actor) as Hh. destruct (Holds holders (t_Eligible t) actor) as [[|]| | |]; cbn; naive_solver.
Qed.
Lemma related_true c actor cs db : related holders c actor cs db = Ok true -> concerns c actor cs db.
Proof.
  unfold related, concerns. destruct (History db (c_ID cs)) as [events| | |]; cbn; [|done..].
  destruct (existsb _ events) eqn:Ee.
  - intros _. left. apply List.existsb_exists in Ee as (ev & Hin & Hev). apply bool_decide_eq_true in Hev. exists events, ev. by rewrite list_elem_of_In.
  - destruct (bool_decide_reflect (c_Status cs = StatusOpen)); cbn; [|done]. destruct (Tokens _ _ _) as [tokens| | |]; cbn; [|done..].
    intros (t & ? & ? & ?)%related_tokens_true. right. split; [done|]. by exists tokens, t.
Qed.
Lemma related_tokens_total actor tokens : (forall p u, exists people, holders p u = inr people) ->
  exists b, related_tokens holders actor tokens = Ok b /\
    ((exists t, t ∈ tokens /\ t_Status t = TokenActive /\ (t_AssignedTo t = actor \/ holds (t_Eligible t) actor)) -> b = true).
Proof.
  intros Ht. induction tokens as [|t tokens (b & IH & IHb)]; cbn; [exists false; split; [done|]; intros (t & Hin & _); by apply elem_of_nil in Hin|].
  setoid_rewrite elem_of_cons.
  destruct (bool_decide_reflect (t_Status t = TokenActive)) as [Ha|]; cbn; [|naive_solver].
  destruct (bool_decide_reflect (t_AssignedTo t = actor)); [naive_solver|].
  assert (exists h, Holds holders (t_Eligible t) actor = Ok h) as [h Hh].
  { unfold Holds. destruct (el_IsZero _); [eauto|]. destruct (Ht (el_Position (t_Eligible t)) (el_Unit (t_Eligible t))) as [people ->]. eauto. }
  rewrite Hh. cbn. destruct h; [naive_solver|]. exists b. split; [done|]. intros (t' & [->|Hin] & Hs & Hc); [|naive_solver].
  destruct Hc as [|Hc%Holds_true]; [done|]. congruence.
Qed.

(** C32: what is stored of a case is shown only to the people it concerns - who acted in it
    or, while it is open, has or may take one of its active work items; everybody else is
    refused; and as long as the directory answers, nobody it concerns is. *)
Theorem case_view_private user rawID c db a :
  GetCase parse_uuid holders user rawID c db = Some a ->
  match a with
  | Answered status data =>
      status = 200 /\ exists actor id cs, user = Some actor /\ actor <> "" /\ parse_uuid rawID = Some id /\
        lift (repo_GetByID (pd_cases db) id) = Ok cs /\ data = DView (toCase cs) (Current id db) (ValueHistory id db) /\
        concerns c actor cs (pd_cases db)
  | _ =>
      400 <= answer_status a <= 500 /\
      forall actor id cs events tokens, user = Some actor -> actor <> "" -> parse_uuid rawID = Some id -> lift (repo_GetByID (pd_cases db) id) = Ok cs ->
        History (pd_cases db) (c_ID cs) = Ok events -> Tokens (ct_engine c) (pd_cases db) (c_ID cs) = Ok tokens ->
        (forall p u, exists people, holders p u = inr people) -> ~ concerns c actor cs (pd_cases db)
  end.
Proof.
  unfold GetCase. pose proof (actorAndCase_spec user rawID) as Hu. destruct (actorAndCase parse_uuid user rawID) as [r|[actor id]] eqn:Eac.
  - intros [= <-]. destruct Hu as [Hu Hn]. destruct r; [| |by destruct (Hn status data)]; (split; [lia|]);
      intros actor id cs events tokens -> Ha Hp; unfold actorAndCase, requireActor in Eac; rewrite bool_decide_eq_false_2, Hp in Eac by done; done.
  - destruct Hu as (Hu & Ha & Hp). intros [(x & Hx & ->)|(e & Hx & ->)]%answer_of_refused.
    + split; [done|]. unfold View in Hx. destruct (lift (repo_GetByID (pd_cases db) id)) as [cs| | |] eqn:Ec; cbn in Hx; [|done..].
      destruct (related holders c actor cs (pd_cases db)) as [[|]| | |] eqn:Er; cbn in Hx; [|done..]. injection Hx as <-.
      exists actor, id, cs. split_and!; try done. by apply related_true.
    + destruct (fail_refuses e) as [Hf Hn]. destruct (fail e); [| |by destruct (Hn status data)]; (split; [done|]);
        intros actor' id' cs events tokens; rewrite Hu, Hp; intros [= <-] _ [= <-] Hc Hh Ht Htot Hcon;
        unfold View in Hx; rewrite Hc in Hx; cbn in Hx; unfold related in Hx; rewrite Hh in Hx; cbn in Hx;
        (destruct (existsb _ events) eqn:Ee; [done|]);
        (destruct Hcon as [(evs & ev & Hevs & Hin & Hev)|(Ho & toks & t & Htoks & Hin & Hs & Hc')];
          [rewrite Hh in Hevs; injection Hevs as <-; apply not_true_iff_false in Ee; apply Ee, List.existsb_exists; exists ev;
             rewrite <- list_elem_of_In; split; [done|by apply bool_decide_eq_true]
          |rewrite bool_decide_eq_true_2 in Hx by done; cbn in Hx; rewrite Ht in Hx, Htoks; cbn in Hx; injection Htoks as <-;
             destruct (related_tokens_total actor tokens Htot) as (b & Hb & Hbt); rewrite Hb, Hbt in Hx by eauto; done]).
Qed.

(** ** Submissions *)

Context (number : string -> jval) (eval : list string -> string -> gmap string jval -> option bool).

Lemma BeginFunc_undone {A} (f : ProcessDB (D := D) -> ProcessDB * presult A) db : (forall a, (BeginFunc f db).2 <> Ok a) -> (BeginFunc f db).1 = db.
Proof. unfold BeginFunc. destruct (f db) as [db1 []]; cbn; intros Hn; try done. by destruct (Hn a). Qed.

Lemma submit_refused c cx cx' actor caseID tokenID action values db :
  (forall moved, (Submit number eval c cx cx' actor caseID tokenID action values db).2 <> Ok moved) ->
  pd_values (Submit number eval c cx cx' actor caseID tokenID action values db).1 = pd_values db.
Proof.
  unfold Submit. set (b := BeginFunc (submit_tx number eval c cx actor caseID tokenID action values) db).
  destruct b as [db1 r1] eqn:Eb. intros Hn.
  assert (Hd : (forall a, r1 <> Ok a) -> db1 = db).
  { intros Hr. pose proof (BeginFunc_undone (submit_tx number eval c cx actor caseID tokenID action values) db) as Hu. subst b. rewrite Eb in Hu. by apply Hu. }
  destruct r1 as [moved|e| |]; [by destruct (Hn moved)| |by rewrite Hd|by rewrite Hd]. rewrite Hd in * by done.
  destruct (process_failure_kind e) as [kind|]; [|done]. destruct (BeginFunc (on_cases _) db) as [db2 r2] eqn:Er.
  assert (pd_values db2 = pd_values db).
  { unfold BeginFunc, on_cases in Er. destruct (RecordFailure _ _ _ _) as [d [ev|e'| |]]; cbn in Er; by injection Er as <- <-. }
  by destruct r2.
Qed.

(** A submission is answered with the case it moved exactly when it is stored; every other
    answer is a refusal, and leaves no value. *)
Theorem submit_answered user rawID body cx cx' c db db' a :
  SubmitCase parse_uuid number eval user rawID body cx cx' c db = (db', Some a) ->
  match a with
  | Answered status data =>
      status = 200 /\ exists actor id s moved, user = Some actor /\ parse_uuid rawID = Some id /\ decodeStrict parse_uuid true body = Some s /\
        Submit number eval c cx cx' actor id (default uuid_Nil (sb_TokenId s)) (fromSubmission s).1 (fromSubmission s).2 db = (db', Ok moved) /\
        data = DCase (toCase moved)
  | _ => 400 <= answer_status a <= 500 /\ pd_values db' = pd_values db
  end.
Proof.
  unfold SubmitCase. pose proof (actorAndCase_spec user rawID) as Hu. destruct (actorAndCase parse_uuid user rawID) as [r|[actor id]].
  - intros [= <- <-]. destruct Hu as [Hu Hn]. destruct r; [split; [lia|done]..|by destruct (Hn status data)].
  - destruct Hu as (Hu & _ & Hp). destruct (decodeStrict parse_uuid true body) as [s|] eqn:Es; [|intros [= <- <-]; split; [cbn; lia|done]].
    destruct (fromSubmission s) as [action values] eqn:Ef. pose proof (submit_refused c cx cx' actor id (default uuid_Nil (sb_TokenId s)) action values db) as Hr.
    destruct (Submit _ _ _ _ _ _ _ _ _ _ _) as [db1 r] eqn:E. intros H1. injection H1 as <- H1. apply answer_of_refused in H1 as [(x & -> & ->)|(e & -> & ->)].
    + split; [done|]. exists actor, id, s, x. split_and!; try done. rewrite Ef. exact E.
    + destruct (fail_refuses e) as [Hf Hn]. assert (Hv : pd_values db1 = pd_values db) by (apply Hr; done).
      destruct (fail e); [split; done..|by destruct (Hn status data)].
Qed.

End Routes.


Module ViewSample.

Definition ids (s : string) : option uuid := if bool_decide (s = "the-case") then Some the_case else None.
Definition seen_by (user : string) : option answer := GetCase ids reviewers (Some user) "the-case" published.1.1 after_claim.

Lemma case_view_private_witness :
  (exists cs values history, seen_by "luis" = Some (Answered 200 (DView (toCase cs) values history)) /\
     concerns reviewers published.1.1 "luis" cs (pd_cases after_claim)) /\
  seen_by "eve" = Some (Refused 403 "FORBIDDEN").
Proof.
  split; [|vm_compute; reflexivity].
  assert (Hs : match seen_by "luis" with Some (Answered _ _) => true | _ => false end = true) by (vm_compute; reflexivity).
  destruct (seen_by "luis") as [[| |status data]|] eqn:E; try discriminate Hs.
  destruct (case_view_private ids reviewers (Some "luis") "the-case" published.1.1 after_claim (Answered status data) E)
    as (-> & actor & id & cs & Hu & _ & _ & _ & -> & Hc).
  exists cs, (Current id after_claim), (ValueHistory id after_claim). split; [reflexivity|].
  assert (actor = "luis") as -> by congruence. exact Hc.
Defined.

End ViewSample.

(** ** Errors and requests of a generated server ([httpx/openapi]) *)

Module OpenApi.

(** An error: one that carries its answer ([writtenError], with its cause), one that wraps
    another, several joined, or none of these.  An answer is what its writer sends; none
    stands for a nil writer. *)
Inductive operation_error (W : Type) :=
| Written (write : option W) (cause : option (operation_error W))
| Wrapping (e : operation_error W)
| Joined (es : list (operation_error W))
| Bare (name : string).
Arguments Written {_} _ _.
Arguments Wrapping {_} _.
Arguments Joined {_} _.
Arguments Bare {_} _.

Section Answers.
Context {W : Type}.

(** [errors.As] for a [writtenError]: the first in the order of a walk down the tree. *)
Fixpoint as_written (e : operation_error W) : option (option W) :=
  match e with
  | Written w _ => Some w
  | Wrapping e => as_written e
  | Joined es => (fix first (l : list (operation_error W)) : option (option W) := match l with [] => None | e :: l => match as_written e with Some w => Some w | None => first l end end) es
  | Bare _ => None
  end.

Definition Fail (err : option (operation_error W)) (write : option W) : operation_error W := Written write err.
End Answers.

(** Writers: [response.ErrorWith] with a status and a code, [WriteErrors] of a validator, or
    one of the consumer's. *)
Inductive writer (V C : Type) := ErrorWith (status : Z) (code : string) | FieldErrors (v : V) | Custom (c : C).
Arguments ErrorWith {_ _} _ _.
Arguments FieldErrors {_ _} _.
Arguments Custom {_ _} _.

Section Handled.
Context {V C : Type}.
Abbreviation W := (writer V C).

Definition Respond (status : Z) (code : string) : operation_error W := Fail None (Some (ErrorWith status code)).
Definition Invalid (v : V) : operation_error W := Fail None (Some (FieldErrors v)).

(** What is sent, or a panic. *)
Inductive outcome := Sent (w : W) | NilWriter.
Definition WriteError (e : operation_error W) : option outcome :=
  match as_written e with
  | None => None
  | Some (Some w) => Some (Sent w)
  | Some None => Some NilWriter
  end.
(** [ResponseErrorHandler]: what is sent, and whether a line is logged. *)
Definition ResponseErrorHandler (e : operation_error W) : outcome * bool :=
  match WriteError e with
  | Some o => (o, false)
  | None => (Sent (ErrorWith 500 "INTERNAL_ERROR"), true)
  end.
(** [RequestErrorHandler]; the rejection is logged. *)
Definition RequestErrorHandler : outcome * bool := (Sent (ErrorWith 400 "INVALID_JSON"), true).
End Handled.

(** *** The request in its own context *)

(** Values of a context, the latest first; the slots live on a heap. *)
Inductive ctx_value := RequestSlot (p : nat) | OtherValue (key : string) (v : string).
Record http_request := mkRequest { rq_target : string; rq_ctx : list ctx_value }.
Abbreviation heap := (gmap nat http_request).

(** [slot] is the address the allocation gives. *)
Definition RequestInContext (slot : nat) (r : http_request) (h : heap) : http_request * heap :=
  let r := mkRequest (rq_target r) (RequestSlot slot :: rq_ctx r) in (r, <[slot := r]> h).
(** [Request]; none stands for the panic. *)
Fixpoint Request (ctx : list ctx_value) (h : heap) : option http_request :=
  match ctx with
  | [] => None
  | RequestSlot p :: _ => h !! p
  | OtherValue _ _ :: ctx => Request ctx h
  end.

(** *** What a handler can rely on *)

(** An error is answered once: by its own writer when it is, or wraps, one that carries it,
    the outermost first, and nothing is logged; otherwise with 500 and a line. *)
Theorem error_answered {V C : Type} (e : operation_error (writer V C)) :
  (forall w, as_written e = Some (Some w) -> ResponseErrorHandler e = (Sent w, false)) /\
  (as_written e = None -> ResponseErrorHandler e = (Sent (ErrorWith 500 "INTERNAL_ERROR"), true)) /\
  (forall (w : writer V C) cause, ResponseErrorHandler (Wrapping (Wrapping (Fail cause (Some w)))) = (Sent w, false)) /\
  (forall es : list (operation_error (writer V C)), (forall x, x ∈ es -> as_written x = None) -> as_written (Joined es) = None) /\
  (forall es1 es2 w, (forall x, x ∈ es1 -> as_written x = None) -> as_written e = Some w -> as_written (Joined (es1 ++ e :: es2)) = Some w).
Proof.
  unfold ResponseErrorHandler, WriteError. split; [by intros w ->|]. split; [by intros ->|]. split; [done|]. split.
  - induction es as [|x es IH]; intros H; [done|]. cbn. rewrite (H x ltac:(left)). apply IH. intros y Hy. apply H. by right.
  - intros es1 es2 w H He. induction es1 as [|x es1 IH]; cbn; [by rewrite He|]. rewrite (H x ltac:(left)). apply IH. intros y Hy. apply H. by right.
Qed.

(** A handler reads the very request its middleware passed on, from any context derived from
    it, whatever other requests are served; and a value added after the middleware is not
    in the request it reads. *)
Theorem request_found slot r h values : (forall v, v ∈ values -> exists k x, v = OtherValue k x) ->
  let '(r', h') := RequestInContext slot r h in
  rq_target r' = rq_target r /\
  forall others, (forall o, o ∈ others -> o.1 <> slot) ->
    Request (values ++ rq_ctx r') (fold_left (fun h o => (RequestInContext o.1 o.2 h).2) others h') = Some r'.
Proof.
  intros Hv. cbn [RequestInContext]. split; [done|]. intros others Ho. set (r' := mkRequest _ _). set (h2 := fold_left _ _ _).
  assert (H : h2 !! slot = Some r').
  { unfold h2. assert (Hs : (<[slot := r']> h : heap) !! slot = Some r') by apply lookup_insert_eq. revert Hs. generalize (<[slot := r']> h : heap) as h0.
    induction others as [|o others IH]; intros h0 Hs; [exact Hs|]. cbn. apply IH; [intros o' Hin; apply Ho; by right|].
    rewrite lookup_insert_ne; [exact Hs|]. apply Ho. by left. }
  clearbody h2. induction values as [|v values IH]; [exact H|].
  destruct (Hv v ltac:(left)) as (k & x & ->). cbn. apply IH. intros w Hw. apply Hv. by right.
Qed.
End OpenApi.
