(* ===== verification/StructValidation.v ===== *)
(** The struct validator ([validation/validation.go], [messages.go]): the name of a field a
    client can act on, found by walking the type beside the namespaces
    go-playground/validator reports, the messages, and what a request is answered.

    The rules a struct is checked against are the package's that is wrapped: the errors it
    reports are an argument, each with its two namespaces, its tag, parameter and kind.  What
    [reflect.Type.FieldByName] finds among promoted fields is an argument as well.

    What the struct validator guarantees: an error is named by the path of the field in the
    JSON the client sent, with embedded structs flattened as encoding/json flattens them;
    and where it does not hold. *)

From stdpp Require Import base gmap list strings.
From Stdlib Require Import ZArith Lia Ascii.
From S2P Require Import Prelude GoStrings GoText Netip Access NetipFacts.

Open Scope string_scope.
Open Scope list_scope.
Open Scope Z_scope.

(** ** Types *)

(** [reflect.Type]: a field is its name, whether it is embedded, its json tag and its type. *)
Inductive gotype :=
| GStruct (fields : list (text * bool * text * gotype))
| GPointer (elem : gotype)
| GSequence (elem : gotype)
| GMap (elem : gotype)
| GOther.
Definition gofield : Type := text * bool * text * gotype.
Definition fd_Name (f : gofield) : text := f.1.1.1.
Definition fd_Anonymous (f : gofield) : bool := f.1.1.2.
Definition fd_Tag (f : gofield) : text := f.1.2.
Definition fd_Type (f : gofield) : gotype := f.2.

Definition comma : ascii := ",".
Definition dot : ascii := ".".
Definition bracket : ascii := "[".
Definition before (c : ascii) (t : text) : text := (span (fun x => negb (Ascii.eqb x c)) t).1.

(** [jsonTagName]. *)
Definition jsonTagName (f : gofield) : text :=
  let name := before comma (fd_Tag f) in
  if bool_decide (name = []) || bool_decide (name = bytes_of "-") then fd_Name f else name.
(** [jsonNameOf]. *)
Definition jsonNameOf (f : gofield) : text :=
  let name := before comma (fd_Tag f) in if bool_decide (name = bytes_of "-") then [] else name.

Fixpoint derefStruct (t : gotype) : gotype := match t with GPointer e => derefStruct e | _ => t end.
Definition elemOf (t : gotype) : gotype := match derefStruct t with GSequence e | GMap e => e | t => t end.

(** [cutIndex]. *)
Definition cutIndex (seg : text) : text * bool := (before bracket seg, existsb (Ascii.eqb bracket) seg).
(** [splitNamespace]. *)
Definition splitNamespace (ns : text) : list text := if bool_decide (ns = []) then [] else split_on dot ns.

Section Keys.
Context (promoted : list gofield -> text -> option gofield).

(** [FieldByName]: a field of the struct itself, or one promoted from an embedded one. *)
Definition FieldByName (fields : list gofield) (name : text) : option gofield :=
  match List.find (fun f => bool_decide (fd_Name f = name)) fields with Some f => Some f | None => promoted fields name end.

(** The loop of [fieldKey]: the segments kept. *)
Fixpoint key_segments (t : option gotype) (goSegs jsonSegs : list text) : list text :=
  match goSegs with
  | [] => []
  | goSeg :: goSegs =>
      let '(name, hasIndex) := cutIndex goSeg in
      let '(flatten, next) :=
        match t with
        | Some (GStruct fields) =>
            match FieldByName fields name with
            | Some f => (fd_Anonymous f && bool_decide (jsonNameOf f = []),
                         Some (derefStruct (if hasIndex then elemOf (fd_Type f) else fd_Type f)))
            | None => (false, None)
            end
        | _ => (false, None)
        end in
      let rest := key_segments next goSegs (tail jsonSegs) in
      if flatten then rest else match jsonSegs with s :: _ => s :: rest | [] => rest end
  end.
Definition fieldKey (root : gotype) (namespace structNamespace : text) : text :=
  join_sep dot (key_segments (Some root) (tail (splitNamespace structNamespace)) (tail (splitNamespace namespace))).

(** ** Messages *)

Inductive kind := KString | KItems | KOther.
Record Messages := mkMessages {
  mg_Required : text -> text; mg_Min : text -> text -> kind -> text; mg_Max : text -> text -> kind -> text;
  mg_OneOf : text -> text -> text; mg_Default : text -> text -> text }.
Definition minMaxMessage (comparator : string) (field param : text) (k : kind) : text :=
  match k with
  | KString => field ++ bytes_of " must be " ++ bytes_of comparator ++ [" "%char] ++ param ++ bytes_of " characters long"
  | KItems => field ++ bytes_of " must contain " ++ bytes_of comparator ++ [" "%char] ++ param ++ bytes_of " items"
  | KOther => field ++ bytes_of " must be " ++ bytes_of comparator ++ [" "%char] ++ param
  end.
Definition DefaultMessages : Messages :=
  mkMessages (fun field => field ++ bytes_of " is required") (minMaxMessage "at least") (minMaxMessage "at most")
    (fun field param => field ++ bytes_of " must be one of: " ++ bytes_of (String.concat ", " (Fields (string_of param))))
    (fun field _ => field ++ bytes_of " is invalid").

(** [validator.FieldError]. *)
Record field_failure := mkFailure { ff_Namespace : text; ff_StructNamespace : text; ff_Tag : string; ff_Param : text; ff_Kind : kind }.

Definition requiredTags : list string :=
  ["required"; "required_if"; "required_unless"; "required_with"; "required_with_all"; "required_without"; "required_without_all"].
Definition messageFor (m : Messages) (field : text) (fe : field_failure) : text :=
  if bool_decide (ff_Tag fe ∈ requiredTags) then mg_Required m field
  else if bool_decide (ff_Tag fe = "min") then mg_Min m field (ff_Param fe) (ff_Kind fe)
  else if bool_decide (ff_Tag fe = "max") then mg_Max m field (ff_Param fe) (ff_Kind fe)
  else if bool_decide (ff_Tag fe = "oneof") then mg_OneOf m field (ff_Param fe)
  else mg_Default m field (bytes_of (ff_Tag fe)).

(** ** Validation *)

(** What the wrapped package answers: no error, failures of fields, or another error. *)
Inductive outcome := Valid | Failures (fes : list field_failure) | Misuse.

Definition collect (m : Messages) (root : gotype) (fes : list field_failure) : gmap text text :=
  fold_left (fun fields fe =>
    let key := fieldKey root (ff_Namespace fe) (ff_StructNamespace fe) in
    match fields !! key with Some _ => fields | None => <[key := messageFor m key fe]> fields end) fes ∅.
(** [Struct]: nothing, the errors of fields, or an error of the program. *)
Definition Struct (m : Messages) (type : gotype) (o : outcome) : option (gmap text text) + unit :=
  match o with
  | Valid => inl None
  | Failures fes => inl (Some (collect m (derefStruct type) fes))
  | Misuse => inr tt
  end.
(** [Write]: what is answered, nothing for a valid value. *)
Definition Write_ (m : Messages) (type : gotype) (o : outcome) : option (Z * gmap text text) :=
  match Struct m type o with
  | inl None => None
  | inl (Some fields) => Some (400, fields)
  | inr _ => Some (500, ∅)
  end.

End Keys.

(** ** Paths of a type *)

(** A step into a field, and into one of its elements. *)
Definition step : Type := gofield * option text.
Definition suffix (i : option text) : text := match i with Some i => [bracket] ++ i ++ ["]"%char] | None => [] end.
Definition step_type (s : step) : gotype := derefStruct (match s.2 with Some _ => elemOf (fd_Type s.1) | None => fd_Type s.1 end).
Fixpoint typed (t : gotype) (p : list step) : Prop :=
  match p with
  | [] => True
  | s :: p => exists fields, t = GStruct fields /\ List.find (fun f => bool_decide (fd_Name f = fd_Name s.1)) fields = Some s.1 /\ typed (step_type s) p
  end.

(** The namespaces validator reports for a path. *)
Definition struct_namespace (root : text) (p : list step) : text := join_sep dot (root :: ((fun s => fd_Name s.1 ++ suffix s.2) <$> p)).
Definition json_namespace (root : text) (p : list step) : text := join_sep dot (root :: ((fun s => jsonTagName s.1 ++ suffix s.2) <$> p)).

(** The path in the JSON: encoding/json promotes the fields of an embedded struct without a
    name of its own, and names every other field by its tag or itself. *)
Definition is_struct (t : gotype) : bool := match derefStruct t with GStruct _ => true | _ => false end.
Definition inlined (f : gofield) : bool := fd_Anonymous f && bool_decide (before comma (fd_Tag f) = []) && is_struct (fd_Type f).
Definition json_name (f : gofield) : text := if bool_decide (before comma (fd_Tag f) = []) then fd_Name f else before comma (fd_Tag f).
Fixpoint json_path (p : list step) : list text :=
  match p with
  | [] => []
  | s :: p => if inlined s.1 then json_path p else (json_name s.1 ++ suffix s.2) :: json_path p
  end.

(** A field with a name in the JSON, whose names and index keep clear of the namespaces'
    separators, and which is embedded without a name only if it is a struct. *)
Definition ordinary (s : step) : Prop :=
  before comma (fd_Tag s.1) <> bytes_of "-" /\ dot ∉ fd_Name s.1 /\ bracket ∉ fd_Name s.1 /\ dot ∉ json_name s.1 /\
  (forall i, s.2 = Some i -> dot ∉ i) /\
  (fd_Anonymous s.1 = true -> before comma (fd_Tag s.1) = [] -> is_struct (fd_Type s.1) = true).

Lemma before_app c a b : c ∉ a -> before c (a ++ c :: b) = a.
Proof.
  intros Ha. unfold before. induction a as [|x a IH]; cbn; [by rewrite Ascii.eqb_refl|].
  apply not_elem_of_cons in Ha as [Hx Ha]. assert (Ascii.eqb x c = false) as -> by (apply Ascii.eqb_neq; congruence). cbn.
  specialize (IH Ha). destruct (span _ (a ++ c :: b)) as [l r]. cbn in *. by rewrite IH.
Qed.
Lemma before_whole c a : c ∉ a -> before c a = a.
Proof.
  intros Ha. unfold before. induction a as [|x a IH]; [done|]. cbn. apply not_elem_of_cons in Ha as [Hx Ha].
  assert (Ascii.eqb x c = false) as -> by (apply Ascii.eqb_neq; congruence). cbn. specialize (IH Ha). destruct (span _ a) as [l r]. cbn in *. by rewrite IH.
Qed.
Lemma cutIndex_step name i : bracket ∉ name -> cutIndex (name ++ suffix i) = (name, bool_decide (is_Some i)).
Proof.
  intros Hn. unfold cutIndex. destruct i as [i|]; cbn [suffix].
  - change (name ++ [bracket] ++ i ++ ["]"%char]) with (name ++ bracket :: (i ++ ["]"%char])). rewrite before_app by done. f_equal.
    rewrite (bool_decide_eq_true_2 (is_Some (Some i))) by done. apply List.existsb_exists. exists bracket. split; [|done]. apply list_elem_of_In, elem_of_app. right. left.
  - rewrite app_nil_r, before_whole by done. f_equal. rewrite bool_decide_eq_false_2 by (by intros [? ?]). apply not_true_iff_false.
    intros (x & Hx & E)%List.existsb_exists. apply Ascii.eqb_eq in E as <-. apply Hn. by apply list_elem_of_In.
Qed.

Lemma jsonTagName_ordinary s : ordinary s -> jsonTagName s.1 = json_name s.1.
Proof. intros (H1 & _). unfold jsonTagName, json_name. rewrite (bool_decide_eq_false_2 (_ = bytes_of "-")) by done. by rewrite orb_false_r. Qed.
Lemma inlined_ordinary s : ordinary s -> fd_Anonymous s.1 && bool_decide (jsonNameOf s.1 = []) = inlined s.1.
Proof.
  intros (H1 & _ & _ & _ & _ & H2). unfold inlined, jsonNameOf. rewrite (bool_decide_eq_false_2 (_ = bytes_of "-")) by done.
  destruct (fd_Anonymous s.1); [|done]. destruct (bool_decide_reflect (before comma (fd_Tag s.1) = [])); [|done]. by rewrite H2.
Qed.

Section Keys.
Context (promoted : list gofield -> text -> option gofield).

Lemma key_segments_path p t : typed t p -> Forall ordinary p ->
  key_segments promoted (Some t) ((fun s => fd_Name s.1 ++ suffix s.2) <$> p) ((fun s => jsonTagName s.1 ++ suffix s.2) <$> p) = json_path p.
Proof.
  revert t. induction p as [|s p IH]; intros t Ht Ho; [done|]. inversion Ho as [|?? Hs Hp]; subst. destruct Ht as (fields & -> & Hf & Ht).
  cbn [fmap list_fmap key_segments tail]. pose proof Hs as (_ & _ & Hb & _). rewrite cutIndex_step by done.
  unfold FieldByName. rewrite Hf. cbn [json_path]. rewrite <- (inlined_ordinary s Hs), (jsonTagName_ordinary s Hs).
  assert (Hnext : derefStruct (if bool_decide (is_Some s.2) then elemOf (fd_Type s.1) else fd_Type s.1) = step_type s)
    by (unfold step_type; destruct s.2; done).
  rewrite Hnext. specialize (IH _ Ht Hp). cbn in IH |- *. by rewrite IH.
Qed.

Lemma split_namespace root segs : root <> [] -> Forall (fun e => dot ∉ e) (root :: segs) -> splitNamespace (join_sep dot (root :: segs)) = root :: segs.
Proof.
  intros Hr Hf. unfold splitNamespace. rewrite bool_decide_eq_false_2; [by apply split_join_sep|].
  destruct root as [|c root]; [done|]. by destruct segs.
Qed.
Lemma dotless (p : list step) (name : gofield -> text) : Forall ordinary p -> (forall s, ordinary s -> dot ∉ name s.1) ->
  Forall (fun e => dot ∉ e) ((fun s => name s.1 ++ suffix s.2) <$> p).
Proof.
  intros Hp Hn. apply Forall_fmap. eapply Forall_impl; [exact Hp|]. intros s Hs. cbn. rewrite not_elem_of_app. split; [by apply Hn|].
  destruct Hs as (_ & _ & _ & _ & Hi & _). destruct s.2 as [i|]; cbn [suffix]; [|apply not_elem_of_nil].
  rewrite !not_elem_of_app, !list_elem_of_singleton. split; [done|]. split; [by apply Hi|done].
Qed.

(** The key of an error is the path of its field in the JSON. *)
Lemma fieldKey_path root t p : root <> [] -> dot ∉ root -> typed t p -> Forall ordinary p ->
  fieldKey promoted t (json_namespace root p) (struct_namespace root p) = join_sep dot (json_path p).
Proof.
  intros Hr Hd Ht Ho. unfold fieldKey, json_namespace, struct_namespace.
  rewrite !split_namespace; [cbn [tail]; by rewrite key_segments_path|done| |done|]; constructor; try done.
  - apply (dotless p jsonTagName); [done|]. intros s Hs. rewrite jsonTagName_ordinary by done. by destruct Hs as (_ & _ & _ & ? & _).
  - apply (dotless p fd_Name); [done|]. by intros s (_ & ? & _).
Qed.

(** A failure of the field at the end of a path. *)
Definition fails_at (root : text) (t : gotype) (fe : field_failure) (p : list step) : Prop :=
  typed t p /\ Forall ordinary p /\ ff_Namespace fe = json_namespace root p /\ ff_StructNamespace fe = struct_namespace root p.
Definition at_path (key : text) (x : field_failure * list step) : bool := bool_decide (join_sep dot (json_path x.2) = key).

Lemma collect_first m root t (l : list (field_failure * list step)) : root <> [] -> dot ∉ root -> Forall (fun x => fails_at root t x.1 x.2) l ->
  forall key, collect promoted m t (l.*1) !! key = (fun x => messageFor m key x.1) <$> List.find (at_path key) l.
Proof.
  intros Hr Hd Hl key. unfold collect.
  assert (G : forall acc : gmap text text, fold_left (fun fields fe => let key := fieldKey promoted t (ff_Namespace fe) (ff_StructNamespace fe) in
      match fields !! key with Some _ => fields | None => <[key := messageFor m key fe]> fields end) (l.*1) acc !! key
    = match acc !! key with Some x => Some x | None => (fun x => messageFor m key x.1) <$> List.find (at_path key) l end); [|rewrite G; by rewrite lookup_empty].
  induction Hl as [|[fe p] l (H1 & H2 & H3 & H4) _ IH]; intros acc; cbn [fmap list_fmap fold_left List.find fst snd]; [by destruct (acc !! key)|].
  cbn [fst snd] in *. rewrite H3, H4, fieldKey_path by done. set (k := join_sep dot (json_path p)). rewrite IH. unfold at_path at 2. cbn [snd]. fold k.
  destruct (bool_decide_reflect (k = key)) as [->|Hne].
  - destruct (acc !! key) eqn:E; [by rewrite E|]. by rewrite lookup_insert_eq.
  - destruct (acc !! k); [done|]. by rewrite lookup_insert_ne.
Qed.


End Keys.

Module NameSample.

Definition none (fields : list gofield) (name : text) : option gofield := None.
Definition field (name : string) (anonymous : bool) (tag : string) (t : gotype) : gofield := (bytes_of name, anonymous, bytes_of tag, t).
Definition base : gofield := field "Base" true "" (GPointer (GStruct [field "ID" false "id" GOther])).
Definition items : gofield := field "Items" false "items,omitempty" (GSequence (GStruct [base])).
Definition order : gotype := GStruct [items].
Definition path : list step := [(items, Some (bytes_of "0")); (base, None); (field "ID" false "id" GOther, None)].
Definition failure : field_failure := mkFailure (bytes_of "Order.items[0].Base.id") (bytes_of "Order.Items[0].Base.ID") "required" [] KString.

Lemma path_fails : fails_at (bytes_of "Order") (derefStruct order) failure path.
Proof.
  split; [|split; [|split; reflexivity]].
  - eexists. split; [reflexivity|]. split; [reflexivity|]. eexists. split; [reflexivity|]. split; [reflexivity|]. eexists. split; [reflexivity|]. split; [reflexivity|exact I].
  - assert (Hn : forall (c : ascii) (l : text), bool_decide (c ∈ l) = false -> c ∉ l) by (intros c l Hb; by apply bool_decide_eq_false in Hb).
    repeat constructor; try (intros [=]); try (apply Hn; vm_compute; reflexivity); try (intros i [= <-]; apply Hn; vm_compute; reflexivity); try discriminate; intros; vm_compute; reflexivity.
Qed.


(** An embedded type that is no struct: encoding/json names it, the error has no name. *)
Definition code : gofield := field "Code" true "" GOther.
Example embedded_scalar_unnamed :
  fieldKey none (GStruct [code]) (bytes_of "Order.Code") (bytes_of "Order.Code") = [] /\ json_path [(code, None)] = [bytes_of "Code"].
Proof. vm_compute. split; reflexivity. Qed.

(** A json name with a dot is cut. *)
Definition dotted : gofield := field "UserName" false "user.name" GOther.
Example dotted_name_cut :
  fieldKey none (GStruct [dotted]) (bytes_of "Order.user.name") (bytes_of "Order.UserName") = bytes_of "user" /\ json_path [(dotted, None)] = [bytes_of "user.name"].
Proof. vm_compute. split; reflexivity. Qed.

(** A key of a map with a dot ends the walk of the type: the embedded struct is not flattened. *)
Definition byName : gofield := field "ByName" false "byName" (GMap (GStruct [base])).
Example dotted_key_not_flattened :
  fieldKey none (GStruct [byName]) (bytes_of "Order.byName[a.b].Base.id") (bytes_of "Order.ByName[a.b].Base.ID") = bytes_of "byName[a.b].Base.id" /\
  join_sep dot (json_path [(byName, Some (bytes_of "a.b")); (base, None); (field "ID" false "id" GOther, None)]) = bytes_of "byName[a.b].id".
Proof. vm_compute. split; reflexivity. Qed.

End NameSample.
