(* ===== verification/Tracing.v ===== *)
(** Tracing ([otel/otel.go], [http.go], [outbound.go], [otel/otelpgx], [otel/otelriver]) and
    the pool's metrics ([postgres/metrics.go]).

    A span is what is asked of the OpenTelemetry SDK: its name, kind, parent, attributes,
    events and status.  All spans ever started are one list, and a span's context is its
    place in it, as the identifiers the SDK draws are unique over all processes.  What W3C
    propagation writes of a context, and reads, are arguments, as are parsed URLs, the text
    of an error and what the Prometheus registry answers.

    The theorems: a job continues the trace of the request that enqueued it and keeps its
    request ID; a query's span is named by its first keyword and holds neither arguments nor
    what an error quotes; tracing is installed on checked settings only; a client's trace is
    not adopted unless the service says so. *)

From stdpp Require Import base gmap list sorting strings.
From Stdlib Require Import ZArith Lia Ascii QArith.
From S2P Require Import Prelude GoStrings GoText Action IdempotencyHttp Requests Storage ProcessForm Workers Pool.

Open Scope string_scope.
Open Scope list_scope.
Open Scope Z_scope.

(** ** Spans *)

(** Attributes by the names of their constructors in [semconv]; [Named] for the others. *)
Inductive attr_key :=
| DBSystemName | DBQueryText | DBOperationName | DBOperationBatchSize | DBCollectionName | DBNamespace | ServerAddress | ServerPort
| DBResponseStatusCode | ErrorType | MessagingSystem | MessagingOperationName | MessagingOperationType | MessagingBatchMessageCount
| MessagingDestinationName | MessagingMessageID | ServiceName | ServiceVersion | DeploymentEnvironmentName | Named (name : string).
Inductive attr_value := VText (t : text) | VInt (n : Z).
Definition attribute : Type := attr_key * attr_value.
Definition lit_value (s : string) : attr_value := VText (bytes_of s).

Inductive SpanKind := SpanKindClient | SpanKindProducer | SpanKindConsumer.
Record span := mkSpan {
  sp_parent : option nat; sp_name : text; sp_kind : SpanKind; sp_attributes : list attribute;
  sp_events : list (string * list attribute); sp_error : option text; sp_ended : bool }.
(** A context, as far as the span in it. *)
Definition tctx : Type := option nat.

Definition Start (ctx : tctx) (name : text) (k : SpanKind) (attrs : list attribute) (w : list span) : tctx * list span :=
  (Some (length w), w ++ [mkSpan ctx name k attrs [] None false]).
Definition on_span (ctx : tctx) (f : span -> span) (w : list span) : list span :=
  match ctx with Some i => alter f i w | None => w end.
Definition SetAttributes (attrs : list attribute) (s : span) : span :=
  mkSpan (sp_parent s) (sp_name s) (sp_kind s) (sp_attributes s ++ attrs) (sp_events s) (sp_error s) (sp_ended s).
Definition AddEvent (name : string) (attrs : list attribute) (s : span) : span :=
  mkSpan (sp_parent s) (sp_name s) (sp_kind s) (sp_attributes s) (sp_events s ++ [(name, attrs)]) (sp_error s) (sp_ended s).
Definition SetStatus (description : text) (s : span) : span :=
  mkSpan (sp_parent s) (sp_name s) (sp_kind s) (sp_attributes s) (sp_events s) (Some description) (sp_ended s).
Definition End_ (s : span) : span :=
  mkSpan (sp_parent s) (sp_name s) (sp_kind s) (sp_attributes s) (sp_events s) (sp_error s) true.
(** [RecordError] adds an event with the error's text. *)
Definition RecordError (description : text) : span -> span := AddEvent "exception" [(Named "exception.message", VText description)].

(** ** Queries ([otelpgx]) *)

Module Pgx.

Definition letter (c : ascii) : bool := is_lower c || is_upper c.
Definition to_upper (c : ascii) : ascii := if is_lower c then ascii_of_nat (nat_of_ascii c - 32) else c.
(** The cutset of [TrimLeft]. *)
Definition blank (c : ascii) : bool := existsb (Ascii.eqb c) (ascii_of_nat <$> [32; 9; 13; 10]%nat).

(** What follows the first occurrence of [sub]. *)
Fixpoint after (sub t : text) : option text :=
  match strip_prefix sub t with
  | Some r => Some r
  | None => match t with [] => None | _ :: t => after sub t end
  end.

(** [skipComments]; each turn but the last drops two bytes at least. *)
Fixpoint skip_loop (fuel : nat) (sql : text) : option text :=
  match fuel with
  | O => None
  | S fuel =>
      let sql := (GoText.span blank sql).2 in
      match lit "--" sql with
      | Some _ => match after [newline] sql with None => Some [] | Some rest => skip_loop fuel rest end
      | None =>
          match lit "/*" sql with
          | Some _ => match after (bytes_of "*/") sql with None => Some [] | Some rest => skip_loop fuel rest end
          | None => Some sql
          end
      end
  end.
Definition skipComments (sql : text) : text := default [] (skip_loop (S (length sql)) sql).
Definition operationName (sql : text) : text := to_upper <$> (GoText.span letter (skipComments sql)).1.
Definition spanName (op : text) : text := if bool_decide (op = []) then bytes_of "postgresql" else op.
Definition queryAttrs (op sql : text) : list attribute :=
  [(DBQueryText, VText sql)] ++ (if bool_decide (op = []) then [] else [(DBOperationName, VText op)]).

Record ConnConfig := mkConnConfig { cc_Database : text; cc_Host : text; cc_Port : Z }.
Definition connAttrs (cfg : ConnConfig) : list attribute :=
  (if bool_decide (cc_Database cfg = []) then [] else [(DBNamespace, VText (cc_Database cfg))]) ++
  (if bool_decide (cc_Host cfg = []) then [] else [(ServerAddress, VText (cc_Host cfg))]) ++
  (if cc_Port cfg =? 0 then [] else [(ServerPort, VInt (cc_Port cfg))]).

(** The tracer's cache, by the weak pointer of a connection, and the spans. *)
Record tracer := mkTracer { tr_conns : gmap nat (list attribute); tr_spans : list span }.

Section Tracer.
Context (config : nat -> ConnConfig).

Definition connAttrsOf (conn : option nat) (s : tracer) : list attribute * tracer :=
  match conn with
  | None => ([], s)
  | Some c =>
      match tr_conns s !! c with
      | Some attrs => (attrs, s)
      | None => let attrs := connAttrs (config c) in (attrs, mkTracer (<[c := attrs]> (tr_conns s)) (tr_spans s))
      end
  end.
(** The clean-up of a connection that was collected. *)
Definition collected (c : nat) (s : tracer) : tracer := mkTracer (delete c (tr_conns s)) (tr_spans s).

Definition start (ctx : tctx) (name : text) (conn attrs : list attribute) (s : tracer) : tctx * tracer :=
  let '(ctx, w) := Start ctx name SpanKindClient (attrs ++ [(DBSystemName, lit_value "postgresql")] ++ conn) (tr_spans s) in
  (ctx, mkTracer (tr_conns s) w).

(** An error as the other tracer sees it, the type [errors.Unwrap] ends at, and whether it
    is [pgx.ErrNoRows]. *)
Record traced_error := mkTraced { te_error : query_error; te_innermost : text; te_noRows : bool }.
Definition sqlState (e : traced_error) : text := match qe_pg (te_error e) with Some (code, _) => code | None => [] end.
Definition errorDescription (e : traced_error) : text :=
  if qe_canceled (te_error e) then bytes_of "context canceled"
  else if qe_deadline (te_error e) then bytes_of "context deadline exceeded"
  else te_innermost e.
Definition recordError (e : traced_error) (s : span) : span :=
  let code := sqlState e in
  if negb (bool_decide (code = [])) then
    SetStatus (bytes_of "SQLSTATE " ++ code) (SetAttributes [(DBResponseStatusCode, VText code)] s)
  else
    let desc := errorDescription e in SetStatus desc (SetAttributes [(ErrorType, VText desc)] s).
Definition endSpan (ctx : tctx) (err : option traced_error) (s : tracer) : tracer :=
  let w := match err with
           | Some e => if negb (te_noRows e) then on_span ctx (recordError e) (tr_spans s) else tr_spans s
           | None => tr_spans s
           end in
  mkTracer (tr_conns s) (on_span ctx End_ w).

Record TraceQueryStartData := mkQueryStart { qs_SQL : text; qs_Args : list text }.
Definition TraceQueryStart (ctx : tctx) (conn : option nat) (data : TraceQueryStartData) (s : tracer) : tctx * tracer :=
  let op := operationName (qs_SQL data) in
  let '(attrs, s) := connAttrsOf conn s in
  start ctx (spanName op) attrs (queryAttrs op (qs_SQL data)) s.
Definition TraceQueryEnd : tctx -> option traced_error -> tracer -> tracer := endSpan.

Definition TraceBatchStart (ctx : tctx) (conn : option nat) (batch : option Z) (s : tracer) : tctx * tracer :=
  let attrs := match batch with Some n => [(DBOperationBatchSize, VInt n)] | None => [] end in
  let '(conn, s) := connAttrsOf conn s in
  start ctx (bytes_of "BATCH") conn (attrs ++ [(DBOperationName, lit_value "BATCH")]) s.
Definition batch_attrs (data : TraceQueryStartData) (err : option traced_error) : list attribute :=
  queryAttrs (operationName (qs_SQL data)) (qs_SQL data) ++
  match err with
  | None => []
  | Some e => if negb (bool_decide (sqlState e = [])) then [(DBResponseStatusCode, VText (sqlState e))]
              else [(ErrorType, VText (errorDescription e))]
  end.
Definition TraceBatchQuery (ctx : tctx) (data : TraceQueryStartData) (err : option traced_error) (s : tracer) : tracer :=
  mkTracer (tr_conns s) (on_span ctx (AddEvent "query" (batch_attrs data err)) (tr_spans s)).
Definition TraceBatchEnd : tctx -> option traced_error -> tracer -> tracer := endSpan.

(** [table] is the sanitized name. *)
Definition TraceCopyFromStart (ctx : tctx) (conn : option nat) (table : text) (s : tracer) : tctx * tracer :=
  let '(conn, s) := connAttrsOf conn s in
  start ctx (bytes_of "COPY " ++ table) conn [(DBOperationName, lit_value "COPY"); (DBCollectionName, VText table)] s.
Definition TraceCopyFromEnd : tctx -> option traced_error -> tracer -> tracer := endSpan.
Definition TraceConnectStart (ctx : tctx) (cfg : option ConnConfig) (s : tracer) : tctx * tracer :=
  start ctx (bytes_of "connect") (match cfg with Some cfg => connAttrs cfg | None => [] end) [] s.
Definition TraceConnectEnd : tctx -> option traced_error -> tracer -> tracer := endSpan.
End Tracer.
End Pgx.

(** ** Jobs ([otelriver]) *)

Module River.

Abbreviation carrier := (gmap string string).
Definition metadataPrefix : string := "vogel_".
Definition traceParentKey : string := metadataPrefix +:+ "traceparent".
Definition traceStateKey : string := metadataPrefix +:+ "tracestate".

Definition add_field (fields : gmap string jval) (kv : string * string) : gmap string jval :=
  let k := metadataPrefix +:+ kv.1 in
  match fields !! k with Some _ => fields | None => <[k := JvStr (json_string kv.2)]> fields end.
Definition withTraceContext (m : metadata) (c : carrier) : metadata :=
  match (match m with
         | MEmpty => Some ∅
         | MJson (JvObj fields) => Some (decode_map fields)
         | MJson _ | MBroken _ => None
         end : option (gmap string jval)) with
  | None => m
  | Some fields =>
      match fields !! traceParentKey with
      | Some _ => m
      | None => MJson (JvObj (encode_map (foldl add_field fields (map_to_list c))))
      end
  end.

(** The field of a key, decoded into an empty string. *)
Definition read_key (fields : gmap string jval) (metadataKey carrierKey : string) (c : carrier) : carrier :=
  match fields !! metadataKey ≫= dec_string "" with
  | Some v => if bool_decide (v = "") then c else <[carrierKey := v]> c
  | None => c
  end.
Definition traceContextFromMetadata (m : metadata) : carrier :=
  match m with
  | MJson (JvObj fields) =>
      let fields := decode_map fields in
      read_key fields traceStateKey "tracestate" (read_key fields traceParentKey "traceparent" ∅)
  | _ => ∅
  end.

Record JobInsertParams := mkJobParams { jp_Kind : string; jp_Metadata : metadata }.
Definition commonKind (manyParams : list JobInsertParams) : string :=
  match manyParams with
  | [] => ""
  | p :: rest => if forallb (fun q => bool_decide (jp_Kind q = jp_Kind p)) rest then jp_Kind p else ""
  end.

(** A row of the queue. *)
Record JobRow := mkJobRow { jr_ID : Z; jr_Kind : string; jr_Queue : string; jr_Attempt : Z; jr_Metadata : metadata }.

Section Middleware.
Context (inject : nat -> carrier) (extract : carrier -> option nat).
(** The text of an error, and the duration of a snooze. *)
Context (error_text duration : herr -> text) {St : Type}.

(** What the middleware is around: the insert, given the context and the parameters, or the
    job. *)
Definition inserter : Type := tctx -> list JobInsertParams -> St * list span -> (St * list span) * option herr.
Definition worker : Type := tctx -> St * list span -> (St * list span) * hres.

Definition stamp (c : carrier) (m : metadata) : metadata := if bool_decide (c = ∅) then m else withTraceContext m c.
Definition failed (e : herr) (s : span) : span := SetStatus (error_text e) (RecordError (error_text e) s).

Definition InsertMany (ctx : tctx) (manyParams : list JobInsertParams) (doInner : inserter) (s : St * list span)
    : (St * list span) * option herr :=
  let kind := commonKind manyParams in
  let attrs := [(MessagingSystem, lit_value "river"); (MessagingOperationName, lit_value "insert"); (MessagingOperationType, lit_value "send");
                (MessagingBatchMessageCount, VInt (Z.of_nat (length manyParams)))]
               ++ (if bool_decide (kind = "") then [] else [(Named "river.job.kind", lit_value kind)]) in
  let target := if bool_decide (kind = "") then "jobs" else kind in
  let '(ctx, w) := Start ctx (bytes_of ("insert " +:+ target)) SpanKindProducer attrs s.2 in
  let c := match ctx with Some i => inject i | None => ∅ end in
  let manyParams := (fun p => mkJobParams (jp_Kind p) (stamp c (jp_Metadata p))) <$> manyParams in
  let '(s, err) := doInner ctx manyParams (s.1, w) in
  let w := match err with Some e => on_span ctx (failed e) s.2 | None => s.2 end in
  ((s.1, on_span ctx End_ w), err).

Definition Work (ctx : tctx) (job : JobRow) (doInner : worker) (s : St * list span) : (St * list span) * hres :=
  let ctx := match extract (traceContextFromMetadata (jr_Metadata job)) with Some sc => Some sc | None => ctx end in
  let '(ctx, w) := Start ctx (bytes_of ("process " +:+ jr_Kind job)) SpanKindConsumer
    [(MessagingSystem, lit_value "river"); (MessagingOperationName, lit_value "process"); (MessagingOperationType, lit_value "process");
     (MessagingDestinationName, lit_value (jr_Queue job)); (MessagingMessageID, lit_value (itoa (jr_ID job)));
     (Named "river.job.kind", lit_value (jr_Kind job)); (Named "river.job.attempt", VInt (jr_Attempt job))] s.2 in
  let '(s, r) := doInner ctx (s.1, w) in
  let w := match r with
           | Returned (Some e) =>
               on_span ctx (if is_kind RiverSnooze e then AddEvent "snoozed" [(Named "river.job.snooze", VText (duration e))] else failed e) s.2
           | Returned None | Panicked => s.2
           end in
  ((s.1, on_span ctx End_ w), r).
End Middleware.
End River.

(** ** Set-up ([otel.go]), requests ([http.go]) and notifications ([outbound.go]) *)

Module Otel.

(** A float64 as far as its comparisons. *)
Inductive float := NaN | Infinite (negative : bool) | Finite (q : Q).
Definition within_unit (f : float) : bool :=
  match f with Finite q => Qle_bool 0 q && Qle_bool q 1 | NaN | Infinite _ => false end.

(** What [url.Parse] finds. *)
Record URL := mkOtelURL { u_Scheme : string; u_Host : string; u_Path : string }.

Definition DefaultSampleRatio : Q := (1 # 10)%Q.
Record Config := mkOtelConfig {
  oc_Endpoint : string; oc_ServiceName : string; oc_ServiceVersion : string; oc_Environment : string;
  oc_SampleRatio : float; oc_Headers : gmap string string }.

(** The ratio [ParentBased(TraceIDRatioBased(ratio))] samples new root traces with. *)
Definition sampler (f : float) : float :=
  match f with Finite q => if Qeq_bool q 0 then Finite DefaultSampleRatio else f | NaN | Infinite _ => f end.

(** What is installed: where spans are sent, with what, and of which service.  Everything
    the environment could set otherwise is given its default. *)
Definition exportTimeout : Z := 10 * S3.second.
Record TracerProvider := mkProvider {
  tp_URL : URL; tp_Headers : gmap string string; tp_MinTLS12 : bool; tp_Timeout : Z; tp_Ratio : float; tp_Resource : list attribute;
  tp_Baggage : bool }.
Inductive otel_error := ESampleRatio | EEndpoint | EServiceName | EHeaders | EExporter.

Section Setup.
Context (parse_url : string -> option URL) (new_exporter : URL -> gmap string string -> bool).

(** [Setup]: the provider, if tracing is enabled, is also the global one. *)
Definition Setup (cfg : Config) (global : option TracerProvider) : option TracerProvider * (otel_error + option TracerProvider) :=
  if negb (within_unit (oc_SampleRatio cfg)) then (global, inl ESampleRatio)
  else if bool_decide (oc_Endpoint cfg = "") then (global, inr None)
  else match parse_url (oc_Endpoint cfg) with
  | None => (global, inl EEndpoint)
  | Some u =>
      if negb (bool_decide (u_Scheme u = "http")) && negb (bool_decide (u_Scheme u = "https")) || bool_decide (u_Host u = "") then (global, inl EEndpoint)
      else if bool_decide (oc_ServiceName cfg = "") then (global, inl EServiceName)
      else if negb (bool_decide (oc_Headers cfg = ∅)) && negb (bool_decide (u_Scheme u = "https")) then (global, inl EHeaders)
      else
        let u := if bool_decide (u_Path u = "") || bool_decide (u_Path u = "/") then mkOtelURL (u_Scheme u) (u_Host u) "/v1/traces" else u in
        if negb (new_exporter u (oc_Headers cfg)) then (global, inl EExporter)
        else
          let attrs := [(ServiceName, lit_value (oc_ServiceName cfg))]
                       ++ (if bool_decide (oc_ServiceVersion cfg = "") then [] else [(ServiceVersion, lit_value (oc_ServiceVersion cfg))])
                       ++ (if bool_decide (oc_Environment cfg = "") then [] else [(DeploymentEnvironmentName, lit_value (oc_Environment cfg))]) in
          let tp := mkProvider u (oc_Headers cfg) (bool_decide (u_Scheme u = "https")) exportTimeout (sampler (oc_SampleRatio cfg)) attrs true in
          (Some tp, inr (Some tp))
  end.
End Setup.

(** A nil pointer, a disabled provider and an enabled one are [None], [Some None] and
    [Some (Some _)]. *)
Definition Enabled (p : option (option TracerProvider)) : bool := match p with Some (Some _) => true | _ => false end.
(** Whether it fails; [flush] is the provider's own shutdown. *)
Definition Shutdown (p : option (option TracerProvider)) (flush : bool) : bool := if negb (Enabled p) then true else flush.

(** The span context of a context. *)
Record SpanContext := mkSpanContext { sc_TraceID : string; sc_SpanID : string; sc_Valid : bool; sc_Sampled : bool }.
Definition TraceIDs (sc : SpanContext) : string * string := if negb (sc_Valid sc) then ("", "") else (sc_TraceID sc, sc_SpanID sc).
Definition SampledTraceIDs (sc : SpanContext) : string * string := if negb (sc_Sampled sc) then ("", "") else TraceIDs sc.

(** The options, and what they make of otelhttp's: [ho_PublicEndpoint] starts a new trace
    that links to the caller's. *)
Inductive MiddlewareOption := WithTrustedPropagation | WithTracerProvider (tp : nat).
Record middlewareConfig := mkMiddlewareConfig { mc_trusted : bool; mc_tp : option nat }.
Definition apply_middleware (c : middlewareConfig) (o : MiddlewareOption) : middlewareConfig :=
  match o with
  | WithTrustedPropagation => mkMiddlewareConfig true (mc_tp c)
  | WithTracerProvider tp => mkMiddlewareConfig (mc_trusted c) (Some tp)
  end.
Inductive propagator := TraceContext | Baggage.
Record http_options := mkHttpOptions { ho_TracerProvider : option nat; ho_PublicEndpoint : bool; ho_Propagators : list propagator }.
Definition Middleware (opts : list MiddlewareOption) : http_options :=
  let cfg := fold_left apply_middleware opts (mkMiddlewareConfig false None) in
  if mc_trusted cfg then mkHttpOptions (mc_tp cfg) false [TraceContext; Baggage]
  else mkHttpOptions (mc_tp cfg) true [TraceContext].
Definition Transport (opts : list MiddlewareOption) : http_options :=
  let cfg := fold_left apply_middleware opts (mkMiddlewareConfig false None) in
  mkHttpOptions (mc_tp cfg) false [TraceContext].

(** A request: its method, path, and the pattern chi matched, if any. *)
Record http_request := mkHttpRequest { hr_Method : text; hr_Path : text; hr_Pattern : option text }.
Definition routePattern (r : http_request) : text := default [] (hr_Pattern r).
Definition http_spanName (r : http_request) : text :=
  if negb (bool_decide (routePattern r = [])) then hr_Method r ++ [" "%char] ++ routePattern r else hr_Method r.
Definition SetName (name : text) (s : span) : span :=
  mkSpan (sp_parent s) name (sp_kind s) (sp_attributes s) (sp_events s) (sp_error s) (sp_ended s).
(** [next] answers the request as chi left it, or nothing when it panicked. *)
Definition nameAfterRoute (ctx : tctx) (next : http_request -> list span -> list span * option http_request) (r : http_request) (w : list span) : list span :=
  let '(w, r) := next r w in
  match r with
  | None => w
  | Some r =>
      if bool_decide (routePattern r = []) then w
      else on_span ctx (fun s => SetAttributes [(Named "http.route", VText (routePattern r))] (SetName (http_spanName r) s)) w
  end.

(** [tracedNotifier.Send] around a sender; the message goes to the sender alone. *)
Definition tracedSend {St E : Type} (next : tctx -> Message -> St * list span -> (St * list span) * option E)
    (ctx : tctx) (msg : Message) (s : St * list span) : (St * list span) * option E :=
  let '(ctx, w) := Start ctx (bytes_of "notification.send") SpanKindClient [] s.2 in
  let '(s, err) := next ctx msg (s.1, w) in
  let w := match err with Some _ => on_span ctx (SetStatus (bytes_of "send failed")) s.2 | None => s.2 end in
  ((s.1, on_span ctx End_ w), err).
End Otel.

(** ** The pool's metrics ([postgres/metrics.go]) *)

Module PoolMetrics.

Inductive desc :=
| TotalConns | IdleConns | AcquiredConns | ConstructingConns | AcquireCount | EmptyAcquireCount | CanceledAcquireCount
| AcquireDuration | MaxConns | AcquireWait | ConnHold.
#[export] Instance desc_dec : EqDecision desc.
Proof. solve_decision. Defined.

(** What [pgxpool.Stat] tells; the duration in nanoseconds. *)
Record Stat := mkStat {
  st_TotalConns : Z; st_IdleConns : Z; st_AcquiredConns : Z; st_ConstructingConns : Z; st_AcquireCount : Z; st_EmptyAcquireCount : Z;
  st_CanceledAcquireCount : Z; st_AcquireDuration : Z; st_MaxConns : Z }.
Inductive metric := GaugeValue (v : Z) | CounterValue (v : Z) | Histogram (samples : list Z).
(** A collector: the pool it reads, and the tracer of a pool [NewPool] made. *)
Record PoolMetricsCollector := mkCollector { pc_pool : nat; pc_tracer : option nat }.

(** What [Register] answers. *)
Inductive registered := Registered | AlreadyRegistered (existing : PoolMetricsCollector + nat) | Refused.
Definition registerCollector (answer : registered) (c : PoolMetricsCollector) : option (PoolMetricsCollector + nat) :=
  match answer with Registered => Some (inl c) | AlreadyRegistered existing => Some existing | Refused => None end.
(** [tracer_of] is the tracer of a pool's configuration, when it is this package's. *)
Definition NewPoolMetricsCollector (tracer_of : nat -> option nat) (pool : nat) (register : PoolMetricsCollector -> registered) : option PoolMetricsCollector :=
  let c := mkCollector pool (tracer_of pool) in
  match registerCollector (register c) c with
  | None => None
  | Some (inl existing) => Some existing
  | Some (inr _) => Some c
  end.

Definition Describe : list desc :=
  [TotalConns; IdleConns; AcquiredConns; ConstructingConns; AcquireCount; EmptyAcquireCount; CanceledAcquireCount; AcquireDuration; MaxConns;
   AcquireWait; ConnHold].
(** [histograms t] are the samples of a tracer's two histograms. *)
Definition Collect (stat : nat -> Stat) (histograms : nat -> list Z * list Z) (c : PoolMetricsCollector) : list (desc * metric) :=
  let s := stat (pc_pool c) in
  [(TotalConns, GaugeValue (st_TotalConns s)); (IdleConns, GaugeValue (st_IdleConns s)); (AcquiredConns, GaugeValue (st_AcquiredConns s));
   (ConstructingConns, GaugeValue (st_ConstructingConns s)); (AcquireCount, CounterValue (st_AcquireCount s));
   (EmptyAcquireCount, CounterValue (st_EmptyAcquireCount s)); (CanceledAcquireCount, CounterValue (st_CanceledAcquireCount s));
   (AcquireDuration, CounterValue (st_AcquireDuration s)); (MaxConns, GaugeValue (st_MaxConns s))]
  ++ match pc_tracer c with
     | Some t => [(AcquireWait, Histogram (histograms t).1); (ConnHold, Histogram (histograms t).2)]
     | None => []
     end.
End PoolMetrics.

(** ** The name of a query's span *)

Section Names.
Import Pgx.

(** White space, comments to the end of a line, and comments between [/*] and [*/] that hold
    no other. *)
Inductive comments : text -> Prop :=
| comments_nil : comments []
| comments_blank c rest : blank c = true -> comments rest -> comments (c :: rest)
| comments_line body rest : newline ∉ body -> comments rest -> comments (bytes_of "--" ++ body ++ newline :: rest)
| comments_block body rest : after (bytes_of "*/") body = None -> head body <> Some "/"%char -> comments rest ->
    comments (bytes_of "/*" ++ body ++ bytes_of "*/" ++ rest).

Lemma strip_None (p t : text) : (forall r, t <> p ++ r) -> strip_prefix p t = None.
Proof. intros H. destruct (strip_prefix p t) as [r|] eqn:E; [|done]. apply strip_prefix_Some in E. by destruct (H r). Qed.
Lemma after_newline a r : newline ∉ a -> after [newline] (a ++ newline :: r) = Some r.
Proof.
  induction a as [|c a IH]; intros H; [done|]. rewrite not_elem_of_cons in H. destruct H as [Hc Ha].
  cbn [app after]. rewrite strip_None by (intros r'; cbn; congruence). by apply IH.
Qed.
Lemma after_close a r : after (bytes_of "*/") a = None -> after (bytes_of "*/") (a ++ bytes_of "*/" ++ r) = Some r.
Proof.
  induction a as [|c a IH]; intros H; [done|]. cbn [after] in H. destruct (strip_prefix _ (c :: a)) eqn:E; [done|].
  cbn [app after]. enough (strip_prefix (bytes_of "*/") (c :: a ++ bytes_of "*/" ++ r) = None) as -> by by apply IH.
  apply strip_None. intros r' [= -> Ha]. destruct a as [|d a]; cbn in Ha; [congruence|]. injection Ha as -> _.
  assert (strip_prefix (bytes_of "*/") ("*" :: "/" :: a)%char = Some a) by by apply strip_prefix_Some. congruence.
Qed.
Lemma skip_blank fuel c t : blank c = true -> skip_loop fuel (c :: t) = skip_loop fuel t.
Proof. intros H. destruct fuel; [done|]. cbn [skip_loop]. cbn [GoText.span]. rewrite H. by destruct (GoText.span blank t). Qed.

(** The bound of the loop suffices. *)
Lemma after_shorter sub t r : after sub t = Some r -> (length sub + length r <= length t)%nat.
Proof.
  induction t as [|c t IH]; cbn [after]; destruct (strip_prefix sub _) eqn:E; try done;
    try (intros [= ->]; apply strip_prefix_Some in E; rewrite E, length_app; lia).
  intros H%IH. cbn. lia.
Qed.
Lemma span_rest_shorter p t : (length (GoText.span p t).2 <= length t)%nat.
Proof. induction t as [|c t IH]; cbn; [done|]. destruct (p c); [|done]. destruct (GoText.span p t). cbn in *. lia. Qed.
Lemma skip_total fuel sql : (length sql < fuel)%nat -> is_Some (skip_loop fuel sql).
Proof.
  revert sql. induction fuel as [|fuel IH]; intros sql H; [lia|]. cbn [skip_loop]. assert (Hs := span_rest_shorter blank sql).
  destruct (lit "--" _); [|destruct (lit "/*" _); [|done]];
    (destruct (after _ _) as [r|] eqn:E; [|done]); apply after_shorter in E; apply IH; cbn in E; lia.
Qed.

Lemma letter_skipped fuel c t : letter c = true -> skip_loop (S fuel) (c :: t) = Some (c :: t).
Proof.
  intros H. assert (Hn : forall d, letter d = false -> c <> d) by (intros d Hd ->; congruence).
  cbn [skip_loop GoText.span]. assert (blank c = false) as ->.
  { unfold blank. cbn. rewrite !(proj2 (Ascii.eqb_neq c _)) by (apply Hn; reflexivity). done. }
  unfold lit. cbn [snd]. rewrite !strip_None; [done| |]; intros r [= -> _]; by vm_compute in H.
Qed.

Lemma comments_skipped noise c tail fuel : comments noise -> letter c = true -> (length noise < fuel)%nat ->
  skip_loop fuel (noise ++ c :: tail) = Some (c :: tail).
Proof.
  intros Hn Hc. revert fuel. induction Hn as [|b rest Hb _ IH|body rest Hb _ IH|body rest Hb Hh _ IH]; intros fuel Hf.
  - destruct fuel; [cbn in Hf; lia|]. by apply letter_skipped.
  - cbn [app]. rewrite skip_blank by done. apply IH. cbn in Hf. lia.
  - destruct fuel as [|fuel]; [lia|]. rewrite <- !app_assoc. rewrite <- app_comm_cons. rewrite !length_app in Hf. cbn [length] in Hf.
    specialize (IH fuel ltac:(lia)). cbn [skip_loop].
    change (GoText.span blank (bytes_of "--" ++ ?x)).2 with (bytes_of "--" ++ x).
    change (lit "--" (bytes_of "--" ++ ?x)) with (Some x). cbv iota beta.
    rewrite app_assoc, after_newline; [exact IH|]. rewrite not_elem_of_app. split; [|done]. cbn. set_solver.
  - destruct fuel as [|fuel]; [lia|]. rewrite <- !app_assoc. rewrite !length_app in Hf. change (length (bytes_of "/*")) with 2%nat in Hf. specialize (IH fuel ltac:(lia)). cbn [skip_loop].
    change (GoText.span blank (bytes_of "/*" ++ ?x)).2 with (bytes_of "/*" ++ x).
    change (lit "--" (bytes_of "/*" ++ ?x)) with (@None text). change (lit "/*" (bytes_of "/*" ++ ?x)) with (Some x). cbv iota beta.
    assert (after (bytes_of "*/") (bytes_of "/*" ++ body ++ bytes_of "*/" ++ rest ++ c :: tail) = Some (rest ++ c :: tail)) as ->; [|exact IH].
    rewrite <- (after_close body (rest ++ c :: tail) Hb). change (bytes_of "/*" ++ ?x) with ("/" :: "*" :: x)%char.
    cbn [after]. rewrite (strip_None _ ("/" :: _)%char) by done. rewrite (strip_None _ ("*" :: _)%char); [done|].
    intros r' [= E]. destruct body as [|d body]; [done|]. injection E as -> _. done.
Qed.

(** However a statement is commented, its span is named by its first keyword, in upper case,
    as long as no comment holds another. *)
Theorem operation_found noise word rest : comments noise -> word <> [] -> forallb letter word = true ->
  (forall c, head rest = Some c -> letter c = false) -> operationName (noise ++ word ++ rest) = to_upper <$> word.
Proof.
  intros Hn Hw Hl Hr. unfold operationName, skipComments. destruct word as [|c word]; [done|]. rewrite <- app_comm_cons.
  assert (letter c = true) by (cbn in Hl; by apply andb_true_iff in Hl as [? _]).
  rewrite (comments_skipped noise c (word ++ rest)) by (try done; rewrite length_app; lia). change (default [] (Some ?x)) with x. f_equal.
  change (c :: word ++ rest) with ((c :: word) ++ rest). clear H Hw. revert Hl. generalize (c :: word) as l.
  induction l as [|d l IH]; intros Hl.
  - cbn. destruct rest as [|d rest]; [done|]. cbn. by rewrite (Hr d eq_refl).
  - cbn in Hl |- *. apply andb_true_iff in Hl as [-> Hl]. specialize (IH Hl). destruct (GoText.span letter (l ++ rest)) as [a b]. cbn in *. by subst.
Qed.
End Names.

(** ** What the spans of queries hold *)

Section Queries.
Import Pgx.
Context (config : nat -> ConnConfig).

Lemma on_last w s f : on_span (Some (length w)) f (w ++ [s]) = w ++ [f s].
Proof. cbn. by rewrite <- (Nat.add_0_r (length w)), alter_app_r. Qed.

(** The cache holds what the configuration of a connection says. *)
Definition cache_ok (s : tracer) : Prop := forall c attrs, tr_conns s !! c = Some attrs -> attrs = connAttrs (config c).
Definition conn_attrs (conn : option nat) : list attribute := match conn with Some c => connAttrs (config c) | None => [] end.

Lemma connAttrsOf_ok conn s : cache_ok s ->
  (connAttrsOf config conn s).1 = conn_attrs conn /\ cache_ok (connAttrsOf config conn s).2 /\ tr_spans (connAttrsOf config conn s).2 = tr_spans s.
Proof.
  intros H. destruct conn as [c|]; [|done]. cbn. destruct (tr_conns s !! c) as [attrs|] eqn:E; cbn.
  - by rewrite (H _ _ E).
  - split; [done|]. split; [|done]. intros d attrs. cbn. destruct (decide (c = d)) as [->|?].
    + rewrite lookup_insert_eq. by intros [= <-].
    + rewrite lookup_insert_ne by done. apply H.
Qed.
Lemma collected_ok c s : cache_ok s -> cache_ok (collected c s) /\ tr_conns (collected c s) !! c = None.
Proof. intros H. split; [|apply lookup_delete_eq]. intros d attrs. cbn. intros [_ Hd]%lookup_delete_Some. by apply H. Qed.

(** What the error of a query adds to its span. *)
Definition ended (err : option traced_error) (s : span) : span :=
  End_ (match err with Some e => if te_noRows e then s else recordError e s | None => s end).
Lemma endSpan_last w x err conns : tr_spans (endSpan (Some (length w)) err (mkTracer conns (w ++ [x]))) = w ++ [ended err x].
Proof.
  unfold endSpan, ended. destruct err as [e|]; [destruct (te_noRows e)|]; cbn [negb tr_spans]; rewrite ?on_last; done.
Qed.

(** A query leaves one span, ended: named by its operation, with the text of the statement
    and the server, and the state or type of its error. *)
Theorem query_traced ctx conn data err s : cache_ok s ->
  let '(c, s1) := TraceQueryStart config ctx conn data s in
  let op := operationName (qs_SQL data) in
  cache_ok (TraceQueryEnd c err s1) /\
  tr_spans (TraceQueryEnd c err s1) = tr_spans s ++
    [ended err (mkSpan ctx (spanName op) SpanKindClient
       (queryAttrs op (qs_SQL data) ++ [(DBSystemName, lit_value "postgresql")] ++ conn_attrs conn) [] None false)].
Proof.
  intros H. destruct (connAttrsOf_ok conn s H) as (Ha & Hc & Hs). unfold TraceQueryStart.
  destruct (connAttrsOf config conn s) as [attrs s1]. cbn in Ha, Hc, Hs. subst attrs. unfold start, Start. rewrite Hs.
  split; [exact Hc|]. apply endSpan_last.
Qed.

(** A batch of any size is one span, with one event for each of its queries. *)
Theorem batch_traced ctx conn size queries err s : cache_ok s ->
  let '(c, s1) := TraceBatchStart config ctx conn size s in
  let s2 := fold_left (fun s q => TraceBatchQuery c q.1 q.2 s) queries s1 in
  exists x, tr_spans (TraceBatchEnd c err s2) = tr_spans s ++ [ended err x] /\ sp_name x = bytes_of "BATCH" /\
    sp_events x = (fun q => ("query", batch_attrs q.1 q.2)) <$> queries.
Proof.
  intros H. destruct (connAttrsOf_ok conn s H) as (Ha & Hc & Hs). unfold TraceBatchStart.
  destruct (connAttrsOf config conn s) as [attrs s1]. cbn in Ha, Hc, Hs. subst attrs. unfold start, Start. rewrite Hs.
  set (x := mkSpan _ _ _ _ _ _ _). cut (exists x', tr_spans (fold_left (fun s q => TraceBatchQuery (Some (length (tr_spans s1))) q.1 q.2 s) queries
      (mkTracer (tr_conns s1) (tr_spans s1 ++ [x]))) = tr_spans s1 ++ [x'] /\ sp_name x' = sp_name x /\
      sp_events x' = sp_events x ++ ((fun q => ("query", batch_attrs q.1 q.2)) <$> queries)).
  - rewrite <- Hs. intros (x' & E & Hn & He). exists x'. split; [|done]. unfold TraceBatchEnd.
    destruct (fold_left _ _ _) as [conns w]. cbn in E. subst w. apply endSpan_last.
  - generalize x as y, (tr_conns s1) as conns. clear. induction queries as [|q queries IH]; intros y conns; cbn [fold_left].
    + exists y. by rewrite app_nil_r.
    + unfold TraceBatchQuery at 2. cbn [tr_conns tr_spans]. rewrite on_last. destruct (IH (AddEvent "query" (batch_attrs q.1 q.2) y) conns) as (x' & E & Hn & He).
      exists x'. split; [exact E|]. split; [exact Hn|]. rewrite He. cbn. by rewrite <- app_assoc.
Qed.

(** *** Data *)

Inductive call :=
| CQuery (ctx : tctx) (conn : option nat) (data : TraceQueryStartData) | CBatch (ctx : tctx) (conn : option nat) (n : option Z)
| CBatchQuery (ctx : tctx) (data : TraceQueryStartData) (err : option traced_error) | CCopy (ctx : tctx) (conn : option nat) (table : text)
| CConnect (ctx : tctx) (cfg : option ConnConfig) | CEnd (ctx : tctx) (err : option traced_error) | CCollected (c : nat).
Definition perform (s : tracer) (c : call) : tracer :=
  match c with
  | CQuery ctx conn data => (TraceQueryStart config ctx conn data s).2
  | CBatch ctx conn n => (TraceBatchStart config ctx conn n s).2
  | CBatchQuery ctx data err => TraceBatchQuery ctx data err s
  | CCopy ctx conn table => (TraceCopyFromStart config ctx conn table s).2
  | CConnect ctx cfg => (TraceConnectStart ctx cfg s).2
  | CEnd ctx err => endSpan ctx err s
  | CCollected c => collected c s
  end.

(** Errors that differ in their texts alone, statements that differ in their arguments, and
    calls that differ in either. *)
Definition same_error (e e' : traced_error) : Prop :=
  fst <$> qe_pg (te_error e) = fst <$> qe_pg (te_error e') /\ qe_canceled (te_error e) = qe_canceled (te_error e') /\
  qe_deadline (te_error e) = qe_deadline (te_error e') /\ te_innermost e = te_innermost e' /\ te_noRows e = te_noRows e'.
Definition same_outcome (x y : option traced_error) : Prop :=
  match x, y with Some e, Some e' => same_error e e' | None, None => True | _, _ => False end.
Definition same_call (c c' : call) : Prop :=
  match c, c' with
  | CQuery ctx conn d, CQuery ctx' conn' d' => ctx = ctx' /\ conn = conn' /\ qs_SQL d = qs_SQL d'
  | CBatchQuery ctx d e, CBatchQuery ctx' d' e' => ctx = ctx' /\ qs_SQL d = qs_SQL d' /\ same_outcome e e'
  | CEnd ctx e, CEnd ctx' e' => ctx = ctx' /\ same_outcome e e'
  | _, _ => c = c'
  end.

Lemma same_error_read e e' : same_error e e' ->
  sqlState e = sqlState e' /\ errorDescription e = errorDescription e' /\ te_noRows e = te_noRows e'.
Proof.
  intros (Hp & Hc & Hd & Hi & Hn). unfold sqlState, errorDescription. rewrite Hc, Hd, Hi, Hn. split; [|done].
  destruct (qe_pg (te_error e)) as [[]|], (qe_pg (te_error e')) as [[]|]; cbn in Hp; congruence.
Qed.
Lemma same_call_performed s c c' : same_call c c' -> perform s c = perform s c'.
Proof.
  assert (Hr : forall e e', same_error e e' -> recordError e = recordError e').
  { intros e e' (Hs & Hd & _)%same_error_read. unfold recordError. by rewrite Hs, Hd. }
  destruct c as [ctx conn d| |ctx d e| | |ctx e|], c' as [ctx' conn' d'| |ctx' d' e'| | |ctx' e'|]; cbn [same_call]; try congruence.
  - intros (-> & -> & E). cbn. unfold TraceQueryStart. by rewrite E.
  - intros (-> & E & He). cbn. unfold TraceBatchQuery, batch_attrs. rewrite E.
    destruct e as [e|], e' as [e'|]; try done. destruct (same_error_read _ _ He) as (-> & -> & _). done.
  - intros (-> & He). cbn. unfold endSpan. destruct e as [e|], e' as [e'|]; try done.
    rewrite (Hr _ _ He). by destruct (same_error_read _ _ He) as (_ & _ & ->).
Qed.

(** Whatever is traced, in whatever order, the spans are the same for other arguments and
    for errors that quote other values. *)
Theorem spans_hide_data calls calls' s : Forall2 same_call calls calls' -> fold_left perform calls s = fold_left perform calls' s.
Proof. intros H. revert s. induction H as [|c c' l l' Hc _ IH]; intros s; [done|]. cbn. rewrite (same_call_performed s _ _ Hc). apply IH. Qed.
End Queries.

(** ** The trace of a job *)

Section Jobs.
Import River.

(** What W3C propagation writes: its two headers, neither empty, in characters JSON keeps. *)
Definition carrier_ok (c : carrier) : Prop :=
  forall k v, c !! k = Some v -> (k = "traceparent" \/ k = "tracestate") /\ v <> "" /\ json_string v = v.
(** Metadata that names no trace. *)
Definition untraced (m : metadata) : Prop :=
  match m with
  | MEmpty => True
  | MJson (JvObj fields) => decode_map fields !! traceParentKey = None /\ decode_map fields !! traceStateKey = None
  | _ => False
  end.

Lemma encode_map_elem (m : gmap string jval) kv : kv ∈ encode_map m <-> m !! kv.1 = Some kv.2.
Proof. destruct kv as [k v]. unfold encode_map. rewrite merge_sort_Permutation. apply elem_of_map_to_list. Qed.
Lemma decode_is_Some fields k v : (k, v) ∈ fields -> is_Some (decode_map fields !! k).
Proof.
  intros H. apply not_eq_None_Some. unfold decode_map. rewrite <- not_elem_of_list_to_map. intros Hn. apply Hn.
  rewrite fmap_reverse, elem_of_reverse. apply list_elem_of_fmap. by exists (k, v).
Qed.

Definition added (fields : gmap string jval) (c : carrier) : gmap string jval := foldl add_field fields (map_to_list c).
Lemma foldl_add_old l (fields : gmap string jval) k v : fields !! k = Some v -> foldl add_field fields l !! k = Some v.
Proof.
  revert fields. induction l as [|kv l IH]; intros fields H; [done|]. cbn. apply IH. unfold add_field.
  case_match eqn:E; [done|]. rewrite lookup_insert_ne; [done|]. intros E'. rewrite E' in E. congruence.
Qed.
Lemma foldl_add_inv l (fields : gmap string jval) k x : foldl add_field fields l !! k = Some x ->
  fields !! k = Some x \/ exists kv, kv ∈ l /\ k = metadataPrefix +:+ kv.1 /\ x = JvStr (json_string kv.2).
Proof.
  revert fields. induction l as [|kv l IH]; intros fields H; [by left|]. cbn in H.
  destruct (IH _ H) as [Ho|(kv' & Hin & ?)]; [|right; exists kv'; split; [by right|done]].
  unfold add_field in Ho. case_match; [by left|]. destruct (decide (k = metadataPrefix +:+ kv.1)) as [->|Hn].
  - rewrite lookup_insert_eq in Ho. injection Ho as <-. right. exists kv. split; [by left|done].
  - rewrite lookup_insert_ne in Ho by done. by left.
Qed.
Lemma foldl_add_some l (fields : gmap string jval) kv : kv ∈ l -> is_Some (foldl add_field fields l !! (metadataPrefix +:+ kv.1)).
Proof.
  revert fields. induction l as [|kv' l IH]; intros fields H; [by apply elem_of_nil in H|]. cbn. apply elem_of_cons in H as [<-|H]; [|by apply IH].
  destruct (add_field fields kv !! (metadataPrefix +:+ kv.1)) as [x|] eqn:E; [by rewrite (foldl_add_old _ _ _ _ E)|].
  unfold add_field in E. case_match; [congruence|]. by rewrite lookup_insert_eq in E.
Qed.

(** Where the fields name no trace, its fields after are those of the carrier. *)
Lemma added_new fields c k : fields !! (metadataPrefix +:+ k) = None ->
  added fields c !! (metadataPrefix +:+ k) = (fun v => JvStr (json_string v)) <$> c !! k.
Proof.
  intros Hn. destruct (c !! k) as [v|] eqn:E; cbn.
  - assert (Hin : (k, v) ∈ map_to_list c) by by apply elem_of_map_to_list.
    destruct (foldl_add_some _ fields _ Hin) as [x Hx]. cbn in Hx. unfold added. rewrite Hx.
    destruct (foldl_add_inv _ _ _ _ Hx) as [?|([k' v'] & Hin' & Hk & ->)]; [congruence|]. cbn in Hk. apply (inj (String.app metadataPrefix)) in Hk as <-.
    apply elem_of_map_to_list in Hin'. by injection (eq_trans (eq_sym E) Hin') as <-.
  - destruct (added fields c !! (metadataPrefix +:+ k)) as [x|] eqn:Hx; [|done].
    destruct (foldl_add_inv _ _ _ _ Hx) as [?|([k' v'] & Hin' & Hk & ->)]; [congruence|]. cbn in Hk. apply (inj (String.app metadataPrefix)) in Hk as <-.
    apply elem_of_map_to_list in Hin'. discriminate (eq_trans (eq_sym E) Hin').
Qed.

(** What is read of a row: the metadata's fields, as they are or through the column. *)
Lemma stored_fields (m : gmap string jval) row : stored_as (MJson (JvObj (encode_map m))) row ->
  exists fields, row = MJson (JvObj fields) /\
    forall k, (m !! k = None -> decode_map fields !! k = None) /\ (forall s, m !! k = Some (JvStr s) -> decode_map fields !! k = Some (JvStr s)).
Proof.
  assert (G : forall fields (f : jval -> jval), (forall s, f (JvStr s) = JvStr s) ->
    (forall kv, kv ∈ fields -> exists v, m !! kv.1 = Some v /\ kv.2 = f v) -> (forall k v, m !! k = Some v -> exists v', (k, v') ∈ fields) ->
    forall k, (m !! k = None -> decode_map fields !! k = None) /\ (forall s, m !! k = Some (JvStr s) -> decode_map fields !! k = Some (JvStr s))).
  { intros fields f Hf H1 H2 k. assert (Hd : forall x, decode_map fields !! k = Some x -> exists v, m !! k = Some v /\ x = f v).
    { intros x Hx%decode_map_elem. apply (H1 (k, x) Hx). }
    split.
    - intros Hn. destruct (decode_map fields !! k) as [x|]; [|done]. destruct (Hd x eq_refl) as (v & Hv & _). congruence.
    - intros s Hs. destruct (H2 _ _ Hs) as (v' & [x Hx]%decode_is_Some). rewrite Hx. destruct (Hd x Hx) as (v & Hv & ->).
      rewrite Hs in Hv. injection Hv as <-. by rewrite Hf. }
  intros [->|(v & number & [= <-] & ->)].
  - eexists. split; [done|]. apply (G _ (fun v => v)); [done| |].
    + intros kv Hkv%encode_map_elem. eauto.
    + intros k v Hk. exists v. by apply encode_map_elem.
  - destruct (jsonb_fields number (encode_map m)) as (l' & -> & G1 & G2). exists l'. split; [done|]. apply (G _ (jsonb number)); [done| |].
    + intros kv (v & Hv & E)%G1. exists v. split; [by apply (encode_map_elem m (kv.1, v))|done].
    + intros k v Hk. apply (G2 k v). by apply encode_map_elem.
Qed.

Lemma untraced_fields m c : untraced m -> exists fields : gmap string jval,
  withTraceContext m c = MJson (JvObj (encode_map (added fields c))) /\ fields !! traceParentKey = None /\ fields !! traceStateKey = None.
Proof.
  destruct m as [|raw|[| | | | | |fields]]; try done.
  - intros _. exists ∅. by rewrite !lookup_empty.
  - intros [H1 H2]. exists (decode_map fields). unfold withTraceContext. by rewrite H1.
Qed.

(** What is stamped into a job's metadata is what its worker continues. *)
Theorem trace_carried m c row : untraced m -> carrier_ok c -> stored_as (withTraceContext m c) row -> traceContextFromMetadata row = c.
Proof.
  intros Hm Hc Hrow. destruct (untraced_fields m c Hm) as (fields & E & Hp & Hs). rewrite E in Hrow.
  destruct (stored_fields _ _ Hrow) as (l & -> & Hl). cbn [traceContextFromMetadata].
  assert (R : forall k c', fields !! (metadataPrefix +:+ k) = None ->
    read_key (decode_map l) (metadataPrefix +:+ k) k c' = match c !! k with Some v => <[k := v]> c' | None => c' end).
  { intros k c' Hk. unfold read_key. destruct (Hl (metadataPrefix +:+ k)) as [H1 H2]. rewrite (added_new fields c k Hk) in H1, H2.
    destruct (c !! k) as [v|] eqn:Ev; cbn in H1, H2.
    - destruct (Hc _ _ Ev) as (_ & Hne & Hj). rewrite (H2 _ eq_refl). cbn. rewrite Hj. by rewrite bool_decide_eq_false_2.
    - by rewrite H1. }
  unfold traceParentKey, traceStateKey in *. rewrite !R by done. apply map_eq. intros k.
  destruct (decide (k = "tracestate")) as [->|H1]; [|destruct (decide (k = "traceparent")) as [->|H2]].
  - destruct (c !! "tracestate"); [by rewrite lookup_insert_eq|]. destruct (c !! "traceparent"); [by rewrite lookup_insert_ne|done].
  - transitivity ((match c !! "traceparent" with Some v => <["traceparent" := v]> (∅ : carrier) | None => ∅ end) !! "traceparent");
      [destruct (c !! "tracestate"); [by rewrite lookup_insert_ne|done]|].
    destruct (c !! "traceparent"); [by rewrite lookup_insert_eq|done].
  - transitivity (None (A := string)).
    + destruct (c !! "tracestate"), (c !! "traceparent"); rewrite ?lookup_insert_ne by done; done.
    + destruct (c !! k) as [v|] eqn:Ev; [|done]. destruct (Hc _ _ Ev) as ([?|?] & _); done.
Qed.

(** *** From the request to the worker *)

Context (inject : nat -> carrier) (extract : carrier -> option nat) (error_text duration : herr -> text).
(** W3C propagation reads back what it wrote. *)
Hypothesis inject_ok : forall n, carrier_ok (inject n) /\ extract (inject n) = Some n.

Definition stamp_params (c : carrier) (p : JobInsertParams) : JobInsertParams := mkJobParams (jp_Kind p) (stamp c (jp_Metadata p)).

(** A job's span continues the span of its insert.  The insert is done once, with the stamped
    parameters, and the job once; each with its own span in the context, whose parent is
    the request's, and the insert's; neither changes what the other layers answer. *)
Theorem trace_continues {S1 S2 : Type} ctx manyParams (insert : inserter (St := S1)) s ctx2 (work : worker (St := S2)) s2 i p job :
  manyParams !! i = Some p -> untraced (jp_Metadata p) -> inject (length s.2) <> ∅ ->
  stored_as (jp_Metadata (stamp_params (inject (length s.2)) p)) (jr_Metadata job) ->
  (exists x, sp_parent x = ctx /\ sp_kind x = SpanKindProducer /\
     let r := insert (Some (length s.2)) (stamp_params (inject (length s.2)) <$> manyParams) (s.1, s.2 ++ [x]) in
     let '(s', err) := InsertMany inject error_text ctx manyParams insert s in s'.1 = r.1.1 /\ err = r.2) /\
  (exists y, sp_parent y = Some (length s.2) /\ sp_kind y = SpanKindConsumer /\
     let r := work (Some (length s2.2)) (s2.1, s2.2 ++ [y]) in
     let '(s', res) := Work extract error_text duration ctx2 job work s2 in s'.1 = r.1.1 /\ res = r.2).
Proof.
  intros Hi Hu Hne Hrow. split.
  - unfold InsertMany, Start. cbv beta iota zeta. fold (stamp_params (inject (length s.2))).
    match goal with |- context [insert _ _ (s.1, s.2 ++ [?x])] => exists x end. split; [reflexivity|]. split; [reflexivity|].
    by destruct (insert _ _ _) as [s' err].
  - destruct (inject_ok (length s.2)) as [Hc He]. unfold stamp_params, stamp in Hrow. cbn [jp_Metadata] in Hrow.
    rewrite bool_decide_eq_false_2 in Hrow by done. unfold Work, Start. rewrite (trace_carried _ _ _ Hu Hc Hrow), He.
    cbv beta iota zeta. match goal with |- context [work _ (s2.1, s2.2 ++ [?x])] => exists x end. split; [reflexivity|]. split; [reflexivity|].
    by destruct (work _ _) as [s' r].
Qed.

(** *** Beside the request ID *)

Lemma trace_key_other k x : k = "traceparent" \/ k = "tracestate" -> is_key (metadataPrefix +:+ k, x) = false.
Proof. intros [->| ->]; vm_compute; reflexivity. Qed.
Lemma stamp_keeps_id c m : carrier_ok c -> keeps_id m (stamp c m).
Proof.
  intros Hc id Hid. unfold stamp. case_bool_decide as Hemp; [exact Hid|]. assert (Hcar := Hid). destruct Hcar as (fields & -> & ([k v] & Hin & Hk) & Hv).
  unfold withTraceContext. destruct (decode_map fields !! traceParentKey); [exact Hid|]. eexists. split; [reflexivity|]. split.
  - destruct (decode_is_Some _ _ _ Hin) as [v' Hv']. exists (k, v'). split; [|exact Hk]. apply encode_map_elem. by apply foldl_add_old.
  - intros [k' x] Hx%encode_map_elem Hk'. cbn in Hx. destruct (foldl_add_inv _ _ _ _ Hx) as [Ho|([k0 v0] & Hin0 & -> & _)].
    + apply (Hv (k', x)); [by apply decode_map_elem|exact Hk'].
    + apply elem_of_map_to_list in Hin0. destruct (Hc _ _ Hin0) as [Hk0 _]. by rewrite (trace_key_other _ _ Hk0) in Hk'.
Qed.

(** The middleware as the worker package sees it: the spans are not its state. *)
Definition middleware_of (n : nat) (row : string -> metadata -> JobRow) : user_mw :=
  mkUserMw (fun _ ps => stamp (inject n) <$> ps)
    (fun kind m next c o =>
       let '(s, r) := Work extract error_text duration None (row kind m) (fun _ s => let '(o, r) := next c s.1 in ((o, s.2), r)) (o, []) in (s.1, r)).

(** The tracing middleware is one of those the request ID and the histogram are accounted
    beside. *)
Theorem tracing_is_transparent n row : transparent (middleware_of n row).
Proof.
  split.
  - intros c ps. cbn. induction ps as [|m ps IH]; constructor; [|exact IH]. apply stamp_keeps_id, inject_ok.
  - intros kind m next c o. exists c. split; [done|]. cbn. unfold Work, Start. by destruct (next c o).
Qed.
End Jobs.

Module TraceSample.
Import River.

(** A propagation that writes the number of a span in strokes. *)
Definition strokes (n : nat) : string := string_of (utf8 (replicate (S n) 97)).
Definition inject (n : nat) : carrier := {["traceparent" := strokes n]}.
Definition extract (c : carrier) : option nat := c !! "traceparent" ≫= fun v => Some (pred (length (runes (bytes_of v)))).
Lemma strokes_runes n : runes (bytes_of (strokes n)) = replicate (S n) 97.
Proof. unfold strokes. rewrite bytes_string. apply runes_utf8, Forall_replicate. vm_compute. intuition congruence. Qed.
Lemma inject_ok n : carrier_ok (inject n) /\ extract (inject n) = Some n.
Proof.
  split.
  - intros k v H. unfold inject in H. apply lookup_singleton_Some in H as [<- <-]. split; [by left|]. split; [|unfold json_string; by rewrite strokes_runes].
    intros E. apply (f_equal (fun s => length (runes (bytes_of s)))) in E. by rewrite strokes_runes in E.
  - unfold extract, inject. rewrite lookup_singleton_eq. cbn [mbind option_bind]. by rewrite strokes_runes, length_replicate.
Qed.

Definition params : list JobInsertParams := [mkJobParams "notify" (MJson (JvObj [("vogel_request_id", JvStr "req-9")])); mkJobParams "notify" MEmpty].
Definition before : nat * list span := (0%nat, [mkSpan None (bytes_of "GET /cases") SpanKindClient [] [] None false]).
(** The queue keeps what it is given; the context of the insert is kept too. *)
Definition insert : inserter (St := nat) := fun ctx ps s => ((s.1 + length ps, s.2)%nat, None).
Definition work : worker (St := nat) := fun ctx s => ((S s.1, s.2), Returned None).
Definition row : JobRow := mkJobRow 7 "notify" "default" 1 (MJson (JvObj [("vogel_request_id", JvStr "req-9"); ("vogel_traceparent", JvStr "aa")])).

Lemma trace_continues_witness : exists y, sp_parent y = Some 1%nat /\ sp_kind y = SpanKindConsumer /\
  sp_parent <$> (Work extract (fun _ => []) (fun _ => []) None row work (0%nat, [])).1.2 !! 0%nat = Some (Some 1%nat).
Proof.
  assert (Hp : params !! 0%nat = Some (mkJobParams "notify" (MJson (JvObj [("vogel_request_id", JvStr "req-9")])))) by reflexivity.
  assert (Hrow : stored_as (jp_Metadata (stamp_params (inject (length before.2)) (mkJobParams "notify" (MJson (JvObj [("vogel_request_id", JvStr "req-9")])))))
    (jr_Metadata row)) by (left; vm_compute; reflexivity).
  destruct (trace_continues inject extract (fun _ => []) (fun _ => []) inject_ok None params insert before None work (0%nat, []) 0%nat _ row Hp)
    as (_ & y & Hy & Hk & _); [vm_compute; split; reflexivity|apply map_non_empty_singleton|exact Hrow|].
  exists y. split; [exact Hy|]. split; [exact Hk|]. vm_compute. reflexivity.
Defined.

(** A comment inside a comment ends with the inner one, and [/*/] passes for a whole one: the
    span is named by a word of the comment. *)
Example nested_comment_names_span :
  Pgx.operationName (bytes_of "/* a /* b */ drop */ SELECT 1") = bytes_of "DROP" /\
  Pgx.operationName (bytes_of "/*/ drop */ SELECT 1") = bytes_of "DROP" /\
  Pgx.operationName (bytes_of "-- first
  /* drop */ select 1") = bytes_of "SELECT".
Proof. vm_compute. auto. Qed.
End TraceSample.

(** ** What is installed *)

Section Installed.
Import Otel.
Context (parse_url : string -> option URL) (new_exporter : URL -> gmap string string -> bool).

(** Tracing is installed when, and only when, the settings name an endpoint and a service and
    the exporter can be made; headers go over TLS only; the ratio is a proper one, never
    zero; everything else leaves the global provider as it was. *)
Theorem setup_checked cfg global :
  match Setup parse_url new_exporter cfg global with
  | (global', inr (Some tp)) =>
      global' = Some tp /\ oc_Endpoint cfg <> "" /\ oc_ServiceName cfg <> "" /\
      (u_Scheme (tp_URL tp) = "https" /\ tp_MinTLS12 tp = true \/ u_Scheme (tp_URL tp) = "http" /\ oc_Headers cfg = ∅) /\
      u_Host (tp_URL tp) <> "" /\ u_Path (tp_URL tp) <> "" /\ tp_Headers tp = oc_Headers cfg /\
      exists q, tp_Ratio tp = Finite q /\ (0 < q)%Q /\ (q <= 1)%Q
  | (global', inr None) => global' = global /\ oc_Endpoint cfg = "" /\ within_unit (oc_SampleRatio cfg) = true
  | (global', inl _) => global' = global
  end.
Proof.
  unfold Setup. destruct (within_unit (oc_SampleRatio cfg)) eqn:Hr; [|done]. cbn [negb]. case_bool_decide as He; [done|].
  destruct (parse_url (oc_Endpoint cfg)) as [u|]; [|done].
  destruct (_ || bool_decide (u_Host u = "")) eqn:Hs; [done|]. apply orb_false_iff in Hs as [Hs Hh%bool_decide_eq_false].
  destruct (bool_decide (oc_ServiceName cfg = "")) eqn:Hn; [done|]. apply bool_decide_eq_false in Hn. destruct (negb (bool_decide (oc_Headers cfg = ∅)) && _) eqn:Hd; [done|].
  destruct (new_exporter _ _); [|done]. cbn [negb tp_URL tp_MinTLS12 tp_Headers tp_Ratio].
  set (u' := if _ : bool then _ else u). assert (Hu : u_Scheme u' = u_Scheme u /\ u_Host u' = u_Host u /\ u_Path u' <> "").
  { unfold u'. destruct (bool_decide (u_Path u = "")) eqn:E1; [done|]. apply bool_decide_eq_false in E1. cbn [orb]. destruct (bool_decide (u_Path u = "/")); cbn; repeat split; done. }
  destruct Hu as (-> & -> & Hp). split; [done|]. split; [done|]. split; [done|]. split.
  - apply andb_false_iff in Hs as [H|H]; apply negb_false_iff, bool_decide_eq_true in H; rewrite H in *; [right|by left].
    split; [done|]. apply andb_false_iff in Hd as [H'|H']; [by apply negb_false_iff, bool_decide_eq_true in H'|done].
  - split; [done|]. split; [done|]. split; [done|]. destruct (oc_SampleRatio cfg) as [| |q]; try done. cbn in Hr |- *.
    apply andb_true_iff in Hr as [H0%Qle_bool_iff H1%Qle_bool_iff]. destruct (Qeq_bool q 0) eqn:Eq.
    + exists DefaultSampleRatio. split; [done|]. split; [done|]. vm_compute. congruence.
    + exists q. split; [done|]. split; [|done]. apply Qeq_bool_neq in Eq. apply Qle_lteq in H0 as [?|H0]; [done|]. by destruct Eq.
Qed.

(** A caller's trace and baggage are taken over only where the service asked for it. *)
Theorem caller_not_trusted opts : WithTrustedPropagation ∉ opts ->
  ho_PublicEndpoint (Middleware opts) = true /\ Baggage ∉ ho_Propagators (Middleware opts).
Proof.
  intros H. assert (G : forall c, mc_trusted c = false -> mc_trusted (fold_left apply_middleware opts c) = false).
  { induction opts as [|o opts IH]; intros c Hc; [done|]. rewrite not_elem_of_cons in H. destruct H as [Ho H]. cbn. apply IH; [done|]. by destruct o. }
  unfold Middleware. rewrite G by done. split; [done|]. cbn. rewrite list_elem_of_singleton. done.
Qed.

(** The span of a notification says that a send failed and nothing of the message. *)
Theorem notification_span_opaque {St E : Type} (next : tctx -> Message -> St * list span -> (St * list span) * option E) ctx msg s :
  (forall c m s0, ((next c m s0).1).2 = s0.2) ->
  (tracedSend next ctx msg s).1.2 = s.2 ++ [mkSpan ctx (bytes_of "notification.send") SpanKindClient [] []
     (match (tracedSend next ctx msg s).2 with Some _ => Some (bytes_of "send failed") | None => None end) true].
Proof.
  intros H. unfold tracedSend, Start. cbv beta iota zeta. specialize (H (Some (length s.2)) msg (s.1, s.2 ++ [mkSpan ctx (bytes_of "notification.send") SpanKindClient [] [] None false])).
  destruct (next _ _ _) as [s' [e|]]; cbn [fst snd] in *; rewrite H, ?on_last; done.
Qed.
End Installed.

Section Collected.
Import PoolMetrics.

(** What is collected was described, once each; a second pool on the same registry is given
    the first one's collector, and reads the first pool. *)
Theorem collected_described stat histograms tracer_of pool pool' (register : PoolMetricsCollector -> registered) c :
  NewPoolMetricsCollector tracer_of pool (fun _ => Registered) = Some c ->
  (Collect stat histograms c).*1 ⊆ Describe /\ NoDup (Collect stat histograms c).*1 /\
  (register (mkCollector pool' (tracer_of pool')) = AlreadyRegistered (inl c) ->
     NewPoolMetricsCollector tracer_of pool' register = Some c /\ pc_pool c = pool).
Proof.
  intros [= <-]. split; [|split].
  - cbn. destruct (tracer_of pool); cbn; set_solver.
  - cbn. destruct (tracer_of pool); cbn; apply (bool_decide_unpack _); vm_compute; exact I.
  - intros H. unfold NewPoolMetricsCollector. by rewrite H.
Qed.
End Collected.
