(* ===== verification/Migrations.v ===== *)
(** The runner of migrations ([migrate/runner.go], [logger.go]): the options, the provider
    built from them, each operation, the table of statuses, and the logger goose is given.

    goose is an argument: whether a database handle, a locker and a provider can be made, and
    what an operation of the provider answers.  What is done is the list of calls made of it.
    The theorems: whatever fails, the database that was opened is closed once and last, goose
    runs at most once, under the lock unless it was disabled; and the table is written whole
    or up to the first write that fails. *)

From stdpp Require Import base gmap list strings.
From Stdlib Require Import ZArith Lia Ascii.
From S2P Require Import Prelude GoStrings GoText.

Open Scope string_scope.
Open Scope list_scope.
Open Scope Z_scope.

(** ** Options *)

Record Options (L : Type) := mkMigrateOptions { mo_Logger : option L; mo_LockID : Z; mo_DisableLock : bool; mo_TableName : string }.
Arguments mkMigrateOptions {_} _ _ _ _.
Arguments mo_Logger {_} _.
Arguments mo_LockID {_} _.
Arguments mo_DisableLock {_} _.
Arguments mo_TableName {_} _.

Section Runner.
Context {L FS : Type} (slog_default : L).

Fixpoint resolveLogger (opts : list (Options L)) : L :=
  match opts with
  | [] => slog_default
  | o :: opts => match mo_Logger o with Some l => l | None => resolveLogger opts end
  end.
Fixpoint resolveLockID (opts : list (Options L)) : Z :=
  match opts with
  | [] => 0
  | o :: opts => if negb (mo_LockID o =? 0) then mo_LockID o else resolveLockID opts
  end.
Fixpoint lockDisabled (opts : list (Options L)) : bool :=
  match opts with
  | [] => false
  | o :: opts => if mo_DisableLock o then true else lockDisabled opts
  end.
Fixpoint resolveTableName (opts : list (Options L)) : string :=
  match opts with
  | [] => ""
  | o :: opts => if negb (bool_decide (mo_TableName o = "")) then mo_TableName o else resolveTableName opts
  end.

(** ** The provider *)

(** A session locker, with goose's own lock or another; and the options of a provider. *)
Inductive locker := DefaultLock | LockID (id : Z).
Record ProviderOptions := mkProviderOptions { pv_Logger : L; pv_TableName : option string; pv_SessionLocker : option locker }.

Inductive operation := OpUp | OpDown | OpUpTo (version : Z) | OpUpByOne | OpStatus.
Inductive event := Opened (dbURL : string) | Ran (p : ProviderOptions) (fsys : FS) (op : operation) | Closed.
Inductive migrate_error := EOpen | ELocker | EProvider (code : nat) | EGoose (code : nat) | EWrite.

Context (open_db : string -> bool) (new_locker : locker -> bool) (new_goose : FS -> ProviderOptions -> option nat).

(** [newProvider]: the calls it makes, and the options of the provider. *)
Definition newProvider (dbURL : string) (fsys : FS) (opts : list (Options L)) : list event * (migrate_error + ProviderOptions) :=
  if negb (open_db dbURL) then ([], inl EOpen)
  else
    let table := resolveTableName opts in
    let p lock := mkProviderOptions (resolveLogger opts) (if bool_decide (table = "") then None else Some table) lock in
    let finish p := match new_goose fsys p with
                    | Some code => ([Opened dbURL; Closed], inl (EProvider code))
                    | None => ([Opened dbURL], inr p)
                    end in
    if negb (lockDisabled opts) then
      let id := resolveLockID opts in
      let l := if id =? 0 then DefaultLock else LockID id in
      if negb (new_locker l) then ([Opened dbURL; Closed], inl ELocker) else finish (p (Some l))
    else finish (p None).

(** ** Operations *)

(** An operation of goose answers or fails; [Close] of the provider closes the database. *)
Context (goose : ProviderOptions -> FS -> operation -> option nat).

Definition run_operation (op : operation) (dbURL : string) (fsys : FS) (opts : list (Options L)) : list event * option migrate_error :=
  match newProvider dbURL fsys opts with
  | (calls, inl e) => (calls, Some e)
  | (calls, inr p) => (calls ++ [Ran p fsys op; Closed], EGoose <$> goose p fsys op)
  end.
Definition Up := run_operation OpUp.
Definition Down := run_operation OpDown.
Definition UpTo (version : Z) := run_operation (OpUpTo version).
Definition UpByOne := run_operation OpUpByOne.

(** *** The table of statuses *)

Record MigrationStatus := mkStatus { ms_Source : option (string * Z); ms_State : string; ms_AppliedAt : option Z }.
Context (rfc3339 : Z -> string) (statuses : ProviderOptions -> FS -> nat + list MigrationStatus).

Definition tab : string := string_of [ascii_of_nat 9].
Definition header_line : string := "VERSION" +:+ tab +:+ "STATE" +:+ tab +:+ "APPLIED AT" +:+ tab +:+ "SOURCE".
Definition status_line (s : MigrationStatus) : string :=
  let '(path, version) := default ("", 0) (ms_Source s) in
  itoa version +:+ tab +:+ ms_State s +:+ tab +:+ default "-" (rfc3339 <$> ms_AppliedAt s) +:+ tab +:+ path.

(** [writes n] is whether the writer takes the n-th line. *)
Fixpoint write_lines (writes : nat -> bool) (n : nat) (lines : list string) : list string * bool :=
  match lines with
  | [] => ([], true)
  | l :: lines => if writes n then let '(out, ok) := write_lines writes (S n) lines in (l :: out, ok) else ([], false)
  end.
Definition Status (writes : nat -> bool) (dbURL : string) (fsys : FS) (opts : list (Options L)) : list event * (list string * option migrate_error) :=
  match newProvider dbURL fsys opts with
  | (calls, inl e) => (calls, ([], Some e))
  | (calls, inr p) =>
      (calls ++ [Ran p fsys OpStatus; Closed],
       match statuses p fsys with
       | inl code => ([], Some (EGoose code))
       | inr l => let '(out, ok) := write_lines writes 0 (header_line :: (status_line <$> l)) in (out, if ok then None else Some EWrite)
       end)
  end.

(** ** Goose's lines *)

(** A value of a line: an error or a [Stringer], with the text [fmt.Sprint] gives it, or
    another. *)
Inductive goose_arg (A : Type) := Printable (rendered : text) | Other (a : A).
Arguments Printable {_} _.
Arguments Other {_} _.
Definition gooseMessage (format : text) : text := rev (GoText.span (Ascii.eqb newline) (rev format)).2.
Definition gooseArgs {A} (v : list (goose_arg A)) : option (list (text + A)) :=
  match v with
  | [] => None
  | _ => Some ((fun x => match x with Printable t => inl t | Other a => inr a end) <$> v)
  end.
Inductive level := LevelInfo | LevelError.
Definition Printf {A} (format : text) (v : list (goose_arg A)) : level * text * option (list (text + A)) := (LevelInfo, gooseMessage format, gooseArgs v).
(** The process exits with 1 after the line. *)
Definition Fatalf {A} (format : text) (v : list (goose_arg A)) : (level * text * option (list (text + A))) * Z :=
  ((LevelError, gooseMessage format, gooseArgs v), 1).

(** ** What every operation does *)

(** The calls of a run: nothing; opened and closed; or opened, run once, and closed. *)
Definition orderly (calls : list event) (dbURL : string) (fsys : FS) (op : operation) (opts : list (Options L)) : Prop :=
  calls = [] \/ calls = [Opened dbURL; Closed] \/
  exists p, calls = [Opened dbURL; Ran p fsys op; Closed] /\
    (pv_SessionLocker p = None <-> lockDisabled opts = true) /\
    pv_SessionLocker p = (if lockDisabled opts then None else Some (if resolveLockID opts =? 0 then DefaultLock else LockID (resolveLockID opts))) /\
    pv_TableName p = (if bool_decide (resolveTableName opts = "") then None else Some (resolveTableName opts)) /\
    pv_Logger p = resolveLogger opts.

Lemma provider_orderly dbURL fsys opts op :
  match newProvider dbURL fsys opts with
  | (calls, inl e) => orderly calls dbURL fsys op opts
  | (calls, inr p) => orderly (calls ++ [Ran p fsys op; Closed]) dbURL fsys op opts
  end.
Proof.
  unfold newProvider, orderly. destruct (open_db dbURL); [|by left]. cbn [negb]. destruct (lockDisabled opts); cbn [negb].
  - destruct (new_goose _ _); [by right; left|]. right; right. eexists. split; [reflexivity|]. done.
  - destruct (new_locker _); cbn [negb]; [|by right; left]. destruct (new_goose _ _); [by right; left|].
    right; right. eexists. split; [reflexivity|]. split; [|done]. split; done.
Qed.

(** Whatever fails, a database that was opened is closed, once and last, and goose runs at
    most once in between: with the first logger, table and lock the options name, and
    without a lock only if they disable it. *)
Theorem run_orderly op dbURL fsys opts : orderly (run_operation op dbURL fsys opts).1 dbURL fsys op opts.
Proof. assert (H := provider_orderly dbURL fsys opts op). unfold run_operation. by destruct (newProvider dbURL fsys opts) as [calls [e|p]]. Qed.

Lemma write_lines_prefix writes n lines : let '(out, ok) := write_lines writes n lines in
  exists rest, lines = out ++ rest /\ (ok = true <-> rest = []) /\ (ok = false -> writes (n + length out)%nat = false).
Proof.
  revert n. induction lines as [|l lines IH]; intros n; cbn [write_lines]; [by exists []|].
  destruct (writes n) eqn:E.
  - specialize (IH (S n)). destruct (write_lines writes (S n) lines) as [out ok]. destruct IH as (rest & -> & H1 & H2).
    exists rest. split; [done|]. split; [done|]. intros Hok. cbn [length]. rewrite <- Nat.add_succ_comm. by apply H2.
  - exists (l :: lines). split; [done|]. split; [done|]. intros _. cbn [length]. by rewrite Nat.add_0_r.
Qed.

(** A status that ends well wrote the heading and a line for each migration; one that cannot
    be written stops at the line the writer refused. *)
Theorem status_written writes dbURL fsys opts :
  let '(calls, (out, err)) := Status writes dbURL fsys opts in
  orderly calls dbURL fsys OpStatus opts /\
  (err = None -> exists p l, statuses p fsys = inr l /\ out = header_line :: (status_line <$> l)) /\
  (err = Some EWrite -> writes (length out) = false /\ exists p l rest, statuses p fsys = inr l /\ header_line :: (status_line <$> l) = out ++ rest /\ rest <> []).
Proof.
  assert (H := provider_orderly dbURL fsys opts OpStatus). unfold Status, newProvider in *.
  destruct (newProvider dbURL fsys opts) as [calls [e|p]] eqn:Ep in *; unfold newProvider in Ep; rewrite Ep in *.
  - split; [exact H|]. split; [done|]. intros [= ->]. exfalso. revert Ep. repeat case_match; congruence.
  - clear Ep. destruct (statuses p fsys) as [code|l] eqn:Es; [by split|].
    assert (W := write_lines_prefix writes 0 (header_line :: (status_line <$> l))).
    destruct (write_lines _ _ _) as [out ok]. destruct W as (rest & E & H1 & H2). split; [exact H|]. destruct ok; split; try done.
    + intros _. exists p, l. split; [done|]. rewrite E, (proj1 H1 eq_refl). by rewrite app_nil_r.
    + intros _. split; [by apply H2|]. exists p, l, rest. split; [done|]. split; [done|]. intros ->. by destruct H1 as [_ H1]; specialize (H1 eq_refl).
Qed.
End Runner.

Module RunnerSample.
Definition opts : list (Options nat) := [mkMigrateOptions None 0 false "audit_version"; mkMigrateOptions (Some 3%nat) 42 false "other"].
(** The provider cannot be made: the database is closed all the same. *)
Example refused_is_closed :
  run_operation 0%nat (fun _ => true) (fun _ => true) (fun (_ : unit) _ => Some 1%nat) (fun _ _ _ => None) OpUp "postgres://db" tt opts
  = ([Opened "postgres://db"; Closed], Some (EProvider 1)).
Proof. vm_compute. reflexivity. Qed.
Example first_options_win :
  (Up 0%nat (fun _ => true) (fun _ => true) (fun (_ : unit) _ => None) (fun _ _ _ => None) "postgres://db" tt opts).1
  = [Opened "postgres://db"; Ran (mkProviderOptions 3%nat (Some "audit_version") (Some (LockID 42))) tt OpUp; Closed].
Proof. vm_compute. reflexivity. Qed.
End RunnerSample.
